(* ===== verification/_CoqProject ===== *)
-Q . S2P
Prelude.v
RateLimit.v
GoStrings.v
Relocate.v
Glob.v
Policy.v
Taxonomy.v
Tasks.v
Disk.v
TaskQueue.v
TaskCodecRef.v
QueueSafety.v
QueueTheorems.v
Schedule.v
MediaPaths.v
MediaVerify.v
MediaSafety.v
SigKeys.v
SigVerify.v
Password.v
Auth.v
AuthSafety.v
AuthSessions.v
Trust.v
SigSafety.v
MediaRegister.v
MediaGate.v
StoreMeta.v
MediaWrite.v
StoreGC.v
StoreSafety.v
Prune.v
PruneSafety.v
Preflight.v
Transfer.v
TransferSafety.v
Browse.v
BrowseTheorems.v
Remotes.v
Promote.v
PromoteSafety.v
MediaImport.v
ImportSafety.v
Publish.v
Sync.v
SyncSafety.v
SyncTheorems.v
Plan.v
PlanTheorems.v
PlanRuns.v
BlobFetch.v
FilePaths.v
OsRoot.v
OsRootFacts.v
Extract.v
ExtractSafety.v
Pack.v
PackRoundtrip.v
FileServer.v
FileSetToy.v
FileServerSafety.v
PackTheorems.v
FileServerTheorems.v
FileSets.v
OciPlan.v
OciLayout.v
OciExport.v
OciImport.v
OciRoundtrip.v
OciTheorems.v
OciCases.v
ConfigValues.v
ConfigPaths.v
Config.v
ConfigTheorems.v
MediaLog.v
ServerTls.v
ServerTlsFacts.v
ServerTlsTheorems.v
Egress.v
