(* ===== verification/Prelude.v ===== *)
(** * Tobby: a verification of its core

    Tobby carries OCI artifacts described by signed recipes from one network zone
    to another, through a registry store on a server or on removable media.  This
    development models the parts of the Go program (under [internal/]) that decide
    what is kept, what is removed, what is trusted and what is served, and proves
    what makes them correct.

    ** The program and its model

    - Naming and admission.  [internal/relocate/relocate.go] maps a nominal
      reference to its place in every store: [Relocate].  [internal/policy/
      allowlist.go] decides which registries may be contacted: [Policy], against
      the glob semantics of [Glob].  [internal/engine/trust.go] loads the trust
      roots and scopes of [internal/config/config.go] and decides what must be
      signed and by whom: [Trust], over the keys of [internal/sigverify/keys.go]:
      [SigKeys].  The verification of both signature layouts ([verify.go],
      [bundle.go] of [internal/sigverify]) is [SigVerify], its results
      [SigSafety].
    - Errors.  [internal/taxonomy] is the closed catalog of error codes, their
      classes and exit codes, and the principal-error rule: [Taxonomy].
    - Work.  [internal/tasks/tasks.go] is the task record, its progress rows and
      its aggregates: [Tasks].  [internal/tasks/queue.go] is the persistent queue,
      its worker, its retention and its listing: [TaskQueue] holds the operations,
      one definition per critical section; [QueueSafety] the step relation that
      interleaves them, restarts and disk faults included, and its invariants;
      [QueueTheorems] the results; [TaskCodecRef] a codec that inhabits the
      interface of [encoding/json].  [internal/schedule] is the reconciliation
      interval and its loop, with the trigger of [internal/cli/serve.go]:
      [Schedule].
    - Media.  [internal/media] writes and verifies a transported store: the path
      grammar is [MediaPaths], the verification of [verify.go] with the data of
      [manifest.go] and [report.go] is [MediaVerify], its results [MediaSafety];
      the production of the manifest is [MediaWrite]; the register of imports is
      [MediaRegister]; the serving gate of [internal/mediagate] is [MediaGate].
      Importing a medium ([internal/engine/mediaimport.go]) joins them with the
      promotion: [MediaImport], its results [ImportSafety].
    - Store.  [internal/store/meta.go] keeps the provenance ledger and the recipe
      graph: [StoreMeta].  [internal/store/gc.go] removes content and collects
      garbage: [StoreGC], with its results in [StoreSafety].  Listings, tag tables,
      counters and the occupancy alarm ([browse.go], [occupancy.go]) are [Browse],
      with their results in [BrowseTheorems].
      [internal/engine/prune.go] aligns the store with the Retriever on top of
      both: [Prune], with its results in [PruneSafety].
    - Engine.  [internal/preflight] and [internal/engine/preflight.go] say whether
      a delivery fits its volume: [Preflight].  The store's writes
      ([internal/store/write.go]) and the copies of [internal/engine/transfer.go]
      are [Transfer], with their results in [TransferSafety].  Reading from the
      registries, the cookbook and the Retriever ([remote.go], [cookbook.go],
      [resolve.go], [retriever.go]) is [Remotes].  Pushing to the destination zone
      ([destination.go], [push.go], [promote.go]) is [Promote], its results
      [PromoteSafety].  One synchronization ([sync.go]), which composes all of
      these, is [Sync]; [SyncSafety] proves what it maintains, and [SyncTheorems]
      runs it on a small registry.  Publishing a recipe ([publish.go]) is
      [Publish].  The plan of a run ([plan.go], [plan_report.go]), whose checks the
      run's gate reads, is [Plan]; its results are in [PlanTheorems], and [PlanRuns]
      computes plans on that registry.
    - Downloads.  [internal/blobfetch] spools large blobs, resumes them and verifies
      them: [BlobFetch].

    - Access.  [internal/auth]: the budget of failures per origin ([ratelimit.go]) is
      [RateLimit], with the [float64] arithmetic it needs; password hashes and their
      encodings are [Password]; accounts, tokens, sessions, the middleware, and the
      handlers of [internal/api] and [internal/ui] that manage them, with their audit
      trail and their secret file ([internal/secretfile]), are [Auth].  [AuthSafety] has
      the results on the store and the surfaces, [AuthSessions] those on the handlers in
      sequence.
    - Files.  [internal/fileserve] packs directories into images and serves the files of
      images.  Names, entry paths and limits are [FilePaths]; packing ([pack.go]) is
      [Pack], with the order of its walk and its inverse in [PackRoundtrip] and
      its results in [PackTheorems]; the extraction of layers ([extract.go]) is [Extract],
      with its results in [ExtractSafety], over the file system confined by [os.Root]:
      [OsRoot], [OsRootFacts].  The cache, [Sync] and the handler ([fileserve.go],
      [handler.go]) are [FileServer], their invariants [FileServerSafety], their results
      [FileServerTheorems], with the small library of [FileSetToy] for evaluated cases.
      The declared sets ([internal/cli/serve.go]) and the listing ([inventory.go]) are
      [FileSets].
    - Layouts.  [internal/ocilayout] leaves with the content and comes back with it, as an
      OCI image layout in a directory or in a tar.  Selections, the plan and the projected
      size ([ocilayout.go], [plan.go]) are [OciPlan]; the media, both readers and the import
      ([read.go], [import.go]) are [OciLayout], with their results in [OciImport]; the staged
      write ([export.go]) is [OciExport].  [OciRoundtrip] says what a plan lists, what a
      write leaves and how it reads back; [OciTheorems] has the results and [OciCases] the
      evaluated cases, over a small library.
    - Configuration.  [internal/config]: sizes, durations and secrets ([size.go],
      [duration.go], [secret.go]) are [ConfigValues]; the places of secrets, and the file
      system with its links they are resolved through ([secretpaths.go], [disjointRoots]),
      are [ConfigPaths]; the sections, the environment and the validation ([config.go],
      [env.go]) are [Config], with their results in [ConfigTheorems].
    - The log of a medium.  [internal/medialog], an append-only file that rotates by
      size, is [MediaLog].
    - The network edges.  The listener's certificate ([internal/netx/servertls.go]), its
      replacement ([internal/tlsadmin]) and the surfaces that offer it
      ([internal/api/network.go], [internal/ui/network_screen.go]) are [ServerTls], over
      files that others change; [ServerTlsFacts] has the invariant and [ServerTlsTheorems]
      the results, with evaluated cases over a small library.  The outbound transport
      ([internal/netx/egress.go]) is [Egress].

    [GoStrings] holds the functions of package [strings] the sources use and
    [Disk] a directory whose every call may fail; this file holds results, 64-bit
    integers, the Go runtime's unspecified choices, and the shared automation.

    ** How code becomes definitions

    A function returning [(T, error)] returns [res E T]; a panic is [None]; state
    under a mutex is a record, and each critical section is a function on it, so
    that concurrent behaviour is the relation whose steps are critical sections
    ([QueueSafety.step], [Schedule.sched_step] with [Schedule.env_step],
    [MediaGate.gate_step]).  [int64] is [Z] with its wrap-around written out where
    it matters.  The engine threads its state through the monad [Transfer.eng]: a
    computation takes the world of a run (the store, the task, the destination, the
    clock) to an outcome, a Go error or a panic, and a world.  The world carries a
    script of events: each call to a registry or to the storage backend takes the
    next one, which says how long it waited, what other writers of the store did
    meanwhile, and whether it fails or panics; theorems quantify over scripts.  The
    goroutines of a run finish in any order, each without interleaving with the
    others ([Sync.Scheduling]).  Instants are integers.  Log lines and metrics are left out, and audit records
    outside [Auth]: no modelled decision reads them.  A handler of [Auth] is a computation
    over the state of the authenticator ([Auth.auth]), whose trail keeps its records.

    What the Go language leaves open - the order of [range] over a map, the place
    of equal elements after [sort.Slice], Unicode case and space tables - is the
    class [GoRuntime]; every theorem holds for all of its instances.  Libraries
    are classes too, with reference instances that show their laws can hold:
    [TaskCodec], [StateCodec] and [RegisterCodec] (JSON), [MediaOracle] (SHA-256,
    JSON decoding, time rendering), [ManifestCodec] and [SigCodec] (JSON of the
    media manifest and of signatures), [SigVerifier] (the verifier media
    verification is given, which [SigSafety] instantiates),
    [KeyLib] (PEM, PKIX and the signature algorithms),
    [StoreIO] (which calls of the store fail, and which repository names the
    registry library accepts), [Contents] and [Documents] (what a digest stands
    for), [RecipeSDK] (the recipe format), [Upstream], [RetrieverIO] and [Zone]
    (what remotes answer), [Publishing] (the artifact of a recipe document),
    [AuthLib] (argon2id and SHA-256),
    [AccountsCodec] (YAML), [Volume] (the file system of the store), [SyncLib] (the chart check),
    [Browsing] (manifest descriptors and image configurations), [BlobTree] (the
    blob directory as a walk meets it), [FileSetLib] (tar, the decompressors, digests and
    the image's JSON), [Privilege] (whether permission bits bind the process),
    [LayoutLib] (go-digest, the JSON of layouts, the grammar of references),
    [DurationLib] ([time.ParseDuration]), [UrlLib] ([url.Parse]), [TlsLibrary] (key pairs,
    certificates and their issue) and [NetLibrary] (the choice of a proxy, PEM bundles, the
    host's authorities).
    File systems fail by script: [Disk] carries the list of faults its next calls
    meet, [StoreIO] says which calls of the store fail, a media directory has
    nodes that do not read, and the file server's cache carries a script of failures,
    partial removals and crashes ([FileServer.cfault]), and so does the destination of an
    export ([OciExport.xfault]), the log of a medium ([MediaLog.lfault]) and the files of the
    listener, which others change between calls ([ServerTls.fs_event]).

    ** What is proved

    - Media: verification always ends with a report ([MediaSafety.Verify_total]);
      what it clears is intact, and complete but for index children
      ([pushable_intact]), and trusted ([pushable_trusted]); the report is consistent; the gate
      serves exactly after a pushable verdict ([MediaGate.gate_serves_cleared]); accepted paths
      stay inside the store; the import register never goes back.
    - Store: a sweep whose mark could read keeps whatever a tag reaches and whatever is
      young, whatever else fails ([StoreSafety.sweep_keeps_reachable]), and a sweep without
      failures removes the rest with an exact count ([sweep_complete]); managed content is refused;
      under the same proviso a prune spares protected and retained content
      ([PruneSafety.prune_protects])
      and, without failures, removes what was dropped ([prune_complete]).
    - Queue: no reachable state orphans a task ([QueueTheorems.no_orphan]), a
      restart recovers every active one ([restart_recovers]), the outcome of a run
      is settled on every path ([execute_settles]), the worker drains the queue
      ([worker_drains]), retention keeps the most recent, pages cover the listing.
    - Scheduling: the interval survives restarts, cycles run only when enabled,
      ticks coalesce.
    - Naming: relocation is injective, the host form canonical, the allowlist
      decides what its globs say, the principal error is well defined.
    - Trust: the first declared scope that matches decides, with the keys it names
      ([Trust.LoadTrust_decides]), and nothing unsigned is cleared outside a
      declared scope: what is cleared has on its medium a signature one of its keys made
      over its digest, or is admitted by a scope the banner names, and then carries no
      signature or the policy has no root to look for one with
      ([SigSafety.cleared_is_vouched]).  Only content with no signature of either
      layout counts as unsigned ([absent_iff_unsigned]), adding a key never
      invalidates ([rotation_overlap]), and what is signed determines the statement
      ([preAuthEncoding_inj]).
    - Media production: a manifest written over a well-formed store, whose names are in
      the grammar of inventory paths, is accepted by its reader and finds its content
      intact ([MediaWrite.written_medium_verifies]).
    - Transfer: the preflight refuses exactly what does not fit
      ([Preflight.Evaluate_exact]); whatever fails, the store never lists an image
      without its blobs ([TransferSafety.copies_keep_closed]); a copy that returns
      has landed whole ([copies_land]), nested indexes included, however deep
      ([copyNestedIndex_total]); the platforms asked for are those selected
      ([selectPlatforms_exact]).
    - Promotion: the destination never exposes an image it cannot serve
      ([PromoteSafety.promotion_keeps_destination_closed]), a published tag is never
      re-pointed ([published_tag_immutable]) and a recipe is published after its
      ingredients, behind a signature accepted over the local copy
      ([published_after_ingredients]).
    - Synchronization: beside writers that remove nothing, and when one item name stands
      for one content, a run leaves the store closed and the recipe graph true
      ([SyncSafety.run_leaves_store_sound]), and a complete run has delivered every
      entry with all of its ingredients and, for those it copied, the children their
      platforms select ([complete_run_delivers]); a refused entry moves nothing
      ([refused_entry_moves_nothing]).
    - Planning: a plan writes nothing ([PlanTheorems.plan_writes_nothing]), gives
      each ingredient the status the run reaches on an instance at rest
      ([plan_predicts_run]), counts each
      digest once ([plan_totals_exact]), stops before the destination when policy
      refuses ([policy_stops_before_destination]) and projects exactly the recipe
      content no longer resolved ([projected_prune_exact]).
    - Browsing: the pages of a listing cover the matching repositories
      ([BrowseTheorems.browse_pages_cover]), a query survives its URL
      ([browse_query_roundtrip]), the tag table is exact ([RepoInfo_table]).
    - Import and publication: the destination changes only by deliveries the
      verification vouched for ([ImportSafety.import_moves_vouched]), an import is
      recorded once everything cleared has arrived ([recorded_import_arrived]) and a
      blocked one names its reason ([blocked_import_named]); a published tag is
      written once, and publishing again answers the same
      ([Publish.publish_write_once], [publish_idempotent]).
    - Access: the registry serves only who a live token or the present hash of an account
      answers for, up to the fingerprint of the cache, with a role that is
      enough ([AuthSafety.registry_admits]); the cache of verified passwords changes no answer ([cached_verification_is_current]); the last
      administrator stays, in memory and on disk ([an_admin_remains]); a revoked token
      stops at once ([revocation_is_immediate]); refusals are recorded once
      ([refusals_recorded]); a session acts under its account's present role
      ([AuthSessions.sessions_follow_accounts]); hashing and verifying round-trip
      ([Password.password_roundtrip]); failures are bounded by the burst and the refill
      ([RateLimit.failures_bounded]), an exhausted origin costs nothing
      ([throttled_verifies_nothing]) and is served again ([throttle_lifts]).
    - Files: extracting a packed tree of searchable directories gives the tree back
      ([PackRoundtrip.pack_extract_roundtrip]), and what is readable of a directory packed,
      declared and synchronized is served byte for byte
      ([FileServerTheorems.packed_tree_served_back]);
      equal trees get equal digests ([PackTheorems.packing_reproducible]); packing lands
      whole ([pack_lands_whole]) and stays in its roots ([packing_confined]); an extraction
      respects its limits ([ExtractSafety.extraction_bounded]); whatever fails or crashes,
      as long as a removal stopped half-way does not leave a completion marker over a part of
      its directory, only complete extractions are served ([served_only_complete]), every
      set is served or reported ([sync_accounts_for_every_set]) and without failures all are
      served ([sync_serves_all]); the inventory lists each repository once
      ([FileSets.inventory_lists]) and an ambiguous index is never resolved by choice
      ([selected_manifest]).
    - Layouts: a whole export of a coherent source imports into an empty store with the same
      tags, documents and blobs ([OciTheorems.export_import_roundtrip]); an import of any
      medium ends ([OciImport.import_total]) and loses nothing ([import_verified]), and when
      no entry failed each is restored whole under its own digest ([import_restores]); an
      export that succeeds is at its destination exactly, and one that does not, whatever
      failed or crashed, has spared it or left some of what it was told to replace
      ([export_in_place]); the projected size of a tar is the size of the archive ([projection_exact]).
    - Configuration: flags, environment, file and defaults decide a setting in that order
      ([ConfigTheorems.effective_setting]); a configuration that validates
      passes each of its checks ([validate_exact]) and a command demands only what it uses
      ([scopes_demand]); a secret is refused exactly when it leads into the store
      ([ConfigPaths.secrets_in_store_exact]); sizes survive a dump
      ([ConfigValues.size_roundtrip]) and passwords do not show in it ([dump_redacts]).
    - The log of a medium: its files hold the last of what was written, in order and each
      record in one piece ([MediaLog.log_journal]), in a bounded space ([log_bounded]), all
      of it on stable storage after a [Sync] ([log_durable]), whatever calls fail.
    - The network edges: the listener always has a certificate
      ([ServerTlsTheorems.listener_always_serves]), the one on disk once others are quiet
      ([listener_follows_disk]); a replacement that is reported is served when nobody else
      writes its files meanwhile ([replacement_served]), and the fingerprint of the fallback
      survives a restart ([fallback_survives]).  An instance trusts exactly what it was given
      ([Egress.trust_exact]) and does not print its proxy password ([password_unprinted]).
    - Downloads: what [BlobFetch.Open] hands over hashes to the digest asked for,
      whatever the spool, the origin and the disk did ([Open_integrity]); it ends with the
      blob when one attempt delivers, and resumes where it was cut at an origin that honours
      ranges ([Open_resumes]), starts over from a mismatch
      ([mismatch_heals]) and offers an abandoned blob again offline ([Open_again]).

    Other theorems state where the code departs from its own documentation, on
    concrete inputs or in general: content lost by the mark
    ([StoreSafety.mark_loses_content]) or with a nested repository
    ([nested_repository_lost]), prunes that take or strand too much
    ([PruneSafety.prune_overreaches], [failed_prune_strands]), a missing
    ingredient that is cleared ([MediaSafety.missing_ingredient_cleared]), corrupt
    content behind an open gate ([MediaGate.unreached_content_served]), a report
    that is lost ([QueueTheorems.pruned_report_lost]), a missed wake-up and a race
    on the interval ([Schedule.lost_wakeup], [set_race]), an overflow in paging
    ([QueueTheorems.ListPage_overflow]), an ambiguous relocation
    ([Relocate.underscore_collision]), a key taken from the working directory
    ([Trust.cwd_key_trusted]), an unknown code ([Tasks.unknown_code_panics]), a
    masked signature ([SigSafety.wellformed_bundle_masked]), inventories that are
    truncated or refused ([MediaWrite.vanished_directory_truncates],
    [stray_name_refused]), a sweep between two blobs of a copy
    ([TransferSafety.sweep_during_copy]), and in [SyncTheorems] runs that forget a
    failed ingredient, ignore a widened selection, decide trust on two names, push
    what a tag names, and publish an index without one of its children; and a
    sidecar that no download recovers from ([BlobFetch.negative_offset_stuck]), a
    vanished file that empties the measured store ([BrowseTheorems.
    vanished_file_empties]), and in [PlanRuns] plans that contact the destination in
    spite of a refusal, forget a refusal, leave the recipe artifact out and project
    less than the run prunes; in [AuthSessions] sessions that outlive a failed removal or
    a demotion during their login, a token that changes a password, a revocation that a
    restart forgets; attempts that pass the gate of the limiter together
    ([RateLimit.gate_passes_together]); in [ExtractSafety] markers beyond the limits, links
    that leave the root, a file written through a link, a widened mode and an order that
    shows; names and roots the packer reads differently from its comments
    ([PackTheorems.pack_name_beyond_grammar], [slash_root_allows_nothing]); a listing that
    panics and a half-removed tree that is served ([FileServerTheorems.
    enabled_panics_after_release], [half_purged_tree_served]); a declaration the
    inventory hides ([FileSets.declaration_shadowed]); in [ConfigPaths] state directories and
    secrets that are in the store unseen, behind a dotted name, a dangling link or a link and
    [..]; a size that is dumped and not read back ([ConfigValues.large_size_not_read_back])
    and repository paths beyond the grammar ([repository_path_beyond_grammar]); in
    [MediaLog] a manifest taken for a log, a rotation that silences it and a bound that
    forgets the live file; in [ServerTlsTheorems] an adoption a restart forgets, an endpoint
    that is no mirror, refusals that leave or serve half a replacement, one that is never
    noticed and an upload that is reported while another writer's pair is served; a user name in a report ([Egress.username_in_summary]); and in
    [OciCases] digests of a medium
    that panic the import or lead out of its directory, a lost child that is reported
    restored, a short repository name that does not come back, platforms and children an
    export leaves out, and a report that counts contents.

    ** Fuel

    Ten recursions are not structural.  The walk over manifests descends at most
    once per inventoried blob, so its fuel is one more than the size of the
    inventory ([MediaVerify.walk_fuel]; [Verify_total] shows it is enough).  The
    mark descends at most once per revision link, so its fuel is one more than
    their number ([StoreSafety.mark_roots_spec] shows it is enough).  The worker's
    loop is given the number of turns, and [worker_drains] says how many empty the
    queue.  Copies and pushes of nested indexes descend with the rank of a document,
    which decreases because no document contains its own digest ([Documents]);
    [copyNestedIndex_total] shows that fuel above it changes nothing.  Skipping spaces
    drops at least a byte per turn, so the length of the text is enough
    ([Password.skip_space]).  The plan's walk stops at the source's own limit of nested
    levels.  Resolving a path under [os.Root] consumes an element or one of the eight links
    the Go library allows ([OsRoot]); its further limit on the number of elements is not
    modelled.  An import descends at most once per file of the medium
    ([OciImport.import_total]), and the plan of an export at most once per manifest of the
    store ([OciTheorems.plan_total]).  Resolving a configured path follows the 255 links the
    Go library follows ([ConfigPaths.walkSymlinks]).

    ** What is not modelled

    The registry protocol and HTTP clients behind the calls above, signature
    cryptography, HTTP and HTML rendering, command-line wiring, the YAML codec of the
    configuration, X.509 and TLS themselves, unit import, byte ranges of served files, and what only Windows
    does. *)

From stdpp Require Export prelude gmap strings list sorting fin_maps.

(** * Go results

    A Go function returning [(T, error)] is a function returning [res E T];
    the early [return err] of the source is the monadic bind of stdpp's
    do-notation ([x ← e; k]). *)

Inductive res (E A : Type) : Type :=
  | Ok (a : A)
  | Err (e : E).
Arguments Ok {E A} a.
Arguments Err {E A} e.

#[export] Instance res_ret E : MRet (res E) := λ A a, Ok a.
#[export] Instance res_bind E : MBind (res E) := λ A B f r,
  match r with Ok a => f a | Err e => Err e end.
#[export] Instance res_fmap E : FMap (res E) := λ A B f r,
  match r with Ok a => Ok (f a) | Err e => Err e end.

#[export] Instance res_eq_dec E A `{EqDecision E, EqDecision A} : EqDecision (res E A).
Proof. solve_decision. Defined.

Definition is_ok {E A} (r : res E A) : bool :=
  match r with Ok _ => true | Err _ => false end.

(** Wraps an error, as [fmt.Errorf("...: %w", err)] does. *)
Definition wrap_err {E F A} (f : E → F) (r : res E A) : res F A :=
  match r with Ok a => Ok a | Err e => Err (f e) end.

(** * Automation *)

Create HintDb go.

(** Case analysis on a [res] in a hypothesis of the shape [mbind _ _ = Ok _]. *)
Lemma res_bind_Ok {E A B} (f : A → res E B) (r : res E A) b :
  r ≫= f = Ok b ↔ ∃ a, r = Ok a ∧ f a = Ok b.
Proof. destruct r; simpl; naive_solver. Qed.

Lemma wrap_err_Ok {E F A} (f : E → F) (r : res E A) a :
  wrap_err f r = Ok a ↔ r = Ok a.
Proof. destruct r; simpl; naive_solver. Qed.

(** [inv_ok] turns every successful bind of the context into the equations of
    its parts. *)
Ltac inv_ok :=
  repeat match goal with
  | H : _ ≫= _ = Ok _ |- _ => apply res_bind_Ok in H as (? & ? & H)
  | H : wrap_err _ _ = Ok _ |- _ => rewrite wrap_err_Ok in H
  | H : Ok _ = Ok _ |- _ => injection H as H; subst
  | H : Err _ = Ok _ |- _ => discriminate H
  | H : Ok _ = Err _ |- _ => discriminate H
  end.

(** [case_bools] splits on every boolean conditional of the goal and of the
    hypotheses, keeping the equation. *)
Ltac case_bool :=
  match goal with
  | |- context [ if ?b then _ else _ ] =>
      match type of b with bool => destruct b eqn:? end
  | H : context [ if ?b then _ else _ ] |- _ =>
      match type of b with bool => destruct b eqn:? end
  end.
Ltac case_bools := repeat (case_bool; simplify_eq/=).

(** Boolean equations to propositions. *)
Lemma orb_false_iff_2 b1 b2 : b1 || b2 = false ↔ b1 = false ∧ b2 = false.
Proof. destruct b1, b2; naive_solver. Qed.

Ltac bools_to_props :=
  repeat match goal with
  | H : _ && _ = true |- _ => apply andb_true_iff in H as [? ?]
  | H : _ || _ = false |- _ => apply orb_false_iff_2 in H as [? ?]
  | H : _ || _ = true |- _ => apply orb_true_iff in H
  | H : negb _ = true |- _ => apply negb_true_iff in H
  | H : negb _ = false |- _ => apply negb_false_iff in H
  | H : bool_decide _ = true |- _ => apply bool_decide_eq_true in H
  | H : bool_decide _ = false |- _ => apply bool_decide_eq_false in H
  | H : String.eqb _ _ = true |- _ => apply String.eqb_eq in H
  | H : String.eqb _ _ = false |- _ => apply String.eqb_neq in H
  | H : Z.ltb _ _ = true |- _ => apply Z.ltb_lt in H
  | H : Z.ltb _ _ = false |- _ => apply Z.ltb_ge in H
  | H : Z.leb _ _ = true |- _ => apply Z.leb_le in H
  | H : Z.leb _ _ = false |- _ => apply Z.leb_gt in H
  end.

(** * Lists of positions *)

Lemma omap_seq_fmap {A B} (f : nat → option B) (g : A → B) (l : list A) k :
  (∀ i x, l !! i = Some x → f (k + i) = Some (g x)) → omap f (seq k (length l)) = g <$> l.
Proof.
  revert k. induction l as [|x l IH]; intros k Hf; [done|]. cbn.
  rewrite <-(Nat.add_0_r k) at 1. rewrite (Hf 0 x eq_refl). f_equal. apply IH.
  intros i y Hi. rewrite Nat.add_succ_comm. by apply Hf.
Qed.
Lemma filter_id {A} (P : A → Prop) `{∀ x, Decision (P x)} (l : list A) : Forall P l → filter P l = l.
Proof. induction 1 as [|x l Hx Hl IH]; [done|]. by rewrite filter_cons_True, IH. Qed.

(** * 64-bit integers

    Go's [int] (on the 64-bit targets the project ships) and [int64] wrap
    around silently. *)

Definition int64_min : Z := (- 2 ^ 63)%Z.
Definition int64_max : Z := (2 ^ 63 - 1)%Z.
Definition wrap64 (z : Z) : Z := ((z + 2 ^ 63) `mod` 2 ^ 64 - 2 ^ 63)%Z.
Definition is_int64 (z : Z) : Prop := (int64_min ≤ z ≤ int64_max)%Z.
Definition add64 (a b : Z) : Z := wrap64 (a + b).
Definition sub64 (a b : Z) : Z := wrap64 (a - b).
Definition mul64 (a b : Z) : Z := wrap64 (a * b).
(** Go's integer division truncates toward zero. *)
Definition quot64 (a b : Z) : Z := wrap64 (Z.quot a b).

Lemma wrap64_is_int64 z : is_int64 (wrap64 z).
Proof.
  unfold is_int64, wrap64, int64_min, int64_max.
  pose proof (Z.mod_pos_bound (z + 2 ^ 63) (2 ^ 64) ltac:(lia)). lia.
Qed.

Lemma wrap64_id z : is_int64 z → wrap64 z = z.
Proof.
  unfold is_int64, wrap64, int64_min, int64_max; intros ?.
  rewrite Z.mod_small; lia.
Qed.
#[export] Hint Resolve wrap64_is_int64 : go.

(** * Unspecified behaviour of the Go library

    Three things the sources use are left open by Go's documentation: the
    order in which [range] visits a map, the order [sort.Slice] gives to
    elements neither of which is less than the other, and, for this model, the
    Unicode tables behind [strings.ToLower] and [strings.TrimSpace] on
    non-ASCII input.  The development is proved for every choice of them. *)

Definition strict_weak {A} (less : A → A → bool) : Prop :=
  (∀ x, less x x = false) ∧
  (∀ x y z, less x y = true → less y z = true → less x z = true) ∧
  (∀ x y z, less x y = false → less y z = false → less x z = false).

(** [y] is not less than [x]: the order a sorted slice satisfies. *)
Definition not_less {A} (less : A → A → bool) (x y : A) : Prop := less y x = false.
#[export] Instance not_less_dec {A} (less : A → A → bool) : RelDecision (not_less less).
Proof. intros x y. unfold not_less. apply _. Defined.

Class GoRuntime : Type := {
  map_range : ∀ {K A : Type} `{Countable K}, gmap K A → list (K * A);
  sort_slice : ∀ {A : Type}, (A → A → bool) → list A → list A;
  unicode_lower : string → string;
  unicode_trim_space : string → string;
  map_range_perm : ∀ K A `{Countable K} (m : gmap K A),
    map_range m ≡ₚ map_to_list m;
  sort_slice_perm : ∀ A (less : A → A → bool) l, sort_slice less l ≡ₚ l;
  sort_slice_sorted : ∀ A (less : A → A → bool) l,
    strict_weak less → Sorted (not_less less) (sort_slice less l);
}.

(** The reference runtime: ascending key encoding, merge sort, and ASCII-only
    case and space tables.  It instantiates the class for evaluation. *)
Definition ref_sort {A} (less : A → A → bool) (l : list A) : list A :=
  merge_sort (not_less less) l.

Lemma ref_sort_sorted {A} (less : A → A → bool) l :
  strict_weak less → Sorted (not_less less) (ref_sort less l).
Proof.
  intros (Hirr & Htr & _). apply Sorted_merge_sort.
  intros x y. unfold not_less. destruct (less y x) eqn:Hyx, (less x y) eqn:Hxy; auto.
  pose proof (Htr _ _ _ Hyx Hxy). rewrite Hirr in *. done.
Qed.

#[export] Program Instance ref_runtime : GoRuntime := {|
  map_range K A _ _ m := map_to_list m;
  sort_slice A less l := ref_sort less l;
  unicode_lower s := s;
  unicode_trim_space s := s;
|}.
Next Obligation. done. Qed.
Next Obligation. intros. apply merge_sort_Permutation. Qed.
Next Obligation. intros. by apply ref_sort_sorted. Qed.

(** * Shared facts on lists, maps and sorting *)

Section ranges.
Context `{GoRuntime}.

Definition map_values `{Countable K} {A} (m : gmap K A) : list A := (map_range m).*2.
Definition map_keys `{Countable K} {A} (m : gmap K A) : list K := (map_range m).*1.

Lemma elem_of_map_range `{Countable K} {A} (m : gmap K A) k x :
  (k, x) ∈ map_range m ↔ m !! k = Some x.
Proof. by rewrite map_range_perm, elem_of_map_to_list. Qed.

Lemma elem_of_map_values `{Countable K} {A} (m : gmap K A) x :
  x ∈ map_values m ↔ ∃ k, m !! k = Some x.
Proof.
  unfold map_values. rewrite list_elem_of_fmap. split.
  - intros ([k y] & -> & Hk). rewrite elem_of_map_range in Hk. eauto.
  - intros (k & Hk). exists (k, x). by rewrite elem_of_map_range.
Qed.

Lemma elem_of_map_keys `{Countable K} {A} (m : gmap K A) k :
  k ∈ map_keys m ↔ is_Some (m !! k).
Proof.
  unfold map_keys. rewrite list_elem_of_fmap. split.
  - intros ([k' y] & -> & Hk). rewrite elem_of_map_range in Hk. eauto.
  - intros (x & Hk). exists (k, x). by rewrite elem_of_map_range.
Qed.

Lemma map_values_perm `{Countable K} {A} (m : gmap K A) :
  map_values m ≡ₚ (map_to_list m).*2.
Proof. unfold map_values. by rewrite map_range_perm. Qed.

Lemma NoDup_map_keys `{Countable K} {A} (m : gmap K A) : NoDup (map_keys m).
Proof. unfold map_keys. rewrite map_range_perm. apply NoDup_fst_map_to_list. Qed.

Lemma elem_of_sort_slice {A} (less : A → A → bool) l x :
  x ∈ sort_slice less l ↔ x ∈ l.
Proof. by rewrite sort_slice_perm. Qed.

Lemma length_sort_slice {A} (less : A → A → bool) l :
  length (sort_slice less l) = length l.
Proof. by rewrite sort_slice_perm. Qed.

(** Sorting by a strict weak order splits a list at any position into a
    prefix no element of which is preceded by an element of the suffix. *)
Lemma sort_slice_split {A} (less : A → A → bool) l n x y :
  strict_weak less →
  x ∈ take n (sort_slice less l) → y ∈ drop n (sort_slice less l) →
  less y x = false.
Proof.
  intros Hsw Hx Hy. pose proof (sort_slice_sorted A less l Hsw) as Hs.
  apply Sorted_StronglySorted in Hs.
  - rewrite <-(take_drop n (sort_slice less l)) in Hs.
    by eapply (StronglySorted_app_1_elem_of _ _ _ x y Hs).
  - destruct Hsw as (_ & _ & Hneg). intros a b c Hab Hbc. by eapply Hneg.
Qed.
End ranges.

(** Orders induced by a key are strict and weak. *)
Lemma strict_weak_Zlt {A} (f : A → Z) : strict_weak (λ x y, f x <? f y)%Z.
Proof. repeat split; intros *; rewrite ?Z.ltb_lt, ?Z.ltb_ge; lia. Qed.

Lemma strict_weak_Zgt {A} (f : A → Z) : strict_weak (λ x y, f y <? f x)%Z.
Proof. repeat split; intros *; rewrite ?Z.ltb_lt, ?Z.ltb_ge; lia. Qed.
#[export] Hint Resolve strict_weak_Zlt strict_weak_Zgt : go.
