(* ===== verification/RateLimit.v ===== *)
(** The budget of failed authentications (internal/auth/ratelimit.go): a token bucket per
    client origin, consulted before a password is hashed and spent when the verification
    failed. Instants are nanoseconds; the budget is a [float64].

    The arithmetic comes first: non-negative [float64] values are rationals, and every
    operation rounds its exact result to 53 significant bits, ties to even.  The
    magnitudes met (a budget and a number of refill periods) are far from the limits of
    the exponent, which is left unbounded. *)

From Stdlib Require Export QArith Qround Qabs.
From Stdlib Require Import Lqa Qpower.
From S2P Require Import Prelude.

Open Scope Q_scope.

(** * Rounding *)

Definition pow2 (e : Z) : Q := Qpower 2 e.

(** The nearest integer, ties to even. *)
Definition nearest (x : Q) : Z :=
  let q := Qfloor x in
  match Qcompare (x - inject_Z q) (1 # 2) with
  | Lt => q
  | Gt => (q + 1)%Z
  | Eq => if Z.even q then q else (q + 1)%Z
  end.
(** The exponent [e] with [2^e <= x < 2^(e+1)] of a positive value. *)
Definition exponent (x : Q) : Z :=
  let e := (Z.log2 (Qnum x) - Z.log2 (Zpos (Qden x)))%Z in
  if Qle_bool (pow2 e) x then e else (e - 1)%Z.
Definition ulp (x : Q) : Q := pow2 (exponent x - 52).
Definition round64 (x : Q) : Q :=
  if Qle_bool x 0 then 0 else Qred (inject_Z (nearest (x / ulp x)) * ulp x).

(** * Its properties *)

Lemma pow2_pos e : 0 < pow2 e.
Proof. apply Qpower_0_lt. lra. Qed.
Lemma pow2_add a b : pow2 (a + b) == pow2 a * pow2 b.
Proof. apply Qpower_plus. lra. Qed.
Lemma pow2_Z e : (0 <= e)%Z → pow2 e == inject_Z (2 ^ e).
Proof. intros He. unfold pow2. by rewrite Zpower_Qpower. Qed.
Lemma pow2_mono a b : (a <= b)%Z → pow2 a <= pow2 b.
Proof. intros H. apply Qpower_le_compat_l; [done|lra]. Qed.

Lemma exponent_spec x : 0 < x → pow2 (exponent x) <= x /\ x < pow2 (exponent x + 1).
Proof.
  intros Hx. destruct x as [n d]. assert (0 < n)%Z as Hn by (unfold Qlt in Hx; cbn in Hx; lia).
  unfold exponent. cbn [Qnum Qden]. set (a := Z.log2 n). set (b := Z.log2 (Zpos d)).
  destruct (Z.log2_spec n Hn) as [Hn1 Hn2]. destruct (Z.log2_spec (Zpos d) eq_refl) as [Hd1 Hd2]. fold a in Hn1, Hn2. fold b in Hd1, Hd2.
  assert (0 <= a)%Z as Ha by apply Z.log2_nonneg. assert (0 <= b)%Z as Hb by apply Z.log2_nonneg.
  assert (n # d == inject_Z n / inject_Z (Zpos d)) as Hq by apply Qmake_Qdiv.
  assert (0 < inject_Z (Zpos d)) as Hd by (by unfold Qlt; cbn; lia).
  assert (n # d < pow2 (a - b + 1)) as Hup.
  { rewrite Hq. apply Qlt_shift_div_r; [done|]. apply (Qlt_le_trans _ (pow2 (Z.succ a))).
    - rewrite pow2_Z by lia. by rewrite <-Zlt_Qlt.
    - replace (Z.succ a) with ((a - b + 1) + b)%Z by lia. rewrite pow2_add. apply Qmult_le_compat_nonneg; split; try apply Qlt_le_weak, pow2_pos; [lra|].
      rewrite pow2_Z by lia. by rewrite <-Zle_Qle. }
  assert (pow2 (a - b - 1) < n # d) as Hlow.
  { rewrite Hq. apply Qlt_shift_div_l; [done|]. apply (Qlt_le_trans _ (pow2 a)).
    - replace a with ((a - b - 1) + Z.succ b)%Z at 2 by lia. rewrite pow2_add. apply Qmult_lt_l; [apply pow2_pos|].
      rewrite pow2_Z by lia. by rewrite <-Zlt_Qlt.
    - rewrite pow2_Z by lia. by rewrite <-Zle_Qle. }
  destruct (Qle_bool (pow2 (a - b)) (n # d)) eqn:E.
  - apply Qle_bool_iff in E. done.
  - assert (n # d < pow2 (a - b)) as E'.
    { apply Qnot_le_lt. intros Hle. apply Qle_bool_iff in Hle. congruence. }
    split; [by apply Qlt_le_weak|]. by replace (a - b - 1 + 1)%Z with (a - b)%Z by lia.
Qed.

Lemma nearest_close x : inject_Z (nearest x) - (1 # 2) <= x /\ x <= inject_Z (nearest x) + (1 # 2).
Proof.
  unfold nearest. pose proof (Qfloor_le x) as Hl. pose proof (Qlt_floor x) as Hu. rewrite inject_Z_plus in Hu. cbn in Hu.
  assert (inject_Z (Qfloor x + 1) == inject_Z (Qfloor x) + 1) as Hs by (by rewrite inject_Z_plus).
  destruct (Qcompare_spec (x - inject_Z (Qfloor x)) (1 # 2)); [destruct (Z.even _)| |]; rewrite ?Hs; change (inject_Z 1) with 1 in Hu; lra.
Qed.
Lemma nearest_Z n x : x == inject_Z n → nearest x = n.
Proof.
  intros Hx. unfold nearest. assert (Qfloor x = n) as -> by (rewrite Hx; apply Qfloor_Z).
  destruct (Qcompare_spec (x - inject_Z n) (1 # 2)); [lra|done|lra].
Qed.
Lemma nearest_mono x y : x <= y → (nearest x <= nearest y)%Z.
Proof.
  intros Hxy. pose proof (Qfloor_resp_le _ _ Hxy) as Hf. unfold nearest.
  assert (∀ z : Z, (z <= z + 1)%Z) by lia.
  destruct (decide (Qfloor x = Qfloor y)) as [E|E].
  - rewrite E. destruct (Qcompare_spec (x - inject_Z (Qfloor y)) (1 # 2)), (Qcompare_spec (y - inject_Z (Qfloor y)) (1 # 2)); try destruct (Z.even _); try lia; lra.
  - destruct (Qcompare_spec (x - inject_Z (Qfloor x)) (1 # 2)), (Qcompare_spec (y - inject_Z (Qfloor y)) (1 # 2)); repeat destruct (Z.even _); lia.
Qed.

Lemma round64_pos x : 0 < x → round64 x == inject_Z (nearest (x / ulp x)) * ulp x.
Proof.
  intros Hx. unfold round64. destruct (Qle_bool x 0) eqn:E; [apply Qle_bool_iff in E; lra|]. apply Qred_correct.
Qed.
Lemma round64_neg x : x <= 0 → round64 x = 0.
Proof. intros Hx. unfold round64. apply Qle_bool_iff in Hx. by rewrite Hx. Qed.
Lemma ulp_bounds x : 0 < x → inject_Z (2 ^ 52) * ulp x <= x /\ x < inject_Z (2 ^ 53) * ulp x.
Proof.
  intros Hx. destruct (exponent_spec x Hx) as [H1 H2]. unfold ulp. rewrite <-!pow2_Z by lia. rewrite <-!pow2_add.
  by replace (52 + (exponent x - 52))%Z with (exponent x) by lia; replace (53 + (exponent x - 52))%Z with (exponent x + 1)%Z by lia.
Qed.
Lemma scaled_bounds x : 0 < x → inject_Z (2 ^ 52) <= x / ulp x /\ x / ulp x < inject_Z (2 ^ 53).
Proof.
  intros Hx. destruct (ulp_bounds x Hx) as [H1 H2]. pose proof (pow2_pos (exponent x - 52)) as Hu. fold (ulp x) in Hu.
  split; [by apply Qle_shift_div_l|by apply Qlt_shift_div_r].
Qed.
(** The rounded significand has 53 bits, or is the next power of two. *)
Lemma nearest_bounds x : 0 < x → (2 ^ 52 <= nearest (x / ulp x) <= 2 ^ 53)%Z.
Proof.
  intros Hx. destruct (scaled_bounds x Hx) as [H1 H2]. apply nearest_mono in H1. apply Qlt_le_weak, nearest_mono in H2.
  by rewrite !(nearest_Z _ _ (Qeq_refl _)) in *.
Qed.
(** The relative error is at most 2^-53. *)
Lemma round64_error x : 0 <= x → round64 x - x <= x * pow2 (-53) /\ x - round64 x <= x * pow2 (-53).
Proof.
  intros Hx. destruct (Qlt_le_dec 0 x) as [Hp|Hn].
  2:{ rewrite round64_neg by done. assert (x == 0) as -> by lra. pose proof (pow2_pos (-53)). lra. }
  rewrite (round64_pos x Hp). pose proof (pow2_pos (exponent x - 52)) as Hu. fold (ulp x) in Hu.
  destruct (nearest_close (x / ulp x)) as [H1 H2]. destruct (ulp_bounds x Hp) as [Hb _].
  assert (x == (x / ulp x) * ulp x) as Hd by (field; lra).
  assert (ulp x * (1 # 2) <= x * pow2 (-53)) as Hh.
  { assert (pow2 (-53) * inject_Z (2 ^ 52) == 1 # 2) as E by done. pose proof (pow2_pos (-53)) as H53.
    apply (Qmult_le_compat_r _ _ (pow2 (-53))) in Hb; [|by apply Qlt_le_weak].
    assert (inject_Z (2 ^ 52) * ulp x * pow2 (-53) == ulp x * (1 # 2)) as E' by (rewrite <-E; ring). by rewrite E' in Hb. }
  set (s := x / ulp x) in *. set (n := inject_Z (nearest s)) in *. set (u := ulp x) in *.
  assert ((n - s) * u <= (1 # 2) * u) as Ha by (apply Qmult_le_compat_r; lra).
  assert ((s - n) * u <= (1 # 2) * u) as Hb' by (apply Qmult_le_compat_r; lra). lra.
Qed.
Lemma exponent_mono x y : 0 < x → x <= y → (exponent x <= exponent y)%Z.
Proof.
  intros Hx Hxy. destruct (exponent_spec x Hx) as [H1 _]. destruct (exponent_spec y) as [_ H2]; [lra|].
  destruct (Z.le_gt_cases (exponent x) (exponent y)) as [|Hgt]; [done|]. assert (pow2 (exponent y + 1) <= pow2 (exponent x)) by (apply pow2_mono; lia). lra.
Qed.
Lemma round64_mono x y : x <= y → round64 x <= round64 y.
Proof.
  intros Hxy. destruct (Qlt_le_dec 0 x) as [Hx|Hx].
  2:{ rewrite (round64_neg x Hx). destruct (Qlt_le_dec 0 y) as [Hy|Hy]; [|by rewrite round64_neg].
      rewrite (round64_pos y Hy). pose proof (nearest_bounds y Hy). pose proof (pow2_pos (exponent y - 52)) as Hu.
      apply Qmult_le_0_compat; [|by apply Qlt_le_weak]. change 0 with (inject_Z 0). rewrite <-Zle_Qle. lia. }
  assert (0 < y) as Hy by lra. rewrite (round64_pos x Hx), (round64_pos y Hy). pose proof (exponent_mono x y Hx Hxy) as He.
  pose proof (pow2_pos (exponent x - 52)) as Hux. pose proof (pow2_pos (exponent y - 52)) as Huy. fold (ulp x) in Hux. fold (ulp y) in Huy.
  destruct (decide (exponent x = exponent y)) as [E|E].
  - assert (ulp x = ulp y) as Eu by (unfold ulp; by rewrite E). rewrite Eu. apply Qmult_le_compat_r; [|lra].
    rewrite <-Zle_Qle. apply nearest_mono. rewrite <-Eu. unfold Qdiv. apply Qmult_le_compat_r; [done|]. apply Qinv_le_0_compat. lra.
  - pose proof (nearest_bounds x Hx) as [_ Hx2]. pose proof (nearest_bounds y Hy) as [Hy1 _].
    rewrite Zle_Qle in Hx2, Hy1. apply (Qmult_le_compat_r _ _ (ulp x)) in Hx2; [|lra]. apply (Qmult_le_compat_r _ _ (ulp y)) in Hy1; [|lra].
    apply (Qle_trans _ _ _ Hx2). apply (Qle_trans _ (inject_Z (2 ^ 52) * ulp y)); [|done]. unfold ulp. rewrite <-!pow2_Z by lia. rewrite <-!pow2_add.
    apply pow2_mono. lia.
Qed.
(** Integers of 53 bits are exact. *)
Lemma round64_Z n : (0 <= n <= 2 ^ 53)%Z → round64 (inject_Z n) == inject_Z n.
Proof.
  intros Hn. destruct (decide (n = 0)%Z) as [->|Hz]; [done|]. assert (0 < inject_Z n) as Hp by (change 0 with (inject_Z 0); rewrite <-Zlt_Qlt; lia).
  rewrite (round64_pos _ Hp). set (e := exponent (inject_Z n)). destruct (exponent_spec _ Hp) as [H1 H2]. fold e in H1, H2.
  change (ulp (inject_Z n)) with (pow2 (e - 52)). pose proof (pow2_pos (e - 52)) as Hu.
  assert (0 <= e)%Z as He0.
  { destruct (Z.le_gt_cases 0 e) as [|Hlt]; [done|]. assert (pow2 (e + 1) <= pow2 0) as Hle by (apply pow2_mono; lia).
    change (pow2 0) with (inject_Z 1) in Hle. assert (inject_Z n < inject_Z 1) as Hlt1 by lra. rewrite <-Zlt_Qlt in Hlt1. lia. }
  assert (e <= 53)%Z as He1.
  { destruct (Z.le_gt_cases e 53) as [|Hgt]; [done|]. assert (pow2 54 <= pow2 e) as Hle by (apply pow2_mono; lia).
    rewrite (pow2_Z 54) in Hle by lia. assert (inject_Z (2 ^ 54) <= inject_Z n) as Hl by lra. rewrite <-Zle_Qle in Hl. lia. }
  destruct (decide (e = 53)%Z) as [E|E].
  - rewrite E, pow2_Z in H1 by lia. rewrite <-Zle_Qle in H1. assert (n = 2 ^ 53)%Z as -> by lia. by vm_compute.
  - assert (inject_Z n / pow2 (e - 52) == inject_Z (n * 2 ^ (52 - e))) as Hd.
    { rewrite inject_Z_mult. rewrite <-pow2_Z by lia.
      assert (pow2 (52 - e) * pow2 (e - 52) == 1) as Hone by (rewrite <-pow2_add; by replace (52 - e + (e - 52))%Z with 0%Z by lia).
      apply (Qmult_inj_r _ _ (pow2 (e - 52))); [lra|]. rewrite <-Qmult_assoc, Hone. field. lra. }
    rewrite (nearest_Z _ _ Hd). rewrite <-Hd. field. lra.
Qed.
Lemma round64_ge n x : (0 <= n <= 2 ^ 53)%Z → inject_Z n <= x → inject_Z n <= round64 x.
Proof. intros Hn Hx. rewrite <-(round64_Z n Hn) at 1. by apply round64_mono. Qed.
Lemma round64_le n x : (0 <= n <= 2 ^ 53)%Z → x <= inject_Z n → round64 x <= inject_Z n.
Proof. intros Hn Hx. rewrite <-(round64_Z n Hn). by apply round64_mono. Qed.
#[export] Instance round64_Proper : Proper (Qeq ==> Qeq) round64.
Proof. intros x y Hxy. apply Qle_antisym; apply round64_mono; rewrite Hxy; apply Qle_refl. Qed.
Lemma inject_Z_sub a b : inject_Z (a - b) == inject_Z a - inject_Z b.
Proof. unfold Z.sub. by rewrite inject_Z_plus, inject_Z_opp. Qed.

(** * The limiter *)

Definition failureBurst : Q := 10.
Definition failureRefill : Z := 30 * 1000000000.
Definition failureOrigins : nat := 4096.

(** [time.Time.Sub] saturates at the limits of a [Duration]. *)
Definition time_sub (t u : Z) : Z := Z.max int64_min (Z.min int64_max (t - u)).

(** [failureBucket] and [failureLimiter]; the nil table is the empty one. *)
Record failureBucket := mkBucket { fb_remaining : Q; fb_updated : Z }.
Abbreviation failureLimiter := (gmap string failureBucket).

Definition Qltb (x y : Q) : bool := negb (Qle_bool y x).
Definition refill (elapsed : Z) (remaining : Q) : Q :=
  let r := round64 (remaining + round64 (round64 (inject_Z elapsed) / inject_Z failureRefill)) in
  if Qltb failureBurst r then failureBurst else r.
Definition refreshLocked (now : Z) (b : failureBucket) : failureBucket :=
  let elapsed := time_sub now (fb_updated b) in
  mkBucket (if (0 <? elapsed)%Z then refill elapsed (fb_remaining b) else fb_remaining b) now.
Definition limiter_allowed (origin : string) (now : Z) (l : failureLimiter) : bool * failureLimiter :=
  match l !! origin with
  | None => (true, l)
  | Some b =>
      let b := refreshLocked now b in
      (Qle_bool 1 (fb_remaining b), <[origin := b]> l)
  end.
Definition sweepLocked (now : Z) (l : failureLimiter) : failureLimiter :=
  if decide (size l < failureOrigins)%nat then l
  else
    let l := omap (λ b, let b := refreshLocked now b in if Qle_bool failureBurst (fb_remaining b) then None else Some b) l in
    if decide (failureOrigins ≤ size l)%nat then ∅ else l.
Definition spend (r : Q) : Q := if Qltb (r - 1) 0 then 0 else round64 (r - 1).
Definition limiter_record (origin : string) (now : Z) (l : failureLimiter) : bool * failureLimiter :=
  let '(b, l) :=
    match l !! origin with
    | Some b => (b, l)
    | None => (mkBucket failureBurst now, sweepLocked now l)
    end in
  let b := refreshLocked now b in
  let after := spend (fb_remaining b) in
  (Qle_bool 1 (fb_remaining b) && Qltb after 1, <[origin := mkBucket after now]> l).

(** * The range of a budget *)

Lemma Qltb_spec x y : Qltb x y = true ↔ x < y.
Proof.
  unfold Qltb. destruct (Qle_bool y x) eqn:E; cbn.
  - split; [done|]. intros. apply Qle_bool_iff in E. lra.
  - split; [|done]. intros _. apply Qnot_le_lt. intros Hl. apply Qle_bool_iff in Hl. congruence.
Qed.
Lemma Qltb_false x y : Qltb x y = false ↔ y <= x.
Proof. unfold Qltb. by rewrite negb_false_iff, Qle_bool_iff. Qed.

Definition in_budget (b : failureBucket) : Prop := 0 <= fb_remaining b <= failureBurst.
Lemma Z2Q_nonneg z : (0 <= z)%Z → 0 <= inject_Z z.
Proof. intros. change 0 with (inject_Z 0). by rewrite <-Zle_Qle. Qed.
Lemma round64_nonneg x : 0 <= round64 x.
Proof.
  destruct (Qlt_le_dec 0 x) as [Hx|Hx]; [|rewrite round64_neg; lra].
  apply (round64_ge 0); [lia|]. change (inject_Z 0) with 0. lra.
Qed.
Lemma periods_nonneg elapsed : 0 <= round64 (round64 (inject_Z elapsed) / inject_Z failureRefill).
Proof. apply round64_nonneg. Qed.
Lemma refill_range elapsed r : 0 <= r → 0 <= refill elapsed r <= failureBurst.
Proof.
  intros Hr. unfold refill. destruct (Qltb failureBurst _) eqn:E; [unfold failureBurst; lra|].
  apply Qltb_false in E. split; [apply round64_nonneg|done].
Qed.
Lemma refresh_in_budget now b : in_budget b → in_budget (refreshLocked now b).
Proof. intros Hb. unfold in_budget, refreshLocked. cbn. destruct (_ <? _)%Z; [apply refill_range, Hb|done]. Qed.
Lemma spend_range r : 0 <= r <= failureBurst → 0 <= spend r <= failureBurst.
Proof.
  intros Hr. unfold spend. destruct (Qltb _ _) eqn:E; [unfold failureBurst; lra|]. split; [apply round64_nonneg|].
  apply (round64_le 10); [lia|]. change (inject_Z 10) with 10. unfold failureBurst in Hr. lra.
Qed.
Definition limiter_ok (l : failureLimiter) : Prop := map_Forall (λ _, in_budget) l ∧ (size l ≤ failureOrigins)%nat.
Lemma sweep_room now l : (size l ≤ failureOrigins)%nat → (size (sweepLocked now l) < failureOrigins)%nat.
Proof.
  intros Hl. unfold sweepLocked. destruct (decide _) as [H|H]; [done|]. cbv zeta. destruct (decide _) as [E|E]; [|by apply Nat.nle_gt]. rewrite map_size_empty. apply Nat.lt_0_succ.
Qed.
Lemma sweep_in_budget now l : map_Forall (λ _, in_budget) l → map_Forall (λ _, in_budget) (sweepLocked now l).
Proof.
  intros Hl. unfold sweepLocked. case_decide; [done|]. case_decide; [apply map_Forall_empty|]. intros o b Hb. rewrite lookup_omap in Hb.
  destruct (l !! o) as [b0|] eqn:E; [|done]. cbn in Hb. destruct (Qle_bool _ _); [done|]. injection Hb as <-. by apply refresh_in_budget, (Hl o).
Qed.
Lemma insert_size_le (l : failureLimiter) o b n : (size l ≤ n)%nat → is_Some (l !! o) ∨ (size l < n)%nat → (size (<[o := b]> l) ≤ n)%nat.
Proof.
  intros Hn Ho. destruct (l !! o) as [b0|] eqn:E; [by rewrite map_size_insert_Some by done|].
  rewrite map_size_insert_None by done. destruct Ho as [[? ?]|]; [done|lia].
Qed.
(** Whatever is asked and recorded, the table keeps at most [failureOrigins] origins,
    each with a budget between 0 and [failureBurst]. *)
Lemma allowed_ok o now l : limiter_ok l → limiter_ok (limiter_allowed o now l).2.
Proof.
  intros [Hl Hs]. unfold limiter_allowed. destruct (l !! o) as [b|] eqn:E; [|done]. cbn. split.
  - apply map_Forall_insert_2; [by apply refresh_in_budget, (Hl o)|done].
  - apply insert_size_le; [done|by left].
Qed.
Lemma record_ok o now l : limiter_ok l → limiter_ok (limiter_record o now l).2.
Proof.
  intros [Hl Hs]. unfold limiter_record. destruct (l !! o) as [b|] eqn:E; cbn.
  - split; [|apply insert_size_le; [done|by left]]. apply map_Forall_insert_2; [|done]. apply spend_range. apply (refresh_in_budget now b), (Hl o), E.
  - split.
    + apply map_Forall_insert_2; [|by apply sweep_in_budget]. apply spend_range.
      apply (refresh_in_budget now (mkBucket failureBurst now)). unfold in_budget. cbn. unfold failureBurst. lra.
    + apply insert_size_le; [pose proof (sweep_room now l Hs); lia|right]. by apply sweep_room.
Qed.

(** The table stays well formed. Whatever is asked and recorded, in any order, from any
    origins and at any instants, it keeps at most [failureOrigins] origins, each with a
    budget between nothing and [failureBurst]. *)
Theorem limiter_well_formed (calls : list (bool * string * Z)) :
  limiter_ok (fold_left (λ l '(failed, o, now), if failed : bool then (limiter_record o now l).2 else (limiter_allowed o now l).2) calls ∅).
Proof.
  assert (∀ l, limiter_ok l → limiter_ok (fold_left (λ l '(failed, o, now), if failed : bool then (limiter_record o now l).2 else (limiter_allowed o now l).2) calls l)) as Hall.
  { induction calls as [|[[[] o] now] calls IH]; intros l Hl; [done|..]; cbn [fold_left]; apply IH; [by apply record_ok|by apply allowed_ok]. }
  apply Hall. split; [apply map_Forall_empty|]. unfold failureOrigins. rewrite map_size_empty. lia.
Qed.

(** * The bound on failures *)

(** Refill and spending as exact arithmetic, up to the rounding. *)
Definition slack : Q := pow2 (-47).
Lemma slack_value : slack == 1 # 140737488355328.
Proof. done. Qed.
Lemma pow2_53 : pow2 (-53) == 1 # 9007199254740992.
Proof. done. Qed.
Lemma refill_bound elapsed r :
  (0 < elapsed)%Z → 0 <= r <= failureBurst → refill elapsed r <= r + inject_Z elapsed / inject_Z failureRefill + slack.
Proof.
  intros He Hr. pose proof (refill_range elapsed r (proj1 Hr)) as [_ Hmax]. unfold refill in *.
  change (inject_Z failureRefill) with 30000000000 in *. unfold failureBurst in *.
  assert (0 < inject_Z elapsed) as Hp by (change 0 with (inject_Z 0); by rewrite <-Zlt_Qlt).
  set (e := inject_Z elapsed) in *. pose proof (round64_error e (Qlt_le_weak _ _ Hp)) as [H1 _].
  rewrite pow2_53 in H1. set (e' := round64 e) in *. assert (0 <= e') as He' by apply round64_nonneg.
  assert (e / 30000000000 == e * (1 # 30000000000)) as -> by (by unfold Qdiv).
  assert (e' / 30000000000 == e' * (1 # 30000000000)) as Ed by (by unfold Qdiv). set (q := e' / 30000000000) in *.
  pose proof (round64_error q ltac:(lra)) as [H2 _]. rewrite pow2_53 in H2. set (y := round64 q) in *.
  assert (0 <= y) as Hy by apply round64_nonneg. pose proof (round64_error (r + y) ltac:(lra)) as [H3 _]. rewrite pow2_53 in H3.
  set (s := round64 (r + y)) in *. rewrite slack_value.
  destruct (Qlt_le_dec (e * (1 # 30000000000)) 10) as [Hx|Hx]; [|lra].
  destruct (Qltb 10 s) eqn:E; [apply Qltb_spec in E|]; lra.
Qed.
Lemma refresh_bound now b :
  (fb_updated b <= now)%Z → in_budget b →
  fb_remaining (refreshLocked now b) <= fb_remaining b + inject_Z (now - fb_updated b) / inject_Z failureRefill + slack.
Proof.
  intros Hu Hb. unfold refreshLocked. cbn [fb_remaining]. change (inject_Z failureRefill) with 30000000000.
  pose proof (Z2Q_nonneg (now - fb_updated b) ltac:(lia)) as Hn. unfold Qdiv. change (/ 30000000000) with (1 # 30000000000).
  assert (0 <= slack) as Hs by (apply Qlt_le_weak, pow2_pos). destruct (Z.ltb_spec 0 (time_sub now (fb_updated b))) as [Hlt|Hlt]; [|lra].
  pose proof (refill_bound _ _ Hlt Hb) as Hr. change (inject_Z failureRefill) with 30000000000 in Hr. unfold Qdiv in Hr. change (/ 30000000000) with (1 # 30000000000) in Hr.
  assert (inject_Z (time_sub now (fb_updated b)) <= inject_Z (now - fb_updated b)) as Hm.
  { rewrite <-Zle_Qle. unfold time_sub, int64_min, int64_max in *. lia. }
  lra.
Qed.
Lemma refresh_keeps_one now b : 1 <= fb_remaining b → 1 <= fb_remaining (refreshLocked now b).
Proof.
  intros Hb. unfold refreshLocked. cbn. destruct (_ <? _)%Z; [|done]. unfold refill. destruct (Qltb _ _); [unfold failureBurst; lra|].
  apply (round64_ge 1); [lia|]. change (inject_Z 1) with 1. pose proof (periods_nonneg (time_sub now (fb_updated b))). lra.
Qed.
Lemma spend_bound r : 1 <= r <= failureBurst → spend r <= r - 1 + slack.
Proof.
  intros Hr. unfold spend, failureBurst in *. destruct (Qltb (r - 1) 0) eqn:E; [apply Qltb_spec in E; lra|].
  pose proof (round64_error (r - 1) ltac:(lra)) as [H _]. rewrite pow2_53 in H. rewrite slack_value. lra.
Qed.

(** One attempt as a surface makes it ([authenticateAudited], the login form): the gate,
    then the verification, then the failure recorded. *)
Record attempt := mkAttempt { at_origin : string; at_check : Z; at_record : Z; at_valid : bool }.
Definition attempt_step (a : attempt) (l : failureLimiter) : bool * failureLimiter :=
  let '(ok, l) := limiter_allowed (at_origin a) (at_check a) l in
  if ok && negb (at_valid a) then (true, (limiter_record (at_origin a) (at_record a) l).2) else (false, l).
(** The failed verifications an origin obtained over a sequence of attempts. *)
Fixpoint failures (o : string) (tr : list attempt) (l : failureLimiter) : nat :=
  match tr with
  | [] => 0
  | a :: tr =>
      let '(failed, l) := attempt_step a l in
      (if failed && String.eqb (at_origin a) o then 1 else 0) + failures o tr l
  end%nat.
(** Clocks that do not go back. *)
Fixpoint ordered (t0 : Z) (tr : list attempt) (t1 : Z) : Prop :=
  match tr with
  | [] => (t0 <= t1)%Z
  | a :: tr => (t0 <= at_check a <= at_record a)%Z ∧ ordered (at_record a) tr t1
  end.
Lemma ordered_le t0 tr t1 : ordered t0 tr t1 → (t0 <= t1)%Z.
Proof. revert t0. induction tr as [|a tr IH]; intros t0 H; cbn in H; [done|]. destruct H as [? H]. apply IH in H. lia. Qed.

(** What an origin may still fail until [t1]. *)
Definition credit (o : string) (t0 t1 : Z) (l : failureLimiter) : Q :=
  match l !! o with
  | None => failureBurst + inject_Z (t1 - t0) / inject_Z failureRefill
  | Some b => fb_remaining b + inject_Z (t1 - fb_updated b) / inject_Z failureRefill
  end.
(** The table is within a set of origins small enough never to be swept, and no bucket
    is dated in the future. *)
Record tracked (S : gset string) (t0 : Z) (l : failureLimiter) : Prop := {
  tk_dom : dom l ⊆ S;
  tk_budget : map_Forall (λ _, in_budget) l;
  tk_past : map_Forall (λ _ b, (fb_updated b <= t0)%Z) l }.
Lemma not_swept S t0 l o now : tracked S t0 l → (size S ≤ failureOrigins)%nat → o ∈ S → l !! o = None → sweepLocked now l = l.
Proof.
  intros [Hd _ _] HS Ho Hl. unfold sweepLocked. destruct (decide _) as [|Hn]; [done|]. exfalso. apply Hn.
  rewrite <-size_dom. apply (Nat.lt_le_trans _ (size S)); [|done]. apply subset_size. split; [done|]. intros Hsub.
  apply Hsub, elem_of_dom in Ho. rewrite Hl in Ho. by destruct Ho.
Qed.
Lemma tracked_insert S t0 t1 l o b :
  tracked S t0 l → (t0 <= t1)%Z → o ∈ S → in_budget b → (fb_updated b <= t1)%Z → tracked S t1 (<[o := b]> l).
Proof.
  intros [Hd Hb Hp] Ht Ho Hb' Hu. split.
  - rewrite dom_insert. set_solver.
  - by apply map_Forall_insert_2.
  - apply map_Forall_insert_2; [done|]. intros o' b' E. specialize (Hp o' b' E). cbn in Hp. lia.
Qed.
Lemma tracked_later S t0 t1 l : tracked S t0 l → (t0 <= t1)%Z → tracked S t1 l.
Proof. intros [Hd Hb Hp] Ht. split; [done|done|]. intros o' b' E. specialize (Hp o' b' E). cbn in Hp. lia. Qed.
Ltac refill_lra :=
  repeat match goal with
  | H : context [inject_Z (_ - _)] |- _ => rewrite inject_Z_sub in H
  | |- context [inject_Z (_ - _)] => rewrite inject_Z_sub
  end;
  change (inject_Z failureRefill) with 30000000000 in *; unfold Qdiv, failureBurst in *; change (/ 30000000000) with (1 # 30000000000) in *; lra.
Lemma slack_pos : 0 < slack.
Proof. apply pow2_pos. Qed.
Lemma credit_later o t0 t t1 l : (t0 <= t)%Z → credit o t t1 l <= credit o t0 t1 l.
Proof. intros Ht. rewrite Zle_Qle in Ht. unfold credit. destruct (l !! o); refill_lra. Qed.
Lemma credit_insert_ne o o' t0 t1 l b : o ≠ o' → credit o t0 t1 (<[o' := b]> l) = credit o t0 t1 l.
Proof. intros. unfold credit. by rewrite lookup_insert_ne. Qed.
Lemma credit_insert o t0 t1 l b : credit o t0 t1 (<[o := b]> l) = fb_remaining b + inject_Z (t1 - fb_updated b) / inject_Z failureRefill.
Proof. unfold credit. by rewrite lookup_insert_eq. Qed.

(** The gate spends nothing. *)
Lemma allowed_credit S t0 t1 o o' now l ok l' :
  tracked S t0 l → o' ∈ S → (t0 <= now)%Z → limiter_allowed o' now l = (ok, l') →
  tracked S now l' ∧ credit o now t1 l' <= credit o t0 t1 l + slack ∧
  (ok = true → ∀ b, l' !! o' = Some b → 1 <= fb_remaining b).
Proof.
  intros Ht Ho Hn E. pose proof slack_pos. unfold limiter_allowed in E. destruct (l !! o') as [b|] eqn:Eb.
  - injection E as <- <-. pose proof (tk_budget _ _ _ Ht _ _ Eb) as Hb. pose proof (tk_past _ _ _ Ht _ _ Eb) as Hp. cbn in Hp.
    split; [|split].
    + apply (tracked_insert S t0); [done..|by apply refresh_in_budget|done].
    + destruct (decide (o = o')) as [->|Hne].
      * rewrite credit_insert. unfold credit. rewrite Eb. pose proof (refresh_bound now b ltac:(lia) Hb). cbn [fb_updated refreshLocked]. refill_lra.
      * rewrite credit_insert_ne by done. pose proof (credit_later o t0 now t1 l Hn). lra.
    + rewrite lookup_insert_eq. intros Hok b' [= <-]. by apply Qle_bool_iff in Hok.
  - injection E as <- <-. split; [by apply (tracked_later S t0)|]. pose proof (credit_later o t0 now t1 l Hn). split; [lra|]. congruence.
Qed.
(** A failure spends one. *)
Lemma record_credit S t0 t1 o o' now l :
  tracked S t0 l → (size S ≤ failureOrigins)%nat → o' ∈ S → (t0 <= now <= t1)%Z → (∀ b, l !! o' = Some b → 1 <= fb_remaining b) →
  tracked S now (limiter_record o' now l).2 ∧
  (if String.eqb o' o then 1 else 0) + credit o now t1 (limiter_record o' now l).2 <= credit o t0 t1 l + 3 * slack.
Proof.
  intros Ht HS Ho [Hn Hn1] H1. pose proof slack_pos.
  assert (∃ b, in_budget b ∧ (fb_updated b <= now)%Z ∧ 1 <= fb_remaining b ∧
    (limiter_record o' now l).2 = <[o' := mkBucket (spend (fb_remaining (refreshLocked now b))) now]> l ∧
    credit o' now t1 (<[o' := b]> l) <= credit o' t0 t1 l) as (b & Hb & Hu & Hone & -> & Hc).
  { unfold limiter_record. destruct (l !! o') as [b|] eqn:Eb.
    - exists b. split; [by apply (tk_budget _ _ _ Ht o')|]. pose proof (tk_past _ _ _ Ht _ _ Eb) as Hp. cbn in Hp. split; [lia|]. split; [by apply H1|].
      split; [done|]. rewrite credit_insert. unfold credit. rewrite Eb. apply Qle_refl.
    - rewrite (not_swept S t0 l o' now) by done. exists (mkBucket failureBurst now). unfold in_budget. cbn [fb_remaining fb_updated].
      split; [unfold failureBurst; lra|]. split; [lia|]. split; [unfold failureBurst; lra|]. split; [done|]. rewrite credit_insert. unfold credit. rewrite Eb.
      cbn [fb_remaining fb_updated]. rewrite Zle_Qle in Hn. refill_lra. }
  pose proof (refresh_in_budget now b Hb) as Hr. pose proof (refresh_keeps_one now b Hone) as Hk. split.
  - apply (tracked_insert S t0); [done..|by apply spend_range|done].
  - destruct (String.eqb_spec o' o) as [->|Hne].
    + rewrite credit_insert. cbn [fb_remaining fb_updated]. rewrite credit_insert in Hc.
      pose proof (spend_bound _ (conj Hk (proj2 Hr))). pose proof (refresh_bound now b Hu Hb). refill_lra.
    + rewrite credit_insert_ne by done. pose proof (credit_later o t0 now t1 l Hn). lra.
Qed.
Lemma attempt_credit S t0 t1 o a l failed l' :
  tracked S t0 l → (size S ≤ failureOrigins)%nat → at_origin a ∈ S → (t0 <= at_check a <= at_record a)%Z → (at_record a <= t1)%Z →
  attempt_step a l = (failed, l') →
  tracked S (at_record a) l' ∧
  (if failed && String.eqb (at_origin a) o then 1 else 0) + credit o (at_record a) t1 l' <= credit o t0 t1 l + 4 * slack.
Proof.
  intros Ht HS Ho [Hc Hr] H1 E. pose proof slack_pos. unfold attempt_step in E.
  destruct (limiter_allowed (at_origin a) (at_check a) l) as [ok l1] eqn:E1.
  destruct (allowed_credit S t0 t1 o _ _ _ _ _ Ht Ho Hc E1) as (Ht1 & Hc1 & Hok). destruct (ok && negb (at_valid a)) eqn:Eok.
  - injection E as <- <-. apply andb_true_iff in Eok as [-> _].
    destruct (record_credit S (at_check a) t1 o _ (at_record a) _ Ht1 HS Ho (conj Hr H1) (Hok eq_refl)) as [Ht2 Hc2]. split; [done|]. cbn [andb]. lra.
  - injection E as <- <-. split; [by apply (tracked_later S (at_check a))|]. cbn [andb]. pose proof (credit_later o (at_check a) (at_record a) t1 l1 Hr). lra.
Qed.
Lemma failures_credit S t1 o tr : (size S ≤ failureOrigins)%nat → ∀ t0 l, tracked S t0 l → Forall (λ a, at_origin a ∈ S) tr → ordered t0 tr t1 →
  inject_Z (Z.of_nat (failures o tr l)) <= credit o t0 t1 l + inject_Z (Z.of_nat (length tr)) * (4 * slack).
Proof.
  intros HS. induction tr as [|a tr IH]; intros t0 l Ht Hall Hord.
  - cbn [failures length]. change (inject_Z (Z.of_nat 0)) with 0. unfold credit. cbn in Hord. rewrite Zle_Qle in Hord. destruct (l !! o) as [b|] eqn:E; [|refill_lra].
    pose proof (tk_budget _ _ _ Ht _ _ E) as [Hb _]. pose proof (tk_past _ _ _ Ht _ _ E) as Hp. cbn in Hp. rewrite Zle_Qle in Hp. refill_lra.
  - cbn [ordered] in Hord. destruct Hord as [Hc Hord]. apply Forall_cons in Hall as [Ho Hall]. cbn [failures].
    destruct (attempt_step a l) as [failed l'] eqn:E. destruct (attempt_credit S t0 t1 o a l failed l' Ht HS Ho Hc (ordered_le _ _ _ Hord) E) as [Ht' Hs].
    specialize (IH _ _ Ht' Hall Hord). cbn [length]. rewrite Nat2Z.inj_add, !inject_Z_plus. rewrite Nat2Z.inj_succ, <-Z.add_1_l, inject_Z_plus.
    change (inject_Z 1) with 1. destruct (failed && _); [change (inject_Z (Z.of_nat 1)) with 1|change (inject_Z (Z.of_nat 0)) with 0]; lra.
Qed.

(** C17: the budget of failures. From an empty table, over attempts in sequence from at most
    [failureOrigins] origins and a clock that does not go back, the failed verifications
    an origin obtains are at most the burst and one per refill period elapsed, up to the
    rounding of [float64] (2^-45 per attempt). *)
Theorem failures_bounded o tr t0 t1 :
  (size (list_to_set (at_origin <$> tr) : gset string) ≤ failureOrigins)%nat → ordered t0 tr t1 →
  inject_Z (Z.of_nat (failures o tr ∅)) <=
  failureBurst + inject_Z (t1 - t0) / inject_Z failureRefill + inject_Z (Z.of_nat (length tr)) * pow2 (-45).
Proof.
  intros HS Hord. assert (pow2 (-45) == 4 * slack) as -> by done.
  assert (failureBurst + inject_Z (t1 - t0) / inject_Z failureRefill = credit o t0 t1 ∅) as -> by (unfold credit; by rewrite lookup_empty).
  apply (failures_credit _ t1 o tr HS t0 ∅); [|apply Forall_forall; intros a Ha; apply elem_of_list_to_set, list_elem_of_fmap; by exists a|done].
  split; [rewrite dom_empty; set_solver|apply map_Forall_empty..].
Qed.
Definition burst_of (n : nat) : list attempt := repeat (mkAttempt "203.0.113.7" 5 5 false) n.
Lemma failures_bounded_witness :
  inject_Z (Z.of_nat (failures "203.0.113.7" (burst_of 25) ∅)) <= failureBurst + inject_Z (6 - 5) / inject_Z failureRefill + inject_Z 25 * pow2 (-45) ∧
  failures "203.0.113.7" (burst_of 25) ∅ = 10%nat.
Proof.
  split; [|by vm_compute]. apply (failures_bounded "203.0.113.7" (burst_of 25) 5 6); [by vm_compute; lia|]. cbn. lia.
Defined.

(** A throttled origin is served again. One refill period after the last update of its
    budget, and later, the gate lets it through, whatever was spent before. *)
Theorem throttle_lifts o now l :
  limiter_ok l → (∀ b, l !! o = Some b → (fb_updated b + failureRefill <= now)%Z) → (limiter_allowed o now l).1 = true.
Proof.
  intros [Hl _] Hn. unfold limiter_allowed. destruct (l !! o) as [b|] eqn:E; [|done]. specialize (Hn b eq_refl). specialize (Hl o b E) as [Hb _].
  cbn. apply Qle_bool_iff. assert (failureRefill <= time_sub now (fb_updated b))%Z as Ht.
  { unfold time_sub, int64_min, int64_max, failureRefill in *. lia. }
  destruct (Z.ltb_spec 0 (time_sub now (fb_updated b))); [|unfold failureRefill in *; lia]. unfold refill.
  destruct (Qltb _ _); [unfold failureBurst; lra|]. apply (round64_ge 1); [lia|]. change (inject_Z 1) with 1.
  assert (1 <= round64 (round64 (inject_Z (time_sub now (fb_updated b))) / inject_Z failureRefill)) as H1; [|lra].
  apply (round64_ge 1); [lia|]. apply Qle_shift_div_l; [by vm_compute|]. change (inject_Z 1 * inject_Z failureRefill) with (inject_Z failureRefill).
  apply round64_ge; [by vm_compute|]. by rewrite <-Zle_Qle.
Qed.
Definition drained (n : nat) : failureLimiter := fold_left (λ l a, (attempt_step a l).2) (burst_of n) ∅.
Lemma throttle_lifts_witness :
  (limiter_allowed "203.0.113.7" 6 (drained 11)).1 = false ∧ (limiter_allowed "203.0.113.7" (5 + failureRefill) (drained 11)).1 = true.
Proof.
  split; [by vm_compute|]. apply (throttle_lifts "203.0.113.7" (5 + failureRefill) (drained 11)).
  - split; [|by vm_compute; lia]. intros o b E. assert (dom (drained 11) = {["203.0.113.7"]}) as Hd by (by vm_compute).
    assert (o ∈ dom (drained 11)) as Ho by (apply elem_of_dom; by exists b). rewrite Hd in Ho. apply elem_of_singleton in Ho as ->.
    assert (drained 11 !! "203.0.113.7" = Some (mkBucket 0 5)) as E' by (by vm_compute). rewrite E in E'. injection E' as ->. by split; vm_compute.
  - intros b E. assert (drained 11 !! "203.0.113.7" = Some (mkBucket 0 5)) as E' by (by vm_compute). rewrite E in E'. injection E' as ->. by vm_compute.
Defined.

(** The transition into throttling is reported once. [record] answers true exactly when
    the origin was let through at that instant and is not any more. *)
Theorem record_reports_transition o now l :
  (limiter_record o now l).1 = true ↔
  (limiter_allowed o now l).1 = true ∧ (limiter_allowed o now (limiter_record o now l).2).1 = false.
Proof.
  unfold limiter_record. destruct (l !! o) as [b|] eqn:E; cbn [fst snd].
  - unfold limiter_allowed. rewrite E, lookup_insert_eq. cbn [fst refreshLocked fb_remaining fb_updated].
    assert (time_sub now now = 0%Z) as -> by (unfold time_sub, int64_min, int64_max; lia). cbn [Z.ltb Z.compare].
    rewrite andb_true_iff. unfold Qltb. by rewrite negb_true_iff.
  - unfold limiter_allowed. rewrite E, lookup_insert_eq. cbn [fst refreshLocked fb_remaining fb_updated].
    assert (time_sub now now = 0%Z) as -> by (unfold time_sub, int64_min, int64_max; lia). cbn [Z.ltb Z.compare].
    split; [by vm_compute|]. intros [_ H]. by vm_compute in H.
Qed.

(** The gate and the record are two critical sections: attempts in flight together all pass
    the gate before any of them is recorded, whatever their number. *)
Theorem gate_passes_together o now n :
  fold_left (λ st (_ : unit), let '(ok, l) := limiter_allowed o now st.2 in (st.1 && ok, l)) (repeat tt n) (true, ∅) = (true, ∅).
Proof.
  assert (limiter_allowed o now ∅ = (true, ∅)) as E by (unfold limiter_allowed; by rewrite lookup_empty).
  induction n as [|n IH]; [done|]. cbn [repeat fold_left snd fst]. by rewrite E.
Qed.
