(* ===== verification/GoStrings.v ===== *)
(** The functions of Go's [strings], [path] and [strconv] packages the modelled
    sources call, on byte strings, with the facts the components share.  A Go
    string is a sequence of bytes: Rocq's [string], one [ascii] per byte. *)

From Stdlib Require Export Ascii.
From stdpp Require Export pretty.
From S2P Require Import Prelude.

Abbreviation byte := ascii.

(** * Basic operations *)

Abbreviation slen := String.length.

Fixpoint sdrop (n : nat) (s : string) : string :=
  match n, s with
  | S n, String _ s => sdrop n s
  | _, _ => s
  end.

Fixpoint stake (n : nat) (s : string) : string :=
  match n, s with
  | S n, String c s => String c (stake n s)
  | _, _ => ""
  end.

(** [strings.CutPrefix], and [strings.HasPrefix] as its success. *)
Fixpoint cut_prefix (p s : string) : option string :=
  match p, s with
  | "", _ => Some s
  | String a p, String b s => if Ascii.eqb a b then cut_prefix p s else None
  | String _ _, "" => None
  end.
Definition has_prefix (s p : string) : bool := bool_decide (is_Some (cut_prefix p s)).

(** [strings.CutSuffix], and [strings.HasSuffix] as its success. *)
Definition cut_suffix (suf s : string) : option string :=
  if (slen suf <=? slen s)%nat && String.eqb (sdrop (slen s - slen suf) s) suf
  then Some (stake (slen s - slen suf) s) else None.
Definition has_suffix (s suf : string) : bool := bool_decide (is_Some (cut_suffix suf s)).

(** [strings.IndexByte] and [strings.LastIndexByte]. *)
Fixpoint index_byte (c : byte) (s : string) : option nat :=
  match s with
  | "" => None
  | String a s => if Ascii.eqb a c then Some 0 else S <$> index_byte c s
  end.
Fixpoint last_index_byte (c : byte) (s : string) : option nat :=
  match s with
  | "" => None
  | String a s =>
      match last_index_byte c s with
      | Some i => Some (S i)
      | None => if Ascii.eqb a c then Some 0 else None
      end
  end.

(** [strings.Index] and [strings.Contains]. *)
Fixpoint index_str (sub s : string) : option nat :=
  if has_prefix s sub then Some 0
  else match s with
       | "" => None
       | String _ s => S <$> index_str sub s
       end.
Definition contains_str (s sub : string) : bool := bool_decide (is_Some (index_str sub s)).
Definition contains_byte (s : string) (c : byte) : bool := bool_decide (is_Some (index_byte c s)).

(** [strings.Cut] around the first occurrence of one byte. *)
Fixpoint cut_byte (c : byte) (s : string) : option (string * string) :=
  match s with
  | "" => None
  | String a s =>
      if Ascii.eqb a c then Some ("", s)
      else prod_map (String a) id <$> cut_byte c s
  end.

(** [strings.Split] on a one-byte separator: never empty. *)
Fixpoint split_byte (c : byte) (s : string) : list string :=
  match s with
  | "" => [""]
  | String a s =>
      if Ascii.eqb a c then "" :: split_byte c s
      else match split_byte c s with
           | w :: ws => String a w :: ws
           | [] => [String a ""]
           end
  end.

(** [strings.Join]. *)
Fixpoint join (sep : string) (l : list string) : string :=
  match l with
  | [] => ""
  | [w] => w
  | w :: ws => w +:+ sep +:+ join sep ws
  end.

(** [strings.ReplaceAll] of one byte by another. *)
Fixpoint replace_byte (a b : byte) (s : string) : string :=
  match s with
  | "" => ""
  | String c s => String (if Ascii.eqb c a then b else c) (replace_byte a b s)
  end.

(** [strings.Trim] with a one-byte cutset. *)
Fixpoint trim_left (f : byte → bool) (s : string) : string :=
  match s with
  | String c s' => if f c then trim_left f s' else s
  | "" => ""
  end.
Fixpoint trim_right (f : byte → bool) (s : string) : string :=
  match s with
  | String c s' =>
      match trim_right f s' with
      | "" => if f c then "" else String c ""
      | s'' => String c s''
      end
  | "" => ""
  end.
Definition trim_byte (c : byte) (s : string) : string :=
  trim_right (Ascii.eqb c) (trim_left (Ascii.eqb c) s).

(** * Characters *)

Definition code (c : byte) : Z := Z.of_N (N_of_ascii c).
Definition in_range (lo hi : byte) (c : byte) : bool :=
  ((code lo <=? code c) && (code c <=? code hi))%Z.
Definition is_ascii_byte (c : byte) : bool := (code c <? 128)%Z.
Definition is_digit : byte → bool := in_range "0" "9".
Definition is_lower : byte → bool := in_range "a" "z".
Definition is_upper : byte → bool := in_range "A" "Z".

(** A double quote, and [%q] on a text without special characters. *)
Definition dquote : string := String "034" "".
Definition quoted (s : string) : string := dquote +:+ s +:+ dquote.

Fixpoint all_bytes (f : byte → bool) (s : string) : bool :=
  match s with
  | "" => true
  | String c s => f c && all_bytes f s
  end.

Definition lower_byte (c : byte) : byte :=
  if is_upper c then ascii_of_N (N_of_ascii c + 32) else c.
Fixpoint map_bytes (f : byte → byte) (s : string) : string :=
  match s with
  | "" => ""
  | String c s => String (f c) (map_bytes f s)
  end.

(** [strings.ToLower]: bytewise on ASCII input, the Unicode tables otherwise. *)
Definition to_lower `{GoRuntime} (s : string) : string :=
  if all_bytes is_ascii_byte s then map_bytes lower_byte s else unicode_lower s.

(** [strings.TrimSpace]: ASCII white space from both ends; the first non-ASCII
    byte met on either end hands over to the Unicode tables. *)
Definition is_space_byte (c : byte) : bool := Ascii.is_space c.
Definition first_byte (s : string) : option byte :=
  match s with String c _ => Some c | "" => None end.
Fixpoint last_byte (s : string) : option byte :=
  match s with
  | "" => None
  | String c "" => Some c
  | String _ s => last_byte s
  end.
Definition trim_space `{GoRuntime} (s : string) : string :=
  let l := trim_left is_space_byte s in
  match first_byte l with
  | Some c =>
      if is_ascii_byte c then
        let r := trim_right is_space_byte l in
        match last_byte r with
        | Some d => if is_ascii_byte d then r else unicode_trim_space r
        | None => r
        end
      else unicode_trim_space l
  | None => l
  end.

(** Byte order on strings, Go's [<]. *)
Definition str_ltb (s1 s2 : string) : bool := String.ltb s1 s2.

(** * Facts *)

Lemma sapp_cons c s1 s2 : String c s1 +:+ s2 = String c (s1 +:+ s2).
Proof. done. Qed.

Lemma sapp_nil_l s : "" +:+ s = s.
Proof. done. Qed.

(** Structural induction on the left operand of [+:+]. *)
Ltac sapp_ind s := induction s as [|? s IH]; rewrite ?sapp_nil_l, ?sapp_cons; cbn;
  rewrite ?sapp_cons; cbn.

Lemma sapp_nil_r s : s +:+ "" = s.
Proof. sapp_ind s; congruence. Qed.

Lemma sapp_assoc s1 s2 s3 : (s1 +:+ s2) +:+ s3 = s1 +:+ (s2 +:+ s3).
Proof. sapp_ind s1; congruence. Qed.

Lemma slen_app s1 s2 : slen (s1 +:+ s2) = slen s1 + slen s2.
Proof. sapp_ind s1; congruence. Qed.

Lemma stake_drop n s : stake n s +:+ sdrop n s = s.
Proof.
  revert s; induction n as [|n IH]; intros [|c s]; cbn; [done..|].
  rewrite sapp_cons. f_equal. apply IH.
Qed.

Lemma sdrop_app_length s1 s2 : sdrop (slen s1) (s1 +:+ s2) = s2.
Proof. sapp_ind s1; congruence. Qed.

Lemma stake_app_length s1 s2 : stake (slen s1) (s1 +:+ s2) = s1.
Proof. sapp_ind s1; [done|congruence]. Qed.

Lemma slen_stake_le n s : slen (stake n s) ≤ n.
Proof. revert s. induction n as [|n IH]; intros [|c s]; cbn; try lia. specialize (IH s). lia. Qed.

Lemma stake_all n s : slen s ≤ n → stake n s = s.
Proof. revert n. induction s as [|a s IH]; intros [|n] Hn; cbn in *; try done; [lia|]. rewrite IH; [done|lia]. Qed.

Lemma slen_sdrop n s : slen (sdrop n s) = slen s - n.
Proof. revert s; induction n as [|n IH]; intros [|c s]; cbn; [done..|apply IH]. Qed.

Lemma sapp_inj_l s s1 s2 : s +:+ s1 = s +:+ s2 → s1 = s2.
Proof. apply (inj (String.app s)). Qed.

Lemma sapp_inj_r s1 s2 s : s1 +:+ s = s2 +:+ s → s1 = s2.
Proof.
  intros Heq. assert (slen s1 = slen s2) as Hlen.
  { apply (f_equal slen) in Heq. rewrite !slen_app in Heq. lia. }
  apply (f_equal (stake (slen s1))) in Heq.
  rewrite stake_app_length in Heq. rewrite Heq, Hlen. apply stake_app_length.
Qed.

Lemma cut_prefix_Some p s r : cut_prefix p s = Some r ↔ s = p +:+ r.
Proof.
  revert s; induction p as [|a p IH]; intros s; rewrite ?sapp_nil_l, ?sapp_cons; cbn.
  { split; [by intros [= ->]|by intros ->]. }
  destruct s as [|b s]; cbn; [done|].
  destruct (Ascii.eqb_spec a b) as [->|Hne]; [|naive_solver].
  rewrite IH. naive_solver.
Qed.

Lemma has_prefix_spec s p : has_prefix s p = true ↔ ∃ r, s = p +:+ r.
Proof.
  unfold has_prefix. rewrite bool_decide_eq_true. unfold is_Some.
  by setoid_rewrite cut_prefix_Some.
Qed.

Lemma cut_suffix_Some suf s r : cut_suffix suf s = Some r ↔ s = r +:+ suf.
Proof.
  unfold cut_suffix. split.
  - intros Hc. destruct (_ && _) eqn:Hb; simplify_eq. bools_to_props.
    rewrite <-(stake_drop (slen s - slen suf) s) at 1. congruence.
  - intros ->. rewrite slen_app.
    replace (slen r + slen suf - slen suf) with (slen r) by lia.
    rewrite sdrop_app_length, stake_app_length, String.eqb_refl, andb_true_r.
    by rewrite (proj2 (Nat.leb_le _ _)) by lia.
Qed.

Lemma has_suffix_spec s suf : has_suffix s suf = true ↔ ∃ r, s = r +:+ suf.
Proof.
  unfold has_suffix. rewrite bool_decide_eq_true. unfold is_Some.
  by setoid_rewrite cut_suffix_Some.
Qed.

(** Membership of a byte in a string. *)
Fixpoint in_str (c : byte) (s : string) : Prop :=
  match s with
  | "" => False
  | String a s => a = c ∨ in_str c s
  end.

Lemma in_str_app c s1 s2 : in_str c (s1 +:+ s2) ↔ in_str c s1 ∨ in_str c s2.
Proof. sapp_ind s1; tauto. Qed.

Lemma contains_byte_spec s c : contains_byte s c = true ↔ in_str c s.
Proof.
  unfold contains_byte. rewrite bool_decide_eq_true.
  induction s as [|a s IH]; cbn.
  { split; [intros [? ?]; done|done]. }
  destruct (Ascii.eqb_spec a c) as [->|Hne]; [split; eauto|].
  rewrite fmap_is_Some, IH. naive_solver.
Qed.

Lemma contains_byte_false s c : contains_byte s c = false ↔ ¬ in_str c s.
Proof. rewrite <-contains_byte_spec. by destruct (contains_byte s c). Qed.

#[export] Instance in_str_dec c s : Decision (in_str c s).
Proof. induction s; cbn; apply _. Defined.

Lemma all_bytes_spec f s : all_bytes f s = true ↔ ∀ c, in_str c s → f c = true.
Proof.
  induction s as [|a s IH]; cbn; [naive_solver|].
  rewrite andb_true_iff, IH. naive_solver.
Qed.

Lemma cut_byte_Some c s a b :
  cut_byte c s = Some (a, b) ↔ s = a +:+ String c b ∧ ¬ in_str c a.
Proof.
  revert a b; induction s as [|x s IH]; intros a b; cbn.
  { split; [done|]. intros [Hs _]. by destruct a. }
  destruct (Ascii.eqb_spec x c) as [->|Hne].
  - split; [intros [= <- <-]; by rewrite sapp_nil_l; cbn; auto|]. intros [Hs Hni].
    destruct a as [|y a]; [by injection Hs as ->|].
    rewrite sapp_cons in Hs. injection Hs as -> _. cbn in Hni. naive_solver.
  - rewrite fmap_Some. split.
    + intros ([a' b'] & Hc & [= -> ->]). apply IH in Hc as [-> Hni].
      rewrite sapp_cons. cbn. naive_solver.
    + intros [Hs Hni]. destruct a as [|y a]; [by injection Hs as ->|].
      rewrite sapp_cons in Hs. injection Hs as -> ->. cbn in Hni.
      exists (a, b). split; [|done]. apply IH. naive_solver.
Qed.

Lemma cut_byte_None c s : cut_byte c s = None ↔ ¬ in_str c s.
Proof.
  induction s as [|x s IH]; cbn; [naive_solver|].
  destruct (Ascii.eqb_spec x c) as [->|Hne]; [naive_solver|].
  rewrite fmap_None, IH. naive_solver.
Qed.

Lemma split_byte_nonempty c s : split_byte c s ≠ [].
Proof.
  destruct s as [|a s]; cbn; [done|].
  destruct (Ascii.eqb a c); [done|]. by destruct (split_byte c s).
Qed.

(** Splitting and joining are inverse, and no piece holds the separator. *)
Lemma join_split c s : join (String c "") (split_byte c s) = s.
Proof.
  induction s as [|a s IH]; [done|]. cbn.
  destruct (Ascii.eqb_spec a c) as [->|Hne].
  - pose proof (split_byte_nonempty c s). destruct (split_byte c s) as [|w ws] eqn:E; [done|].
    change (String c (join (String c "") (w :: ws)) = String c s). by rewrite IH.
  - destruct (split_byte c s) as [|w ws] eqn:E; [by apply split_byte_nonempty in E|].
    rewrite <-IH. by destruct ws.
Qed.

Lemma split_byte_no_sep c s : Forall (λ w, ¬ in_str c w) (split_byte c s).
Proof.
  induction s as [|a s IH]; cbn; [apply Forall_singleton; tauto|].
  destruct (Ascii.eqb_spec a c) as [->|Hne].
  { apply Forall_cons. split; [cbn; tauto|done]. }
  destruct (split_byte c s) as [|w ws] eqn:E.
  - apply Forall_singleton. cbn. naive_solver.
  - apply Forall_cons in IH as [Hw Hws]. apply Forall_cons. cbn. naive_solver.
Qed.

Lemma split_byte_single c s : ¬ in_str c s → split_byte c s = [s].
Proof.
  induction s as [|a s IH]; [done|]. cbn. intros Hn.
  destruct (Ascii.eqb_spec a c) as [->|Hne]; [naive_solver|].
  by rewrite IH by naive_solver.
Qed.

Lemma split_byte_app c w s :
  ¬ in_str c w → split_byte c (w +:+ String c s) = w :: split_byte c s.
Proof.
  induction w as [|a w IH]; rewrite ?sapp_nil_l, ?sapp_cons; cbn; intros Hn.
  { by rewrite Ascii.eqb_refl. }
  destruct (Ascii.eqb_spec a c) as [->|Hne]; [naive_solver|].
  by rewrite IH by naive_solver.
Qed.

Lemma split_byte_sep c a b : split_byte c (a +:+ String c b) = split_byte c a ++ split_byte c b.
Proof.
  induction a as [|x a IH]; rewrite ?sapp_nil_l, ?sapp_cons; cbn; [by rewrite Ascii.eqb_refl|].
  rewrite IH. destruct (Ascii.eqb x c); [done|]. pose proof (split_byte_nonempty c a).
  by destruct (split_byte c a).
Qed.

Lemma split_join c l :
  l ≠ [] → Forall (λ w, ¬ in_str c w) l → split_byte c (join (String c "") l) = l.
Proof.
  intros Hne Hf. induction Hf as [|w ws Hw Hws IH]; [done|].
  destruct ws as [|w' ws]; [by apply split_byte_single|].
  change (join (String c "") (w :: w' :: ws))
    with (w +:+ String c (join (String c "") (w' :: ws))).
  rewrite split_byte_app by done. f_equal. by apply IH.
Qed.

Lemma map_bytes_app f s1 s2 : map_bytes f (s1 +:+ s2) = map_bytes f s1 +:+ map_bytes f s2.
Proof. sapp_ind s1; congruence. Qed.

Lemma replace_byte_id a b s : ¬ in_str a s → replace_byte a b s = s.
Proof.
  induction s as [|c s IH]; [done|]. cbn. intros Hn.
  destruct (Ascii.eqb_spec c a) as [->|]; [naive_solver|]. by rewrite IH by naive_solver.
Qed.

Lemma replace_byte_app a b s1 s2 :
  replace_byte a b (s1 +:+ s2) = replace_byte a b s1 +:+ replace_byte a b s2.
Proof. sapp_ind s1; congruence. Qed.

(** A finite case analysis on all 256 bytes. *)
Ltac all_ascii c := destruct c as [[] [] [] [] [] [] [] []]; vm_compute; try done.

Lemma lower_byte_idem c : lower_byte (lower_byte c) = lower_byte c.
Proof. all_ascii c. Qed.
Lemma lower_byte_ascii c : is_ascii_byte c = true → is_ascii_byte (lower_byte c) = true.
Proof. all_ascii c. Qed.

Lemma all_bytes_app f s1 s2 : all_bytes f (s1 +:+ s2) = all_bytes f s1 && all_bytes f s2.
Proof. sapp_ind s1; [done|]. by rewrite <-andb_assoc, <-IH. Qed.

Lemma map_lower_idem s : map_bytes lower_byte (map_bytes lower_byte s) = map_bytes lower_byte s.
Proof. induction s as [|c s IH]; cbn; [done|]. by rewrite lower_byte_idem, IH. Qed.

Lemma map_lower_ascii s :
  all_bytes is_ascii_byte s = true → all_bytes is_ascii_byte (map_bytes lower_byte s) = true.
Proof.
  induction s as [|c s IH]; cbn; [done|]. rewrite !andb_true_iff.
  intros [? ?]. auto using lower_byte_ascii.
Qed.

Lemma to_lower_ascii `{GoRuntime} s :
  all_bytes is_ascii_byte s = true → to_lower s = map_bytes lower_byte s.
Proof. unfold to_lower. by intros ->. Qed.

Lemma to_lower_idem `{GoRuntime} s :
  all_bytes is_ascii_byte s = true → to_lower (to_lower s) = to_lower s.
Proof.
  intros Ha. rewrite (to_lower_ascii s Ha).
  by rewrite to_lower_ascii, map_lower_idem by by apply map_lower_ascii.
Qed.

Lemma index_str_Some sub s i : index_str sub s = Some i → ∃ b, s = stake i s +:+ sub +:+ b.
Proof.
  revert i; induction s as [|c s IH]; intros i; cbn.
  - destruct (has_prefix "" sub) eqn:E; intros [= <-].
    apply has_prefix_spec in E as [r Hr]. by exists r.
  - destruct (has_prefix (String c s) sub) eqn:E.
    + intros [= <-]. apply has_prefix_spec in E as [r Hr]. by exists r.
    + rewrite fmap_Some. intros (j & Hj & ->). apply IH in Hj as [b Hb].
      exists b. cbn. by rewrite sapp_cons, <-Hb.
Qed.

Lemma index_str_complete sub a b : is_Some (index_str sub (a +:+ sub +:+ b)).
Proof.
  induction a as [|c a IH]; rewrite ?sapp_nil_l, ?sapp_cons.
  - assert (has_prefix (sub +:+ b) sub = true) as Hp by (apply has_prefix_spec; eauto).
    destruct (sub +:+ b); cbn; rewrite Hp; eauto.
  - cbn. case_bool; [eauto|]. by apply fmap_is_Some.
Qed.

Lemma contains_str_spec s sub : contains_str s sub = true ↔ ∃ a b, s = a +:+ sub +:+ b.
Proof.
  unfold contains_str. rewrite bool_decide_eq_true. split.
  - intros [i Hi]. apply index_str_Some in Hi as [b Hb]. eauto.
  - intros (a & b & ->). apply index_str_complete.
Qed.

Lemma contains_str_false s sub :
  contains_str s sub = false ↔ ∀ a b, s ≠ a +:+ sub +:+ b.
Proof.
  destruct (contains_str s sub) eqn:E.
  - apply contains_str_spec in E as (a & b & ->). naive_solver.
  - split; [|done]. intros _ a b ->.
    by rewrite (proj2 (contains_str_spec _ _)) in E by eauto.
Qed.

(** The first occurrence of a byte splits a string in one way only. *)
Lemma cut_unique c a1 b1 a2 b2 :
  ¬ in_str c a1 → ¬ in_str c a2 → a1 +:+ String c b1 = a2 +:+ String c b2 →
  a1 = a2 ∧ b1 = b2.
Proof.
  intros H1 H2 Heq.
  assert (cut_byte c (a1 +:+ String c b1) = Some (a1, b1)) as E1 by by apply cut_byte_Some.
  assert (cut_byte c (a2 +:+ String c b2) = Some (a2, b2)) as E2 by by apply cut_byte_Some.
  rewrite Heq in E1. naive_solver.
Qed.

(** Lower-casing neither creates nor removes a byte that is not a letter. *)
Definition is_letter (c : byte) : bool := is_lower c || is_upper c.

Lemma lower_byte_nonletter c d : is_letter d = false → lower_byte c = d ↔ c = d.
Proof.
  intros Hd. destruct (is_upper c) eqn:Hu.
  - split; [intros <-|intros <-].
    + exfalso. revert Hd Hu. all_ascii c.
    + unfold is_letter in Hd. by rewrite Hu, orb_true_r in Hd.
  - unfold lower_byte. by rewrite Hu.
Qed.

Lemma in_str_map_lower c s :
  is_letter c = false → in_str c (map_bytes lower_byte s) ↔ in_str c s.
Proof.
  intros Hc. induction s as [|a s IH]; cbn; [done|]. by rewrite IH, lower_byte_nonletter.
Qed.

Lemma in_str_to_lower `{GoRuntime} c s :
  is_letter c = false → all_bytes is_ascii_byte s = true →
  in_str c (to_lower s) ↔ in_str c s.
Proof. intros ? ?. by rewrite to_lower_ascii, in_str_map_lower. Qed.

(** The byte order is a strict total order, hence strict and weak under any
    key. *)
Lemma str_ltb_leb s1 s2 : str_ltb s1 s2 = negb (String.leb s2 s1).
Proof.
  unfold str_ltb, String.ltb, String.leb. rewrite (String.compare_antisym s2 s1).
  by destruct (String.compare s1 s2).
Qed.

Lemma str_ltb_le s1 s2 : str_ltb s1 s2 = false ↔ String.le s2 s1.
Proof. rewrite str_ltb_leb, negb_false_iff. unfold String.le. by rewrite Is_true_true. Qed.

Lemma str_ltb_lt s1 s2 : str_ltb s1 s2 = true ↔ ¬ String.le s2 s1.
Proof. rewrite <-str_ltb_le. by destruct (str_ltb s1 s2). Qed.

Lemma strict_weak_str {A} (f : A → string) : strict_weak (λ x y, str_ltb (f x) (f y)).
Proof.
  repeat split; intros *; rewrite ?str_ltb_le, ?str_ltb_lt.
  - done.
  - intros Hxy Hyz Hzx. apply Hxy. destruct (total String.le (f z) (f y)) as [?|Hyz'].
    + done.
    + by transitivity (f z).
  - intros. by transitivity (f y).
Qed.
#[export] Hint Resolve strict_weak_str : go.

(** Two decompositions with suffixes of one length agree. *)
Lemma sapp_inj_len a b x y : slen x = slen y → a +:+ x = b +:+ y → a = b ∧ x = y.
Proof.
  intros Hlen Heq. assert (slen a = slen b) as Hab.
  { apply (f_equal slen) in Heq. rewrite !slen_app in Heq. lia. }
  assert (a = b) as <-; [|split; [done|by eapply sapp_inj_l]].
  apply (f_equal (stake (slen a))) in Heq.
  rewrite stake_app_length in Heq. rewrite Heq, Hab. apply stake_app_length.
Qed.

Lemma suffix_clash a b x y : slen x = slen y → x ≠ y → a +:+ x ≠ b +:+ y.
Proof. intros Hlen Hne Heq. by apply sapp_inj_len in Heq as [_ ?]. Qed.

(** * Package strconv *)

(** [strconv.ParseInt] in base 10 on 64 bits. *)
Fixpoint digits_value (s : string) (acc : Z) : option Z :=
  match s with
  | "" => Some acc
  | String c s => if is_digit c then digits_value s (acc * 10 + (Z.of_nat (nat_of_ascii c) - 48)) else None
  end.
Definition ParseInt (s : string) : option Z :=
  let '(neg, body) := match s with
                      | String c rest => if Ascii.eqb c "-" then (true, rest) else if Ascii.eqb c "+" then (false, rest) else (false, s)
                      | "" => (false, s)
                      end in
  if String.eqb body "" then None
  else
    n ← digits_value body 0;
    let n := if (neg : bool) then (- n)%Z else n in
    if (int64_min <=? n)%Z && (n <=? int64_max)%Z then Some n else None.

Lemma digits_value_go x s acc : acc = 0%Z → digits_value (pretty_N_go x s) acc = digits_value s (Z.of_N x).
Proof.
  intros ->. revert s. induction (N.lt_wf_0 x) as [x _ IH]; intros s. assert (x = 0 ∨ 0 < x)%N as [->|Hx] by lia.
  { by rewrite pretty_N_go_0. }
  rewrite pretty_N_go_step, IH by (try apply N.div_lt; lia). cbn [digits_value].
  assert (x `mod` 10 < 10)%N as Hm by (apply N.mod_lt; lia).
  replace (is_digit (pretty_N_char (x `mod` 10))) with true.
  2:{ destruct (x `mod` 10)%N as [|p]; [done|]. do 4 (destruct p as [p|p|]; try done; try lia). }
  f_equal. assert (Z.of_nat (nat_of_ascii (pretty_N_char (x `mod` 10))) - 48 = Z.of_N (x `mod` 10))%Z as ->.
  { destruct (x `mod` 10)%N as [|p]; [done|]. do 4 (destruct p as [p|p|]; try done; try lia). }
  rewrite N2Z.inj_div, N2Z.inj_mod. pose proof (Z.div_mod (Z.of_N x) 10 ltac:(lia)). lia.
Qed.
(** [strconv.Itoa] and [strconv.FormatInt] are stdpp's [pretty]; parsing is its inverse. *)
Lemma digits_value_pos p : digits_value (pretty p) 0 = Some (Z.pos p).
Proof. unfold pretty, pretty_positive, pretty, pretty_N. case_decide; [done|]. by rewrite digits_value_go. Qed.
Lemma ParseInt_digits s n : digits_value s 0 = Some n → s ≠ "" → is_int64 n → ParseInt s = Some n.
Proof.
  intros Hd Hs Hn. unfold ParseInt. destruct s as [|c s]; [done|]. assert (is_digit c = true) as Hc.
  { cbn in Hd. by destruct (is_digit c). }
  destruct (Ascii.eqb_spec c "-"); [by subst|]. destruct (Ascii.eqb_spec c "+"); [by subst|]. rewrite Hd. cbn [mbind option_bind].
  destruct Hn as [? ?]. rewrite !(proj2 (Z.leb_le _ _)) by done. by rewrite (proj2 (String.eqb_neq _ _)).
Qed.
Lemma ParseInt_pretty z : is_int64 z → ParseInt (pretty z) = Some z.
Proof.
  intros Hz. assert (∀ p : positive, pretty p ≠ "") as Hne.
  { intros p E. pose proof (digits_value_pos p) as Hd. by rewrite E in Hd. }
  destruct z as [|p|p]; cbn [pretty pretty_Z].
  - by apply ParseInt_digits.
  - apply ParseInt_digits; [apply digits_value_pos|apply Hne|done].
  - unfold ParseInt. change ("-" +:+ pretty p) with (String "-" (pretty p)). cbn [Ascii.eqb Bool.eqb].
    rewrite (proj2 (String.eqb_neq _ _)) by apply Hne. rewrite digits_value_pos. cbn [mbind option_bind].
    destruct Hz as [? ?]. by rewrite !(proj2 (Z.leb_le _ _)) by done.
Qed.
