(* ===== verification/Relocate.v ===== *)
(** The relocation convention (internal/relocate/relocate.go): where an
    ingredient lands in the store and in every destination registry, as a pure
    function of its nominal reference. *)

From S2P Require Import Prelude GoStrings.

(** One constructor per [fmt.Errorf] of [splitRef]. *)
Inductive relocate_error :=
  | EmptyReference
  | URLScheme (ref : string)
  | IPv6Literal (ref : string)
  | DigestPinned (ref : string)
  | NoExplicitHost (ref : string)
  | TagCarried (ref : string)
  | EmptyPathComponent (ref : string)
  | MalformedPort (ref : string).

(** [dockerHubAliases]: the closed canonicalization list. *)
Definition dockerHubAliases : gmap string string :=
  {[ "index.docker.io" := "docker.io"; "registry-1.docker.io" := "docker.io" ]}.

(** The last step of [splitRef]: collapse the Docker Hub aliases. *)
Definition collapse_alias (host : string) : string :=
  default host (dockerHubAliases !! host).

Section relocate.
Context `{GoRuntime}.

(** The host half of [splitRef]: recognizable as a host, port in [_port]
    form, aliases collapsed. *)
Definition canonicalHost (ref host : string) : res relocate_error string :=
  let host := to_lower host in
  if negb (contains_byte host "." || contains_byte host ":")
     && negb (String.eqb host "localhost")
  then Err (NoExplicitHost ref) else
  match cut_byte ":" host with
  | Some (name, port) =>
      if String.eqb port "" || contains_byte port ":" then Err (MalformedPort ref) else
      if negb (all_bytes is_digit port) then Err (MalformedPort ref) else
      Ok (collapse_alias (name +:+ "_" +:+ port))
  | None => Ok (collapse_alias host)
  end.

Definition splitRef (ref : string) : res relocate_error (string * string) :=
  if String.eqb ref "" then Err EmptyReference else
  if contains_str ref "://" then Err (URLScheme ref) else
  if has_prefix ref "[" then Err (IPv6Literal ref) else
  if contains_byte ref "@" then Err (DigestPinned ref) else
  match cut_byte "/" ref with
  | None | Some ("", _) => Err (NoExplicitHost ref)
  | Some (host, repo) =>
      if contains_byte repo ":" then Err (TagCarried ref) else
      if String.eqb repo "" || has_prefix repo "/" || has_suffix repo "/"
         || contains_str repo "//"
      then Err (EmptyPathComponent ref) else
      host ← canonicalHost ref host;
      Ok (host, repo)
  end.

(** [Path]: the relocated repository path of a nominal reference. *)
Definition Path (nominalRef : string) : res relocate_error string :=
  '(host, repo) ← splitRef nominalRef;
  Ok (host +:+ "/" +:+ repo).

(** [PathWithBase]: the same under the instance's base prefix. *)
Definition PathWithBase (base nominalRef : string) : res relocate_error string :=
  p ← Path nominalRef;
  let base := trim_byte "/" base in
  if String.eqb base "" then Ok p else Ok (base +:+ "/" +:+ p).

(** [Host]: the canonical form of a bare registry host, the comparison key of
    the allowlist and of the substitution table. *)
Definition Host (host : string) : res relocate_error string :=
  '(h, _) ← splitRef (host +:+ "/x");
  Ok (replace_byte "_" ":" h).

Example Path_hub : Path "docker.io/bitnami/wordpress" = Ok "docker.io/bitnami/wordpress".
Proof. reflexivity. Qed.
Example Path_index : Path "index.docker.io/library/nginx" = Ok "docker.io/library/nginx".
Proof. reflexivity. Qed.
Example Path_port : Path "registry.example.com:5000/a/b" = Ok "registry.example.com_5000/a/b".
Proof. reflexivity. Qed.
Example Host_port : Host "registry.example.com:5000" = Ok "registry.example.com:5000".
Proof. reflexivity. Qed.

(** ** The shape of a successful split *)

Lemma digits_no c port : is_digit c = false → all_bytes is_digit port = true → ¬ in_str c port.
Proof. rewrite all_bytes_spec. intros Hc Hall Hin. apply Hall in Hin. congruence. Qed.

(** What the host of a reference becomes: lower case, [:port] as [_port],
    Docker Hub aliases collapsed. *)
Definition relocated_host (raw : string) : string :=
  match cut_byte ":" (to_lower raw) with
  | Some (name, port) => collapse_alias (name +:+ "_" +:+ port)
  | None => collapse_alias (to_lower raw)
  end.

(** A host the function accepts, in the terms of its own guards. *)
Record host_ok (raw : string) : Prop := {
  ho_nonempty : raw ≠ "";
  ho_no_slash : ¬ in_str "/" raw;
  ho_no_at : ¬ in_str "@" raw;
  ho_bracket : has_prefix raw "[" = false;
  ho_kind : in_str "." (to_lower raw) ∨ in_str ":" (to_lower raw) ∨
    to_lower raw = "localhost";
  ho_port : ∀ name port, cut_byte ":" (to_lower raw) = Some (name, port) →
    port ≠ "" ∧ all_bytes is_digit port = true;
}.

Lemma canonicalHost_Ok ref raw host :
  canonicalHost ref raw = Ok host ↔
  host = relocated_host raw ∧
  (in_str "." (to_lower raw) ∨ in_str ":" (to_lower raw) ∨ to_lower raw = "localhost") ∧
  (∀ name port, cut_byte ":" (to_lower raw) = Some (name, port) →
    port ≠ "" ∧ all_bytes is_digit port = true).
Proof.
  unfold canonicalHost, relocated_host.
  destruct (_ && _) eqn:E.
  - rewrite andb_true_iff, !negb_true_iff, orb_false_iff_2, !contains_byte_false,
      String.eqb_neq in E. split; [done|]. tauto.
  - rewrite andb_false_iff, !negb_false_iff, orb_true_iff, !contains_byte_spec,
      String.eqb_eq in E.
    destruct (cut_byte ":" (to_lower raw)) as [[name port]|]; [|naive_solver].
    split.
    + destruct (_ || _) eqn:E1; [done|]. destruct (negb _) eqn:E2; [done|].
      bools_to_props. naive_solver.
    + intros (-> & _ & Hp). destruct (Hp _ _ eq_refl) as [Hne Hd]. rewrite Hd.
      rewrite (proj2 (String.eqb_neq port "")) by done. cbn.
      by rewrite (proj2 (contains_byte_false _ _) (digits_no ":" port eq_refl Hd)).
Qed.

Lemma splitRef_Ok ref host repo :
  splitRef ref = Ok (host, repo) →
  ∃ raw, ref = raw +:+ "/" +:+ repo ∧ host = relocated_host raw ∧ host_ok raw.
Proof.
  unfold splitRef. intros Hs.
  destruct (String.eqb ref "") eqn:E1; [done|].
  destruct (contains_str ref "://") eqn:E2; [done|].
  destruct (has_prefix ref "[") eqn:E3; [done|].
  destruct (contains_byte ref "@") eqn:E4; [done|].
  destruct (cut_byte "/" ref) as [[raw rp]|] eqn:E5; [|done].
  apply cut_byte_Some in E5 as [-> Hns].
  destruct raw as [|c raw]; [done|].
  destruct (contains_byte rp ":") eqn:E6; [done|].
  destruct (_ || _) eqn:E7 in Hs; [done|].
  apply res_bind_Ok in Hs as (h & Hh & [= -> ->]).
  apply canonicalHost_Ok in Hh as (-> & Hk & Hp).
  exists (String c raw). split; [done|]. split; [done|].
  rewrite contains_byte_false, in_str_app in E4. split; try done; [tauto|].
  apply not_true_is_false. intros [t Ht]%has_prefix_spec.
  by rewrite (proj2 (has_prefix_spec _ "[")) in E3 by (rewrite Ht, sapp_assoc; eauto).
Qed.

(** ** Injectivity *)

(** The registry a raw host names: case folded, aliases collapsed, port kept. *)
Definition registry_of (raw : string) : string := collapse_alias (to_lower raw).

Lemma collapse_alias_cases h :
  collapse_alias h = h ∨ collapse_alias h = "docker.io" ∧ ¬ in_str "_" h.
Proof.
  unfold collapse_alias, dockerHubAliases.
  destruct (decide (h = "index.docker.io")) as [->|H1].
  { right. split; [done|]. by vm_compute; intuition congruence. }
  destruct (decide (h = "registry-1.docker.io")) as [->|H2].
  { right. split; [done|]. by vm_compute; intuition congruence. }
  left. by rewrite lookup_insert_ne, lookup_singleton_ne by done.
Qed.

Lemma collapse_alias_underscore h : in_str "_" h → collapse_alias h = h.
Proof. destruct (collapse_alias_cases h) as [?|[??]]; tauto. Qed.

Lemma collapse_alias_no c h :
  ¬ in_str c h → ¬ in_str c "docker.io" → ¬ in_str c (collapse_alias h).
Proof. by destruct (collapse_alias_cases h) as [->|[-> _]]. Qed.

Lemma relocated_host_no_slash raw :
  all_bytes is_ascii_byte raw = true → ¬ in_str "/" raw → ¬ in_str "/" (relocated_host raw).
Proof.
  intros Ha Hn. rewrite <-(in_str_to_lower "/" raw) in Hn by done.
  unfold relocated_host. destruct (cut_byte ":" (to_lower raw)) as [[name port]|] eqn:E.
  - apply cut_byte_Some in E as [E _]. rewrite E, in_str_app in Hn. cbn in Hn.
    apply collapse_alias_no; [|vm_compute; intuition congruence].
    rewrite !in_str_app. cbn. intuition congruence.
  - apply collapse_alias_no; [done|vm_compute; intuition congruence].
Qed.

Lemma relocated_host_inj raw1 raw2 :
  all_bytes is_ascii_byte raw1 = true → all_bytes is_ascii_byte raw2 = true →
  ¬ in_str "_" raw1 → ¬ in_str "_" raw2 →
  relocated_host raw1 = relocated_host raw2 → registry_of raw1 = registry_of raw2.
Proof.
  intros Ha1 Ha2. rewrite <-(in_str_to_lower "_" raw1), <-(in_str_to_lower "_" raw2) by done.
  unfold relocated_host, registry_of.
  generalize (to_lower raw1) as l1, (to_lower raw2) as l2. intros l1 l2 Hu1 Hu2.
  destruct (cut_byte ":" l1) as [[n1 p1]|] eqn:E1, (cut_byte ":" l2) as [[n2 p2]|] eqn:E2;
    try apply cut_byte_Some in E1 as [-> _]; try apply cut_byte_Some in E2 as [-> _].
  - rewrite !in_str_app in *. rewrite !collapse_alias_underscore
      by (rewrite !in_str_app; cbn; auto).
    intros Heq. apply (cut_unique "_") in Heq as [-> ->]; [done|tauto..].
  - rewrite collapse_alias_underscore by (rewrite !in_str_app; cbn; auto).
    intros Heq. exfalso. apply (collapse_alias_no "_" l2 Hu2); [vm_compute; intuition congruence|].
    rewrite <-Heq, !in_str_app. cbn. auto.
  - rewrite (collapse_alias_underscore (n2 +:+ _)) by (rewrite !in_str_app; cbn; auto).
    intros Heq. exfalso. apply (collapse_alias_no "_" l1 Hu1); [vm_compute; intuition congruence|].
    rewrite Heq, !in_str_app. cbn. auto.
  - done.
Qed.

Lemma Path_Ok ref p :
  Path ref = Ok p →
  ∃ raw repo, ref = raw +:+ "/" +:+ repo ∧ host_ok raw ∧
    p = relocated_host raw +:+ "/" +:+ repo.
Proof.
  unfold Path. intros Hp. apply res_bind_Ok in Hp as ([h r] & Hs & [= <-]).
  apply splitRef_Ok in Hs as (raw & -> & -> & Hok). eauto.
Qed.

(** C9: two ASCII references whose hosts hold no underscore relocate to the
    same path only when they name the same registry (case folded, Docker Hub
    aliases collapsed, port included) and the same repository: no two distinct
    ingredients ever share a place in a store. *)
Theorem Path_injective raw1 repo1 raw2 repo2 p
    (Hs1 : ¬ in_str "/" raw1) (Hs2 : ¬ in_str "/" raw2)
    (Ha1 : all_bytes is_ascii_byte raw1 = true) (Ha2 : all_bytes is_ascii_byte raw2 = true)
    (Hu1 : ¬ in_str "_" raw1) (Hu2 : ¬ in_str "_" raw2) :
  Path (raw1 +:+ "/" +:+ repo1) = Ok p →
  Path (raw2 +:+ "/" +:+ repo2) = Ok p →
  repo1 = repo2 ∧ registry_of raw1 = registry_of raw2.
Proof.
  intros (r1 & q1 & E1 & [_ H1 _ _ _ _] & ->)%Path_Ok
         (r2 & q2 & E2 & [_ H2 _ _ _ _] & Heq)%Path_Ok.
  apply (cut_unique "/") in E1 as [<- <-]; [|done..].
  apply (cut_unique "/") in E2 as [<- <-]; [|done..].
  apply (cut_unique "/") in Heq as [Hh ->]; [|by apply relocated_host_no_slash..].
  auto using relocated_host_inj.
Qed.

(** ** Canonical hosts *)

(** No URL scheme can hide in a host whose port is made of digits. *)
Lemma no_scheme raw :
  all_bytes is_ascii_byte raw = true → ¬ in_str "/" raw →
  (∀ name port, cut_byte ":" (to_lower raw) = Some (name, port) →
    port ≠ "" ∧ all_bytes is_digit port = true) →
  contains_str (raw +:+ "/x") "://" = false.
Proof.
  intros Ha Hns Hport. apply contains_str_false. intros a b Heq.
  rewrite to_lower_ascii in Hport by done.
  assert (∃ a', raw = a' +:+ ":" ∨ ∃ b', raw = a' +:+ "://" +:+ b') as (a' & Hraw).
  { assert (raw +:+ "/x" = (a +:+ ":") +:+ String "/" (String "/" b)) as Heq'.
    { by rewrite Heq, sapp_assoc. }
    destruct (decide (in_str "/" a)) as [Hin|Hna].
    - exfalso. apply contains_byte_spec, bool_decide_eq_true in Hin.
      destruct (cut_byte "/" a) as [[u v]|] eqn:E.
      + apply cut_byte_Some in E as [-> Hu]. rewrite !sapp_assoc, sapp_cons in Heq.
        apply (cut_unique "/") in Heq as [_ Hx]; [|done..].
        apply (f_equal slen) in Hx. rewrite !slen_app in Hx. cbn in Hx. lia.
      + apply cut_byte_None in E. by apply E, contains_byte_spec, bool_decide_eq_true.
    - apply (cut_unique "/") in Heq' as [-> _]; [by exists a; left|done|].
      rewrite in_str_app. cbn. intuition congruence. }
  destruct Hraw as [->|[b' ->]].
  - rewrite map_bytes_app in Hport. cbn in Hport.
    destruct (decide (in_str ":" a')) as [Hin|Hna].
    + destruct (cut_byte ":" (map_bytes lower_byte a')) as [[u v]|] eqn:E.
      * apply cut_byte_Some in E as [E Hu]. rewrite E, sapp_assoc, sapp_cons in Hport.
        destruct (Hport u (v +:+ ":")) as [_ Hd]; [by apply cut_byte_Some|].
        apply (digits_no ":") in Hd; [|done]. rewrite in_str_app in Hd. cbn in Hd. tauto.
      * apply cut_byte_None in E. by rewrite in_str_map_lower in E.
    + destruct (Hport (map_bytes lower_byte a') "") as [? _]; [|done].
      apply cut_byte_Some. by rewrite in_str_map_lower.
  - rewrite !in_str_app in Hns. cbn in Hns. intuition.
Qed.

Lemma splitRef_host raw :
  all_bytes is_ascii_byte raw = true → host_ok raw →
  splitRef (raw +:+ "/x") = Ok (relocated_host raw, "x").
Proof.
  intros Ha [Hne Hns Hnat Hbr Hkind Hport]. unfold splitRef.
  assert (cut_byte "/" (raw +:+ "/x") = Some (raw, "x")) as -> by by apply cut_byte_Some.
  rewrite no_scheme by done.
  assert (String.eqb (raw +:+ "/x") "" = false) as -> by by destruct raw.
  assert (has_prefix (raw +:+ "/x") "[" = false) as ->.
  { apply not_true_is_false. rewrite has_prefix_spec. intros [t Ht].
    destruct raw as [|c raw]; [done|]. rewrite sapp_cons in Ht. injection Ht as -> _.
    by rewrite (proj2 (has_prefix_spec _ "[")) in Hbr by eauto. }
  assert (contains_byte (raw +:+ "/x") "@" = false) as ->.
  { apply contains_byte_false. rewrite in_str_app. cbn. intuition congruence. }
  destruct raw as [|c raw]; [done|]. lazy beta iota.
  by rewrite (proj2 (canonicalHost_Ok _ (String c raw) _) (conj eq_refl (conj Hkind Hport))).
Qed.

Lemma collapse_alias_colon h : in_str ":" h → collapse_alias h = h.
Proof.
  intros Hc. unfold collapse_alias, dockerHubAliases.
  rewrite lookup_insert_ne, lookup_singleton_ne; [done|..];
    intros <-; vm_compute in Hc; intuition congruence.
Qed.

(** Undoing the [_port] form of a relocated host gives the registry back. *)
Lemma relocated_host_port raw :
  all_bytes is_ascii_byte raw = true → ¬ in_str "_" raw →
  replace_byte "_" ":" (relocated_host raw) = registry_of raw.
Proof.
  intros Ha Hu. rewrite <-(in_str_to_lower "_" raw) in Hu by done.
  unfold relocated_host, registry_of.
  destruct (cut_byte ":" (to_lower raw)) as [[name port]|] eqn:Ec.
  - apply cut_byte_Some in Ec as [Ec _]. rewrite Ec in *. rewrite in_str_app in Hu. cbn in Hu.
    rewrite collapse_alias_underscore by (rewrite !in_str_app; cbn; auto).
    rewrite collapse_alias_colon by (rewrite in_str_app; cbn; auto).
    by rewrite !replace_byte_app, (replace_byte_id _ _ name), (replace_byte_id _ _ port) by tauto.
  - apply replace_byte_id, collapse_alias_no; [done|vm_compute; intuition congruence].
Qed.

(** The canonical spelling of a registry host: case folded, alias collapsed,
    port in host form. *)
Lemma Host_Ok h h' :
  all_bytes is_ascii_byte h = true → ¬ in_str "_" h → Host h = Ok h' →
  ∃ raw, host_ok raw ∧ ¬ in_str "_" raw ∧
    all_bytes is_ascii_byte raw = true ∧ h' = registry_of raw ∧
    ∀ c, in_str c raw → in_str c h.
Proof.
  unfold Host. intros Ha Hu Hh. apply res_bind_Ok in Hh as ([rh repo] & Hs & [= <-]).
  apply splitRef_Ok in Hs as (raw & E & -> & Hok).
  assert (∃ t, h = raw +:+ t) as [t ->].
  { destruct (cut_byte "/" h) as [[a b]|] eqn:Ec.
    - apply cut_byte_Some in Ec as [-> Hna]. rewrite sapp_assoc, sapp_cons in E.
      apply (cut_unique "/") in E as [-> _]; [eauto|done|apply Hok].
    - apply cut_byte_None in Ec.
      apply (cut_unique "/") in E as [-> _]; [|done|apply Hok].
      exists "". by rewrite sapp_nil_r. }
  rewrite all_bytes_app in Ha. rewrite in_str_app in Hu. bools_to_props.
  exists raw. split_and!; [done|tauto|done| |].
  - apply relocated_host_port; [done|tauto].
  - intros c. rewrite in_str_app. tauto.
Qed.

Lemma host_ok_lower raw :
  all_bytes is_ascii_byte raw = true → host_ok raw → host_ok (to_lower raw).
Proof.
  intros Ha [Hne Hns Hnat Hbr Hkind Hport].
  split; rewrite ?(in_str_to_lower _ raw), ?(to_lower_idem raw) by done; try done.
  - rewrite (to_lower_ascii raw Ha). by destruct raw.
  - apply not_true_is_false. rewrite has_prefix_spec, (to_lower_ascii raw Ha). intros [t Ht].
    destruct raw as [|c raw]; [done|]. cbn in Ht. rewrite sapp_cons in Ht.
    injection Ht as Hc _. apply lower_byte_nonletter in Hc as ->; [|done].
    by rewrite (proj2 (has_prefix_spec _ "[")) in Hbr by eauto.
Qed.

Lemma registry_of_ok raw :
  all_bytes is_ascii_byte raw = true → ¬ in_str "_" raw → host_ok raw →
  host_ok (registry_of raw) ∧ all_bytes is_ascii_byte (registry_of raw) = true ∧
  ¬ in_str "_" (registry_of raw) ∧ registry_of (registry_of raw) = registry_of raw.
Proof.
  intros Ha Hu Hok. unfold registry_of at 1 2 3 5 6.
  destruct (collapse_alias_cases (to_lower raw)) as [E|[E _]]; rewrite E.
  - split_and!; [by apply host_ok_lower| |by rewrite in_str_to_lower|].
    + rewrite to_lower_ascii by done. by apply map_lower_ascii.
    + unfold registry_of. by rewrite to_lower_idem.
  - split_and!; [|done|vm_compute; intuition congruence|done].
    split; try done; vm_compute; intuition congruence.
Qed.

(** [Host] computes a canonical form. Whatever spelling of a registry it
    is given (ASCII, no underscore), the host it answers is its own canonical
    form, so that two spellings compared through it agree exactly when they
    name one registry. *)
Theorem Host_canonical h h'
    (Ha : all_bytes is_ascii_byte h = true) (Hu : ¬ in_str "_" h)
    (Hh : Host h = Ok h') :
  Host h' = Ok h'.
Proof.
  apply Host_Ok in Hh as (raw & Hok & Hur & Har & -> & _); [|done..].
  destruct (registry_of_ok raw Har Hur Hok) as (Hok' & Ha' & Hu' & Hidem).
  unfold Host. rewrite splitRef_host by done. cbn.
  by rewrite relocated_host_port, Hidem.
Qed.

(** The underscore is not refused by [splitRef], so the [_port] form is
    ambiguous: a host spelled with an underscore lands on the path, and on
    the canonical host, of another host with a port. *)
Theorem underscore_collision :
  Path "reg.example.com_5000/app" = Path "reg.example.com:5000/app" ∧
  Host "reg.example.com_5000" = Host "reg.example.com:5000" ∧
  is_ok (Path "reg.example.com_5000/app") = true.
Proof. split_and!; reflexivity. Qed.
End relocate.

Lemma Path_injective_witness :
  "library/nginx" = "library/nginx" ∧ registry_of "Index.Docker.io" = registry_of "docker.io".
Proof.
  apply (Path_injective "Index.Docker.io" "library/nginx" "docker.io" "library/nginx"
    "docker.io/library/nginx");
    [vm_compute; intuition congruence..|reflexivity|reflexivity].
Defined.

Lemma Host_canonical_witness : Host "docker.io" = Ok "docker.io".
Proof.
  apply (Host_canonical "Registry-1.Docker.io");
    [reflexivity|vm_compute; intuition congruence|reflexivity].
Defined.
