(* ===== verification/Glob.v ===== *)
(** The glob vocabulary shared by the registry allowlist and by trust scopes:
    [*] matches any run of characters inside one label or path segment, [**]
    absorbs any number of labels or segments.  This file states what a glob
    means, independently of how the sources decide it, and proves the greedy
    left-to-right search of both matchers complete. *)

From S2P Require Import Prelude GoStrings.

(** * Meaning *)

(** One segment. *)
Inductive wild : string → string → Prop :=
  | wild_nil : wild "" ""
  | wild_char c p s : c ≠ "*"%char → wild p s → wild (String c p) (String c s)
  | wild_star p s1 s2 : wild p s2 → wild (String "*" p) (s1 +:+ s2).

(** A list of segments. *)
Inductive glob : list string → list string → Prop :=
  | glob_nil : glob [] []
  | glob_skip ps l1 l2 : glob ps l2 → glob ("**" :: ps) (l1 ++ l2)
  | glob_seg p ps s ss : p ≠ "**" → wild p s → glob ps ss → glob (p :: ps) (s :: ss).

(** * The greedy search

    [consume mids s] finds the pieces of a pattern in order, each at its first
    occurrence, and answers what is left: the loop over [parts[1:len(parts)-1]]
    of [matchLabel] and [matchSegment]. *)
Fixpoint consume (mids : list string) (s : string) : option string :=
  match mids with
  | [] => Some s
  | mid :: mids =>
      match index_str mid s with
      | None => None
      | Some i => consume mids (sdrop (i + slen mid) s)
      end
  end.

(** The pieces after a star may each be preceded by anything. *)
Fixpoint wrest (ps : list string) (s : string) : Prop :=
  match ps with
  | [] => s = ""
  | p :: ps => ∃ x t, s = x +:+ p +:+ t ∧ wrest ps t
  end.

Definition wsplit (ps : list string) (s : string) : Prop :=
  match ps with
  | [] => False
  | p :: ps => ∃ t, s = p +:+ t ∧ wrest ps t
  end.

Lemma wild_cons_inv c p s :
  c ≠ "*"%char → wild (String c p) s ↔ ∃ s', s = String c s' ∧ wild p s'.
Proof.
  intros Hc. split.
  - inversion 1; simplify_eq; eauto.
  - intros (s' & -> & ?). by constructor.
Qed.

Lemma wild_star_inv p s : wild (String "*" p) s ↔ ∃ s1 s2, s = s1 +:+ s2 ∧ wild p s2.
Proof.
  split.
  - inversion 1; simplify_eq; eauto.
  - intros (s1 & s2 & -> & ?). by constructor.
Qed.

Lemma wild_split pat s : wild pat s ↔ wsplit (split_byte "*" pat) s.
Proof.
  revert s. induction pat as [|c p IH]; intros s; cbn.
  - split; [inversion 1; by exists ""|]. intros (t & -> & ->). constructor.
  - destruct (Ascii.eqb_spec c "*") as [->|Hc].
    + rewrite wild_star_inv. setoid_rewrite IH. cbn. setoid_rewrite sapp_nil_l.
      pose proof (split_byte_nonempty "*" p). destruct (split_byte "*" p) as [|q qs]; [done|].
      cbn. naive_solver.
    + rewrite wild_cons_inv by done. setoid_rewrite IH.
      pose proof (split_byte_nonempty "*" p). destruct (split_byte "*" p) as [|q qs]; [done|].
      cbn. setoid_rewrite sapp_cons. naive_solver.
Qed.

Lemma wrest_prefix ps x s : ps ≠ [] → wrest ps s → wrest ps (x +:+ s).
Proof.
  destruct ps as [|p ps]; [done|]. cbn. intros _ (y & t & -> & Ht).
  exists (x +:+ y), t. by rewrite !sapp_assoc.
Qed.

(** The first occurrence is no later than any other. *)
Lemma index_str_first sub x t i : index_str sub (x +:+ sub +:+ t) = Some i → i ≤ slen x.
Proof.
  revert i. induction x as [|c x IH]; intros i; rewrite ?sapp_nil_l, ?sapp_cons.
  - assert (has_prefix (sub +:+ t) sub = true) as Hp by (apply has_prefix_spec; eauto).
    destruct (sub +:+ t); cbn; rewrite Hp; intros [= <-]; lia.
  - cbn. destruct (has_prefix _ sub); [intros [= <-]; lia|].
    rewrite fmap_Some. intros (j & Hj & ->). apply IH in Hj. lia.
Qed.

Lemma sapp_split_le u v w z : u +:+ v = w +:+ z → slen u ≤ slen w → ∃ y, v = y +:+ z.
Proof.
  revert w. induction u as [|c u IH]; intros w; rewrite ?sapp_nil_l, ?sapp_cons.
  - intros -> _. eauto.
  - destruct w as [|d w]; cbn; [lia|]. rewrite sapp_cons. intros [= -> Heq] Hle.
    eapply IH; [exact Heq|lia].
Qed.

Lemma index_str_split sub s i :
  index_str sub s = Some i → s = stake i s +:+ sub +:+ sdrop (i + slen sub) s ∧ slen (stake i s) = i.
Proof.
  intros Hi. pose proof (index_str_Some _ _ _ Hi) as [b Hb].
  assert (slen (stake i s) = i) as Hlen.
  { pose proof (slen_stake_le i s). rewrite Hb in Hi. apply index_str_first in Hi. lia. }
  split; [|done]. rewrite Hb at 1. do 2 f_equal.
  rewrite Hb. rewrite <-sapp_assoc. rewrite <-Hlen, <-slen_app, Hlen. by rewrite sdrop_app_length.
Qed.

(** Greedy search decides the existence of an ordered occurrence. *)
Lemma consume_correct mids last s :
  wrest (mids ++ [last]) s ↔ ∃ r, consume mids s = Some r ∧ has_suffix r last = true.
Proof.
  revert s. induction mids as [|m ms IH]; intros s; cbn.
  - setoid_rewrite has_suffix_spec. split.
    + intros (x & t & -> & ->). exists (x +:+ last +:+ ""). rewrite sapp_nil_r. eauto.
    + intros (r & [= <-] & x & ->). exists x, "". by rewrite sapp_nil_r.
  - destruct (index_str m s) as [i|] eqn:Hi.
    + rewrite <-IH. destruct (index_str_split _ _ _ Hi) as [Hs Hlen]. split.
      * intros (x & t & Hx & Hr). rewrite Hx in Hi. pose proof (index_str_first _ _ _ _ Hi) as Hle.
        assert (∃ y, m +:+ sdrop (i + slen m) s = y +:+ (m +:+ t)) as [y Hy].
        { eapply (sapp_split_le (stake i s)); [by rewrite <-Hs, Hx|]. lia. }
        assert (∃ z, sdrop (i + slen m) s = z +:+ t) as [z ->].
        { eapply (sapp_split_le m _ (y +:+ m)); [by rewrite Hy, sapp_assoc|].
          rewrite slen_app. lia. }
        apply wrest_prefix; [by destruct ms|done].
      * intros Hr. eauto.
    + split; [|by intros (? & ? & _)].
      intros (x & t & -> & _). destruct (index_str_complete m x t) as [j Hj]. congruence.
Qed.

Lemma app_removelast_last {A} (l : list A) d : l ≠ [] → l = removelast l ++ [List.last l d].
Proof. intros. by apply List.app_removelast_last. Qed.
