(* ===== verification/Policy.v ===== *)
(** The transfer policy (internal/policy/allowlist.go): which registries this
    instance may contact, decided before any connection is opened. *)

From S2P Require Import Prelude GoStrings Relocate Glob.

(** * Matching *)

(** [matchLabel]: one DNS label, ["*"] standing for any run of characters. *)
Definition matchLabel (pat s : string) : bool :=
  match split_byte "*" pat with
  | [] | [_] => String.eqb pat s
  | p0 :: rest =>
      match cut_prefix p0 s with
      | None => false
      | Some s =>
          match consume (removelast rest) s with
          | None => false
          | Some s => has_suffix s (List.last rest "")
          end
      end
  end.

(** [matchLabels]: DNS labels, ["**"] absorbing zero or more of them. *)
Fixpoint matchLabels (pat labels : list string) : bool :=
  match pat with
  | [] => match labels with [] => true | _ => false end
  | p :: pat =>
      if String.eqb p "**" then
        existsb (λ skip, matchLabels pat (drop skip labels)) (seq 0 (S (length labels)))
      else
        match labels with
        | [] => false
        | l :: labels => if negb (matchLabel p l) then false else matchLabels pat labels
        end
  end.

(** [splitPort]: a [:port] suffix from a host. *)
Definition splitPort (hostport : string) : string * string :=
  match last_index_byte ":" hostport with
  | Some i => (stake i hostport, sdrop (S i) hostport)
  | None => (hostport, "")
  end.

(** [matchHost]: a canonical host against a canonical pattern. *)
Definition matchHost (pattern host : string) : bool :=
  let '(patHost, patPort) := splitPort pattern in
  let '(gotHost, gotPort) := splitPort host in
  if negb (String.eqb patPort gotPort) then false
  else matchLabels (split_byte "." patHost) (split_byte "." gotHost).

Lemma matchLabel_correct pat s : matchLabel pat s = true ↔ wild pat s.
Proof.
  rewrite wild_split. unfold matchLabel.
  pose proof (join_split "*" pat) as Hj.
  destruct (split_byte "*" pat) as [|p0 rest] eqn:E; [by apply split_byte_nonempty in E|].
  destruct rest as [|r rest]; [cbn in *; subst p0; rewrite String.eqb_eq; split|].
  - intros ->. exists "". by rewrite sapp_nil_r.
  - intros (t & -> & ->). by rewrite sapp_nil_r.
  - assert (r :: rest ≠ []) as Hne by done. revert Hne. generalize (r :: rest) as ps.
    intros ps Hne. unfold wsplit. setoid_rewrite <-cut_prefix_Some.
    assert (∀ t, wrest ps t ↔ ∃ r, consume (removelast ps) t = Some r ∧
      has_suffix r (List.last ps "") = true) as Hw.
    { intros t. by rewrite <-consume_correct, <-app_removelast_last. }
    setoid_rewrite Hw.
    destruct (cut_prefix p0 s) as [t|]; [|split; [by intros|by intros (? & ? & _)]].
    destruct (consume (removelast ps) t) as [u|] eqn:Ec; split.
    + intros. eauto.
    + intros (t' & [= <-] & u' & Hu' & ?). congruence.
    + by intros.
    + intros (t' & [= <-] & u' & Hu' & ?). congruence.
Qed.

Lemma matchLabels_correct pat labels : matchLabels pat labels = true ↔ glob pat labels.
Proof.
  revert labels. induction pat as [|p pat IH]; intros labels; cbn [matchLabels].
  - destruct labels; split; try done; [constructor|inversion 1].
  - destruct (String.eqb_spec p "**") as [->|Hne].
    + rewrite existsb_exists. split.
      * intros (skip & _ & Hm). apply IH in Hm.
        rewrite <-(take_drop skip labels). by constructor.
      * inversion 1; simplify_eq. exists (length l1). split.
        -- apply in_seq. rewrite length_app. lia.
        -- apply IH. by rewrite drop_app_length.
    + destruct labels as [|l labels].
      { split; [done|]. inversion 1; simplify_eq. }
      destruct (matchLabel p l) eqn:E; cbn [negb].
      * rewrite IH. apply matchLabel_correct in E. split; [by constructor|].
        inversion 1; simplify_eq; done.
      * split; [done|]. inversion 1; simplify_eq. 
        assert (matchLabel p l = true) by by apply matchLabel_correct. congruence.
Qed.

(** * The allowlist *)

(** One constructor per refusal of a configuration entry. *)
Inductive allowlist_error :=
  | EmptyEntry
  | NotAHost (pattern : string)
  | BadPattern (pattern : string) (e : relocate_error).

(** [Allowlist]; a nil pointer is [None]. *)
Record Allowlist := mkAllowlist { declared : bool; patterns : list string }.

(** [Check]'s refusal: the policy code (TBY-POL-001) and the host it names. *)
Inductive policy_refusal := NotAllowlisted (host : string).

Section allowlist.
Context `{GoRuntime}.

Definition canonicalPattern (p : string) : res allowlist_error string :=
  if contains_byte p "/" then Err (NotAHost p) else
  if contains_byte p "*" then Ok (to_lower p) else
  wrap_err (BadPattern p) (Host p).

(** The loop of [NewAllowlist]. *)
Fixpoint canonicalEntries (entries : list string) : res allowlist_error (list string) :=
  match entries with
  | [] => Ok []
  | raw :: entries =>
      let p := trim_space raw in
      if String.eqb p "" then Err EmptyEntry else
      canonical ← canonicalPattern p;
      rest ← canonicalEntries entries;
      Ok (canonical :: rest)
  end.

(** [NewAllowlist]: a nil slice is an absent key, an empty one a declared
    empty policy. *)
Definition NewAllowlist (entries : option (list string)) : res allowlist_error Allowlist :=
  ps ← canonicalEntries (default [] entries);
  Ok (mkAllowlist (bool_decide (is_Some entries)) (sort_slice str_ltb ps)).

Definition Declared (a : option Allowlist) : bool :=
  match a with Some a => declared a | None => false end.

Definition Patterns (a : option Allowlist) : list string :=
  match a with Some a => patterns a | None => [] end.

Definition Allows (a : option Allowlist) (host : string) : bool :=
  if negb (Declared a) then true else
  match Host host with
  | Err _ => false
  | Ok canonical => existsb (λ p, matchHost p canonical) (Patterns a)
  end.

(** [Check]: the refusal, and the hosts handed to the refusal hook when one
    is installed. *)
Definition Check (a : option Allowlist) (onRefusal : bool) (host : string)
  : option policy_refusal * list string :=
  if Allows a host then (None, [])
  else (Some (NotAllowlisted host), if onRefusal then [host] else []).

(** ** Correctness *)

Lemma canonicalEntries_elem entries ps p :
  canonicalEntries entries = Ok ps →
  p ∈ ps ↔ ∃ raw, raw ∈ entries ∧ canonicalPattern (trim_space raw) = Ok p.
Proof.
  revert ps. induction entries as [|raw entries IH]; intros ps; cbn.
  - intros [= <-]. set_solver.
  - destruct (String.eqb (trim_space raw) ""); [done|]. intros Hc.
    apply res_bind_Ok in Hc as (c & Hc & Hr). apply res_bind_Ok in Hr as (rest & Hr & [= <-]).
    rewrite elem_of_cons, (IH _ Hr). setoid_rewrite elem_of_cons. split.
    + intros [->|(w & ? & ?)]; eauto.
    + intros (w & [->|?] & Hw); [left; congruence|eauto].
Qed.

Lemma matchHost_correct p h :
  matchHost p h = true ↔
  (splitPort p).2 = (splitPort h).2 ∧
  glob (split_byte "." (splitPort p).1) (split_byte "." (splitPort h).1).
Proof.
  unfold matchHost. destruct (splitPort p) as [ph pp], (splitPort h) as [gh gp]. cbn.
  destruct (String.eqb_spec pp gp) as [->|Hne]; cbn.
  - rewrite matchLabels_correct. tauto.
  - split; [done|]. by intros [? _].
Qed.

(** C8: the allowlist decides exactly what its entries say. With the key
    absent everything is allowed; with it present a host is allowed when it
    canonicalizes and some entry, canonicalized, carries the same port and
    matches its labels as a glob; in particular a declared empty list allows
    nothing. *)
Theorem Allows_correct entries a host
    (Hnew : NewAllowlist entries = Ok a) :
  Allows (Some a) host = true ↔
  entries = None ∨
  ∃ l raw p h, entries = Some l ∧ raw ∈ l ∧
    canonicalPattern (trim_space raw) = Ok p ∧ Host host = Ok h ∧
    (splitPort p).2 = (splitPort h).2 ∧
    glob (split_byte "." (splitPort p).1) (split_byte "." (splitPort h).1).
Proof.
  unfold NewAllowlist in Hnew. apply res_bind_Ok in Hnew as (ps & Hps & [= <-]).
  pose proof (λ p, canonicalEntries_elem _ _ p Hps) as Hel.
  unfold Allows, Declared, Patterns. cbn [declared patterns].
  destruct entries as [l|]; cbn in *; [|naive_solver].
  destruct (Host host) as [h|e]; cbn.
  - rewrite existsb_exists. setoid_rewrite matchHost_correct. split.
    + intros (p & Hin & Hm). right.
      apply list_elem_of_In, elem_of_sort_slice, Hel in Hin as (raw & ? & ?).
      exists l, raw, p, h. naive_solver.
    + intros [?|(l' & raw & p & h' & [= <-] & Hin & Hc & [= <-] & Hm)]; [done|].
      exists p. split; [|done]. apply list_elem_of_In, elem_of_sort_slice, Hel. eauto.
  - split; [done|]. intros [?|(l' & raw & p & h' & [= <-] & Hin & Hc & ? & Hm)]; done.
Qed.

(** A pattern without a star matches only itself. *)
Lemma wild_literal p s : ¬ in_str "*" p → wild p s → p = s.
Proof.
  intros Hn. induction 1; cbn in Hn; [done| |naive_solver]. f_equal. naive_solver.
Qed.

Lemma glob_literal ps ss : Forall (λ p, ¬ in_str "*" p) ps → glob ps ss → ps = ss.
Proof.
  intros Hf. induction 1 as [|ps l1 l2 Hg IH|p ps s ss Hne Hw Hg IH]; [done|..].
  - apply Forall_cons in Hf as [Hs _]. exfalso. apply Hs. cbn. auto.
  - apply Forall_cons in Hf as [Hs Hf]. f_equal; auto using wild_literal.
Qed.

Lemma glob_refl ps : Forall (λ p, ¬ in_str "*" p) ps → glob ps ps.
Proof.
  induction 1 as [|p ps Hp Hf IH]; constructor; [| |done].
  - intros ->. apply Hp. cbn. auto.
  - clear IH Hf. induction p as [|c p IHp]; [constructor|]. cbn in Hp.
    constructor; naive_solver.
Qed.

Lemma in_str_join c sep l w : w ∈ l → in_str c w → in_str c (join sep l).
Proof.
  induction l as [|v l IH]; intros Hw Hc; [set_solver|].
  apply elem_of_cons in Hw as [->|Hw].
  - destruct l; [done|]. cbn [join]. rewrite in_str_app. auto.
  - destruct l as [|v' l]; [set_solver|].
    change (join sep (v :: v' :: l)) with (v +:+ sep +:+ join sep (v' :: l)).
    rewrite !in_str_app. auto.
Qed.

Lemma split_no_star h : ¬ in_str "*" h → Forall (λ p, ¬ in_str "*" p) (split_byte "." h).
Proof.
  intros Hn. apply Forall_forall. intros w Hw Hc. apply Hn.
  rewrite <-(join_split "." h). by eapply in_str_join.
Qed.

Lemma splitPort_spec h :
  h = (splitPort h).1 +:+ ":" +:+ (splitPort h).2 ∨ h = (splitPort h).1 ∧ (splitPort h).2 = "".
Proof.
  unfold splitPort. destruct (last_index_byte ":" h) as [i|] eqn:E; [left|right; done]. cbn.
  revert i E. induction h as [|c h IH]; intros i; cbn; [done|].
  destruct (last_index_byte ":" h) as [j|].
  - intros [= <-]. cbn. rewrite sapp_cons. f_equal. by apply IH.
  - destruct (Ascii.eqb_spec c ":") as [->|]; [|done]. intros [= <-]. done.
Qed.

Lemma last_index_byte_None c s : last_index_byte c s = None ↔ ¬ in_str c s.
Proof.
  induction s as [|a s IH]; cbn; [tauto|].
  destruct (last_index_byte c s); [split; [done|]|].
  - intros Hn. assert (¬ in_str c s) as Hs by tauto. by apply IH in Hs.
  - destruct (Ascii.eqb_spec a c); split; try done; tauto.
Qed.

Lemma splitPort_app name port :
  ¬ in_str ":" port → splitPort (name +:+ ":" +:+ port) = (name, port).
Proof.
  intros Hn. change (":" +:+ port) with (String ":" port). unfold splitPort.
  assert (last_index_byte ":" (name +:+ String ":" port) = Some (slen name)) as ->.
  { induction name as [|c name IH]; rewrite ?sapp_nil_l, ?sapp_cons; cbn.
    - by rewrite (proj2 (last_index_byte_None _ _) Hn).
    - by rewrite IH. }
  rewrite stake_app_length. f_equal.
  induction name as [|c name IH]; rewrite ?sapp_nil_l, ?sapp_cons; [done|apply IH].
Qed.

(** Canonical hosts are determined by their name and port. *)
Lemma splitPort_canonical raw :
  all_bytes is_ascii_byte raw = true → ¬ in_str "_" raw → host_ok raw →
  (splitPort (registry_of raw)).2 = "" → registry_of raw = (splitPort (registry_of raw)).1.
Proof.
  intros Ha Hu Hok. destruct (registry_of_ok raw Ha Hu Hok) as (Hok' & Ha' & Hu' & _).
  set (h := registry_of raw) in *. clearbody h.
  destruct (cut_byte ":" h) as [[name port]|] eqn:E.
  - pose proof (ho_port _ Hok' (map_bytes lower_byte name) (map_bytes lower_byte port)) as Hp.
    apply cut_byte_Some in E as [-> Hn].
    rewrite to_lower_ascii, map_bytes_app in Hp by done. destruct Hp as [Hne Hd].
    { apply cut_byte_Some. by rewrite in_str_map_lower. }
    assert (¬ in_str ":" port) as Hc.
    { rewrite <-in_str_map_lower by done. by apply digits_no. }
    change (String ":" port) with (":" +:+ port). rewrite splitPort_app by done. cbn.
    intros ->. done.
  - apply cut_byte_None in E. unfold splitPort.
    by rewrite (proj2 (last_index_byte_None ":" h) E).
Qed.

Lemma matchHost_literal raw1 raw2 :
  all_bytes is_ascii_byte raw1 = true → ¬ in_str "_" raw1 → host_ok raw1 →
  all_bytes is_ascii_byte raw2 = true → ¬ in_str "_" raw2 → host_ok raw2 →
  ¬ in_str "*" (registry_of raw1) →
  matchHost (registry_of raw1) (registry_of raw2) = true ↔ registry_of raw1 = registry_of raw2.
Proof.
  intros Ha1 Hu1 Hok1 Ha2 Hu2 Hok2 Hs. rewrite matchHost_correct.
  pose proof (splitPort_canonical _ Ha1 Hu1 Hok1) as Hc1.
  pose proof (splitPort_canonical _ Ha2 Hu2 Hok2) as Hc2.
  revert Hs Hc1 Hc2. generalize (registry_of raw1) as e, (registry_of raw2) as h.
  intros e h Hs Hc1 Hc2.
  assert (¬ in_str "*" (splitPort e).1) as Hs1.
  { intros Hin. apply Hs. destruct (splitPort_spec e) as [->|[-> _]]; [|done].
    rewrite in_str_app. auto. }
  apply split_no_star in Hs1. split; [|intros ->; auto using glob_refl].
  intros [Hp Hg]. apply glob_literal in Hg; [|done].
  assert ((splitPort e).1 = (splitPort h).1) as Hn
    by (rewrite <-(join_split "." (splitPort e).1), Hg; apply join_split).
  destruct (decide ((splitPort e).2 = "")) as [E|E].
  - rewrite Hc1, Hc2 by congruence. done.
  - destruct (splitPort_spec e) as [He|[_ ?]]; [|done].
    destruct (splitPort_spec h) as [Hh|[_ ?]]; [|congruence]. congruence.
Qed.

(** A literal allowlist entry grants exactly the registry it names, port
    included: nothing wider and nothing narrower. *)
Theorem literal_entry_exact entry host e h a
    (Hentry : all_bytes is_ascii_byte entry = true ∧ ¬ in_str "_" entry ∧ ¬ in_str "*" entry)
    (Hhost : all_bytes is_ascii_byte host = true ∧ ¬ in_str "_" host)
    (Htrim : trim_space entry = entry)
    (Hnew : NewAllowlist (Some [entry]) = Ok a)
    (He : Host entry = Ok e) (Hh : Host host = Ok h) :
  Allows (Some a) host = true ↔ e = h.
Proof.
  destruct Hentry as (Hea & Heu & Hes), Hhost as (Hha & Hhu).
  unfold NewAllowlist in Hnew. apply res_bind_Ok in Hnew as (ps & Hps & [= <-]).
  cbn in Hps. rewrite Htrim in Hps. destruct (String.eqb entry ""); [done|].
  apply res_bind_Ok in Hps as (c & Hc & [= <-]). unfold canonicalPattern in Hc.
  destruct (contains_byte entry "/"); [done|].
  rewrite (proj2 (contains_byte_false _ _) Hes), He in Hc. injection Hc as <-.
  unfold Allows, Declared, Patterns. cbn [declared patterns]. rewrite Hh. cbn [is_Some_dec].
  assert (sort_slice str_ltb [e] = [e]) as ->
    by apply Permutation_singleton_r, sort_slice_perm.
  cbn. rewrite orb_false_r.
  apply Host_Ok in He as (rawe & Hoke & Hue & Hae & -> & Hsub); [|done..].
  apply Host_Ok in Hh as (rawh & Hokh & Huh & Hah & -> & _); [|done..].
  apply matchHost_literal; try done.
  apply collapse_alias_no; [|vm_compute; intuition congruence].
  rewrite in_str_to_lower by done. auto.
Qed.

End allowlist.

Lemma Allows_correct_witness :
  Allows (Some (mkAllowlist true ["*.example.com:5000"])) "Reg.Example.com:5000" = true ↔
  Some ["*.Example.com:5000"] = None ∨
  ∃ l raw p h, Some ["*.Example.com:5000"] = Some l ∧ raw ∈ l ∧
    canonicalPattern (trim_space raw) = Ok p ∧ Host "Reg.Example.com:5000" = Ok h ∧
    (splitPort p).2 = (splitPort h).2 ∧
    glob (split_byte "." (splitPort p).1) (split_byte "." (splitPort h).1).
Proof. apply Allows_correct. reflexivity. Defined.

Lemma literal_entry_exact_witness :
  Allows (Some (mkAllowlist true ["docker.io"])) "Index.docker.io" = true ↔
  "docker.io" = "docker.io".
Proof.
  apply (literal_entry_exact "registry-1.docker.io" "Index.docker.io");
    [split_and!; [reflexivity|vm_compute; intuition congruence..]
    |split; [reflexivity|vm_compute; intuition congruence]|reflexivity..].
Defined.
