(* ===== verification/Taxonomy.v ===== *)
(** The error taxonomy (internal/taxonomy): the published codes with their
    classes and HTTP statuses, the exit-code table of the command line, and the
    rule that picks the principal error of an operation with several failures. *)

From S2P Require Import Prelude GoStrings.

Abbreviation Code := string.

(** [Class]: the exit-code classes, in order of severity. *)
Inductive Class := ClassOperational | ClassPolicy | ClassVerification.
#[export] Instance Class_eq_dec : EqDecision Class.
Proof. solve_decision. Defined.

(** Process exit codes. *)
Definition ExitOK : Z := 0.
Definition ExitFailure : Z := 1.
Definition ExitUsage : Z := 2.
Definition ExitPolicy : Z := 3.
Definition ExitVerification : Z := 4.
Definition ExitChangesPlanned : Z := 5.

(** [Class.ExitCode] and [Class.severity]. *)
Definition ClassExitCode (c : Class) : Z :=
  match c with
  | ClassPolicy => ExitPolicy
  | ClassVerification => ExitVerification
  | ClassOperational => ExitFailure
  end.
Definition severity (c : Class) : Z :=
  match c with ClassOperational => 0 | ClassPolicy => 1 | ClassVerification => 2 end.

(** [Entry]: one catalog entry; an HTTP status of 0 is never served. *)
Record Entry := mkEntry {
  entry_code : Code; entry_class : Class; entry_status : Z; entry_params : list string }.

(** * The catalog *)

Definition CodeNoAccount : Code := "TBY-AUTH-001".
Definition CodeAuthFailed : Code := "TBY-AUTH-002".
Definition CodeRoleDenied : Code := "TBY-AUTH-003".
Definition CodeCSRF : Code := "TBY-AUTH-004".
Definition CodeSessionExpired : Code := "TBY-AUTH-005".
Definition CodePasswordCurrent : Code := "TBY-AUTH-006".
Definition CodePasswordInvalid : Code := "TBY-AUTH-007".
Definition CodeAccountInvalid : Code := "TBY-AUTH-008".
Definition CodeAccountExists : Code := "TBY-AUTH-009".
Definition CodeAccountUnknown : Code := "TBY-AUTH-010".
Definition CodeLastAdmin : Code := "TBY-AUTH-011".
Definition CodeAuthRateLimited : Code := "TBY-AUTH-012".
Definition CodeConfigInvalid : Code := "TBY-CFG-001".
Definition CodeSecretInStore : Code := "TBY-CFG-002".
Definition CodeProxyInvalid : Code := "TBY-NET-001".
Definition CodeTrustStore : Code := "TBY-NET-002".
Definition CodeServerTLS : Code := "TBY-NET-003".
Definition CodeServerCertReplace : Code := "TBY-NET-004".
Definition CodeValidation : Code := "TBY-VAL-001".
Definition CodeBadReference : Code := "TBY-REG-001".
Definition CodeRegistryUnreachable : Code := "TBY-REG-002".
Definition CodeRegistryAuth : Code := "TBY-REG-003".
Definition CodeInspectTimeout : Code := "TBY-REG-004".
Definition CodeRefNotFound : Code := "TBY-REG-005".
Definition CodeVersionResolve : Code := "TBY-REG-006".
Definition CodeRangeUnusable : Code := "TBY-REG-007".
Definition CodePlatformMissing : Code := "TBY-REG-008".
Definition CodeNotAllowlisted : Code := "TBY-POL-001".
Definition CodeRecipeManaged : Code := "TBY-POL-002".
Definition CodeSeedContent : Code := "TBY-POL-003".
Definition CodeTagImmutable : Code := "TBY-POL-004".
Definition CodeSignature : Code := "TBY-SIG-001".
Definition CodeDigestMismatch : Code := "TBY-SIG-002".
Definition CodeArtifactType : Code := "TBY-SIG-003".
Definition CodeDestinationLimit : Code := "TBY-DST-001".
Definition CodePackInput : Code := "TBY-FIL-001".
Definition CodePackUnsafe : Code := "TBY-FIL-002".
Definition CodePackNotAllowed : Code := "TBY-FIL-003".
Definition CodeChartDependency : Code := "TBY-CHT-001".
Definition CodeStoreRead : Code := "TBY-STO-001".
Definition CodeStoreWrite : Code := "TBY-STO-002".
Definition CodeResumeSpool : Code := "TBY-STO-003".
Definition CodeInsufficientSpace : Code := "TBY-STO-004".
Definition CodeFileTooLarge : Code := "TBY-STO-005".
Definition CodeMediaManifestMissing : Code := "TBY-MED-001".
Definition CodeMediaManifestUnreadable : Code := "TBY-MED-002".
Definition CodeMediaFormatUnsupported : Code := "TBY-MED-003".
Definition CodeMediaStoreFormat : Code := "TBY-MED-004".
Definition CodeMediaGraphAltered : Code := "TBY-MED-005".
Definition CodeMediaZoneMismatch : Code := "TBY-MED-006".
Definition CodeMediaStale : Code := "TBY-MED-007".
Definition CodeMediaFileMissing : Code := "TBY-MED-010".
Definition CodeMediaFileSize : Code := "TBY-MED-011".
Definition CodeMediaFileDigest : Code := "TBY-MED-012".
Definition CodeMediaFileUninventoried : Code := "TBY-MED-013".
Definition CodeMediaContentUnreadable : Code := "TBY-MED-014".
Definition CodeMediaContentAddress : Code := "TBY-MED-015".
Definition CodeMediaUncovered : Code := "TBY-MED-020".
Definition CodeMediaUnreachable : Code := "TBY-MED-021".
Definition CodeMediaMetadataAltered : Code := "TBY-MED-022".
Definition CodeMediaUnverified : Code := "TBY-MED-030".
Definition CodeMediaVerificationRunning : Code := "TBY-MED-031".
Definition CodeMediaNotCleared : Code := "TBY-MED-032".
Definition CodeResetConfirmation : Code := "TBY-STO-006".
Definition CodeLayoutInvalid : Code := "TBY-LAY-001".
Definition CodeLayoutUnsafe : Code := "TBY-LAY-002".
Definition CodeLayoutTarget : Code := "TBY-LAY-003".
Definition CodeTaskNotFound : Code := "TBY-TSK-001".
Definition CodeInternal : Code := "TBY-SRV-001".
Definition CodeNotFound : Code := "TBY-SRV-002".
Definition CodeUnreachable : Code := "TBY-SRV-003".

Definition catalog_entries : list Entry := [
  mkEntry CodeNoAccount ClassPolicy 0 [];
  mkEntry CodeAuthFailed ClassOperational 401 [];
  mkEntry CodeRoleDenied ClassPolicy 403 ["role"];
  mkEntry CodeCSRF ClassOperational 403 [];
  mkEntry CodeSessionExpired ClassOperational 401 [];
  mkEntry CodePasswordCurrent ClassOperational 422 [];
  mkEntry CodePasswordInvalid ClassOperational 422 [];
  mkEntry CodeAccountInvalid ClassOperational 422 [];
  mkEntry CodeAccountExists ClassOperational 409 ["name"];
  mkEntry CodeAccountUnknown ClassOperational 404 ["name"];
  mkEntry CodeLastAdmin ClassPolicy 409 ["name"];
  mkEntry CodeAuthRateLimited ClassOperational 429 [];
  mkEntry CodeConfigInvalid ClassOperational 0 ["detail"];
  mkEntry CodeSecretInStore ClassPolicy 0 ["paths"; "root"];
  mkEntry CodeProxyInvalid ClassOperational 0 ["setting"; "proxy"];
  mkEntry CodeTrustStore ClassOperational 0 ["source"];
  mkEntry CodeServerTLS ClassOperational 0 ["source"];
  mkEntry CodeServerCertReplace ClassOperational 422 ["detail"];
  mkEntry CodeValidation ClassOperational 422 ["file"; "path"; "constraint"];
  mkEntry CodeBadReference ClassOperational 400 ["reference"];
  mkEntry CodeRegistryUnreachable ClassOperational 502 ["host"];
  mkEntry CodeRegistryAuth ClassOperational 502 ["host"];
  mkEntry CodeInspectTimeout ClassOperational 504 ["host"; "timeout"];
  mkEntry CodeRefNotFound ClassOperational 502 ["reference"];
  mkEntry CodeNotAllowlisted ClassPolicy 403 ["host"];
  mkEntry CodeRecipeManaged ClassPolicy 403 ["repository"; "recipes"];
  mkEntry CodeSeedContent ClassPolicy 403 ["repository"];
  mkEntry CodeTagImmutable ClassPolicy 409 ["reference"; "published"; "candidate"];
  mkEntry CodeRangeUnusable ClassOperational 502 ["reference"; "detail"];
  mkEntry CodeVersionResolve ClassOperational 422 ["reference"; "constraint"; "detail"];
  mkEntry CodePlatformMissing ClassOperational 422 ["reference"; "platforms"; "available"];
  mkEntry CodeSignature ClassVerification 422 ["recipe"; "fingerprints"];
  mkEntry CodeDigestMismatch ClassVerification 422 ["reference"; "expected"; "actual"];
  mkEntry CodeArtifactType ClassVerification 422 ["reference"; "expected"; "actual"];
  mkEntry CodeDestinationLimit ClassOperational 422 ["reference"; "limit"];
  mkEntry CodeChartDependency ClassVerification 422 ["chart"; "dependency"];
  mkEntry CodePackInput ClassOperational 422 ["detail"];
  mkEntry CodePackUnsafe ClassPolicy 422 ["detail"];
  mkEntry CodePackNotAllowed ClassPolicy 403 ["path"];
  mkEntry CodeStoreRead ClassOperational 500 ["detail"];
  mkEntry CodeStoreWrite ClassOperational 500 ["detail"];
  mkEntry CodeResumeSpool ClassOperational 500 ["path"; "detail"];
  mkEntry CodeInsufficientSpace ClassOperational 507 ["path"; "needed"; "available"; "shortfall"; "margin"; "free"];
  mkEntry CodeFileTooLarge ClassOperational 507 ["path"; "filesystem"; "limit"; "size"; "what"];
  mkEntry CodeMediaManifestMissing ClassVerification 422 ["path"];
  mkEntry CodeMediaManifestUnreadable ClassVerification 422 ["path"; "detail"];
  mkEntry CodeMediaFormatUnsupported ClassVerification 422 ["found"; "supported"];
  mkEntry CodeMediaStoreFormat ClassVerification 422 ["found"; "supported"];
  mkEntry CodeMediaGraphAltered ClassVerification 422 ["path"; "expected"; "actual"];
  mkEntry CodeMediaZoneMismatch ClassPolicy 409 ["expected"; "found"];
  mkEntry CodeMediaStale ClassPolicy 409 ["zone"; "resolved"; "recorded"; "media"];
  mkEntry CodeMediaFileMissing ClassVerification 422 ["path"; "recipe"];
  mkEntry CodeMediaFileSize ClassVerification 422 ["path"; "expected"; "actual"];
  mkEntry CodeMediaFileDigest ClassVerification 422 ["path"; "expected"; "actual"];
  mkEntry CodeMediaFileUninventoried ClassVerification 422 ["path"; "recipe"];
  mkEntry CodeMediaContentUnreadable ClassVerification 422 ["path"; "detail"];
  mkEntry CodeMediaContentAddress ClassVerification 422 ["path"; "expected"; "actual"];
  mkEntry CodeMediaUncovered ClassOperational 0 ["path"];
  mkEntry CodeMediaUnreachable ClassOperational 0 ["path"];
  mkEntry CodeMediaMetadataAltered ClassOperational 0 ["path"];
  mkEntry CodeMediaUnverified ClassPolicy 403 ["surface"; "media"; "screen"];
  mkEntry CodeMediaVerificationRunning ClassOperational 409 ["stage"];
  mkEntry CodeMediaNotCleared ClassPolicy 403 ["surface"; "media"; "verdict"; "screen"];
  mkEntry CodeResetConfirmation ClassOperational 422 ["phrase"];
  mkEntry CodeLayoutInvalid ClassOperational 422 ["path"; "detail"];
  mkEntry CodeLayoutUnsafe ClassVerification 422 ["path"; "entry"; "reason"];
  mkEntry CodeLayoutTarget ClassOperational 409 ["path"];
  mkEntry CodeTaskNotFound ClassOperational 404 ["id"];
  mkEntry CodeInternal ClassOperational 500 [];
  mkEntry CodeNotFound ClassOperational 404 [];
  mkEntry CodeUnreachable ClassOperational 0 []
].

Definition catalog : gmap Code Entry :=
  list_to_map ((λ e, (entry_code e, e)) <$> catalog_entries).

(** [Lookup]. *)
Definition Lookup (code : Code) : option Entry := catalog !! code.

(** The class the principal rule reads: Go's zero [Entry] for an unknown code
    has the zero class. *)
Definition class_of (code : Code) : Class :=
  match catalog !! code with Some e => entry_class e | None => ClassOperational end.

(** [ExitCodes]: the published table, and [ExitCodeName]. *)
Definition ExitCodes : list (Z * string) :=
  [(ExitOK, "ok"); (ExitFailure, "failure"); (ExitUsage, "usage"); (ExitPolicy, "policy");
   (ExitVerification, "verification"); (ExitChangesPlanned, "changes-planned")].
Definition Classes : list Class := [ClassOperational; ClassPolicy; ClassVerification].
Fixpoint exit_name_in (table : list (Z * string)) (code : Z) : option string :=
  match table with
  | [] => None
  | (c, name) :: table => if (c =? code)%Z then Some name else exit_name_in table code
  end.
Definition ExitCodeName (code : Z) : option string := exit_name_in ExitCodes code.

(** * Errors *)

(** Parameter values: strings and integers, as the constructors supply them. *)
Inductive pval := PStr (s : string) | PInt (z : Z).
Abbreviation Params := (gmap string pval).

(** [Error]: one occurrence of a catalog entry; the cause is the text of the
    wrapped error. *)
Record TaxError := mkTaxError {
  te_code : Code; te_params : Params; te_correlation : string; te_cause : option string }.

(** [New]: an unknown code panics. *)
Definition New (code : Code) (params : Params) : option TaxError :=
  match Lookup code with
  | None => None
  | Some _ => Some (mkTaxError code params "" None)
  end.
Definition WithCause (cause : string) (e : TaxError) : TaxError :=
  mkTaxError (te_code e) (te_params e) (te_correlation e) (Some cause).
Definition WithCorrelation (id : string) (e : TaxError) : TaxError :=
  mkTaxError (te_code e) (te_params e) id (te_cause e).

(** * The principal error *)

(** The counting loop of [Principal]: how often each code occurs, and its
    first occurrence. *)
Fixpoint tally (errs : list (option TaxError)) (counts : gmap Code Z) (first : gmap Code TaxError)
  : gmap Code Z * gmap Code TaxError :=
  match errs with
  | [] => (counts, first)
  | None :: errs => tally errs counts first
  | Some e :: errs =>
      tally errs (<[te_code e := (default 0 (counts !! te_code e) + 1)%Z]> counts)
        (match first !! te_code e with Some _ => first | None => <[te_code e := e]> first end)
  end.

(** The [switch] of the selection loop: [code] displaces [best]. *)
Definition displaces (counts : gmap Code Z) (code best : Code) : bool :=
  let bc := severity (class_of best) in
  let cc := severity (class_of code) in
  let nb := default 0%Z (counts !! best) in
  let nc := default 0%Z (counts !! code) in
  ((bc <? cc) || ((cc =? bc) && (nb <? nc)) || ((cc =? bc) && (nc =? nb) && str_ltb code best))%Z.

Definition pick (counts : gmap Code Z) (best code : Code) : Code :=
  if String.eqb best "" then code else if displaces counts code best then code else best.
Definition select_best (counts : gmap Code Z) (codes : list Code) : Code :=
  fold_left (pick counts) codes "".

(** [Principal]. *)
Definition Principal `{GoRuntime} (errs : list (option TaxError)) : option TaxError :=
  let '(counts, first) := tally errs ∅ ∅ in
  let best := select_best counts (map_keys counts) in
  if String.eqb best "" then None else first !! best.

(** ** What the principal error is *)

(** How many errors carry a code. *)
Fixpoint occurrences (errs : list (option TaxError)) (c : Code) : Z :=
  match errs with
  | [] => 0
  | None :: errs => occurrences errs c
  | Some e :: errs => (if String.eqb (te_code e) c then 1 else 0) + occurrences errs c
  end.

(** [c] outranks [d]: higher class severity, then more frequent, then smaller. *)
Definition outranks (errs : list (option TaxError)) (c d : Code) : Prop :=
  (severity (class_of d) < severity (class_of c))%Z ∨
  severity (class_of c) = severity (class_of d) ∧
  ((occurrences errs d < occurrences errs c)%Z ∨
   occurrences errs c = occurrences errs d ∧ str_ltb c d = true).

Lemma str_ltb_trans a b c : str_ltb a b = true → str_ltb b c = true → str_ltb a c = true.
Proof. apply (strict_weak_str id). Qed.
Lemma str_ltb_irrefl a : str_ltb a a = false.
Proof. apply (strict_weak_str id). Qed.
Lemma str_ltb_total a b : a ≠ b → str_ltb a b = false → str_ltb b a = true.
Proof.
  intros Hne Hab. apply not_false_is_true. intros Hba. apply Hne.
  apply (anti_symm String.le); by apply str_ltb_le.
Qed.

#[local] Opaque catalog.

Section rank.
Context (counts : gmap Code Z).
Let n c := default 0%Z (counts !! c).
Let s c := severity (class_of c).

Lemma displaces_spec c d :
  displaces counts c d = true ↔
  (s d < s c)%Z ∨ s c = s d ∧ ((n d < n c)%Z ∨ n c = n d ∧ str_ltb c d = true).
Proof.
  unfold displaces, n, s.
  rewrite !orb_true_iff, !andb_true_iff, !Z.ltb_lt, !Z.eqb_eq. tauto.
Qed.

Lemma displaces_total c d : c ≠ d → displaces counts c d = false → displaces counts d c = true.
Proof.
  intros Hne Hf. apply displaces_spec.
  pose proof (displaces_spec c d) as [_ Hcd]. rewrite Hf in Hcd.
  destruct (Z.lt_trichotomy (s c) (s d)) as [?|[Hs|?]]; [by left| |exfalso; by discriminate Hcd; left].
  right. split; [done|].
  destruct (Z.lt_trichotomy (n c) (n d)) as [?|[Hn|?]]; [by left| |exfalso; by discriminate Hcd; auto].
  right. split; [done|]. apply str_ltb_total; [done|].
  destruct (str_ltb c d); [|done]. by discriminate Hcd; auto.
Qed.

Lemma displaces_trans c d e :
  displaces counts c d = true → displaces counts d e = true → displaces counts c e = true.
Proof.
  rewrite !displaces_spec.
  intros [?|(? & [?|(? & ?)])] [?|(? & [?|(? & ?)])];
    first [left; lia | right; split; [lia|]; first [left; lia | right; split; [lia|]; by eapply str_ltb_trans]].
Qed.

Lemma displaces_irrefl c : displaces counts c c = false.
Proof.
  destruct (displaces counts c c) eqn:E; [|done]. apply displaces_spec in E.
  rewrite str_ltb_irrefl in E. destruct E as [?|(_ & [?|(_ & ?)])]; [lia|lia|done].
Qed.

(** The selection loop ends on the maximum of what it visited. *)
Lemma select_best_fold codes b :
  b ≠ "" → "" ∉ codes →
  fold_left (pick counts) codes b ∈ b :: codes ∧
  ∀ c, c ∈ b :: codes → c ≠ fold_left (pick counts) codes b →
    displaces counts (fold_left (pick counts) codes b) c = true.
Proof.
  revert b. induction codes as [|c codes IH]; intros b Hb Hnin; cbn [fold_left].
  { split; [by left|]. intros c [->|?%elem_of_nil]%elem_of_cons; done. }
  apply not_elem_of_cons in Hnin as [Hc Hnin].
  set (b' := pick counts b c).
  assert ((b' = b ∨ b' = c) ∧ (b' ≠ b → displaces counts b' b = true) ∧
          (b' ≠ c → displaces counts b' c = true)) as (Hcase & Hdb & Hdc).
  { unfold b', pick. rewrite (proj2 (String.eqb_neq b "")) by done.
    destruct (displaces counts c b) eqn:E.
    - split; [by right|]. split; [intros _; exact E|intros Hx; by destruct Hx].
    - split; [by left|]. split; [intros Hx; by destruct Hx|]. intros ?. apply displaces_total; congruence. }
  clearbody b'. destruct (IH b') as [Hin Hmax]; [destruct Hcase; congruence|done|].
  set (r := fold_left (pick counts) codes b') in *.
  split.
  { rewrite elem_of_cons in Hin. rewrite !elem_of_cons.
    destruct Hin as [->|?]; [destruct Hcase; auto|auto]. }
  assert (∀ d, d ≠ r → (d ≠ b' → displaces counts b' d = true) → displaces counts r d = true)
    as Hvia.
  { intros d Hdr Hd. destruct (decide (d = b')) as [->|Hne].
    - apply Hmax; [by left|done].
    - destruct (decide (b' = r)) as [<-|Hbr]; [auto|].
      eapply displaces_trans; [|apply Hd; done]. apply Hmax; [by left|done]. }
  intros d Hd Hne. rewrite !elem_of_cons in Hd. destruct Hd as [->|[->|Hd]].
  - apply Hvia; auto.
  - apply Hvia; auto.
  - apply Hmax; [by right|done].
Qed.

Lemma select_best_spec codes :
  "" ∉ codes → codes ≠ [] →
  select_best counts codes ∈ codes ∧
  ∀ c, c ∈ codes → c ≠ select_best counts codes →
    displaces counts (select_best counts codes) c = true.
Proof.
  destruct codes as [|c codes]; [done|]. intros [Hc Hnin]%not_elem_of_cons _.
  by apply (select_best_fold codes c).
Qed.
End rank.

(** The tables the counting loop builds. *)
Lemma tally_counts errs counts first c :
  (tally errs counts first).1 !! c =
    if (occurrences errs c =? 0)%Z then counts !! c
    else Some (default 0 (counts !! c) + occurrences errs c)%Z.
Proof.
  revert counts first.
  induction errs as [|[e|] errs IH]; intros counts first; cbn [tally occurrences]; [done| |apply IH].
  rewrite IH. assert (0 ≤ occurrences errs c)%Z as Hpos.
  { clear. induction errs as [|[e|] errs IH]; cbn; [done| |done]. destruct (String.eqb _ _); lia. }
  destruct (String.eqb_spec (te_code e) c) as [->|Hne].
  - rewrite lookup_insert_eq, (proj2 (Z.eqb_neq (1 + _) 0)) by lia.
    cbn [default from_option id].
    destruct (Z.eqb_spec (occurrences errs c) 0) as [E|?]; f_equal; lia.
  - by rewrite lookup_insert_ne.
Qed.

Lemma tally_first errs counts first c :
  (tally errs counts first).2 !! c =
    match first !! c with
    | Some e => Some e
    | None => snd <$> list_find (λ e, te_code e = c) (omap id errs)
    end.
Proof.
  revert counts first. induction errs as [|[e|] errs IH]; intros counts first; cbn.
  - by destruct (first !! c).
  - rewrite IH. destruct (decide (te_code e = c)) as [<-|Hne].
    + destruct (first !! te_code e) eqn:E; [by rewrite E|]. by rewrite lookup_insert_eq.
    + replace (match first !! te_code e with Some _ => first | None => <[te_code e:=e]> first end !! c)
        with (first !! c) by (destruct (first !! te_code e); [done|by rewrite lookup_insert_ne]).
      destruct (first !! c); [done|]. rewrite <-option_fmap_compose. done.
  - rewrite IH. done.
Qed.

Lemma occurrences_pos errs c :
  (0 < occurrences errs c)%Z ↔ ∃ e, Some e ∈ errs ∧ te_code e = c.
Proof.
  induction errs as [|[e|] errs IH]; cbn [occurrences].
  - split; [lia|]. by intros (e & ?%elem_of_nil & _).
  - setoid_rewrite elem_of_cons. assert (0 ≤ occurrences errs c)%Z.
    { clear. induction errs as [|[e|] errs IH]; cbn; [done| |done]. destruct (String.eqb _ _); lia. }
    destruct (String.eqb_spec (te_code e) c) as [<-|Hne]; split; intros Hx.
    + eauto.
    + lia.
    + destruct (proj1 IH) as (e' & ? & ?); [lia|]. eauto.
    + destruct Hx as (e' & [[= ->]|Hin] & He'); [done|].
      assert (0 < occurrences errs c)%Z by (apply IH; eauto). lia.
  - rewrite IH. setoid_rewrite elem_of_cons. split; intros (e & Hin & He); [eauto|].
    destruct Hin as [?|?]; [done|eauto].
Qed.

Lemma occurrences_nonneg errs c : (0 ≤ occurrences errs c)%Z.
Proof. induction errs as [|[e|] errs IH]; cbn; [done| |done]. destruct (String.eqb _ _); lia. Qed.

(** The error a position of the list of non-nil errors came from. *)
Lemma omap_id_split {A} (l : list (option A)) xs y ys :
  omap id l = xs ++ y :: ys →
  ∃ before after, l = before ++ Some y :: after ∧ omap id before = xs.
Proof.
  revert xs. induction l as [|[x|] l IH]; intros xs; cbn.
  - by destruct xs.
  - destruct xs as [|x' xs]; intros [= -> Heq].
    + by exists [], l.
    + destruct (IH _ Heq) as (b & a & -> & <-). by exists (Some x' :: b), a.
  - intros Heq. destruct (IH _ Heq) as (b & a & -> & <-). by exists (None :: b), a.
Qed.

(** The principal error of an operation is well defined: it is the first
    error carrying the code that outranks every other code present (class
    severity, then frequency, then code order), and there is none only when
    every entry is nil. The statement determines it for every order in which
    the counting map is visited. *)
Theorem Principal_spec `{GoRuntime} errs
    (Hne : ∀ e, Some e ∈ errs → te_code e ≠ "") :
  match Principal errs with
  | None => ∀ e, Some e ∉ errs
  | Some e =>
      (∃ before after, errs = before ++ Some e :: after ∧
         ∀ e', Some e' ∈ before → te_code e' ≠ te_code e) ∧
      ∀ e', Some e' ∈ errs → te_code e' ≠ te_code e → outranks errs (te_code e) (te_code e')
  end.
Proof.
  unfold Principal.
  pose proof (tally_counts errs ∅ ∅) as Hcnt. pose proof (tally_first errs ∅ ∅) as Hfst.
  destruct (tally errs ∅ ∅) as [counts first]. cbn [fst snd] in Hcnt, Hfst.
  setoid_rewrite lookup_empty in Hcnt. setoid_rewrite lookup_empty in Hfst.
  assert (∀ c, c ∈ map_keys counts ↔ (0 < occurrences errs c)%Z) as Hkeys.
  { intros c. rewrite elem_of_map_keys, Hcnt. pose proof (occurrences_nonneg errs c).
    destruct (Z.eqb_spec (occurrences errs c) 0) as [->|?]; split; [by intros []|lia|lia|eauto]. }
  assert (∀ c, default 0%Z (counts !! c) = occurrences errs c) as Hn.
  { intros c. rewrite Hcnt. by destruct (Z.eqb_spec (occurrences errs c) 0) as [->|?]. }
  assert ("" ∉ map_keys counts) as Hempty.
  { rewrite Hkeys, occurrences_pos. intros (e & Hin & He). by apply (Hne e). }
  destruct (map_keys counts) as [|k ks] eqn:Ek.
  { cbn. intros e He. assert (te_code e ∈ []) as Hin; [|by apply elem_of_nil in Hin].
    apply Hkeys, occurrences_pos. eauto. }
  destruct (select_best_spec counts (k :: ks)) as [Hin Hmax]; [done|done|].
  set (best := select_best counts (k :: ks)) in *. clearbody best.
  destruct (String.eqb_spec best "") as [->|Hb]; [done|].
  apply Hkeys, occurrences_pos in Hin as (e0 & Hin0 & He0).
  rewrite Hfst. destruct (list_find (λ e, te_code e = best) (omap id errs)) as [[i e]|] eqn:Ef.
  - cbn. apply list_find_Some in Ef as (Hi & He & Hbefore). split.
    + apply list_elem_of_split_length in Hi as (xs & ys & Heq & ->).
      apply omap_id_split in Heq as Hs. destruct Hs as (b & a & -> & Hxs).
      exists b, a. split; [done|]. intros e' He'. rewrite He.
      assert (e' ∈ xs) as [j Hj]%list_elem_of_lookup.
      { rewrite <-Hxs. apply list_elem_of_omap. by exists (Some e'). }
      apply (Hbefore j); [|by eapply lookup_lt_Some].
      rewrite Heq. by apply lookup_app_l_Some.
    + intros e' He' Hne'. rewrite He in Hne' |- *.
      assert (displaces counts best (te_code e') = true) as Hd.
      { apply Hmax; [|done]. apply Hkeys, occurrences_pos. eauto. }
      apply displaces_spec in Hd. rewrite !Hn in Hd. unfold outranks. tauto.
  - exfalso. apply list_find_None in Ef. rewrite Forall_forall in Ef.
    apply (Ef e0); [|done]. apply list_elem_of_omap. by exists (Some e0).
Qed.

#[local] Transparent catalog.

Lemma Principal_spec_witness :
  let sig := mkTaxError CodeSignature ∅ "run" None in
  let srv := mkTaxError CodeInternal ∅ "run" None in
  (∃ before after, [Some srv; None; Some sig; Some srv] = before ++ Some sig :: after ∧
     ∀ e', Some e' ∈ before → te_code e' ≠ te_code sig) ∧
  ∀ e', Some e' ∈ [Some srv; None; Some sig; Some srv] → te_code e' ≠ te_code sig →
    outranks [Some srv; None; Some sig; Some srv] (te_code sig) (te_code e').
Proof.
  intros sig srv.
  refine (Principal_spec [Some srv; None; Some sig; Some srv] _).
  intros e. rewrite !elem_of_cons, elem_of_nil. intros [[= ->]|[?|[[= ->]|[[= ->]|?]]]]; done.
Defined.
