(* ===== verification/Tasks.v ===== *)
(** Tracked operations (internal/tasks/tasks.go): the task record with its
    items, the persisted failures, the per-blob progress rows, and the
    aggregates every surface computes from them. *)

From S2P Require Import Prelude GoStrings Taxonomy.

(** Instants, in nanoseconds; 0 is Go's zero [time.Time]. *)
Abbreviation time := Z.

(** [Status]; a persisted file may carry any string. *)
Inductive Status :=
  | StatusPending | StatusRunning | StatusDone | StatusFailed | StatusSkipped
  | StatusOther (s : string).
#[export] Instance Status_eq_dec : EqDecision Status.
Proof. solve_decision. Defined.

(** [ItemError]: a persisted failure, code and parameters. *)
Record ItemError := mkItemError { ie_code : Code; ie_params : Params; ie_detail : string }.

(** [BlobProgress]: one large blob's advance within an item. *)
Record BlobProgress := mkBlob {
  bp_digest : string; bp_size : Z; bp_received : Z; bp_resumed : bool; bp_done : bool }.

(** [Item]: one element of a task. *)
Record Item := mkItem {
  it_name : string; it_digest : string; it_size : Z; it_status : Status;
  it_error : option ItemError; it_blobs : list BlobProgress }.

(** [Layout], [Pruned], [Resolution], [ChartDependency]: parameters and report
    rows of a task. *)
Record Layout := mkLayout {
  ly_format : string; ly_recipes : list string; ly_repositories : list string;
  ly_repository : string; ly_overwrite : bool }.
Record PrunedRow := mkPruned {
  pr_repo : string; pr_tag : string; pr_digest : string; pr_recipe : string }.
Record Resolution := mkResolution {
  rs_recipe : string; rs_ingredient : string; rs_requested : string; rs_resolved : string;
  rs_digest : string; rs_status : string; rs_effective : string; rs_trust_scope : string;
  rs_destination : string; rs_destination_status : string; rs_pushed : Z }.
Record ChartDependency := mkChartDependency {
  cd_chart : string; cd_name : string; cd_version : string; cd_repository : string;
  cd_embedded : bool }.

(** [Task]. *)
Record Task := mkTask {
  t_id : string; t_run_id : string; t_type : string; t_reference : string; t_actor : string;
  t_status : Status; t_created : time; t_started : time; t_finished : time; t_resumed : bool;
  t_vendor : bool; t_layout : option Layout; t_overrides : list string;
  t_error : option ItemError; t_items : list Item; t_charts : list ChartDependency;
  t_prune : bool; t_pruned : list PrunedRow; t_resolutions : list Resolution }.

(** The task types. *)
Definition TypeUnitImport : string := "unit-import".
Definition TypeSync : string := "sync".
Definition TypeLayoutExport : string := "layout-export".
Definition TypeLayoutImport : string := "layout-import".
Definition TypeMediaImport : string := "media-import".

(** Field assignments. *)
Definition set_status (s : Status) (t : Task) : Task :=
  mkTask (t_id t) (t_run_id t) (t_type t) (t_reference t) (t_actor t) s (t_created t)
    (t_started t) (t_finished t) (t_resumed t) (t_vendor t) (t_layout t) (t_overrides t)
    (t_error t) (t_items t) (t_charts t) (t_prune t) (t_pruned t) (t_resolutions t).
Definition set_started (z : time) (t : Task) : Task :=
  mkTask (t_id t) (t_run_id t) (t_type t) (t_reference t) (t_actor t) (t_status t) (t_created t)
    z (t_finished t) (t_resumed t) (t_vendor t) (t_layout t) (t_overrides t)
    (t_error t) (t_items t) (t_charts t) (t_prune t) (t_pruned t) (t_resolutions t).
Definition set_finished (z : time) (t : Task) : Task :=
  mkTask (t_id t) (t_run_id t) (t_type t) (t_reference t) (t_actor t) (t_status t) (t_created t)
    (t_started t) z (t_resumed t) (t_vendor t) (t_layout t) (t_overrides t)
    (t_error t) (t_items t) (t_charts t) (t_prune t) (t_pruned t) (t_resolutions t).
Definition set_resumed (b : bool) (t : Task) : Task :=
  mkTask (t_id t) (t_run_id t) (t_type t) (t_reference t) (t_actor t) (t_status t) (t_created t)
    (t_started t) (t_finished t) b (t_vendor t) (t_layout t) (t_overrides t)
    (t_error t) (t_items t) (t_charts t) (t_prune t) (t_pruned t) (t_resolutions t).
Definition set_error (e : option ItemError) (t : Task) : Task :=
  mkTask (t_id t) (t_run_id t) (t_type t) (t_reference t) (t_actor t) (t_status t) (t_created t)
    (t_started t) (t_finished t) (t_resumed t) (t_vendor t) (t_layout t) (t_overrides t)
    e (t_items t) (t_charts t) (t_prune t) (t_pruned t) (t_resolutions t).

(** [cloneItems]: a deep copy, the identity on values. *)
Definition cloneItems (items : list Item) : list Item := items.

(** * Blob progress *)

(** The update of an existing row in [TrackBlob]: a known size is never
    forgotten and [Resumed] stays true once true. *)
Definition touch_blob (received size : Z) (resumed done : bool) (b : BlobProgress) : BlobProgress :=
  mkBlob (bp_digest b) (if (0 <? size)%Z then size else bp_size b) received
    (bp_resumed b || resumed) done.

Fixpoint track_rows (dgst : string) (received size : Z) (resumed done : bool)
    (rows : list BlobProgress) : list BlobProgress :=
  match rows with
  | [] => [mkBlob dgst size received resumed done]
  | b :: rows =>
      if negb (String.eqb (bp_digest b) dgst)
      then b :: track_rows dgst received size resumed done rows
      else touch_blob received size resumed done b :: rows
  end.

(** [Item.TrackBlob]. *)
Definition TrackBlob (it : Item) (dgst : string) (received size : Z) (resumed done : bool) : Item :=
  mkItem (it_name it) (it_digest it) (it_size it) (it_status it) (it_error it)
    (track_rows dgst received size resumed done (it_blobs it)).

Fixpoint done_rows (dgst : string) (rows : list BlobProgress) : list BlobProgress :=
  match rows with
  | [] => []
  | b :: rows =>
      if String.eqb (bp_digest b) dgst
      then mkBlob (bp_digest b) (bp_size b)
             (if (0 <? bp_size b)%Z then bp_size b else bp_received b) (bp_resumed b) true :: rows
      else b :: done_rows dgst rows
  end.

(** [Item.TrackBlobDone]. *)
Definition TrackBlobDone (it : Item) (dgst : string) : Item :=
  mkItem (it_name it) (it_digest it) (it_size it) (it_status it) (it_error it)
    (done_rows dgst (it_blobs it)).

(** * Failures *)

(** [FromTaxonomy]: the cause travels as the detail. *)
Definition FromTaxonomy (e : option TaxError) : option ItemError :=
  match e with
  | None => None
  | Some e => Some (mkItemError (te_code e) (te_params e) (default "" (te_cause e)))
  end.

(** [ItemError.Taxonomy]: rebuilds the renderable error. The outer [None] is
    the panic of [taxonomy.New] on a code this build does not know. *)
Definition ItemErrorTaxonomy (ie : option ItemError) (correlation : string)
  : option (option TaxError) :=
  match ie with
  | None => Some None
  | Some ie => Some <$> (WithCorrelation correlation <$> New (ie_code ie) (ie_params ie))
  end.

(** * Aggregates *)

Record Aggregates := mkAggregates { ag_total : Z; ag_done : Z; ag_failed : Z; ag_skipped : Z }.

(** The loop of [Aggregate]. *)
Definition count_item (a : Aggregates) (it : Item) : Aggregates :=
  match it_status it with
  | StatusDone => mkAggregates (ag_total a) (ag_done a + 1) (ag_failed a) (ag_skipped a)
  | StatusFailed => mkAggregates (ag_total a) (ag_done a) (ag_failed a + 1) (ag_skipped a)
  | StatusSkipped => mkAggregates (ag_total a) (ag_done a) (ag_failed a) (ag_skipped a + 1)
  | _ => a
  end.
Definition Aggregate (t : Task) : Aggregates :=
  fold_left count_item (t_items t) (mkAggregates (Z.of_nat (length (t_items t))) 0 0 0).

(** [Task.Principal]; [None] is a panic. *)
Fixpoint collect_errors (run : string) (items : list Item) : option (list (option TaxError)) :=
  match items with
  | [] => Some []
  | it :: items =>
      match it_error it with
      | None => collect_errors run items
      | Some ie =>
          e ← ItemErrorTaxonomy (Some ie) run;
          es ← collect_errors run items;
          Some (e :: es)
      end
  end.
Definition TaskPrincipal `{GoRuntime} (t : Task) : option (option TaxError) :=
  own ← match t_error t with
        | None => Some []
        | Some ie => e ← ItemErrorTaxonomy (Some ie) (t_run_id t); Some [e]
        end;
  rest ← collect_errors (t_run_id t) (t_items t);
  Some (Principal (own ++ rest)).

(** [Task.Active]. *)
Definition Active (t : Task) : bool :=
  bool_decide (t_status t = StatusPending) || bool_decide (t_status t = StatusRunning).

(** * Facts *)

Lemma count_item_failed items a :
  ag_failed (fold_left count_item items a) =
  (ag_failed a + Z.of_nat (length (filter (λ it, it_status it = StatusFailed) items)))%Z.
Proof.
  revert a. induction items as [|it items IH]; intros a; cbn; [lia|]. rewrite IH.
  unfold count_item, filter. cbn. destruct (it_status it); case_decide; try done; cbn; lia.
Qed.

(** The failed counter is positive exactly when some item failed. *)
Lemma Aggregate_failed t :
  (0 < ag_failed (Aggregate t))%Z ↔ ∃ it, it ∈ t_items t ∧ it_status it = StatusFailed.
Proof.
  unfold Aggregate. rewrite count_item_failed. cbn.
  split.
  - intros Hpos. destruct (filter _ _) as [|it l] eqn:E; [cbn in Hpos; lia|].
    assert (it ∈ filter (λ it, it_status it = StatusFailed) (t_items t)) as Hin
      by (rewrite E; left).
    apply list_elem_of_filter in Hin as [? ?]. eauto.
  - intros (it & Hin & Hs).
    assert (it ∈ filter (λ it, it_status it = StatusFailed) (t_items t)) as Hin'
      by by apply list_elem_of_filter.
    destruct (filter _ _); [by apply elem_of_nil in Hin'|]. cbn. lia.
Qed.

(** The counters partition the items. *)
Definition is_counted (s : Status) : bool :=
  match s with StatusDone | StatusFailed | StatusSkipped => true | _ => false end.
Lemma Aggregate_total items a :
  (ag_done (fold_left count_item items a) + ag_failed (fold_left count_item items a) +
   ag_skipped (fold_left count_item items a) =
   ag_done a + ag_failed a + ag_skipped a +
   Z.of_nat (length (filter (λ it, is_counted (it_status it) = true) items)))%Z.
Proof.
  revert a. induction items as [|it items IH]; intros a; cbn; [lia|]. rewrite IH.
  unfold count_item, filter. cbn. destruct (it_status it) eqn:E; case_decide; try done; cbn; lia.
Qed.

Lemma track_rows_digests dgst received size resumed done rows :
  bp_digest <$> track_rows dgst received size resumed done rows =
  if decide (dgst ∈ bp_digest <$> rows) then bp_digest <$> rows else (bp_digest <$> rows) ++ [dgst].
Proof.
  induction rows as [|b rows IH]; cbn.
  { rewrite decide_False by apply not_elem_of_nil. done. }
  destruct (String.eqb_spec (bp_digest b) dgst) as [<-|Hne]; cbn.
  - rewrite decide_True by left. done.
  - rewrite IH. repeat case_decide; rewrite ?elem_of_cons in *; cbn; try done; naive_solver.
Qed.

(** Progress rows are keyed by digest. Tracking a blob keeps the digests of
    an item's rows distinct, leaves exactly one row for that blob, whose resumed
    mark and known size survive, and touches no other row. *)
Theorem TrackBlob_keyed it dgst received size resumed done
    (Hnd : NoDup (bp_digest <$> it_blobs it)) :
  NoDup (bp_digest <$> it_blobs (TrackBlob it dgst received size resumed done)) ∧
  dgst ∈ bp_digest <$> it_blobs (TrackBlob it dgst received size resumed done) ∧
  (∀ b, b ∈ it_blobs (TrackBlob it dgst received size resumed done) → bp_digest b = dgst →
    bp_received b = received ∧ bp_done b = done ∧
    (∀ b0, b0 ∈ it_blobs it → bp_digest b0 = dgst →
      bp_resumed b = bp_resumed b0 || resumed ∧
      bp_size b = if (0 <? size)%Z then size else bp_size b0)) ∧
  (∀ b, bp_digest b ≠ dgst →
    b ∈ it_blobs (TrackBlob it dgst received size resumed done) ↔ b ∈ it_blobs it).
Proof.
  cbn. revert Hnd. generalize (it_blobs it) as rows. clear it. intros rows Hnd. split; [|split; [|split]].
  - rewrite track_rows_digests. case_decide; [done|].
    apply NoDup_app. split; [done|]. split; [|apply NoDup_singleton].
    intros x Hx ->%list_elem_of_singleton. done.
  - rewrite track_rows_digests. case_decide; [done|]. apply elem_of_app. right. left.
  - induction rows as [|b0 rows IH]; cbn.
    + intros b ->%list_elem_of_singleton _. cbn. split; [done|]. split; [done|].
      intros b0 Hb0. by apply elem_of_nil in Hb0.
    + apply NoDup_cons in Hnd as [Hni Hnd].
      destruct (String.eqb_spec (bp_digest b0) dgst) as [<-|Hne]; cbn.
      * intros b Hb Hd. apply elem_of_cons in Hb as [->|Hb].
        -- cbn. split; [done|]. split; [done|]. intros b1 Hb1 Hd1.
           apply elem_of_cons in Hb1 as [->|Hb1]; [done|].
           exfalso. apply Hni. rewrite <-Hd1. by apply list_elem_of_fmap_2.
        -- exfalso. apply Hni. rewrite <-Hd. by apply list_elem_of_fmap_2.
      * intros b Hb Hd. apply elem_of_cons in Hb as [->|Hb]; [done|].
        destruct (IH Hnd b Hb Hd) as (? & ? & Hold). split; [done|]. split; [done|].
        intros b1 Hb1 Hd1. apply elem_of_cons in Hb1 as [->|Hb1]; [done|]. by apply Hold.
  - clear Hnd. induction rows as [|b0 rows IH]; intros b Hd; cbn.
    + rewrite list_elem_of_singleton, elem_of_nil. split; [by intros ->|done].
    + destruct (String.eqb_spec (bp_digest b0) dgst) as [<-|Hne]; cbn; rewrite !elem_of_cons.
      * split; (intros [->|?]; [done|auto]).
      * by rewrite IH.
Qed.

Lemma TrackBlob_keyed_witness :
  let it := mkItem "linux/amd64" "" 0 StatusRunning None
    [mkBlob "sha256:a" 10 4 true false; mkBlob "sha256:b" 7 7 false true] in
  NoDup (bp_digest <$> it_blobs (TrackBlob it "sha256:a" 9 0 false false)) ∧
  "sha256:a" ∈ bp_digest <$> it_blobs (TrackBlob it "sha256:a" 9 0 false false) ∧
  (∀ b, b ∈ it_blobs (TrackBlob it "sha256:a" 9 0 false false) → bp_digest b = "sha256:a" →
    bp_received b = 9%Z ∧ bp_done b = false ∧
    (∀ b0, b0 ∈ it_blobs it → bp_digest b0 = "sha256:a" →
      bp_resumed b = bp_resumed b0 || false ∧
      bp_size b = if (0 <? 0)%Z then 0%Z else bp_size b0)) ∧
  (∀ b, bp_digest b ≠ "sha256:a" →
    b ∈ it_blobs (TrackBlob it "sha256:a" 9 0 false false) ↔ b ∈ it_blobs it).
Proof.
  intros it. apply (TrackBlob_keyed it "sha256:a" 9 0 false false).
  apply (bool_decide_unpack _). vm_compute. exact I.
Defined.

(** A persisted failure whose code this build does not know makes the task's
    principal error panic, whatever the other items hold: unlike the media
    report, the task record is re-rendered without checking the code. *)
Theorem unknown_code_panics `{GoRuntime} t ie
    (Herr : t_error t = Some ie) (Hunknown : Lookup (ie_code ie) = None) :
  TaskPrincipal t = None.
Proof. unfold TaskPrincipal. rewrite Herr. cbn. unfold New. by rewrite Hunknown. Qed.

Lemma unknown_code_panics_witness :
  TaskPrincipal (mkTask "tsk_1" "" TypeSync "" "" StatusFailed 0 0 0 false false None []
    (Some (mkItemError "TBY-NEW-001" ∅ "")) [] [] false [] []) = None.
Proof. apply (unknown_code_panics _ (mkItemError "TBY-NEW-001" ∅ "")); reflexivity. Defined.
