(* ===== verification/Disk.v ===== *)
(** The file system the persistent components write to (the functions of Go's
    [os] package they call): a flat directory of named files, and a script of
    faults, so that every theorem quantifies over which calls fail and over what
    a failed write leaves behind. *)

From S2P Require Import Prelude GoStrings.

(** The outcome of one system call. [FaultPartial] is a failure that leaves a
    truncated file, as an interrupted or out-of-space write does. *)
Inductive Fault := NoFault | FaultClean | FaultPartial (content : string).

Record Disk := mkDisk { d_files : gmap string string; d_faults : list Fault }.

(** The outcome of the next call; a script that is used up never fails. *)
Definition next_fault (d : Disk) : Fault * Disk :=
  match d_faults d with
  | [] => (NoFault, d)
  | f :: fs => (f, mkDisk (d_files d) fs)
  end.

Definition with_files (f : gmap string string → gmap string string) (d : Disk) : Disk :=
  mkDisk (f (d_files d)) (d_faults d).

(** A call that changes nothing and may fail ([os.MkdirAll] on an existing
    directory, [os.ReadDir]). *)
Definition probe (d : Disk) : bool * Disk :=
  match next_fault d with
  | (NoFault, d) => (true, d)
  | (_, d) => (false, d)
  end.

(** [os.WriteFile]. *)
Definition write_file (path data : string) (d : Disk) : bool * Disk :=
  match next_fault d with
  | (NoFault, d) => (true, with_files (<[path := data]>) d)
  | (FaultClean, d) => (false, d)
  | (FaultPartial c, d) => (false, with_files (<[path := c]>) d)
  end.

(** [os.Rename]: atomic, and a failure when the source is missing. *)
Definition rename (old new : string) (d : Disk) : bool * Disk :=
  match next_fault d with
  | (NoFault, d) =>
      match d_files d !! old with
      | Some c => (true, with_files (λ m, <[new := c]> (delete old m)) d)
      | None => (false, d)
      end
  | (_, d) => (false, d)
  end.

(** [os.Remove]; a missing file is reported apart, as [os.ErrNotExist]. *)
Inductive removal := Removed | NotExist | RemoveFailed.
Definition remove (path : string) (d : Disk) : removal * Disk :=
  match next_fault d with
  | (NoFault, d) =>
      match d_files d !! path with
      | Some _ => (Removed, with_files (delete path) d)
      | None => (NotExist, d)
      end
  | (_, d) => (RemoveFailed, d)
  end.

(** [os.ReadFile]. *)
Inductive reading := Contents (s : string) | ReadNotExist | ReadFailed.
Definition read_file (path : string) (d : Disk) : reading * Disk :=
  match next_fault d with
  | (NoFault, d) =>
      match d_files d !! path with
      | Some c => (Contents c, d)
      | None => (ReadNotExist, d)
      end
  | (_, d) => (ReadFailed, d)
  end.

(** [os.ReadDir] lists the directory sorted by file name. *)
Definition dir_names `{GoRuntime} (d : Disk) : list string :=
  sort_slice str_ltb (map_keys (d_files d)).

(** The write-then-rename every persistent record of the program goes through:
    [tmp] first, then the rename over [path]. *)
Definition write_atomic (tmp path data : string) (d : Disk) : bool * Disk :=
  match write_file tmp data d with
  | (true, d) => rename tmp path d
  | (false, d) => (false, d)
  end.

(** * Facts *)

Definition healthy (d : Disk) : Prop := d_faults d = [].

Lemma elem_of_dir_names `{GoRuntime} d name :
  name ∈ dir_names d ↔ is_Some (d_files d !! name).
Proof. unfold dir_names. by rewrite elem_of_sort_slice, elem_of_map_keys. Qed.

Lemma NoDup_dir_names `{GoRuntime} d : NoDup (dir_names d).
Proof. unfold dir_names. rewrite sort_slice_perm. apply NoDup_map_keys. Qed.

(** An atomic write either replaces [path] by the whole of [data] or leaves it
    as it was, and touches no file but [path] and [tmp]. *)
Lemma write_atomic_spec tmp path data d :
  tmp ≠ path →
  let '(ok, d') := write_atomic tmp path data d in
  d_files d' !! path = (if ok then Some data else d_files d !! path) ∧
  (∀ p, p ≠ tmp → p ≠ path → d_files d' !! p = d_files d !! p) ∧
  (∃ used, d_faults d = used ++ d_faults d').
Proof.
  intros Hne. unfold write_atomic, write_file, next_fault.
  destruct d as [m [|[| |c] fs]]; cbn.
  - unfold rename, next_fault; cbn. rewrite lookup_insert_eq. cbn.
    split; [by rewrite lookup_insert_eq|]. split; [|by exists []].
    intros p ??. by rewrite lookup_insert_ne, lookup_delete_ne, lookup_insert_ne by done.
  - unfold rename, next_fault; cbn. destruct fs as [|[| |c] fs]; cbn; rewrite ?lookup_insert_eq; cbn.
    1-2: split; [by rewrite lookup_insert_eq|]; split;
      [intros p ??; by rewrite lookup_insert_ne, lookup_delete_ne, lookup_insert_ne by done|].
    3-4: split; [by rewrite lookup_insert_ne|]; split;
      [intros p ??; by rewrite lookup_insert_ne by done|].
    + by exists [NoFault].
    + by exists [NoFault; NoFault].
    + by exists [NoFault; FaultClean].
    + by exists [NoFault; FaultPartial c].
  - split; [done|]. split; [done|]. by exists [FaultClean].
  - split; [by rewrite lookup_insert_ne|]. split; [|by exists [FaultPartial c]].
    intros p ??. by rewrite lookup_insert_ne by done.
Qed.

Lemma write_atomic_healthy tmp path data d :
  healthy d → tmp ≠ path →
  write_atomic tmp path data d =
    (true, mkDisk (<[path := data]> (delete tmp (d_files d))) []).
Proof.
  unfold healthy. intros Hd Hne. unfold write_atomic, write_file, rename, next_fault.
  destruct d as [m fs]; cbn in *. rewrite Hd. cbn. rewrite lookup_insert_eq. cbn.
  unfold with_files; cbn. by rewrite delete_insert_eq.
Qed.

(** Removing a file touches no other. *)
Lemma remove_spec path d :
  let '(r, d') := remove path d in
  (∀ p, p ≠ path → d_files d' !! p = d_files d !! p) ∧
  (r = RemoveFailed → d_files d' = d_files d) ∧
  (r ≠ RemoveFailed → d_files d' !! path = None) ∧
  (∃ used, d_faults d = used ++ d_faults d').
Proof.
  unfold remove, next_fault. destruct d as [m [|[| |c] fs]]; cbn.
  1-2: destruct (m !! path) eqn:E; cbn; (split; [intros p Hp; by rewrite ?lookup_delete_ne by done|]);
    (split; [done|]); (split; [intros _; by rewrite ?lookup_delete_eq|]).
  1-2: by exists []. 1-2: by exists [NoFault].
  - split; [done|]. split; [done|]. split; [done|]. by exists [FaultClean].
  - split; [done|]. split; [done|]. split; [done|]. by exists [FaultPartial c].
Qed.

Lemma remove_healthy path d :
  healthy d → (remove path d).1 ≠ RemoveFailed ∧ healthy (remove path d).2.
Proof.
  unfold healthy, remove, next_fault. destruct d as [m fs]; cbn. intros ->. cbn.
  by destruct (m !! path).
Qed.
