(* ===== verification/TaskQueue.v ===== *)
(** The persistent task queue (internal/tasks/queue.go): creation, retention,
    the serial worker, the panic barrier, the settling of a task, the listing,
    and the resume-after-interruption contract.

    The mutex-protected state is the record [Queue]; every definition below is
    one critical section or one sequence of them, and the relation [step] lets
    the sections of different goroutines interleave. *)

From S2P Require Import Prelude GoStrings Taxonomy Tasks Disk.

(** [encoding/json] on a task. The queue relies on one fact: what was
    marshalled unmarshals to the same task. *)
Class TaskCodec : Type := {
  marshal : Task → option string;
  unmarshal : string → option Task;
  unmarshal_marshal : ∀ t s, marshal t = Some s → unmarshal s = Some t;
}.

(** A Go error as the queue looks at it: [errors.Is(err, context.Canceled)],
    [errors.As(err, *taxonomy.Error)], [err.Error()]. *)
Record GoErr := mkGoErr { ge_canceled : bool; ge_tax : option TaxError; ge_text : string }.

(** One run of a [Runner]: the states of its working copy at each [save()], the
    final one, and how it ended. *)
Inductive RunEnd := Returned (err : option GoErr) | Panicked (msg : string).
Record Run := mkRun { run_saves : list Task; run_final : Task; run_end : RunEnd }.
Abbreviation Runner := (Task → Run).

Definition pendingCapacity : nat := 256.

Record Queue := mkQueue {
  q_keepFinished : Z;
  q_tasks : gmap string Task;
  q_runners : gmap string Runner;
  q_pending : list string;
  q_resuming : list string;
  q_disk : Disk }.

Definition with_tasks (f : gmap string Task → gmap string Task) (q : Queue) : Queue :=
  mkQueue (q_keepFinished q) (f (q_tasks q)) (q_runners q) (q_pending q) (q_resuming q) (q_disk q).
Definition with_disk (d : Disk) (q : Queue) : Queue :=
  mkQueue (q_keepFinished q) (q_tasks q) (q_runners q) (q_pending q) (q_resuming q) d.

(** File names of a task. *)
Definition json_name (id : string) : string := id +:+ ".json".
Definition tmp_name (id : string) : string := json_name id +:+ ".tmp".
Definition log_name (id : string) : string := id +:+ ".log".

Inductive queue_error := ErrMkdir | ErrReadDir | ErrReadFile (name : string) | ErrQueueFull.

(** [TaskOption]. *)
Inductive TaskOption :=
  | WithVendorDependencies
  | WithLayout (l : Layout)
  | WithPrune (enabled : bool).
Definition apply_option (t : Task) (o : TaskOption) : Task :=
  mkTask (t_id t) (t_run_id t) (t_type t) (t_reference t) (t_actor t) (t_status t) (t_created t)
    (t_started t) (t_finished t) (t_resumed t)
    (match o with WithVendorDependencies => true | _ => t_vendor t end)
    (match o with WithLayout l => Some l | _ => t_layout t end)
    (t_overrides t) (t_error t) (t_items t) (t_charts t)
    (match o with WithPrune b => b | _ => t_prune t end) (t_pruned t) (t_resolutions t).

(** [taxonomy.New(taxonomy.CodeInternal, nil).WithCause(...)]. *)
Definition internal_error (cause : string) : option TaxError :=
  WithCause cause <$> New CodeInternal ∅.

Section queue.
Context `{GoRuntime, TaskCodec}.

(** * Persistence *)

(** [persist] on the disk. *)
Definition persist_disk (t : Task) (d : Disk) : Disk :=
  match marshal t with
  | None => d
  | Some out => (write_atomic (tmp_name (t_id t)) (json_name (t_id t)) out d).2
  end.
Definition persist (t : Task) (q : Queue) : Queue := with_disk (persist_disk t (q_disk q)) q.

(** * Retention *)

Definition remove_files (t : Task) (d : Disk) : Disk :=
  (remove (log_name (t_id t)) (remove (json_name (t_id t)) d).2).2.

Definition purge_one (q : Queue) (t : Task) : Queue :=
  with_disk (remove_files t (q_disk q)) (with_tasks (delete (t_id t)) q).

(** The finished tasks, most recently created first. *)
Definition finished_tasks (q : Queue) : list Task :=
  sort_slice (λ a b, (t_created b <? t_created a)%Z)
    (filter (λ t, Active t = false) (map_values (q_tasks q))).

Definition purgeFinished (q : Queue) : Queue :=
  if (q_keepFinished q <=? 0)%Z then q
  else
    let finished := finished_tasks q in
    if (Z.of_nat (length finished) <=? q_keepFinished q)%Z then q
    else fold_left purge_one (drop (Z.to_nat (q_keepFinished q)) finished) q.

(** * Opening *)

(** One file of the scan. *)
Definition load_task (acc : gmap string Task * list string) (t : Task) : gmap string Task * list string :=
  if Active t
  then (<[t_id t := set_resumed true (set_status StatusPending t)]> acc.1, acc.2 ++ [t_id t])
  else (<[t_id t := t]> acc.1, acc.2).

Fixpoint load_files (names : list string) (d : Disk) (acc : gmap string Task * list string)
  : res queue_error (gmap string Task * list string) * Disk :=
  match names with
  | [] => (Ok acc, d)
  | name :: names =>
      if negb (has_suffix name ".json") then load_files names d acc
      else match read_file name d with
           | (Contents raw, d) =>
               load_files names d
                 match unmarshal raw with
                 | None => acc
                 | Some t => load_task acc t
                 end
           | (_, d) => (Err (ErrReadFile name), d)
           end
  end.

Definition created_of (m : gmap string Task) (id : string) : time :=
  match m !! id with Some t => t_created t | None => 0%Z end.

Definition persist_all (m : gmap string Task) (ids : list string) (d : Disk) : Disk :=
  fold_left (λ d id, match m !! id with Some t => persist_disk t d | None => d end) ids d.

(** [Open]. *)
Definition Open (keep : Z) (d : Disk) : res queue_error Queue * Disk :=
  match probe d with
  | (false, d) => (Err ErrMkdir, d)
  | (true, d) =>
      match probe d with
      | (false, d) => (Err ErrReadDir, d)
      | (true, d) =>
          match load_files (dir_names d) d (∅, []) with
          | (Err e, d) => (Err e, d)
          | (Ok (m, found), d) =>
              let resumed := sort_slice (λ a b, (created_of m a <? created_of m b)%Z) found in
              let q := purgeFinished (mkQueue keep m ∅ [] resumed (persist_all m resumed d)) in
              (Ok q, q_disk q)
          end
      end
  end.

(** [Register]. *)
Definition Register (taskType : string) (r : Runner) (q : Queue) : Queue :=
  mkQueue (q_keepFinished q) (q_tasks q) (<[taskType := r]> (q_runners q)) (q_pending q)
    (q_resuming q) (q_disk q).

(** [Create]; [id] and [run] are the random identifiers, [now] the clock. *)
Definition new_task (id run : string) (now : time) (taskType reference actor : string)
    (items : list Item) (opts : list TaskOption) : Task :=
  fold_left apply_option opts
    (mkTask id run taskType reference actor StatusPending now 0 0 false false None [] None items []
      false [] []).

Definition enqueue (id : string) (q : Queue) : Queue :=
  mkQueue (q_keepFinished q) (q_tasks q) (q_runners q) (q_pending q ++ [id]) (q_resuming q) (q_disk q).

Definition Create (id run : string) (now : time) (taskType reference actor : string)
    (items : list Item) (opts : list TaskOption) (q : Queue) : res queue_error Task * Queue :=
  let t := new_task id run now taskType reference actor items opts in
  if (length (q_pending q) <? pendingCapacity)%nat
  then (Ok t, purgeFinished (persist t (with_tasks (<[t_id t := t]>) (enqueue (t_id t) q))))
  else (Err ErrQueueFull, q).

(** [HasPending]. *)
Definition HasPending (taskType : string) (q : Queue) : bool :=
  existsb (λ t, String.eqb (t_type t) taskType && bool_decide (t_status t = StatusPending))
    (map_values (q_tasks q)).

(** * The worker *)

(** [nextResuming]. *)
Definition nextResuming (q : Queue) : option (string * Queue) :=
  match q_resuming q with
  | [] => None
  | id :: ids =>
      Some (id, mkQueue (q_keepFinished q) (q_tasks q) (q_runners q) (q_pending q) ids (q_disk q))
  end.

(** The worker's choice of the next task in [Start]: the resume backlog first,
    then the channel. *)
Definition next_task (q : Queue) : option (string * Queue) :=
  match nextResuming q with
  | Some p => Some p
  | None =>
      match q_pending q with
      | [] => None
      | id :: ids =>
          Some (id, mkQueue (q_keepFinished q) (q_tasks q) (q_runners q) ids (q_resuming q) (q_disk q))
      end
  end.

(** [clone]: the deep copy of the task handed to the runner. *)
Definition clone (t : Task) : Task :=
  mkTask (t_id t) (t_run_id t) (t_type t) (t_reference t) (t_actor t) (t_status t) (t_created t)
    (t_started t) (t_finished t) (t_resumed t) (t_vendor t) (t_layout t) (t_overrides t)
    (t_error t) (cloneItems (t_items t)) (t_charts t) (t_prune t) (t_pruned t) (t_resolutions t).

(** The fields [publish] copies. *)
Definition publish_into (dst src : Task) : Task :=
  mkTask (t_id dst) (t_run_id dst) (t_type dst) (t_reference dst) (t_actor dst) (t_status src)
    (t_created dst) (t_started dst) (t_finished src) (t_resumed dst) (t_vendor dst) (t_layout dst)
    (t_overrides dst) (t_error src) (cloneItems (t_items src)) (t_charts src) (t_prune dst)
    (t_pruned dst) (t_resolutions src).

(** An update through the canonical task's pointer: visible in the map as long
    as the map still holds it. *)
Definition store_task (t : Task) (q : Queue) : Queue :=
  with_tasks (λ m, match m !! t_id t with Some _ => <[t_id t := t]> m | None => m end) q.

(** [publish]: the new canonical task and the queue. *)
Definition publish (dst src : Task) (q : Queue) : Task * Queue :=
  let dst := publish_into dst src in (dst, persist dst (store_task dst q)).

(** The mutation of the working copy in [finish]. *)
Definition settle (work : Task) (te : option TaxError) (now : time) : Task :=
  let work := match te with Some _ => set_error (FromTaxonomy te) work | None => work end in
  let status :=
    if bool_decide (is_Some te) || (0 <? ag_failed (Aggregate work))%Z
    then StatusFailed else StatusDone in
  set_finished now (set_status status work).

(** [finish]. *)
Definition finish (dst work : Task) (te : option TaxError) (now : time) (q : Queue) : Task * Queue :=
  publish dst (settle work te now) q.

(** The first critical section of [execute]: the task and its queue once marked
    running, [None] when the id is no longer known. *)
Definition begin_execute (id : string) (now : time) (q : Queue) : option (Task * Queue) :=
  match q_tasks q !! id with
  | None => None
  | Some t =>
      let t := set_started now (set_status StatusRunning t) in
      Some (t, persist t (with_tasks (<[id := t]>) q))
  end.

(** [runProtected]: a panic becomes the internal error. *)
Definition runProtected (e : RunEnd) : option GoErr :=
  match e with
  | Returned err => err
  | Panicked msg =>
      Some (mkGoErr false (internal_error ("task runner panicked: " +:+ msg)) msg)
  end.

(** What [execute] does with the runner's error. *)
Definition task_error (err : option GoErr) : option TaxError :=
  match err with
  | None => None
  | Some err =>
      match ge_tax err with
      | Some te => Some te
      | None => internal_error (ge_text err)
      end
  end.

Definition end_execute (dst work : Task) (e : RunEnd) (now : time) (q : Queue) : Task * Queue :=
  let err := runProtected e in
  if match err with Some err => ge_canceled err | None => false end
  then publish dst work q
  else finish dst work (task_error err) now q.

Definition run_saves_on (saves : list Task) (dst : Task) (q : Queue) : Task * Queue :=
  fold_left (λ '(dst, q) work, publish dst work q) saves (dst, q).

(** [execute], with no other goroutine in between. *)
Definition execute (id : string) (started finished : time) (q : Queue) : Queue :=
  match begin_execute id started q with
  | None => q
  | Some (t, q) =>
      let work := clone t in
      match q_runners q !! t_type t with
      | None => (finish t work (internal_error ("no runner for task type " +:+ quoted (t_type t))) finished q).2
      | Some runner =>
          let run := runner work in
          let '(dst, q) := run_saves_on (run_saves run) t q in
          (end_execute dst (run_final run) (run_end run) finished q).2
      end
  end.

(** The loop of [Start] for as long as there is work, each task started and
    finished at the instants [clock] gives. *)
Fixpoint worker (fuel : nat) (clock : nat → time) (q : Queue) : Queue :=
  match fuel with
  | 0 => q
  | S fuel =>
      match next_task q with
      | None => q
      | Some (id, q) => worker fuel clock (execute id (clock (2 * fuel + 1)) (clock (2 * fuel)) q)
      end
  end.

(** * Reading *)

(** [Get]. *)
Definition Get (id : string) (q : Queue) : option Task := q_tasks q !! id.

(** [List]: the filters of the listing, newest first. *)
Definition list_matches (status : option Status) (taskType query : string) (t : Task) : bool :=
  match status with Some s => bool_decide (t_status t = s) | None => true end &&
  (String.eqb taskType "" || String.eqb (t_type t) taskType) &&
  (String.eqb query "" || contains_str (t_reference t) query).

Definition List (status : option Status) (taskType query : string) (q : Queue) : list Task :=
  sort_slice (λ a b, (t_created b <? t_created a)%Z)
    (filter (λ t, list_matches status taskType query t = true) (map_values (q_tasks q))).

(** [ActiveCount]. *)
Definition ActiveCount (q : Queue) : Z :=
  Z.of_nat (length (filter (λ t, Active t = true) (map_values (q_tasks q)))).

End queue.

Definition ListPageSize : Z := 25.

(** [paginate], on 64-bit integers. *)
Definition paginate (total page size : Z) : Z * Z * Z :=
  let totalPages := quot64 (sub64 (add64 total size) 1) size in
  let totalPages := if (totalPages =? 0)%Z then 1%Z else totalPages in
  let page := if (page <? 1)%Z then 1%Z else page in
  let start := mul64 (sub64 page 1) size in
  if (total <? start)%Z then (total, total, totalPages)
  else (start, Z.min (add64 start size) total, totalPages).

(** [s[start:end]], [None] when it panics. *)
Definition slice {A} (l : list A) (start stop : Z) : option (list A) :=
  if (0 <=? start)%Z && (start <=? stop)%Z && (stop <=? Z.of_nat (length l))%Z
  then Some (take (Z.to_nat (stop - start)) (drop (Z.to_nat start) l)) else None.

(** [TaskPage] and [ListPage]. *)
Record TaskPage := mkTaskPage {
  tp_tasks : list Task; tp_total : Z; tp_page : Z; tp_total_pages : Z }.
Record ListQuery := mkListQuery {
  lq_q : string; lq_status : option Status; lq_type : string; lq_page : Z }.

Definition ListPage `{GoRuntime} (lq : ListQuery) (q : Queue) : option TaskPage :=
  let matched := List (lq_status lq) (lq_type lq) (lq_q lq) q in
  let total := Z.of_nat (length matched) in
  let '(start, stop, totalPages) := paginate total (lq_page lq) ListPageSize in
  tasks ← slice matched start stop;
  Some (mkTaskPage tasks total (lq_page lq) totalPages).

(** [HasFilter]. *)
Definition HasFilter (lq : ListQuery) : bool :=
  negb (String.eqb (lq_q lq) "") || bool_decide (is_Some (lq_status lq)) ||
  negb (String.eqb (lq_type lq) "").

(** [ReadLog]: the log from a byte cursor and the next cursor; [None] is an
    error of the file system. *)
Definition ReadLog (id : string) (from : Z) (d : Disk) : option (string * Z) :=
  match (read_file (log_name id) d).1 with
  | ReadNotExist => Some ("", from)
  | ReadFailed => None
  | Contents s =>
      let chunk := if (0 <? from)%Z then sdrop (Z.to_nat from) s else s in
      Some (chunk, add64 from (Z.of_nat (slen chunk)))
  end.

(** * File names *)

#[export] Instance json_name_inj : Inj (=) (=) json_name.
Proof. intros a b. apply sapp_inj_r. Qed.

Lemma tmp_not_json a b : tmp_name a ≠ json_name b.
Proof.
  unfold tmp_name, json_name. change (b +:+ ".json") with (b +:+ ("." +:+ "json")).
  rewrite <-(sapp_assoc b "." "json"). by apply suffix_clash.
Qed.
Lemma log_not_json a b : log_name a ≠ json_name b.
Proof.
  unfold log_name, json_name. change (b +:+ ".json") with (b +:+ (".j" +:+ "son")).
  change (a +:+ ".log") with (a +:+ ("." +:+ "log")).
  rewrite <-(sapp_assoc b ".j" "son"), <-(sapp_assoc a "." "log"). by apply suffix_clash.
Qed.
Lemma json_suffix id : has_suffix (json_name id) ".json" = true.
Proof. apply has_suffix_spec. by exists id. Qed.
Lemma json_suffix_inv name : has_suffix name ".json" = true → ∃ id, name = json_name id.
Proof. by intros [r ->]%has_suffix_spec; exists r. Qed.
#[export] Hint Resolve tmp_not_json log_not_json json_suffix : go.

Section facts.
Context `{GoRuntime, TaskCodec}.

(** The task a directory holds under an id. *)
Definition on_disk (d : Disk) (id : string) (t : Task) : Prop :=
  ∃ s, d_files d !! json_name id = Some s ∧ unmarshal s = Some t.

(** Every readable task file is named after the task it holds. *)
Definition disk_named (d : Disk) : Prop := ∀ id t, on_disk d id t → t_id t = id.

Lemma persist_disk_named t d : disk_named d → disk_named (persist_disk t d).
Proof.
  intros Hd. unfold persist_disk. destruct (marshal t) as [out|] eqn:Hm; [|done].
  pose proof (write_atomic_spec (tmp_name (t_id t)) (json_name (t_id t)) out d
    (tmp_not_json _ _)) as Hw.
  destruct (write_atomic _ _ _ d) as [ok d']; cbn in *. destruct Hw as (Hp & Ho & _).
  intros id u (s & Hs & Hu). destruct (decide (id = t_id t)) as [->|Hne].
  - rewrite Hp in Hs. destruct ok; [|by apply Hd; exists s].
    simplify_eq. apply unmarshal_marshal in Hm. naive_solver.
  - apply Hd. exists s. split; [|done]. rewrite <-Hs. symmetry. apply Ho; [|naive_solver].
    intros Heq. by apply (tmp_not_json (t_id t) id).
Qed.

Lemma subset_disk_named d d' : d_files d' ⊆ d_files d → disk_named d → disk_named d'.
Proof.
  intros Hsub Hd id t (s & Hs & Hu). apply Hd. exists s. split; [|done].
  by eapply lookup_weaken.
Qed.

Lemma remove_subset path d : d_files (remove path d).2 ⊆ d_files d.
Proof.
  pose proof (remove_spec path d) as Hr. destruct (remove path d) as [r d']. cbn.
  destruct Hr as (Ho & Hf & Hn & _). apply map_subseteq_spec. intros p x Hx.
  destruct (decide (p = path)) as [->|Hne]; [|by rewrite <-Ho].
  destruct r; [| |by rewrite <-Hf]; rewrite Hn in Hx by done; done.
Qed.

Lemma remove_files_subset t d : d_files (remove_files t d) ⊆ d_files d.
Proof. unfold remove_files. etrans; [apply remove_subset|apply remove_subset]. Qed.

(** ** Purging *)

Lemma fold_purge l q :
  fold_left purge_one l q =
  mkQueue (q_keepFinished q) (foldr (λ t m, delete (t_id t) m) (q_tasks q) (reverse l))
    (q_runners q) (q_pending q) (q_resuming q)
    (fold_left (λ d t, remove_files t d) l (q_disk q)).
Proof.
  induction l as [|t l IH] using rev_ind; [by destruct q|].
  rewrite !fold_left_app, IH. cbn. rewrite reverse_app. done.
Qed.

Lemma foldr_delete_lookup (l : list Task) (m : gmap string Task) id :
  foldr (λ t m, delete (t_id t) m) m l !! id =
  if decide (id ∈ t_id <$> l) then None else m !! id.
Proof.
  induction l as [|t l IH]; cbn.
  { by rewrite decide_False by apply not_elem_of_nil. }
  destruct (decide (id = t_id t)) as [->|Hne].
  - rewrite lookup_delete_eq, decide_True by left. done.
  - rewrite lookup_delete_ne, IH by done.
    repeat case_decide; rewrite elem_of_cons in *; naive_solver.
Qed.

Lemma fold_remove_files_subset l d :
  d_files (fold_left (λ d t, remove_files t d) l d) ⊆ d_files d.
Proof.
  revert d. induction l as [|t l IH]; intros d; cbn; [done|].
  etrans; [apply IH|apply remove_files_subset].
Qed.

(** The tasks a purge drops. *)
Definition purged (q : Queue) : list Task :=
  if (q_keepFinished q <=? 0)%Z then []
  else if (Z.of_nat (length (finished_tasks q)) <=? q_keepFinished q)%Z then []
  else drop (Z.to_nat (q_keepFinished q)) (finished_tasks q).

Lemma purgeFinished_eq q :
  purgeFinished q =
  mkQueue (q_keepFinished q) (foldr (λ t m, delete (t_id t) m) (q_tasks q) (reverse (purged q)))
    (q_runners q) (q_pending q) (q_resuming q)
    (fold_left (λ d t, remove_files t d) (purged q) (q_disk q)).
Proof.
  unfold purgeFinished, purged. repeat case_match; [by destruct q..|]. apply fold_purge.
Qed.

Lemma purgeFinished_lookup q id :
  q_tasks (purgeFinished q) !! id =
  if decide (id ∈ t_id <$> purged q) then None else q_tasks q !! id.
Proof.
  rewrite purgeFinished_eq. cbn. rewrite foldr_delete_lookup.
  assert (id ∈ t_id <$> reverse (purged q) ↔ id ∈ t_id <$> purged q) as Hr.
  { by rewrite (reverse_Permutation (purged q)). }
  by repeat case_decide; try tauto.
Qed.

Lemma elem_of_finished_tasks q t :
  t ∈ finished_tasks q ↔ Active t = false ∧ ∃ id, q_tasks q !! id = Some t.
Proof.
  unfold finished_tasks. by rewrite elem_of_sort_slice, list_elem_of_filter, elem_of_map_values.
Qed.

Lemma purged_finished q t : t ∈ purged q → t ∈ finished_tasks q.
Proof.
  unfold purged. repeat case_match; try by intros ?%elem_of_nil.
  intros Hin. eapply elem_of_submseteq; [exact Hin|]. apply submseteq_drop.
Qed.

Definition keyed (q : Queue) : Prop := ∀ id t, q_tasks q !! id = Some t → t_id t = id.

(** An active task is never purged. *)
Lemma active_not_purged q id t :
  keyed q → q_tasks q !! id = Some t → Active t = true → id ∉ t_id <$> purged q.
Proof.
  intros Hk Ht Ha (u & -> & Hu)%list_elem_of_fmap.
  apply purged_finished, elem_of_finished_tasks in Hu as (Hf & id' & Hid').
  assert (t_id u = id') as Hid by by apply (Hk _ _ Hid'). subst id'. congruence.
Qed.

Lemma purgeFinished_active q id t :
  keyed q → Active t = true →
  q_tasks (purgeFinished q) !! id = Some t ↔ q_tasks q !! id = Some t.
Proof.
  intros Hk Ha. rewrite purgeFinished_lookup. case_decide as Hd; [|done].
  split; [done|]. intros Ht. by destruct (active_not_purged q id t Hk Ht Ha).
Qed.

Lemma purgeFinished_sub q id t :
  q_tasks (purgeFinished q) !! id = Some t → q_tasks q !! id = Some t.
Proof. rewrite purgeFinished_lookup. by case_decide. Qed.

Lemma purgeFinished_named q :
  disk_named (q_disk q) → disk_named (q_disk (purgeFinished q)).
Proof.
  intros Hd. rewrite purgeFinished_eq. cbn.
  eapply subset_disk_named; [apply fold_remove_files_subset|done].
Qed.
End facts.
