(* ===== verification/TaskCodecRef.v ===== *)
(** A concrete task codec: an executable stand-in for [encoding/json] that shows
    the interface [TaskCodec] can be met, with a marshaller that never fails.
    Every record is written as the list of its encoded fields, and the whole as
    a string of binary digits. *)

From S2P Require Import Prelude GoStrings Taxonomy Tasks TaskQueue.

Fixpoint bits (p : positive) : string :=
  match p with
  | xH => ""
  | xO p => String "0" (bits p)
  | xI p => String "1" (bits p)
  end.
Fixpoint unbits (s : string) : option positive :=
  match s with
  | "" => Some xH
  | String c s =>
      if Ascii.eqb c "0" then xO <$> unbits s
      else if Ascii.eqb c "1" then xI <$> unbits s else None
  end.
Lemma unbits_bits p : unbits (bits p) = Some p.
Proof. induction p as [p IH|p IH|]; cbn; rewrite ?IH; done. Qed.

(** [countable_by] derives an instance from a list of fields. *)
Ltac countable_by enc dec :=
  apply (inj_countable enc dec); intros []; cbn; rewrite ?decode_encode; reflexivity.

#[export] Instance pval_eq_dec : EqDecision pval.
Proof. solve_decision. Defined.
#[export] Instance Status_countable : Countable Status.
Proof.
  countable_by
    (λ s, match s with
          | StatusPending => (0, "") | StatusRunning => (1, "") | StatusDone => (2, "")
          | StatusFailed => (3, "") | StatusSkipped => (4, "") | StatusOther s => (5, s)
          end)
    (λ '(n, s), match n with
          | 0 => Some StatusPending | 1 => Some StatusRunning | 2 => Some StatusDone
          | 3 => Some StatusFailed | 4 => Some StatusSkipped | 5 => Some (StatusOther s) | _ => None
          end).
Defined.
#[export] Instance pval_countable : Countable pval.
Proof.
  countable_by (λ v, match v with PStr s => inl s | PInt z => inr z end)
    (λ v, match v with inl s => Some (PStr s) | inr z => Some (PInt z) end).
Defined.

#[export] Instance ItemError_eq_dec : EqDecision ItemError.
Proof. solve_decision. Defined.
#[export] Instance ItemError_countable : Countable ItemError.
Proof.
  countable_by
    (λ r : ItemError, [encode (ie_code r); encode (ie_params r); encode (ie_detail r)])
    (λ l : list positive, match l with
          | [x0; x1; x2] =>
              y0 ← decode x0; y1 ← decode x1; y2 ← decode x2;
              Some (mkItemError y0 y1 y2)
          | _ => None
          end).
Defined.

#[export] Instance BlobProgress_eq_dec : EqDecision BlobProgress.
Proof. solve_decision. Defined.
#[export] Instance BlobProgress_countable : Countable BlobProgress.
Proof.
  countable_by
    (λ r : BlobProgress, [encode (bp_digest r); encode (bp_size r); encode (bp_received r);
      encode (bp_resumed r); encode (bp_done r)])
    (λ l : list positive, match l with
          | [x0; x1; x2; x3; x4] =>
              y0 ← decode x0; y1 ← decode x1; y2 ← decode x2; y3 ← decode x3; y4 ← decode x4;
              Some (mkBlob y0 y1 y2 y3 y4)
          | _ => None
          end).
Defined.

#[export] Instance Item_eq_dec : EqDecision Item.
Proof. solve_decision. Defined.
#[export] Instance Item_countable : Countable Item.
Proof.
  countable_by
    (λ r : Item, [encode (it_name r); encode (it_digest r); encode (it_size r); encode
      (it_status r); encode (it_error r); encode (it_blobs r)])
    (λ l : list positive, match l with
          | [x0; x1; x2; x3; x4; x5] =>
              y0 ← decode x0; y1 ← decode x1; y2 ← decode x2; y3 ← decode x3; y4 ←
                decode x4; y5 ← decode x5;
              Some (mkItem y0 y1 y2 y3 y4 y5)
          | _ => None
          end).
Defined.

#[export] Instance Layout_eq_dec : EqDecision Layout.
Proof. solve_decision. Defined.
#[export] Instance Layout_countable : Countable Layout.
Proof.
  countable_by
    (λ r : Layout, [encode (ly_format r); encode (ly_recipes r); encode (ly_repositories r);
      encode (ly_repository r); encode (ly_overwrite r)])
    (λ l : list positive, match l with
          | [x0; x1; x2; x3; x4] =>
              y0 ← decode x0; y1 ← decode x1; y2 ← decode x2; y3 ← decode x3; y4 ← decode x4;
              Some (mkLayout y0 y1 y2 y3 y4)
          | _ => None
          end).
Defined.

#[export] Instance PrunedRow_eq_dec : EqDecision PrunedRow.
Proof. solve_decision. Defined.
#[export] Instance PrunedRow_countable : Countable PrunedRow.
Proof.
  countable_by
    (λ r : PrunedRow, [encode (pr_repo r); encode (pr_tag r); encode (pr_digest r); encode
      (pr_recipe r)])
    (λ l : list positive, match l with
          | [x0; x1; x2; x3] =>
              y0 ← decode x0; y1 ← decode x1; y2 ← decode x2; y3 ← decode x3;
              Some (mkPruned y0 y1 y2 y3)
          | _ => None
          end).
Defined.

#[export] Instance Resolution_eq_dec : EqDecision Resolution.
Proof. solve_decision. Defined.
#[export] Instance Resolution_countable : Countable Resolution.
Proof.
  countable_by
    (λ r : Resolution, [encode (rs_recipe r); encode (rs_ingredient r); encode (rs_requested
      r); encode (rs_resolved r); encode (rs_digest r); encode (rs_status r); encode
      (rs_effective r); encode (rs_trust_scope r); encode (rs_destination r); encode
      (rs_destination_status r); encode (rs_pushed r)])
    (λ l : list positive, match l with
          | [x0; x1; x2; x3; x4; x5; x6; x7; x8; x9; x10] =>
              y0 ← decode x0; y1 ← decode x1; y2 ← decode x2; y3 ← decode x3; y4 ←
                decode x4; y5 ← decode x5; y6 ← decode x6; y7 ← decode x7; y8 ←
                decode x8; y9 ← decode x9; y10 ← decode x10;
              Some (mkResolution y0 y1 y2 y3 y4 y5 y6 y7 y8 y9 y10)
          | _ => None
          end).
Defined.

#[export] Instance ChartDependency_eq_dec : EqDecision ChartDependency.
Proof. solve_decision. Defined.
#[export] Instance ChartDependency_countable : Countable ChartDependency.
Proof.
  countable_by
    (λ r : ChartDependency, [encode (cd_chart r); encode (cd_name r); encode (cd_version r);
      encode (cd_repository r); encode (cd_embedded r)])
    (λ l : list positive, match l with
          | [x0; x1; x2; x3; x4] =>
              y0 ← decode x0; y1 ← decode x1; y2 ← decode x2; y3 ← decode x3; y4 ← decode x4;
              Some (mkChartDependency y0 y1 y2 y3 y4)
          | _ => None
          end).
Defined.

#[export] Instance Task_eq_dec : EqDecision Task.
Proof. solve_decision. Defined.
#[export] Instance Task_countable : Countable Task.
Proof.
  countable_by
    (λ r : Task, [encode (t_id r); encode (t_run_id r); encode (t_type r); encode (t_reference
      r); encode (t_actor r); encode (t_status r); encode (t_created r); encode (t_started r);
      encode (t_finished r); encode (t_resumed r); encode (t_vendor r); encode (t_layout r);
      encode (t_overrides r); encode (t_error r); encode (t_items r); encode (t_charts r);
      encode (t_prune r); encode (t_pruned r); encode (t_resolutions r)])
    (λ l : list positive, match l with
          | [x0; x1; x2; x3; x4; x5; x6; x7; x8; x9; x10; x11; x12; x13; x14; x15; x16; x17; x18] =>
              y0 ← decode x0; y1 ← decode x1; y2 ← decode x2; y3 ← decode x3; y4 ←
                decode x4; y5 ← decode x5; y6 ← decode x6; y7 ← decode x7; y8 ←
                decode x8; y9 ← decode x9; y10 ← decode x10; y11 ← decode x11; y12 ←
                decode x12; y13 ← decode x13; y14 ← decode x14; y15 ← decode x15;
                y16 ← decode x16; y17 ← decode x17; y18 ← decode x18;
              Some (mkTask y0 y1 y2 y3 y4 y5 y6 y7 y8 y9 y10 y11 y12 y13 y14 y15 y16 y17 y18)
          | _ => None
          end).
Defined.

#[export] Program Instance ref_codec : TaskCodec := {|
  marshal t := Some (bits (encode t));
  unmarshal s := p ← unbits s; decode p;
|}.
Next Obligation. intros t s [= <-]. cbn. by rewrite unbits_bits; cbn; rewrite decode_encode. Qed.

Lemma ref_marshal_total t : is_Some (marshal (TaskCodec := ref_codec) t).
Proof. by eexists. Qed.
