(* ===== verification/QueueSafety.v ===== *)
(** The interleavings of the task queue (internal/tasks/queue.go) and what holds
    in every reachable state: no task is orphaned, no task is queued twice, a
    restart recovers every active task, a purge only drops old finished ones. *)

From S2P Require Import Prelude GoStrings Taxonomy Tasks Disk TaskQueue.

(** A queue with its worker: [w_exec] is the canonical task the worker is
    running, [w_left] the tasks a shutdown interrupted mid-run. *)
Record World := mkWorld { w_q : Queue; w_exec : option Task; w_left : gset string }.

(** The outcome of a run is an interruption. *)
Definition interrupted (e : RunEnd) : bool :=
  match runProtected e with Some err => ge_canceled err | None => false end.

Section steps.
Context `{GoRuntime, TaskCodec}.

(** Starting the process on a directory, retried as long as it fails. *)
Inductive starts (keep : Z) : Disk → Queue → Prop :=
  | starts_ok d q d' : Open keep d = (Ok q, d') → starts keep d q
  | starts_retry d e d' q : Open keep d = (Err e, d') → starts keep d' q → starts keep d q.

(** One critical section of one goroutine, or the end of the process. A runner
    is any program that leaves its task's status alone. *)
Inductive step : World → World → Prop :=
  | step_register w ty r :
      step w (mkWorld (Register ty r (w_q w)) (w_exec w) (w_left w))
  | step_create w id run now ty ref actor items opts t q :
      q_tasks (w_q w) !! id = None →
      Create id run now ty ref actor items opts (w_q w) = (Ok t, q) →
      step w (mkWorld q (w_exec w) (w_left w))
  | step_skip w id q now :
      w_exec w = None → next_task (w_q w) = Some (id, q) → begin_execute id now q = None →
      step w (mkWorld q None (w_left w))
  | step_begin w id q now t q' :
      w_exec w = None → next_task (w_q w) = Some (id, q) → begin_execute id now q = Some (t, q') →
      step w (mkWorld q' (Some t) (w_left w))
  | step_log w t text :
      w_exec w = Some t →
      step w (mkWorld (with_disk (with_files (<[log_name (t_id t) := text]>) (q_disk (w_q w))) (w_q w))
                (Some t) (w_left w))
  | step_save w dst work dst' q :
      w_exec w = Some dst → t_status work = StatusRunning →
      publish dst work (w_q w) = (dst', q) →
      step w (mkWorld q (Some dst') (w_left w))
  | step_end w dst work e now dst' q :
      w_exec w = Some dst → t_status work = StatusRunning →
      end_execute dst work e now (w_q w) = (dst', q) →
      step w (mkWorld q None (if interrupted e then {[ t_id dst ]} ∪ w_left w else w_left w))
  | step_restart w keep q :
      starts keep (q_disk (w_q w)) q →
      step w (mkWorld q None ∅).

Inductive reachable : World → Prop :=
  | reachable_start keep d q : disk_named d → starts keep d q → reachable (mkWorld q None ∅)
  | reachable_step w w' : reachable w → step w w' → reachable w'.

(** The ids waiting for the worker, in the order it takes them. *)
Definition waiting (q : Queue) : list string := q_resuming q ++ q_pending q.

Record queue_inv (w : World) : Prop := {
  inv_keyed : keyed (w_q w);
  inv_named : disk_named (q_disk (w_q w));
  inv_capacity : (length (q_pending (w_q w)) ≤ pendingCapacity)%nat;
  inv_once : NoDup (waiting (w_q w));
  inv_waiting : ∀ id, id ∈ waiting (w_q w) →
    ∃ t, q_tasks (w_q w) !! id = Some t ∧ t_status t = StatusPending;
  inv_exec : ∀ t, w_exec w = Some t →
    q_tasks (w_q w) !! t_id t = Some t ∧ t_status t = StatusRunning ∧ t_id t ∉ w_left w;
  inv_left : ∀ id, id ∈ w_left w →
    ∃ t, q_tasks (w_q w) !! id = Some t ∧ t_status t = StatusRunning;
  inv_pending : ∀ id t, q_tasks (w_q w) !! id = Some t → t_status t = StatusPending →
    id ∈ waiting (w_q w);
  inv_running : ∀ id t, q_tasks (w_q w) !! id = Some t → t_status t = StatusRunning →
    w_exec w = Some t ∨ id ∈ w_left w }.

(** ** Loading *)

(** What loading makes of a task. *)
Definition reload (t : Task) : Task :=
  if Active t then set_resumed true (set_status StatusPending t) else t.

(** The readable tasks among the named files. *)
Definition decode_file (d : Disk) (name : string) : option Task :=
  if has_suffix name ".json" then d_files d !! name ≫= unmarshal else None.
Definition decoded (d : Disk) (names : list string) : list Task := omap (decode_file d) names.

Lemma decode_file_Some d name t :
  decode_file d name = Some t ↔ ∃ id, name = json_name id ∧ on_disk d id t.
Proof.
  unfold decode_file, on_disk. split.
  - destruct (has_suffix name ".json") eqn:Hs; [|done]. intros (s & ? & ?)%bind_Some.
    apply json_suffix_inv in Hs as [id ->]. eauto.
  - intros (id & -> & s & Hf & Hu). by rewrite json_suffix, Hf.
Qed.

Lemma next_fault_files d : d_files (next_fault d).2 = d_files d.
Proof. unfold next_fault. by destruct (d_faults d). Qed.

Lemma probe_files d : d_files (probe d).2 = d_files d.
Proof. unfold probe. rewrite <-(next_fault_files d). by destruct (next_fault d) as [[] ?]. Qed.

Lemma read_file_spec name d :
  d_files (read_file name d).2 = d_files d ∧
  ∀ s, (read_file name d).1 = Contents s → d_files d !! name = Some s.
Proof.
  unfold read_file. pose proof (next_fault_files d) as Hf.
  destruct (next_fault d) as [[| |c] d']; cbn in *; [|done|done].
  destruct (d_files d' !! name) as [s|] eqn:E; cbn; (split; [done|]); [|done].
  intros s' [= ->]. by rewrite <-Hf.
Qed.

Lemma load_files_decoded names d acc :
  d_files (load_files names d acc).2 = d_files d ∧
  ∀ r, (load_files names d acc).1 = Ok r → r = fold_left load_task (decoded d names) acc.
Proof.
  revert d acc. induction names as [|name names IH]; intros d acc; cbn.
  { split; [done|]. by intros r [= ->]. }
  unfold decode_file. destruct (has_suffix name ".json") eqn:Hs; cbn; [|apply IH].
  destruct (read_file_spec name d) as [Hf Hc].
  destruct (read_file name d) as [[s| |] d'] eqn:Hr; cbn in *; [|done|done].
  rewrite (Hc s eq_refl); cbn.
  destruct (IH d' match unmarshal s with None => acc | Some t => load_task acc t end) as [IH1 IH2].
  split; [congruence|]. intros r Hok. rewrite (IH2 r Hok).
  replace (decoded d' names) with (decoded d names) by (unfold decoded, decode_file; by rewrite Hf).
  by destruct (unmarshal s).
Qed.

Lemma fold_load ts :
  NoDup (t_id <$> ts) →
  let '(m, found) := fold_left load_task ts (∅, []) in
  (∀ id t', m !! id = Some t' ↔ ∃ t, t ∈ ts ∧ t_id t = id ∧ t' = reload t) ∧
  found = t_id <$> filter (λ t, Active t = true) ts.
Proof.
  induction ts as [|t ts IH] using rev_ind; intros Hnd; cbn.
  { split; [|done]. intros id t'. rewrite lookup_empty. split; [done|].
    by intros (t & ?%elem_of_nil & _). }
  rewrite fold_left_app. rewrite fmap_app in Hnd. apply NoDup_app in Hnd as (Hnd & Hdis & _).
  specialize (IH Hnd). destruct (fold_left load_task ts (∅, [])) as [m found].
  destruct IH as [Hm ->]. cbn. unfold load_task. rewrite filter_app, fmap_app.
  assert (∀ id t', <[t_id t := reload t]> m !! id = Some t' ↔
    ∃ u, u ∈ ts ++ [t] ∧ t_id u = id ∧ t' = reload u) as Hins.
  { intros id t'. setoid_rewrite elem_of_app. setoid_rewrite list_elem_of_singleton.
    destruct (decide (id = t_id t)) as [->|Hne].
    - rewrite lookup_insert_eq. split; [intros [= <-]; eauto|].
      intros (u & [Hu| ->] & Hid & ->); [|done].
      exfalso. apply (Hdis (t_id t)); [rewrite <-Hid; by apply list_elem_of_fmap_2|left].
    - rewrite lookup_insert_ne, Hm by done. split.
      + intros (u & ? & ? & ?). eauto.
      + intros (u & [Hu| ->] & Hid & ->); [eauto|done]. }
  unfold filter at 3 5. cbn. unfold reload in Hins at 1.
  destruct (Active t) eqn:Ha; case_decide; try done; cbn; split; try done.
  by rewrite app_nil_r.
Qed.

Lemma decoded_spec d t :
  disk_named d → t ∈ decoded d (dir_names d) ↔ on_disk d (t_id t) t.
Proof.
  intros Hd. unfold decoded. rewrite list_elem_of_omap. setoid_rewrite decode_file_Some. split.
  - intros (name & Hin & id & -> & Hod). by rewrite (Hd _ _ Hod).
  - intros Hod. exists (json_name (t_id t)). split; [|eauto].
    apply elem_of_dir_names. destruct Hod as (s & -> & _). eauto.
Qed.

Lemma NoDup_decoded d : disk_named d → NoDup (t_id <$> decoded d (dir_names d)).
Proof.
  intros Hd. pose proof (NoDup_dir_names d) as Hnd. revert Hnd. unfold decoded.
  generalize (dir_names d) as names. induction names as [|name names IH]; intros Hnd; cbn.
  { constructor. }
  apply NoDup_cons in Hnd as [Hni Hnd]. specialize (IH Hnd).
  destruct (decode_file d name) as [t|] eqn:E; [|done].
  cbn. apply NoDup_cons. split; [|done]. intros Hin. apply Hni.
  apply decode_file_Some in E as (id & -> & Hod). rewrite (Hd _ _ Hod) in Hin.
  apply list_elem_of_fmap in Hin as (u & -> & Hu).
  apply list_elem_of_omap in Hu as (name' & Hin' & E').
  apply decode_file_Some in E' as (id' & -> & Hod'). by rewrite (Hd _ _ Hod').
Qed.

(** ** Opening *)

Lemma persist_all_named m ids d : disk_named d → disk_named (persist_all m ids d).
Proof.
  revert d. induction ids as [|id ids IH]; intros d Hd; cbn; [done|].
  apply IH. destruct (m !! id); [by apply persist_disk_named|done].
Qed.

Lemma files_named d d' : d_files d' = d_files d → disk_named d → disk_named d'.
Proof. intros Hf. apply subset_disk_named. by rewrite Hf. Qed.

Lemma probe_healthy d : healthy d → probe d = (true, d).
Proof. unfold healthy, probe, next_fault. by intros ->. Qed.

Lemma load_files_healthy names d acc :
  healthy d → (∀ name, name ∈ names → is_Some (d_files d !! name)) →
  is_ok (load_files names d acc).1 = true ∧ (load_files names d acc).2 = d.
Proof.
  intros Hh. revert acc. induction names as [|name names IH]; intros acc Hin; cbn; [done|].
  assert (∀ n, n ∈ names → is_Some (d_files d !! n)) as Hin' by (intros n Hn; apply Hin; by right).
  destruct (has_suffix name ".json"); cbn; [|by apply IH].
  unfold read_file, next_fault. rewrite Hh. destruct (Hin name) as [s ->]; [left|]. by apply IH.
Qed.

Definition oldest_first (m : gmap string Task) (a b : string) : bool :=
  (created_of m a <? created_of m b)%Z.

(** A successful [Open]: the loaded map, the backlog, and the purge. *)
Lemma Open_ok keep d q d' :
  disk_named d → Open keep d = (Ok q, d') →
  ∃ m found disk,
    q = purgeFinished (mkQueue keep m ∅ [] (sort_slice (oldest_first m) found) disk) ∧
    (∀ id t', m !! id = Some t' ↔ ∃ t, on_disk d id t ∧ t' = reload t) ∧
    NoDup found ∧
    (∀ id, id ∈ found ↔ ∃ t, on_disk d id t ∧ Active t = true) ∧
    disk_named disk ∧
    (healthy d → disk = persist_all m (sort_slice (oldest_first m) found) d).
Proof.
  intros Hd. unfold Open. pose proof (probe_healthy d) as Hh1.
  pose proof (probe_files d) as Hf1. destruct (probe d) as [[] d1]; [|done]. cbn in Hf1.
  pose proof (probe_files d1) as Hf2. pose proof (probe_healthy d1) as Hh2.
  destruct (probe d1) as [[] d2]; [|done]. cbn in Hf2.
  assert (d_files d2 = d_files d) as Hf by congruence.
  pose proof (files_named d d2 Hf Hd) as Hd2.
  destruct (load_files_decoded (dir_names d2) d2 (∅, [])) as [Hf3 Hload].
  pose proof (load_files_healthy (dir_names d2) d2 (∅, [])) as Hh3.
  destruct (load_files (dir_names d2) d2 (∅, [])) as [[[m found]|e] d3]; [|done]. cbn in Hf3, Hload.
  intros [= <- <-]. specialize (Hload _ eq_refl).
  pose proof (fold_load _ (NoDup_decoded d2 Hd2)) as Hfold. rewrite <-Hload in Hfold.
  destruct Hfold as [Hm Hfound].
  assert (∀ id t, on_disk d2 id t ↔ on_disk d id t) as Hod by (unfold on_disk; by rewrite Hf).
  assert (∀ id t, t_id t = id → on_disk d2 id t ↔ t ∈ decoded d2 (dir_names d2)) as Hdec.
  { intros id t <-. by rewrite decoded_spec. }
  eexists m, found, _. split; [reflexivity|]. split; [|split; [|split; [|split]]].
  - intros id t'. rewrite Hm. split.
    + intros (t & Hin & Hid & ->). exists t. split; [|done]. by rewrite <-Hod, Hdec.
    + intros (t & Hin & ->). rewrite <-Hod in Hin. exists t.
      assert (t_id t = id) as Hid by by apply Hd2. by rewrite <-(Hdec id).
  - rewrite Hfound. eapply sublist_NoDup; [by apply (NoDup_decoded d2)|].
    apply fmap_sublist, sublist_filter.
  - intros id. rewrite Hfound, list_elem_of_fmap. setoid_rewrite list_elem_of_filter. split.
    + intros (t & -> & Ha & Hin). exists t. split; [|done]. by rewrite <-Hod, Hdec.
    + intros (t & Hin & Ha). rewrite <-Hod in Hin. exists t.
      assert (t_id t = id) as Hid by by apply Hd2. by rewrite <-(Hdec id).
  - apply persist_all_named. eapply files_named; [exact Hf3|done].
  - intros Hh. specialize (Hh1 Hh). injection Hh1 as ->. specialize (Hh2 Hh). injection Hh2 as ->.
    f_equal. specialize (Hh3 Hh (λ name, proj1 (elem_of_dir_names d name))) as [_ Hd3]. exact Hd3.
Qed.

Lemma Open_err_files keep d e d' : Open keep d = (Err e, d') → d_files d' = d_files d.
Proof.
  unfold Open. pose proof (probe_files d) as Hf1. destruct (probe d) as [[] d1]; [|intros [= _ <-]; done].
  cbn in Hf1. pose proof (probe_files d1) as Hf2. destruct (probe d1) as [[] d2];
    [|cbn in *; intros [= _ <-]; congruence].
  cbn in Hf2. destruct (load_files_decoded (dir_names d2) d2 (∅, [])) as [Hf3 _].
  destruct (load_files (dir_names d2) d2 (∅, [])) as [[[m found]|e'] d3]; [done|].
  intros [= -> ->]. cbn in Hf3. congruence.
Qed.

Lemma reload_id t : t_id (reload t) = t_id t.
Proof. unfold reload. by destruct (Active t). Qed.
Lemma reload_created t : t_created (reload t) = t_created t.
Proof. unfold reload. by destruct (Active t). Qed.
Lemma reload_pending t : t_status (reload t) = StatusPending ↔ Active t = true.
Proof.
  unfold reload. destruct (Active t) eqn:E; [done|]. split; [|done]. intros Hs.
  unfold Active in E. by rewrite Hs in E.
Qed.
Lemma reload_not_running t : t_status (reload t) ≠ StatusRunning.
Proof.
  unfold reload. destruct (Active t) eqn:E; [done|]. intros Hs.
  unfold Active in E. by rewrite Hs in E.
Qed.

Lemma Active_status t : Active t = true ↔ t_status t = StatusPending ∨ t_status t = StatusRunning.
Proof. unfold Active. by rewrite orb_true_iff, !bool_decide_eq_true. Qed.

(** ** Preservation *)

Lemma inv_with_disk w d :
  queue_inv w → disk_named d → queue_inv (mkWorld (with_disk d (w_q w)) (w_exec w) (w_left w)).
Proof. intros [] Hd. by constructor. Qed.

Lemma inv_purge w :
  queue_inv w → queue_inv (mkWorld (purgeFinished (w_q w)) (w_exec w) (w_left w)).
Proof.
  intros [Hk Hd Hc Ho Hw He Hl Hp Hr].
  assert (∀ id t, t_status t = StatusPending ∨ t_status t = StatusRunning →
    q_tasks (purgeFinished (w_q w)) !! id = Some t ↔ q_tasks (w_q w) !! id = Some t) as Hact.
  { intros id t Hs. apply purgeFinished_active; [done|]. by apply Active_status. }
  assert (waiting (purgeFinished (w_q w)) = waiting (w_q w)) as Hwait
    by by rewrite purgeFinished_eq.
  constructor; cbn; rewrite ?Hwait; try done.
  - intros id t Ht%purgeFinished_sub. by apply Hk.
  - by apply purgeFinished_named.
  - by rewrite purgeFinished_eq.
  - intros id Hid. destruct (Hw id Hid) as (t & Ht & Hs). exists t. rewrite Hact; auto.
  - intros t Ht. destruct (He t Ht) as (? & ? & ?). rewrite Hact; auto.
  - intros id Hid. destruct (Hl id Hid) as (t & Ht & Hs). exists t. rewrite Hact; auto.
  - intros id t Ht%purgeFinished_sub. by apply Hp.
  - intros id t Ht%purgeFinished_sub. by apply Hr.
Qed.

Lemma inv_open keep d q : disk_named d → starts keep d q → queue_inv (mkWorld q None ∅).
Proof.
  intros Hd Hs. induction Hs as [d q d' Ho|d e d' q Ho Hs IH].
  - destruct (Open_ok _ _ _ _ Hd Ho) as (m & found & disk & -> & Hm & Hnd & Hfound & Hdisk & _).
    apply (inv_purge (mkWorld _ None ∅)). constructor; cbn; unfold waiting; cbn; rewrite ?app_nil_r.
    + intros id t (u & Hu & ->)%Hm. rewrite reload_id. by apply Hd.
    + done.
    + unfold pendingCapacity. lia.
    + by rewrite sort_slice_perm.
    + intros id. rewrite elem_of_sort_slice, Hfound. intros (t & Ht & Ha).
      exists (reload t). split; [apply Hm; eauto|]. by apply reload_pending.
    + done.
    + by intros id ?%elem_of_empty.
    + intros id t (u & Hu & ->)%Hm Hp%reload_pending. rewrite elem_of_sort_slice, Hfound. eauto.
    + intros id t (u & Hu & ->)%Hm Hr. by apply reload_not_running in Hr.
  - apply IH. eapply files_named; [by eapply Open_err_files|done].
Qed.

Lemma next_task_spec q id q' :
  next_task q = Some (id, q') →
  waiting q = id :: waiting q' ∧ q_tasks q' = q_tasks q ∧ q_disk q' = q_disk q ∧
  (length (q_pending q') ≤ length (q_pending q))%nat.
Proof.
  unfold next_task, nextResuming, waiting.
  destruct (q_resuming q) as [|r rs] eqn:Er; [destruct (q_pending q) as [|i ids] eqn:Ep|];
    intros [= <- <-]; cbn; auto with lia.
Qed.

Lemma new_task_fields id run now ty ref actor items opts :
  let t := new_task id run now ty ref actor items opts in
  t_id t = id ∧ t_status t = StatusPending ∧ t_created t = now.
Proof.
  cbn. unfold new_task.
  assert (∀ t, t_id (fold_left apply_option opts t) = t_id t ∧
    t_status (fold_left apply_option opts t) = t_status t ∧
    t_created (fold_left apply_option opts t) = t_created t) as Hf; [|apply Hf].
  induction opts as [|o opts IH]; intros t; cbn; [done|]. destruct (IH (apply_option t o)) as (-> & -> & ->).
  done.
Qed.

(** The queue after a task is inserted and enqueued. *)
Lemma inv_enqueue w t :
  queue_inv w → q_tasks (w_q w) !! t_id t = None → t_status t = StatusPending →
  (length (q_pending (w_q w)) < pendingCapacity)%nat →
  queue_inv (mkWorld (with_tasks (<[t_id t := t]>) (enqueue (t_id t) (w_q w))) (w_exec w) (w_left w)).
Proof.
  intros [Hk Hd Hc Ho Hw He Hl Hp Hr] Hfresh Hs Hcap.
  assert (∀ id u, q_tasks (w_q w) !! id = Some u → <[t_id t := t]> (q_tasks (w_q w)) !! id = Some u) as Hold.
  { intros id u Hu. rewrite lookup_insert_ne; [done|]. intros <-. congruence. }
  constructor; cbn; unfold waiting in *; cbn; rewrite ?app_assoc.
  - intros id u. cbn. rewrite lookup_insert_Some. intros [[<- <-]|[_ Hu]]; [done|by apply Hk].
  - done.
  - rewrite length_app. cbn. lia.
  - apply NoDup_app. split; [done|]. split; [|apply NoDup_singleton].
    intros id Hin ->%list_elem_of_singleton. destruct (Hw _ Hin) as (u & Hu & _). congruence.
  - intros id. rewrite elem_of_app, list_elem_of_singleton. intros [Hin| ->].
    + destruct (Hw id Hin) as (u & Hu & ?). eauto.
    + exists t. by rewrite lookup_insert_eq.
  - intros u Hu. destruct (He u Hu) as (? & ? & ?). auto.
  - intros id Hin. destruct (Hl id Hin) as (u & Hu & ?). eauto.
  - intros id u. cbn. rewrite lookup_insert_Some, elem_of_app, list_elem_of_singleton.
    intros [[<- <-]|[_ Hu]]; [auto|]. left. by eapply Hp.
  - intros id u. cbn. rewrite lookup_insert_Some. intros [[<- <-]|[_ Hu]]; [congruence|]. by apply Hr.
Qed.

Lemma inv_begin w id q now t q' :
  queue_inv w → w_exec w = None → next_task (w_q w) = Some (id, q) →
  begin_execute id now q = Some (t, q') → queue_inv (mkWorld q' (Some t) (w_left w)).
Proof.
  intros [Hk Hd Hc Ho Hw He Hl Hp Hr] Hx Hn Hb.
  destruct (next_task_spec _ _ _ Hn) as (Hwait & Htasks & Hdisk & Hlen).
  unfold begin_execute in Hb. destruct (q_tasks q !! id) as [u|] eqn:Hu; [|done].
  injection Hb as <- <-. rewrite Htasks in Hu. rewrite Hwait in Ho, Hw, Hp.
  apply NoDup_cons in Ho as [Hni Ho]. pose proof (Hk _ _ Hu) as Hid.
  destruct (Hw id) as (u' & Hu' & Hs); [left|]. assert (u' = u) as -> by congruence.
  set (t' := set_started now (set_status StatusRunning u)).
  apply (inv_with_disk (mkWorld (with_tasks (<[id := t']>) q) (Some t') (w_left w)));
    [|by apply persist_disk_named; cbn; rewrite Hdisk].
  assert (∀ i, i ∈ waiting q → i ≠ id) as Hne by (intros i Hi ->; done).
  constructor; cbn; change (waiting (with_tasks (<[id := t']>) q)) with (waiting q); rewrite ?Htasks.
  - intros i v. cbn. rewrite Htasks, lookup_insert_Some. intros [[<- <-]|[_ Hv]]; [exact Hid|by apply Hk].
  - by rewrite Hdisk.
  - lia.
  - done.
  - intros i Hi. destruct (Hw i) as (v & Hv & ?); [by right|]. exists v.
    rewrite lookup_insert_ne; [done|]. intros ->. by apply (Hne i).
  - intros v [= <-]. cbn. rewrite Hid, lookup_insert_eq. split; [done|]. split; [done|].
    intros (v & Hv & Hvs)%Hl. congruence.
  - intros i Hi. destruct (Hl i Hi) as (v & Hv & Hvs). exists v.
    rewrite lookup_insert_ne; [done|]. intros ->. congruence.
  - intros i v. cbn. rewrite lookup_insert_Some. intros [[<- <-]|[Hi Hv]] Hvs; [done|].
    specialize (Hp i v Hv Hvs). apply elem_of_cons in Hp as [->|?]; done.
  - intros i v. cbn. rewrite lookup_insert_Some. intros [[<- <-]|[Hi Hv]] Hvs; [auto|].
    destruct (Hr i v Hv Hvs); [congruence|auto].
Qed.

(** Publishing the executing task. *)
Lemma publish_queue w dst src :
  queue_inv w → w_exec w = Some dst →
  publish dst src (w_q w) =
    (publish_into dst src,
     with_disk (persist_disk (publish_into dst src) (q_disk (w_q w)))
       (with_tasks (<[t_id dst := publish_into dst src]>) (w_q w))).
Proof.
  intros Hinv Hx. destruct (inv_exec w Hinv dst Hx) as (Ht & _ & _).
  unfold publish, persist, store_task, with_tasks, with_disk. cbn. by rewrite Ht.
Qed.

Lemma inv_publish w dst src exec' left' :
  queue_inv w → w_exec w = Some dst →
  (∀ u, exec' = Some u → u = publish_into dst src ∧ left' = w_left w) →
  (t_status src = StatusRunning → exec' = Some (publish_into dst src) ∨ t_id dst ∈ left') →
  (t_status src = StatusRunning ∨ t_status src = StatusDone ∨ t_status src = StatusFailed) →
  (is_Some exec' → t_status src = StatusRunning) →
  (∀ id, id ∈ left' ↔ id ∈ w_left w ∨ (id = t_id dst ∧ t_status src = StatusRunning ∧ exec' = None)) →
  queue_inv (mkWorld (publish dst src (w_q w)).2 exec' left').
Proof.
  intros Hinv Hx He' Hrun Hst Hex Hleft. rewrite (publish_queue w dst src) by done.
  pose proof Hinv as [Hk Hd Hc Ho Hw He Hl Hp Hr]. destruct (He dst Hx) as (Ht & Hs & Hnl).
  set (p := publish_into dst src). assert (t_id p = t_id dst) as Hpid by done.
  assert (t_status p = t_status src) as Hps by done. cbn [snd].
  apply (inv_with_disk (mkWorld (with_tasks (<[t_id dst := p]>) (w_q w)) exec' left'));
    [|by apply persist_disk_named].
  constructor; cbn; change (waiting (with_tasks (<[t_id dst := p]>) (w_q w))) with (waiting (w_q w)).
  - intros i v. cbn. rewrite lookup_insert_Some. intros [[<- <-]|[_ Hv]]; [done|by apply Hk].
  - done.
  - done.
  - done.
  - intros i Hi. destruct (Hw i Hi) as (v & Hv & Hvs). exists v.
    rewrite lookup_insert_ne; [done|]. intros <-. congruence.
  - intros u Hu. destruct (He' u Hu) as [-> Hl']. fold p. rewrite Hpid, lookup_insert_eq, Hps.
    split; [done|]. split; [eauto|]. by rewrite Hl'.
  - intros i Hi%Hleft. destruct Hi as [Hi|(-> & Hsr & _)].
    + destruct (Hl i Hi) as (v & Hv & Hvs). exists v.
      rewrite lookup_insert_ne; [done|]. by intros <-.
    + exists p. by rewrite lookup_insert_eq.
  - intros i v. cbn. rewrite lookup_insert_Some. intros [[<- <-]|[Hi Hv]] Hvs.
    + rewrite Hps in Hvs. destruct Hst as [?|[?|?]]; congruence.
    + by eapply Hp.
  - intros i v. cbn. rewrite lookup_insert_Some. intros [[<- <-]|[Hi Hv]] Hvs; [by apply Hrun|].
    destruct (Hr i v Hv Hvs) as [?|Hin]; [|right; apply Hleft; auto].
    assert (v = dst) as -> by congruence. by rewrite (Hk _ _ Hv) in Hi.
Qed.

Lemma settle_status work te now :
  t_status (settle work te now) = StatusDone ∨ t_status (settle work te now) = StatusFailed.
Proof. unfold settle. cbn. case_match; auto. Qed.

Lemma inv_step w w' : queue_inv w → step w w' → queue_inv w'.
Proof.
  intros Hinv Hstep. destruct Hstep as
    [w ty r|w id run now ty ref actor items opts t q Hfresh Hc|w id q now Hx Hn Hb
    |w id q now t q' Hx Hn Hb|w t text Hx|w dst work dst' q Hx Hw Hpub
    |w dst work e now dst' q Hx Hw Hend|w keep q Hs].
  - destruct Hinv. by constructor.
  - unfold Create in Hc. destruct (_ <? _)%nat eqn:Hlt; [|done]. injection Hc as <- <-.
    apply Nat.ltb_lt in Hlt.
    destruct (new_task_fields id run now ty ref actor items opts) as (Hid & Hst & _).
    set (t := new_task _ _ _ _ _ _ _ _) in *. apply (inv_purge (mkWorld _ (w_exec w) (w_left w))).
    apply (inv_with_disk (mkWorld _ (w_exec w) (w_left w))).
    + apply inv_enqueue; [done| |done|done]. by rewrite Hid.
    + apply persist_disk_named, (inv_named _ Hinv).
  - exfalso. destruct (next_task_spec _ _ _ Hn) as (Hwait & Htasks & _).
    destruct (inv_waiting _ Hinv id) as (t & Ht & _); [rewrite Hwait; left|].
    unfold begin_execute in Hb. by rewrite Htasks, Ht in Hb.
  - by eapply inv_begin.
  - rewrite <-Hx. apply inv_with_disk; [done|]. intros id u (s & Hs & Hu).
    cbn in Hs. rewrite lookup_insert_ne in Hs by auto with go.
    by apply (inv_named _ Hinv); exists s.
  - replace q with (publish dst work (w_q w)).2 by by rewrite Hpub.
    replace dst' with (publish_into dst work) by (rewrite publish_queue in Hpub; congruence).
    apply inv_publish; auto; [by intros u [= <-]|]. intros id. split; [auto|].
    by intros [?|(_ & _ & ?)].
  - unfold end_execute in Hend. change (match runProtected e with Some err => ge_canceled err | None => false end)
      with (interrupted e) in Hend. destruct (interrupted e).
    + replace q with (publish dst work (w_q w)).2 by by rewrite Hend.
      apply inv_publish; [done|done|by intros u| |auto|by intros []|].
      { intros _. right. apply elem_of_union_l, elem_of_singleton. done. }
      intros id. rewrite elem_of_union, elem_of_singleton. tauto.
    + unfold finish in Hend. set (src := settle work _ now) in *.
      replace q with (publish dst src (w_q w)).2 by by rewrite Hend.
      pose proof (settle_status work (task_error (runProtected e)) now) as Hss. fold src in Hss.
      apply inv_publish; [done|done|by intros u|intros ?; destruct Hss; congruence|tauto|by intros []|].
      intros id. split; [auto|]. intros [?|(_ & ? & _)]; [done|]. destruct Hss; congruence.
  - eapply inv_open; [|done]. apply (inv_named _ Hinv).
Qed.

Lemma reachable_inv w : reachable w → queue_inv w.
Proof. induction 1; [by eapply inv_open|by eapply inv_step]. Qed.

(** ** A disk that does not fail *)

Section calm.
Context (marshal_total : ∀ t, is_Some (marshal t)).

(** Memory and disk hold the same tasks. *)
Definition synced (q : Queue) : Prop :=
  healthy (q_disk q) ∧ ∀ id t, q_tasks q !! id = Some t ↔ on_disk (q_disk q) id t.

Lemma persist_disk_healthy t d :
  healthy d →
  healthy (persist_disk t d) ∧
  ∀ id u, on_disk (persist_disk t d) id u ↔ if decide (id = t_id t) then u = t else on_disk d id u.
Proof.
  intros Hh. unfold persist_disk. destruct (marshal_total t) as [s Hs]. rewrite Hs.
  rewrite write_atomic_healthy by auto with go. split; [done|]. intros id u.
  unfold on_disk at 1. cbn. case_decide as Hid.
  - subst id. rewrite lookup_insert_eq. apply unmarshal_marshal in Hs. split.
    + intros (s' & [= <-] & Hu). congruence.
    + intros ->. eauto.
  - rewrite lookup_insert_ne by (intros ?%(inj json_name); congruence).
    by rewrite lookup_delete_ne by auto with go.
Qed.

Lemma persist_all_healthy m ids d :
  healthy d → (∀ id t, m !! id = Some t → t_id t = id) →
  healthy (persist_all m ids d) ∧
  ∀ id u, on_disk (persist_all m ids d) id u ↔
    if decide (id ∈ ids ∧ is_Some (m !! id)) then m !! id = Some u else on_disk d id u.
Proof.
  intros Hh Hk. revert d Hh. induction ids as [|i ids IH]; intros d Hh; cbn.
  { split; [done|]. intros id u. by rewrite decide_False by by intros [?%elem_of_nil _]. }
  assert (∀ id, id ≠ i → (id ∈ i :: ids ∧ is_Some (m !! id)) ↔ (id ∈ ids ∧ is_Some (m !! id))) as Hcons.
  { intros id Hne. rewrite elem_of_cons. naive_solver. }
  destruct (m !! i) as [t|] eqn:Hi.
  - destruct (persist_disk_healthy t d Hh) as [Hh' Hod]. pose proof (Hk _ _ Hi) as Hid.
    destruct (IH _ Hh') as [Hh'' IH']. split; [done|]. intros id u. rewrite IH'.
    destruct (decide (id = i)) as [->|Hne].
    + rewrite (decide_True (P := i ∈ i :: ids ∧ _)) by (split; [left|eauto]).
      case_decide; [done|]. rewrite Hod, decide_True, Hi by done. naive_solver.
    + rewrite (decide_ext _ _ _ _ (Hcons id Hne)). case_decide; [done|].
      by rewrite Hod, decide_False by congruence.
  - destruct (IH _ Hh) as [Hh'' IH']. split; [done|]. intros id u. rewrite IH'.
    destruct (decide (id = i)) as [->|Hne]; [|by rewrite (decide_ext _ _ _ _ (Hcons id Hne))].
    by rewrite !decide_False by (rewrite Hi; intros [_ [? ?]]; done).
Qed.

Lemma remove_files_healthy t d :
  healthy d →
  healthy (remove_files t d) ∧
  ∀ id u, on_disk (remove_files t d) id u ↔ id ≠ t_id t ∧ on_disk d id u.
Proof.
  intros Hh. unfold remove_files.
  destruct (remove_healthy (json_name (t_id t)) d Hh) as [Hr1 Hh1].
  pose proof (remove_spec (json_name (t_id t)) d) as Hs1.
  destruct (remove (json_name (t_id t)) d) as [r1 d1]. cbn in *.
  destruct (remove_healthy (log_name (t_id t)) d1 Hh1) as [Hr2 Hh2].
  pose proof (remove_spec (log_name (t_id t)) d1) as Hs2.
  destruct (remove (log_name (t_id t)) d1) as [r2 d2]. cbn in *.
  destruct Hs1 as (Ho1 & _ & Hn1 & _), Hs2 as (Ho2 & _ & _ & _).
  split; [done|]. intros id u. unfold on_disk. rewrite Ho2 by (intros ?; by eapply log_not_json).
  destruct (decide (id = t_id t)) as [->|Hne].
  - rewrite Hn1 by done. split; [by intros (? & ? & _)|tauto].
  - rewrite Ho1 by (intros ?%(inj json_name); congruence). tauto.
Qed.

Lemma purge_synced q : keyed q → synced q → synced (purgeFinished q).
Proof.
  intros Hk [Hh Hs]. assert (∀ l d, healthy d →
    healthy (fold_left (λ d t, remove_files t d) l d) ∧
    ∀ id u, on_disk (fold_left (λ d t, remove_files t d) l d) id u ↔
      (id ∉ (t_id <$> l)) ∧ on_disk d id u) as Hfold.
  { induction l as [|t l IH]; intros d Hd; cbn.
    - split; [done|]. intros id u. split; [|tauto]. split; [apply not_elem_of_nil|done].
    - destruct (remove_files_healthy t d Hd) as [Hd' Hod]. destruct (IH _ Hd') as [? IH'].
      split; [done|]. intros id u. rewrite IH', Hod, not_elem_of_cons. tauto. }
  destruct (Hfold (purged q) _ Hh) as [Hh' Hod].
  split; [by rewrite purgeFinished_eq|]. intros id t.
  rewrite purgeFinished_lookup, purgeFinished_eq. cbn. rewrite Hod, <-Hs.
  case_decide; [|tauto]. split; [done|tauto].
Qed.

(** Updating one task in memory and on disk. *)
Lemma persist_synced t q :
  synced q → synced (with_disk (persist_disk t (q_disk q)) (with_tasks (<[t_id t := t]>) q)).
Proof.
  intros [Hh Hs]. destruct (persist_disk_healthy t (q_disk q) Hh) as [Hh' Hod].
  split; [done|]. intros id u. cbn. rewrite Hod. case_decide as Hid.
  - subst id. rewrite lookup_insert_eq. naive_solver.
  - by rewrite lookup_insert_ne.
Qed.

Lemma Open_healthy keep d :
  healthy d → ∃ q d', Open keep d = (Ok q, d') ∧ d' = q_disk q.
Proof.
  intros Hh. unfold Open. rewrite !(probe_healthy d Hh).
  pose proof (load_files_healthy (dir_names d) d (∅, []) Hh
    (λ name, proj1 (elem_of_dir_names d name))) as [Hok Hd].
  destruct (load_files (dir_names d) d (∅, [])) as [[[m found]|e] d3]; [|done]. eauto.
Qed.

Lemma created_keyed m id t : m !! id = Some t → created_of m id = t_created t.
Proof. unfold created_of. by intros ->. Qed.

(** What a start finds on a healthy disk. *)
Lemma Open_synced keep d q d' :
  disk_named d → healthy d → Open keep d = (Ok q, d') →
  synced q ∧
  (∀ id t, q_tasks q !! id = Some t → ∃ u, on_disk d id u ∧ t = reload u) ∧
  (∀ id u, on_disk d id u → Active u = true ∨ (keep ≤ 0)%Z → q_tasks q !! id = Some (reload u)) ∧
  NoDup (q_resuming q) ∧
  (∀ id, id ∈ q_resuming q ↔ ∃ u, on_disk d id u ∧ Active u = true) ∧
  Sorted (λ a b, created_of (q_tasks q) a ≤ created_of (q_tasks q) b)%Z (q_resuming q).
Proof.
  intros Hd Hh Ho.
  destruct (Open_ok _ _ _ _ Hd Ho) as (m & found & disk & -> & Hm & Hnd & Hfound & Hdisk & Hpersist).
  specialize (Hpersist Hh). set (q0 := mkQueue keep m ∅ [] _ disk).
  assert (keyed q0) as Hk.
  { intros id t (u & Hu & ->)%Hm. rewrite reload_id. by apply Hd. }
  assert (∀ id u, on_disk d id u → m !! id = Some (reload u)) as Hm' by (intros; apply Hm; eauto).
  assert (synced q0) as Hs.
  { destruct (persist_all_healthy m (sort_slice (oldest_first m) found) d Hh Hk) as [Hh' Hod].
    split; cbn; rewrite Hpersist; [done|]. intros id t. rewrite Hod. case_decide as Hin; [done|].
    rewrite Hm. split.
    - intros (u & Hu & ->). unfold reload. destruct (Active u) eqn:Ha; [|done]. exfalso. apply Hin.
      rewrite elem_of_sort_slice, Hfound. split; [eauto|]. rewrite (Hm' _ _ Hu). eauto.
    - intros Hu. exists t. split; [done|]. unfold reload. destruct (Active t) eqn:Ha; [|done].
      exfalso. apply Hin. rewrite elem_of_sort_slice, Hfound. split; [eauto|].
      rewrite (Hm' _ _ Hu). eauto. }
  assert (∀ id u, on_disk d id u → Active u = true → q_tasks (purgeFinished q0) !! id = Some (reload u))
    as Hact.
  { intros id u Hu Ha. apply purgeFinished_active; [done| |by apply Hm'].
    apply Active_status. left. by apply reload_pending. }
  assert (q_resuming (purgeFinished q0) = sort_slice (oldest_first m) found) as Hres
    by by rewrite purgeFinished_eq.
  split; [by apply purge_synced|]. rewrite Hres.
  split; [|split; [|split; [|split]]].
  - intros id t Ht%purgeFinished_sub. by apply Hm.
  - intros id u Hu [Ha|Hkeep]; [by apply Hact|].
    rewrite purgeFinished_lookup. unfold purged. cbn [q_keepFinished q0].
    rewrite (proj2 (Z.leb_le keep 0)) by done. cbn.
    rewrite decide_False by apply not_elem_of_nil. by apply Hm'.
  - by rewrite sort_slice_perm.
  - intros id. by rewrite elem_of_sort_slice.
  - pose proof (sort_slice_sorted _ (oldest_first m) found (strict_weak_Zlt (created_of m))) as Hsort.
    assert (∀ id, id ∈ sort_slice (oldest_first m) found →
      created_of (q_tasks (purgeFinished q0)) id = created_of m id) as Hc.
    { intros id. rewrite elem_of_sort_slice, Hfound. intros (u & Hu & Ha).
      by rewrite (created_keyed _ _ _ (Hact _ _ Hu Ha)), (created_keyed _ _ _ (Hm' _ _ Hu)). }
    revert Hsort Hc. generalize (sort_slice (oldest_first m) found) as l. clear.
    induction l as [|a l IH]; intros Hsort Hc; [constructor|].
    apply Sorted_inv in Hsort as [Hsort Hhd]. constructor.
    + apply IH; [done|]. intros id Hid. apply Hc. by right.
    + destruct Hhd as [|b l Hab]; constructor. rewrite !Hc by (rewrite ?elem_of_cons; auto).
      unfold not_less, oldest_first in Hab. apply Z.ltb_ge in Hab. done.
Qed.

Lemma start_healthy keep d q : healthy d → starts keep d q → ∃ d', Open keep d = (Ok q, d').
Proof.
  intros Hh Hs. destruct Hs as [d q d' Ho|d e d' q Ho _]; [eauto|].
  destruct (Open_healthy keep d Hh) as (? & ? & Ho' & _). congruence.
Qed.

Lemma step_synced w w' : queue_inv w → synced (w_q w) → step w w' → synced (w_q w').
Proof.
  intros Hinv Hsync Hstep. destruct Hstep as
    [w ty r|w id run now ty ref actor items opts t q Hfresh Hc|w id q now Hx Hn Hb
    |w id q now t q' Hx Hn Hb|w t text Hx|w dst work dst' q Hx Hw Hpub
    |w dst work e now dst' q Hx Hw Hend|w keep q Hs]; cbn.
  - done.
  - unfold Create in Hc. destruct (_ <? _)%nat eqn:Hlt; [|done]. injection Hc as <- <-.
    destruct (new_task_fields id run now ty ref actor items opts) as (Hid & _ & _).
    set (t := new_task _ _ _ _ _ _ _ _) in *. apply purge_synced.
    + intros i u. cbn. rewrite lookup_insert_Some.
      intros [[<- <-]|[_ Hu]]; [done|by apply (inv_keyed _ Hinv)].
    + apply (persist_synced t (enqueue (t_id t) (w_q w))). done.
  - destruct (next_task_spec _ _ _ Hn) as (_ & Htasks & Hdisk & _).
    unfold synced. by rewrite Htasks, Hdisk.
  - destruct (next_task_spec _ _ _ Hn) as (_ & Htasks & Hdisk & _).
    unfold begin_execute in Hb. destruct (q_tasks q !! id) as [u|] eqn:Hu; [|done].
    injection Hb as <- <-. rewrite Htasks in Hu. pose proof (inv_keyed _ Hinv _ _ Hu) as Hid.
    rewrite <-Hid. apply (persist_synced (set_started now (set_status StatusRunning u)) q).
    unfold synced. by rewrite Htasks, Hdisk.
  - destruct Hsync as [Hh Hs]. split; [done|]. intros id u. cbn. rewrite Hs. unfold on_disk. cbn.
    by rewrite lookup_insert_ne by auto with go.
  - rewrite publish_queue in Hpub by done. injection Hpub as _ <-.
    by apply (persist_synced (publish_into dst work)).
  - unfold end_execute, finish in Hend. case_match;
      rewrite publish_queue in Hend by done; injection Hend as _ <-;
      by apply (persist_synced (publish_into dst _)).
  - destruct Hsync as [Hh Hs']. destruct (start_healthy _ _ _ Hh Hs) as [d' Ho].
    by eapply Open_synced; [apply (inv_named _ Hinv)|done|].
Qed.

(** The states reachable from a directory that never fails. *)
Inductive calm_reachable : World → Prop :=
  | calm_start keep d q :
      healthy d → disk_named d → starts keep d q → calm_reachable (mkWorld q None ∅)
  | calm_step w w' : calm_reachable w → step w w' → calm_reachable w'.

Lemma calm_inv w : calm_reachable w → queue_inv w ∧ synced (w_q w).
Proof.
  induction 1 as [keep d q Hh Hd Hs|w w' _ [Hinv Hsync] Hstep].
  - split; [by eapply inv_open|]. destruct (start_healthy _ _ _ Hh Hs) as [d' Ho].
    by eapply Open_synced.
  - split; [by eapply inv_step|by eapply step_synced].
Qed.
End calm.
End steps.
