(* ===== verification/QueueTheorems.v ===== *)
(** What the task queue (internal/tasks/queue.go) guarantees: the resume
    contract, retention, the settling of tasks, the draining worker, the
    listing's pagination and the log cursor. *)

From S2P Require Import Prelude GoStrings Taxonomy Tasks Disk TaskQueue TaskCodecRef QueueSafety.

Section theorems.
Context `{GoRuntime, TaskCodec}.

(** C3: no task is ever left orphaned. Whatever interleaving of creations, runs,
    interruptions, disk faults and restarts led here, every active task is
    either waiting exactly once for the worker, being run, or left running on
    disk by an interruption; and what waits is pending, known, and within the
    channel's capacity. *)
Theorem no_orphan w (Hr : reachable w) :
  NoDup (waiting (w_q w)) ∧
  (length (q_pending (w_q w)) ≤ pendingCapacity)%nat ∧
  (∀ id, id ∈ waiting (w_q w) →
    ∃ t, q_tasks (w_q w) !! id = Some t ∧ t_status t = StatusPending) ∧
  (∀ id t, q_tasks (w_q w) !! id = Some t → Active t = true →
    (t_status t = StatusPending ∧ id ∈ waiting (w_q w)) ∨
    (t_status t = StatusRunning ∧ (w_exec w = Some t ∨ id ∈ w_left w))).
Proof.
  apply reachable_inv in Hr as [Hk Hd Hc Ho Hw He Hl Hp Hrun].
  split; [done|]. split; [done|]. split; [done|].
  intros id t Ht [Hs|Hs]%Active_status; eauto.
Qed.

(** C4: a restart loses nothing. From any state reached over a disk that does
    not fail, even in the middle of a run, opening the directory again succeeds;
    every active task comes back pending and marked resumed, the backlog holds
    exactly those tasks, once each, oldest first, and no finished task is
    altered. *)
Theorem restart_recovers w keep
    (Hmarshal : ∀ t, is_Some (marshal t)) (Hr : calm_reachable w) :
  ∃ q d', Open keep (q_disk (w_q w)) = (Ok q, d') ∧
    (∀ id t, q_tasks (w_q w) !! id = Some t → Active t = true →
      q_tasks q !! id = Some (set_resumed true (set_status StatusPending t))) ∧
    NoDup (q_resuming q) ∧
    (∀ id, id ∈ q_resuming q ↔ ∃ t, q_tasks (w_q w) !! id = Some t ∧ Active t = true) ∧
    Sorted (λ a b, created_of (q_tasks q) a ≤ created_of (q_tasks q) b)%Z (q_resuming q) ∧
    (∀ id t, q_tasks q !! id = Some t → Active t = false → q_tasks (w_q w) !! id = Some t).
Proof.
  apply (calm_inv Hmarshal) in Hr as [Hinv [Hh Hs]].
  destruct (Open_healthy keep _ Hh) as (q & d' & Ho & _). exists q, d'. split; [done|].
  destruct (Open_synced Hmarshal _ _ _ _ (inv_named _ Hinv) Hh Ho)
    as (_ & Hfrom & Hto & Hnd & Hres & Hsort).
  split; [|split; [done|split; [|split; [done|]]]].
  - intros id t Ht Ha. rewrite Hs in Ht. rewrite (Hto id t Ht (or_introl Ha)).
    unfold reload. by rewrite Ha.
  - intros id. rewrite Hres. by setoid_rewrite Hs.
  - intros id t Ht Ha. destruct (Hfrom id t Ht) as (u & Hu & ->). rewrite Hs.
    unfold reload in *. by destruct (Active u).
Qed.

(** ** Retention *)

Lemma finished_nodup q : keyed q → NoDup (finished_tasks q).
Proof.
  intros Hk. unfold finished_tasks. rewrite sort_slice_perm. apply NoDup_filter.
  rewrite map_values_perm. apply (NoDup_fmap_1 t_id). rewrite <-list_fmap_compose.
  assert (∀ p, p ∈ map_to_list (q_tasks q) → (t_id ∘ snd) p = p.1) as Heq.
  { intros [k t] Hp%elem_of_map_to_list. by apply Hk. }
  rewrite (list_fmap_ext (t_id ∘ snd) fst); [apply NoDup_fst_map_to_list|].
  intros i p Hp. apply Heq. by eapply list_elem_of_lookup_2.
Qed.

Lemma finished_split q :
  (0 < q_keepFinished q)%Z →
  finished_tasks q = take (Z.to_nat (q_keepFinished q)) (finished_tasks q) ++ purged q.
Proof.
  intros Hpos. unfold purged. rewrite (proj2 (Z.leb_gt _ _)) by lia. case_match eqn:Hle.
  - apply Z.leb_le in Hle. rewrite app_nil_r, take_ge; [done|lia].
  - by rewrite take_drop.
Qed.

Lemma finished_after_purge q :
  keyed q → (0 < q_keepFinished q)%Z →
  finished_tasks (purgeFinished q) ≡ₚ take (Z.to_nat (q_keepFinished q)) (finished_tasks q).
Proof.
  intros Hk Hpos. pose proof (finished_nodup q Hk) as Hnd. pose proof (finished_split q Hpos) as Hsplit.
  rewrite Hsplit in Hnd. apply NoDup_app in Hnd as (Hnd1 & Hdis & _).
  apply NoDup_Permutation; [|done|].
  { apply finished_nodup. intros id t Ht%purgeFinished_sub. by apply Hk. }
  intros t. rewrite elem_of_finished_tasks. split.
  - intros (Ha & id & Ht). rewrite purgeFinished_lookup in Ht. case_decide as Hp; [done|].
    assert (t ∈ finished_tasks q) as Hin by (apply elem_of_finished_tasks; eauto).
    rewrite Hsplit, elem_of_app in Hin. destruct Hin as [?|Hin]; [done|]. exfalso. apply Hp.
    rewrite <-(Hk _ _ Ht). by apply list_elem_of_fmap_2.
  - intros Hin. assert (t ∈ finished_tasks q) as Hf by (rewrite Hsplit, elem_of_app; auto).
    apply elem_of_finished_tasks in Hf as (Ha & id & Ht). split; [done|]. exists id.
    rewrite purgeFinished_lookup, decide_False; [done|]. intros (u & Hid & Hu)%list_elem_of_fmap.
    assert (u = t) as ->; [|by apply (Hdis t)].
    apply purged_finished, elem_of_finished_tasks in Hu as (_ & id' & Hu).
    pose proof (Hk _ _ Hu). pose proof (Hk _ _ Ht). congruence.
Qed.

Lemma remove_files_gone l d t :
  healthy d → t ∈ l →
  let d' := fold_left (λ d t, remove_files t d) l d in
  d_files d' !! json_name (t_id t) = None ∧ d_files d' !! log_name (t_id t) = None.
Proof.
  cbn. revert d. induction l as [|u l IH]; intros d Hh Hin; [by apply elem_of_nil in Hin|]. cbn.
  destruct (remove_files_healthy u d Hh) as [Hh' _].
  apply elem_of_cons in Hin as [->|Hin]; [|by apply IH].
  assert (d_files (remove_files u d) !! json_name (t_id u) = None ∧
          d_files (remove_files u d) !! log_name (t_id u) = None) as [Hj Hl].
  { unfold remove_files.
    destruct (remove_healthy (json_name (t_id u)) d Hh) as [Hr1 Hh1].
    pose proof (remove_spec (json_name (t_id u)) d) as Hs1.
    destruct (remove (json_name (t_id u)) d) as [r1 d1]. cbn in *.
    destruct (remove_healthy (log_name (t_id u)) d1 Hh1) as [Hr2 _].
    pose proof (remove_spec (log_name (t_id u)) d1) as Hs2.
    destruct (remove (log_name (t_id u)) d1) as [r2 d2]. cbn in *.
    destruct Hs1 as (_ & _ & Hn1 & _), Hs2 as (Ho2 & _ & Hn2 & _). split; [|by apply Hn2].
    rewrite Ho2; [by apply Hn1|]. intros ?. by eapply log_not_json. }
  pose proof (fold_remove_files_subset l (remove_files u d)) as Hsub.
  split; (eapply lookup_weaken_None; [|exact Hsub]); done.
Qed.

(** Retention is safe and effective. A purge keeps every active task and
    alters no task it keeps; with a bound it leaves exactly the bound (or all,
    when fewer) of the finished tasks, none of which is older than a task it
    dropped, and the files of what it dropped are gone. *)
Theorem purge_keeps_recent q (Hk : keyed q) (Hh : healthy (q_disk q)) :
  let q' := purgeFinished q in
  (∀ id t, q_tasks q !! id = Some t → Active t = true → q_tasks q' !! id = Some t) ∧
  (∀ id t, q_tasks q' !! id = Some t → q_tasks q !! id = Some t) ∧
  (if decide (0 < q_keepFinished q)%Z
   then Z.of_nat (length (finished_tasks q')) =
          Z.min (q_keepFinished q) (Z.of_nat (length (finished_tasks q)))
   else q' = q) ∧
  (∀ id t, q_tasks q !! id = Some t → q_tasks q' !! id = None →
    d_files (q_disk q') !! json_name id = None ∧ d_files (q_disk q') !! log_name id = None ∧
    ∀ u, u ∈ finished_tasks q' → (t_created t ≤ t_created u)%Z).
Proof.
  cbn. split; [|split; [|split]].
  - intros id t Ht Ha. by apply purgeFinished_active.
  - apply purgeFinished_sub.
  - case_decide as Hpos.
    + rewrite (finished_after_purge q Hk Hpos), length_take. lia.
    + unfold purgeFinished. by rewrite (proj2 (Z.leb_le _ _)) by lia.
  - intros id t Ht. rewrite purgeFinished_lookup. case_decide as Hp; [intros _|congruence].
    apply list_elem_of_fmap in Hp as (u & -> & Hu). assert (u = t) as ->.
    { pose proof (purged_finished q u Hu) as (_ & id' & Hu')%elem_of_finished_tasks.
      pose proof (Hk _ _ Hu'). congruence. }
    assert (0 < q_keepFinished q)%Z as Hpos.
    { unfold purged in Hu. case_match eqn:E; [by apply elem_of_nil in Hu|]. by apply Z.leb_gt in E. }
    rewrite purgeFinished_eq at 1 2. cbn.
    destruct (remove_files_gone (purged q) (q_disk q) t Hh Hu) as [Hj Hl].
    split; [exact Hj|]. split; [exact Hl|]. intros v Hv.
    rewrite (finished_after_purge q Hk Hpos) in Hv.
    assert (t ∈ drop (Z.to_nat (q_keepFinished q)) (finished_tasks q)) as Hd.
    { unfold purged in Hu. by repeat case_match; [apply elem_of_nil in Hu|apply elem_of_nil in Hu|]. }
    pose proof (sort_slice_split _ _ _ v t (strict_weak_Zgt t_created) Hv Hd) as Hlt.
    cbn in Hlt. apply Z.ltb_ge in Hlt. done.
Qed.

(** ** Running a task *)

Lemma run_saves_spec saves dst q :
  let '(dst', q') := run_saves_on saves dst q in
  t_id dst' = t_id dst ∧ t_pruned dst' = t_pruned dst ∧ q_runners q' = q_runners q ∧
  (q_tasks q !! t_id dst = Some dst → q_tasks q' !! t_id dst = Some dst').
Proof.
  unfold run_saves_on. revert dst q. induction saves as [|s saves IH]; intros dst q; cbn; [done|].
  specialize (IH (publish_into dst s) (persist (publish_into dst s) (store_task (publish_into dst s) q))).
  destruct (fold_left _ saves _) as [dst' q']. destruct IH as (-> & -> & -> & IH).
  split; [done|]. split; [done|]. split; [done|]. intros Hq. apply IH. cbn. rewrite Hq.
  by rewrite lookup_insert_eq.
Qed.

Lemma publish_lookup dst src q :
  q_tasks q !! t_id dst = Some dst →
  q_tasks (publish dst src q).2 !! t_id dst = Some (publish_into dst src).
Proof. intros Hq. cbn. by rewrite Hq, lookup_insert_eq. Qed.

Lemma settle_spec work te now :
  let t := settle work te now in
  t_finished t = now ∧
  t_error t = (match te with Some _ => FromTaxonomy te | None => t_error work end) ∧
  (t_status t = StatusFailed ↔ is_Some te ∨ ∃ it, it ∈ t_items work ∧ it_status it = StatusFailed) ∧
  (t_status t ≠ StatusFailed → t_status t = StatusDone).
Proof.
  cbn. unfold settle. split; [done|]. split; [by destruct te|]. cbn.
  assert (ag_failed (Aggregate match te with Some _ => set_error (FromTaxonomy te) work | None => work end)
    = ag_failed (Aggregate work)) as -> by by destruct te.
  rewrite <-Aggregate_failed. destruct te as [e|].
  { rewrite bool_decide_eq_true_2 by eauto. cbn. split; [split; [by eauto|done]|done]. }
  rewrite bool_decide_eq_false_2 by by intros []. cbn.
  destruct (0 <? _)%Z eqn:E; [apply Z.ltb_lt in E|apply Z.ltb_ge in E]; (split; [split|done]); try done.
  - by right.
  - intros [[]|?]; [done|lia].
Qed.

Lemma internal_error_Some cause :
  internal_error cause = Some (mkTaxError CodeInternal ∅ "" (Some cause)).
Proof. vm_compute. reflexivity. Qed.

(** C10: how a run ends decides the task, on every path. An interrupted run
    leaves the task as the runner left it; otherwise the task is failed exactly
    when the runner returned an error or panicked or some item failed, done in
    every other case; a panic, an untyped error and a missing runner are recorded
    under the internal code, a typed error under its own. *)
Theorem execute_settles id t started finished q
    (Ht : q_tasks q !! id = Some t) (Hid : t_id t = id) :
  let t0 := set_started started (set_status StatusRunning t) in
  ∃ t', q_tasks (execute id started finished q) !! id = Some t' ∧
    match q_runners q !! t_type t with
    | None => t_status t' = StatusFailed ∧ (ie_code <$> t_error t') = Some CodeInternal
    | Some r =>
        let run := r t0 in
        if interrupted (run_end run)
        then t_status t' = t_status (run_final run) ∧ t_error t' = t_error (run_final run)
        else
          t_finished t' = finished ∧
          t_items t' = t_items (run_final run) ∧
          (t_status t' = StatusFailed ↔
            run_end run ≠ Returned None ∨
            ∃ it, it ∈ t_items (run_final run) ∧ it_status it = StatusFailed) ∧
          (t_status t' ≠ StatusFailed → t_status t' = StatusDone) ∧
          (ie_code <$> t_error t') =
            match run_end run with
            | Returned None => ie_code <$> t_error (run_final run)
            | Returned (Some e) =>
                Some (match ge_tax e with Some te => te_code te | None => CodeInternal end)
            | Panicked _ => Some CodeInternal
            end
    end.
Proof.
  cbn. unfold execute, begin_execute. rewrite Ht. set (t0 := set_started _ _).
  assert (clone t0 = t0) as -> by done. set (q0 := persist t0 _).
  assert (q_tasks q0 !! t_id t0 = Some t0) as Hq0.
  { cbn. rewrite Hid. by rewrite lookup_insert_eq. }
  assert (t_id t0 = id) as Hid0 by done.
  change (q_runners q0) with (q_runners q). change (t_type t0) with (t_type t).
  destruct (q_runners q !! t_type t) as [r|].
  - pose proof (run_saves_spec (run_saves (r t0)) t0 q0) as Hs.
    destruct (run_saves_on (run_saves (r t0)) t0 q0) as [dst q1].
    destruct Hs as (Hdid & _ & _ & Hs). specialize (Hs Hq0).
    unfold end_execute. fold (interrupted (run_end (r t0))).
    assert (∀ src, q_tasks (publish dst src q1).2 !! id = Some (publish_into dst src)) as Hpub.
    { intros src. rewrite <-Hid0, <-Hdid. apply publish_lookup. by rewrite Hdid. }
    destruct (interrupted (run_end (r t0))) eqn:Hi; [by rewrite Hpub; eexists|].
    unfold finish. rewrite Hpub. eexists. split; [done|].
    pose proof (settle_spec (run_final (r t0)) (task_error (runProtected (run_end (r t0)))) finished)
      as (Hf & He & Hst & Hdone). split; [done|]. split; [unfold settle; by destruct (task_error _)|].
    change (t_status (publish_into dst ?s)) with (t_status s).
    change (t_error (publish_into dst ?s)) with (t_error s). split; [|split; [done|]].
    + rewrite Hst. apply or_iff_compat_r.
      destruct (run_end (r t0)) as [[e|]|msg]; cbn; rewrite ?internal_error_Some.
      * split; [done|]. intros _. destruct (ge_tax e); rewrite ?internal_error_Some; eauto.
      * split; [by intros []|done].
      * split; [done|eauto].
    + rewrite He. destruct (run_end (r t0)) as [[e|]|msg]; cbn; rewrite ?internal_error_Some; [|done|done].
      destruct (ge_tax e); rewrite ?internal_error_Some; done.
  - unfold finish. rewrite internal_error_Some. eexists.
    split; [rewrite <-Hid0; by apply (publish_lookup t0)|]. split; [|done].
    change (t_status (publish_into t0 ?s)) with (t_status s).
    apply (settle_spec t0). eauto.
Qed.

(** ** Draining *)

(** Every registered runner comes to an end that is not an interruption. *)
Definition settling (q : Queue) : Prop :=
  ∀ ty r work, q_runners q !! ty = Some r → t_status work = StatusRunning →
    Forall (λ s, t_status s = StatusRunning) (run_saves (r work)) ∧
    t_status (run_final (r work)) = StatusRunning ∧
    interrupted (run_end (r work)) = false.

Lemma saves_inv saves dst q left :
  Forall (λ s, t_status s = StatusRunning) saves →
  queue_inv (mkWorld q (Some dst) left) →
  let '(dst', q') := run_saves_on saves dst q in
  queue_inv (mkWorld q' (Some dst') left) ∧ waiting q' = waiting q ∧ q_runners q' = q_runners q.
Proof.
  unfold run_saves_on. revert dst q. induction saves as [|s saves IH]; intros dst q Hf Hinv; cbn; [done|].
  apply Forall_cons in Hf as [Hs Hf].
  specialize (IH _ (publish dst s q).2 Hf
    (inv_step _ _ Hinv (step_save (mkWorld q (Some dst) left) dst s _ _ eq_refl Hs
      (surjective_pairing _)))).
  cbn in IH. destruct (fold_left _ saves _) as [dst' q']. destruct IH as (? & -> & ->). done.
Qed.

Lemma execute_inv q id q1 started finished :
  settling q → queue_inv (mkWorld q None ∅) → next_task q = Some (id, q1) →
  queue_inv (mkWorld (execute id started finished q1) None ∅) ∧
  waiting (execute id started finished q1) = waiting q1 ∧
  q_runners (execute id started finished q1) = q_runners q.
Proof.
  intros Hset Hinv Hn. destruct (next_task_spec _ _ _ Hn) as (Hwait & Htasks & _ & _).
  assert (q_runners q1 = q_runners q) as Hrun1.
  { unfold next_task, nextResuming in Hn.
    destruct (q_resuming q); [destruct (q_pending q)|]; by simplify_eq/=. }
  destruct (inv_waiting _ Hinv id) as (u & Hu & Hs); [cbn; rewrite Hwait; left|]. cbn in Hu.
  rewrite <-Htasks in Hu. unfold execute, begin_execute. rewrite Hu.
  set (t := set_started started (set_status StatusRunning u)).
  set (q2 := persist t (with_tasks (<[id := t]>) q1)).
  assert (queue_inv (mkWorld q2 (Some t) ∅)) as Hinv2.
  { eapply (inv_begin (mkWorld q None ∅) id q1 started); [done|done|done|].
    unfold begin_execute. by rewrite Hu. }
  change (clone t) with t. assert (q_runners q2 = q_runners q) as Hrun2 by done.
  assert (waiting q2 = waiting q1) as Hw2 by done. clearbody q2. rewrite Hrun2.
  destruct (q_runners q !! t_type t) as [r|] eqn:Hr.
  - destruct (Hset _ _ t Hr eq_refl) as (Hsaves & Hfin & Hint).
    pose proof (saves_inv _ t q2 ∅ Hsaves Hinv2) as Hsv.
    destruct (run_saves_on (run_saves (r t)) t q2) as [dst q3]. destruct Hsv as (Hinv3 & Hw3 & Hr3).
    pose proof (inv_step _ _ Hinv3 (step_end (mkWorld q3 (Some dst) ∅) dst (run_final (r t))
      (run_end (r t)) finished _ _ eq_refl Hfin (surjective_pairing _))) as Hinv4.
    rewrite Hint in Hinv4. split; [exact Hinv4|]. unfold end_execute, finish, publish. cbn.
    case_match; cbn; split; try (rewrite <-Hw2, <-Hw3; done); congruence.
  - pose proof (inv_step _ _ Hinv2 (step_end (mkWorld q2 (Some t) ∅) t t
      (Returned (Some (mkGoErr false (internal_error ("no runner for task type " +:+ quoted (t_type t))) "")))
      finished _ _ eq_refl eq_refl (surjective_pairing _))) as Hinv4.
    cbn in Hinv4. unfold end_execute in Hinv4. cbn in Hinv4. rewrite internal_error_Some in *.
    cbn in Hinv4. split; [exact Hinv4|]. cbn. split; [by rewrite <-Hw2|done].
Qed.

(** The worker drains the queue. If every runner comes to an end, as many
    turns of the worker as there are waiting tasks leave nothing waiting and no
    task active: each one is settled. *)
Theorem worker_drains q clock fuel
    (Hr : reachable (mkWorld q None ∅)) (Hset : settling q)
    (Hfuel : (length (waiting q) ≤ fuel)%nat) :
  waiting (worker fuel clock q) = [] ∧ ActiveCount (worker fuel clock q) = 0%Z.
Proof.
  apply reachable_inv in Hr as Hinv. clear Hr.
  revert q Hinv Hset Hfuel. induction fuel as [|fuel IH]; intros q Hinv Hset Hfuel.
  all: assert (waiting q = [] → waiting q = [] ∧ ActiveCount q = 0%Z) as Hend.
  1,3: intros Hw; split; [done|]; unfold ActiveCount;
    destruct (filter _ _) as [|t l] eqn:E; [done|]; exfalso;
    assert (t ∈ filter (λ t, Active t = true) (map_values (q_tasks q))) as Hin by (rewrite E; left);
    apply list_elem_of_filter in Hin as [[Hs|Hs]%Active_status [id Ht]%elem_of_map_values];
    [apply (inv_pending _ Hinv _ _ Ht) in Hs; cbn in Hs; rewrite Hw in Hs; by apply elem_of_nil in Hs
    |destruct (inv_running _ Hinv _ _ Ht Hs) as [?|Hl]; [done|by apply elem_of_empty in Hl]].
  - apply Hend. by apply nil_length_inv; lia.
  - cbn [worker]. destruct (next_task q) as [[id q1]|] eqn:Hn.
    + destruct (next_task_spec _ _ _ Hn) as (Hwait & _).
      destruct (execute_inv q id q1 (clock (2 * fuel + 1)) (clock (2 * fuel)) Hset Hinv Hn)
        as (Hinv' & Hw' & Hr').
      apply IH; [exact Hinv'|unfold settling; rewrite Hr'; exact Hset|].
      rewrite Hw'. rewrite Hwait in Hfuel. cbn in Hfuel. lia.
    + apply Hend. unfold next_task, nextResuming in Hn. unfold waiting.
      destruct (q_resuming q); [by destruct (q_pending q)|done].
Qed.

(** What a run pruned is never recorded. Whatever rows the runner of a task
    adds to its report of pruned content, the published task still carries the
    rows it had before the run: publishing copies the items, the chart
    dependencies and the resolutions, and not this report. *)
Theorem pruned_report_lost id t started finished q
    (Ht : q_tasks q !! id = Some t) (Hid : t_id t = id) :
  ∃ t', q_tasks (execute id started finished q) !! id = Some t' ∧ t_pruned t' = t_pruned t.
Proof.
  unfold execute, begin_execute. rewrite Ht. set (t0 := set_started _ _). set (q0 := persist t0 _).
  assert (q_tasks q0 !! t_id t0 = Some t0) as Hq0.
  { cbn. rewrite Hid. by rewrite lookup_insert_eq. }
  assert (t_id t0 = id) as Hid0 by done.
  destruct (q_runners q0 !! t_type t0) as [r|].
  - change (clone t0) with t0. pose proof (run_saves_spec (run_saves (r t0)) t0 q0) as Hs.
    destruct (run_saves_on (run_saves (r t0)) t0 q0) as [dst q1].
    destruct Hs as (Hdid & Hpr & _ & Hs). specialize (Hs Hq0).
    assert (∀ src, q_tasks (publish dst src q1).2 !! id = Some (publish_into dst src)) as Hpub.
    { intros src. rewrite <-Hid0, <-Hdid. apply publish_lookup. by rewrite Hdid. }
    unfold end_execute, finish. case_match; rewrite Hpub; eexists; (split; [done|]); exact Hpr.
  - eexists. split; [rewrite <-Hid0; by apply (publish_lookup t0)|reflexivity].
Qed.
End theorems.

(** * Pagination *)

Lemma paginate_in_range total page :
  (0 ≤ total)%Z → (total + 25 ≤ int64_max)%Z → (1 ≤ page)%Z → (page * 25 ≤ int64_max)%Z →
  paginate total page ListPageSize =
    (Z.min ((page - 1) * 25) total, Z.min (page * 25) total, Z.max 1 ((total + 24) `div` 25)).
Proof.
  unfold int64_max. intros Ht Hmax Hp Hpm. unfold paginate, ListPageSize, quot64, sub64, add64, mul64.
  rewrite (proj2 (Z.ltb_ge page 1)) by lia.
  rewrite (wrap64_id (total + 25)) by (unfold is_int64, int64_min, int64_max; lia).
  rewrite (wrap64_id (total + 25 - 1)) by (unfold is_int64, int64_min, int64_max; lia).
  rewrite (wrap64_id (page - 1)) by (unfold is_int64, int64_min, int64_max; lia).
  rewrite (wrap64_id ((page - 1) * 25)) by (unfold is_int64, int64_min, int64_max; lia).
  rewrite (wrap64_id ((page - 1) * 25 + 25)) by (unfold is_int64, int64_min, int64_max; lia).
  rewrite Z.quot_div_nonneg by lia. replace (total + 25 - 1)%Z with (total + 24)%Z by lia.
  pose proof (Z.div_pos (total + 24) 25 ltac:(lia) ltac:(lia)).
  pose proof (Z.div_le_upper_bound (total + 24) 25 (total + 24) ltac:(lia) ltac:(lia)).
  rewrite (wrap64_id ((total + 24) `div` 25)) by (unfold is_int64, int64_min, int64_max; lia).
  destruct (Z.eqb_spec ((total + 24) `div` 25) 0); destruct (Z.ltb_spec total ((page - 1) * 25));
    repeat f_equal; lia.
Qed.

Definition with_page (p : Z) (lq : ListQuery) : ListQuery :=
  mkListQuery (lq_q lq) (lq_status lq) (lq_type lq) p.

Lemma slice_window {A} (l : list A) p : (1 ≤ p)%Z →
  slice l (Z.min ((p - 1) * 25) (Z.of_nat (length l))) (Z.min (p * 25) (Z.of_nat (length l))) =
    Some (take 25 (drop (Z.to_nat (p - 1) * 25) l)).
Proof.
  intros Hp. unfold slice. rewrite !(proj2 (Z.leb_le _ _)) by lia. cbn. f_equal.
  destruct (decide (Z.of_nat (length l) ≤ (p - 1) * 25)%Z).
  - rewrite !drop_ge by lia. by rewrite !take_nil.
  - replace (Z.to_nat (Z.min ((p - 1) * 25) (Z.of_nat (length l)))) with (Z.to_nat (p - 1) * 25) by lia.
    destruct (decide (p * 25 ≤ Z.of_nat (length l))%Z).
    + f_equal. lia.
    + rewrite !take_ge; [done|rewrite length_drop; lia|rewrite length_drop; lia].
Qed.

Lemma ListPage_window `{GoRuntime} lq q :
  let matched := List (lq_status lq) (lq_type lq) (lq_q lq) q in
  let total := Z.of_nat (length matched) in
  (total + 25 ≤ int64_max)%Z → (1 ≤ lq_page lq)%Z → (lq_page lq * 25 ≤ int64_max)%Z →
  ListPage lq q =
    Some (mkTaskPage (take 25 (drop (Z.to_nat (lq_page lq - 1) * 25) matched)) total (lq_page lq)
            (Z.max 1 ((total + 24) `div` 25))).
Proof.
  cbn. intros Ht Hp Hpm. unfold ListPage. rewrite paginate_in_range by (try done; lia). by rewrite slice_window.
Qed.

Lemma concat_windows {A} (l : list A) k n :
  concat ((λ i, take k (drop (i * k) l)) <$> seq 0 n) = take (n * k) l.
Proof.
  induction n as [|n IH]; [done|].
  rewrite seq_S, fmap_app, concat_app, IH. cbn. rewrite app_nil_r.
  replace (k + n * k) with (n * k + k) by lia. apply list_eq. intros i.
  destruct (decide (i < n * k)).
  - destruct (decide (i < length l)).
    + rewrite lookup_app_l by (rewrite length_take; lia). by rewrite !lookup_take_lt by lia.
    + rewrite (lookup_ge_None_2 (_ ++ _)), (lookup_ge_None_2 (take _ _)); [done| |];
        rewrite ?length_app, !length_take, ?length_drop; lia.
  - destruct (decide (n * k < length l)).
    + rewrite lookup_app_r by (rewrite length_take; lia). rewrite length_take.
      destruct (decide (i < n * k + k)).
      * rewrite !lookup_take_lt, lookup_drop by lia. f_equal. lia.
      * rewrite !(lookup_ge_None_2 (take _ _)); [done| |]; rewrite !length_take, ?length_drop; lia.
    + rewrite !(lookup_ge_None_2 _); [done| |]; rewrite ?length_app, !length_take, ?length_drop; lia.
Qed.

(** Windows of the page size, up to the announced count, are the whole. *)
Lemma windows_cover {A} (l : list A) (f : Z → option (list A)) :
  (Z.of_nat (length l) + 50 ≤ int64_max)%Z →
  (∀ p, (1 ≤ p)%Z → (p * 25 ≤ int64_max)%Z → f p = Some (take 25 (drop (Z.to_nat (p - 1) * 25) l))) →
  let n := Z.to_nat (Z.max 1 ((Z.of_nat (length l) + 24) `div` 25)) in
  (∀ p, (1 ≤ p)%Z → (p * 25 ≤ int64_max)%Z →
    ∃ rows, f p = Some rows ∧ length rows ≤ 25 ∧ ((Z.of_nat n < p)%Z → rows = [])) ∧
  ∃ pages, mapM (λ i, f (Z.of_nat (S i))) (seq 0 n) = Some pages ∧ concat pages = l.
Proof.
  intros Hsize Hwin n. set (total := Z.of_nat (length l)) in *.
  pose proof (Z.div_mod (total + 24) 25 ltac:(lia)). pose proof (Z.mod_pos_bound (total + 24) 25 ltac:(lia)).
  split.
  - intros p Hp Hpm. rewrite Hwin by done. eexists. split; [done|]. split; [rewrite length_take; lia|].
    intros Hlt. rewrite drop_ge; [by rewrite take_nil|]. lia.
  - exists ((λ i, take 25 (drop (i * 25) l)) <$> seq 0 n). split; [|rewrite concat_windows; apply take_ge; lia].
    apply mapM_Some. apply Forall2_fmap_r, Forall_Forall2_diag, Forall_seq. intros i Hi.
    rewrite Hwin by (unfold int64_max in *; lia). do 3 f_equal. lia.
Qed.

(** The pages of a listing are the listing. Asking for the pages 1 to the
    announced count, each answers, holds at most the page size, and together, in
    order, they are exactly the matching tasks, newest first; a later page whose
    offset is still an integer is empty. *)
Theorem pages_cover `{GoRuntime} lq q
    (Hsize : (Z.of_nat (length (List (lq_status lq) (lq_type lq) (lq_q lq) q)) + 50 ≤ int64_max)%Z) :
  let matched := List (lq_status lq) (lq_type lq) (lq_q lq) q in
  ∃ n pages,
    (∀ p, (1 ≤ p)%Z → (p * 25 ≤ int64_max)%Z →
      ∃ page, ListPage (with_page p lq) q = Some page ∧ tp_total_pages page = Z.of_nat n ∧
        length (tp_tasks page) ≤ 25 ∧ ((Z.of_nat n < p)%Z → tp_tasks page = [])) ∧
    mapM (λ i, tp_tasks <$> ListPage (with_page (Z.of_nat (S i)) lq) q) (seq 0 n) = Some pages ∧
    concat pages = matched.
Proof.
  cbn. set (matched := List _ _ _ q) in *. set (total := Z.of_nat (length matched)) in *.
  assert (∀ p, (1 ≤ p)%Z → (p * 25 ≤ int64_max)%Z → ListPage (with_page p lq) q =
    Some (mkTaskPage (take 25 (drop (Z.to_nat (p - 1) * 25) matched)) total p
            (Z.max 1 ((total + 24) `div` 25)))) as Hwin.
  { intros p Hp Hpm. apply (ListPage_window (with_page p lq) q); cbn; [|done|done].
    change (total + 25 ≤ int64_max)%Z. lia. }
  destruct (windows_cover matched (λ p, tp_tasks <$> ListPage (with_page p lq) q)) as [Hrows (pages & Hpages & Hall)].
  - done.
  - intros p Hp Hpm. by rewrite Hwin.
  - eexists _, pages. split; [|by split]. intros p Hp Hpm. destruct (Hrows p Hp Hpm) as (rows & Er & Hlen & Hend).
    rewrite Hwin in Er |- * by done. eexists. split; [done|]. injection Er as <-. cbn. split; [fold total; lia|done].
Qed.

(** A page number too large makes the listing panic. The offset of a page is
    computed modulo 2^64: the page below, a number the query parser accepts, gets
    a negative offset, and slicing panics, where the listing promises an empty
    window and never an error. *)
Theorem ListPage_overflow `{GoRuntime} lq q :
  ListPage (with_page 368934881474191034 lq) q = None.
Proof.
  unfold ListPage. cbn [lq_status lq_type lq_q lq_page with_page].
  set (total := Z.of_nat (length _)). unfold paginate.
  change (368934881474191034 <? 1)%Z with false. cbv iota.
  replace (mul64 (sub64 368934881474191034 1) ListPageSize) with (-9223372036854775791)%Z by by vm_compute.
  rewrite (proj2 (Z.ltb_ge _ _)) by lia. unfold slice. by rewrite (proj2 (Z.leb_gt 0 _)) by lia.
Qed.

(** Following a log by its cursor reads it exactly once. Reading from the
    cursor a read returned, after the log grew, yields precisely what was added
    since. *)
Theorem ReadLog_follow id s added d1 d2
    (Hsize : (Z.of_nat (slen (s +:+ added)) ≤ int64_max)%Z)
    (Hne : s ≠ "") (H1 : d_files d1 !! log_name id = Some s) (Hh1 : healthy d1)
    (H2 : d_files d2 !! log_name id = Some (s +:+ added)) (Hh2 : healthy d2) :
  ∃ cursor, ReadLog id 0 d1 = Some (s, cursor) ∧
    ReadLog id cursor d2 = Some (added, Z.of_nat (slen (s +:+ added))).
Proof.
  rewrite slen_app in *. unfold int64_max in Hsize.
  assert (∀ d x, healthy d → d_files d !! log_name id = Some x →
    (read_file (log_name id) d).1 = Contents x) as Hread.
  { intros d x Hh Hx. unfold read_file, next_fault. rewrite Hh. by rewrite Hx. }
  exists (Z.of_nat (slen s)). unfold ReadLog. rewrite (Hread _ _ Hh1 H1), (Hread _ _ Hh2 H2). cbn.
  unfold add64. rewrite wrap64_id by (unfold is_int64, int64_min, int64_max; lia). split; [done|].
  rewrite (proj2 (Z.ltb_lt _ _)) by (destruct s; cbn; [done|lia]).
  rewrite Nat2Z.id, sdrop_app_length. rewrite wrap64_id; [repeat f_equal; lia|].
  unfold is_int64, int64_min, int64_max. lia.
Qed.

(** * Concrete runs

    A queue opened on an empty directory, with one task created; the reference
    runtime and codec. *)

Definition demo_disk : Disk := mkDisk ∅ [].
Definition demo_start : Queue :=
  match (Open 1 demo_disk).1 with Ok q => q | Err _ => mkQueue 0 ∅ ∅ [] [] demo_disk end.
Definition demo_queue : Queue :=
  (Create "tsk_1" "run_1" 5 TypeSync "retriever" "alice" [] [WithPrune true] demo_start).2.
Definition demo_task : Task := new_task "tsk_1" "run_1" 5 TypeSync "retriever" "alice" [] [WithPrune true].

Lemma demo_named : disk_named demo_disk.
Proof.
  intros id t (s & Hs & _). change (d_files demo_disk) with (∅ : gmap string string) in Hs.
  by rewrite lookup_empty in Hs.
Qed.

Lemma demo_opens : ∃ d', Open 1 demo_disk = (Ok demo_start, d').
Proof. eexists. vm_compute. reflexivity. Qed.

Lemma demo_created : ∃ t,
  Create "tsk_1" "run_1" 5 TypeSync "retriever" "alice" [] [WithPrune true] demo_start = (Ok t, demo_queue).
Proof. eexists. vm_compute. reflexivity. Qed.

Lemma demo_fresh : q_tasks demo_start !! "tsk_1" = None.
Proof. vm_compute. reflexivity. Qed.

Lemma demo_calm : calm_reachable (mkWorld demo_queue None ∅).
Proof.
  destruct demo_opens as [d' Ho], demo_created as [t Hc].
  eapply (calm_step (mkWorld demo_start None ∅)).
  - exact (calm_start 1 demo_disk demo_start eq_refl demo_named (starts_ok 1 _ _ d' Ho)).
  - exact (step_create (mkWorld demo_start None ∅) _ _ _ _ _ _ _ _ t demo_queue demo_fresh Hc).
Qed.

Lemma demo_reachable : reachable (mkWorld demo_queue None ∅).
Proof.
  destruct demo_opens as [d' Ho], demo_created as [t Hc].
  eapply (reachable_step (mkWorld demo_start None ∅)).
  - exact (reachable_start 1 demo_disk demo_start demo_named (starts_ok 1 _ _ d' Ho)).
  - exact (step_create (mkWorld demo_start None ∅) _ _ _ _ _ _ _ _ t demo_queue demo_fresh Hc).
Qed.

Lemma demo_lookup : q_tasks demo_queue !! "tsk_1" = Some demo_task.
Proof. vm_compute. reflexivity. Qed.

Lemma no_orphan_witness :
  q_tasks demo_queue !! "tsk_1" = Some demo_task ∧
  ((t_status demo_task = StatusPending ∧ "tsk_1" ∈ waiting demo_queue) ∨
   (t_status demo_task = StatusRunning ∧ (None = Some demo_task ∨ "tsk_1" ∈ (∅ : gset string)))).
Proof.
  split; [exact demo_lookup|].
  destruct (no_orphan (mkWorld demo_queue None ∅) demo_reachable) as (_ & _ & _ & Hact).
  exact (Hact "tsk_1" demo_task demo_lookup eq_refl).
Defined.

Lemma restart_recovers_witness :
  ∃ q d', Open 0 (q_disk demo_queue) = (Ok q, d') ∧
    q_tasks q !! "tsk_1" = Some (set_resumed true (set_status StatusPending demo_task)).
Proof.
  destruct (restart_recovers (mkWorld demo_queue None ∅) 0 ref_marshal_total demo_calm)
    as (q & d' & Ho & Hact & _).
  exists q, d'. split; [exact Ho|]. exact (Hact "tsk_1" demo_task demo_lookup eq_refl).
Defined.

(** Three finished tasks under a bound of one. *)
Definition demo_finished (id : string) (created : time) : Task :=
  set_status StatusDone (new_task id "run" created TypeSync "" "" [] []).
Definition demo_history : Queue :=
  mkQueue 1 (<["a" := demo_finished "a" 1]> (<["b" := demo_finished "b" 3]>
    (<["c" := demo_finished "c" 2]> ∅))) ∅ [] [] (mkDisk (<["a.json" := "x"]> ∅) []).

Lemma demo_history_keyed : keyed demo_history.
Proof.
  intros id t Ht. cbn in Ht. rewrite !lookup_insert_Some, lookup_empty in Ht.
  destruct Ht as [[<- <-]|(_ & [[<- <-]|(_ & [[<- <-]|(_ & ?)])])]; done.
Qed.

Lemma purge_keeps_recent_witness :
  Z.of_nat (length (finished_tasks (purgeFinished demo_history))) = 1%Z ∧
  d_files (q_disk (purgeFinished demo_history)) !! json_name "a" = None.
Proof.
  destruct (purge_keeps_recent demo_history demo_history_keyed eq_refl) as (_ & _ & Hn & Hgone).
  split.
  - rewrite decide_True in Hn by reflexivity. rewrite Hn. vm_compute. reflexivity.
  - apply (Hgone "a" (demo_finished "a" 1)); vm_compute; reflexivity.
Defined.

(** A runner that saves once, fails one item and prunes a tag. *)
Definition demo_item : Item := mkItem "linux/amd64" "" 0 StatusFailed None [].
Definition demo_work (t : Task) : Task :=
  mkTask (t_id t) (t_run_id t) (t_type t) (t_reference t) (t_actor t) (t_status t) (t_created t)
    (t_started t) (t_finished t) (t_resumed t) (t_vendor t) (t_layout t) (t_overrides t)
    (t_error t) [demo_item] (t_charts t) (t_prune t) [mkPruned "repo" "v1" "sha256:x" "recipe"]
    (t_resolutions t).
Definition demo_runner : Runner := λ t, mkRun [t] (demo_work t) (Returned None).
Definition demo_running : Queue := Register TypeSync demo_runner demo_queue.

Lemma execute_settles_witness :
  ∃ t', q_tasks (execute "tsk_1" 6 7 demo_running) !! "tsk_1" = Some t' ∧ t_status t' = StatusFailed.
Proof.
  destruct (execute_settles "tsk_1" demo_task 6 7 demo_running demo_lookup eq_refl)
    as (t' & Ht' & Hcase).
  exists t'. split; [exact Ht'|].
  assert (q_runners demo_running !! t_type demo_task = Some demo_runner) as Hr by (vm_compute; reflexivity).
  rewrite Hr in Hcase. cbn in Hcase. destruct Hcase as (_ & _ & Hf & _). apply Hf.
  right. exists demo_item. split; [left|reflexivity].
Defined.

Lemma demo_running_reachable : reachable (mkWorld demo_running None ∅).
Proof.
  eapply reachable_step; [exact demo_reachable|].
  apply (step_register (mkWorld demo_queue None ∅)).
Qed.

Lemma demo_settling : settling demo_running.
Proof.
  assert (q_runners demo_queue = ∅) as He by (vm_compute; reflexivity).
  intros ty r work Hr Hs. cbn in Hr. rewrite He, lookup_insert_Some, lookup_empty in Hr.
  destruct Hr as [[_ <-]|[_ ?]]; [|done]. cbn. auto.
Qed.

Lemma worker_drains_witness :
  waiting demo_running = ["tsk_1"] ∧ ActiveCount (worker 1 Z.of_nat demo_running) = 0%Z.
Proof.
  split; [vm_compute; reflexivity|].
  apply (worker_drains demo_running Z.of_nat 1 demo_running_reachable demo_settling).
  vm_compute. lia.
Defined.

Lemma pruned_report_lost_witness :
  ∃ t', q_tasks (execute "tsk_1" 6 7 demo_running) !! "tsk_1" = Some t' ∧ t_pruned t' = [].
Proof. exact (pruned_report_lost "tsk_1" demo_task 6 7 demo_running demo_lookup eq_refl). Defined.

Lemma pages_cover_witness :
  ∃ n pages,
    mapM (λ i, tp_tasks <$> ListPage (with_page (Z.of_nat (S i)) (mkListQuery "" None TypeSync 1))
      demo_history) (seq 0 n) = Some pages ∧
    concat pages = List None TypeSync "" demo_history.
Proof.
  destruct (pages_cover (mkListQuery "" None TypeSync 1) demo_history) as (n & pages & _ & Hm & Hc).
  - vm_compute. discriminate.
  - exists n, pages. split; [exact Hm|exact Hc].
Defined.

Lemma ReadLog_follow_witness :
  ∃ cursor, ReadLog "t" 0 (mkDisk (<["t.log" := "one"]> ∅) []) = Some ("one", cursor) ∧
    ReadLog "t" cursor (mkDisk (<["t.log" := "one two"]> ∅) []) = Some (" two", 7%Z).
Proof. apply (ReadLog_follow "t" "one" " two"); try reflexivity; [vm_compute|]; discriminate. Defined.
