(* ===== verification/Schedule.v ===== *)
(** The continuous promotion loop (internal/schedule): the reconciliation
    interval with its persisted operator override (schedule.go), the scheduler
    loop over it (scheduler.go), and the cycle trigger (internal/cli/serve.go). *)

From S2P Require Import Prelude GoStrings Taxonomy Tasks Disk TaskQueue TaskCodecRef QueueSafety.

Definition overrideFile : string := "schedule.json".
Definition overrideTmp : string := "schedule.json.tmp".

(** [MinOverride], in nanoseconds. *)
Definition MinOverride : Z := 60000000000.

(** The override record as [encoding/json], [Duration.String] and
    [time.ParseDuration] write and read it. The inner [option] of [read_state] is
    the duration, absent when the field does not parse; what was written for a
    duration reads back as that duration. *)
Class StateCodec : Type := {
  write_state : Z → string → time → string;
  read_state : string → option (option Z);
  read_write_state : ∀ d actor now, (0 ≤ d)%Z → is_int64 d →
    read_state (write_state d actor now) = Some (Some d);
}.

(** [Interval]. The change channel is its generation: the channel of generation
    [n] is closed once the current generation is larger. *)
Record Interval := mkInterval {
  iv_path : bool;
  iv_configured : Z;
  iv_override : option Z;
  iv_generation : nat }.

Inductive schedule_error :=
  | ErrNoStateDir | ErrTooShort | ErrRead | ErrNotState | ErrNotDuration | ErrNegative
  | ErrWrite | ErrRemove.

Section interval.
Context `{StateCodec}.

(** [Open]; [stateRoot] tells whether there is a state directory. *)
Definition OpenInterval (stateRoot : bool) (configured : Z) (d : Disk)
  : res schedule_error Interval * Disk :=
  if negb stateRoot then (Ok (mkInterval false configured None 0), d)
  else match read_file overrideFile d with
       | (ReadNotExist, d) => (Ok (mkInterval true configured None 0), d)
       | (ReadFailed, d) => (Err ErrRead, d)
       | (Contents raw, d) =>
           (match read_state raw with
            | None => Err ErrNotState
            | Some None => Err ErrNotDuration
            | Some (Some v) =>
                if (v <? 0)%Z then Err ErrNegative
                else Ok (mkInterval true configured (Some v) 0)
            end, d)
       end.

Definition Effective (iv : Interval) : Z :=
  match iv_override iv with Some d => d | None => iv_configured iv end.
Definition Overridden (iv : Interval) : bool := bool_decide (is_Some (iv_override iv)).
Definition Persistent (iv : Interval) : bool := iv_path iv.

(** [wake], with the override assigned in the same critical section. *)
Definition commit (o : option Z) (iv : Interval) : Interval :=
  mkInterval (iv_path iv) (iv_configured iv) o (S (iv_generation iv)).

(** [writeAtomic]. *)
Definition writeAtomic (raw : string) (d : Disk) : bool * Disk :=
  write_atomic overrideTmp overrideFile raw d.

(** The part of [Set] before the lock: the checks and the file. *)
Definition set_file (v : Z) (actor : string) (now : time) (iv : Interval) (d : Disk)
  : res schedule_error unit * Disk :=
  if negb (iv_path iv) then (Err ErrNoStateDir, d)
  else if negb (v =? 0)%Z && (v <? MinOverride)%Z then (Err ErrTooShort, d)
  else match writeAtomic (write_state v actor now) d with
       | (true, d) => (Ok tt, d)
       | (false, d) => (Err ErrWrite, d)
       end.

(** [Set], run alone. *)
Definition SetInterval (v : Z) (actor : string) (now : time) (iv : Interval) (d : Disk)
  : res schedule_error Interval * Disk :=
  match set_file v actor now iv d with
  | (Ok _, d) => (Ok (commit (Some v) iv), d)
  | (Err e, d) => (Err e, d)
  end.

(** The part of [Clear] before the lock. *)
Definition clear_file (iv : Interval) (d : Disk) : res schedule_error unit * Disk :=
  if negb (iv_path iv) then (Err ErrNoStateDir, d)
  else match remove overrideFile d with
       | (RemoveFailed, d) => (Err ErrRemove, d)
       | (_, d) => (Ok tt, d)
       end.

Definition ClearInterval (iv : Interval) (d : Disk) : res schedule_error Interval * Disk :=
  match clear_file iv d with
  | (Ok _, d) => (Ok (commit None iv), d)
  | (Err e, d) => (Err e, d)
  end.

(** A sequence of operator requests, one after the other: a refused one leaves
    the interval as it was. *)
Inductive request := RSet (v : Z) (actor : string) (now : time) | RClear.
Definition serve_request (s : Interval * Disk) (r : request) : Interval * Disk :=
  let '(iv, d) := s in
  match match r with RSet v actor now => SetInterval v actor now iv d | RClear => ClearInterval iv d end with
  | (Ok iv, d) => (iv, d)
  | (Err _, d) => (iv, d)
  end.

(** * Persistence *)

(** What the state file stands for. *)
Definition file_override (d : Disk) : option (option Z) :=
  match d_files d !! overrideFile with
  | None => Some None
  | Some raw => match read_state raw with
                | Some (Some v) => if (v <? 0)%Z then None else Some (Some v)
                | _ => None
                end
  end.

(** Memory and file agree. *)
Definition agrees (iv : Interval) (d : Disk) : Prop := file_override d = Some (iv_override iv).

Lemma read_file_cases path d :
  d_files (read_file path d).2 = d_files d ∧
  match (read_file path d).1 with
  | Contents raw => d_files d !! path = Some raw
  | ReadNotExist => d_files d !! path = None
  | ReadFailed => d_faults d ≠ []
  end.
Proof.
  unfold read_file, next_fault. destruct d as [m [|[| |c] fs]]; cbn; try done;
    by destruct (m !! path) eqn:E.
Qed.

Lemma open_agrees configured d iv d' :
  OpenInterval true configured d = (Ok iv, d') → agrees iv d' ∧ iv_path iv = true ∧
    iv_configured iv = configured ∧ d_files d' = d_files d.
Proof.
  unfold OpenInterval, agrees, file_override. cbn. pose proof (read_file_cases overrideFile d) as [Hf Hc].
  destruct (read_file overrideFile d) as [[raw| |] d1]; cbn in *; rewrite ?Hf, ?Hc.
  - destruct (read_state raw) as [[v|]|] eqn:E; [|done|done]. destruct (v <? 0)%Z eqn:Hv; [done|].
    intros [= <- <-]. rewrite Hf, Hc, E, Hv. done.
  - intros [= <- <-]. rewrite Hf, Hc. done.
  - done.
Qed.

(** Opening a healthy directory reads what the file stands for. *)
Lemma open_file configured d :
  healthy d →
  (OpenInterval true configured d).1 =
    match file_override d with
    | Some o => Ok (mkInterval true configured o 0)
    | None => (OpenInterval true configured d).1
    end.
Proof.
  intros Hh. unfold OpenInterval, file_override, read_file, next_fault. rewrite Hh. cbn.
  destruct (d_files d !! overrideFile) as [raw|]; [|done]. cbn.
  destruct (read_state raw) as [[v|]|]; [|done|done]. by destruct (v <? 0)%Z.
Qed.

Lemma set_file_spec v actor now iv d :
  is_int64 v →
  let '(r, d') := set_file v actor now iv d in
  match r with
  | Ok _ => iv_path iv = true ∧ (v = 0 ∨ MinOverride ≤ v)%Z ∧ file_override d' = Some (Some v)
  | Err _ => file_override d' = file_override d
  end.
Proof.
  intros Hv. unfold set_file. destruct (iv_path iv); cbn; [|done].
  destruct (negb (v =? 0)%Z && (v <? MinOverride)%Z) eqn:Hmin; [done|].
  assert (v = 0 ∨ MinOverride ≤ v)%Z as Hmin'.
  { apply andb_false_iff in Hmin as [Hm|Hm]; [left; apply negb_false_iff, Z.eqb_eq in Hm; done|].
    right. by apply Z.ltb_ge. }
  assert (0 ≤ v)%Z as Hpos by (unfold MinOverride in Hmin'; lia).
  pose proof (write_atomic_spec overrideTmp overrideFile (write_state v actor now) d ltac:(done)) as Hw.
  unfold writeAtomic. destruct (write_atomic _ _ _ d) as [[] d'].
  - destruct Hw as (Hp & _). unfold file_override. rewrite Hp, read_write_state by done.
    rewrite (proj2 (Z.ltb_ge v 0)) by done. done.
  - destruct Hw as (Hp & _). unfold file_override. by rewrite Hp.
Qed.

Lemma clear_file_spec iv d :
  let '(r, d') := clear_file iv d in
  match r with
  | Ok _ => iv_path iv = true ∧ file_override d' = Some None
  | Err _ => file_override d' = file_override d
  end.
Proof.
  unfold clear_file. destruct (iv_path iv); cbn; [|done].
  pose proof (remove_spec overrideFile d) as Hr. unfold file_override.
  destruct (remove overrideFile d) as [[] d']; destruct Hr as (_ & Hf & Hn & _).
  1-2: by rewrite Hn. by rewrite Hf.
Qed.

Lemma serve_agrees r iv d :
  (match r with RSet v _ _ => is_int64 v | RClear => True end) →
  agrees iv d → let '(iv', d') := serve_request (iv, d) r in
  agrees iv' d' ∧ iv_path iv' = iv_path iv ∧ iv_configured iv' = iv_configured iv.
Proof.
  unfold agrees. intros Hr Ha. cbn. destruct r as [v actor now|].
  - pose proof (set_file_spec v actor now iv d Hr) as Hs. unfold SetInterval.
    destruct (set_file v actor now iv d) as [[[]|e] d']; cbn; [by destruct Hs as (_ & _ & ->)|].
    by rewrite Hs.
  - pose proof (clear_file_spec iv d) as Hs. unfold ClearInterval.
    destruct (clear_file iv d) as [[[]|e] d']; cbn; [by destruct Hs as (_ & ->)|]. by rewrite Hs.
Qed.

Lemma serve_all_agrees rs iv d :
  Forall (λ r, match r with RSet v _ _ => is_int64 v | RClear => True end) rs →
  agrees iv d → let '(iv', d') := fold_left serve_request rs (iv, d) in
  agrees iv' d' ∧ iv_path iv' = iv_path iv ∧ iv_configured iv' = iv_configured iv.
Proof.
  intros Hf. revert iv d. induction Hf as [|r rs Hr Hf IH]; intros iv d Ha; cbn [fold_left]; [done|].
  pose proof (serve_agrees r iv d Hr Ha) as Hs. destruct (serve_request (iv, d) r) as [iv1 d1].
  destruct Hs as (Ha1 & Hp1 & Hc1). specialize (IH iv1 d1 Ha1).
  destruct (fold_left serve_request rs (iv1, d1)) as [iv2 d2]. destruct IH as (? & -> & ->). done.
Qed.

(** The operator's interval survives a restart. After any sequence of set
    and clear requests served one after the other, some refused by their checks
    or by the disk, starting again on the same directory gives the very interval
    the instance was running at. *)
Theorem interval_restart rs configured d iv d' iv2 d2
    (Hrs : Forall (λ r, match r with RSet v _ _ => is_int64 v | RClear => True end) rs)
    (Hopen : OpenInterval true configured d = (Ok iv, d'))
    (Hserve : fold_left serve_request rs (iv, d') = (iv2, d2))
    (Hcalm : healthy d2) :
  ∃ iv3 d3, OpenInterval true configured d2 = (Ok iv3, d3) ∧
    Effective iv3 = Effective iv2 ∧ Overridden iv3 = Overridden iv2.
Proof.
  destruct (open_agrees _ _ _ _ Hopen) as (Ha & _ & Hconf & _).
  pose proof (serve_all_agrees rs iv d' Hrs Ha) as Hs. rewrite Hserve in Hs.
  destruct Hs as (Ha2 & _ & Hc2). pose proof (open_file configured d2 Hcalm) as Ho.
  rewrite Ha2 in Ho. destruct (OpenInterval true configured d2) as [r d3]. cbn in Ho.
  eexists _, d3. split; [by rewrite Ho|]. unfold Effective, Overridden. cbn.
  by rewrite Hc2, Hconf.
Qed.

(** An override is off or at least a minute, and a refused request changes
    nothing. A set request takes effect exactly when there is a state directory,
    the value is 0 or at least the floor, and the file was written; otherwise the
    effective interval and what the file stands for are as before. *)
Theorem set_bounds v actor now iv d (Hv : is_int64 v) :
  let '(r, d') := SetInterval v actor now iv d in
  match r with
  | Ok iv' =>
      iv_path iv = true ∧ (v = 0 ∨ MinOverride ≤ v)%Z ∧ Effective iv' = v ∧
      agrees iv' d' ∧ (iv_generation iv < iv_generation iv')%nat
  | Err e =>
      file_override d' = file_override d ∧
      (e = ErrNoStateDir ∧ iv_path iv = false ∨
       e = ErrTooShort ∧ (v ≠ 0 ∧ v < MinOverride)%Z ∨ e = ErrWrite ∧ d_faults d ≠ [])
  end.
Proof.
  pose proof (set_file_spec v actor now iv d Hv) as Hs. unfold SetInterval, set_file in *.
  destruct (iv_path iv) eqn:Hp; cbn in *; [|split; [done|auto]].
  destruct (negb (v =? 0)%Z && (v <? MinOverride)%Z) eqn:Hmin.
  { split; [done|]. right; left. bools_to_props. apply Z.eqb_neq in H0. done. }
  unfold writeAtomic in *. pose proof (write_atomic_healthy overrideTmp overrideFile
    (write_state v actor now) d) as Hh.
  destruct (write_atomic _ _ _ d) as [[] d']; cbn in *.
  - destruct Hs as (_ & Hm & Hf). split; [done|]. split; [done|]. split; [done|]. split; [done|lia].
  - split; [done|]. right; right. split; [done|]. intros Hd. by specialize (Hh Hd ltac:(done)).
Qed.
End interval.

(** * The scheduler loop *)

(** Where [Run] stands: at the top; with the delay read and the channel not yet
    taken; in the [select] over a delay and a channel; past the tick; returned. *)
Inductive sched_pc :=
  | AtTop | HaveDelay (d : Z) | Waiting (d : Z) (channel : nat) | Ticked (d : Z) | Stopped.

(** The loop beside the operator's requests: [sw_flight] are the requests whose
    file is written and whose critical section is still to come, [sw_fired] the
    intervals of the cycles triggered so far. *)
Record SWorld := mkSWorld {
  sw_iv : Interval; sw_disk : Disk; sw_flight : list (option Z); sw_pc : sched_pc;
  sw_done : bool; sw_fired : list Z }.

Definition set_pc (pc : sched_pc) (w : SWorld) : SWorld :=
  mkSWorld (sw_iv w) (sw_disk w) (sw_flight w) pc (sw_done w) (sw_fired w).

(** One step of [Run]. *)
Inductive sched_step : SWorld → SWorld → Prop :=
  | sched_read w : sw_pc w = AtTop → sched_step w (set_pc (HaveDelay (Effective (sw_iv w))) w)
  | sched_channel w d :
      sw_pc w = HaveDelay d → sched_step w (set_pc (Waiting d (iv_generation (sw_iv w))) w)
  | sched_stop w d ch :
      sw_pc w = Waiting d ch → sw_done w = true → sched_step w (set_pc Stopped w)
  | sched_changed w d ch :
      sw_pc w = Waiting d ch → (ch < iv_generation (sw_iv w))%nat → sched_step w (set_pc AtTop w)
  | sched_tick w d ch :
      sw_pc w = Waiting d ch → (0 < d)%Z → sched_step w (set_pc (Ticked d) w)
  | sched_late w d :
      sw_pc w = Ticked d → sw_done w = true → sched_step w (set_pc Stopped w)
  | sched_trigger w d :
      sw_pc w = Ticked d → sw_done w = false →
      sched_step w (mkSWorld (sw_iv w) (sw_disk w) (sw_flight w) AtTop (sw_done w) (d :: sw_fired w)).

(** One step of the rest of the process: a request's file, a request's critical
    section, the shutdown. *)
Inductive env_step `{StateCodec} : SWorld → SWorld → Prop :=
  | env_set w v actor now d :
      is_int64 v → set_file v actor now (sw_iv w) (sw_disk w) = (Ok tt, d) →
      env_step w (mkSWorld (sw_iv w) d (sw_flight w ++ [Some v]) (sw_pc w) (sw_done w) (sw_fired w))
  | env_clear w d :
      clear_file (sw_iv w) (sw_disk w) = (Ok tt, d) →
      env_step w (mkSWorld (sw_iv w) d (sw_flight w ++ [None]) (sw_pc w) (sw_done w) (sw_fired w))
  | env_commit w l1 o l2 :
      sw_flight w = l1 ++ o :: l2 →
      env_step w (mkSWorld (commit o (sw_iv w)) (sw_disk w) (l1 ++ l2) (sw_pc w) (sw_done w) (sw_fired w))
  | env_cancel w :
      env_step w (mkSWorld (sw_iv w) (sw_disk w) (sw_flight w) (sw_pc w) true (sw_fired w)).

Inductive sched_reachable `{StateCodec} (configured : Z) (d : Disk) : SWorld → Prop :=
  | sched_start iv d' :
      OpenInterval true configured d = (Ok iv, d') →
      sched_reachable configured d (mkSWorld iv d' [] AtTop false [])
  | sched_move w w' :
      sched_reachable configured d w → sched_step w w' ∨ env_step w w' →
      sched_reachable configured d w'.

Section loop.
Context `{StateCodec}.

Record sched_inv (w : SWorld) : Prop := {
  si_fired : Forall (λ d, 0 < d)%Z (sw_fired w);
  si_ticked : ∀ d, sw_pc w = Ticked d → (0 < d)%Z;
  si_channel : ∀ d ch, sw_pc w = Waiting d ch → (ch ≤ iv_generation (sw_iv w))%nat }.

Lemma sched_reachable_inv configured d w : sched_reachable configured d w → sched_inv w.
Proof.
  induction 1 as [iv d' Ho|w w' _ [Hf Ht Hc] [Hs|He]].
  - constructor; cbn; [done|done|done].
  - destruct Hs as [w Hpc|w d0 Hpc|w d0 ch Hpc Hd|w d0 ch Hpc Hlt|w d0 ch Hpc Hpos|w d0 Hpc Hd|w d0 Hpc Hd];
      constructor; cbn; try done.
    + by intros d1 ch1 [= <- <-].
    + by intros d1 [= <-].
    + apply Forall_cons. eauto.
  - destruct He as [w v actor now d0 Hv Hset|w d0 Hcl|w l1 o l2 Hfl|w]; constructor; cbn; try done.
    intros d1 ch1 Hpc. apply Hc in Hpc. lia.
Qed.

(** A cycle is only ever triggered by a positive interval and never after the
    shutdown. Whatever the operator and the disk do meanwhile, every triggered
    cycle served a positive delay; a parked loop (interval 0) can only leave by a
    change or the shutdown; and once the shutdown is requested no step triggers a
    cycle. *)
Theorem cycles_only_when_enabled configured d w w'
    (Hr : sched_reachable configured d w) (Hs : sched_step w w') :
  Forall (λ d, 0 < d)%Z (sw_fired w') ∧
  (sw_done w = true → sw_fired w' = sw_fired w) ∧
  (∀ ch, sw_pc w = Waiting 0 ch → sw_pc w' = AtTop ∨ sw_pc w' = Stopped).
Proof.
  pose proof (sched_reachable_inv _ _ _ Hr) as [Hf Ht Hc].
  destruct Hs as [w Hpc|w d0 Hpc|w d0 ch Hpc Hd|w d0 ch Hpc Hlt|w d0 ch Hpc Hpos|w d0 Hpc Hd|w d0 Hpc Hd];
    cbn; (split; [try apply Forall_cons; eauto|split; [congruence|intros ch' Hw; auto; try congruence]]).
  rewrite Hw in Hpc. injection Hpc as <- _. lia.
Qed.
End loop.

(** A concrete codec for the override record. *)
#[export] Program Instance ref_state_codec : StateCodec := {|
  write_state d actor now := bits (encode d);
  read_state s := p ← unbits s; Some (decode p);
|}.
Next Obligation. intros d actor now _ _. cbv beta. rewrite unbits_bits. cbn. by rewrite decode_encode. Qed.

Definition ten_minutes : Z := 600000000000.

(** A change can be missed for good. The loop reads the delay and then, in a
    second critical section, the change channel: an override that lands between
    the two leaves it waiting on the new channel with the old delay. Starting
    from an interval of 0, there is a reachable state in which the operator's
    request is complete, the effective interval is ten minutes, and the loop has
    no step to take until some other change or the shutdown. *)
Theorem lost_wakeup :
  ∃ w, sched_reachable 0 (mkDisk ∅ []) w ∧ sw_flight w = [] ∧ sw_done w = false ∧
    Effective (sw_iv w) = ten_minutes ∧ ∀ w', ¬ sched_step w w'.
Proof.
  set (iv0 := mkInterval true 0 None 0).
  set (d1 := (writeAtomic (write_state ten_minutes "op" 1) (mkDisk ∅ [])).2).
  set (w0 := mkSWorld iv0 (mkDisk ∅ []) [] AtTop false []).
  set (w1 := set_pc (HaveDelay 0) w0).
  set (w2 := mkSWorld iv0 d1 [Some ten_minutes] (HaveDelay 0) false []).
  set (w3 := mkSWorld (commit (Some ten_minutes) iv0) d1 [] (HaveDelay 0) false []).
  set (w4 := set_pc (Waiting 0 1) w3).
  exists w4. split; [|split; [done|split; [done|split; [done|]]]].
  - apply (sched_move _ _ w3); [apply (sched_move _ _ w2); [apply (sched_move _ _ w1);
      [apply (sched_move _ _ w0)|]|]|].
    + by apply (sched_start 0 (mkDisk ∅ []) iv0 (mkDisk ∅ [])).
    + left. by apply (sched_read w0).
    + right. refine (env_set w1 ten_minutes "op" 1 d1 _ _); [|by vm_compute].
      unfold is_int64, int64_min, int64_max, ten_minutes. lia.
    + right. by apply (env_commit w2 [] (Some ten_minutes) []).
    + left. by apply (sched_channel w3 0).
  - intros w' Hs. inversion Hs; subst; cbn in *; try congruence; simplify_eq; lia.
Qed.

(** Two concurrent requests can leave the running interval and the persisted
    one different. The file is written outside the critical section: two requests
    may write in one order and commit in the other, after which nothing is in
    flight, the instance runs at one interval and a restart gives the other. *)
Theorem set_race :
  ∃ w iv d, sched_reachable 0 (mkDisk ∅ []) w ∧ sw_flight w = [] ∧
    OpenInterval true 0 (sw_disk w) = (Ok iv, d) ∧ Effective iv ≠ Effective (sw_iv w).
Proof.
  set (iv0 := mkInterval true 0 None 0).
  set (d1 := (writeAtomic (write_state ten_minutes "a" 1) (mkDisk ∅ [])).2).
  set (d2 := (writeAtomic (write_state MinOverride "b" 2) d1).2).
  set (w0 := mkSWorld iv0 (mkDisk ∅ []) [] AtTop false []).
  set (w1 := mkSWorld iv0 d1 [Some ten_minutes] AtTop false []).
  set (w2 := mkSWorld iv0 d2 [Some ten_minutes; Some MinOverride] AtTop false []).
  set (w3 := mkSWorld (commit (Some MinOverride) iv0) d2 [Some ten_minutes] AtTop false []).
  set (w4 := mkSWorld (commit (Some ten_minutes) (commit (Some MinOverride) iv0)) d2 [] AtTop false []).
  exists w4, (mkInterval true 0 (Some MinOverride) 0), d2. split; [|split; [done|split]].
  - apply (sched_move _ _ w3); [apply (sched_move _ _ w2); [apply (sched_move _ _ w1);
      [apply (sched_move _ _ w0)|]|]|]; [| | |right..].
    + by apply (sched_start 0 (mkDisk ∅ []) iv0 (mkDisk ∅ [])).
    + right. refine (env_set w0 ten_minutes "a" 1 d1 _ _); [|by vm_compute].
      unfold is_int64, int64_min, int64_max, ten_minutes. lia.
    + right. refine (env_set w1 MinOverride "b" 2 d2 _ _); [|by vm_compute].
      unfold is_int64, int64_min, int64_max, MinOverride. lia.
    + by apply (env_commit w2 [Some ten_minutes] (Some MinOverride) []).
    + by apply (env_commit w3 [] (Some ten_minutes) []).
  - by vm_compute.
  - by vm_compute.
Qed.

(** * The cycle trigger *)

Definition ActorLocal : string := "local".

(** [syncTrigger]: enqueue one synchronization unless one is already pending. *)
Definition syncTrigger `{GoRuntime, TaskCodec} (id run : string) (now : time) (source : string)
    (prune : bool) (q : Queue) : res queue_error unit * Queue :=
  if HasPending TypeSync q then (Ok tt, q)
  else match Create id run now TypeSync source ActorLocal [] [WithPrune prune] q with
       | (Ok _, q) => (Ok tt, q)
       | (Err e, q) => (Err e, q)
       end.

Lemma HasPending_spec `{GoRuntime} ty q :
  HasPending ty q = true ↔
  ∃ id t, q_tasks q !! id = Some t ∧ t_type t = ty ∧ t_status t = StatusPending.
Proof.
  unfold HasPending. rewrite existsb_exists. split.
  - intros (t & Hin%list_elem_of_In & Hb). apply elem_of_map_values in Hin as [id Hid].
    apply andb_true_iff in Hb as [?%String.eqb_eq ?%bool_decide_eq_true]. eauto.
  - intros (id & t & Hid & <- & Hs). exists t. split.
    + apply list_elem_of_In, elem_of_map_values. eauto.
    + by rewrite String.eqb_refl, bool_decide_eq_true_2.
Qed.

(** At most one synchronization is pending. *)
Definition one_pending_sync (q : Queue) : Prop :=
  ∀ i j t u, q_tasks q !! i = Some t → q_tasks q !! j = Some u →
    t_type t = TypeSync → t_status t = StatusPending →
    t_type u = TypeSync → t_status u = StatusPending → i = j.

(** Ticks coalesce. However slow the worker, a tick never adds a second
    pending synchronization, and a tick that succeeds leaves one pending; the
    task it creates carries the configured pruning decision. *)
Theorem syncTrigger_coalesces `{GoRuntime, TaskCodec} id run now source prune q
    (Hk : keyed q) (Hone : one_pending_sync q) (Hfresh : q_tasks q !! id = None) :
  let '(r, q') := syncTrigger id run now source prune q in
  one_pending_sync q' ∧
  match r with
  | Ok _ => HasPending TypeSync q' = true ∧
      (HasPending TypeSync q = false →
        t_prune <$> q_tasks q' !! id = Some prune ∧ q_pending q' = q_pending q ++ [id])
  | Err e => q' = q ∧ e = ErrQueueFull
  end.
Proof.
  unfold syncTrigger. destruct (HasPending TypeSync q) eqn:Hp; [done|].
  unfold Create. destruct (_ <? _)%nat; [|done].
  set (t := new_task _ _ _ _ _ _ _ _). set (q1 := persist t _).
  assert (keyed q1) as Hk1.
  { intros i u. cbn. rewrite lookup_insert_Some. intros [[<- <-]|[_ Hu]]; [done|by apply Hk]. }
  assert (q_tasks (purgeFinished q1) !! id = Some t) as Ht.
  { apply purgeFinished_active; [done|done|]. cbn. by rewrite lookup_insert_eq. }
  assert (∀ i u, q_tasks (purgeFinished q1) !! i = Some u → t_type u = TypeSync →
    t_status u = StatusPending → i = id) as Honly.
  { intros i u Hu%purgeFinished_sub Hty Hst. cbn in Hu. rewrite lookup_insert_Some in Hu.
    destruct Hu as [[<- _]|[_ Hu]]; [done|]. exfalso.
    assert (HasPending TypeSync q = true) as Hc by (apply HasPending_spec; eauto). congruence. }
  split; [|split].
  - intros i j u v Hu Hv ????. rewrite (Honly i u), (Honly j v); done.
  - apply HasPending_spec. exists id, t. done.
  - intros _. rewrite Ht. split; [done|]. rewrite purgeFinished_eq. done.
Qed.

(** * Concrete runs *)

Lemma interval_restart_witness :
  ∃ iv3 d3, OpenInterval true 0 (fold_left serve_request
      [RSet ten_minutes "op" 1; RSet 5 "op" 2]
      (mkInterval true 0 None 0, mkDisk ∅ [])).2 = (Ok iv3, d3) ∧ Effective iv3 = ten_minutes.
Proof.
  destruct (interval_restart [RSet ten_minutes "op" 1; RSet 5 "op" 2] 0 (mkDisk ∅ [])
    (mkInterval true 0 None 0) (mkDisk ∅ [])
    (fold_left serve_request [RSet ten_minutes "op" 1; RSet 5 "op" 2]
      (mkInterval true 0 None 0, mkDisk ∅ [])).1
    (fold_left serve_request [RSet ten_minutes "op" 1; RSet 5 "op" 2]
      (mkInterval true 0 None 0, mkDisk ∅ [])).2) as (iv3 & d3 & Ho & He & _).
  - repeat constructor; vm_compute; discriminate.
  - reflexivity.
  - vm_compute. reflexivity.
  - vm_compute. reflexivity.
  - exists iv3, d3. split; [exact Ho|]. rewrite He. vm_compute. reflexivity.
Defined.

Lemma set_bounds_witness :
  is_int64 5 ∧ (SetInterval 5 "op" 1 (mkInterval true 0 None 0) (mkDisk ∅ [])).1 = Err ErrTooShort ∧
  file_override (SetInterval 5 "op" 1 (mkInterval true 0 None 0) (mkDisk ∅ [])).2 =
    file_override (mkDisk ∅ []).
Proof.
  assert (is_int64 5) as Hv by (vm_compute; split; discriminate).
  pose proof (set_bounds 5 "op" 1 (mkInterval true 0 None 0) (mkDisk ∅ []) Hv) as Hb.
  split; [exact Hv|]. split; [reflexivity|]. exact (proj1 Hb).
Defined.

Lemma cycles_only_when_enabled_witness :
  Forall (λ d, 0 < d)%Z
    (sw_fired (set_pc (HaveDelay 0) (mkSWorld (mkInterval true 0 None 0) (mkDisk ∅ []) [] AtTop false []))).
Proof.
  apply (cycles_only_when_enabled 0 (mkDisk ∅ [])
    (mkSWorld (mkInterval true 0 None 0) (mkDisk ∅ []) [] AtTop false [])).
  - apply sched_start. reflexivity.
  - apply (sched_read (mkSWorld (mkInterval true 0 None 0) (mkDisk ∅ []) [] AtTop false [])). reflexivity.
Defined.

Lemma syncTrigger_coalesces_witness :
  let q := mkQueue 0 ∅ ∅ [] [] (mkDisk ∅ []) in
  HasPending TypeSync (syncTrigger "tsk_1" "run" 1 "source" true q).2 = true.
Proof.
  intros q. assert (keyed q) as Hk by (intros i t Ht; cbn in Ht; by rewrite lookup_empty in Ht).
  assert (one_pending_sync q) as Ho
    by (intros i j t u Ht; cbn in Ht; by rewrite lookup_empty in Ht).
  pose proof (syncTrigger_coalesces "tsk_1" "run" 1 "source" true q Hk Ho eq_refl) as Hc.
  exact (proj1 (proj2 Hc)).
Defined.
