(* ===== verification/MediaPaths.v ===== *)
(** Paths, names and digests that arrive on a foreign medium
    (internal/media/paths.go, and [covered] of manifest.go): the validators that
    refuse a hostile shape and the layout of the registry backend. *)

From S2P Require Import Prelude GoStrings.

(** * [path.Clean] and [path.Base] *)

(** One element of a rooted or relative path, on the stack of kept elements. *)
Definition clean_step (rooted : bool) (stack : list string) (seg : string) : list string :=
  if String.eqb seg "" || String.eqb seg "." then stack
  else if String.eqb seg ".." then
    match stack with
    | top :: rest => if String.eqb top ".." then seg :: stack else rest
    | [] => if rooted then [] else [seg]
    end
  else seg :: stack.

Definition path_clean (p : string) : string :=
  if String.eqb p "" then "."
  else
    let rooted := has_prefix p "/" in
    let body := join "/" (reverse (fold_left (clean_step rooted) (split_byte "/" p) [])) in
    if rooted then "/" +:+ body
    else if String.eqb body "" then "." else body.

(** [path.Base]: the last element once trailing slashes are gone. *)
Definition path_base (p : string) : string :=
  if String.eqb p "" then "."
  else
    let q := trim_right (Ascii.eqb "/") p in
    if String.eqb q "" then "/" else default q (last (split_byte "/" q)).

(** * Coverage *)

Definition ManifestPath : string := "meta/media.json".
Definition coveredRoots : list string := ["docker/registry/v2"; "meta"].
Definition TobbyDir : string := "_tobby".
Definition blobsPrefix : string := "docker/registry/v2/blobs/sha256".
Definition reposPrefix : string := "docker/registry/v2/repositories".
Definition metaPrefix : string := "meta".
Definition recipesFile : string := "meta/recipes.json".

(** [covered]. *)
Definition covered (slash : string) : bool :=
  if String.eqb slash ManifestPath then false
  else if has_prefix (path_base slash) ".tmp-" then false
  else existsb (λ sub, String.eqb slash sub || has_prefix slash (sub +:+ "/")) coveredRoots.

(** * Validators *)

Inductive path_error :=
  | PathEmpty | PathBackslash | PathColon | PathNul | PathAbsolute | PathNotClean
  | PathControl | PathUncovered.

Definition is_control (c : byte) : bool := (code c <? 32)%Z || (code c =? 127)%Z.

(** [checkInventoryPath]. *)
Definition checkInventoryPath (p : string) : res path_error unit :=
  if String.eqb p "" then Err PathEmpty
  else if contains_byte p "\" then Err PathBackslash
  else if contains_byte p ":" then Err PathColon
  else if contains_byte p "000" then Err PathNul
  else if has_prefix p "/" then Err PathAbsolute
  else if negb (String.eqb (path_clean p) p) then Err PathNotClean
  else if negb (all_bytes (λ c, negb (is_control c)) p) then Err PathControl
  else if negb (covered p) then Err PathUncovered
  else Ok tt.

Inductive name_error := NameEmpty | NameTooLong | NameSegment | NameCharacter.

Definition is_alnum (c : byte) : bool := is_lower c || is_upper c || is_digit c.
Definition is_repo_byte (c : byte) : bool :=
  is_alnum c || Ascii.eqb c "." || Ascii.eqb c "_" || Ascii.eqb c "-".

Fixpoint check_segments (segs : list string) : res name_error unit :=
  match segs with
  | [] => Ok tt
  | seg :: segs =>
      if String.eqb seg "" || String.eqb seg "." || String.eqb seg ".." then Err NameSegment
      else if negb (all_bytes is_repo_byte seg) then Err NameCharacter
      else check_segments segs
  end.

(** [checkRepoName]. *)
Definition checkRepoName (repo : string) : res name_error unit :=
  if String.eqb repo "" then Err NameEmpty
  else if (4096 <? slen repo)%nat then Err NameTooLong
  else check_segments (split_byte "/" repo).

(** [checkTag]: the first byte may be neither a dot nor a hyphen. *)
Definition is_tag_first (c : byte) : bool := is_alnum c || Ascii.eqb c "_".
Definition is_tag_byte (c : byte) : bool := is_tag_first c || Ascii.eqb c "." || Ascii.eqb c "-".
Definition checkTag (tag : string) : res name_error unit :=
  if String.eqb tag "" || (128 <? slen tag)%nat then Err NameEmpty
  else match tag with
       | String c rest => if is_tag_first c && all_bytes is_tag_byte rest then Ok tt else Err NameCharacter
       | "" => Ok tt
       end.

Inductive digest_error := DigestPrefix | DigestLength | DigestCharacter.

Definition is_hex_byte (c : byte) : bool := is_digit c || in_range "a" "f" c.

(** [digestHex]. *)
Definition digestHex (dgst : string) : res digest_error string :=
  match cut_prefix "sha256:" dgst with
  | None => Err DigestPrefix
  | Some hex =>
      if negb (slen hex =? 64)%nat then Err DigestLength
      else if negb (all_bytes is_hex_byte hex) then Err DigestCharacter
      else Ok hex
  end.

(** * The backend's layout *)

Definition blobPath (hex : string) : string :=
  blobsPrefix +:+ "/" +:+ stake 2 hex +:+ "/" +:+ hex +:+ "/data".
Definition manifestLinkPath (repo hex : string) : string :=
  reposPrefix +:+ "/" +:+ repo +:+ "/_manifests/revisions/sha256/" +:+ hex +:+ "/link".
Definition layerLinkPath (repo hex : string) : string :=
  reposPrefix +:+ "/" +:+ repo +:+ "/_layers/sha256/" +:+ hex +:+ "/link".
Definition tagCurrentPath (repo tag : string) : string :=
  reposPrefix +:+ "/" +:+ repo +:+ "/_manifests/tags/" +:+ tag +:+ "/current/link".
Definition tagIndexDir (repo tag : string) : string :=
  reposPrefix +:+ "/" +:+ repo +:+ "/_manifests/tags/" +:+ tag +:+ "/index".

(** [hexOfBlobPath]. *)
Definition hexOfBlobPath (p : string) : option string :=
  rest ← cut_prefix (blobsPrefix +:+ "/") p;
  rest ← cut_suffix "/data" rest;
  '(prefix, hex) ← cut_byte "/" rest;
  if (slen hex =? 64)%nat && (slen prefix =? 2)%nat && has_prefix hex prefix
  then Some hex else None.

(** * Facts *)

(** A segment that names a directory entry, and nothing else. *)
Definition plain_segment (seg : string) : Prop := seg ≠ "" ∧ seg ≠ "." ∧ seg ≠ "..".

(** A path that stays below the directory it is resolved in. *)
Definition stays_inside (p : string) : Prop :=
  Forall plain_segment (split_byte "/" p).

#[export] Instance plain_segment_dec seg : Decision (plain_segment seg).
Proof. unfold plain_segment. apply _. Defined.
#[export] Instance stays_inside_dec p : Decision (stays_inside p).
Proof. unfold stays_inside. apply _. Defined.

Lemma digestHex_Ok d h :
  digestHex d = Ok h ↔ d = "sha256:" +:+ h ∧ slen h = 64 ∧ all_bytes is_hex_byte h = true.
Proof.
  unfold digestHex. destruct (cut_prefix "sha256:" d) as [hex|] eqn:E.
  - apply cut_prefix_Some in E as ->. destruct (Nat.eqb_spec (slen hex) 64); cbn.
    + destruct (all_bytes is_hex_byte hex) eqn:Ha; cbn; split.
      * by intros [= <-].
      * intros (Heq & _). apply sapp_inj_l in Heq. by subst.
      * done.
      * intros (Heq & _ & ?). apply sapp_inj_l in Heq. congruence.
    + split; [done|]. intros (Heq & ? & _). apply sapp_inj_l in Heq. congruence.
  - split; [done|]. intros (-> & _). assert (cut_prefix "sha256:" ("sha256:" +:+ h) = Some h)
      by by apply cut_prefix_Some. congruence.
Qed.

Lemma digestHex_inj d1 d2 h : digestHex d1 = Ok h → digestHex d2 = Ok h → d1 = d2.
Proof. rewrite !digestHex_Ok. by intros (-> & _) (-> & _). Qed.

Lemma stake_prefix pre s : slen pre = 2 → has_prefix s pre = true → stake 2 s = pre.
Proof. intros Hl [r ->]%has_prefix_spec. rewrite <-Hl. apply stake_app_length. Qed.

Lemma slen_stake n s : n ≤ slen s → slen (stake n s) = n.
Proof. revert s. induction n as [|n IH]; intros [|c s]; cbn; try lia. intros. rewrite IH; lia. Qed.

Lemma in_str_stake c n s : in_str c (stake n s) → in_str c s.
Proof. rewrite <-(stake_drop n s) at 2. rewrite in_str_app. auto. Qed.

Lemma hex_no_slash h : all_bytes is_hex_byte h = true → ¬ in_str "/" h.
Proof. rewrite all_bytes_spec. intros Hh Hin. by apply Hh in Hin. Qed.

Lemma hex_blob_path d h : digestHex d = Ok h → hexOfBlobPath (blobPath h) = Some h.
Proof.
  intros (_ & Hlen & Hhex)%digestHex_Ok. unfold hexOfBlobPath, blobPath.
  rewrite <-(sapp_assoc blobsPrefix "/").
  rewrite (proj2 (cut_prefix_Some (blobsPrefix +:+ "/") _ _)) by reflexivity. cbn [mbind option_bind].
  rewrite (proj2 (cut_suffix_Some "/data" _ (stake 2 h +:+ "/" +:+ h))) by by rewrite !sapp_assoc.
  cbn [mbind option_bind].
  rewrite (proj2 (cut_byte_Some "/" _ (stake 2 h) h)).
  - cbn [mbind option_bind]. rewrite Hlen, slen_stake by lia. cbn [Nat.eqb andb].
    rewrite (proj2 (has_prefix_spec h (stake 2 h))); [done|]. exists (sdrop 2 h). by rewrite stake_drop.
  - split; [done|]. intros Hin%in_str_stake. by apply (hex_no_slash h).
Qed.

Lemma blob_path_hex p h : hexOfBlobPath p = Some h → p = blobPath h.
Proof.
  unfold hexOfBlobPath.
  intros (r1 & H1 & (r2 & H2 & ([pre hex] & H3 & H4)%bind_Some)%bind_Some)%bind_Some.
  apply cut_prefix_Some in H1. apply cut_suffix_Some in H2. apply cut_byte_Some in H3 as [H3 _].
  destruct (_ && _) eqn:Hb; [|done]. injection H4 as ->.
  apply andb_true_iff in Hb as [[_ Hpre%Nat.eqb_eq]%andb_true_iff Hpref]. unfold blobPath.
  rewrite (stake_prefix pre h) by done. subst. by rewrite !sapp_assoc.
Qed.

(** A blob's path and its digest determine each other: the digest read back
    from the path of a valid digest is that digest, and a path from which a digest
    is read is the path of that digest. *)
Theorem blob_path_roundtrip :
  (∀ d h, digestHex d = Ok h → hexOfBlobPath (blobPath h) = Some h) ∧
  (∀ p h, hexOfBlobPath p = Some h → p = blobPath h).
Proof. split; [apply hex_blob_path|apply blob_path_hex]. Qed.

(** The stack of [path_clean]: ordinary elements above leading [".."]. *)
Lemma clean_stack rooted segs stack :
  (∃ plains n, stack = plains ++ replicate n ".." ∧ Forall plain_segment plains) →
  ∃ plains n, fold_left (clean_step rooted) segs stack = plains ++ replicate n ".." ∧
    Forall plain_segment plains ∧ ∀ w, w ∈ plains → w ∈ segs ∨ w ∈ stack.
Proof.
  revert stack. induction segs as [|seg segs IH]; intros stack (plains & n & -> & Hp); cbn.
  { exists plains, n. split; [done|]. split; [done|]. intros w Hw. right. rewrite elem_of_app. auto. }
  assert (∃ plains' n', clean_step rooted (plains ++ replicate n "..") seg = plains' ++ replicate n' ".." ∧
    Forall plain_segment plains' ∧ ∀ w, w ∈ plains' ++ replicate n' ".." → w = seg ∨ w ∈ plains ++ replicate n "..")
    as (plains' & n' & Hstep & Hp' & Hin').
  { unfold clean_step. destruct (String.eqb_spec seg "") as [->|H1]; cbn; [eauto 6|].
    destruct (String.eqb_spec seg ".") as [->|H2]; cbn; [eauto 6|].
    destruct (String.eqb_spec seg "..") as [->|H3].
    - destruct plains as [|top rest]; cbn.
      + destruct n as [|n]; cbn.
        * destruct rooted; [by exists [], 0; eauto|]. exists [], 1. cbn. split; [done|]. split; [done|].
          intros w ->%list_elem_of_singleton. auto.
        * exists [], (S (S n)). cbn. split; [done|]. split; [done|]. intros w. rewrite !elem_of_cons. tauto.
      + apply Forall_cons in Hp as [(_ & _ & Htop) Hp]. rewrite (proj2 (String.eqb_neq _ _)) by done.
        exists rest, n. split; [done|]. split; [done|]. intros w Hw. right. by right.
    - exists (seg :: plains), n. split; [done|]. split; [by apply Forall_cons|].
      intros w. cbn. rewrite elem_of_cons. done. }
  rewrite Hstep. destruct (IH (plains' ++ replicate n' "..")) as (pl & m & Hf & Hpl & Hin); [eauto|].
  exists pl, m. split; [done|]. split; [done|]. intros w Hw. rewrite elem_of_cons.
  destruct (Hin w Hw) as [?|Hw']; [auto|]. destruct (Hin' w Hw'); auto.
Qed.

Lemma covered_first_segment p :
  covered p = true → ∃ segs, split_byte "/" p = "docker" :: segs ∨ split_byte "/" p = "meta" :: segs.
Proof.
  unfold covered. destruct (String.eqb p ManifestPath); [done|].
  destruct (has_prefix (path_base p) ".tmp-"); [done|]. cbn. rewrite orb_false_r, !orb_true_iff.
  intros [[->%String.eqb_eq|[r ->]%has_prefix_spec]|[->%String.eqb_eq|[r ->]%has_prefix_spec]].
  - eexists. left. reflexivity.
  - exists (split_byte "/" ("registry/v2/" +:+ r)). left.
    change (("docker/registry/v2" +:+ "/") +:+ r) with ("docker" +:+ String "/" ("registry/v2/" +:+ r)).
    apply split_byte_app. cbn. intuition discriminate.
  - eexists. right. reflexivity.
  - exists (split_byte "/" r). right.
    change (("meta" +:+ "/") +:+ r) with ("meta" +:+ String "/" r).
    apply split_byte_app. cbn. intuition discriminate.
Qed.

Lemma clean_covered_inside p :
  has_prefix p "/" = false → path_clean p = p → covered p = true → stays_inside p.
Proof.
  intros Hroot Hclean Hcov. destruct (covered_first_segment p Hcov) as [segs Hfirst].
  unfold path_clean in Hclean. destruct (String.eqb_spec p "") as [->|Hne]; [done|].
  rewrite Hroot in Hclean.
  destruct (clean_stack false (split_byte "/" p) []) as (plains & n & Hstack & Hplain & Hin);
    [by exists [], 0|]. rewrite Hstack in Hclean.
  destruct (String.eqb_spec (join "/" (reverse (plains ++ replicate n ".."))) "") as [Hb|Hb].
  { subst p. cbn in Hfirst. destruct Hfirst; discriminate. }
  assert (split_byte "/" p = reverse (plains ++ replicate n "..")) as Hsplit.
  { rewrite <-Hclean at 1. apply split_join.
    - intros Hnil. rewrite Hnil in Hb. done.
    - rewrite Forall_reverse. apply Forall_app. split.
      + apply Forall_forall. intros w [Hw|?%elem_of_nil]%Hin; [|done].
        pose proof (split_byte_no_sep "/" p) as Hns. rewrite Forall_forall in Hns. by apply Hns.
      + apply Forall_replicate. cbn. intuition discriminate. }
  unfold stays_inside. rewrite Hsplit, Forall_reverse. apply Forall_app. split; [done|].
  destruct n as [|n]; [constructor|]. exfalso.
  rewrite reverse_app, reverse_replicate in Hsplit. rewrite Hsplit in Hfirst. cbn in Hfirst.
  destruct Hfirst; discriminate.
Qed.

(** A path the inventory check accepts stays inside the store. It is
    relative, has no empty, ["."] or [".."] element, carries no backslash, colon or
    control byte, and lies in the covered roots. *)
Theorem checkInventoryPath_safe p (Hok : checkInventoryPath p = Ok tt) :
  stays_inside p ∧ covered p = true ∧
  ∀ c, in_str c p → c ≠ "\"%char ∧ c ≠ ":"%char ∧ is_control c = false.
Proof.
  unfold checkInventoryPath in Hok.
  destruct (String.eqb p ""); [done|].
  destruct (contains_byte p "\") eqn:Hbs; [done|].
  destruct (contains_byte p ":") eqn:Hcol; [done|].
  destruct (contains_byte p "000"); [done|].
  destruct (has_prefix p "/") eqn:Habs; [done|].
  destruct (String.eqb_spec (path_clean p) p) as [Hcl|]; [|done]. cbn in Hok.
  destruct (all_bytes _ p) eqn:Hctl; [|done]. cbn in Hok.
  destruct (covered p) eqn:Hcov; [|done].
  split; [by apply clean_covered_inside|]. split; [done|]. intros c Hc.
  apply contains_byte_false in Hbs, Hcol. rewrite all_bytes_spec in Hctl.
  split; [by intros ->|]. split; [by intros ->|]. by apply negb_true_iff, Hctl.
Qed.

Lemma checkInventoryPath_safe_witness :
  stays_inside "docker/registry/v2/blobs/sha256/ab/x/data" ∧
  checkInventoryPath "docker/registry/v2/../../../etc/shadow" = Err PathNotClean ∧
  checkInventoryPath "../../etc/shadow" = Err PathUncovered.
Proof.
  split; [|split; vm_compute; reflexivity].
  apply (checkInventoryPath_safe "docker/registry/v2/blobs/sha256/ab/x/data").
  vm_compute. reflexivity.
Defined.

Lemma split_byte_app_gen c a b :
  split_byte c (a +:+ String c b) = split_byte c a ++ split_byte c b.
Proof.
  induction a as [|x a IH]; rewrite ?sapp_nil_l, ?sapp_cons; cbn.
  { by rewrite Ascii.eqb_refl. }
  destruct (Ascii.eqb x c); [by rewrite IH|]. rewrite IH.
  destruct (split_byte c a) eqn:E; [by apply split_byte_nonempty in E|done].
Qed.

Lemma stays_inside_join a b : stays_inside a → stays_inside b → stays_inside (a +:+ String "/" b).
Proof. unfold stays_inside. rewrite split_byte_app_gen, Forall_app. done. Qed.

Lemma stays_inside_segment s : plain_segment s → ¬ in_str "/" s → stays_inside s.
Proof. intros ??. unfold stays_inside. rewrite split_byte_single by done. by apply Forall_singleton. Qed.

Lemma repo_inside repo : checkRepoName repo = Ok tt → stays_inside repo.
Proof.
  unfold checkRepoName, stays_inside. destruct (String.eqb repo ""); [done|].
  destruct (4096 <? slen repo)%nat; [done|]. generalize (split_byte "/" repo) as segs.
  induction segs as [|seg segs IH]; cbn; [constructor|].
  destruct (String.eqb_spec seg ""), (String.eqb_spec seg "."), (String.eqb_spec seg ".."); cbn; try done.
  destruct (all_bytes is_repo_byte seg); [|done]. cbn. intros Hok. apply Forall_cons. split; [done|].
  by apply IH.
Qed.

Lemma bytes_no_slash f s : f "/"%char = false → all_bytes f s = true → ¬ in_str "/" s.
Proof. rewrite all_bytes_spec. intros Hf Hs Hin. apply Hs in Hin. congruence. Qed.

Lemma tag_inside tag : checkTag tag = Ok tt → stays_inside tag.
Proof.
  unfold checkTag. destruct (String.eqb_spec tag "") as [->|Hne]; [done|]. cbn [orb].
  destruct (128 <? slen tag)%nat; [done|]. destruct tag as [|c rest]; [done|].
  destruct (is_tag_first c) eqn:Hc; [|done]. destruct (all_bytes is_tag_byte rest) eqn:Hr; [|done].
  intros _. apply stays_inside_segment.
  - split; [done|]. split; intros Heq; injection Heq as -> _; vm_compute in Hc; discriminate.
  - intros [->|Hin]; [done|]. by apply (bytes_no_slash is_tag_byte rest).
Qed.

Lemma hex_inside h : slen h = 64 → all_bytes is_hex_byte h = true → stays_inside h.
Proof.
  intros Hl Hh. apply stays_inside_segment; [|by apply hex_no_slash].
  split; [by intros ->|]. split; by intros ->.
Qed.

(** A manifest the validators accept cannot lead outside the store: every
    path the walk builds from an accepted repository name, tag and digest stays
    inside it. *)
Theorem layout_paths_safe repo tag d h
    (Hrepo : checkRepoName repo = Ok tt) (Htag : checkTag tag = Ok tt) (Hd : digestHex d = Ok h) :
  stays_inside (blobPath h) ∧ stays_inside (manifestLinkPath repo h) ∧
  stays_inside (layerLinkPath repo h) ∧ stays_inside (tagCurrentPath repo tag) ∧
  stays_inside (tagIndexDir repo tag).
Proof.
  apply digestHex_Ok in Hd as (_ & Hlen & Hhex).
  pose proof (repo_inside repo Hrepo) as Hr. pose proof (tag_inside tag Htag) as Ht.
  pose proof (hex_inside h Hlen Hhex) as Hh.
  assert (stays_inside (stake 2 h)) as H2.
  { apply stays_inside_segment; [|intros Hin%in_str_stake; by apply (hex_no_slash h)].
    destruct h as [|a [|b h]]; [done|done|]. cbn. split; [done|].
    split; intros Heq; [discriminate|]. injection Heq as -> ->. vm_compute in Hhex. discriminate. }
  assert (stays_inside blobsPrefix ∧ stays_inside reposPrefix ∧ stays_inside "data" ∧
    stays_inside "link" ∧ stays_inside "index" ∧ stays_inside "current/link" ∧
    stays_inside "_manifests/tags" ∧ stays_inside "_layers/sha256" ∧
    stays_inside "_manifests/revisions/sha256") as (P1 & P2 & P3 & P4 & P5 & P6 & P7 & P8 & P9).
  { split_and!; by apply (bool_decide_unpack _); vm_compute. }
  assert (∀ a b c, stays_inside a → stays_inside b → stays_inside c →
    stays_inside (a +:+ String "/" (b +:+ String "/" c))) as Hj3
    by (intros; apply stays_inside_join; [done|by apply stays_inside_join]).
  unfold blobPath, manifestLinkPath, layerLinkPath, tagCurrentPath, tagIndexDir.
  split; [|split; [|split; [|split]]].
  - apply stays_inside_join; [done|]. by apply Hj3.
  - apply (stays_inside_join reposPrefix); [done|]. apply stays_inside_join; [done|].
    by apply (Hj3 "_manifests/revisions/sha256" h "link").
  - apply (stays_inside_join reposPrefix); [done|]. apply stays_inside_join; [done|].
    by apply (Hj3 "_layers/sha256" h "link").
  - apply (stays_inside_join reposPrefix); [done|]. apply stays_inside_join; [done|].
    by apply (Hj3 "_manifests/tags" tag "current/link").
  - apply (stays_inside_join reposPrefix); [done|]. apply stays_inside_join; [done|].
    by apply (Hj3 "_manifests/tags" tag "index").
Qed.

Lemma layout_paths_safe_witness :
  stays_inside (tagCurrentPath "base/docker.io/nginx" "v1.2") ∧
  checkRepoName "a/../b" = Err NameSegment ∧ checkTag "../x" = Err NameCharacter.
Proof.
  split; [|split; vm_compute; reflexivity].
  destruct (layout_paths_safe "base/docker.io/nginx" "v1.2"
    "sha256:0123456789abcdef0123456789abcdef0123456789abcdef0123456789abcdef"
    "0123456789abcdef0123456789abcdef0123456789abcdef0123456789abcdef") as (_ & _ & _ & Ht & _).
  1-3: vm_compute; reflexivity.
  exact Ht.
Defined.
