(* ===== verification/MediaVerify.v ===== *)
(** Verification of a transported store (internal/media/verify.go, with the
    document of manifest.go and the report of report.go): the manifest and its
    validation, the medium-wide guards, the per-recipe reachability walk with its
    cache of re-hashed files, the signature decision and the verdict. *)

From stdpp Require Import pretty.
From S2P Require Import Prelude GoStrings Relocate Taxonomy Tasks MediaPaths.

(** * The media manifest *)

Record Ingredient := mkIngredient {
  in_name : string; in_kind : string; in_repo : string; in_tag : string; in_digest : string }.
Record Recipe := mkRecipe {
  rc_name : string; rc_version : string; rc_cookbook : string; rc_artifact_repo : string;
  rc_artifact_tag : string; rc_digest : string; rc_resolved : time; rc_ingredients : list Ingredient }.
Record InvFile := mkFile { f_path : string; f_size : Z; f_digest : string }.
Record Totals := mkTotals { to_files : Z; to_bytes : Z }.
Record Manifest := mkManifest {
  m_media_format : Z; m_store_format : Z; m_media_id : string; m_zone : string; m_version : string;
  m_run_id : string; m_resolved : time; m_written : time; m_recipes : list Recipe;
  m_inventory : list InvFile; m_totals : Totals }.

Definition ManifestFormat : Z := 1.
Definition FormatVersion : Z := 1.
Definition maxManifestBytes : Z := 1048576.

(** [ociDocument]: what a stored document points at. *)
Record OciDoc := mkOci { oci_config : option string; oci_layers : list string; oci_manifests : list string }.

(** * The report *)

Inductive Verdict := VerdictPushable | VerdictPartial | VerdictBlocked.
#[export] Instance Verdict_eq_dec : EqDecision Verdict.
Proof. solve_decision. Defined.

Abbreviation SParams := (gmap string string).
Record Block := mkBlock { b_code : Code; b_params : SParams; b_overridable : bool; b_overridden : bool }.
Record Reason := mkReason { r_code : Code; r_path : string; r_params : SParams }.
Record Finding := mkFinding { fi_code : Code; fi_path : string }.
Record RecipeVerdict := mkVerdict {
  v_name : string; v_version : string; v_cookbook : string; v_artifact_repo : string; v_digest : string;
  v_resolved : time; v_pushable : bool; v_reason : option Reason; v_fingerprint : string;
  v_scope : string; v_unsigned : bool; v_files : Z; v_bytes : Z }.
Record FreshnessCheck := mkFreshness {
  fc_resolved : time; fc_recorded : time; fc_media : string; fc_stale : bool }.
Record Report := mkReport {
  rep_verdict : Verdict; rep_blocks : list Block; rep_media : option Manifest;
  rep_zone : option (string * string * bool); rep_freshness : option FreshnessCheck;
  rep_recipes : list RecipeVerdict; rep_findings : list Finding; rep_checked : Totals }.

(** [Report.Pushable]. *)
Definition Pushable (r : Report) : list RecipeVerdict :=
  if decide (rep_verdict r = VerdictBlocked) then []
  else filter (λ v, v_pushable v = true) (rep_recipes r).

(** [ImportRecord]. *)
Record ImportRecord := mkImport {
  im_media : string; im_resolved : time; im_imported : time; im_run : string }.

(** * What verification reads through *)

(** The store directory: regular files, regular files that fail to read (with
    the size they announce), other things (sockets, links the root refuses), and
    directories with their entries in the order [fs.ReadDir] gives. *)
#[warnings="-register-all"]
Inductive node :=
  | Regular (data : string)
  | Broken (size : Z)
  | Special
  | Dir (entries : list (string * node)).

Fixpoint find_entry (name : string) (entries : list (string * node)) : option node :=
  match entries with
  | [] => None
  | (n, x) :: entries => if String.eqb n name then Some x else find_entry name entries
  end.
Fixpoint find_node (segs : list string) (n : node) : option node :=
  match segs with
  | [] => Some n
  | s :: segs =>
      match n with
      | Dir entries => find_entry s entries ≫= find_node segs
      | _ => None
      end
  end.
Definition node_at (root : node) (p : string) : option node := find_node (split_byte "/" p) root.
Definition is_dir (n : node) : bool := match n with Dir _ => true | _ => false end.

(** Why a manifest is refused, and the texts put in a report. *)
Inductive validate_error :=
  | VPath (e : path_error) | VTwice (p : string) | VNegative (p : string)
  | VDigest (p : string) (e : digest_error) | VNoName | VCookbook (id : string) (e : relocate_error)
  | VRepo (id : string) (e : name_error) | VTag (id : string) (e : name_error)
  | VRecipeDigest (id : string) (e : digest_error).
Inductive detail :=
  | DetailRead | DetailDecode | DetailTooLarge | DetailCanceled
  | DetailDigest (e : digest_error) | DetailInvalid (e : validate_error).

(** The libraries behind verification: SHA-256, the JSON decoder, the rendering
    of instants and of error texts. *)
Class MediaOracle : Type := {
  sha256hex : string → string;
  decode_manifest : string → option Manifest;
  decode_oci : string → option OciDoc;
  rfc3339 : time → string;
  detail_text : detail → string;
}.

(** The signature verifier (internal/sigverify) on the opened store, and the
    destination's trust policy. *)
Inductive SigOutcome :=
  | SigOk (fingerprint : string)
  | SigAbsent
  | SigNoTrustedKey (tried : list string)
  | SigBad (reason : string)
  | SigFailed (text : string).
Class SigVerifier : Type := {
  Keys : Type;
  sig_verify : string → string → Keys → SigOutcome;
}.
Record TrustDecision `{SigVerifier} := mkTrust {
  td_allow_unsigned : bool; td_scope : string; td_keys : option Keys }.

Record VerifyOptions `{SigVerifier} := mkOptions {
  vo_zone : string; vo_trust : option (string → TrustDecision); vo_last_import : option ImportRecord;
  vo_allow_zone_mismatch : bool; vo_allow_stale : bool }.

(** * The checker *)

Definition sp (l : list (string * string)) : SParams := list_to_map l.

(** [checker]'s mutable part; [c_budget] is how many times [ctx.Err()] still
    answers nil ([None]: the context is never cancelled). *)
Record checker := mkChecker {
  c_results : gmap string (option Reason); c_reached : gset string; c_files : Z; c_bytes : Z;
  c_budget : option nat }.

Definition ctx_err (c : checker) : bool * checker :=
  match c_budget c with
  | None => (false, c)
  | Some 0 => (true, c)
  | Some (S n) => (false, mkChecker (c_results c) (c_reached c) (c_files c) (c_bytes c) (Some n))
  end.

Definition mark_reached (p : string) (c : checker) : checker :=
  mkChecker (c_results c) ({[ p ]} ∪ c_reached c) (c_files c) (c_bytes c) (c_budget c).
Definition set_result (p : string) (r : option Reason) (c : checker) : checker :=
  mkChecker (<[p := r]> (c_results c)) (c_reached c) (c_files c) (c_bytes c) (c_budget c).
Definition count_file (n : Z) (c : checker) : checker :=
  mkChecker (c_results c) (c_reached c) (add64 (c_files c) 1) (add64 (c_bytes c) n) (c_budget c).

(** [withRecipe]. *)
Definition withRecipe (r : option Reason) (recipe : string) : option Reason :=
  match r with
  | None => None
  | Some r0 =>
      if String.eqb recipe "" then r
      else match r_params r0 !! "recipe" with
           | None => r
           | Some _ => Some (mkReason (r_code r0) (r_path r0) (<["recipe" := recipe]> (r_params r0)))
           end
  end.

Section verify.
Context `{GoRuntime, MediaOracle, SigVerifier}.

Section medium.
Context (root : node) (inv : gmap string InvFile).

(** [checkUncached]. *)
Definition checkUncached (p recipe : string) (c : checker) : option Reason * checker :=
  match inv !! p with
  | None => (Some (mkReason CodeMediaFileUninventoried p (sp [("path", p); ("recipe", recipe)])), c)
  | Some entry =>
      let missing := (Some (mkReason CodeMediaFileMissing p (sp [("path", p); ("recipe", recipe)])), c) in
      let size_wrong actual := (Some (mkReason CodeMediaFileSize p
        (sp [("path", p); ("expected", pretty (f_size entry)); ("actual", pretty actual)])), c) in
      match node_at root p with
      | None | Some Special | Some (Dir _) => missing
      | Some (Broken size) =>
          if negb (size =? f_size entry)%Z then size_wrong size
          else (Some (mkReason CodeMediaContentUnreadable p
                  (sp [("path", p); ("detail", detail_text DetailRead)])), c)
      | Some (Regular data) =>
          let size := Z.of_nat (slen data) in
          if negb (size =? f_size entry)%Z then size_wrong size
          else
            let got := "sha256:" +:+ sha256hex data in
            let c := count_file size c in
            if negb (String.eqb got (f_digest entry)) then
              (Some (mkReason CodeMediaFileDigest p
                (sp [("path", p); ("expected", f_digest entry); ("actual", got)])), c)
            else match hexOfBlobPath p with
                 | Some want =>
                     if negb (String.eqb got ("sha256:" +:+ want)) then
                       (Some (mkReason CodeMediaContentAddress p
                         (sp [("path", p); ("expected", "sha256:" +:+ want); ("actual", got)])), c)
                     else (None, c)
                 | None => (None, c)
                 end
      end
  end.

(** [check]. *)
Definition check (p recipe : string) (c : checker) : option Reason * checker :=
  let c := mark_reached p c in
  match c_results c !! p with
  | Some r => (withRecipe r recipe, c)
  | None =>
      let '(reason, c) := checkUncached p recipe c in
      (reason, set_result p reason c)
  end.

(** [exists]: an optional file is there, and regular. *)
Definition exists_file (p : string) : bool :=
  match node_at root p with Some (Regular _) | Some (Broken _) => true | _ => false end.

(** * The walk of one recipe *)

Record walk := mkWalk {
  w_c : checker; w_seen : gset string; w_reason : option Reason; w_files : Z; w_bytes : Z }.

Definition fail (r : Reason) (w : walk) : walk :=
  mkWalk (w_c w) (w_seen w) (match w_reason w with None => Some r | Some r => Some r end)
    (w_files w) (w_bytes w).
Definition with_checker (c : checker) (w : walk) : walk :=
  mkWalk c (w_seen w) (w_reason w) (w_files w) (w_bytes w).
Definition failed (w : walk) : bool := match w_reason w with Some _ => true | None => false end.

Definition unreadable_at (p : string) (d : detail) : Reason :=
  mkReason CodeMediaContentUnreadable p (sp [("path", p); ("detail", detail_text d)]).

(** The check of one file within a walk. *)
Definition walk_check (recipe p : string) (w : walk) : walk :=
  let '(reason, c) := check p recipe (w_c w) in
  match reason with
  | Some r => fail r (with_checker c w)
  | None => with_checker c w
  end.

(** [walk.file]. *)
Definition walk_file (recipe p : string) (w : walk) : walk :=
  if failed w then w
  else
    let '(canceled, c) := ctx_err (w_c w) in
    let w := with_checker c w in
    if canceled then fail (unreadable_at p DetailCanceled) w
    else
      let w := match inv !! p with
               | Some e => mkWalk (w_c w) (w_seen w) (w_reason w) (add64 (w_files w) 1)
                             (add64 (w_bytes w) (f_size e))
               | None => w
               end in
      walk_check recipe p w.

(** [walk.optionalTree], on the directory it reads. *)
Fixpoint optional_tree (recipe : string) (n : node) (dir : string) (w : walk) : walk :=
  match n with
  | Dir entries =>
      (fix loop (entries : list (string * node)) (w : walk) : walk :=
         match entries with
         | [] => w
         | (name, sub) :: entries =>
             let p := dir +:+ "/" +:+ name in
             if is_dir sub then loop entries (optional_tree recipe sub p w)
             else match inv !! p with
                  | None => loop entries (with_checker (mark_reached p (w_c w)) w)
                  | Some _ =>
                      let '(reason, c) := check p recipe (w_c w) in
                      match reason with
                      | Some r => fail r (with_checker c w)
                      | None => loop entries (with_checker c w)
                      end
                  end
         end) entries w
  | _ => w
  end.
Definition optionalTree (recipe dir : string) (w : walk) : walk :=
  match node_at root dir with Some n => optional_tree recipe n dir w | None => w end.

(** [walk.read]. *)
Definition walk_read (p : string) : res detail string :=
  match node_at root p with
  | Some (Regular data) =>
      if (maxManifestBytes <? Z.of_nat (slen data))%Z then Err DetailTooLarge else Ok data
  | _ => Err DetailRead
  end.

(** [walk.blob]. *)
Definition walk_blob (recipe repo dgst : string) (w : walk) : walk :=
  if failed w then w
  else match digestHex dgst with
       | Err e => fail (unreadable_at repo (DetailDigest e)) w
       | Ok h => walk_file recipe (blobPath h) (walk_file recipe (layerLinkPath repo h) w)
       end.

Definition key (repo dgst : string) : string := repo +:+ "@" +:+ dgst.
Definition add_seen (k : string) (w : walk) : walk :=
  mkWalk (w_c w) ({[ k ]} ∪ w_seen w) (w_reason w) (w_files w) (w_bytes w).

(** The part of [walk.manifest] between the guard on the seen set and the
    descent: [inl] is a walk that ends here, [inr] the document to descend in. *)
Definition walk_open (recipe repo dgst : string) (required : bool) (w : walk) : walk + (OciDoc * walk) :=
  let w := add_seen (key repo dgst) w in
  match digestHex dgst with
  | Err e => inl (fail (unreadable_at repo (DetailDigest e)) w)
  | Ok h =>
      let blob := blobPath h in
      if negb required && negb (exists_file blob) then inl w
      else
        let w := walk_file recipe blob (walk_file recipe (manifestLinkPath repo h) w) in
        if failed w then inl w
        else match walk_read blob with
             | Err d => inl (fail (unreadable_at blob d) w)
             | Ok raw =>
                 match decode_oci raw with
                 | None => inl (fail (unreadable_at blob DetailDecode) w)
                 | Some doc => inr (doc, w)
                 end
             end
  end.

Definition doc_blobs (doc : OciDoc) : list string :=
  match oci_config doc with Some d => d :: oci_layers doc | None => oci_layers doc end.

(** The loop over the children of an index. *)
Fixpoint walk_children (visit : string → walk → option walk) (ds : list string) (w : walk)
  : option walk :=
  match ds with
  | [] => Some w
  | d :: ds => w ← visit d w; walk_children visit ds w
  end.

(** [walk.manifest]; [None] only when the fuel runs out. *)
Fixpoint walk_manifest (fuel : nat) (recipe repo dgst : string) (required : bool) (w : walk)
  : option walk :=
  match fuel with
  | 0 => None
  | S fuel =>
      if failed w then Some w
      else if decide (key repo dgst ∈ w_seen w) then Some w
      else match walk_open recipe repo dgst required w with
           | inl w => Some w
           | inr (doc, w) =>
               w ← walk_children (λ d w, walk_manifest fuel recipe repo d false w) (oci_manifests doc) w;
               Some (fold_left (λ w d, walk_blob recipe repo d w) (doc_blobs doc) w)
           end
  end.

(** One descent per inventoried blob at most, and one call that stops. *)
Definition walk_fuel : nat := S (size inv).

(** [walk.root]. *)
Definition walk_root (recipe repo dgst tag : string) (w : walk) : option walk :=
  if failed w then Some w
  else
    let w := if String.eqb tag "" then w
             else optionalTree recipe (tagIndexDir repo tag)
                    (walk_file recipe (tagCurrentPath repo tag) w) in
    walk_manifest walk_fuel recipe repo dgst true w.

(** [walk.currentDigest]. *)
Definition currentDigest (repo tag : string) : option string :=
  match node_at root (tagCurrentPath repo tag) with
  | Some (Regular data) =>
      let d := trim_space (stake 128 data) in
      match digestHex d with Ok _ => Some d | Err _ => None end
  | _ => None
  end.

(** [walk.signatures]. *)
Definition walk_signature_tag (recipe repo tag : string) (w : walk) : option walk :=
  if negb (exists_file (tagCurrentPath repo tag)) then Some w
  else
    let w := optionalTree recipe (tagIndexDir repo tag)
               (walk_file recipe (tagCurrentPath repo tag) w) in
    match currentDigest repo tag with
    | Some d => walk_manifest walk_fuel recipe repo d true w
    | None => Some w
    end.
Definition walk_signatures (recipe repo dgst : string) (w : walk) : option walk :=
  match digestHex dgst with
  | Err _ => Some w
  | Ok h =>
      w ← walk_signature_tag recipe repo ("sha256-" +:+ h +:+ ".sig") w;
      walk_signature_tag recipe repo ("sha256-" +:+ h) w
  end.

(** [walk.delivery]. *)
Fixpoint walk_ingredients (recipe : string) (ings : list Ingredient) (w : walk) : option walk :=
  match ings with
  | [] => Some w
  | i :: ings =>
      w ← walk_root recipe (in_repo i) (in_digest i) (in_tag i) w;
      walk_ingredients recipe ings w
  end.
Definition delivery (recipe : string) (r : Recipe) (w : walk) : option walk :=
  w ← walk_root recipe (rc_artifact_repo r) (rc_digest r) (rc_artifact_tag r) w;
  w ← walk_signatures recipe (rc_artifact_repo r) (rc_digest r) w;
  walk_ingredients recipe (rc_ingredients r) w.
End medium.

(** * The manifest *)

(** [validateRecipe]. *)
Definition check_ref (id repo tag dgst : string) : res validate_error unit :=
  _ ← wrap_err (VRepo id) (checkRepoName repo);
  _ ← (if String.eqb tag "" then Ok tt else wrap_err (VTag id) (checkTag tag));
  _ ← wrap_err (VRecipeDigest id) (digestHex dgst);
  Ok tt.
Fixpoint check_ingredients (id : string) (ings : list Ingredient) : res validate_error unit :=
  match ings with
  | [] => Ok tt
  | i :: ings => _ ← check_ref id (in_repo i) (in_tag i) (in_digest i); check_ingredients id ings
  end.
Definition validateRecipe (r : Recipe) : res validate_error unit :=
  if String.eqb (rc_name r) "" || String.eqb (rc_version r) "" then Err VNoName
  else
    let id := rc_name r +:+ "@" +:+ rc_version r in
    _ ← wrap_err (VCookbook id) (Path (rc_cookbook r));
    _ ← check_ref id (rc_artifact_repo r) (rc_artifact_tag r) (rc_digest r);
    check_ingredients id (rc_ingredients r).

(** [validate]. *)
Fixpoint validate_inventory (seen : gset string) (l : list InvFile) : res validate_error unit :=
  match l with
  | [] => Ok tt
  | e :: l =>
      _ ← wrap_err VPath (checkInventoryPath (f_path e));
      if decide (f_path e ∈ seen) then Err (VTwice (f_path e))
      else if (f_size e <? 0)%Z then Err (VNegative (f_path e))
      else
        _ ← wrap_err (VDigest (f_path e)) (digestHex (f_digest e));
        validate_inventory ({[ f_path e ]} ∪ seen) l
  end.
Fixpoint validate_recipes (l : list Recipe) : res validate_error unit :=
  match l with
  | [] => Ok tt
  | r :: l => _ ← validateRecipe r; validate_recipes l
  end.
Definition validate (m : Manifest) : res validate_error unit :=
  _ ← validate_inventory ∅ (m_inventory m); validate_recipes (m_recipes m).

(** [unreadable]. *)
Definition unreadable (d : detail) : Block :=
  mkBlock CodeMediaManifestUnreadable (sp [("path", ManifestPath); ("detail", detail_text d)]) false false.

(** [io.ReadAll] of a bounded reader. *)
Definition limit_reader (n : Z) (data : string) : string :=
  if (Z.of_nat (slen data) <=? n)%Z then data else stake (Z.to_nat n) data.

(** [readManifest]. *)
Definition readManifest (root : node) : Manifest + Block :=
  match node_at root ManifestPath with
  | None => inr (mkBlock CodeMediaManifestMissing (sp [("path", ManifestPath)]) false false)
  | Some (Regular data) =>
      match decode_manifest (limit_reader (maxManifestBytes * 64) data) with
      | None => inr (unreadable DetailDecode)
      | Some m =>
          match validate m with
          | Err e => inr (unreadable (DetailInvalid e))
          | Ok _ =>
              if negb (m_media_format m =? ManifestFormat)%Z then
                inr (mkBlock CodeMediaFormatUnsupported
                  (sp [("found", pretty (m_media_format m)); ("supported", pretty ManifestFormat)]) false false)
              else if negb (m_store_format m =? FormatVersion)%Z then
                inr (mkBlock CodeMediaStoreFormat
                  (sp [("found", pretty (m_store_format m)); ("supported", pretty FormatVersion)]) false false)
              else inl m
          end
      end
  | Some _ => inr (unreadable DetailRead)
  end.

(** * The verdict *)

(** [standing]. *)
Definition standing (blocks : list Block) : bool := existsb (λ b, negb (b_overridden b)) blocks.

(** [finish]. *)
Definition verdict_of (blocks : list Block) (recipes : list RecipeVerdict) : Verdict :=
  if standing blocks then VerdictBlocked
  else
    let pushable := length (filter (λ v, v_pushable v = true) recipes) in
    let blocked := length (filter (λ v, v_pushable v = false) recipes) in
    if (blocked =? 0)%nat then VerdictPushable
    else if (pushable =? 0)%nat then VerdictBlocked
    else VerdictPartial.

(** [globalBlocks]: the blocks, the freshness comparison and the checker. *)
Definition graph_block (r : Reason) : Block :=
  mkBlock CodeMediaGraphAltered
    (sp [("path", recipesFile); ("expected", default "" (r_params r !! "expected"));
         ("actual", default "" (r_params r !! "actual"))]) false false.

Definition freshness (m : Manifest) (opts : VerifyOptions) : option FreshnessCheck :=
  last ← vo_last_import opts;
  Some (mkFreshness (m_resolved m) (im_resolved last) (im_media last)
          (m_resolved m <? im_resolved last)%Z).

Definition globalBlocks (root : node) (inv : gmap string InvFile) (m : Manifest) (opts : VerifyOptions)
    (c : checker) : list Block * checker :=
  let '(reason, c) := check root inv recipesFile "" c in
  (match reason with Some r => [graph_block r] | None => [] end ++
   (if String.eqb (m_zone m) (vo_zone opts) then []
    else [mkBlock CodeMediaZoneMismatch (sp [("expected", vo_zone opts); ("found", m_zone m)])
            true (vo_allow_zone_mismatch opts)]) ++
   match freshness m opts with
   | Some f =>
       if fc_stale f then
         [mkBlock CodeMediaStale
            (sp [("zone", vo_zone opts); ("media", m_media_id m); ("resolved", rfc3339 (fc_resolved f));
                 ("recorded", rfc3339 (fc_recorded f))]) true (vo_allow_stale opts)]
       else []
   | None => []
   end, c).

(** [fingerprintsOf]. *)
Definition fingerprintsOf (o : SigOutcome) : string :=
  match o with
  | SigNoTrustedKey tried => join ", " tried
  | SigBad reason => reason
  | SigAbsent => "no signature artifact found"
  | SigFailed text => text
  | SigOk f => f
  end.

(** [decide]. *)
Inductive decision :=
  | DVerified (scope fingerprint : string)
  | DUnsigned (scope : string)
  | DRefused (scope : string) (r : Reason).
Definition decide_recipe (r : Recipe) (trust : option (string → TrustDecision)) : decision :=
  let nominal := match Path (rc_cookbook r) with Ok p => p | Err _ => rc_cookbook r end in
  let d := match trust with Some t => t nominal | None => mkTrust _ false "" None end in
  let refuse text := DRefused (td_scope d)
    (mkReason CodeSignature "" (sp [("recipe", nominal); ("fingerprints", text)])) in
  match td_keys d with
  | None => if td_allow_unsigned d then DUnsigned (td_scope d)
            else refuse "none — no trust root is configured"
  | Some keys =>
      match sig_verify (rc_artifact_repo r) (rc_digest r) keys with
      | SigOk fp => DVerified (td_scope d) fp
      | SigAbsent => if td_allow_unsigned d then DUnsigned (td_scope d) else refuse (fingerprintsOf SigAbsent)
      | o => refuse (fingerprintsOf o)
      end
  end.

(** One turn of the loop of [verifyRecipes]. *)
Definition verdict_base (r : Recipe) (w : walk) (d : decision) : RecipeVerdict :=
  match d with
  | DVerified scope fp =>
      mkVerdict (rc_name r) (rc_version r) (rc_cookbook r) (rc_artifact_repo r) (rc_digest r)
        (rc_resolved r) true None fp scope false (w_files w) (w_bytes w)
  | DUnsigned scope =>
      mkVerdict (rc_name r) (rc_version r) (rc_cookbook r) (rc_artifact_repo r) (rc_digest r)
        (rc_resolved r) true None "" scope true (w_files w) (w_bytes w)
  | DRefused scope reason =>
      mkVerdict (rc_name r) (rc_version r) (rc_cookbook r) (rc_artifact_repo r) (rc_digest r)
        (rc_resolved r) false (Some reason) "" scope false (w_files w) (w_bytes w)
  end.

Definition verify_recipe (root : node) (inv : gmap string InvFile) (opts : VerifyOptions) (r : Recipe)
    (c : checker) : option (RecipeVerdict * checker) :=
  let id := rc_name r +:+ "@" +:+ rc_version r in
  w ← delivery root inv id r (mkWalk c ∅ None 0 0);
  match w_reason w with
  | Some reason => Some (verdict_base r w (DRefused "" reason), w_c w)
  | None =>
      let '(canceled, c) := ctx_err (w_c w) in
      if canceled then
        Some (verdict_base r w (DRefused "" (mkReason CodeMediaContentUnreadable ""
          (sp [("path", rc_artifact_repo r); ("detail", detail_text DetailCanceled)]))), c)
      else Some (verdict_base r w (decide_recipe r (vo_trust opts)), c)
  end.

(** [verifyRecipes]. *)
Fixpoint verifyRecipes (root : node) (inv : gmap string InvFile) (opts : VerifyOptions)
    (l : list Recipe) (c : checker) : option (list RecipeVerdict * checker) :=
  match l with
  | [] => Some ([], c)
  | r :: l =>
      '(v, c) ← verify_recipe root inv opts r c;
      '(vs, c) ← verifyRecipes root inv opts l c;
      Some (v :: vs, c)
  end.

(** * Findings *)

(** The callback of [fs.WalkDir] in [uncovered], over a subtree in its order: the
    files found, the checker, and whether the walk was aborted by the context. *)
Fixpoint walk_dir (inv : gmap string InvFile) (n : node) (p : string)
    (acc : list string * checker * bool) : list string * checker * bool :=
  let '(out, c, aborted) := acc in
  if aborted then acc
  else
    let '(canceled, c) := ctx_err c in
    if canceled then (out, c, true)
    else
      match n with
      | Dir entries =>
          (fix loop (entries : list (string * node)) acc :=
             match entries with
             | [] => acc
             | (name, sub) :: entries => loop entries (walk_dir inv sub (p +:+ "/" +:+ name) acc)
             end) entries (out, c, false)
      | _ => (if covered p && negb (bool_decide (is_Some (inv !! p))) then out ++ [p] else out, c, false)
      end.

Definition uncovered_root (root : node) (inv : gmap string InvFile) (acc : list string * checker)
    (sub : string) : list string * checker :=
  let '(out, c) := acc in
  match node_at root sub with
  | None => (out, c)
  | Some n =>
      let '(out, c, aborted) := walk_dir inv n sub (out, c, false) in
      (if aborted then out ++ [sub +:+ " (not fully readable: " +:+ detail_text DetailCanceled +:+ ")"]
       else out, c)
  end.

(** [uncovered]. *)
Definition uncovered (root : node) (inv : gmap string InvFile) (c : checker) : list string * checker :=
  let '(out, c) := fold_left (uncovered_root root inv) coveredRoots ([], c) in
  (sort_slice str_ltb out, c).

(** [findings]. *)
Fixpoint inventory_findings (root : node) (inv : gmap string InvFile) (l : list InvFile) (c : checker)
  : list Finding * checker :=
  match l with
  | [] => ([], c)
  | e :: l =>
      let p := f_path e in
      if has_prefix p (metaPrefix +:+ "/") then
        if String.eqb p recipesFile then inventory_findings root inv l c
        else
          let '(reason, c) := check root inv p "" c in
          let '(out, c) := inventory_findings root inv l c in
          (match reason with Some _ => mkFinding CodeMediaMetadataAltered p :: out | None => out end, c)
      else
        let '(out, c') := inventory_findings root inv l c in
        (if decide (p ∈ c_reached c) then out else mkFinding CodeMediaUnreachable p :: out, c')
  end.

Definition finding_less (a b : Finding) : bool :=
  if negb (String.eqb (fi_code a) (fi_code b)) then str_ltb (fi_code a) (fi_code b)
  else str_ltb (fi_path a) (fi_path b).

Definition findings (root : node) (inv : gmap string InvFile) (m : Manifest) (c : checker)
  : list Finding * checker :=
  let '(out, c) := inventory_findings root inv (m_inventory m) c in
  let '(extra, c) := uncovered root inv c in
  (sort_slice finding_less (out ++ (mkFinding CodeMediaUncovered <$> extra)), c).

(** * [Verify] *)

Definition inventory_map (m : Manifest) : gmap string InvFile :=
  fold_left (λ inv e, <[f_path e := e]> inv) (m_inventory m) ∅.

(** The report; the outer [None] is a store that does not open, or a walk that
    ran out of fuel. *)
Definition Verify (store : option node) (opts : VerifyOptions) (budget : option nat) : option Report :=
  root ← store;
  match readManifest root with
  | inr block => Some (mkReport VerdictBlocked [block] None None None [] [] (mkTotals 0 0))
  | inl m =>
      let inv := inventory_map m in
      let zone := Some (vo_zone opts, m_zone m, String.eqb (m_zone m) (vo_zone opts)) in
      let '(blocks, c) := globalBlocks root inv m opts (mkChecker ∅ ∅ 0 0 budget) in
      if standing blocks then
        Some (mkReport VerdictBlocked blocks (Some m) zone (freshness m opts) [] []
                (mkTotals (c_files c) (c_bytes c)))
      else
        '(recipes, c) ← verifyRecipes root inv opts (m_recipes m) c;
        let '(fs, c) := findings root inv m c in
        Some (mkReport (verdict_of blocks recipes) blocks (Some m) zone (freshness m opts) recipes fs
                (mkTotals (c_files c) (c_bytes c)))
  end.
End verify.
