(* ===== verification/MediaSafety.v ===== *)
(** What media verification (internal/media/verify.go) establishes: termination
    of the walk, integrity and completeness of a recipe cleared for the push,
    the secure defaults of the signature decision, and the verdict. *)

From S2P Require Import Prelude GoStrings Relocate Taxonomy Tasks MediaPaths MediaVerify.

Section safety.
Context `{GoRuntime, MediaOracle, SigVerifier}.

Section medium.
Context (root : node) (inv : gmap string InvFile).

(** A file that is inventoried, present, of the declared size and digest, and,
    for a blob, of the digest its own path claims. *)
Definition sound (p : string) : Prop :=
  ∃ e data, inv !! p = Some e ∧ node_at root p = Some (Regular data) ∧
    f_size e = Z.of_nat (slen data) ∧ f_digest e = "sha256:" +:+ sha256hex data ∧
    ∀ h, hexOfBlobPath p = Some h → sha256hex data = h.

(** The cache only clears sound files. *)
Definition coherent (c : checker) : Prop := ∀ p, c_results c !! p = Some None → sound p.

Lemma checkUncached_spec p recipe c :
  let '(r, c') := checkUncached root inv p recipe c in
  c_results c' = c_results c ∧ (r = None → sound p).
Proof.
  unfold checkUncached. destruct (inv !! p) as [e|] eqn:He; [|done].
  destruct (node_at root p) as [[data|size| |es]|] eqn:Hn; try done.
  - destruct (Z.eqb_spec (Z.of_nat (slen data)) (f_size e)) as [Hsz|]; [|done]. cbn.
    destruct (String.eqb_spec ("sha256:" +:+ sha256hex data) (f_digest e)) as [Hd|]; [|done]. cbn.
    destruct (hexOfBlobPath p) as [want|] eqn:Hw.
    + destruct (String.eqb_spec ("sha256:" +:+ sha256hex data) ("sha256:" +:+ want)) as [Heq|]; [|done].
      cbn. split; [done|]. intros _. exists e, data. repeat (split; [congruence|]).
      intros h Hh. rewrite Hw in Hh. injection Hh as <-. by apply sapp_inj_l in Heq.
    + split; [done|]. intros _. exists e, data. repeat (split; [congruence|]). congruence.
  - destruct (size =? f_size e)%Z; cbn; done.
Qed.

Lemma withRecipe_None r recipe : withRecipe r recipe = None → r = None.
Proof. destruct r as [r|]; [|done]. cbn. case_match; [done|]. case_match; done. Qed.

Lemma check_spec p recipe c :
  coherent c →
  let '(r, c') := check root inv p recipe c in coherent c' ∧ (r = None → sound p).
Proof.
  intros Hc. unfold check. cbn.
  destruct (c_results c !! p) as [r|] eqn:Hr.
  - split; [done|]. intros ->%withRecipe_None. by apply Hc.
  - pose proof (checkUncached_spec p recipe (mark_reached p c)) as Hu.
    destruct (checkUncached root inv p recipe (mark_reached p c)) as [r c'].
    destruct Hu as [Hres Hs]. split; [|done]. intros p'. cbn. rewrite Hres, lookup_insert_Some.
    intros [[<- ->]|[_ Hp']]; [by apply Hs|by apply Hc].
Qed.

(** One walk state extends another. *)
Definition extends (w w' : walk) : Prop :=
  (coherent (w_c w) → coherent (w_c w')) ∧ w_seen w ⊆ w_seen w' ∧
  (w_reason w' = None → w_reason w = None).

#[export] Instance extends_preorder : PreOrder extends.
Proof.
  split.
  - by intros w.
  - intros w1 w2 w3 (C1 & S1 & R1) (C2 & S2 & R2). split; [auto|]. split; [by etrans|auto].
Qed.

Lemma fail_extends r w : extends w (fail r w).
Proof. split; [done|]. split; [done|]. cbn. by destruct (w_reason w). Qed.
Lemma fail_not_None r w : w_reason (fail r w) ≠ None.
Proof. cbn. by destruct (w_reason w). Qed.

Lemma ctx_err_results c : c_results (ctx_err c).2 = c_results c.
Proof. unfold ctx_err. by destruct (c_budget c) as [[|n]|]. Qed.

Lemma walk_check_spec recipe p w :
  let w' := walk_check root inv recipe p w in
  extends w w' ∧ w_seen w' = w_seen w ∧ (coherent (w_c w) → w_reason w' = None → sound p).
Proof.
  cbn. unfold walk_check. pose proof (check_spec p recipe (w_c w)) as Hs.
  destruct (check root inv p recipe (w_c w)) as [[r|] c'].
  - split; [|split; [done|]].
    + split; [cbn; intros Hc; by apply Hs|]. split; [done|]. cbn. by destruct (w_reason w).
    + intros _ Hn. by apply fail_not_None in Hn.
  - split; [|split; [done|]].
    + split; [cbn; intros Hc; by apply Hs|]. done.
    + intros Hc _. by apply Hs.
Qed.

Lemma walk_file_spec recipe p w :
  let w' := walk_file root inv recipe p w in
  extends w w' ∧ w_seen w' = w_seen w ∧ (coherent (w_c w) → w_reason w' = None → sound p).
Proof.
  cbn. unfold walk_file, failed. destruct (w_reason w) as [r|] eqn:Hr.
  { split; [reflexivity|]. split; [done|]. congruence. }
  pose proof (ctx_err_results (w_c w)) as Hres. destruct (ctx_err (w_c w)) as [canceled c]. cbn in Hres.
  assert (coherent (w_c w) → coherent c) as Hcoh by (unfold coherent; by rewrite Hres).
  destruct canceled.
  - split; [|split; [done|]].
    + split; [done|]. split; [done|]. cbn. by rewrite Hr.
    + intros _ Hn. by apply fail_not_None in Hn.
  - set (w1 := match inv !! p with Some e => _ | None => with_checker c w end).
    assert (w_c w1 = c ∧ w_seen w1 = w_seen w ∧ w_reason w1 = w_reason w) as (E1 & E2 & E3)
      by (unfold w1; by destruct (inv !! p)).
    destruct (walk_check_spec recipe p w1) as ((C & S & R) & Hseen & Hs). rewrite E1 in *.
    split; [|split; [congruence|auto]].
    split; [auto|]. split; [by rewrite <-E2|]. intros Hn. rewrite <-E3. auto.
Qed.

Lemma optional_tree_spec recipe n dir w :
  let w' := optional_tree root inv recipe n dir w in extends w w' ∧ w_seen w' = w_seen w.
Proof.
  cbn. revert n dir w. fix IH 1. intros [data|size| |entries] dir w; try (split; [reflexivity|done]).
  cbn. revert w. induction entries as [|[name sub] entries IHe]; intros w; [split; [reflexivity|done]|].
  destruct (is_dir sub).
  - destruct (IHe (optional_tree root inv recipe sub (dir +:+ "/" +:+ name) w)) as [He Hs].
    destruct (IH sub (dir +:+ "/" +:+ name) w) as [He' Hs']. split; [by etrans|congruence].
  - destruct (inv !! (dir +:+ "/" +:+ name)).
    + pose proof (check_spec (dir +:+ "/" +:+ name) recipe (w_c w)) as Hc.
      destruct (check root inv (dir +:+ "/" +:+ name) recipe (w_c w)) as [[r|] c'].
      * split; [|done]. split; [cbn; intros; by apply Hc|]. split; [done|]. cbn. by destruct (w_reason w).
      * destruct (IHe (with_checker c' w)) as [He Hs]. split; [|done]. etrans; [|exact He].
        split; [cbn; intros; by apply Hc|]. done.
    + destruct (IHe (with_checker (mark_reached (dir +:+ "/" +:+ name) (w_c w)) w)) as [He Hs].
      split; [|done]. etrans; [|exact He]. done.
Qed.

Lemma optionalTree_spec recipe dir w :
  let w' := optionalTree root inv recipe dir w in extends w w' ∧ w_seen w' = w_seen w.
Proof.
  cbn. unfold optionalTree. destruct (node_at root dir); [apply optional_tree_spec|].
  split; [reflexivity|done].
Qed.

(** A non-manifest blob with its repository link. *)
Definition blob_sound (repo dgst : string) : Prop :=
  ∃ h, digestHex dgst = Ok h ∧ sound (layerLinkPath repo h) ∧ sound (blobPath h).

Lemma walk_blob_spec recipe repo dgst w :
  let w' := walk_blob root inv recipe repo dgst w in
  extends w w' ∧ w_seen w' = w_seen w ∧ (coherent (w_c w) → w_reason w' = None → blob_sound repo dgst).
Proof.
  cbn. unfold walk_blob, failed. destruct (w_reason w) as [r|] eqn:Hr.
  { split; [reflexivity|]. split; [done|]. congruence. }
  destruct (digestHex dgst) as [h|e] eqn:Hd.
  - destruct (walk_file_spec recipe (layerLinkPath repo h) w) as (E1 & S1 & F1).
    set (w1 := walk_file root inv recipe (layerLinkPath repo h) w) in *.
    destruct (walk_file_spec recipe (blobPath h) w1) as (E2 & S2 & F2).
    split; [by etrans|]. split; [congruence|]. intros Hc Hn. exists h. split; [done|].
    destruct E1 as (C1 & _ & _), E2 as (_ & _ & R2). split; [by apply F1; [|apply R2]|by apply F2; [apply C1|]].
  - split; [apply fail_extends|]. split; [done|]. intros _ Hn. by apply fail_not_None in Hn.
Qed.

Lemma walk_blobs_spec recipe repo ds w :
  let w' := fold_left (λ w d, walk_blob root inv recipe repo d w) ds w in
  extends w w' ∧ w_seen w' = w_seen w ∧
  (coherent (w_c w) → w_reason w' = None → ∀ d, d ∈ ds → blob_sound repo d).
Proof.
  cbn. revert w. induction ds as [|d ds IH]; intros w; cbn.
  { split; [reflexivity|]. split; [done|]. intros _ _ d Hd. by apply elem_of_nil in Hd. }
  destruct (walk_blob_spec recipe repo d w) as (E1 & S1 & F1).
  destruct (IH (walk_blob root inv recipe repo d w)) as (E2 & S2 & F2).
  split; [by etrans|]. split; [congruence|]. intros Hc Hn d' [->|Hd']%elem_of_cons.
  - apply F1; [done|]. by apply E2.
  - apply F2; [by apply E1|done|done].
Qed.

(** * Manifests *)

Definition present (p : string) : Prop := exists_file root p = true.

(** A manifest whose own files, document, configuration and layers are sound. *)
Definition manifest_sound (repo dgst : string) (doc : OciDoc) : Prop :=
  ∃ h raw, digestHex dgst = Ok h ∧ sound (manifestLinkPath repo h) ∧ sound (blobPath h) ∧
    node_at root (blobPath h) = Some (Regular raw) ∧ decode_oci raw = Some doc ∧
    ∀ d, d ∈ doc_blobs doc → blob_sound repo d.

(** The document of a manifest. *)
Definition doc_of (dgst : string) (doc : OciDoc) : Prop :=
  ∃ h raw, digestHex dgst = Ok h ∧ node_at root (blobPath h) = Some (Regular raw) ∧
    decode_oci raw = Some doc.

(** A child of an index that was visited. *)
Definition listed (seen : gset string) (repo dgst : string) : Prop :=
  ∃ parent doc, key repo parent ∈ seen ∧ doc_of parent doc ∧ dgst ∈ oci_manifests doc.

(** A visited manifest is sound with its children visited, or is an index child
    the medium does not carry. *)
Definition visited (seen : gset string) (repo dgst : string) : Prop :=
  (∃ h, digestHex dgst = Ok h ∧ ¬ present (blobPath h) ∧ listed seen repo dgst) ∨
  ∃ doc, manifest_sound repo dgst doc ∧ ∀ c, c ∈ oci_manifests doc → key repo c ∈ seen.

Lemma listed_mono seen seen' repo dgst : seen ⊆ seen' → listed seen repo dgst → listed seen' repo dgst.
Proof. intros Hsub (p & doc & Hp & ? & ?). exists p, doc. auto. Qed.

Lemma visited_mono seen seen' repo dgst :
  seen ⊆ seen' → visited seen repo dgst → visited seen' repo dgst.
Proof.
  intros Hsub [(h & ? & ? & Hl)|(doc & Hs & Hc)]; [left; exists h; eauto using listed_mono|]. right. exists doc. auto.
Qed.

Lemma regular_present p raw : node_at root p = Some (Regular raw) → present p.
Proof. unfold present, exists_file. by intros ->. Qed.

Lemma key_inj repo1 d1 repo2 d2 :
  ¬ in_str "@" repo1 → ¬ in_str "@" repo2 → key repo1 d1 = key repo2 d2 → repo1 = repo2 ∧ d1 = d2.
Proof. intros Hn1 Hn2 Heq. by apply (cut_unique "@" repo1 d1 repo2 d2). Qed.

#[local] Opaque blobPath manifestLinkPath layerLinkPath tagCurrentPath tagIndexDir key walk_file
  exists_file.

Lemma walk_open_spec recipe repo dgst required w :
  w_reason w = None →
  match walk_open root inv recipe repo dgst required w with
  | inl w' =>
      extends w w' ∧ w_seen w' = {[ key repo dgst ]} ∪ w_seen w ∧
      (w_reason w' = None → required = false ∧ ∃ h, digestHex dgst = Ok h ∧ ¬ present (blobPath h))
  | inr (doc, w') =>
      extends w w' ∧ w_seen w' = {[ key repo dgst ]} ∪ w_seen w ∧ w_reason w' = None ∧
      (coherent (w_c w) → ∃ h raw, digestHex dgst = Ok h ∧ sound (manifestLinkPath repo h) ∧
         sound (blobPath h) ∧ node_at root (blobPath h) = Some (Regular raw) ∧ decode_oci raw = Some doc)
  end.
Proof.
  intros Hr. unfold walk_open. set (w0 := add_seen (key repo dgst) w).
  assert (extends w w0) as E0 by (split; [done|]; split; [apply union_subseteq_r|done]).
  destruct (digestHex dgst) as [h|e] eqn:Hd.
  2: { split; [etrans; [exact E0|apply fail_extends]|]. split; [done|]. intros Hn. by apply fail_not_None in Hn. }
  destruct (negb required && negb (exists_file root (blobPath h))) eqn:Hopt.
  { split; [done|]. split; [done|]. intros _. apply andb_true_iff in Hopt as [?%negb_true_iff Hx%negb_true_iff].
    split; [done|]. exists h. split; [done|]. unfold present. by rewrite Hx. }
  destruct (walk_file_spec recipe (manifestLinkPath repo h) w0) as (E1 & S1 & F1).
  set (w1 := walk_file root inv recipe (manifestLinkPath repo h) w0) in *.
  destruct (walk_file_spec recipe (blobPath h) w1) as (E2 & S2 & F2).
  set (w2 := walk_file root inv recipe (blobPath h) w1) in *.
  assert (extends w w2) as E by (etrans; [exact E0|]; by etrans).
  assert (w_seen w2 = {[ key repo dgst ]} ∪ w_seen w) as HS by (rewrite S2, S1; done).
  clearbody w2 w1. unfold failed. destruct (w_reason w2) as [r|] eqn:Hr2; [split; [done|]; split; [done|congruence]|].
  destruct (walk_read root (blobPath h)) as [raw|dt] eqn:Hread.
  2: { split; [etrans; [exact E|apply fail_extends]|]. split; [done|]. intros Hn. by apply fail_not_None in Hn. }
  destruct (decode_oci raw) as [doc|] eqn:Hdoc.
  2: { split; [etrans; [exact E|apply fail_extends]|]. split; [done|]. intros Hn. by apply fail_not_None in Hn. }
  split; [done|]. split; [done|]. split; [done|]. intros Hc. exists h, raw. split; [done|].
  destruct E0 as (C0 & _), E1 as (C1 & _), E2 as (_ & _ & R2).
  split; [apply F1; auto|]. split; [apply F2; auto|].
  unfold walk_read in Hread. destruct (node_at root (blobPath h)) as [[data| | |]|]; try done.
  destruct (_ <? _)%Z; [done|]. injection Hread as ->. done.
Qed.

(** The manifests a walk visited between two states. *)
Definition newly_visited (w w' : walk) : Prop :=
  ∀ repo d, ¬ in_str "@" repo → key repo d ∈ w_seen w' → key repo d ∉ w_seen w →
    visited (w_seen w') repo d.

Lemma newly_visited_trans w1 w2 w3 :
  extends w2 w3 → newly_visited w1 w2 → newly_visited w2 w3 → newly_visited w1 w3.
Proof.
  intros (_ & Hsub & _) N12 N23 repo d Hat Hin Hni.
  destruct (decide (key repo d ∈ w_seen w2)) as [Hin2|Hni2]; [|by apply N23].
  eapply visited_mono; [exact Hsub|]. by apply N12.
Qed.

Lemma newly_visited_same w w' : w_seen w' = w_seen w → newly_visited w w'.
Proof. intros Heq repo d _ Hin Hni. by rewrite Heq in Hin. Qed.

Definition manifest_post (repo dgst : string) (required : bool) (w w' : walk) : Prop :=
  extends w w' ∧
  (w_reason w' = None →
    key repo dgst ∈ w_seen w' ∧
    (required = true → key repo dgst ∉ w_seen w → ∃ doc, manifest_sound repo dgst doc) ∧
    (required = true ∨ listed (w_seen w) repo dgst → newly_visited w w')).

Lemma walk_children_spec repo visit ds w w' :
  (∀ d w w', visit d w = Some w' → coherent (w_c w) → manifest_post repo d false w w') →
  walk_children visit ds w = Some w' → coherent (w_c w) → (∀ d, d ∈ ds → listed (w_seen w) repo d) →
  extends w w' ∧
  (w_reason w' = None → (∀ d, d ∈ ds → key repo d ∈ w_seen w') ∧ newly_visited w w').
Proof.
  intros Hvisit. revert w. induction ds as [|d ds IH]; intros w; cbn.
  { intros [= ->] Hc _. split; [reflexivity|]. intros _. split; [|by apply newly_visited_same].
    intros d Hd. by apply elem_of_nil in Hd. }
  intros (w1 & Hv & Hrest)%bind_Some Hc Hlist. destruct (Hvisit _ _ _ Hv Hc) as [E1 P1].
  destruct (IH w1 Hrest) as [E2 P2]; [by apply E1| |].
  { intros d' Hd'. eapply listed_mono; [apply E1|]. apply Hlist. by right. }
  split; [by etrans|]. intros Hn.
  destruct (P2 Hn) as [Hin2 N2]. destruct P1 as (Hin1 & _ & N1); [by apply E2|].
  specialize (N1 (or_intror (Hlist d ltac:(left)))). split; [|by eapply newly_visited_trans]. intros d' [->|Hd']%elem_of_cons; [by apply E2|auto].
Qed.

Lemma walk_manifest_spec fuel recipe repo dgst required w w' :
  ¬ in_str "@" repo → walk_manifest root inv fuel recipe repo dgst required w = Some w' →
  coherent (w_c w) → manifest_post repo dgst required w w'.
Proof.
  intros Hat. revert dgst required w w'. induction fuel as [|fuel IH]; intros dgst required w w'; [done|].
  cbn [walk_manifest]. unfold failed at 1. destruct (w_reason w) as [r|] eqn:Hr.
  { intros [= ->] _. split; [reflexivity|congruence]. }
  case_decide as Hseen.
  { intros [= ->] _. split; [reflexivity|]. intros _. split; [done|]. split; [done|].
    intros _. by apply newly_visited_same. }
  pose proof (walk_open_spec recipe repo dgst required w Hr) as Ho.
  destruct (walk_open root inv recipe repo dgst required w) as [w1|[doc w1]].
  - destruct Ho as (E1 & S1 & P1). intros [= ->] Hc. split; [done|]. intros Hn.
    destruct (P1 Hn) as (Hreq & h & Hd & Hnp). split; [rewrite S1; by apply elem_of_union_l, elem_of_singleton|].
    split; [congruence|]. intros [?|Hlist] repo' d' Hat' Hin Hni; [congruence|]. rewrite S1 in Hin.
    apply elem_of_union in Hin as [Hk%elem_of_singleton|?]; [|done].
    destruct (key_inj _ _ _ _ Hat' Hat Hk) as [-> ->]. left. exists h. split; [done|]. split; [done|].
    eapply listed_mono; [|done]. rewrite S1. apply union_subseteq_r.
  - destruct Ho as (E1 & S1 & Hn1 & P1). intros (w2 & Hch & [= <-])%bind_Some Hc.
    destruct (walk_children_spec repo _ _ _ _ (λ d w w' Hv Hc, IH d false w w' Hv Hc) Hch) as [E2 P2];
      [by apply E1| |].
    { intros d Hd. destruct (P1 Hc) as (h & raw & Hdg & _ & _ & Hnode & Hdoc). exists dgst, doc.
      split; [rewrite S1; by apply elem_of_union_l, elem_of_singleton|]. split; [by exists h, raw|done]. }
    destruct (walk_blobs_spec recipe repo (doc_blobs doc) w2) as (E3 & S3 & P3).
    set (w3 := fold_left _ _ w2) in *. clearbody w3.
    assert (extends w w3) as E by (etrans; [exact E1|]; by etrans). split; [done|]. intros Hn3.
    destruct (P1 Hc) as (h & raw & Hd & Hlink & Hblob & Hnode & Hdoc).
    destruct P2 as [Hin2 N2]; [by apply E3|].
    assert (manifest_sound repo dgst doc) as Hsound.
    { exists h, raw. repeat (split; [done|]). apply P3; [|done]. by apply E2, E1. }
    assert (key repo dgst ∈ w_seen w3) as Hkey.
    { rewrite S3. apply E2. rewrite S1. by apply elem_of_union_l, elem_of_singleton. }
    split; [done|]. split; [eauto|]. intros _ repo' d' Hat' Hin Hni.
    destruct (decide (key repo' d' ∈ w_seen w1)) as [Hin1|Hni1].
    + rewrite S1 in Hin1. apply elem_of_union in Hin1 as [Hk%elem_of_singleton|?]; [|done].
      destruct (key_inj _ _ _ _ Hat' Hat Hk) as [-> ->]. right. exists doc. split; [done|].
      intros c Hcm. rewrite S3. auto.
    + eapply visited_mono; [apply E3|]. apply N2; [done| |done]. by rewrite <-S3.
Qed.

(** * Termination *)

(** The inventoried blobs of a repository the walk has not visited yet. *)
Definition unseen_blob (repo : string) (seen : gset string) (p : string) : Prop :=
  match hexOfBlobPath p with
  | Some h => key repo ("sha256:" +:+ h) ∉ seen
  | None => False
  end.
#[export] Instance unseen_blob_dec repo seen p : Decision (unseen_blob repo seen p).
Proof. unfold unseen_blob. destruct (hexOfBlobPath p); apply _. Defined.
Definition unvisited (repo : string) (seen : gset string) : gset string :=
  filter (unseen_blob repo seen) (dom inv).

Lemma unvisited_mono repo seen seen' :
  seen ⊆ seen' → unvisited repo seen' ⊆ unvisited repo seen.
Proof.
  intros Hsub p. unfold unvisited. rewrite !elem_of_filter. unfold unseen_blob. destruct (hexOfBlobPath p); [|tauto].
  intros [Hn ?]. split; [|done]. intros Hin. by apply Hn, Hsub.
Qed.

Lemma unvisited_lt repo dgst h seen :
  digestHex dgst = Ok h → is_Some (inv !! blobPath h) → key repo dgst ∉ seen →
  size (unvisited repo ({[ key repo dgst ]} ∪ seen)) < size (unvisited repo seen).
Proof.
  intros Hd Hinv Hni. apply subset_size. split; [apply unvisited_mono, union_subseteq_r|].
  intros Hsub. specialize (Hsub (blobPath h)). unfold unvisited in Hsub. rewrite !elem_of_filter in Hsub.
  unfold unseen_blob in Hsub.
  rewrite (hex_blob_path _ _ Hd) in Hsub. apply digestHex_Ok in Hd as (-> & _).
  destruct Hsub as [Hn _]; [split; [done|by apply elem_of_dom]|].
  apply Hn, elem_of_union_l, elem_of_singleton. done.
Qed.

Lemma walk_manifest_total fuel recipe repo dgst required w :
  ¬ in_str "@" repo → coherent (w_c w) → size (unvisited repo (w_seen w)) < fuel →
  is_Some (walk_manifest root inv fuel recipe repo dgst required w).
Proof.
  intros Hat. revert dgst required w. induction fuel as [|fuel IH]; intros dgst required w Hc Hlt; [lia|].
  cbn [walk_manifest]. unfold failed at 1. destruct (w_reason w) as [r|] eqn:Hr; [eauto|].
  case_decide as Hseen; [eauto|].
  pose proof (walk_open_spec recipe repo dgst required w Hr) as Ho.
  destruct (walk_open root inv recipe repo dgst required w) as [w1|[doc w1]]; [eauto|].
  destruct Ho as (E1 & S1 & _ & P1). destruct (P1 Hc) as (h & raw & Hd & _ & (e & data & He & _) & _ & _).
  assert (size (unvisited repo (w_seen w1)) < fuel) as Hlt1.
  { pose proof (unvisited_lt repo dgst h (w_seen w) Hd (mk_is_Some _ _ He) Hseen) as Hdec.
    rewrite S1. lia. }
  assert (∀ ds w1, coherent (w_c w1) → size (unvisited repo (w_seen w1)) < fuel →
    is_Some (walk_children (λ d w, walk_manifest root inv fuel recipe repo d false w) ds w1)) as Hch.
  { induction ds as [|d ds IHd]; intros w2 Hc2 Hlt2; cbn; [eauto|].
    destruct (IH d false w2 Hc2 Hlt2) as [w3 Hw3]. rewrite Hw3. cbn.
    destruct (walk_manifest_spec _ _ _ _ _ _ _ Hat Hw3 Hc2) as [E3 _].
    apply IHd; [by apply E3|]. destruct E3 as (_ & Hsub & _).
    pose proof (subseteq_size _ _ (unvisited_mono repo _ _ Hsub)). lia. }
  destruct (Hch (oci_manifests doc) w1) as [w2 Hw2]; [by apply E1|done|]. rewrite Hw2. cbn. eauto.
Qed.

Lemma unvisited_fuel repo seen : size (unvisited repo seen) < walk_fuel inv.
Proof.
  unfold walk_fuel. rewrite <-size_dom. apply Nat.lt_succ_r, subseteq_size.
  intros p. unfold unvisited. rewrite elem_of_filter. tauto.
Qed.

(** * Deliveries *)

#[local] Opaque optionalTree walk_manifest.

Lemma extends_coherent w w' : extends w w' → coherent (w_c w) → coherent (w_c w').
Proof. by intros (Hc & _). Qed.

Definition tag_sound (repo tag : string) : Prop := tag ≠ "" → sound (tagCurrentPath repo tag).

Lemma walk_root_spec recipe repo dgst tag w :
  ¬ in_str "@" repo → coherent (w_c w) →
  ∃ w', walk_root root inv recipe repo dgst tag w = Some w' ∧ extends w w' ∧
    (w_reason w' = None →
      tag_sound repo tag ∧ key repo dgst ∈ w_seen w' ∧
      (key repo dgst ∉ w_seen w → ∃ doc, manifest_sound repo dgst doc) ∧ newly_visited w w').
Proof.
  intros Hat Hc. unfold walk_root, failed. destruct (w_reason w) as [r|] eqn:Hr.
  { exists w. split; [done|]. split; [reflexivity|congruence]. }
  set (w1 := if String.eqb tag "" then w else _).
  assert (extends w w1 ∧ w_seen w1 = w_seen w ∧ (w_reason w1 = None → tag_sound repo tag))
    as (E1 & S1 & T1).
  { unfold w1. destruct (String.eqb_spec tag "") as [->|Hne].
    { split; [reflexivity|]. split; [done|]. by intros _ Hne. }
    destruct (walk_file_spec recipe (tagCurrentPath repo tag) w) as (Ef & Sf & Ff).
    destruct (optionalTree_spec recipe (tagIndexDir repo tag)
      (walk_file root inv recipe (tagCurrentPath repo tag) w)) as (Eo & So).
    split; [by etrans|]. split; [congruence|]. intros Hn _. apply Ff; [done|]. by apply Eo. }
  clearbody w1. pose proof (extends_coherent _ _ E1 Hc) as Hc1.
  destruct (walk_manifest_total (walk_fuel inv) recipe repo dgst true w1 Hat Hc1
    (unvisited_fuel repo _)) as [w2 Hw2].
  destruct (walk_manifest_spec _ _ _ _ _ _ _ Hat Hw2 Hc1) as [E2 P2].
  exists w2. split; [done|]. split; [by etrans|]. intros Hn. destruct (P2 Hn) as (Hk & Hs & Hnew).
  specialize (Hnew (or_introl eq_refl)). split; [apply T1, E2; done|]. split; [done|]. split; [rewrite <-S1; auto|].
  eapply newly_visited_trans; [exact E2|by apply newly_visited_same|done].
Qed.

Lemma walk_signature_tag_spec recipe repo tag w :
  ¬ in_str "@" repo → coherent (w_c w) →
  ∃ w', walk_signature_tag root inv recipe repo tag w = Some w' ∧ extends w w' ∧
    (w_reason w' = None → newly_visited w w').
Proof.
  intros Hat Hc. unfold walk_signature_tag.
  destruct (exists_file root (tagCurrentPath repo tag)); cbn.
  2: { exists w. split; [done|]. split; [reflexivity|]. intros _. by apply newly_visited_same. }
  destruct (walk_file_spec recipe (tagCurrentPath repo tag) w) as (Ef & Sf & _).
  destruct (optionalTree_spec recipe (tagIndexDir repo tag)
    (walk_file root inv recipe (tagCurrentPath repo tag) w)) as (Eo & So).
  set (w1 := optionalTree root inv recipe (tagIndexDir repo tag) _) in *.
  assert (extends w w1) as E1 by (etrans; [exact Ef|done]).
  assert (w_seen w1 = w_seen w) as S1 by congruence. clearbody w1.
  pose proof (extends_coherent _ _ E1 Hc) as Hc1.
  destruct (currentDigest root repo tag) as [d|].
  2: { exists w1. split; [done|]. split; [done|]. intros _. by apply newly_visited_same. }
  destruct (walk_manifest_total (walk_fuel inv) recipe repo d true w1 Hat Hc1
    (unvisited_fuel repo _)) as [w2 Hw2].
  destruct (walk_manifest_spec _ _ _ _ _ _ _ Hat Hw2 Hc1) as [E2 P2].
  exists w2. split; [done|]. split; [by etrans|]. intros Hn. destruct (P2 Hn) as (_ & _ & Hnew).
  specialize (Hnew (or_introl eq_refl)).
  eapply newly_visited_trans; [exact E2|by apply newly_visited_same|done].
Qed.

Lemma walk_signatures_spec recipe repo dgst w :
  ¬ in_str "@" repo → coherent (w_c w) →
  ∃ w', walk_signatures root inv recipe repo dgst w = Some w' ∧ extends w w' ∧
    (w_reason w' = None → newly_visited w w').
Proof.
  intros Hat Hc. unfold walk_signatures. destruct (digestHex dgst) as [h|e].
  2: { exists w. split; [done|]. split; [reflexivity|]. intros _. by apply newly_visited_same. }
  destruct (walk_signature_tag_spec recipe repo ("sha256-" +:+ h +:+ ".sig") w Hat Hc)
    as (w1 & Hw1 & E1 & N1). rewrite Hw1. cbn.
  destruct (walk_signature_tag_spec recipe repo ("sha256-" +:+ h) w1 Hat (extends_coherent _ _ E1 Hc))
    as (w2 & Hw2 & E2 & N2). exists w2. split; [done|]. split; [by etrans|]. intros Hn.
  eapply newly_visited_trans; [exact E2| |by apply N2]. apply N1. by apply E2.
Qed.

Lemma walk_ingredients_spec recipe ings w :
  Forall (λ i, ¬ in_str "@" (in_repo i)) ings → coherent (w_c w) →
  ∃ w', walk_ingredients root inv recipe ings w = Some w' ∧ extends w w' ∧
    (w_reason w' = None →
      (∀ i, i ∈ ings → tag_sound (in_repo i) (in_tag i) ∧ key (in_repo i) (in_digest i) ∈ w_seen w') ∧
      newly_visited w w').
Proof.
  intros Hf. revert w. induction Hf as [|i ings Hat Hf IH]; intros w Hc; cbn.
  { exists w. split; [done|]. split; [reflexivity|]. intros _. split; [|by apply newly_visited_same].
    intros i Hi. by apply elem_of_nil in Hi. }
  destruct (walk_root_spec recipe (in_repo i) (in_digest i) (in_tag i) w Hat Hc)
    as (w1 & Hw1 & E1 & P1). rewrite Hw1. cbn.
  destruct (IH w1 (extends_coherent _ _ E1 Hc)) as (w2 & Hw2 & E2 & P2).
  exists w2. split; [done|]. split; [by etrans|]. intros Hn. destruct (P2 Hn) as [Hin N2].
  destruct P1 as (T1 & K1 & _ & N1); [by apply E2|].
  split; [|by eapply newly_visited_trans]. intros j [->|Hj]%elem_of_cons; [|auto].
  split; [done|]. by apply E2.
Qed.

(** The required manifests of a recipe. *)
Definition recipe_roots (r : Recipe) : list (string * string) :=
  (rc_artifact_repo r, rc_digest r) :: ((λ i, (in_repo i, in_digest i)) <$> rc_ingredients r).

Definition recipe_repos_ok (r : Recipe) : Prop :=
  ¬ in_str "@" (rc_artifact_repo r) ∧ Forall (λ i, ¬ in_str "@" (in_repo i)) (rc_ingredients r).

Lemma delivery_spec recipe r c :
  recipe_repos_ok r → coherent c →
  ∃ w', delivery root inv recipe r (mkWalk c ∅ None 0 0) = Some w' ∧ coherent (w_c w') ∧
    (w_reason w' = None →
      tag_sound (rc_artifact_repo r) (rc_artifact_tag r) ∧
      (∀ i, i ∈ rc_ingredients r → tag_sound (in_repo i) (in_tag i)) ∧
      (∃ doc, manifest_sound (rc_artifact_repo r) (rc_digest r) doc) ∧
      (∀ repo d, (repo, d) ∈ recipe_roots r → key repo d ∈ w_seen w') ∧
      (∀ repo d, ¬ in_str "@" repo → key repo d ∈ w_seen w' → visited (w_seen w') repo d)).
Proof.
  intros [Hat Hf] Hc. unfold delivery. set (w0 := mkWalk c ∅ None 0 0).
  destruct (walk_root_spec recipe (rc_artifact_repo r) (rc_digest r) (rc_artifact_tag r) w0 Hat Hc)
    as (w1 & Hw1 & E1 & P1). rewrite Hw1. cbn.
  destruct (walk_signatures_spec recipe (rc_artifact_repo r) (rc_digest r) w1 Hat
    (extends_coherent _ _ E1 Hc)) as (w2 & Hw2 & E2 & P2). rewrite Hw2. cbn.
  assert (extends w0 w2) as E02 by by etrans.
  destruct (walk_ingredients_spec recipe (rc_ingredients r) w2 Hf (extends_coherent _ _ E02 Hc))
    as (w3 & Hw3 & E3 & P3). exists w3. split; [done|].
  assert (extends w0 w3) as E03 by by etrans. split; [by apply E03|]. intros Hn.
  destruct (P3 Hn) as [Hing N3].
  assert (w_reason w2 = None) as Hn2 by by apply E3.
  assert (w_reason w1 = None) as Hn1 by by apply E2.
  destruct (P1 Hn1) as (T1 & K1 & Hsound & N1). specialize (P2 Hn2).
  split; [done|]. split; [intros i Hi; by apply Hing|].
  split; [apply Hsound; apply not_elem_of_empty|]. split.
  - intros repo d [Heq|Hin]%elem_of_cons.
    + injection Heq as -> ->. by apply E3, E2.
    + apply list_elem_of_fmap in Hin as (i & Heq & Hi). injection Heq as -> ->. by apply Hing.
  - intros repo d Hat' Hin.
    assert (newly_visited w0 w3) as Hnew
      by (eapply newly_visited_trans; [exact E3|eapply newly_visited_trans; [exact E2|done|done]|done]).
    apply Hnew; [done|done|apply not_elem_of_empty].
Qed.

(** The manifests a root leads to through index children the medium carries. *)
Definition carried (dgst : string) : Prop := ∃ h, digestHex dgst = Ok h ∧ present (blobPath h).
Inductive reaches (d : string) : string → Prop :=
  | reaches_refl : reaches d d
  | reaches_child d' doc c :
      reaches d d' → doc_of d' doc → c ∈ oci_manifests doc → carried c → reaches d c.

Lemma visited_reaches seen repo d d' :
  (∀ d, key repo d ∈ seen → visited seen repo d) →
  key repo d ∈ seen → carried d → reaches d d' →
  key repo d' ∈ seen ∧ ∃ doc, manifest_sound repo d' doc.
Proof.
  intros Hall Hin Hcar Hre.
  assert (∀ x, key repo x ∈ seen → carried x →
    ∃ doc, manifest_sound repo x doc ∧ ∀ c, c ∈ oci_manifests doc → key repo c ∈ seen) as Hvis.
  { intros x Hx (h & Hd & Hp). destruct (Hall x Hx) as [(h' & Hd' & Hnp & _)|(doc & Hs & Hch)]; [|eauto].
    assert (h' = h) as -> by congruence. done. }
  induction Hre as [|d' doc c Hre [IHin (doc' & IHs)] Hdoc Hc Hcc].
  - split; [done|]. destruct (Hvis d Hin Hcar) as (doc & ? & _). eauto.
  - assert (carried d') as Hcar'.
    { destruct Hdoc as (h & raw & Hd & Hraw & _). exists h. split; [done|]. by apply (regular_present _ raw). }
    destruct (Hvis d' IHin Hcar') as (doc2 & Hs2 & Hch). assert (doc2 = doc) as ->.
    { destruct Hs2 as (h1 & raw1 & Hd1 & _ & _ & Hr1 & Hdec1 & _), Hdoc as (h2 & raw2 & Hd2 & Hr2 & Hdec2).
      assert (h1 = h2) as -> by congruence. congruence. }
    split; [by apply Hch|]. destruct (Hvis c (Hch c Hc) Hcc) as (doc3 & ? & _). eauto.
Qed.

(** An ingredient that is not on the medium, and that an index of its repository
    lists among its children. *)
Definition skipped (repo d : string) : Prop :=
  ¬ carried d ∧ ∃ parent doc, manifest_sound repo parent doc ∧ d ∈ oci_manifests doc.

Lemma visited_root seen repo d :
  (∀ d, key repo d ∈ seen → visited seen repo d) → key repo d ∈ seen →
  (∃ doc, manifest_sound repo d doc) ∨ skipped repo d.
Proof.
  intros Hall Hin. destruct (Hall d Hin) as [(h & Hd & Hnp & parent & doc & Hp & Hdoc & Hc)|(doc & Hs & _)]; [|eauto].
  right. split; [intros (h' & Hd' & ?); congruence|].
  destruct (Hall parent Hp) as [(h' & Hd' & Hnp' & _)|(doc' & Hs & _)].
  - destruct Hdoc as (h2 & raw & Hd2 & Hraw%regular_present & _). congruence.
  - exists parent, doc'. split; [done|]. destruct Hs as (h1 & raw1 & Hd1 & _ & _ & Hr1 & Hdec1 & _), Hdoc as (h2 & raw2 & Hd2 & Hr2 & Hdec2).
    assert (h1 = h2) as -> by congruence. congruence.
Qed.

(** A delivery that checked out. *)
Definition delivered (r : Recipe) : Prop :=
  tag_sound (rc_artifact_repo r) (rc_artifact_tag r) ∧
  (∀ i, i ∈ rc_ingredients r → tag_sound (in_repo i) (in_tag i)) ∧
  (∃ doc, manifest_sound (rc_artifact_repo r) (rc_digest r) doc) ∧
  (∀ i, i ∈ rc_ingredients r → (∃ doc, manifest_sound (in_repo i) (in_digest i) doc) ∨ skipped (in_repo i) (in_digest i)) ∧
  ∀ repo d d', (repo, d) ∈ recipe_roots r → carried d → reaches d d' →
    ∃ doc, manifest_sound repo d' doc.

Lemma delivery_delivered recipe r c :
  recipe_repos_ok r → coherent c →
  ∃ w', delivery root inv recipe r (mkWalk c ∅ None 0 0) = Some w' ∧ coherent (w_c w') ∧
    (w_reason w' = None → delivered r).
Proof.
  intros Hok Hc. destruct (delivery_spec recipe r c Hok Hc) as (w' & Hw & Hc' & P).
  exists w'. split; [done|]. split; [done|]. intros Hn.
  destruct (P Hn) as (T & TI & HA & Hroots & Hvis). split; [done|]. split; [done|]. split; [done|]. split.
  { intros i Hi. destruct Hok as [_ Hf]. rewrite Forall_forall in Hf. apply (visited_root (w_seen w')).
    - intros x Hx. by apply Hvis; [apply Hf|].
    - apply Hroots. right. apply list_elem_of_fmap. by exists i. }
  intros repo d d' Hin Hcar Hre.
  assert (¬ in_str "@" repo) as Hat.
  { destruct Hok as [Hat Hf]. apply elem_of_cons in Hin as [Heq|Hin]; [by injection Heq as -> _|].
    apply list_elem_of_fmap in Hin as (i & Heq & Hi). injection Heq as -> _.
    rewrite Forall_forall in Hf. by apply Hf. }
  apply (visited_reaches (w_seen w') repo d d'); [|by apply Hroots|done|done].
  intros x Hx. by apply Hvis.
Qed.
End medium.

(** * Reports *)

Lemma in_str_split c sep s :
  c ≠ sep → in_str c s → ∃ w, w ∈ split_byte sep s ∧ in_str c w.
Proof.
  intros Hne. induction s as [|a s IH]; [done|]. cbn. intros Hin.
  destruct (Ascii.eqb_spec a sep) as [->|Has].
  - destruct Hin as [->|Hin]; [done|]. destruct (IH Hin) as (w & Hw & Hc). exists w. split; [by right|done].
  - destruct (split_byte sep s) as [|w ws] eqn:E; [by apply split_byte_nonempty in E|].
    destruct Hin as [->|Hin]; [exists (String c w); split; [left|by left]|].
    destruct (IH Hin) as (w' & [->|Hw]%elem_of_cons & Hc).
    + exists (String a w). split; [left|by right].
    + exists w'. split; [by right|done].
Qed.

Lemma repo_no_at repo : checkRepoName repo = Ok tt → ¬ in_str "@" repo.
Proof.
  unfold checkRepoName. destruct (String.eqb repo ""); [done|].
  destruct (4096 <? slen repo)%nat; [done|]. intros Hseg Hin.
  apply (in_str_split "@" "/") in Hin as (w & Hw & Hc); [|done]. revert Hseg Hw.
  generalize (split_byte "/" repo) as segs. induction segs as [|seg segs IH]; cbn; [by intros _ ?%elem_of_nil|].
  destruct (_ || _); [done|]. destruct (all_bytes is_repo_byte seg) eqn:Ha; [|done]. cbn.
  intros Hok [->|Hw]%elem_of_cons; [|by apply IH]. rewrite all_bytes_spec in Ha. by apply Ha in Hc.
Qed.

Lemma validate_repos m r : validate m = Ok tt → r ∈ m_recipes m → recipe_repos_ok r.
Proof.
  unfold validate. intros (_ & _ & Hv)%res_bind_Ok Hin. revert Hv Hin.
  assert (∀ id repo tag d, check_ref id repo tag d = Ok tt → ¬ in_str "@" repo) as Href.
  { intros id repo tag d ([] & Hr%wrap_err_Ok & _)%res_bind_Ok. by apply repo_no_at. }
  induction (m_recipes m) as [|r' l IH]; cbn; [by intros _ ?%elem_of_nil|].
  intros ([] & Hr & Hl)%res_bind_Ok [->|Hin]%elem_of_cons; [|by apply IH].
  unfold validateRecipe in Hr. destruct (_ || _); [done|].
  apply res_bind_Ok in Hr as (_ & _ & Hr). apply res_bind_Ok in Hr as ([] & Ha & Hi).
  split; [by eapply Href|]. clear Ha Hl. induction (rc_ingredients r') as [|i ings IHi]; [constructor|].
  cbn in Hi. apply res_bind_Ok in Hi as ([] & Hi1 & Hi2). constructor; [by eapply Href|by apply IHi].
Qed.

(** The trust decision taken on a recipe. *)
Definition trust_of (opts : VerifyOptions) (r : Recipe) : TrustDecision :=
  let nominal := match Path (rc_cookbook r) with Ok p => p | Err _ => rc_cookbook r end in
  match vo_trust opts with Some t => t nominal | None => mkTrust _ false "" None end.

(** A signature by one of the destination's keys, or a declared relaxation. *)
Definition trusted (opts : VerifyOptions) (r : Recipe) (v : RecipeVerdict) : Prop :=
  v_scope v = td_scope (trust_of opts r) ∧
  if v_unsigned v then
    td_allow_unsigned (trust_of opts r) = true ∧
    (td_keys (trust_of opts r) = None ∨ ∃ keys, td_keys (trust_of opts r) = Some keys ∧
      sig_verify (rc_artifact_repo r) (rc_digest r) keys = SigAbsent)
  else
    ∃ keys, td_keys (trust_of opts r) = Some keys ∧
      sig_verify (rc_artifact_repo r) (rc_digest r) keys = SigOk (v_fingerprint v).

Lemma decide_recipe_spec opts r w :
  let v := verdict_base r w (decide_recipe r (vo_trust opts)) in
  v_pushable v = true → trusted opts r v.
Proof.
  unfold decide_recipe, trusted. fold (trust_of opts r).
  destruct (td_keys (trust_of opts r)) as [keys|] eqn:Hk.
  - destruct (sig_verify _ _ keys) eqn:Hs; cbn; try done; [eauto|].
    destruct (td_allow_unsigned (trust_of opts r)) eqn:Ha; cbn; [|done]. eauto 6.
  - destruct (td_allow_unsigned (trust_of opts r)) eqn:Ha; cbn; [|done]. auto.
Qed.

Definition about (r : Recipe) (v : RecipeVerdict) : Prop :=
  v_name v = rc_name r ∧ v_version v = rc_version r ∧ v_artifact_repo v = rc_artifact_repo r ∧
  v_digest v = rc_digest r ∧ v_resolved v = rc_resolved r ∧ v_cookbook v = rc_cookbook r.

(** What one verdict stands for. *)
Definition verdict_ok (root : node) (inv : gmap string InvFile) (opts : VerifyOptions) (r : Recipe)
    (v : RecipeVerdict) : Prop :=
  about r v ∧ (v_pushable v = false ↔ is_Some (v_reason v)) ∧
  (v_pushable v = true → delivered root inv r ∧ trusted opts r v).

Lemma verdict_base_ok r w d :
  about r (verdict_base r w d) ∧
  (v_pushable (verdict_base r w d) = false ↔ is_Some (v_reason (verdict_base r w d))).
Proof. unfold about. destruct d; cbn; (split; [done|]); split; eauto; try done; by intros []. Qed.

Lemma verify_recipe_spec root inv opts r c :
  recipe_repos_ok r → coherent root inv c →
  ∃ v c', verify_recipe root inv opts r c = Some (v, c') ∧ coherent root inv c' ∧
    verdict_ok root inv opts r v.
Proof.
  intros Hok Hc. unfold verify_recipe.
  destruct (delivery_delivered root inv (rc_name r +:+ "@" +:+ rc_version r) r c Hok Hc)
    as (w & Hw & Hcw & Hd). rewrite Hw. cbn.
  destruct (w_reason w) as [reason|] eqn:Hr.
  { eexists _, _. split; [done|]. split; [done|]. by split; [|split]. }
  pose proof (ctx_err_results (w_c w)) as Hres. destruct (ctx_err (w_c w)) as [canceled c']. cbn in Hres.
  assert (coherent root inv c') as Hc' by (unfold coherent; by rewrite Hres).
  destruct canceled; (eexists _, _; split; [done|]; split; [done|]).
  - by split; [|split].
  - destruct (verdict_base_ok r w (decide_recipe r (vo_trust opts))) as [Ha Hiff].
    split; [done|]. split; [done|]. intros Hp. split; [by apply Hd|]. by apply decide_recipe_spec.
Qed.

Lemma verifyRecipes_spec root inv opts l c :
  (∀ r, r ∈ l → recipe_repos_ok r) → coherent root inv c →
  ∃ vs c', verifyRecipes root inv opts l c = Some (vs, c') ∧ coherent root inv c' ∧
    Forall2 (verdict_ok root inv opts) l vs.
Proof.
  revert c. induction l as [|r l IH]; intros c Hok Hc; cbn [verifyRecipes].
  { eexists _, _. split; [done|]. split; [done|constructor]. }
  destruct (verify_recipe_spec root inv opts r c (Hok r ltac:(left)) Hc) as (v & c1 & Hv & Hc1 & Hvok).
  destruct (IH c1) as (vs & c2 & Hvs & Hc2 & Hall); [intros r' Hr'; apply Hok; by right|done|].
  rewrite Hv. cbn. rewrite Hvs. cbn. eexists _, _. split; [done|]. split; [done|]. by constructor.
Qed.

Lemma readManifest_valid root m : readManifest root = inl m → validate m = Ok tt.
Proof.
  unfold readManifest. destruct (node_at root ManifestPath) as [[data| | |]|]; try done.
  destruct (decode_manifest _) as [m'|]; [|done]. destruct (validate m') as [[]|e] eqn:Hv; [|done].
  destruct (_ =? _)%Z; [|done]. cbn. destruct (_ =? _)%Z; [|done]. cbn. by intros [= <-].
Qed.

Lemma globalBlocks_spec root inv m opts c :
  coherent root inv c →
  let '(blocks, c') := globalBlocks root inv m opts c in
  coherent root inv c' ∧
  (standing blocks = false →
    sound root inv recipesFile ∧
    (m_zone m = vo_zone opts ∨ vo_allow_zone_mismatch opts = true) ∧
    (∀ last, vo_last_import opts = Some last →
      (im_resolved last ≤ m_resolved m)%Z ∨ vo_allow_stale opts = true)).
Proof.
  intros Hc. unfold globalBlocks. pose proof (check_spec root inv recipesFile "" c Hc) as Hs.
  destruct (check root inv recipesFile "" c) as [[r|] c']; destruct Hs as [Hc' Hsound].
  { split; [done|]. cbn. done. }
  split; [done|]. cbn [app]. unfold standing. rewrite existsb_app, orb_false_iff_2.
  intros [Hz Hf]. split; [by apply Hsound|]. split.
  - destruct (String.eqb_spec (m_zone m) (vo_zone opts)); [by left|]. cbn in Hz.
    rewrite orb_false_r in Hz. apply negb_false_iff in Hz. by right.
  - intros last Hl. unfold freshness in Hf. rewrite Hl in Hf. cbn in Hf.
    destruct (m_resolved m <? im_resolved last)%Z eqn:Hlt; [|left; by apply Z.ltb_ge].
    cbn in Hf. rewrite orb_false_r in Hf. apply negb_false_iff in Hf. by right.
Qed.

(** Everything a report of [Verify] stands for. *)
Lemma Verify_spec root opts budget :
  ∃ rep, Verify (Some root) opts budget = Some rep ∧
    (rep_verdict rep = VerdictBlocked ∧ rep_recipes rep = [] ∧ standing (rep_blocks rep) = true ∨
     ∃ m, readManifest root = inl m ∧ standing (rep_blocks rep) = false ∧
       rep_verdict rep = verdict_of (rep_blocks rep) (rep_recipes rep) ∧
       sound root (inventory_map m) recipesFile ∧
       (m_zone m = vo_zone opts ∨ vo_allow_zone_mismatch opts = true) ∧
       (∀ last, vo_last_import opts = Some last →
         (im_resolved last ≤ m_resolved m)%Z ∨ vo_allow_stale opts = true) ∧
       Forall2 (verdict_ok root (inventory_map m) opts) (m_recipes m) (rep_recipes rep)).
Proof.
  unfold Verify. cbn. destruct (readManifest root) as [m|b] eqn:Hm.
  2: { eexists. split; [done|]. left. split; [done|]. split; [done|]. cbn.
       unfold readManifest in Hm. destruct (node_at root ManifestPath) as [[data| | |]|]; simplify_eq; try done.
       repeat case_match; simplify_eq; done. }
  assert (coherent root (inventory_map m) (mkChecker ∅ ∅ 0 0 budget)) as Hc0.
  { intros p. cbn. by rewrite lookup_empty. }
  pose proof (globalBlocks_spec root (inventory_map m) m opts _ Hc0) as Hg.
  destruct (globalBlocks root (inventory_map m) m opts (mkChecker ∅ ∅ 0 0 budget)) as [blocks c].
  destruct Hg as [Hc Hstand]. destruct (standing blocks) eqn:Hst; [eexists; split; [done|]; by left|].
  destruct (verifyRecipes_spec root (inventory_map m) opts (m_recipes m) c) as (vs & c2 & Hvs & Hc2 & Hall);
    [intros r Hr; eapply validate_repos; [by eapply readManifest_valid|done]|done|].
  rewrite Hvs. cbn. destruct (findings root (inventory_map m) m c2) as [fs c3].
  eexists. split; [done|]. right. exists m. destruct (Hstand eq_refl) as (? & ? & ?).
  split; [done|]. split; [done|]. split; [done|]. split; [done|]. split; [done|]. split; [done|]. done.
Qed.

(** Verification terminates with a report on every store, however hostile:
    the walk over manifests that may reference each other in cycles never runs
    out of the fuel of one descent per inventoried file. *)
Theorem Verify_total root opts budget : is_Some (Verify (Some root) opts budget).
Proof. destruct (Verify_spec root opts budget) as (rep & -> & _). eauto. Qed.

(** What a cleared recipe stands for. *)
Lemma Verify_pushable root opts budget rep v :
  Verify (Some root) opts budget = Some rep → v ∈ Pushable rep →
  ∃ m r, readManifest root = inl m ∧ r ∈ m_recipes m ∧ about r v ∧
    sound root (inventory_map m) recipesFile ∧
    (m_zone m = vo_zone opts ∨ vo_allow_zone_mismatch opts = true) ∧
    (∀ last, vo_last_import opts = Some last →
      (im_resolved last ≤ m_resolved m)%Z ∨ vo_allow_stale opts = true) ∧
    delivered root (inventory_map m) r ∧ trusted opts r v.
Proof.
  intros Hrep Hv. destruct (Verify_spec root opts budget) as (rep' & Hrep' & Hcase).
  assert (rep' = rep) as -> by congruence. unfold Pushable in Hv.
  case_decide as Hb; [by apply elem_of_nil in Hv|]. apply list_elem_of_filter in Hv as [Hp Hv].
  destruct Hcase as [(? & _)|(m & Hm & _ & _ & Hg & Hz & Hf & Hall)]; [done|].
  apply list_elem_of_lookup in Hv as [i Hi].
  destruct (Forall2_lookup_r _ _ _ _ _ Hall Hi) as (r & Hr & Ha & _ & Hok).
  exists m, r. split; [done|]. split; [by eapply list_elem_of_lookup_2|]. do 4 (split; [done|]). by apply Hok.
Qed.

(** C1: what is cleared for the push is intact, and complete but for index children. For
    every recipe a report lets through there is a recipe of the medium's manifest whose
    artifact and whose ingredients, with what they reach - tag references,
    per-repository links, documents, configurations, layers, and the index children
    the medium carries - are inventoried, present, of the declared size and SHA-256,
    and, for blobs, equal to the digest of their own path; the recipe graph itself is
    intact. The only manifest of a recipe that may be missing is an ingredient's that
    some intact index of the same repository lists as a child. *)
Theorem pushable_intact root opts budget rep v
    (Hrep : Verify (Some root) opts budget = Some rep) (Hv : v ∈ Pushable rep) :
  ∃ m r, readManifest root = inl m ∧ r ∈ m_recipes m ∧ about r v ∧
    sound root (inventory_map m) recipesFile ∧ delivered root (inventory_map m) r.
Proof.
  destruct (Verify_pushable _ _ _ _ _ Hrep Hv) as (m & r & Hm & Hr & Ha & Hg & _ & _ & Hd & _).
  exists m, r. done.
Qed.

(** C5: nothing is cleared without the destination's consent. A recipe is only
    let through when a key of the destination's own trust policy verified its
    signature, or when that policy declares a scope admitting it unsigned and no
    signature was found; without a policy nothing is. The zone and freshness
    guards hold, or the administrator overrode them. *)
Theorem pushable_trusted root opts budget rep v
    (Hrep : Verify (Some root) opts budget = Some rep) (Hv : v ∈ Pushable rep) :
  ∃ m r, readManifest root = inl m ∧ r ∈ m_recipes m ∧ about r v ∧ trusted opts r v ∧
    is_Some (vo_trust opts) ∧
    (m_zone m = vo_zone opts ∨ vo_allow_zone_mismatch opts = true) ∧
    (∀ last, vo_last_import opts = Some last →
      (im_resolved last ≤ m_resolved m)%Z ∨ vo_allow_stale opts = true).
Proof.
  destruct (Verify_pushable _ _ _ _ _ Hrep Hv) as (m & r & Hm & Hr & Ha & _ & Hz & Hf & _ & Ht).
  exists m, r. do 4 (split; [done|]). split; [|done].
  destruct Ht as [_ Ht]. unfold trust_of in Ht. destruct (vo_trust opts) as [t|]; [eauto|]. exfalso.
  destruct (v_unsigned v); [by destruct Ht|by destruct Ht as (? & ? & _)].
Qed.

(** A report is consistent. There is one verdict per recipe of the manifest,
    in its order, and each carries a reason exactly when it refuses; the verdict
    is pushable exactly when no block stands and no recipe is refused, and when a
    block stands nothing is cleared. *)
Theorem report_consistent root opts budget rep
    (Hrep : Verify (Some root) opts budget = Some rep) :
  (∀ v, v ∈ rep_recipes rep → v_pushable v = false ↔ is_Some (v_reason v)) ∧
  (rep_verdict rep = VerdictPushable ↔
    standing (rep_blocks rep) = false ∧ ∀ v, v ∈ rep_recipes rep → v_pushable v = true) ∧
  (standing (rep_blocks rep) = true → rep_recipes rep = [] ∧ Pushable rep = []) ∧
  (standing (rep_blocks rep) = false → ∃ m, readManifest root = inl m ∧ Forall2 about (m_recipes m) (rep_recipes rep)).
Proof.
  destruct (Verify_spec root opts budget) as (rep' & Hrep' & Hcase).
  assert (rep' = rep) as -> by congruence.
  destruct Hcase as [(Hv & Hr & Hs)|(m & Hm & Hs & Hv & _ & _ & _ & Hall)].
  - rewrite Hv, Hr, Hs. split; [by intros v ?%elem_of_nil|]. split; [split; [done|by intros [? _]]|].
    split; [|done]. intros _. split; [done|]. unfold Pushable. by rewrite Hv.
  - split; [|split; [|split]].
    + intros v [i Hi]%list_elem_of_lookup.
      by destruct (Forall2_lookup_r _ _ _ _ _ Hall Hi) as (r & _ & _ & ? & _).
    + rewrite Hv. unfold verdict_of. rewrite Hs.
      assert (length (filter (λ v, v_pushable v = false) (rep_recipes rep)) = 0 ↔
        ∀ v, v ∈ rep_recipes rep → v_pushable v = true) as Hlen.
      { rewrite length_zero_iff_nil. split.
        - intros Hnil v Hin. destruct (v_pushable v) eqn:E; [done|].
          assert (v ∈ filter (λ v, v_pushable v = false) (rep_recipes rep)) as Hf
            by by apply list_elem_of_filter. rewrite Hnil in Hf. by apply elem_of_nil in Hf.
        - intros Hp. apply elem_of_nil_inv. intros v [Hf Hin]%list_elem_of_filter.
          rewrite Hp in Hf; done. }
      destruct (Nat.eqb_spec (length (filter (λ v, v_pushable v = false) (rep_recipes rep))) 0) as [E|E].
      * split; [|done]. intros _. split; [done|]. by apply Hlen.
      * split; [by destruct (_ =? _)%nat|]. by intros [_ ?%Hlen].
    + congruence.
    + intros _. exists m. split; [done|]. eapply Forall2_impl; [exact Hall|]. by intros r v [? _].
Qed.
End safety.

(** * A concrete medium

    A store with one recipe in repository [r]: its artifact, an index whose only
    child the medium does not carry, and that same child pinned as a second
    ingredient. Hashes and documents are tables. *)

Definition rep64 (c : byte) : string := String.concat "" (replicate 64 (String c "")).

Fixpoint put_path (segs : list string) (data : string) (n : node) : node :=
  match segs with
  | [] => Regular data
  | s :: segs =>
      let entries := match n with Dir es => es | _ => [] end in
      let old := default (Dir []) (find_entry s entries) in
      Dir ((s, put_path segs data old) :: filter (λ p, p.1 ≠ s) entries)
  end.
Definition store_of (files : list (string * string)) : node :=
  fold_left (λ n '(p, data), put_path (split_byte "/" p) data n) files (Dir []).

Definition demo_hash (s : string) : string :=
  if String.eqb s "ART" then rep64 "a" else if String.eqb s "IDX" then rep64 "b" else rep64 "c".
Definition demo_digest (c : byte) : string := "sha256:" +:+ rep64 c.

Definition demo_content : list (string * string) :=
  [(blobPath (rep64 "a"), "ART"); (manifestLinkPath "r" (rep64 "a"), "link");
   (blobPath (rep64 "b"), "IDX"); (manifestLinkPath "r" (rep64 "b"), "link");
   (recipesFile, "graph")].
Definition demo_recipe : Recipe :=
  mkRecipe "app" "1.0" "registry.example.com/cookbook/app" "r" "" (demo_digest "a") 10
    [mkIngredient "index" "image" "r" "" (demo_digest "b");
     mkIngredient "pinned" "image" "r" "" (demo_digest "d")].
Definition demo_manifest : Manifest :=
  mkManifest 1 1 "media" "zone" "dev" "" 10 11 [demo_recipe]
    ((λ '(p, data), mkFile p (Z.of_nat (slen data)) ("sha256:" +:+ demo_hash data)) <$> demo_content)
    (mkTotals 5 0).

Definition demo_oracle_for (m : Manifest) : MediaOracle := {|
  sha256hex := demo_hash;
  decode_manifest s := if String.eqb s "MANIFEST" then Some m else None;
  decode_oci s := if String.eqb s "IDX" then Some (mkOci None [] [demo_digest "d"])
                  else Some (mkOci None [] []);
  rfc3339 t := "";
  detail_text d := "";
|}.
#[local] Instance demo_oracle : MediaOracle := demo_oracle_for demo_manifest.
Definition demo_verifier : SigVerifier := {| Keys := unit; sig_verify _ _ _ := SigAbsent |}.
#[local] Existing Instance demo_verifier.

Definition demo_store : node := store_of (demo_content ++ [(ManifestPath, "MANIFEST")]).
Definition demo_options : VerifyOptions :=
  mkOptions _ "zone" (Some (λ _, mkTrust _ true "lab" None)) None false false.

(** A pinned ingredient that is missing can be cleared for the push. When an
    index of the same repository, walked earlier, lists the ingredient's manifest
    among its optional children, the visit of the absent child marks it seen, and
    the later, required visit returns at once: the recipe is pushable although
    neither the manifest nor anything below it is on the medium. *)
Theorem missing_ingredient_cleared :
  (rep_verdict <$> Verify (Some demo_store) demo_options None) = Some VerdictPushable ∧
  (mkIngredient "pinned" "image" "r" "" (demo_digest "d")) ∈ rc_ingredients demo_recipe ∧
  digestHex (demo_digest "d") = Ok (rep64 "d") ∧
  exists_file demo_store (blobPath (rep64 "d")) = false ∧
  exists_file demo_store (manifestLinkPath "r" (rep64 "d")) = false.
Proof.
  split; [vm_compute; reflexivity|]. split; [right; left|]. split; [vm_compute; reflexivity|].
  split; vm_compute; reflexivity.
Qed.

Definition demo_report : Report :=
  default (mkReport VerdictBlocked [] None None None [] [] (mkTotals 0 0))
    (Verify (Some demo_store) demo_options None).
Definition demo_verdict : RecipeVerdict :=
  mkVerdict "app" "1.0" "registry.example.com/cookbook/app" "r" (demo_digest "a") 10 true None ""
    "lab" true 4 14.

Lemma demo_verified : Verify (Some demo_store) demo_options None = Some demo_report.
Proof. vm_compute. reflexivity. Qed.

Lemma demo_pushable : Pushable demo_report = [demo_verdict].
Proof. vm_compute. reflexivity. Qed.

Lemma pushable_intact_witness :
  ∃ m r, readManifest demo_store = inl m ∧ r ∈ m_recipes m ∧ about r demo_verdict ∧
    sound demo_store (inventory_map m) recipesFile ∧ delivered demo_store (inventory_map m) r.
Proof.
  apply (pushable_intact demo_store demo_options None demo_report demo_verdict demo_verified).
  rewrite demo_pushable. left.
Defined.

Lemma pushable_trusted_witness :
  ∃ m r, readManifest demo_store = inl m ∧ r ∈ m_recipes m ∧ trusted demo_options r demo_verdict.
Proof.
  destruct (pushable_trusted demo_store demo_options None demo_report demo_verdict demo_verified)
    as (m & r & Hm & Hr & _ & Ht & _).
  - rewrite demo_pushable. left.
  - exists m, r. split; [exact Hm|]. split; [exact Hr|exact Ht].
Defined.

Lemma report_consistent_witness :
  rep_verdict demo_report = VerdictPushable ↔
    standing (rep_blocks demo_report) = false ∧
    ∀ v, v ∈ rep_recipes demo_report → v_pushable v = true.
Proof.
  exact (proj1 (proj2 (report_consistent demo_store demo_options None demo_report demo_verified))).
Defined.
