(* ===== verification/SigKeys.v ===== *)
(** The trust-root keys (internal/sigverify/keys.go): parsing PEM inputs into keys
    with their fingerprints, and the union of key sets. The encoding, hashing and
    signature libraries are the class [KeyLib]. *)

From S2P Require Import Prelude GoStrings.

Inductive hash_alg := SHA256 | SHA384.

(** The public keys [x509.ParsePKIXPublicKey] tells apart, with what the code asks
    of them: the name of the curve, the size of the modulus, the Go type. *)
Inductive key_kind := ECDSA (curve : string) | Ed25519 | RSA (bits : Z) | OtherKey (type : string).

(** [pem_blocks] lists the blocks [pem.Decode] yields in turn over one input, each
    with its type and bytes. *)
Class KeyLib : Type := {
  pubkey : Type;
  kind_of : pubkey → key_kind;
  pem_blocks : string → list (string * string);
  parse_pkix : string → option pubkey;
  marshal_pkix : pubkey → option string;
  hash_sum : hash_alg → string → string;
  ecdsa_verify : pubkey → string → string → bool;
  ed25519_verify : pubkey → string → string → bool;
  rsa_verify : pubkey → string → string → bool;
}.

Definition minRSABits : Z := 2048.
Definition pemTypePublicKey : string := "PUBLIC KEY".

(** Why a key is refused. *)
Inductive key_error :=
  | KeyParse | KeyEncode | KeyCurve (curve : string) | KeySmall (bits : Z) | KeyType (type : string).
Inductive keys_error :=
  | BlockType (i : nat) (type : string) | BlockKey (i : nat) (e : key_error) | NoBlock (i : nat) | NoPublicKey.

(** [hex.EncodeToString]. *)
Definition hex_char (n : nat) : ascii := ascii_of_nat (if n <? 10 then 48 + n else 87 + n).
Fixpoint hex_encode (s : string) : string :=
  match s with
  | EmptyString => EmptyString
  | String c s =>
      String (hex_char (nat_of_ascii c / 16)) (String (hex_char (nat_of_ascii c mod 16)) (hex_encode s))
  end.

Section keys.
Context `{KeyLib}.

(** [trustedKey]: the closure is the algorithm it calls and the key it captures. *)
Inductive verify_method := VerifyECDSA (h : hash_alg) (pk : pubkey) | VerifyEd25519 (pk : pubkey) | VerifyRSA (pk : pubkey).
Record trustedKey := mkKey { tk_fingerprint : string; tk_method : verify_method }.

(** What the closure answers on a payload and a signature. *)
Definition key_verify (k : trustedKey) (payload sig : string) : bool :=
  match tk_method k with
  | VerifyECDSA h pk => ecdsa_verify pk (hash_sum h payload) sig
  | VerifyEd25519 pk => ed25519_verify pk payload sig
  | VerifyRSA pk => rsa_verify pk (hash_sum SHA256 payload) sig
  end.

(** [newTrustedKey]. *)
Definition newTrustedKey (der : string) : res key_error trustedKey :=
  match parse_pkix der with
  | None => Err KeyParse
  | Some pub =>
      match marshal_pkix pub with
      | None => Err KeyEncode
      | Some canonical =>
          let fp := "sha256:" +:+ hex_encode (hash_sum SHA256 canonical) in
          match kind_of pub with
          | ECDSA curve =>
              if String.eqb curve "P-256" then Ok (mkKey fp (VerifyECDSA SHA256 pub))
              else if String.eqb curve "P-384" then Ok (mkKey fp (VerifyECDSA SHA384 pub))
              else Err (KeyCurve curve)
          | Ed25519 => Ok (mkKey fp (VerifyEd25519 pub))
          | RSA bits =>
              if (bits <? minRSABits)%Z then Err (KeySmall bits) else Ok (mkKey fp (VerifyRSA pub))
          | OtherKey t => Err (KeyType t)
          end
      end
  end.

(** [ParsePublicKeys]: the blocks of one input, the inputs, the whole. *)
Fixpoint parse_blocks (i : nat) (blocks : list (string * string)) : res keys_error (list trustedKey) :=
  match blocks with
  | [] => Ok []
  | (type, bytes) :: blocks =>
      if negb (String.eqb type pemTypePublicKey) then Err (BlockType i type)
      else
        key ← wrap_err (BlockKey i) (newTrustedKey bytes);
        keys ← parse_blocks i blocks;
        Ok (key :: keys)
  end.
Definition parse_input (i : nat) (input : string) : res keys_error (list trustedKey) :=
  keys ← parse_blocks i (pem_blocks input);
  match keys with [] => Err (NoBlock i) | _ => Ok keys end.
Fixpoint parse_inputs (i : nat) (pems : list string) : res keys_error (list trustedKey) :=
  match pems with
  | [] => Ok []
  | input :: pems => keys ← parse_input i input; rest ← parse_inputs (S i) pems; Ok (keys ++ rest)
  end.
Definition ParsePublicKeys (pems : list string) : res keys_error (list trustedKey) :=
  keys ← parse_inputs 0 pems;
  match keys with [] => Err NoPublicKey | _ => Ok keys end.

(** [Fingerprints]. *)
Definition fingerprints (ks : list trustedKey) : list string := tk_fingerprint <$> ks.

(** [Union]: one key per fingerprint, the first. *)
Definition union_key (acc : list trustedKey * gset string) (k : trustedKey) : list trustedKey * gset string :=
  if decide (tk_fingerprint k ∈ acc.2) then acc
  else (acc.1 ++ [k], {[ tk_fingerprint k ]} ∪ acc.2).
Definition Union (sets : list (list trustedKey)) : list trustedKey :=
  (fold_left union_key (concat sets) ([], ∅)).1.

(** * Facts *)

(** A key that was read is strong: a known curve, Ed25519, or a modulus that is
    not short, and its fingerprint is that of its canonical encoding. *)
Definition strong_key (k : trustedKey) : Prop :=
  ∃ pub canonical, marshal_pkix pub = Some canonical ∧
    tk_fingerprint k = "sha256:" +:+ hex_encode (hash_sum SHA256 canonical) ∧
    match tk_method k with
    | VerifyECDSA h pk =>
        pk = pub ∧ (kind_of pub = ECDSA "P-256" ∧ h = SHA256 ∨ kind_of pub = ECDSA "P-384" ∧ h = SHA384)
    | VerifyEd25519 pk => pk = pub ∧ kind_of pub = Ed25519
    | VerifyRSA pk => pk = pub ∧ ∃ bits, kind_of pub = RSA bits ∧ (minRSABits ≤ bits)%Z
    end.

Lemma newTrustedKey_strong der k : newTrustedKey der = Ok k → strong_key k.
Proof.
  unfold newTrustedKey, strong_key. destruct (parse_pkix der) as [pub|]; [|done].
  destruct (marshal_pkix pub) as [canonical|] eqn:Hm; [|done].
  destruct (kind_of pub) as [curve| |bits|] eqn:Hk; [|..|done].
  - destruct (String.eqb_spec curve "P-256") as [->|_].
    { intros [= <-]. exists pub, canonical. cbn. naive_solver. }
    destruct (String.eqb_spec curve "P-384") as [->|_]; [|done].
    intros [= <-]. exists pub, canonical. cbn. naive_solver.
  - intros [= <-]. exists pub, canonical. cbn. naive_solver.
  - destruct (bits <? minRSABits)%Z eqn:Hb; [done|]. apply Z.ltb_ge in Hb.
    intros [= <-]. exists pub, canonical. cbn. naive_solver.
Qed.

Lemma parse_blocks_strong i blocks ks : parse_blocks i blocks = Ok ks → Forall strong_key ks.
Proof.
  revert ks. induction blocks as [|[t b] blocks IH]; intros ks; cbn; [intros [= <-]; constructor|].
  destruct (negb _); [done|]. intros Hks. inv_ok. constructor; [|by eapply IH].
  by eapply newTrustedKey_strong.
Qed.

Lemma parse_input_Ok i input ks : parse_input i input = Ok ks → ks ≠ [] ∧ Forall strong_key ks.
Proof.
  unfold parse_input. intros (l & Hl & Hk)%res_bind_Ok. destruct l as [|k l]; [done|].
  injection Hk as <-. split; [done|]. by eapply parse_blocks_strong.
Qed.

(** The index of an input only shows in its errors. *)
Lemma parse_blocks_index i j blocks ks : parse_blocks i blocks = Ok ks → parse_blocks j blocks = Ok ks.
Proof.
  revert ks. induction blocks as [|[t b] blocks IH]; intros ks; cbn; [done|].
  destruct (negb _); [done|]. destruct (newTrustedKey b); cbn; [|done].
  intros (l & Hl & [= <-])%res_bind_Ok. by rewrite (IH _ Hl).
Qed.

Lemma parse_input_index i j input ks : parse_input i input = Ok ks → parse_input j input = Ok ks.
Proof.
  unfold parse_input. intros (l & Hl & Hk)%res_bind_Ok. rewrite (parse_blocks_index i j _ _ Hl). cbn.
  by destruct l.
Qed.

Lemma parse_inputs_snoc i pems pem ks1 ks2 :
  parse_inputs i pems = Ok ks1 → parse_input 0 pem = Ok ks2 → parse_inputs i (pems ++ [pem]) = Ok (ks1 ++ ks2).
Proof.
  revert i ks1. induction pems as [|p pems IH]; intros i ks1; cbn.
  - intros [= <-] Hp. rewrite (parse_input_index _ i _ _ Hp). cbn. by rewrite app_nil_r.
  - intros (k & Hk & Hr)%res_bind_Ok Hp. apply res_bind_Ok in Hr as (rest & Hr & [= <-]).
    rewrite Hk. cbn. rewrite (IH _ _ Hr Hp). cbn. by rewrite app_assoc.
Qed.

Lemma ParsePublicKeys_one pem ks :
  ParsePublicKeys [pem] = Ok ks → parse_input 0 pem = Ok ks ∧ ks ≠ [] ∧ Forall strong_key ks.
Proof.
  unfold ParsePublicKeys. cbn. destruct (parse_input 0 pem) as [l|] eqn:Hp; cbn; [|done].
  rewrite app_nil_r. intros Hl. apply parse_input_Ok in Hp as [Hne Hs]. destruct l; [done|].
  by injection Hl as <-.
Qed.

(** What [Union] has accumulated: the keys seen, once per fingerprint. *)
Definition merged (ks : list trustedKey) (acc : list trustedKey * gset string) : Prop :=
  ∀ fp, (fp ∈ fingerprints acc.1 ↔ fp ∈ fingerprints ks) ∧ (fp ∈ acc.2 ↔ fp ∈ fingerprints ks).

Lemma merged_key ks acc k : merged ks acc → merged (ks ++ [k]) (union_key acc k).
Proof.
  intros Hm fp. destruct (Hm fp) as [H1 H2]. destruct (Hm (tk_fingerprint k)) as [_ Hk].
  unfold union_key, fingerprints in *. case_decide as Hin; cbn;
    rewrite ?fmap_app, ?elem_of_app, ?H1, ?elem_of_union, ?elem_of_singleton, ?H2; cbn;
    rewrite ?list_elem_of_singleton; [|tauto].
  apply Hk in Hin. split; (split; [tauto|]); intros [?| ->]; done.
Qed.

Lemma Union_spec sets fp : fp ∈ fingerprints (Union sets) ↔ ∃ ks, ks ∈ sets ∧ fp ∈ fingerprints ks.
Proof.
  assert (∀ l pre acc, merged pre acc → merged (pre ++ l) (fold_left union_key l acc)) as Hfold.
  { induction l as [|k l IH]; intros pre acc Hm; cbn; [by rewrite app_nil_r|].
    rewrite cons_middle, app_assoc. by apply IH, merged_key. }
  assert (merged [] ([], ∅)) as H0 by (intros fp'; cbn; set_solver).
  unfold Union. rewrite (proj1 (Hfold (concat sets) _ _ H0 fp)). cbn.
  unfold fingerprints. setoid_rewrite list_elem_of_fmap. setoid_rewrite list_elem_of_In.
  setoid_rewrite in_concat. naive_solver.
Qed.

Lemma Union_Forall (P : trustedKey → Prop) sets : Forall (Forall P) sets → Forall P (Union sets).
Proof.
  intros Hs. apply Forall_concat in Hs. unfold Union.
  assert (∀ l acc, Forall P l → Forall P acc.1 → Forall P (fold_left union_key l acc).1) as Hfold;
    [|by apply Hfold; [|constructor]].
  induction l as [|k l IH]; intros acc Hl Hacc; cbn; [done|]. apply Forall_cons in Hl as [Hk Hl].
  apply IH; [done|]. unfold union_key. case_decide; cbn; [done|]. apply Forall_app. by rewrite Forall_singleton.
Qed.

Lemma Union_nodup sets : NoDup (fingerprints (Union sets)).
Proof.
  unfold Union. assert (∀ l acc, (∀ fp, fp ∈ acc.2 ↔ fp ∈ fingerprints acc.1) → NoDup (fingerprints acc.1) →
    NoDup (fingerprints (fold_left union_key l acc).1)) as Hfold; [|by apply Hfold; [set_solver|constructor]].
  induction l as [|k l IH]; intros acc Hs Hn; cbn; [done|].
  apply IH; unfold union_key, fingerprints in *; case_decide as Hin; cbn; try done.
  - intros fp. rewrite elem_of_union, elem_of_singleton, fmap_app, elem_of_app, Hs. cbn.
    rewrite list_elem_of_singleton. tauto.
  - rewrite fmap_app. apply NoDup_app. split; [done|]. split; [|apply NoDup_singleton].
    intros fp Hfp Hk. cbn in Hk. apply list_elem_of_singleton in Hk as ->. by apply Hin, Hs.
Qed.
End keys.
