(* ===== verification/SigVerify.v ===== *)
(** The signature verifier (internal/sigverify/verify.go and bundle.go): the
    classic attached signature, the Sigstore bundle layout, and the adapter of a
    transported store to it (internal/media/verify.go). JSON decoding is the class
    [SigCodec]; keys and hashes come from [SigKeys]. *)

From stdpp Require Import pretty.
From S2P Require Import Prelude GoStrings MediaPaths MediaVerify SigKeys.

(** * Encodings of the standard library *)

(** [strconv.Itoa] of a length. *)
Definition itoa (n : nat) : string := pretty (N.of_nat n).

(** [base64.StdEncoding.DecodeString]: line breaks are skipped, the padding is
    required, and the spare bits of the last quantum are ignored. *)
Definition b64_value (c : byte) : option N :=
  if is_upper c then Some (N_of_ascii c - 65)%N
  else if is_lower c then Some (N_of_ascii c - 71)%N
  else if is_digit c then Some (N_of_ascii c + 4)%N
  else if Ascii.eqb c "+" then Some 62%N
  else if Ascii.eqb c "/" then Some 63%N
  else None.
Definition byte_of (n : N) : byte := ascii_of_N (n mod 256).
Fixpoint b64_quanta (s : string) : option string :=
  match s with
  | "" => Some ""
  | String a (String b (String c (String d rest))) =>
      x ← b64_value a; y ← b64_value b;
      let b1 := byte_of (x * 4 + y / 16) in
      if Ascii.eqb c "=" then
        if Ascii.eqb d "=" && String.eqb rest "" then Some (String b1 "") else None
      else
        z ← b64_value c;
        let b2 := byte_of (y * 16 + z / 4) in
        if Ascii.eqb d "=" then
          if String.eqb rest "" then Some (String b1 (String b2 "")) else None
        else
          w ← b64_value d; r ← b64_quanta rest;
          Some (String b1 (String b2 (String (byte_of (z * 64 + w)) r)))
  | _ => None
  end.
Fixpoint strip_breaks (s : string) : string :=
  match s with
  | "" => ""
  | String c s => if Ascii.eqb c "010" || Ascii.eqb c "013" then strip_breaks s else String c (strip_breaks s)
  end.
Definition base64_decode (s : string) : option string := b64_quanta (strip_breaks s).

(** [strings.EqualFold] against a lower-case hexadecimal text: none of its
    characters has a case variant outside ASCII. *)
Definition equal_fold_hex (s hex : string) : bool := String.eqb (map_bytes lower_byte s) hex.

(** * Data *)

Definition MediaTypeSimpleSigning : string := "application/vnd.dev.cosign.simplesigning.v1+json".
Definition AnnotationSignature : string := "dev.cosignproject.cosign/signature".
Definition MaxPayloadSize : Z := Z.shiftl 1 20.
Definition payloadType : string := "cosign container image signature".
Definition sha256Prefix : string := "sha256:".
Definition hexDigestLen : nat := 64.
Definition mediaTypeBundlePrefix : string := "application/vnd.dev.sigstore.bundle".
Definition payloadTypeInToto : string := "application/vnd.in-toto+json".
Definition statementType : string := "https://in-toto.io/Statement/v1".
Definition dsseV1 : string := "DSSEv1".

(** [Manifests], with the optional [ReferrersLister]. *)
Inductive src_error := SrcNotFound | SrcFailed (text : string).
Record Manifests := mkManifests {
  src_manifest : string → string → res src_error string;
  src_blob : string → string → res src_error string;
  src_referrers : option (string → string → list string * option src_error) }.

Record sigDescriptor := mkSigDescriptor {
  sd_media_type : string; sd_digest : string; sd_size : Z; sd_annotations : gmap string string }.
Record simpleSigning := mkSimple { ss_reference : string; ss_digest : string; ss_type : string }.
Record referringManifest := mkReferring {
  rm_artifact_type : string; rm_layers : list sigDescriptor; rm_subject : option sigDescriptor }.
Record dsseEnvelope := mkEnvelope {
  env_payload : string; env_payload_type : string; env_signatures : list string }.
(** [sigstoreBundle]: of the key material and of the message signature the code
    only asks whether they are there. *)
Record sigstoreBundle := mkBundle {
  sb_public_key : bool; sb_certificate : bool; sb_chain : bool;
  sb_envelope : option dsseEnvelope; sb_message_signature : bool }.
Record inTotoStatement := mkStatement { st_type : string; st_subject : list (gmap string string) }.

(** Why a digest, a layer, a candidate or the whole verification is refused. *)
Inductive sha_error := ShaPrefix | ShaLength | ShaHex.
Inductive sig_reason :=
  | MissingAnnotation | SizeExceeds (size : Z) | DescriptorDigest (e : sha_error) | BlobMissing (d : string)
  | BlobExceeds (size : Z) | BlobMismatch (d : string) | PayloadJSON | PayloadType (t : string)
  | PayloadPins (d : string) | SignatureBase64
  | BundleRefers (d : string) | BundleJSON | BundleMessage | BundleNoEnvelope | BundleKeyless
  | EnvelopeType (t : string) | EnvelopeBase64 | EnvelopeExceeds (size : Z) | StatementJSON
  | StatementType (t : string) | SubjectDigest (e : sha_error) | SubjectNotNamed (hex : string)
  | NoDecodableSignature | NoBundleLayer.
Inductive located := AtLayer (i : nat) (r : sig_reason) | AtBundle (d : string) (r : sig_reason)
  | ManifestJSON | NoSimpleLayer.
Inductive fatal_error :=
  | NoTrustRoots | BadSubject (e : sha_error) | ReadSignature (e : src_error) | ReadPayload (e : src_error)
  | ListReferrers (e : src_error) | ReadReferrersTag (e : src_error) | ReadReferring (e : src_error)
  | ReadBundle (e : src_error).

(** JSON decoding, and the rendering of messages. *)
Class SigCodec : Type := {
  decode_sig_manifest : string → option (list sigDescriptor);
  decode_simple : string → option simpleSigning;
  decode_referring : string → option referringManifest;
  decode_referrers_index : string → option (list sigDescriptor);
  decode_bundle : string → option sigstoreBundle;
  decode_statement : string → option inTotoStatement;
  located_text : located → string;
  fatal_text : fatal_error → string;
}.

(** [parseSHA256Digest]. *)
Definition is_hex_any (c : byte) : bool := is_digit c || in_range "a" "f" c || in_range "A" "F" c.
Definition parseSHA256Digest (d : string) : res sha_error string :=
  match cut_prefix sha256Prefix d with
  | None => Err ShaPrefix
  | Some hex =>
      if negb (slen hex =? hexDigestLen)%nat then Err ShaLength
      else if negb (all_bytes is_hex_any hex) then Err ShaHex
      else Ok (map_bytes lower_byte hex)
  end.

(** [preAuthEncoding]. *)
Definition preAuthEncoding (ptype payload : string) : string :=
  dsseV1 +:+ " " +:+ itoa (slen ptype) +:+ " " +:+ ptype +:+ " " +:+ itoa (slen payload) +:+ " " +:+ payload.

Section verify.
Context `{KeyLib, SigCodec}.

(** The first key that verifies. *)
Fixpoint try_keys (keys : list trustedKey) (payload sig : string) : option string :=
  match keys with
  | [] => None
  | k :: keys => if key_verify k payload sig then Some (tk_fingerprint k) else try_keys keys payload sig
  end.

(** * The classic layout *)

(** A layer's content, the reason it cannot verify, or a fatal error. *)
Inductive fetched := Content (blob : string) | Refused (r : sig_reason) | Fatal (e : fatal_error).

(** [signaturePayload] and [bundleBlob]: the part they share, from the size to the
    digest of the content. *)
Definition fetch_layer (fail : src_error → fatal_error) (src : Manifests) (repo : string)
    (layer : sigDescriptor) : fetched :=
  if (MaxPayloadSize <? sd_size layer)%Z then Refused (SizeExceeds (sd_size layer))
  else
    match parseSHA256Digest (sd_digest layer) with
    | Err e => Refused (DescriptorDigest e)
    | Ok layerHex =>
        match src_blob src repo (sd_digest layer) with
        | Err SrcNotFound => Refused (BlobMissing (sd_digest layer))
        | Err e => Fatal (fail e)
        | Ok blob =>
            if (MaxPayloadSize <? Z.of_nat (slen blob))%Z then Refused (BlobExceeds (Z.of_nat (slen blob)))
            else if negb (String.eqb (hex_encode (hash_sum SHA256 blob)) layerHex)
            then Refused (BlobMismatch (sd_digest layer))
            else Content blob
        end
    end.
Definition annotation (layer : sigDescriptor) : string :=
  default "" (sd_annotations layer !! AnnotationSignature).
Definition signaturePayload (src : Manifests) (repo : string) (layer : sigDescriptor) : fetched :=
  if String.eqb (annotation layer) "" then Refused MissingAnnotation
  else fetch_layer ReadPayload src repo layer.
Definition bundleBlob (src : Manifests) (repo : string) (layer : sigDescriptor) : fetched :=
  fetch_layer ReadBundle src repo layer.

(** One SimpleSigning layer: [Verified] with the key's fingerprint, [WellFormed]
    when it pins the digest and no key verifies it. *)
Inductive attempt := Verified (fp : string) | WellFormed | Unusable (r : sig_reason) | Broke (e : fatal_error).
Definition try_layer (src : Manifests) (repo manifestDigest : string) (keys : list trustedKey)
    (layer : sigDescriptor) : attempt :=
  match signaturePayload src repo layer with
  | Fatal e => Broke e
  | Refused r => Unusable r
  | Content blob =>
      match decode_simple blob with
      | None => Unusable PayloadJSON
      | Some payload =>
          if negb (String.eqb (ss_type payload) payloadType) then Unusable (PayloadType (ss_type payload))
          else if negb (String.eqb (ss_digest payload) manifestDigest) then Unusable (PayloadPins (ss_digest payload))
          else
            match base64_decode (annotation layer) with
            | None => Unusable SignatureBase64
            | Some sig =>
                match try_keys keys blob sig with Some fp => Verified fp | None => WellFormed end
            end
      end
  end.

(** The loop over the layers: the reasons, whether a well-formed signature was
    seen, and the number of candidates. *)
Inductive tried A := Found (fp : string) | Stopped (e : fatal_error) | Exhausted (a : A).
Arguments Found {A} fp.
Arguments Stopped {A} e.
Arguments Exhausted {A} a.
Fixpoint try_layers (src : Manifests) (repo manifestDigest : string) (keys : list trustedKey)
    (i : nat) (layers : list sigDescriptor) (reasons : list located) (seen : bool) (candidates : nat)
  : tried (list located * bool * nat) :=
  match layers with
  | [] => Exhausted (reasons, seen, candidates)
  | layer :: layers =>
      if negb (String.eqb (sd_media_type layer) MediaTypeSimpleSigning) then
        try_layers src repo manifestDigest keys (S i) layers reasons seen candidates
      else
        match try_layer src repo manifestDigest keys layer with
        | Verified fp => Found fp
        | Broke e => Stopped e
        | Unusable r =>
            try_layers src repo manifestDigest keys (S i) layers (reasons ++ [AtLayer i r]) seen (S candidates)
        | WellFormed => try_layers src repo manifestDigest keys (S i) layers reasons true (S candidates)
        end
  end.

(** * The bundle layout *)

(** [verifyBundleBlob]. *)
Fixpoint try_signatures (keys : list trustedKey) (pae : string) (sigs : list string) (tried : bool)
  : option string * bool :=
  match sigs with
  | [] => (None, tried)
  | s :: sigs =>
      match base64_decode s with
      | None => try_signatures keys pae sigs tried
      | Some sig =>
          match try_keys keys pae sig with
          | Some fp => (Some fp, true)
          | None => try_signatures keys pae sigs true
          end
      end
  end.
Definition verify_statement (env : dsseEnvelope) (payload subjectDigest : string) (keys : list trustedKey) : attempt :=
  match decode_statement payload with
  | None => Unusable StatementJSON
  | Some st =>
      if negb (String.eqb (st_type st) statementType) then Unusable (StatementType (st_type st))
      else
        match parseSHA256Digest subjectDigest with
        | Err e => Unusable (SubjectDigest e)
        | Ok wantHex =>
            if negb (existsb (λ s, equal_fold_hex (default "" (s !! "sha256")) wantHex) (st_subject st))
            then Unusable (SubjectNotNamed wantHex)
            else
              match try_signatures keys (preAuthEncoding (env_payload_type env) payload) (env_signatures env) false with
              | (Some fp, _) => Verified fp
              | (None, true) => WellFormed
              | (None, false) => Unusable NoDecodableSignature
              end
        end
  end.
Definition verifyBundleBlob (blob subjectDigest : string) (keys : list trustedKey) : attempt :=
  match decode_bundle blob with
  | None => Unusable BundleJSON
  | Some b =>
      match sb_envelope b with
      | None => Unusable (if sb_message_signature b then BundleMessage else BundleNoEnvelope)
      | Some env =>
          if negb (sb_public_key b) && (sb_certificate b || sb_chain b) then Unusable BundleKeyless
          else if negb (String.eqb (env_payload_type env) payloadTypeInToto)
          then Unusable (EnvelopeType (env_payload_type env))
          else
            match base64_decode (env_payload env) with
            | None => Unusable EnvelopeBase64
            | Some payload =>
                if (MaxPayloadSize <? Z.of_nat (slen payload))%Z
                then Unusable (EnvelopeExceeds (Z.of_nat (slen payload)))
                else verify_statement env payload subjectDigest keys
            end
      end
  end.

(** [verifyOneBundle]: [None] when the artifact is not a signature bundle. *)
Fixpoint try_bundle_layers (src : Manifests) (repo subjectDigest : string) (keys : list trustedKey)
    (layers : list sigDescriptor) (verifiable : bool) : attempt :=
  match layers with
  | [] => if verifiable then WellFormed else Unusable NoBundleLayer
  | layer :: layers =>
      if negb (has_prefix (sd_media_type layer) mediaTypeBundlePrefix) then
        try_bundle_layers src repo subjectDigest keys layers verifiable
      else
        match bundleBlob src repo layer with
        | Fatal e => Broke e
        | Refused r => Unusable r
        | Content blob =>
            match verifyBundleBlob blob subjectDigest keys with
            | WellFormed => try_bundle_layers src repo subjectDigest keys layers true
            | a => a
            end
        end
  end.
Definition verifyOneBundle (src : Manifests) (repo subjectDigest manifestDigest : string)
    (keys : list trustedKey) : option attempt :=
  match src_manifest src repo manifestDigest with
  | Err SrcNotFound => None
  | Err e => Some (Broke (ReadReferring e))
  | Ok raw =>
      match decode_referring raw with
      | None => None
      | Some man =>
          if negb (has_prefix (rm_artifact_type man) mediaTypeBundlePrefix) then None
          else
            match rm_subject man with
            | Some s =>
                if negb (String.eqb (sd_digest s) "") && negb (String.eqb (sd_digest s) subjectDigest)
                then Some (Unusable (BundleRefers (sd_digest s)))
                else Some (try_bundle_layers src repo subjectDigest keys (rm_layers man) false)
            | None => Some (try_bundle_layers src repo subjectDigest keys (rm_layers man) false)
            end
      end
  end.

(** [bundleCandidates]. *)
Definition add_candidate (acc : list string * gset string) (d : string) : list string * gset string :=
  if String.eqb d "" || bool_decide (d ∈ acc.2) then acc else (acc.1 ++ [d], {[ d ]} ∪ acc.2).
Definition bundleCandidates (src : Manifests) (repo subjectDigest subjectHex : string)
  : res fatal_error (list string) :=
  let listed :=
    match src_referrers src with
    | None => Ok []
    | Some referrers =>
        match referrers repo subjectDigest with
        | (_, Some (SrcFailed t)) => Err (ListReferrers (SrcFailed t))
        | (digests, _) => Ok digests
        end
    end in
  digests ← listed;
  let acc := fold_left add_candidate digests ([], ∅) in
  match src_manifest src repo ("sha256-" +:+ subjectHex) with
  | Ok raw =>
      Ok (fold_left add_candidate (sd_digest <$> default [] (decode_referrers_index raw)) acc).1
  | Err SrcNotFound => Ok acc.1
  | Err e => Err (ReadReferrersTag e)
  end.

(** [verifyBundles]: whether a candidate was found, whether one is well formed,
    and the reasons. *)
Fixpoint try_bundles (src : Manifests) (repo subjectDigest : string) (keys : list trustedKey)
    (ds : list string) (found verifiable : bool) (reasons : list located)
  : tried (bool * bool * list located) :=
  match ds with
  | [] => Exhausted (found, verifiable, reasons)
  | d :: ds =>
      match verifyOneBundle src repo subjectDigest d keys with
      | None => try_bundles src repo subjectDigest keys ds found verifiable reasons
      | Some (Broke e) => Stopped e
      | Some (Verified fp) => Found fp
      | Some WellFormed => try_bundles src repo subjectDigest keys ds true true reasons
      | Some (Unusable r) => try_bundles src repo subjectDigest keys ds true verifiable (reasons ++ [AtBundle d r])
      end
  end.
Definition verifyBundles (src : Manifests) (repo subjectDigest subjectHex : string) (keys : list trustedKey)
  : tried (bool * bool * list located) :=
  match bundleCandidates src repo subjectDigest subjectHex with
  | Err e => Stopped e
  | Ok ds => try_bundles src repo subjectDigest keys ds false false []
  end.

(** * [Verify] *)

Definition reasons_text (reasons : list located) : string := join "; " (located_text <$> reasons).
Definition sigTag (subjectHex : string) : string := "sha256-" +:+ subjectHex +:+ ".sig".

(** No classic signature. *)
Definition verify_without_tag (src : Manifests) (repo digest hex : string) (keys : list trustedKey) : SigOutcome :=
  match verifyBundles src repo digest hex keys with
  | Stopped e => SigFailed (fatal_text e)
  | Found fp => SigOk fp
  | Exhausted (found, verifiable, reasons) =>
      if negb found then SigAbsent
      else if verifiable then SigNoTrustedKey (fingerprints keys)
      else SigBad (reasons_text reasons)
  end.
(** A classic signature whose layers did not verify. *)
Definition verify_after_tag (src : Manifests) (repo digest hex : string) (keys : list trustedKey)
    (reasons : list located) (seen : bool) (candidates : nat) : SigOutcome :=
  match verifyBundles src repo digest hex keys with
  | Stopped e => SigFailed (fatal_text e)
  | Found fp => SigOk fp
  | Exhausted (_, verifiable, bundleReasons) =>
      if seen || verifiable then SigNoTrustedKey (fingerprints keys)
      else if (candidates =? 0)%nat then SigBad (located_text NoSimpleLayer)
      else SigBad (reasons_text (reasons ++ bundleReasons))
  end.
Definition sigverify_Verify (src : Manifests) (repo digest : string) (keys : list trustedKey) : SigOutcome :=
  match keys with
  | [] => SigFailed (fatal_text NoTrustRoots)
  | _ =>
      match parseSHA256Digest digest with
      | Err e => SigFailed (fatal_text (BadSubject e))
      | Ok hex =>
          match src_manifest src repo (sigTag hex) with
          | Err SrcNotFound => verify_without_tag src repo digest hex keys
          | Err e => SigFailed (fatal_text (ReadSignature e))
          | Ok raw =>
              match decode_sig_manifest raw with
              | None => SigBad (located_text ManifestJSON)
              | Some layers =>
                  match try_layers src repo digest keys 0 layers [] false 0 with
                  | Found fp => SigOk fp
                  | Stopped e => SigFailed (fatal_text e)
                  | Exhausted (reasons, seen, candidates) =>
                      verify_after_tag src repo digest hex keys reasons seen candidates
                  end
              end
          end
      end
  end.
End verify.
Arguments Found {A} fp.
Arguments Stopped {A} e.
Arguments Exhausted {A} a.

(** * The source of a transported store *)

(** [Reader]: what the store answers; [manifestSource] adapts it, for one
    repository, with a bounded read of blobs. *)
Record StoreReader := mkReader {
  rd_manifest : string → string → res src_error string;
  rd_blob : string → string → res src_error string }.
Definition over_bound : src_error := SrcFailed "media: blob exceeds the signature payload bound".
Definition manifestSource (rd : StoreReader) (repo : string) : Manifests := mkManifests
  (λ _ reference, rd_manifest rd repo reference)
  (λ _ dgst,
    raw ← rd_blob rd repo dgst;
    if (MaxPayloadSize <? Z.of_nat (slen raw))%Z then Err over_bound else Ok raw)
  None.
