(* ===== verification/Password.v ===== *)
(** Password hashes (internal/auth/password.go) with the encodings they are written in:
    raw base64 and the formatted scan of a PHC string. argon2id and SHA-256 are the class
    [AuthLib]; [IDKey] may panic outside its documented domain. *)

From stdpp Require Import pretty.
From S2P Require Import Prelude GoStrings SigVerify.

(** * Raw base64 *)

(** The two alphabets of [encoding/base64]; they differ in the last two digits. *)
Definition b64_digit (d62 d63 : byte) (n : N) : byte :=
  if (n <? 26)%N then ascii_of_N (n + 65)
  else if (n <? 52)%N then ascii_of_N (n + 71)
  else if (n <? 62)%N then ascii_of_N (n - 4)
  else if (n =? 62)%N then d62 else d63.
(** [RawStdEncoding.EncodeToString] and [RawURLEncoding.EncodeToString]. *)
Fixpoint raw_encode (digit : N → byte) (s : string) : string :=
  match s with
  | "" => ""
  | String a "" =>
      let a := N_of_ascii a in
      String (digit (a / 4)%N) (String (digit (a mod 4 * 16)%N) "")
  | String a (String b "") =>
      let a := N_of_ascii a in
      let b := N_of_ascii b in
      String (digit (a / 4)%N) (String (digit (a mod 4 * 16 + b / 16)%N) (String (digit (b mod 16 * 4)%N) ""))
  | String a (String b (String c rest)) =>
      let a := N_of_ascii a in
      let b := N_of_ascii b in
      let c := N_of_ascii c in
      String (digit (a / 4)%N) (String (digit (a mod 4 * 16 + b / 16)%N)
        (String (digit (b mod 16 * 4 + c / 64)%N) (String (digit (c mod 64)%N) (raw_encode digit rest))))
  end.
Definition std_digit : N → byte := b64_digit "+" "/".
Definition url_digit : N → byte := b64_digit "-" "_".
Definition raw_std_encode : string → string := raw_encode std_digit.
Definition raw_url_encode : string → string := raw_encode url_digit.
(** [RawStdEncoding.DecodeString]: no padding, line breaks skipped, spare bits ignored. *)
Fixpoint raw_quanta (s : string) : option string :=
  match s with
  | "" => Some ""
  | String a (String b "") =>
      x ← b64_value a; y ← b64_value b; Some (String (byte_of (x * 4 + y / 16)) "")
  | String a (String b (String c "")) =>
      x ← b64_value a; y ← b64_value b; z ← b64_value c;
      Some (String (byte_of (x * 4 + y / 16)) (String (byte_of (y * 16 + z / 4)) ""))
  | String a (String b (String c (String d rest))) =>
      x ← b64_value a; y ← b64_value b; z ← b64_value c; w ← b64_value d; r ← raw_quanta rest;
      Some (String (byte_of (x * 4 + y / 16)) (String (byte_of (y * 16 + z / 4)) (String (byte_of (z * 64 + w)) r)))
  | String _ "" => None
  end.
Definition raw_std_decode (s : string) : option string := raw_quanta (strip_breaks s).

(** * Formatted scanning *)

(** [fmt.Sscanf]: a literal matches itself; [%d] skips spaces, but not a line break, and
    reads a sign where the operand has one and then decimal digits; what follows the last
    verb is not looked at. *)
Definition space_runes : list string :=
  ["009"; "011"; "012"; "013"; " "]%char ≫= (λ c, [String c ""]).
Definition wide_spaces : list string :=
  (λ l, String.string_of_list_ascii (ascii_of_nat <$> l)) <$>
    ([[194; 133]; [194; 160]; [225; 154; 128]; [226; 128; 168]; [226; 128; 169]; [226; 128; 175]; [226; 129; 159]; [227; 128; 128]] ++
     ((λ n, [226; 128; 128 + n]) <$> seq 0 11))%nat.
Definition cut_space (s : string) : option string :=
  foldr (λ sp r, match cut_prefix sp s with Some rest => Some rest | None => r end) None (space_runes ++ wide_spaces).
Fixpoint skip_space (fuel : nat) (s : string) : option string :=
  match fuel with
  | O => Some s
  | S fuel =>
      match s with
      | String "010"%char _ => None
      | _ => match cut_space s with Some rest => skip_space fuel rest | None => Some s end
      end
  end.
Fixpoint span_digits (s : string) : string * string :=
  match s with
  | String c rest => if is_digit c then let '(d, r) := span_digits rest in (String c d, r) else ("", s)
  | "" => ("", "")
  end.
Definition scan_int (s : string) : option (Z * string) :=
  s ← skip_space (slen s) s;
  let '(neg, body) := match s with
                      | String "-" rest => (true, rest)
                      | String "+" rest => (false, rest)
                      | _ => (false, s)
                      end in
  let '(d, rest) := span_digits body in
  if String.eqb d "" then None
  else n ← digits_value d 0; let n := if (neg : bool) then (- n)%Z else n in
    if (int64_min <=? n)%Z && (n <=? int64_max)%Z then Some (n, rest) else None.
Definition scan_uint (width : Z) (s : string) : option (Z * string) :=
  s ← skip_space (slen s) s;
  let '(d, rest) := span_digits s in
  if String.eqb d "" then None
  else n ← digits_value d 0; if (n <? 2 ^ width)%Z then Some (n, rest) else None.

(** * Hashing *)

Class AuthLib : Type := {
  IDKey : string → string → Z → Z → Z → Z → option string;
  sha256 : string → string;
  (** [argon2.IDKey] returns a key of the length asked for, for at least one pass and one
      thread; it panics below. *)
  IDKey_length : ∀ password salt t m p n, (1 <= t)%Z → (1 <= p)%Z → (1 <= n)%Z →
    ∃ key, IDKey password salt t m p n = Some key ∧ Z.of_nat (slen key) = n;
}.
Definition argonVersion : Z := 19.
Definition argonTime : Z := 3.
Definition argonMemory : Z := 64 * 1024.
Definition argonThreads : Z := 2.
Definition argonKeyLen : Z := 32.
Definition argonSaltLen : nat := 16.

Section hashing.
Context `{AuthLib}.

(** [hashPassword]; [salt] is what the random source answers. *)
Definition phc (salt key : string) : string :=
  "$argon2id$v=" +:+ pretty argonVersion +:+ "$m=" +:+ pretty argonMemory +:+ ",t=" +:+ pretty argonTime +:+ ",p=" +:+ pretty argonThreads
  +:+ "$" +:+ raw_std_encode salt +:+ "$" +:+ raw_std_encode key.
Definition hashPassword (salt : option string) (password : string) : option (res string string) :=
  match salt with
  | None => Some (Err "generating salt")
  | Some salt => key ← IDKey password salt argonTime argonMemory argonThreads argonKeyLen; Some (Ok (phc salt key))
  end.

(** [verifyPassword]; [None] is a panic of the key derivation. *)
Definition scan_version (s : string) : option Z :=
  s ← cut_prefix "v=" s; '(v, _) ← scan_int s; Some v.
Definition scan_params (s : string) : option (Z * Z * Z) :=
  s ← cut_prefix "m=" s; '(m, s) ← scan_uint 32 s; s ← cut_prefix ",t=" s; '(t, s) ← scan_uint 32 s;
  s ← cut_prefix ",p=" s; '(p, _) ← scan_uint 8 s; Some (m, t, p).
Definition verifyPassword (password phc : string) : option bool :=
  match split_byte "$" phc with
  | [_; alg; version; params; salt; key] =>
      if negb (String.eqb alg "argon2id") then Some false
      else match scan_version version with
      | Some v =>
          if negb (v =? argonVersion)%Z then Some false
          else match scan_params params, raw_std_decode salt, raw_std_decode key with
          | Some (m, t, p), Some salt, Some want =>
              got ← IDKey password salt t m p (Z.of_nat (slen want) mod 2 ^ 32)%Z;
              Some (String.eqb got want)
          | _, _, _ => Some false
          end
      | None => Some false
      end
  | _ => Some false
  end.
End hashing.

(** * Round trips *)

Definition digits64 (d62 d63 : byte) : list byte := b64_digit d62 d63 ∘ N.of_nat <$> seq 0 64.
Lemma digit_lt (P : byte → Prop) d62 d63 n : (n < 64)%N → Forall P (digits64 d62 d63) → P (b64_digit d62 d63 n).
Proof.
  intros Hn HP. unfold digits64 in HP. rewrite Forall_fmap in HP. rewrite Forall_forall in HP. rewrite <-(N2Nat.id n). apply (HP (N.to_nat n)).
  apply elem_of_seq. lia.
Qed.
Lemma b64_value_digit n : (n < 64)%N → b64_value (std_digit n) = Some n.
Proof.
  intros Hn. assert (∀ k, k ∈ seq 0 64 → b64_value (std_digit (N.of_nat k)) = Some (N.of_nat k)) as Hall.
  { apply Forall_forall, (bool_decide_unpack _). by vm_compute. }
  rewrite <-(N2Nat.id n). apply Hall, elem_of_seq. lia.
Qed.
(** Digits are not line breaks, nor the separator of a PHC string. *)
Definition plain_digit (c : byte) : Prop := c ≠ "010"%char ∧ c ≠ "013"%char ∧ c ≠ "$"%char.
Lemma std_digit_plain n : (n < 64)%N → plain_digit (std_digit n).
Proof. intros Hn. apply (digit_lt plain_digit); [done|]. unfold digits64. vm_compute. repeat constructor; discriminate. Qed.
Lemma byte_bound (a : byte) : (N_of_ascii a < 256)%N.
Proof. apply N_ascii_bounded. Qed.
(** The groups of six bits of three bytes, and the bytes they give back. *)
Lemma sextet_bounds (a b c : byte) :
  (N_of_ascii a / 4 < 64 ∧ N_of_ascii a mod 4 * 16 < 64 ∧ N_of_ascii a mod 4 * 16 + N_of_ascii b / 16 < 64 ∧
   N_of_ascii b mod 16 * 4 < 64 ∧ N_of_ascii b mod 16 * 4 + N_of_ascii c / 64 < 64 ∧ N_of_ascii c mod 64 < 64)%N.
Proof.
  pose proof (byte_bound a) as Ha. pose proof (byte_bound b) as Hb. pose proof (byte_bound c) as Hc.
  apply (N.Div0.div_lt_upper_bound _ 4 64) in Ha. apply (N.Div0.div_lt_upper_bound _ 16 16) in Hb. apply (N.Div0.div_lt_upper_bound _ 64 4) in Hc.
  pose proof (N.mod_lt (N_of_ascii a) 4). pose proof (N.mod_lt (N_of_ascii b) 16). pose proof (N.mod_lt (N_of_ascii c) 64). lia.
Qed.
Lemma byte_of_id (a : byte) k n : (n = 256 * k + N_of_ascii a)%N → byte_of n = a.
Proof.
  intros E. unfold byte_of. rewrite <-(N.mod_unique n 256 k (N_of_ascii a) (byte_bound a) E). apply ascii_N_embedding.
Qed.
Lemma first_byte_back (a : byte) t : (t < 16)%N → byte_of (N_of_ascii a / 4 * 4 + (N_of_ascii a mod 4 * 16 + t) / 16) = a.
Proof.
  intros Ht. rewrite <-(N.div_unique (N_of_ascii a mod 4 * 16 + t) 16 (N_of_ascii a mod 4) t) by lia.
  apply (byte_of_id a 0). pose proof (N.div_mod (N_of_ascii a) 4). lia.
Qed.
Lemma second_byte_back (b : byte) r t : (t < 4)%N → byte_of ((r * 16 + N_of_ascii b / 16) * 16 + (N_of_ascii b mod 16 * 4 + t) / 4) = b.
Proof.
  intros Ht. rewrite <-(N.div_unique (N_of_ascii b mod 16 * 4 + t) 4 (N_of_ascii b mod 16) t) by lia.
  apply (byte_of_id b r). pose proof (N.div_mod (N_of_ascii b) 16). lia.
Qed.
Lemma third_byte_back (c : byte) r : byte_of ((r * 4 + N_of_ascii c / 64) * 64 + N_of_ascii c mod 64) = c.
Proof. apply (byte_of_id c r). pose proof (N.div_mod (N_of_ascii c) 64). lia. Qed.
Lemma raw_encode_ind (P : string → Prop) :
  P "" → (∀ a, P (String a "")) → (∀ a b, P (String a (String b ""))) →
  (∀ a b c s, P s → P (String a (String b (String c s)))) → ∀ s, P s.
Proof.
  intros H0 H1 H2 H3. assert (∀ n s, (slen s <= n)%nat → P s) as Hn; [|intros s; by apply (Hn (slen s))].
  induction n as [|n IH]; intros s Hs; destruct s as [|a [|b [|c s]]]; cbn in Hs; try done; try lia. apply H3, IH. lia.
Qed.
Lemma strip_breaks_encode s : strip_breaks (raw_std_encode s) = raw_std_encode s.
Proof.
  assert (∀ n t, (n < 64)%N → strip_breaks (String (std_digit n) t) = String (std_digit n) (strip_breaks t)) as Hs.
  { intros n t Hn. destruct (std_digit_plain n Hn) as (H1 & H2 & _). cbn [strip_breaks]. apply Ascii.eqb_neq in H1, H2. by rewrite H1, H2. }
  unfold raw_std_encode. induction s as [|a|a b|a b c s IH] using raw_encode_ind; cbn [raw_encode]; [done| | |].
  - destruct (sextet_bounds a a a) as (? & ? & _). by rewrite !Hs.
  - destruct (sextet_bounds a b b) as (? & ? & ? & ? & _). by rewrite !Hs.
  - destruct (sextet_bounds a b c) as (? & ? & ? & ? & ? & ?). by rewrite !Hs, IH.
Qed.
Lemma raw_std_roundtrip s : raw_std_decode (raw_std_encode s) = Some s.
Proof.
  unfold raw_std_decode. rewrite strip_breaks_encode. unfold raw_std_encode.
  induction s as [|a|a b|a b c s IH] using raw_encode_ind; cbn [raw_encode raw_quanta]; [done| | |].
  - destruct (sextet_bounds a a a) as (? & ? & _). rewrite !b64_value_digit by done. cbn [mbind option_bind].
    pose proof (first_byte_back a 0 eq_refl) as E. rewrite N.add_0_r in E. by rewrite E.
  - destruct (sextet_bounds a b b) as (? & ? & ? & ? & _). rewrite !b64_value_digit by done. cbn [mbind option_bind].
    pose proof (second_byte_back b (N_of_ascii a mod 4) 0 eq_refl) as E. rewrite N.add_0_r in E. rewrite E, first_byte_back; [done|].
    apply N.Div0.div_lt_upper_bound. apply byte_bound.
  - destruct (sextet_bounds a b c) as (? & ? & ? & ? & ? & ?). rewrite !b64_value_digit by done. cbn [mbind option_bind]. rewrite IH. cbn [mbind option_bind].
    rewrite first_byte_back, second_byte_back, third_byte_back; [done|apply N.Div0.div_lt_upper_bound, byte_bound..].
Qed.
Lemma raw_std_no_sep s : ¬ in_str "$" (raw_std_encode s).
Proof.
  assert (∀ n t, (n < 64)%N → ¬ in_str "$" t → ¬ in_str "$" (String (std_digit n) t)) as Hs.
  { intros n t Hn Ht. destruct (std_digit_plain n Hn) as (_ & _ & H). cbn. intros [?|?]; [congruence|done]. }
  unfold raw_std_encode. induction s as [|a|a b|a b c s IH] using raw_encode_ind; cbn [raw_encode]; [by intros []| | |].
  - destruct (sextet_bounds a a a) as (? & ? & _). by repeat (apply Hs; [done|]); intros [].
  - destruct (sextet_bounds a b b) as (? & ? & ? & ? & _). by repeat (apply Hs; [done|]); intros [].
  - destruct (sextet_bounds a b c) as (? & ? & ? & ? & ? & ?). repeat (apply Hs; [done|]). apply IH.
Qed.

Section roundtrip.
Context `{AuthLib}.

Lemma split_phc salt key :
  split_byte "$" (phc salt key) = [""; "argon2id"; "v=19"; "m=65536,t=3,p=2"; raw_std_encode salt; raw_std_encode key].
Proof.
  transitivity (split_byte "$" ("" +:+ String "$" ("argon2id" +:+ String "$" ("v=19" +:+ String "$" ("m=65536,t=3,p=2" +:+
    String "$" (raw_std_encode salt +:+ String "$" (raw_std_encode key))))))); [done|].
  rewrite !split_byte_app by (first [apply raw_std_no_sep|cbn; intuition discriminate]).
  by rewrite split_byte_single by apply raw_std_no_sep.
Qed.
(** Hashing and verifying round-trip. A hash the program computed verifies exactly the
    passwords that derive the same key with its salt, the one it was computed from
    first of all, and the verification of such a hash never panics. *)
Theorem password_roundtrip salt password other h :
  hashPassword (Some salt) password = Some (Ok h) →
  verifyPassword other h = Some (bool_decide (IDKey other salt argonTime argonMemory argonThreads argonKeyLen =
    IDKey password salt argonTime argonMemory argonThreads argonKeyLen)).
Proof.
  unfold hashPassword. destruct (IDKey_length password salt argonTime argonMemory argonThreads argonKeyLen) as (key & E & Hl); [done..|].
  destruct (IDKey_length other salt argonTime argonMemory argonThreads argonKeyLen) as (got & Eg & _); [done..|].
  rewrite E. intros [= <-]. unfold verifyPassword. rewrite split_phc. cbn [String.eqb negb Ascii.eqb Bool.eqb].
  assert (scan_version "v=19" = Some argonVersion) as -> by (by vm_compute). rewrite Z.eqb_refl. cbn [negb].
  assert (scan_params "m=65536,t=3,p=2" = Some (argonMemory, argonTime, argonThreads)) as -> by (by vm_compute).
  rewrite !raw_std_roundtrip, Hl. change (argonKeyLen mod 2 ^ 32)%Z with argonKeyLen. rewrite Eg. cbn [mbind option_bind]. f_equal.
  destruct (String.eqb_spec got key) as [->|Hne]; [by rewrite bool_decide_eq_true_2|]. rewrite bool_decide_eq_false_2; [done|congruence].
Qed.
End roundtrip.

(** A derivation for evaluation: the password and the salt, cut and padded to the length. *)
Fixpoint fit (n : nat) (s : string) : string :=
  match n, s with
  | O, _ => ""
  | S n, "" => String "." (fit n "")
  | S n, String c s => String c (fit n s)
  end.
Lemma fit_length n s : slen (fit n s) = n.
Proof. revert s. induction n as [|n IH]; intros [|c s]; cbn; by rewrite ?IH. Qed.
#[export, refine] Instance toy_auth : AuthLib := {|
  IDKey password salt t m p n := if (1 <=? t)%Z && (1 <=? p)%Z && (1 <=? n)%Z then Some (fit (Z.to_nat n) (password +:+ salt)) else None;
  sha256 s := s;
|}.
Proof.
  intros password salt t m p n Ht Hp Hn. rewrite !(proj2 (Z.leb_le _ _)) by done. cbn [andb]. eexists. split; [done|]. rewrite fit_length. lia.
Defined.
Lemma password_roundtrip_witness :
  ∃ h, hashPassword (Some "0123456789abcdef") "hunter2" = Some (Ok h) ∧ verifyPassword "hunter2" h = Some true ∧ verifyPassword "hunter3" h = Some false.
Proof.
  exists (phc "0123456789abcdef" (fit 32 "hunter20123456789abcdef")). split; [done|].
  split; rewrite (password_roundtrip "0123456789abcdef" "hunter2") by done; by vm_compute.
Defined.
