(* ===== verification/Auth.v ===== *)
(** Authentication (internal/auth): accounts and tokens with their file, the cache of
    verified passwords, sessions, and the middleware of the machine surfaces, together
    with the handlers that manage accounts (internal/api/accounts.go, the account screens
    of internal/ui) and the files surface of internal/cli/serve.go.

    The key derivation may panic on parameters the program never writes: the error
    [AuthPanic] and the answer [Aborted] stand for the request it ends. *)

From S2P Require Import Prelude GoStrings Taxonomy Disk RateLimit SigVerify SigKeys Password.
Open Scope Z_scope.

(** * Secret files (internal/secretfile) *)

(** [Write]: a temporary file beside the target, restricted before anything is written
    into it, flushed, renamed over the target, restricted again. A failure on the way
    removes the temporary file. *)
Definition or_clean (name : string) (r : bool * Disk) (k : Disk → bool * Disk) : bool * Disk :=
  match r with
  | (true, d) => k d
  | (false, d) => (false, (remove name d).2)
  end.
Definition secret_write (name path data : string) (d : Disk) : bool * Disk :=
  match probe d with
  | (false, d) => (false, d)
  | (true, d) =>
      match write_file name "" d with
      | (false, d) => (false, d)
      | (true, d) =>
          or_clean name (probe d) (λ d,
          or_clean name (write_file name data d) (λ d,
          or_clean name (probe d) (λ d,
          or_clean name (probe d) (λ d,
          or_clean name (rename name path d) probe))))
      end
  end.
(** [MkdirAll]. *)
Definition secret_mkdir (d : Disk) : bool * Disk :=
  match probe d with (true, d) => probe d | (false, d) => (false, d) end.

(** * Data *)

(** [Role]: any text, ordered by [rank]. *)
Definition Role : Type := string.
Definition RoleViewer : Role := "viewer".
Definition RoleOperator : Role := "operator".
Definition RoleAdmin : Role := "admin".
Definition rank (r : Role) : Z :=
  if String.eqb r RoleAdmin then 3 else if String.eqb r RoleOperator then 2 else if String.eqb r RoleViewer then 1 else 0.
Definition AtLeast (r floor : Role) : bool := rank floor <=? rank r.
Definition ParseRole (s : string) : option Role :=
  if String.eqb s RoleViewer || String.eqb s RoleOperator || String.eqb s RoleAdmin then Some s else None.

Record Account := mkAccount { ac_name : string; ac_role : Role; ac_hash : string; ac_created : Z; ac_login : option Z }.
Record Token := mkToken { tk_name : string; tk_role : Role; tk_hash : string; tk_created : Z; tk_revoked : bool }.
Record Identity := mkIdentity { id_name : string; id_role : Role; id_token : bool; id_anonymous : bool }.
Definition AnonymousIdentity : Identity := mkIdentity "anonymous" RoleAdmin false true.

Record fileSchema := mkSchema { sc_version : Z; sc_accounts : list Account; sc_tokens : list Token }.
Record verifiedCred := mkVerified { vc_sum : string; vc_name : string; vc_expires : Z }.
Record AuthStore := mkAuthStore { au_path : string; au_data : fileSchema; au_verified : list verifiedCred }.

(** [gopkg.in/yaml.v3] on the accounts file; decoding starts from version 1. *)
Class AccountsCodec : Type := {
  yaml_encode : fileSchema → string;
  yaml_decode : string → option fileSchema;
  yaml_roundtrip : ∀ x, yaml_decode (yaml_encode x) = Some x;
}.

Inductive auth_error := ErrNotFound | ErrExists | ErrLastAdmin | NameRequired | SaltFailed | SaveFailed | AuthPanic
  | StateRequired | MkdirFailed | ReadError | ParseError | VersionError (v : Z).

Definition accountsFile : string := "accounts.yaml".
Definition verifyCacheTTL : Z := 60 * 1000000000.
Definition verifyCacheCap : nat := 1024.
Definition tokenPrefix : string := "tby_".

Definition set_data (f : fileSchema → fileSchema) (s : AuthStore) : AuthStore := mkAuthStore (au_path s) (f (au_data s)) (au_verified s).
Definition set_accounts (l : list Account) (s : AuthStore) : AuthStore := set_data (λ x, mkSchema (sc_version x) l (sc_tokens x)) s.
Definition set_tokens (l : list Token) (s : AuthStore) : AuthStore := set_data (λ x, mkSchema (sc_version x) (sc_accounts x) l) s.
Definition set_verified (l : list verifiedCred) (s : AuthStore) : AuthStore := mkAuthStore (au_path s) (au_data s) l.
Definition set_role (r : Role) (a : Account) : Account := mkAccount (ac_name a) r (ac_hash a) (ac_created a) (ac_login a).
Definition set_hash (h : string) (a : Account) : Account := mkAccount (ac_name a) (ac_role a) h (ac_created a) (ac_login a).
Definition set_login (t : Z) (a : Account) : Account := mkAccount (ac_name a) (ac_role a) (ac_hash a) (ac_created a) (Some t).
Definition revoke (t : Token) : Token := mkToken (tk_name t) (tk_role t) (tk_hash t) (tk_created t) true.

(** The loops of the store act on the first entry of a name: what stands before it, the
    entry, and what follows. *)
Fixpoint split_first {A} (p : A → bool) (l : list A) : option (list A * A * list A) :=
  match l with
  | [] => None
  | a :: l =>
      if p a then Some ([], a, l)
      else '(before, x, after) ← split_first p l; Some (a :: before, x, after)
  end.
Definition named (name : string) (a : Account) : bool := String.eqb (ac_name a) name.
Definition live_named (name : string) (t : Token) : bool := String.eqb (tk_name t) name && negb (tk_revoked t).

(** * The store *)

Section store.
Context `{GoRuntime, AuthLib, AccountsCodec}.

(** [Open]. *)
Definition OpenAuth (stateRoot : string) (d : Disk) : res auth_error AuthStore * Disk :=
  if String.eqb stateRoot "" then (Err StateRequired, d)
  else match secret_mkdir d with
  | (false, d) => (Err MkdirFailed, d)
  | (true, d) =>
      let path := stateRoot +:+ "/" +:+ accountsFile in
      match read_file path d with
      | (ReadNotExist, d) => (Ok (mkAuthStore path (mkSchema 1 [] []) []), d)
      | (ReadFailed, d) => (Err ReadError, d)
      | (Contents raw, d) =>
          match yaml_decode raw with
          | None => (Err ParseError, d)
          | Some data => if negb (sc_version data =? 1) then (Err (VersionError (sc_version data)), d) else (Ok (mkAuthStore path data []), d)
          end
      end
  end.
(** [save]; [tmp] is the name [os.CreateTemp] picks. *)
Definition save (tmp : string) (s : AuthStore) (d : Disk) : bool * Disk :=
  secret_write tmp (au_path s) (yaml_encode (au_data s)) d.
Definition saved (tmp : string) (s : AuthStore) (d : Disk) : res auth_error unit * AuthStore * Disk :=
  let '(ok, d) := save tmp s d in (if ok then Ok () else Err SaveFailed, s, d).

(** [HasAccounts], [Accounts], [Account], [Tokens]. *)
Definition HasAccounts (s : AuthStore) : bool := match sc_accounts (au_data s) with [] => false | _ => true end.
Definition Accounts (s : AuthStore) : list Account := sort_slice (λ a b, str_ltb (ac_name a) (ac_name b)) (sc_accounts (au_data s)).
Definition AccountOf (name : string) (s : AuthStore) : option Account :=
  '(_, a, _) ← split_first (named name) (sc_accounts (au_data s)); Some a.
Definition Tokens (s : AuthStore) : list Token := sort_slice (λ a b, str_ltb (tk_name a) (tk_name b)) (sc_tokens (au_data s)).

Definition adminsLocked (except : string) (l : list Account) : nat :=
  length (filter (λ a, String.eqb (ac_role a) RoleAdmin && negb (String.eqb (ac_name a) except) = true) l).
Definition forgetVerifiedLocked (name : string) (s : AuthStore) : AuthStore :=
  set_verified (filter (λ e, vc_name e ≠ name) (au_verified s)) s.

(** [AddAccount]. *)
Definition AddAccount (name : string) (role : Role) (password : string) (now : Z) (salt : option string) (tmp : string)
    (s : AuthStore) (d : Disk) : res auth_error unit * AuthStore * Disk :=
  if String.eqb name "" then (Err NameRequired, s, d)
  else match hashPassword salt password with
  | None => (Err AuthPanic, s, d)
  | Some (Err _) => (Err SaltFailed, s, d)
  | Some (Ok hash) =>
      if existsb (named name) (sc_accounts (au_data s)) then (Err ErrExists, s, d)
      else saved tmp (set_accounts (sc_accounts (au_data s) ++ [mkAccount name role hash now None]) s) d
  end.
(** [DeleteAccount]. *)
Definition DeleteAccount (name tmp : string) (s : AuthStore) (d : Disk) : res auth_error unit * AuthStore * Disk :=
  match split_first (named name) (sc_accounts (au_data s)) with
  | None => (Err ErrNotFound, s, d)
  | Some (before, a, after) =>
      if String.eqb (ac_role a) RoleAdmin && (adminsLocked name (sc_accounts (au_data s)) =? 0)%nat then (Err ErrLastAdmin, s, d)
      else saved tmp (forgetVerifiedLocked name (set_accounts (before ++ after) s)) d
  end.
(** [SetRole]. *)
Definition SetRole (name : string) (role : Role) (tmp : string) (s : AuthStore) (d : Disk) : res auth_error unit * AuthStore * Disk :=
  match split_first (named name) (sc_accounts (au_data s)) with
  | None => (Err ErrNotFound, s, d)
  | Some (before, a, after) =>
      if String.eqb (ac_role a) role then (Ok (), s, d)
      else if String.eqb (ac_role a) RoleAdmin && (adminsLocked name (sc_accounts (au_data s)) =? 0)%nat then (Err ErrLastAdmin, s, d)
      else saved tmp (set_accounts (before ++ set_role role a :: after) s) d
  end.
(** [SetPassword]. *)
Definition SetPassword (name password : string) (salt : option string) (tmp : string) (s : AuthStore) (d : Disk) : res auth_error unit * AuthStore * Disk :=
  match hashPassword salt password with
  | None => (Err AuthPanic, s, d)
  | Some (Err _) => (Err SaltFailed, s, d)
  | Some (Ok hash) =>
      match split_first (named name) (sc_accounts (au_data s)) with
      | None => (Err ErrNotFound, s, d)
      | Some (before, a, after) => saved tmp (forgetVerifiedLocked name (set_accounts (before ++ set_hash hash a :: after) s)) d
      end
  end.

(** [credSum], [cachedLocked], [rememberLocked], [VerifyPassword]. *)
Definition credSum (name password : string) : string := sha256 (name +:+ String "000" password).
Definition cached_entry (sum name : string) (now : Z) (e : verifiedCred) : bool :=
  negb (vc_expires e <? now) && String.eqb (vc_sum e) sum && String.eqb (vc_name e) name.
Definition cachedLocked (sum name : string) (now : Z) (s : AuthStore) : option Account :=
  if existsb (cached_entry sum name now) (au_verified s) then AccountOf name s else None.
Definition rememberLocked (sum name : string) (now : Z) (s : AuthStore) : AuthStore :=
  let live := filter (λ e, (vc_expires e <? now) = false) (au_verified s) in
  let live := if decide (verifyCacheCap ≤ length live)%nat then [] else live in
  set_verified (live ++ [mkVerified sum name (now + verifyCacheTTL)]) s.
Inductive verification := Verified (a : Account) | Refused | VerifyPanics.
Definition VerifyPassword (name password : string) (now : Z) (tmp : string) (s : AuthStore) (d : Disk) : verification * AuthStore * Disk :=
  let sum := credSum name password in
  match cachedLocked sum name now s with
  | Some acct => (Verified acct, s, d)
  | None =>
      match split_first (named name) (sc_accounts (au_data s)) with
      | None => (Refused, s, d)
      | Some (before, a, after) =>
          match verifyPassword password (ac_hash a) with
          | None => (VerifyPanics, s, d)
          | Some false => (Refused, s, d)
          | Some true =>
              let a := set_login now a in
              let s := set_accounts (before ++ a :: after) s in
              let '(_, d) := save tmp s d in
              (Verified a, rememberLocked sum name now s, d)
          end
      end
  end.

(** [CreateToken], [RevokeToken], [VerifyToken]; [raw] is what the random source answers. *)
Definition CreateToken (name : string) (role : Role) (now : Z) (raw : option string) (tmp : string)
    (s : AuthStore) (d : Disk) : res auth_error (string * Token) * AuthStore * Disk :=
  if String.eqb name "" then (Err NameRequired, s, d)
  else match raw with
  | None => (Err SaltFailed, s, d)
  | Some raw =>
      let secret := tokenPrefix +:+ raw_url_encode raw in
      if existsb (live_named name) (sc_tokens (au_data s)) then (Err ErrExists, s, d)
      else
        let tok := mkToken name role (hex_encode (sha256 secret)) now false in
        let '(r, s, d) := saved tmp (set_tokens (sc_tokens (au_data s) ++ [tok]) s) d in
        (match r with Ok _ => Ok (secret, tok) | Err e => Err e end, s, d)
  end.
Definition RevokeToken (name tmp : string) (s : AuthStore) (d : Disk) : res auth_error unit * AuthStore * Disk :=
  match split_first (live_named name) (sc_tokens (au_data s)) with
  | None => (Err ErrNotFound, s, d)
  | Some (before, t, after) => saved tmp (set_tokens (before ++ revoke t :: after) s) d
  end.
Definition VerifyToken (secret : string) (s : AuthStore) : option Token :=
  '(_, t, _) ← split_first (λ t, negb (tk_revoked t) && String.eqb (tk_hash t) (hex_encode (sha256 secret))) (sc_tokens (au_data s));
  Some t.
End store.

(** * Sessions *)

Definition SessionCookie : string := "tobby_session".
Record Session := mkSession { ss_id : string; ss_account : string; ss_role : Role; ss_csrf : string; ss_expires : Z }.
Record Sessions := mkSessions { sn_ttl : Z; sn_m : gmap string Session }.
Definition set_sessions (f : gmap string Session → gmap string Session) (s : Sessions) : Sessions := mkSessions (sn_ttl s) (f (sn_m s)).
Definition expired (now : Z) (s : Session) : bool := ss_expires s <? now.
Definition randomToken (raw : string) : string := raw_url_encode raw.
Definition sessions_sweep (now : Z) (s : Sessions) : Sessions := set_sessions (filter (λ '(_, x), expired now x = false)) s.
(** [Create]; [id] and [csrf] are the two random readings. *)
Definition sessions_create (account : string) (role : Role) (id csrf : string) (now : Z) (s : Sessions) : Session * Sessions :=
  let sess := mkSession (randomToken id) account role (randomToken csrf) (now + sn_ttl s) in
  (sess, set_sessions (<[ss_id sess := sess]>) (sessions_sweep now s)).
Definition sessions_get (id : string) (now : Z) (s : Sessions) : option Session * Sessions :=
  match sn_m s !! id with
  | Some sess => if expired now sess then (None, set_sessions (delete id) s) else (Some sess, s)
  | None => (None, set_sessions (delete id) s)
  end.
Definition sessions_delete (id : string) (s : Sessions) : Sessions := set_sessions (delete id) s.
Definition DeleteOthers (account keep : string) (s : Sessions) : Sessions :=
  set_sessions (filter (λ '(id, x), ¬ (ss_account x = account ∧ id ≠ keep))) s.
Definition CheckCSRF (token : string) (s : Session) : bool := negb (String.eqb token "") && String.eqb (ss_csrf s) token.

(** * Requests *)

(** What the handlers read of a request, with the instants at which they read the clock
    and the temporary name a save would pick. *)
Record Request := mkRequest {
  rq_method : string; rq_path : string; rq_authorization : string; rq_cookie : option string; rq_remote : string; rq_csrf : string;
  rq_gate : Z; rq_verify : Z; rq_after : Z; rq_tmp : string }.

(** [net.SplitHostPort], its host. *)
Definition SplitHost (s : string) : option string :=
  i ← last_index_byte ":" s;
  match s with
  | String "[" rest =>
      e ← index_byte "]" s;
      if (S e =? i)%nat && negb (contains_byte rest "[") && negb (contains_byte (sdrop (S e) s) "]") then Some (stake (e - 1) rest) else None
  | _ =>
      let host := stake i s in
      if contains_byte host ":" || contains_byte s "[" || contains_byte s "]" then None else Some host
  end.
Definition ClientOrigin (r : Request) : string := match SplitHost (rq_remote r) with Some host => host | None => rq_remote r end.
(** [http.Request.BasicAuth]. *)
Definition BasicAuth (r : Request) : option (string * string) :=
  let h := rq_authorization r in
  if String.eqb (map_bytes lower_byte (stake 6 h)) "basic " then raw ← base64_decode (sdrop 6 h); cut_byte ":" raw else None.
Definition credentialPresented (r : Request) : bool := negb (String.eqb (rq_authorization r) "").
Definition presentedName (r : Request) : string :=
  match BasicAuth r with
  | Some (name, _) => if String.eqb name "" then "unauthenticated" else name
  | None => "unauthenticated"
  end.
Definition is_read (r : Request) : bool := String.eqb (rq_method r) "GET" || String.eqb (rq_method r) "HEAD".

(** * The state of the authenticator, and the audit trail *)

Record Event := mkEvent { av_actor : string; av_action : string; av_target : string; av_outcome : string; av_origin : string }.
Record AuthState := mkAuthState {
  as_store : AuthStore; as_disk : Disk; as_sessions : Sessions; as_failures : failureLimiter; as_seen : gmap string Z; as_trail : list Event }.
(** The fixed part of [Authenticator]; [an_sessions] says whether a table was wired. *)
Record Authenticator := mkAuthenticator { an_disabled : bool; an_window : Z; an_sessions : bool }.

Definition auth (A : Type) : Type := AuthState → A * AuthState.
#[export] Instance auth_ret : MRet auth := λ A a st, (a, st).
#[export] Instance auth_bind : MBind auth := λ A B f m st, let '(a, st) := m st in f a st.
Definition on_store {A} (f : AuthStore → Disk → A * AuthStore * Disk) : auth A := λ st,
  let '(a, s, d) := f (as_store st) (as_disk st) in (a, mkAuthState s d (as_sessions st) (as_failures st) (as_seen st) (as_trail st)).
Definition on_sessions {A} (f : Sessions → A * Sessions) : auth A := λ st,
  let '(a, s) := f (as_sessions st) in (a, mkAuthState (as_store st) (as_disk st) s (as_failures st) (as_seen st) (as_trail st)).
Definition on_failures {A} (f : failureLimiter → A * failureLimiter) : auth A := λ st,
  let '(a, l) := f (as_failures st) in (a, mkAuthState (as_store st) (as_disk st) (as_sessions st) l (as_seen st) (as_trail st)).
Definition on_seen {A} (f : gmap string Z → A * gmap string Z) : auth A := λ st,
  let '(a, m) := f (as_seen st) in (a, mkAuthState (as_store st) (as_disk st) (as_sessions st) (as_failures st) m (as_trail st)).
Definition asks {A} (f : AuthState → A) : auth A := λ st, (f st, st).
(** [audit.Log]. *)
Definition audit (e : Event) : auth unit := λ st,
  ((), mkAuthState (as_store st) (as_disk st) (as_sessions st) (as_failures st) (as_seen st) (as_trail st ++ [e])).

Definition OutcomeSuccess : string := "success".
Definition OutcomeFailure : string := "failure".
Definition OutcomeDenied : string := "denied".
Definition ActionAuthenticate : string := "auth.authenticate".
Definition ActionRegistryAccess : string := "registry.access".
Definition ActionAPIAccess : string := "api.access".
Definition ActionUIAccess : string := "ui.access".
Definition ActionAccountCreate : string := "account.create".
Definition ActionAccountPasswd : string := "account.password_change".
Definition ActionAccountDelete : string := "account.delete".
Definition ActionAccountRole : string := "account.role_change".
Definition ActionTokenCreate : string := "token.create".
Definition ActionTokenRevoke : string := "token.revoke".
Definition ActionLogin : string := "session.login".
Definition ActionLogout : string := "session.logout".
Definition SurfaceUI : string := "ui".
Definition SurfaceAPI : string := "api".
Definition SurfaceRegistry : string := "registry".

(** What a surface answers: the wrapped handler runs under an identity, or under none on a
    surface opened to everybody; the login page, with the way back; a plain status; a
    problem document or an error page; a redirection; a body. *)
Inductive answer :=
  | Next (id : Identity) (sess : option Session)
  | NextOpen
  | ToLogin
  | Plain (status : Z)
  | Problem (c : Code)
  | Redirect (target : string) (sess : option Session)
  | NoContent
  | AccountBody (status : Z) (name : string) (role : Role) (created : Z)
  | SecretBody (name : string) (role : Role) (secret : string)
  | TokenBody (name : string) (role : Role) (created : Z) (revoked : bool)
  | Page
  | Aborted.

(** * The middleware of the machine surfaces *)

Definition defaultAuthWindow : Z := 3600 * 1000000000.
Definition seenCap : nat := 4096.

Section middleware.
Context `{GoRuntime, AuthLib, AccountsCodec} (a : Authenticator).

Inductive authenticated := Authentic (id : Identity) | NotAuthentic | AuthPanics.
(** [Authenticate]. *)
Definition token_identity (t : Token) : Identity := mkIdentity (tk_name t) (tk_role t) true false.
Definition Authenticate (r : Request) : auth authenticated :=
  if an_disabled a then mret (Authentic AnonymousIdentity)
  else match cut_prefix "Bearer " (rq_authorization r) with
  | Some secret =>
      t ← asks (λ st, VerifyToken secret (as_store st));
      mret (match t with Some t => Authentic (token_identity t) | None => NotAuthentic end)
  | None =>
      if has_prefix (rq_authorization r) "Basic " then
        match BasicAuth r with
        | None => mret NotAuthentic
        | Some (name, pass) =>
            if has_prefix pass tokenPrefix then
              t ← asks (λ st, VerifyToken pass (as_store st));
              mret (match t with Some t => Authentic (token_identity t) | None => NotAuthentic end)
            else
              v ← on_store (VerifyPassword name pass (rq_verify r) (rq_tmp r));
              mret (match v with
                    | Verified acct => Authentic (mkIdentity (ac_name acct) (ac_role acct) false false)
                    | Refused => NotAuthentic
                    | VerifyPanics => AuthPanics
                    end)
        end
      else mret NotAuthentic
  end.

(** [FailureAllowed], [RecordFailure]. *)
Definition FailureAllowed (origin : string) (now : Z) : auth bool := on_failures (limiter_allowed origin now).
Definition RecordFailure (origin : string) (now : Z) : auth unit := on_failures (λ l, ((), (limiter_record origin now l).2)).

(** [recordSuccess]. *)
Definition seen_key (surface : string) (r : Request) : string :=
  surface +:+ "|" +:+ ClientOrigin r +:+ "|" +:+ hex_encode (sha256 (rq_authorization r)).
Definition success_window : Z := if an_window a <=? 0 then defaultAuthWindow else an_window a.
Definition note_seen (key : string) (now : Z) (seen : gmap string Z) : bool * gmap string Z :=
  if match seen !! key with Some last => time_sub now last <? success_window | None => false end then (false, seen)
  else
    let seen :=
      if decide (seenCap ≤ size seen)%nat then
        let kept := filter (λ '(_, t), (success_window <=? time_sub now t) = false) seen in
        if decide (seenCap ≤ size kept)%nat then ∅ else kept
      else seen in
    (true, <[key := now]> seen).
Definition recordSuccess (surface : string) (r : Request) : auth bool := on_seen (note_seen (seen_key surface r) (rq_after r)).

(** [authenticateAudited]. *)
Inductive verdict := verdictOK (id : Identity) | verdictNone | verdictFailed | verdictThrottled | verdictPanic.
Definition authenticateAudited (r : Request) (surface : string) : auth verdict :=
  if an_disabled a then mret (verdictOK AnonymousIdentity)
  else if negb (credentialPresented r) then mret verdictNone
  else
    let origin := ClientOrigin r in
    ok ← FailureAllowed origin (rq_gate r);
    if negb ok then mret verdictThrottled
    else
      x ← Authenticate r;
      match x with
      | AuthPanics => mret verdictPanic
      | NotAuthentic =>
          RecordFailure origin (rq_after r);;
          audit (mkEvent (presentedName r) ActionAuthenticate surface OutcomeFailure origin);;
          mret verdictFailed
      | Authentic id =>
          new ← recordSuccess surface r;
          (if new : bool then audit (mkEvent (id_name id) ActionAuthenticate surface OutcomeSuccess origin) else mret ());;
          mret (verdictOK id)
      end.
(** [deny]. *)
Definition deny (r : Request) (action outcome actor : string) : auth unit :=
  audit (mkEvent (if String.eqb actor "" then "unauthenticated" else actor) action (rq_path r) outcome (ClientOrigin r)).

(** [Registry]. *)
Definition registry_floor (r : Request) : Role := if is_read r then RoleViewer else RoleOperator.
Definition Registry (r : Request) : auth answer :=
  v ← authenticateAudited r SurfaceRegistry;
  match v with
  | verdictPanic => mret Aborted
  | verdictThrottled => mret (Plain 429)
  | verdictNone => deny r ActionRegistryAccess OutcomeDenied "";; mret (Plain 401)
  | verdictFailed => mret (Plain 401)
  | verdictOK id =>
      if AtLeast (id_role id) (registry_floor r) then mret (Next id None)
      else deny r ActionRegistryAccess OutcomeDenied (id_name id);; mret (Plain 403)
  end.

(** [sessionIdentity] and [API]. *)
Definition sessionIdentity (r : Request) : auth (option Identity) :=
  if negb (an_sessions a) then mret None
  else match rq_cookie r with
  | None => mret None
  | Some id =>
      if String.eqb id "" then mret None
      else
        sess ← on_sessions (sessions_get id (rq_after r));
        mret (match sess with Some s => Some (mkIdentity (ss_account s) (ss_role s) false false) | None => None end)
  end.
Definition API (r : Request) : auth answer :=
  v ← authenticateAudited r SurfaceAPI;
  match v with
  | verdictPanic => mret Aborted
  | verdictThrottled => mret (Problem CodeAuthRateLimited)
  | verdictOK id => mret (Next id None)
  | _ =>
      id ← (if is_read r then sessionIdentity r else mret None);
      match id with
      | Some id => mret (Next id None)
      | None =>
          match v with verdictNone => deny r ActionAPIAccess OutcomeDenied "" | _ => mret () end;;
          mret (Problem CodeAuthFailed)
      end
  end.
(** [RequireRole] of the API. *)
Definition RequireRole (floor : Role) (id : Identity) (h : auth answer) : auth answer :=
  if AtLeast (id_role id) floor then h else mret (Problem CodeRoleDenied).

(** [filesAuth] of [internal/cli/serve.go]: [anonymous] are the file sets opened to
    everybody, and [fileset] the name in the path. *)
Definition filesAuth (anonymous : gset string) (fileset : string) (r : Request) : auth answer :=
  if decide (fileset ∈ anonymous) then mret NextOpen
  else
    let presented := credentialPresented r in
    let origin := ClientOrigin r in
    ok ← (if presented then FailureAllowed origin (rq_gate r) else mret true);
    if negb ok then mret (Plain 429)
    else
      x ← Authenticate r;
      match x with
      | AuthPanics => mret Aborted
      | NotAuthentic => (if presented then RecordFailure origin (rq_after r) else mret ());; mret (Plain 401)
      | Authentic id => mret (if AtLeast (id_role id) RoleViewer then Next id None else Plain 403)
      end.

(** * Interactive sessions (internal/ui) *)

(** [sanitizeNext]. *)
Definition sanitizeNext (next : string) : string :=
  if String.eqb next "" || negb (has_prefix next "/") || has_prefix next "//" then "/" else next.
(** [loginSubmit] in its two critical sections: the verification, and the session opened
    for the account it answered; [id] and [csrf] are the random readings. *)
Definition login_verify (name password : string) (r : Request) : auth (answer + Account) :=
  ok ← FailureAllowed (ClientOrigin r) (rq_gate r);
  if negb ok then mret (inl (Problem CodeAuthRateLimited))
  else
    v ← on_store (VerifyPassword name password (rq_verify r) (rq_tmp r));
    match v with
    | VerifyPanics => mret (inl Aborted)
    | Refused =>
        RecordFailure (ClientOrigin r) (rq_after r);;
        audit (mkEvent name ActionLogin "ui" OutcomeDenied (ClientOrigin r));;
        mret (inl (Problem CodeAuthFailed))
    | Verified acct => mret (inr acct)
    end.
Definition login_open (acct : Account) (id csrf next : string) (r : Request) : auth answer :=
  sess ← on_sessions (sessions_create (ac_name acct) (ac_role acct) id csrf (rq_after r));
  audit (mkEvent (ac_name acct) ActionLogin "ui" OutcomeSuccess (ClientOrigin r));;
  mret (Redirect (sanitizeNext next) (Some sess)).
Definition loginSubmit (name password id csrf next : string) (r : Request) : auth answer :=
  if an_disabled a then mret (Redirect "/" None)
  else
    x ← login_verify name password r;
    match x with inl ans => mret ans | inr acct => login_open acct id csrf next r end.

(** [sessionOf], [RequireSession], [RequireRole] of the screens. *)
Definition sessionOf (r : Request) : auth (option Session) :=
  match rq_cookie r with
  | None => mret None
  | Some id => if String.eqb id "" then mret None else on_sessions (sessions_get id (rq_after r))
  end.
Definition RequireSession (r : Request) : auth answer :=
  if an_disabled a then mret (Next AnonymousIdentity None)
  else
    sess ← sessionOf r;
    match sess with
    | None => mret ToLogin
    | Some s =>
        if is_read r || CheckCSRF (rq_csrf r) s then mret (Next (mkIdentity (ss_account s) (ss_role s) false false) (Some s))
        else mret (Problem CodeCSRF)
    end.
Definition ui_RequireRole (floor : Role) (id : Identity) (r : Request) (h : auth answer) : auth answer :=
  if AtLeast (id_role id) floor then h
  else audit (mkEvent (id_name id) ActionUIAccess (rq_path r) OutcomeDenied (ClientOrigin r));; mret (Problem CodeRoleDenied).
(** [logout]; [sess] is the session of the request, none under the override. *)
Definition logout (sess : option Session) (r : Request) : auth answer :=
  match sess with
  | Some s =>
      on_sessions (λ t, ((), sessions_delete (ss_id s) t));;
      audit (mkEvent (ss_account s) ActionLogout "ui" OutcomeSuccess (ClientOrigin r))
  | None => mret ()
  end;;
  mret (Redirect "/login" None).
End middleware.

(** * Managing accounts and tokens *)

(** [accountProblem] and [accountOutcome]; the screens map errors alike ([accountError]). *)
Definition accountProblem (e : auth_error) : answer :=
  match e with
  | ErrLastAdmin => Problem CodeLastAdmin
  | ErrNotFound => Problem CodeAccountUnknown
  | ErrExists => Problem CodeAccountExists
  | AuthPanic => Aborted
  | _ => Problem CodeInternal
  end.
Definition accountOutcome (e : auth_error) : string := match e with ErrLastAdmin => OutcomeDenied | _ => OutcomeFailure end.

Section accounts.
Context `{GoRuntime, AuthLib, AccountsCodec} (a : Authenticator).

Definition auditAccount (r : Request) (action actor target outcome : string) : auth unit :=
  audit (mkEvent actor action target outcome (ClientOrigin r)).
(** The audit record of a failed call; a panic leaves none. *)
Definition audit_error (r : Request) (action actor target : string) (outcome : auth_error → string) (e : auth_error) : auth unit :=
  match e with AuthPanic => mret () | _ => auditAccount r action actor target (outcome e) end.
Definition close_sessions (account keep : string) : auth unit :=
  if an_sessions a then on_sessions (λ s, ((), DeleteOthers account keep s)) else mret ().
Definition account_body (status : Z) (name : string) : auth answer :=
  acct ← asks (λ st, AccountOf name (as_store st));
  mret (match acct with
        | Some x => AccountBody status (ac_name x) (ac_role x) (ac_created x)
        | None => AccountBody status "" "" 0
        end).

(** [createAccount]; the body decoded, or not. *)
Definition createAccount (id : Identity) (body : option (string * string * string)) (salt : option string) (r : Request) : auth answer :=
  match body with
  | None => mret (Problem CodeAccountInvalid)
  | Some (name, role, password) =>
      let name := trim_space name in
      match ParseRole role with
      | Some role =>
          if String.eqb name "" || String.eqb password "" then
            auditAccount r ActionAccountCreate (id_name id) name OutcomeFailure;; mret (Problem CodeAccountInvalid)
          else
            x ← on_store (AddAccount name role password (rq_after r) salt (rq_tmp r));
            match x with
            | Err e => audit_error r ActionAccountCreate (id_name id) name (λ _, OutcomeFailure) e;; mret (accountProblem e)
            | Ok _ => auditAccount r ActionAccountCreate (id_name id) name OutcomeSuccess;; account_body 201 name
            end
      | None => auditAccount r ActionAccountCreate (id_name id) name OutcomeFailure;; mret (Problem CodeAccountInvalid)
      end
  end.
(** [updateAccount]. *)
Definition updateAccount (id : Identity) (name : string) (body : option string) (r : Request) : auth answer :=
  match body with
  | None => mret (Problem CodeAccountInvalid)
  | Some role =>
      match ParseRole role with
      | None => auditAccount r ActionAccountRole (id_name id) name OutcomeFailure;; mret (Problem CodeAccountInvalid)
      | Some role =>
          x ← on_store (SetRole name role (rq_tmp r));
          match x with
          | Err e => audit_error r ActionAccountRole (id_name id) name accountOutcome e;; mret (accountProblem e)
          | Ok _ => close_sessions name "";; auditAccount r ActionAccountRole (id_name id) name OutcomeSuccess;; account_body 200 name
          end
      end
  end.
(** [deleteAccount]. *)
Definition deleteAccount (id : Identity) (name : string) (r : Request) : auth answer :=
  x ← on_store (DeleteAccount name (rq_tmp r));
  match x with
  | Err e => audit_error r ActionAccountDelete (id_name id) name accountOutcome e;; mret (accountProblem e)
  | Ok _ => close_sessions name "";; auditAccount r ActionAccountDelete (id_name id) name OutcomeSuccess;; mret NoContent
  end.
(** [changePassword]. *)
Definition changePassword (id : Identity) (body : option (string * string)) (salt : option string) (r : Request) : auth answer :=
  let fail c := auditAccount r ActionAccountPasswd (id_name id) (id_name id) OutcomeFailure;; mret (Problem c) in
  match body with
  | None => mret (Problem CodeInternal)
  | Some (current, new) =>
      if String.eqb new "" || String.eqb new current then fail CodePasswordInvalid
      else
        v ← on_store (VerifyPassword (id_name id) current (rq_verify r) (rq_tmp r));
        match v with
        | VerifyPanics => mret Aborted
        | Refused => fail CodePasswordCurrent
        | Verified _ =>
            x ← on_store (SetPassword (id_name id) new salt (rq_tmp r));
            match x with
            | Err AuthPanic => mret Aborted
            | Err _ => fail CodeInternal
            | Ok _ =>
                close_sessions (id_name id) "";;
                auditAccount r ActionAccountPasswd (id_name id) (id_name id) OutcomeSuccess;; mret NoContent
            end
        end
  end.
(** [createToken] and [revokeToken]. *)
Definition createToken (id : Identity) (body : option (string * string)) (raw : option string) (r : Request) : auth answer :=
  match body with
  | None => mret (Problem CodeInternal)
  | Some (name, role) =>
      let name := trim_space name in
      match ParseRole role with
      | Some role =>
          if String.eqb name "" then mret (Problem CodeInternal)
          else
            x ← on_store (CreateToken name role (rq_after r) raw (rq_tmp r));
            match x with
            | Err e => auditAccount r ActionTokenCreate (id_name id) name OutcomeFailure;; mret (Problem CodeInternal)
            | Ok (secret, tok) =>
                auditAccount r ActionTokenCreate (id_name id) (tk_name tok) OutcomeSuccess;; mret (SecretBody (tk_name tok) (tk_role tok) secret)
            end
      | None => mret (Problem CodeInternal)
      end
  end.
Definition revokeToken (id : Identity) (name : string) (r : Request) : auth answer :=
  x ← on_store (RevokeToken name (rq_tmp r));
  match x with
  | Err ErrNotFound => mret (Problem CodeNotFound)
  | Err _ => mret (Problem CodeInternal)
  | Ok _ =>
      auditAccount r ActionTokenRevoke (id_name id) name OutcomeSuccess;;
      t ← asks (λ st, split_first (λ t, String.eqb (tk_name t) name && tk_revoked t) (Tokens (as_store st)));
      mret (match t with
            | Some (_, t, _) => TokenBody (tk_name t) (tk_role t) (tk_created t) (tk_revoked t)
            | None => TokenBody name "" 0 true
            end)
  end.

(** The screens: [adminAccountCreate], [adminAccountDelete], [adminAccountRole] and
    [accountPassword], over the values of their forms. *)
Definition adminAccountCreate (id : Identity) (name role password confirm : string) (salt : option string) (r : Request) : auth answer :=
  let name := trim_space name in
  match ParseRole role with
  | Some role =>
      if String.eqb name "" || String.eqb password "" || negb (String.eqb password confirm) then
        auditAccount r ActionAccountCreate (id_name id) name OutcomeFailure;; mret (Problem CodeAccountInvalid)
      else
        x ← on_store (AddAccount name role password (rq_after r) salt (rq_tmp r));
        match x with
        | Err AuthPanic => mret Aborted
        | Err e =>
            auditAccount r ActionAccountCreate (id_name id) name OutcomeFailure;;
            mret (Problem (match e with ErrExists => CodeAccountExists | _ => CodeInternal end))
        | Ok _ => auditAccount r ActionAccountCreate (id_name id) name OutcomeSuccess;; mret Page
        end
  | None => auditAccount r ActionAccountCreate (id_name id) name OutcomeFailure;; mret (Problem CodeAccountInvalid)
  end.
Definition adminAccountDelete (id : Identity) (name : string) (r : Request) : auth answer :=
  let name := trim_space name in
  x ← on_store (DeleteAccount name (rq_tmp r));
  match x with
  | Err e => audit_error r ActionAccountDelete (id_name id) name accountOutcome e;; mret (accountProblem e)
  | Ok _ =>
      on_sessions (λ s, ((), DeleteOthers name "" s));;
      auditAccount r ActionAccountDelete (id_name id) name OutcomeSuccess;; mret Page
  end.
Definition adminAccountRole (id : Identity) (name role : string) (r : Request) : auth answer :=
  let name := trim_space name in
  match ParseRole role with
  | None => auditAccount r ActionAccountRole (id_name id) name OutcomeFailure;; mret (Problem CodeAccountInvalid)
  | Some role =>
      x ← on_store (SetRole name role (rq_tmp r));
      match x with
      | Err e => audit_error r ActionAccountRole (id_name id) name accountOutcome e;; mret (accountProblem e)
      | Ok _ =>
          on_sessions (λ s, ((), DeleteOthers name "" s));;
          auditAccount r ActionAccountRole (id_name id) name OutcomeSuccess;; mret Page
      end
  end.
Definition accountPassword (id : Identity) (sess : option Session) (current new confirm : string) (salt : option string) (r : Request) : auth answer :=
  let fail c := auditAccount r ActionAccountPasswd (id_name id) (id_name id) OutcomeFailure;; mret (Problem c) in
  if String.eqb new "" || String.eqb new current || negb (String.eqb new confirm) then fail CodePasswordInvalid
  else
    v ← on_store (VerifyPassword (id_name id) current (rq_verify r) (rq_tmp r));
    match v with
    | VerifyPanics => mret Aborted
    | Refused => fail CodePasswordCurrent
    | Verified _ =>
        x ← on_store (SetPassword (id_name id) new salt (rq_tmp r));
        match x with
        | Err AuthPanic => mret Aborted
        | Err _ => fail CodeInternal
        | Ok _ =>
            match sess with Some s => on_sessions (λ t, ((), DeleteOthers (ss_account s) (ss_id s) t)) | None => mret () end;;
            auditAccount r ActionAccountPasswd (id_name id) (id_name id) OutcomeSuccess;; mret Page
        end
    end.
End accounts.
