(* ===== verification/AuthSafety.v ===== *)
(** Results on authentication: an administrator always remains, the cache of verified
    passwords answers what the hashes say, a revoked token stops at once, the surfaces let
    through who they should and record every refusal, and sessions follow their accounts. *)

From S2P Require Import Prelude GoStrings Taxonomy Disk RateLimit SigVerify SigKeys Password Auth.
Open Scope Z_scope.

(** * Secret files *)

(** A secret write replaces the file whole or leaves it, and touches no other file but the
    temporary one; without faults it succeeds. *)
Definition rewrites (name path data : string) (d : Disk) (r : bool * Disk) : Prop :=
  (d_files r.2 !! path = Some data ∨ r.1 = false ∧ d_files r.2 !! path = d_files d !! path) ∧
  (∀ p, p ≠ name → p ≠ path → d_files r.2 !! p = d_files d !! p).
Lemma probe_keeps d : d_files (probe d).2 = d_files d.
Proof. unfold probe, next_fault. by destruct (d_faults d) as [|[] ?]. Qed.
Lemma remove_files name path d : name ≠ path → d_files (remove name d).2 !! path = d_files d !! path.
Proof.
  intros Hne. unfold remove, next_fault. destruct (d_faults d) as [|[] ?]; cbn; try done; destruct (d_files d !! name); cbn; by rewrite ?lookup_delete_ne.
Qed.
Lemma write_files name path data d : name ≠ path → d_files (write_file name data d).2 !! path = d_files d !! path.
Proof. intros Hne. unfold write_file, next_fault. destruct (d_faults d) as [|[] ?]; cbn; by rewrite ?lookup_insert_ne. Qed.
Lemma write_ok name data d : (write_file name data d).1 = true → d_files (write_file name data d).2 !! name = Some data.
Proof. unfold write_file, next_fault. destruct (d_faults d) as [|[] ?]; cbn; by rewrite ?lookup_insert_eq. Qed.
Lemma rename_files name path p d : p ≠ name → p ≠ path → d_files (rename name path d).2 !! p = d_files d !! p.
Proof.
  intros Hn Hp. unfold rename, next_fault. destruct (d_faults d) as [|[] ?]; cbn; try done; destruct (d_files d !! name); cbn; try done;
    by rewrite lookup_insert_ne, lookup_delete_ne.
Qed.
Lemma rename_target name path data d : d_files d !! name = Some data →
  d_files (rename name path d).2 !! path = if (rename name path d).1 then Some data else d_files d !! path.
Proof.
  intros E. unfold rename, next_fault. destruct (d_faults d) as [|[] ?]; cbn; try done; rewrite E; cbn; by rewrite lookup_insert_eq.
Qed.
(** The clean-up of a failure, and the steps before the rename, keep the other files. *)
Lemma or_clean_other name r (k : Disk → bool * Disk) (P : bool * Disk → Prop) :
  (∀ d', (∀ p, p ≠ name → d_files d' !! p = d_files r.2 !! p) → P (false, d')) → (r.1 = true → P (k r.2)) → P (or_clean name r k).
Proof.
  intros Hf Hk. destruct r as [[] d]; cbn; [by apply Hk|]. apply Hf. intros p Hp. cbn. by apply remove_files.
Qed.
Lemma secret_write_spec name path data d : name ≠ path → rewrites name path data d (secret_write name path data d).
Proof.
  intros Hne. unfold secret_write. destruct (probe d) as [ok d1] eqn:E1. pose proof (probe_keeps d) as H1. rewrite E1 in H1. cbn in H1.
  assert (∀ d' : Disk, (∀ p, p ≠ name → d_files d' !! p = d_files d !! p) → rewrites name path data d (false, d')) as Hkeep.
  { intros d' H. split; [right; split; [done|by apply H]|]. intros p Hp _. by apply H. }
  destruct ok; [|apply Hkeep; intros; cbn; by rewrite H1].
  destruct (write_file name "" d1) as [ok d2] eqn:E2. assert (∀ p, p ≠ name → d_files d2 !! p = d_files d !! p) as H2.
  { intros p Hp. pose proof (write_files name p "" d1 (not_eq_sym Hp)) as H. rewrite E2 in H. cbn in H. by rewrite H, H1. }
  destruct ok; [|by apply Hkeep].
  apply or_clean_other; [intros d' H; apply Hkeep; intros p Hp; rewrite H by done; rewrite probe_keeps; by apply H2|intros _].
  set (d3 := (probe d2).2). assert (∀ p, p ≠ name → d_files d3 !! p = d_files d !! p) as H3 by (unfold d3; by rewrite probe_keeps). clearbody d3.
  apply or_clean_other; [intros d' H; apply Hkeep; intros p Hp; rewrite H by done; rewrite write_files by done; by apply H3|intros Hw].
  apply write_ok in Hw. set (d4 := (write_file name data d3).2) in *.
  assert (∀ p, p ≠ name → d_files d4 !! p = d_files d !! p) as H4 by (intros; unfold d4; rewrite write_files by done; by apply H3). clearbody d4.
  apply or_clean_other; [intros d' H; apply Hkeep; intros p Hp; rewrite H by done; rewrite probe_keeps; by apply H4|intros _].
  apply or_clean_other; [intros d' H; apply Hkeep; intros p Hp; rewrite H by done; rewrite !probe_keeps; by apply H4|intros _].
  set (d6 := (probe (probe d4).2).2). assert (d_files d6 = d_files d4) as E6 by (unfold d6; by rewrite !probe_keeps). clearbody d6.
  rewrite <-E6 in Hw, H4. pose proof (rename_target name path data d6 Hw) as Ht.
  apply or_clean_other.
  - intros d' H. destruct (rename name path d6) as [[] d7] eqn:E7; cbn in H, Ht.
    + split; [left; cbn; rewrite H; done|]. intros p Hp Hpp. cbn. rewrite H by done.
      pose proof (rename_files name path p d6 Hp Hpp) as Hr. rewrite E7 in Hr. cbn in Hr. rewrite Hr. by apply H4.
    + apply Hkeep. intros p Hp. rewrite H by done. destruct (decide (p = path)) as [->|Hpp]; [rewrite Ht; by apply H4|].
      pose proof (rename_files name path p d6 Hp Hpp) as Hr. rewrite E7 in Hr. cbn in Hr. rewrite Hr. by apply H4.
  - intros Hr. rewrite Hr in Ht. split; [left; by rewrite probe_keeps|]. intros p Hp Hpp. rewrite probe_keeps, rename_files by done. by apply H4.
Qed.
Lemma secret_write_healthy name path data d :
  healthy d → name ≠ path → (secret_write name path data d).1 = true ∧ healthy (secret_write name path data d).2.
Proof.
  intros Hd Hne. destruct d as [files faults]. unfold healthy in Hd. cbn in Hd. subst faults.
  unfold secret_write, or_clean, probe, write_file, rename, next_fault. cbn. by rewrite lookup_insert_eq.
Qed.

(** * First entries of a name *)

Lemma split_first_Some {A} (p : A → bool) l before x after :
  split_first p l = Some (before, x, after) → l = before ++ x :: after ∧ p x = true ∧ Forall (λ y, p y = false) before.
Proof.
  revert before. induction l as [|a l IH]; intros before; cbn; [done|]. destruct (p a) eqn:E; [intros [= <- <- <-]; by split_and!|].
  destruct (split_first p l) as [[[b y] c]|] eqn:Es; [|done]. intros [= <- <- <-]. destruct (IH b eq_refl) as (-> & ? & ?). split_and!; [done..|by constructor].
Qed.
Lemma split_first_None {A} (p : A → bool) l : split_first p l = None ↔ Forall (λ y, p y = false) l.
Proof.
  induction l as [|a l IH]; cbn; [by split|]. rewrite Forall_cons. destruct (p a) eqn:E; [split; [done|by intros [? _]]|].
  destruct (split_first p l) as [[[b y] c]|]; split; try done; [|naive_solver]. intros [_ H]. by apply IH in H.
Qed.
Lemma split_first_app {A} (p : A → bool) before x after :
  Forall (λ y, p y = false) before → p x = true → split_first p (before ++ x :: after) = Some (before, x, after).
Proof. induction 1 as [|y before Hy _ IH]; intros Hx; cbn; [by rewrite Hx|]. by rewrite Hy, IH. Qed.
Lemma split_first_skip {A} (p : A → bool) before x y after : p x = false → p y = false →
  (split_first p (before ++ x :: after) ≫= λ '(_, a, _), Some a) = (split_first p (before ++ y :: after) ≫= λ '(_, a, _), Some a).
Proof.
  intros Hx Hy. induction before as [|z before IH]; cbn; [by rewrite Hx, Hy; destruct (split_first p after) as [[[]]|]|].
  destruct (p z); [done|]. destruct (split_first p (before ++ x :: after)) as [[[]]|], (split_first p (before ++ y :: after)) as [[[]]|]; done.
Qed.
Lemma split_first_drop {A} (p : A → bool) before x after : p x = false →
  (split_first p (before ++ x :: after) ≫= λ '(_, a, _), Some a) = (split_first p (before ++ after) ≫= λ '(_, a, _), Some a).
Proof.
  intros Hx. induction before as [|z before IH]; cbn; [rewrite Hx; by destruct (split_first p after) as [[[]]|]|].
  destruct (p z); [done|]. destruct (split_first p (before ++ x :: after)) as [[[]]|], (split_first p (before ++ after)) as [[[]]|]; done.
Qed.

(** * The operations of the store as steps *)

Section store_ops.
Context `{GoRuntime, AuthLib, AccountsCodec}.

Inductive auth_op :=
  | OpAdd (name : string) (role : Role) (password : string) (now : Z) (salt : option string)
  | OpDelete (name : string)
  | OpRole (name : string) (role : Role)
  | OpPassword (name password : string) (salt : option string)
  | OpVerify (name password : string) (now : Z)
  | OpToken (name : string) (role : Role) (now : Z) (raw : option string)
  | OpRevoke (name : string).
Definition run_op (tmp : string) (o : auth_op) (s : AuthStore) (d : Disk) : AuthStore * Disk :=
  match o with
  | OpAdd name role password now salt => let '(_, s, d) := AddAccount name role password now salt tmp s d in (s, d)
  | OpDelete name => let '(_, s, d) := DeleteAccount name tmp s d in (s, d)
  | OpRole name role => let '(_, s, d) := SetRole name role tmp s d in (s, d)
  | OpPassword name password salt => let '(_, s, d) := SetPassword name password salt tmp s d in (s, d)
  | OpVerify name password now => let '(_, s, d) := VerifyPassword name password now tmp s d in (s, d)
  | OpToken name role now raw => let '(_, s, d) := CreateToken name role now raw tmp s d in (s, d)
  | OpRevoke name => let '(_, s, d) := RevokeToken name tmp s d in (s, d)
  end.

(** What an operation does: it leaves everything, or moves the table and saves it. *)
Inductive op_effect (tmp : string) (s : AuthStore) (d : Disk) : auth_op → AuthStore → Disk → Prop :=
  | EffNone o : op_effect tmp s d o s d
  | EffAdd name role password now salt hash :
      hashPassword salt password = Some (Ok hash) → existsb (named name) (sc_accounts (au_data s)) = false →
      let s' := set_accounts (sc_accounts (au_data s) ++ [mkAccount name role hash now None]) s in
      op_effect tmp s d (OpAdd name role password now salt) s' (save tmp s' d).2
  | EffDelete name before a after :
      split_first (named name) (sc_accounts (au_data s)) = Some (before, a, after) →
      String.eqb (ac_role a) RoleAdmin && (adminsLocked name (sc_accounts (au_data s)) =? 0)%nat = false →
      let s' := forgetVerifiedLocked name (set_accounts (before ++ after) s) in
      op_effect tmp s d (OpDelete name) s' (save tmp s' d).2
  | EffRole name role before a after :
      split_first (named name) (sc_accounts (au_data s)) = Some (before, a, after) →
      String.eqb (ac_role a) RoleAdmin && (adminsLocked name (sc_accounts (au_data s)) =? 0)%nat = false →
      let s' := set_accounts (before ++ set_role role a :: after) s in
      op_effect tmp s d (OpRole name role) s' (save tmp s' d).2
  | EffPassword name password salt hash before a after :
      hashPassword salt password = Some (Ok hash) → split_first (named name) (sc_accounts (au_data s)) = Some (before, a, after) →
      let s' := forgetVerifiedLocked name (set_accounts (before ++ set_hash hash a :: after) s) in
      op_effect tmp s d (OpPassword name password salt) s' (save tmp s' d).2
  | EffVerify name password now before a after :
      split_first (named name) (sc_accounts (au_data s)) = Some (before, a, after) → verifyPassword password (ac_hash a) = Some true →
      let s' := set_accounts (before ++ set_login now a :: after) s in
      op_effect tmp s d (OpVerify name password now) (rememberLocked (credSum name password) name now s') (save tmp s' d).2
  | EffToken name role now raw :
      existsb (live_named name) (sc_tokens (au_data s)) = false →
      let s' := set_tokens (sc_tokens (au_data s) ++ [mkToken name role (hex_encode (sha256 (tokenPrefix +:+ raw_url_encode raw))) now false]) s in
      op_effect tmp s d (OpToken name role now (Some raw)) s' (save tmp s' d).2
  | EffRevoke name before t after :
      split_first (live_named name) (sc_tokens (au_data s)) = Some (before, t, after) →
      let s' := set_tokens (before ++ revoke t :: after) s in
      op_effect tmp s d (OpRevoke name) s' (save tmp s' d).2.
Lemma saved_eq tmp s d : saved tmp s d = (if (save tmp s d).1 then Ok () else Err SaveFailed, s, (save tmp s d).2).
Proof. unfold saved. by destruct (save tmp s d). Qed.
Lemma run_op_effect tmp o s d : op_effect tmp s d o (run_op tmp o s d).1 (run_op tmp o s d).2.
Proof.
  destruct o as [name role password now salt|name|name role|name password salt|name password now|name role now raw|name]; cbn.
  - unfold AddAccount. destruct (String.eqb name ""); [constructor|]. destruct (hashPassword salt password) as [[hash|]|] eqn:Eh; [|constructor..].
    destruct (existsb _ _) eqn:Ee; [constructor|]. rewrite saved_eq. by apply EffAdd.
  - unfold DeleteAccount. destruct (split_first _ _) as [[[before a] after]|] eqn:Es; [|constructor].
    destruct (_ && _) eqn:Ea; [constructor|]. rewrite saved_eq. by eapply EffDelete.
  - unfold SetRole. destruct (split_first _ _) as [[[before a] after]|] eqn:Es; [|constructor]. destruct (String.eqb (ac_role a) role); [constructor|].
    destruct (_ && _) eqn:Ea; [constructor|]. rewrite saved_eq. by eapply EffRole.
  - unfold SetPassword. destruct (hashPassword salt password) as [[hash|]|] eqn:Eh; [|constructor..].
    destruct (split_first _ _) as [[[before a] after]|] eqn:Es; [|constructor]. rewrite saved_eq. by eapply EffPassword.
  - unfold VerifyPassword. destruct (cachedLocked _ _ _ _); [constructor|]. destruct (split_first _ _) as [[[before a] after]|] eqn:Es; [|constructor].
    destruct (verifyPassword password (ac_hash a)) as [[]|] eqn:Ev; [|constructor..]. pose proof (EffVerify tmp s d name password now before a after Es Ev) as He.
    cbv zeta in He. by destruct (save tmp _ d).
  - unfold CreateToken. destruct (String.eqb name ""); [constructor|]. destruct raw as [raw|]; [|constructor]. destruct (existsb _ _) eqn:Ee; [constructor|].
    rewrite saved_eq. by apply EffToken.
  - unfold RevokeToken. destruct (split_first _ _) as [[[before t] after]|] eqn:Es; [|constructor]. rewrite saved_eq. by apply EffRevoke.
Qed.
Definition run_ops (ops : list (string * auth_op)) (s : AuthStore) (d : Disk) : AuthStore * Disk :=
  fold_left (λ st o, run_op o.1 o.2 st.1 st.2) ops (s, d).

(** * An administrator remains *)

Definition has_admin (l : list Account) : Prop := Exists (λ a, ac_role a = RoleAdmin) l.
(** The file holds a readable table with an administrator. *)
Definition file_admin (path : string) (d : Disk) : Prop :=
  ∃ raw data, d_files d !! path = Some raw ∧ yaml_decode raw = Some data ∧ sc_version data = 1 ∧ has_admin (sc_accounts data).
Record admin_inv (path : string) (s : AuthStore) (d : Disk) : Prop := {
  ai_path : au_path s = path;
  ai_version : sc_version (au_data s) = 1;
  ai_admin : has_admin (sc_accounts (au_data s));
  ai_file : file_admin path d }.
Lemma admin_elsewhere name l before a after :
  split_first (named name) l = Some (before, a, after) → has_admin l →
  String.eqb (ac_role a) RoleAdmin && (adminsLocked name l =? 0)%nat = false → has_admin (before ++ after).
Proof.
  intros Hs Hl Ha. apply split_first_Some in Hs as (-> & Hn & _). unfold has_admin in *. rewrite Exists_app in *.
  destruct Hl as [?|Hl]; [by left|]. apply Exists_cons in Hl as [Hrole|?]; [|by right].
  rewrite Hrole, String.eqb_refl in Ha. cbn [andb] in Ha. apply Nat.eqb_neq in Ha. unfold adminsLocked in Ha.
  destruct (filter _ _) as [|x ?] eqn:Ef in Ha; [done|]. assert (x ∈ before ++ a :: after ∧ String.eqb (ac_role x) RoleAdmin && negb (String.eqb (ac_name x) name) = true) as [Hx Hp].
  { assert (x ∈ filter (λ a, String.eqb (ac_role a) RoleAdmin && negb (String.eqb (ac_name a) name) = true) (before ++ a :: after)) as Hx by (rewrite Ef; by left).
    by apply list_elem_of_filter in Hx as [? ?]. }
  apply andb_true_iff in Hp as [Hr%String.eqb_eq Hne%negb_true_iff]. apply elem_of_app in Hx as [Hx|Hx].
  - left. apply Exists_exists. by exists x.
  - apply elem_of_cons in Hx as [->|Hx]; [unfold named in Hn; congruence|]. right. apply Exists_exists. by exists x.
Qed.
Lemma saved_file tmp path s d :
  au_path s = path → tmp ≠ path → sc_version (au_data s) = 1 → has_admin (sc_accounts (au_data s)) → file_admin path d → file_admin path (save tmp s d).2.
Proof.
  intros <- Hne Hv Ha Hf. unfold save. destruct (secret_write_spec tmp (au_path s) (yaml_encode (au_data s)) d Hne) as [[E|[_ E]] _].
  - exists (yaml_encode (au_data s)), (au_data s). by rewrite yaml_roundtrip.
  - unfold file_admin. by rewrite E.
Qed.
Lemma op_admin path tmp o s d s' d' : tmp ≠ path → op_effect tmp s d o s' d' → admin_inv path s d → admin_inv path s' d'.
Proof.
  intros Hne Heff [Hp Hv Ha Hf].
  assert (∀ s1 : AuthStore, au_path s1 = path → sc_version (au_data s1) = 1 → has_admin (sc_accounts (au_data s1)) →
    ∀ s2, au_path s2 = path → au_data s2 = au_data s1 → admin_inv path s2 (save tmp s1 d).2) as Hsave.
  { intros s1 Q1 Q2 Q3 s2 Q4 Q5. split; [done|by rewrite Q5|by rewrite Q5|by apply saved_file]. }
  assert (∀ before a after (b : Account), has_admin (before ++ a :: after) → (ac_role b = ac_role a) → has_admin (before ++ b :: after)) as Hrep.
  { intros before a after b Hb Hr. unfold has_admin in *. rewrite Exists_app, Exists_cons in *. by rewrite Hr. }
  destruct Heff as [o|? ? ? ? ? ? Hh He|? ? ? ? Hs Hlast|? ? ? ? ? Hs Hlast|? ? ? ? ? ? ? Hh Hs|? ? ? ? ? ? Hs Hv'|? ? ? ? He|? ? ? ? Hs]; [done|..];
    apply Hsave; try done; cbn.
  - unfold has_admin. rewrite Exists_app. by left.
  - eapply admin_elsewhere; done.
  - pose proof (admin_elsewhere _ _ _ _ _ Hs Ha Hlast) as Hb. unfold has_admin in *. rewrite Exists_app, Exists_cons in *. naive_solver.
  - apply split_first_Some in Hs as (Hl & _). rewrite Hl in Ha. by eapply Hrep.
  - apply split_first_Some in Hs as (Hl & _). rewrite Hl in Ha. by eapply Hrep.
Qed.
Lemma run_ops_admin path ops s d :
  Forall (λ o, o.1 ≠ path) ops → admin_inv path s d → admin_inv path (run_ops ops s d).1 (run_ops ops s d).2.
Proof.
  unfold run_ops. revert s d. induction ops as [|[tmp o] ops IH]; intros s d Hops Hinv; [done|]. apply Forall_cons in Hops as [Hne Hops]. cbn [fold_left fst snd].
  pose proof (op_admin path tmp o s d _ _ Hne (run_op_effect tmp o s d) Hinv) as Hi. destruct (run_op tmp o s d) as [s1 d1]. by apply IH.
Qed.
(** C14: an instance never loses its last administrator. From a table and a file with an
    administrator, after any operations and whatever fails on the disk, the table has an
    administrator, and so has what a restart loads. *)
Theorem an_admin_remains root ops s d :
  let path := root +:+ "/" +:+ accountsFile in
  Forall (λ o, o.1 ≠ path) ops → admin_inv path s d →
  has_admin (sc_accounts (au_data (run_ops ops s d).1)) ∧
  ∀ s' d', OpenAuth root (run_ops ops s d).2 = (Ok s', d') → has_admin (sc_accounts (au_data s')).
Proof.
  intros path Hops Hinv. pose proof (run_ops_admin path ops s d Hops Hinv) as [_ _ Ha Hf]. split; [done|]. intros s' d' Ho.
  unfold OpenAuth in Ho. destruct (String.eqb root ""); [done|]. destruct (secret_mkdir _) as [ok d1] eqn:Em.
  assert (d_files d1 = d_files (run_ops ops s d).2) as Hd1.
  { unfold secret_mkdir in Em. pose proof (probe_keeps (run_ops ops s d).2) as Hp. destruct (probe (run_ops ops s d).2) as [[] d2]; [|by injection Em as _ <-].
    cbn in Hp. pose proof (probe_keeps d2) as Hp2. rewrite Em in Hp2. cbn in Hp2. by rewrite Hp2. }
  destruct ok; [|done]. destruct Hf as (raw & data & Hraw & Hdec & Hver & Hadm). rewrite <-Hd1 in Hraw.
  unfold read_file, next_fault in Ho. fold path in Ho. destruct (d_faults d1) as [|[] ?]; cbn in Ho; try done; rewrite Hraw in Ho; rewrite Hdec, Hver in Ho; by injection Ho as <- _.
Qed.

(** * The cache of verified passwords *)

Lemma AccountOf_first name s before a after :
  split_first (named name) (sc_accounts (au_data s)) = Some (before, a, after) → AccountOf name s = Some a.
Proof. unfold AccountOf. by intros ->. Qed.
Lemma AccountOf_named name s a : AccountOf name s = Some a → ac_name a = name.
Proof.
  unfold AccountOf. destruct (split_first _ _) as [[[b x] c]|] eqn:E; [|done]. cbn. intros [= <-]. apply split_first_Some in E as (_ & Hn & _). by apply String.eqb_eq.
Qed.
(** Replacing the first entry of a name changes the answer for that name alone. *)
Lemma AccountOf_replace name s before a b after other :
  split_first (named name) (sc_accounts (au_data s)) = Some (before, a, after) → ac_name b = ac_name a →
  AccountOf other (set_accounts (before ++ b :: after) s) = if String.eqb name other then Some b else AccountOf other s.
Proof.
  intros Hs Hb. apply split_first_Some in Hs as (Hl & Hn & Hbefore). unfold AccountOf. cbn [au_data set_accounts set_data sc_accounts]. rewrite Hl.
  apply String.eqb_eq in Hn. destruct (String.eqb_spec name other) as [<-|Hne].
  - rewrite split_first_app; [done|done|]. unfold named. rewrite Hb. by apply String.eqb_eq.
  - apply split_first_skip; unfold named; apply String.eqb_neq; congruence.
Qed.
Lemma AccountOf_drop name s before a after other :
  split_first (named name) (sc_accounts (au_data s)) = Some (before, a, after) → other ≠ name →
  AccountOf other (set_accounts (before ++ after) s) = AccountOf other s.
Proof.
  intros Hs Hne. apply split_first_Some in Hs as (Hl & Hn & _). unfold AccountOf. cbn [au_data set_accounts set_data sc_accounts]. rewrite Hl.
  symmetry. apply split_first_drop. apply String.eqb_eq in Hn. unfold named. apply String.eqb_neq. congruence.
Qed.
Lemma AccountOf_append s x name a : AccountOf name s = Some a → AccountOf name (set_accounts (sc_accounts (au_data s) ++ [x]) s) = Some a.
Proof.
  unfold AccountOf. cbn [au_data set_accounts set_data sc_accounts]. destruct (split_first _ _) as [[[b y] c]|] eqn:E; [|done]. cbn. intros [= ->].
  apply split_first_Some in E as (-> & Hy & Hb). rewrite <-app_assoc. cbn [app]. by rewrite split_first_app.
Qed.

(** An entry stands for a password the current hash of its account verifies. *)
Definition entry_ok (s : AuthStore) (e : verifiedCred) : Prop :=
  ∃ p a, vc_sum e = credSum (vc_name e) p ∧ AccountOf (vc_name e) s = Some a ∧ verifyPassword p (ac_hash a) = Some true.
Definition cache_ok (s : AuthStore) : Prop := Forall (entry_ok s) (au_verified s).
Lemma cache_ok_move (s s' : AuthStore) :
  (∀ e, e ∈ au_verified s' → e ∈ au_verified s) →
  (∀ e a, e ∈ au_verified s' → AccountOf (vc_name e) s = Some a → ∃ a', AccountOf (vc_name e) s' = Some a' ∧ ac_hash a' = ac_hash a) →
  cache_ok s → cache_ok s'.
Proof.
  intros Hsub Hacc Hs. unfold cache_ok in *. rewrite Forall_forall in *. intros e He. destruct (Hs e (Hsub e He)) as (p & a & E & Ha & Hv).
  destruct (Hacc e a He Ha) as (a' & Ha' & Hh). exists p, a'. by rewrite Hh.
Qed.
Lemma op_cache tmp o s d s' d' : op_effect tmp s d o s' d' → cache_ok s → cache_ok s'.
Proof.
  assert (∀ name before a b after s, split_first (named name) (sc_accounts (au_data s)) = Some (before, a, after) → ac_name b = ac_name a → ac_hash b = ac_hash a →
    cache_ok s → cache_ok (set_accounts (before ++ b :: after) s)) as Hrep.
  { intros name before a b after s1 Hs Hn Hh. apply cache_ok_move; [done|]. intros e x _ Hx. rewrite (AccountOf_replace _ _ _ _ _ _ _ Hs Hn).
    destruct (String.eqb_spec name (vc_name e)) as [->|]; [|by exists x]. rewrite (AccountOf_first _ _ _ _ _ Hs) in Hx. injection Hx as <-. by exists b. }
  destruct 1 as [o|? ? ? ? ? ? Hh He|name before a after Hs Hlast|? ? ? ? ? Hs Hlast|name ? ? hash before a after Hh Hs|name password now before a after Hs Hv|? ? ? ? He|? ? ? ? Hs]; [done|..]; intros Hok.
  - revert Hok. apply cache_ok_move; [done|]. intros e a _ Ha. exists a. split; [by apply AccountOf_append|done].
  - revert Hok. apply cache_ok_move; [by intros e [_ ?]%list_elem_of_filter|]. intros e x [Hne _]%list_elem_of_filter Hx. exists x. split; [|done].
    rewrite <-Hx. by apply (AccountOf_drop name s before a after).
  - by apply (Hrep _ _ _ _ _ _ Hs).
  - revert Hok. apply cache_ok_move; [by intros e [_ ?]%list_elem_of_filter|]. intros e x [Hne _]%list_elem_of_filter Hx. exists x. split; [|done].
    transitivity (AccountOf (vc_name e) (set_accounts (before ++ set_hash hash a :: after) s)); [done|]. rewrite (AccountOf_replace _ _ _ _ _ _ _ Hs) by done.
    by rewrite (proj2 (String.eqb_neq _ _)).
  - apply (Hrep _ _ _ (set_login now a) _ _ Hs) in Hok; [|done..]. set (s1 := set_accounts (before ++ set_login now a :: after) s) in *.
    unfold rememberLocked, cache_ok. cbn [au_verified set_verified]. rewrite Forall_app. split.
    + destruct (decide _); [constructor|]. apply Forall_forall. intros e [_ He]%list_elem_of_filter. unfold cache_ok in Hok. rewrite Forall_forall in Hok. by apply Hok.
    + constructor; [|done]. exists password, (set_login now a). cbn. split; [done|]. split; [|done].
      transitivity (AccountOf name s1); [done|]. unfold s1. rewrite (AccountOf_replace _ _ _ _ _ _ _ Hs) by done. by rewrite String.eqb_refl.
  - revert Hok. apply cache_ok_move; [done|]. intros e a _ Ha. by exists a.
  - revert Hok. apply cache_ok_move; [done|]. intros e a _ Ha. by exists a.
Qed.
Lemma run_ops_cache ops s d : cache_ok s → cache_ok (run_ops ops s d).1.
Proof.
  unfold run_ops. revert s d. induction ops as [|[tmp o] ops IH]; intros s d Hok; [done|]. cbn [fold_left fst snd].
  pose proof (op_cache tmp o s d _ _ (run_op_effect tmp o s d) Hok). destruct (run_op tmp o s d) as [s1 d1]. by apply IH.
Qed.
Lemma verify_cases name password now tmp s d :
  cache_ok s →
  match (VerifyPassword name password now tmp s d).1.1 with
  | Verified acct => ∃ cur p, AccountOf name s = Some cur ∧ ac_name acct = name ∧ ac_role acct = ac_role cur ∧
      credSum name p = credSum name password ∧ verifyPassword p (ac_hash cur) = Some true
  | Refused => AccountOf name s = None ∨ ∃ cur, AccountOf name s = Some cur ∧ verifyPassword password (ac_hash cur) = Some false
  | VerifyPanics => ∃ cur, AccountOf name s = Some cur ∧ verifyPassword password (ac_hash cur) = None
  end.
Proof.
  intros Hok. unfold VerifyPassword. destruct (cachedLocked (credSum name password) name now s) as [acct|] eqn:Ec.
  - cbn. unfold cachedLocked in Ec. destruct (existsb _ _) eqn:Ee; [|done]. apply existsb_exists in Ee as (e & He & Hc).
    unfold cached_entry in Hc. apply andb_true_iff in Hc as [[_ Hs%String.eqb_eq]%andb_true_iff Hn%String.eqb_eq].
    unfold cache_ok in Hok. rewrite Forall_forall in Hok. apply list_elem_of_In, Hok in He as (p & a & Hsum & Ha & Hv). rewrite Hn in *. rewrite Ec in Ha. injection Ha as <-.
    exists acct, p. split_and!; try done; [by apply (AccountOf_named name s)|congruence].
  - destruct (split_first (named name) (sc_accounts (au_data s))) as [[[before a] after]|] eqn:Es.
    + pose proof (AccountOf_first _ _ _ _ _ Es) as Ha. destruct (verifyPassword password (ac_hash a)) as [[]|] eqn:Ev.
      * destruct (save _ _ _). cbn. exists a, password. split_and!; try done. by apply (AccountOf_named name s).
      * right. by exists a.
      * by exists a.
    + left. unfold AccountOf. by rewrite Es.
Qed.
(** C15: the cache changes no answer. After any operations on a store opened with an empty
    cache, [VerifyPassword] accepts a password only when the account exists and its
    present hash verifies it, or one of the same fingerprint; it answers with the present
    role; and it refuses only what the present hash refuses. *)
Theorem cached_verification_is_current ops s0 d0 name password now tmp :
  au_verified s0 = [] →
  let '(s, d) := run_ops ops s0 d0 in
  match (VerifyPassword name password now tmp s d).1.1 with
  | Verified acct => ∃ cur p, AccountOf name s = Some cur ∧ ac_name acct = name ∧ ac_role acct = ac_role cur ∧
      credSum name p = credSum name password ∧ verifyPassword p (ac_hash cur) = Some true
  | Refused => AccountOf name s = None ∨ ∃ cur, AccountOf name s = Some cur ∧ verifyPassword password (ac_hash cur) = Some false
  | VerifyPanics => ∃ cur, AccountOf name s = Some cur ∧ verifyPassword password (ac_hash cur) = None
  end.
Proof.
  intros Hs0. assert (cache_ok s0) as Hok by (unfold cache_ok; by rewrite Hs0). pose proof (run_ops_cache ops s0 d0 Hok) as Hc.
  destruct (run_ops ops s0 d0) as [s d]. by apply verify_cases.
Qed.

(** * Tokens *)

(** At most one live token per name. *)
Definition live_tokens (s : AuthStore) : list Token := filter (λ t, tk_revoked t = false) (sc_tokens (au_data s)).
Definition tokens_ok (s : AuthStore) : Prop := NoDup (tk_name <$> live_tokens s).
Lemma not_live name l : existsb (live_named name) l = false → name ∉ tk_name <$> filter (λ t, tk_revoked t = false) l.
Proof.
  intros E Hin. apply list_elem_of_fmap in Hin as (t & -> & [Hr Ht]%list_elem_of_filter). assert (existsb (live_named (tk_name t)) l = true) as E'; [|congruence].
  apply existsb_exists. exists t. split; [by apply list_elem_of_In|]. unfold live_named. by rewrite String.eqb_refl, Hr.
Qed.
Lemma op_tokens tmp o s d s' d' : op_effect tmp s d o s' d' → tokens_ok s → tokens_ok s'.
Proof.
  destruct 1 as [o| | | | | |name role now raw He|name before t after Hs]; try done; repeat match goal with x := _ |- _ => subst x end; unfold tokens_ok, live_tokens; cbn [sc_tokens au_data set_tokens set_data].
  - intros Hok. rewrite filter_app, fmap_app. apply NoDup_app. split; [done|]. split; [|rewrite filter_cons_True by done; cbn; apply NoDup_singleton].
    intros x Hx. rewrite filter_cons_True by done. cbn. intros ->%list_elem_of_singleton. by apply (not_live name) in He.
  - apply split_first_Some in Hs as (-> & Ht & _). unfold live_named in Ht. apply andb_true_iff in Ht as [_ Hr%negb_true_iff].
    rewrite !filter_app, filter_cons_True by done. rewrite filter_cons_False by done. rewrite !fmap_app. intros Hok. rewrite fmap_cons in Hok.
    apply NoDup_app in Hok as (? & Hd & Hok). apply NoDup_app. apply NoDup_cons in Hok as [? ?]. split; [done|]. split; [|done].
    intros x Hx Hx'. apply (Hd x Hx). by right.
Qed.
Lemma run_ops_tokens ops s d : tokens_ok s → tokens_ok (run_ops ops s d).1.
Proof.
  unfold run_ops. revert s d. induction ops as [|[tmp o] ops IH]; intros s d Hok; [done|]. cbn [fold_left fst snd].
  pose proof (op_tokens tmp o s d _ _ (run_op_effect tmp o s d) Hok). destruct (run_op tmp o s d) as [s1 d1]. by apply IH.
Qed.
Lemma VerifyToken_live secret s t : VerifyToken secret s = Some t → t ∈ live_tokens s ∧ tk_hash t = hex_encode (sha256 secret).
Proof.
  unfold VerifyToken. destruct (split_first _ _) as [[[b x] c]|] eqn:E; [|done]. cbn. intros [= <-]. apply split_first_Some in E as (Hl & Hp & _).
  apply andb_true_iff in Hp as [Hr%negb_true_iff Hh%String.eqb_eq]. split; [|done]. unfold live_tokens. apply list_elem_of_filter. split; [done|]. rewrite Hl. set_solver.
Qed.
(** Revocation is immediate. Whatever happened before on a store with one live token per
    name, and whether or not the table could be saved, after [RevokeToken] no secret
    authenticates as a token of that name; other tokens answer as before. *)
Theorem revocation_is_immediate ops s0 d0 name tmp :
  tokens_ok s0 →
  let '(s, d) := run_ops ops s0 d0 in
  let '(_, s', _) := RevokeToken name tmp s d in
  (∀ secret t, VerifyToken secret s' = Some t → tk_name t ≠ name) ∧
  (∀ t, tk_name t ≠ name → (t ∈ live_tokens s' ↔ t ∈ live_tokens s)).
Proof.
  intros Hs0. pose proof (run_ops_tokens ops s0 d0 Hs0) as Hok. destruct (run_ops ops s0 d0) as [s d]. cbn in Hok. unfold RevokeToken.
  destruct (split_first (live_named name) (sc_tokens (au_data s))) as [[[before t0] after]|] eqn:Es.
  - rewrite saved_eq. apply split_first_Some in Es as (Hl & Ht & _). unfold live_named in Ht. apply andb_true_iff in Ht as [Hn%String.eqb_eq Hr%negb_true_iff].
    assert (∀ t, t ∈ live_tokens (set_tokens (before ++ revoke t0 :: after) s) ↔ t ∈ filter (λ t, tk_revoked t = false) before ∨ t ∈ filter (λ t, tk_revoked t = false) after) as Hin.
    { intros t. unfold live_tokens. cbn [sc_tokens au_data set_tokens set_data]. rewrite filter_app, filter_cons_False by done. apply elem_of_app. }
    unfold tokens_ok, live_tokens in Hok. rewrite Hl, filter_app, filter_cons_True in Hok by done. rewrite fmap_app, fmap_cons in Hok.
    apply NoDup_app in Hok as (_ & Hd & [Ha _]%NoDup_cons). split.
    + intros secret t [Ht _]%VerifyToken_live E. apply Hin in Ht as [Ht|Ht].
      * apply (Hd (tk_name t)); [by apply list_elem_of_fmap_2|]. rewrite E, <-Hn. apply elem_of_cons. by left.
      * apply Ha. rewrite Hn, <-E. by apply list_elem_of_fmap_2.
    + intros t Hne. rewrite Hin. unfold live_tokens. rewrite Hl, filter_app, filter_cons_True by done. rewrite elem_of_app, elem_of_cons.
      split; [intros [?|?]; [by left|right; by right]|]. intros [?|[->|?]]; [by left|congruence|by right].
  - split; [|done]. intros secret t [Ht _]%VerifyToken_live E. apply split_first_None in Es. rewrite Forall_forall in Es.
    apply list_elem_of_filter in Ht as [Hr Ht]. specialize (Es t Ht). unfold live_named in Es. by rewrite E, String.eqb_refl, Hr in Es.
Qed.
(** A token authenticates with the secret that was returned once, as itself unless another
    live token has the same digest. *)
Lemma created_token_verifies name role now raw tmp s d secret tok s' d' :
  CreateToken name role now raw tmp s d = (Ok (secret, tok), s', d') →
  ∃ t, VerifyToken secret s' = Some t ∧ tk_hash t = tk_hash tok ∧ (t = tok ∨ t ∈ live_tokens s).
Proof.
  unfold CreateToken. destruct (String.eqb name ""); [done|]. destruct raw as [raw|]; [|done]. destruct (existsb _ _); [done|].
  rewrite saved_eq. destruct (save _ _ _) as [[] ?]; [|done]. cbn. intros [= <- <- <- _]. set (tok := mkToken _ _ _ _ _).
  unfold VerifyToken. cbn [sc_tokens au_data set_tokens set_data]. destruct (split_first _ _) as [[[b x] c]|] eqn:E.
  - exists x. apply split_first_Some in E as (Hl & Hp & _). apply andb_true_iff in Hp as [Hr%negb_true_iff Hh%String.eqb_eq]. split; [done|]. split; [done|].
    assert (x ∈ sc_tokens (au_data s) ++ [tok]) as Hx by (rewrite Hl; set_solver). apply elem_of_app in Hx as [Hx| ->%list_elem_of_singleton]; [right|by left].
    unfold live_tokens. by apply list_elem_of_filter.
  - apply split_first_None in E. rewrite Forall_app in E. destruct E as [_ [E _]%Forall_cons]. cbn in E. by rewrite String.eqb_refl in E.
Qed.
End store_ops.

(** * The machine surfaces *)

Section surfaces.
Context `{GoRuntime, AuthLib, AccountsCodec} (a : Authenticator).

(** Who a request's credential makes of the caller: a live token whose digest its secret
    has, under the token's name and role; or an account under its present role, for a
    password its present hash verifies (or one of the same fingerprint). *)
Definition presented_secret (r : Request) (secret : string) : Prop :=
  cut_prefix "Bearer " (rq_authorization r) = Some secret ∨ ∃ name, BasicAuth r = Some (name, secret) ∧ has_prefix secret tokenPrefix = true.
Definition vouched (r : Request) (s : AuthStore) (id : Identity) : Prop :=
  (∃ secret t, presented_secret r secret ∧ t ∈ live_tokens s ∧ tk_hash t = hex_encode (sha256 secret) ∧ id = token_identity t) ∨
  (∃ name pass p cur, BasicAuth r = Some (name, pass) ∧ AccountOf name s = Some cur ∧ credSum name p = credSum name pass ∧
    verifyPassword p (ac_hash cur) = Some true ∧ id = mkIdentity name (ac_role cur) false false).
Lemma auth_bind_eq {A B} (m : auth A) (f : A → auth B) st b st' : (m ≫= f) st = (b, st') ↔ ∃ x st1, m st = (x, st1) ∧ f x st1 = (b, st').
Proof. unfold mbind, auth_bind. destruct (m st) as [x st1]. naive_solver. Qed.
Lemma Authenticate_vouched r st id st' :
  an_disabled a = false → cache_ok (as_store st) → Authenticate a r st = (Authentic id, st') → vouched r (as_store st) id.
Proof.
  intros Hd Hc E. unfold Authenticate in E. rewrite Hd in E. destruct (cut_prefix "Bearer " _) as [secret|] eqn:Eb.
  - apply auth_bind_eq in E as (t & ? & [= <- <-] & E). destruct (VerifyToken secret (as_store st)) as [t|] eqn:Et; [|done]. injection E as <- _.
    apply VerifyToken_live in Et as [? ?]. left. exists secret, t. split_and!; [by left|done..].
  - destruct (has_prefix _ "Basic "); [|done]. destruct (BasicAuth r) as [[name pass]|] eqn:Er; [|done]. destruct (has_prefix pass tokenPrefix) eqn:Hp.
    + apply auth_bind_eq in E as (t & ? & [= <- <-] & E). destruct (VerifyToken pass (as_store st)) as [t|] eqn:Et; [|done]. injection E as <- _.
      apply VerifyToken_live in Et as [? ?]. left. exists pass, t. split_and!; [right; by exists name|done..].
    + apply auth_bind_eq in E as (v & ? & E1 & E). unfold on_store in E1.
      pose proof (verify_cases name pass (rq_verify r) (rq_tmp r) (as_store st) (as_disk st) Hc) as Hv.
      destruct (VerifyPassword _ _ _ _ _ _) as [[v' s'] d']. injection E1 as <- <-. destruct v' as [acct| |]; [|done..]. injection E as <- _. cbn in Hv.
      destruct Hv as (cur & p & Ha & Hn & Hr & Hs & Hp'). right. exists name, pass, p, cur. by rewrite Hn, Hr.
Qed.
Lemma audited_ok r surface st id st' :
  cache_ok (as_store st) → authenticateAudited a r surface st = (verdictOK id, st') →
  an_disabled a = true ∧ id = AnonymousIdentity ∨ an_disabled a = false ∧ vouched r (as_store st) id.
Proof.
  intros Hc E. unfold authenticateAudited in E. destruct (an_disabled a) eqn:Hd; [injection E as <- _; by left|]. right. split; [done|].
  destruct (credentialPresented r); [|done]. apply auth_bind_eq in E as (ok & st1 & E1 & E). unfold FailureAllowed, on_failures in E1.
  destruct (limiter_allowed _ _ _) as [ok' l]. injection E1 as <- <-. destruct ok'; [|done]. apply auth_bind_eq in E as (x & st2 & E2 & E).
  destruct x as [id'| |]; [| |done].
  - apply auth_bind_eq in E as (new & st3 & _ & E). apply auth_bind_eq in E as (? & ? & _ & E). injection E as <- _.
    apply Authenticate_vouched in E2; [done|done|done].
  - apply auth_bind_eq in E as (? & ? & _ & E). apply auth_bind_eq in E as (? & ? & _ & E). done.
Qed.
Lemma OpenAuth_cache root d s d' : OpenAuth root d = (Ok s, d') → au_verified s = [].
Proof.
  unfold OpenAuth. destruct (String.eqb root ""); [done|]. destruct (secret_mkdir d) as [[] d1]; [|done].
  intros E. repeat case_match; simplify_eq; done.
Qed.
(** C13: the registry serves only who it should. On an account store that was opened from
    its file and then went through any operations - additions, deletions, changes of role
    and password, verifications that fill the cache, tokens created and revoked, on a disk
    that may fail - a request reaches the embedded registry only under the declared
    override that disables authentication, or with a credential that answers to the present
    table: a live token whose digest its secret has, or an account whose present hash
    verifies the password, or another password of the same fingerprint (the SHA-256 by
    which the cache of verifications knows a name and a password). The identity carries the
    present role, and that role is at least viewer to read and operator to write. *)
Theorem registry_admits root d s0 d0 ops r st id sess st'
    (Hopen : OpenAuth root d = (Ok s0, d0)) (Hst : as_store st = (run_ops ops s0 d0).1)
    (Hnext : Registry a r st = (Next id sess, st')) :
  AtLeast (id_role id) (registry_floor r) = true ∧
  (an_disabled a = true ∧ id = AnonymousIdentity ∨ an_disabled a = false ∧ vouched r (as_store st) id).
Proof.
  assert (cache_ok (as_store st)) as Hc.
  { rewrite Hst. apply run_ops_cache. unfold cache_ok. by rewrite (OpenAuth_cache _ _ _ _ Hopen). }
  unfold Registry in Hnext. apply auth_bind_eq in Hnext as (v & st1 & E1 & E). destruct v as [id'| | | |]; try done.
  destruct (AtLeast (id_role id') (registry_floor r)) eqn:Ha; [|by apply auth_bind_eq in E as (? & ? & _ & E)].
  injection E as <- _ _. split; [done|]. by eapply audited_ok.
Qed.
(** An exhausted origin costs nothing. When the gate refuses an origin, nothing is
    verified: the accounts, their file, the sessions and the audit trail are untouched, and
    the surfaces answer that there were too many attempts. *)
Theorem throttled_verifies_nothing r st :
  an_disabled a = false → credentialPresented r = true → (limiter_allowed (ClientOrigin r) (rq_gate r) (as_failures st)).1 = false →
  ∃ l, let st' := mkAuthState (as_store st) (as_disk st) (as_sessions st) l (as_seen st) (as_trail st) in
    Registry a r st = (Plain 429, st') ∧ API a r st = (Problem CodeAuthRateLimited, st') ∧
    ∀ anonymous fileset, fileset ∉ anonymous → filesAuth a anonymous fileset r st = (Plain 429, st').
Proof.
  intros Hd Hp Hl. exists (limiter_allowed (ClientOrigin r) (rq_gate r) (as_failures st)).2. cbn.
  assert (FailureAllowed (ClientOrigin r) (rq_gate r) st = (false, mkAuthState (as_store st) (as_disk st) (as_sessions st)
    (limiter_allowed (ClientOrigin r) (rq_gate r) (as_failures st)).2 (as_seen st) (as_trail st))) as Hg.
  { unfold FailureAllowed, on_failures. destruct (limiter_allowed _ _ _) as [ok l]. cbn in Hl. by rewrite Hl. }
  split_and!.
  - unfold Registry, authenticateAudited. rewrite Hd, Hp. unfold mbind, auth_bind. cbn. by rewrite Hg.
  - unfold API, authenticateAudited. rewrite Hd, Hp. unfold mbind, auth_bind. cbn. by rewrite Hg.
  - intros anonymous fileset Hf. unfold filesAuth. rewrite decide_False by done. rewrite Hp. unfold mbind, auth_bind. by rewrite Hg.
Qed.
(** Every refusal is recorded, once. A registry request that presented a credential and
    got 401 leaves exactly one failure record with the name it claimed; one without a
    credential leaves exactly one denial; a role that is not enough leaves a denial under
    the caller's name; a throttled one leaves nothing. *)
Theorem refusals_recorded r st status st' :
  Registry a r st = (Plain status, st') →
  ∃ evs, as_trail st' = as_trail st ++ evs ∧
    match status with
    | 429 => evs = []
    | 401 => evs = [if credentialPresented r then mkEvent (presentedName r) ActionAuthenticate SurfaceRegistry OutcomeFailure (ClientOrigin r)
                    else mkEvent "unauthenticated" ActionRegistryAccess (rq_path r) OutcomeDenied (ClientOrigin r)]
    | 403 => ∃ id, AtLeast (id_role id) (registry_floor r) = false ∧
        last evs = Some (mkEvent (if String.eqb (id_name id) "" then "unauthenticated" else id_name id) ActionRegistryAccess (rq_path r) OutcomeDenied (ClientOrigin r))
    | _ => False
    end.
Proof.
  assert (∀ x st1 st2, Authenticate a r st1 = (x, st2) → as_trail st2 = as_trail st1) as Hauth.
  { intros x st1 st2 E. unfold Authenticate in E. destruct (an_disabled a); [by injection E as _ <-|].
    destruct (cut_prefix _ _); [by injection E as _ <-|]. destruct (has_prefix _ _); [|by injection E as _ <-]. destruct (BasicAuth r) as [[name pass]|]; [|by injection E as _ <-].
    destruct (has_prefix pass _); [by injection E as _ <-|]. apply auth_bind_eq in E as (v & st3 & E1 & E). injection E as _ <-. unfold on_store in E1.
    destruct (VerifyPassword _ _ _ _ _ _) as [[? ?] ?]. by injection E1 as _ <-. }
  assert (∀ v st2, authenticateAudited a r SurfaceRegistry st = (v, st2) → ∃ evs, as_trail st2 = as_trail st ++ evs ∧
    match v with
    | verdictOK _ | verdictPanic => True | verdictNone => evs = [] ∧ credentialPresented r = false | verdictThrottled => evs = []
    | verdictFailed => credentialPresented r = true ∧ evs = [mkEvent (presentedName r) ActionAuthenticate SurfaceRegistry OutcomeFailure (ClientOrigin r)]
    end) as Haud.
  { intros v st2 E. unfold authenticateAudited in E. destruct (an_disabled a); [injection E as <- <-; exists []; by rewrite app_nil_r|].
    destruct (credentialPresented r) eqn:Ep; cbn [negb] in E; [|injection E as <- <-; exists []; by rewrite app_nil_r].
    apply auth_bind_eq in E as (ok & st3 & E1 & E). unfold FailureAllowed, on_failures in E1. destruct (limiter_allowed _ _ _) as [ok' l]. injection E1 as <- <-.
    destruct ok'; cbn [negb] in E; [|injection E as <- <-; exists []; by rewrite app_nil_r]. apply auth_bind_eq in E as (x & st4 & E2 & E). apply Hauth in E2. cbn in E2.
    destruct x as [id| |].
    - apply auth_bind_eq in E as (new & st5 & E3 & E). unfold recordSuccess, on_seen in E3. destruct (note_seen _ _ _ _). injection E3 as <- <-.
      destruct b; apply auth_bind_eq in E as (? & ? & E4 & E); injection E4 as _ <-; injection E as <- <-; cbn; rewrite E2; [by eexists|exists []; by rewrite app_nil_r].
    - injection E as <- <-. cbn. rewrite E2. by eexists.
    - injection E as <- <-. exists []. by rewrite app_nil_r, E2. }
  intros E. unfold Registry in E. apply auth_bind_eq in E as (v & st1 & E1 & E). apply Haud in E1 as (evs & Ht & Hv). destruct v as [id| | | |].
  - destruct (AtLeast (id_role id) (registry_floor r)) eqn:Ha; [done|]. injection E as <- <-. cbn. rewrite Ht, <-app_assoc. eexists. split; [done|].
    exists id. split; [done|]. by rewrite last_snoc.
  - destruct Hv as [-> Hp]. injection E as <- <-. cbn. rewrite Ht, app_nil_r, Hp. by eexists.
  - destruct Hv as [Hp ->]. injection E as <- <-. rewrite Hp. by eexists.
  - injection E as <- <-. subst evs. by exists [].
  - done.
Qed.
End surfaces.
