(* ===== verification/AuthSessions.v ===== *)
(** Sessions and accounts together: the handlers as requests in sequence, the agreement of
    sessions with the accounts they were opened for, and what a failed save or a login in
    flight does to it; runs on a small instance. *)

From stdpp Require Import pretty.
From S2P Require Import Prelude GoStrings Taxonomy Disk RateLimit SigVerify SigKeys Password Auth TaskCodecRef AuthSafety.
Open Scope Z_scope.

Section sessions.
Context `{GoRuntime, AuthLib, AccountsCodec} (a : Authenticator).

(** * Requests in sequence *)

Inductive handler :=
  | HRegistry | HAPI | HFiles (anonymous : gset string) (fileset : string) | HScreen
  | HLogin (name password id csrf next : string) | HLogout (sess : option Session)
  | HCreate (id : Identity) (body : option (string * string * string)) (salt : option string)
  | HUpdate (id : Identity) (name : string) (body : option string)
  | HDelete (id : Identity) (name : string)
  | HPassword (id : Identity) (body : option (string * string)) (salt : option string)
  | HToken (id : Identity) (body : option (string * string)) (raw : option string)
  | HRevoke (id : Identity) (name : string)
  | HAdminCreate (id : Identity) (name role password confirm : string) (salt : option string)
  | HAdminDelete (id : Identity) (name : string)
  | HAdminRole (id : Identity) (name role : string)
  | HAccountPassword (id : Identity) (sess : option Session) (current new confirm : string) (salt : option string).
Definition serve (h : handler) (r : Request) : auth answer :=
  match h with
  | HRegistry => Registry a r
  | HAPI => API a r
  | HFiles anonymous fileset => filesAuth a anonymous fileset r
  | HScreen => RequireSession a r
  | HLogin name password id csrf next => loginSubmit a name password id csrf next r
  | HLogout sess => logout sess r
  | HCreate id body salt => createAccount id body salt r
  | HUpdate id name body => updateAccount a id name body r
  | HDelete id name => deleteAccount a id name r
  | HPassword id body salt => changePassword a id body salt r
  | HToken id body raw => createToken id body raw r
  | HRevoke id name => revokeToken id name r
  | HAdminCreate id name role password confirm salt => adminAccountCreate id name role password confirm salt r
  | HAdminDelete id name => adminAccountDelete id name r
  | HAdminRole id name role => adminAccountRole id name role r
  | HAccountPassword id sess current new confirm salt => accountPassword id sess current new confirm salt r
  end.
Definition serve_all (rs : list (handler * Request)) (st : AuthState) : AuthState :=
  fold_left (λ st x, (serve x.1 x.2 st).2) rs st.
(** The random source gives a session identifier; a temporary file is not the target. *)
Definition request_ok (path : string) (x : handler * Request) : Prop :=
  rq_tmp x.2 ≠ path ∧ match x.1 with HLogin _ _ id _ _ => id ≠ "" | _ => True end.

(** * Sessions agree with accounts *)

Record agrees (path : string) (st : AuthState) : Prop := {
  ag_path : au_path (as_store st) = path;
  ag_disk : healthy (as_disk st);
  ag_ids : sn_m (as_sessions st) !! "" = None;
  ag_roles : map_Forall (λ _ s, ∃ acct, AccountOf (ss_account s) (as_store st) = Some acct ∧ ac_role acct = ss_role s) (sn_m (as_sessions st)) }.
(** A store operation that keeps roles, but for one name. *)
Definition roles_kept (skip : option string) (s s' : AuthStore) : Prop :=
  ∀ n acct, Some n ≠ skip → AccountOf n s = Some acct → ∃ acct', AccountOf n s' = Some acct' ∧ ac_role acct' = ac_role acct.
Definition keeps {A} (path : string) (m : auth A) : Prop := ∀ st x st', agrees path st → m st = (x, st') → agrees path st'.

Lemma save_healthy tmp s d : healthy d → tmp ≠ au_path s → save tmp s d = (true, (save tmp s d).2) ∧ healthy (save tmp s d).2.
Proof. intros Hd Hne. unfold save. destruct (secret_write_healthy tmp (au_path s) (yaml_encode (au_data s)) d Hd Hne). by destruct (secret_write _ _ _ _) as [[] ?]. Qed.
Lemma saved_healthy tmp s d : healthy d → tmp ≠ au_path s → saved tmp s d = (Ok (), s, (save tmp s d).2) ∧ healthy (save tmp s d).2.
Proof. intros Hd Hne. destruct (save_healthy tmp s d Hd Hne) as [E ?]. rewrite saved_eq, E. by destruct (save tmp s d). Qed.
Definition store_keeps {A} (path : string) (skip : A → option string) (f : AuthStore → Disk → A * AuthStore * Disk) : Prop :=
  ∀ s d x s' d', au_path s = path → healthy d → f s d = (x, s', d') → au_path s' = path ∧ healthy d' ∧ roles_kept (skip x) s s'.
Lemma roles_kept_refl skip s : roles_kept skip s s.
Proof. intros n acct _ E. by exists acct. Qed.

Ltac unchanged := intros [= <- <- <-]; split_and!; try done; apply roles_kept_refl.
Lemma AddAccount_keeps path name role password now salt tmp : tmp ≠ path → store_keeps path (λ _, None) (AddAccount name role password now salt tmp).
Proof.
  intros Hne s d x s' d' Hp Hd. unfold AddAccount. destruct (String.eqb name ""); [unchanged|].
  destruct (hashPassword salt password) as [[hash|]|]; [|unchanged..].
  destruct (existsb _ _); [unchanged|].
  destruct (saved_healthy tmp (set_accounts (sc_accounts (au_data s) ++ [mkAccount name role hash now None]) s) d Hd) as [-> Hh]; [cbn; congruence|].
  intros [= <- <- <-]. split_and!; [done..|]. intros n acct _ E. exists acct. split; [by apply AccountOf_append|done].
Qed.
Lemma replace_kept name s before x y after :
  split_first (named name) (sc_accounts (au_data s)) = Some (before, x, after) → ac_name y = ac_name x → ac_role y = ac_role x →
  roles_kept None s (set_accounts (before ++ y :: after) s).
Proof.
  intros Hs Hn Hr n acct _ E. rewrite (AccountOf_replace _ _ _ _ _ _ _ Hs Hn). destruct (String.eqb_spec name n) as [<-|]; [|by exists acct].
  rewrite (AccountOf_first _ _ _ _ _ Hs) in E. injection E as <-. by exists y.
Qed.
Lemma SetPassword_keeps path name password salt tmp : tmp ≠ path → store_keeps path (λ _, None) (SetPassword name password salt tmp).
Proof.
  intros Hne s d x s' d' Hp Hd. unfold SetPassword. destruct (hashPassword salt password) as [[hash|]|]; [|unchanged..].
  destruct (split_first _ _) as [[[before acct] after]|] eqn:Es; [|unchanged].
  destruct (saved_healthy tmp (forgetVerifiedLocked name (set_accounts (before ++ set_hash hash acct :: after) s)) d Hd) as [-> Hh]; [cbn; congruence|].
  intros [= <- <- <-]. split_and!; [done..|]. by apply (replace_kept name s before acct (set_hash hash acct) after Es).
Qed.
Lemma VerifyPassword_keeps path name password now tmp : tmp ≠ path → store_keeps path (λ _, None) (VerifyPassword name password now tmp).
Proof.
  intros Hne s d x s' d' Hp Hd. unfold VerifyPassword. destruct (cachedLocked _ _ _ _); [unchanged|].
  destruct (split_first _ _) as [[[before acct] after]|] eqn:Es; [|unchanged].
  destruct (verifyPassword _ _) as [[]|]; [|unchanged..].
  destruct (save_healthy tmp (set_accounts (before ++ set_login now acct :: after) s) d Hd) as [E Hh]; [cbn; congruence|]. rewrite E.
  intros [= <- <- <-]. split_and!; [done..|]. by apply (replace_kept name s before acct (set_login now acct) after Es).
Qed.
Lemma CreateToken_keeps path name role now raw tmp : tmp ≠ path → store_keeps path (λ _, None) (CreateToken name role now raw tmp).
Proof.
  intros Hne s d x s' d' Hp Hd. unfold CreateToken. destruct (String.eqb name ""); [unchanged|].
  destruct raw as [raw|]; [|unchanged].
  destruct (existsb _ _); [unchanged|].
  match goal with |- context [saved tmp ?s1 d] => destruct (saved_healthy tmp s1 d Hd) as [-> Hh]; [cbn; congruence|] end.
  intros [= <- <- <-]. split_and!; [done..|]. intros n acct _ E. by exists acct.
Qed.
Lemma RevokeToken_keeps path name tmp : tmp ≠ path → store_keeps path (λ _, None) (RevokeToken name tmp).
Proof.
  intros Hne s d x s' d' Hp Hd. unfold RevokeToken. destruct (split_first _ _) as [[[before t] after]|]; [|unchanged].
  match goal with |- context [saved tmp ?s1 d] => destruct (saved_healthy tmp s1 d Hd) as [-> Hh]; [cbn; congruence|] end.
  intros [= <- <- <-]. split_and!; [done..|]. intros n acct _ E. by exists acct.
Qed.
Lemma DeleteAccount_keeps path name tmp :
  tmp ≠ path → store_keeps path (λ x, match x with Ok _ => Some name | Err _ => None end) (DeleteAccount name tmp).
Proof.
  intros Hne s d x s' d' Hp Hd. unfold DeleteAccount. destruct (split_first _ _) as [[[before acct] after]|] eqn:Es; [|unchanged].
  destruct (_ && _); [unchanged|].
  match goal with |- context [saved tmp ?s1 d] => destruct (saved_healthy tmp s1 d Hd) as [-> Hh]; [cbn; congruence|] end.
  intros [= <- <- <-]. split_and!; [done..|]. intros n x Hn E. exists x. split; [|done]. rewrite <-E. apply (AccountOf_drop name s before acct after); [done|congruence].
Qed.
Lemma SetRole_keeps path name role tmp :
  tmp ≠ path → store_keeps path (λ x, match x with Ok _ => Some name | Err _ => None end) (SetRole name role tmp).
Proof.
  intros Hne s d x s' d' Hp Hd. unfold SetRole. destruct (split_first _ _) as [[[before acct] after]|] eqn:Es; [|unchanged].
  destruct (String.eqb (ac_role acct) role); [unchanged|].
  destruct (_ && _); [unchanged|].
  match goal with |- context [saved tmp ?s1 d] => destruct (saved_healthy tmp s1 d Hd) as [-> Hh]; [cbn; congruence|] end.
  intros [= <- <- <-]. split_and!; [done..|]. intros n x Hn E. exists x. split; [|done]. rewrite <-E.
  rewrite (AccountOf_replace name s before acct (set_role role acct) after n Es) by done. rewrite (proj2 (String.eqb_neq _ _)); [done|congruence].
Qed.

Lemma keeps_ret {A} path (x : A) : keeps path (mret x).
Proof. by intros st y st' Ha [= _ <-]. Qed.
Lemma keeps_bind {A B} path (m : auth A) (f : A → auth B) : keeps path m → (∀ x, keeps path (f x)) → keeps path (m ≫= f).
Proof. intros Hm Hf st x st' Ha E. apply auth_bind_eq in E as (y & st1 & E1 & E). eapply Hf; [|done]. by eapply Hm. Qed.
Lemma keeps_asks {A} path (f : AuthState → A) : keeps path (asks f).
Proof. by intros st y st' Ha [= _ <-]. Qed.
Lemma keeps_audit path e : keeps path (audit e).
Proof. intros st y st' Ha [= _ <-]. by destruct Ha. Qed.
Lemma keeps_failures {A} path (f : failureLimiter → A * failureLimiter) : keeps path (on_failures f).
Proof. intros st y st' Ha E. unfold on_failures in E. destruct (f _). injection E as _ <-. by destruct Ha. Qed.
Lemma keeps_seen {A} path (f : gmap string Z → A * gmap string Z) : keeps path (on_seen f).
Proof. intros st y st' Ha E. unfold on_seen in E. destruct (f _). injection E as _ <-. by destruct Ha. Qed.
Lemma keeps_store {A} path (f : AuthStore → Disk → A * AuthStore * Disk) : store_keeps path (λ _, None) f → keeps path (on_store f).
Proof.
  intros Hf st y st' [Hp Hd Hi Hr] E. unfold on_store in E. destruct (f (as_store st) (as_disk st)) as [[x s] d] eqn:Ef. injection E as _ <-.
  apply Hf in Ef as (Hp' & Hd' & Hk); [|done|done]. split; [done..|]. intros id sess Hs. destruct (Hr id sess Hs) as (acct & Ha & Hro).
  destruct (Hk _ acct ltac:(done) Ha) as (acct' & ? & ?). exists acct'. cbn. split; [done|congruence].
Qed.
(** Removing sessions keeps the agreement. *)
Lemma keeps_fewer {A} path (f : Sessions → A * Sessions) : (∀ s, sn_m (f s).2 ⊆ sn_m s) → keeps path (on_sessions f).
Proof.
  intros Hsub st y st' [Hp Hd Hi Hr] E. unfold on_sessions in E. specialize (Hsub (as_sessions st)). destruct (f (as_sessions st)) as [x s]. injection E as _ <-. cbn in Hsub.
  split; [done..| |]; cbn.
  - destruct (sn_m s !! "") eqn:E; [|done]. apply (lookup_weaken _ _ _ _ E) in Hsub. by rewrite Hi in Hsub.
  - intros id sess Hs. apply (Hr id). by apply (lookup_weaken _ _ _ _ Hs).
Qed.
Lemma get_fewer id now s : sn_m (sessions_get id now s).2 ⊆ sn_m s.
Proof. unfold sessions_get. destruct (sn_m s !! id); [destruct (expired _ _)|]; cbn; try done; apply delete_subseteq. Qed.
Lemma delete_others_fewer account keep s : sn_m (DeleteOthers account keep s) ⊆ sn_m s.
Proof. cbn. apply map_filter_subseteq. Qed.
Ltac keeping :=
  repeat first
    [ apply keeps_ret | apply keeps_audit | apply keeps_asks | apply keeps_failures | apply keeps_seen
    | apply keeps_bind; [|intros ?] | match goal with |- keeps _ (match ?x with _ => _ end) => destruct x end
    | match goal with |- keeps _ (if ?x then _ else _) => destruct x end ].

Lemma Authenticate_keeps path r : rq_tmp r ≠ path → keeps path (Authenticate a r).
Proof. intros Hne. unfold Authenticate. keeping. by apply keeps_store, VerifyPassword_keeps. Qed.
Lemma audited_keeps path r surface : rq_tmp r ≠ path → keeps path (authenticateAudited a r surface).
Proof. intros Hne. unfold authenticateAudited, FailureAllowed, RecordFailure, recordSuccess. keeping. by apply Authenticate_keeps. Qed.
Lemma surfaces_keep path r anonymous fileset : rq_tmp r ≠ path →
  keeps path (Registry a r) ∧ keeps path (API a r) ∧ keeps path (filesAuth a anonymous fileset r) ∧ keeps path (RequireSession a r).
Proof.
  intros Hne. split_and!; unfold Registry, API, filesAuth, RequireSession, sessionIdentity, sessionOf, deny, FailureAllowed, RecordFailure; keeping;
    try (by apply audited_keeps); try (by apply Authenticate_keeps); apply keeps_fewer; intros; apply get_fewer.
Qed.
(** A login opens a session under the role it just read. *)
Lemma raw_url_nonempty s : s ≠ "" → raw_url_encode s ≠ "".
Proof. destruct s as [|x [|y [|z s]]]; done. Qed.
Lemma login_keeps path name password id csrf next r : rq_tmp r ≠ path → id ≠ "" → keeps path (loginSubmit a name password id csrf next r).
Proof.
  intros Hne Hid. unfold loginSubmit. destruct (an_disabled a); [apply keeps_ret|]. intros st x st' Ha E. apply auth_bind_eq in E as (y & st1 & E1 & E).
  assert (agrees path st1 ∧ match y with inr acct => ∃ cur, AccountOf (ac_name acct) (as_store st1) = Some cur ∧ ac_role cur = ac_role acct | inl _ => True end) as [Ha1 Hy].
  { unfold login_verify in E1. apply auth_bind_eq in E1 as (ok & st2 & E2 & E1). apply (keeps_failures path) in E2; [|done].
    destruct (negb ok); [by injection E1 as <- <-|]. apply auth_bind_eq in E1 as (v & st3 & E3 & E1).
    pose proof E3 as E3'. apply (keeps_store path) in E3; [|by apply VerifyPassword_keeps|done].
    destruct v as [acct| |]; [|by injection E1 as <- <-; destruct E3|by injection E1 as <- <-]. injection E1 as <- <-. split; [done|].
    unfold on_store, VerifyPassword in E3'. destruct (cachedLocked _ _ _ _) as [c|] eqn:Ec.
    - injection E3' as <- <-. cbn. unfold cachedLocked in Ec. destruct (existsb _ _); [|done]. pose proof (AccountOf_named _ _ _ Ec) as ->. by exists c.
    - destruct (split_first _ _) as [[[before x0] after]|] eqn:Es; [|done]. destruct (verifyPassword _ _) as [[]|]; [|done..]. destruct (save _ _ _).
      injection E3' as <- <-. cbn. exists (set_login (rq_verify r) x0). split; [|done].
      transitivity (AccountOf (ac_name x0) (set_accounts (before ++ set_login (rq_verify r) x0 :: after) (as_store st2))); [done|].
      rewrite (AccountOf_replace _ _ _ _ (set_login (rq_verify r) x0) _ _ Es) by done.
      pose proof (AccountOf_named _ _ _ (AccountOf_first _ _ _ _ _ Es)) as ->. by rewrite String.eqb_refl. }
  destruct y as [ans|acct]; [by injection E as _ <-|]. destruct Hy as (cur & Hc & Hr). injection E as _ <-. destruct Ha1 as [Hp Hd Hi Hro].
  split; cbn; [done..| |].
  - rewrite lookup_insert_ne by (by apply raw_url_nonempty). apply map_lookup_filter_None. by left.
  - apply map_Forall_insert_2; [by exists cur|]. intros k s Hs. apply map_lookup_filter_Some in Hs as [Hs _]. by apply (Hro k).
Qed.
(** The change of a role and the removal of an account close the sessions that disagree. *)
Lemma closing_keeps {A} path name (f : AuthStore → Disk → res auth_error unit * AuthStore * Disk) (onErr : auth_error → auth A) (onOk : auth A) :
  store_keeps path (λ x, match x with Ok _ => Some name | Err _ => None end) f → (∀ e, keeps path (onErr e)) → keeps path onOk →
  keeps path (x ← on_store f; match x with Err e => onErr e | Ok _ => on_sessions (λ s, ((), DeleteOthers name "" s));; onOk end).
Proof.
  intros Hf Herr Hok st y st' [Hp Hd Hi Hr] E. apply auth_bind_eq in E as (x & st1 & E1 & E). unfold on_store in E1.
  destruct (f (as_store st) (as_disk st)) as [[x' s] d] eqn:Ef. injection E1 as <- <-. apply Hf in Ef as (Hp' & Hd' & Hk); [|done|done]. destruct x' as [|e].
  - apply auth_bind_eq in E as ([] & st2 & E2 & E). injection E2 as <-. eapply Hok; [|done]. split; [done..| |]; cbn.
    + apply map_lookup_filter_None. by left.
    + intros id sess [Hs Hn]%map_lookup_filter_Some. destruct (Hr id sess Hs) as (acct & Ha & Hro).
      destruct (Hk (ss_account sess) acct) as (acct' & ? & ?); [|done|exists acct'; split; [done|congruence]].
      intros [= Hname]. apply Hn. split; [done|]. intros ->. by rewrite Hi in Hs.
  - eapply Herr; [|done]. split; [done..|]. intros id sess Hs. destruct (Hr id sess Hs) as (acct & Ha & Hro).
    destruct (Hk _ acct ltac:(done) Ha) as (acct' & ? & ?). exists acct'. cbn. split; [done|congruence].
Qed.
Lemma serve_keeps path h r : an_sessions a = true → request_ok path (h, r) → keeps path (serve h r).
Proof.
  intros Hs [Hne Hid]. cbn in Hne, Hid. destruct (surfaces_keep path r ∅ "" Hne) as (HR & HA & _ & HS).
  destruct h; cbn [serve]; try done.
  - by apply surfaces_keep.
  - by apply login_keeps.
  - unfold logout. keeping. apply keeps_fewer. intros; cbn. apply delete_subseteq.
  - unfold createAccount, auditAccount, audit_error, account_body. keeping; by apply keeps_store, AddAccount_keeps.
  - unfold updateAccount, auditAccount, close_sessions. rewrite Hs. destruct body as [role|]; [|apply keeps_ret]. destruct (ParseRole role) as [ro|]; [|keeping].
    apply closing_keeps; [by apply SetRole_keeps|intros e; unfold audit_error, auditAccount; keeping|unfold account_body; keeping].
  - unfold deleteAccount, close_sessions. rewrite Hs. apply closing_keeps; [by apply DeleteAccount_keeps|intros e; unfold audit_error, auditAccount; keeping|unfold auditAccount; keeping].
  - unfold changePassword, auditAccount, close_sessions. rewrite Hs. keeping; first [by apply keeps_store, VerifyPassword_keeps|by apply keeps_store, SetPassword_keeps|apply keeps_fewer; intros; apply delete_others_fewer].
  - unfold createToken, auditAccount. keeping. by apply keeps_store, CreateToken_keeps.
  - unfold revokeToken, auditAccount. keeping. by apply keeps_store, RevokeToken_keeps.
  - unfold adminAccountCreate, auditAccount. keeping; by apply keeps_store, AddAccount_keeps.
  - unfold adminAccountDelete. cbv zeta. apply closing_keeps; [by apply DeleteAccount_keeps|intros e; unfold audit_error, auditAccount; keeping|unfold auditAccount; keeping].
  - unfold adminAccountRole, auditAccount. cbv zeta. destruct (ParseRole role) as [ro|]; [|keeping].
    apply closing_keeps; [by apply SetRole_keeps|intros e; unfold audit_error, auditAccount; keeping|keeping].
  - unfold accountPassword, auditAccount. keeping; first [by apply keeps_store, VerifyPassword_keeps|by apply keeps_store, SetPassword_keeps|apply keeps_fewer; intros; apply delete_others_fewer].
Qed.
Lemma requests_agree path rs st : an_sessions a = true → Forall (request_ok path) rs → agrees path st → agrees path (serve_all rs st).
Proof.
  intros Hs. unfold serve_all. revert st. induction rs as [|[h r] rs IH]; intros st Hrs Hst; [done|]. apply Forall_cons in Hrs as [Hr Hrs]. cbn [fold_left fst snd].
  apply IH; [done|]. destruct (serve h r st) as [x st1] eqn:E. by eapply serve_keeps.
Qed.
(** C16: a session carries its account's present role. After any requests one after the
    other, on a disk that does not fail, whoever a screen lets in through a session has an
    account, and acts under the role that account has now. *)
Theorem sessions_follow_accounts path rs st r id sess st' :
  an_sessions a = true → an_disabled a = false → Forall (request_ok path) rs → agrees path st →
  RequireSession a r (serve_all rs st) = (Next id sess, st') →
  ∃ acct, AccountOf (id_name id) (as_store (serve_all rs st)) = Some acct ∧ ac_role acct = id_role id.
Proof.
  intros Hs Hd Hrs Hst E. apply (requests_agree path rs st Hs Hrs) in Hst. unfold RequireSession in E. rewrite Hd in E.
  apply auth_bind_eq in E as (s & st1 & E1 & E). destruct s as [s|]; [|done]. destruct (_ || _); [|done]. injection E as <- _ _. cbn.
  unfold sessionOf in E1. destruct (rq_cookie r) as [c|]; [|done]. destruct (String.eqb c ""); [done|]. unfold on_sessions, sessions_get in E1.
  destruct (sn_m (as_sessions (serve_all rs st)) !! c) as [s'|] eqn:El; [|done]. destruct (expired _ s'); [done|]. injection E1 as <- _.
  exact (ag_roles _ _ Hst _ _ El).
Qed.
End sessions.

(** * A small instance *)

#[export] Instance Account_eq_dec : EqDecision Account.
Proof. solve_decision. Defined.
#[export] Instance Account_countable : Countable Account.
Proof.
  countable_by (λ r : Account, (ac_name r, (ac_role r : string), ac_hash r, ac_created r, ac_login r))
    (λ '(n, ro, h, c, l), Some (mkAccount n ro h c l)).
Defined.
#[export] Instance Token_eq_dec : EqDecision Token.
Proof. solve_decision. Defined.
#[export] Instance Token_countable : Countable Token.
Proof.
  countable_by (λ r : Token, (tk_name r, (tk_role r : string), tk_hash r, tk_created r, tk_revoked r))
    (λ '(n, ro, h, c, l), Some (mkToken n ro h c l)).
Defined.
#[export] Instance fileSchema_eq_dec : EqDecision fileSchema.
Proof. solve_decision. Defined.
#[export] Instance fileSchema_countable : Countable fileSchema.
Proof. countable_by (λ r : fileSchema, (sc_version r, sc_accounts r, sc_tokens r)) (λ '(v, x, t), Some (mkSchema v x t)). Defined.
#[export, refine] Instance accounts_codec : AccountsCodec := {|
  yaml_encode x := bits (encode x);
  yaml_decode s := p ← unbits s; decode p;
|}.
Proof. intros x. rewrite unbits_bits. cbn. apply decode_encode. Defined.

Definition auth_path : string := "state/accounts.yaml".
Definition demo_hash : string := phc "salt" (fit 32 "hunter2salt").
Definition demo_accounts : list Account := [mkAccount "root" RoleAdmin demo_hash 0 None; mkAccount "ops" RoleOperator demo_hash 0 None].
Definition demo_auth_store : AuthStore := mkAuthStore auth_path (mkSchema 1 demo_accounts []) [].
Definition demo_auth_disk : Disk := mkDisk {[auth_path := yaml_encode (au_data demo_auth_store)]} [].
Definition demo_auth : AuthState := mkAuthState demo_auth_store demo_auth_disk (mkSessions (3600 * 1000000000) ∅) ∅ ∅ [].
Definition demo_authn : Authenticator := mkAuthenticator false 0 true.
(** A request at instant [t], and the same request with a cookie. *)
Definition at_time (t : Z) (authorization : string) (cookie : option string) : Request :=
  mkRequest "GET" "/v2/" authorization cookie "192.0.2.1:4711" "" t t t "state/.tobby-secret-1".
Definition with_faults (fs : list Fault) (st : AuthState) : AuthState :=
  mkAuthState (as_store st) (mkDisk (d_files (as_disk st)) fs) (as_sessions st) (as_failures st) (as_seen st) (as_trail st).
Definition root_id : Identity := mkIdentity "root" RoleAdmin false false.
Definition login_of (name : string) : handler * Request := (HLogin name "hunter2" (name +:+ "-session") "csrf" "/", at_time 10 "" None).
Definition cookie_of (name : string) : option string := Some (raw_url_encode (name +:+ "-session")).
(** The credentials of [ops]: base64 of [ops:hunter2]. *)
Definition ops_basic : string := "Basic b3BzOmh1bnRlcjI=".

Lemma an_admin_remains_witness :
  has_admin (sc_accounts (au_data (run_ops [("t", OpDelete "root"); ("t", OpRole "ops" RoleAdmin); ("t", OpDelete "root")] demo_auth_store demo_auth_disk).1)).
Proof.
  apply (an_admin_remains "state" [("t", OpDelete "root"); ("t", OpRole "ops" RoleAdmin); ("t", OpDelete "root")] demo_auth_store demo_auth_disk).
  - repeat constructor; done.
  - split; [done|done|by left|]. exists (yaml_encode (au_data demo_auth_store)), (au_data demo_auth_store). split; [by apply lookup_singleton_eq|].
    rewrite yaml_roundtrip. split_and!; [done..|by left].
Defined.
Definition verified_then_demoted : list (string * auth_op) := [("t", OpVerify "ops" "hunter2" 5); ("t", OpRole "ops" RoleViewer)].
Lemma cached_verification_is_current_witness :
  ∃ acct cur, (let '(s, d) := run_ops verified_then_demoted demo_auth_store demo_auth_disk in VerifyPassword "ops" "hunter2" 7 "t" s d).1.1 = Verified acct ∧
    AccountOf "ops" (run_ops verified_then_demoted demo_auth_store demo_auth_disk).1 = Some cur ∧ ac_role acct = ac_role cur.
Proof.
  pose proof (cached_verification_is_current verified_then_demoted demo_auth_store demo_auth_disk "ops" "hunter2" 7 "t" eq_refl) as Hw.
  assert (match (let '(s, d) := run_ops verified_then_demoted demo_auth_store demo_auth_disk in VerifyPassword "ops" "hunter2" 7 "t" s d).1.1 with Verified _ => true | _ => false end = true) as Hv by (by vm_compute).
  destruct (run_ops verified_then_demoted demo_auth_store demo_auth_disk) as [s d]. cbn [fst].
  destruct (VerifyPassword "ops" "hunter2" 7 "t" s d).1.1 as [acct| |]; [|discriminate Hv..]. destruct Hw as (cur & p & ? & _ & ? & _). exists acct, cur. split_and!; [reflexivity|assumption..].
Defined.
Lemma revocation_is_immediate_witness :
  let '(s, d) := run_ops [("t", OpToken "ci" RoleViewer 1 (Some "raw")); ("t", OpToken "cd" RoleViewer 1 (Some "ram"))] demo_auth_store demo_auth_disk in
  (∀ secret t, VerifyToken secret (RevokeToken "ci" "t" s d).1.2 = Some t → tk_name t ≠ "ci") ∧ length (live_tokens s) = 2%nat.
Proof.
  pose proof (revocation_is_immediate [("t", OpToken "ci" RoleViewer 1 (Some "raw")); ("t", OpToken "cd" RoleViewer 1 (Some "ram"))] demo_auth_store demo_auth_disk "ci" "t") as Hw.
  destruct (run_ops _ _ _) as [s d] eqn:E in Hw. assert (length (live_tokens (run_ops [("t", OpToken "ci" RoleViewer 1 (Some "raw")); ("t", OpToken "cd" RoleViewer 1 (Some "ram"))] demo_auth_store demo_auth_disk).1) = 2%nat) as Hl by (by vm_compute).
  rewrite E in Hl |- *. cbn in Hl. specialize (Hw ltac:(constructor)). destruct (RevokeToken "ci" "t" s d) as [[x s'] d']. split; [by apply Hw|done].
Defined.
(** The store as it is opened, and after [ops] was verified and demoted. *)
Definition opened_store : AuthStore * Disk :=
  match OpenAuth "state" demo_auth_disk with (Ok s, d) => (s, d) | (Err _, d) => (demo_auth_store, d) end.
Definition demoted_auth : AuthState :=
  mkAuthState (run_ops verified_then_demoted opened_store.1 opened_store.2).1 demo_auth_disk (mkSessions 1 ∅) ∅ ∅ [].
Lemma registry_admits_witness :
  ∃ st', Registry demo_authn (at_time 7 ops_basic None) demoted_auth = (Next (mkIdentity "ops" RoleViewer false false) None, st') ∧
    length (au_verified (as_store demoted_auth)) = 1%nat ∧
    vouched (at_time 7 ops_basic None) (as_store demoted_auth) (mkIdentity "ops" RoleViewer false false).
Proof.
  destruct (Registry demo_authn (at_time 7 ops_basic None) demoted_auth) as [x st'] eqn:E. exists st'.
  assert ((Registry demo_authn (at_time 7 ops_basic None) demoted_auth).1 = Next (mkIdentity "ops" RoleViewer false false) None) as Hx by (by vm_compute).
  assert (length (au_verified (as_store demoted_auth)) = 1%nat) as Hl by (by vm_compute).
  assert (match OpenAuth "state" demo_auth_disk with (Ok _, _) => true | _ => false end = true) as Hok by (vm_compute; reflexivity).
  assert (OpenAuth "state" demo_auth_disk = (Ok opened_store.1, opened_store.2)) as Ho.
  { unfold opened_store. destruct (OpenAuth "state" demo_auth_disk) as [[s|err] dd]; [reflexivity|discriminate Hok]. }
  rewrite E in Hx. cbn [fst] in Hx. subst x. split; [done|]. split; [exact Hl|].
  destruct (registry_admits demo_authn "state" demo_auth_disk opened_store.1 opened_store.2 verified_then_demoted
    _ demoted_auth _ _ _ Ho eq_refl E) as [_ [[Hd _]|[_ Hv]]]; [discriminate Hd|exact Hv].
Defined.
(** The origin of [at_time] with its budget spent. *)
Definition exhausted : AuthState :=
  mkAuthState demo_auth_store demo_auth_disk (mkSessions 1 ∅) {["192.0.2.1" := mkBucket 0 5]} ∅ [].
Lemma throttled_verifies_nothing_witness :
  ∃ st', Registry demo_authn (at_time 5 ops_basic None) exhausted = (Plain 429, st') ∧ as_store st' = demo_auth_store ∧ as_trail st' = [].
Proof.
  destruct (throttled_verifies_nothing demo_authn (at_time 5 ops_basic None) exhausted) as (l & Hr & _); [reflexivity|reflexivity|by vm_compute|].
  exact (ex_intro _ _ (conj Hr (conj eq_refl eq_refl))).
Defined.
(** The credentials [ops:wrong]. *)
Definition wrong_basic : string := "Basic b3BzOndyb25n".
Lemma refusals_recorded_witness :
  ∃ st' evs, Registry demo_authn (at_time 5 wrong_basic None) demo_auth = (Plain 401, st') ∧ as_trail st' = as_trail demo_auth ++ evs ∧
    evs = [mkEvent "ops" ActionAuthenticate SurfaceRegistry OutcomeFailure "192.0.2.1"].
Proof.
  destruct (Registry demo_authn (at_time 5 wrong_basic None) demo_auth) as [x st'] eqn:E. exists st'.
  assert ((Registry demo_authn (at_time 5 wrong_basic None) demo_auth).1 = Plain 401) as Hx by (by vm_compute). rewrite E in Hx. cbn in Hx. subst x.
  destruct (refusals_recorded demo_authn _ demo_auth _ _ E) as (evs & Ht & Hev). exists evs. split; [reflexivity|]. split; [exact Ht|].
  rewrite Hev. by vm_compute.
Defined.
Definition role_history : list (handler * Request) := [login_of "ops"; (HUpdate root_id "ops" (Some RoleViewer), at_time 20 "" None); login_of "ops"].
Lemma demo_agrees : agrees auth_path demo_auth.
Proof. split; [done|done|done|apply map_Forall_empty]. Qed.
Lemma sessions_follow_accounts_witness :
  ∃ id sess st' acct, RequireSession demo_authn (at_time 30 "" (cookie_of "ops")) (serve_all demo_authn role_history demo_auth) = (Next id sess, st') ∧
    AccountOf (id_name id) (as_store (serve_all demo_authn role_history demo_auth)) = Some acct ∧ ac_role acct = id_role id.
Proof.
  destruct (RequireSession demo_authn (at_time 30 "" (cookie_of "ops")) (serve_all demo_authn role_history demo_auth)) as [x st'] eqn:E.
  assert (match (RequireSession demo_authn (at_time 30 "" (cookie_of "ops")) (serve_all demo_authn role_history demo_auth)).1 with Next _ _ => true | _ => false end = true) as Hx by (by vm_compute).
  rewrite E in Hx. cbn in Hx. destruct x as [id sess| | | | | | | | | | |]; try discriminate Hx.
  destruct (sessions_follow_accounts demo_authn auth_path role_history demo_auth _ _ _ _ eq_refl eq_refl ltac:(repeat constructor; done) demo_agrees E) as (acct & Ha & Hr).
  exists id, sess, st', acct. split_and!; [reflexivity|assumption..].
Defined.

(** * Where the code departs from what it says *)

(** An account whose removal could not be written is gone from the table, the administrator
    is told of an error, and the sessions of the account stay open, where the handlers say
    that an account that no longer exists does not keep browsing. *)
Theorem failed_removal_keeps_sessions :
  let st := with_faults [FaultClean] (serve_all demo_authn [login_of "ops"] demo_auth) in
  let '(ans, st') := serve demo_authn (HDelete root_id "ops") (at_time 20 "" None) st in
  ans = Problem CodeInternal ∧ AccountOf "ops" (as_store st') = None ∧
  (RequireSession demo_authn (at_time 30 "" (cookie_of "ops")) st').1 = Next (mkIdentity "ops" RoleOperator false false) (sn_m (as_sessions st') !! raw_url_encode "ops-session").
Proof. by vm_compute. Qed.

(** The verification of a login and the opening of its session are two critical sections: a
    demotion in between closes no session yet, and the session then opens under the role
    the account no longer holds. *)
Theorem login_outlives_demotion :
  let r := at_time 10 "" None in
  let '(x, st1) := login_verify "ops" "hunter2" r demo_auth in
  match x with
  | inr acct =>
      let '(ans, st2) := serve demo_authn (HUpdate root_id "ops" (Some RoleViewer)) r st1 in
      let '(_, st3) := login_open acct "ops-session" "csrf" "/" r st2 in
      ac_role <$> AccountOf "ops" (as_store st3) = Some RoleViewer ∧
      match (RequireSession demo_authn (at_time 30 "" (cookie_of "ops")) st3).1 with Next id _ => id_role id = RoleOperator | _ => False end
  | inl _ => False
  end.
Proof. by vm_compute. Qed.

(** The identity of a token carries a bare name: a token named after an account changes that
    account's password, given the current one, where the handler says a token caller fails
    this check like any wrong credential. *)
Theorem token_changes_password :
  let token_id := token_identity (mkToken "ops" RoleViewer "" 0 false) in
  let '(ans, st') := serve demo_authn (HPassword token_id (Some ("hunter2", "changed")) (Some "salt")) (at_time 20 "" None) demo_auth in
  ans = NoContent ∧ verifyPassword "changed" (match AccountOf "ops" (as_store st') with Some x => ac_hash x | None => "" end) = Some true.
Proof. by vm_compute. Qed.

(** A revocation that could not be written holds until the next restart only, and asking
    again answers that there is no such token, where it is said to be permanent. *)
Theorem revocation_forgotten :
  let '(_, s1, d1) := CreateToken "ci" RoleAdmin 1 (Some "raw") "t" demo_auth_store demo_auth_disk in
  let secret := tokenPrefix +:+ raw_url_encode "raw" in
  let '(x, s2, d2) := RevokeToken "ci" "t" s1 (mkDisk (d_files d1) [FaultClean]) in
  let '(y, s3, d3) := RevokeToken "ci" "t" s2 d2 in
  x = Err SaveFailed ∧ y = Err ErrNotFound ∧
  match OpenAuth "state" d3 with
  | (Ok s4, _) => tk_name <$> VerifyToken secret s4 = Some "ci"
  | _ => False
  end.
Proof. by vm_compute. Qed.
