(* ===== verification/Trust.v ===== *)
(** The destination's trust policy (internal/engine/trust.go): loading the trust
    roots, the declared scopes with their validation (internal/config/config.go)
    and the decision on a nominal repository. *)

From S2P Require Import Prelude GoStrings Relocate Glob Policy MediaPaths MediaVerify MediaSafety SigKeys.

(** [config.TrustRoot] and [config.TrustScope]. *)
Record TrustRoot := mkRoot {
  rt_name : string; rt_key : string; rt_key_file : string; rt_key_url : string }.
Record TrustScope := mkScope {
  sc_name : string; sc_repositories : list string; sc_allow_unsigned : bool; sc_roots : list string }.

(** The outside world while the roots are loaded: the answers of the key servers
    (a body that fails to read is [None]) and the files, by path; [kw_writable]
    tells whether the directory of a path can be made and the file written. *)
Inductive http_answer := HttpFailed | HttpAnswer (status : Z) (body : option string).
Record KeyWorld := mkKeyWorld {
  kw_get : string → http_answer; kw_files : gmap string string; kw_writable : string → bool }.

(** Why the policy does not load. *)
Inductive root_error := RootReadFile | RootFetch | RootKeys (e : keys_error).
Inductive trust_error := TrustRootFailed (name : string) (e : root_error) | TrustAllKeys (e : keys_error).

(** [io.LimitReader] over a body. *)
Fixpoint limit_read (n : Z) (s : string) : string :=
  match s with
  | EmptyString => EmptyString
  | String c s => if (n <=? 0)%Z then EmptyString else String c (limit_read (n - 1) s)
  end.
Definition key_limit : Z := Z.shiftl 1 20.

(** * Validation of the configuration *)

Inductive trust_config_error :=
  | RootNameRequired (i : nat) | RootDuplicate (i : nat) (name : string)
  | RootSources (i : nat) (name : string) | RootNotHttps (i : nat) (name : string)
  | ScopeNameRequired (i : nat) | ScopeDuplicate (i : nat) (name : string)
  | ScopeNoRepositories (i : nat) (name : string) | ScopeNoEffect (i : nat) (name : string)
  | ScopeUnknownRoot (i : nat) (name want : string).

(** The two loops of [validateTrust], with the names met so far. *)
Definition validate_root (i : nat) (r : TrustRoot) (names : gset string) : list trust_config_error :=
  (if String.eqb (rt_name r) "" then [RootNameRequired i]
   else if decide (rt_name r ∈ names) then [RootDuplicate i (rt_name r)] else []) ++
  (if Nat.eqb (length (filter (λ v, v ≠ "") [rt_key r; rt_key_file r; rt_key_url r])) 1 then []
   else [RootSources i (rt_name r)]) ++
  (if negb (String.eqb (rt_key_url r) "") && negb (has_prefix (rt_key_url r) "https://")
   then [RootNotHttps i (rt_name r)] else []).
Fixpoint validate_roots (i : nat) (rs : list TrustRoot) (names : gset string)
  : list trust_config_error * gset string :=
  match rs with
  | [] => ([], names)
  | r :: rs =>
      let '(errs, all) := validate_roots (S i) rs ({[ rt_name r ]} ∪ names) in
      (validate_root i r names ++ errs, all)
  end.
Definition validate_scope (i : nat) (s : TrustScope) (rootNames names : gset string)
  : list trust_config_error :=
  (if String.eqb (sc_name s) "" then [ScopeNameRequired i]
   else if decide (sc_name s ∈ names) then [ScopeDuplicate i (sc_name s)] else []) ++
  (match sc_repositories s with [] => [ScopeNoRepositories i (sc_name s)] | _ => [] end) ++
  (match sc_roots s with
   | [] => if sc_allow_unsigned s then [] else [ScopeNoEffect i (sc_name s)]
   | _ => [] end) ++
  (ScopeUnknownRoot i (sc_name s) <$> filter (λ want, want ∉ rootNames) (sc_roots s)).
Fixpoint validate_scopes (i : nat) (scopes : list TrustScope) (rootNames names : gset string)
  : list trust_config_error :=
  match scopes with
  | [] => []
  | s :: scopes =>
      validate_scope i s rootNames names ++
      validate_scopes (S i) scopes rootNames ({[ sc_name s ]} ∪ names)
  end.
Definition validateTrust (rs : list TrustRoot) (scopes : list TrustScope) : list trust_config_error :=
  let '(errs, rootNames) := validate_roots 0 rs ∅ in
  errs ++ validate_scopes 0 scopes rootNames ∅.

(** * Matching *)

(** [matchSegment]: ["*"] within one path segment. *)
Definition matchSegment (pat s : string) : bool :=
  match split_byte "*" pat with
  | [] | [_] => String.eqb pat s
  | p0 :: rest =>
      match cut_prefix p0 s with
      | None => false
      | Some s =>
          match consume (removelast rest) s with
          | None => false
          | Some s => has_suffix s (List.last rest "")
          end
      end
  end.

(** [matchSegments]: ["**"] absorbs zero or more segments. *)
Fixpoint matchSegments (pat parts : list string) : bool :=
  match pat with
  | [] => match parts with [] => true | _ => false end
  | p :: pat =>
      if String.eqb p "**" then
        existsb (λ skip, matchSegments pat (drop skip parts)) (seq 0 (S (length parts)))
      else
        match parts with
        | [] => false
        | s :: parts => if negb (matchSegment p s) then false else matchSegments pat parts
        end
  end.

(** [matchPattern]. *)
Definition matchPattern (pattern path : string) : bool :=
  matchSegments (split_byte "/" pattern) (split_byte "/" path).

Section policy.
Context `{KeyLib}.

(** * Loading *)

(** [TrustPolicy]; [tp_all] is absent when no root is configured. *)
Record TrustPolicy := mkPolicy {
  tp_roots : gmap string (list trustedKey); tp_all : option (list trustedKey); tp_scopes : list TrustScope }.

(** [fetchCachedKeyAt]: the key server, or the cached copy. *)
Definition cached_key (path : string) (w : KeyWorld) : res root_error string :=
  match kw_files w !! path with Some pem => Ok pem | None => Err RootFetch end.
Definition fetchCachedKeyAt (url path : string) (w : KeyWorld) : res root_error string * KeyWorld :=
  match kw_get w url with
  | HttpAnswer 200 (Some body) =>
      let pem := limit_read key_limit body in
      (Ok pem,
       if kw_writable w path then mkKeyWorld (kw_get w) (<[path := pem]> (kw_files w)) (kw_writable w) else w)
  | _ => (cached_key path w, w)
  end.

(** [fetchCachedKey]. *)
Definition fetchCachedKey (url path : string) (w : KeyWorld) : res root_error string * KeyWorld :=
  if String.eqb path "" then
    (match kw_get w url with HttpAnswer 200 (Some body) => Ok (limit_read key_limit body) | _ => Err RootFetch end, w)
  else fetchCachedKeyAt url path w.

(** [filepath.Join]: empty elements are ignored, the rest is cleaned. *)
Definition join_path (dir file : string) : string :=
  if String.eqb dir "" then path_clean file else path_clean (dir +:+ "/" +:+ file).

(** The key material of one root. *)
Definition root_pem (cacheDir : string) (r : TrustRoot) (w : KeyWorld) : res root_error string * KeyWorld :=
  if negb (String.eqb (rt_key r) "") then (Ok (rt_key r), w)
  else if negb (String.eqb (rt_key_file r) "") then
    (match kw_files w !! rt_key_file r with Some pem => Ok pem | None => Err RootReadFile end, w)
  else if negb (String.eqb (rt_key_url r) "") then
    fetchCachedKey (rt_key_url r) (join_path cacheDir (rt_name r +:+ ".pub")) w
  else (Ok "", w).

(** The loop of [LoadTrust] over the roots. *)
Fixpoint load_roots (cacheDir : string) (rs : list TrustRoot) (roots : gmap string (list trustedKey))
    (allPEM : list string) (w : KeyWorld)
  : res trust_error (gmap string (list trustedKey) * list string) * KeyWorld :=
  match rs with
  | [] => (Ok (roots, allPEM), w)
  | r :: rs =>
      match root_pem cacheDir r w with
      | (Err e, w) => (Err (TrustRootFailed (rt_name r) e), w)
      | (Ok pem, w) =>
          match ParsePublicKeys [pem] with
          | Err e => (Err (TrustRootFailed (rt_name r) (RootKeys e)), w)
          | Ok keys => load_roots cacheDir rs (<[rt_name r := keys]> roots) (allPEM ++ [pem]) w
          end
      end
  end.

(** [LoadTrust]. *)
Definition LoadTrust (rs : list TrustRoot) (scopes : list TrustScope) (cacheDir : string) (w : KeyWorld)
  : res trust_error TrustPolicy * KeyWorld :=
  match load_roots cacheDir rs ∅ [] w with
  | (Err e, w) => (Err e, w)
  | (Ok (roots, []), w) => (Ok (mkPolicy roots None scopes), w)
  | (Ok (roots, allPEM), w) =>
      (match ParsePublicKeys allPEM with
       | Err e => Err (TrustAllKeys e)
       | Ok all => Ok (mkPolicy roots (Some all) scopes)
       end, w)
  end.

(** * Deciding *)

(** [Decision]. *)
Record Decision := mkDecision { dc_allow_unsigned : bool; dc_scope : string; dc_keys : option (list trustedKey) }.

(** [merge]. *)
Definition merge_roots (p : TrustPolicy) (names : list string) : list trustedKey :=
  Union (omap (λ n, tp_roots p !! n) names).

(** [Decide]: the first scope one of whose patterns matches. *)
Definition scope_decision (p : TrustPolicy) (s : TrustScope) : Decision :=
  mkDecision (sc_allow_unsigned s) (sc_name s)
    (match sc_roots s with [] => tp_all p | names => Some (merge_roots p names) end).
Fixpoint decide_scopes (p : TrustPolicy) (scopes : list TrustScope) (repo : string) : Decision :=
  match scopes with
  | [] => mkDecision false "" (tp_all p)
  | s :: scopes =>
      if existsb (λ pattern, matchPattern pattern repo) (sc_repositories s) then scope_decision p s
      else decide_scopes p scopes repo
  end.
Definition Decide (p : TrustPolicy) (repo : string) : Decision := decide_scopes p (tp_scopes p) repo.

(** [HasRoots] and [RelaxedScopes]. *)
Definition HasRoots (p : TrustPolicy) : bool := bool_decide (is_Some (tp_all p)).
Definition RelaxedScopes (p : TrustPolicy) : list string :=
  sc_name <$> filter (λ s, sc_allow_unsigned s = true) (tp_scopes p).

(** [nominalRepoOf]. *)
Definition nominalRepoOf `{GoRuntime} (cookbook name : string) : res relocate_error string :=
  Path (cookbook +:+ "/" +:+ name).

(** The signature verifier over these key sets, and [MediaTrust.Decide]. *)
Definition key_verifier (verify : string → string → list trustedKey → SigOutcome) : SigVerifier :=
  {| Keys := list trustedKey; sig_verify := verify |}.
Definition MediaTrust (verify : string → string → list trustedKey → SigOutcome) (p : option TrustPolicy)
    (repo : string) : TrustDecision (H := key_verifier verify) :=
  match p with
  | None => mkTrust (key_verifier verify) false "" None
  | Some p =>
      let d := Decide p repo in
      mkTrust (key_verifier verify) (dc_allow_unsigned d) (dc_scope d) (dc_keys d)
  end.

(** * Correctness *)

(** ** Patterns *)

Lemma matchSegments_labels pat parts : matchSegments pat parts = matchLabels pat parts.
Proof.
  revert parts. induction pat as [|p pat IH]; intros parts; cbn [matchSegments matchLabels]; [done|].
  destruct (String.eqb p "**").
  - induction (seq 0 (S (length parts))) as [|n l IHl]; cbn; [done|]. by rewrite IH, IHl.
  - destruct parts as [|s parts]; [done|]. by rewrite IH.
Qed.

(** A scope covers a repository: one of its patterns matches the whole path, a
    star inside one segment and ["**"] across any number of them. *)
Definition covers (s : TrustScope) (repo : string) : Prop :=
  ∃ pattern, pattern ∈ sc_repositories s ∧ glob (split_byte "/" pattern) (split_byte "/" repo).

Lemma covers_spec s repo :
  existsb (λ pattern, matchPattern pattern repo) (sc_repositories s) = true ↔ covers s repo.
Proof.
  rewrite existsb_exists. unfold covers, matchPattern.
  setoid_rewrite matchSegments_labels. setoid_rewrite matchLabels_correct.
  by setoid_rewrite list_elem_of_In.
Qed.

(** The scope that governs a repository: the first one that covers it. *)
Definition governing (scopes : list TrustScope) (repo : string) (os : option TrustScope) : Prop :=
  match os with
  | None => ∀ s, s ∈ scopes → ¬ covers s repo
  | Some s => ∃ pre post, scopes = pre ++ s :: post ∧ covers s repo ∧ ∀ s', s' ∈ pre → ¬ covers s' repo
  end.

Lemma decide_scopes_governing p scopes repo :
  ∃ os, governing scopes repo os ∧
    decide_scopes p scopes repo =
      match os with Some s => scope_decision p s | None => mkDecision false "" (tp_all p) end.
Proof.
  induction scopes as [|s scopes (os & Hos & Hd)]; cbn [decide_scopes].
  { exists None. split; [|done]. intros s Hs. by apply elem_of_nil in Hs. }
  destruct (existsb _ _) eqn:E.
  - exists (Some s). apply covers_spec in E. split; [|done]. exists [], scopes.
    split; [done|]. split; [done|]. intros s' Hs. by apply elem_of_nil in Hs.
  - assert (¬ covers s repo) as Hn by (rewrite <-covers_spec; congruence).
    exists os. split; [|done]. destruct os as [s0|]; cbn in *.
    + destruct Hos as (pre & post & -> & Hc & Hpre). exists (s :: pre), post.
      split; [done|]. split; [done|]. intros s' [->|?]%elem_of_cons; auto.
    + intros s' [->|?]%elem_of_cons; auto.
Qed.

(** ** Loading *)

(** What the loop has loaded: one non-empty key set per root, and together the
    keys of the inputs gathered. *)
Definition loaded (rs : list TrustRoot) (roots : gmap string (list trustedKey)) (allPEM : list string) : Prop :=
  length allPEM = length rs ∧
  (∀ n, is_Some (roots !! n) ↔ n ∈ rt_name <$> rs) ∧
  (∀ n ks, roots !! n = Some ks → ks ≠ [] ∧ Forall strong_key ks) ∧
  ∃ all, parse_inputs 0 allPEM = Ok all ∧
    ∀ k, k ∈ all ↔ ∃ n ks, roots !! n = Some ks ∧ k ∈ ks.

Lemma loaded_nil : loaded [] ∅ [].
Proof.
  split; [done|]. split; [|split].
  - intros n. rewrite lookup_empty. split; [by intros []|by intros ?%elem_of_nil].
  - intros n ks. by rewrite lookup_empty.
  - exists []. split; [done|]. intros k. setoid_rewrite lookup_empty. set_solver.
Qed.

Lemma loaded_snoc rs r roots allPEM pem ks :
  loaded rs roots allPEM → rt_name r ∉ rt_name <$> rs → ParsePublicKeys [pem] = Ok ks →
  loaded (rs ++ [r]) (<[rt_name r := ks]> roots) (allPEM ++ [pem]).
Proof.
  intros (Hl & Hd & Hne & all & Hall & Hk) Hn Hp. apply ParsePublicKeys_one in Hp as (Hp & Hks & Hst).
  assert (roots !! rt_name r = None) as Hnone by (apply eq_None_not_Some; by rewrite Hd).
  split; [by rewrite !length_app, Hl|]. split; [|split].
  - intros n. rewrite fmap_app, elem_of_app, lookup_insert_is_Some, Hd. cbn.
    rewrite list_elem_of_singleton. destruct (decide (n = rt_name r)); naive_solver.
  - intros n ks' [[<- <-]|[_ ?]]%lookup_insert_Some; eauto.
  - exists (all ++ ks). split; [by apply parse_inputs_snoc|].
    intros k. rewrite elem_of_app, Hk. setoid_rewrite lookup_insert_Some. split.
    + intros [(n & l & ? & ?)|?]; [exists n, l|eexists _, _; by eauto].
      split; [|done]. right. split; [congruence|done].
    + intros (n & l & [[<- <-]|[? ?]] & ?); eauto.
Qed.

Lemma load_roots_spec cacheDir rs done_ roots allPEM w roots' allPEM' w' :
  loaded done_ roots allPEM → NoDup (rt_name <$> (done_ ++ rs)) →
  load_roots cacheDir rs roots allPEM w = (Ok (roots', allPEM'), w') →
  loaded (done_ ++ rs) roots' allPEM'.
Proof.
  revert done_ roots allPEM w. induction rs as [|r rs IH]; intros done_ roots allPEM w Hl Hn; cbn [load_roots].
  { intros [= <- <- <-]. by rewrite app_nil_r. }
  destruct (root_pem cacheDir r w) as [[pem|] w1]; [|done].
  destruct (ParsePublicKeys [pem]) as [ks|] eqn:Hp; [|done].
  rewrite (cons_middle r done_ rs), (app_assoc done_ [r] rs) in *. intros Hload. eapply IH; [|done|exact Hload].
  apply loaded_snoc; [done| |done]. rewrite !fmap_app in Hn.
  apply NoDup_app in Hn as [(_ & Hn & _)%NoDup_app _]. intros Hin. apply (Hn _ Hin). left.
Qed.

(** ** What validation establishes *)

Lemma validate_roots_spec i rs names all :
  validate_roots i rs names = ([], all) →
  NoDup (rt_name <$> rs) ∧ (∀ n, n ∈ rt_name <$> rs → n ∉ names) ∧
  (∀ n, n ∈ all ↔ n ∈ names ∨ n ∈ rt_name <$> rs).
Proof.
  revert i names all. induction rs as [|r rs IH]; intros i names all; cbn.
  { intros [= <-]. split; [constructor|]. set_solver. }
  destruct (validate_roots (S i) rs _) as [errs all'] eqn:E. intros [= Happ <-].
  apply app_eq_nil in Happ as [Hr ->]. apply IH in E as (Hn & Hd & Ha).
  unfold validate_root in Hr. apply app_eq_nil in Hr as [Hr _].
  destruct (String.eqb_spec (rt_name r) "") as [_|_]; [done|]. case_decide as Hin; [done|].
  split; [|split].
  - constructor; [|done]. intros Hx. apply (Hd _ Hx). set_solver.
  - intros n [->|Hx]%elem_of_cons; [done|]. specialize (Hd _ Hx). set_solver.
  - intros n. rewrite Ha. set_solver.
Qed.

Lemma validate_scopes_spec i scopes rootNames names s n :
  validate_scopes i scopes rootNames names = [] → s ∈ scopes → n ∈ sc_roots s → n ∈ rootNames.
Proof.
  revert i names. induction scopes as [|s0 scopes IH]; intros i names; cbn; [by intros _ ?%elem_of_nil|].
  intros [Hs Hrest]%app_eq_nil [->|Hin]%elem_of_cons Hn; [|by eapply IH].
  unfold validate_scope in Hs. apply app_eq_nil in Hs as [_ Hs]. apply app_eq_nil in Hs as [_ Hs].
  apply app_eq_nil in Hs as [_ Hs]. apply fmap_nil_inv in Hs.
  destruct (decide (n ∈ rootNames)) as [|Hout]; [done|].
  assert (n ∈ filter (λ want, want ∉ rootNames) (sc_roots s0)) as Hf by by apply list_elem_of_filter.
  rewrite Hs in Hf. by apply elem_of_nil in Hf.
Qed.

Lemma validateTrust_spec rs scopes :
  validateTrust rs scopes = [] →
  NoDup (rt_name <$> rs) ∧ ∀ s n, s ∈ scopes → n ∈ sc_roots s → n ∈ rt_name <$> rs.
Proof.
  unfold validateTrust. destruct (validate_roots 0 rs ∅) as [errs names] eqn:E.
  intros [-> Hs]%app_eq_nil. apply validate_roots_spec in E as (Hn & _ & Ha).
  split; [done|]. intros s n Hin Hr. eapply validate_scopes_spec in Hs; [|done..]. set_solver.
Qed.

(** What a loaded policy holds. *)
Lemma LoadTrust_spec rs scopes cacheDir w p w' :
  NoDup (rt_name <$> rs) → LoadTrust rs scopes cacheDir w = (Ok p, w') →
  tp_scopes p = scopes ∧
  (∀ n, is_Some (tp_roots p !! n) ↔ n ∈ rt_name <$> rs) ∧
  (∀ n ks, tp_roots p !! n = Some ks → ks ≠ [] ∧ Forall strong_key ks) ∧
  match tp_all p with
  | None => rs = []
  | Some all => rs ≠ [] ∧ all ≠ [] ∧ ∀ k, k ∈ all ↔ ∃ n ks, tp_roots p !! n = Some ks ∧ k ∈ ks
  end.
Proof.
  intros Hn. unfold LoadTrust.
  destruct (load_roots cacheDir rs ∅ [] w) as [[[roots allPEM]|] w1] eqn:E; [|done].
  apply (load_roots_spec _ _ []) in E; [|apply loaded_nil|done].
  destruct E as (Hl & Hd & Hne & all & Hall & Hk). destruct allPEM as [|pem allPEM].
  - intros [= <- <-]. cbn. split; [done|]. split; [done|]. split; [done|]. by destruct rs.
  - unfold ParsePublicKeys. rewrite Hall. cbn. destruct all as [|k all]; [done|].
    intros [= <- <-]. cbn. split; [done|]. split; [done|]. split; [done|]. split; [by destruct rs|].
    split; [done|exact Hk].
Qed.

(** The keys of a set of roots, by name. *)
Definition keys_of (p : TrustPolicy) (names : string → Prop) (fp : string) : Prop :=
  ∃ n ks, names n ∧ tp_roots p !! n = Some ks ∧ fp ∈ fingerprints ks.

Lemma merge_roots_spec p names fp :
  fp ∈ fingerprints (merge_roots p names) ↔ keys_of p (λ n, n ∈ names) fp.
Proof.
  unfold merge_roots, keys_of. rewrite Union_spec. setoid_rewrite list_elem_of_omap. naive_solver.
Qed.

Lemma fingerprints_nonempty ks fp : fp ∈ fingerprints ks → ks ≠ [].
Proof. intros Hf ->. by apply elem_of_nil in Hf. Qed.

(** The roots a decision may use: those a restricting scope names, or all. *)
Definition admitted (os : option TrustScope) (n : string) : Prop :=
  match os with Some s => sc_roots s = [] ∨ n ∈ sc_roots s | None => True end.

(** Trust follows the declared scopes. Once a valid configuration is loaded, the
    first scope with a pattern matching the nominal repository decides, and no
    scope means the strict default: a signature is required. The keys to verify
    against are exactly those of the roots the scope names, of every root when it
    names none; the set is never empty, holds no weak key, and is absent exactly
    when no root is configured. *)
Theorem LoadTrust_decides rs scopes cacheDir w p w' repo
    (Hvalid : validateTrust rs scopes = [])
    (Hload : LoadTrust rs scopes cacheDir w = (Ok p, w')) :
  ∃ os, governing scopes repo os ∧
    dc_scope (Decide p repo) = from_option sc_name "" os ∧
    dc_allow_unsigned (Decide p repo) = from_option sc_allow_unsigned false os ∧
    match dc_keys (Decide p repo) with
    | None => rs = []
    | Some keys =>
        rs ≠ [] ∧ keys ≠ [] ∧ Forall strong_key keys ∧
        ∀ fp, fp ∈ fingerprints keys ↔ keys_of p (admitted os) fp
    end.
Proof.
  apply validateTrust_spec in Hvalid as [Hn Hknown].
  apply LoadTrust_spec in Hload as (<- & Hdom & Hne & Hall); [|done].
  assert (∀ os, (∀ n, admitted os n) → match tp_all p with None => rs = [] | Some keys =>
    rs ≠ [] ∧ keys ≠ [] ∧ Forall strong_key keys ∧
    ∀ fp, fp ∈ fingerprints keys ↔ keys_of p (admitted os) fp end) as Hwhole.
  { intros os Hos. destruct (tp_all p) as [all|]; [|done]. destruct Hall as (? & ? & Hk).
    split; [done|]. split; [done|]. split.
    { apply Forall_forall. intros k (n & ks & Hks & Hin)%Hk. apply Hne in Hks as [_ Hs].
      by eapply Forall_forall in Hs. }
    intros fp. unfold keys_of, fingerprints.
    setoid_rewrite list_elem_of_fmap. setoid_rewrite Hk. naive_solver. }
  unfold Decide. destruct (decide_scopes_governing p (tp_scopes p) repo) as (os & Hos & ->).
  exists os. split; [done|]. destruct os as [s|]; cbn; [|split; [done|split; [done|by apply (Hwhole None)]]].
  split; [done|]. split; [done|].
  destruct (sc_roots s) as [|n names] eqn:Er; [apply (Hwhole (Some s)); intros n; by left|].
  destruct Hos as (pre & post & Heq & _). assert (n ∈ rt_name <$> rs) as Hin.
  { apply (Hknown s); [rewrite Heq; set_solver|rewrite Er; left]. }
  split; [by intros ->; apply elem_of_nil in Hin|].
  assert (∀ fp, fp ∈ fingerprints (merge_roots p (n :: names)) ↔ keys_of p (admitted (Some s)) fp) as Hfp.
  { intros fp. rewrite merge_roots_spec. unfold keys_of, admitted. rewrite Er. naive_solver. }
  split; [|split; [|done]].
  2: { apply Union_Forall, Forall_forall. intros ks (m & _ & Hks)%list_elem_of_omap. by eapply Hne. }
  apply Hdom in Hin as [ks Hks]. destruct (Hne _ _ Hks) as [Hks0 _].
  destruct ks as [|k ks]; [done|]. apply (fingerprints_nonempty _ (tk_fingerprint k)), merge_roots_spec.
  exists n, (k :: ks). split; [left|]. split; [done|]. left.
Qed.
End policy.

(** * Admission under a policy *)

Section admission.
Context `{KeyLib, GoRuntime, MediaOracle}.

Lemma readManifest_cookbook root m r :
  readManifest root = inl m → r ∈ m_recipes m → ∃ repo, Path (rc_cookbook r) = Ok repo.
Proof.
  intros Hm%readManifest_valid. unfold validate in Hm. apply res_bind_Ok in Hm as (_ & _ & Hv). revert Hv.
  induction (m_recipes m) as [|r' l IH]; cbn; [by intros _ ?%elem_of_nil|].
  intros ([] & Hr & Hl)%res_bind_Ok [->|Hin]%elem_of_cons; [|by apply IH].
  unfold validateRecipe in Hr. destruct (_ || _); [done|].
  apply res_bind_Ok in Hr as (repo & Hp%wrap_err_Ok & _). eauto.
Qed.

Lemma RelaxedScopes_elem p s :
  s ∈ tp_scopes p → sc_allow_unsigned s = true → sc_name s ∈ RelaxedScopes p.
Proof.
  intros. unfold RelaxedScopes. apply list_elem_of_fmap. exists s. by rewrite list_elem_of_filter.
Qed.

(** Verification on the destination, with its own policy. *)
Definition policy_options (verify : string → string → list trustedKey → SigOutcome) (p : option TrustPolicy)
    (zone : string) (last : option ImportRecord) (allowZone allowStale : bool)
  : VerifyOptions (H := key_verifier verify) :=
  mkOptions (key_verifier verify) zone (Some (MediaTrust verify p)) last allowZone allowStale.

(** What the policy says about a recipe cleared for the push. *)
Lemma pushable_decided verify p zone last allowZone allowStale root budget rep v :
  Verify (H1 := key_verifier verify) (Some root)
    (policy_options verify p zone last allowZone allowStale) budget = Some rep →
  v ∈ Pushable rep →
  ∃ pol repo, p = Some pol ∧ Path (v_cookbook v) = Ok repo ∧
    v_scope v = dc_scope (Decide pol repo) ∧
    if v_unsigned v then
      (∃ s, governing (tp_scopes pol) repo (Some s) ∧ sc_allow_unsigned s = true ∧
        v_scope v = sc_name s ∧ v_scope v ∈ RelaxedScopes pol) ∧
      (∀ keys, dc_keys (Decide pol repo) = Some keys → verify (v_artifact_repo v) (v_digest v) keys = SigAbsent)
    else
      ∃ keys, dc_keys (Decide pol repo) = Some keys ∧
        verify (v_artifact_repo v) (v_digest v) keys = SigOk (v_fingerprint v).
Proof.
  intros Hrep Hv.
  destruct (Verify_pushable _ _ _ _ _ Hrep Hv) as (m & r & Hm & Hr & Ha & _ & _ & _ & _ & Hs & Ht).
  destruct Ha as (_ & _ & Hrepo & Hdig & _ & Hcook).
  destruct (readManifest_cookbook _ _ _ Hm Hr) as (repo & Hp).
  unfold trust_of in Hs, Ht. cbn in Hs, Ht. rewrite Hp in Hs, Ht.
  destruct p as [pol|]; cbn in Hs, Ht.
  2: { by destruct (v_unsigned v); [destruct Ht|destruct Ht as (? & ? & _)]. }
  exists pol, repo. split; [done|]. split; [by rewrite Hcook|]. split; [done|].
  destruct (v_unsigned v); [|by rewrite Hrepo, Hdig]. destruct Ht as [Hu Hk]. split.
  2: { intros keys Hkeys. rewrite Hrepo, Hdig. destruct Hk as [Hk|(keys' & Hk & ?)]; congruence. }
  unfold Decide in Hs, Hu.
  destruct (decide_scopes_governing pol (tp_scopes pol) repo) as ([s|] & Hg & Heq);
    rewrite Heq in Hs, Hu; [|done]. cbn in Hs, Hu.
  exists s. split; [done|]. split; [done|]. split; [done|]. rewrite Hs.
  destruct Hg as (pre & post & Hsc & _). apply RelaxedScopes_elem; [rewrite Hsc; set_solver|done].
Qed.
End admission.

(** * Examples *)

(** Keys written as letters: each letter of an input is the block of one Ed25519
    key, and its own encoding and hash; a signature is the key and the payload. *)
Fixpoint letters (s : string) : list string :=
  match s with EmptyString => [] | String c s => String c "" :: letters s end.
#[local] Instance demo_keys : KeyLib := {|
  pubkey := string; kind_of _ := Ed25519; pem_blocks s := (λ l, (pemTypePublicKey, l)) <$> letters s;
  parse_pkix := Some; marshal_pkix := Some; hash_sum _ s := s;
  ecdsa_verify _ _ _ := false; ed25519_verify pk payload sig := String.eqb sig (pk +:+ payload);
  rsa_verify _ _ _ := false;
|}.
Definition demo_key (l : string) : trustedKey := mkKey ("sha256:" +:+ hex_encode l) (VerifyEd25519 l).

Definition demo_roots : list TrustRoot :=
  [mkRoot "prod" "ab" "" ""; mkRoot "lab" "" "lab.pem" ""; mkRoot "net" "" "" "https://keys/net"].
Definition demo_scopes : list TrustScope :=
  [mkScope "lab" ["registry.example.com/cookbook/a*"; "lab.example.com_5000/**"] true ["lab"; "prod"];
   mkScope "rest" ["**"] false ["net"]].
Definition demo_world : KeyWorld :=
  mkKeyWorld (λ _, HttpAnswer 200 (Some "n")) {[ "lab.pem" := "bc" ]} (λ _, true).
Definition demo_policy : TrustPolicy :=
  mkPolicy (<["net" := demo_key <$> ["n"]]> (<["lab" := demo_key <$> ["b"; "c"]]>
      {["prod" := demo_key <$> ["a"; "b"]]}))
    (Some (demo_key <$> ["a"; "b"; "b"; "c"; "n"])) demo_scopes.

Lemma LoadTrust_decides_witness :
  ∃ os, governing demo_scopes "lab.example.com_5000/x/y" os ∧
    dc_scope (Decide demo_policy "lab.example.com_5000/x/y") = from_option sc_name "" os ∧
    dc_keys (Decide demo_policy "lab.example.com_5000/x/y") =
      Some (demo_key <$> ["b"; "c"; "a"]).
Proof.
  destruct (LoadTrust_decides demo_roots demo_scopes "/state/trust-cache" demo_world demo_policy
    (LoadTrust demo_roots demo_scopes "/state/trust-cache" demo_world).2 "lab.example.com_5000/x/y")
    as (os & Hg & Hs & _); [vm_compute; reflexivity..|].
  exists os. split; [exact Hg|]. split; [exact Hs|]. vm_compute. reflexivity.
Defined.

(** Without a state directory the working directory is a key cache. The loader is
    given no cache directory, joins it with the file name and hands over a path
    that is not empty, so caching is not disabled: a file of the right name in the
    working directory becomes the trust root when the key server is unreachable,
    and a fetched key is written there. *)
Theorem cwd_key_trusted :
  let root := [mkRoot "prod" "" "" "https://keys/prod"] in
  let offline := mkKeyWorld (λ _, HttpFailed) {[ "prod.pub" := "x" ]} (λ _, true) in
  let online := mkKeyWorld (λ _, HttpAnswer 200 (Some "k")) ∅ (λ _, true) in
  (LoadTrust root [] "" offline).1 = Ok (mkPolicy {[ "prod" := [demo_key "x"] ]} (Some [demo_key "x"]) []) ∧
  kw_files (LoadTrust root [] "" online).2 !! "prod.pub" = Some "k" ∧
  fetchCachedKey "https://keys/prod" "" offline = (Err RootFetch, offline).
Proof. split; [vm_compute; reflexivity|]. split; vm_compute; reflexivity. Qed.
