(* ===== verification/SigSafety.v ===== *)
(** What a signature verdict stands for: soundness of [sigverify_Verify], when a
    subject counts as unsigned, rotation of keys, the pre-authentication encoding,
    and the composition with the verification of a medium. *)

From stdpp Require Import pretty.
From S2P Require Import Prelude GoStrings Relocate MediaPaths MediaVerify MediaSafety SigKeys SigVerify Trust.

(** * The pre-authentication encoding *)

Lemma pretty_no_space (n : N) : ¬ in_str " " (pretty n : string).
Proof.
  assert (∀ x s, ¬ in_str " " s → ¬ in_str " " (pretty_N_go x s)) as Hgo.
  { intros x. induction (N.lt_wf_0 x) as [x _ IH]. intros s Hs.
    destruct (decide (0 < x)%N) as [Hx|Hx].
    - rewrite pretty_N_go_step by done. apply IH; [by apply N.div_lt|]. cbn. intros [Hc|?]; [|done].
      revert Hc. unfold pretty_N_char. by repeat case_match.
    - assert (x = 0%N) as -> by lia. by rewrite pretty_N_go_0. }
  unfold pretty, pretty_N. case_decide; [cbn; by intros [?|?]|]. apply Hgo. cbn. tauto.
Qed.

Lemma itoa_inj n m : itoa n = itoa m → n = m.
Proof. unfold itoa. intros Heq%(inj pretty). lia. Qed.

(** A length, a space, that many bytes: the rest is determined. *)
Lemma sized_inj s1 s2 r1 r2 :
  itoa (slen s1) +:+ " " +:+ s1 +:+ r1 = itoa (slen s2) +:+ " " +:+ s2 +:+ r2 → s1 = s2 ∧ r1 = r2.
Proof.
  intros Heq. change (" " +:+ ?s) with (String " " s) in Heq.
  apply cut_unique in Heq as [Hl Hr]; [|apply pretty_no_space..].
  apply itoa_inj in Hl. revert s2 Hl Hr. induction s1 as [|c s1 IH]; intros [|c' s2]; cbn; try done.
  intros [= Hl]. rewrite !sapp_cons. intros [= <- Hr]. destruct (IH _ Hl Hr) as [-> ->]. done.
Qed.

(** The pre-authentication encoding is injective: a signature over it covers one
    payload type and one payload, whatever bytes they hold. *)
Theorem preAuthEncoding_inj t1 p1 t2 p2 :
  preAuthEncoding t1 p1 = preAuthEncoding t2 p2 ↔ t1 = t2 ∧ p1 = p2.
Proof.
  split; [|by intros [-> ->]]. unfold preAuthEncoding. intros Heq.
  do 2 apply sapp_inj_l in Heq. apply sized_inj in Heq as [-> Heq]. apply sapp_inj_l in Heq.
  split; [done|]. apply (sized_inj p1 p2 "" ""). by rewrite !sapp_nil_r.
Qed.

Section safety.
Context `{KeyLib, SigCodec}.

(** * Unsigned subjects *)

(** A referring artifact that is a signature bundle. *)
Definition is_bundle (src : Manifests) (repo d : string) : Prop :=
  ∃ raw man, src_manifest src repo d = Ok raw ∧ decode_referring raw = Some man ∧
    has_prefix (rm_artifact_type man) mediaTypeBundlePrefix = true.
(** An artifact the source lists as referring to the subject. *)
Definition listed (src : Manifests) (repo digest hex d : string) : Prop :=
  d ≠ "" ∧
  ((∃ referrers, src_referrers src = Some referrers ∧ d ∈ (referrers repo digest).1) ∨
   (∃ raw idx, src_manifest src repo ("sha256-" +:+ hex) = Ok raw ∧
     decode_referrers_index raw = Some idx ∧ d ∈ sd_digest <$> idx)).

Lemma verifyOneBundle_None src repo digest d keys :
  verifyOneBundle src repo digest d keys = None ↔
  ¬ is_bundle src repo d ∧ (∀ t, src_manifest src repo d ≠ Err (SrcFailed t)).
Proof.
  unfold verifyOneBundle, is_bundle. destruct (src_manifest src repo d) as [raw|[|t]].
  - destruct (decode_referring raw) as [man|] eqn:Hd.
    2: { split; [|done]. intros _. split; [|done]. intros (? & ? & [= <-] & ? & _). congruence. }
    destruct (has_prefix _ _) eqn:Hp; cbn.
    2: { split; [|done]. intros _. split; [|done]. intros (? & ? & [= <-] & ? & ?). congruence. }
    split; [|intros [Hn _]; exfalso; eauto 6].
    destruct (rm_subject man) as [s|]; [destruct (_ && _)|]; done.
  - split; [|done]. intros _. split; [|done]. by intros (? & ? & ? & _).
  - split; [done|]. intros [_ Hn]. by destruct (Hn t).
Qed.

Lemma add_candidate_spec acc x :
  (∀ y, y ∈ acc.1 ↔ y ∈ acc.2) →
  (∀ y, y ∈ (add_candidate acc x).1 ↔ y ∈ (add_candidate acc x).2) ∧
  (∀ y, y ∈ (add_candidate acc x).1 ↔ y ∈ acc.1 ∨ x ≠ "" ∧ y = x).
Proof.
  intros Hacc. unfold add_candidate. destruct (String.eqb_spec x "") as [->|Hx]; cbn.
  { split; [done|]. intros y. tauto. }
  case_bool_decide as Hin; cbn.
  - split; [done|]. intros y. split; [tauto|]. intros [?|[_ ->]]; [done|by apply Hacc].
  - split; intros y; rewrite elem_of_app, list_elem_of_singleton, ?elem_of_union, ?elem_of_singleton, ?Hacc; tauto.
Qed.

Lemma add_candidates_spec l acc :
  (∀ y, y ∈ acc.1 ↔ y ∈ acc.2) →
  (∀ y, y ∈ (fold_left add_candidate l acc).1 ↔ y ∈ (fold_left add_candidate l acc).2) ∧
  (∀ y, y ∈ (fold_left add_candidate l acc).1 ↔ y ∈ acc.1 ∨ y ≠ "" ∧ y ∈ l).
Proof.
  revert acc. induction l as [|x l IH]; intros acc Hacc; cbn.
  { split; [done|]. intros y. rewrite elem_of_nil. tauto. }
  destruct (add_candidate_spec acc x Hacc) as [Hacc' Hel]. destruct (IH _ Hacc') as [Hinv Hall].
  split; [done|]. intros y. rewrite Hall, Hel, elem_of_cons. split; [|naive_solver].
  intros [[?|[? ->]]|[? ?]]; auto.
Qed.

Lemma bundleCandidates_elem src repo digest hex ds d :
  bundleCandidates src repo digest hex = Ok ds → d ∈ ds ↔ listed src repo digest hex d.
Proof.
  unfold bundleCandidates, listed.
  intros (l & Hl & Hds)%res_bind_Ok.
  assert (∀ x, x ∈ l ↔ ∃ referrers, src_referrers src = Some referrers ∧ x ∈ (referrers repo digest).1) as Hrefs.
  { intros x. destruct (src_referrers src) as [refs|]; [|simplify_eq; set_solver].
    assert (l = (refs repo digest).1) as ->
      by (destruct (refs repo digest) as [rl [[]|]]; by simplify_eq/=).
    split; [eauto|]. by intros (? & [= <-] & ?). }
  clear Hl. destruct (add_candidates_spec l ([], ∅)) as [Hinv Hl]; [by intros y; cbn; rewrite elem_of_nil, elem_of_empty|].
  cbn [fst] in Hl. setoid_rewrite elem_of_nil in Hl.
  destruct (src_manifest src repo _) as [raw|[]]; [| |done]; injection Hds as <-.
  - destruct (add_candidates_spec (sd_digest <$> default [] (decode_referrers_index raw)) _ Hinv) as [_ ->].
    rewrite Hl, Hrefs. split.
    + intros [[?|[? ?]]|[? Hd]]; [done|by auto|]. split; [done|]. right.
      destruct (decode_referrers_index raw) as [idx|] eqn:Hi; [|cbn in Hd; set_solver]. by exists raw, idx.
    + intros [? [?|(? & idx & [= <-] & -> & ?)]]; auto.
  - rewrite Hl, Hrefs. split; [intros [?|[? ?]]; [done|auto]|].
    intros [? [?|(? & ? & ? & _)]]; [auto|done].
Qed.

Lemma try_bundles_absent src repo digest keys ds verifiable rs :
  (∃ verifiable' rs', try_bundles src repo digest keys ds false verifiable rs =
    Exhausted (false, verifiable', rs')) ↔
  ∀ d, d ∈ ds → verifyOneBundle src repo digest d keys = None.
Proof.
  assert (∀ ds v rs v' rs', try_bundles src repo digest keys ds true v rs ≠ Exhausted (false, v', rs')) as Htrue.
  { clear. induction ds as [|d ds IH]; intros v rs v' rs'; cbn; [done|].
    destruct (verifyOneBundle src repo digest d keys) as [[]|]; try done; apply IH. }
  induction ds as [|d ds IH]; cbn.
  { split; [by intros _ d ?%elem_of_nil|]. eauto. }
  setoid_rewrite elem_of_cons. destruct (verifyOneBundle src repo digest d keys) as [a|] eqn:E.
  - split; [|intros Hall; specialize (Hall d (or_introl eq_refl)); congruence].
    intros (v' & rs' & Heq). exfalso.
    destruct a; try done; by eapply Htrue in Heq.
  - rewrite IH. split; [intros Hall x [->|?]; auto|auto].
Qed.

(** A subject counts as unsigned only when it is. The verifier answers that there
    is no signature exactly when, with at least one key and a well-formed digest,
    the signature tag does not resolve, the candidates can be enumerated, and none
    of the artifacts listed as referring to the subject is a signature bundle - each
    of them was read or is absent. A failure to read is never taken for absence. *)
Theorem absent_iff_unsigned src repo digest keys :
  sigverify_Verify src repo digest keys = SigAbsent ↔
  keys ≠ [] ∧ ∃ hex, parseSHA256Digest digest = Ok hex ∧
    src_manifest src repo (sigTag hex) = Err SrcNotFound ∧
    is_ok (bundleCandidates src repo digest hex) = true ∧
    ∀ d, listed src repo digest hex d →
      ¬ is_bundle src repo d ∧ ∀ t, src_manifest src repo d ≠ Err (SrcFailed t).
Proof.
  unfold sigverify_Verify. destruct keys as [|k keys]; [by split; [|intros [? _]]|].
  generalize (k :: keys), (ltac:(done) : k :: keys ≠ []). intros ks Hks.
  destruct (parseSHA256Digest digest) as [hex|]; [|by split; [|intros (_ & ? & ? & _)]].
  destruct (src_manifest src repo (sigTag hex)) as [raw|[]] eqn:Hm.
  - split; [|by intros (_ & ? & [= <-] & ? & _); congruence]. destruct (decode_sig_manifest raw); [|done].
    unfold verify_after_tag. intros. repeat case_match; done.
  - unfold verify_without_tag, verifyBundles.
    destruct (bundleCandidates src repo digest hex) as [ds|] eqn:Hc.
    2: { split; [done|]. intros (_ & ? & [= <-] & _ & Hok & _). by rewrite Hc in Hok. }
    pose proof (λ d, bundleCandidates_elem _ _ _ _ _ d Hc) as Hel.
    pose proof (try_bundles_absent src repo digest ks ds false []) as Habs.
    setoid_rewrite verifyOneBundle_None in Habs. setoid_rewrite Hel in Habs.
    split.
    + intros Heq. split; [done|]. exists hex. rewrite Hc. do 3 (split; [done|]). apply Habs.
      destruct (try_bundles _ _ _ _ _ _ _ _) as [| |[[[] []] rs]]; try done; eauto.
    + intros (_ & hex' & [= <-] & _ & _ & Hall). apply Habs in Hall as (v & rs & ->). done.
  - split; [done|]. intros (_ & ? & [= <-] & ? & _). congruence.
Qed.

(** * Soundness *)

(** What a key vouches for: it verifies a signature over a SimpleSigning document
    that pins the digest, or over the pre-authentication encoding of an in-toto
    statement that names it. *)
Definition pins (signed digest : string) : Prop :=
  ∃ p, decode_simple signed = Some p ∧ ss_type p = payloadType ∧ ss_digest p = digest.
Definition names (signed digest : string) : Prop :=
  ∃ payload st hex s, signed = preAuthEncoding payloadTypeInToto payload ∧
    decode_statement payload = Some st ∧ st_type st = statementType ∧
    parseSHA256Digest digest = Ok hex ∧ s ∈ st_subject st ∧
    map_bytes lower_byte (default "" (s !! "sha256")) = hex.
Definition vouches (keys : list trustedKey) (digest fp : string) : Prop :=
  ∃ k signed sig, k ∈ keys ∧ tk_fingerprint k = fp ∧ key_verify k signed sig = true ∧
    (pins signed digest ∨ names signed digest).

(** The content the source holds for a layer: the bytes hash to the layer's digest. *)
Definition holds_layer (src : Manifests) (repo : string) (layer : sigDescriptor) (blob : string) : Prop :=
  src_blob src repo (sd_digest layer) = Ok blob ∧
  parseSHA256Digest (sd_digest layer) = Ok (hex_encode (hash_sum SHA256 blob)).

(** Where a source keeps a signature made by a key over a digest. In the classic
    layout it annotates a SimpleSigning layer of the document under the digest's
    signature tag, and is made over that layer's content. *)
Definition simple_signature (src : Manifests) (repo digest : string) (k : trustedKey) : Prop :=
  ∃ hex raw layers layer blob sig,
    parseSHA256Digest digest = Ok hex ∧ src_manifest src repo (sigTag hex) = Ok raw ∧
    decode_sig_manifest raw = Some layers ∧ layer ∈ layers ∧ sd_media_type layer = MediaTypeSimpleSigning ∧
    holds_layer src repo layer blob ∧ pins blob digest ∧
    base64_decode (annotation layer) = Some sig ∧ key_verify k blob sig = true.

(** In the bundle layout the envelope is a layer of a bundle artifact that the source
    lists for the digest and that refers to no other subject. *)
Definition signs_envelope (blob digest : string) (k : trustedKey) : Prop :=
  ∃ b env payload s sig,
    decode_bundle blob = Some b ∧ sb_envelope b = Some env ∧ base64_decode (env_payload env) = Some payload ∧
    names (preAuthEncoding payloadTypeInToto payload) digest ∧ s ∈ env_signatures env ∧
    base64_decode s = Some sig ∧ key_verify k (preAuthEncoding payloadTypeInToto payload) sig = true.
Definition bundle_layer_signs (src : Manifests) (repo digest : string) (layers : list sigDescriptor)
    (k : trustedKey) : Prop :=
  ∃ layer blob, layer ∈ layers ∧ has_prefix (sd_media_type layer) mediaTypeBundlePrefix = true ∧
    holds_layer src repo layer blob ∧ signs_envelope blob digest k.
Definition artifact_signs (src : Manifests) (repo digest d : string) (k : trustedKey) : Prop :=
  ∃ raw man, src_manifest src repo d = Ok raw ∧ decode_referring raw = Some man ∧
    has_prefix (rm_artifact_type man) mediaTypeBundlePrefix = true ∧
    (∀ s, rm_subject man = Some s → sd_digest s = "" ∨ sd_digest s = digest) ∧
    bundle_layer_signs src repo digest (rm_layers man) k.
Definition bundle_signature (src : Manifests) (repo digest : string) (k : trustedKey) : Prop :=
  ∃ hex d, parseSHA256Digest digest = Ok hex ∧ listed src repo digest hex d ∧ artifact_signs src repo digest d k.

(** A key of the set with this fingerprint has signed, and the source holds the signature. *)
Definition by_key (P : trustedKey → Prop) (keys : list trustedKey) (fp : string) : Prop :=
  ∃ k, k ∈ keys ∧ tk_fingerprint k = fp ∧ P k.
Definition vouched_on (src : Manifests) (repo : string) (keys : list trustedKey) (digest fp : string) : Prop :=
  by_key (λ k, simple_signature src repo digest k ∨ bundle_signature src repo digest k) keys fp.

Lemma by_key_mono (P Q : trustedKey → Prop) keys fp : (∀ k, P k → Q k) → by_key P keys fp → by_key Q keys fp.
Proof. intros HPQ (k & ? & ? & ?%HPQ). by exists k. Qed.

Lemma vouched_on_vouches src repo keys digest fp : vouched_on src repo keys digest fp → vouches keys digest fp.
Proof.
  intros (k & Hk & Hf & [(hex & raw & layers & layer & blob & sig & _ & _ & _ & _ & _ & _ & Hp & _ & Hv)|Hb]).
  { exists k, blob, sig. auto. }
  destruct Hb as (? & ? & _ & _ & ? & ? & _ & _ & _ & _ & ? & ? & _ & _ & _ & Hs).
  destruct Hs as (? & ? & payload & ? & sig & _ & _ & _ & Hn & _ & _ & Hv).
  exists k, (preAuthEncoding payloadTypeInToto payload), sig. auto.
Qed.

Lemma try_keys_Some keys payload sig fp :
  try_keys keys payload sig = Some fp → by_key (λ k, key_verify k payload sig = true) keys fp.
Proof.
  induction keys as [|k keys IH]; cbn; [done|]. destruct (key_verify k payload sig) eqn:E.
  - intros [= <-]. exists k. split; [left|done].
  - intros (k' & ? & ?)%IH. exists k'. split; [by right|done].
Qed.

Lemma fetch_layer_Content fail src repo layer blob :
  fetch_layer fail src repo layer = Content blob → holds_layer src repo layer blob.
Proof.
  unfold fetch_layer, holds_layer. destruct (_ <? _)%Z; [done|].
  destruct (parseSHA256Digest (sd_digest layer)) as [hex|]; [|done].
  destruct (src_blob src repo (sd_digest layer)) as [bytes|[]]; [|done..].
  destruct (_ <? _)%Z; [done|]. destruct (String.eqb_spec (hex_encode (hash_sum SHA256 bytes)) hex); [|done].
  cbn. intros [= ->]. by subst.
Qed.

Lemma try_layer_sound src repo digest keys layer fp :
  try_layer src repo digest keys layer = Verified fp →
  by_key (λ k, ∃ blob sig, holds_layer src repo layer blob ∧ pins blob digest ∧
    base64_decode (annotation layer) = Some sig ∧ key_verify k blob sig = true) keys fp.
Proof.
  unfold try_layer, signaturePayload. destruct (String.eqb (annotation layer) ""); [done|].
  destruct (fetch_layer _ _ _ _) as [blob| |] eqn:Hf; [|done..]. apply fetch_layer_Content in Hf.
  destruct (decode_simple blob) as [p|] eqn:Hp; [|done].
  destruct (String.eqb_spec (ss_type p) payloadType) as [Ht|]; [cbn|done].
  destruct (String.eqb_spec (ss_digest p) digest) as [Hd|]; [cbn|done].
  destruct (base64_decode _) as [sig|]; [|done].
  destruct (try_keys keys blob sig) as [fp'|] eqn:Hk; [|done]. intros [= <-].
  apply try_keys_Some in Hk. revert Hk. apply by_key_mono. intros k Hv. exists blob, sig.
  split_and!; try done. by exists p.
Qed.

Lemma try_layers_sound src repo digest keys i layers rs seen n fp :
  try_layers src repo digest keys i layers rs seen n = Found fp →
  ∃ layer, layer ∈ layers ∧ sd_media_type layer = MediaTypeSimpleSigning ∧
    try_layer src repo digest keys layer = Verified fp.
Proof.
  revert i rs seen n. induction layers as [|l layers IH]; intros i rs seen n; cbn; [done|].
  assert (∀ i rs seen n, try_layers src repo digest keys i layers rs seen n = Found fp →
    ∃ layer, layer ∈ l :: layers ∧ sd_media_type layer = MediaTypeSimpleSigning ∧
      try_layer src repo digest keys layer = Verified fp) as IH'.
  { intros i' rs' seen' n' (layer & ? & ?)%IH. exists layer. split; [by right|done]. }
  destruct (String.eqb_spec (sd_media_type l) MediaTypeSimpleSigning); cbn; [|apply IH'].
  destruct (try_layer src repo digest keys l) eqn:E; try done; try apply IH'.
  intros [= <-]. exists l. split; [left|done].
Qed.

Lemma try_signatures_sound keys pae sigs b fp b' :
  try_signatures keys pae sigs b = (Some fp, b') →
  by_key (λ k, ∃ s sig, s ∈ sigs ∧ base64_decode s = Some sig ∧ key_verify k pae sig = true) keys fp.
Proof.
  revert b. induction sigs as [|s sigs IH]; intros b; cbn; [done|].
  assert (∀ b, try_signatures keys pae sigs b = (Some fp, b') →
    by_key (λ k, ∃ s' sig, s' ∈ s :: sigs ∧ base64_decode s' = Some sig ∧ key_verify k pae sig = true) keys fp) as IH'.
  { intros b0 Hb. apply IH in Hb. revert Hb. apply by_key_mono. intros k (s' & sig & ? & ?). exists s', sig.
    split; [by right|done]. }
  destruct (base64_decode s) as [sig|] eqn:Hs; [|apply IH'].
  destruct (try_keys keys pae sig) as [fp'|] eqn:Hk; [|apply IH']. intros [= <- _].
  apply try_keys_Some in Hk. revert Hk. apply by_key_mono. intros k Hv. exists s, sig. split; [left|done].
Qed.

Lemma verifyBundleBlob_sound blob digest keys fp :
  verifyBundleBlob blob digest keys = Verified fp → by_key (signs_envelope blob digest) keys fp.
Proof.
  unfold verifyBundleBlob, verify_statement. destruct (decode_bundle blob) as [b|] eqn:Hb; [|done].
  destruct (sb_envelope b) as [env|] eqn:Henv; [|done]. destruct (_ && _); [done|].
  destruct (String.eqb_spec (env_payload_type env) payloadTypeInToto) as [He|]; [cbn|done].
  destruct (base64_decode _) as [payload|] eqn:Hpay; [|done]. destruct (_ <? _)%Z; [done|].
  destruct (decode_statement payload) as [st|] eqn:Hst; [|done].
  destruct (String.eqb_spec (st_type st) statementType) as [Ht|]; [cbn|done].
  destruct (parseSHA256Digest digest) as [hex|] eqn:Hd; [|done].
  destruct (existsb _ _) eqn:Hs; [cbn|done]. rewrite He.
  destruct (try_signatures _ _ _ _) as [[fp'|] b'] eqn:Hk; [|by destruct b'].
  apply try_signatures_sound in Hk. intros [= <-]. revert Hk. apply by_key_mono. intros k (s & sig & ? & ? & ?).
  apply existsb_exists in Hs as (x & Hx & Heq%String.eqb_eq).
  exists b, env, payload, s, sig. split_and!; try done.
  exists payload, st, hex, x. repeat split; try done; by apply list_elem_of_In.
Qed.

Lemma try_bundle_layers_sound src repo digest keys layers b fp :
  try_bundle_layers src repo digest keys layers b = Verified fp →
  by_key (bundle_layer_signs src repo digest layers) keys fp.
Proof.
  revert b. induction layers as [|l layers IH]; intros b; cbn; [by destruct b|].
  assert (∀ b, try_bundle_layers src repo digest keys layers b = Verified fp →
    by_key (bundle_layer_signs src repo digest (l :: layers)) keys fp) as IH'.
  { intros b0 Hb. apply IH in Hb. revert Hb. apply by_key_mono. intros k (layer & blob & ? & ?). exists layer, blob.
    split; [by right|done]. }
  destruct (has_prefix (sd_media_type l) _) eqn:Hm; cbn; [|apply IH'].
  unfold bundleBlob. destruct (fetch_layer _ _ _ _) as [blob| |] eqn:Hf; [|done..]. apply fetch_layer_Content in Hf.
  destruct (verifyBundleBlob blob digest keys) eqn:E; try done; [|apply IH'].
  intros [= <-]. apply verifyBundleBlob_sound in E. revert E. apply by_key_mono. intros k Hk. exists l, blob.
  split; [left|done].
Qed.

Lemma verifyOneBundle_sound src repo digest d keys fp :
  verifyOneBundle src repo digest d keys = Some (Verified fp) → by_key (artifact_signs src repo digest d) keys fp.
Proof.
  unfold verifyOneBundle. destruct (src_manifest src repo d) as [raw|[]] eqn:Hr; [|done..].
  destruct (decode_referring raw) as [man|] eqn:Hm; [|done]. destruct (has_prefix _ _) eqn:Hp; [cbn|done].
  assert (try_bundle_layers src repo digest keys (rm_layers man) false = Verified fp →
    (∀ s, rm_subject man = Some s → sd_digest s = "" ∨ sd_digest s = digest) →
    by_key (artifact_signs src repo digest d) keys fp) as Hall.
  { intros Ht Hs. apply try_bundle_layers_sound in Ht. revert Ht. apply by_key_mono. intros k Hk. by exists raw, man. }
  destruct (rm_subject man) as [s|]; [|by intros [= ?]; apply Hall].
  destruct (String.eqb_spec (sd_digest s) "") as [He|]; cbn.
  { intros [= ?]. apply Hall; [done|]. intros ? [= <-]. by left. }
  destruct (String.eqb_spec (sd_digest s) digest); cbn; [|done].
  intros [= ?]. apply Hall; [done|]. intros ? [= <-]. by right.
Qed.

Lemma try_bundles_sound src repo digest keys ds found verifiable rs fp :
  try_bundles src repo digest keys ds found verifiable rs = Found fp →
  ∃ d, d ∈ ds ∧ verifyOneBundle src repo digest d keys = Some (Verified fp).
Proof.
  revert found verifiable rs. induction ds as [|d ds IH]; intros found verifiable rs; cbn; [done|].
  assert (∀ f v r, try_bundles src repo digest keys ds f v r = Found fp →
    ∃ d', d' ∈ d :: ds ∧ verifyOneBundle src repo digest d' keys = Some (Verified fp)) as IH'.
  { intros f v r (d' & ? & ?)%IH. exists d'. split; [by right|done]. }
  destruct (verifyOneBundle src repo digest d keys) as [[]|] eqn:E; try done; try apply IH'.
  intros [= <-]. exists d. split; [left|done].
Qed.

Lemma verifyBundles_sound src repo digest hex keys fp :
  parseSHA256Digest digest = Ok hex → verifyBundles src repo digest hex keys = Found fp →
  vouched_on src repo keys digest fp.
Proof.
  intros Hhex. unfold verifyBundles. destruct (bundleCandidates _ _ _ _) as [ds|] eqn:Hc; [|done].
  intros (d & Hd%(bundleCandidates_elem _ _ _ _ _ _ Hc) & Hb%verifyOneBundle_sound)%try_bundles_sound.
  revert Hb. apply by_key_mono. intros k Hk. right. by exists hex, d.
Qed.

Lemma verify_without_tag_sound src repo digest hex keys fp :
  parseSHA256Digest digest = Ok hex → verify_without_tag src repo digest hex keys = SigOk fp →
  vouched_on src repo keys digest fp.
Proof.
  intros Hhex. unfold verify_without_tag.
  destruct (verifyBundles src repo digest hex keys) as [fp'| |[[[] []] rs]] eqn:Hb; try done.
  intros [= <-]. by eapply verifyBundles_sound.
Qed.

Lemma verify_after_tag_sound src repo digest hex keys rs seen n fp :
  parseSHA256Digest digest = Ok hex → verify_after_tag src repo digest hex keys rs seen n = SigOk fp →
  vouched_on src repo keys digest fp.
Proof.
  intros Hhex. unfold verify_after_tag.
  destruct (verifyBundles src repo digest hex keys) as [fp'| |[[found ver] rs']] eqn:Hb; try done.
  - intros [= <-]. by eapply verifyBundles_sound.
  - destruct (_ || _); [done|]. by destruct (_ =? _)%nat.
Qed.

(** An accepted signature is on the source. *)
Lemma sigverify_Verify_found src repo digest keys fp :
  sigverify_Verify src repo digest keys = SigOk fp → vouched_on src repo keys digest fp.
Proof.
  unfold sigverify_Verify. destruct keys as [|k keys]; [done|]. generalize (k :: keys) as ks. intros ks.
  destruct (parseSHA256Digest digest) as [hex|] eqn:Hh; [|done].
  destruct (src_manifest src repo (sigTag hex)) as [raw|[]] eqn:Hr; [|by apply verify_without_tag_sound|done].
  destruct (decode_sig_manifest raw) as [layers|] eqn:Hl; [|done].
  destruct (try_layers _ _ _ _ _ _ _ _ _) as [fp'| |[[rs seen] n]] eqn:Ht; [|done|by apply verify_after_tag_sound].
  intros [= <-]. apply try_layers_sound in Ht as (layer & ? & ? & Hv%try_layer_sound).
  revert Hv. apply by_key_mono. intros k' (blob & sig & ? & ? & ? & ?). left. by exists hex, raw, layers, layer, blob, sig.
Qed.

Lemma sigverify_Verify_sound src repo digest keys fp :
  sigverify_Verify src repo digest keys = SigOk fp → vouches keys digest fp.
Proof. intros ?%sigverify_Verify_found. by eapply vouched_on_vouches. Qed.

(** * Rotation *)

(** More keys either verify, or change nothing but the fingerprints reported. *)
Definition improves (a a' : attempt) : Prop :=
  (∃ fp, a' = Verified fp) ∨ a' = a ∧ ∀ fp, a ≠ Verified fp.
Definition improved {A} (r r' : tried A) : Prop :=
  (∃ fp, r' = Found fp) ∨ r' = r ∧ ∀ fp, r ≠ Found fp.
Definition refused_alike (keys keys' : list trustedKey) (o o' : SigOutcome) : Prop :=
  match o with
  | SigOk _ => False
  | SigNoTrustedKey tried => tried = fingerprints keys ∧ o' = SigNoTrustedKey (fingerprints keys')
  | _ => o' = o
  end.

Section rotation.
Context (keys keys' : list trustedKey) (Hsub : ∀ k, k ∈ keys → k ∈ keys').

Lemma try_keys_more payload sig :
  is_Some (try_keys keys payload sig) → is_Some (try_keys keys' payload sig).
Proof.
  intros [fp (k & Hk%Hsub & _ & Hv)%try_keys_Some]. clear Hsub. induction keys' as [|k' ks IH]; cbn.
  { by apply elem_of_nil in Hk. }
  apply elem_of_cons in Hk as [<-|Hk]; [rewrite Hv; eauto|]. destruct (key_verify k' payload sig); eauto.
Qed.

Lemma try_layer_more src repo digest layer :
  improves (try_layer src repo digest keys layer) (try_layer src repo digest keys' layer).
Proof.
  unfold try_layer, improves. destruct (signaturePayload src repo layer) as [blob| |]; [|by right..].
  destruct (decode_simple blob); [|by right]. destruct (negb _); [by right|]. destruct (negb _); [by right|].
  destruct (base64_decode _) as [sig|]; [|by right]. pose proof (try_keys_more blob sig) as Hm.
  destruct (try_keys keys' blob sig); [by eauto|]. right.
  destruct (try_keys keys blob sig); [by destruct Hm; eauto|done].
Qed.

Lemma try_layers_more src repo digest i layers rs seen n :
  improved (try_layers src repo digest keys i layers rs seen n) (try_layers src repo digest keys' i layers rs seen n).
Proof.
  revert i rs seen n. induction layers as [|l layers IH]; intros i rs seen n; cbn; [by right|].
  destruct (negb _); [apply IH|].
  destruct (try_layer_more src repo digest l) as [[fp ->]|[-> Hn]]; [left; eauto|].
  destruct (try_layer src repo digest keys l) eqn:E; [by destruct (Hn fp)|apply IH..|by right].
Qed.

Lemma try_signatures_more pae sigs b :
  is_Some (try_signatures keys' pae sigs b).1 ∨
  try_signatures keys' pae sigs b = try_signatures keys pae sigs b ∧ (try_signatures keys pae sigs b).1 = None.
Proof.
  revert b. induction sigs as [|s sigs IH]; intros b; cbn; [by right|].
  destruct (base64_decode s) as [sig|]; [|apply IH]. pose proof (try_keys_more pae sig) as Hm.
  destruct (try_keys keys' pae sig); [left; cbn; eauto|].
  destruct (try_keys keys pae sig); [by destruct Hm; eauto|apply IH].
Qed.

Lemma verifyBundleBlob_more blob digest :
  improves (verifyBundleBlob blob digest keys) (verifyBundleBlob blob digest keys').
Proof.
  unfold verifyBundleBlob, verify_statement, improves. destruct (decode_bundle blob) as [b|]; [|by right].
  destruct (sb_envelope b) as [env|]; [|by right]. destruct (_ && _); [by right|]. destruct (negb _); [by right|].
  destruct (base64_decode _) as [payload|]; [|by right]. destruct (_ <? _)%Z; [by right|].
  destruct (decode_statement payload) as [st|]; [|by right]. destruct (negb _); [by right|].
  destruct (parseSHA256Digest digest) as [hex|]; [|by right]. destruct (negb _); [by right|].
  pose proof (try_signatures_more (preAuthEncoding (env_payload_type env) payload) (env_signatures env) false) as Hm.
  destruct (try_signatures keys' _ _ _) as [[fp|] b']; [by eauto|]. destruct Hm as [[? ?]|[<- _]]; [done|].
  right. by destruct b'.
Qed.

Lemma try_bundle_layers_more src repo digest layers b :
  improves (try_bundle_layers src repo digest keys layers b) (try_bundle_layers src repo digest keys' layers b).
Proof.
  revert b. induction layers as [|l layers IH]; intros b; cbn; [right; by destruct b|].
  destruct (negb _); [apply IH|]. destruct (bundleBlob src repo l) as [blob| |]; [|by right..].
  destruct (verifyBundleBlob_more blob digest) as [[fp ->]|[-> Hn]]; [left; eauto|].
  destruct (verifyBundleBlob blob digest keys); [by destruct (Hn fp)|apply IH|by right..].
Qed.

Lemma verifyOneBundle_more src repo digest d :
  match verifyOneBundle src repo digest d keys with
  | None => verifyOneBundle src repo digest d keys' = None
  | Some a => ∃ a', verifyOneBundle src repo digest d keys' = Some a' ∧ improves a a'
  end.
Proof.
  unfold verifyOneBundle. destruct (src_manifest src repo d) as [raw|[]]; [|done|eexists; split; [done|by right]].
  destruct (decode_referring raw) as [man|]; [|done]. destruct (negb _); [done|].
  destruct (rm_subject man); [destruct (_ && _)|];
    (eexists; split; [done|]); try apply try_bundle_layers_more. by right.
Qed.

Lemma verifyBundles_more src repo digest hex :
  improved (verifyBundles src repo digest hex keys) (verifyBundles src repo digest hex keys').
Proof.
  unfold verifyBundles. destruct (bundleCandidates src repo digest hex) as [ds|]; [|by right].
  assert (∀ found verifiable rs, improved (try_bundles src repo digest keys ds found verifiable rs)
    (try_bundles src repo digest keys' ds found verifiable rs)) as Hall; [|apply Hall].
  induction ds as [|d ds IH]; intros found verifiable rs; cbn; [by right|].
  pose proof (verifyOneBundle_more src repo digest d) as Hone.
  destruct (verifyOneBundle src repo digest d keys) as [a|]; [|rewrite Hone; apply IH].
  destruct Hone as (a' & -> & [[fp ->]|[-> Hn]]); [left; eauto|].
  destruct a; [by destruct (Hn fp)|apply IH..|by right].
Qed.

Lemma verify_without_tag_more src repo digest hex :
  (∃ fp, verify_without_tag src repo digest hex keys' = SigOk fp) ∨
  refused_alike keys keys' (verify_without_tag src repo digest hex keys) (verify_without_tag src repo digest hex keys').
Proof.
  unfold verify_without_tag. destruct (verifyBundles_more src repo digest hex) as [[fp ->]|[-> Hn]]; [by eauto|].
  right. destruct (verifyBundles src repo digest hex keys) as [fp| |[[[] []] rs]]; cbn; try done.
  by destruct (Hn fp).
Qed.

Lemma verify_after_tag_more src repo digest hex rs seen n :
  (∃ fp, verify_after_tag src repo digest hex keys' rs seen n = SigOk fp) ∨
  refused_alike keys keys' (verify_after_tag src repo digest hex keys rs seen n)
    (verify_after_tag src repo digest hex keys' rs seen n).
Proof.
  unfold verify_after_tag. destruct (verifyBundles_more src repo digest hex) as [[fp ->]|[-> Hn]]; [by eauto|].
  right. destruct (verifyBundles src repo digest hex keys) as [fp| |[[found ver] rs']]; cbn; [by destruct (Hn fp)|done|].
  destruct (_ || _); [done|]. by destruct (_ =? _)%nat.
Qed.
End rotation.

(** Keys rotate by overlap. Adding trust roots to a set that is not empty never
    turns an accepted signature into a refusal: with the larger set the verdict is
    an acceptance, or the very same refusal as before, except that a refusal for
    want of a trusted key names all the fingerprints now tried. *)
Theorem rotation_overlap src repo digest keys keys'
    (Hne : keys ≠ []) (Hsub : ∀ k, k ∈ keys → k ∈ keys') :
  (∃ fp, sigverify_Verify src repo digest keys' = SigOk fp) ∨
  refused_alike keys keys' (sigverify_Verify src repo digest keys) (sigverify_Verify src repo digest keys').
Proof.
  assert (keys' ≠ []) as Hne'.
  { destruct keys as [|k ks]; [done|]. intros ->. specialize (Hsub k ltac:(left)). by apply elem_of_nil in Hsub. }
  unfold sigverify_Verify. destruct keys as [|k1 ks1] eqn:E1; [done|]. destruct keys' as [|k2 ks2] eqn:E2; [done|].
  rewrite <-E1, <-E2 in *. clear Hne Hne' E1 E2.
  destruct (parseSHA256Digest digest) as [hex|]; [|by right].
  destruct (src_manifest src repo (sigTag hex)) as [raw|[]]; [|by apply verify_without_tag_more|by right].
  destruct (decode_sig_manifest raw) as [layers|]; [|by right].
  destruct (try_layers_more keys keys' Hsub src repo digest 0 layers [] false 0) as [[fp ->]|[-> Hn]]; [left; eauto|].
  destruct (try_layers src repo digest keys 0 layers [] false 0) as [fp| |[[rs seen] n]];
    [by destruct (Hn fp)|by right|by apply verify_after_tag_more].
Qed.
End safety.

(** * Composition with media verification *)

Section composition.
Context `{KeyLib, SigCodec, GoRuntime, MediaOracle}.

(** The verifier over the store being verified, under the destination's policy. *)
Definition store_verify (rd : StoreReader) (repo digest : string) (keys : list trustedKey) : SigOutcome :=
  sigverify_Verify (manifestSource rd repo) repo digest keys.
Definition destination_options (rd : StoreReader) (p : option TrustPolicy) (zone : string)
    (last : option ImportRecord) (allowZone allowStale : bool) : VerifyOptions (H := key_verifier (store_verify rd)) :=
  policy_options (store_verify rd) p zone last allowZone allowStale.

(** No signature artifact on the source: the signature tag does not resolve, and no
    artifact listed for the digest is a signature bundle. *)
Definition unsigned_on (src : Manifests) (repo digest : string) : Prop :=
  ∃ hex, parseSHA256Digest digest = Ok hex ∧ src_manifest src repo (sigTag hex) = Err SrcNotFound ∧
    ∀ d, listed src repo digest hex d → ¬ is_bundle src repo d.

Lemma no_keys_no_roots pol repo s :
  governing (tp_scopes pol) repo (Some s) → dc_keys (Decide pol repo) = None → HasRoots pol = false.
Proof.
  intros Hg. unfold Decide, HasRoots. destruct (decide_scopes_governing pol (tp_scopes pol) repo) as (o & _ & ->).
  intros Hn. apply bool_decide_eq_false. intros [all Hall]. destruct o as [s'|]; cbn in Hn; [|congruence].
  destruct (sc_roots s'); [congruence|done].
Qed.

(** C11: no bypass of signatures, end to end, on what the medium's store answers ([rd], the
    reader given to the verification). A recipe cleared for the push under the
    destination's policy has a canonical nominal repository on which the policy decided.
    Cleared as signed: a key of that decision verifies a signature held in the recipe's
    repository on the medium. It annotates a SimpleSigning layer under the digest's
    signature tag, whose stored content hashes to the layer's digest and pins the recipe's
    digest; or it is one of the envelope in a stored layer of a bundle artifact listed for
    the digest and referring to no other, whose statement names the digest. The verdict
    shows that key's fingerprint. Cleared as unsigned: the governing scope is declared,
    admits unsigned recipes, is named in the verdict and on the permanent banner, and
    either the policy has no trust root at all - then the code looks for no signature - or
    the medium holds no signature tag and no bundle for the digest. *)
Theorem cleared_is_vouched rd p zone last allowZone allowStale root budget rep v
    (Hrep : Verify (H1 := key_verifier (store_verify rd)) (Some root)
              (destination_options rd p zone last allowZone allowStale) budget = Some rep)
    (Hv : v ∈ Pushable rep) :
  let src := manifestSource rd (v_artifact_repo v) in
  ∃ pol repo, p = Some pol ∧ Path (v_cookbook v) = Ok repo ∧
    v_scope v = dc_scope (Decide pol repo) ∧
    if v_unsigned v then
      (∃ s, governing (tp_scopes pol) repo (Some s) ∧ sc_allow_unsigned s = true ∧
        v_scope v = sc_name s ∧ v_scope v ∈ RelaxedScopes pol) ∧
      (HasRoots pol = false ∨ unsigned_on src (v_artifact_repo v) (v_digest v))
    else
      ∃ keys, dc_keys (Decide pol repo) = Some keys ∧
        vouched_on src (v_artifact_repo v) keys (v_digest v) (v_fingerprint v).
Proof.
  destruct (pushable_decided _ _ _ _ _ _ _ _ _ _ Hrep Hv) as (pol & repo & Hp & Hr & Hs & Hcase).
  exists pol, repo. do 3 (split; [done|]). destruct (v_unsigned v).
  - destruct Hcase as [(s & Hg & Hrest) Habs]. split; [by exists s|].
    destruct (dc_keys (Decide pol repo)) as [keys|] eqn:Hk; [right|left; by eapply no_keys_no_roots].
    specialize (Habs keys eq_refl). apply absent_iff_unsigned in Habs as (_ & hex & ? & ? & _ & Hall).
    exists hex. split_and!; [done..|]. intros d Hd. by apply Hall.
  - destruct Hcase as (keys & Hk & Hok). exists keys. split; [done|]. by apply sigverify_Verify_found.
Qed.
End composition.

(** * Examples *)

#[local] Existing Instance demo_keys.
#[local] Existing Instance demo_oracle.

(** A medium on which the demonstration recipe is signed by key [b], in the classic
    layout, and a second subject with a bundle artifact of two layers. *)
Definition demo_payload : string := "PAYLOAD-PAYLOAD-PAYLOAD-PAYLOAD-".
Definition demo_layer : sigDescriptor :=
  mkSigDescriptor MediaTypeSimpleSigning ("sha256:" +:+ hex_encode demo_payload) 32
    {[ AnnotationSignature := "YlBBWUxPQUQtUEFZTE9BRC1QQVlMT0FELVBBWUxPQUQt" ]}.
Definition bundle_layer (d : string) : sigDescriptor :=
  mkSigDescriptor mediaTypeBundlePrefix d 32 ∅.
Definition demo_referring : referringManifest :=
  mkReferring mediaTypeBundlePrefix
    [bundle_layer ("sha256:" +:+ hex_encode demo_payload); bundle_layer "sha256:short"] None.
Definition demo_bundle : sigstoreBundle :=
  mkBundle true false false (Some (mkEnvelope "" payloadTypeInToto ["AAAA"])) false.
#[local] Instance demo_codec : SigCodec := {|
  decode_sig_manifest s := if String.eqb s "SIG" then Some [demo_layer] else None;
  decode_simple s := if String.eqb s demo_payload then Some (mkSimple "" (demo_digest "a") payloadType) else None;
  decode_referring s := if String.eqb s "BUNDLE" then Some demo_referring else None;
  decode_referrers_index s := if String.eqb s "INDEX" then Some [bundle_layer "sha256:bundle"] else None;
  decode_bundle s := if String.eqb s demo_payload then Some demo_bundle else None;
  decode_statement s := Some (mkStatement statementType [{[ "sha256" := rep64 "b" ]}]);
  located_text l := match l with AtBundle _ (DescriptorDigest _) => "bundle descriptor digest" | _ => "" end;
  fatal_text _ := "";
|}.
Definition demo_reader : StoreReader := mkReader
  (λ _ reference,
    if String.eqb reference (sigTag (rep64 "a")) then Ok "SIG"
    else if String.eqb reference ("sha256-" +:+ rep64 "b") then Ok "INDEX"
    else if String.eqb reference "sha256:bundle" then Ok "BUNDLE" else Err SrcNotFound)
  (λ _ _, Ok demo_payload).
Definition signed_report : Report :=
  default demo_report (Verify (H1 := key_verifier (store_verify demo_reader)) (Some demo_store)
    (destination_options demo_reader (Some demo_policy) "zone" None false false) None).
Definition signed_verdict : RecipeVerdict :=
  mkVerdict "app" "1.0" "registry.example.com/cookbook/app" "r" (demo_digest "a") 10 true None "sha256:62"
    "lab" false 4 14.

Lemma cleared_is_vouched_witness :
  v_unsigned signed_verdict = false ∧
  ∃ pol repo keys, Some demo_policy = Some pol ∧ Path (v_cookbook signed_verdict) = Ok repo ∧
    dc_keys (Decide pol repo) = Some keys ∧
    vouched_on (manifestSource demo_reader "r") "r" keys (demo_digest "a") (v_fingerprint signed_verdict).
Proof.
  split; [vm_compute; reflexivity|].
  destruct (cleared_is_vouched demo_reader (Some demo_policy) "zone" None false false demo_store None
    signed_report signed_verdict) as (pol & repo & Hp & Hr & _ & keys & Hk & Hv).
  - vm_compute. reflexivity.
  - assert (Pushable signed_report = [signed_verdict]) as -> by (vm_compute; reflexivity). left.
  - exists pol, repo, keys. split; [exact Hp|]. split; [exact Hr|]. split; [exact Hk|exact Hv].
Defined.

Lemma rotation_overlap_witness :
  (∃ fp, sigverify_Verify (manifestSource demo_reader "r") "r" (demo_digest "a") [demo_key "a"; demo_key "b"] = SigOk fp) ∨
  refused_alike [demo_key "a"] [demo_key "a"; demo_key "b"]
    (sigverify_Verify (manifestSource demo_reader "r") "r" (demo_digest "a") [demo_key "a"])
    (sigverify_Verify (manifestSource demo_reader "r") "r" (demo_digest "a") [demo_key "a"; demo_key "b"]).
Proof. apply (rotation_overlap (manifestSource demo_reader "r") "r" (demo_digest "a")); [done|set_solver]. Defined.

(** A well-formed bundle can be reported as malformed. When one layer of a bundle
    artifact pins the digest and no configured key signs it, and a later layer of the
    same artifact is malformed, the first is forgotten: the verdict is a malformed
    artifact and not the untrusted signature with the fingerprints tried. *)
Theorem wellformed_bundle_masked :
  verifyBundleBlob demo_payload (demo_digest "b") [demo_key "a"] = WellFormed ∧
  sigverify_Verify (manifestSource demo_reader "r") "r" (demo_digest "b") [demo_key "a"] =
    SigBad "bundle descriptor digest".
Proof. split; vm_compute; reflexivity. Qed.
