(* ===== verification/MediaRegister.v ===== *)
(** The freshness register of completed imports (internal/media/imports.go) and
    the atomic JSON writer of manifest.go it persists through. *)

From S2P Require Import Prelude GoStrings Tasks Disk TaskQueue TaskCodecRef MediaVerify.

(** [writeJSON]: a temporary file in the target directory, flushed, then renamed
    over the target; every failure removes the temporary file. *)
Definition writeJSON (tmp path data : string) (d : Disk) : bool * Disk :=
  match probe d with
  | (false, d) => (false, d)
  | (true, d) =>
      match write_file tmp "" d with
      | (false, d) => (false, d)
      | (true, d) =>
          match write_file tmp data d with
          | (false, d) => (false, (remove tmp d).2)
          | (true, d) =>
              match probe d with
              | (false, d) => (false, (remove tmp d).2)
              | (true, d) =>
                  match rename tmp path d with
                  | (false, d) => (false, (remove tmp d).2)
                  | (true, d) => (true, d)
                  end
              end
          end
      end
  end.

Definition importsFile : string := "media-imports.json".

(** [encoding/json] on the register's document. *)
Class RegisterCodec : Type := {
  write_register : gmap string ImportRecord → string;
  read_register : string → option (gmap string ImportRecord);
  read_write_register : ∀ m, read_register (write_register m) = Some m;
}.

(** [Imports]; [ip_path] tells whether there is a state directory. *)
Record Imports := mkImports { ip_path : bool; ip_records : gmap string ImportRecord }.

Inductive imports_error :=
  | ErrImportsRead | ErrImportsDecode | ErrImportsEmptyZone | ErrNoZone | ErrNoState | ErrImportsWrite.

Section register.
Context `{RegisterCodec}.

(** [OpenImports]. *)
Definition OpenImports (stateRoot : bool) (d : Disk) : res imports_error Imports * Disk :=
  if negb stateRoot then (Ok (mkImports false ∅), d)
  else match read_file importsFile d with
       | (ReadNotExist, d) => (Ok (mkImports true ∅), d)
       | (ReadFailed, d) => (Err ErrImportsRead, d)
       | (Contents raw, d) =>
           (match read_register raw with
            | None => Err ErrImportsDecode
            | Some m => match m !! "" with
                        | Some _ => Err ErrImportsEmptyZone
                        | None => Ok (mkImports true m)
                        end
            end, d)
       end.

Definition Last (zone : string) (i : Imports) : option ImportRecord := ip_records i !! zone.

(** The record [Record] stores. *)
Definition advance (previous : option ImportRecord) (rec : ImportRecord) (now : time) : ImportRecord :=
  mkImport (im_media rec)
    match previous with
    | Some p => if (im_resolved rec <? im_resolved p)%Z then im_resolved p else im_resolved rec
    | None => im_resolved rec
    end
    (if (im_imported rec =? 0)%Z then now else im_imported rec) (im_run rec).

(** [Record]; [tmp] is the name of the temporary file. *)
Definition RecordImport (tmp zone : string) (rec : ImportRecord) (now : time) (i : Imports) (d : Disk)
  : res imports_error Imports * Disk :=
  if String.eqb zone "" then (Err ErrNoZone, d)
  else if negb (ip_path i) then (Err ErrNoState, d)
  else
    let next := <[zone := advance (ip_records i !! zone) rec now]> (ip_records i) in
    match writeJSON tmp importsFile (write_register next) d with
    | (true, d) => (Ok (mkImports true next), d)
    | (false, d) => (Err ErrImportsWrite, d)
    end.

(** [Zones]. *)
Definition Zones `{GoRuntime} (i : Imports) : list string :=
  sort_slice str_ltb (map_keys (ip_records i)).

(** * Facts *)

Lemma probe_unchanged d : d_files (probe d).2 = d_files d.
Proof. unfold probe, next_fault. by destruct (d_faults d) as [|[] ?]. Qed.

Lemma write_file_other p data d q : q ≠ p → d_files (write_file p data d).2 !! q = d_files d !! q.
Proof.
  intros Hne. unfold write_file, next_fault.
  destruct (d_faults d) as [|[] ?]; cbn; by rewrite ?lookup_insert_ne.
Qed.

Lemma write_file_ok p data d : (write_file p data d).1 = true → d_files (write_file p data d).2 !! p = Some data.
Proof.
  unfold write_file, next_fault. destruct (d_faults d) as [|[] ?]; cbn; try done; by rewrite lookup_insert_eq.
Qed.

Lemma remove_other p d q : q ≠ p → d_files (remove p d).2 !! q = d_files d !! q.
Proof.
  intros Hne. pose proof (remove_spec p d) as Hs. destruct (remove p d). by apply Hs.
Qed.

(** The writer replaces the whole file or leaves it as it was. *)
Lemma writeJSON_spec tmp path data d :
  tmp ≠ path →
  let '(ok, d') := writeJSON tmp path data d in
  d_files d' !! path = (if ok then Some data else d_files d !! path).
Proof.
  intros Hne. unfold writeJSON.
  pose proof (probe_unchanged d) as H1. destruct (probe d) as [[] d1]; cbn in H1; [|by rewrite H1].
  pose proof (write_file_other tmp "" d1 path ltac:(done)) as H2.
  destruct (write_file tmp "" d1) as [[] d2]; cbn in H2; [|congruence].
  pose proof (write_file_other tmp data d2 path ltac:(done)) as H3.
  pose proof (write_file_ok tmp data d2) as H3'.
  destruct (write_file tmp data d2) as [[] d3]; cbn in H3, H3'; [|rewrite remove_other by done; congruence].
  specialize (H3' eq_refl).
  pose proof (probe_unchanged d3) as H4.
  destruct (probe d3) as [[] d4]; cbn in H4; [|rewrite remove_other by done; congruence].
  unfold rename, next_fault.
  destruct (d_faults d4) as [|[| |c] fs]; cbn; rewrite ?H4, ?H3'; cbn.
  1-2: by rewrite lookup_insert_eq.
  1-2: rewrite remove_other by done; cbn; congruence.
Qed.

(** A sequence of completed imports. *)
Inductive import_req := mkReq { rq_tmp : string; rq_zone : string; rq_record : ImportRecord; rq_now : time }.
Definition serve_import (s : Imports * Disk) (r : import_req) : Imports * Disk :=
  let '(i, d) := s in
  match RecordImport (rq_tmp r) (rq_zone r) (rq_record r) (rq_now r) i d with
  | (Ok i, d) => (i, d)
  | (Err _, d) => (i, d)
  end.

(** The latest resolution instant a register holds for a zone. *)
Definition not_older (a b : option ImportRecord) : Prop :=
  match a with
  | None => True
  | Some x => ∃ y, b = Some y ∧ (im_resolved x ≤ im_resolved y)%Z
  end.
#[export] Instance not_older_preorder : PreOrder not_older.
Proof.
  split.
  - intros [x|]; [|done]. exists x. split; [done|lia].
  - intros [x|] b c Hab Hbc; [|done]. destruct Hab as (y & -> & Hxy), Hbc as (z & -> & Hyz).
    exists z. split; [done|lia].
Qed.

Definition register_ok (i : Imports) (d : Disk) : Prop :=
  ip_path i = true ∧ ip_records i !! "" = None ∧
  match d_files d !! importsFile with
  | None => ip_records i = ∅
  | Some raw => read_register raw = Some (ip_records i)
  end.

Lemma serve_import_spec r i d :
  rq_tmp r ≠ importsFile → register_ok i d →
  let '(i', d') := serve_import (i, d) r in
  register_ok i' d' ∧ (∀ zone, not_older (Last zone i) (Last zone i')).
Proof.
  intros Htmp (Hp & He & Hf). cbn. unfold RecordImport.
  destruct (String.eqb_spec (rq_zone r) "") as [Hz|Hz].
  { split; [done|]. intros zone. reflexivity. }
  rewrite Hp. cbn. set (next := <[rq_zone r := _]> (ip_records i)).
  pose proof (writeJSON_spec (rq_tmp r) importsFile (write_register next) d Htmp) as Hw.
  destruct (writeJSON (rq_tmp r) importsFile (write_register next) d) as [[] d'].
  - split.
    + split; [done|]. split; [unfold next; cbn; by rewrite lookup_insert_ne|]. rewrite Hw.
      apply read_write_register.
    + intros zone. unfold Last, next. cbn. destruct (decide (zone = rq_zone r)) as [->|Hne].
      * rewrite lookup_insert_eq. destruct (ip_records i !! rq_zone r) as [p|]; [|done]. cbn.
        eexists. split; [done|]. cbn. destruct (Z.ltb_spec (im_resolved (rq_record r)) (im_resolved p)); lia.
      * rewrite lookup_insert_ne by done. reflexivity.
  - split; [|reflexivity]. unfold register_ok. by rewrite Hw.
Qed.

(** The register never goes backwards and survives a restart. Over any
    sequence of imports recorded one after the other, some refused by their checks
    or by the disk, the instant a later medium is compared with never decreases
    for any zone, and opening the register again gives exactly what memory holds. *)
Theorem register_monotone rs d i d1 i2 d2
    (Htmp : Forall (λ r, rq_tmp r ≠ importsFile) rs)
    (Hopen : OpenImports true d = (Ok i, d1))
    (Hserve : fold_left serve_import rs (i, d1) = (i2, d2)) (Hcalm : healthy d2) :
  (∀ zone, not_older (Last zone i) (Last zone i2)) ∧
  ∃ i3 d3, OpenImports true d2 = (Ok i3, d3) ∧ ip_records i3 = ip_records i2.
Proof.
  assert (register_ok i d1) as Hok.
  { unfold OpenImports in Hopen. cbn in Hopen. unfold register_ok, read_file, next_fault in *.
    destruct (d_faults d) as [|[| |c] fs]; cbn in Hopen; try done;
      destruct (d_files d !! importsFile) as [raw|] eqn:Hraw; cbn in Hopen;
      try (injection Hopen as <- <-; cbn; rewrite ?Hraw; done);
      destruct (read_register raw) as [m|] eqn:Hm; try done;
      destruct (m !! "") eqn:He; try done; injection Hopen as <- <-; cbn; rewrite Hraw; done. }
  clear Hopen. revert i d1 Hok Hserve. induction Htmp as [|r rs Htmp Hall IH]; intros i d1 Hok Hserve.
  - cbn in Hserve. injection Hserve as <- <-. split; [reflexivity|].
    destruct Hok as (_ & He & Hf). unfold OpenImports, read_file, next_fault. rewrite Hcalm. cbn.
    destruct (d_files d1 !! importsFile) as [raw|]; cbn; [rewrite Hf, He|]; eexists _, _;
      (split; [reflexivity|]); cbn; congruence.
  - cbn [fold_left] in Hserve. pose proof (serve_import_spec r i d1 Htmp Hok) as Hs.
    destruct (serve_import (i, d1) r) as [i1 d1']. destruct Hs as [Hok1 Hmono].
    destruct (IH i1 d1' Hok1 Hserve) as [Hmono2 Hre]. split; [|done]. intros zone. etrans; [apply Hmono|apply Hmono2].
Qed.

End register.

(** A concrete codec and run: a newer medium, then an older one deliberately
    restored. *)
#[export] Instance ImportRecord_eq_dec : EqDecision ImportRecord.
Proof. solve_decision. Defined.
#[export] Instance ImportRecord_countable : Countable ImportRecord.
Proof.
  countable_by
    (λ r : ImportRecord, [encode (im_media r); encode (im_resolved r); encode (im_imported r);
      encode (im_run r)])
    (λ l : list positive, match l with
          | [x0; x1; x2; x3] =>
              y0 ← decode x0; y1 ← decode x1; y2 ← decode x2; y3 ← decode x3;
              Some (mkImport y0 y1 y2 y3)
          | _ => None
          end).
Defined.
#[export] Program Instance ref_register_codec : RegisterCodec := {|
  write_register m := bits (encode m);
  read_register s := p ← unbits s; decode p;
|}.
Next Obligation. intros m. cbv beta. rewrite unbits_bits. cbn. by rewrite decode_encode. Qed.

Definition demo_imports : list import_req :=
  [mkReq ".tmp-1" "zone" (mkImport "new" 20 0 "") 30; mkReq ".tmp-2" "zone" (mkImport "old" 10 0 "") 31].

Lemma register_monotone_witness :
  not_older None (Last "zone" (mkImports true ∅)) ∧
  ∃ i3 d3, OpenImports true (fold_left serve_import demo_imports (mkImports true ∅, mkDisk ∅ [])).2 =
    (Ok i3, d3) ∧ im_resolved <$> Last "zone" i3 = Some 20%Z.
Proof.
  split; [exact I|].
  destruct (register_monotone demo_imports (mkDisk ∅ []) (mkImports true ∅) (mkDisk ∅ [])
    (fold_left serve_import demo_imports (mkImports true ∅, mkDisk ∅ [])).1
    (fold_left serve_import demo_imports (mkImports true ∅, mkDisk ∅ [])).2) as (_ & i3 & d3 & Ho & Hr).
  - repeat constructor; discriminate.
  - reflexivity.
  - vm_compute. reflexivity.
  - vm_compute. reflexivity.
  - exists i3, d3. split; [exact Ho|]. unfold Last. rewrite Hr. vm_compute. reflexivity.
Defined.
