(* ===== verification/MediaGate.v ===== *)
(** The serving gate of a destination instance (internal/mediagate): the content
    surfaces stay closed until a verification of the medium, in this process,
    reached the pushable verdict. *)

From stdpp Require Import pretty.
From S2P Require Import Prelude GoStrings Relocate Taxonomy Tasks TaskQueue MediaPaths MediaVerify MediaSafety.

Definition Screen : string := "/media".

(** [media.Progress], as far as the gate reads it. *)
Record Progress := mkProgress { pg_stage : string; pg_bytes : Z; pg_total_bytes : Z }.
Definition StageManifest : string := "manifest".

(** [Failure]: a run without a verdict, its parameters rendered with [%v]. *)
Record Failure := mkFailure { fl_code : Code; fl_params : gmap string string }.
Definition param_text (v : pval) : string := match v with PStr s => s | PInt z => pretty z end.
(** [Failure.Error]. *)
Definition FailureError (f : Failure) : option TaxError :=
  match Lookup (fl_code f) with
  | None => New CodeInternal ∅
  | Some _ => New (fl_code f) (PStr <$> fl_params f)
  end.

(** [Gate]: its fixed part and the fields under its lock, the instants apart. *)
Record Gate := mkGate {
  g_guarded : bool; g_root : string; g_zone : string; g_media_id : string; g_verify : bool;
  g_running : bool; g_progress : Progress; g_report : option Report; g_failure : option Failure }.

(** [Open]; [medium] tells whether the store carries a manifest, [id] the
    identity it states when it can be read. *)
Definition OpenGate (root zone : string) (medium : bool) (id : option string) : Gate :=
  let guarded := negb (String.eqb zone "") && medium in
  mkGate guarded root zone (if guarded then default "" id else "") false false
    (mkProgress "" 0 0) None None.

Definition SetVerify (g : Gate) : Gate :=
  mkGate (g_guarded g) (g_root g) (g_zone g) (g_media_id g) true (g_running g) (g_progress g)
    (g_report g) (g_failure g).

Definition cleared (g : Gate) : bool :=
  match g_report g with Some r => bool_decide (rep_verdict r = VerdictPushable) | None => false end.
Definition Serving (g : Gate) : bool := if negb (g_guarded g) then true else cleared g.

(** [Observe]. *)
Definition Observe (rep : option Report) (g : Gate) : Gate :=
  match rep with
  | None => g
  | Some _ =>
      mkGate (g_guarded g) (g_root g) (g_zone g) (g_media_id g) (g_verify g) (g_running g)
        (g_progress g) rep None
  end.

(** [Start]: the refusal, if any, and the gate; the run itself goes on in the
    background. *)
Definition Start (g : Gate) : option TaxError * Gate :=
  if String.eqb (g_zone g) "" || negb (g_verify g) then
    (New CodeConfigInvalid
       (<["detail" := PStr ("this instance holds no transported medium to verify (FR-052): " +:+
          "set " +:+ quoted "zone:" +:+
          " to the identity of the zone it serves, and point storage.root at the medium")]> ∅), g)
  else if g_running g then
    (New CodeMediaVerificationRunning (<["stage" := PStr (pg_stage (g_progress g))]> ∅), g)
  else
    (None, mkGate (g_guarded g) (g_root g) (g_zone g) (g_media_id g) (g_verify g) true
             (mkProgress StageManifest 0 0) (g_report g) (g_failure g)).

(** [failureOf]. *)
Definition failureOf (e : GoErr) : Failure :=
  match ge_tax e with
  | Some te => mkFailure (te_code te) (param_text <$> te_params te)
  | None => mkFailure CodeInternal ∅
  end.

(** The critical section at the end of [run]; the observation of the report
    follows as a section of its own. *)
Definition run_done (err : option GoErr) (g : Gate) : Gate :=
  mkGate (g_guarded g) (g_root g) (g_zone g) (g_media_id g) (g_verify g) false (g_progress g)
    (g_report g) (match err with Some e => Some (failureOf e) | None => g_failure g end).

(** [run], with no other goroutine in between. *)
Definition run (outcome : res GoErr (option Report)) (g : Gate) : Gate :=
  match outcome with
  | Ok rep => Observe rep (run_done None g)
  | Err e => run_done (Some e) g
  end.

Definition onProgress (p : Progress) (g : Gate) : Gate :=
  mkGate (g_guarded g) (g_root g) (g_zone g) (g_media_id g) (g_verify g) (g_running g) p
    (g_report g) (g_failure g).

(** [Status.Percent], on 64-bit integers; [progress] is that of the run in
    flight, if any. *)
Definition Percent (progress : option Progress) : Z :=
  match progress with
  | None => 0
  | Some p =>
      if (pg_total_bytes p <=? 0)%Z then 0
      else
        let pct := quot64 (mul64 (pg_bytes p) 100) (pg_total_bytes p) in
        if (pct <? 0)%Z then 0 else if (100 <? pct)%Z then 100 else pct
  end.

Definition status_progress (g : Gate) : option Progress :=
  if g_running g then Some (g_progress g) else None.

Definition verdict_text (v : Verdict) : string :=
  match v with
  | VerdictPushable => "pushable" | VerdictPartial => "partial" | VerdictBlocked => "blocked"
  end.

(** [Refusal]: the outer [None] is the panic of an unknown code. *)
Definition Refusal (surface : string) (g : Gate) : option (option TaxError) :=
  if negb (g_guarded g) then Some None
  else if cleared g then Some None
  else
    let id := if String.eqb (g_media_id g) "" then g_root g else g_media_id g in
    match g_report g with
    | Some r =>
        Some <$> New CodeMediaNotCleared
          (list_to_map [("surface", PStr surface); ("media", PStr id);
             ("verdict", PStr (verdict_text (rep_verdict r))); ("screen", PStr Screen)])
    | None =>
        Some <$> New CodeMediaUnverified
          (list_to_map [("surface", PStr surface); ("media", PStr id); ("screen", PStr Screen)])
    end.

(** [Guard]: what a request to a content surface gets. *)
Inductive answer := Served | RefusedWith (e : TaxError) | Crashed.
Definition Guard (surface : string) (g : Gate) : answer :=
  if negb (g_guarded g) then Served
  else match Refusal surface g with
       | None => Crashed
       | Some None => Served
       | Some (Some e) => RefusedWith e
       end.

(** [ReadyDetail]. *)
Definition ReadyDetail (g : Gate) : string :=
  if negb (g_guarded g) then ""
  else if Serving g then ""
  else "media " +:+ g_media_id g +:+
    " is not verified: /v2/ and /files/ are closed until it is (FR-054) — see " +:+ Screen.

(** * Histories *)

(** The critical sections of the gate, in the order they happen. *)
Inductive gate_event :=
  | EObserve (rep : option Report)
  | EStart
  | ERunDone (err : option GoErr)
  | EProgress (p : Progress)
  | ESetVerify.
Definition gate_step (g : Gate) (e : gate_event) : Gate :=
  match e with
  | EObserve rep => Observe rep g
  | EStart => (Start g).2
  | ERunDone err => run_done err g
  | EProgress p => onProgress p g
  | ESetVerify => SetVerify g
  end.

(** The last report a history observed. *)
Definition last_observed (es : list gate_event) : option Report :=
  fold_left (λ r e, match e with EObserve (Some rep) => Some rep | _ => r end) es None.

Lemma gate_history es g r :
  g_report g = r →
  let g' := fold_left gate_step es g in
  g_guarded g' = g_guarded g ∧
  g_report g' = fold_left (λ r e, match e with EObserve (Some rep) => Some rep | _ => r end) es r.
Proof.
  cbn. revert g r. induction es as [|e es IH]; intros g r Hr; cbn [fold_left]; [done|].
  set (r' := match e with EObserve (Some rep) => Some rep | _ => r end).
  assert (g_report (gate_step g e) = r' ∧ g_guarded (gate_step g e) = g_guarded g) as [Hr' Hg].
  { unfold r'. destruct e as [[rep|]| |err|p|]; cbn; try done.
    unfold Start. by repeat case_match. }
  destruct (IH _ _ Hr') as [-> ->]. done.
Qed.

(** C7: the gate serves exactly what was cleared. After any history of observed
    verdicts, started, failed and finished runs, a guarded instance serves
    precisely when the last verdict observed is pushable, and any other request
    gets a refusal that names the surface: unverified before the first verdict,
    not cleared after a verdict that is not pushable. An unguarded one always
    serves. *)
Theorem gate_serves_cleared root zone medium id es surface :
  let g := fold_left gate_step es (OpenGate root zone medium id) in
  match Guard surface g with
  | Served =>
      zone = "" ∨ medium = false ∨
      ∃ rep, last_observed es = Some rep ∧ rep_verdict rep = VerdictPushable
  | RefusedWith e =>
      zone ≠ "" ∧ medium = true ∧ te_params e !! "surface" = Some (PStr surface) ∧
      match last_observed es with
      | None => te_code e = CodeMediaUnverified
      | Some rep => te_code e = CodeMediaNotCleared ∧ rep_verdict rep ≠ VerdictPushable
      end
  | Crashed => False
  end ∧ (Guard surface g = Served ↔ Serving g = true).
Proof.
  cbn. destruct (gate_history es (OpenGate root zone medium id) None eq_refl) as [Hg Hr].
  fold (last_observed es) in Hr. set (g := fold_left gate_step es _) in *. clearbody g.
  assert (g_guarded g = negb (String.eqb zone "") && medium) as Hgd by done.
  unfold Guard, Serving, Refusal, cleared. rewrite Hgd, Hr.
  destruct (String.eqb_spec zone "") as [->|Hz]; [split; [by left|done]|].
  destruct medium; [|split; [by right; left|done]]. cbn [negb andb].
  assert (∀ p, New CodeMediaNotCleared p = Some (mkTaxError CodeMediaNotCleared p "" None)) as Hn by done.
  assert (∀ p, New CodeMediaUnverified p = Some (mkTaxError CodeMediaUnverified p "" None)) as Hu by done.
  destruct (last_observed es) as [rep|].
  - destruct (bool_decide _) eqn:Hp; [apply bool_decide_eq_true in Hp|apply bool_decide_eq_false in Hp].
    + split; [right; right; eauto|done].
    + rewrite Hn. split; [|done]. split; [done|]. split; [done|]. split; [|done].
      cbn [te_params]. apply lookup_insert_eq.
  - rewrite Hu. split; [|done]. split; [done|]. split; [done|]. split; [|done].
    cbn [te_params]. apply lookup_insert_eq.
Qed.

(** Progress is a percentage and runs never overlap. Whatever volumetry the
    medium declares, and even when the product wraps around, the percentage is
    between 0 and 100; and while a run is in flight another one is refused without
    touching the gate. *)
Theorem percent_bounds_and_exclusion p g :
  (0 ≤ Percent p ≤ 100)%Z ∧
  (g_running g = true → (Start g).2 = g ∧ is_Some (Start g).1).
Proof.
  split.
  - unfold Percent. destruct p as [p|]; [|lia]. repeat case_match; rewrite ?Z.ltb_ge in *; lia.
  - intros Hr. unfold Start. rewrite Hr. destruct (_ || _); (split; [done|]); by eexists.
Qed.

(** * A medium that is served although part of it never verified *)

Definition evil_blob : string := blobPath (rep64 "e").
Definition gap_manifest : Manifest :=
  mkManifest 1 1 "media" "zone" "dev" "" 10 11 []
    [mkFile recipesFile 5 ("sha256:" +:+ rep64 "c"); mkFile evil_blob 4 (demo_digest "e")]
    (mkTotals 2 9).
Definition gap_store : node :=
  store_of [(recipesFile, "graph"); (evil_blob, "EVIL"); (ManifestPath, "MANIFEST")].

(** A pushable verdict does not mean the medium came out whole. Only content
    some recipe reaches is re-hashed; here an inventoried blob whose bytes do not
    match its declared digest is reached by no recipe, the verdict is pushable,
    and the gate opens every content surface on it. *)
Theorem unreached_content_served :
  let oracle := demo_oracle_for gap_manifest in
  let report := Verify (H0 := oracle) (Some gap_store)
    (mkOptions demo_verifier "zone" None None false false) None in
  (rep_verdict <$> report) = Some VerdictPushable ∧
  (r_code <$> (checkUncached (H0 := oracle) gap_store (inventory_map gap_manifest) evil_blob ""
     (mkChecker ∅ ∅ 0 0 None)).1) = Some CodeMediaFileDigest ∧
  Guard "/v2/" (gate_step (OpenGate "/store" "zone" true (Some "media")) (EObserve report)) = Served.
Proof. split; [vm_compute; reflexivity|]. split; vm_compute; reflexivity. Qed.
