(* ===== verification/StoreMeta.v ===== *)
(** The store's bookkeeping (internal/store/meta.go): the provenance ledger and
    the recipe graph, with the operations on them.  The ledgers are the parsed
    documents; reading and writing a document may fail, which is an argument of
    every operation. *)

From S2P Require Import Prelude GoStrings Tasks.

(** Every call of the store that can fail, so that a theorem quantifies over
    which ones do. *)
Inductive store_op :=
  | OpReadProvenance | OpWriteProvenance | OpReadRecipes | OpWriteRecipes
  | OpRepositories | OpRepository (name : string) | OpTags (name : string)
  | OpTagGet (name tag : string) | OpManifests (name : string) | OpManifestGet (name d : string)
  | OpReadRevisions (name : string) | OpReadLayers (name : string)
  | OpRemoveRevision (name d : string) | OpRemoveLayer (name d : string)
  | OpReadBlobs | OpReadPrefix (prefix : string) | OpRemoveBlob (d : string)
  | OpUntag (name tag : string) | OpRemoveRepository (name : string)
  | OpManifestExists (name d : string) | OpBlobGet (name d : string).
(** Which calls fail, and which names the distribution library's
    [reference.WithName] accepts. *)
Class StoreIO : Type := { io_fail : store_op → bool; name_ok : string → bool }.

Inductive store_error :=
  | ErrIO (op : store_op) | ErrNotFound | ErrRecipeManaged (repo : string) (recipes : list string).

(** [ProvenanceClass] and [Provenance]. *)
Inductive ProvenanceClass := ProvenanceRecipe | ProvenanceUnitImport | ProvenanceSeed | ProvenanceOther (s : string).
#[export] Instance ProvenanceClass_eq_dec : EqDecision ProvenanceClass.
Proof. solve_decision. Defined.
Record Provenance := mkProvenance {
  pv_class : ProvenanceClass; pv_origin : string; pv_recipe : string; pv_version : string;
  pv_run : string; pv_recorded : time }.
Definition OriginLocalPack : string := "local-pack".

(** [IngredientRecord] and [RecipeRecord]. *)
Record IngredientRecord := mkIngredientRecord {
  ir_name : string; ir_kind : string; ir_repo : string; ir_tag : string; ir_digest : string }.
Record RecipeRecord := mkRecipeRecord {
  rr_name : string; rr_version : string; rr_cookbook : string; rr_artifact_repo : string;
  rr_artifact_tag : string; rr_digest : string; rr_run : string; rr_zone : string;
  rr_resolved : time; rr_verified : bool; rr_scope : string; rr_ingredients : list IngredientRecord }.

Record Meta := mkMeta { mt_provenance : gmap string Provenance; mt_recipes : gmap string RecipeRecord }.

Definition recipeKey (name version : string) : string := name +:+ "@" +:+ version.

Section meta.
Context `{GoRuntime, StoreIO}.

Definition io (op : store_op) : res store_error unit := if io_fail op then Err (ErrIO op) else Ok tt.

(** [SetProvenance]: the latest writer is the truth. *)
Definition SetProvenance (repo : string) (p : Provenance) (now : time) (m : Meta) : res store_error Meta :=
  _ ← io OpReadProvenance;
  _ ← io OpWriteProvenance;
  let p := mkProvenance (pv_class p) (pv_origin p) (pv_recipe p) (pv_version p) (pv_run p)
             (if (pv_recorded p =? 0)%Z then now else pv_recorded p) in
  Ok (mkMeta (<[repo := p]> (mt_provenance m)) (mt_recipes m)).

(** [MarkManualImport]. *)
Definition MarkManualImport (repo : string) (now : time) (m : Meta) : res store_error Meta :=
  SetProvenance repo (mkProvenance ProvenanceUnitImport OriginLocalPack "" "" "" 0) now m.

(** [ProvenanceOf]: absent, or unreadable, means no record. *)
Definition ProvenanceOf (repo : string) (m : Meta) : option Provenance :=
  if io_fail OpReadProvenance then None else mt_provenance m !! repo.

(** [dropProvenance]. *)
Definition dropProvenance (repo : string) (m : Meta) : res store_error Meta :=
  _ ← io OpReadProvenance;
  match mt_provenance m !! repo with
  | None => Ok m
  | Some _ =>
      _ ← io OpWriteProvenance;
      Ok (mkMeta (delete repo (mt_provenance m)) (mt_recipes m))
  end.

(** [PutRecipeRecord], [DeleteRecipeRecord] and [RecipeRecords]. *)
Definition PutRecipeRecord (r : RecipeRecord) (m : Meta) : res store_error Meta :=
  _ ← io OpReadRecipes;
  _ ← io OpWriteRecipes;
  Ok (mkMeta (mt_provenance m) (<[recipeKey (rr_name r) (rr_version r) := r]> (mt_recipes m))).
Definition DeleteRecipeRecord (name version : string) (m : Meta) : res store_error Meta :=
  _ ← io OpReadRecipes;
  _ ← io OpWriteRecipes;
  Ok (mkMeta (mt_provenance m) (delete (recipeKey name version) (mt_recipes m))).
Definition RecipeRecords (m : Meta) : res store_error (list RecipeRecord) :=
  _ ← io OpReadRecipes; Ok (map_values (mt_recipes m)).

(** [ManagingRecipes]: an unreadable graph names no recipe. *)
Definition manages (repo : string) (r : RecipeRecord) : bool :=
  existsb (λ i, String.eqb (ir_repo i) repo) (rr_ingredients r).
Definition ManagingRecipes (repo : string) (m : Meta) : list string :=
  match RecipeRecords m with
  | Err _ => []
  | Ok records => (λ r, recipeKey (rr_name r) (rr_version r)) <$> filter (λ r, manages repo r = true) records
  end.
End meta.
