(* ===== verification/MediaWrite.v ===== *)
(** The production of a medium's manifest (internal/media/manifest.go) and what a
    store says about itself without being verified (describe.go). The tree is that
    of [MediaVerify]; how each directory answers when it is listed is a parameter,
    so that one may be gone by then. *)

From S2P Require Import Prelude GoStrings Relocate Taxonomy Tasks MediaPaths TaskQueue TaskCodecRef MediaVerify MediaSafety StoreMeta.

(** What listing a directory answers. *)
Inductive listing := Listed | ListGone | ListFailed.

Inductive inventory_error := InvCanceled | InvList (p : string) | InvRead (p : string).
Inductive write_error :=
  | WriteFormatRead | WriteFormatDecode | WriteRecords (e : store_error)
  | WriteInventory (sub : string) (e : inventory_error) | WriteDocument.

(** * The inventory *)

(** The walk's accumulator: the files, the totals, and how many times [ctx.Err()]
    still answers nil. *)
Record inventory := mkInventory { iv_files : list InvFile; iv_totals : Totals; iv_budget : option nat }.

(** How a walk ends. *)
Inductive walk_end := WalkOn | WalkSkipAll | WalkFail (e : inventory_error).

Definition inv_ctx_err (s : inventory) : bool * inventory :=
  match iv_budget s with
  | None => (false, s)
  | Some 0 => (true, s)
  | Some (S n) => (false, mkInventory (iv_files s) (iv_totals s) (Some n))
  end.

Section inventory.
Context `{MediaOracle} (list_dir : string → listing).

(** [hashFile], on a file that reads: the entry of one file. *)
Definition file_entry (p data : string) : InvFile :=
  mkFile p (Z.of_nat (slen data)) ("sha256:" +:+ sha256hex data).
Definition add_file (p data : string) (s : inventory) : inventory :=
  mkInventory (iv_files s ++ [file_entry p data])
    (mkTotals (add64 (to_files (iv_totals s)) 1)
              (add64 (to_bytes (iv_totals s)) (Z.of_nat (slen data)))) (iv_budget s).

(** [filepath.WalkDir] with the callback of [inventoryOf]: the callback sees every
    entry, then a directory that does not list is handed to it again. *)
Fixpoint inventory_walk (n : node) (p : string) (s : inventory) : walk_end * inventory :=
  let '(canceled, s) := inv_ctx_err s in
  if canceled then (WalkFail InvCanceled, s)
  else
    match n with
    | Special => (WalkOn, s)
    | Regular data => (WalkOn, if negb (covered p) then s else add_file p data s)
    | Broken _ => (if negb (covered p) then WalkOn else WalkFail (InvRead p), s)
    | Dir entries =>
        match list_dir p with
        | ListGone => (WalkSkipAll, s)
        | ListFailed => (WalkFail (InvList p), s)
        | Listed =>
            (fix loop (entries : list (string * node)) (s : inventory) : walk_end * inventory :=
               match entries with
               | [] => (WalkOn, s)
               | (name, sub) :: entries =>
                   match inventory_walk sub (p +:+ "/" +:+ name) s with
                   | (WalkOn, s) => loop entries s
                   | stop => stop
                   end
               end) entries s
        end
    end.

(** The loop over the covered roots; a root that is not there ends its own walk. *)
Fixpoint inventory_roots (root : node) (subs : list string) (s : inventory) : res write_error inventory :=
  match subs with
  | [] => Ok s
  | sub :: subs =>
      match node_at root sub with
      | None => inventory_roots root subs s
      | Some n =>
          match inventory_walk n sub s with
          | (WalkFail e, _) => Err (WriteInventory sub e)
          | (_, s) => inventory_roots root subs s
          end
      end
  end.

(** [inventoryOf]. *)
Definition inventoryOf `{GoRuntime} (root : node) (budget : option nat) : res write_error (list InvFile * Totals) :=
  s ← inventory_roots root coveredRoots (mkInventory [] (mkTotals 0 0) budget);
  Ok (sort_slice (λ a b, str_ltb (f_path a) (f_path b)) (iv_files s), iv_totals s).
End inventory.

(** * The document *)

(** [recipesOf]. *)
Definition ingredient_of (i : IngredientRecord) : Ingredient :=
  mkIngredient (ir_name i) (ir_kind i) (ir_repo i) (ir_tag i) (ir_digest i).
Definition recipe_of `{GoRuntime} (r : RecipeRecord) : Recipe :=
  mkRecipe (rr_name r) (rr_version r) (rr_cookbook r) (rr_artifact_repo r) (rr_artifact_tag r)
    (rr_digest r) (rr_resolved r)
    (sort_slice (λ a b, str_ltb (in_name a) (in_name b)) (ingredient_of <$> rr_ingredients r)).
Definition recipe_less (a b : Recipe) : bool :=
  if negb (String.eqb (rc_name a) (rc_name b)) then str_ltb (rc_name a) (rc_name b)
  else str_ltb (rc_version a) (rc_version b).
Definition recipesOf `{GoRuntime} (records : list RecipeRecord) : list Recipe :=
  sort_slice recipe_less (recipe_of <$> records).

(** [encoding/json] on the manifest and on the format file. *)
Class ManifestCodec `{MediaOracle} : Type := {
  encode_manifest : Manifest → string;
  decode_format : string → option Z;
  decode_encode_manifest : ∀ m, decode_manifest (encode_manifest m) = Some m;
}.

(** [WriteOptions], with the build's version and the clock. *)
Record WriteOptions := mkWriteOptions {
  wo_zone : string; wo_run : string; wo_resolved : time; wo_version : string; wo_now : time }.

Definition formatFile : string := "meta/format.json".

Section write.
Context `{GoRuntime, ManifestCodec} (list_dir : string → listing).

(** [readStoreFormat]. *)
Definition readStoreFormat (root : node) : res write_error Z :=
  match node_at root formatFile with
  | Some (Regular raw) => match decode_format raw with Some v => Ok v | None => Err WriteFormatDecode end
  | _ => Err WriteFormatRead
  end.

(** The document [Write] assembles. *)
Definition document (storeFormat : Z) (mediaID : string) (opts : WriteOptions) (records : list RecipeRecord)
    (inv : list InvFile * Totals) : Manifest :=
  mkManifest ManifestFormat storeFormat mediaID (wo_zone opts) (wo_version opts) (wo_run opts)
    (if (wo_resolved opts =? 0)%Z then wo_now opts else wo_resolved opts) (wo_now opts)
    (recipesOf records) inv.1 inv.2.

(** [Write]; [saved] tells whether [writeJSON] succeeds, which cannot be when a
    directory stands at the manifest's place. *)
Definition Write (root : node) (mediaID : string) (records : res store_error (list RecipeRecord))
    (opts : WriteOptions) (budget : option nat) (saved : bool) : res write_error Manifest * node :=
  match
    storeFormat ← readStoreFormat root;
    rs ← wrap_err WriteRecords records;
    inv ← inventoryOf list_dir root budget;
    Ok (document storeFormat mediaID opts rs inv)
  with
  | Err e => (Err e, root)
  | Ok m =>
      if saved && match node_at root ManifestPath with Some (Dir _) => false | _ => true end
      then (Ok m, put_path (split_byte "/" ManifestPath) (encode_manifest m) root)
      else (Err WriteDocument, root)
  end.
End write.

(** * What a store says about itself *)

(** [IsMedium]; no directory is [None]. *)
Definition IsMedium (store : option node) : bool :=
  match store with
  | Some root => match node_at root ManifestPath with Some (Regular _) | Some (Broken _) => true | _ => false end
  | None => false
  end.

(** [ReadManifest]: an absent directory is a missing manifest. *)
Definition ReadManifest `{GoRuntime, MediaOracle} (store : option node) : Manifest + Block :=
  match store with
  | None => inr (mkBlock CodeMediaManifestMissing (sp [("path", ManifestPath)]) false false)
  | Some root => readManifest root
  end.

(** * Trees *)

(** Induction on trees, through the lists of entries. *)
Lemma node_tree_ind (P : node → Prop) :
  (∀ data, P (Regular data)) → (∀ size, P (Broken size)) → P Special →
  (∀ entries, Forall (λ e, P e.2) entries → P (Dir entries)) → ∀ n, P n.
Proof.
  intros Hr Hb Hs Hd. fix IH 1. intros [data|size| |entries]; [apply Hr|apply Hb|apply Hs|].
  apply Hd. induction entries as [|[name sub] entries IHe]; constructor; [apply IH|apply IHe].
Qed.

(** A tree as a file system has it: in every directory the names are distinct and
    are single path elements. *)
#[warnings="-register-all"]
Inductive tree_ok : node → Prop :=
  | tree_ok_regular data : tree_ok (Regular data)
  | tree_ok_broken size : tree_ok (Broken size)
  | tree_ok_special : tree_ok Special
  | tree_ok_dir entries :
      NoDup entries.*1 → Forall (λ e, ¬ in_str "/" e.1 ∧ tree_ok e.2) entries → tree_ok (Dir entries).

Lemma find_entry_elem name entries n :
  NoDup entries.*1 → find_entry name entries = Some n ↔ (name, n) ∈ entries.
Proof.
  induction entries as [|[name' n'] entries IH]; cbn; [by split; [|intros ?%elem_of_nil]|].
  rewrite NoDup_cons, elem_of_cons. intros [Hnot Hnd]. destruct (String.eqb_spec name' name) as [->|Hne].
  - split; [intros [= ->]; auto|]. intros [[= ->]|Hin]; [done|].
    destruct Hnot. apply list_elem_of_fmap. by exists (name, n).
  - rewrite IH by done. split; [auto|]. by intros [[= -> ->]|].
Qed.

(** The path of a node below another. *)
Definition below_path (p : string) (segs : list string) : string := join "/" (p :: segs).

Lemma below_path_nil p : below_path p [] = p.
Proof. done. Qed.
Lemma below_path_cons p s segs : below_path p (s :: segs) = below_path (p +:+ "/" +:+ s) segs.
Proof. unfold below_path. destruct segs; cbn [join]; by rewrite ?sapp_assoc. Qed.

Lemma find_node_app segs1 segs2 n : find_node (segs1 ++ segs2) n = find_node segs1 n ≫= find_node segs2.
Proof.
  revert n. induction segs1 as [|s segs1 IH]; intros n; cbn; [done|].
  destruct n as [| | |entries]; try done. destruct (find_entry s entries) as [m|]; cbn; [apply IH|done].
Qed.

Lemma tree_ok_segs n segs m :
  tree_ok n → find_node segs n = Some m → Forall (λ s, ¬ in_str "/" s) segs ∧ tree_ok m.
Proof.
  revert n. induction segs as [|s segs IH]; intros n Hok; cbn; [by intros [= <-]|].
  destruct n as [| | |entries]; try done. inversion Hok as [| | |? Hnd Hall]; subst.
  destruct (find_entry s entries) as [sub|] eqn:E; [cbn|done]. intros Hf.
  apply find_entry_elem in E; [|done]. eapply Forall_forall in Hall as [Hs Hsub]; [|exact E].
  destruct (IH _ Hsub Hf). split; [by constructor|done].
Qed.

Lemma split_below p segs :
  Forall (λ s, ¬ in_str "/" s) segs → split_byte "/" (below_path p segs) = split_byte "/" p ++ segs.
Proof.
  revert p. induction segs as [|s segs IH]; intros p Hs; [by rewrite app_nil_r|].
  apply Forall_cons in Hs as [Hs Hall]. rewrite below_path_cons, IH by done. rewrite (cons_middle s), app_assoc.
  f_equal. clear IH Hall. pose proof (split_byte_no_sep "/" p) as Hp. rewrite <-(join_split "/" p) at 1.
  assert (join "/" (split_byte "/" p) +:+ "/" +:+ s = join "/" (split_byte "/" p ++ [s])) as ->.
  { pose proof (split_byte_nonempty "/" p) as Hne. induction (split_byte "/" p) as [|w l IHl]; [done|].
    destruct l as [|w' l]; [done|].
    change (join "/" (w :: w' :: l)) with (w +:+ "/" +:+ join "/" (w' :: l)).
    change (join "/" ((w :: w' :: l) ++ [s])) with (w +:+ "/" +:+ join "/" ((w' :: l) ++ [s])).
    rewrite !sapp_assoc, <-IHl; [done| |done]. by apply Forall_cons in Hp as [_ ?]. }
  apply split_join; [by destruct (split_byte "/" p)|]. apply Forall_app. by rewrite Forall_singleton.
Qed.

(** ** Writing one file into a tree *)

Lemma find_entry_filter s s' entries :
  s ≠ s' → find_entry s' (filter (λ e : string * node, e.1 ≠ s) entries) = find_entry s' entries.
Proof.
  intros Hne. induction entries as [|[n m] entries IH]; [done|]. rewrite filter_cons. case_decide as Hn; cbn in *.
  - by rewrite IH.
  - assert (n = s) as -> by (by destruct (decide (n = s))). rewrite IH.
    by destruct (String.eqb_spec s s').
Qed.

Lemma put_path_same segs data n : find_node segs (put_path segs data n) = Some (Regular data).
Proof. revert n. induction segs as [|s segs IH]; intros n; cbn; [done|]. rewrite String.eqb_refl. apply IH. Qed.

Lemma put_path_other segs segs' data n :
  ¬ segs `prefix_of` segs' → ¬ segs' `prefix_of` segs → find_node segs' (put_path segs data n) = find_node segs' n.
Proof.
  revert segs' n. induction segs as [|s segs IH]; intros segs' n Hn Hn'; [by destruct Hn; apply prefix_nil|].
  destruct segs' as [|s' segs']; [by destruct Hn'; apply prefix_nil|]. cbn.
  destruct (String.eqb_spec s s') as [->|Hne]; cbn.
  - rewrite IH; [|by intros ?; apply Hn, prefix_cons|by intros ?; apply Hn', prefix_cons].
    assert (segs' ≠ []) as Hne by (intros ->; destruct Hn'; apply prefix_cons, prefix_nil).
    destruct n as [| | |entries]; cbn; [by destruct segs'..|].
    destruct (find_entry s' entries); [done|]. by destruct segs'.
  - destruct n as [| | |entries]; cbn; try done. by rewrite find_entry_filter.
Qed.

(** * What the walk finds *)

Section walk.
Context `{MediaOracle} (list_dir : string → listing).

(** An inventory entry for a covered regular file below a node. *)
Definition found (n : node) (p : string) (e : InvFile) : Prop :=
  ∃ segs data, find_node segs n = Some (Regular data) ∧ covered (below_path p segs) = true ∧
    e = file_entry (below_path p segs) data.

Lemma found_path n p name e :
  ¬ in_str "/" name → tree_ok n → found n (p +:+ "/" +:+ name) e →
  ∃ segs, split_byte "/" (f_path e) = split_byte "/" p ++ name :: segs.
Proof.
  intros Hname Hok (segs & data & Hf & _ & ->). exists segs. cbn [f_path file_entry].
  rewrite <-below_path_cons, split_below; [done|]. constructor; [done|]. by eapply tree_ok_segs.
Qed.

(** What a walk of a part of the tree did: the new entries are entries of files that
    are there, each path once; all of them when it went through. *)
Definition walked (here : InvFile → Prop) (s : inventory) (r : walk_end * inventory) : Prop :=
  ∃ new, iv_files r.2 = iv_files s ++ new ∧ NoDup (f_path <$> new) ∧ (∀ e, e ∈ new → here e) ∧
    (r.1 = WalkOn → ∀ e, here e → e ∈ new) ∧
    ((∀ q, list_dir q = Listed) → r.1 ≠ WalkSkipAll).

Lemma walked_nothing (here : InvFile → Prop) s w s' :
  iv_files s' = iv_files s → w ≠ WalkSkipAll ∨ (∃ q, list_dir q ≠ Listed) → (w = WalkOn → ∀ e, ¬ here e) →
  walked here s (w, s').
Proof.
  intros Hf Hw Hn. exists []. cbn. rewrite Hf, app_nil_r. split; [done|]. split; [constructor|].
  split; [by intros e ?%elem_of_nil|].
  split; [intros Hon e He; by destruct (Hn Hon e)|]. intros Hall. destruct Hw as [?|[q Hq]]; [done|].
  by destruct Hq.
Qed.

Lemma inv_ctx_err_files s : iv_files (inv_ctx_err s).2 = iv_files s.
Proof. unfold inv_ctx_err. by destruct (iv_budget s) as [[]|]. Qed.

(** The loop over the entries of a directory, as a function of its own. *)
Definition walk_entries (p : string) : list (string * node) → inventory → walk_end * inventory :=
  fix loop (entries : list (string * node)) (s : inventory) : walk_end * inventory :=
    match entries with
    | [] => (WalkOn, s)
    | (name, sub) :: entries =>
        match inventory_walk list_dir sub (p +:+ "/" +:+ name) s with
        | (WalkOn, s) => loop entries s
        | stop => stop
        end
    end.
Definition found_in (entries : list (string * node)) (p : string) (e : InvFile) : Prop :=
  ∃ name sub, (name, sub) ∈ entries ∧ found sub (p +:+ "/" +:+ name) e.

Lemma found_apart name sub entries p e e' :
  ¬ in_str "/" name → tree_ok sub → Forall (λ e, ¬ in_str "/" e.1 ∧ tree_ok e.2) entries → name ∉ entries.*1 →
  found sub (p +:+ "/" +:+ name) e → found_in entries p e' → f_path e ≠ f_path e'.
Proof.
  intros Hname Hok Hall Hnot Hf (name' & sub' & Hin & Hf'). rewrite Forall_forall in Hall.
  destruct (Hall _ Hin) as [Hname' Hok']. apply (found_path sub p name e Hname Hok) in Hf as [segs Hs].
  apply (found_path sub' p name' e' Hname' Hok') in Hf' as [segs' Hs'].
  intros Heq. rewrite Heq, Hs' in Hs. apply app_inv_head in Hs as [= -> _].
  apply Hnot, list_elem_of_fmap. by exists (name, sub').
Qed.

Lemma walk_entries_spec p entries s :
  NoDup entries.*1 → Forall (λ e, ¬ in_str "/" e.1 ∧ tree_ok e.2) entries →
  Forall (λ e, ∀ p s, walked (found e.2 p) s (inventory_walk list_dir e.2 p s)) entries →
  walked (found_in entries p) s (walk_entries p entries s).
Proof.
  intros Hdup Hoks Hall. revert s Hdup Hoks. induction Hall as [|[name sub] entries Hsub Hall IH]; intros s Hdup Hoks; cbn.
  { apply walked_nothing; [done|by left|]. intros _ e (? & ? & ?%elem_of_nil & _). done. }
  cbn in Hsub. apply NoDup_cons in Hdup as [Hnot Hdup]. apply Forall_cons in Hoks as [[Hname Hok] Hoks].
  destruct (Hsub (p +:+ "/" +:+ name) s) as (new & Hf & Hnd & Hsound & Hcomp & Hskip).
  destruct (inventory_walk list_dir sub (p +:+ "/" +:+ name) s) as [w s1]. cbn in *.
  assert (∀ e, e ∈ new → found_in ((name, sub) :: entries) p e) as Hnew.
  { intros e He. exists name, sub. split; [left|auto]. }
  destruct w; [|by exists new..]. destruct (IH s1 Hdup Hoks) as (new' & Hf' & Hnd' & Hsound' & Hcomp' & Hskip').
  exists (new ++ new'). rewrite Hf', Hf, app_assoc. split; [done|]. split; [|split; [|split; [|done]]].
  - rewrite fmap_app. apply NoDup_app. split; [done|]. split; [|done].
    intros x (e & -> & He)%list_elem_of_fmap (e' & Heq & He')%list_elem_of_fmap.
    by eapply (found_apart name sub entries p e e'); auto.
  - intros e [He|He]%elem_of_app; [auto|]. destruct (Hsound' e He) as (n & m & Hin & ?).
    exists n, m. split; [by right|done].
  - intros Hon e (n & m & [[= -> ->]|Hin]%elem_of_cons & Hfd); apply elem_of_app; [by left; apply Hcomp|right].
    apply Hcomp'; [done|]. by exists n, m.
Qed.

Lemma found_dir entries p e :
  NoDup entries.*1 → found (Dir entries) p e ↔ found_in entries p e.
Proof.
  intros Hnd. unfold found, found_in. split.
  - intros ([|s segs] & data & Hf & Hc & ->); [done|]. cbn in Hf.
    destruct (find_entry s entries) as [sub|] eqn:Es; [cbn in Hf|done].
    apply find_entry_elem in Es; [|done]. exists s, sub. split; [done|]. exists segs, data.
    by rewrite <-below_path_cons.
  - intros (name & sub & Hin & segs & data & Hf & Hc & ->). apply find_entry_elem in Hin; [|done].
    exists (name :: segs), data. cbn [find_node]. rewrite Hin, below_path_cons. done.
Qed.

Lemma walked_weaken here here' s s1 r :
  iv_files s = iv_files s1 → (∀ e, here e ↔ here' e) → walked here s r → walked here' s1 r.
Proof.
  intros Hf Hh (new & Hr & Hnd & Hs & Hc & Hk). exists new. rewrite <-Hf. split; [done|]. split; [done|].
  split; [intros e He; by apply Hh, Hs|]. split; [intros Hon e He; by apply Hc, Hh|done].
Qed.

Lemma inventory_walk_spec n p s : tree_ok n → walked (found n p) s (inventory_walk list_dir n p s).
Proof.
  intros Hok. revert p s Hok. induction n as [data|size| |entries IH] using node_tree_ind;
    intros p s Hok; cbn; pose proof (inv_ctx_err_files s) as Hs; destruct (inv_ctx_err s) as [[] s1]; cbn in Hs;
    try (apply walked_nothing; [done|by left|done]).
  - destruct (covered p) eqn:Hc; cbn.
    + exists [file_entry p data]. cbn. rewrite Hs. split; [done|]. split; [apply NoDup_singleton|].
      setoid_rewrite list_elem_of_singleton.
      split; [intros e ->; by exists [], data|]. split; [|done].
      by intros _ e ([|] & d & [= <-] & _ & ->).
    + apply walked_nothing; [done|by left|]. intros _ e ([|] & d & [= <-] & Hc' & _). cbn in Hc'. congruence.
  - apply walked_nothing; [done|left; by destruct (negb _)|].
    by intros _ e ([|] & d & ? & _).
  - apply walked_nothing; [done|by left|]. by intros _ e ([|] & d & ? & _).
  - inversion Hok as [| | |? Hnd Hall]; subst. destruct (list_dir p) eqn:Hl.
    + change (walked (found (Dir entries) p) s (walk_entries p entries s1)).
      eapply walked_weaken; [exact Hs|intros e; symmetry; by apply found_dir|].
      apply walk_entries_spec; [done..|]. clear Hs. induction Hall as [|[name sub] entries [? Hsub] Hall IHe]; [constructor|].
      apply Forall_cons in IH as [IHn IH]. apply NoDup_cons in Hnd as [_ Hnd].
      constructor; [intros q s'; by apply IHn|]. apply IHe; [done| |done]. by constructor.
    + apply walked_nothing; [done|right; exists p; congruence|done].
    + apply walked_nothing; [done|by left|done].
Qed.

Lemma found_root n sub e : tree_ok n → found n sub e → head (split_byte "/" (f_path e)) = head (split_byte "/" sub).
Proof.
  intros Hok (segs & data & Hf & _ & ->). cbn [f_path file_entry].
  rewrite split_below by (by eapply tree_ok_segs). pose proof (split_byte_nonempty "/" sub). by destruct (split_byte "/" sub).
Qed.

Lemma inventory_roots_spec root subs s s' :
  tree_ok root → NoDup ((λ sub, head (split_byte "/" sub)) <$> subs) → inventory_roots list_dir root subs s = Ok s' →
  ∃ new, iv_files s' = iv_files s ++ new ∧ NoDup (f_path <$> new) ∧
    (∀ e, e ∈ new → ∃ sub n, sub ∈ subs ∧ node_at root sub = Some n ∧ found n sub e) ∧
    ((∀ q, list_dir q = Listed) → ∀ e sub n, sub ∈ subs → node_at root sub = Some n → found n sub e → e ∈ new).
Proof.
  intros Hok Hdup. revert s Hdup. induction subs as [|sub subs IH]; intros s Hdup; cbn.
  { intros [= <-]. exists []. rewrite app_nil_r. split; [done|]. split; [constructor|].
    split; [by intros e ?%elem_of_nil|by intros _ e sub n ?%elem_of_nil]. }
  rewrite fmap_cons in Hdup. apply NoDup_cons in Hdup as [Hnot Hdup].
  assert (∀ sub n, node_at root sub = Some n → tree_ok n) as Hoks by (intros ? ? [_ ?]%(tree_ok_segs _ _ _ Hok); done).
  destruct (node_at root sub) as [n|] eqn:Hn.
  - pose proof (Hoks _ _ Hn) as Hokn.
    destruct (inventory_walk_spec n sub s Hokn) as (new & Hf & Hnd & Hsound & Hcomp & Hskip).
    destruct (inventory_walk list_dir n sub s) as [w s1]. cbn in *. intros Hrest.
    assert (inventory_roots list_dir root subs s1 = Ok s' ∧ ∀ e, w ≠ WalkFail e) as [Hr Hnf] by by destruct w.
    destruct (IH s1 Hdup Hr) as (new' & Hf' & Hnd' & Hsound' & Hcomp'). exists (new ++ new').
    rewrite Hf', Hf, app_assoc. split; [done|]. split; [|split].
    + rewrite fmap_app. apply NoDup_app. split; [done|]. split; [|done].
      intros x (e & -> & He)%list_elem_of_fmap (e' & Heq & He')%list_elem_of_fmap.
      destruct (Hsound' e' He') as (sub' & n' & Hin & Hn' & Hfd'). apply Hnot, list_elem_of_fmap. exists sub'. split; [|done].
      rewrite <-(found_root n sub e), <-(found_root n' sub' e') by eauto. by rewrite Heq.
    + intros e [He|He]%elem_of_app; [exists sub, n; split; [left|auto]|].
      destruct (Hsound' e He) as (sub' & n' & ? & ?). exists sub', n'. split; [by right|done].
    + intros Hl e sub' n' [->|Hin]%elem_of_cons Hn' Hfd; apply elem_of_app.
      * left. assert (n' = n) as -> by congruence. apply Hcomp; [|done].
        destruct w; [done|by destruct (Hskip Hl)|by destruct (Hnf e0)].
      * right. by eapply Hcomp'.
  - intros Hr. destruct (IH s Hdup Hr) as (new & Hf & Hnd & Hsound & Hcomp). exists new. split; [done|]. split; [done|]. split.
    + intros e He. destruct (Hsound e He) as (sub' & n' & ? & ?). exists sub', n'. split; [by right|done].
    + intros Hl e sub' n' [->|Hin]%elem_of_cons Hn' Hfd; [congruence|by eapply Hcomp].
Qed.

(** The covered regular files of a store. *)
Definition content (root : node) (e : InvFile) : Prop :=
  ∃ data, node_at root (f_path e) = Some (Regular data) ∧ covered (f_path e) = true ∧
    e = file_entry (f_path e) data.

Lemma covered_sub p : covered p = true → ∃ sub segs, sub ∈ coveredRoots ∧ p = below_path sub segs.
Proof.
  unfold covered. destruct (String.eqb p ManifestPath); [done|]. destruct (has_prefix _ _); [done|].
  intros (sub & Hin%list_elem_of_In & Hor)%existsb_exists. exists sub.
  apply orb_true_iff in Hor as [->%String.eqb_eq|(r & ->)%has_prefix_spec]; [by exists []|].
  exists [r]. split; [done|]. unfold below_path. cbn [join]. by rewrite sapp_assoc.
Qed.

Lemma found_content root sub n e :
  tree_ok root → node_at root sub = Some n → found n sub e → content root e.
Proof.
  intros Hok Hn (segs & data & Hf & Hc & ->). exists data. cbn [f_path file_entry]. split; [|done].
  destruct (tree_ok_segs _ _ _ Hok Hn) as [_ Hokn]. destruct (tree_ok_segs _ _ _ Hokn Hf) as [Hs _].
  unfold node_at. rewrite split_below, find_node_app by done. unfold node_at in Hn. by rewrite Hn.
Qed.

Lemma content_found root e :
  tree_ok root → content root e → ∃ sub n, sub ∈ coveredRoots ∧ node_at root sub = Some n ∧ found n sub e.
Proof.
  intros Hok (data & Hn & Hc & He). destruct (covered_sub _ Hc) as (sub & segs0 & Hin & Hp).
  assert (∃ segs, split_byte "/" (f_path e) = split_byte "/" sub ++ segs) as [segs Hsplit].
  { rewrite Hp. unfold below_path. destruct segs0 as [|s l]; [exists []; by rewrite app_nil_r|].
    exists (split_byte "/" (join "/" (s :: l))).
    change (join "/" (sub :: s :: l)) with (sub +:+ String "/" (join "/" (s :: l))). apply split_byte_sep. }
  assert (Forall (λ w, ¬ in_str "/" w) segs) as Hs.
  { pose proof (split_byte_no_sep "/" (f_path e)) as Hns. rewrite Hsplit in Hns. by apply Forall_app in Hns as [_ ?]. }
  unfold node_at in Hn. rewrite Hsplit, find_node_app in Hn.
  destruct (find_node (split_byte "/" sub) root) as [n|] eqn:Hsub; [cbn in Hn|done].
  assert (f_path e = below_path sub segs) as Hpath.
  { rewrite <-(join_split "/" (f_path e)), Hsplit, <-(split_below sub segs) by done. apply join_split. }
  exists sub, n. split; [done|]. split; [done|]. exists segs, data. by rewrite <-Hpath.
Qed.
End walk.

(** * The medium that was written *)

Section written.
Context `{GoRuntime, ManifestCodec, SigVerifier} (list_dir : string → listing).

Lemma covered_roots_apart : NoDup ((λ sub, head (split_byte "/" sub)) <$> coveredRoots).
Proof. apply (bool_decide_unpack _). vm_compute. exact I. Qed.

Lemma inventoryOf_spec root budget files totals :
  tree_ok root → inventoryOf list_dir root budget = Ok (files, totals) →
  NoDup (f_path <$> files) ∧ (∀ e, e ∈ files → content root e) ∧ ((∀ q, list_dir q = Listed) → ∀ e, content root e → e ∈ files).
Proof.
  intros Hok (s & Hs & [= <- _])%res_bind_Ok.
  destruct (inventory_roots_spec _ _ _ _ _ Hok covered_roots_apart Hs) as (new & Hf & Hnd & Hsound & Hcomp).
  cbn in Hf. split; [by rewrite sort_slice_perm, Hf|]. split; [intros e He|intros Hl e He]; rewrite elem_of_sort_slice, Hf in *.
  - destruct (Hsound e He) as (sub & n & _ & Hn & Hfd). by eapply found_content.
  - destruct (content_found _ _ Hok He) as (sub & n & Hin & Hn & Hfd). by eapply Hcomp.
Qed.

Lemma content_functional root e e' : content root e → content root e' → f_path e = f_path e' → e = e'.
Proof. intros (d & Hn & _ & ->) (d' & Hn' & _ & ->). cbn in *. intros Hp. rewrite Hp in *. congruence. Qed.

Lemma inventory_map_Some m p e :
  inventory_map m !! p = Some e → e ∈ m_inventory m ∧ f_path e = p.
Proof.
  unfold inventory_map. induction (m_inventory m) as [|x l IH] using rev_ind; [cbn; by rewrite lookup_empty|].
  rewrite fold_left_app. cbn. intros [[<- <-]|[_ ?]]%lookup_insert_Some.
  - split; [apply elem_of_app; right; left|done].
  - rewrite elem_of_app. naive_solver.
Qed.

Lemma inventory_map_is_Some m e : e ∈ m_inventory m → is_Some (inventory_map m !! f_path e).
Proof.
  unfold inventory_map. induction (m_inventory m) as [|x l IH] using rev_ind; [by intros ?%elem_of_nil|].
  rewrite fold_left_app. cbn. intros [He| ->%list_elem_of_singleton]%elem_of_app;
    apply lookup_insert_is_Some; [|by left]. destruct (decide (f_path x = f_path e)); auto.
Qed.

(** The tree once the manifest is in it. *)
Lemma manifest_put root data p :
  (∀ es, node_at root ManifestPath ≠ Some (Dir es)) → covered p = true →
  (∃ raw, node_at (put_path (split_byte "/" ManifestPath) data root) p = Some (Regular raw)) ∨
  (∃ raw, node_at root p = Some (Regular raw)) →
  node_at (put_path (split_byte "/" ManifestPath) data root) p = node_at root p ∨
  split_byte "/" p = ["meta"].
Proof.
  intros Hdir Hc Hreg. unfold node_at in *. remember (split_byte "/" ManifestPath) as segs eqn:Hsegs.
  assert (split_byte "/" p ≠ segs) as Hne.
  { intros Heq. apply (f_equal (join "/")) in Heq. rewrite Hsegs, !join_split in Heq.
    by subst p. }
  destruct (decide (segs `prefix_of` split_byte "/" p)) as [[more Hm]|Hn].
  { exfalso. rewrite Hm, !find_node_app, put_path_same in Hreg. cbn in Hreg.
    destruct more as [|s more]; [rewrite app_nil_r in Hm; done|]. destruct Hreg as [[raw ?]|[raw Hr]]; [done|].
    destruct (find_node segs root) as [[| | |es]|]; cbn in Hr; try done. by destruct (Hdir es). }
  destruct (decide (split_byte "/" p `prefix_of` segs)) as [[more Hm]|Hn']; [|left; by apply put_path_other].
  right. change (split_byte "/" ManifestPath) with ["meta"; "media.json"] in Hsegs. rewrite Hsegs in Hm.
  pose proof (split_byte_nonempty "/" p) as Hnonempty. destruct (split_byte "/" p) as [|a [|b [|]]]; simplify_eq/=; try done.
Qed.

Lemma check_complete root inv p recipe budget :
  sound root inv p → (check root inv p recipe (mkChecker ∅ ∅ 0 0 budget)).1 = None.
Proof.
  intros (e & data & He & Hn & Hs & Hd & Hh). unfold check. cbn. rewrite lookup_empty. unfold checkUncached.
  rewrite He, Hn, Hs, Z.eqb_refl. cbn. rewrite Hd, String.eqb_refl. cbn.
  destruct (hexOfBlobPath p) as [h|]; [|done]. rewrite (Hh h eq_refl), String.eqb_refl. done.
Qed.

(** A successful write, taken apart. *)
Lemma Write_Ok root mediaID records opts budget saved m root' :
  Write list_dir root mediaID records opts budget saved = (Ok m, root') →
  ∃ inv rs, inventoryOf list_dir root budget = Ok inv ∧ m_inventory m = inv.1 ∧
    records = Ok rs ∧ m_recipes m = recipesOf rs ∧ readStoreFormat root = Ok (m_store_format m) ∧
    m_media_format m = ManifestFormat ∧ m_zone m = wo_zone opts ∧
    (∃ raw, node_at root formatFile = Some (Regular raw)) ∧ (∀ es, node_at root ManifestPath ≠ Some (Dir es)) ∧
    root' = put_path (split_byte "/" ManifestPath) (encode_manifest m) root.
Proof.
  unfold Write. destruct (_ ≫= _) as [m0|] eqn:Hb; [|done].
  apply res_bind_Ok in Hb as (v & Hv & Hb). apply res_bind_Ok in Hb as (rs & Hrs & Hb).
  assert (records = Ok rs) as -> by (by destruct records; simplify_eq/=).
  apply res_bind_Ok in Hb as (inv & Hi & [= <-]). destruct saved; [cbn [andb]|done].
  assert (∃ raw, node_at root formatFile = Some (Regular raw)) as Hraw.
  { clear Hrs. revert Hv. unfold readStoreFormat. destruct (node_at root formatFile) as [[raw| | |]|]; try done. eauto. }
  destruct (node_at root ManifestPath) as [[| | |es]|] eqn:Hm; try done; intros [= <- <-]; exists inv, rs; split_and!; done.
Qed.

Lemma written_files root data p raw :
  (∃ f, node_at root formatFile = Some (Regular f)) → (∀ es, node_at root ManifestPath ≠ Some (Dir es)) →
  covered p = true →
  node_at (put_path (split_byte "/" ManifestPath) data root) p = Some (Regular raw) ↔
  node_at root p = Some (Regular raw).
Proof.
  intros [f Hf] Hdir Hc.
  assert (split_byte "/" p = ["meta"] → ∀ n raw, n = root ∨ n = put_path (split_byte "/" ManifestPath) data root →
    node_at n p ≠ Some (Regular raw)) as Hmeta.
  { intros Hp n r Hn. unfold node_at in *. rewrite Hp. destruct Hn as [->| ->]; [|by cbn].
    change (split_byte "/" formatFile) with (["meta"] ++ ["format.json"]) in Hf.
    rewrite find_node_app in Hf. intros Hr. by rewrite Hr in Hf. }
  split; intros Hr; (destruct (manifest_put root data p Hdir Hc) as [Heq|Hp]; [by eauto|congruence|]);
    exfalso; by eapply (Hmeta Hp); [|exact Hr]; auto.
Qed.

(** A recipe record the destination's grammar admits: it is named, its cookbook
    relocates, and its artifact and ingredients have valid repositories, tags and digests. *)
Definition ref_wf (repo tag dgst : string) : Prop :=
  checkRepoName repo = Ok tt ∧ (tag = "" ∨ checkTag tag = Ok tt) ∧ is_ok (digestHex dgst) = true.
Definition record_wf (r : RecipeRecord) : Prop :=
  rr_name r ≠ "" ∧ rr_version r ≠ "" ∧ is_ok (Path (rr_cookbook r)) = true ∧
  ref_wf (rr_artifact_repo r) (rr_artifact_tag r) (rr_digest r) ∧
  ∀ i, i ∈ rr_ingredients r → ref_wf (ir_repo i) (ir_tag i) (ir_digest i).

Lemma check_ref_wf id repo tag dgst : ref_wf repo tag dgst → check_ref id repo tag dgst = Ok tt.
Proof.
  intros (Hr & Ht & Hd). unfold check_ref. rewrite Hr. cbn.
  assert ((if String.eqb tag "" then Ok tt else wrap_err (VTag id) (checkTag tag)) = Ok tt) as ->.
  { destruct (String.eqb_spec tag ""); [done|]. by destruct Ht as [?| ->]. }
  cbn. by destruct (digestHex dgst).
Qed.
Lemma check_ingredients_wf id ings :
  (∀ i, i ∈ ings → ref_wf (in_repo i) (in_tag i) (in_digest i)) → check_ingredients id ings = Ok tt.
Proof.
  induction ings as [|i ings IH]; intros Hall; [done|]. cbn. rewrite check_ref_wf by (apply Hall; left). cbn.
  apply IH. intros j Hj. apply Hall. by right.
Qed.
Lemma validateRecipe_wf r : record_wf r → validateRecipe (recipe_of r) = Ok tt.
Proof.
  intros (Hn & Hv & Hp & Ha & Hi). unfold validateRecipe, recipe_of. cbn -[check_ref].
  rewrite (proj2 (String.eqb_neq _ _) Hn), (proj2 (String.eqb_neq _ _) Hv). cbn -[check_ref].
  destruct (Path (rr_cookbook r)); [cbn -[check_ref]|done]. rewrite check_ref_wf by done. cbn.
  apply check_ingredients_wf. intros i. rewrite elem_of_sort_slice. intros (j & -> & Hj)%list_elem_of_fmap. by apply Hi.
Qed.
Lemma validate_recipes_wf rs : (∀ r, r ∈ rs → validateRecipe r = Ok tt) → validate_recipes rs = Ok tt.
Proof.
  induction rs as [|r rs IH]; intros Hall; [done|]. cbn. rewrite Hall by left. cbn. apply IH. intros x Hx. apply Hall. by right.
Qed.
Lemma validate_inventory_wf seen l :
  NoDup (f_path <$> l) → (∀ e, e ∈ l → f_path e ∉ seen) →
  (∀ e, e ∈ l → checkInventoryPath (f_path e) = Ok tt ∧ (0 ≤ f_size e)%Z ∧ is_ok (digestHex (f_digest e)) = true) →
  validate_inventory seen l = Ok tt.
Proof.
  revert seen. induction l as [|e l IH]; intros seen Hnd Hseen Hall; [done|]. cbn.
  rewrite fmap_cons in Hnd. apply NoDup_cons in Hnd as [Hnot Hnd].
  destruct (Hall e) as (-> & Hs & Hd); [left|]. cbn. rewrite decide_False by (apply Hseen; left).
  rewrite (proj2 (Z.ltb_ge _ _) Hs). destruct (digestHex (f_digest e)); [cbn|done]. apply IH; [done| |].
  - intros x Hx [Heq%elem_of_singleton|Hin]%elem_of_union; [|by apply (Hseen x); [right|]].
    apply Hnot. rewrite <-Heq. by apply list_elem_of_fmap_2.
  - intros x Hx. apply Hall. by right.
Qed.

(** The paths of the store's covered files are in the grammar of inventory paths, and a
    SHA-256 in hexadecimal has its 64 digits. *)
Definition paths_wf (root : node) : Prop :=
  ∀ p data, node_at root p = Some (Regular data) → covered p = true → checkInventoryPath p = Ok tt.
Definition hash_wf : Prop := ∀ data, is_ok (digestHex ("sha256:" +:+ sha256hex data)) = true.
Lemma written_valid root m rs :
  hash_wf → paths_wf root → (∀ r, r ∈ rs → record_wf r) → NoDup (f_path <$> m_inventory m) →
  (∀ e, e ∈ m_inventory m → content root e) → m_recipes m = recipesOf rs → validate m = Ok tt.
Proof.
  intros Hh Hp Hrs Hnd Hc Hm. unfold validate. rewrite validate_inventory_wf.
  - cbn. rewrite Hm. apply validate_recipes_wf. intros r. unfold recipesOf. rewrite elem_of_sort_slice.
    intros (x & -> & Hx)%list_elem_of_fmap. by apply validateRecipe_wf, Hrs.
  - done.
  - intros e _. apply not_elem_of_empty.
  - intros e (data & Hn & Hcov & He)%Hc. rewrite He. cbn. split_and!; [by eapply Hp|lia|apply Hh].
Qed.

(** C24: a medium verifies against the manifest written for it. The conditions are on the
    source store alone: names of a directory are distinct single elements, every directory
    lists, the format file has the current version, the covered files have paths in the
    grammar of inventory paths (a stray name outside it makes a medium that is refused
    whole), the recipe records are well formed, a SHA-256 is 64 hexadecimal digits, and the
    encoded document is within the reader's bound. Then, when the write succeeds, the
    destination accepts and reads back the very document that was written, and a file is
    in order for it exactly when it is a covered regular file of the store, and a blob has
    the digest of its own path: everything covered is inventoried once and nothing else.
    If the recipe graph is among them, a destination of the medium's zone that has imported
    nothing newer is blocked by nothing. *)
Theorem written_medium_verifies root mediaID records opts budget saved m root'
    (Htree : tree_ok root) (Hlist : ∀ q, list_dir q = Listed)
    (Hformat : readStoreFormat root = Ok FormatVersion) (Hpaths : paths_wf root) (Hhash : hash_wf)
    (Hrecords : ∀ rs r, records = Ok rs → r ∈ rs → record_wf r)
    (Hwrite : Write list_dir root mediaID records opts budget saved = (Ok m, root'))
    (Hsize : (Z.of_nat (slen (encode_manifest m)) ≤ maxManifestBytes * 64)%Z) :
  readManifest root' = inl m ∧
  (∀ p, sound root' (inventory_map m) p ↔
    covered p = true ∧ ∃ data, node_at root p = Some (Regular data) ∧
      ∀ h, hexOfBlobPath p = Some h → sha256hex data = h) ∧
  (∀ vopts b, is_Some (node_at root recipesFile ≫= λ n, match n with Regular data => Some data | _ => None end) →
    vo_zone vopts = wo_zone opts →
    (∀ last, vo_last_import vopts = Some last → (im_resolved last ≤ m_resolved m)%Z) →
    ∃ rep, Verify (Some root') vopts b = Some rep ∧ rep_blocks rep = []).
Proof.
  apply Write_Ok in Hwrite as (inv & rs & Hi & Hinv & Hrecs & Hrs & Hsf & Hmf & Hz & Hf & Hdir & ->).
  destruct inv as [files totals]. apply inventoryOf_spec in Hi as (Hnd & Hfs & Hfc); [|done]. specialize (Hfc Hlist).
  cbn in Hinv. rewrite <-Hinv in Hnd, Hfs, Hfc.
  assert (m_store_format m = FormatVersion) as Hformat' by congruence.
  assert (validate m = Ok tt) as Hvalid by (eapply written_valid; eauto).
  set (root' := put_path (split_byte "/" ManifestPath) (encode_manifest m) root) in *.
  assert (readManifest root' = inl m) as Hread.
  { unfold readManifest, root'. unfold node_at. rewrite put_path_same. unfold limit_reader.
    rewrite (proj2 (Z.leb_le _ _) Hsize), decode_encode_manifest, Hvalid, Hmf, Hformat'. done. }
  assert (∀ p, sound root' (inventory_map m) p ↔ covered p = true ∧ ∃ data, node_at root p = Some (Regular data) ∧
    ∀ h, hexOfBlobPath p = Some h → sha256hex data = h) as Hsound.
  { intros p. split.
    - intros (e & data & He & Hn & _ & _ & Hh). apply inventory_map_Some in He as [He Hp].
      apply Hfs in He as (d & Hd & Hc & _). rewrite Hp in *. split; [done|].
      exists data. split; [|done]. by apply (written_files root (encode_manifest m)).
    - intros (Hc & data & Hn & Hh). assert (content root (file_entry p data)) as He by by exists data.
      pose proof (Hfc _ He) as Hin. destruct (inventory_map_is_Some m _ Hin) as [e' He'].
      pose proof (inventory_map_Some _ _ _ He') as [Hin' Hp']. cbn in He', Hp'.
      assert (e' = file_entry p data) as -> by (eapply content_functional; [by apply Hfs|exact He|done]).
      exists (file_entry p data), data. split; [done|]. split; [by apply written_files|]. done. }
  split; [done|]. split; [done|]. intros vopts b [data Hrec] Hzone Hlast.
  assert (sound root' (inventory_map m) recipesFile) as Hgraph.
  { apply Hsound. split; [done|]. destruct (node_at root recipesFile) as [[d| | |]|]; try done.
    exists d. split; [done|]. done. }
  destruct (Verify_spec root' vopts b) as (rep & Hrep & _). exists rep. split; [done|].
  unfold Verify in Hrep. cbn [mbind option_bind] in Hrep. rewrite Hread in Hrep. unfold globalBlocks in Hrep.
  pose proof (check_complete root' (inventory_map m) recipesFile "" b Hgraph) as Hck.
  destruct (check root' (inventory_map m) recipesFile "" _) as [r c]. cbn in Hck. subst r. cbn [app] in Hrep.
  rewrite Hz, Hzone, String.eqb_refl in Hrep. cbn [app] in Hrep.
  assert (match freshness m vopts with Some f => fc_stale f | None => false end = false) as Hfresh.
  { unfold freshness. destruct (vo_last_import vopts) as [last|]; [cbn|done]. apply Z.ltb_ge. by apply Hlast. }
  destruct (freshness m vopts) as [fr|]; [rewrite Hfresh in Hrep|]; cbn in Hrep;
    (destruct (verifyRecipes _ _ _ _ _) as [[vs c']|]; [cbn in Hrep|done]);
    destruct (findings _ _ _ _) as [fs c'']; by injection Hrep as <-.
Qed.
End written.

(** * Examples *)

(** A manifest written as the list of its encoded fields. *)
#[export] Instance Ingredient_eq_dec : EqDecision Ingredient.
Proof. solve_decision. Defined.
#[export] Instance Ingredient_countable : Countable Ingredient.
Proof.
  countable_by
    (λ i : Ingredient, (in_name i, in_kind i, in_repo i, in_tag i, in_digest i))
    (λ '(a, b, c, d, e), Some (mkIngredient a b c d e)).
Defined.
#[export] Instance Recipe_eq_dec : EqDecision Recipe.
Proof. solve_decision. Defined.
#[export] Instance Recipe_countable : Countable Recipe.
Proof.
  countable_by
    (λ r : Recipe, (rc_name r, rc_version r, rc_cookbook r, rc_artifact_repo r, rc_artifact_tag r,
      rc_digest r, rc_resolved r, rc_ingredients r))
    (λ '(a, b, c, d, e, f, g, h), Some (mkRecipe a b c d e f g h)).
Defined.
#[export] Instance InvFile_eq_dec : EqDecision InvFile.
Proof. solve_decision. Defined.
#[export] Instance InvFile_countable : Countable InvFile.
Proof.
  countable_by (λ f : InvFile, (f_path f, f_size f, f_digest f)) (λ '(a, b, c), Some (mkFile a b c)).
Defined.
#[export] Instance Totals_eq_dec : EqDecision Totals.
Proof. solve_decision. Defined.
#[export] Instance Totals_countable : Countable Totals.
Proof. countable_by (λ t : Totals, (to_files t, to_bytes t)) (λ '(a, b), Some (mkTotals a b)). Defined.
#[export] Instance Manifest_eq_dec : EqDecision Manifest.
Proof. solve_decision. Defined.
#[export] Instance Manifest_countable : Countable Manifest.
Proof.
  countable_by
    (λ m : Manifest, (m_media_format m, m_store_format m, m_media_id m, m_zone m, m_version m, m_run_id m,
      m_resolved m, m_written m, m_recipes m, m_inventory m, m_totals m))
    (λ '(a, b, c, d, e, f, g, h, i, j, k), Some (mkManifest a b c d e f g h i j k)).
Defined.

(** The codec, with a short name for one manifest. *)
Definition short_oracle (m0 : Manifest) : MediaOracle := {|
  sha256hex := demo_hash;
  decode_manifest s := if String.eqb s "M" then Some m0 else p ← unbits s; decode p;
  decode_oci s := Some (mkOci None [] []);
  rfc3339 t := "";
  detail_text d := "";
|}.
Program Definition short_codec (m0 : Manifest) : ManifestCodec (H := short_oracle m0) := {|
  encode_manifest m := if decide (m = m0) then "M" else bits (encode m);
  decode_format s := if String.eqb s "1" then Some 1%Z else None;
|}.
Next Obligation.
  intros m0 m. cbn. case_decide as Hm; [by subst|].
  destruct (String.eqb_spec (bits (encode m)) "M") as [Hs|_]; [by destruct (encode m)|].
  rewrite unbits_bits. cbn. by rewrite decode_encode.
Qed.
#[local] Existing Instance demo_verifier.

Definition writer_store : node :=
  Dir [("docker", Dir [("registry", Dir [("v2", Dir [("repositories", Dir [("r", Dir [("link", Regular "x")])])])])]);
       ("meta", Dir [("format.json", Regular "1"); ("recipes.json", Regular "graph")])].
Definition writer_options : WriteOptions := mkWriteOptions "zone" "run" 7 "dev" 9.
Definition all_listed (p : string) : listing := Listed.
Definition demo_entry (p data : string) : InvFile :=
  mkFile p (Z.of_nat (slen data)) ("sha256:" +:+ demo_hash data).
Definition manifest_with (files : list InvFile) (totals : Totals) : Manifest :=
  mkManifest 1 1 "media" "zone" "dev" "run" 7 9 [] files totals.
Definition meta_entries : list InvFile := [demo_entry "meta/format.json" "1"; demo_entry "meta/recipes.json" "graph"].
Definition writer_manifest : Manifest :=
  manifest_with (demo_entry "docker/registry/v2/repositories/r/link" "x" :: meta_entries) (mkTotals 3 7).
Definition demo_write (m0 : Manifest) (list_dir : string → listing) (store : node) : res write_error Manifest * node :=
  @Write _ _ (short_codec m0) list_dir store "media" (Ok []) writer_options None true.
Definition demo_read (m0 : Manifest) (root : node) : Manifest + Block := @readManifest _ (short_oracle m0) root.

Lemma writer_store_ok : tree_ok writer_store.
Proof. repeat first [constructor | (split; cbn; [vm_compute; tauto|]) | (cbn; set_solver)]. Qed.

(** The regular files of a tree, by the elements of their paths. *)
Fixpoint files_of (n : node) : list (list string) :=
  match n with
  | Regular _ => [[]]
  | Dir entries => concat (map (λ e, map (cons e.1) (files_of e.2)) entries)
  | _ => []
  end.
Lemma find_entry_in name entries n : find_entry name entries = Some n → (name, n) ∈ entries.
Proof.
  induction entries as [|[name' n'] entries IH]; cbn; [done|].
  destruct (String.eqb_spec name' name) as [->|]; [intros [= ->]; left|intros ?%IH; by right].
Qed.
Lemma files_of_complete segs n data : find_node segs n = Some (Regular data) → segs ∈ files_of n.
Proof.
  revert n. induction segs as [|s segs IH]; intros n; cbn; [intros [= ->]; left|].
  destruct n as [| | |entries]; try done. destruct (find_entry s entries) as [sub|] eqn:E; [cbn|done].
  intros Hf%IH. apply find_entry_in in E. cbn. apply list_elem_of_In, List.in_concat.
  exists (map (cons s) (files_of sub)). split.
  - apply List.in_map_iff. exists (s, sub). split; [done|by apply list_elem_of_In].
  - apply List.in_map. by apply list_elem_of_In.
Qed.
Lemma writer_paths_wf : paths_wf writer_store.
Proof.
  intros p data Hp _. apply files_of_complete in Hp. rewrite <-(join_split "/" p).
  repeat (apply elem_of_cons in Hp as [->|Hp]; [vm_compute; reflexivity|]). by apply elem_of_nil in Hp.
Qed.
Lemma demo_hash_wf m0 : @hash_wf (short_oracle m0).
Proof.
  intros data. cbn. unfold demo_hash. destruct (String.eqb data "ART"), (String.eqb data "IDX"); vm_compute; reflexivity.
Qed.

Lemma written_medium_verifies_witness :
  demo_read writer_manifest (demo_write writer_manifest all_listed writer_store).2 = inl writer_manifest.
Proof.
  apply (@written_medium_verifies _ _ (short_codec writer_manifest) _ all_listed writer_store "media" (Ok [])
    writer_options None true writer_manifest (demo_write writer_manifest all_listed writer_store).2).
  - exact writer_store_ok.
  - reflexivity.
  - vm_compute. reflexivity.
  - exact writer_paths_wf.
  - exact (demo_hash_wf writer_manifest).
  - intros rs r [= <-] Hr. by apply elem_of_nil in Hr.
  - vm_compute. reflexivity.
  - vm_compute. discriminate.
Defined.

(** A directory that disappears truncates the inventory. When a directory is listed
    by its parent and gone by the time the walk reads it, the walk of that root ends
    there without an error: the manifest is written, the run succeeds, and files that
    are still in the store are not inventoried. *)
Theorem vanished_directory_truncates :
  let gone p := if String.eqb p "docker/registry/v2/blobs" then ListGone else Listed in
  let store :=
    Dir [("docker", Dir [("registry", Dir [("v2", Dir [("blobs", Dir []);
           ("repositories", Dir [("r", Dir [("link", Regular "x")])])])])]);
         ("meta", Dir [("format.json", Regular "1"); ("recipes.json", Regular "graph")])] in
  let m0 := manifest_with meta_entries (mkTotals 2 6) in
  match demo_write m0 gone store with
  | (Ok m, root') =>
      demo_read m0 root' = inl m ∧ node_at root' "docker/registry/v2/repositories/r/link" = Some (Regular "x") ∧
      inventory_map m !! "docker/registry/v2/repositories/r/link" = None
  | (Err _, _) => False
  end.
Proof. vm_compute. split; [reflexivity|]. split; reflexivity. Qed.

(** A medium can be written that its destination refuses whole. A stray file under
    the covered roots whose name holds a character the reader's grammar excludes is
    inventoried by the writer, and the reader refuses the manifest that names it. *)
Theorem stray_name_refused :
  let store :=
    Dir [("meta", Dir [("format.json", Regular "1"); ("recipes.json", Regular "graph"); ("a:b", Regular "x")])] in
  let m0 := manifest_with (demo_entry "meta/a:b" "x" :: meta_entries) (mkTotals 3 7) in
  match demo_write m0 all_listed store with
  | (Ok m, root') => validate m = Err (VPath PathColon) ∧
      (b_code <$> match demo_read m0 root' with inr b => Some b | inl _ => None end) = Some CodeMediaManifestUnreadable
  | (Err _, _) => False
  end.
Proof. vm_compute. split; reflexivity. Qed.
