(* ===== verification/StoreGC.v ===== *)
(** Removal and garbage collection of the store (internal/store/gc.go): the mark
    from tags, the two sweeps with their grace period, and the removal operations
    that end in a sweep.

    The registry backend is seen through what the distribution library answers:
    the tags of a repository, and the parsed manifest of a digest, which needs
    both the repository's revision link and the blob. *)

From S2P Require Import Prelude GoStrings Tasks StoreMeta.

(** One repository's directory: tags, revision links and layer links by digest,
    with the instant each link was laid ([None] when it cannot be read).  The
    sha256 trees are the ones represented: the sweeps read no other. *)
Record RepoDir := mkRepoDir {
  rd_tags : gmap string string;
  rd_revisions : gmap string (option time);
  rd_layers : gmap string (option time) }.

(** The store: repositories, the age of each blob's data ([None] when the data
    file is missing), and the ledgers. *)
Record Store := mkStore {
  st_repos : gmap string RepoDir;
  st_blobs : gmap string (option time);
  st_meta : Meta }.

Record sweepResult := mkSweep { sw_removed : Z; sw_deferred : Z }.
Record TagRef := mkTagRef { tr_repo : string; tr_tag : string }.
Record PruneResult := mkPruneResult {
  pz_tags : Z; pz_repositories : Z; pz_swept : Z; pz_deferred : Z }.

(** What the library reads in the blob of a manifest: whether it is an index, and
    the digests it references. *)
Class Contents : Type := { content_of : string → option (bool * list string) }.

Section gc.
Context `{GoRuntime, StoreIO, Contents}.

Definition set_repo (name : string) (r : RepoDir) (st : Store) : Store :=
  mkStore (<[name := r]> (st_repos st)) (st_blobs st) (st_meta st).
Definition set_blobs (b : gmap string (option time)) (st : Store) : Store :=
  mkStore (st_repos st) b (st_meta st).

(** [ManifestService.Get] in one repository. *)
Definition manifest_get (st : Store) (name d : string) : option (bool * list string) :=
  if io_fail (OpManifestGet name d) then None
  else
    r ← st_repos st !! name;
    _ ← rd_revisions r !! d;
    _ ← st_blobs st !! d;
    content_of d.

(** [markManifest]; [None] only when the fuel runs out. *)
Fixpoint mark_all (mark : string → gset string → option (gset string)) (ds : list string)
    (reach : gset string) : option (gset string) :=
  match ds with
  | [] => Some reach
  | d :: ds => reach ← mark d reach; mark_all mark ds reach
  end.
Fixpoint markManifest (fuel : nat) (get : string → option (bool * list string)) (d : string)
    (reach : gset string) : option (gset string) :=
  match fuel with
  | 0 => None
  | S fuel =>
      if decide (d ∈ reach) then Some reach
      else
        let reach := {[ d ]} ∪ reach in
        match get d with
        | None => Some reach
        | Some (true, refs) => mark_all (markManifest fuel get) refs reach
        | Some (false, refs) => Some (fold_left (λ reach r, {[ r ]} ∪ reach) refs reach)
        end
  end.

(** [repository] (browse.go): a name the library refuses is not found. *)
Definition repository (name : string) : res store_error unit :=
  if name_ok name then io (OpRepository name) else Err ErrNotFound.

(** [markRepository]; the digests reachable from the tags. *)
Definition tag_roots (name : string) (r : RepoDir) : list string :=
  snd <$> filter (λ p, io_fail (OpTagGet name p.1) = false) (map_range (rd_tags r)).
Definition markRepository (st : Store) (name : string) : res store_error (option (gset string)) :=
  _ ← repository name;
  _ ← io (OpTags name);
  match st_repos st !! name with
  | None => Ok (Some ∅)
  | Some r =>
      _ ← io (OpManifests name);
      Ok (mark_all (markManifest (S (size (rd_revisions r))) (manifest_get st name)) (tag_roots name r) ∅)
  end.

(** [os.ReadDir]: the entries by name. *)
Definition dir_entries (m : gmap string (option time)) : list (string * option time) :=
  sort_slice (λ a b, str_ltb a.1 b.1) (map_range m).

(** The loop shared by the sweeps, over directories listed and entries visited:
    entries the predicate keeps stay, fresh ones are deferred and counted, the
    others are removed and counted; a listing or a removal that fails stops it. *)
Inductive sweep_item := ListDir (op : store_op) | Visit (d : string) (t : option time).
Definition visits (m : gmap string (option time)) : list sweep_item :=
  (λ e, Visit e.1 e.2) <$> dir_entries m.
Definition sweep_entry (op : string → store_op) (keep : string → bool) (fresh : option time → bool)
    (acc : gmap string (option time) * sweepResult * option store_error) (e : sweep_item)
  : gmap string (option time) * sweepResult * option store_error :=
  let '(m, n, err) := acc in
  match err with
  | Some _ => acc
  | None =>
      match e with
      | ListDir o => if io_fail o then (m, n, Some (ErrIO o)) else acc
      | Visit d t =>
          if keep d then acc
          else if fresh t then (m, mkSweep (sw_removed n) (sw_deferred n + 1), None)
          else if io_fail (op d) then (m, n, Some (ErrIO (op d)))
          else (delete d m, mkSweep (sw_removed n + 1) (sw_deferred n), None)
      end
  end.
Definition sweep_items (op : string → store_op) (keep : string → bool) (fresh : option time → bool)
    (es : list sweep_item) (m : gmap string (option time)) (n : sweepResult) :=
  fold_left (sweep_entry op keep fresh) es (m, n, None).

(** [linkFresh]: an unreadable link counts as fresh. *)
Definition linkFresh (cutoff : time) (t : option time) : bool :=
  match t with Some t => (cutoff <? t)%Z | None => true end.
(** The grace on blob data: a missing data file is not fresh. *)
Definition blobFresh (cutoff : time) (t : option time) : bool :=
  match t with Some t => (cutoff <? t)%Z | None => false end.

(** [pruneRepositoryLinks]: the revisions, then the layers. *)
Definition pruneRepositoryLinks (name : string) (reach : gset string) (cutoff : time) (r : RepoDir)
    (n : sweepResult) : RepoDir * sweepResult * option store_error :=
  let keep d := bool_decide (d ∈ reach) in
  let '(revs, n, err) :=
    sweep_items (OpRemoveRevision name) keep (linkFresh cutoff)
      (ListDir (OpReadRevisions name) :: visits (rd_revisions r)) (rd_revisions r) n in
  let r := mkRepoDir (rd_tags r) revs (rd_layers r) in
  match err with
  | Some e => (r, n, Some e)
  | None =>
      let '(layers, n, err) :=
        sweep_items (OpRemoveLayer name) keep (linkFresh cutoff)
          (ListDir (OpReadLayers name) :: visits (rd_layers r)) (rd_layers r) n in
      (mkRepoDir (rd_tags r) (rd_revisions r) layers, n, err)
  end.

(** One turn of the loop of [sweep] over the repositories, and the loop. *)
Definition sweep_repo (name : string) (cutoff : time) (global : gset string) (n : sweepResult)
    (st : Store) : (gset string * sweepResult * option store_error) * Store :=
  match markRepository st name with
  | Err e => ((global, n, Some e), st)
  | Ok None => ((global, n, None), st)
  | Ok (Some reach) =>
      let global := reach ∪ global in
      match st_repos st !! name with
      | None => ((global, n, None), st)
      | Some r =>
          let '(r, n, err) := pruneRepositoryLinks name reach cutoff r n in
          ((global, n, err), set_repo name r st)
      end
  end.
Fixpoint sweep_repos (names : list string) (cutoff : time) (global : gset string) (n : sweepResult)
    (st : Store) : (gset string * sweepResult * option store_error) * Store :=
  match names with
  | [] => ((global, n, None), st)
  | name :: names =>
      match sweep_repo name cutoff global n st with
      | ((global, n, None), st) => sweep_repos names cutoff global n st
      | failed => failed
      end
  end.

(** [Repositories]: every repository, sorted. *)
Definition Repositories (st : Store) : res store_error (list string) :=
  _ ← io OpRepositories; Ok (sort_slice str_ltb (map_keys (st_repos st))).

(** The blob tree: a directory per two-character prefix of the encoded digest,
    holding the blobs of that prefix. *)
Definition prefix_of (d : string) : string := stake 2 (default d (cut_prefix "sha256:" d)).
Definition blob_prefixes (m : gmap string (option time)) : list string :=
  sort_slice str_ltb (elements (list_to_set (prefix_of <$> map_keys m) : gset string)).
Definition blob_items (m : gmap string (option time)) : list sweep_item :=
  ListDir OpReadBlobs ::
  (blob_prefixes m ≫= λ p,
    ListDir (OpReadPrefix p) :: visits (filter (λ e, prefix_of e.1 = p) m)).

(** [sweep]. *)
Definition sweep (cutoff : time) (st : Store) : res store_error sweepResult * Store :=
  match Repositories st with
  | Err e => (Err e, st)
  | Ok repos =>
      let '((global, n, err), st) := sweep_repos repos cutoff ∅ (mkSweep 0 0) st in
      match err with
      | Some e => (Err e, st)
      | None =>
          let '(blobs, n, err) :=
            sweep_items OpRemoveBlob (λ d, bool_decide (d ∈ global)) (blobFresh cutoff)
              (blob_items (st_blobs st)) (st_blobs st) n in
          let st := set_blobs blobs st in
          (match err with Some e => Err e | None => Ok n end, st)
      end
  end.

(** [untag]. *)
Definition untag (name tag : string) (st : Store) : res store_error unit * Store :=
  match repository name with
  | Err e => (Err e, st)
  | Ok _ =>
      if io_fail (OpUntag name tag) then (Err (ErrIO (OpUntag name tag)), st)
      else match st_repos st !! name with
           | None => (Err ErrNotFound, st)
           | Some r =>
               match rd_tags r !! tag with
               | None => (Err ErrNotFound, st)
               | Some _ =>
                   (Ok tt, set_repo name (mkRepoDir (delete tag (rd_tags r)) (rd_revisions r) (rd_layers r)) st)
               end
           end
  end.

(** [DeleteTag]. *)
Definition DeleteTag (name tag : string) (cutoff : time) (st : Store) : res store_error unit * Store :=
  match untag name tag st with
  | (Err e, st) => (Err e, st)
  | (Ok _, st) =>
      match sweep cutoff st with
      | (Err e, st) => (Err e, st)
      | (Ok _, st) => (Ok tt, st)
      end
  end.

(** Repositories nest the way their directories do: below a repository's
    directory lie those whose names extend its name. *)
Definition below (name other : string) : bool :=
  String.eqb other name || has_prefix other (name +:+ "/").
Definition dir_exists (name : string) (st : Store) : bool :=
  existsb (below name) (map_keys (st_repos st)).

(** Removing a repository's directory ([os.RemoveAll]) and its ledger entry. *)
Definition drop_repository (name : string) (st : Store) : res store_error unit * Store :=
  match io (OpRemoveRepository name) with
  | Err e => (Err e, st)
  | Ok _ =>
      let st := mkStore (filter (λ p, below name p.1 = false) (st_repos st)) (st_blobs st) (st_meta st) in
      match dropProvenance name (st_meta st) with
      | Err e => (Err e, st)
      | Ok m => (Ok tt, mkStore (st_repos st) (st_blobs st) m)
      end
  end.

(** [DeleteRepository]. *)
Definition DeleteRepository (name : string) (cutoff : time) (st : Store) : res store_error unit * Store :=
  match ManagingRecipes name (st_meta st) with
  | r :: rs => (Err (ErrRecipeManaged name (r :: rs)), st)
  | [] =>
      if negb (dir_exists name st) then (Err ErrNotFound, st)
      else
        match drop_repository name st with
        | (Err e, st) => (Err e, st)
        | (Ok _, st) =>
            match sweep cutoff st with
            | (Err e, st) => (Err e, st)
            | (Ok _, st) => (Ok tt, st)
            end
        end
  end.

(** [PruneTags]: the untagging loop, the emptied repositories, one sweep. *)
Fixpoint untag_all (refs : list TagRef) (n : Z) (st : Store) : res store_error Z * Store :=
  match refs with
  | [] => (Ok n, st)
  | ref :: refs =>
      match untag (tr_repo ref) (tr_tag ref) st with
      | (Ok _, st) => untag_all refs (n + 1) st
      | (Err ErrNotFound, st) => untag_all refs n st
      | (Err e, st) => (Err e, st)
      end
  end.
Definition hasNoTags (name : string) (st : Store) : res store_error bool :=
  match repository name with
  | Err ErrNotFound => Ok false
  | Err e => Err e
  | Ok _ =>
      _ ← io (OpTags name);
      Ok (match st_repos st !! name with Some r => bool_decide (rd_tags r = ∅) | None => true end)
  end.
Fixpoint drop_empty (names : list string) (n : Z) (st : Store) : res store_error Z * Store :=
  match names with
  | [] => (Ok n, st)
  | name :: names =>
      match hasNoTags name st with
      | Err e => (Err e, st)
      | Ok false => drop_empty names n st
      | Ok true =>
          match drop_repository name st with
          | (Err e, st) => (Err e, st)
          | (Ok _, st) => drop_empty names (n + 1) st
          end
      end
  end.
Definition touched (refs : list TagRef) : list string :=
  fold_left (λ acc ref, if decide (tr_repo ref ∈ acc) then acc else acc ++ [tr_repo ref]) refs [].
Definition PruneTags (refs : list TagRef) (cutoff : time) (st : Store) : res store_error PruneResult * Store :=
  match refs with
  | [] => (Ok (mkPruneResult 0 0 0 0), st)
  | _ =>
      match untag_all refs 0 st with
      | (Err e, st) => (Err e, st)
      | (Ok tags, st) =>
          match drop_empty (touched refs) 0 st with
          | (Err e, st) => (Err e, st)
          | (Ok repos, st) =>
              match sweep cutoff st with
              | (Err e, st) => (Err e, st)
              | (Ok n, st) => (Ok (mkPruneResult tags repos (sw_removed n) (sw_deferred n)), st)
              end
          end
      end
  end.
End gc.
