(* ===== verification/StoreSafety.v ===== *)
(** What garbage collection (internal/store/gc.go) guarantees: reachable content
    survives, unreachable content past its grace goes, the counters account for
    both; and where the mark loses content. *)

From S2P Require Import Prelude GoStrings Tasks StoreMeta StoreGC.

(** * The mark *)

Section mark.
Context (get : string → option (bool * list string)) (roots : list string).

(** The manifests the tags lead to, and everything they keep alive. *)
Inductive live_manifest : string → Prop :=
  | live_root d : d ∈ roots → live_manifest d
  | live_child m refs d : live_manifest m → get m = Some (true, refs) → d ∈ refs → live_manifest d.
Definition live_blob (d : string) : Prop :=
  ∃ m refs, live_manifest m ∧ get m = Some (false, refs) ∧ d ∈ refs.
Definition live (d : string) : Prop := live_manifest d ∨ live_blob d.

(** No digest is both a live manifest and a live blob. *)
Definition separated : Prop := ∀ d, live_blob d → ¬ live_manifest d.

(** Everything a marked manifest references is marked. *)
Definition marked_below (reach : gset string) (d : string) : Prop :=
  match get d with
  | None => True
  | Some (_, refs) => ∀ r, r ∈ refs → r ∈ reach
  end.
Lemma marked_below_mono r1 r2 d : r1 ⊆ r2 → marked_below r1 d → marked_below r2 d.
Proof. unfold marked_below. intros Hsub. destruct (get d) as [[? refs]|]; [|done]. auto. Qed.

(** A mark from one set to a larger one. *)
Definition marks (r1 r2 : gset string) : Prop :=
  r1 ⊆ r2 ∧ (∀ x, x ∈ r2 → x ∈ r1 ∨ live x) ∧
  (separated → ∀ x, x ∈ r2 → x ∉ r1 → live_manifest x → marked_below r2 x).

Lemma marks_refl r : marks r r.
Proof. split; [done|]. split; [auto|]. by intros _ x ? ?. Qed.

Lemma marks_trans r1 r2 r3 : marks r1 r2 → marks r2 r3 → marks r1 r3.
Proof.
  intros (S1 & L1 & M1) (S2 & L2 & M2). split; [by etrans|]. split.
  - intros x Hx. destruct (L2 x Hx) as [Hx2|]; [|auto]. auto.
  - intros Hsep x Hx3 Hx1 Hl. destruct (decide (x ∈ r2)) as [Hx2|Hx2]; [|by apply M2].
    eapply marked_below_mono; [exact S2|]. by apply M1.
Qed.

Lemma elem_of_fold_union refs (reach : gset string) x :
  x ∈ fold_left (λ reach r, {[ r ]} ∪ reach) refs reach ↔ x ∈ refs ∨ x ∈ reach.
Proof.
  revert reach. induction refs as [|r refs IH]; intros reach; cbn.
  { rewrite elem_of_nil. tauto. }
  rewrite IH, elem_of_union, elem_of_singleton, elem_of_cons. tauto.
Qed.

Lemma mark_all_spec mark ds reach reach' :
  (∀ d r r', live_manifest d → mark d r = Some r' → marks r r' ∧ d ∈ r') →
  (∀ d, d ∈ ds → live_manifest d) → mark_all mark ds reach = Some reach' →
  marks reach reach' ∧ ∀ d, d ∈ ds → d ∈ reach'.
Proof.
  intros Hmark. revert reach. induction ds as [|d ds IH]; intros reach Hl; cbn.
  { intros [= ->]. split; [apply marks_refl|]. by intros d ?%elem_of_nil. }
  intros (r1 & H1 & H2)%bind_Some. destruct (Hmark d reach r1 (Hl d ltac:(left)) H1) as [M1 D1].
  destruct (IH r1 (λ d Hd, Hl d ltac:(by right)) H2) as [M2 D2].
  split; [by eapply marks_trans|]. intros x [->|Hx]%elem_of_cons; [by apply M2|auto].
Qed.

Lemma markManifest_spec fuel d reach reach' :
  live_manifest d → markManifest fuel get d reach = Some reach' →
  marks reach reach' ∧ d ∈ reach'.
Proof.
  revert d reach reach'. induction fuel as [|fuel IH]; intros d reach reach' Hl; [done|]. cbn.
  case_decide as Hin; [intros [= ->]; split; [apply marks_refl|done]|].
  assert (d ∈ {[ d ]} ∪ reach) as Hd by by apply elem_of_union_l, elem_of_singleton.
  assert (∀ x, x ∈ {[ d ]} ∪ reach → x ∈ reach ∨ live x) as Hstart.
  { intros x [->%elem_of_singleton|?]%elem_of_union; [right; by left|auto]. }
  destruct (get d) as [[[] refs]|] eqn:Hg.
  - intros Hall. destruct (mark_all_spec _ _ _ _ IH (λ r Hr, live_child d refs r Hl Hg Hr) Hall)
      as [(S1 & L1 & M1) D1].
    split; [|by apply S1]. split; [|split].
    + etrans; [|exact S1]. apply union_subseteq_r.
    + intros x Hx. destruct (L1 x Hx); auto.
    + intros Hsep x Hx Hni Hlx. destruct (decide (x ∈ {[ d ]} ∪ reach)) as [Hx1|Hx1]; [|by apply M1].
      apply elem_of_union in Hx1 as [->%elem_of_singleton|?]; [|done]. unfold marked_below. by rewrite Hg.
  - intros [= <-]. split; [|rewrite elem_of_fold_union; auto]. split; [|split].
    + intros x Hx. rewrite elem_of_fold_union. right. by apply elem_of_union_r.
    + intros x. rewrite elem_of_fold_union. intros [Hx|Hx]; [|auto]. right; right. exists d, refs. done.
    + intros Hsep x Hx Hni Hlx. rewrite elem_of_fold_union in Hx. destruct Hx as [Hx|Hx].
      * exfalso. apply (Hsep x); [by exists d, refs|done].
      * apply elem_of_union in Hx as [->%elem_of_singleton|?]; [|done]. unfold marked_below. rewrite Hg.
        intros r Hr. rewrite elem_of_fold_union. auto.
  - intros [= <-]. split; [|done]. split; [apply union_subseteq_r|]. split; [done|].
    intros Hsep x Hx Hni Hlx. apply elem_of_union in Hx as [->%elem_of_singleton|?]; [|done].
    unfold marked_below. by rewrite Hg.
Qed.

(** Enough fuel: one descent per digest that has a manifest. *)
Lemma markManifest_total (known : gset string) fuel d reach :
  (∀ d, is_Some (get d) → d ∈ known) → size (known ∖ reach) < fuel →
  ∃ reach', markManifest fuel get d reach = Some reach' ∧ reach ⊆ reach'.
Proof.
  intros Hknown. revert d reach. induction fuel as [|fuel IH]; intros d reach Hlt; [lia|]. cbn.
  case_decide as Hin; [eauto|].
  destruct (get d) as [[[] refs]|] eqn:Hg.
  - assert (size (known ∖ ({[ d ]} ∪ reach)) < fuel) as Hlt'.
    { assert (known ∖ ({[ d ]} ∪ reach) ⊂ known ∖ reach) as Hs%subset_size; [|lia].
      split; [set_solver|]. intros Hsub. specialize (Hsub d).
      assert (d ∈ known) by (apply Hknown; eauto). set_solver. }
    assert (∀ refs r0, size (known ∖ r0) < fuel →
      ∃ r', mark_all (markManifest fuel get) refs r0 = Some r' ∧ r0 ⊆ r') as Hall.
    { clear refs Hg. induction refs as [|r refs IHr]; intros r0 Hr0; cbn; [eauto|].
      destruct (IH r r0 Hr0) as (r1 & -> & S1). cbn.
      destruct (IHr r1) as (r2 & -> & S2); [|exists r2; split; [done|by etrans]].
      assert (size (known ∖ r1) ≤ size (known ∖ r0)) by (apply subseteq_size; set_solver). lia. }
    destruct (Hall refs _ Hlt') as (r' & -> & S'). exists r'. split; [done|]. set_solver.
  - eexists. split; [done|]. intros x Hx. rewrite elem_of_fold_union. right. by apply elem_of_union_r.
  - eexists. split; [done|]. apply union_subseteq_r.
Qed.

Lemma mark_roots_spec (known : gset string) fuel :
  (∀ d, is_Some (get d) → d ∈ known) → size known < fuel →
  ∃ reach, mark_all (markManifest fuel get) roots ∅ = Some reach ∧
    (∀ d, d ∈ reach → live d) ∧ (separated → ∀ d, live d → d ∈ reach).
Proof.
  intros Hknown Hlt.
  assert (∀ ds r0, ∃ r', mark_all (markManifest fuel get) ds r0 = Some r') as Htot.
  { induction ds as [|d ds IH]; intros r0; cbn; [eauto|].
    destruct (markManifest_total known fuel d r0 Hknown) as (r1 & -> & _); [|apply IH].
    assert (size (known ∖ r0) ≤ size known) by (apply subseteq_size; set_solver). lia. }
  destruct (Htot roots ∅) as [reach Hreach]. exists reach. split; [done|].
  destruct (mark_all_spec (markManifest fuel get) roots ∅ reach) as [(_ & L & M) D].
  - intros d r r' Hl. by apply markManifest_spec.
  - intros d Hd. by apply live_root.
  - done.
  - split.
    + intros d Hd. destruct (L d Hd) as [?%elem_of_empty|]; done.
    + intros Hsep. assert (∀ d, live_manifest d → d ∈ reach) as Hman.
      { induction 1 as [d Hd|m refs d Hm IH Hg Hd]; [by apply D|].
        specialize (M Hsep m IH ltac:(apply not_elem_of_empty) Hm). unfold marked_below in M.
        rewrite Hg in M. by apply M. }
      intros d [Hd|(m & refs & Hm & Hg & Hd)]; [by apply Hman|].
      specialize (M Hsep m (Hman m Hm) ltac:(apply not_elem_of_empty) Hm). unfold marked_below in M.
      rewrite Hg in M. by apply M.
Qed.
End mark.

(** * The sweeps *)

Section sweep.
Context `{GoRuntime, StoreIO, Contents}.

Section entries.
Context (op : string → store_op) (keep : string → bool) (fresh : option time → bool).

(** The entries a sweep defers. *)
Definition deferred (e : string * option time) : bool := negb (keep e.1) && fresh e.2.

(** The entries a loop visits. *)
Definition visited_of (i : sweep_item) : option (string * option time) :=
  match i with Visit d t => Some (d, t) | ListDir _ => None end.
Definition visited_in (es : list sweep_item) : list (string * option time) := omap visited_of es.

Lemma sweep_entries_stop es m n e :
  fold_left (sweep_entry op keep fresh) es (m, n, Some e) = (m, n, Some e).
Proof. induction es as [|i es IH]; cbn; done. Qed.

Lemma sweep_entries_spec es m n :
  (∀ d t, (d, t) ∈ visited_in es → m !! d = Some t) → NoDup (visited_in es).*1 →
  let '(m', n', err) := fold_left (sweep_entry op keep fresh) es (m, n, None) in
  (∀ d, m' !! d = m !! d ∨
    m' !! d = None ∧ ∃ t, (d, t) ∈ visited_in es ∧ keep d = false ∧ fresh t = false) ∧
  (err = None → ∀ d t, (d, t) ∈ visited_in es → m' !! d = Some t → keep d = true ∨ fresh t = true) ∧
  (sw_removed n' - sw_removed n = Z.of_nat (size m) - Z.of_nat (size m'))%Z ∧
  (err = None →
    sw_deferred n' - sw_deferred n = Z.of_nat (length (filter (λ e, deferred e = true) (visited_in es))))%Z ∧
  ((∀ o, io_fail o = false) → err = None).
Proof.
  revert m n. induction es as [|[o|d t] es IH]; intros m n Hm Hnd; cbn [fold_left].
  { split; [auto|]. split; [by intros _ d t ?%elem_of_nil|]. split; [lia|]. split; [cbn; lia|done]. }
  { unfold sweep_entry at 2. destruct (io_fail o) eqn:Hio; [|by apply IH].
    rewrite sweep_entries_stop. split; [auto|]. split; [done|]. split; [lia|]. split; [done|].
    intros Hok. by rewrite Hok in Hio. }
  change (visited_in (Visit d t :: es)) with ((d, t) :: visited_in es) in *.
  rewrite fmap_cons in Hnd. apply NoDup_cons in Hnd as [Hni Hnd].
  assert (∀ d' t', (d', t') ∈ visited_in es → d' ≠ d) as Hne.
  { intros d' t' Hin ->. apply Hni. apply list_elem_of_fmap. exists (d, t'). done. }
  assert (∀ d' t', (d', t') ∈ visited_in es → m !! d' = Some t') as Hm' by (intros; apply Hm; by right).
  unfold sweep_entry at 2. unfold deferred in *.
  destruct (keep d) eqn:Hk; [|destruct (fresh t) eqn:Hf; [|destruct (io_fail (op d)) eqn:Hio]].
  - specialize (IH m n Hm' Hnd). destruct (fold_left _ es _) as [[m' n'] err].
    destruct IH as (I1 & I2 & I3 & I4 & I5). split; [|split; [|split; [done|split; [|done]]]].
    + intros x. destruct (I1 x) as [?|(? & t' & ? & ?)]; [auto|]. right. split; [done|]. exists t'.
      split; [by right|done].
    + intros He x t' [[= -> ->]|Hin]%elem_of_cons Hx; [by left|by apply I2].
    + intros He. rewrite filter_cons_False by (cbn; by rewrite Hk). by apply I4.
  - specialize (IH m (mkSweep (sw_removed n) (sw_deferred n + 1)) Hm' Hnd).
    destruct (fold_left _ es _) as [[m' n'] err]. cbn in IH.
    destruct IH as (I1 & I2 & I3 & I4 & I5). split; [|split; [|split; [done|split; [|done]]]].
    + intros x. destruct (I1 x) as [?|(? & t' & ? & ?)]; [auto|]. right. split; [done|]. exists t'.
      split; [by right|done].
    + intros He x t' [[= -> ->]|Hin]%elem_of_cons Hx; [by right|by apply I2].
    + intros He. specialize (I4 He). rewrite filter_cons_True by (cbn; by rewrite Hk, Hf). cbn. lia.
  - rewrite sweep_entries_stop. split; [auto|]. split; [done|]. split; [lia|]. split; [done|].
    intros Hok. by rewrite Hok in Hio.
  - assert (∀ d' t', (d', t') ∈ visited_in es → delete d m !! d' = Some t') as Hdel.
    { intros d' t' Hin. rewrite lookup_delete_ne; [by apply Hm'|]. intros ->. by apply (Hne d' t'). }
    specialize (IH (delete d m) (mkSweep (sw_removed n + 1) (sw_deferred n)) Hdel Hnd).
    destruct (fold_left _ es _) as [[m' n'] err]. cbn in IH.
    destruct IH as (I1 & I2 & I3 & I4 & I5).
    assert (m !! d = Some t) as Hd by (apply Hm; left).
    split; [|split; [|split; [|split; [|done]]]].
    + intros x. destruct (decide (x = d)) as [->|Hx].
      * right. split; [|exists t; split; [left|done]].
        destruct (I1 d) as [->|[? _]]; [by rewrite lookup_delete_eq|done].
      * destruct (I1 x) as [Heq|(? & t' & ? & ?)]; [left; by rewrite Heq, lookup_delete_ne|].
        right. split; [done|]. exists t'. split; [by right|done].
    + intros He x t' [[= -> ->]|Hin]%elem_of_cons Hx; [|by eapply I2]. exfalso.
      destruct (I1 d) as [Heq|[? _]]; [|congruence]. rewrite lookup_delete_eq in Heq. congruence.
    + rewrite map_size_delete, Hd in I3. assert (size m ≠ 0); [|lia].
      rewrite map_size_ne_0_lookup. exists d. eauto.
    + intros He. rewrite filter_cons_False by (cbn; by rewrite Hk, Hf). by apply I4.
Qed.


(** A loop that visits every entry of the map once. *)
Lemma sweep_items_spec es m n :
  visited_in es ≡ₚ map_range m →
  let '(m', n', err) := sweep_items op keep fresh es m n in
  (∀ d t, m' !! d = Some t → m !! d = Some t) ∧
  (∀ d t, m !! d = Some t → keep d = true ∨ fresh t = true → m' !! d = Some t) ∧
  (err = None → ∀ d t, m' !! d = Some t → keep d = true ∨ fresh t = true) ∧
  (sw_removed n' - sw_removed n = Z.of_nat (size m) - Z.of_nat (size m'))%Z ∧
  (err = None →
    sw_deferred n' - sw_deferred n =
      Z.of_nat (length (filter (λ e, deferred e = true) (map_range m))))%Z ∧
  ((∀ o, io_fail o = false) → err = None).
Proof.
  intros Hes. unfold sweep_items. pose proof (sweep_entries_spec es m n) as Hs.
  destruct (fold_left _ es (m, n, None)) as [[m' n'] err].
  rewrite Hes in Hs. destruct Hs as (I1 & I2 & I3 & I4 & I5).
  { intros d t. by rewrite Hes, elem_of_map_range. }
  { apply NoDup_map_keys. }
  setoid_rewrite Hes in I1. setoid_rewrite Hes in I2.
  split; [|split; [|split; [|done]]].
  - intros d t Hd. destruct (I1 d) as [Heq|[? _]]; congruence.
  - intros d t Hd Hkf. destruct (I1 d) as [Heq|(_ & t' & Hin & Hk & Hf)]; [congruence|].
    rewrite elem_of_map_range in Hin. assert (t' = t) as -> by congruence. destruct Hkf; congruence.
  - intros He d t Hd. apply (I2 He d t); [|done]. rewrite elem_of_map_range.
    destruct (I1 d) as [Heq|[? _]]; congruence.
Qed.
End entries.

Lemma visited_visits m : visited_in (visits m) = dir_entries m.
Proof.
  unfold visits, visited_in. induction (dir_entries m) as [|[d t] es IH]; cbn; [done|]. by f_equal.
Qed.
Lemma dir_entries_perm m : dir_entries m ≡ₚ map_range m.
Proof. apply sort_slice_perm. Qed.
Lemma visited_links op m : visited_in (ListDir op :: visits m) ≡ₚ map_range m.
Proof.
  change (visited_in (ListDir op :: visits m)) with (visited_in (visits m)).
  by rewrite visited_visits, dir_entries_perm.
Qed.

(** The blob tree is visited once, prefix after prefix. *)
Lemma visited_prefixes m ps :
  NoDup ps →
  let es := ps ≫= λ p, ListDir (OpReadPrefix p) :: visits (filter (λ e, prefix_of e.1 = p) m) in
  NoDup (visited_in es) ∧ ∀ e, e ∈ visited_in es ↔ m !! e.1 = Some e.2 ∧ prefix_of e.1 ∈ ps.
Proof.
  assert (∀ p e, e ∈ visited_in (ListDir (OpReadPrefix p) :: visits (filter (λ e, prefix_of e.1 = p) m)) ↔
    m !! e.1 = Some e.2 ∧ prefix_of e.1 = p) as Hone.
  { intros p [d t]. rewrite visited_links, elem_of_map_range, map_lookup_filter_Some. done. }
  induction ps as [|p ps IH]; intros Hnd es.
  { split; [apply NoDup_nil_2|]. intros e. split; [by intros ?%elem_of_nil|by intros [_ ?%elem_of_nil]]. }
  apply NoDup_cons in Hnd as [Hp Hnd]. specialize (IH Hnd) as [IHn IHe].
  subst es. rewrite bind_cons. unfold visited_in. rewrite omap_app. fold visited_in. split.
  - apply NoDup_app. split; [|split; [|exact IHn]].
    + change (NoDup (visited_in (ListDir (OpReadPrefix p) :: visits (filter (λ e, prefix_of e.1 = p) m)))).
      rewrite visited_links, map_range_perm. apply NoDup_map_to_list.
    + intros e [_ He]%Hone [_ He']%IHe. congruence.
  - intros e. rewrite elem_of_app, elem_of_cons. setoid_rewrite (Hone p e). setoid_rewrite (IHe e).
    clear. naive_solver.
Qed.

Lemma visited_blobs m : visited_in (blob_items m) ≡ₚ map_range m.
Proof.
  destruct (visited_prefixes m (blob_prefixes m)) as [Hnd He].
  { unfold blob_prefixes. rewrite sort_slice_perm. apply NoDup_elements. }
  apply NoDup_Permutation; [exact Hnd| |].
  { rewrite map_range_perm. apply NoDup_map_to_list. }
  intros [d t]. etransitivity; [apply He|]. cbn. rewrite elem_of_map_range.
  split; [tauto|]. intros Hd. split; [done|]. unfold blob_prefixes.
  rewrite elem_of_sort_slice, elem_of_elements, elem_of_list_to_set, list_elem_of_fmap.
  exists d. split; [done|]. rewrite elem_of_map_keys. eauto.
Qed.

(** ** One repository *)

(** The tags that can be read, and the library's view of one repository. *)
Definition repo_live (st : Store) (name : string) (d : string) : Prop :=
  ∃ r, st_repos st !! name = Some r ∧ live (manifest_get st name) (tag_roots name r) d.
Definition repo_separated (st : Store) (name : string) : Prop :=
  ∀ r, st_repos st !! name = Some r → separated (manifest_get st name) (tag_roots name r).

Lemma markRepository_spec st name res :
  markRepository st name = Ok res →
  ∃ reach, res = Some reach ∧ (∀ d, d ∈ reach → repo_live st name d) ∧
    (repo_separated st name → ∀ d, repo_live st name d → d ∈ reach).
Proof.
  unfold markRepository. intros (_ & _ & (_ & _ & Hm)%res_bind_Ok)%res_bind_Ok.
  unfold repo_live, repo_separated. destruct (st_repos st !! name) as [r|] eqn:Hr.
  - apply res_bind_Ok in Hm as (_ & _ & Hm). injection Hm as <-.
    destruct (mark_roots_spec (manifest_get st name) (tag_roots name r) (dom (rd_revisions r))
      (S (size (rd_revisions r)))) as (reach & Hreach & Hin & Hout).
    + intros d [x Hx]. unfold manifest_get in Hx. destruct (io_fail _); [done|]. rewrite Hr in Hx.
      cbn in Hx. apply bind_Some in Hx as (t & Ht & _). apply elem_of_dom. eauto.
    + rewrite size_dom. lia.
    + exists reach. split; [exact Hreach|]. split; [eauto|]. intros Hsep d (r' & [= <-] & Hd). auto.
  - injection Hm as <-. exists ∅. split; [done|]. split; [by intros d ?%elem_of_empty|].
    by intros _ d (r & ? & _).
Qed.

(** Two repository directories after a sweep of links. *)
Definition links_kept (cutoff : time) (alive : string → Prop) (r r' : RepoDir) : Prop :=
  rd_tags r' = rd_tags r ∧
  (∀ d t, alive d ∨ linkFresh cutoff t = true →
    (rd_revisions r !! d = Some t → rd_revisions r' !! d = Some t) ∧
    (rd_layers r !! d = Some t → rd_layers r' !! d = Some t)) ∧
  (∀ d t, (rd_revisions r' !! d = Some t → rd_revisions r !! d = Some t) ∧
          (rd_layers r' !! d = Some t → rd_layers r !! d = Some t)).
Definition links_swept (cutoff : time) (alive : string → Prop) (r' : RepoDir) : Prop :=
  ∀ d t, rd_revisions r' !! d = Some t ∨ rd_layers r' !! d = Some t → alive d ∨ linkFresh cutoff t = true.
Definition link_count (r : RepoDir) : Z := Z.of_nat (size (rd_revisions r)) + Z.of_nat (size (rd_layers r)).

Lemma pruneRepositoryLinks_spec name reach cutoff r n :
  let '(r', n', err) := pruneRepositoryLinks name reach cutoff r n in
  links_kept cutoff (λ d, d ∈ reach) r r' ∧ (err = None → links_swept cutoff (λ d, d ∈ reach) r') ∧
  (sw_removed n' - sw_removed n = link_count r - link_count r')%Z ∧
  ((∀ op, io_fail op = false) → err = None).
Proof.
  unfold pruneRepositoryLinks, link_count.
  pose proof (sweep_items_spec (OpRemoveRevision name) (λ d, bool_decide (d ∈ reach)) (linkFresh cutoff)
    (ListDir (OpReadRevisions name) :: visits (rd_revisions r)) (rd_revisions r) n (visited_links _ _)) as P1.
  destruct (sweep_items (OpRemoveRevision name) _ _ _ (rd_revisions r) n) as [[revs n1] err1].
  destruct P1 as (A1 & B1 & C1 & D1 & _ & E1).
  assert (∀ d t, rd_revisions r !! d = Some t → d ∈ reach ∨ linkFresh cutoff t = true → revs !! d = Some t) as B1'.
  { intros d t Hd [?|?]; apply B1; try done; [left; by apply bool_decide_eq_true|by right]. }
  destruct err1 as [e1|]; cbn [rd_tags rd_revisions rd_layers].
  { split; [|split; [done|split; [lia|intros Hok; by specialize (E1 Hok)]]].
    split; [done|]. split; cbn; auto. }
  pose proof (sweep_items_spec (OpRemoveLayer name) (λ d, bool_decide (d ∈ reach)) (linkFresh cutoff)
    (ListDir (OpReadLayers name) :: visits (rd_layers r)) (rd_layers r) n1 (visited_links _ _)) as P2.
  destruct (sweep_items (OpRemoveLayer name) _ _ _ (rd_layers r) n1) as [[layers n2] err2].
  destruct P2 as (A2 & B2 & C2 & D2 & _ & E2).
  split; [|split; [|split; [cbn; lia|intros Hok; by apply E2]]].
  - split; [done|]. split; cbn; [|auto]. intros d t Hdt. split; [auto|]. intros Hd. apply B2; [done|].
    destruct Hdt; [left; by apply bool_decide_eq_true|by right].
  - intros He2 d t. cbn. intros [Hd|Hd].
    + destruct (C1 eq_refl d t Hd) as [?%bool_decide_eq_true|?]; auto.
    + destruct (C2 He2 d t Hd) as [?%bool_decide_eq_true|?]; auto.
Qed.

(** ** All repositories *)

Definition repo_links (st : Store) (name : string) : Z :=
  match st_repos st !! name with Some r => link_count r | None => 0 end.
Fixpoint links_of (st : Store) (names : list string) : Z :=
  match names with [] => 0%Z | name :: names => (repo_links st name + links_of st names)%Z end.

(** What a loop over repositories does to each of them. *)
Definition repo_kept (cutoff : time) (st st' : Store) (name : string) : Prop :=
  match st_repos st !! name with
  | None => st_repos st' !! name = None
  | Some r => ∃ r', st_repos st' !! name = Some r' ∧ links_kept cutoff (repo_live st name) r r'
  end.

Lemma links_kept_weaken cutoff (alive alive' : string → Prop) r r' :
  (∀ d, alive' d → alive d) → links_kept cutoff alive r r' → links_kept cutoff alive' r r'.
Proof.
  intros Himp (K1 & K2 & K3). split; [done|]. split; [|done]. intros d t [?|?]; apply K2; auto.
Qed.
Lemma links_swept_weaken cutoff (alive alive' : string → Prop) r :
  (∀ d, alive d → alive' d) → links_swept cutoff alive r → links_swept cutoff alive' r.
Proof. intros Himp Hs d t Hd. destruct (Hs d t Hd); auto. Qed.

Lemma links_kept_refl cutoff alive r : links_kept cutoff alive r r.
Proof. split; [done|]. split; auto. Qed.

Lemma links_of_ext st st' names :
  (∀ name, name ∈ names → st_repos st' !! name = st_repos st !! name) → links_of st' names = links_of st names.
Proof.
  induction names as [|name names IH]; intros Heq; cbn [links_of]; [done|]. unfold repo_links.
  rewrite (Heq name) by left. rewrite IH; [done|]. intros x Hx. apply Heq. by right.
Qed.

Lemma repo_kept_refl cutoff st name : repo_kept cutoff st st name.
Proof.
  unfold repo_kept. destruct (st_repos st !! name) as [r|]; [|done].
  exists r. split; [done|]. apply links_kept_refl.
Qed.
Lemma repo_kept_same cutoff st st' name :
  st_repos st' !! name = st_repos st !! name → repo_kept cutoff st st' name.
Proof.
  intros Heq. unfold repo_kept. rewrite Heq. destruct (st_repos st !! name) as [r|]; [|done].
  exists r. split; [done|]. apply links_kept_refl.
Qed.

(** What the loop over some repositories does. *)
Record loop_spec (cutoff : time) (names : list string) (global : gset string) (n : sweepResult) (st : Store)
    (global' : gset string) (n' : sweepResult) (err : option store_error) (st' : Store) : Prop := {
  loop_blobs : st_blobs st' = st_blobs st;
  loop_meta : st_meta st' = st_meta st;
  loop_others : ∀ name, name ∉ names → st_repos st' !! name = st_repos st !! name;
  loop_kept : ∀ name, repo_separated st name → repo_kept cutoff st st' name;
  loop_marked : ∀ d, d ∈ global' → d ∈ global ∨ ∃ name, name ∈ names ∧ repo_live st name d;
  loop_grows : global ⊆ global';
  loop_count : (sw_removed n' - sw_removed n = links_of st names - links_of st' names)%Z;
  loop_done : err = None → ∀ name, name ∈ names →
    (∀ r', st_repos st' !! name = Some r' → links_swept cutoff (repo_live st name) r') ∧
    (repo_separated st name → ∀ d, repo_live st name d → d ∈ global');
  loop_succeeds : (∀ op, io_fail op = false) → (∀ name, name ∈ names → name_ok name = true) → err = None }.

(** One repository. *)
Lemma sweep_repo_spec name cutoff global n st :
  let '((global', n', err), st') := sweep_repo name cutoff global n st in
  loop_spec cutoff [name] global n st global' n' err st'.
Proof.
  unfold sweep_repo. destruct (markRepository st name) as [res|e] eqn:Hmark.
  2: { split; [done|done|done|auto using repo_kept_refl|auto|done|lia|done|]. intros Hok Hname.
       unfold markRepository, repository, io in Hmark. rewrite (Hname name), !Hok in Hmark by left.
       cbn in Hmark. by destruct (st_repos st !! name). }
  destruct (markRepository_spec _ _ _ Hmark) as (reach & -> & Hin & Hout).
  assert (∀ d, d ∈ reach ∪ global → d ∈ global ∨ ∃ x, x ∈ [name] ∧ repo_live st x d) as Hmarked.
  { intros d [Hd|?]%elem_of_union; [|auto]. right. exists name. split; [left|by apply Hin]. }
  destruct (st_repos st !! name) as [r|] eqn:Hr.
  2: { split; [done|done|done|auto using repo_kept_refl|done|apply union_subseteq_r|lia| |done].
       intros _ x ->%list_elem_of_singleton. split; [by rewrite Hr|].
       intros Hsep d Hd. apply elem_of_union_l. by apply Hout. }
  pose proof (pruneRepositoryLinks_spec name reach cutoff r n) as Hp.
  destruct (pruneRepositoryLinks name reach cutoff r n) as [[r1 n1] err1].
  destruct Hp as (Hkept & Hswept & Hcount & Hperr).
  assert (∀ x, x ≠ name → st_repos (set_repo name r1 st) !! x = st_repos st !! x) as Hother
    by (intros x Hx; cbn; by rewrite lookup_insert_ne).
  assert (st_repos (set_repo name r1 st) !! name = Some r1) as Hself by (cbn; by rewrite lookup_insert_eq).
  split; [done|done| | |done|apply union_subseteq_r| | |auto].
  - intros x Hx. apply Hother. intros ->. apply Hx. left.
  - intros x Hsep. destruct (decide (x = name)) as [->|Hx]; [|by apply repo_kept_same, Hother].
    unfold repo_kept. rewrite Hr. exists r1. split; [done|]. eapply links_kept_weaken; [|exact Hkept]. by apply Hout.
  - cbn [links_of]. unfold repo_links. rewrite Hr, Hself. lia.
  - intros He x ->%list_elem_of_singleton. rewrite Hself. split.
    + intros r' [= <-]. eapply links_swept_weaken; [exact Hin|by apply Hswept].
    + intros Hsep d Hd. apply elem_of_union_l. by apply Hout.
Qed.

(** A repository the first part of a loop did not touch looks the same to the rest. *)
Lemma repo_view_same st st1 name :
  st_repos st1 !! name = st_repos st !! name → st_blobs st1 = st_blobs st →
  (∀ d, repo_live st1 name d ↔ repo_live st name d) ∧ (repo_separated st1 name ↔ repo_separated st name).
Proof.
  intros Hr Hb. unfold repo_live, repo_separated.
  assert (manifest_get st1 name = manifest_get st name) as -> by (unfold manifest_get; by rewrite Hr, Hb).
  by rewrite Hr.
Qed.

(** One repository, then the others. *)
Lemma loop_spec_cons cutoff name names global n st global1 n1 st1 global2 n2 err st2 :
  name ∉ names →
  loop_spec cutoff [name] global n st global1 n1 None st1 →
  loop_spec cutoff names global1 n1 st1 global2 n2 err st2 →
  loop_spec cutoff (name :: names) global n st global2 n2 err st2.
Proof.
  intros Hni A B. pose proof (loop_others _ _ _ _ _ _ _ _ _ B name Hni) as Hself.
  assert (∀ x, x ≠ name → st_repos st1 !! x = st_repos st !! x) as Hother.
  { intros x Hx. apply (loop_others _ _ _ _ _ _ _ _ _ A). by rewrite list_elem_of_singleton. }
  assert (∀ x, x ∈ names → x ≠ name) as Hne by (intros x Hx ->; done).
  pose proof (λ x Hx, repo_view_same st st1 x (Hother x Hx) (loop_blobs _ _ _ _ _ _ _ _ _ A)) as Hview.
  destruct (loop_done _ _ _ _ _ _ _ _ _ A eq_refl name ltac:(left)) as [Hswept Hglobal].
  destruct A as [A1 A2 A3 A4 A5 A6 A7 _ A9]. destruct B as [B1 B2 B3 B4 B5 B6 B7 B8 B9]. split.
  - congruence.
  - congruence.
  - intros x [Hx1 Hx2]%not_elem_of_cons. rewrite B3, Hother; done.
  - intros x Hsep. destruct (decide (x = name)) as [->|Hx].
    + specialize (A4 name Hsep). unfold repo_kept in *. by rewrite Hself.
    + destruct (Hview x Hx) as [Hlive Hs]. specialize (B4 x (proj2 Hs Hsep)).
      unfold repo_kept in *. rewrite (Hother x Hx) in B4. destruct (st_repos st !! x) as [rx|]; [|done].
      destruct B4 as (r' & Hr' & Hk). exists r'. split; [done|].
      eapply links_kept_weaken; [|exact Hk]. intros d Hd. by apply Hlive.
  - intros d Hd. destruct (B5 d Hd) as [Hd1|(x & Hx & Hl)].
    + destruct (A5 d Hd1) as [|(x & ->%list_elem_of_singleton & Hl)]; [auto|]. right. exists name. split; [left|done].
    + right. exists x. split; [by right|]. by apply (Hview x (Hne x Hx)).
  - by etrans.
  - cbn [links_of] in *. unfold repo_links in *. rewrite Hself.
    rewrite <-(links_of_ext st st1 names); [lia|]. intros x Hx. apply Hother; auto.
  - intros He x [->|Hx]%elem_of_cons; [rewrite Hself; auto|].
    destruct (Hview x (Hne x Hx)) as [Hlive Hs]. destruct (B8 He x Hx) as [S1 G1]. split.
    + intros r' Hr'. eapply links_swept_weaken; [|by apply S1]. intros d Hd. by apply Hlive.
    + intros Hsep d Hd. apply G1; [by apply Hs|by apply Hlive].
  - intros Hok Hname. apply B9; [done|]. intros x Hx. apply Hname. by right.
Qed.

Lemma loop_spec_stop cutoff name names global n st global' n' e st' :
  name ∉ names → loop_spec cutoff [name] global n st global' n' (Some e) st' →
  loop_spec cutoff (name :: names) global n st global' n' (Some e) st'.
Proof.
  intros Hni [A1 A2 A3 A4 A5 A6 A7 _ A9]. split; try done.
  - intros x [Hx _]%not_elem_of_cons. apply A3. by rewrite list_elem_of_singleton.
  - intros d Hd. destruct (A5 d Hd) as [|(x & ->%list_elem_of_singleton & ?)]; [auto|].
    right. exists name. split; [left|done].
  - cbn [links_of] in *. rewrite (links_of_ext st st' names); [lia|].
    intros x Hx. apply A3. rewrite list_elem_of_singleton. by intros ->.
  - intros Hok Hname. apply A9; [done|]. intros x ->%list_elem_of_singleton. apply Hname. left.
Qed.

Lemma sweep_repos_spec names cutoff global n st :
  NoDup names →
  let '((global', n', err), st') := sweep_repos names cutoff global n st in
  loop_spec cutoff names global n st global' n' err st'.
Proof.
  revert global n st. induction names as [|name names IH]; intros global n st Hnd; cbn [sweep_repos].
  { split; [done|done|done|auto using repo_kept_refl|auto|done|lia| |done]. by intros _ x ?%elem_of_nil. }
  apply NoDup_cons in Hnd as [Hni Hnd]. pose proof (sweep_repo_spec name cutoff global n st) as Hone.
  destruct (sweep_repo name cutoff global n st) as [[[global1 n1] [e|]] st1]; [by apply loop_spec_stop|].
  specialize (IH global1 n1 st1 Hnd). destruct (sweep_repos names cutoff global1 n1 st1) as [[[global2 n2] err] st2].
  by eapply loop_spec_cons.
Qed.

(** ** The whole sweep *)

Lemma Repositories_spec st repos :
  Repositories st = Ok repos → NoDup repos ∧ ∀ name, name ∈ repos ↔ is_Some (st_repos st !! name).
Proof.
  unfold Repositories. intros (_ & _ & [= <-])%res_bind_Ok. split.
  - rewrite sort_slice_perm. apply NoDup_map_keys.
  - intros name. by rewrite elem_of_sort_slice, elem_of_map_keys.
Qed.

Lemma sweep_spec cutoff st res st' :
  sweep cutoff st = (res, st') →
  (∀ name, repo_separated st name) →
  (∀ name, repo_kept cutoff st st' name) ∧
  (∀ name d, repo_live st name d → st_blobs st' !! d = st_blobs st !! d) ∧
  (∀ d t, st_blobs st' !! d = Some t → st_blobs st !! d = Some t) ∧
  (∀ d t, st_blobs st !! d = Some t → blobFresh cutoff t = true → st_blobs st' !! d = Some t) ∧
  (∀ n, res = Ok n →
    (∀ name r', st_repos st' !! name = Some r' → links_swept cutoff (repo_live st name) r') ∧
    (∀ d t, st_blobs st' !! d = Some t → blobFresh cutoff t = true ∨ ∃ name, repo_live st name d) ∧
    ∃ repos, Repositories st = Ok repos ∧
      sw_removed n = (links_of st repos - links_of st' repos +
        Z.of_nat (size (st_blobs st)) - Z.of_nat (size (st_blobs st')))%Z) ∧
  ((∀ op, io_fail op = false) → (∀ name, is_Some (st_repos st !! name) → name_ok name = true) →
    ∃ n, res = Ok n).
Proof.
  intros Hsweep Hsep. unfold sweep in Hsweep.
  pose proof (repo_kept_refl cutoff st) as Hsame.
  destruct (Repositories st) as [repos|e] eqn:Hrepos.
  2: { injection Hsweep as <- <-. do 4 (split; [done|]). split; [done|].
       intros Hok. unfold Repositories, io in Hrepos. by rewrite Hok in Hrepos. }
  destruct (Repositories_spec st repos Hrepos) as [Hnd Hin].
  pose proof (sweep_repos_spec repos cutoff ∅ (mkSweep 0 0) st Hnd) as Hs.
  destruct (sweep_repos repos cutoff ∅ (mkSweep 0 0) st) as [[[global n1] err] st1].
  destruct Hs as [S1 S2 S3 S4 S5 S6 S7 S8 S9]. cbn [sw_removed] in S7.
  destruct err as [e|].
  { injection Hsweep as <- <-. rewrite S1. split; [auto|]. do 3 (split; [done|]). split; [done|].
    intros Hok Hname. discriminate (S9 Hok (λ x Hx, Hname x (proj1 (Hin x) Hx))). }
  pose proof (sweep_items_spec OpRemoveBlob (λ d, bool_decide (d ∈ global)) (blobFresh cutoff)
    (blob_items (st_blobs st1)) (st_blobs st1) n1 (visited_blobs _)) as Hb.
  destruct (sweep_items OpRemoveBlob _ _ _ (st_blobs st1) n1) as [[blobs n2] err2].
  destruct Hb as (B1 & B2 & B3 & B4 & _ & B6). injection Hsweep as <- <-. rewrite S1 in *.
  cbn [set_blobs st_repos st_blobs].
  assert (∀ name d, repo_live st name d → d ∈ global) as Hglobal.
  { intros name d Hl. assert (name ∈ repos) as Hn.
    { apply Hin. destruct Hl as (r & Hr & _). eauto. }
    destruct (S8 eq_refl name Hn) as [_ HG]. by apply HG. }
  split; [intros x; exact (S4 x (Hsep x))|]. split; [|split; [done|split; [|split]]].
  - intros name d Hl. destruct (st_blobs st !! d) as [t|] eqn:Hd.
    + apply B2; [done|]. left. by apply bool_decide_eq_true, (Hglobal name).
    + destruct (blobs !! d) as [t|] eqn:Hd'; [|done]. apply B1 in Hd'. congruence.
  - intros d t Hd Hf. apply B2; auto.
  - intros n Hn. destruct err2 as [e|]; [done|]. injection Hn as <-. split; [|split].
    + intros name r' Hr'. assert (name ∈ repos) as Hn.
      { apply Hin. specialize (S4 name (Hsep name)). unfold repo_kept in S4.
        destruct (st_repos st !! name) as [r|]; [eauto|congruence]. }
      by apply (S8 eq_refl name Hn).
    + intros d t Hd. destruct (B3 eq_refl d t Hd) as [Hg%bool_decide_eq_true|?]; [|by left].
      right. destruct (S5 d Hg) as [?%elem_of_empty|(name & _ & Hl)]; [done|eauto].
    + exists repos. split; [done|]. assert (links_of (set_blobs blobs st1) repos = links_of st1 repos) as ->.
      { by apply links_of_ext. } lia.
  - intros Hok _. rewrite B6; eauto.
Qed.

(** The manifests as stored, without the failures of reading. *)
Definition stored_manifest (st : Store) (name d : string) : option (bool * list string) :=
  r ← st_repos st !! name; _ ← rd_revisions r !! d; _ ← st_blobs st !! d; content_of d.
Definition stored_live (st : Store) (name d : string) : Prop :=
  ∃ r, st_repos st !! name = Some r ∧ live (stored_manifest st name) (map_values (rd_tags r)) d.
Definition stored_separated (st : Store) (name : string) : Prop :=
  ∀ r, st_repos st !! name = Some r → separated (stored_manifest st name) (map_values (rd_tags r)).

(** The reads of the mark succeed. *)
Definition reads_ok (name : string) : Prop :=
  (∀ tag, io_fail (OpTagGet name tag) = false) ∧ ∀ d, io_fail (OpManifestGet name d) = false.

Lemma live_manifest_ext get1 get2 roots1 roots2 d :
  (∀ x, get1 x = get2 x) → (∀ x, x ∈ roots1 → x ∈ roots2) →
  live_manifest get1 roots1 d → live_manifest get2 roots2 d.
Proof.
  intros Hg Hr. induction 1 as [d Hd|m refs d Hm IH Hget Hd]; [apply live_root; auto|].
  eapply live_child; [exact IH|by rewrite <-Hg|done].
Qed.

Lemma reads_view st name r :
  reads_ok name → (∀ x, manifest_get st name x = stored_manifest st name x) ∧
  (∀ x, x ∈ tag_roots name r ↔ x ∈ map_values (rd_tags r)).
Proof.
  intros [Ht Hm]. split.
  - intros x. unfold manifest_get. by rewrite Hm.
  - intros x. unfold tag_roots, map_values. rewrite !list_elem_of_fmap.
    setoid_rewrite list_elem_of_filter. split; intros (p & -> & Hp); exists p; [tauto|auto].
Qed.

Lemma stored_live_view st name d : reads_ok name → stored_live st name d → repo_live st name d.
Proof.
  intros Hok (r & Hr & Hl). exists r. split; [done|]. destruct (reads_view st name r Hok) as [Hg Hx].
  assert (∀ x, live_manifest (stored_manifest st name) (map_values (rd_tags r)) x →
    live_manifest (manifest_get st name) (tag_roots name r) x) as Hext.
  { intros x. apply live_manifest_ext; [done|]. intros y. by rewrite Hx. }
  destruct Hl as [Hl|(m & refs & Hm & Hget & Hd)]; [left; auto|]. right. exists m, refs.
  rewrite Hg. auto.
Qed.

Lemma stored_separated_view st name : reads_ok name → stored_separated st name → repo_separated st name.
Proof.
  intros Hok Hsep r Hr d (m & refs & Hm & Hget & Hd) Hl. destruct (reads_view st name r Hok) as [Hg Hx].
  assert (∀ x, live_manifest (manifest_get st name) (tag_roots name r) x →
    live_manifest (stored_manifest st name) (map_values (rd_tags r)) x) as Hext.
  { intros x. apply live_manifest_ext; [done|]. intros y. by rewrite Hx. }
  apply (Hsep r Hr d); [|auto]. exists m, refs. rewrite <-Hg. auto.
Qed.

(** What a repository's tags reach survives, in the repository and in the blobs. *)
Definition survives (st st' : Store) (name d : string) : Prop :=
  st_blobs st' !! d = st_blobs st !! d ∧
  ∃ r r', st_repos st !! name = Some r ∧ st_repos st' !! name = Some r' ∧
    rd_revisions r' !! d = rd_revisions r !! d ∧ rd_layers r' !! d = rd_layers r !! d.

Lemma sweep_survives cutoff st res st' name r :
  (∀ name, reads_ok name) → (∀ name, stored_separated st name) → sweep cutoff st = (res, st') →
  st_repos st !! name = Some r →
  (∃ r', st_repos st' !! name = Some r' ∧ rd_tags r' = rd_tags r) ∧
  ∀ d, stored_live st name d → survives st st' name d.
Proof.
  intros Hreads Hsep Hsweep Hr.
  destruct (sweep_spec cutoff st res st' Hsweep (λ name, stored_separated_view _ _ (Hreads name) (Hsep name)))
    as (Hkept & Hblobs & _).
  specialize (Hkept name). unfold repo_kept in Hkept. rewrite Hr in Hkept.
  destruct Hkept as (r' & Hr' & Ht & Hk & Hk'). split; [eauto|].
  intros d Hl. apply (stored_live_view _ _ _ (Hreads name)) in Hl.
  split; [by apply (Hblobs name)|]. exists r, r'. split; [done|]. split; [done|]. split.
  - destruct (rd_revisions r !! d) as [t|] eqn:E; [by apply (Hk d t (or_introl Hl))|].
    destruct (rd_revisions r' !! d) as [t|] eqn:E'; [|done]. apply Hk' in E'. congruence.
  - destruct (rd_layers r !! d) as [t|] eqn:E; [by apply (Hk d t (or_introl Hl))|].
    destruct (rd_layers r' !! d) as [t|] eqn:E'; [|done]. apply Hk' in E'. congruence.
Qed.

(** C2: garbage collection never touches what a tag reaches, nor what is young. Whatever
    fails during the sweep - listings, removals, at any point - every manifest, index
    child, configuration and layer reachable from a tag keeps its blob and its links in
    that repository, the tags are untouched, and no blob, revision link or layer link
    laid after the cutoff is removed, nor a link whose time cannot be read; provided the
    mark's reads of tags and manifests succeed and no digest serves both as a manifest
    and as a layer of the same repository. *)
Theorem sweep_keeps_reachable cutoff st res st'
    (Hreads : ∀ name, reads_ok name) (Hsep : ∀ name, stored_separated st name)
    (Hsweep : sweep cutoff st = (res, st')) :
  (∀ name r, st_repos st !! name = Some r →
    ∃ r', st_repos st' !! name = Some r' ∧ rd_tags r' = rd_tags r ∧
      (∀ d, stored_live st name d → survives st st' name d) ∧
      ∀ d t, (∀ at', t = Some at' → (cutoff < at')%Z) →
        (rd_revisions r !! d = Some t → rd_revisions r' !! d = Some t) ∧
        (rd_layers r !! d = Some t → rd_layers r' !! d = Some t)) ∧
  (∀ d at', st_blobs st !! d = Some (Some at') → (cutoff < at')%Z → st_blobs st' !! d = Some (Some at')).
Proof.
  destruct (sweep_spec cutoff st res st' Hsweep (λ name, stored_separated_view _ _ (Hreads name) (Hsep name)))
    as (Hkept & _ & _ & Hfresh & _). split.
  - intros name r Hr. destruct (sweep_survives cutoff st res st' name r Hreads Hsep Hsweep Hr) as [(r' & Hr' & Ht) Hl].
    exists r'. split; [done|]. split; [done|]. split; [done|]. intros d t Hy. specialize (Hkept name).
    unfold repo_kept in Hkept. rewrite Hr, Hr' in Hkept. destruct Hkept as (r2 & [= <-] & _ & Hk & _). apply Hk. right.
    destruct t as [at'|]; [|done]. cbn. specialize (Hy at' eq_refl). lia.
  - intros d at' Hd Hlt. apply Hfresh; [done|]. cbn. lia.
Qed.

(** A sweep that meets no failure is complete and its ledger exact. It
    succeeds; every link and blob left is reachable from a tag or protected by the
    grace period; and the count of removed pieces is the number of links and blobs
    that are gone. *)
Theorem sweep_complete cutoff st
    (Hok : ∀ op, io_fail op = false) (Hnames : ∀ name, is_Some (st_repos st !! name) → name_ok name = true)
    (Hsep : ∀ name, repo_separated st name) :
  ∃ n st' repos, sweep cutoff st = (Ok n, st') ∧
    (∀ name r', st_repos st' !! name = Some r' → links_swept cutoff (repo_live st name) r') ∧
    (∀ d t, st_blobs st' !! d = Some t → blobFresh cutoff t = true ∨ ∃ name, repo_live st name d) ∧
    Repositories st = Ok repos ∧
    sw_removed n = (links_of st repos - links_of st' repos +
      Z.of_nat (size (st_blobs st)) - Z.of_nat (size (st_blobs st')))%Z.
Proof.
  destruct (sweep cutoff st) as [res st'] eqn:Hs.
  destruct (sweep_spec cutoff st res st' Hs Hsep) as (_ & _ & _ & _ & Hres & Htot).
  destruct (Htot Hok Hnames) as [n ->]. destruct (Hres n eq_refl) as (Hl & Hb & repos & Hr & Hn).
  exists n, st', repos. done.
Qed.

(** Content a recipe manages cannot be removed on its own. As long as the
    recipe graph can be read, removing a repository some recipe's ingredients
    occupy is refused, names every such recipe, and changes nothing. *)
Theorem managed_repository_refused name cutoff st
    (Hman : ∃ k r, mt_recipes (st_meta st) !! k = Some r ∧ manages name r = true)
    (Hio : io_fail OpReadRecipes = false) :
  ∃ recipes, DeleteRepository name cutoff st = (Err (ErrRecipeManaged name recipes), st) ∧
    ∀ k r, mt_recipes (st_meta st) !! k = Some r → manages name r = true →
      recipeKey (rr_name r) (rr_version r) ∈ recipes.
Proof.
  unfold DeleteRepository, ManagingRecipes, RecipeRecords, io. rewrite Hio. cbn.
  set (l := (λ r, recipeKey (rr_name r) (rr_version r)) <$>
    filter (λ r, manages name r = true) (map_values (mt_recipes (st_meta st)))).
  assert (∀ k r, mt_recipes (st_meta st) !! k = Some r → manages name r = true →
    recipeKey (rr_name r) (rr_version r) ∈ l) as Hl.
  { intros k r Hr Hm. apply list_elem_of_fmap. exists r. split; [done|].
    apply list_elem_of_filter. split; [done|]. apply elem_of_map_values. eauto. }
  destruct Hman as (k & r & Hr & Hm). specialize (Hl k r Hr Hm) as Hin. destruct l as [|x xs] eqn:El.
  - by apply elem_of_nil in Hin.
  - exists (x :: xs). split; [done|]. exact Hl.
Qed.

(** A sweep brings no repository back. *)
Lemma sweep_absent cutoff st name :
  st_repos st !! name = None → st_repos (sweep cutoff st).2 !! name = None.
Proof.
  intros Hn. unfold sweep. destruct (Repositories st) as [repos|e] eqn:Hrepos; [|done].
  destruct (Repositories_spec st repos Hrepos) as [Hnd Hin].
  pose proof (sweep_repos_spec repos cutoff ∅ (mkSweep 0 0) st Hnd) as Hs.
  destruct (sweep_repos repos cutoff ∅ (mkSweep 0 0) st) as [[[global n1] err] st1].
  pose proof (loop_others _ _ _ _ _ _ _ _ _ Hs) as S3.
  assert (st_repos st1 !! name = None) as Hn1.
  { rewrite S3; [done|]. rewrite Hin, Hn. by intros [? ?]. }
  destruct err as [e|]; [done|]. by destruct (sweep_items _ _ _ _ _ _) as [[blobs n2] err2].
Qed.

(** Removing a repository removes every repository nested under its name.
    Repository directories nest, the removal takes the whole directory, and the
    guard looks at the exact name only: removing one repository also removes, for
    instance, content of a nested repository a recipe manages, while the recipe
    graph goes on listing it. *)
Theorem nested_repository_lost name other cutoff st
    (Hfree : ManagingRecipes name (st_meta st) = [])
    (Hnest : has_prefix other (name +:+ "/") = true)
    (Hother : is_Some (st_repos st !! other))
    (Hio : io_fail (OpRemoveRepository name) = false) :
  let st' := (DeleteRepository name cutoff st).2 in
  st_repos st' !! other = None ∧ st_repos st' !! name = None.
Proof.
  unfold DeleteRepository. rewrite Hfree.
  assert (dir_exists name st = true) as ->.
  { unfold dir_exists. apply existsb_exists. exists other. split.
    - apply list_elem_of_In, elem_of_map_keys. done.
    - unfold below. rewrite Hnest. apply orb_true_r. }
  cbn [negb]. unfold drop_repository, io. rewrite Hio.
  assert (∀ x, below name x = true →
    filter (λ p, below name p.1 = false) (st_repos st) !! x = None) as Hgone.
  { intros x Hx. apply map_lookup_filter_None. right. intros r _. cbn. by rewrite Hx. }
  assert (below name other = true ∧ below name name = true) as [Hb1 Hb2].
  { unfold below. by rewrite Hnest, String.eqb_refl, orb_true_r. }
  destruct (dropProvenance name _) as [m|e]; cbn; [|by rewrite !Hgone].
  match goal with |- context [sweep cutoff ?s] =>
    pose proof (λ x Hx, sweep_absent cutoff s x Hx) as Habs; destruct (sweep cutoff s) as [[n|e] st'] end;
  cbn in Habs |- *; by rewrite !Habs by (by apply Hgone).
Qed.
End sweep.

(** * Concrete stores *)

Definition io_sound : StoreIO := {| io_fail _ := false; name_ok _ := true |}.

(** An index [I] tagged in [r], with child manifest [M] and its layer [L]. *)
Definition demo_contents : Contents := {|
  content_of d :=
    if String.eqb d "I" then Some (true, ["M"])
    else if String.eqb d "M" then Some (false, ["L"])
    else if String.eqb d "A" then Some (false, ["I"])
    else None |}.
Definition old_links (l : list string) : gmap string (option time) :=
  list_to_map ((λ d, (d, Some 0%Z)) <$> l).
Definition demo_repo (tags : list (string * string)) : RepoDir :=
  mkRepoDir (list_to_map tags) (old_links ["I"; "M"; "A"]) (old_links ["L"]).
Definition demo_gc_store (tags : list (string * string)) : Store :=
  mkStore {[ "r" := demo_repo tags ]} (old_links ["I"; "M"; "A"; "L"; "X"]) (mkMeta ∅ ∅).

(** The demonstration store tagged with the index alone is separated. *)
Section demo.
#[local] Existing Instance io_sound.
#[local] Existing Instance demo_contents.
Abbreviation demo := (demo_gc_store [("v1", "I")]).

Lemma demo_manifest name d b refs :
  stored_manifest demo name d = Some (b, refs) →
  d = "I" ∧ b = true ∧ refs = ["M"] ∨ d = "M" ∧ b = false ∧ refs = ["L"] ∨ d = "A".
Proof.
  unfold stored_manifest. intros (r & _ & (t & _ & (u & _ & Hd)%bind_Some)%bind_Some)%bind_Some.
  revert Hd. cbn. destruct (String.eqb_spec d "I") as [->|_]; [intros [= <- <-]; auto|].
  destruct (String.eqb_spec d "M") as [->|_]; [intros [= <- <-]; auto|].
  destruct (String.eqb_spec d "A") as [->|_]; [auto|done].
Qed.
Lemma demo_repos name r : st_repos demo !! name = Some r → r = demo_repo [("v1", "I")].
Proof. cbn. intros [_ <-]%lookup_singleton_Some. done. Qed.
Lemma demo_live name r d :
  st_repos demo !! name = Some r →
  live_manifest (stored_manifest demo name) (map_values (rd_tags r)) d → d = "I" ∨ d = "M".
Proof.
  intros ->%demo_repos. induction 1 as [d Hd|m refs d _ IH Hg Hd].
  - left. apply elem_of_map_values in Hd as [k Hk]. revert Hk. cbn.
    intros [[_ <-]|[_ Hk]]%lookup_insert_Some; [done|]. by rewrite lookup_empty in Hk.
  - apply demo_manifest in Hg as [(-> & _ & ->)|[(-> & ? & _)| ->]]; [|done|by destruct IH].
    right. by apply list_elem_of_singleton in Hd.
Qed.
Lemma demo_stored_separated name : stored_separated demo name.
Proof.
  intros r Hr d (m & refs & Hm & Hg & Hd) Hl. destruct (demo_live _ _ _ Hr Hl) as [->| ->];
  apply demo_manifest in Hg as [(_ & ? & _)|[(_ & _ & ->)| ->]]; try done;
    try (by apply list_elem_of_singleton in Hd);
    destruct (demo_live _ _ _ Hr Hm); done.
Qed.
Lemma demo_separated name : repo_separated demo name.
Proof. apply stored_separated_view; [done|apply demo_stored_separated]. Qed.
End demo.

(** Witness: the demonstration store, whose index, manifest and layer survive. *)
Lemma sweep_keeps_reachable_witness :
  let st' := (sweep (H0 := io_sound) (H1 := demo_contents) 10 (demo_gc_store [("v1", "I")])).2 in
  st_blobs st' !! "I" = Some (Some 0%Z) ∧
  ∃ r', st_repos st' !! "r" = Some r' ∧ rd_tags r' = {[ "v1" := "I" ]}.
Proof.
  destruct (sweep (H0 := io_sound) (H1 := demo_contents) 10 (demo_gc_store [("v1", "I")]))
    as [res st'] eqn:Hs.
  destruct (sweep_keeps_reachable (H0 := io_sound) (H1 := demo_contents) 10 _ res st'
    (λ _, conj (λ _, eq_refl) (λ _, eq_refl)) demo_stored_separated Hs) as [Hk _].
  destruct (Hk "r" (demo_repo [("v1", "I")]) eq_refl) as (r' & Hr' & Ht & Hl & _).
  destruct (Hl "I") as [Hb _].
  - exists (demo_repo [("v1", "I")]). split; [reflexivity|]. left. apply live_root.
    apply elem_of_map_values. exists "v1". reflexivity.
  - split; [etransitivity; [exact Hb|reflexivity]|]. exists r'. split; [exact Hr'|].
    etransitivity; [exact Ht|reflexivity].
Defined.

(** Witness: the same store; the stray blob and the untagged manifest go. *)
Lemma sweep_complete_witness :
  ∃ n st', sweep (H0 := io_sound) (H1 := demo_contents) 10 (demo_gc_store [("v1", "I")]) = (Ok n, st').
Proof.
  destruct (sweep_complete (H0 := io_sound) (H1 := demo_contents) 10 (demo_gc_store [("v1", "I")])
    (λ _, eq_refl) (λ _ _, eq_refl) demo_separated) as (n & st' & _ & Hs & _).
  exists n, st'. exact Hs.
Defined.

(** Witness: a recipe of one ingredient holds the repository [r]. *)
Lemma managed_repository_refused_witness :
  let rec := mkRecipeRecord "web" "1" "" "" "" "" "" "" 0 true ""
    [mkIngredientRecord "img" "image" "r" "v1" "I"] in
  let st := mkStore {[ "r" := demo_repo [("v1", "I")] ]} ∅ (mkMeta ∅ {[ "web@1" := rec ]}) in
  ∃ recipes, DeleteRepository (H0 := io_sound) (H1 := demo_contents) "r" 10 st =
    (Err (ErrRecipeManaged "r" recipes), st).
Proof.
  intros rec st.
  destruct (managed_repository_refused (H0 := io_sound) (H1 := demo_contents) "r" 10 st)
    as (recipes & Heq & _).
  - exists "web@1", rec. split; reflexivity.
  - reflexivity.
  - exists recipes. exact Heq.
Defined.

(** Witness: [r] is free to go, [r/x] belongs to a recipe. *)
Lemma nested_repository_lost_witness :
  let rec := mkRecipeRecord "web" "1" "" "" "" "" "" "" 0 true ""
    [mkIngredientRecord "img" "image" "r/x" "v1" "I"] in
  let st := mkStore {[ "r" := demo_repo []; "r/x" := demo_repo [("v1", "I")] ]} ∅
    (mkMeta ∅ {[ "web@1" := rec ]}) in
  let st' := (DeleteRepository (H0 := io_sound) (H1 := demo_contents) "r" 10 st).2 in
  ManagingRecipes (H0 := io_sound) "r/x" (st_meta st') = ["web@1"] ∧ st_repos st' !! "r/x" = None.
Proof.
  intros rec st st'. split; [reflexivity|].
  destruct (nested_repository_lost (H0 := io_sound) (H1 := demo_contents) "r" "r/x" 10 st) as [Hx _].
  - reflexivity.
  - reflexivity.
  - exists (demo_repo [("v1", "I")]). reflexivity.
  - reflexivity.
  - exact Hx.
Defined.

(** A read that fails during the mark deletes live content. When the index
    of a tag cannot be read for whatever reason, the mark takes it for a sparse
    child and marks nothing below it: its manifests and layers, reachable and past
    the grace period, are swept, and the sweep reports success. The same happens
    without any failure when the index's digest was marked earlier as a layer of
    another manifest. *)
Theorem mark_loses_content :
  let flaky : StoreIO :=
    {| io_fail op := match op with OpManifestGet _ d => String.eqb d "I" | _ => false end; name_ok _ := true |} in
  let swept tags io :=
    sweep (H0 := io) (H1 := demo_contents) 10 (demo_gc_store tags) in
  (is_ok (swept [("v1", "I")] flaky).1 = true ∧
   st_blobs (swept [("v1", "I")] flaky).2 !! "L" = None) ∧
  (is_ok (swept [("v1", "I")] io_sound).1 = true ∧
   st_blobs (swept [("v1", "I")] io_sound).2 !! "L" = Some (Some 0%Z)) ∧
  is_ok (swept [("a", "A"); ("v1", "I")] io_sound).1 = true ∧
  (st_blobs (swept [("a", "A"); ("v1", "I")] io_sound).2 !! "L" = None ∨
   st_blobs (swept [("v1", "I"); ("a", "A")] io_sound).2 !! "L" = None).
Proof. split; [|split; [|split]]; vm_compute; auto. Qed.
