(* ===== verification/Prune.v ===== *)
(** The prune to the Retriever (internal/engine/prune.go): which tags a run
    unlinks once every entry of the Retriever resolved, over the store of
    internal/store/gc.go and internal/store/meta.go. *)

From S2P Require Import Prelude GoStrings Relocate Tasks StoreMeta StoreGC.

#[export] Instance TagRef_eq_dec : EqDecision TagRef.
Proof. solve_decision. Defined.

(** [PruneItem] and [PruneProjection]. *)
Record PruneItem := mkPruneItem {
  pi_repo : string; pi_tag : string; pi_digest : string; pi_recipe : string; pi_bytes : Z }.
Record PruneProjection := mkProjection { pp_items : list PruneItem; pp_total : Z }.

(** [resolvedRecipes]: the graph keys a run resolved, and whether it is complete. *)
Record resolvedRecipes := mkResolved { rv_keys : gset string; rv_complete : bool }.
Definition newResolvedRecipes : resolvedRecipes := mkResolved ∅ true.
Definition keep_recipe (name version : string) (r : resolvedRecipes) : resolvedRecipes :=
  mkResolved ({[ recipeKey name version ]} ∪ rv_keys r) (rv_complete r).
Definition failed_recipe (r : resolvedRecipes) : resolvedRecipes := mkResolved (rv_keys r) false.

(** [candidate]. *)
Record candidate := mkCandidate { cd_ref : TagRef; cd_digest : string }.

(** [strings.Replace] of the first occurrence. *)
Definition replace_first (old new s : string) : string :=
  match index_str old s with
  | Some i => stake i s +:+ new +:+ sdrop (i + String.length old) s
  | None => s
  end.
(** [SignatureTag] (cookbook.go) and [signatureRefs]. *)
Definition SignatureTag (dgst : string) : string := replace_first "sha256:" "sha256-" dgst +:+ ".sig".
Definition signatureRefs (repo dgst : string) : list TagRef :=
  if has_prefix dgst "sha256:" then
    [mkTagRef repo (SignatureTag dgst); mkTagRef repo (replace_first "sha256:" "sha256-" dgst)]
  else [].

Section prune.
Context `{GoRuntime, StoreIO, Contents}.

(** [candidatesOf]: the ingredients' tags and the recipe artifact's own. *)
Definition ingredient_candidate (i : IngredientRecord) : option candidate :=
  if String.eqb (ir_repo i) "" || String.eqb (ir_tag i) "" then None
  else Some (mkCandidate (mkTagRef (ir_repo i) (ir_tag i)) (ir_digest i)).
Definition candidatesOf (base : string) (r : RecipeRecord) : list candidate :=
  omap ingredient_candidate (rr_ingredients r) ++
  match PathWithBase base (rr_cookbook r) with
  | Ok repo =>
      if String.eqb (rr_version r) "" then []
      else [mkCandidate (mkTagRef repo (rr_version r)) (rr_digest r)]
  | Err _ => []
  end.

(** [splitRecords]: the entries the run did not resolve, by key, and the others. *)
Definition record_key (r : RecipeRecord) : string := recipeKey (rr_name r) (rr_version r).
Definition splitRecords (records : list RecipeRecord) (keys : gset string)
  : list RecipeRecord * list RecipeRecord :=
  (sort_slice (λ a b, str_ltb (record_key a) (record_key b))
     (filter (λ r, record_key r ∉ keys) records),
   filter (λ r, record_key r ∈ keys) records).

(** [referencedTags]: the tags the retained records ask for. *)
Definition referencedTags (base : string) (keep : list RecipeRecord) : list TagRef :=
  cd_ref <$> (keep ≫= candidatesOf base).

(** [pruneCandidates]: the tags to unlink and the rows to report. *)
Definition class_recipe (repo : string) (m : Meta) : bool :=
  match ProvenanceOf repo m with
  | Some p => bool_decide (pv_class p = ProvenanceRecipe)
  | None => false
  end.
Definition eligible (m : Meta) (kept : list TagRef) (c : candidate) : bool :=
  negb (bool_decide (cd_ref c ∈ kept)) && class_recipe (tr_repo (cd_ref c)) m.
Definition candidate_refs (c : candidate) : list TagRef :=
  cd_ref c :: signatureRefs (tr_repo (cd_ref c)) (cd_digest c).
Definition candidate_row (r : RecipeRecord) (c : candidate) : PrunedRow :=
  mkPruned (tr_repo (cd_ref c)) (tr_tag (cd_ref c)) (cd_digest c) (record_key r).
Definition pruneCandidates (base : string) (m : Meta) (stale : list RecipeRecord) (kept : list TagRef)
  : list TagRef * list PrunedRow :=
  let chosen r := filter (λ c, eligible m kept c = true) (candidatesOf base r) in
  (stale ≫= λ r, chosen r ≫= candidate_refs, stale ≫= λ r, candidate_row r <$> chosen r).

(** Forgetting the stale entries: a failure is logged and skipped. *)
Definition forget_record (m : Meta) (r : RecipeRecord) : Meta :=
  match DeleteRecipeRecord (rr_name r) (rr_version r) m with Ok m => m | Err _ => m end.
Definition forget_all (stale : list RecipeRecord) (st : Store) : Store :=
  mkStore (st_repos st) (st_blobs st) (fold_left forget_record stale (st_meta st)).

(** [pruneToRetriever]; the rows it records on the task, if it gets that far. *)
Definition pruneToRetriever (base : string) (resolved : resolvedRecipes) (cutoff : time) (st : Store)
  : option (list PrunedRow) * Store :=
  if negb (rv_complete resolved) then (None, st)
  else
    match RecipeRecords (st_meta st) with
    | Err _ => (None, st)
    | Ok records =>
        let '(stale, keep) := splitRecords records (rv_keys resolved) in
        match stale with
        | [] => (None, st)
        | _ =>
            let '(refs, pruned) := pruneCandidates base (st_meta st) stale (referencedTags base keep) in
            let st := forget_all stale st in
            match refs with
            | [] => (None, st)
            | _ =>
                match PruneTags refs cutoff st with
                | (Err _, st) => (None, st)
                | (Ok _, st) => (Some pruned, st)
                end
            end
        end
    end.

(** [ProjectPrune] once the Retriever's keys are resolved; [manifest_size] is the
    size [ManifestInfo] reports, if it can. *)
Definition project_item (manifest_size : string → string → option Z) (row : PrunedRow) : PruneItem :=
  mkPruneItem (pr_repo row) (pr_tag row) (pr_digest row) (pr_recipe row)
    (default 0%Z (manifest_size (pr_repo row) (pr_tag row))).
Definition ProjectPrune (base : string) (keys : gset string)
    (manifest_size : string → string → option Z) (st : Store) : res store_error PruneProjection :=
  records ← RecipeRecords (st_meta st);
  let '(stale, keep) := splitRecords records keys in
  let '(_, pruned) := pruneCandidates base (st_meta st) stale (referencedTags base keep) in
  let items := project_item manifest_size <$> pruned in
  Ok (mkProjection items (fold_left (λ total i, add64 total (pi_bytes i)) items 0%Z)).
End prune.
