(* ===== verification/PruneSafety.v ===== *)
(** What a prune (internal/engine/prune.go over internal/store/gc.go) may remove:
    the protected repositories and the tags the Retriever still asks for keep
    everything they reach; and where a prune takes more than that. *)

From S2P Require Import Prelude GoStrings Relocate Tasks StoreMeta StoreGC StoreSafety Prune.

Lemma below_refl name : below name name = true.
Proof. unfold below. by rewrite String.eqb_refl. Qed.

Lemma below_trans a b c : below a b = true → below b c = true → below a c = true.
Proof.
  unfold below. rewrite !orb_true_iff, !String.eqb_eq, !has_prefix_spec.
  intros [->|[x ->]] [->|[y ->]]; eauto.
  right. exists (x +:+ "/" +:+ y). by rewrite !sapp_assoc.
Qed.

Section prune_tags.
Context `{GoRuntime, StoreIO, Contents}.

(** One repository after tags in [gone] were unlinked. *)
Definition unlinked (gone : string → Prop) (r r' : RepoDir) : Prop :=
  rd_revisions r' = rd_revisions r ∧ rd_layers r' = rd_layers r ∧
  (∀ tag d, rd_tags r' !! tag = Some d → rd_tags r !! tag = Some d) ∧
  (∀ tag d, rd_tags r !! tag = Some d → ¬ gone tag → rd_tags r' !! tag = Some d).

Lemma unlinked_refl gone r : unlinked gone r r.
Proof. split; [done|]. split; [done|]. split; auto. Qed.
Lemma unlinked_trans (g1 g2 gone : string → Prop) r1 r2 r3 :
  (∀ t, g1 t → gone t) → (∀ t, g2 t → gone t) →
  unlinked g1 r1 r2 → unlinked g2 r2 r3 → unlinked gone r1 r3.
Proof.
  intros Hg1 Hg2 (A1 & A2 & A3 & A4) (B1 & B2 & B3 & B4).
  split; [congruence|]. split; [congruence|]. split; [auto|].
  intros tag d Hd Hn. apply B4; [apply A4|]; auto.
Qed.

(** The store after tags were unlinked. *)
Definition untagged (refs : list TagRef) (st st' : Store) : Prop :=
  st_blobs st' = st_blobs st ∧ st_meta st' = st_meta st ∧
  ∀ x, match st_repos st !! x with
       | None => st_repos st' !! x = None
       | Some r => ∃ r', st_repos st' !! x = Some r' ∧ unlinked (λ tag, mkTagRef x tag ∈ refs) r r'
       end.

Lemma untagged_refl refs st : untagged refs st st.
Proof.
  split; [done|]. split; [done|]. intros x. destruct (st_repos st !! x) as [r|]; [|done].
  exists r. split; [done|]. apply unlinked_refl.
Qed.

Lemma untag_untagged name tag st : untagged [mkTagRef name tag] st (untag name tag st).2.
Proof.
  unfold untag. destruct (repository name); [|apply untagged_refl].
  destruct (io_fail _); [apply untagged_refl|].
  destruct (st_repos st !! name) as [r|] eqn:Hr; [|apply untagged_refl].
  destruct (rd_tags r !! tag) as [d|] eqn:Hd; [|apply untagged_refl].
  split; [done|]. split; [done|]. intros x. cbn. destruct (decide (x = name)) as [->|Hx].
  - rewrite Hr, lookup_insert_eq. eexists. split; [done|]. split; [done|]. split; [done|]. cbn. split.
    + intros t d'. by intros [_ ?]%lookup_delete_Some.
    + intros t d' Hd' Hn. apply lookup_delete_Some. split; [|done]. intros <-. apply Hn. left.
  - rewrite lookup_insert_ne by done. destruct (st_repos st !! x) as [r'|]; [|done].
    exists r'. split; [done|]. apply unlinked_refl.
Qed.

Lemma untagged_cons ref refs st st1 st2 :
  untagged [ref] st st1 → untagged refs st1 st2 → untagged (ref :: refs) st st2.
Proof.
  intros (A1 & A2 & A3) (B1 & B2 & B3). split; [congruence|]. split; [congruence|].
  intros x. specialize (A3 x). specialize (B3 x). destruct (st_repos st !! x) as [r|].
  - destruct A3 as (r1 & Hr1 & U1). rewrite Hr1 in B3. destruct B3 as (r2 & Hr2 & U2).
    exists r2. split; [done|]. eapply unlinked_trans; [| |exact U1|exact U2]; cbn.
    + intros t ->%list_elem_of_singleton. left.
    + intros t Ht. by right.
  - rewrite A3 in B3. done.
Qed.

Lemma untagged_mono refs refs' st st' :
  (∀ r, r ∈ refs → r ∈ refs') → untagged refs st st' → untagged refs' st st'.
Proof.
  intros Hsub (A1 & A2 & A3). split; [done|]. split; [done|]. intros x. specialize (A3 x).
  destruct (st_repos st !! x) as [r|]; [|done]. destruct A3 as (r' & Hr' & U). exists r'. split; [done|].
  eapply (unlinked_trans (λ _, False)); [done| |apply unlinked_refl|exact U]. cbn. auto.
Qed.

Lemma untag_all_untagged refs n st : untagged refs st (untag_all refs n st).2.
Proof.
  revert n st. induction refs as [|[name tag] refs IH]; intros n st; cbn [untag_all]; [apply untagged_refl|].
  pose proof (untag_untagged name tag st) as Hu. cbn [tr_repo tr_tag].
  destruct (untag name tag st) as [[u|e] st1]; [by eapply untagged_cons; [|apply IH]|].
  destruct e; try (by eapply untagged_cons; [|apply IH]);
    (eapply untagged_mono; [|exact Hu]; intros x ->%list_elem_of_singleton; left).
Qed.

(** The repositories a prune removes are below one it found without tags. *)
Definition no_tags (st : Store) (name : string) : Prop :=
  ∀ r, st_repos st !! name = Some r → rd_tags r = ∅.

Lemma drop_empty_spec names n st :
  let st' := (drop_empty names n st).2 in
  st_blobs st' = st_blobs st ∧
  ∀ x, st_repos st' !! x = st_repos st !! x ∨
       st_repos st' !! x = None ∧ ∃ name, name ∈ names ∧ below name x = true ∧ no_tags st name.
Proof.
  revert n st. induction names as [|name names IH]; intros n st; cbn [drop_empty]; [auto|].
  destruct (hasNoTags name st) as [[]|e] eqn:He; [| |cbn; auto].
  2: { destruct (IH n st) as [I1 I2]. split; [done|]. intros x. destruct (I2 x) as [|(? & y & ? & ?)]; [auto|].
       right. split; [done|]. exists y. split; [by right|done]. }
  assert (no_tags st name) as Hno.
  { unfold hasNoTags in He. destruct (repository name) as [|[]]; try done.
    apply res_bind_Ok in He as (_ & _ & [= He]). intros r Hr. rewrite Hr in He. by apply bool_decide_eq_true in He. }
  assert (st_blobs (drop_repository name st).2 = st_blobs st ∧
    ∀ x, st_repos (drop_repository name st).2 !! x = st_repos st !! x ∨
         st_repos (drop_repository name st).2 !! x = None ∧ below name x = true) as [D1 D2].
  { unfold drop_repository. destruct (io _); [|cbn; auto].
    assert (∀ x, filter (λ p, below name p.1 = false) (st_repos st) !! x = st_repos st !! x ∨
      filter (λ p, below name p.1 = false) (st_repos st) !! x = None ∧ below name x = true) as Hf.
    { intros x. destruct (below name x) eqn:Hx.
      - right. split; [|done]. apply map_lookup_filter_None. right. intros r _. cbn. by rewrite Hx.
      - left. destruct (st_repos st !! x) as [r|] eqn:Hr.
        + by apply map_lookup_filter_Some.
        + apply map_lookup_filter_None. by left. }
    destruct (dropProvenance name _); cbn; auto. }
  destruct (drop_repository name st) as [[u|e] st1]; cbn [snd] in D1, D2.
  2: { split; [done|]. intros x. destruct (D2 x) as [|[? ?]]; [auto|]. right. split; [done|].
       exists name. split; [left|done]. }
  destruct (IH (n + 1)%Z st1) as [I1 I2]. split; [congruence|]. intros x.
  destruct (I2 x) as [Hx|(Hx & y & Hy & Hb & Hny)].
  - rewrite Hx. destruct (D2 x) as [|[? ?]]; [auto|]. right. split; [done|]. exists name. split; [left|done].
  - right. split; [done|]. destruct (D2 y) as [Hsame|[_ Hby]].
    + exists y. split; [by right|]. split; [done|]. intros r Hr. apply Hny. by rewrite Hsame.
    + exists name. split; [left|]. split; [by eapply below_trans|done].
Qed.

Lemma elem_of_touched refs name : name ∈ touched refs → ∃ ref, ref ∈ refs ∧ tr_repo ref = name.
Proof.
  unfold touched.
  assert (∀ acc, name ∈ fold_left (λ acc ref, if decide (tr_repo ref ∈ acc) then acc else acc ++ [tr_repo ref])
    refs acc → name ∈ acc ∨ ∃ ref, ref ∈ refs ∧ tr_repo ref = name) as Hgen.
  { induction refs as [|ref refs IH]; intros acc; cbn; [auto|]. intros Hin. apply IH in Hin as [Hin|(r & ? & ?)].
    - destruct (decide (tr_repo ref ∈ acc)); [auto|]. apply elem_of_app in Hin as [?|Hin]; [auto|].
      apply list_elem_of_singleton in Hin as ->. right. exists ref. split; [left|done].
    - right. exists r. split; [by right|done]. }
  intros Hin. destruct (Hgen [] Hin) as [?%elem_of_nil|]; done.
Qed.

(** A store some of whose tags and repositories were removed. *)
Definition sub_store (st st1 : Store) : Prop :=
  st_blobs st1 = st_blobs st ∧
  ∀ y r1, st_repos st1 !! y = Some r1 → ∃ r gone, st_repos st !! y = Some r ∧ unlinked gone r r1.

Lemma untagged_sub_store refs st st1 : untagged refs st st1 → sub_store st st1.
Proof.
  intros (A1 & _ & A3). split; [done|]. intros y r1 Hr1. specialize (A3 y).
  destruct (st_repos st !! y) as [r|]; [|congruence]. destruct A3 as (r' & Hr' & U).
  assert (r' = r1) as -> by congruence. eauto.
Qed.

Lemma sub_store_manifest st st1 y r1 d :
  sub_store st st1 → st_repos st1 !! y = Some r1 → stored_manifest st1 y d = stored_manifest st y d.
Proof.
  intros [Hb Hs] Hr1. destruct (Hs y r1 Hr1) as (r & gone & Hr & U & _).
  unfold stored_manifest. rewrite Hb, Hr, Hr1. cbn. by rewrite U.
Qed.

Lemma live_mono get1 get2 roots1 roots2 d :
  (∀ x, get1 x = get2 x) → (∀ x, x ∈ roots1 → x ∈ roots2) →
  live get1 roots1 d → live get2 roots2 d.
Proof.
  intros Hg Hr [Hl|(m & refs & Hm & Hget & Hd)].
  - left. by eapply live_manifest_ext.
  - right. exists m, refs. rewrite <-Hg. split; [by eapply live_manifest_ext|done].
Qed.

Lemma sub_store_separated st st1 name : sub_store st st1 → stored_separated st name → stored_separated st1 name.
Proof.
  intros Hs Hsep r1 Hr1 d (m & refs & Hm & Hget & Hd) Hl.
  pose proof (λ x, sub_store_manifest _ _ _ _ x Hs Hr1) as Hg.
  destruct Hs as [_ Hs]. destruct (Hs name r1 Hr1) as (r & gone & Hr & _ & _ & U & _).
  assert (∀ x, x ∈ map_values (rd_tags r1) → x ∈ map_values (rd_tags r)) as Hroots.
  { intros x (k & Hk)%elem_of_map_values. apply elem_of_map_values. eauto. }
  apply (Hsep r Hr d); [|by eapply live_manifest_ext].
  exists m, refs. rewrite <-Hg. split; [by eapply live_manifest_ext|done].
Qed.

(** A repository some tag of which is not unlinked, or that is not touched, and
    that is nested under no other touched one, reaches the sweep. *)
Lemma PruneTags_repo refs cutoff st x r :
  st_repos st !! x = Some r →
  (∀ ref, ref ∈ refs → below (tr_repo ref) x = true → tr_repo ref = x) →
  (∀ ref, ref ∈ refs → tr_repo ref ≠ x) ∨ (∃ tag d, rd_tags r !! tag = Some d ∧ mkTagRef x tag ∉ refs) →
  ∃ st1 r1, sub_store st st1 ∧ st_repos st1 !! x = Some r1 ∧ unlinked (λ tag, mkTagRef x tag ∈ refs) r r1 ∧
    ((PruneTags refs cutoff st).2 = st1 ∨ (PruneTags refs cutoff st).2 = (sweep cutoff st1).2).
Proof.
  intros Hr Hroot Hstay.
  assert (sub_store st st) as Hsub0 by apply (untagged_sub_store [] _ _ (untagged_refl _ _)).
  pose proof (untag_all_untagged refs 0 st) as Hu. unfold PruneTags.
  destruct refs as [|ref refs]; [exists st, r; repeat split; auto; apply Hsub0|].
  set (refs' := ref :: refs) in *.
  destruct (untag_all refs' 0 st) as [[n|e] st1]; cbn [snd] in Hu.
  2: { pose proof (untagged_sub_store _ _ _ Hu) as Hs. destruct Hu as (_ & _ & A3). specialize (A3 x).
       rewrite Hr in A3. destruct A3 as (r1 & Hr1 & U). exists st1, r1. auto. }
  pose proof (untagged_sub_store _ _ _ Hu) as Hs1. destruct Hu as (_ & _ & A3). specialize (A3 x).
  rewrite Hr in A3. destruct A3 as (r1 & Hr1 & U).
  pose proof (drop_empty_spec (touched refs') 0 st1) as [D1 D2].
  set (st2 := (drop_empty (touched refs') 0 st1).2) in *.
  assert (st_repos st2 !! x = Some r1) as Hr2.
  { destruct (D2 x) as [->|(_ & y & Hy & Hb & Hno)]; [done|]. exfalso.
    apply elem_of_touched in Hy as (ry & Hin & <-). specialize (Hroot ry Hin Hb). rewrite Hroot in Hno.
    destruct Hstay as [Hn|(tag & d & Hd & Hn)]; [by apply (Hn ry)|].
    apply U in Hd; [|done]. by rewrite (Hno r1 Hr1), lookup_empty in Hd. }
  assert (sub_store st st2) as Hs2.
  { destruct Hs1 as [B1 B2]. split; [by rewrite D1|]. intros y r2 Hy. destruct (D2 y) as [Heq|[? _]]; [|congruence].
    apply B2. congruence. }
  exists st2, r1. split; [done|]. split; [done|]. split; [done|].
  destruct (drop_empty (touched refs') 0 st1) as [[k|e] st2']; cbn [snd] in st2; subst st2; [|by left].
  right. by destruct (sweep cutoff st2') as [[n'|e] st3].
Qed.

(** ... and keeps what the tags that stay reach. *)
Lemma PruneTags_survives refs cutoff st x r :
  (∀ name, reads_ok name) → (∀ name, stored_separated st name) → st_repos st !! x = Some r →
  (∀ ref, ref ∈ refs → below (tr_repo ref) x = true → tr_repo ref = x) →
  (∀ ref, ref ∈ refs → tr_repo ref ≠ x) ∨ (∃ tag d, rd_tags r !! tag = Some d ∧ mkTagRef x tag ∉ refs) →
  let st' := (PruneTags refs cutoff st).2 in
  (∃ r', st_repos st' !! x = Some r' ∧
    ∀ tag d, rd_tags r !! tag = Some d → mkTagRef x tag ∉ refs → rd_tags r' !! tag = Some d) ∧
  ∀ tag d y, rd_tags r !! tag = Some d → mkTagRef x tag ∉ refs →
    live (stored_manifest st x) [d] y → survives st st' x y.
Proof.
  intros Hreads Hsep Hr Hroot Hstay st'.
  destruct (PruneTags_repo refs cutoff st x r Hr Hroot Hstay) as (st1 & r1 & Hs & Hr1 & U & Hst').
  fold st' in Hst'. destruct U as (U1 & U2 & _ & U4).
  assert (∀ tag d y, rd_tags r !! tag = Some d → mkTagRef x tag ∉ refs →
    live (stored_manifest st x) [d] y → stored_live st1 x y) as Hlive.
  { intros tag d y Hd Hn Hl. exists r1. split; [done|]. eapply live_mono; [| |exact Hl].
    - intros z. symmetry. by eapply sub_store_manifest.
    - intros z ->%list_elem_of_singleton. apply elem_of_map_values. eauto. }
  assert (∀ y, survives st1 st' x y → survives st st' x y) as Hback.
  { intros y (B & ra & rb & Ha & Hb & E1 & E2). assert (ra = r1) as -> by congruence.
    split; [by rewrite B; destruct Hs as [-> _]|]. exists r, rb. rewrite <-U1, <-U2. auto. }
  destruct Hst' as [->|Hst'].
  - split; [exists r1; auto|]. intros tag d y Hd Hn Hl. apply Hback. split; [done|]. exists r1, r1. auto.
  - destruct (sweep cutoff st1) as [res st2] eqn:Hsw. cbn in Hst'. subst st2.
    destruct (sweep_survives cutoff st1 res st' x r1 Hreads
      (λ name, sub_store_separated _ _ _ Hs (Hsep name)) Hsw Hr1) as [(r' & Hr' & Ht) Hsv].
    split; [exists r'; rewrite Ht; auto|]. intros tag d y Hd Hn Hl. apply Hback, Hsv. eauto.
Qed.

(** ** A prune that meets no failure *)

(** The tag is no longer there. *)
Definition tag_gone (st : Store) (ref : TagRef) : Prop :=
  ∀ r, st_repos st !! tr_repo ref = Some r → rd_tags r !! tr_tag ref = None.

Lemma tag_gone_sub st st1 ref : sub_store st st1 → tag_gone st ref → tag_gone st1 ref.
Proof.
  intros [_ Hs] Hg r1 Hr1. destruct (Hs _ _ Hr1) as (r & gone & Hr & _ & _ & U & _).
  specialize (Hg r Hr). destruct (rd_tags r1 !! tr_tag ref) as [d|] eqn:Hd; [|done].
  apply U in Hd. congruence.
Qed.

Lemma repository_ok name :
  (∀ op, io_fail op = false) → name_ok name = true → repository name = Ok tt.
Proof. intros Hok Hn. unfold repository, io. by rewrite Hn, Hok. Qed.

Lemma untag_gone name tag st :
  (∀ op, io_fail op = false) → name_ok name = true →
  tag_gone (untag name tag st).2 (mkTagRef name tag) ∧
  ((untag name tag st).1 = Ok tt ∨ (untag name tag st).1 = Err ErrNotFound).
Proof.
  intros Hok Hn. unfold untag, tag_gone. rewrite (repository_ok name Hok Hn), Hok.
  destruct (st_repos st !! name) as [r|] eqn:Hr; cbn [tr_repo tr_tag].
  2: { split; [|by right]. cbn. rewrite Hr. done. }
  destruct (rd_tags r !! tag) as [d|] eqn:Hd; cbn.
  - split; [|by left]. intros r'. rewrite lookup_insert_eq. intros [= <-]. cbn. apply lookup_delete_eq.
  - split; [|by right]. intros r'. rewrite Hr. by intros [= <-].
Qed.

Lemma untag_all_gone refs n st :
  (∀ op, io_fail op = false) → (∀ ref, ref ∈ refs → name_ok (tr_repo ref) = true) →
  (∃ k, (untag_all refs n st).1 = Ok k) ∧ ∀ ref, ref ∈ refs → tag_gone (untag_all refs n st).2 ref.
Proof.
  intros Hok. revert n st. induction refs as [|[name tag] refs IH]; intros n st Hn; cbn [untag_all].
  { split; [eauto|]. by intros ref ?%elem_of_nil. }
  destruct (untag_gone name tag st Hok (Hn (mkTagRef name tag) ltac:(left))) as [Hg He].
  cbn [tr_repo tr_tag]. destruct (untag name tag st) as [o st1]. cbn [fst snd] in Hg, He.
  assert (∀ k, (∃ j, (untag_all refs k st1).1 = Ok j) ∧
    ∀ ref, ref ∈ mkTagRef name tag :: refs → tag_gone (untag_all refs k st1).2 ref) as Hall.
  { intros k. destruct (IH k st1) as [I1 I2]; [intros ref Hr; apply Hn; by right|]. split; [done|].
    intros ref [->|Hin]%elem_of_cons; [|auto].
    eapply tag_gone_sub; [eapply untagged_sub_store, untag_all_untagged|exact Hg]. }
  destruct He as [->| ->]; apply Hall.
Qed.

Lemma dropProvenance_recipes name m m' : dropProvenance name m = Ok m' → mt_recipes m' = mt_recipes m.
Proof.
  unfold dropProvenance. intros (_ & _ & Hm)%res_bind_Ok. destruct (mt_provenance m !! name).
  - apply res_bind_Ok in Hm as (_ & _ & [= <-]). done.
  - by injection Hm as <-.
Qed.

Lemma drop_empty_total names n st :
  (∀ op, io_fail op = false) →
  (∃ k, (drop_empty names n st).1 = Ok k) ∧
  mt_recipes (st_meta (drop_empty names n st).2) = mt_recipes (st_meta st).
Proof.
  intros Hok. revert n st. induction names as [|name names IH]; intros n st; cbn [drop_empty]; [eauto|].
  assert (∃ b, hasNoTags name st = Ok b) as [b ->].
  { unfold hasNoTags, repository, io. destruct (name_ok name); [|eauto]. rewrite !Hok. cbn. eauto. }
  destruct b; [|apply IH]. unfold drop_repository, io. rewrite Hok.
  destruct (dropProvenance name (st_meta st)) as [m|e] eqn:Hd; cbn [st_meta]; rewrite Hd.
  - destruct (IH (n + 1)%Z (mkStore (filter (λ p, below name p.1 = false) (st_repos st)) (st_blobs st) m))
      as [I1 I2]. cbn [st_repos st_blobs]. split; [done|]. rewrite I2. cbn. by eapply dropProvenance_recipes.
  - exfalso. unfold dropProvenance, io in Hd. rewrite !Hok in Hd. cbn in Hd.
    by destruct (mt_provenance (st_meta st) !! name).
Qed.

Lemma sweep_meta cutoff st : st_meta (sweep cutoff st).2 = st_meta st.
Proof.
  unfold sweep. destruct (Repositories st) as [repos|e] eqn:Hrepos; [|done].
  destruct (Repositories_spec st repos Hrepos) as [Hnd _].
  pose proof (sweep_repos_spec repos cutoff ∅ (mkSweep 0 0) st Hnd) as Hs.
  destruct (sweep_repos repos cutoff ∅ (mkSweep 0 0) st) as [[[global n1] err] st1].
  pose proof (loop_meta _ _ _ _ _ _ _ _ _ Hs) as S2. destruct err as [e|]; [done|].
  by destruct (sweep_items _ _ _ _ _ _) as [[blobs n2] err2].
Qed.

Lemma sub_store_dropped st st1 :
  st_blobs st1 = st_blobs st →
  (∀ x, st_repos st1 !! x = st_repos st !! x ∨ st_repos st1 !! x = None) → sub_store st st1.
Proof.
  intros Hb Hx. split; [done|]. intros y r1 Hr1. destruct (Hx y) as [Heq|?]; [|congruence].
  exists r1, (λ _, False). split; [congruence|]. apply unlinked_refl.
Qed.
Lemma sub_store_trans st st1 st2 : sub_store st st1 → sub_store st1 st2 → sub_store st st2.
Proof.
  intros [B1 S1] [B2 S2]. split; [congruence|]. intros y r2 Hr2.
  destruct (S2 y r2 Hr2) as (r1 & g1 & Hr1 & U1). destruct (S1 y r1 Hr1) as (r & g & Hr & U).
  exists r, (λ t, g t ∨ g1 t). split; [done|]. eapply unlinked_trans; [| |exact U|exact U1]; auto.
Qed.

Lemma PruneTags_total refs cutoff st :
  (∀ op, io_fail op = false) → (∀ ref, ref ∈ refs → name_ok (tr_repo ref) = true) →
  (∀ name, is_Some (st_repos st !! name) → name_ok name = true) →
  (∀ name, stored_separated st name) →
  (∃ k, (PruneTags refs cutoff st).1 = Ok k) ∧
  mt_recipes (st_meta (PruneTags refs cutoff st).2) = mt_recipes (st_meta st) ∧
  ∀ ref, ref ∈ refs → tag_gone (PruneTags refs cutoff st).2 ref.
Proof.
  intros Hok Hrefs Hnames Hsep. unfold PruneTags. destruct refs as [|ref0 refs0].
  { split; [eauto|]. split; [done|]. by intros ref ?%elem_of_nil. }
  set (refs := ref0 :: refs0) in *.
  destruct (untag_all_gone refs 0 st Hok Hrefs) as [[k1 E1] G1].
  pose proof (untag_all_untagged refs 0 st) as U1.
  destruct (untag_all refs 0 st) as [? st1]. cbn in E1, G1, U1. subst.
  destruct (drop_empty_total (touched refs) 0 st1 Hok) as [[k2 E2] M2].
  destruct (drop_empty_spec (touched refs) 0 st1) as [D1 D2].
  destruct (drop_empty (touched refs) 0 st1) as [? st2]. cbn in E2, M2, D1, D2. subst.
  assert (sub_store st1 st2) as S12.
  { apply sub_store_dropped; [done|]. intros x. destruct (D2 x) as [|[? _]]; auto. }
  assert (sub_store st st2) as S2 by (eapply sub_store_trans; [by eapply untagged_sub_store|done]).
  destruct (sweep cutoff st2) as [res st3] eqn:Hsw.
  pose proof (sweep_meta cutoff st2) as M3. rewrite Hsw in M3. cbn in M3.
  assert (∀ name, reads_ok name) as Hreads by (intros; split; intros; apply Hok).
  pose proof (λ name, sub_store_separated _ _ _ S2 (Hsep name)) as Hsep2.
  destruct (sweep_spec cutoff st2 res st3 Hsw (λ name, stored_separated_view _ _ (Hreads name) (Hsep2 name)))
    as (Hkept & _ & _ & _ & _ & Htot).
  destruct Htot as [n ->]; [done| |].
  { intros name [r Hr]. apply Hnames. destruct S2 as [_ S2]. destruct (S2 name r Hr) as (? & ? & ? & _). eauto. }
  cbn [fst snd]. split; [eauto|]. split; [rewrite M3, M2; by destruct U1 as (_ & -> & _)|].
  intros ref Hin r3 Hr3. pose proof (tag_gone_sub _ _ _ S12 (G1 ref Hin)) as Hg.
  specialize (Hkept (tr_repo ref)). unfold repo_kept in Hkept.
  destruct (st_repos st2 !! tr_repo ref) as [r2|] eqn:Hr2; [|congruence].
  destruct Hkept as (r' & Hr' & Ht & _). assert (r' = r3) as -> by congruence. rewrite Ht. by apply Hg.
Qed.
End prune_tags.

(** * The prune of a run *)

Lemma replace_first_prefix dgst :
  has_prefix dgst "sha256:" = true → has_prefix (replace_first "sha256:" "sha256-" dgst) "sha256-" = true.
Proof.
  rewrite !has_prefix_spec. intros [r ->]. exists r. reflexivity.
Qed.

Section prune_run.
Context `{GoRuntime, StoreIO, Contents}.

(** The tags a prune unlinks, and those it keeps. *)
Definition prune_refs (base : string) (keys : gset string) (st : Store) : list TagRef :=
  match RecipeRecords (st_meta st) with
  | Err _ => []
  | Ok records =>
      let '(stale, keep) := splitRecords records keys in
      (pruneCandidates base (st_meta st) stale (referencedTags base keep)).1
  end.
Definition prune_kept (base : string) (keys : gset string) (st : Store) : list TagRef :=
  match RecipeRecords (st_meta st) with
  | Err _ => []
  | Ok records => referencedTags base (splitRecords records keys).2
  end.

Lemma candidate_refs_spec c ref :
  ref ∈ candidate_refs c →
  tr_repo ref = tr_repo (cd_ref c) ∧ (ref = cd_ref c ∨ has_prefix (tr_tag ref) "sha256-" = true).
Proof.
  unfold candidate_refs, signatureRefs. intros [->|Hin]%elem_of_cons; [auto|].
  destruct (has_prefix (cd_digest c) "sha256:") eqn:Hp; [|by apply elem_of_nil in Hin].
  pose proof (replace_first_prefix _ Hp) as Hr.
  apply elem_of_cons in Hin as [->|Hin].
  - split; [done|]. right. cbn [tr_tag]. unfold SignatureTag.
    apply has_prefix_spec in Hr as [x ->]. apply has_prefix_spec. exists (x +:+ ".sig"). by rewrite sapp_assoc.
  - apply list_elem_of_singleton in Hin as ->. auto.
Qed.

Lemma prune_refs_spec base keys st ref :
  ref ∈ prune_refs base keys st →
  class_recipe (tr_repo ref) (st_meta st) = true ∧
  (ref ∉ prune_kept base keys st ∨ has_prefix (tr_tag ref) "sha256-" = true).
Proof.
  unfold prune_refs, prune_kept. destruct (RecipeRecords (st_meta st)) as [records|]; [|by intros ?%elem_of_nil].
  cbn. intros (r & Hin & _)%list_elem_of_bind. apply list_elem_of_bind in Hin as (c & Hin & Hc).
  apply list_elem_of_filter in Hc as [He _]. unfold eligible in He. apply andb_true_iff in He as [Hk Hp].
  apply candidate_refs_spec in Hin as [Hrepo Hor]. rewrite Hrepo. split; [done|].
  destruct Hor as [->|]; [|auto]. left. by apply negb_true_iff, bool_decide_eq_false in Hk.
Qed.

Lemma pruneToRetriever_state base resolved cutoff st :
  let st' := (pruneToRetriever base resolved cutoff st).2 in
  let refs := prune_refs base (rv_keys resolved) st in
  (rv_complete resolved = false → st' = st) ∧
  (st' = st ∨ ∃ st1, st_repos st1 = st_repos st ∧ st_blobs st1 = st_blobs st ∧
     (st' = st1 ∨ st' = (PruneTags refs cutoff st1).2)).
Proof.
  unfold pruneToRetriever, prune_refs. destruct (rv_complete resolved); cbn [negb]; [|auto].
  split; [done|]. destruct (RecipeRecords (st_meta st)) as [records|]; [|auto].
  destruct (splitRecords records (rv_keys resolved)) as [stale keep]. destruct stale as [|s0 stale]; [auto|].
  set (stale' := s0 :: stale) in *.
  destruct (pruneCandidates base (st_meta st) stale' (referencedTags base keep)) as [refs pruned].
  right. exists (forget_all stale' st). split; [done|]. split; [done|]. cbn [fst].
  destruct refs as [|ref refs]; [by left|]. right.
  by destruct (PruneTags (ref :: refs) cutoff (forget_all stale' st)) as [[]].
Qed.

(** C6: a prune spares protected content and what the Retriever still asks for. When
    the mark's reads of tags and manifests succeed and no digest serves both as a
    manifest and as a layer of one repository, then whatever else fails on the way -
    the books, the listings, the removals - a repository that no pruned repository's
    name is a proper prefix of keeps (a) when its provenance is not a recipe, all its
    tags and everything they reach; (b) always, every tag a retained recipe asks for,
    signature tags apart, with everything it reaches. A run that did not resolve every
    entry changes nothing. *)
Theorem prune_protects base resolved cutoff st name r
    (Hreads : ∀ name, reads_ok name) (Hsep : ∀ name, stored_separated st name)
    (Hr : st_repos st !! name = Some r)
    (Hroot : ∀ ref, ref ∈ prune_refs base (rv_keys resolved) st →
      below (tr_repo ref) name = true → tr_repo ref = name) :
  let st' := (pruneToRetriever base resolved cutoff st).2 in
  (rv_complete resolved = false → st' = st) ∧
  ∀ tag d, rd_tags r !! tag = Some d →
    class_recipe name (st_meta st) = false ∨
      mkTagRef name tag ∈ prune_kept base (rv_keys resolved) st ∧ has_prefix tag "sha256-" = false →
    (∃ r', st_repos st' !! name = Some r' ∧ rd_tags r' !! tag = Some d) ∧
    ∀ y, live (stored_manifest st name) [d] y → survives st st' name y.
Proof.
  destruct (pruneToRetriever_state base resolved cutoff st) as [Hpart Hst].
  intros st'. split; [exact Hpart|]. fold st' in Hst. intros tag d Hd Hprot.
  set (refs := prune_refs base (rv_keys resolved) st) in *.
  assert (mkTagRef name tag ∉ refs) as Hn.
  { intros Hin. apply prune_refs_spec in Hin as [Hc Hk]. cbn in Hc, Hk.
    destruct Hprot as [Hf|[Hkept Hf]]; [congruence|]. destruct Hk; [done|congruence]. }
  assert (∀ st1, st_repos st1 = st_repos st → st_blobs st1 = st_blobs st →
    stored_manifest st1 = stored_manifest st ∧ (∀ s y, survives st1 s name y → survives st s name y)) as Heq.
  { intros st1 E1 E2. unfold stored_manifest, survives. by rewrite E1, E2. }
  assert (∀ s, st_repos s = st_repos st → st_blobs s = st_blobs st →
    (∃ r', st_repos s !! name = Some r' ∧ rd_tags r' !! tag = Some d) ∧
    ∀ y, live (stored_manifest st name) [d] y → survives st s name y) as Hsame.
  { intros s E1 E2. split; [exists r; by rewrite E1|]. intros y _. split; [by rewrite E2|].
    exists r, r. by rewrite E1. }
  destruct Hst as [->|(st1 & E1 & E2 & [->| ->])]; [by apply Hsame|by apply Hsame|].
  destruct (Heq st1 E1 E2) as [Hman Hback].
  destruct (PruneTags_survives refs cutoff st1 name r Hreads) as [(r' & Hr' & Ht) Hsv].
  - intros x. unfold stored_separated. rewrite Hman, E1. apply Hsep.
  - by rewrite E1.
  - done.
  - right. eauto.
  - split; [eauto|]. intros y Hy. apply Hback, (Hsv tag d y Hd Hn). by rewrite Hman.
Qed.

(** The recipe graph is stored under its own keys. *)
Definition graph_keyed (m : Meta) : Prop :=
  ∀ k r, mt_recipes m !! k = Some r → record_key r = k.
Lemma PutRecipeRecord_keyed r m m' : graph_keyed m → PutRecipeRecord r m = Ok m' → graph_keyed m'.
Proof.
  unfold PutRecipeRecord. intros Hk (_ & _ & (_ & _ & [= <-])%res_bind_Ok)%res_bind_Ok k r'. cbn.
  intros [[<- <-]|[_ ?]]%lookup_insert_Some; [done|auto].
Qed.

Lemma forget_all_recipes stale m :
  (∀ op, io_fail op = false) →
  ∀ k, mt_recipes (fold_left forget_record stale m) !! k =
    if decide (k ∈ record_key <$> stale) then None else mt_recipes m !! k.
Proof.
  intros Hok. revert m. induction stale as [|s stale IH]; intros m k; cbn; [done|]. rewrite IH.
  unfold forget_record, DeleteRecipeRecord, io. rewrite !Hok. cbn. fold (record_key s).
  destruct (decide (k ∈ record_key <$> stale)) as [Hin|Hin].
  - by rewrite decide_True by by right.
  - destruct (decide (k = record_key s)) as [->|Hne].
    + rewrite decide_True by left. apply lookup_delete_eq.
    + rewrite lookup_delete_ne by done. rewrite decide_False; [done|]. by intros [?|?]%elem_of_cons.
Qed.

(** The graph entries left are those the run resolved. *)
Lemma forget_stale keys st :
  (∀ op, io_fail op = false) → graph_keyed (st_meta st) →
  ∀ k r, mt_recipes (st_meta (forget_all (splitRecords (map_values (mt_recipes (st_meta st))) keys).1 st)) !! k
    = Some r ↔ mt_recipes (st_meta st) !! k = Some r ∧ k ∈ keys.
Proof.
  intros Hok Hkey k r. unfold forget_all. cbn [st_meta]. rewrite forget_all_recipes by done.
  assert (∀ k, k ∈ record_key <$> (splitRecords (map_values (mt_recipes (st_meta st))) keys).1 ↔
    is_Some (mt_recipes (st_meta st) !! k) ∧ k ∉ keys) as Hst.
  { intros x. rewrite list_elem_of_fmap. unfold splitRecords. cbn [fst].
    setoid_rewrite elem_of_sort_slice. setoid_rewrite list_elem_of_filter. setoid_rewrite elem_of_map_values.
    split.
    - intros (y & -> & Hn & k' & Hk'). rewrite (Hkey k' y Hk') in *. eauto.
    - intros [[y Hy] Hn]. exists y. rewrite (Hkey x y Hy). eauto. }
  destruct (decide _) as [Hin|Hin]; rewrite Hst in Hin.
  - split; [done|]. intros [_ ?]. tauto.
  - split; [|tauto]. intros Hr. split; [done|]. destruct (decide (k ∈ keys)); [done|]. exfalso. apply Hin. eauto.
Qed.

(** A complete run that meets no failure prunes to the Retriever. Every tag of
    a dropped recipe that is eligible, and its signature tags, are gone; the graph
    holds exactly the recipes the run resolved; and, when something is removed, the
    rows recorded on the task are the ones the confirmation showed. *)
Theorem prune_complete base resolved cutoff size st
    (Hok : ∀ op, io_fail op = false)
    (Hrefs : ∀ ref, ref ∈ prune_refs base (rv_keys resolved) st → name_ok (tr_repo ref) = true)
    (Hnames : ∀ name, is_Some (st_repos st !! name) → name_ok name = true)
    (Hsep : ∀ name, stored_separated st name) (Hkey : graph_keyed (st_meta st))
    (Hcomplete : rv_complete resolved = true) :
  let '(rows, st') := pruneToRetriever base resolved cutoff st in
  (∀ ref, ref ∈ prune_refs base (rv_keys resolved) st → tag_gone st' ref) ∧
  (∀ k r, mt_recipes (st_meta st') !! k = Some r ↔
     mt_recipes (st_meta st) !! k = Some r ∧ k ∈ rv_keys resolved) ∧
  ∃ proj, ProjectPrune base (rv_keys resolved) size st = Ok proj ∧
    (prune_refs base (rv_keys resolved) st ≠ [] →
     rows = Some ((λ i, mkPruned (pi_repo i) (pi_tag i) (pi_digest i) (pi_recipe i)) <$> pp_items proj)).
Proof.
  unfold pruneToRetriever, ProjectPrune, prune_refs, RecipeRecords, io in *. rewrite Hcomplete. rewrite !Hok in *.
  cbn [negb mbind res_bind] in *. pose proof (forget_stale (rv_keys resolved) st Hok Hkey) as Hforget.
  destruct (splitRecords (map_values (mt_recipes (st_meta st))) (rv_keys resolved)) as [stale keep].
  cbn [fst] in Hforget.
  assert (∀ rows : list PrunedRow, rows = (λ i, mkPruned (pi_repo i) (pi_tag i) (pi_digest i) (pi_recipe i)) <$>
    (project_item size <$> rows)) as Hrows.
  { intros rows. rewrite <-list_fmap_compose. induction rows as [|[] rows IH]; cbn; [done|]. by f_equal. }
  destruct stale as [|s0 stale].
  { split; [by intros ref ?%elem_of_nil|]. split; [exact Hforget|]. eexists. split; [done|]. done. }
  set (stale' := s0 :: stale) in *.
  destruct (pruneCandidates base (st_meta st) stale' (referencedTags base keep)) as [refs pruned].
  cbn [fst] in *. destruct refs as [|ref0 refs0].
  { split; [by intros ref ?%elem_of_nil|]. split; [exact Hforget|]. eexists. split; [done|]. done. }
  set (refs := ref0 :: refs0) in *.
  destruct (PruneTags_total refs cutoff (forget_all stale' st) Hok Hrefs) as ([k Ek] & Hm & Hgone).
  - exact Hnames.
  - exact Hsep.
  - destruct (PruneTags refs cutoff (forget_all stale' st)) as [o st']. cbn in Ek, Hm, Hgone. subst o.
    split; [done|]. split; [by rewrite Hm|]. eexists. split; [done|]. intros _. cbn [pp_items]. f_equal. apply Hrows.
Qed.
End prune_run.

(** * Concrete prunes *)

(** Without an index, separation is that no tag points at a layer. *)
Lemma flat_separated `{GoRuntime, Contents} st name :
  (∀ d b refs, content_of d = Some (b, refs) →
    b = false ∧ ∀ r tag, st_repos st !! name = Some r → rd_tags r !! tag ≠ None →
      ∀ x, rd_tags r !! tag = Some x → x ∉ refs) →
  stored_separated st name.
Proof.
  intros Hflat r Hr d (m & refs & _ & Hget & Hd) Hl.
  assert (∀ m b refs, stored_manifest st name m = Some (b, refs) → content_of m = Some (b, refs)) as Hc.
  { intros m' b' refs' (? & _ & (? & _ & (? & _ & ?)%bind_Some)%bind_Some)%bind_Some. done. }
  destruct (Hflat m false refs (Hc _ _ _ Hget)) as [_ Hn].
  destruct Hl as [d Hin|m' refs' d _ Hget' _].
  - apply elem_of_map_values in Hin as [tag Htag]. by apply (Hn r tag Hr ltac:(congruence) d).
  - by destruct (Hflat m' true refs' (Hc _ _ _ Hget')) as [? _].
Qed.

(** An image [m] of one layer [l], and its signature [s]. *)
Definition signed_contents : Contents := {|
  content_of d :=
    if String.eqb d "sha256:m" then Some (false, ["sha256:l"])
    else if String.eqb d "sha256:s" then Some (false, [])
    else None |}.
Definition signed_repo (tags : list (string * string)) : RepoDir :=
  mkRepoDir (list_to_map tags) (old_links ["sha256:m"; "sha256:s"]) (old_links ["sha256:l"]).
Definition recipe_of (name repo tag : string) : RecipeRecord :=
  mkRecipeRecord name "1" "" "" "" "" "" "" 0 true "" [mkIngredientRecord "img" "image" repo tag "sha256:m"].
Definition provenance_of (c : ProvenanceClass) : Provenance := mkProvenance c "" "" "" "" 0.

(** [old@1] brought tag 1.0, [new@1] asks for tag 2.0 of the same image; a unit
    import lies below. *)
Definition prune_meta : Meta :=
  mkMeta {[ "reg.io/app" := provenance_of ProvenanceRecipe;
            "reg.io/app/db" := provenance_of ProvenanceUnitImport ]}
    {[ "old@1" := recipe_of "old" "reg.io/app" "1.0"; "new@1" := recipe_of "new" "reg.io/app" "2.0" ]}.
Definition prune_store : Store :=
  mkStore {[ "reg.io/app" := signed_repo [("1.0", "sha256:m"); ("2.0", "sha256:m"); ("sha256-m.sig", "sha256:s")];
             "reg.io/app/db" := signed_repo [("9", "sha256:m")] ]}
    (old_links ["sha256:m"; "sha256:l"; "sha256:s"]) prune_meta.
Definition keeping (keys : list string) : resolvedRecipes := mkResolved (list_to_set keys) true.

Section demo_prune.
#[local] Existing Instance io_sound.
#[local] Existing Instance signed_contents.

Lemma prune_store_separated name : stored_separated prune_store name.
Proof.
  apply flat_separated. intros d b refs. cbn.
  assert (∀ r tag x, st_repos prune_store !! name = Some r → rd_tags r !! tag = Some x →
    x = "sha256:m" ∨ x = "sha256:s") as Htags.
  { intros r tag x. cbn. intros [[_ <-]|[_ [_ <-]%lookup_singleton_Some]]%lookup_insert_Some; cbn;
      repeat (intros [[_ <-]|[_ Hx]]%lookup_insert_Some; [auto|revert Hx]); by rewrite lookup_empty. }
  destruct (String.eqb d "sha256:m"); [|destruct (String.eqb d "sha256:s"); [|done]];
    intros [= <- <-]; (split; [done|]); intros r tag Hr _ x Hx;
    destruct (Htags r tag x Hr Hx) as [->| ->]; try (by intros ?%elem_of_nil);
    by intros ?%list_elem_of_singleton.
Qed.

(** Witness: pruning [old@1] keeps the tag [new@1] asks for. *)
Lemma prune_protects_witness :
  ∃ r', st_repos (pruneToRetriever "" (keeping ["new@1"]) 10 prune_store).2 !! "reg.io/app" = Some r' ∧
    rd_tags r' !! "2.0" = Some "sha256:m".
Proof.
  destruct (prune_protects "" (keeping ["new@1"]) 10 prune_store "reg.io/app"
    (signed_repo [("1.0", "sha256:m"); ("2.0", "sha256:m"); ("sha256-m.sig", "sha256:s")])) as [_ Hp].
  - intros name. split; reflexivity.
  - exact prune_store_separated.
  - reflexivity.
  - assert (forallb (λ ref, String.eqb (tr_repo ref) "reg.io/app")
      (prune_refs "" (rv_keys (keeping ["new@1"])) prune_store) = true) as Hf by (vm_compute; reflexivity).
    rewrite forallb_forall in Hf. intros ref Hin _. apply String.eqb_eq, Hf. by apply list_elem_of_In.
  - destruct (Hp "2.0" "sha256:m") as [Hr _]; [reflexivity| |exact Hr].
    right. split; [|reflexivity]. apply (bool_decide_eq_true_1 _). vm_compute. reflexivity.
Defined.

(** Witness: the same prune removes tag 1.0 and the entry of [old@1]. *)
Lemma prune_complete_witness :
  tag_gone (pruneToRetriever "" (keeping ["new@1"]) 10 prune_store).2 (mkTagRef "reg.io/app" "1.0").
Proof.
  pose proof (prune_complete "" (keeping ["new@1"]) 10 (λ _ _, None) prune_store) as Hp.
  destruct (pruneToRetriever "" (keeping ["new@1"]) 10 prune_store) as [rows st'].
  destruct Hp as [Hg _].
  - reflexivity.
  - reflexivity.
  - reflexivity.
  - exact prune_store_separated.
  - intros k r. cbn. intros [[<- <-]|[_ [<- <-]%lookup_singleton_Some]]%lookup_insert_Some; reflexivity.
  - reflexivity.
  - apply Hg. apply (bool_decide_eq_true_1 _). vm_compute. reflexivity.
Defined.
End demo_prune.

(** A prune can remove what the Retriever still asks for. Signature tags are
    unlinked without asking whether a retained recipe needs them: when a dropped and
    a retained recipe pin the same image under two tags, the image stays and its
    signature is removed, tag and content. And when the prune empties a repository,
    the unit imports nested under its name go with it, although they are protected. *)
Theorem prune_overreaches :
  let run keys := (pruneToRetriever (H0 := io_sound) (H1 := signed_contents) "" (keeping keys) 10 prune_store).2 in
  let tag st ref := r ← st_repos st !! tr_repo ref; rd_tags r !! tr_tag ref in
  (tag (run ["new@1"]) (mkTagRef "reg.io/app" "2.0") = Some "sha256:m" ∧
   tag prune_store (mkTagRef "reg.io/app" (SignatureTag "sha256:m")) = Some "sha256:s" ∧
   tag (run ["new@1"]) (mkTagRef "reg.io/app" (SignatureTag "sha256:m")) = None ∧
   st_blobs (run ["new@1"]) !! "sha256:s" = None) ∧
  (class_recipe (H0 := io_sound) "reg.io/app/db" prune_meta = false ∧
   tag prune_store (mkTagRef "reg.io/app/db" "9") = Some "sha256:m" ∧
   st_repos (run []) !! "reg.io/app/db" = None ∧ st_blobs (run []) !! "sha256:m" = None).
Proof. vm_compute. done. Qed.

(** A prune that fails strands its content. The graph entries of the dropped
    recipes are forgotten before the tags are unlinked; when unlinking fails, the
    tags stay, and no later run - with nothing failing - removes them, since no
    entry names them any more. *)
Theorem failed_prune_strands :
  let flaky : StoreIO :=
    {| io_fail op := match op with OpUntag _ _ => true | _ => false end; name_ok _ := true |} in
  let '(rows1, st1) := pruneToRetriever (H0 := flaky) (H1 := signed_contents) "" (keeping ["new@1"]) 10 prune_store in
  let '(rows2, st2) := pruneToRetriever (H0 := io_sound) (H1 := signed_contents) "" (keeping ["new@1"]) 10 st1 in
  let tag st ref := r ← st_repos st !! tr_repo ref; rd_tags r !! tr_tag ref in
  mt_recipes (st_meta st1) !! "old@1" = None ∧ rows1 = None ∧ rows2 = None ∧ st2 = st1 ∧
  tag st2 (mkTagRef "reg.io/app" "1.0") = Some "sha256:m".
Proof. vm_compute. done. Qed.
