(* ===== verification/Preflight.v ===== *)
(** The volume pre-flight (internal/preflight): the filesystems whose ceiling is
    known, the Linux inspector over what [statfs] answers, and the verdict on one
    target, together with the gate that reads the verdicts of a plan
    (internal/engine/preflight.go). *)

From stdpp Require Import pretty.
From S2P Require Import Prelude GoStrings Taxonomy.

(** * Filesystems *)

Record Filesystem := mkFilesystem {
  fs_type : string; fs_identified : bool; fs_max_file : Z; fs_detection : string; fs_note : string }.
Record Space := mkSpace { sp_free : Z; sp_total : Z; sp_known : bool }.

Definition maxFAT : Z := Z.shiftl 1 32 - 1.
Definition maxExt : Z := Z.shiftl 16 40.
Definition maxNTFS : Z := Z.shiftl 8 50.
Definition maxHuge : Z := int64_max.

(** [typeLimits]. *)
Definition typeLimits : gmap string Z := list_to_map [
  ("fat", maxFAT); ("fat12", maxFAT); ("fat16", maxFAT); ("fat32", maxFAT); ("vfat", maxFAT);
  ("msdos", maxFAT); ("exfat", maxHuge); ("ntfs", maxNTFS); ("ntfs3", maxNTFS); ("refs", maxHuge);
  ("ext2", maxExt); ("ext3", maxExt); ("ext4", maxExt); ("xfs", maxHuge); ("btrfs", maxHuge);
  ("apfs", maxHuge); ("hfs", maxHuge); ("hfs+", maxHuge); ("zfs", maxHuge); ("f2fs", maxHuge)].

(** [Unbounded]. *)
Definition Unbounded (f : Filesystem) : bool := fs_identified f && (fs_max_file f =? maxHuge)%Z.

(** [classify]. *)
Definition no_limit_note : string := "this build knows no single-file limit for this filesystem type".
Definition classify `{GoRuntime} (name detection : string) : Filesystem :=
  match typeLimits !! to_lower (trim_space name) with
  | None => mkFilesystem name false 0 detection (if String.eqb name "" then "" else no_limit_note)
  | Some limit => mkFilesystem name true limit detection ""
  end.

(** [linuxMagics]: what [statfs] names by number. *)
Definition linuxMagics : gmap Z string := list_to_map [
  (0x4d44%Z, "vfat"); (0x2011BAB0%Z, "exfat"); (0x5346544e%Z, "ntfs"); (0x7366746e%Z, "ntfs3");
  (0xEF53%Z, "ext4"); (0x58465342%Z, "xfs"); (0x9123683E%Z, "btrfs"); (0xF2F52010%Z, "f2fs");
  (0x2FC12FC1%Z, "zfs"); (0xCA451A4E%Z, "bcachefs"); (0x01021994%Z, "tmpfs"); (0x858458F6%Z, "ramfs");
  (0x794c7630%Z, "overlayfs"); (0x6969%Z, "nfs"); (0xFF534D42%Z, "cifs"); (0x00C36400%Z, "ceph");
  (0x65735546%Z, "fuse"); (0x65735543%Z, "fuseblk"); (0x73717368%Z, "squashfs"); (0x9660%Z, "iso9660");
  (0x01021997%Z, "v9fs")].

(** What [statfs] answers on the nearest existing ancestor of a path, and the
    hexadecimal form of a magic number. *)
Record statfs_t := mkStatfs { sf_type : Z; sf_bavail : Z; sf_blocks : Z; sf_bsize : Z }.

(** [systemInspector.Inspect] on Linux. *)
Definition magic_note : string := "statfs reported a filesystem magic this build does not know".
Definition Inspect `{GoRuntime} (hex : Z → string) (statfs : string → res string statfs_t) (path : string)
  : res string (Filesystem * Space) :=
  st ← statfs path;
  let f := classify (default "" (linuxMagics !! sf_type st)) "statfs(2) f_type" in
  let f := match linuxMagics !! sf_type st with
           | Some _ => f
           | None => mkFilesystem ("0x" +:+ hex (sf_type st)) false (fs_max_file f) (fs_detection f) magic_note
           end in
  Ok (f, mkSpace (mul64 (sf_bavail st) (sf_bsize st)) (mul64 (sf_blocks st) (sf_bsize st)) true).

(** * The verdict *)

Inductive Target := TargetStore | TargetArchive.
Definition target_name (t : Target) : string := match t with TargetStore => "store" | TargetArchive => "archive" end.
Inductive Warning := WarnFilesystemUnidentified | WarnSpaceUnknown.
Record Request := mkRequest {
  rq_target : Target; rq_path : string; rq_projected : Z; rq_largest : Z; rq_margin : Z }.
Record VolumeCheck := mkVolumeCheck {
  vc_target : Target; vc_path : string; vc_fs : Filesystem; vc_space : Space; vc_margin : Z;
  vc_reserved : Z; vc_usable : Z; vc_projected : Z; vc_largest : Z; vc_shortfall : Z;
  vc_warnings : list Warning; vc_refusal : Code }.
Definition DefaultMarginPercent : Z := 10.

(** [Check.OK]. *)
Definition check_ok (c : VolumeCheck) : bool := String.eqb (vc_refusal c) "".

Definition strs (l : list (string * string)) : Params := list_to_map ((λ '(k, v), (k, PStr v)) <$> l).
(** [taxonomy.New] on a catalogued code. *)
Definition tax (code : Code) (params : Params) : TaxError := mkTaxError code params "" None.

Definition too_large_params (path fstype : string) (limit size : Z) (what : string) : Params :=
  strs [("path", path); ("filesystem", fstype); ("limit", pretty limit); ("size", pretty size); ("what", what)].
Definition space_params (path : string) (needed available shortfall margin free : Z) : Params :=
  strs [("path", path); ("needed", pretty needed); ("available", pretty available);
        ("shortfall", pretty shortfall); ("margin", pretty margin); ("free", pretty free)].

(** [Evaluate]: the file-size verdict first, then the space. *)
Definition Evaluate (inspect : string → res string (Filesystem * Space)) (req : Request)
  : VolumeCheck * option TaxError :=
  let margin := if (rq_margin req <=? 0)%Z then DefaultMarginPercent else rq_margin req in
  let mk fs space reserved usable shortfall warnings code :=
    mkVolumeCheck (rq_target req) (rq_path req) fs space margin reserved usable (rq_projected req)
      (rq_largest req) shortfall warnings code in
  match inspect (rq_path req) with
  | Err note =>
      (mk (mkFilesystem "" false 0 "" note) (mkSpace 0 0 false) 0%Z 0%Z 0%Z
         [WarnFilesystemUnidentified; WarnSpaceUnknown] "", None)
  | Ok (fs, space) =>
      if fs_identified fs && (0 <? rq_largest req)%Z && (0 <? fs_max_file fs)%Z &&
         (fs_max_file fs <? rq_largest req)%Z then
        (mk fs space 0%Z 0%Z 0%Z [] CodeFileTooLarge,
         Some (tax CodeFileTooLarge (too_large_params (rq_path req) (fs_type fs) (fs_max_file fs)
                 (rq_largest req) (target_name (rq_target req)))))
      else
        let warnings := if fs_identified fs then [] else [WarnFilesystemUnidentified] in
        if negb (sp_known space) then (mk fs space 0%Z 0%Z 0%Z (warnings ++ [WarnSpaceUnknown]) "", None)
        else
          let reserved := mul64 (quot64 (sp_free space) 100) margin in
          let usable := sub64 (sp_free space) reserved in
          if (usable <? rq_projected req)%Z then
            let shortfall := sub64 (rq_projected req) usable in
            (mk fs space reserved usable shortfall warnings CodeInsufficientSpace,
             Some (tax CodeInsufficientSpace (space_params (rq_path req) (rq_projected req) usable shortfall
                     margin (sp_free space))))
          else (mk fs space reserved usable 0%Z warnings "", None)
  end.

(** * The gate of a synchronization *)

(** [preflightRefusal]: the first blocking verdict among the checks of a plan. *)
Fixpoint preflightRefusal (checks : list VolumeCheck) : option TaxError :=
  match checks with
  | [] => None
  | c :: checks =>
      if check_ok c then preflightRefusal checks
      else if String.eqb (vc_refusal c) CodeFileTooLarge then
        Some (tax CodeFileTooLarge (too_large_params (vc_path c) (fs_type (vc_fs c)) (fs_max_file (vc_fs c))
                (vc_largest c) (target_name (vc_target c))))
      else if String.eqb (vc_refusal c) CodeInsufficientSpace then
        Some (tax CodeInsufficientSpace (space_params (vc_path c) (vc_projected c) (vc_usable c) (vc_shortfall c)
                (vc_margin c) (sp_free (vc_space c))))
      else preflightRefusal checks
  end.
(** [preflightGate]: open on everything that is not a verdict. *)
Definition preflightGate (marginDisabled : bool) (plan : option (list VolumeCheck)) : option TaxError :=
  match plan with
  | None => None
  | Some checks =>
      match preflightRefusal checks with
      | None => None
      | Some refusal => if marginDisabled then None else Some refusal
      end
  end.

(** [fileTooLargeError] on an error [IsFileTooLarge] recognizes. *)
Definition fileTooLargeError (inspect : string → res string (Filesystem * Space)) (cause root : string) (size : Z)
  : TaxError :=
  let '(fstype, limit) :=
    match inspect root with
    | Ok (fs, _) => if String.eqb (fs_type fs) "" then ("the target filesystem", 0%Z) else (fs_type fs, fs_max_file fs)
    | Err _ => ("the target filesystem", 0%Z)
    end in
  WithCause cause (tax CodeFileTooLarge (too_large_params root fstype limit size (target_name TargetStore))).

(** * Correctness *)

(** The space a projection may use: the free bytes less the margin. *)
Definition held_back (free margin : Z) : Z := (free / 100 * margin)%Z.
Definition margin_of (req : Request) : Z :=
  if (rq_margin req <=? 0)%Z then DefaultMarginPercent else rq_margin req.

Lemma held_back_bound free margin :
  (0 ≤ free)%Z → (0 ≤ margin ≤ 100)%Z → (0 ≤ held_back free margin ≤ free)%Z.
Proof.
  unfold held_back. intros Hf Hm.
  pose proof (Z.mul_div_le free 100 ltac:(lia)). pose proof (Z.div_pos free 100 Hf ltac:(lia)).
  revert H H0. generalize (free / 100)%Z. intros q Hq Hq0. nia.
Qed.

(** The machine arithmetic of [Evaluate] is exact on a real volume. *)
Lemma reserve_exact free margin :
  (0 ≤ free ≤ int64_max)%Z → (0 ≤ margin ≤ 100)%Z →
  mul64 (quot64 free 100) margin = held_back free margin ∧
  sub64 free (mul64 (quot64 free 100) margin) = (free - held_back free margin)%Z.
Proof.
  intros Hf Hm. pose proof (held_back_bound free margin ltac:(lia) Hm) as Hb. revert Hb.
  unfold mul64, sub64, quot64, held_back. intros Hb.
  assert (0 ≤ free / 100 ≤ free)%Z by (split; [apply Z.div_pos; lia|apply Z.div_le_upper_bound; lia]).
  rewrite Z.quot_div_nonneg by lia.
  revert Hb H. generalize (free / 100)%Z. intros q Hb Hq.
  rewrite (wrap64_id q) by (unfold is_int64, int64_min, int64_max in *; lia).
  revert Hb. generalize (q * margin)%Z. intros r Hb.
  rewrite (wrap64_id r) by (unfold is_int64, int64_min, int64_max in *; lia).
  split; [done|]. apply wrap64_id. unfold is_int64, int64_min, int64_max in *. lia.
Qed.

(** What stops an operation: a file the filesystem cannot hold, or, when that is not
    it, a projection over the usable space. *)
Inductive blocked (fs : Filesystem) (space : Space) (req : Request) : Code → Prop :=
  | blocked_file :
      fs_identified fs = true → (0 < fs_max_file fs < rq_largest req)%Z →
      blocked fs space req CodeFileTooLarge
  | blocked_space :
      ¬ (fs_identified fs = true ∧ (0 < fs_max_file fs < rq_largest req)%Z) →
      sp_known space = true →
      (sp_free space - held_back (sp_free space) (margin_of req) < rq_projected req)%Z →
      blocked fs space req CodeInsufficientSpace.

Definition measurable (fs : Filesystem) (space : Space) (req : Request) : Prop :=
  (0 ≤ sp_free space ≤ int64_max)%Z ∧ (rq_margin req ≤ 99)%Z ∧ (0 ≤ rq_projected req ≤ int64_max)%Z.

Lemma file_guard fs req :
  fs_identified fs && (0 <? rq_largest req)%Z && (0 <? fs_max_file fs)%Z &&
    (fs_max_file fs <? rq_largest req)%Z = true ↔
  fs_identified fs = true ∧ (0 < fs_max_file fs < rq_largest req)%Z.
Proof. rewrite !andb_true_iff, !Z.ltb_lt. split; intros; intuition lia. Qed.

(** The pre-flight refuses a measured target exactly when it should: with the
    file-size code when the filesystem is identified and the largest file is over its
    ceiling, with the space code when that is not so and the projection exceeds the
    free bytes less the margin; the arithmetic does not overflow, and a space refusal
    states the exact shortfall. The check and the error carry the same verdict. *)
Theorem Evaluate_exact inspect req fs space
    (Hi : inspect (rq_path req) = Ok (fs, space)) (Hm : measurable fs space req) :
  let '(c, err) := Evaluate inspect req in
  (∀ code, te_code <$> err = Some code ↔ blocked fs space req code) ∧
  vc_refusal c = default "" (te_code <$> err) ∧ check_ok c = bool_decide (err = None) ∧
  (vc_refusal c = CodeInsufficientSpace →
     vc_shortfall c = (rq_projected req - (sp_free space - held_back (sp_free space) (margin_of req)))%Z ∧
     (0 < vc_shortfall c)%Z) ∧
  preflightRefusal [c] = err.
Proof.
  destruct Hm as (Hf & Hg & Hp). unfold Evaluate. rewrite Hi.
  fold (margin_of req).
  assert (0 ≤ margin_of req ≤ 100)%Z as Hmar.
  { unfold margin_of, DefaultMarginPercent. destruct (Z.leb_spec (rq_margin req) 0); lia. }
  destruct (reserve_exact _ _ Hf Hmar) as [Hr Hu]. rewrite Hu.
  pose proof (held_back_bound _ _ (proj1 Hf) Hmar) as Hb.
  pose proof (file_guard fs req) as Hguard.
  destruct (_ && (fs_max_file fs <? rq_largest req)%Z) eqn:Hg'.
  { destruct (proj1 Hguard eq_refl) as [H1 H2]. cbn. split_and!; try done.
    intros code. split; [intros [= <-]; by constructor|].
    inversion 1; [done|]. exfalso; eauto. }
  assert (¬ (fs_identified fs = true ∧ (0 < fs_max_file fs < rq_largest req)%Z)) as Hnf
    by (intros Hx; apply Hguard in Hx; discriminate).
  destruct (sp_known space) eqn:Hk; cbn [negb].
  2: { cbn. split_and!; try done. intros code. split; [done|]. inversion 1; [exfalso; eauto|congruence]. }
  destruct (Z.ltb_spec (sp_free space - held_back (sp_free space) (margin_of req)) (rq_projected req))%Z
    as [Hlt|Hge]; cbn.
  - assert (sub64 (rq_projected req) (sp_free space - held_back (sp_free space) (margin_of req))
      = rq_projected req - (sp_free space - held_back (sp_free space) (margin_of req)))%Z as Hs
      by (apply wrap64_id; unfold is_int64, int64_min, int64_max in *; lia).
    rewrite Hs. split_and!; try done.
    + intros code. split; [intros [= <-]; by constructor|]. inversion 1; [exfalso; eauto|done].
    + intros _. split; [done|lia].
  - split_and!; try done. intros code. split; [done|]. inversion 1; [exfalso; eauto|lia].
Qed.

(** A FAT medium with room to spare and a file over its ceiling. *)
Definition fat_volume (path : string) : res string (Filesystem * Space) :=
  Ok (mkFilesystem "vfat" true maxFAT "statfs(2) f_type" "", mkSpace (2 ^ 40)%Z (2 ^ 41)%Z true).
Lemma Evaluate_exact_witness :
  te_code <$> (Evaluate fat_volume (mkRequest TargetStore "/media" (2 ^ 34)%Z (2 ^ 33)%Z 0%Z)).2 = Some CodeFileTooLarge ∧
  blocked (mkFilesystem "vfat" true maxFAT "statfs(2) f_type" "") (mkSpace (2 ^ 40)%Z (2 ^ 41)%Z true)
    (mkRequest TargetStore "/media" (2 ^ 34)%Z (2 ^ 33)%Z 0%Z) CodeFileTooLarge.
Proof.
  pose proof (Evaluate_exact fat_volume (mkRequest TargetStore "/media" (2 ^ 34)%Z (2 ^ 33)%Z 0%Z) _ _ eq_refl
    ltac:(unfold measurable, int64_max; cbn; lia)) as H.
  destruct (Evaluate _ _) as [c err] eqn:E. destruct H as [Hc _].
  assert (te_code <$> err = Some CodeFileTooLarge) as He
    by (change err with (c, err).2; rewrite <-E; vm_compute; reflexivity).
  split; [exact He|apply Hc; exact He].
Defined.

(** Nothing is refused on a target that cannot be measured, and an identified type
    always has a positive ceiling. *)
Lemma unreadable_never_refused inspect req note :
  inspect (rq_path req) = Err note → (Evaluate inspect req).2 = None.
Proof. unfold Evaluate. by intros ->. Qed.

Lemma typeLimits_positive : map_Forall (λ _ l, (0 < l ≤ int64_max)%Z) typeLimits.
Proof. apply (bool_decide_eq_true_1 _). vm_compute. reflexivity. Qed.
Lemma classify_identified `{GoRuntime} name detection :
  fs_identified (classify name detection) = true → (0 < fs_max_file (classify name detection) ≤ int64_max)%Z.
Proof.
  unfold classify. destruct (typeLimits !! _) eqn:E; cbn; [|done]. intros _.
  by apply typeLimits_positive in E.
Qed.
