(* ===== verification/Transfer.v ===== *)
(** Moving content into the store: the write side of internal/store (write.go), the
    copies of internal/engine/transfer.go, the platform selection, the error mapping
    (errors.go) and the retries the engine runs them under (sync.go).

    Every call to a remote or to the storage backend may fail, or panic, and other
    writers of the store may act before it: the world carries the script of what its
    next calls meet, and the theorems quantify over scripts. Manifests are
    content-addressed, so what a digest stands for is a function of the digest. *)

From S2P Require Import Prelude GoStrings Relocate Taxonomy Tasks StoreMeta StoreGC Prune Preflight.

(** * Errors *)

(** A Go error, by what [errors.As], [errors.Is] and its text answer. *)
Record go_error := mkErr {
  ge_text : string;
  ge_tax : option TaxError;
  ge_field : option (string * string);
  ge_layout : option string;
  ge_nokey : option (list string);
  ge_badsig : option string;
  ge_nosig : bool;
  ge_deadline : bool;
  ge_status : option Z;
  ge_not_exist : bool;
  ge_net : bool;
  ge_too_large : bool;
  ge_absent : bool;
  ge_codes : list string }.
Definition plain (text : string) : go_error :=
  mkErr text None None None None None false false None false false false false [].
(** A taxonomy error as an error. *)
Definition tax_error (e : TaxError) : go_error :=
  mkErr "" (Some e) None None None None false false None false false false false [].
Definition store_absent : go_error := mkErr "store: not found" None None None None None false false None false false false true [].

(** [fmt.Errorf] with [%w]: the text grows, what the error is does not change. *)
Definition wrapf (prefix : string) (e : go_error) : go_error :=
  mkErr (prefix +:+ ge_text e) (ge_tax e) (ge_field e) (ge_layout e) (ge_nokey e) (ge_badsig e) (ge_nosig e)
    (ge_deadline e) (ge_status e) (ge_not_exist e) (ge_net e) (ge_too_large e) (ge_absent e) (ge_codes e).

(** [isNotFound]. *)
Definition isNotFound (e : go_error) : bool :=
  bool_decide (ge_status e = Some 404%Z) || contains_str (ge_text e) "MANIFEST_UNKNOWN" ||
  contains_str (ge_text e) "NAME_UNKNOWN" || ge_not_exist e.

Definition layoutPath : string := "artifact layout (RECIPE-SPEC §11.2)".

(** [mapEngineError]: the first attribute that applies. *)
Definition mapEngineError (e : go_error) (subject : string) : TaxError :=
  let caused t := WithCause (ge_text e) t in
  match ge_tax e with
  | Some t => t
  | None =>
  match ge_field e with
  | Some (path, constraint) =>
      caused (tax CodeValidation (strs [("file", subject); ("path", path); ("constraint", constraint)]))
  | None =>
  match ge_layout e with
  | Some text => caused (tax CodeValidation (strs [("file", subject); ("path", layoutPath); ("constraint", text)]))
  | None =>
  match ge_nokey e with
  | Some tried => caused (tax CodeSignature (strs [("recipe", subject); ("fingerprints", join ", " tried)]))
  | None =>
  match ge_badsig e with
  | Some reason => caused (tax CodeSignature (strs [("recipe", subject); ("fingerprints", reason)]))
  | None =>
      if ge_nosig e then
        caused (tax CodeSignature (strs [("recipe", subject); ("fingerprints", "no signature artifact found")]))
      else if has_prefix (ge_text e) "version " then
        caused (tax CodeVersionResolve (strs [("reference", subject); ("constraint", ""); ("detail", ge_text e)]))
      else if ge_deadline e then
        caused (tax CodeInspectTimeout (strs [("host", subject); ("timeout", "sync")]))
      else if bool_decide (ge_status e = Some 401%Z) || bool_decide (ge_status e = Some 403%Z) then
        caused (tax CodeRegistryAuth (strs [("host", subject)]))
      else if isNotFound e then caused (tax CodeRefNotFound (strs [("reference", subject)]))
      else if ge_net e || contains_str (ge_text e) "connection refused" || contains_str (ge_text e) "no such host" then
        caused (tax CodeRegistryUnreachable (strs [("host", subject)]))
      else caused (tax CodeInternal ∅)
  end end end end end.

(** [Engine.mapError]: the file-size ceiling comes first; [root] is the store's
    directory. *)
Class Volume : Type := { vol_inspect : string → res string (Filesystem * Space); vol_root : string }.
Definition mapError `{Volume} (e : go_error) (subject : string) : TaxError :=
  if ge_too_large e then fileTooLargeError vol_inspect (ge_text e) vol_root 0 else mapEngineError e subject.

(** * Content *)

(** What a digest stands for. A platform is an os, an architecture and a variant. *)
Record platform := mkPlatform { pf_os : string; pf_arch : string; pf_variant : string }.
Record child := mkChild { ch_digest : string; ch_index : bool; ch_platform : option platform }.
Inductive oci_doc :=
  | Image (config : string * Z) (layers : list (string * Z))
  | Index (children : list child).

(** Content by digest: the bytes, what they parse to as a manifest, their artifact type
    ([artifactTypeOf]), and which references are digests at all. The rank states that
    no document contains its own digest, however deep. *)
Class Documents : Type := {
  doc_of : string → option oci_doc;
  doc_bytes : string → string;
  doc_artifact_type : string → string;
  digest_ok : string → bool;
  doc_rank : string → nat;
  doc_rank_child : ∀ d children c,
    doc_of d = Some (Index children) → c ∈ children → doc_rank (ch_digest c) < doc_rank d;
}.
Definition image_blobs (config : string * Z) (layers : list (string * Z)) : list (string * Z) := layers ++ [config].
Definition doc_refs (doc : oci_doc) : bool * list string :=
  match doc with
  | Image config layers => (false, fst <$> image_blobs config layers)
  | Index children => (true, ch_digest <$> children)
  end.
#[export] Instance docs_contents `{Documents} : Contents := {| content_of d := doc_refs <$> doc_of d |}.

(** * The world of a run *)

Inductive fault := Fails (e : go_error) | Panics.
(** What one call meets: time passes, the other writers of the store act, then it goes
    through or not. *)
Record event := mkEvent { ev_wait : Z; ev_other : Store → Store; ev_fault : option fault }.

(** The destination registry, as far as a run changes it: tags, manifests and blobs by
    repository; and the acceptance verdicts cached about it. *)
Record DestState := mkDest { ds_tags : gmap (string * string) string; ds_manifests : gset (string * string);
  ds_blobs : gset (string * string); ds_accepted : gmap string (option TaxError) }.

(** The store, the task behind the sink, what the run resolved, the bytes moved, the
    destination and the events to come. *)
Record World := mkWorld {
  w_store : Store; w_task : Task; w_resolved : resolvedRecipes; w_moved : Z; w_dest : DestState;
  w_now : time; w_script : list event }.

Inductive outcome A := Done (a : A) | Failed (e : go_error) | Panicked.
Arguments Done {A} a.
Arguments Failed {A} e.
Arguments Panicked {A}.

Definition eng (A : Type) : Type := World → outcome A * World.
#[export] Instance eng_ret : MRet eng := λ A a w, (Done a, w).
#[export] Instance eng_bind : MBind eng := λ A B f m w,
  match m w with
  | (Done a, w) => f a w
  | (Failed e, w) => (Failed e, w)
  | (Panicked, w) => (Panicked, w)
  end.
Definition raise {A} (e : go_error) : eng A := λ w, (Failed e, w).
(** An error as a value: what follows an [if err != nil]. *)
Definition attempt {A} (m : eng A) : eng (res go_error A) := λ w,
  match m w with
  | (Done a, w) => (Done (Ok a), w)
  | (Failed e, w) => (Done (Err e), w)
  | (Panicked, w) => (Panicked, w)
  end.
Definition lift {A} (r : res go_error A) : eng A := λ w,
  (match r with Ok a => Done a | Err e => Failed e end, w).
Definition gets {A} (f : World → A) : eng A := λ w, (Done (f w), w).

(** A read of the store as it is. *)
Definition reading {A} (f : Store → res go_error A) : eng A := λ w, lift (f (w_store w)) w.
Definition on_store (f : Store → Store) : eng unit := λ w,
  (Done tt, mkWorld (f (w_store w)) (w_task w) (w_resolved w) (w_moved w) (w_dest w) (w_now w) (w_script w)).
Definition on_task (f : Task → Task) : eng unit := λ w,
  (Done tt, mkWorld (w_store w) (f (w_task w)) (w_resolved w) (w_moved w) (w_dest w) (w_now w) (w_script w)).
Definition on_resolved (f : resolvedRecipes → resolvedRecipes) : eng unit := λ w,
  (Done tt, mkWorld (w_store w) (w_task w) (f (w_resolved w)) (w_moved w) (w_dest w) (w_now w) (w_script w)).
Definition on_dest (f : DestState → DestState) : eng unit := λ w,
  (Done tt, mkWorld (w_store w) (w_task w) (w_resolved w) (w_moved w) (f (w_dest w)) (w_now w) (w_script w)).
Definition add_moved (n : Z) : eng unit := λ w,
  (Done tt, mkWorld (w_store w) (w_task w) (w_resolved w) (add64 (w_moved w) n) (w_dest w) (w_now w) (w_script w)).

(** One call: the next event of the script, if any. *)
Definition next_event (e : event) (es : list event) (w : World) : World :=
  mkWorld (ev_other e (w_store w)) (w_task w) (w_resolved w) (w_moved w) (w_dest w)
    (w_now w + ev_wait e) es.
Definition call : eng unit := λ w,
  match w_script w with
  | [] => (Done tt, w)
  | e :: es =>
      (match ev_fault e with
       | None => Done tt | Some (Fails err) => Failed err | Some Panics => Panicked
       end, next_event e es w)
  end.
(** A call whose error is taken for the answer no. *)
Definition quiet (b : Store → bool) : eng bool :=
  r ← attempt call;
  match r with Ok _ => gets (λ w, b (w_store w)) | Err _ => mret false end.

(** * The write side of the store *)

Section store.
Context `{StoreIO, Documents}.

Definition repo_of (repo : string) (st : Store) : RepoDir := default (mkRepoDir ∅ ∅ ∅) (st_repos st !! repo).
Definition has_data (d : string) (st : Store) : bool :=
  match st_blobs st !! d with Some (Some _) => true | _ => false end.
Definition linked_revision (repo d : string) (st : Store) : bool :=
  bool_decide (is_Some (rd_revisions (repo_of repo st) !! d)).
Definition linked_layer (repo d : string) (st : Store) : bool :=
  bool_decide (is_Some (rd_layers (repo_of repo st) !! d)).
Definition has_manifest (repo d : string) (st : Store) : bool :=
  name_ok repo && linked_revision repo d st && has_data d st.
Definition has_blob (repo d : string) (st : Store) : bool :=
  name_ok repo && linked_layer repo d st && has_data d st.

(** [HasManifest], [ResolveTag] and [HasBlob]: an error is an absence. *)
Definition HasManifest (repo d : string) : eng bool := quiet (has_manifest repo d).
Definition HasBlob (repo d : string) : eng bool := quiet (has_blob repo d).
Definition ResolveTag (repo tag : string) : eng (option string) :=
  r ← attempt call;
  match r with
  | Ok _ => gets (λ w, if name_ok repo then rd_tags (repo_of repo (w_store w)) !! tag else None)
  | Err _ => mret None
  end.

(** The data of a blob is written once: committing it again leaves the file, and
    its instant, as they are. A link carries the instant it was laid. *)
Definition put_data (d : string) (now : time) (blobs : gmap string (option time)) : gmap string (option time) :=
  match blobs !! d with Some (Some _) => blobs | _ => <[d := Some now]> blobs end.
Definition link_layer (repo d : string) (now : time) (st : Store) : Store :=
  let r := repo_of repo st in
  mkStore (<[repo := mkRepoDir (rd_tags r) (rd_revisions r) (<[d := Some now]> (rd_layers r))]> (st_repos st))
    (put_data d now (st_blobs st)) (st_meta st).
Definition link_revision (repo d : string) (now : time) (st : Store) : Store :=
  let r := repo_of repo st in
  mkStore (<[repo := mkRepoDir (rd_tags r) (<[d := Some now]> (rd_revisions r)) (rd_layers r)]> (st_repos st))
    (put_data d now (st_blobs st)) (st_meta st).
Definition link_tag (repo tag d : string) (st : Store) : Store :=
  let r := repo_of repo st in
  mkStore (<[repo := mkRepoDir (<[tag := d]> (rd_tags r)) (rd_revisions r) (rd_layers r)]> (st_repos st))
    (st_blobs st) (st_meta st).

(** [WriteBlob]: the commit verifies the digest, or leaves no trace. *)
Definition WriteBlob (repo d : string) : eng unit :=
  if negb (name_ok repo) then raise store_absent
  else
    has ← HasBlob repo d;
    if (has : bool) then mret tt
    else
      _ ← call;
      now ← gets w_now;
      on_store (link_layer repo d now).

(** [PutManifest]: the payload under its digest, then the tag. *)
Definition PutManifest (repo d tag : string) : eng unit :=
  if negb (name_ok repo) then raise store_absent
  else
    _ ← call;
    now ← gets w_now;
    _ ← on_store (link_revision repo d now);
    if String.eqb tag "" then mret tt
    else _ ← call; on_store (link_tag repo tag d).

(** * Copies *)

(** [itemFor], and an update of the item it finds or creates. *)
Definition new_item (name : string) : Item := mkItem name "" 0 StatusPending None [].
Fixpoint upd_items (f : Item → Item) (name : string) (items : list Item) : list Item :=
  match items with
  | [] => [f (new_item name)]
  | it :: items => if String.eqb (it_name it) name then f it :: items else it :: upd_items f name items
  end.
Definition set_items (items : list Item) (t : Task) : Task :=
  mkTask (t_id t) (t_run_id t) (t_type t) (t_reference t) (t_actor t) (t_status t) (t_created t)
    (t_started t) (t_finished t) (t_resumed t) (t_vendor t) (t_layout t) (t_overrides t)
    (t_error t) items (t_charts t) (t_prune t) (t_pruned t) (t_resolutions t).
Definition set_resolutions (rs : list Resolution) (t : Task) : Task :=
  mkTask (t_id t) (t_run_id t) (t_type t) (t_reference t) (t_actor t) (t_status t) (t_created t)
    (t_started t) (t_finished t) (t_resumed t) (t_vendor t) (t_layout t) (t_overrides t)
    (t_error t) (t_items t) (t_charts t) (t_prune t) (t_pruned t) rs.
Definition set_charts (cs : list ChartDependency) (t : Task) : Task :=
  mkTask (t_id t) (t_run_id t) (t_type t) (t_reference t) (t_actor t) (t_status t) (t_created t)
    (t_started t) (t_finished t) (t_resumed t) (t_vendor t) (t_layout t) (t_overrides t)
    (t_error t) (t_items t) cs (t_prune t) (t_pruned t) (t_resolutions t).
Definition set_pruned (rows : list PrunedRow) (t : Task) : Task :=
  mkTask (t_id t) (t_run_id t) (t_type t) (t_reference t) (t_actor t) (t_status t) (t_created t)
    (t_started t) (t_finished t) (t_resumed t) (t_vendor t) (t_layout t) (t_overrides t)
    (t_error t) (t_items t) (t_charts t) (t_prune t) rows (t_resolutions t).
Definition on_item (name : string) (f : Item → Item) : eng unit :=
  on_task (λ t, set_items (upd_items f name (t_items t)) t).

(** The status of the item [itemFor] finds, and whether it is settled. *)
Definition item_status (item : string) (t : Task) : Status :=
  match List.find (λ it, String.eqb (it_name it) item) (t_items t) with
  | Some it => it_status it
  | None => StatusPending
  end.
Definition settles (s : Status) : bool := match s with StatusDone | StatusSkipped => true | _ => false end.
Definition settled (item : string) (t : Task) : bool := settles (item_status item t).

(** [blobs.done]: the row of a blob that landed, on the item watching it. *)
Definition blob_done (track : option string) (d : string) : eng unit :=
  match track with Some name => on_item name (λ it, TrackBlobDone it d) | None => mret tt end.

(** [copyImage]: the layers, the configuration, then the manifest. *)
Definition copy_blob (track : option string) (repo : string) (b : string * Z) : eng unit :=
  has ← HasBlob repo b.1;
  if (has : bool) then mret tt
  else
    _ ← call;
    _ ← WriteBlob repo b.1;
    _ ← blob_done track b.1;
    add_moved b.2.
Fixpoint copy_blobs (track : option string) (repo : string) (bs : list (string * Z)) : eng unit :=
  match bs with
  | [] => mret tt
  | b :: bs => _ ← copy_blob track repo b; copy_blobs track repo bs
  end.
Definition copyImage (track : option string) (repo tag d : string) : eng unit :=
  _ ← call;
  match doc_of d with
  | Some (Image config layers) =>
      _ ← call;
      _ ← copy_blobs track repo layers;
      _ ← call;
      _ ← copy_blob track repo config;
      _ ← call;
      PutManifest repo d tag
  | _ => raise (plain "not an image")
  end.

(** The loop both index copies run over their children. *)
Fixpoint copy_children (nested : string → eng unit) (track : option string) (repo : string)
    (selected : option (gset string)) (children : list child) : eng unit :=
  match children with
  | [] => mret tt
  | c :: children =>
      if match selected with Some s => bool_decide (ch_digest c ∉ s) | None => false end then
        copy_children nested track repo selected children
      else
        has ← HasManifest repo (ch_digest c);
        _ ← (if (has : bool) then mret tt
             else if ch_index c then nested (ch_digest c)
             else copyImage track repo "" (ch_digest c));
        copy_children nested track repo selected children
  end.

(** [copyNestedIndex]: untagged, with all its children. *)
Fixpoint copyNestedIndex (fuel : nat) (track : option string) (repo d : string) : eng unit :=
  match fuel with
  | 0 => raise (plain "out of fuel")
  | S fuel =>
      _ ← call;
      match doc_of d with
      | Some (Index children) =>
          _ ← copy_children (copyNestedIndex fuel track repo) track repo None children;
          _ ← call;
          PutManifest repo d ""
      | _ => raise (plain "not an index")
      end
  end.

(** [copyIndexChildren]: the selected children, then the original index. *)
Definition copyIndexChildren (track : option string) (repo tag d : string) (selected : option (gset string)) : eng unit :=
  _ ← call;
  match doc_of d with
  | Some (Index children) =>
      _ ← copy_children (copyNestedIndex (doc_rank d) track repo) track repo selected children;
      _ ← call;
      PutManifest repo d tag
  | _ => raise (plain "not an index")
  end.

(** [copyArtifact]: configuration and layers, those that are named, each read whole by
    [fetch], then the manifest; an index names no blob in the fields this copy reads. *)
Fixpoint copy_artifact_blobs (fetch : string → eng unit) (repo : string) (bs : list string) : eng unit :=
  match bs with
  | [] => mret tt
  | b :: bs =>
      if String.eqb b "" then copy_artifact_blobs fetch repo bs
      else if negb (digest_ok b) then raise (plain ("artifact blob digest " +:+ b))
      else
        has ← HasBlob repo b;
        _ ← (if (has : bool) then mret tt else _ ← fetch b; WriteBlob repo b);
        copy_artifact_blobs fetch repo bs
  end.
Definition artifact_blobs (d : string) : list string :=
  match doc_of d with Some (Image config layers) => config.1 :: (fst <$> layers) | _ => [] end.
Definition copyArtifact (fetch : string → eng unit) (repo tag d : string) : eng unit :=
  _ ← copy_artifact_blobs fetch repo (artifact_blobs d);
  PutManifest repo d tag.

(** * Platforms *)

(** [MatchesPlatform] (importer). *)
Definition MatchesPlatform (selector : string) (p : platform) : bool :=
  match split_byte "/" selector with
  | [os; arch] => String.eqb os (pf_os p) && String.eqb arch (pf_arch p)
  | [os; arch; variant] =>
      String.eqb os (pf_os p) && String.eqb arch (pf_arch p) && String.eqb variant (pf_variant p)
  | _ => false
  end.
Definition platformLabel (p : platform) : string :=
  pf_os p +:+ "/" +:+ pf_arch p +:+ (if String.eqb (pf_variant p) "" then "" else "/" +:+ pf_variant p).
Definition platformList (available : list string) : string :=
  match available with [] => "no platform-tagged child at all" | _ => join ", " available end.

(** [selectPlatforms]: [None] is every child. *)
Definition wanted (platforms : list string) (c : child) : bool :=
  match ch_platform c with
  | Some p => existsb (λ want, MatchesPlatform want p) platforms
  | None => false
  end.
Definition served (children : list child) (want : string) : bool :=
  existsb (λ c, match ch_platform c with Some p => MatchesPlatform want p | None => false end) children.
Definition selectPlatforms `{GoRuntime} (ref d : string) (platforms : list string)
  : res go_error (option (gset string)) :=
  match platforms with
  | [] => Ok None
  | _ =>
      match doc_of d with
      | Some (Index children) =>
          let missing := filter (λ want, served children want = false) platforms in
          let available := platformLabel <$> omap ch_platform children in
          match missing with
          | [] => Ok (Some (list_to_set (ch_digest <$> filter (λ c, wanted platforms c = true) children)))
          | _ => Err (tax_error (tax CodePlatformMissing
                   (strs [("reference", ref); ("platforms", join ", " (sort_slice str_ltb missing));
                        ("available", platformList (sort_slice str_ltb available))])))
          end
      | _ => Err (plain "not an index")
      end
  end.

(** * Retries *)

(** [withRetries]: a ceiling, a policy or a verification refusal is not retried;
    [cancelled] tells whether the context ends during the wait. *)
Definition retryable (e : go_error) : bool :=
  negb (ge_too_large e) &&
  match ge_tax e with Some t => bool_decide (class_of (te_code t) = ClassOperational) | None => true end.
Fixpoint withRetries {A} (cancelled : nat → bool) (retries attempt_no : nat) (fn : eng A) : eng A :=
  match retries with
  | 0 => fn
  | S retries =>
      r ← attempt fn;
      match r with
      | Ok a => mret a
      | Err e =>
          if negb (retryable e) then raise e
          else if cancelled attempt_no then raise e
          else withRetries cancelled retries (S attempt_no) fn
      end
  end.
End store.
