(* ===== verification/TransferSafety.v ===== *)
(** Correctness of the copies into the store: every image the store lists has its
    blobs, at every point of a copy and whatever its calls meet; a copy that returns
    has landed what it names; the recursion through nested indexes ends; and the one
    way the first of these fails, a sweep between a blob found present and the
    manifest that needs it. *)

From S2P Require Import Prelude GoStrings Relocate Taxonomy Tasks StoreMeta StoreGC StoreSafety Prune Preflight Transfer.

(** * Operations under a relation on worlds *)

(** [Keeps R m]: whatever its outcome, [m] moves the world along [R]. The class is
    derived over the combinators of the monad for any preorder. *)
Class Keeps (R : relation World) {A} (m : eng A) : Prop := keeps w : R w (m w).2.

Section keeps.
Context {R : relation World} `{!PreOrder R}.

#[export] Instance keeps_ret {A} (a : A) : Keeps R (mret a).
Proof. intros w. reflexivity. Qed.
#[export] Instance keeps_raise {A} e : Keeps R (A:=A) (raise e).
Proof. intros w. reflexivity. Qed.
#[export] Instance keeps_lift {A} (r : res go_error A) : Keeps R (lift r).
Proof. intros w. reflexivity. Qed.
#[export] Instance keeps_gets {A} (f : World → A) : Keeps R (gets f).
Proof. intros w. reflexivity. Qed.
#[export] Instance keeps_reading {A} (f : Store → res go_error A) : Keeps R (reading f).
Proof. intros w. reflexivity. Qed.
#[export] Instance keeps_bind {A B} (m : eng A) (f : A → eng B) :
  Keeps R m → (∀ a, Keeps R (f a)) → Keeps R (m ≫= f).
Proof.
  intros Hm Hf w. specialize (Hm w). unfold mbind, eng_bind. destruct (m w) as [[a|e|] w1]; cbn in *; try done.
  etrans; [exact Hm|exact (Hf a w1)].
Qed.
#[export] Instance keeps_attempt {A} (m : eng A) : Keeps R m → Keeps R (attempt m).
Proof. intros Hm w. specialize (Hm w). unfold attempt. by destruct (m w) as [[]]. Qed.
#[export] Instance keeps_if {A} (b : bool) (m1 m2 : eng A) :
  Keeps R m1 → Keeps R m2 → Keeps R (if b then m1 else m2).
Proof. by destruct b. Qed.
#[export] Instance keeps_decide {A} P `{Decision P} (m1 m2 : eng A) :
  Keeps R m1 → Keeps R m2 → Keeps R (if decide P then m1 else m2).
Proof. by destruct (decide P). Qed.
#[export] Instance keeps_res {E A B} (r : res E A) (f : A → eng B) (g : E → eng B) :
  (∀ a, Keeps R (f a)) → (∀ e, Keeps R (g e)) → Keeps R (match r with Ok a => f a | Err e => g e end).
Proof. by destruct r. Qed.
#[export] Instance keeps_option {A B} (r : option A) (f : A → eng B) (g : eng B) :
  (∀ a, Keeps R (f a)) → Keeps R g → Keeps R (match r with Some a => f a | None => g end).
Proof. by destruct r. Qed.
#[export] Instance keeps_pair {A B C} (p : A * B) (f : A → B → eng C) :
  (∀ a b, Keeps R (f a b)) → Keeps R (let '(a, b) := p in f a b).
Proof. by destruct p. Qed.
#[export] Instance keeps_withRetries {A} cancelled retries k (fn : eng A) :
  Keeps R fn → Keeps R (withRetries cancelled retries k fn).
Proof. intros Hf. revert k. induction retries; intros k; cbn [withRetries]; apply _. Qed.
(** A retried call that succeeds did so on one of its attempts. *)
Lemma withRetries_attempt {A} cancelled retries k (fn : eng A) `{!Keeps R fn} w a w' :
  withRetries cancelled retries k fn w = (Done a, w') → ∃ w1, R w w1 ∧ fn w1 = (Done a, w').
Proof.
  revert k w. induction retries as [|retries IH]; intros k w; cbn [withRetries]; [by exists w|].
  unfold mbind, eng_bind, attempt. pose proof (keeps w : R w (fn w).2) as Hw.
  destruct (fn w) as [[b|e|] w2] eqn:Ef; cbn in Hw |- *; [| |done].
  - intros [= <- <-]. by exists w.
  - destruct (negb (retryable e)); [done|]. destruct (cancelled k); [done|].
    intros (w3 & ? & ?)%IH. exists w3. split; [by etrans|done].
Qed.
End keeps.

Section closure.
Context `{StoreIO, Documents}.

(** * The store as a set of facts *)

(** What a writer may do to the store and not take away. *)
Record ext (st st' : Store) : Prop := {
  ext_data d : has_data d st = true → has_data d st' = true;
  ext_revision repo d : linked_revision repo d st = true → linked_revision repo d st' = true;
  ext_layer repo d : linked_layer repo d st = true → linked_layer repo d st' = true }.
#[export] Instance ext_preorder : PreOrder ext.
Proof. split; [by split; auto|]. intros st1 st2 st3 [] []. split; auto. Qed.

(** The blobs a digest names. *)
Definition named_blobs (d : string) : list string :=
  match doc_of d with
  | Some (Image config layers) => filter (λ b, b ≠ "") (fst <$> image_blobs config layers)
  | _ => []
  end.
Definition blobs_in (repo d : string) (st : Store) : Prop :=
  ∀ b, b ∈ named_blobs d → linked_layer repo b st = true ∧ has_data b st = true.

(** A closed store: every revision has its data and its blobs, every tag a revision. *)
Record closed (st : Store) : Prop := {
  closed_data repo d : linked_revision repo d st = true → has_data d st = true;
  closed_blobs repo d : linked_revision repo d st = true → blobs_in repo d st;
  closed_tag repo tag d : rd_tags (repo_of repo st) !! tag = Some d → linked_revision repo d st = true }.

Lemma blobs_in_ext repo d st st' : ext st st' → blobs_in repo d st → blobs_in repo d st'.
Proof. intros [] Hb b [? ?]%Hb. auto. Qed.

(** The other writers of the store: they keep it closed, take nothing away and leave
    the recipe graph alone. *)
Definition benign (f : Store → Store) : Prop :=
  ∀ st, closed st → closed (f st) ∧ ext st (f st) ∧ mt_recipes (st_meta (f st)) = mt_recipes (st_meta st).
Definition calm (w : World) : Prop := Forall (λ e, benign (ev_other e)) (w_script w).

(** How a copy moves the world. *)
Record moves (w w' : World) : Prop := {
  mv_calm : calm w';
  mv_closed : closed (w_store w');
  mv_ext : ext (w_store w) (w_store w');
  mv_recipes : mt_recipes (st_meta (w_store w')) = mt_recipes (st_meta (w_store w));
  mv_resolved : w_resolved w' = w_resolved w;
  mv_dest : w_dest w' = w_dest w;
  mv_status item : item_status item (w_task w') = item_status item (w_task w) }.
Definition evolves (w w' : World) : Prop := calm w → closed (w_store w) → moves w w'.
#[export] Instance evolves_preorder : PreOrder evolves.
Proof.
  split; [by intros w ? ?; split|].
  intros w1 w2 w3 H1 H2 Hc Hs. destruct (H1 Hc Hs) as [? ? E1 R1 ? ? S1].
  destruct H2 as [? ? E2 R2 ? ? S2]; try done.
  split; try done; [by etrans|congruence..|]. intros item. by rewrite S2, S1.
Qed.

(** Operations that only move the world that way. *)
#[local] Abbreviation Tame := (Keeps evolves).

(** Items *)
Definition keeps_name (f : Item → Item) : Prop := ∀ it, it_name (f it) = it_name it.
Lemma find_upd f name items x : keeps_name f →
  List.find (λ it, String.eqb (it_name it) x) (upd_items f name items) =
  if String.eqb name x then
    Some (f (default (new_item name) (List.find (λ it, String.eqb (it_name it) name) items)))
  else List.find (λ it, String.eqb (it_name it) x) items.
Proof.
  intros Hf. induction items as [|it items IH]; cbn [upd_items List.find].
  { rewrite (Hf (new_item name)). cbn. by destruct (String.eqb name x). }
  destruct (String.eqb_spec (it_name it) name) as [Hn|Hn]; cbn [List.find].
  - rewrite Hf, Hn. by destruct (String.eqb_spec name x).
  - destruct (String.eqb_spec (it_name it) x) as [Hx|Hx]; [|apply IH].
    destruct (String.eqb_spec name x); [congruence|done].
Qed.
Lemma item_status_upd f name x t : keeps_name f →
  item_status x (set_items (upd_items f name (t_items t)) t) =
  if String.eqb name x then
    it_status (f (default (new_item name) (List.find (λ it, String.eqb (it_name it) name) (t_items t))))
  else item_status x t.
Proof. intros Hf. unfold item_status. cbn [t_items set_items]. rewrite (find_upd f name _ x Hf). by destruct (String.eqb name x). Qed.

#[export] Instance tame_on_task f : (∀ t, t_items (f t) = t_items t) → Tame (on_task f).
Proof. intros Hf w ? ?. split; try done. intros item. unfold item_status. cbn. by rewrite Hf. Qed.
#[export] Instance tame_add_moved n : Tame (add_moved n).
Proof. intros w ? ?. by split. Qed.
#[export] Instance tame_call : Tame call.
Proof.
  intros w Hc Hs. unfold call. unfold calm in Hc.
  destruct (w_script w) as [|e es] eqn:E; [split; try done; unfold calm; cbn; rewrite E; constructor|].
  inversion Hc as [|? ? Hb Hes]; subst. destruct (Hb _ Hs) as (? & ? & ?). by split.
Qed.
#[export] Instance tame_quiet b : Tame (quiet b).
Proof. unfold quiet. apply _. Qed.
#[export] Instance tame_HasManifest repo d : Tame (HasManifest repo d).
Proof. unfold HasManifest. apply _. Qed.
#[export] Instance tame_HasBlob repo d : Tame (HasBlob repo d).
Proof. unfold HasBlob. apply _. Qed.
#[export] Instance tame_ResolveTag repo tag : Tame (ResolveTag repo tag).
Proof. unfold ResolveTag. apply _. Qed.
Lemma tame_on_item name f : keeps_name f → (∀ it, it_status (f it) = it_status it) → Tame (on_item name f).
Proof.
  intros Hn Hf w ? ?. split; try done. intros item. cbn.
  rewrite item_status_upd by done. destruct (String.eqb_spec name item) as [->|]; [|done].
  rewrite Hf. unfold item_status. by destruct (List.find _ (t_items (w_task w))).
Qed.
#[export] Instance tame_blob_done track d : Tame (blob_done track d).
Proof. destruct track; [|apply _]. by apply tame_on_item. Qed.

(** * Writing *)

Lemma repo_of_insert repo r st blobs meta repo' :
  repo_of repo' (mkStore (<[repo := r]> (st_repos st)) blobs meta) =
  if decide (repo' = repo) then r else repo_of repo' st.
Proof.
  unfold repo_of. cbn. destruct (decide (repo' = repo)) as [->|Hne].
  - by rewrite lookup_insert_eq.
  - by rewrite lookup_insert_ne.
Qed.
Lemma has_data_put d now x st repos meta :
  has_data x (mkStore repos (put_data d now (st_blobs st)) meta) = bool_decide (x = d) || has_data x st.
Proof.
  unfold has_data, put_data. cbn. destruct (decide (x = d)) as [->|Hne].
  - rewrite bool_decide_true by done. cbn.
    destruct (st_blobs st !! d) as [[]|] eqn:E; by rewrite ?E, ?lookup_insert_eq.
  - rewrite bool_decide_false by done. cbn.
    destruct (st_blobs st !! d) as [[]|] eqn:E; by rewrite ?lookup_insert_ne.
Qed.

(** What each link adds. *)
Ltac link_tac := unfold linked_layer, linked_revision; cbn; rewrite ?repo_of_insert;
  case_decide; subst; cbn; rewrite ?bool_decide_eq_true; try rewrite lookup_insert_is_Some'; naive_solver.
Lemma layer_link_layer repo d now st repo' x :
  linked_layer repo' x (link_layer repo d now st) = true ↔
  linked_layer repo' x st = true ∨ repo' = repo ∧ x = d.
Proof. unfold link_layer. link_tac. Qed.
Lemma revision_link_layer repo d now st repo' x :
  linked_revision repo' x (link_layer repo d now st) = true ↔ linked_revision repo' x st = true.
Proof. unfold link_layer. link_tac. Qed.
Lemma layer_link_revision repo d now st repo' x :
  linked_layer repo' x (link_revision repo d now st) = true ↔ linked_layer repo' x st = true.
Proof. unfold link_revision. link_tac. Qed.
Lemma revision_link_revision repo d now st repo' x :
  linked_revision repo' x (link_revision repo d now st) = true ↔
  linked_revision repo' x st = true ∨ repo' = repo ∧ x = d.
Proof. unfold link_revision. link_tac. Qed.
Lemma layer_link_tag repo tag d st repo' x :
  linked_layer repo' x (link_tag repo tag d st) = true ↔ linked_layer repo' x st = true.
Proof. unfold link_tag. link_tac. Qed.
Lemma revision_link_tag repo tag d st repo' x :
  linked_revision repo' x (link_tag repo tag d st) = true ↔ linked_revision repo' x st = true.
Proof. unfold link_tag. link_tac. Qed.
Lemma data_link_layer repo d now st x :
  has_data x (link_layer repo d now st) = true ↔ x = d ∨ has_data x st = true.
Proof. unfold link_layer. rewrite has_data_put, orb_true_iff, bool_decide_eq_true. done. Qed.
Lemma data_link_revision repo d now st x :
  has_data x (link_revision repo d now st) = true ↔ x = d ∨ has_data x st = true.
Proof. unfold link_revision. rewrite has_data_put, orb_true_iff, bool_decide_eq_true. done. Qed.

Lemma link_layer_ext repo d now st : ext st (link_layer repo d now st).
Proof.
  split; intros *; rewrite ?data_link_layer, ?revision_link_layer, ?layer_link_layer; tauto.
Qed.
Lemma link_revision_ext repo d now st : ext st (link_revision repo d now st).
Proof.
  split; intros *; rewrite ?data_link_revision, ?revision_link_revision, ?layer_link_revision; tauto.
Qed.
Lemma link_tag_ext repo tag d st : ext st (link_tag repo tag d st).
Proof. split; intros *; rewrite ?revision_link_tag, ?layer_link_tag; done. Qed.

Lemma link_layer_closed repo d now st : closed st → closed (link_layer repo d now st).
Proof.
  intros [Hd Hb Ht]. split.
  - intros repo' x. rewrite revision_link_layer, data_link_layer. intros ?%Hd. tauto.
  - intros repo' x. rewrite revision_link_layer. intros ?%Hb.
    by eapply blobs_in_ext, H1; apply link_layer_ext.
  - intros repo' tag x. rewrite revision_link_layer. unfold link_layer. rewrite repo_of_insert.
    case_decide; subst; cbn; apply Ht.
Qed.
Lemma link_revision_closed repo d now st :
  blobs_in repo d st → closed st → closed (link_revision repo d now st).
Proof.
  intros Hin [Hd Hb Ht]. split.
  - intros repo' x. rewrite revision_link_revision, data_link_revision. intros [?%Hd|[_ ->]]; tauto.
  - intros repo' x. rewrite revision_link_revision. intros Hx.
    eapply blobs_in_ext; [apply link_revision_ext|]. by destruct Hx as [?%Hb|[-> ->]].
  - intros repo' tag x. rewrite revision_link_revision. unfold link_revision. rewrite repo_of_insert.
    case_decide; subst; cbn; intros ?%Ht; tauto.
Qed.
Lemma link_tag_closed repo tag d st :
  linked_revision repo d st = true → closed st → closed (link_tag repo tag d st).
Proof.
  intros Hr [Hd Hb Ht]. split.
  - intros repo' x. rewrite revision_link_tag. apply Hd.
  - intros repo' x. rewrite revision_link_tag. intros ?%Hb. by eapply blobs_in_ext, H1; apply link_tag_ext.
  - intros repo' tag' x. rewrite revision_link_tag. unfold link_tag. rewrite repo_of_insert.
    case_decide; subst; cbn; [|apply Ht]. rewrite lookup_insert_Some. intros [[_ <-]|[_ ?%Ht]]; done.
Qed.

(** * Runs *)

Lemma bind_Done {A B} (m : eng A) (f : A → eng B) w b w' :
  (m ≫= f) w = (Done b, w') → ∃ a w1, m w = (Done a, w1) ∧ f a w1 = (Done b, w').
Proof. unfold mbind, eng_bind. destruct (m w) as [[]]; naive_solver. Qed.
Lemma tame_run {A} (m : eng A) `{!Tame m} w o w' : m w = (o, w') → evolves w w'.
Proof. intros E. generalize (keeps w : evolves w (m w).2). by rewrite E. Qed.
Lemma HasBlob_true repo d w w' : HasBlob repo d w = (Done true, w') → has_blob repo d (w_store w') = true.
Proof.
  unfold HasBlob, quiet. intros (r & w1 & E1 & E2)%bind_Done. destruct r; unfold gets, mret, eng_ret in E2; congruence.
Qed.
Lemma HasManifest_true repo d w w' :
  HasManifest repo d w = (Done true, w') → has_manifest repo d (w_store w') = true.
Proof.
  unfold HasManifest, quiet. intros (r & w1 & E1 & E2)%bind_Done. destruct r; unfold gets, mret, eng_ret in E2; congruence.
Qed.

#[export] Instance tame_on_store f :
  (∀ st, closed st → closed (f st)) → (∀ st, ext st (f st)) →
  (∀ st, mt_recipes (st_meta (f st)) = mt_recipes (st_meta st)) → Tame (on_store f).
Proof. intros Hc He Hm w ? ?. split; cbn; auto. Qed.
#[export] Instance tame_WriteBlob repo d : Tame (WriteBlob repo d).
Proof.
  unfold WriteBlob. repeat (apply keeps_if || apply keeps_bind; intros); try apply _.
  apply tame_on_store; intros; [by apply link_layer_closed|apply link_layer_ext|done].
Qed.
#[export] Instance tame_copy_blob track repo b : Tame (copy_blob track repo b).
Proof. unfold copy_blob. apply _. Qed.
#[export] Instance tame_copy_blobs track repo bs : Tame (copy_blobs track repo bs).
Proof. induction bs; cbn; apply _. Qed.
#[export] Instance tame_copy_artifact_blobs fetch repo bs :
  (∀ b, Tame (fetch b)) → Tame (copy_artifact_blobs fetch repo bs).
Proof. intros Hf. induction bs; cbn; apply _. Qed.

Definition landed (repo b : string) (st : Store) : Prop := linked_layer repo b st = true ∧ has_data b st = true.
Lemma landed_ext repo b st st' : ext st st' → landed repo b st → landed repo b st'.
Proof. intros [] []. split; auto. Qed.
Lemma has_blob_landed repo b st : has_blob repo b st = true → landed repo b st.
Proof. unfold has_blob. rewrite !andb_true_iff. by intros [[_ ?] ?]. Qed.
Lemma WriteBlob_done repo d w w' : WriteBlob repo d w = (Done tt, w') → landed repo d (w_store w').
Proof.
  unfold WriteBlob. destruct (name_ok repo); [cbn [negb]|done].
  intros (has & w1 & E1 & E)%bind_Done. destruct has.
  { injection E as <-. by apply HasBlob_true, has_blob_landed in E1. }
  apply bind_Done in E as (? & w2 & _ & E). apply bind_Done in E as (now & w3 & _ & E).
  injection E as <-. cbn. split; [apply layer_link_layer|apply data_link_layer]; tauto.
Qed.

(** * Copies *)

Definition fine (w : World) : Prop := calm w ∧ closed (w_store w).
Lemma tame_moves {A} (m : eng A) `{!Tame m} w o w' : m w = (o, w') → fine w → moves w w'.
Proof. intros E [? ?]. by eapply (tame_run m). Qed.
Lemma moves_fine w w' : moves w w' → fine w'.
Proof. by intros []. Qed.

Lemma copy_blob_done track repo b w w' :
  copy_blob track repo b w = (Done tt, w') → landed repo b.1 (w_store w').
Proof.
  unfold copy_blob. intros (has & w1 & E1 & E)%bind_Done. destruct has.
  { injection E as <-. by apply HasBlob_true, has_blob_landed in E1. }
  apply bind_Done in E as (? & w2 & _ & E). apply bind_Done in E as ([] & w3 & E3%WriteBlob_done & E).
  apply bind_Done in E as (? & w4 & E4 & E). injection E as <-. cbn.
  assert (w_store w4 = w_store w3) as -> by (destruct track; injection E4; intros; by subst).
  done.
Qed.
Lemma copy_blobs_done track repo bs w w' : fine w →
  copy_blobs track repo bs w = (Done tt, w') → ∀ b, b ∈ bs → landed repo b.1 (w_store w').
Proof.
  revert w. induction bs as [|b bs IH]; intros w Hw; cbn [copy_blobs]; [set_solver|].
  intros ([] & w1 & E1 & E)%bind_Done b' [->|Hin]%elem_of_cons.
  - eapply landed_ext; [|by eapply copy_blob_done].
    eapply mv_ext, (tame_moves _ _ _ _ E), moves_fine. by apply (tame_moves _ _ _ _ E1).
  - eapply (IH w1); [|done|done]. eapply moves_fine, (tame_moves _ _ _ _ E1 Hw).
Qed.
Lemma copy_artifact_blobs_done fetch repo bs w w' : (∀ b, Tame (fetch b)) → fine w →
  copy_artifact_blobs fetch repo bs w = (Done tt, w') → ∀ b, b ∈ bs → b ≠ "" → landed repo b (w_store w').
Proof.
  intros Hf. revert w. induction bs as [|b bs IH]; intros w Hw; cbn [copy_artifact_blobs]; [set_solver|].
  destruct (String.eqb_spec b "") as [->|Hb].
  { intros E b' [->|Hin]%elem_of_cons ?; [done|]. by eapply IH. }
  destruct (negb (digest_ok b)); [done|].
  intros (has & w1 & E1 & E)%bind_Done. apply bind_Done in E as ([] & w2 & E2 & E).
  assert (fine w1) as Hw1 by (eapply moves_fine, (tame_moves (HasBlob repo b)); eauto).
  assert (moves w1 w2) as Hm by (revert E2 Hw1; destruct has; apply tame_moves; apply _).
  assert (moves w2 w') as Hm' by (eapply (tame_moves (copy_artifact_blobs fetch repo bs)); eauto; by eapply moves_fine).
  intros b' [->|Hin]%elem_of_cons ?; [|by eapply (IH w2); eauto using moves_fine].
  eapply landed_ext; [apply Hm'|]. destruct has.
  - eapply landed_ext; [apply Hm|]. by apply HasBlob_true, has_blob_landed in E1.
  - apply bind_Done in E2 as (? & w3 & _ & E2). by apply WriteBlob_done in E2.
Qed.

(** [PutManifest] keeps the store closed once the blobs of the manifest are there. *)
Lemma evolves_bind {A B} (m : eng A) (f : A → eng B) w :
  evolves w (m w).2 → (∀ a w1, m w = (Done a, w1) → evolves w1 (f a w1).2) → evolves w ((m ≫= f) w).2.
Proof.
  intros Hm Hf. unfold mbind, eng_bind. destruct (m w) as [[a|e|] w1]; cbn in *; try done.
  etrans; [exact Hm|]. by apply Hf.
Qed.
Lemma PutManifest_evolves repo d tag w :
  blobs_in repo d (w_store w) → evolves w (PutManifest repo d tag w).2.
Proof.
  intros Hb. unfold PutManifest. destruct (negb _); [reflexivity|].
  intros Hc Hs. assert (fine w) as Hw by done. revert Hc Hs.
  apply evolves_bind; [exact (tame_call w)|]. intros [] w1 E1. pose proof (tame_moves _ _ _ _ E1 Hw) as M1.
  apply evolves_bind; [reflexivity|]. intros now w2 [= <- <-].
  apply evolves_bind.
  { intros Hc Hs. split; cbn; try done; [|apply link_revision_ext].
    apply link_revision_closed; [|done]. by eapply blobs_in_ext, Hb; apply M1. }
  intros [] w3 [= <-]. destruct (String.eqb tag ""); [reflexivity|].
  intros Hc Hs. apply evolves_bind; [apply tame_call| |done|done]. intros [] w4 E4.
  pose proof (tame_moves _ _ _ _ E4 (conj Hc Hs)) as M4. intros Hc4 Hs4.
  split; cbn; try done; [|apply link_tag_ext]. apply link_tag_closed; [|done].
  apply (ext_revision _ _ (mv_ext _ _ M4)). cbn. apply revision_link_revision. auto.
Qed.
Lemma PutManifest_done repo d tag w w' : fine w → blobs_in repo d (w_store w) →
  PutManifest repo d tag w = (Done tt, w') →
  name_ok repo = true ∧ linked_revision repo d (w_store w') = true ∧
  (tag ≠ "" → rd_tags (repo_of repo (w_store w')) !! tag = Some d).
Proof.
  intros Hw Hb. unfold PutManifest. destruct (name_ok repo); [cbn [negb]|done].
  intros ([] & w1 & E1 & E)%bind_Done. apply bind_Done in E as (now & w2 & [= <- <-] & E).
  apply bind_Done in E as ([] & w3 & [= <-] & E). split; [done|].
  pose proof (tame_moves _ _ _ _ E1 Hw) as M1.
  destruct (String.eqb_spec tag "") as [->|Ht].
  { injection E as <-. cbn. split; [apply revision_link_revision; auto|done]. }
  apply bind_Done in E as ([] & w4 & E4 & [= <-]). cbn [w_store].
  apply (tame_moves _ _ _ _) in E4 as [_ _ X4 _ _ _ _].
  - rewrite revision_link_tag. split; [apply X4; cbn; apply revision_link_revision; auto|].
    intros _. unfold link_tag. rewrite repo_of_insert, decide_True by done. cbn. by rewrite lookup_insert_eq.
  - split; [apply M1|]. cbn. apply link_revision_closed; [|apply M1]. by eapply blobs_in_ext, Hb; apply M1.
Qed.

#[export] Instance moves_trans : Transitive moves.
Proof.
  intros w1 w2 w3 [? ? E1 R1 ? ? S1] [? ? E2 R2 ? ? S2].
  split; try done; [by etrans|congruence..|]. intros item. by rewrite S2, S1.
Qed.
Lemma moves_refl w : fine w → moves w w.
Proof. by intros []. Qed.
Lemma tame_alt {A} (m : eng A) : (∀ w, fine w → moves w (m w).2) → Tame m.
Proof. intros Hm w ? ?. by apply Hm. Qed.
Lemma moves_bind {A B} (m : eng A) (f : A → eng B) w :
  Tame m → fine w → (∀ a w1, m w = (Done a, w1) → moves w w1 → moves w1 (f a w1).2) → moves w ((m ≫= f) w).2.
Proof.
  intros Hm Hw Hf. assert (moves w (m w).2) as Mw by (apply (keeps (R := evolves) w); apply Hw).
  unfold mbind, eng_bind. destruct (m w) as [[a|e|] w1]; cbn in *; try done.
  etrans; [exact Mw|]. by apply Hf.
Qed.
Lemma PutManifest_moves repo d tag w :
  fine w → blobs_in repo d (w_store w) → moves w (PutManifest repo d tag w).2.
Proof. intros [? ?] ?. by apply PutManifest_evolves. Qed.

(** A step of a copy that is tame, with the facts it leaves. *)
Ltac mstep E M :=
  lazymatch goal with
  | |- moves ?w ((_ ≫= _) ?w).2 =>
      apply moves_bind; [apply _|eauto using moves_fine|intros ? ? E M]
  end.

Lemma index_no_blobs repo d st children : doc_of d = Some (Index children) → blobs_in repo d st.
Proof. unfold blobs_in, named_blobs. intros -> b []%elem_of_nil. Qed.

(** The blobs of an image, from the copies of its layers and its configuration. *)
Lemma image_landed track repo d config layers w0 w2 w3 w4 w5 :
  doc_of d = Some (Image config layers) → fine w0 →
  copy_blobs track repo layers w0 = (Done tt, w2) → moves w2 w3 →
  copy_blob track repo config w3 = (Done tt, w4) → moves w4 w5 → blobs_in repo d (w_store w5).
Proof.
  intros Hd Hw E3 M4 E5 M6 b. unfold named_blobs. rewrite Hd, list_elem_of_filter. intros [_ Hb].
  assert (moves w3 w4) as M5 by (eapply (tame_moves _ _ _ _ E5), moves_fine, M4).
  apply list_elem_of_fmap in Hb as (x & -> & [Hx|Hx%list_elem_of_singleton]%elem_of_app).
  - eapply (landed_ext _ _ (w_store w2)); [|exact (copy_blobs_done _ _ _ _ _ Hw E3 _ Hx)].
    apply (mv_ext _ _ (transitivity M4 (transitivity M5 M6))).
  - subst x. eapply (landed_ext _ _ (w_store w4)); [|by eapply copy_blob_done]. by eapply mv_ext.
Qed.

#[export] Instance tame_copyImage track repo tag d : Tame (copyImage track repo tag d).
Proof.
  apply tame_alt. intros w Hw. unfold copyImage. mstep E1 M1.
  destruct (doc_of d) as [[config layers|]|] eqn:Hd; try by apply moves_refl, (moves_fine w).
  mstep E2 M2. mstep E3 M3. mstep E4 M4. mstep E5 M5. mstep E6 M6.
  apply PutManifest_moves; [eauto using moves_fine|]. destruct a1, a3.
  exact (image_landed _ _ _ _ _ _ _ _ _ _ Hd (moves_fine _ _ M2) E3 M4 E5 M6).
Qed.
#[export] Instance tame_copy_children nested track repo selected children :
  (∀ d, Tame (nested d)) → Tame (copy_children nested track repo selected children).
Proof. intros Hn. induction children as [|c children IH]; cbn [copy_children]; apply _. Qed.
#[export] Instance tame_copyNestedIndex fuel track repo d : Tame (copyNestedIndex fuel track repo d).
Proof.
  revert d. induction fuel as [|fuel IH]; intros d; cbn [copyNestedIndex]; [apply _|].
  apply tame_alt. intros w Hw. mstep E1 M1.
  destruct (doc_of d) as [[|children]|] eqn:Hd; try by apply moves_refl, (moves_fine w).
  mstep E2 M2. mstep E3 M3. apply PutManifest_moves; eauto using moves_fine, index_no_blobs.
Qed.
#[export] Instance tame_copyIndexChildren track repo tag d selected :
  Tame (copyIndexChildren track repo tag d selected).
Proof.
  apply tame_alt. intros w Hw. unfold copyIndexChildren. mstep E1 M1.
  destruct (doc_of d) as [[|children]|] eqn:Hd; try by apply moves_refl, (moves_fine w).
  mstep E2 M2. mstep E3 M3. apply PutManifest_moves; eauto using moves_fine, index_no_blobs.
Qed.
Lemma artifact_landed fetch repo d w w' : (∀ b, Tame (fetch b)) → fine w →
  copy_artifact_blobs fetch repo (artifact_blobs d) w = (Done tt, w') → blobs_in repo d (w_store w').
Proof.
  intros Hf Hw E b. unfold named_blobs. destruct (doc_of d) as [[config layers|]|] eqn:Hd; [|by intros []%elem_of_nil..].
  rewrite list_elem_of_filter. intros [Hne Hb].
  eapply (copy_artifact_blobs_done _ _ _ _ _ Hf Hw E); [|done].
  unfold artifact_blobs. rewrite Hd. revert Hb. unfold image_blobs. set_solver.
Qed.
#[export] Instance tame_copyArtifact fetch repo tag d :
  (∀ b, Tame (fetch b)) → Tame (copyArtifact fetch repo tag d).
Proof.
  intros Hf. apply tame_alt. intros w Hw. unfold copyArtifact. mstep E1 M1. destruct a.
  apply PutManifest_moves; [eauto using moves_fine|]. exact (artifact_landed _ _ _ _ _ Hf Hw E1).
Qed.

End closure.

(** A run that returned, one step at a time. *)
Ltac dstep E a w E1 M1 :=
  apply bind_Done in E as (a & w & E1 & E);
  pose proof (tame_moves _ _ _ _ E1 ltac:(eauto using moves_fine)) as M1.

Section landed.
Context `{StoreIO, Documents}.
#[local] Abbreviation Tame := (Keeps evolves).

(** * What a copy that returned has landed *)

Definition tagged (repo tag d : string) (st : Store) : Prop :=
  tag ≠ "" → rd_tags (repo_of repo st) !! tag = Some d.

Lemma put_index_done repo d tag children w w' : fine w → doc_of d = Some (Index children) →
  PutManifest repo d tag w = (Done tt, w') →
  linked_revision repo d (w_store w') = true ∧ tagged repo tag d (w_store w').
Proof. intros Hw Hd E. eapply PutManifest_done in E as (_ & ? & ?); eauto using index_no_blobs. Qed.

Lemma copyImage_done track repo tag d w w' : fine w →
  copyImage track repo tag d w = (Done tt, w') →
  (∃ config layers, doc_of d = Some (Image config layers)) ∧
  linked_revision repo d (w_store w') = true ∧ tagged repo tag d (w_store w').
Proof.
  intros Hw E. unfold copyImage in E. dstep E a1 w1 E1 M1.
  destruct (doc_of d) as [[config layers|]|] eqn:Hd; [|done..].
  dstep E a2 w2 E2 M2. dstep E a3 w3 E3 M3. dstep E a4 w4 E4 M4. dstep E a5 w5 E5 M5. dstep E a6 w6 E6 M6.
  split; [eauto|].
  repeat match goal with u : unit |- _ => destruct u end.
  pose proof (image_landed _ _ _ _ _ _ _ _ _ _ Hd (moves_fine _ _ M2) E3 M4 E5 M6) as Hb.
  by apply (PutManifest_done _ _ _ _ _ (moves_fine _ _ M6) Hb) in E as (_ & ? & ?).
Qed.
Lemma copy_children_done nested track repo selected children w w' :
  (∀ d, Tame (nested d)) →
  (∀ d w w', fine w → nested d w = (Done tt, w') → linked_revision repo d (w_store w') = true) →
  fine w → copy_children nested track repo selected children w = (Done tt, w') →
  ∀ c, c ∈ children → match selected with Some s => ch_digest c ∈ s | None => True end →
  linked_revision repo (ch_digest c) (w_store w') = true.
Proof.
  intros Ht Hn. revert w. induction children as [|c children IH]; intros w Hw; cbn [copy_children]; [set_solver|].
  destruct (match selected with Some s => _ | None => false end) eqn:Hsel; intros E.
  { intros c' [->|Hin]%elem_of_cons Hs; [|by eapply IH].
    destruct selected; [|done]. apply bool_decide_eq_true in Hsel. done. }
  dstep E a1 w1 E1 M1. apply bind_Done in E as ([] & w2 & E2 & E).
  assert (moves w1 w2) as M2.
  { revert E2. destruct a1; [|destruct (ch_index c)]; intros E2;
      eapply (tame_moves _ _ _ _ E2); eauto using moves_fine. }
  intros c' [->|Hin]%elem_of_cons Hs; [|eapply (IH w2); eauto using moves_fine].
  apply (ext_revision _ _ (mv_ext _ _ (tame_moves _ _ _ _ E ltac:(eauto using moves_fine)))).
  destruct a1.
  - apply (ext_revision _ _ (mv_ext _ _ M2)). apply HasManifest_true in E1. unfold has_manifest in E1.
    by apply andb_true_iff in E1 as [[_ ?]%andb_true_iff _].
  - destruct (ch_index c); [exact (Hn _ _ _ (moves_fine _ _ M1) E2)|].
    by apply (copyImage_done _ _ _ _ _ _ (moves_fine _ _ M1)) in E2 as (_ & ? & _).
Qed.
Lemma copyNestedIndex_done fuel track repo d w w' : fine w →
  copyNestedIndex fuel track repo d w = (Done tt, w') → linked_revision repo d (w_store w') = true.
Proof.
  destruct fuel as [|fuel]; intros Hw; cbn [copyNestedIndex]; [done|]. intros E. dstep E a1 w1 E1 M1.
  destruct (doc_of d) as [[|children]|] eqn:Hd; [done| |done].
  dstep E a2 w2 E2 M2. dstep E a3 w3 E3 M3. 
  by apply (put_index_done _ _ _ _ _ _ (moves_fine _ _ M3) Hd) in E as [? _].
Qed.

Lemma copyIndexChildren_done track repo tag d selected w w' : fine w →
  copyIndexChildren track repo tag d selected w = (Done tt, w') →
  ∃ children, doc_of d = Some (Index children) ∧
  (∀ c, c ∈ children → match selected with Some s => ch_digest c ∈ s | None => True end →
     linked_revision repo (ch_digest c) (w_store w') = true) ∧
  linked_revision repo d (w_store w') = true ∧ tagged repo tag d (w_store w').
Proof.
  intros Hw E. unfold copyIndexChildren in E. dstep E a1 w1 E1 M1.
  destruct (doc_of d) as [[|children]|] eqn:Hd; [done| |done].
  exists children. split; [done|]. dstep E a2 w2 E2 M2. dstep E a3 w3 E3 M3.
  repeat match goal with u : unit |- _ => destruct u end. split.
  - assert (ext (w_store w2) (w_store w')) as X.
    { etrans; [apply (mv_ext _ _ M3)|]. apply (f_equal snd) in E. cbn in E. subst w'.
      eapply mv_ext, PutManifest_moves; eauto using moves_fine, index_no_blobs. }
    intros c Hc Hs. apply (ext_revision _ _ X).
    by eapply (copy_children_done _ _ _ _ _ _ _ _ (copyNestedIndex_done _ _ _) (moves_fine _ _ M1) E2).
  - exact (put_index_done _ _ _ _ _ _ (moves_fine _ _ M3) Hd E).
Qed.
Lemma copyArtifact_done fetch repo tag d w w' : (∀ b, Tame (fetch b)) → fine w →
  copyArtifact fetch repo tag d w = (Done tt, w') →
  linked_revision repo d (w_store w') = true ∧ tagged repo tag d (w_store w').
Proof.
  intros Hf Hw E. unfold copyArtifact in E. dstep E a1 w1 E1 M1. destruct a1.
  by apply (PutManifest_done _ _ _ _ _ (moves_fine _ _ M1) (artifact_landed _ _ _ _ _ Hf Hw E1)) in E as (_ & ? & ?).
Qed.

(** * The recursion through nested indexes *)

Lemma bind_ext {A B} (m : eng A) (f g : A → eng B) w :
  (∀ a w, f a w = g a w) → (m ≫= f) w = (m ≫= g) w.
Proof. unfold mbind, eng_bind. intros Hfg. destruct (m w) as [[]]; [apply Hfg|done..]. Qed.
Lemma copy_children_ext n1 n2 track repo selected children w :
  (∀ c w, c ∈ children → n1 (ch_digest c) w = n2 (ch_digest c) w) →
  copy_children n1 track repo selected children w = copy_children n2 track repo selected children w.
Proof.
  revert w. induction children as [|c children IH]; intros w Hn; cbn [copy_children]; [done|].
  destruct (match selected with Some s => _ | None => false end).
  { apply IH. intros. apply Hn. by right. }
  apply bind_ext. clear w. intros has w. unfold mbind, eng_bind.
  assert ((if has then mret tt else if ch_index c then n1 (ch_digest c) else copyImage track repo "" (ch_digest c)) w
    = (if has then mret tt else if ch_index c then n2 (ch_digest c) else copyImage track repo "" (ch_digest c)) w) as ->.
  { destruct has; [done|]. destruct (ch_index c); [|done]. apply Hn. by left. }
  destruct (_ w) as [[]]; [|done..]. apply IH. intros. apply Hn. by right.
Qed.
Lemma copyNestedIndex_fuel f1 f2 track repo d w :
  doc_rank d < f1 → doc_rank d < f2 →
  copyNestedIndex f1 track repo d w = copyNestedIndex f2 track repo d w.
Proof.
  revert f2 d w. induction f1 as [|f1 IH]; intros [|f2] d w H1 H2; [lia..|]. cbn [copyNestedIndex].
  apply bind_ext. clear w. intros _ w. destruct (doc_of d) as [[|children]|] eqn:Hd; [done| |done].
  unfold mbind, eng_bind. rewrite (copy_children_ext _ (copyNestedIndex f2 track repo)); [done|].
  intros c w' Hc. pose proof (doc_rank_child _ _ _ Hd Hc). apply IH; lia.
Qed.

Lemma copyNestedIndex_S fuel track repo d :
  copyNestedIndex (S fuel) track repo d =
  (_ ← call;
   match doc_of d with
   | Some (Index children) =>
       _ ← copy_children (copyNestedIndex fuel track repo) track repo None children;
       _ ← call;
       PutManifest repo d ""
   | _ => raise (plain "not an index")
   end).
Proof. done. Qed.

(** The recursion of [copyNestedIndex] needs no more fuel than the nesting depth
    of the document: above its rank the fuel is irrelevant, so the bounded definition
    satisfies the equation of the source, and so does the call from
    [copyIndexChildren]. *)
Theorem copyNestedIndex_total track repo d children w
    (Hd : doc_of d = Some (Index children)) :
  let nested d := copyNestedIndex (S (doc_rank d)) track repo d in
  nested d w = (_ ← call; _ ← copy_children nested track repo None children; _ ← call; PutManifest repo d "") w ∧
  ∀ tag selected,
    copyIndexChildren track repo tag d selected w =
    (_ ← call; _ ← copy_children nested track repo selected children; _ ← call; PutManifest repo d tag) w.
Proof.
  cbn zeta. split.
  - rewrite (copyNestedIndex_S (doc_rank d) track repo d). apply bind_ext. clear w. intros _ w. rewrite Hd.
    unfold mbind at 1 3, eng_bind at 1 3. erewrite copy_children_ext; [done|].
    intros c w' Hc. pose proof (doc_rank_child _ _ _ Hd Hc). apply copyNestedIndex_fuel; lia.
  - intros tag selected. unfold copyIndexChildren. apply bind_ext. clear w. intros _ w. rewrite Hd.
    unfold mbind at 1 3, eng_bind at 1 3. erewrite copy_children_ext; [done|].
    intros c w' Hc. pose proof (doc_rank_child _ _ _ Hd Hc). apply copyNestedIndex_fuel; lia.
Qed.

(** * The theorems *)

(** A copy never leaves the store with an image it cannot serve. From a closed
    store, every copy, whatever its calls meet (errors, panics, other writers that
    take nothing away) and wherever it stops, leaves the store closed, with everything
    it held before, and touches neither the recipe graph nor the destination. *)
Theorem copies_keep_closed track fetch repo tag d selected w
    (Hf : ∀ b, Keeps evolves (fetch b)) (Hc : calm w) (Hs : closed (w_store w)) :
  moves w (copyImage track repo tag d w).2 ∧
  moves w (copyIndexChildren track repo tag d selected w).2 ∧
  moves w (copyArtifact fetch repo tag d w).2.
Proof. split_and!; by apply (keeps (R := evolves) w). Qed.

(** A copy that returns has landed what it was asked for: the manifest, under its
    tag, with every blob it names linked in the repository and on disk; for an index,
    the manifests of all the selected children. *)
Theorem copies_land track fetch repo tag d selected w w'
    (Hf : ∀ b, Keeps evolves (fetch b)) (Hc : calm w) (Hs : closed (w_store w)) :
  (copyImage track repo tag d w = (Done tt, w') →
     linked_revision repo d (w_store w') = true ∧ tagged repo tag d (w_store w') ∧
     blobs_in repo d (w_store w')) ∧
  (copyIndexChildren track repo tag d selected w = (Done tt, w') →
     linked_revision repo d (w_store w') = true ∧ tagged repo tag d (w_store w') ∧
     ∃ children, doc_of d = Some (Index children) ∧
     ∀ c, c ∈ children → match selected with Some s => ch_digest c ∈ s | None => True end →
       linked_revision repo (ch_digest c) (w_store w') = true ∧ blobs_in repo (ch_digest c) (w_store w')) ∧
  (copyArtifact fetch repo tag d w = (Done tt, w') →
     linked_revision repo d (w_store w') = true ∧ tagged repo tag d (w_store w') ∧
     blobs_in repo d (w_store w')).
Proof.
  assert (fine w) as Hw by done.
  split_and!; intros E.
  - assert (closed (w_store w')) as [_ Hb _] by eapply (tame_moves _ _ _ _ E Hw).
    apply (copyImage_done _ _ _ _ _ _ Hw) in E as (_ & ? & ?). auto.
  - assert (closed (w_store w')) as [_ Hb _] by eapply (tame_moves _ _ _ _ E Hw).
    apply (copyIndexChildren_done _ _ _ _ _ _ _ Hw) in E as (children & ? & Hch & ? & ?).
    split_and!; [done..|]. exists children. split; [done|]. intros c Hin Hsel. split; [auto|]. apply Hb. auto.
  - assert (closed (w_store w')) as [_ Hb _] by eapply (tame_moves _ _ _ _ E Hw).
    apply (copyArtifact_done _ _ _ _ _ _ Hf Hw) in E as (? & ?). auto.
Qed.

(** * Retries *)

Lemma withRetries_done {A} cancelled retries k (fn : eng A) `{!Tame fn} w a w' :
  fine w → withRetries cancelled retries k fn w = (Done a, w') → ∃ w1, moves w w1 ∧ fn w1 = (Done a, w').
Proof.
  intros [? ?] E. apply (withRetries_attempt (R := evolves)) in E as (w1 & Hm & ?); [|done].
  exists w1. split; [by apply Hm|done].
Qed.
(** A verdict is not retried. *)
Lemma withRetries_refusal {A} cancelled retries k (fn : eng A) w e w' :
  fn w = (Failed e, w') → retryable e = false → withRetries cancelled retries k fn w = (Failed e, w').
Proof.
  intros E Hr. destruct retries as [|retries]; cbn [withRetries]; [done|].
  unfold mbind, eng_bind, attempt. rewrite E, Hr. done.
Qed.
End landed.

(** * Platforms *)

Section platforms.
Context `{GoRuntime, Documents}.

(** The platform selection keeps exactly the children some selector matches, and
    is refused, naming every selector no child answers and all the platforms there
    are, exactly when there is such a selector; no selector at all keeps every
    child. *)
Theorem selectPlatforms_exact ref d platforms children
    (Hd : doc_of d = Some (Index children)) :
  match selectPlatforms ref d platforms with
  | Ok None => platforms = []
  | Ok (Some s) =>
      platforms ≠ [] ∧ (∀ want, want ∈ platforms → served children want = true) ∧
      (∀ c, c ∈ children → wanted platforms c = true → ch_digest c ∈ s) ∧
      (∀ x, x ∈ s → ∃ c, c ∈ children ∧ ch_digest c = x ∧ wanted platforms c = true)
  | Err e =>
      ∃ missing available, ge_tax e = Some (tax CodePlatformMissing
        (strs [("reference", ref); ("platforms", join ", " missing); ("available", platformList available)])) ∧
      missing ≠ [] ∧ missing ≡ₚ filter (λ want, served children want = false) platforms ∧
      available ≡ₚ platformLabel <$> omap ch_platform children
  end.
Proof.
  unfold selectPlatforms. destruct platforms as [|p ps]; [done|]. rewrite Hd.
  set (missing := filter _ (p :: ps)). destruct missing as [|m ms] eqn:Hm; subst missing.
  - split; [done|]. split_and!.
    + intros want Hw. destruct (served children want) eqn:E; [done|].
      assert (want ∈ @nil string) as []%elem_of_nil. rewrite <-Hm. by apply list_elem_of_filter.
    + intros c Hc Hw. apply elem_of_list_to_set, list_elem_of_fmap. exists c. split; [done|].
      by apply list_elem_of_filter.
    + intros x (c & -> & [? ?]%list_elem_of_filter)%elem_of_list_to_set%list_elem_of_fmap. eauto.
  - eexists _, _. split; [reflexivity|]. split_and!; [|by apply sort_slice_perm..].
    intros Hn. pose proof (sort_slice_perm _ str_ltb (m :: ms)) as Hp. rewrite Hn in Hp.
    by apply Permutation_nil_cons in Hp.
Qed.
End platforms.

(** * A concrete registry *)

(** An index of two images sharing a layer. *)
Definition demo_children : list child :=
  [mkChild "M" false (Some (mkPlatform "linux" "amd64" "")); mkChild "N" false (Some (mkPlatform "linux" "arm64" "v8"))].
Definition demo_doc (d : string) : option oci_doc :=
  if String.eqb d "M" then Some (Image ("C", 1%Z) [("L", 10%Z)])
  else if String.eqb d "N" then Some (Image ("C", 1%Z) [("L", 10%Z); ("K", 20%Z)])
  else if String.eqb d "I" then
    Some (Index demo_children)
  else None.
#[export] Program Instance demo_documents : Documents := {|
  doc_of := demo_doc; doc_bytes d := d; doc_artifact_type _ := ""; digest_ok d := (slen d =? 1)%nat; doc_rank d := if String.eqb d "I" then 1 else 0 |}.
Next Obligation.
  intros d children c. unfold demo_doc. destruct (String.eqb d "M"), (String.eqb d "N"); try done.
  destruct (String.eqb d "I"); [|done]. intros [= <-].
  intros [->|[->|[]%elem_of_nil]%elem_of_cons]%elem_of_cons; cbn; lia.
Qed.

Definition demo_sync_task : Task :=
  mkTask "t" "run" "sync" "" "" StatusRunning 0 0 0 false false None [] None [] [] false [] [].
Definition empty_dest : DestState := mkDest ∅ ∅ ∅ ∅.
Definition demo_run_world (st : Store) (script : list event) : World :=
  mkWorld st demo_sync_task newResolvedRecipes 0 empty_dest 1000 script.
Definition empty_store : Store := mkStore ∅ ∅ (mkMeta ∅ ∅).
Lemma closed_empty `{Documents} : closed empty_store.
Proof. split; intros *; unfold linked_revision, repo_of; cbn; by rewrite ?lookup_empty. Qed.

Lemma benign_id `{Documents} : benign id.
Proof. by intros st Hs. Qed.

Lemma copies_keep_closed_witness :
  let w := demo_run_world empty_store [mkEvent 1 id None; mkEvent 0 id (Some Panics)] in
  closed (w_store (copyIndexChildren (H := io_sound) None "r" "v1" "I" None w).2).
Proof.
  apply mv_closed with (w := demo_run_world empty_store [mkEvent 1 id None; mkEvent 0 id (Some Panics)]).
  apply (copies_keep_closed (H := io_sound) None (λ _, call) "r" "v1" "I" None).
  - intros b. apply _.
  - constructor; [exact benign_id|constructor; [exact benign_id|constructor]].
  - apply closed_empty.
Defined.
Lemma copies_land_witness :
  let '(o, w') := copyIndexChildren (H := io_sound) None "r" "v1" "I" (Some {["M"]}) (demo_run_world empty_store []) in
  o = Done tt ∧ linked_revision "r" "I" (w_store w') = true ∧ rd_tags (repo_of "r" (w_store w')) !! "v1" = Some "I".
Proof.
  destruct (copyIndexChildren (H := io_sound) None "r" "v1" "I" (Some {["M"]}) (demo_run_world empty_store []))
    as [o w'] eqn:E.
  assert (o = Done tt) as -> by (change o with (o, w').1; rewrite <-E; vm_compute; reflexivity).
  destruct (copies_land (H := io_sound) None (λ _, call) "r" "v1" "I" (Some {["M"]}) (demo_run_world empty_store []) w')
    as (_ & Hi & _); [intros b; apply _|constructor|apply closed_empty|].
  destruct (Hi E) as (? & Ht & _). split_and!; [done|done|by apply Ht].
Defined.
Lemma copyNestedIndex_total_witness :
  doc_of "I" = Some (Index demo_children) ∧
  copyIndexChildren (H := io_sound) None "r" "v1" "I" None (demo_run_world empty_store []) =
  (_ ← call;
   _ ← copy_children (H := io_sound) (λ d, copyNestedIndex (H := io_sound) (S (doc_rank d)) None "r" d)
         None "r" None demo_children;
   _ ← call; PutManifest (H := io_sound) "r" "I" "v1") (demo_run_world empty_store []).
Proof.
  split; [reflexivity|].
  exact (proj2 (copyNestedIndex_total (H := io_sound) (H0 := demo_documents) None "r" "I" demo_children
    (demo_run_world empty_store []) eq_refl) "v1" None).
Defined.
Lemma selectPlatforms_exact_witness :
  selectPlatforms "reg.io/app" "I" ["linux/arm64"] = Ok (Some {["N"]}) ∧
  (∀ want, want ∈ ["linux/arm64"] →
     served demo_children want = true).
Proof.
  assert (selectPlatforms "reg.io/app" "I" ["linux/arm64"] = Ok (Some {["N"]})) as E by (vm_compute; reflexivity).
  split; [exact E|]. pose proof (selectPlatforms_exact "reg.io/app" "I" ["linux/arm64"] demo_children eq_refl) as Hs.
  rewrite E in Hs. apply Hs.
Defined.

(** * A sweep between two calls *)

(** Another task removes a tag elsewhere, once 400 seconds have passed: its sweep takes
    what is unreachable and was laid more than the grace period of 300 seconds ago. *)
Definition sweepGrace : Z := 300.
Definition sweeping : event :=
  mkEvent 400 (λ st, (sweep (H0 := io_sound) (H1 := docs_contents) (1000 + 400 - sweepGrace) st).2) None.
Definition quietly : event := mkEvent 0 id None.
(** Data of layer L that no repository links any more, not swept yet. *)
Definition stale_store : Store := mkStore ∅ {[ "L" := Some 0%Z ]} (mkMeta ∅ ∅).

(** The grace period does not cover a copy that takes longer. The lock is held for
    one write at a time and what is copied becomes reachable with the manifest, last:
    a sweep between two blobs, more than the grace period after the first of them
    landed, removes it, and the copy still returns, with the image tagged, found
    present from then on, and a layer missing. The data of a blob shared with removed
    content is not even protected for that long: committing it again leaves the file's
    age as it was. *)
Theorem sweep_during_copy :
  (let '(o, w') := copyImage (H := io_sound) None "a" "v1" "M"
     (demo_run_world empty_store [quietly; quietly; quietly; quietly; quietly; quietly; sweeping]) in
   o = Done tt ∧ has_manifest (H := io_sound) "a" "M" (w_store w') = true ∧
   rd_tags (repo_of "a" (w_store w')) !! "v1" = Some "M" ∧ has_blob (H := io_sound) "a" "L" (w_store w') = false) ∧
  (let sooner := mkEvent 10 (λ st, (sweep (H0 := io_sound) (H1 := docs_contents) (1000 + 10 - sweepGrace) st).2) None in
   let '(o, w') := copyImage (H := io_sound) None "b" "v1" "M"
     (demo_run_world stale_store [quietly; quietly; quietly; quietly; quietly; quietly; sooner]) in
   o = Done tt ∧ has_manifest (H := io_sound) "b" "M" (w_store w') = true ∧
   linked_layer "b" "L" (w_store w') = true ∧ has_data "L" (w_store w') = false).
Proof. split; vm_compute; auto. Qed.
