(* ===== verification/Browse.v ===== *)
(** Browsing the store (internal/store/browse.go, read.go, occupancy.go): the tag table
    of a repository, the detail of a manifest, the counters, the filtered listing with
    its query string, and the occupancy sample the quota banner shows.

    As for collection, the registry backend is what the distribution library answers:
    which calls fail is [StoreIO], what a stored manifest says is [Browsing]. *)

From S2P Require Import Prelude GoStrings Tasks Disk TaskQueue StoreMeta StoreGC Preflight Transfer.

(** [Kind] and the media types that decide it. *)
Inductive Kind := KindContainerImage | KindHelmChart | KindOCIArtifact | KindFileSet | KindRecipe.
#[export] Instance Kind_eq_dec : EqDecision Kind.
Proof. solve_decision. Defined.
Definition browse_kind_name (k : Kind) : string :=
  match k with
  | KindContainerImage => "ContainerImage" | KindHelmChart => "HelmChart" | KindOCIArtifact => "OCIArtifact"
  | KindFileSet => "FileSet" | KindRecipe => "Recipe"
  end.
Definition Kinds : list Kind := [KindContainerImage; KindHelmChart; KindOCIArtifact; KindFileSet; KindRecipe].
Definition mediaTypeHelmConfig : string := "application/vnd.cncf.helm.config.v1+json".
Definition mediaTypeRecipe : string := "application/vnd.tobby.recipe.v1+yaml".
Definition mediaTypeOCIConfig : string := "application/vnd.oci.image.config.v1+json".
Definition mediaTypeDockerConfig : string := "application/vnd.docker.container.image.v1+json".

(** [TagInfo], [RepoInfo], [PlatformInfo], [ManifestInfo] and [Counts]. *)
Record TagInfo := mkTagInfo {
  ti_tag : string; ti_digest : string; ti_size : Z; ti_platforms : Z; ti_present : Z; ti_media_type : string }.
Record RepoInfo := mkRepoInfo { ri_name : string; ri_kind : Kind; ri_tags : list TagInfo; ri_size : Z }.
Record PlatformInfo := mkPlatformInfo {
  pi_os : string; pi_arch : string; pi_variant : string; pi_digest : string; pi_size : Z; pi_present : bool }.
Record ManifestInfo := mkManifestInfo {
  mi_repo : string; mi_tag : string; mi_digest : string; mi_media_type : string; mi_kind : Kind; mi_index : bool;
  mi_size : Z; mi_annotations : gmap string string; mi_platforms : list PlatformInfo }.
Record Counts := mkCounts { ct_repositories : Z; ct_tags : Z; ct_bytes : Z }.

(** [manifestProbe], and a descriptor of [References]. *)
Record manifestProbe := mkProbe {
  pb_artifact_type : string; pb_config_type : string; pb_config_digest : string; pb_annotations : gmap string string }.
Record descriptor := mkDescriptor { dr_digest : string; dr_size : Z; dr_platform : option platform }.

(** What the library reads in a stored manifest: its media type, its references, its
    probe; the platform an image configuration names; and whether a repository without
    tags kept its tag directory. *)
Class Browsing `{Documents} : Type := {
  media_type_of : string → string;
  references : string → list descriptor;
  probeManifest : string → option manifestProbe;
  config_platform : string → option (string * string * string);
  keeps_tag_dir : string → bool }.

(** [isIndex]. *)
Definition isIndex (mediaType : string) : bool :=
  String.eqb mediaType "application/vnd.oci.image.index.v1+json" ||
  String.eqb mediaType "application/vnd.docker.distribution.manifest.list.v2+json".
(** [manifestProbe.kind]. *)
Definition probe_kind (p : manifestProbe) : Kind :=
  if String.eqb (pb_artifact_type p) mediaTypeRecipe || String.eqb (pb_config_type p) mediaTypeRecipe then KindRecipe
  else if String.eqb (pb_config_type p) mediaTypeHelmConfig then KindHelmChart
  else if negb (String.eqb (pb_artifact_type p) "") then KindOCIArtifact
  else if String.eqb (pb_config_type p) mediaTypeOCIConfig || String.eqb (pb_config_type p) mediaTypeDockerConfig
  then KindContainerImage else KindOCIArtifact.

(** * The blob directory *)

(** What a walk of a directory meets: a file with its size, a directory, or an error. *)
Inductive walk_error := WalkNotExist | WalkFailed (text : string).
Inductive walk_entry := WFile (info : res walk_error Z) | WDir | WError (e : walk_error).
(** [dirSize]. *)
Fixpoint dir_total (es : list walk_entry) (total : Z) : res walk_error Z :=
  match es with
  | [] => Ok total
  | WDir :: es => dir_total es total
  | WFile (Ok n) :: es => dir_total es (add64 total n)
  | WFile (Err e) :: _ | WError e :: _ => Err e
  end.
Definition dirSize (es : list walk_entry) : res string Z :=
  match dir_total es 0 with
  | Err WalkNotExist => Ok 0%Z
  | Err (WalkFailed text) => Err text
  | Ok n => Ok n
  end.
(** The walk of the blob tree of a store. *)
Class BlobTree : Type := { tree_walk : Store → list walk_entry }.
(** [PhysicalBytes]. *)
Definition PhysicalBytes `{BlobTree} (st : Store) : res string Z :=
  wrap_err (λ text, "store: sizing blob directory: " +:+ text) (dirSize (tree_walk st)).

Section browse.
Context `{GoRuntime, StoreIO, Documents}.
Context `{!Browsing}.

(** * One repository *)

(** [ManifestService.Get]: a revision that is not linked, or whose blob is missing, is
    unknown; a payload that does not parse is an error. *)
Definition get_manifest (st : Store) (name d : string) : res store_error unit :=
  _ ← io (OpManifestGet name d);
  if negb (linked_revision name d st && has_data d st) then Err ErrNotFound
  else match doc_of d with Some _ => Ok tt | None => Err (ErrIO (OpManifestGet name d)) end.
Definition manifest_exists (st : Store) (name d : string) : res store_error bool :=
  _ ← io (OpManifestExists name d); Ok (linked_revision name d st && has_data d st).
(** [TagService.All] and [TagService.Get]. *)
Definition all_tags (st : Store) (name : string) : res store_error (list string) :=
  _ ← io (OpTags name);
  match st_repos st !! name with
  | None => Err ErrNotFound
  | Some r => if bool_decide (rd_tags r = ∅) && negb (keeps_tag_dir name) then Err ErrNotFound else Ok (map_keys (rd_tags r))
  end.
Definition tag_get (st : Store) (name tag : string) : res store_error string :=
  _ ← io (OpTagGet name tag);
  match rd_tags (repo_of name st) !! tag with Some d => Ok d | None => Err ErrNotFound end.
(** [Tags] (read.go). *)
Definition Tags (st : Store) (name : string) : res store_error (list string) :=
  _ ← repository name; tags ← all_tags st name; Ok (sort_slice str_ltb tags).

(** [manifestTotal]: the payload and every referenced descriptor. *)
Definition payload_len (d : string) : Z := Z.of_nat (slen (doc_bytes d)).
Definition manifestTotal (d : string) : Z := fold_left (λ total r, add64 total (dr_size r)) (references d) (payload_len d).

(** [manifestSummary] and [summarize]. *)
Record manifestSummary := mkSummary {
  sm_media_type : string; sm_size : Z; sm_platforms : Z; sm_present : Z; sm_kind : option Kind }.
Definition first_kind (k : option Kind) (d : string) : option Kind :=
  match k with Some k => Some k | None => probe_kind <$> probeManifest d end.
Fixpoint sum_children (st : Store) (name : string) (cs : list descriptor) (sum : manifestSummary) : res store_error manifestSummary :=
  match cs with
  | [] => Ok sum
  | c :: cs =>
      let sum := mkSummary (sm_media_type sum) (sm_size sum) (add64 (sm_platforms sum) 1) (sm_present sum) (sm_kind sum) in
      present ← manifest_exists st name (dr_digest c);
      if negb present then sum_children st name cs sum
      else
        _ ← get_manifest st name (dr_digest c);
        sum_children st name cs (mkSummary (sm_media_type sum) (add64 (sm_size sum) (manifestTotal (dr_digest c)))
          (sm_platforms sum) (add64 (sm_present sum) 1) (first_kind (sm_kind sum) (dr_digest c)))
  end.
Definition summarize (st : Store) (name d : string) : res store_error manifestSummary :=
  _ ← get_manifest st name d;
  let mediaType := media_type_of d in
  if negb (isIndex mediaType) then
    match probeManifest d with
    | None => Err (ErrIO (OpManifestGet name d))
    | Some p => Ok (mkSummary mediaType (manifestTotal d) 1 1 (Some (probe_kind p)))
    end
  else
    sum ← sum_children st name (references d) (mkSummary mediaType (payload_len d) 0 0 None);
    Ok (mkSummary (sm_media_type sum) (sm_size sum) (sm_platforms sum) (sm_present sum)
         (Some (default KindContainerImage (sm_kind sum)))).

(** [RepoInfo]: one summary per digest. *)
Definition summary_kind (s : manifestSummary) : Kind := default KindContainerImage (sm_kind s).
Fixpoint tag_rows (st : Store) (name : string) (tags : list string) (cache : gmap string manifestSummary)
    (rows : list TagInfo) (total : Z) : res store_error (gmap string manifestSummary * list TagInfo * Z) :=
  match tags with
  | [] => Ok (cache, rows, total)
  | tag :: tags =>
      d ← tag_get st name tag;
      '(sum, cache, total) ← match cache !! d with
        | Some sum => Ok (sum, cache, total)
        | None => sum ← summarize st name d; Ok (sum, <[d := sum]> cache, add64 total (sm_size sum))
        end;
      tag_rows st name tags cache
        (rows ++ [mkTagInfo tag d (sm_size sum) (sm_platforms sum) (sm_present sum) (sm_media_type sum)]) total
  end.
Definition RepoInfo_of (st : Store) (name : string) : res store_error RepoInfo :=
  _ ← repository name;
  tags ← all_tags st name;
  let tags := sort_slice (λ a b, str_ltb b a) tags in
  _ ← io (OpManifests name);
  '(cache, rows, total) ← tag_rows st name tags ∅ [] 0;
  let kind := match rows with
              | [] => KindOCIArtifact
              | row :: _ => match cache !! ti_digest row with Some s => summary_kind s | None => KindOCIArtifact end
              end in
  Ok (mkRepoInfo name kind rows total).

(** [configPlatform]: best effort. *)
Definition configPlatform (st : Store) (name : string) (p : manifestProbe) : string * string * string :=
  if negb (String.eqb (pb_config_type p) mediaTypeOCIConfig) && negb (String.eqb (pb_config_type p) mediaTypeDockerConfig)
  then ("", "", "")
  else if io_fail (OpBlobGet name (pb_config_digest p)) ||
          negb (linked_layer name (pb_config_digest p) st && has_data (pb_config_digest p) st) then ("", "", "")
  else default ("", "", "") (config_platform (pb_config_digest p)).

(** [ManifestInfo]. *)
Definition platform_row (c : descriptor) (size : Z) (present : bool) : PlatformInfo :=
  let '(os, arch, variant) := match dr_platform c with
    | Some p => (pf_os p, pf_arch p, pf_variant p) | None => ("", "", "") end in
  mkPlatformInfo os arch variant (dr_digest c) size present.
Fixpoint platform_rows (st : Store) (name : string) (cs : list descriptor) (acc : list PlatformInfo * Z * option Kind)
  : res store_error (list PlatformInfo * Z * option Kind) :=
  match cs with
  | [] => Ok acc
  | c :: cs =>
      let '(rows, size, kind) := acc in
      present ← manifest_exists st name (dr_digest c);
      if negb present then platform_rows st name cs (rows ++ [platform_row c (dr_size c) false], size, kind)
      else
        _ ← get_manifest st name (dr_digest c);
        let n := manifestTotal (dr_digest c) in
        platform_rows st name cs (rows ++ [platform_row c n true], add64 size n, first_kind kind (dr_digest c))
  end.
Definition ManifestInfo_of (st : Store) (name tagOrDigest : string) : res store_error ManifestInfo :=
  _ ← repository name;
  _ ← io (OpManifests name);
  let tag := if digest_ok tagOrDigest then "" else tagOrDigest in
  d ← (if digest_ok tagOrDigest then Ok tagOrDigest else tag_get st name tagOrDigest);
  _ ← get_manifest st name d;
  match probeManifest d with
  | None => Err (ErrIO (OpManifestGet name d))
  | Some p =>
      if negb (isIndex (media_type_of d)) then
        let '(os, arch, variant) := configPlatform st name p in
        Ok (mkManifestInfo name tag d (media_type_of d) (probe_kind p) false (manifestTotal d) (pb_annotations p)
             [mkPlatformInfo os arch variant d (manifestTotal d) true])
      else
        '(rows, size, kind) ← platform_rows st name (references d) ([], payload_len d, None);
        Ok (mkManifestInfo name tag d (media_type_of d) (default KindContainerImage kind) true size (pb_annotations p) rows)
  end.

(** * The whole store *)

(** [Counts]. *)
Fixpoint count_tags (st : Store) (names : list string) (n : Z) : res store_error Z :=
  match names with
  | [] => Ok n
  | name :: names =>
      _ ← repository name;
      match all_tags st name with
      | Ok tags => count_tags st names (add64 n (Z.of_nat (length tags)))
      | Err ErrNotFound => count_tags st names n
      | Err e => Err e
      end
  end.
Inductive count_error := CountStore (e : store_error) | CountSize (text : string).
Definition Counts_of `{BlobTree} (st : Store) : res count_error Counts :=
  repos ← wrap_err CountStore (Repositories st);
  tags ← wrap_err CountStore (count_tags st repos 0);
  bytes ← wrap_err CountSize (PhysicalBytes st);
  Ok (mkCounts (Z.of_nat (length repos)) tags bytes).

(** [BrowseQuery], [RepoSummary] and [BrowsePage]. *)
Definition BrowsePageSize : Z := 25.
Record BrowseQuery := mkBrowseQuery { bq_q : string; bq_kinds : list string; bq_prefix : string; bq_page : Z }.
Record RepoSummary := mkRepoSummary { rs_name : string; rs_kind : Kind; rs_tags : Z; rs_size : Z }.
Record BrowsePage := mkBrowsePage { bp_repos : list RepoSummary; bp_total : Z; bp_page : Z; bp_total_pages : Z }.

(** [kindIn], and the filters on the name. *)
Definition kindIn (k : Kind) (kinds : list string) : bool := existsb (λ c, String.eqb c (browse_kind_name k)) kinds.
Definition name_matches (q : BrowseQuery) (name : string) : bool :=
  (String.eqb (bq_q q) "" || contains_str name (bq_q q)) &&
  (String.eqb (bq_prefix q) "" || String.eqb name (bq_prefix q) || has_prefix name (bq_prefix q +:+ "/")).
Definition kind_matches (q : BrowseQuery) (k : Kind) : bool := bool_decide (bq_kinds q = []) || kindIn k (bq_kinds q).
(** [Browse]; [None] when the slice of the page panics. *)
Fixpoint matched_repos (st : Store) (q : BrowseQuery) (names : list string) : res store_error (list RepoSummary) :=
  match names with
  | [] => Ok []
  | name :: names =>
      if negb (name_matches q name) then matched_repos st q names
      else
        match RepoInfo_of st name with
        | Err ErrNotFound => matched_repos st q names
        | Err e => Err e
        | Ok info =>
            if negb (kind_matches q (ri_kind info)) then matched_repos st q names
            else
              rest ← matched_repos st q names;
              Ok (mkRepoSummary name (ri_kind info) (Z.of_nat (length (ri_tags info))) (ri_size info) :: rest)
        end
  end.
Definition browse_paginate (total page size : Z) : Z * Z * Z :=
  let totalPages := quot64 (sub64 (add64 total size) 1) size in
  let totalPages := if (totalPages =? 0)%Z then 1%Z else totalPages in
  let page := if (page <? 1)%Z then 1%Z else page in
  let start := mul64 (sub64 page 1) size in
  if (total <? start)%Z then (total, total, totalPages)
  else (start, Z.min (add64 start size) total, totalPages).
Definition Browse (st : Store) (q : BrowseQuery) : res store_error (option BrowsePage) :=
  names ← Repositories st;
  matched ← matched_repos st q names;
  let total := Z.of_nat (length matched) in
  let '(start, stop, totalPages) := browse_paginate total (bq_page q) BrowsePageSize in
  Ok (repos ← slice matched start stop; Some (mkBrowsePage repos total (bq_page q) totalPages)).
End browse.

(** * The query string *)

(** [url.Values]. *)
Abbreviation Values := (gmap string (list string)).
Definition values_get (v : Values) (k : string) : string := default "" (v !! k ≫= head).
Definition values_set (k x : string) (v : Values) : Values := <[k := [x]]> v.
Definition values_add (k x : string) (v : Values) : Values := <[k := default [] (v !! k) ++ [x]]> v.
(** [ParseBrowseQuery] and [BrowseQuery.Values]. *)
Definition ParseBrowseQuery (v : Values) : BrowseQuery :=
  let page := match ParseInt (values_get v "page") with Some p => if (1 <? p)%Z then p else 1%Z | None => 1%Z end in
  mkBrowseQuery (values_get v "q") (filter (λ k, k ≠ "") (default [] (v !! "kind"))) (values_get v "prefix") page.
Definition query_values (q : BrowseQuery) : Values :=
  let v := if String.eqb (bq_q q) "" then ∅ else values_set "q" (bq_q q) ∅ in
  let v := fold_left (λ v k, values_add "kind" k v) (bq_kinds q) v in
  let v := if String.eqb (bq_prefix q) "" then v else values_set "prefix" (bq_prefix q) v in
  if (1 <? bq_page q)%Z then values_set "page" (pretty (bq_page q)) v else v.
Definition query_has_filter (q : BrowseQuery) : bool :=
  negb (String.eqb (bq_q q) "") || negb (String.eqb (bq_prefix q) "") || (0 <? length (bq_kinds q))%nat.

(** * Occupancy *)

(** [Occupancy], [Monitored] and [Refresh] of the monitor: the sample it keeps, and
    whether the threshold was crossed, which is logged. *)
Record Occupancy := mkOccupancy { oc_bytes : Z; oc_threshold : Z; oc_exceeded : bool; oc_sampled : time }.
Definition Monitored (o : Occupancy) : bool := (0 <? oc_threshold o)%Z.
Definition NewOccupancyMonitor (threshold : Z) : Occupancy := mkOccupancy 0 threshold false 0.
Definition Refresh (bytes : res string Z) (threshold : Z) (now : time) (current : Occupancy) : Occupancy * bool :=
  if (threshold <=? 0)%Z then (current, false)
  else
    match bytes with
    | Err _ => (current, false)
    | Ok bytes =>
        let sample := mkOccupancy bytes threshold (threshold <? bytes)%Z now in
        (sample, negb (Bool.eqb (oc_exceeded current) (oc_exceeded sample)))
    end.
