(* ===== verification/BrowseTheorems.v ===== *)
(** Results on the browsing of the store: the query string survives its links, the pages
    of the listing are the listing, a repository's size counts each manifest once, and
    what a vanished file does to the occupancy. *)

From S2P Require Import Prelude GoStrings Tasks Disk TaskQueue QueueTheorems StoreMeta StoreGC StoreSafety Preflight Transfer TransferSafety Browse.

(** * The query string *)

Lemma fold_add_kinds ks (v : Values) :
  v !! "kind" = None →
  fold_left (λ v k, values_add "kind" k v) ks v = match ks with [] => v | _ => <["kind" := ks]> v end.
Proof.
  assert (∀ ks pre (v : Values), v !! "kind" = Some pre →
    fold_left (λ v k, values_add "kind" k v) ks v = <["kind" := pre ++ ks]> v) as Hgo.
  { clear. induction ks as [|k ks IH]; intros pre v Hv; cbn.
    - by rewrite app_nil_r, insert_id.
    - unfold values_add at 2. rewrite Hv. cbn. rewrite (IH (pre ++ [k])) by (by rewrite lookup_insert_eq).
      by rewrite insert_insert_eq, <-app_assoc. }
  intros Hv. destruct ks as [|k ks]; [done|]. cbn. unfold values_add at 2. rewrite Hv. cbn.
  rewrite (Hgo ks [k]) by (by rewrite lookup_insert_eq). by rewrite insert_insert_eq.
Qed.
(** The links of a listing keep its filters. Rendering a query to URL parameters and
    parsing them back gives the query, for every page that is an integer. *)
Theorem browse_query_roundtrip q :
  Forall (λ k, k ≠ "") (bq_kinds q) → (1 ≤ bq_page q ≤ int64_max)%Z → ParseBrowseQuery (query_values q) = q.
Proof.
  intros Hk Hp. destruct q as [q kinds prefix page]. cbn [bq_kinds bq_page] in *. unfold query_values. cbn [bq_q bq_kinds bq_prefix bq_page].
  set (v0 := if String.eqb q "" then ∅ else values_set "q" q ∅ : Values).
  assert (v0 !! "kind" = None ∧ v0 !! "prefix" = None ∧ v0 !! "page" = None ∧ default "" (v0 !! "q" ≫= head) = q) as (H1 & H2 & H3 & H4).
  { subst v0. destruct (String.eqb_spec q "") as [-> |]; [done|]. unfold values_set. by simplify_map_eq. }
  clearbody v0. rewrite fold_add_kinds by done.
  set (v1 := match kinds with [] => v0 | _ => <["kind" := kinds]> v0 end : Values).
  assert (v1 !! "prefix" = None ∧ v1 !! "page" = None ∧ default "" (v1 !! "q" ≫= head) = q ∧ default [] (v1 !! "kind") = kinds) as (K1 & K2 & K3 & K4).
  { subst v1. destruct kinds; simplify_map_eq; done. }
  clearbody v1.
  set (v2 := if String.eqb prefix "" then v1 else values_set "prefix" prefix v1 : Values).
  assert (default "" (v2 !! "prefix" ≫= head) = prefix ∧ v2 !! "page" = None ∧ default "" (v2 !! "q" ≫= head) = q ∧ default [] (v2 !! "kind") = kinds)
    as (L1 & L2 & L3 & L4).
  { subst v2. destruct (String.eqb_spec prefix "") as [-> |]; [by rewrite K1|]. unfold values_set. by simplify_map_eq. }
  clearbody v2. unfold ParseBrowseQuery, values_get.
  destruct (Z.ltb_spec 1 page) as [Hpg|Hpg].
  - unfold values_set. simplify_map_eq. rewrite ParseInt_pretty by (unfold is_int64, int64_min in *; lia).
    destruct (Z.ltb_spec 1 page); [|lia]. f_equal; [done|rewrite L4; by apply filter_id].
  - rewrite L2, L1, L3, L4. cbn. f_equal; [|lia]. by apply filter_id.
Qed.

(** * The tag table *)

Section tables.
Context `{GoRuntime, StoreIO, Documents}.
Context `{!Browsing}.

Lemma wrap64_add_l a b : wrap64 (wrap64 a + b) = wrap64 (a + b).
Proof.
  unfold wrap64. f_equal. replace ((a + 2 ^ 63) `mod` 2 ^ 64 - 2 ^ 63 + b + 2 ^ 63)%Z with ((a + 2 ^ 63) `mod` 2 ^ 64 + b)%Z by lia.
  rewrite Z.add_mod_idemp_l by lia. f_equal. lia.
Qed.
Definition cache_total (cache : gmap string manifestSummary) : Z := map_fold (λ _ s n, (sm_size s + n)%Z) 0%Z cache.
Lemma cache_total_insert d s cache : cache !! d = None → cache_total (<[d := s]> cache) = (cache_total cache + sm_size s)%Z.
Proof. intros Hd. unfold cache_total. rewrite map_fold_insert_L; [lia| |done]. intros. lia. Qed.

(** A row of the table tells its tag's digest and that digest's summary. *)
Definition row_of (st : Store) (name : string) (cache : gmap string manifestSummary) (row : TagInfo) : Prop :=
  tag_get st name (ti_tag row) = Ok (ti_digest row) ∧
  ∃ s, cache !! ti_digest row = Some s ∧
    row = mkTagInfo (ti_tag row) (ti_digest row) (sm_size s) (sm_platforms s) (sm_present s) (sm_media_type s).
Lemma row_of_mono st name cache cache' row : cache ⊆ cache' → row_of st name cache row → row_of st name cache' row.
Proof. intros Hc [Ht (s & Hs & E)]. split; [done|]. exists s. split; [by eapply lookup_weaken|done]. Qed.
Lemma tag_rows_spec st name tags cache rows total cache' rows' total' :
  tag_rows st name tags cache rows total = Ok (cache', rows', total') →
  (∀ d s, cache !! d = Some s → summarize st name d = Ok s) →
  Forall (row_of st name cache) rows → dom cache = list_to_set (ti_digest <$> rows) → total = wrap64 (cache_total cache) →
  (∀ d s, cache' !! d = Some s → summarize st name d = Ok s) ∧ Forall (row_of st name cache') rows' ∧
  dom cache' = list_to_set (ti_digest <$> rows') ∧ total' = wrap64 (cache_total cache') ∧ ti_tag <$> rows' = (ti_tag <$> rows) ++ tags.
Proof.
  revert cache rows total. induction tags as [|tag tags IH]; intros cache rows total; cbn [tag_rows].
  { intros [= <- <- <-] ? ? ? ?. by rewrite app_nil_r. }
  intros (d & Hd & E)%res_bind_Ok Hsum Hrows Hdom Htot. apply res_bind_Ok in E as ([[s cache1] total1] & E1 & E).
  assert (cache1 !! d = Some s ∧ cache ⊆ cache1 ∧ (∀ d s, cache1 !! d = Some s → summarize st name d = Ok s) ∧
    dom cache1 = {[ d ]} ∪ dom cache ∧ total1 = wrap64 (cache_total cache1)) as (Hs & Hsub & Hsum1 & Hdom1 & Htot1).
  { destruct (cache !! d) as [s0|] eqn:Hc.
    - injection E1 as <- <- <-. split_and!; [done..| |done]. apply elem_of_dom_2 in Hc. set_solver.
    - apply res_bind_Ok in E1 as (s1 & Hs1 & [= <- <- <-]). split_and!.
      + by simplify_map_eq.
      + by apply insert_subseteq.
      + intros d' s' [[<- <-]|[_ ?]]%lookup_insert_Some; [done|by apply Hsum].
      + by rewrite dom_insert_L.
      + rewrite cache_total_insert by done. unfold add64. by rewrite Htot, wrap64_add_l. }
  destruct (IH _ _ _ E) as (R1 & R2 & R3 & R4 & R5); [done| | |done|].
  - apply Forall_app. split; [eapply Forall_impl; [exact Hrows|]; intros; by eapply row_of_mono|].
    apply Forall_singleton. split; [done|]. by exists s.
  - rewrite fmap_app, list_to_set_app_L, Hdom1, Hdom. cbn. set_solver.
  - split_and!; [done..|]. rewrite R5, fmap_app, <-app_assoc. done.
Qed.

(** The table of a repository. It has one row per tag, in descending order, with the
    digest the tag names and the figures of its manifest; the size of the repository
    counts each distinct manifest once, modulo 2^64. *)
Theorem RepoInfo_table st name info : RepoInfo_of st name = Ok info →
  ∃ cache tags,
    all_tags st name = Ok tags ∧
    ti_tag <$> ri_tags info = sort_slice (λ a b, str_ltb b a) tags ∧
    Forall (row_of st name cache) (ri_tags info) ∧
    (∀ d s, cache !! d = Some s → summarize st name d = Ok s) ∧
    dom cache = list_to_set (ti_digest <$> ri_tags info) ∧
    ri_size info = wrap64 (cache_total cache).
Proof.
  intros (? & _ & E)%res_bind_Ok. apply res_bind_Ok in E as (tags & Htags & E). apply res_bind_Ok in E as (? & _ & E).
  apply res_bind_Ok in E as ([[cache rows] total] & Er & [= <-]). cbn [ri_tags ri_size].
  apply tag_rows_spec in Er as (R1 & R2 & R3 & R4 & R5); [|done|constructor|done|done].
  exists cache, tags. by rewrite R5.
Qed.

(** * The listing *)

(** The repositories the filters keep, one after the other. *)
Definition kept_rows (st : Store) (q : BrowseQuery) (name : string) : list RepoSummary :=
  if name_matches q name then
    match RepoInfo_of st name with
    | Ok info => if kind_matches q (ri_kind info)
                 then [mkRepoSummary name (ri_kind info) (Z.of_nat (length (ri_tags info))) (ri_size info)] else []
    | Err _ => []
    end
  else [].
Lemma matched_repos_spec st q names l : matched_repos st q names = Ok l → l = names ≫= kept_rows st q.
Proof.
  revert l. induction names as [|name names IH]; intros l; [by intros [= <-]|]. cbn. unfold kept_rows at 1.
  destruct (name_matches q name); cbn; [|apply IH]. destruct (RepoInfo_of st name) as [info|[]]; [|done|apply IH|done].
  destruct (kind_matches q (ri_kind info)); cbn; [|apply IH]. intros (rest & Hr & [= <-])%res_bind_Ok. by rewrite (IH rest).
Qed.
Definition at_page (p : Z) (q : BrowseQuery) : BrowseQuery := mkBrowseQuery (bq_q q) (bq_kinds q) (bq_prefix q) p.
Lemma matched_repos_page st q p names : matched_repos st (at_page p q) names = matched_repos st q names.
Proof. induction names as [|name names IH]; [done|]. cbn. by rewrite IH. Qed.
Lemma Browse_window st q names matched p : Repositories st = Ok names → matched_repos st q names = Ok matched →
  (Z.of_nat (length matched) + 50 ≤ int64_max)%Z → (1 ≤ p)%Z → (p * 25 ≤ int64_max)%Z →
  Browse st (at_page p q) = Ok (Some (mkBrowsePage (take 25 (drop (Z.to_nat (p - 1) * 25) matched)) (Z.of_nat (length matched)) p
    (Z.max 1 ((Z.of_nat (length matched) + 24) `div` 25)))).
Proof.
  intros Hn Hm Ht Hp Hpm. unfold Browse. rewrite Hn. cbn [mbind res_bind]. rewrite matched_repos_page, Hm. cbn [mbind res_bind at_page bq_page].
  pose proof (paginate_in_range (Z.of_nat (length matched)) p ltac:(lia) ltac:(lia) Hp Hpm) as Hw.
  change (browse_paginate (Z.of_nat (length matched)) p BrowsePageSize) with (paginate (Z.of_nat (length matched)) p ListPageSize).
  rewrite Hw. by rewrite slice_window.
Qed.

(** The pages of the store's listing are the listing. When the repositories can be
    read, asking for the pages 1 to the announced count answers each time at most a page
    of rows, and together, in order, they are exactly the repositories the filters keep;
    a later page is empty. *)
Theorem browse_pages_cover st q names matched :
  Repositories st = Ok names → matched_repos st q names = Ok matched → (Z.of_nat (length matched) + 50 ≤ int64_max)%Z →
  let rows p := match Browse st (at_page p q) with Ok page => bp_repos <$> page | Err _ => None end in
  matched = names ≫= kept_rows st q ∧
  ∃ n, (∀ p, (1 ≤ p)%Z → (p * 25 ≤ int64_max)%Z →
      ∃ page, Browse st (at_page p q) = Ok (Some page) ∧ bp_total_pages page = Z.of_nat n ∧
        length (bp_repos page) ≤ 25 ∧ ((Z.of_nat n < p)%Z → bp_repos page = [])) ∧
    ∃ pages, mapM (λ i, rows (Z.of_nat (S i))) (seq 0 n) = Some pages ∧ concat pages = matched.
Proof.
  intros Hn Hm Ht rows. split; [by apply matched_repos_spec|].
  pose proof (λ p, Browse_window st q names matched p Hn Hm Ht) as Hwin.
  destruct (windows_cover matched rows) as [Hrows Hpages]; [done| |].
  { intros p Hp Hpm. unfold rows. by rewrite Hwin. }
  eexists. split; [|exact Hpages]. intros p Hp Hpm. destruct (Hrows p Hp Hpm) as (r & Er & Hlen & Hend).
  unfold rows in Er. rewrite Hwin in Er |- * by done. injection Er as <-. eexists. split; [done|]. cbn. split; [lia|done].
Qed.
End tables.

(** * Occupancy *)

(** A file that disappears while the store is measured makes it measure as empty. The
    walk stops at the missing file, whatever was counted before, and the monitor takes
    the store back under its threshold. *)
Theorem vanished_file_empties `{BlobTree} st before after threshold now current :
  tree_walk st = before ++ WFile (Err WalkNotExist) :: after → is_ok (dir_total before 0) = true → (0 < threshold)%Z →
  PhysicalBytes st = Ok 0%Z ∧
  oc_exceeded (Refresh (PhysicalBytes st) threshold now current).1 = false ∧
  (Refresh (PhysicalBytes st) threshold now current).2 = oc_exceeded current.
Proof.
  intros Hw Hb Ht. assert (PhysicalBytes st = Ok 0%Z) as ->.
  { unfold PhysicalBytes, dirSize. rewrite Hw. clear Hw. revert Hb. generalize 0%Z at 1 2.
    induction before as [|[[n|e]| |e] before IH]; intros z; cbn; try done; apply IH. }
  unfold Refresh. destruct (Z.leb_spec threshold 0); [lia|]. cbn. destruct (Z.ltb_spec threshold 0); [lia|].
  split_and!; [done..|]. by destruct (oc_exceeded current).
Qed.

(** * Witnesses *)

Lemma browse_query_roundtrip_witness :
  let q := mkBrowseQuery "app" ["HelmChart"; "Recipe"] "registry.example/team" 3 in ParseBrowseQuery (query_values q) = q.
Proof.
  apply (browse_query_roundtrip (mkBrowseQuery "app" ["HelmChart"; "Recipe"] "registry.example/team" 3)).
  - repeat constructor; discriminate.
  - vm_compute. split; discriminate.
Defined.
(** A repository with two tags on one sparse index and one on an image. *)
#[local] Instance demo_browsing : Browsing := {|
  media_type_of d := if String.eqb d "I" then "application/vnd.oci.image.index.v1+json" else "application/vnd.oci.image.manifest.v1+json";
  references d := if String.eqb d "I" then [mkDescriptor "M" 1 None; mkDescriptor "N" 1 None] else [mkDescriptor "C" 1 None; mkDescriptor "L" 10 None];
  probeManifest d := Some (mkProbe "" (if String.eqb d "I" then "" else mediaTypeOCIConfig) "C" ∅);
  config_platform _ := None;
  keeps_tag_dir _ := false |}.
Definition shelf : Store := mkStore
  {["app" := mkRepoDir {["v1" := "I"; "v2" := "I"; "v3" := "M"]} {["I" := Some 1%Z; "M" := Some 1%Z]} {["C" := Some 1%Z; "L" := Some 1%Z]}]}
  {["I" := Some 1%Z; "M" := Some 1%Z; "C" := Some 1%Z; "L" := Some 1%Z]} (mkMeta ∅ ∅).
Lemma RepoInfo_table_witness :
  ∃ info, RepoInfo_of (H0 := io_sound) shelf "app" = Ok info ∧ ri_size info = 25%Z ∧
    ∃ cache tags, all_tags (H0 := io_sound) shelf "app" = Ok tags ∧
      ti_tag <$> ri_tags info = sort_slice (λ a b, str_ltb b a) tags ∧ ri_size info = wrap64 (cache_total cache).
Proof.
  destruct (RepoInfo_of (H0 := io_sound) shelf "app") as [info|e] eqn:E; [|vm_compute in E; discriminate E].
  destruct (RepoInfo_table (H0 := io_sound) shelf "app" info E) as (cache & tags & Ht & Hr & _ & _ & _ & Hs).
  exists info. split; [reflexivity|]. split; [vm_compute in E; injection E as <-; reflexivity|].
  exists cache, tags. split; [exact Ht|]. split; [exact Hr|exact Hs].
Defined.
Lemma browse_pages_cover_witness :
  let q := mkBrowseQuery "" [] "" 1 in
  ∃ matched, matched_repos (H0 := io_sound) shelf q ["app"] = Ok matched ∧ matched = ["app"] ≫= kept_rows (H0 := io_sound) shelf q.
Proof.
  intros q. destruct (matched_repos (H0 := io_sound) shelf q ["app"]) as [matched|e] eqn:E; [|vm_compute in E; discriminate E].
  exists matched. split; [reflexivity|].
  apply (browse_pages_cover (H0 := io_sound) shelf q ["app"] matched).
  - vm_compute. reflexivity.
  - exact E.
  - vm_compute in E. injection E as <-. vm_compute. discriminate.
Defined.
Lemma vanished_file_empties_witness :
  let tree : BlobTree := {| tree_walk _ := [WDir; WFile (Ok 4000%Z); WFile (Err WalkNotExist); WFile (Ok 9000%Z)] |} in
  PhysicalBytes shelf = Ok 0%Z ∧
  oc_exceeded (Refresh (PhysicalBytes shelf) 1000 7 (mkOccupancy 13000 1000 true 1)).1 = false ∧
  (Refresh (PhysicalBytes shelf) 1000 7 (mkOccupancy 13000 1000 true 1)).2 = true.
Proof.
  intros tree. apply (vanished_file_empties shelf [WDir; WFile (Ok 4000%Z)] [WFile (Ok 9000%Z)] 1000 7 (mkOccupancy 13000 1000 true 1)).
  - reflexivity.
  - reflexivity.
  - reflexivity.
Defined.
