(* ===== verification/Remotes.v ===== *)
(** The reading side of the engine (internal/engine): remotes with source
    substitution and the allowlist (remote.go), the cookbook (cookbook.go), version
    resolution (resolve.go), the Retriever (retriever.go) and the byte-exact reads of
    the store (internal/store/read.go).

    The registries themselves and the recipe-spec SDK are parameters: what an
    endpoint answers, and what the SDK parses and accepts. *)

From stdpp Require Import pretty.
From S2P Require Import Prelude GoStrings Relocate Policy Taxonomy Tasks MediaVerify SigKeys SigVerify.
From S2P Require Import StoreMeta StoreGC Prune Preflight Transfer.

(** * Documents of the format *)

Inductive IngredientKind := KindImage | KindHelmChart | KindOCIArtifact | KindOther (s : string).
#[export] Instance IngredientKind_eq_dec : EqDecision IngredientKind.
Proof. solve_decision. Defined.
Definition kind_name (k : IngredientKind) : string :=
  match k with KindImage => "ContainerImage" | KindHelmChart => "HelmChart" | KindOCIArtifact => "OCIArtifact" | KindOther s => s end.
Record Ingredient := mkIngredient {
  ig_name : string; ig_kind : IngredientKind; ig_ref : string; ig_version : string; ig_digest : string;
  ig_artifact_type : string; ig_platforms : list string }.
Record Recipe := mkRecipe { rc_name : string; rc_version : string; rc_ingredients : list Ingredient }.
Record Selector := mkSelector { sl_name : string; sl_version : string; sl_cookbook : string }.
Record Retriever := mkRetriever { rt_name : string; rt_cookbook : string; rt_recipes : list Selector }.

(** What the SDK answers: a parsed constraint is exact or resolves against tags. *)
Class RecipeSDK : Type := {
  constraint : Type;
  ParseConstraint : string → res string constraint;
  IsExact : constraint → bool;
  Resolve : constraint → list string → res string string;
  VerifyManifest : string → res go_error (string * string);
  ParseRecipe : string → res go_error Recipe;
  ValidateCooked : Recipe → res go_error unit;
  ValidatePublishLocation : Recipe → string → string → res go_error unit;
  ParseRetriever : string → res go_error Retriever;
  error_list : go_error → option string;
  MaxDocumentBytes : Z;
  publish_location r name tag :
    ValidatePublishLocation r name tag = Ok tt → rc_name r = name ∧ rc_version r = tag }.

(** * Remotes *)

(** What the network answers, by the repository contacted: [NewRepository]'s
    registry host, tag lists, the digest behind a reference, referrers; and the text
    of [%q]. *)
Class Upstream : Type := {
  NewRepository : string → res string string;
  up_tags : string → res go_error (list string);
  up_get : string → string → res go_error string;
  up_referrers : string → string → res go_error (list string);
  fmt_q : string → string }.

Record Remotes := mkRemotes { rm_subs : gmap string string; rm_allow : option Allowlist }.

Section remotes.
Context `{GoRuntime, StoreIO, Documents, RecipeSDK, Upstream}.

Definition relocate_text (e : relocate_error) : string :=
  match e with
  | EmptyReference => "empty reference"
  | URLScheme ref => "reference " +:+ fmt_q ref +:+ " must not carry a URL scheme"
  | IPv6Literal ref => "reference " +:+ fmt_q ref +:+ ": IPv6 literal hosts are not relocatable, use a hostname"
  | DigestPinned ref =>
      "reference " +:+ fmt_q ref +:+ " must not pin a digest: digests live in the ingredient's digest field"
  | NoExplicitHost ref =>
      "reference " +:+ fmt_q ref +:+ " must include an explicit registry host (e.g. docker.io/library/nginx)"
  | TagCarried ref => "reference " +:+ fmt_q ref +:+ " must not carry a tag: versions live in the ingredient's version field"
  | EmptyPathComponent ref => "reference " +:+ fmt_q ref +:+ " has an empty repository path component"
  | MalformedPort ref => "reference " +:+ fmt_q ref +:+ " has a malformed host port"
  end.
Definition relocated {A} (r : res relocate_error A) : res go_error A :=
  wrap_err (λ e, plain (relocate_text e)) r.

(** [NewRemotes]: the substitutions under their canonical host. *)
Fixpoint load_subs (subs : list (string * string)) (m : gmap string string) : res relocate_error (gmap string string) :=
  match subs with
  | [] => Ok m
  | (nominal, base) :: subs => canonical ← Host nominal; load_subs subs (<[canonical := trim_byte "/" base]> m)
  end.
Definition NewRemotes (substitutions : gmap string string) (allow : option Allowlist) : res relocate_error Remotes :=
  subs ← load_subs (map_range substitutions) ∅; Ok (mkRemotes subs allow).

(** [Effective]: where a nominal repository is contacted. *)
Definition first_segment (s : string) : string := match cut_byte "/" s with Some (h, _) => h | None => s end.
Definition Effective (r : Remotes) (nominal : string) : res relocate_error string :=
  canonical ← Path nominal;
  match rm_subs r !! replace_byte "_" ":" (first_segment canonical) with
  | None => Ok nominal
  | Some base => Ok (base +:+ "/" +:+ canonical)
  end.

(** The taxonomy error of an allowlist refusal. *)
Definition check_host (allow : option Allowlist) (host : string) : res go_error unit :=
  match (Check allow false host).1 with
  | None => Ok tt
  | Some (NotAllowlisted host) => Err (tax_error (tax CodeNotAllowlisted (strs [("host", host)])))
  end.

(** [Repository]: the repository contacted, once its host is allowed. *)
Definition Repository (r : Remotes) (nominal : string) : res go_error string :=
  eff ← relocated (Effective r nominal);
  match NewRepository eff with
  | Err text => Err (plain ("effective repository " +:+ fmt_q eff +:+ ": " +:+ text))
  | Ok host => _ ← check_host (rm_allow r) host; Ok eff
  end.

(** [Get] and [ListTags]. *)
Definition Get (r : Remotes) (nominal reference : string) : eng string :=
  eff ← lift (Repository r nominal); _ ← call; lift (up_get eff reference).
Definition ListTags (r : Remotes) (nominal : string) : eng (list string) :=
  eff ← lift (Repository r nominal); _ ← call; lift (up_tags eff).

(** [readBounded]. *)
Definition readBounded (s : string) (limit : Z) : res go_error string :=
  if (limit <? Z.of_nat (slen s))%Z then Err (plain "content exceeds the byte bound") else Ok s.
(** A blob of a repository, read whole under a bound. *)
Definition fetch_blob (r : Remotes) (nominal d : string) (limit : Z) : eng string :=
  _ ← lift (Repository r nominal); _ ← call; lift (readBounded (doc_bytes d) limit).

(** [remoteManifests]: the read surface of the signature verifier. *)
Definition src_of {A} (r : res go_error A) : res src_error A :=
  match r with
  | Ok a => Ok a
  | Err e => Err (if isNotFound e then SrcNotFound else SrcFailed (ge_text e))
  end.
Definition blob_src {A} (r : res go_error A) : res src_error A :=
  match r with Ok a => Ok a | Err e => Err (SrcFailed (ge_text e)) end.
Definition remote_referrers (r : Remotes) (nominal subject : string) : res go_error (list string) :=
  eff ← Repository r nominal;
  match up_referrers eff subject with
  | Ok ds => Ok ds
  | Err e => if isNotFound e then Ok [] else Err e
  end.
Definition remoteManifests (r : Remotes) (nominal : string) : Manifests := mkManifests
  (λ _ reference, src_of (eff ← Repository r nominal; d ← up_get eff reference; Ok (doc_bytes d)))
  (λ _ d, blob_src (_ ← Repository r nominal; readBounded (doc_bytes d) MaxPayloadSize))
  (Some (λ _ subject,
    match remote_referrers r nominal subject with
    | Ok ds => (ds, None) | Err e => ([], Some (SrcFailed (ge_text e)))
    end)).

(** * The cookbook *)

(** [Versions]: the tags that are not signature artifacts. *)
Definition Versions (r : Remotes) (cookbook name : string) : eng (list string) :=
  tags ← ListTags r (cookbook +:+ "/" +:+ name);
  mret (filter (λ t, has_prefix t "sha256-" = false) tags).

(** [ResolveVersion]. *)
Definition version_error (expr text : string) : go_error := plain ("version " +:+ fmt_q expr +:+ ": " +:+ text).
Definition ResolveVersion (expr : string) (tags : list string) : res go_error string :=
  c ← wrap_err (version_error expr) (ParseConstraint expr);
  if IsExact c then
    if bool_decide (expr ∈ tags) then Ok expr else Err (version_error expr "tag not found")
  else wrap_err (version_error expr) (Resolve c tags).

(** [FetchedRecipe], before and after its document is read. *)
Record FetchedRecipe := mkFetched {
  f_repo : string; f_tag : string; f_digest : string; f_config : string; f_layer : string }.
(** [FetchArtifact]. *)
Definition FetchArtifact (r : Remotes) (cookbook name tag : string) : eng FetchedRecipe :=
  let repo := cookbook +:+ "/" +:+ name in
  d ← Get r repo tag;
  '(config, layer) ← lift (VerifyManifest d);
  mret (mkFetched repo tag d config layer).
(** [LoadDocument]. *)
Definition LoadDocument (r : Remotes) (f : FetchedRecipe) (name : string) : eng Recipe :=
  yaml ← fetch_blob r (f_repo f) (f_layer f) MaxDocumentBytes;
  recipe ← lift (ParseRecipe yaml);
  _ ← lift (ValidateCooked recipe);
  _ ← lift (ValidatePublishLocation recipe name (f_tag f));
  mret recipe.

(** * The Retriever *)

(** The file system and the HTTP client a Retriever is read with. *)
Class RetrieverIO : Type := {
  http_get : string → res go_error (Z * string);
  file_exists : string → bool;
  read_file : string → res go_error string }.

Definition hasDriveDesignator (source : string) : bool :=
  match source with
  | String c (String d _) => Ascii.eqb d ":" && (in_range "A" "Z" c || in_range "a" "z" c)
  | _ => false
  end.
Definition fetchRetrieverURL `{RetrieverIO} (url : string) : eng string :=
  _ ← call;
  match http_get url with
  | Err e => raise e
  | Ok (status, body) =>
      if negb (status =? 200)%Z then raise (plain ("fetching retriever " +:+ url +:+ ": HTTP " +:+ pretty status))
      else lift (readBounded body MaxDocumentBytes)
  end.
(** The tag of an OCI reference: after the last colon, when no slash follows it. *)
Definition split_tag (reference : string) : string * string :=
  match last_index_byte ":" reference with
  | Some i =>
      if match last_index_byte "/" reference with Some j => (j <? i)%nat | None => true end
      then (stake i reference, sdrop (S i) reference) else (reference, "latest")
  | None => (reference, "latest")
  end.
Definition fetchRetrieverOCI (r : Remotes) (reference : string) : eng string :=
  let '(repoPath, tag) := split_tag reference in
  d ← Get r repoPath tag;
  match doc_of d with
  | Some (Image _ [(layer, _)]) => fetch_blob r repoPath layer MaxDocumentBytes
  | Some _ => raise (plain ("retriever artifact " +:+ reference +:+ ": want exactly one document layer"))
  | None => raise (plain ("retriever artifact " +:+ reference +:+ ": unparseable manifest"))
  end.
Definition oci_host (source : string) : bool :=
  match cut_byte "/" source with
  | Some (host, _) =>
      negb (hasDriveDesignator source) &&
      (contains_byte host "." || contains_byte host ":" || String.eqb host "localhost")
  | None => false
  end.
(** [readRetrieverSource] and [LoadRetriever]. *)
Definition readRetrieverSource `{RetrieverIO} (r : Remotes) (source : string) : eng string :=
  if String.eqb source "" then raise (plain "retriever.source is not configured: set an HTTP(S) URL, an OCI reference, or a file path (FR-010)")
  else if has_prefix source "http://" || has_prefix source "https://" then fetchRetrieverURL source
  else
    match cut_prefix "oci://" source with
    | Some reference => fetchRetrieverOCI r reference
    | None =>
        if file_exists source then lift (read_file source)
        else if oci_host source then fetchRetrieverOCI r source
        else raise (plain ("retriever file " +:+ source +:+ " does not exist (and the value is not an URL or an OCI reference)"))
    end.
Definition LoadRetriever `{RetrieverIO} (r : Remotes) (source : string) : eng Retriever :=
  raw ← readRetrieverSource r source; lift (ParseRetriever raw).

(** * Reading the store *)

(** [RawManifest], to the digest it serves, and [BlobReader]. *)
Definition manifest_ref (repo reference : string) (st : Store) : option string :=
  if digest_ok reference then Some reference else rd_tags (repo_of repo st) !! reference.
Definition RawManifest (repo reference : string) (st : Store) : res go_error string :=
  if negb (name_ok repo) then Err store_absent
  else
    match manifest_ref repo reference st with
    | None => Err store_absent
    | Some d => if linked_revision repo d st && has_data d st then Ok d else Err store_absent
    end.
Definition BlobReader (repo d : string) (st : Store) : res go_error string :=
  if name_ok repo && digest_ok d && linked_layer repo d st && has_data d st then Ok (doc_bytes d) else Err store_absent.

(** [storeManifests]: the verifier's source over the local copy. *)
Definition absent_src {A} (r : res go_error A) : res src_error A :=
  match r with Ok a => Ok a | Err e => Err (if ge_absent e then SrcNotFound else SrcFailed (ge_text e)) end.
Definition storeManifests (repo : string) (st : Store) : Manifests := mkManifests
  (λ _ reference, absent_src (d ← RawManifest repo reference st; Ok (doc_bytes d)))
  (λ _ d, absent_src (raw ← BlobReader repo d st; readBounded raw MaxPayloadSize))
  None.
End remotes.
