(* ===== verification/Promote.v ===== *)
(** Promotion into the destination zone (internal/engine): the destination registry
    (destination.go), pushes from the store (push.go), and the promotion of one
    recipe with its ingredients and signatures (promote.go). *)

From stdpp Require Import pretty.
From S2P Require Import Prelude GoStrings Relocate Policy Taxonomy Tasks MediaVerify SigKeys SigVerify Trust.
From S2P Require Import StoreMeta StoreGC Prune Preflight Transfer Remotes.

(** [Destination]. *)
Record Destination := mkDestination {
  de_host : string; de_base : string; de_cookbook : string; de_allow : option Allowlist }.

(** What the destination answers to a tag listing, by repository. *)
Class Zone : Type := { zone_list : string → res go_error (list string) }.

Definition DefaultCookbook : string := "cookbook".
Definition nameTotalLengthMax : Z := 255.
Definition pushItemPrefix : string := "push/".

Section promote.
Context `{GoRuntime, StoreIO, Documents, RecipeSDK, Upstream, Volume, KeyLib, SigCodec, Zone}.

(** The engine's configuration, as far as runs read it. *)
Record Engine := mkEngine {
  en_remotes : Remotes; en_trust : TrustPolicy; en_dest : option Destination; en_base : string;
  en_retries : nat; en_cancelled : nat → bool }.

(** * The destination *)

(** [NewDestination] on a configured registry. *)
Definition NewDestination (registry basePath cookbook : string) (allow : option Allowlist)
  : res relocate_error (option Destination) :=
  if String.eqb registry "" then Ok None
  else
    host ← Host registry;
    let cookbook := trim_byte "/" cookbook in
    Ok (Some (mkDestination host (trim_byte "/" basePath)
      (if String.eqb cookbook "" then DefaultCookbook else cookbook) allow)).

(** [Path] and [Repository] of the destination. *)
Definition dest_path (d : Destination) (relocated : string) : string :=
  if String.eqb (de_base d) "" then relocated else de_base d +:+ "/" +:+ relocated.
Definition limit_error (reference limit : string) : go_error :=
  tax_error (tax CodeDestinationLimit (strs [("reference", reference); ("limit", limit)])).
Definition DestRepository (d : Destination) (relocated : string) : res go_error string :=
  let path := dest_path d relocated in
  let full := de_host d +:+ "/" +:+ path in
  if (nameTotalLengthMax <? Z.of_nat (slen path))%Z then
    Err (limit_error full ("repository names are bounded at " +:+ pretty nameTotalLengthMax +:+
      " characters by the OCI name grammar; the relocated path is " +:+ pretty (Z.of_nat (slen path))))
  else
    match NewRepository full with
    | Err text => Err (limit_error full ("the relocated path is not a valid OCI repository name: " +:+ text))
    | Ok host => _ ← check_host (de_allow d) host; Ok full
    end.
(** [cookbookPath] and the repository of [CookbookTag]. *)
Definition cookbookPath (d : Destination) (name : string) : string := de_cookbook d +:+ "/" +:+ name.
Definition CookbookRepo (d : Destination) (name : string) : res go_error string :=
  DestRepository d (cookbookPath d name).

(** [probe]: a registry that will not hold the name says so, one that has never seen
    it answers 404. *)
Definition names_refused (status : Z) : bool := (status =? 400)%Z || (status =? 405)%Z || (status =? 501)%Z.
Definition probe (repo : string) : eng unit :=
  r ← attempt (_ ← call; lift (zone_list repo));
  match r with
  | Ok _ => mret tt
  | Err e =>
      match ge_status e with
      | None => raise e
      | Some status =>
          if (status =? 404)%Z then mret tt
          else if names_refused status then
            raise (limit_error repo ("the destination refuses this name (HTTP " +:+ pretty status +:+ "): " +:+ ge_text e))
          else raise e
      end
  end.
(** [Accepts]: the verdict on a name is cached, a transport failure is not. *)
Definition accept_as (repo : string) (v : option TaxError) (s : DestState) : DestState :=
  mkDest (ds_tags s) (ds_manifests s) (ds_blobs s) (<[repo := v]> (ds_accepted s)).
Definition Accepts (repo : string) : eng unit :=
  cached ← gets (λ w, ds_accepted (w_dest w) !! repo);
  match cached with
  | Some None => mret tt
  | Some (Some e) => raise (tax_error e)
  | None =>
      r ← attempt (probe repo);
      match r with
      | Ok _ => on_dest (accept_as repo None)
      | Err e =>
          match ge_tax e with
          | Some t =>
              if String.eqb (te_code t) CodeDestinationLimit then _ ← on_dest (accept_as repo (Some t)); raise e
              else raise e
          | None => raise e
          end
      end
  end.

(** [remote.Head] of a tag, and [Status]. *)
Definition head_absent : go_error :=
  mkErr "unexpected status code 404 Not Found" None None None None None false false (Some 404%Z) false false false false [].
Definition Head (repo tag : string) : eng string :=
  _ ← call;
  d ← gets (λ w, ds_tags (w_dest w) !! (repo, tag));
  match d with Some d => mret d | None => raise head_absent end.
Inductive PlatformStatus := StatusNew | StatusOutdated | StatusUpToDate.
#[export] Instance PlatformStatus_eq_dec : EqDecision PlatformStatus.
Proof. solve_decision. Defined.
Definition status_name (s : PlatformStatus) : string :=
  match s with StatusNew => "new" | StatusOutdated => "outdated" | StatusUpToDate => "up-to-date" end.
Definition DestStatus (repo tag want : string) : eng PlatformStatus :=
  r ← attempt (Head repo tag);
  match r with
  | Err e => if isNotFound e then mret StatusNew else raise e
  | Ok d => mret (if String.eqb d want then StatusUpToDate else StatusOutdated)
  end.

(** * Pushes *)

(** [remote.WriteLayer] of a stored blob: nothing when the destination holds it; the
    bytes that cross are those read from the store. *)
Definition put_blob (repo d : string) (s : DestState) : DestState :=
  mkDest (ds_tags s) (ds_manifests s) ({[ (repo, d) ]} ∪ ds_blobs s) (ds_accepted s).
Definition push_blob (local dst d : string) : eng unit :=
  _ ← call;
  has ← gets (λ w, bool_decide ((dst, d) ∈ ds_blobs (w_dest w)));
  if (has : bool) then mret tt
  else
    raw ← reading (BlobReader local d);
    _ ← add_moved (Z.of_nat (slen raw));
    _ ← call;
    on_dest (put_blob dst d).
(** [pushBlobs]: the configuration, then the layers. *)
Fixpoint pushBlobs (local dst : string) (bs : list string) : eng unit :=
  match bs with
  | [] => mret tt
  | b :: bs =>
      if String.eqb b "" then pushBlobs local dst bs
      else
        r ← attempt (push_blob local dst b);
        match r with
        | Err e => raise (wrapf ("uploading blob " +:+ b +:+ " to " +:+ dst +:+ ": ") e)
        | Ok _ => pushBlobs local dst bs
        end
  end.

(** [remote.Put] of a manifest, by tag or by digest. *)
Definition put_manifest (repo tag d : string) (s : DestState) : DestState :=
  mkDest (if String.eqb tag "" then ds_tags s else <[(repo, tag) := d]> (ds_tags s))
    ({[ (repo, d) ]} ∪ ds_manifests s) (ds_blobs s) (ds_accepted s).

(** [pushManifest] and [pushIndexChildren]: what a manifest needs, then itself; a
    child the store does not hold is skipped. *)
Fixpoint push_children (push : string → eng unit) (children : list string) : eng unit :=
  match children with
  | [] => mret tt
  | c :: children =>
      r ← attempt (push c);
      match r with
      | Ok _ => push_children push children
      | Err e => if ge_absent e then push_children push children else raise e
      end
  end.
Definition read_manifest (local reference : string) : eng string :=
  r ← attempt (_ ← call; reading (RawManifest local reference));
  match r with
  | Ok d => mret d
  | Err e => raise (wrapf ("reading " +:+ local +:+ "@" +:+ reference +:+ " from the store: ") e)
  end.
Definition write_manifest (dst tag d : string) : eng unit :=
  r ← attempt call;
  match r with
  | Ok _ => on_dest (put_manifest dst tag d)
  | Err e => raise (wrapf ("writing the manifest " +:+ dst +:+ ": ") e)
  end.
Fixpoint push_digest (fuel : nat) (local dst tag d : string) : eng unit :=
  match fuel with
  | 0 => raise (plain "out of fuel")
  | S fuel =>
      _ ← match doc_of d with
          | Some (Index children) =>
              push_children (λ c, d ← read_manifest local c; push_digest fuel local dst "" d)
                (ch_digest <$> children)
          | Some (Image config layers) => pushBlobs local dst (config.1 :: (fst <$> layers))
          | None => raise (plain ("parsing the manifest of " +:+ local))
          end;
      write_manifest dst tag d
  end.
Definition PushManifest (local dst reference tag : string) : eng unit :=
  d ← read_manifest local reference;
  push_digest (S (doc_rank d)) local dst tag d.

(** * Re-verification *)

Definition sig_error (o : SigOutcome) : option go_error :=
  match o with
  | SigOk _ => None
  | SigAbsent => Some (mkErr "no signature found" None None None None None true false None false false false false [])
  | SigNoTrustedKey tried =>
      Some (mkErr "no trusted key verifies" None None None (Some tried) None false false None false false false false [])
  | SigBad reason => Some (mkErr reason None None None None (Some reason) false false None false false false false [])
  | SigFailed text => Some (plain text)
  end.
Definition no_root_error (subject : string) : go_error :=
  tax_error (tax CodeSignature (strs [("recipe", subject); ("fingerprints", "none — no trust root is configured")])).

(** [verifyStored] and [verifySignedStored], over the local copy. *)
Definition verifyStored (trust : TrustPolicy) (local nominal d subject : string) (st : Store) : res go_error unit :=
  let dec := Decide trust nominal in
  match dc_keys dec with
  | Some keys =>
      match sigverify_Verify (storeManifests local st) local d keys with
      | SigOk _ => Ok tt
      | o => if match o with SigAbsent => dc_allow_unsigned dec | _ => false end then Ok tt
             else match sig_error o with Some e => Err e | None => Ok tt end
      end
  | None => if dc_allow_unsigned dec then Ok tt else Err (no_root_error subject)
  end.
Definition verifySignedStored (trust : TrustPolicy) (local nominal d subject : string) (st : Store) : res go_error unit :=
  match dc_keys (Decide trust nominal) with
  | None => Ok tt
  | Some keys =>
      match sigverify_Verify (storeManifests local st) local d keys with
      | SigOk _ | SigAbsent => Ok tt
      | o => match sig_error o with
             | Some e => Err (wrapf ("re-verifying " +:+ subject +:+ " before pushing it: ") e)
             | None => Ok tt
             end
      end
  end.

(** * One recipe *)

(** [origin]: where the bytes are. *)
Record origin := mkOrigin { og_stored : string → string → res go_error string; og_upstream : bool }.
Definition ownContent (base : string) : origin :=
  mkOrigin (λ ref _, relocated (PathWithBase base ref)) true.

(** Settling an item. *)
Definition set_status (s : Status) (it : Item) : Item :=
  mkItem (it_name it) (it_digest it) (it_size it) s (it_error it) (it_blobs it).
Definition set_digest (d : string) (it : Item) : Item :=
  mkItem (it_name it) d (it_size it) (it_status it) (it_error it) (it_blobs it).
Definition set_size (n : Z) (it : Item) : Item :=
  mkItem (it_name it) (it_digest it) n (it_status it) (it_error it) (it_blobs it).
Definition fail_item (te : TaxError) (it : Item) : Item :=
  mkItem (it_name it) (it_digest it) (it_size it) StatusFailed (FromTaxonomy (Some te)) (it_blobs it).
Definition resolve_row (r : Resolution) : eng unit := on_task (λ t, set_resolutions (t_resolutions t ++ [r]) t).

(** [pushFailed]: the item fails; [false] is the error returned. *)
Definition pushFailed (rid suffix : string) (e : go_error) (subject : string) : eng bool :=
  _ ← on_item (pushItemPrefix +:+ rid +:+ "/" +:+ suffix) (fail_item (mapError e subject));
  mret false.
(** An operation whose error fails the item; [true] when it goes on to [true]. *)
Definition or_fail {A} (rid suffix subject : string) (m : eng A) (f : A → eng bool) : eng bool :=
  r ← attempt m;
  match r with Ok a => f a | Err e => pushFailed rid suffix e subject end.

(** The bytes an operation moved. *)
Definition metered {A} (m : eng A) : eng (res go_error A * Z) :=
  before ← gets w_moved; r ← attempt m; after ← gets w_moved; mret (r, sub64 after before).

(** [signatureTags] and [pushAttachedSignatures]: a signature that is not there, or
    does not cross, is not an error. *)
Definition signatureTags (d : string) : list string := [SignatureTag d; replace_first "sha256:" "sha256-" d].
Fixpoint push_tags (local dst : string) (tags : list string) : eng unit :=
  match tags with
  | [] => mret tt
  | tag :: tags => _ ← attempt (PushManifest local dst tag tag); push_tags local dst tags
  end.
Definition pushAttachedSignatures (local dst d : string) : eng unit := push_tags local dst (signatureTags d).

(** [sparseIndexRefused] and [completeIndex]. *)
Definition sparseIndexRefused (e : go_error) : bool :=
  existsb (λ c, bool_decide (c ∈ ["MANIFEST_BLOB_UNKNOWN"; "MANIFEST_UNKNOWN"; "MANIFEST_INVALID"; "MANIFEST_UNVERIFIED"]))
    (ge_codes e).
Definition completeIndex (r : Remotes) (ing : Ingredient) (local : string) : eng unit :=
  d ← Get r (ig_ref ing) (ig_digest ing);
  match doc_of d with
  | Some (Index _) =>
      _ ← lift (Repository r (ig_ref ing));
      copyIndexChildren None local (ig_version ing) d None
  | _ => mret tt
  end.

(** The push of an ingredient: again with every platform when the destination refuses
    a sparse index. *)
Definition push_ingredient (e : Engine) (org : origin) (ing : Ingredient) (local dst : string) : eng unit :=
  let push := withRetries (en_cancelled e) (en_retries e) 0 (PushManifest local dst (ig_digest ing) (ig_version ing)) in
  r ← attempt push;
  match r with
  | Ok _ => mret tt
  | Err err =>
      if og_upstream org && sparseIndexRefused err then _ ← completeIndex (en_remotes e) ing local; push
      else raise err
  end.

(** [promoteIngredient]. *)
Definition promoteIngredient (e : Engine) (d : Destination) (rid : string) (org : origin) (ing : Ingredient) : eng bool :=
  let fail A := @or_fail A rid (ig_name ing) (ig_ref ing) in
  let item := pushItemPrefix +:+ rid +:+ "/" +:+ ig_name ing in
  fail _ (lift (og_stored org (ig_ref ing) (ig_name ing))) (λ local,
  fail _ (lift (target ← relocated (PathWithBase (en_base e) (ig_ref ing)); DestRepository d target)) (λ dst,
  fail _ (Accepts dst) (λ _,
  fail _ (_ ← call; reading (verifySignedStored (en_trust e) local (ig_ref ing) (ig_digest ing)
            (ig_ref ing +:+ "@" +:+ ig_digest ing))) (λ _,
  fail _ (DestStatus dst (ig_version ing) (ig_digest ing)) (λ status,
  let res pushed := mkResolution rid (ig_name ing) (ig_version ing) (ig_version ing) (ig_digest ing) "" "" ""
    dst (status_name status) pushed in
  if decide (status = StatusUpToDate) then
    _ ← on_item item (set_status StatusSkipped);
    _ ← resolve_row (res 0%Z);
    mret true
  else
    _ ← on_item item (λ it, set_digest (ig_digest ing) (set_status StatusRunning it));
    '(r, moved) ← metered (push_ingredient e org ing local dst);
    match r with
    | Err err => pushFailed rid (ig_name ing) err (ig_ref ing)
    | Ok _ =>
        '(_, signed) ← metered (pushAttachedSignatures local dst (ig_digest ing));
        _ ← on_item item (λ it, set_size (add64 moved signed) (set_status StatusDone it));
        _ ← resolve_row (res (add64 moved signed));
        mret true
    end))))).

(** [propagateRecipe]: the artifact in the zone's cookbook; a published tag is never
    re-pointed. *)
Definition immutable_error (reference published candidate : string) : go_error :=
  tax_error (tax CodeTagImmutable (strs [("reference", reference); ("published", published); ("candidate", candidate)])).
Definition same_document (dst tag existing dgst document : string) : eng bool :=
  if String.eqb existing dgst then mret true
  else
    published ← Head dst tag;
    match VerifyManifest published with
    | Err _ => raise (immutable_error (dst +:+ ":" +:+ tag) existing dgst)
    | Ok (_, remote) =>
        if String.eqb remote document then mret true
        else raise (immutable_error (dst +:+ ":" +:+ tag) remote document)
    end.
(** [validationError]: [error_list] is the path of the first field error of a list. *)
Definition validationError (ref : string) (err : go_error) : go_error :=
  let path := match error_list err with
              | Some path => path
              | None => match ge_layout err with Some _ => layoutPath | None => "" end
              end in
  tax_error (tax CodeValidation (strs [("file", ref); ("path", path); ("constraint", ge_text err)])).
Definition propagateRecipe (d : Destination) (f : FetchedRecipe) (recipe : Recipe) (local rid : string) : eng bool :=
  let item := pushItemPrefix +:+ rid +:+ "/recipe" in
  let fail A := @or_fail A rid "recipe" rid in
  fail _ (lift (CookbookRepo d (rc_name recipe))) (λ dst,
  fail _ (Accepts dst) (λ _,
  fail _ (_ ← call; reading (RawManifest local (f_tag f))) (λ dgst,
  fail _ (lift (wrap_err (validationError (dst +:+ ":" +:+ rc_version recipe)) (VerifyManifest dgst))) (λ layout,
  let res status pushed := mkResolution rid "" (f_tag f) (f_tag f) dgst "" "" ""
    (dst +:+ ":" +:+ rc_version recipe) (status_name status) pushed in
  r ← attempt (Head dst (rc_version recipe));
  match r with
  | Ok existing =>
      fail _ (same_document dst (rc_version recipe) existing dgst layout.2) (λ _,
      _ ← on_item item (set_status StatusSkipped);
      _ ← resolve_row (res StatusUpToDate 0%Z);
      mret true)
  | Err e =>
      if negb (isNotFound e) then pushFailed rid "recipe" e rid
      else
        _ ← on_item item (λ it, set_digest dgst (set_status StatusRunning it));
        '(r, moved) ← metered (PushManifest local dst (f_tag f) (f_tag f));
        match r with
        | Err err => pushFailed rid "recipe" err rid
        | Ok _ =>
            '(_, signed) ← metered (pushAttachedSignatures local dst dgst);
            _ ← on_item item (λ it, set_size (add64 moved signed) (set_status StatusDone it));
            _ ← resolve_row (res StatusNew (add64 moved signed));
            mret true
        end
  end)))).

(** [promoteRecipe]: the ingredients, and then, if they all crossed, the artifact. *)
Fixpoint promote_ingredients (e : Engine) (d : Destination) (rid : string) (org : origin) (ings : list Ingredient) : eng bool :=
  match ings with
  | [] => mret true
  | ing :: ings =>
      ok ← promoteIngredient e d rid org ing;
      rest ← promote_ingredients e d rid org ings;
      mret (ok && rest)
  end.
Definition promoteRecipe (e : Engine) (f : FetchedRecipe) (recipe : Recipe) (rid : string) (org : origin) : eng bool :=
  match en_dest e with
  | None => mret false
  | Some d =>
      let fail A := @or_fail A rid "recipe" rid in
      fail _ (lift (og_stored org (f_repo f) "")) (λ local,
      fail _ (_ ← call; reading (verifyStored (en_trust e) local (f_repo f) (f_digest f)
                (f_repo f +:+ ":" +:+ f_tag f))) (λ _,
      all ← promote_ingredients e d rid org (rc_ingredients recipe);
      if negb all then mret false else propagateRecipe d f recipe local rid))
  end.
End promote.
