(* ===== verification/PromoteSafety.v ===== *)
(** Correctness of the promotion: the destination never exposes an image without its
    blobs; a recipe is published once all its ingredients are there; a published tag is
    never re-pointed; and what the pushes do not check. *)

From S2P Require Import Prelude GoStrings Relocate Policy Taxonomy Tasks MediaVerify SigKeys SigVerify Trust SigSafety.
From S2P Require Import StoreMeta StoreGC StoreSafety Prune Preflight Transfer TransferSafety Remotes Promote.

Section promote_safety.
Context `{GoRuntime, StoreIO, Documents, RecipeSDK, Upstream, Volume, KeyLib, SigCodec, Zone}.

(** * The destination *)

(** Every image the destination lists has its blobs, every tag its manifest. *)
Record dest_closed (s : DestState) : Prop := {
  dc_blobs repo d b : (repo, d) ∈ ds_manifests s → b ∈ named_blobs d → (repo, b) ∈ ds_blobs s;
  dc_tags repo tag d : ds_tags s !! (repo, tag) = Some d → (repo, d) ∈ ds_manifests s }.
Record dest_grows (s s' : DestState) : Prop := {
  dg_closed : dest_closed s';
  dg_manifests : ds_manifests s ⊆ ds_manifests s';
  dg_blobs : ds_blobs s ⊆ ds_blobs s' }.
Definition crosses (w w' : World) : Prop := dest_closed (w_dest w) → dest_grows (w_dest w) (w_dest w').
#[export] Instance crosses_preorder : PreOrder crosses.
Proof.
  split; [by intros w Hc; split|]. intros w1 w2 w3 C1 C2 Hc. destruct (C1 Hc) as [? M1 B1].
  destruct C2 as [? M2 B2]; [done|]. split; [done|set_solver..].
Qed.
#[local] Abbreviation Crosses := (Keeps crosses).

(** Whatever leaves the destination alone, and only consumes events. *)
Definition at_home (w w' : World) : Prop := w_dest w' = w_dest w ∧ w_script w' `suffix_of` w_script w.
#[export] Instance at_home_preorder : PreOrder at_home.
Proof. split; [done|]. intros w1 w2 w3 [? ?] [? ?]. split; [congruence|by etrans]. Qed.
#[export] Instance home_call : Keeps at_home call.
Proof.
  intros w. unfold call. destruct (w_script w) as [|ev evs] eqn:E; [done|].
  split; [done|]. cbn. rewrite E. by apply suffix_cons_r.
Qed.
#[export] Instance home_on_store f : Keeps at_home (on_store f).
Proof. done. Qed.
#[export] Instance home_on_task f : Keeps at_home (on_task f).
Proof. done. Qed.
#[export] Instance home_add_moved n : Keeps at_home (add_moved n).
Proof. done. Qed.
#[export] Instance home_crosses {A} (m : eng A) : Keeps at_home m → Crosses m | 20.
Proof. intros Hm w Hc. destruct (Hm w : at_home _ _) as [-> _]. by split. Qed.

#[export] Instance home_quiet b : Keeps at_home (quiet b).
Proof. unfold quiet. apply _. Qed.
#[export] Instance home_WriteBlob repo d : Keeps at_home (WriteBlob repo d).
Proof. unfold WriteBlob, HasBlob. apply _. Qed.
#[export] Instance home_PutManifest repo d tag : Keeps at_home (PutManifest repo d tag).
Proof. unfold PutManifest. apply _. Qed.
#[export] Instance home_copy_blob track repo b : Keeps at_home (copy_blob track repo b).
Proof. unfold copy_blob, HasBlob, blob_done, on_item. apply _. Qed.
#[export] Instance home_copy_blobs track repo bs : Keeps at_home (copy_blobs track repo bs).
Proof. induction bs; cbn [copy_blobs]; apply _. Qed.
#[export] Instance home_copyImage track repo tag d : Keeps at_home (copyImage track repo tag d).
Proof. unfold copyImage. apply keeps_bind; [apply _|]. intros _. destruct (doc_of d) as [[]|]; apply _. Qed.
#[export] Instance home_copy_children nested track repo selected children :
  (∀ d, Keeps at_home (nested d)) → Keeps at_home (copy_children nested track repo selected children).
Proof. intros Hn. induction children; cbn [copy_children]; unfold HasManifest; apply _. Qed.
#[export] Instance home_copyNestedIndex fuel track repo d : Keeps at_home (copyNestedIndex fuel track repo d).
Proof.
  revert d. induction fuel as [|fuel IH]; intros d; cbn [copyNestedIndex]; [apply _|].
  apply keeps_bind; [apply _|]. intros _. destruct (doc_of d) as [[]|]; apply _.
Qed.
#[export] Instance home_completeIndex r ing local : Keeps at_home (completeIndex r ing local).
Proof.
  unfold completeIndex, Get, copyIndexChildren. apply keeps_bind; [apply _|]. intros d.
  destruct (doc_of d) as [[]|]; apply _.
Qed.
#[export] Instance home_pushFailed rid suffix err subject : Keeps at_home (pushFailed rid suffix err subject).
Proof. unfold pushFailed, on_item. apply _. Qed.

(** * Pushes *)

Lemma put_blob_grows repo d s : dest_closed s → dest_grows s (put_blob repo d s).
Proof. intros [Hb Ht]. split; [split; cbn; set_solver|done|cbn; set_solver]. Qed.
Lemma put_manifest_grows repo tag d s :
  (∀ b, b ∈ named_blobs d → (repo, b) ∈ ds_blobs s) → dest_closed s → dest_grows s (put_manifest repo tag d s).
Proof.
  intros Hd [Hb Ht]. split; [|cbn; set_solver|done]. split.
  - intros repo' d' b. cbn. intros [[= -> ->]%elem_of_singleton|?]%elem_of_union ?; [by apply Hd|by eapply Hb].
  - intros repo' tag' d'. cbn. destruct (String.eqb tag ""); [intros ?%Ht; set_solver|].
    rewrite lookup_insert_Some. intros [[[= <- <-] <-]|[_ ?%Ht]]; set_solver.
Qed.
#[export] Instance crosses_push_blob local dst d : Crosses (push_blob local dst d).
Proof.
  unfold push_blob. repeat (apply keeps_bind; [apply _|intros]). apply keeps_if; [apply _|].
  repeat (apply keeps_bind; [apply _|intros]). intros w Hc. by apply put_blob_grows.
Qed.
#[export] Instance crosses_pushBlobs local dst bs : Crosses (pushBlobs local dst bs).
Proof. induction bs; cbn [pushBlobs]; apply _. Qed.
Lemma push_blob_done local dst d w w' :
  push_blob local dst d w = (Done tt, w') → (dst, d) ∈ ds_blobs (w_dest w').
Proof.
  unfold push_blob. intros (? & w1 & _ & E)%bind_Done. apply bind_Done in E as (has & w2 & [= <- <-] & E).
  destruct (bool_decide _) eqn:Hh; [injection E as <-; by apply bool_decide_eq_true in Hh|].
  do 3 apply bind_Done in E as (? & ? & _ & E). injection E as <-. cbn. set_solver.
Qed.
Lemma pushBlobs_done local dst bs w w' : dest_closed (w_dest w) →
  pushBlobs local dst bs w = (Done tt, w') → ∀ b, b ∈ bs → b ≠ "" → (dst, b) ∈ ds_blobs (w_dest w').
Proof.
  revert w. induction bs as [|b bs IH]; intros w Hc; cbn [pushBlobs]; [set_solver|].
  destruct (String.eqb_spec b "") as [->|Hb]; [intros E b' [->|?]%elem_of_cons ?; [done|by eapply IH]|].
  intros (r & w1 & E1 & E)%bind_Done.
  assert (dest_grows (w_dest w) (w_dest w1)) as G1.
  { generalize (keeps (R := crosses) (m := attempt (push_blob local dst b)) w Hc). by rewrite E1. }
  destruct r as [[]|]; [|done].
  assert (dest_grows (w_dest w1) (w_dest w')) as G2.
  { generalize (keeps (R := crosses) (m := pushBlobs local dst bs) w1 (dg_closed _ _ G1)). by rewrite E. }
  intros b' [->|Hin]%elem_of_cons Hne; [|by eapply (IH w1); eauto using dg_closed].
  apply (dg_blobs _ _ G2). unfold attempt in E1. destruct (push_blob local dst b w) as [[[]|?|] ?] eqn:Ep; simplify_eq.
  by eapply push_blob_done.
Qed.
#[export] Instance crosses_push_children push children :
  (∀ c, Crosses (push c)) → Crosses (push_children push children).
Proof. intros Hp. induction children; cbn [push_children]; apply _. Qed.
#[export] Instance crosses_read_manifest local reference : Crosses (read_manifest local reference).
Proof. unfold read_manifest. apply _. Qed.
Lemma write_manifest_crosses dst tag d w :
  (∀ b, b ∈ named_blobs d → (dst, b) ∈ ds_blobs (w_dest w)) → crosses w (write_manifest dst tag d w).2.
Proof.
  intros Hb Hc. unfold write_manifest, mbind, eng_bind, attempt.
  pose proof (proj1 (home_call w : at_home _ _)) as Hw. destruct (call w) as [[|e|] w1]; cbn in Hw |- *; rewrite ?Hw; [|by split..].
  by apply put_manifest_grows.
Qed.
#[export] Instance crosses_push_digest fuel local dst tag d : Crosses (push_digest fuel local dst tag d).
Proof.
  revert tag d. induction fuel as [|fuel IH]; intros tag d; cbn [push_digest]; [apply _|].
  intros w Hc. unfold mbind, eng_bind. destruct (doc_of d) as [[config layers|children]|] eqn:Hd; [| |by split].
  - pose proof (keeps (R := crosses) (m := pushBlobs local dst (config.1 :: (fst <$> layers))) w Hc) as G1.
    destruct (pushBlobs _ _ _ w) as [[[]|e|] w1] eqn:E; cbn in G1 |- *; [|done..].
    assert (crosses w1 (write_manifest dst tag d w1).2) as G2.
    { apply write_manifest_crosses. unfold named_blobs. rewrite Hd.
      intros b [? Hb]%list_elem_of_filter. eapply pushBlobs_done; [done..| |done].
      revert Hb. unfold image_blobs. set_solver. }
    destruct (G2 (dg_closed _ _ G1)). destruct G1. split; [done|set_solver..].
  - set (m := push_children _ _). assert (Crosses m) as Hm by (subst m; apply _).
    pose proof (Hm w Hc) as G1. destruct (m w) as [[[]|e|] w1] eqn:E; cbn in G1 |- *; [|done..].
    assert (crosses w1 (write_manifest dst tag d w1).2) as G2.
    { apply write_manifest_crosses. unfold named_blobs. rewrite Hd. intros b []%elem_of_nil. }
    destruct (G2 (dg_closed _ _ G1)). destruct G1. split; [done|set_solver..].
Qed.
#[export] Instance crosses_PushManifest local dst reference tag : Crosses (PushManifest local dst reference tag).
Proof. unfold PushManifest. apply _. Qed.

(** * Under any relation *)

(** What the promotion of a recipe is made of, for a relation that its pushes and its
    reads keep. *)
Section composed.
Context (R : relation World) `{!PreOrder R}.
Context (Hhome : ∀ A (m : eng A), Keeps at_home m → Keeps R m).
Context (Haccept : ∀ repo v, Keeps R (on_dest (accept_as repo v))).

#[local] Instance home_any {A} (m : eng A) : Keeps at_home m → Keeps R m | 20.
Proof. apply Hhome. Qed.
Lemma keeps_Accepts repo : Keeps R (Accepts repo).
Proof.
  unfold Accepts, probe. apply keeps_bind; [apply _|]. intros [[te|]|]; [apply _..|].
  apply keeps_bind; [apply _|]. intros [[]|err]; [apply Haccept|]. destruct (ge_tax err); [|apply _].
  apply keeps_if; [|apply _]. apply keeps_bind; [apply Haccept|apply _].
Qed.
Lemma keeps_or_fail {A} rid suffix subject (m : eng A) f :
  Keeps R m → (∀ a, Keeps R (f a)) → Keeps R (or_fail rid suffix subject m f).
Proof. intros. unfold or_fail. apply _. Qed.
Lemma keeps_or_fail_lift {A} rid suffix subject (r : res go_error A) f :
  (∀ a, r = Ok a → Keeps R (f a)) → Keeps R (or_fail rid suffix subject (lift r) f).
Proof.
  intros Hf. destruct r as [a|err]; [exact (Hf a eq_refl)|].
  exact (_ : Keeps R (pushFailed rid suffix err subject)).
Qed.
Lemma keeps_metered {A} (m : eng A) : Keeps R m → Keeps R (metered m).
Proof. intros. unfold metered. apply _. Qed.
Lemma keeps_push local dst reference tag :
  (∀ d, Keeps R (on_dest (put_blob dst d))) → (∀ tag d, Keeps R (on_dest (put_manifest dst tag d))) →
  Keeps R (PushManifest local dst reference tag).
Proof.
  intros Hb Hm.
  assert (∀ bs, Keeps R (pushBlobs local dst bs)) as Hbs.
  { intros bs. induction bs as [|b bs IH]; cbn [pushBlobs]; [apply _|]. apply keeps_if; [apply _|].
    apply keeps_bind; [|apply _]. apply keeps_attempt. unfold push_blob.
    repeat (apply keeps_bind; [apply _|intros]). apply keeps_if; apply _. }
  assert (∀ r, Keeps R (read_manifest local r)) as Hr by (intros; unfold read_manifest; apply _).
  assert (∀ fuel tag d, Keeps R (push_digest fuel local dst tag d)) as Hd; [|unfold PushManifest; apply _].
  intros fuel. induction fuel as [|fuel IH]; intros t d; cbn [push_digest]; [apply _|].
  apply keeps_bind; [|intros _; unfold write_manifest; apply _]. destruct (doc_of d) as [[|children]|]; [apply _| |apply _].
  induction (ch_digest <$> children); cbn [push_children]; apply _.
Qed.
Lemma keeps_signatures local dst d :
  (∀ tag, tag ∈ signatureTags d → Keeps R (PushManifest local dst tag tag)) →
  Keeps R (pushAttachedSignatures local dst d).
Proof.
  unfold pushAttachedSignatures. generalize (signatureTags d). intros tags Ht.
  induction tags as [|tag tags IH]; cbn [push_tags]; [apply _|].
  apply keeps_bind; [apply keeps_attempt, Ht; by left|]. intros _. apply IH. intros t Hin. apply Ht. by right.
Qed.
Lemma keeps_promoteIngredient e d rid org ing :
  (∀ target dst local reference tag, PathWithBase (en_base e) (ig_ref ing) = Ok target → DestRepository d target = Ok dst →
     Keeps R (PushManifest local dst reference tag)) →
  Keeps R (promoteIngredient e d rid org ing).
Proof.
  intros Hp. unfold promoteIngredient. cbv zeta.
  apply keeps_or_fail; [apply _|]. intros local. apply keeps_or_fail_lift. intros dst Ed.
  assert (∀ local reference tag, Keeps R (PushManifest local dst reference tag)) as Hpush.
  { unfold relocated in Ed. destruct (PathWithBase _ _) as [target|] eqn:Et; [|done]. cbn in Ed. intros. by eapply Hp. }
  apply keeps_or_fail; [apply keeps_Accepts|]. intros _.
  apply keeps_or_fail; [apply _|]. intros _. apply keeps_or_fail; [unfold DestStatus, Head; apply _|]. intros status.
  apply keeps_decide; [unfold on_item, resolve_row; apply _|].
  apply keeps_bind; [unfold on_item; apply _|]. intros _.
  apply keeps_bind; [apply keeps_metered; unfold push_ingredient; apply _|]. intros [[[]|err] moved]; [|apply _].
  apply keeps_bind; [apply keeps_metered, keeps_signatures; intros; apply Hpush|]. intros [_ signed].
  unfold on_item, resolve_row. apply _.
Qed.
Lemma keeps_promote_ingredients e d rid org ings :
  (∀ ing target dst local reference tag, ing ∈ ings →
     PathWithBase (en_base e) (ig_ref ing) = Ok target → DestRepository d target = Ok dst →
     Keeps R (PushManifest local dst reference tag)) →
  Keeps R (promote_ingredients e d rid org ings).
Proof.
  induction ings as [|ing ings IH]; intros Hp; cbn [promote_ingredients]; [apply _|].
  apply keeps_bind; [apply keeps_promoteIngredient; intros; eapply Hp; eauto; by left|]. intros ok.
  apply keeps_bind; [|apply _]. apply IH. intros. eapply Hp; eauto. by right.
Qed.
Lemma keeps_propagateRecipe d f recipe local rid :
  (∀ dst local reference tag, CookbookRepo d (rc_name recipe) = Ok dst → Keeps R (PushManifest local dst reference tag)) →
  Keeps R (propagateRecipe d f recipe local rid).
Proof.
  intros Hp. unfold propagateRecipe. cbv zeta. apply keeps_or_fail_lift. intros dst Hd.
  apply keeps_or_fail; [apply keeps_Accepts|]. intros _. apply keeps_or_fail; [apply _|]. intros dgst.
  apply keeps_or_fail; [apply _|]. intros layout.
  apply keeps_bind; [unfold Head; apply _|]. intros [existing|err].
  - apply keeps_or_fail; [unfold same_document, Head|unfold on_item, resolve_row; apply _].
    apply keeps_if; [apply _|]. apply keeps_bind; [apply _|]. intros x. destruct (VerifyManifest x) as [[]|]; apply _.
  - apply keeps_if; [apply _|]. apply keeps_bind; [unfold on_item; apply _|]. intros _.
    apply keeps_bind; [by apply keeps_metered, Hp|]. intros [[[]|err'] moved]; [|apply _].
    apply keeps_bind; [|intros []; unfold on_item, resolve_row; apply _].
    apply keeps_metered, keeps_signatures. intros. by apply Hp.
Qed.
(** The repositories a promotion writes to. *)
Definition writes_to (e : Engine) (recipe : Recipe) (dst : string) : Prop :=
  ∃ d, en_dest e = Some d ∧
    (CookbookRepo d (rc_name recipe) = Ok dst ∨
     ∃ ing target, ing ∈ rc_ingredients recipe ∧ PathWithBase (en_base e) (ig_ref ing) = Ok target ∧ DestRepository d target = Ok dst).
Lemma keeps_promoteRecipe_at e f recipe rid org :
  (∀ local dst reference tag, writes_to e recipe dst → Keeps R (PushManifest local dst reference tag)) →
  Keeps R (promoteRecipe e f recipe rid org).
Proof.
  intros Hp. unfold promoteRecipe. cbv zeta. destruct (en_dest e) as [d|] eqn:Hd; [|apply _].
  apply keeps_or_fail; [apply _|]. intros local. apply keeps_or_fail; [apply _|]. intros _.
  apply keeps_bind.
  { apply keeps_promote_ingredients. intros. apply Hp. exists d. split; [done|]. right. eauto. }
  intros []; [|apply _]. apply keeps_propagateRecipe. intros. apply Hp. exists d. eauto.
Qed.
Lemma keeps_promoteRecipe e f recipe rid org :
  (∀ local dst reference tag, Keeps R (PushManifest local dst reference tag)) →
  Keeps R (promoteRecipe e f recipe rid org).
Proof. intros Hp. apply keeps_promoteRecipe_at. auto. Qed.
End composed.

(** * The theorems *)

#[export] Instance crosses_accept repo v : Crosses (on_dest (accept_as repo v)).
Proof. intros w [? ?]. by split. Qed.
(** C22: the destination never exposes an image it cannot serve. Whatever its calls
    meet and wherever it stops, the promotion of a recipe leaves a closed destination
    closed (every image manifest it lists has its configuration and layers, every tag
    its manifest) and takes nothing away from it. *)
Theorem promotion_keeps_destination_closed e f recipe rid org w
    (Hc : dest_closed (w_dest w)) :
  dest_grows (w_dest w) (w_dest (promoteRecipe e f recipe rid org w).2).
Proof.
  assert (Crosses (promoteRecipe e f recipe rid org)) as Hx; [|by apply (Hx w)].
  apply (keeps_promoteRecipe crosses); apply _.
Qed.

(** ** A published tag *)

(** A destination that does not deny what it holds, and a tag of it that stays. *)
Definition truthful (w : World) : Prop :=
  Forall (λ ev, match ev_fault ev with Some (Fails e) => isNotFound e = false | _ => True end) (w_script w).
Definition holds_tag (key : string * string) (w w' : World) : Prop :=
  (truthful w → truthful w') ∧ ds_tags (w_dest w') !! key = ds_tags (w_dest w) !! key.
#[local] Instance holds_preorder key : PreOrder (holds_tag key).
Proof.
  split; [done|]. intros w1 w2 w3 [T1 E1] [T2 E2]. split; [auto|congruence].
Qed.
Lemma holds_home key {A} (m : eng A) : Keeps at_home m → Keeps (holds_tag key) m.
Proof.
  intros Hm w. destruct (Hm w : at_home _ _) as [Hd [l Hl]]. split; [|by rewrite Hd]. intros Ht.
  unfold truthful in *. rewrite Hl in Ht. by apply Forall_app in Ht as [_ ?].
Qed.
Lemma holds_accept key repo v : Keeps (holds_tag key) (on_dest (accept_as repo v)).
Proof. done. Qed.
#[local] Instance holds_any key {A} (m : eng A) : Keeps at_home m → Keeps (holds_tag key) m | 20.
Proof. apply holds_home. Qed.
#[local] Instance holds_pushBlobs key local dst bs : Keeps (holds_tag key) (pushBlobs local dst bs).
Proof.
  induction bs as [|b bs IH]; cbn [pushBlobs]; [apply _|]. apply keeps_if; [apply _|].
  apply keeps_bind; [|apply _]. apply keeps_attempt. unfold push_blob.
  repeat (apply keeps_bind; [apply _|intros]). apply keeps_if; [apply _|].
  by repeat (apply keeps_bind; [apply _|intros]).
Qed.
#[local] Instance holds_read key local reference : Keeps (holds_tag key) (read_manifest local reference).
Proof. unfold read_manifest. apply _. Qed.
Lemma holds_write key dst tag d : tag = "" ∨ (dst, tag) ≠ key → Keeps (holds_tag key) (write_manifest dst tag d).
Proof.
  intros Hk. unfold write_manifest. apply keeps_bind; [apply _|]. intros [[]|err]; [|apply _].
  intros w. split; [done|]. cbn. destruct (String.eqb_spec tag ""); [done|].
  destruct Hk; [done|]. by rewrite lookup_insert_ne.
Qed.
Lemma holds_push_digest key fuel local dst tag d :
  tag = "" ∨ (dst, tag) ≠ key → Keeps (holds_tag key) (push_digest fuel local dst tag d).
Proof.
  revert tag d. induction fuel as [|fuel IH]; intros tag d Hk; cbn [push_digest]; [apply _|].
  apply keeps_bind; [|intros _; by apply holds_write]. destruct (doc_of d) as [[|children]|]; [apply _| |apply _].
  assert (∀ c, Keeps (holds_tag key) (d ← read_manifest local c; push_digest fuel local dst "" d)).
  { intros c. apply keeps_bind; [apply _|]. intros. apply IH. by left. }
  induction (ch_digest <$> children); cbn [push_children]; apply _.
Qed.
Lemma holds_PushManifest key local dst reference tag :
  (dst, tag) ≠ key → Keeps (holds_tag key) (PushManifest local dst reference tag).
Proof. intros Hk. unfold PushManifest. apply keeps_bind; [apply _|]. intros. apply holds_push_digest. by right. Qed.

Lemma holds_or_fail key {A} rid suffix subject (m : eng A) (f : A → eng bool) w : Keeps (holds_tag key) m →
  (∀ a w1, m w = (Done a, w1) → holds_tag key w w1 → holds_tag key w1 (f a w1).2) →
  holds_tag key w (or_fail rid suffix subject m f w).2.
Proof.
  intros Hm Hf. unfold or_fail, mbind, eng_bind, attempt. pose proof (Hm w : holds_tag _ w (m w).2) as Ho.
  destruct (m w) as [[a|err|] w1] eqn:E; cbn in Ho; [etrans; [exact Ho|by apply Hf]| |done].
  etrans; [exact Ho|]. apply (holds_home key (pushFailed rid suffix err subject)). apply _.
Qed.
(** With the tag there, the head answers it or fails otherwise. *)
Lemma Head_present repo tag x w r w1 : truthful w → ds_tags (w_dest w) !! (repo, tag) = Some x →
  attempt (Head repo tag) w = (Done r, w1) → match r with Ok d => d = x | Err e => isNotFound e = false end.
Proof.
  intros Ht Hx. unfold attempt, Head, mbind, eng_bind, call, gets. unfold truthful in Ht.
  destruct (w_script w) as [|ev evs] eqn:E; cbn; [rewrite Hx; by intros [= <- <-]|].
  inversion Ht as [|? ? Hev _]; subst. destruct (ev_fault ev) as [[err|]|]; cbn; [by intros [= <- <-]|done|].
  rewrite Hx. by intros [= <- <-].
Qed.

Lemma propagate_holds d f recipe local rid dst x w :
  CookbookRepo d (rc_name recipe) = Ok dst → ds_tags (w_dest w) !! (dst, rc_version recipe) = Some x → truthful w →
  holds_tag (dst, rc_version recipe) w (propagateRecipe d f recipe local rid w).2.
Proof.
  intros Hd Hx Ht. unfold propagateRecipe. cbv zeta. set (key := (dst, rc_version recipe)) in *. rewrite Hd.
  apply holds_or_fail; [apply _|]. intros ? w1 [= <- <-] _.
  apply holds_or_fail; [apply keeps_Accepts; [apply _|apply holds_home|apply holds_accept]|]. intros _ w1 _ [T1%(λ f, f Ht) X1].
  apply holds_or_fail; [apply _|]. intros dgst w2 _ [T2%(λ f, f T1) X2].
  apply holds_or_fail; [apply _|]. intros layout w3 _ [T3%(λ f, f T2) X3].
  assert (ds_tags (w_dest w3) !! key = Some x) as Hx3 by congruence.
  unfold mbind at 1, eng_bind at 1.
  assert (Keeps (holds_tag key) (attempt (Head dst (rc_version recipe)))) as Hk by (unfold Head; apply _).
  pose proof (Hk w3 : holds_tag _ _ _) as H4'. pose proof (Head_present dst (rc_version recipe) x w3) as Hp.
  destruct (attempt (Head dst (rc_version recipe)) w3) as [[r|err|] w4]; cbn [snd] in H4' |- *; [|done..].
  etrans; [exact H4'|]. specialize (Hp r w4 T3 Hx3 eq_refl). destruct r as [existing|err].
  - apply keeps_or_fail; [apply _|apply holds_home|unfold same_document, Head|unfold on_item, resolve_row; apply _].
    apply keeps_if; [apply _|]. apply keeps_bind; [apply _|]. intros y. destruct (VerifyManifest y) as [[]|]; apply _.
  - rewrite Hp. cbn [negb]. apply (holds_home key (pushFailed rid "recipe" err rid)). apply _.
Qed.

(** C21: a published tag is never re-pointed. When the zone's cookbook already has the
    recipe's tag, then after a promotion, whatever its outcome, the tag points where it
    did: the same document is left alone, another is a conflict. The destination must
    not deny a tag it holds, and no ingredient may be relocated into the cookbook
    repository itself. *)
Theorem published_tag_immutable e f recipe rid org d dst x w
    (Hd : en_dest e = Some d) (Hdst : CookbookRepo d (rc_name recipe) = Ok dst)
    (Hx : ds_tags (w_dest w) !! (dst, rc_version recipe) = Some x) (Ht : truthful w)
    (Hing : ∀ ing target, ing ∈ rc_ingredients recipe → PathWithBase (en_base e) (ig_ref ing) = Ok target →
       DestRepository d target ≠ Ok dst) :
  ds_tags (w_dest (promoteRecipe e f recipe rid org w).2) !! (dst, rc_version recipe) = Some x.
Proof.
  set (key := (dst, rc_version recipe)) in *.
  assert (holds_tag key w (promoteRecipe e f recipe rid org w).2) as Hh; [|by rewrite (proj2 Hh)].
  unfold promoteRecipe. cbv zeta. rewrite Hd.
  apply holds_or_fail; [apply _|]. intros local w1 _ [T1%(λ f, f Ht) X1].
  apply holds_or_fail; [apply _|]. intros _ w2 _ [T2%(λ f, f T1) X2].
  assert (Keeps (holds_tag key) (promote_ingredients e d rid org (rc_ingredients recipe))) as Hk.
  { apply keeps_promote_ingredients; [apply _|apply holds_home|apply holds_accept|].
    intros ing target dst' l r t Hin Htar Hdst'. apply holds_PushManifest. intros [= -> _]. by eapply Hing. }
  unfold mbind, eng_bind. pose proof (Hk w2 : holds_tag _ _ _) as H3'.
  destruct (promote_ingredients e d rid org (rc_ingredients recipe) w2) as [[ok|err|] w3]; cbn [snd] in H3' |- *; [|done..].
  etrans; [exact H3'|]. destruct H3' as [T3%(λ f, f T2) X3]. destruct ok; cbn [negb]; [|done].
  apply (propagate_holds d f recipe local rid dst x); [done|fold key; congruence|done].
Qed.

(** ** Published last *)

Lemma cross_run {A} (m : eng A) `{!Crosses m} w o w' :
  m w = (o, w') → dest_closed (w_dest w) → dest_grows (w_dest w) (w_dest w').
Proof. intros E Hc. generalize (keeps (R := crosses) w Hc). by rewrite E. Qed.
Lemma or_fail_true {A} rid suffix subject (m : eng A) f w w' :
  or_fail rid suffix subject m f w = (Done true, w') → ∃ a w1, m w = (Done a, w1) ∧ f a w1 = (Done true, w').
Proof.
  unfold or_fail, mbind, eng_bind, attempt. destruct (m w) as [[a|err|] w1]; [|by intros [=]|done]. eauto.
Qed.
Lemma lift_Done {A} (r : res go_error A) w a w' : lift r w = (Done a, w') → r = Ok a ∧ w' = w.
Proof. destruct r; intros [=]; by subst. Qed.
Lemma home_run {A} (m : eng A) `{!Keeps at_home m} w o w' : m w = (o, w') → w_dest w' = w_dest w.
Proof. intros E. generalize (keeps (R := at_home) w : at_home _ _). rewrite E. by intros [? _]. Qed.
Lemma or_fail_home {A} rid suffix subject (m : eng A) f w o w' :
  or_fail rid suffix subject m f w = (o, w') → Keeps at_home m →
  (∃ a w1, m w = (Done a, w1) ∧ f a w1 = (o, w')) ∨ o ≠ Done true ∧ w_dest w' = w_dest w.
Proof.
  unfold or_fail, mbind, eng_bind, attempt. intros E Hm. pose proof (home_run m w) as Hh.
  destruct (m w) as [[a|err|] w1]; [eauto|right..]; injection E as <- <-; (split; [done|]); cbn; by eapply Hh.
Qed.
(** Tags may move, and none is removed. *)
Definition keeps_tags (w w' : World) : Prop :=
  ∀ key, is_Some (ds_tags (w_dest w) !! key) → is_Some (ds_tags (w_dest w') !! key).
#[export] Instance keeps_tags_preorder : PreOrder keeps_tags.
Proof. split; [by intros w key|]. intros w1 w2 w3 K1 K2 key ?. by apply K2, K1. Qed.
Lemma tags_home A (m : eng A) : Keeps at_home m → Keeps keeps_tags m.
Proof. intros Hm w key. destruct (Hm w : at_home _ _) as [-> _]. done. Qed.
#[export] Instance tags_home_any {A} (m : eng A) : Keeps at_home m → Keeps keeps_tags m | 20.
Proof. apply tags_home. Qed.
#[export] Instance tags_accept repo v : Keeps keeps_tags (on_dest (accept_as repo v)).
Proof. by intros w key. Qed.
#[export] Instance tags_put_manifest repo tag d : Keeps keeps_tags (on_dest (put_manifest repo tag d)).
Proof.
  intros w key. cbn. destruct (String.eqb tag ""); [done|]. intros Hs.
  destruct (decide ((repo, tag) = key)) as [<-|Hne]; [rewrite lookup_insert_eq; by eexists|by rewrite lookup_insert_ne].
Qed.
#[export] Instance tags_put_blob repo d : Keeps keeps_tags (on_dest (put_blob repo d)).
Proof. by intros w key. Qed.
#[export] Instance tags_PushManifest local dst reference tag : Keeps keeps_tags (PushManifest local dst reference tag).
Proof. apply (keeps_push keeps_tags tags_home); apply _. Qed.
Ltac cstep E a w E1 G1 :=
  apply or_fail_true in E as (a & w & E1 & E);
  pose proof (cross_run _ _ _ _ E1 ltac:(eauto using dg_closed)) as G1.

Lemma push_digest_done fuel local dst tag d w w' :
  push_digest fuel local dst tag d w = (Done tt, w') →
  (dst, d) ∈ ds_manifests (w_dest w') ∧ (tag ≠ "" → ds_tags (w_dest w') !! (dst, tag) = Some d).
Proof.
  destruct fuel as [|fuel]; cbn [push_digest]; [done|]. intros (? & w1 & _ & E)%bind_Done.
  unfold write_manifest in E. apply bind_Done in E as ([[]|err] & w2 & _ & E); [|done].
  injection E as <-. cbn. split; [set_solver|]. intros Ht. destruct (String.eqb_spec tag ""); [done|].
  by rewrite lookup_insert_eq.
Qed.
Lemma read_manifest_done local reference w d w' :
  read_manifest local reference w = (Done d, w') → RawManifest local reference (w_store w') = Ok d.
Proof.
  unfold read_manifest. intros (r & w1 & E1 & E)%bind_Done. destruct r as [x|]; [|done]. injection E as <- <-.
  unfold attempt in E1. destruct ((_ ← call; _) w) as [[y|?|] w2] eqn:E2; simplify_eq.
  apply bind_Done in E2 as (? & w3 & _ & E2). unfold reading, lift in E2.
  destruct (RawManifest local reference (w_store w3)) eqn:E3; by simplify_eq.
Qed.
Lemma RawManifest_digest local reference st d :
  digest_ok reference = true → RawManifest local reference st = Ok d → d = reference.
Proof.
  intros Hd. unfold RawManifest, manifest_ref. rewrite Hd. destruct (negb _); [done|].
  destruct (_ && _); [|done]. congruence.
Qed.
Lemma PushManifest_done local dst reference tag w w' : digest_ok reference = true →
  PushManifest local dst reference tag w = (Done tt, w') → (dst, reference) ∈ ds_manifests (w_dest w').
Proof.
  intros Hr (d & w1 & E1 & E)%bind_Done. apply read_manifest_done, RawManifest_digest in E1 as ->; [|done].
  by apply push_digest_done in E as [? _].
Qed.
#[local] Instance crosses_push_ingredient e org ing local dst : Crosses (push_ingredient e org ing local dst).
Proof. unfold push_ingredient. apply _. Qed.
Lemma push_ingredient_done e org ing local dst w w' : digest_ok (ig_digest ing) = true →
  push_ingredient e org ing local dst w = (Done tt, w') → (dst, ig_digest ing) ∈ ds_manifests (w_dest w').
Proof.
  intros Hd. unfold push_ingredient. intros (r & w1 & E1 & E)%bind_Done. destruct r as [[]|err].
  - injection E as <-. unfold attempt in E1. destruct (withRetries _ _ _ _ w) as [[[]|?|] w2] eqn:Er; simplify_eq.
    apply (withRetries_attempt (R := crosses)) in Er as (w3 & _ & Er); [|apply _]. by eapply PushManifest_done.
  - destruct (og_upstream org && _); [|done]. apply bind_Done in E as (? & w2 & _ & E).
    apply (withRetries_attempt (R := crosses)) in E as (w3 & _ & E); [|apply _]. by eapply PushManifest_done.
Qed.
#[local] Instance crosses_signatures local dst d : Crosses (pushAttachedSignatures local dst d).
Proof. apply (keeps_signatures crosses); intros; apply _. Qed.
#[local] Instance crosses_metered {A} (m : eng A) : Crosses m → Crosses (metered m).
Proof. intros. apply (keeps_metered crosses); intros; apply _. Qed.
#[local] Instance crosses_Accepts repo : Crosses (Accepts repo).
Proof. apply (keeps_Accepts crosses); intros; apply _. Qed.
#[local] Instance crosses_DestStatus repo tag want : Crosses (DestStatus repo tag want).
Proof. unfold DestStatus, Head. apply _. Qed.
Lemma DestStatus_current repo tag want w w' :
  DestStatus repo tag want w = (Done StatusUpToDate, w') → ds_tags (w_dest w') !! (repo, tag) = Some want.
Proof.
  unfold DestStatus. intros (r & w1 & E1 & E)%bind_Done. unfold attempt in E1.
  destruct (Head repo tag w) as [[d|?|] w2] eqn:Eh; simplify_eq; [|by destruct (isNotFound _)].
  destruct (String.eqb_spec d want) as [->|]; [|done]. injection E as <-.
  unfold Head in Eh. apply bind_Done in Eh as (? & w3 & _ & Eh). apply bind_Done in Eh as (o & w4 & [= <- <-] & Eh).
  destruct (ds_tags _ !! _) eqn:El; [|done]. by injection Eh as -> ->.
Qed.
Lemma metered_Ok {A} (m : eng A) w a n w' : metered m w = (Done (Ok a, n), w') → m w = (Done a, w').
Proof.
  unfold metered. intros (b & w1 & [= <- <-] & E)%bind_Done. apply bind_Done in E as (r' & w2 & E & E').
  apply bind_Done in E' as (x & w3 & [= <- <-] & [= -> _ <-]).
  unfold attempt in E. destruct (m w) as [[]]; by simplify_eq.
Qed.
Lemma promoteIngredient_done e d rid org ing w w' : dest_closed (w_dest w) → digest_ok (ig_digest ing) = true →
  promoteIngredient e d rid org ing w = (Done true, w') →
  ∃ target dst, PathWithBase (en_base e) (ig_ref ing) = Ok target ∧ DestRepository d target = Ok dst ∧
    (dst, ig_digest ing) ∈ ds_manifests (w_dest w').
Proof.
  intros Hc Hd E. unfold promoteIngredient in E. cbv zeta in E.
  cstep E local w1 E1 G1. cstep E dst w2 E2 G2. cstep E a3 w3 E3 G3. cstep E a4 w4 E4 G4. cstep E status w5 E5 G5.
  assert (∃ target, PathWithBase (en_base e) (ig_ref ing) = Ok target ∧ DestRepository d target = Ok dst) as (target & ? & ?).
  { clear -E2. unfold lift, relocated in E2. destruct (PathWithBase (en_base e) (ig_ref ing)) as [t|]; [|done].
    cbn in E2. exists t. split; [done|]. destruct (DestRepository d t); by simplify_eq. }
  exists target, dst. split_and!; [done..|].
  destruct (decide (status = StatusUpToDate)) as [->|Hne].
  - apply DestStatus_current, (dc_tags _ (dg_closed _ _ G5)) in E5.
    apply bind_Done in E as (? & ? & [= _ <-] & E). apply bind_Done in E as (? & ? & [= _ <-] & E). injection E as <-. exact E5.
  - apply bind_Done in E as (? & w6 & E6 & E). injection E6 as _ <-. apply bind_Done in E as ([r moved] & w7 & E7 & E).
    destruct r as [[]|err]; [|done]. apply metered_Ok, (push_ingredient_done _ _ _ _ _ _ _ Hd) in E7 as Hin.
    assert (dest_closed (w_dest w7)) as Hc7.
    { eapply dg_closed, (cross_run _ _ _ _ E7). apply G5. }
    apply bind_Done in E as ([u signed] & w8 & E8 & E). apply (dg_manifests _ _ (cross_run _ _ _ _ E8 Hc7)) in Hin.
    apply bind_Done in E as (? & ? & [= _ <-] & E). apply bind_Done in E as (? & ? & [= _ <-] & E). injection E as <-. exact Hin.
Qed.
#[local] Instance crosses_promoteIngredient e d rid org ing : Crosses (promoteIngredient e d rid org ing).
Proof. apply (keeps_promoteIngredient crosses); intros; apply _. Qed.
#[local] Instance crosses_promote_ingredients e d rid org ings : Crosses (promote_ingredients e d rid org ings).
Proof. induction ings; cbn [promote_ingredients]; apply _. Qed.
#[local] Instance crosses_propagateRecipe d f recipe local rid : Crosses (propagateRecipe d f recipe local rid).
Proof. apply (keeps_propagateRecipe crosses); intros; apply _. Qed.
Lemma promote_ingredients_done e d rid org ings w w' : dest_closed (w_dest w) →
  (∀ ing, ing ∈ ings → digest_ok (ig_digest ing) = true) →
  promote_ingredients e d rid org ings w = (Done true, w') →
  ∀ ing, ing ∈ ings → ∃ target dst, PathWithBase (en_base e) (ig_ref ing) = Ok target ∧
    DestRepository d target = Ok dst ∧ (dst, ig_digest ing) ∈ ds_manifests (w_dest w').
Proof.
  revert w. induction ings as [|ing ings IH]; intros w Hc Hd; cbn [promote_ingredients]; [set_solver|].
  intros (ok & w1 & E1 & E)%bind_Done. apply bind_Done in E as (rest & w2 & E2 & [= Hb <-]).
  apply andb_true_iff in Hb as [-> ->]. pose proof (cross_run _ _ _ _ E1 Hc) as G1.
  pose proof (cross_run _ _ _ _ E2 (dg_closed _ _ G1)) as G2.
  intros x [->|Hin]%elem_of_cons; [|eapply (IH w1); eauto using dg_closed; set_solver].
  apply promoteIngredient_done in E1 as (target & dst & ? & ? & Hm); [|done|apply Hd; by left].
  exists target, dst. split_and!; [done..|]. by apply (dg_manifests _ _ G2).
Qed.

(** A promotion that reports success has delivered the ingredients, and the recipe's
    tag is there. *)
Lemma propagate_true d f recipe local rid w w' :
  propagateRecipe d f recipe local rid w = (Done true, w') → f_tag f = rc_version recipe → f_tag f ≠ "" →
  ∃ dst, CookbookRepo d (rc_name recipe) = Ok dst ∧ is_Some (ds_tags (w_dest w') !! (dst, rc_version recipe)).
Proof.
  intros E Htag Hne. unfold propagateRecipe in E. cbv zeta in E.
  apply or_fail_true in E as (dst & w1 & [Hd ->]%lift_Done & E). exists dst. split; [done|].
  apply or_fail_true in E as (? & w2 & _ & E). apply or_fail_true in E as (dgst & w3 & _ & E).
  apply or_fail_true in E as (layout & w4 & _ & E). apply bind_Done in E as (r & w5 & E5 & E).
  destruct r as [existing|err].
  - unfold attempt in E5. destruct (Head dst (rc_version recipe) _) as [[y|?|] w6] eqn:Eh; simplify_eq.
    unfold Head in Eh. apply bind_Done in Eh as (? & w7 & _ & Eh). apply bind_Done in Eh as (o & w8 & [= <- <-] & Eh).
    destruct (ds_tags (w_dest w7) !! (dst, rc_version recipe)) as [z|] eqn:El; [|done]. injection Eh as -> ->.
    apply or_fail_true in E as (? & w6 & E6 & E).
    apply bind_Done in E as (? & ? & [= _ <-] & E). apply bind_Done in E as (? & ? & [= _ <-] & E). injection E as <-. cbn.
    assert (Keeps at_home (same_document dst (rc_version recipe) existing dgst layout.2)) as Hk.
    { unfold same_document, Head. apply keeps_if; [apply _|]. apply keeps_bind; [apply _|]. intros y.
      destruct (VerifyManifest y) as [[]|]; apply _. }
    apply home_run in E6 as ->; [|done]. by rewrite El.
  - destruct (negb (isNotFound err)); [done|]. apply bind_Done in E as (? & w6 & [= _ <-] & E).
    apply bind_Done in E as ([r moved] & w7 & E7 & E). destruct r as [[]|]; [|done].
    apply metered_Ok in E7. apply bind_Done in E7 as (dg & w8 & _ & [_ Ht]%push_digest_done).
    specialize (Ht Hne). rewrite Htag in Ht.
    apply bind_Done in E as ([u signed] & w9 & E9 & E).
    assert (keeps_tags w7 w9) as Hk.
    { generalize (keeps (R := keeps_tags) (m := metered (pushAttachedSignatures local dst dgst)) w7). by rewrite E9. }
    apply bind_Done in E as (? & ? & [= _ <-] & E). apply bind_Done in E as (? & ? & [= _ <-] & E). injection E as <-. cbn.
    by apply Hk.
Qed.
Lemma promote_true e f recipe rid org d w w' : en_dest e = Some d → dest_closed (w_dest w) →
  (∀ ing, ing ∈ rc_ingredients recipe → digest_ok (ig_digest ing) = true) →
  f_tag f = rc_version recipe → f_tag f ≠ "" →
  promoteRecipe e f recipe rid org w = (Done true, w') →
  (∀ ing, ing ∈ rc_ingredients recipe → ∃ target dst, PathWithBase (en_base e) (ig_ref ing) = Ok target ∧
     DestRepository d target = Ok dst ∧ (dst, ig_digest ing) ∈ ds_manifests (w_dest w')) ∧
  ∃ dst, CookbookRepo d (rc_name recipe) = Ok dst ∧ is_Some (ds_tags (w_dest w') !! (dst, rc_version recipe)).
Proof.
  intros Hd Hc Hing Htag Hne E. unfold promoteRecipe in E. cbv zeta in E. rewrite Hd in E.
  apply or_fail_true in E as (local & w1 & E1 & E). apply or_fail_true in E as (? & w2 & E2 & E).
  apply home_run in E1; [|apply _]. apply home_run in E2; [|apply _].
  apply bind_Done in E as ([] & w3 & E3 & E); [|done].
  assert (dest_closed (w_dest w2)) as Hc2 by congruence.
  pose proof (cross_run _ _ _ _ E3 Hc2) as G3. pose proof (cross_run _ _ _ _ E (dg_closed _ _ G3)) as G4. split.
  - intros ing Hin. destruct (promote_ingredients_done _ _ _ _ _ _ _ Hc2 Hing E3 ing Hin) as (target & dst & ? & ? & Hm).
    exists target, dst. split_and!; [done..|]. by apply (dg_manifests _ _ G4).
  - exact (propagate_true _ _ _ _ _ _ _ E Htag Hne).
Qed.

(** What the verification of a local copy accepts: a signature over the digest that the
    store holds, by a key of the policy's decision; or, when the decision admits unsigned
    recipes, no key to look with or no signature artifact. *)
Definition accepted_copy (trust : TrustPolicy) (local nominal digest : string) (st : Store) : Prop :=
  let dec := Decide trust nominal in
  let src := storeManifests local st in
  (∃ keys fp, dc_keys dec = Some keys ∧ vouched_on src local keys digest fp) ∨
  dc_allow_unsigned dec = true ∧ (dc_keys dec = None ∨ unsigned_on src local digest).
Lemma verifyStored_accepted trust local nominal digest subject st :
  verifyStored trust local nominal digest subject st = Ok tt → accepted_copy trust local nominal digest st.
Proof.
  unfold verifyStored, accepted_copy. destruct (dc_keys (Decide trust nominal)) as [keys|].
  - destruct (sigverify_Verify _ _ _ _) as [fp| | | |] eqn:E; try done.
    + intros _. left. exists keys, fp. split; [done|]. by apply sigverify_Verify_found.
    + destruct (dc_allow_unsigned _); [|done]. intros _. right. split; [done|]. right.
      apply absent_iff_unsigned in E as (_ & hex & ? & ? & _ & Hall). exists hex. split_and!; [done..|].
      intros d Hd. by apply Hall.
  - destruct (dc_allow_unsigned _); [|done]. intros _. right. split; [done|by left].
Qed.

(** C20: a recipe is published after its ingredients. Let a promotion report success, or,
    however it ended, let the recipe's tag in the zone's cookbook change. Then every
    ingredient is at the destination under its pinned digest, in the repository its
    reference relocates to. And the run went in this order: after its first call, with the
    destination untouched, the recipe's digest was accepted over the local copy in the store
    of that moment; from that very state all the ingredients were pushed with success; only
    then was the recipe propagated. Accepted means that a key of the policy's decision
    verifies a signature held there, or that the decision admits unsigned recipes and has no
    key or the copy holds no signature. Conditions: the destination is closed at the start
    (listed images have their blobs, tags their manifest), the pinned digests are well
    formed, and no ingredient relocates into the cookbook's repository. *)
Theorem published_after_ingredients e f recipe rid org d dst w o w'
    (Hd : en_dest e = Some d) (Hc : dest_closed (w_dest w))
    (Hing : ∀ ing, ing ∈ rc_ingredients recipe → digest_ok (ig_digest ing) = true)
    (Hrepo : ∀ ing target, ing ∈ rc_ingredients recipe → PathWithBase (en_base e) (ig_ref ing) = Ok target →
       DestRepository d target ≠ Ok dst)
    (E : promoteRecipe e f recipe rid org w = (o, w'))
    (Hpub : o = Done true ∨ ds_tags (w_dest w') !! (dst, rc_version recipe) ≠ ds_tags (w_dest w) !! (dst, rc_version recipe)) :
  (∀ ing, ing ∈ rc_ingredients recipe →
     ∃ target dst, PathWithBase (en_base e) (ig_ref ing) = Ok target ∧ DestRepository d target = Ok dst ∧
       (dst, ig_digest ing) ∈ ds_manifests (w_dest w')) ∧
  ∃ local w1 w2, og_stored org (f_repo f) "" = Ok local ∧ call w = (Done tt, w1) ∧ w_dest w1 = w_dest w ∧
    accepted_copy (en_trust e) local (f_repo f) (f_digest f) (w_store w1) ∧
    promote_ingredients e d rid org (rc_ingredients recipe) w1 = (Done true, w2) ∧
    propagateRecipe d f recipe local rid w2 = (o, w').
Proof.
  unfold promoteRecipe in E. cbv zeta in E. rewrite Hd in E.
  apply or_fail_home in E as [(local & w1 & E1 & E)|[Ho Hw]]; [|destruct Hpub; congruence|apply _].
  apply or_fail_home in E as [(u & w2 & E2 & E)|[Ho Hw]]; [| |apply _].
  2: { apply lift_Done in E1 as [_ ->]. destruct Hpub; congruence. }
  apply lift_Done in E1 as [Hl ->].
  assert (w_dest w2 = w_dest w) as Hw2 by (apply (home_run _ _ _ _ E2)).
  assert (∃ w3, promote_ingredients e d rid org (rc_ingredients recipe) w2 = (Done true, w3) ∧
    propagateRecipe d f recipe local rid w3 = (o, w')) as (w3 & E3 & E4).
  { assert (Keeps (holds_tag (dst, rc_version recipe)) (promote_ingredients e d rid org (rc_ingredients recipe))) as Hk.
    { apply keeps_promote_ingredients; [apply _|apply holds_home|apply holds_accept|].
      intros ing target dst' l r t Hin Htar Hdst'. apply holds_PushManifest. intros [= -> _]. by eapply Hrepo. }
    pose proof (Hk w2 : holds_tag _ _ _) as [_ Hsame]. unfold mbind, eng_bind in E.
    destruct (promote_ingredients e d rid org (rc_ingredients recipe) w2) as [[[]|err|] w3]; cbn [snd] in Hsame; [eauto|..];
      injection E as <- <-; (destruct Hpub as [[=]|[]]; congruence). }
  assert (dest_closed (w_dest w2)) as Hc2 by congruence.
  pose proof (cross_run _ _ _ _ E3 Hc2) as G3. pose proof (cross_run _ _ _ _ E4 (dg_closed _ _ G3)) as G4. split.
  - intros ing Hin. destruct (promote_ingredients_done _ _ _ _ _ _ _ Hc2 Hing E3 ing Hin)
      as (target & dst' & ? & ? & Hm).
    exists target, dst'. split_and!; [done..|]. by apply (dg_manifests _ _ G4).
  - apply bind_Done in E2 as ([] & w4 & E5 & E2). unfold reading in E2. apply lift_Done in E2 as [E2 ->]. destruct u.
    exists local, w4, w3. split_and!; [done..|by eapply verifyStored_accepted|done|done].
Qed.
End promote_safety.
