(* ===== verification/MediaImport.v ===== *)
(** The destination side of a physical transfer (internal/engine/mediaimport.go):
    verify the medium, push what verification cleared, record the import. *)

From S2P Require Import Prelude GoStrings Relocate Policy Taxonomy Tasks Disk MediaPaths MediaVerify SigKeys SigVerify Trust.
From S2P Require Import SigSafety MediaRegister MediaGate StoreMeta StoreGC Prune Preflight Transfer Remotes Promote.

Definition mediaItemPrefix : string := "media/".
Definition OverrideZone : string := "zone".
Definition OverrideFreshness : string := "freshness".
(** [MediaOptions], as far as decisions read it. *)
Record MediaOptions := mkMediaOptions { mo_allow_zone : bool; mo_allow_stale : bool }.

(** What a destination keeps beside the store: the serving gate, when one observes the
    verdicts, and the freshness register with its directory. *)
Record Site := mkSite { si_gate : option Gate; si_imports : option Imports; si_disk : Disk }.

(** [errorOf]: a code this build does not know is an internal error. *)
Definition errorOf (code : Code) (params : gmap string string) : TaxError :=
  match Lookup code with Some _ => tax code (PStr <$> params) | None => tax CodeInternal ∅ end.

(** [hasOverride], and the options of [MediaImportRunner]. *)
Definition hasOverride (t : Task) (guard : string) : bool := bool_decide (guard ∈ t_overrides t).
Definition runner_options (t : Task) : MediaOptions :=
  mkMediaOptions (hasOverride t OverrideZone) (hasOverride t OverrideFreshness).

(** [blockingError] and [MediaRefusal]. *)
Definition blockingError (rep : Report) : TaxError :=
  match List.find (λ b, negb (b_overridden b)) (rep_blocks rep) with
  | Some b => errorOf (b_code b) (b_params b)
  | None =>
      match omap v_reason (rep_recipes rep) with
      | r :: _ => errorOf (r_code r) (r_params r)
      | [] => WithCause "engine: a medium was reported blocked without a reason" (tax CodeInternal ∅)
      end
  end.
Definition MediaRefusal (rep : Report) : option TaxError :=
  if decide (rep_verdict rep = VerdictPushable) then None else Some (blockingError rep).

Section import.
Context `{GoRuntime, StoreIO, Documents, RecipeSDK, Upstream, Volume, KeyLib, SigCodec, Zone}.
Context `{!MediaOracle, !RegisterCodec}.

(** * Verification *)

(** The store behind the medium, as the verifier reads it. *)
Definition medium_reader (st : Store) : StoreReader := mkReader
  (λ repo reference, absent_src (d ← RawManifest repo reference st; Ok (doc_bytes d)))
  (λ repo d, absent_src (BlobReader repo d st)).

Definition no_zone_error : go_error :=
  tax_error (tax CodeConfigInvalid (strs [("detail",
    "no zone identity is configured (zone, FR-052): a destination instance " +:+
    "cannot tell whether a medium is addressed to it")])).
Definition no_destination_error : go_error :=
  tax_error (tax CodeConfigInvalid (strs [("detail",
    "no destination registry is configured (destination.registry, FR-052): " +:+
    "a medium can be verified without one, but not imported")])).

(** [VerifyMedia]: the report, which the gate hears; [medium] is the file tree, [st]
    the store over it. *)
Definition medium_report (e : Engine) (zone : string) (medium : option node) (opts : MediaOptions) (budget : option nat)
    (imports : option Imports) (st : Store) : option Report :=
  let rd := medium_reader st in
  Verify (H1 := key_verifier (store_verify rd)) medium
    (destination_options rd (Some (en_trust e)) zone (i ← imports; Last zone i) (mo_allow_zone opts) (mo_allow_stale opts))
    budget.
Definition VerifyMedia (e : Engine) (zone : string) (medium : option node) (opts : MediaOptions) (budget : option nat)
    (s : Site) (st : Store) : res go_error Report * Site :=
  if String.eqb zone "" then (Err no_zone_error, s)
  else
    match medium_report e zone medium opts budget (si_imports s) st with
    | None => (Err (plain "media: the store does not open"), s)
    | Some rep => (Ok rep, mkSite (Observe (Some rep) <$> si_gate s) (si_imports s) (si_disk s))
    end.

(** [recordVerdicts]. *)
Definition verdict_item (v : RecipeVerdict) (it : Item) : Item :=
  let it := set_size (v_bytes v) (set_digest (v_digest v) it) in
  if v_pushable v then set_status StatusRunning it
  else
    match v_reason v with
    | Some r => fail_item (errorOf (r_code r) (r_params r)) it
    | None => set_status StatusFailed it
    end.
Definition media_item (v : RecipeVerdict) : string := mediaItemPrefix +:+ v_name v +:+ "@" +:+ v_version v.
Fixpoint recordVerdicts (vs : list RecipeVerdict) : eng unit :=
  match vs with
  | [] => mret tt
  | v :: vs => _ ← on_item (media_item v) (verdict_item v); recordVerdicts vs
  end.

(** * The push *)

(** [mediumGraph]: the recipe graph by name and version. *)
Definition record_key (r : RecipeRecord) : string := rr_name r +:+ "@" +:+ rr_version r.
Definition mediumGraph (m : Meta) : res store_error (gmap string RecipeRecord) :=
  records ← RecipeRecords m;
  let sorted := sort_slice (λ a b, str_ltb (record_key a) (record_key b)) records in
  Ok (fold_left (λ g r, <[record_key r := r]> g) sorted ∅).

(** [mediumContent]: the places the graph says, and no upstream. *)
Definition mediumContent (rec : RecipeRecord) : origin :=
  let byName : gmap string string :=
    fold_left (λ m i, <[ir_name i := ir_repo i]> m) (rr_ingredients rec) ∅ in
  mkOrigin
    (λ ref ingredient,
      if String.eqb ingredient "" then Ok (rr_artifact_repo rec)
      else
        match byName !! ingredient with
        | Some repo =>
            if negb (String.eqb repo "") then Ok repo
            else Err (plain ("the medium's recipe graph does not say where ingredient " +:+ ingredient +:+ " landed"))
        | None => Err (plain ("the medium's recipe graph does not say where ingredient " +:+ ingredient +:+ " landed"))
        end)
    false.

(** [recipeOnMedium]. *)
Definition recipeOnMedium (rec : RecipeRecord) : eng (FetchedRecipe * Recipe) :=
  if String.eqb (rr_artifact_repo rec) "" || String.eqb (rr_artifact_tag rec) "" then
    raise (plain ("the medium's recipe graph does not say where the artifact of " +:+ record_key rec +:+ " landed"))
  else
    d ← (_ ← call; reading (RawManifest (rr_artifact_repo rec) (rr_artifact_tag rec)));
    if negb (String.eqb d (rr_digest rec)) then
      raise (plain (rr_artifact_repo rec +:+ ":" +:+ rr_artifact_tag rec +:+ " on the medium resolves to " +:+ d +:+
        ", but the recipe graph pins " +:+ rr_digest rec))
    else
      '(config, layer) ← lift (VerifyManifest d);
      raw ← (_ ← call; reading (BlobReader (rr_artifact_repo rec) layer));
      yaml ← lift (readBounded raw MaxDocumentBytes);
      recipe ← lift (ParseRecipe yaml);
      _ ← lift (ValidateCooked recipe);
      _ ← lift (ValidatePublishLocation recipe (rr_name rec) (rr_artifact_tag rec));
      mret (mkFetched (rr_cookbook rec) (rr_artifact_tag rec) d config layer, recipe).

(** [settleDelivery]: the reason is that of the first push item that failed. *)
Definition push_error (rid : string) (items : list Item) : option ItemError :=
  head (omap (λ it, if decide (it_status it = StatusFailed) then
                      if has_prefix (it_name it) (pushItemPrefix +:+ rid +:+ "/") then it_error it else None
                    else None) items).
Definition settle_item (e : option ItemError) (it : Item) : Item :=
  mkItem (it_name it) (it_digest it) (it_size it) StatusFailed
    (match e with Some e => Some e | None => it_error it end) (it_blobs it).
Definition settleDelivery (rid : string) (landed : bool) : eng unit :=
  if landed then on_item (mediaItemPrefix +:+ rid) (set_status StatusDone)
  else
    err ← gets (λ w, push_error rid (t_items (w_task w)));
    on_item (mediaItemPrefix +:+ rid) (settle_item err).

(** [importDelivery]. *)
Definition delivery_fail (rid : string) (e : go_error) : eng bool :=
  _ ← on_item (mediaItemPrefix +:+ rid) (fail_item (mapError e rid)); mret false.
Definition importDelivery (e : Engine) (graph : gmap string RecipeRecord) (v : RecipeVerdict) : eng bool :=
  let rid := v_name v +:+ "@" +:+ v_version v in
  match graph !! rid with
  | None =>
      delivery_fail rid (plain ("the medium's recipe graph carries no entry for " +:+ rid +:+
        ", although its manifest delivers it"))
  | Some rec =>
      if negb (String.eqb (rr_digest rec) (v_digest v)) || negb (String.eqb (rr_artifact_repo rec) (v_artifact_repo v)) then
        delivery_fail rid (plain ("the medium's manifest and its recipe graph disagree about " +:+ rid))
      else
        r ← attempt (recipeOnMedium rec);
        match r with
        | Err err => delivery_fail rid err
        | Ok (f, recipe) =>
            landed ← promoteRecipe e f recipe rid (mediumContent rec);
            _ ← settleDelivery rid landed;
            mret landed
        end
  end.
(** The number delivered. *)
Fixpoint import_deliveries (e : Engine) (graph : gmap string RecipeRecord) (vs : list RecipeVerdict) : eng nat :=
  match vs with
  | [] => mret 0
  | v :: vs =>
      landed ← importDelivery e graph v;
      rest ← import_deliveries e graph vs;
      mret ((if (landed : bool) then 1 else 0) + rest)
  end.

(** * The import *)

(** [recordImport]: a register that cannot persist is only a warning. *)
Definition recordImport (zone run : string) (now : time) (tmp : string) (rep : Report) (s : Site) : Site :=
  match rep_media rep, si_imports s with
  | Some m, Some i =>
      match RecordImport tmp zone (mkImport (m_media_id m) (m_resolved m) now run) now i (si_disk s) with
      | (Ok i, d) => mkSite (si_gate s) (Some i) d
      | (Err _, d) => mkSite (si_gate s) (Some i) d
      end
  | _, _ => s
  end.

(** The pushes of a report that is not blocked: how many of the cleared deliveries
    landed. *)
Definition push_cleared (e : Engine) (rep : Report) : eng nat :=
  graph ← gets (λ w, mediumGraph (st_meta (w_store w)));
  match graph with
  | Err _ => raise (tax_error (mapError (plain "store: metadata") vol_root))
  | Ok graph => import_deliveries e graph (Pushable rep)
  end.

(** [importMedia]. *)
Definition importMedia (e : Engine) (zone : string) (medium : option node) (opts : MediaOptions) (budget : option nat)
    (tmp : string) (s : Site) (w : World) : outcome unit * Site * World :=
  match en_dest e with
  | None => (Failed no_destination_error, s, w)
  | Some _ =>
      match VerifyMedia e zone medium opts budget s (w_store w) with
      | (Err err, s) => (Failed (tax_error (mapError err vol_root)), s, w)
      | (Ok rep, s) =>
          match recordVerdicts (rep_recipes rep) w with
          | (Done _, w) =>
              if decide (rep_verdict rep = VerdictBlocked) then (Failed (tax_error (blockingError rep)), s, w)
              else
                match push_cleared e rep w with
                | (Done delivered, w) =>
                    let s := if (delivered =? length (Pushable rep))%nat
                             then recordImport zone (t_run_id (w_task w)) (w_now w) tmp rep s else s in
                    (Done tt, s, w)
                | (Failed err, w) => (Failed err, s, w)
                | (Panicked, w) => (Panicked, s, w)
                end
          | (Failed err, w) => (Failed err, s, w)
          | (Panicked, w) => (Panicked, s, w)
          end
      end
  end.
End import.
