(* ===== verification/ImportSafety.v ===== *)
(** Correctness of a media import: what crosses was cleared by verification and vouched
    for, a blocked medium moves nothing, and the register only advances when every
    cleared delivery has landed. *)

From S2P Require Import Prelude GoStrings Relocate Policy Taxonomy Tasks Disk MediaPaths MediaVerify MediaSafety SigKeys SigVerify Trust.
From S2P Require Import SigSafety MediaRegister MediaGate StoreMeta StoreGC StoreSafety Prune Preflight Transfer TransferSafety Remotes.
From S2P Require Import Promote PromoteSafety MediaImport.

Section import_safety.
Context `{GoRuntime, StoreIO, Documents, RecipeSDK, Upstream, Volume, KeyLib, SigCodec, Zone}.
Context `{!MediaOracle, !RegisterCodec}.

(** * Where an import writes *)

(** The destination is as it was outside some repositories. *)
Definition same_at (s s' : DestState) (repo x : string) : Prop :=
  ds_tags s' !! (repo, x) = ds_tags s !! (repo, x) ∧
  ((repo, x) ∈ ds_manifests s' ↔ (repo, x) ∈ ds_manifests s) ∧
  ((repo, x) ∈ ds_blobs s' ↔ (repo, x) ∈ ds_blobs s).
Definition untouched_outside (S : string → Prop) (w w' : World) : Prop :=
  ∀ repo x, S repo ∨ same_at (w_dest w) (w_dest w') repo x.
#[local] Instance outside_preorder S : PreOrder (untouched_outside S).
Proof.
  split; [by intros w repo x; right|]. intros w1 w2 w3 K1 K2 repo x.
  destruct (K1 repo x) as [|(T1 & M1 & B1)]; [by left|]. destruct (K2 repo x) as [|(T2 & M2 & B2)]; [by left|].
  right. split; [congruence|]. by rewrite M2, B2.
Qed.
Lemma outside_home S A (m : eng A) : Keeps at_home m → Keeps (untouched_outside S) m.
Proof. intros Hm w repo x. right. destruct (Hm w : at_home _ _) as [-> _]. done. Qed.
#[local] Instance outside_accept S repo v : Keeps (untouched_outside S) (on_dest (accept_as repo v)).
Proof. intros w r x. by right. Qed.
Lemma outside_push (S : string → Prop) local dst reference tag :
  S dst → Keeps (untouched_outside S) (PushManifest local dst reference tag).
Proof.
  intros HS. apply (keeps_push (untouched_outside S) (outside_home S)).
  - intros d w repo x. destruct (decide (dst = repo)) as [<-|Hne]; [by left|right]. split; [done|]. cbn. set_solver.
  - intros t d w repo x. destruct (decide (dst = repo)) as [<-|Hne]; [by left|right]. split; [|cbn; set_solver].
    cbn. destruct (String.eqb t ""); [done|]. rewrite lookup_insert_ne; congruence.
Qed.

(** * One delivery *)

(** The recipe a graph record stands for. *)
Definition stands_for (rec : RecipeRecord) (recipe : Recipe) : Prop :=
  ∃ config layer, VerifyManifest (rr_digest rec) = Ok (config, layer) ∧ ParseRecipe (doc_bytes layer) = Ok recipe ∧
    ValidateCooked recipe = Ok tt ∧ rc_name recipe = rr_name rec ∧ rc_version recipe = rr_artifact_tag rec.
#[local] Instance home_recipeOnMedium rec : Keeps at_home (recipeOnMedium rec).
Proof.
  unfold recipeOnMedium. apply keeps_if; [apply _|]. apply keeps_bind; [apply _|]. intros d.
  apply keeps_if; [apply _|]. apply keeps_bind; [apply _|]. intros []. apply _.
Qed.
Lemma recipeOnMedium_done rec f recipe w w' : recipeOnMedium rec w = (Done (f, recipe), w') →
  stands_for rec recipe ∧ f_tag f = rc_version recipe ∧ f_tag f ≠ "" ∧ f_digest f = rr_digest rec ∧
  f_repo f = rr_cookbook rec.
Proof.
  unfold recipeOnMedium. destruct (String.eqb_spec (rr_artifact_repo rec) "") as [|Hr]; [done|].
  destruct (String.eqb_spec (rr_artifact_tag rec) "") as [|Ht]; [done|]. cbn [orb].
  intros (d & w1 & _ & E)%bind_Done. destruct (String.eqb_spec d (rr_digest rec)) as [->|]; [cbn [negb] in E|done].
  apply bind_Done in E as ([config layer] & w2 & [Hv ->]%lift_Done & E).
  apply bind_Done in E as (raw & w3 & E3 & E). apply bind_Done in E3 as (? & w4 & _ & E3).
  unfold reading in E3. apply lift_Done in E3 as [Hb ->].
  assert (raw = doc_bytes layer) as -> by (unfold BlobReader in Hb; destruct (_ && _) in Hb; congruence).
  apply bind_Done in E as (yaml & w5 & [Hy ->]%lift_Done & E).
  assert (yaml = doc_bytes layer) as -> by (unfold readBounded in Hy; destruct (_ <? _)%Z in Hy; congruence).
  apply bind_Done in E as (r & w6 & [Hp ->]%lift_Done & E).
  apply bind_Done in E as ([] & w7 & [Hc ->]%lift_Done & E). apply bind_Done in E as ([] & w8 & [Hl ->]%lift_Done & E).
  injection E as <- <- <-. apply publish_location in Hl as [Hn Hver]. cbn.
  split_and!; [|done..]. exists config, layer. done.
Qed.

(** A cleared delivery whose record agrees with its verdict, and its recipe. *)
Definition deliverable (graph : gmap string RecipeRecord) (v : RecipeVerdict) (recipe : Recipe) : Prop :=
  ∃ rec, graph !! (v_name v +:+ "@" +:+ v_version v) = Some rec ∧ rr_digest rec = v_digest v ∧
    rr_artifact_repo rec = v_artifact_repo v ∧ stands_for rec recipe.
Definition belongs (e : Engine) (graph : gmap string RecipeRecord) (vs : list RecipeVerdict) (dst : string) : Prop :=
  ∃ v recipe, v ∈ vs ∧ deliverable graph v recipe ∧ writes_to e recipe dst.

#[local] Instance home_settle rid landed : Keeps at_home (settleDelivery rid landed).
Proof. unfold settleDelivery, on_item. apply _. Qed.
#[local] Instance home_delivery_fail rid err : Keeps at_home (delivery_fail rid err).
Proof. unfold delivery_fail, on_item. apply _. Qed.

(** A relation kept by what is at home, by acceptances and by the pushes of the
    deliverable recipes is kept by a delivery. *)
Lemma keeps_importDelivery (R : relation World) `{!PreOrder R} e graph v :
  (∀ A (m : eng A), Keeps at_home m → Keeps R m) → (∀ repo a, Keeps R (on_dest (accept_as repo a))) →
  (∀ recipe local dst reference tag, deliverable graph v recipe → writes_to e recipe dst →
     Keeps R (PushManifest local dst reference tag)) →
  Keeps R (importDelivery e graph v).
Proof.
  intros Hh Ha Hp. unfold importDelivery. cbv zeta. destruct (graph !! _) as [rec|] eqn:Hg; [|apply Hh, _].
  destruct (String.eqb_spec (rr_digest rec) (v_digest v)) as [Hd|]; [|apply Hh, _].
  destruct (String.eqb_spec (rr_artifact_repo rec) (v_artifact_repo v)) as [Hr|]; [|apply Hh, _]. cbn [negb orb].
  intros w. unfold mbind, eng_bind, attempt. pose proof (Hh _ _ (home_recipeOnMedium rec) w : R _ _) as R1.
  destruct (recipeOnMedium rec w) as [[[f recipe]|err|] w1] eqn:E; cbn [snd] in R1; [|etrans; [exact R1|]|done].
  - assert (Keeps R (promoteRecipe e f recipe (v_name v +:+ "@" +:+ v_version v) (mediumContent rec))) as Hk.
    { apply (keeps_promoteRecipe_at R Hh Ha). intros. eapply Hp; [|done].
      apply recipeOnMedium_done in E as [? _]. by exists rec. }
    etrans; [exact R1|]. pose proof (Hk w1 : R _ _) as R2.
    destruct (promoteRecipe _ _ _ _ _ w1) as [[landed|err|] w2]; cbn [snd] in R2 |- *; [|done..].
    etrans; [exact R2|]. pose proof (Hh _ _ (home_settle (v_name v +:+ "@" +:+ v_version v) landed) w2 : R _ _) as R3.
    by destruct (settleDelivery _ _ w2) as [[]].
  - apply (Hh _ _ (home_delivery_fail (v_name v +:+ "@" +:+ v_version v) err)).
Qed.
Lemma keeps_import_deliveries (R : relation World) `{!PreOrder R} e graph vs :
  (∀ v, v ∈ vs → Keeps R (importDelivery e graph v)) → Keeps R (import_deliveries e graph vs).
Proof.
  induction vs as [|v vs IH]; intros Hv; cbn [import_deliveries]; [apply _|].
  apply keeps_bind; [apply Hv; by left|]. intros landed. apply keeps_bind; [|apply _]. apply IH. intros. apply Hv. by right.
Qed.

(** A recipe that arrived: its ingredients at the destination, its tag in the zone's
    cookbook. *)
Definition arrived (e : Engine) (d : Destination) (recipe : Recipe) (s : DestState) : Prop :=
  (∀ ing, ing ∈ rc_ingredients recipe → ∃ target dst, PathWithBase (en_base e) (ig_ref ing) = Ok target ∧
     DestRepository d target = Ok dst ∧ (dst, ig_digest ing) ∈ ds_manifests s) ∧
  ∃ dst, CookbookRepo d (rc_name recipe) = Ok dst ∧ is_Some (ds_tags s !! (dst, rc_version recipe)).
Lemma arrived_mono e d recipe w w' : dest_grows (w_dest w) (w_dest w') → keeps_tags w w' →
  arrived e d recipe (w_dest w) → arrived e d recipe (w_dest w').
Proof.
  intros G K [Hi (dst & ? & ?%K)]. split; [|eauto]. intros ing Hin.
  destruct (Hi ing Hin) as (target & dst' & ? & ? & ?%(dg_manifests _ _ G)). eauto.
Qed.
#[local] Instance crosses_importDelivery e graph v : Keeps crosses (importDelivery e graph v).
Proof. apply keeps_importDelivery; intros; apply _. Qed.
#[local] Instance tags_importDelivery e graph v : Keeps keeps_tags (importDelivery e graph v).
Proof. apply keeps_importDelivery; intros; apply _. Qed.

(** A cooked recipe pins digests. *)
Definition cooked_pinned : Prop :=
  ∀ recipe, ValidateCooked recipe = Ok tt → ∀ ing, ing ∈ rc_ingredients recipe → digest_ok (ig_digest ing) = true.

Lemma importDelivery_true e d graph v w w' : en_dest e = Some d → dest_closed (w_dest w) → cooked_pinned →
  importDelivery e graph v w = (Done true, w') →
  ∃ recipe, deliverable graph v recipe ∧ arrived e d recipe (w_dest w').
Proof.
  intros Hd Hc Hpin. unfold importDelivery. cbv zeta. destruct (graph !! _) as [rec|] eqn:Hg; [|done].
  destruct (String.eqb_spec (rr_digest rec) (v_digest v)); [|done].
  destruct (String.eqb_spec (rr_artifact_repo rec) (v_artifact_repo v)); [|done]. cbn [negb orb].
  intros (r & w1 & E1 & E)%bind_Done. destruct r as [[f recipe]|]; [|done].
  unfold attempt in E1. destruct (recipeOnMedium rec w) as [[[f' recipe']|?|] w1'] eqn:Er; simplify_eq.
  assert (w_dest w1 = w_dest w) as Hw1 by (eapply home_run; [|exact Er]; apply _).
  apply recipeOnMedium_done in Er as ((config & layer & ? & ? & Hcook & ? & ?) & Htag & Hne & _).
  apply bind_Done in E as (landed & w2 & E2 & E). apply bind_Done in E as (? & w3 & E3 & [= -> <-]).
  assert (w_dest w3 = w_dest w2) as Hw3 by (eapply home_run; [|exact E3]; apply _).
  exists recipe. split; [exists rec; repeat (split; [done|]); by exists config, layer|].
  rewrite Hw3. eapply promote_true in E2; [exact E2|done|congruence|by apply Hpin|done..].
Qed.
Lemma import_deliveries_all e d graph vs w w' : en_dest e = Some d → dest_closed (w_dest w) → cooked_pinned →
  import_deliveries e graph vs w = (Done (length vs), w') →
  ∀ v, v ∈ vs → ∃ recipe, deliverable graph v recipe ∧ arrived e d recipe (w_dest w').
Proof.
  intros Hd Hc Hpin.
  assert (∀ vs n w, import_deliveries e graph vs w = (Done n, w') → n ≤ length vs) as Hle.
  { clear -Hd. intros vs. induction vs as [|v vs IH]; intros n w; cbn [import_deliveries]; [by intros [= <- _]|].
    intros (landed & w1 & _ & E)%bind_Done. apply bind_Done in E as (rest & w2 & ?E & [= <- <-]).
    apply IH in E. cbn. destruct landed; lia. }
  revert w Hc. induction vs as [|v vs IH]; intros w Hc; cbn [import_deliveries]; [set_solver|].
  intros (landed & w1 & E1 & E)%bind_Done. apply bind_Done in E as (rest & w2 & E2 & [= Hn ->]).
  specialize (Hle vs rest w1 E2). destruct landed; [|lia]. injection Hn as ->.
  pose proof (cross_run _ _ _ _ E1 Hc) as G1.
  intros v' [->|Hin]%elem_of_cons; [|by eapply (IH w1); eauto using dg_closed].
  destruct (importDelivery_true _ _ _ _ _ _ Hd Hc Hpin E1) as (recipe & Hdel & Harr). exists recipe. split; [done|].
  eapply arrived_mono; [| |exact Harr].
  - assert (Keeps crosses (import_deliveries e graph vs)) as Hk by (apply keeps_import_deliveries; intros; apply _).
    by eapply (cross_run _ _ _ _ E2), dg_closed.
  - assert (Keeps keeps_tags (import_deliveries e graph vs)) as Hk by (apply keeps_import_deliveries; intros; apply _).
    generalize (Hk w1). by rewrite E2.
Qed.

(** * The theorems *)

Lemma recordVerdicts_run vs w :
  ∃ w1, recordVerdicts vs w = (Done tt, w1) ∧ w_dest w1 = w_dest w ∧ w_store w1 = w_store w.
Proof.
  revert w. induction vs as [|v vs IH]; intros w; cbn [recordVerdicts]; [eauto|].
  unfold mbind, eng_bind, on_item. cbn. edestruct IH as (w1 & -> & Hd & Hs). eauto.
Qed.
(** Either nothing moved, or the cleared deliveries of a report that is not blocked
    were pushed, and the register is as it was unless all of them landed. *)
Lemma importMedia_cases e zone medium opts budget tmp s w o s' w' :
  importMedia e zone medium opts budget tmp s w = (o, s', w') →
  w_dest w' = w_dest w ∧ si_imports s' = si_imports s ∧ si_disk s' = si_disk s ∨
  ∃ rep graph w1 pushed, medium_report e zone medium opts budget (si_imports s) (w_store w) = Some rep ∧
    rep_verdict rep ≠ VerdictBlocked ∧ mediumGraph (st_meta (w_store w)) = Ok graph ∧ w_dest w1 = w_dest w ∧
    import_deliveries e graph (Pushable rep) w1 = (pushed, w') ∧
    (pushed = Done (length (Pushable rep)) ∧ o = Done tt ∨ si_imports s' = si_imports s ∧ si_disk s' = si_disk s).
Proof.
  unfold importMedia. destruct (en_dest e); [|intros [= <- <- <-]; by left].
  unfold VerifyMedia. destruct (String.eqb zone ""); [intros [= <- <- <-]; by left|].
  destruct (medium_report _ _ _ _ _ _ _) as [rep|]; [|intros [= <- <- <-]; by left].
  destruct (recordVerdicts_run (rep_recipes rep) w) as (w1 & -> & Hd & Hs).
  destruct (decide _) as [|Hnb]; [intros [= <- <- <-]; by left|].
  unfold push_cleared, mbind, eng_bind, gets. rewrite Hs.
  destruct (mediumGraph (st_meta (w_store w))) as [graph|] eqn:Hg; [|intros [= <- <- <-]; by left].
  destruct (import_deliveries e graph (Pushable rep) w1) as [pushed w2] eqn:Ep. intros E. right.
  exists rep, graph, w1, pushed.
  destruct pushed as [n|err|]; [|injection E as <- <- <-; split_and!; [done..|by right]..].
  destruct (Nat.eqb_spec n (length (Pushable rep))) as [->|]; injection E as <- <- <-; split_and!; try done; auto.
Qed.

(** C28: only what verification cleared crosses. Whatever a media import met and however
    it ended, a tag, a manifest or a blob of the destination that changed lies in a
    repository that a cleared delivery writes to: the verdict is not blocked, the
    medium's graph agrees with it on the artifact and its digest, and the repository is
    the zone's cookbook for that recipe or the relocation of one of its ingredients.
    That delivery is vouched for: a key of the destination's own decision made a
    signature over exactly its digest, or a declared scope admits it unsigned. *)
Theorem import_moves_vouched e zone medium opts budget tmp s w o s' w' repo x
    (E : importMedia e zone medium opts budget tmp s w = (o, s', w'))
    (Hmoved : ¬ same_at (w_dest w) (w_dest w') repo x) :
  ∃ rep graph v recipe canonical,
    medium_report e zone medium opts budget (si_imports s) (w_store w) = Some rep ∧ v ∈ Pushable rep ∧
    mediumGraph (st_meta (w_store w)) = Ok graph ∧ deliverable graph v recipe ∧ writes_to e recipe repo ∧
    Path (v_cookbook v) = Ok canonical ∧
    if v_unsigned v then
      ∃ sc, governing (tp_scopes (en_trust e)) canonical (Some sc) ∧ sc_allow_unsigned sc = true ∧ v_scope v = sc_name sc
    else ∃ keys, dc_keys (Decide (en_trust e) canonical) = Some keys ∧ vouches keys (v_digest v) (v_fingerprint v).
Proof.
  apply importMedia_cases in E as [(Hd & _)|(rep & graph & w1 & pushed & Hrep & _ & Hg & Hw1 & Ep & _)];
    [destruct Hmoved; by rewrite Hd|].
  assert (Keeps (untouched_outside (belongs e graph (Pushable rep))) (import_deliveries e graph (Pushable rep))) as Hk.
  { refine (keeps_import_deliveries _ e graph _ _). intros v Hv. refine (keeps_importDelivery _ e graph v (outside_home _) _ _).
    intros. apply outside_push. by exists v, recipe. }
  pose proof ((Hk w1 : untouched_outside _ _ _) repo x) as Ho. rewrite Ep, Hw1 in Ho.
  destruct Ho as [(v & recipe & Hv & Hdel & Hto)|]; [|done].
  destruct medium as [root|]; [|done].
  destruct (pushable_decided _ _ _ _ _ _ _ _ _ _ Hrep Hv) as (pol & canonical & [= <-] & Hp & Hs & Hcase).
  exists rep, graph, v, recipe, canonical. do 6 (split; [done|]). destruct (v_unsigned v).
  - destruct Hcase as [(sc & ? & ? & ? & _) _]. eauto.
  - destruct Hcase as (keys & ? & Hok). exists keys. split; [done|]. by eapply sigverify_Verify_sound.
Qed.

(** C29: the freshness register only advances behind a completed import. When the
    register or its file is not as it was, the import succeeded, and every delivery
    that verification cleared has arrived: each ingredient of its recipe is at the
    destination under its pinned digest, and the zone's cookbook has its tag. *)
Theorem recorded_import_arrived e zone medium opts budget tmp s w o s' w' d
    (Hd : en_dest e = Some d) (Hc : dest_closed (w_dest w)) (Hpin : cooked_pinned)
    (E : importMedia e zone medium opts budget tmp s w = (o, s', w'))
    (Hreg : ¬ (si_imports s' = si_imports s ∧ si_disk s' = si_disk s)) :
  o = Done tt ∧ ∃ rep graph,
    medium_report e zone medium opts budget (si_imports s) (w_store w) = Some rep ∧ rep_verdict rep ≠ VerdictBlocked ∧
    mediumGraph (st_meta (w_store w)) = Ok graph ∧
    ∀ v, v ∈ Pushable rep → ∃ recipe, deliverable graph v recipe ∧ arrived e d recipe (w_dest w').
Proof.
  apply importMedia_cases in E as [(_ & ? & ?)|(rep & graph & w1 & pushed & Hrep & Hv & Hg & Hw1 & Ep & [[-> ->]|?])];
    [by destruct Hreg| |by destruct Hreg].
  split; [done|]. exists rep, graph. split_and!; [done..|].
  eapply import_deliveries_all; [done|by rewrite Hw1|done..].
Qed.

(** A blocked medium is refused by name. When verification blocks the medium, the
    import fails, the gate hears the report, and neither the destination nor the
    register nor the store is touched; the error is that of a block no override
    waived, or of a recipe that was refused, never an unexplained internal one. *)
Theorem blocked_import_named e d zone root opts budget tmp s w rep
    (Hd : en_dest e = Some d) (Hz : zone ≠ "")
    (Hrep : medium_report e zone (Some root) opts budget (si_imports s) (w_store w) = Some rep)
    (Hb : rep_verdict rep = VerdictBlocked) :
  let '(o, s', w') := importMedia e zone (Some root) opts budget tmp s w in
  o = Failed (tax_error (blockingError rep)) ∧
  s' = mkSite (Observe (Some rep) <$> si_gate s) (si_imports s) (si_disk s) ∧
  w_dest w' = w_dest w ∧ w_store w' = w_store w ∧
  ((∃ b, b ∈ rep_blocks rep ∧ b_overridden b = false ∧ blockingError rep = errorOf (b_code b) (b_params b)) ∨
   ∃ v r, v ∈ rep_recipes rep ∧ v_pushable v = false ∧ v_reason v = Some r ∧
     blockingError rep = errorOf (r_code r) (r_params r)).
Proof.
  unfold importMedia, VerifyMedia. rewrite Hd, Hrep. destruct (String.eqb_spec zone ""); [done|].
  destruct (recordVerdicts_run (rep_recipes rep) w) as (w1 & -> & Hd1 & Hs1). rewrite decide_True by done.
  split_and!; [done..|]. unfold blockingError.
  destruct (List.find _ (rep_blocks rep)) as [b|] eqn:Ef.
  - left. exists b. apply List.find_some in Ef as [Hin%list_elem_of_In Ho%negb_true_iff]. done.
  - right. destruct (Verify_spec (H1 := key_verifier (store_verify (medium_reader (w_store w)))) root
      (destination_options (medium_reader (w_store w)) (Some (en_trust e)) zone (i ← si_imports s; Last zone i)
        (mo_allow_zone opts) (mo_allow_stale opts)) budget) as (rep' & Hrep' & Hcase).
    assert (rep' = rep) as -> by (unfold medium_report in Hrep; congruence).
    destruct Hcase as [(_ & _ & Hst)|(m & _ & Hst & Hv & _ & _ & _ & Hall)].
    { apply existsb_exists in Hst as (b & Hin & Hb'). by rewrite (List.find_none _ _ Ef b Hin) in Hb'. }
    rewrite Hb in Hv. unfold verdict_of in Hv. rewrite Hst in Hv.
    destruct (filter (λ v, v_pushable v = false) (rep_recipes rep)) as [|v0 vs] eqn:Hf; [done|].
    assert (v0 ∈ filter (λ v, v_pushable v = false) (rep_recipes rep)) as [Hp0 Hin0]%list_elem_of_filter
      by (rewrite Hf; by left).
    assert (∀ v, v ∈ rep_recipes rep → v_pushable v = false ↔ is_Some (v_reason v)) as Hiff.
    { intros v [i Hi]%list_elem_of_lookup. by destruct (Forall2_lookup_r _ _ _ _ _ Hall Hi) as (r & _ & _ & ? & _). }
    destruct (proj1 (Hiff v0 Hin0) Hp0) as [r0 Hr0].
    destruct (omap v_reason (rep_recipes rep)) as [|r rs] eqn:Ho.
    { assert (r0 ∈ omap v_reason (rep_recipes rep)) as Hbad by (apply list_elem_of_omap; eauto). rewrite Ho in Hbad.
      by apply not_elem_of_nil in Hbad. }
    assert (r ∈ omap v_reason (rep_recipes rep)) as (v & Hv' & Hr)%list_elem_of_omap by (rewrite Ho; by left).
    exists v, r. split_and!; [done| |done..]. by apply Hiff; eauto.
Qed.
End import_safety.

(** * A concrete import

    The medium of [MediaSafety] with the store over it, and a zone that admits its
    unsigned recipe. *)

#[local] Existing Instance demo_oracle.
#[local] Existing Instance demo_keys.
#[local] Existing Instance demo_codec.
#[local] Existing Instance io_sound.
#[local] Program Instance medium_documents : Documents := {|
  doc_of d := if String.eqb d (demo_digest "a") then Some (Image ("C", 1%Z) [("Y", 4%Z)])
    else if String.eqb d (demo_digest "b") then Some (Image ("C", 1%Z) []) else None;
  doc_bytes d := d; doc_artifact_type _ := ""; digest_ok d := has_prefix d "sha256:" || (slen d =? 1)%nat;
  doc_rank _ := 0 |}.
Next Obligation. intros d children c. cbn beta. by destruct (String.eqb d (demo_digest "a")), (String.eqb d (demo_digest "b")). Qed.
Definition medium_recipe : Remotes.Recipe :=
  Remotes.mkRecipe "app" "1.0" [Remotes.mkIngredient "img" KindImage "reg.io/img" "v1" (demo_digest "b") "" []].
#[local] Program Instance medium_sdk : RecipeSDK := {|
  constraint := unit; ParseConstraint _ := Ok tt; IsExact _ := true; Resolve _ _ := Err "unused";
  VerifyManifest d := if String.eqb d (demo_digest "a") then Ok ("C", "Y") else Err (plain "layout");
  ParseRecipe _ := Ok medium_recipe;
  ValidateCooked r := if decide (Forall (λ i, has_prefix (ig_digest i) "sha256:" = true) (rc_ingredients r))
                      then Ok tt else Err (plain "cooked");
  ValidatePublishLocation r name tag :=
    if String.eqb (rc_name r) name && String.eqb (rc_version r) tag then Ok tt else Err (plain "location");
  ParseRetriever _ := Err (plain "unused"); error_list _ := None; MaxDocumentBytes := 1000 |}.
Next Obligation.
  intros r name tag. cbn beta. destruct (_ && _) eqn:E; [|discriminate]. intros _.
  by apply andb_true_iff in E as [->%String.eqb_eq ->%String.eqb_eq].
Qed.
#[local] Instance medium_upstream : Upstream := {|
  NewRepository s := Ok "zone.io"; up_tags _ := Ok []; up_get _ _ := Err head_absent;
  up_referrers _ _ := Ok []; fmt_q s := s |}.
#[local] Instance medium_volume : Volume := {| vol_inspect _ := Err "unmounted"; vol_root := "/medium" |}.
#[local] Instance medium_zone : Zone := {| zone_list _ := Ok [] |}.

Definition medium_store : Store := mkStore
  {[ "r" := mkRepoDir {[ "1.0" := demo_digest "a" ]}
       {[ demo_digest "a" := Some 1%Z; demo_digest "b" := Some 1%Z ]} {[ "C" := Some 1%Z; "Y" := Some 1%Z ]} ]}
  {[ demo_digest "a" := Some 1%Z; demo_digest "b" := Some 1%Z; "C" := Some 1%Z; "Y" := Some 1%Z ]}
  (mkMeta ∅ {[ "app@1.0" := mkRecipeRecord "app" "1.0" "registry.example.com/cookbook/app" "r" "1.0" (demo_digest "a")
     "run" "zone" 10 false "" [mkIngredientRecord "img" "ContainerImage" "r" "v1" (demo_digest "b")] ]}).
Definition medium_engine : Engine :=
  mkEngine (mkRemotes ∅ None) (mkPolicy ∅ None [mkScope "lab" ["registry.example.com/**"] true []])
    (Some (mkDestination "zone.io" "" "cookbook" None)) "" 0 (λ _, false).
Definition medium_world : World := demo_run_world medium_store [].
Definition medium_site : Site :=
  mkSite (Some (OpenGate "/medium" "zone" true (Some "media"))) (Some (mkImports true ∅)) (mkDisk ∅ []).
Definition medium_import (zone : string) : outcome unit * Site * World :=
  importMedia medium_engine zone (Some demo_store) (mkMediaOptions false false) None ".tmp" medium_site medium_world.

Example medium_imported :
  let '(o, s', w') := medium_import "zone" in
  o = Done tt ∧ (im_resolved <$> (i ← si_imports s'; Last "zone" i)) = Some 10%Z ∧
  Serving <$> si_gate s' = Some true ∧
  (λ it, (it_name it, it_status it)) <$> t_items (w_task w') =
    [("media/app@1.0", StatusDone); ("push/app@1.0/img", StatusDone); ("push/app@1.0/recipe", StatusDone)].
Proof. vm_compute. auto 10. Qed.

Lemma medium_pinned : cooked_pinned.
Proof.
  intros r Hr ing Hin. cbn in Hr. destruct (decide _) as [Hf|]; [|discriminate Hr].
  rewrite Forall_forall in Hf. cbn. by rewrite Hf.
Qed.
Lemma medium_dest_closed : dest_closed (w_dest medium_world).
Proof. split; set_solver. Qed.

Lemma import_moves_vouched_witness :
  let w' := (medium_import "zone").2 in
  ds_tags (w_dest w') !! ("zone.io/cookbook/app", "1.0") = Some (demo_digest "a") ∧
  ∃ recipe, writes_to medium_engine recipe "zone.io/cookbook/app".
Proof.
  intros w'. assert (ds_tags (w_dest w') !! ("zone.io/cookbook/app", "1.0") = Some (demo_digest "a")) as Ht
    by (vm_compute; reflexivity). split; [exact Ht|].
  destruct (import_moves_vouched medium_engine "zone" (Some demo_store) (mkMediaOptions false false) None ".tmp"
    medium_site medium_world (medium_import "zone").1.1 (medium_import "zone").1.2 w' "zone.io/cookbook/app" "1.0")
    as (_ & _ & _ & recipe & _ & _ & _ & _ & _ & Hto & _).
  - subst w'. unfold medium_import. by destruct (importMedia _ _ _ _ _ _ _ _) as [[]].
  - intros [Hs _]. rewrite Ht in Hs. discriminate Hs.
  - by exists recipe.
Defined.
Lemma recorded_import_arrived_witness :
  let '(o, s', w') := medium_import "zone" in
  o = Done tt ∧ si_imports s' ≠ si_imports medium_site ∧ (("zone.io/reg.io/img", demo_digest "b") ∈ ds_manifests (w_dest w')).
Proof.
  destruct (medium_import "zone") as [[o s'] w'] eqn:E.
  assert ((im_resolved <$> (i ← si_imports s'; Last "zone" i)) = Some 10%Z ∧
    bool_decide (("zone.io/reg.io/img", demo_digest "b") ∈ ds_manifests (w_dest w')) = true) as [Hl Hm].
  { split; [change s' with (o, s', w').1.2|change w' with (o, s', w').2]; rewrite <-E; vm_compute; reflexivity. }
  assert (si_imports s' ≠ si_imports medium_site) as Hs by (intros Hs; rewrite Hs in Hl; discriminate Hl).
  unfold medium_import in E.
  pose proof (recorded_import_arrived medium_engine "zone" (Some demo_store) (mkMediaOptions false false) None ".tmp"
    medium_site medium_world o s' w' (mkDestination "zone.io" "" "cookbook" None) eq_refl medium_dest_closed
    medium_pinned E (λ Hn, Hs (proj1 Hn))) as [Ho _].
  split; [exact Ho|]. split; [exact Hs|]. by apply bool_decide_eq_true in Hm.
Defined.
Lemma blocked_import_named_witness :
  let '(o, s', w') := medium_import "elsewhere" in
  w_dest w' = w_dest medium_world ∧ (Serving <$> si_gate s') = Some false.
Proof.
  destruct (medium_report medium_engine "elsewhere" (Some demo_store) (mkMediaOptions false false) None
    (si_imports medium_site) (w_store medium_world)) as [rep|] eqn:Er; [|vm_compute in Er; discriminate].
  pose proof (blocked_import_named medium_engine (mkDestination "zone.io" "" "cookbook" None) "elsewhere" demo_store
    (mkMediaOptions false false) None ".tmp" medium_site medium_world rep eq_refl ltac:(discriminate) Er) as Hn.
  assert (rep_verdict rep = VerdictBlocked) as Hb by (vm_compute in Er; injection Er as <-; reflexivity).
  specialize (Hn Hb). fold (medium_import "elsewhere") in Hn.
  destruct (medium_import "elsewhere") as [[o s'] w']. destruct Hn as (_ & -> & Hd & _).
  split; [exact Hd|]. cbn. unfold Serving, cleared. cbn. by rewrite Hb.
Defined.
