(* ===== verification/Publish.v ===== *)
(** Publishing a recipe document to a cookbook (internal/engine/publish.go): the
    reference it is published under, the artifact built from it, and the tag, which is
    written once. *)

From S2P Require Import Prelude GoStrings Relocate Policy Taxonomy Tasks MediaVerify SigKeys SigVerify Trust.
From S2P Require Import StoreMeta StoreGC Prune Preflight Transfer TransferSafety Remotes Promote PromoteSafety.

(** The libraries: [cookbook.Build] turns a document, with the name and the tag it is
    published under, into the digests of its manifest, configuration and document
    layers; [name.NewTag] parses a reference into registry, repository and tag. *)
Class Publishing `{Documents, RecipeSDK} : Type := {
  Build : string → string → string → res go_error (string * string * string);
  NewTag : string → res string (string * string * string);
  build_manifest doc name tag m c y : Build doc name tag = Ok (m, c, y) → VerifyManifest m = Ok (c, y);
  build_blobs doc name tag m c y : Build doc name tag = Ok (m, c, y) →
    ∀ b, b ∈ named_blobs m → b = c ∨ b = y;
  tag_not_empty ref registry path tag : NewTag ref = Ok (registry, path, tag) → tag ≠ "" }.

(** [PublishResult]. *)
Record PublishResult := mkPublished { pb_reference : string; pb_digest : string; pb_unchanged : bool }.

Section publish.
Context `{GoRuntime, Documents, RecipeSDK, Upstream}.
Context `{!Publishing}.

(** [parseTagRef]: a tag, and no digest; the allowlist comes before the document. *)
Definition bad_reference (ref : string) : go_error := tax_error (tax CodeBadReference (strs [("reference", ref)])).
Definition tagged_ref (ref : string) : bool :=
  match last_index_byte ":" ref with
  | Some colon =>
      match last_index_byte "/" ref with Some slash => negb (colon <? slash)%nat | None => true end &&
      negb (colon =? slen ref - 1)%nat
  | None => false
  end.
Definition parseTagRef (allow : option Allowlist) (ref : string) : res go_error (string * string * string) :=
  if contains_byte ref "@" || negb (tagged_ref ref) then Err (bad_reference ref)
  else
    match NewTag ref with
    | Err _ => Err (bad_reference ref)
    | Ok (registry, path, tag) => _ ← check_host allow registry; Ok (registry, path, tag)
    end.

(** [remote.WriteLayer] of a blob the publisher holds, and the loop over both. *)
Definition upload (repo d : string) : eng unit :=
  _ ← call;
  has ← gets (λ w, bool_decide ((repo, d) ∈ ds_blobs (w_dest w)));
  if (has : bool) then mret tt else (_ ← call; on_dest (put_blob repo d)).
Definition host_fail {A} (registry prefix : string) (m : eng A) : eng A :=
  r ← attempt m;
  match r with Ok a => mret a | Err e => raise (tax_error (mapEngineError (wrapf prefix e) registry)) end.

(** [PublishRecipe]. *)
Definition publish_identical (repo tag : string) (registry ref existing manifest document : string) : eng PublishResult :=
  if String.eqb existing manifest then mret (mkPublished ref manifest true)
  else
    published ← host_fail registry "" (Head repo tag);
    match VerifyManifest published with
    | Err _ => raise (immutable_error ref existing manifest)
    | Ok (_, remote) =>
        if String.eqb remote document then mret (mkPublished ref existing true)
        else raise (immutable_error ref remote document)
    end.
Definition publish_new (repo tag registry ref manifest config document : string) : eng PublishResult :=
  _ ← host_fail registry "uploading the blob: " (upload repo config);
  _ ← host_fail registry "uploading the blob: " (upload repo document);
  _ ← host_fail registry "publishing the manifest: " (_ ← call; on_dest (put_manifest repo tag manifest));
  mret (mkPublished ref manifest false).
Definition PublishRecipe (allow : option Allowlist) (ref doc : string) : eng PublishResult :=
  '(registry, path, tag) ← lift (parseTagRef allow ref);
  let repo := registry +:+ "/" +:+ path in
  let name := default "" (last (split_byte "/" path)) in
  '(manifest, config, document) ← lift (wrap_err (validationError ref) (Build doc name tag));
  r ← attempt (Head repo tag);
  match r with
  | Ok existing => publish_identical repo tag registry ref existing manifest document
  | Err e =>
      if negb (isNotFound e) then raise (tax_error (mapEngineError e registry))
      else
        publish_new repo tag registry ref manifest config document
  end.

(** * Correctness *)

#[local] Instance keeps_host_fail {A} R `{!PreOrder R} registry prefix (m : eng A) :
  Keeps R m → Keeps R (host_fail registry prefix m).
Proof. intros. unfold host_fail. apply _. Qed.
Lemma host_fail_Done {A} registry prefix (m : eng A) w a w' :
  host_fail registry prefix m w = (Done a, w') → m w = (Done a, w').
Proof.
  unfold host_fail. intros (r & w1 & E1 & E)%bind_Done. destruct r as [x|]; [|done]. injection E as <- <-.
  unfold attempt in E1. destruct (m w) as [[]]; by simplify_eq.
Qed.
Lemma upload_done repo d w w' : upload repo d w = (Done tt, w') → (repo, d) ∈ ds_blobs (w_dest w').
Proof.
  unfold upload. intros (? & w1 & _ & E)%bind_Done. apply bind_Done in E as (has & w2 & [= <- <-] & E).
  destruct (bool_decide _) eqn:Hh; [injection E as <-; by apply bool_decide_eq_true in Hh|].
  apply bind_Done in E as (? & ? & _ & E). injection E as <-. cbn. set_solver.
Qed.
#[local] Instance crosses_upload repo d : Keeps crosses (upload repo d).
Proof.
  unfold upload. do 2 (apply keeps_bind; [apply _|intros]). apply keeps_if; [apply _|].
  apply keeps_bind; [apply _|intros]. intros w Hc. by apply put_blob_grows.
Qed.
Lemma Head_done repo tag w d w' : Head repo tag w = (Done d, w') →
  ds_tags (w_dest w') !! (repo, tag) = Some d ∧ w_dest w' = w_dest w.
Proof.
  intros E. assert (w_dest w' = w_dest w) as Hw by (eapply home_run; [|exact E]; unfold Head; apply _).
  split; [|done]. unfold Head in E. apply bind_Done in E as (? & w1 & _ & E).
  apply bind_Done in E as (o & w2 & [= <- <-] & E). destruct (ds_tags _ !! _) eqn:El; [|done]. by injection E as -> ->.
Qed.

(** A publication, when it returns: the tag is at the digest of the result, whose
    document is the one published; nothing changed when it says so. *)
Lemma PublishRecipe_done allow ref doc w res w' : PublishRecipe allow ref doc w = (Done res, w') →
  ∃ registry path tag m c y, parseTagRef allow ref = Ok (registry, path, tag) ∧
    Build doc (default "" (last (split_byte "/" path))) tag = Ok (m, c, y) ∧
    ds_tags (w_dest w') !! (registry +:+ "/" +:+ path, tag) = Some (pb_digest res) ∧
    (pb_digest res = m ∨ pb_unchanged res = true ∧ ∃ c', VerifyManifest (pb_digest res) = Ok (c', y)) ∧
    (pb_unchanged res = true → w_dest w' = w_dest w).
Proof.
  unfold PublishRecipe. intros ([[registry path] tag] & w1 & [Hp ->]%lift_Done & E)%bind_Done. cbv zeta in E.
  apply bind_Done in E as ([[m c] y] & w2 & [Hb ->]%lift_Done & E).
  assert (Build doc (default "" (last (split_byte "/" path))) tag = Ok (m, c, y)) as Hb'
    by (unfold wrap_err in Hb; by destruct (Build _ _ _)).
  exists registry, path, tag, m, c, y. do 2 (split; [done|]). clear Hb.
  apply bind_Done in E as (r & w3 & E3 & E). unfold attempt in E3.
  destruct (Head (registry +:+ "/" +:+ path) tag w) as [[x|?|] w4] eqn:Eh; simplify_eq.
  - apply Head_done in Eh as [Ht Hw]. unfold publish_identical in E.
    destruct (String.eqb_spec x m) as [->|]; [injection E as <- <-; cbn; auto|].
    apply bind_Done in E as (published & w5 & [Ht' Hw']%host_fail_Done%Head_done & E).
    assert (published = x) as -> by congruence.
    destruct (VerifyManifest x) as [[c' remote]|] eqn:Ev; [|done].
    destruct (String.eqb_spec remote y) as [->|]; [|done]. injection E as <- <-. cbn.
    split_and!; [done|eauto|congruence].
  - destruct (negb (isNotFound _)); [done|]. unfold publish_new in E. do 2 (apply bind_Done in E as (? & ? & _ & E)).
    apply bind_Done in E as (? & w7 & E7%host_fail_Done & E). apply bind_Done in E7 as (? & w8 & _ & E7).
    injection E7 as <-. injection E as <- <-. cbn. split_and!; [|by left|done].
    unfold parseTagRef in Hp. destruct (_ || _); [done|]. destruct (NewTag ref) as [[[reg' path'] tag']|] eqn:Hn; [|done].
    cbn in Hp. destruct (check_host allow reg'); cbn in Hp; simplify_eq. apply tag_not_empty in Hn.
    cbn. rewrite (proj2 (String.eqb_neq tag "")) by done. by rewrite lookup_insert_eq.
Qed.

(** The registry stays closed: both blobs are there before the manifest is. *)
Lemma crosses_publish_new repo tag registry ref m c y :
  (∀ b, b ∈ named_blobs m → b = c ∨ b = y) → Keeps crosses (publish_new repo tag registry ref m c y).
Proof.
  intros Hb w Hc. unfold publish_new.
  assert (∀ d, Keeps crosses (host_fail registry "uploading the blob: " (upload repo d))) as Hup by (intros; apply _).
  unfold mbind at 1, eng_bind at 1. pose proof (Hup c w Hc) as G1.
  destruct (host_fail _ _ (upload repo c) w) as [[[]|err|] w1] eqn:E1; cbn [snd] in G1 |- *; [|exact G1..].
  unfold mbind at 1, eng_bind at 1. pose proof (Hup y w1 (dg_closed _ _ G1)) as G2.
  assert (dest_grows (w_dest w) (w_dest (host_fail registry "uploading the blob: " (upload repo y) w1).2)) as G12
    by (destruct G1, G2; split; [done|set_solver..]).
  destruct (host_fail _ _ (upload repo y) w1) as [[[]|err|] w2] eqn:E2; cbn [snd] in G2, G12 |- *; [|exact G12..].
  apply host_fail_Done, upload_done, (dg_blobs _ _ G2) in E1. apply host_fail_Done, upload_done in E2.
  unfold host_fail, mbind, eng_bind, attempt. pose proof (proj1 (home_call w2 : at_home _ _)) as Hw.
  destruct (call w2) as [[|err|] w3]; cbn in Hw |- *; rewrite ?Hw; [|exact G12..].
  assert (dest_grows (w_dest w2) (put_manifest repo tag m (w_dest w2))) as [? M3 B3].
  { apply put_manifest_grows; [|apply G2]. by intros b [->| ->]%Hb. }
  destruct G12. split; [done|set_solver..].
Qed.
(** A publication and the registry: it stays closed, and when the tag is there already
    nothing changes. *)
Definition publish_ok (allow : option Allowlist) (ref : string) (w w' : World) : Prop :=
  crosses w w' ∧
  ∀ registry path tag x, parseTagRef allow ref = Ok (registry, path, tag) → truthful w →
    ds_tags (w_dest w) !! (registry +:+ "/" +:+ path, tag) = Some x → w_dest w' = w_dest w.
Lemma publish_ok_same allow ref w w' : w_dest w' = w_dest w → publish_ok allow ref w w'.
Proof. intros Hw. split; [|done]. intros Hc. rewrite Hw. by split. Qed.
Lemma PublishRecipe_spec allow ref doc w : publish_ok allow ref w (PublishRecipe allow ref doc w).2.
Proof.
  unfold PublishRecipe. unfold mbind at 1, eng_bind at 1. destruct (parseTagRef allow ref) as [[[registry path] tag]|] eqn:Hp;
    cbn [lift]; [|by apply publish_ok_same]. cbv zeta. set (repo := registry +:+ "/" +:+ path).
  destruct (Build doc _ tag) as [[[m c] y]|err] eqn:Hb; cbn [wrap_err]; [|by apply publish_ok_same].
  unfold mbind, eng_bind. cbn [lift].
  assert (Keeps at_home (attempt (Head repo tag))) as Hh by (unfold Head; apply _).
  pose proof (proj1 (Hh w : at_home _ _)) as Hw. pose proof (Head_present repo tag) as Hpres.
  destruct (attempt (Head repo tag) w) as [[r|err|] w1] eqn:E1; cbn [snd] in Hw |- *; [|by apply publish_ok_same..].
  assert (∀ n : eng PublishResult, Keeps at_home n → publish_ok allow ref w (n w1).2) as Hsame.
  { intros n Hn. apply publish_ok_same. by rewrite (proj1 (Hn w1 : at_home _ _)). }
  destruct r as [existing|err].
  - apply Hsame. unfold publish_identical, Head. apply keeps_if; [apply _|]. apply keeps_bind; [apply _|].
    intros z. destruct (VerifyManifest z) as [[]|]; apply _.
  - destruct (isNotFound err) eqn:Hnf; cbn [negb]; [|apply (Hsame (raise _)), _]. split.
    + intros Hc. rewrite <-Hw. apply (crosses_publish_new repo tag registry ref m c y (build_blobs _ _ _ _ _ _ Hb)).
      by rewrite Hw.
    + intros ???? [= <- <- <-]%(eq_trans (eq_sym Hp)) Ht Hx. specialize (Hpres _ w _ w1 Ht Hx E1). cbn in Hpres. congruence.
Qed.

(** A published recipe is not overwritten. When the tag a publication names is in
    the cookbook already, then whatever it points at, and however the publication
    ends, the registry is as it was, provided it does not deny a tag it holds. And
    wherever it stops, a publication leaves a closed registry closed. *)
Theorem publish_write_once allow ref doc w registry path tag x
    (Hp : parseTagRef allow ref = Ok (registry, path, tag)) (Ht : truthful w)
    (Hx : ds_tags (w_dest w) !! (registry +:+ "/" +:+ path, tag) = Some x) (Hc : dest_closed (w_dest w)) :
  w_dest (PublishRecipe allow ref doc w).2 = w_dest w ∧
  ∀ ref' doc', dest_closed (w_dest (PublishRecipe allow ref' doc' w).2).
Proof.
  destruct (PublishRecipe_spec allow ref doc w) as [_ Hs]. split; [by eapply Hs|].
  intros ref' doc'. destruct (PublishRecipe_spec allow ref' doc' w) as [Hk _]. by apply Hk.
Qed.

(** Publishing twice is publishing once. After a publication that returned, the
    same document under the same reference is found unchanged, with the digest
    returned the first time, and the registry is left as it is. *)
Theorem publish_idempotent allow ref doc w res w'
    (E : PublishRecipe allow ref doc w = (Done res, w')) (Hq : w_script w' = []) :
  ∃ w2, PublishRecipe allow ref doc w' = (Done (mkPublished ref (pb_digest res) true), w2) ∧ w_dest w2 = w_dest w'.
Proof.
  destruct (PublishRecipe_done _ _ _ _ _ _ E) as (registry & path & tag & m & c & y & Hp & Hb & Htag & Hd & _).
  set (repo := registry +:+ "/" +:+ path) in *.
  assert (Head repo tag w' = (Done (pb_digest res), w')) as Hh.
  { unfold Head, mbind, eng_bind, call, gets. rewrite Hq. cbn. by rewrite Htag. }
  exists w'. split; [|done]. unfold PublishRecipe. rewrite Hp. unfold mbind, eng_bind at 1. cbn [lift]. cbv zeta.
  unfold eng_bind at 1. rewrite Hb. cbn [wrap_err lift]. fold repo. unfold eng_bind at 1, attempt. rewrite Hh.
  unfold publish_identical. destruct (String.eqb_spec (pb_digest res) m) as [->|Hne]; [done|].
  destruct Hd as [|[_ [c' Hv]]]; [done|]. unfold host_fail, mbind, eng_bind, attempt. rewrite Hh. cbn.
  rewrite Hv. by rewrite String.eqb_refl.
Qed.
End publish.

(** * A concrete publication *)

#[local] Program Instance publish_sdk : RecipeSDK := {|
  constraint := unit; ParseConstraint _ := Ok tt; IsExact _ := true; Resolve _ _ := Err "unused";
  VerifyManifest d := if String.eqb d "M" then Ok ("C", "L") else Err (plain "layout");
  ParseRecipe _ := Err (plain "unused"); ValidateCooked _ := Ok tt;
  ValidatePublishLocation _ _ _ := Err (plain "unused");
  ParseRetriever _ := Err (plain "unused"); error_list _ := None; MaxDocumentBytes := 1000 |}.
Next Obligation. done. Qed.
#[local] Instance publish_upstream : Upstream := {|
  NewRepository s := Ok s; up_tags _ := Ok []; up_get _ _ := Err head_absent; up_referrers _ _ := Ok []; fmt_q s := s |}.
#[local] Program Instance publish_lib : Publishing := {|
  Build _ _ _ := Ok ("M", "C", "L"); NewTag _ := Ok ("reg.io", "cookbook/app", "1.0") |}.
Next Obligation. by intros ?????? [= <- <- <-]. Qed.
Next Obligation. intros ?????? [= <- <- <-] b. vm_compute. set_solver. Qed.
Next Obligation. by intros ???? [= <- <- <-]. Qed.

Definition published_world : World := demo_run_world empty_store [].
Definition publish_demo : outcome PublishResult * World := PublishRecipe None "reg.io/cookbook/app:1.0" "doc" published_world.
Lemma publish_write_once_witness :
  let w := publish_demo.2 in
  ds_tags (w_dest w) !! ("reg.io/cookbook/app", "1.0") = Some "M" ∧
  w_dest (PublishRecipe None "reg.io/cookbook/app:1.0" "other" w).2 = w_dest w.
Proof.
  intros w. assert (ds_tags (w_dest w) !! ("reg.io/cookbook/app", "1.0") = Some "M") as Ht by (vm_compute; reflexivity).
  split; [exact Ht|].
  apply (publish_write_once None "reg.io/cookbook/app:1.0" "other" w "reg.io" "cookbook/app" "1.0" "M").
  - vm_compute. reflexivity.
  - vm_compute. constructor.
  - exact Ht.
  - destruct (PublishRecipe_spec None "reg.io/cookbook/app:1.0" "doc" published_world) as [Hk _].
    apply Hk. split; set_solver.
Defined.
Lemma publish_idempotent_witness :
  publish_demo.1 = Done (mkPublished "reg.io/cookbook/app:1.0" "M" false) ∧
  ∃ w2, PublishRecipe None "reg.io/cookbook/app:1.0" "doc" publish_demo.2 =
    (Done (mkPublished "reg.io/cookbook/app:1.0" "M" true), w2) ∧ w_dest w2 = w_dest publish_demo.2.
Proof.
  split; [vm_compute; reflexivity|].
  apply (publish_idempotent None "reg.io/cookbook/app:1.0" "doc" published_world
    (mkPublished "reg.io/cookbook/app:1.0" "M" false) publish_demo.2).
  - vm_compute. reflexivity.
  - vm_compute. reflexivity.
Defined.
