(* ===== verification/Sync.v ===== *)
(** One synchronization (internal/engine/sync.go): the Retriever, then for each of its
    entries the resolution, the verification, the transfer of the ingredients, the
    recipe artifact, the promotion and the record in the recipe graph; last the prune
    and the media manifest.

    The ingredients of a recipe are transferred by goroutines. Each one here runs to
    its end, either at once or while the main goroutine waits, in any order: what
    they share is the store, whose writes only add, and the task behind its lock. *)

From S2P Require Import Prelude GoStrings Relocate Policy Taxonomy Tasks MediaVerify SigKeys SigVerify Trust.
From S2P Require Import StoreMeta StoreGC Prune Preflight Transfer Remotes Promote.

(** The chart check of the importer, by image digest: the dependency rows, and its
    error if there is one; and the digest of the referrers index built from
    descriptors, which is an index. *)
Class SyncLib `{Documents} : Type := {
  VerifyChart : string → list ChartDependency * option go_error;
  index_digest : list string → string;
  index_digest_doc ds : ∃ children, doc_of (index_digest ds) = Some (Index children) }.
(** Which goroutines finish before the next is launched, and the order the others
    finish in. *)
Class Scheduling : Type := {
  eager : string → bool;
  wait_order : list (nat * Ingredient) → list (nat * Ingredient);
  wait_order_perm l : wait_order l ≡ₚ l }.

Section sync.
Context `{GoRuntime, StoreIO, Documents, RecipeSDK, Upstream, Volume, KeyLib, SigCodec, Zone}.
Context `{!SyncLib, Scheduling}.

(** * The store's bookkeeping, from a run *)

Definition store_failed (e : store_error) : go_error := plain "store: metadata".
Definition on_meta (f : Meta → res store_error Meta) : eng unit :=
  r ← gets (λ w, f (st_meta (w_store w)));
  match r with
  | Ok m => on_store (λ st, mkStore (st_repos st) (st_blobs st) m)
  | Err e => raise (store_failed e)
  end.
Definition set_provenance (repo : string) (p : Provenance) : eng unit :=
  now ← gets w_now; on_meta (SetProvenance repo p now).
Definition runID : eng string := gets (λ w, t_run_id (w_task w)).

(** [recordProvenance]: best effort. *)
Definition recordProvenance (repo rid : string) : eng unit :=
  run ← runID;
  let '(name, version) := match cut_byte "@" rid with Some p => p | None => (rid, "") end in
  _ ← attempt (set_provenance repo (mkProvenance ProvenanceRecipe "" name version run 0));
  mret tt.

(** [ingredientRecord]. *)
Definition ingredientRecord (base : string) (ing : Ingredient) : IngredientRecord :=
  mkIngredientRecord (ig_name ing) (kind_name (ig_kind ing))
    (match PathWithBase base (ig_ref ing) with Ok repo => repo | Err _ => "" end) (ig_version ing) (ig_digest ing).

(** * Signatures that travel *)

Definition fetch_artifact_blob (r : Remotes) (nominal b : string) : eng unit :=
  _ ← fetch_blob r nominal b MaxDocumentBytes; mret tt.
Definition copy_artifact (r : Remotes) (nominal local tag d : string) : eng unit :=
  _ ← lift (Repository r nominal); copyArtifact (fetch_artifact_blob r nominal) local tag d.

(** The candidates [copyReferringSignatures] copies: every digest once. *)
Fixpoint copy_candidates (r : Remotes) (nominal local : string) (ds : list string) (seen : gset string) : eng (list string) :=
  match ds with
  | [] => mret []
  | d :: ds =>
      if String.eqb d "" || bool_decide (d ∈ seen) then copy_candidates r nominal local ds seen
      else
        got ← attempt (Get r nominal d);
        copied ← match got with
                 | Err _ => mret []
                 | Ok d' =>
                     done ← attempt (copy_artifact r nominal local "" d');
                     mret (match done with Ok _ => [d'] | Err _ => [] end)
                 end;
        rest ← copy_candidates r nominal local ds ({[ d ]} ∪ seen);
        mret (copied ++ rest)
  end.
Definition fallback_tag (d : string) : string := "sha256-" +:+ default d (cut_prefix "sha256:" d).
Definition copyReferringSignatures (r : Remotes) (nominal local d : string) : eng unit :=
  listed ← attempt (_ ← call; lift (remote_referrers r nominal d));
  fallback ← attempt (Get r nominal (fallback_tag d));
  let digests :=
    match listed with Ok ds => ds | Err _ => [] end ++
    match fallback with
    | Ok i => match doc_of i with Some (Index children) => ch_digest <$> children | _ => [] end
    | Err _ => []
    end in
  copied ← copy_candidates r nominal local digests ∅;
  match copied with
  | [] => mret tt
  | _ => _ ← attempt (PutManifest local (index_digest copied) (fallback_tag d)); mret tt
  end.
(** [copyAttachedSignature]: both layouts; an absence is no error. *)
Definition copyAttachedSignature (r : Remotes) (nominal local d : string) : eng unit :=
  let tag := SignatureTag d in
  got ← attempt (Get r nominal tag);
  _ ← match got with Ok s => attempt (copy_artifact r nominal local tag s) | Err e => mret (Err e) end;
  copyReferringSignatures r nominal local d.

(** * One ingredient *)

(** [transferIngredient]. *)
Definition mismatch_error (code : Code) (ref expected actual : string) : go_error :=
  tax_error (tax code (strs [("reference", ref); ("expected", expected); ("actual", actual)])).
Definition check_chart (ing : Ingredient) (d : string) : eng unit :=
  if decide (ig_kind ing = KindHelmChart) then
    let '(rows, err) := VerifyChart d in
    _ ← match rows with [] => mret tt | _ => on_task (λ t, set_charts (t_charts t ++ rows) t) end;
    match err with Some e => raise e | None => mret tt end
  else mret tt.
Definition transferIngredient (r : Remotes) (item : string) (ing : Ingredient) (repo : string) : eng unit :=
  d ← Get r (ig_ref ing) (ig_digest ing);
  _ ← lift (Repository r (ig_ref ing));
  if negb (String.eqb d (ig_digest ing)) then
    raise (mismatch_error CodeDigestMismatch (ig_ref ing) (ig_digest ing) d)
  else if bool_decide (ig_kind ing = KindOCIArtifact) && negb (String.eqb (ig_artifact_type ing) "") &&
          negb (String.eqb (doc_artifact_type d) (ig_artifact_type ing)) then
    raise (mismatch_error CodeArtifactType (ig_ref ing) (ig_artifact_type ing) (doc_artifact_type d))
  else
    match doc_of d with
    | Some (Index _) =>
        selected ← lift (selectPlatforms (ig_ref ing) d (ig_platforms ing));
        copyIndexChildren (Some item) repo (ig_version ing) d selected
    | _ =>
        _ ← call;
        _ ← check_chart ing d;
        copyImage (Some item) repo (ig_version ing) d
    end.

(** [syncIngredient]. *)
Definition syncIngredient (e : Engine) (rid : string) (ing : Ingredient) : eng (IngredientRecord * Resolution) :=
  let rec := ingredientRecord (en_base e) ing in
  let repo := ir_repo rec in
  let item := rid +:+ "/" +:+ ig_name ing in
  effective ← lift (relocated (Effective (en_remotes e) (ig_ref ing)));
  let row status := mkResolution rid (ig_name ing) (ig_version ing) (ig_version ing) (ig_digest ing)
    (status_name status) (if String.eqb effective (ig_ref ing) then "" else effective) "" "" "" 0%Z in
  has ← HasManifest repo (ig_digest ing);
  tag ← (if (has : bool) then ResolveTag repo (ig_version ing) else mret None);
  if bool_decide (tag = Some (ig_digest ing)) then
    _ ← on_item item (set_status StatusSkipped);
    _ ← recordProvenance repo rid;
    mret (rec, row StatusUpToDate)
  else
    '(r, transferred) ← metered (withRetries (en_cancelled e) (en_retries e) 0
       (transferIngredient (en_remotes e) item ing repo));
    match r with
    | Err err => raise err
    | Ok _ =>
        _ ← copyAttachedSignature (en_remotes e) (ig_ref ing) repo (ig_digest ing);
        _ ← recordProvenance repo rid;
        _ ← on_item item (λ it, set_size transferred (set_status StatusDone it));
        mret (rec, row (if (has : bool) then StatusOutdated else StatusNew))
    end.

(** The goroutine of an ingredient, with its panic barrier; the record, if it got
    one. *)
Definition barrier {A} (m : eng A) : eng (option (res go_error A)) := λ w,
  match m w with
  | (Done a, w) => (Done (Some (Ok a)), w)
  | (Failed e, w) => (Done (Some (Err e)), w)
  | (Panicked, w) => (Done None, w)
  end.
Definition settle_failed (item : string) (te : TaxError) : eng unit :=
  _ ← on_resolved failed_recipe; on_item item (fail_item te).
Definition ingredient_task (e : Engine) (rid : string) (ing : Ingredient) : eng (option IngredientRecord) :=
  let item := rid +:+ "/" +:+ ig_name ing in
  r ← barrier (syncIngredient e rid ing);
  match r with
  | Some (Ok (rec, row)) => _ ← resolve_row row; mret (Some rec)
  | Some (Err err) => _ ← settle_failed item (mapError err (ig_ref ing)); mret None
  | None => _ ← settle_failed item (tax CodeInternal ∅); mret None
  end.

(** * One recipe *)

(** [verifyRecipe]: the scope's keys over the remote artifact. *)
Definition verifyRecipe (r : Remotes) (f : FetchedRecipe) (d : Decision) : res go_error bool :=
  match dc_keys d with
  | Some keys =>
      match sigverify_Verify (remoteManifests r (f_repo f)) (f_repo f) (f_digest f) keys with
      | SigOk _ => Ok true
      | SigAbsent as o =>
          if dc_allow_unsigned d then Ok false
          else match sig_error o with Some e => Err e | None => Ok true end
      | o => match sig_error o with Some e => Err e | None => Ok true end
      end
  | None => if dc_allow_unsigned d then Ok false else Err (no_root_error (f_repo f +:+ ":" +:+ f_tag f))
  end.

(** The loop that launches the ingredients; the records by position. *)
Definition note_record (i : nat) (rec : option IngredientRecord) (records : gmap nat IngredientRecord) :=
  match rec with Some rec => <[i := rec]> records | None => records end.
Fixpoint run_waiting (e : Engine) (rid : string) (waiting : list (nat * Ingredient)) (records : gmap nat IngredientRecord)
  : eng (gmap nat IngredientRecord) :=
  match waiting with
  | [] => mret records
  | (i, ing) :: waiting =>
      rec ← ingredient_task e rid ing;
      run_waiting e rid waiting (note_record i rec records)
  end.
Fixpoint launch (e : Engine) (rid : string) (i : nat) (ings : list Ingredient) (waiting : list (nat * Ingredient))
    (records : gmap nat IngredientRecord) : eng (gmap nat IngredientRecord) :=
  match ings with
  | [] => run_waiting e rid (wait_order waiting) records
  | ing :: ings =>
      let item := rid +:+ "/" +:+ ig_name ing in
      done ← gets (λ w, settled item (w_task w));
      if (done : bool) then
        launch e rid (S i) ings waiting (<[i := ingredientRecord (en_base e) ing]> records)
      else
        _ ← on_item item (λ it, set_digest (ig_digest ing) (set_status StatusRunning it));
        if eager (ig_name ing) then
          rec ← ingredient_task e rid ing;
          launch e rid (S i) ings waiting (note_record i rec records)
        else launch e rid (S i) ings (waiting ++ [(i, ing)]) records
  end.
Definition kept_records (n : nat) (records : gmap nat IngredientRecord) : list IngredientRecord :=
  filter (λ r, ir_repo r ≠ "") (omap (records !!.) (seq 0 n)).

(** [storeRecipeArtifact]. *)
Definition storeRecipeArtifact (e : Engine) (f : FetchedRecipe) (recipe : Recipe) : eng PlatformStatus :=
  local ← lift (relocated (PathWithBase (en_base e) (f_repo f)));
  tag ← ResolveTag local (f_tag f);
  if bool_decide (tag = Some (f_digest f)) then mret StatusUpToDate
  else
    _ ← copy_artifact (en_remotes e) (f_repo f) local (f_tag f) (f_digest f);
    _ ← copyAttachedSignature (en_remotes e) (f_repo f) local (f_digest f);
    _ ← set_provenance local (mkProvenance ProvenanceRecipe "" (rc_name recipe) (rc_version recipe) "" 0);
    mret StatusNew.

(** The recipe artifact's item; [false] stops the entry. *)
Definition sync_artifact (e : Engine) (f : FetchedRecipe) (recipe : Recipe) (rid : string) : eng bool :=
  let item := rid +:+ "/recipe" in
  done ← gets (λ w, settled item (w_task w));
  if (done : bool) then mret true
  else
    _ ← on_item item (set_status StatusRunning);
    r ← attempt (storeRecipeArtifact e f recipe);
    match r with
    | Err err => _ ← settle_failed item (mapError err rid); mret false
    | Ok status =>
        _ ← on_item item (λ it, set_digest (f_digest f)
              (set_status (if decide (status = StatusUpToDate) then StatusSkipped else StatusDone) it));
        mret true
    end.

(** The graph entry. *)
Definition recipe_record (e : Engine) (f : FetchedRecipe) (recipe : Recipe) (run zone : string) (now : time)
    (verified : bool) (scope : string) (kept : list IngredientRecord) : RecipeRecord :=
  mkRecipeRecord (rc_name recipe) (rc_version recipe) (f_repo f)
    (match PathWithBase (en_base e) (f_repo f) with Ok repo => repo | Err _ => "" end)
    (f_tag f) (f_digest f) run zone now verified scope kept.

(** What follows the verification of an entry: ingredients, artifact, promotion,
    record. *)
Definition sync_verified (e : Engine) (entry : Selector) (zone rid : string) (f : FetchedRecipe) (recipe : Recipe)
    (verified : bool) (scope : string) : eng unit :=
  _ ← resolve_row (mkResolution rid "" (sl_version entry) (f_tag f) (f_digest f) "" "" scope "" "" 0%Z);
  records ← launch e rid 0 (rc_ingredients recipe) [] ∅;
  ok ← sync_artifact e f recipe rid;
  if negb ok then mret tt
  else
    _ ← promoteRecipe e f recipe rid (ownContent (en_base e));
    run ← runID;
    now ← gets w_now;
    r ← attempt (on_meta (PutRecipeRecord (recipe_record e f recipe run zone now verified scope
          (kept_records (length (rc_ingredients recipe)) records))));
    match r with
    | Err err => settle_failed rid (mapError err (sl_name entry))
    | Ok _ => on_resolved (keep_recipe (rc_name recipe) (rc_version recipe))
    end.

(** [syncRecipe]: an error before that fails the entry's item. *)
Definition entry_fail {A} (item subject : string) (m : eng A) (f : A → eng unit) : eng unit :=
  r ← attempt m;
  match r with Ok a => f a | Err err => settle_failed item (mapError err subject) end.
Definition syncRecipe (e : Engine) (cookbook : string) (zone : string) (entry : Selector) : eng unit :=
  let name := sl_name entry in
  let r := en_remotes e in
  entry_fail name name (versions ← Versions r cookbook name; lift (ResolveVersion (sl_version entry) versions)) (λ tag,
  let rid := name +:+ "@" +:+ tag in
  entry_fail rid name (FetchArtifact r cookbook name tag) (λ f,
  entry_fail rid name (lift (relocated (nominalRepoOf cookbook name))) (λ trustRepo,
  let d := Decide (en_trust e) trustRepo in
  entry_fail rid name (_ ← call; lift (verifyRecipe r f d)) (λ verified,
  entry_fail rid name (LoadDocument r f name) (λ recipe,
  sync_verified e entry zone rid f recipe verified (dc_scope d)))))).

(** * The run *)

Fixpoint sync_entries (e : Engine) (retr : Retriever) (entries : list Selector) : eng unit :=
  match entries with
  | [] => mret tt
  | entry :: entries =>
      let cookbook := if String.eqb (sl_cookbook entry) "" then rt_cookbook retr else sl_cookbook entry in
      _ ← syncRecipe e cookbook (rt_name retr) entry;
      sync_entries e retr entries
  end.
Definition prune_run (e : Engine) (grace : Z) : eng unit := λ w,
  let '(rows, st) := pruneToRetriever (en_base e) (w_resolved w) (w_now w - grace) (w_store w) in
  let t := match rows with Some rows => set_pruned rows (w_task w) | None => w_task w end in
  (Done tt, mkWorld st t (w_resolved w) (w_moved w) (w_dest w) (w_now w) (w_script w)).
(** [run]; [plan] is what the planner answers, [media] the writer of the media
    manifest. *)
Definition run `{!RetrieverIO} (e : Engine) (source : string) (marginDisabled : bool)
    (plan : World → option (list VolumeCheck)) (grace : Z)
    (media : option (string → string → time → eng unit)) : eng unit :=
  retr ← attempt (LoadRetriever (en_remotes e) source);
  match retr with
  | Err err => raise (tax_error (mapError err source))
  | Ok retr =>
      resolvedAt ← gets w_now;
      refusal ← gets (λ w, preflightGate marginDisabled (plan w));
      match refusal with
      | Some te => raise (tax_error te)
      | None =>
          _ ← on_task (set_resolutions []);
          _ ← on_resolved (λ _, newResolvedRecipes);
          _ ← sync_entries e retr (rt_recipes retr);
          prune ← gets (λ w, t_prune (w_task w));
          _ ← (if (prune : bool) then prune_run e grace else mret tt);
          match media with
          | None => mret tt
          | Some write =>
              id ← runID;
              r ← attempt (write (rt_name retr) id resolvedAt);
              match r with Ok _ => mret tt | Err err => raise (tax_error (mapError err (rt_name retr))) end
          end
      end
  end.
End sync.
