(* ===== verification/SyncSafety.v ===== *)
(** Correctness of a synchronization: the store stays closed throughout; the recipe
    graph lists, for every recipe the run kept, ingredients that are in the store, and
    all of them when the run is complete; every entry of a complete run is kept; and
    an entry whose signature is refused moves nothing. *)

From S2P Require Import Prelude GoStrings Relocate Policy Taxonomy Tasks MediaVerify SigKeys SigVerify Trust.
From S2P Require Import StoreMeta StoreGC StoreSafety Prune Preflight Transfer TransferSafety Remotes Promote PromoteSafety Sync.

Section sync_safety.
Context `{GoRuntime, StoreIO, Documents, RecipeSDK, Upstream, Volume, KeyLib, SigCodec, Zone}.
Context `{!SyncLib, Scheduling}.

#[local] Abbreviation Tame := (Keeps evolves).

(** * Transfers *)

#[export] Instance tame_Get r nominal reference : Tame (Get r nominal reference).
Proof. unfold Get. apply _. Qed.
#[export] Instance tame_fetch_artifact_blob r nominal b : Tame (fetch_artifact_blob r nominal b).
Proof. unfold fetch_artifact_blob, fetch_blob. apply _. Qed.
#[export] Instance tame_copy_artifact r nominal local tag d : Tame (copy_artifact r nominal local tag d).
Proof. unfold copy_artifact. apply _. Qed.
#[export] Instance tame_copy_candidates r nominal local ds seen : Tame (copy_candidates r nominal local ds seen).
Proof. revert seen. induction ds as [|d ds IH]; intros seen; cbn [copy_candidates]; apply _. Qed.
Lemma tame_put_index repo ds tag : Tame (PutManifest repo (index_digest ds) tag).
Proof.
  apply tame_alt. intros w Hw. destruct (index_digest_doc ds) as [children Hd].
  apply PutManifest_moves; eauto using index_no_blobs.
Qed.
#[export] Instance tame_copyReferringSignatures r nominal local d : Tame (copyReferringSignatures r nominal local d).
Proof.
  unfold copyReferringSignatures. do 3 (apply keeps_bind; [apply _|intros ?]).
  destruct a1 as [|x xs]; [apply _|]. apply keeps_bind; [|intros; apply _].
  apply keeps_attempt, tame_put_index.
Qed.
#[export] Instance tame_copyAttachedSignature r nominal local d : Tame (copyAttachedSignature r nominal local d).
Proof. unfold copyAttachedSignature. apply _. Qed.
#[export] Instance tame_check_chart ing d : Tame (check_chart ing d).
Proof.
  unfold check_chart. destruct (decide _); [|apply _]. destruct (VerifyChart d) as [rows err].
  apply keeps_bind; [|intros; apply _]. destruct rows; [apply _|]. by apply tame_on_task.
Qed.
#[export] Instance tame_transferIngredient r item ing repo : Tame (transferIngredient r item ing repo).
Proof.
  unfold transferIngredient. do 2 (apply keeps_bind; [apply _|intros ?]).
  do 2 (apply keeps_if; [apply _|]). destruct (doc_of a) as [[]|]; apply _.
Qed.
#[export] Instance tame_resolve_row row : Tame (resolve_row row).
Proof. by apply tame_on_task. Qed.
#[export] Instance tame_metered {A} (m : eng A) : Tame m → Tame (metered m).
Proof. intros. unfold metered. apply _. Qed.
#[export] Instance tame_completeIndex r ing local : Tame (completeIndex r ing local).
Proof. unfold completeIndex. apply keeps_bind; [apply _|]. intros d. destruct (doc_of d) as [[]|]; apply _. Qed.

(** The children of an index that an ingredient asks for, and whether a repository of
    the store has them. *)
Definition selected_by (platforms : list string) (c : child) : Prop := platforms = [] ∨ wanted platforms c = true.
Definition children_in (repo d : string) (platforms : list string) (st : Store) : Prop :=
  ∀ children c, doc_of d = Some (Index children) → c ∈ children → selected_by platforms c →
    linked_revision repo (ch_digest c) st = true.
Lemma selected_kept ref d platforms children sel c :
  doc_of d = Some (Index children) → selectPlatforms ref d platforms = Ok sel → c ∈ children → selected_by platforms c →
  match sel with Some s => ch_digest c ∈ s | None => True end.
Proof.
  intros Hd Hs Hc Hsel. pose proof (selectPlatforms_exact ref d platforms children Hd) as Hx. rewrite Hs in Hx.
  destruct sel as [s|]; [|done]. destruct Hx as (Hne & _ & Hin & _). destruct Hsel; [done|auto].
Qed.

(** A transfer that returns has the pinned digest in the store, under its version, and
    the children it selects. *)
Lemma transferIngredient_done r item ing repo w w' : fine w →
  transferIngredient r item ing repo w = (Done tt, w') →
  linked_revision repo (ig_digest ing) (w_store w') = true ∧ tagged repo (ig_version ing) (ig_digest ing) (w_store w') ∧
  children_in repo (ig_digest ing) (ig_platforms ing) (w_store w').
Proof.
  intros Hw E. unfold transferIngredient in E. dstep E d w1 E1 M1. dstep E u w2 E2 M2.
  destruct (String.eqb_spec d (ig_digest ing)) as [->|]; [cbn [negb] in E|done].
  destruct (bool_decide _ && _ && _); [done|].
  assert (∀ w1, fine w1 →
    (_ ← call; _ ← check_chart ing (ig_digest ing);
     copyImage (Some item) repo (ig_version ing) (ig_digest ing)) w1 = (Done tt, w') →
    linked_revision repo (ig_digest ing) (w_store w') = true ∧ tagged repo (ig_version ing) (ig_digest ing) (w_store w') ∧
    children_in repo (ig_digest ing) (ig_platforms ing) (w_store w')) as Himg.
  { clear. intros w1 Hw E. dstep E a2 w2 E2 M2. dstep E a3 w3 E3 M3.
    apply (copyImage_done _ _ _ _ _ _ (moves_fine _ _ M3)) in E as ((? & ? & Hd) & ? & ?). split_and!; [done..|].
    intros children c Hd'. congruence. }
  destruct (doc_of (ig_digest ing)) as [[]|] eqn:Hd; [by apply (Himg w2 (moves_fine _ _ M2))| |by apply (Himg w2 (moves_fine _ _ M2))].
  dstep E sel w3 E3 M3. apply lift_Done in E3 as [E3 _].
  apply (copyIndexChildren_done _ _ _ _ _ _ _ (moves_fine _ _ M3)) in E as (children1 & Hd1 & Hch & ? & ?).
  split_and!; [done..|]. intros children2 c Hd2 Hc Hsel. assert (children2 = children1) as -> by congruence.
  apply Hch; [done|]. by eapply selected_kept.
Qed.

(** * What a run maintains *)

Context (base : string).

(** Where an ingredient belongs, and whether it is there. *)
Definition place (ing : Ingredient) : option (string * string) :=
  match PathWithBase base (ig_ref ing) with Ok repo => Some (repo, ig_digest ing) | Err _ => None end.
Definition in_store (p : option (string * string)) (st : Store) : Prop :=
  match p with Some (repo, d) => linked_revision repo d st = true | None => False end.
Lemma in_store_ext p st st' : ext st st' → in_store p st → in_store p st'.
Proof. intros He. destruct p as [[repo d]|]; [|done]. apply (ext_revision _ _ He). Qed.

(** An ingredient of some recipe artifact, with the name of its task item. *)
Definition published (ing : Ingredient) (item : string) : Prop :=
  ∃ d config layer recipe, VerifyManifest d = Ok (config, layer) ∧ ParseRecipe (doc_bytes layer) = Ok recipe ∧
    ing ∈ rc_ingredients recipe ∧ item = recipeKey (rc_name recipe) (rc_version recipe) +:+ "/" +:+ ig_name ing.
(** The children it asks for are there too. *)
Definition shipped (ing : Ingredient) (st : Store) : Prop :=
  match place ing with Some (repo, d) => children_in repo d (ig_platforms ing) st | None => False end.
Lemma shipped_ext ing st st' : ext st st' → shipped ing st → shipped ing st'.
Proof.
  intros He. unfold shipped. destruct (place ing) as [[repo d]|]; [|done]. intros Hs children c Hd Hc Hsel.
  apply (ext_revision _ _ He). by eapply Hs.
Qed.
(** Item names tell contents apart, and leave the engine's own items alone. *)
Record item_names : Prop := {
  names_place item i1 i2 : published i1 item → published i2 item →
    place i1 = place i2 ∧ ig_platforms i1 = ig_platforms i2;
  names_push item ing : published ing item → has_prefix item pushItemPrefix = false;
  names_recipe item ing : published ing item → has_suffix item "/recipe" = false }.
Context (names : item_names).

(** A settled item stands for content that is in the store; one that is done, and not
    skipped because the version was found there, for the selected children as well. *)
Definition honest (t : Task) (st : Store) : Prop :=
  ∀ item ing, published ing item →
    (settled item t = true → in_store (place ing) st) ∧ (item_status item t = StatusDone → shipped ing st).

(** A graph entry: its ingredients are in the store; it is full when it lists those of
    the recipe its digest stands for. *)
Definition record_stored (rec : RecipeRecord) (st : Store) : Prop :=
  ∀ i, i ∈ rr_ingredients rec → linked_revision (ir_repo i) (ir_digest i) st = true.
Definition record_lists (rec : RecipeRecord) (recipe : Recipe) : Prop :=
  ∃ config layer, VerifyManifest (rr_digest rec) = Ok (config, layer) ∧
    ParseRecipe (doc_bytes layer) = Ok recipe ∧
    rr_name rec = rc_name recipe ∧ rr_version rec = rc_version recipe ∧
    rr_ingredients rec = ingredientRecord base <$> rc_ingredients recipe.
Definition ingredient_item (recipe : Recipe) (ing : Ingredient) : string :=
  recipeKey (rc_name recipe) (rc_version recipe) +:+ "/" +:+ ig_name ing.
(** Full, with the items of all its ingredients settled. *)
Definition record_full (t : Task) (rec : RecipeRecord) : Prop :=
  ∃ recipe, record_lists rec recipe ∧
    ∀ ing, ing ∈ rc_ingredients recipe → settled (ingredient_item recipe ing) t = true.
Lemma lists_published rec recipe ing :
  record_lists rec recipe → ing ∈ rc_ingredients recipe → published ing (ingredient_item recipe ing).
Proof. intros (config & layer & ? & ? & _) Hin. by exists (rr_digest rec), config, layer, recipe. Qed.
Definition graph_entry (complete : bool) (t : Task) (st : Store) (rec : RecipeRecord) : Prop :=
  record_stored rec st ∧ (complete = true → record_full t rec).
Definition graph_ok (res : resolvedRecipes) (t : Task) (st : Store) : Prop :=
  ∀ key, key ∈ rv_keys res → ∃ rec, mt_recipes (st_meta st) !! key = Some rec ∧ graph_entry (rv_complete res) t st rec.

Record Inv (w : World) : Prop := {
  inv_fine : fine w;
  inv_honest : honest (w_task w) (w_store w);
  inv_graph : graph_ok (w_resolved w) (w_task w) (w_store w) }.
Definition incomplete (w : World) : Prop := rv_complete (w_resolved w) = false.
(** The items of ingredients that were settled stay settled, unless something failed. *)
Definition lasting (w w' : World) : Prop :=
  ∀ item ing, published ing item → settled item (w_task w) = true → settled item (w_task w') = true ∨ incomplete w'.
Record advance (w w' : World) : Prop := {
  ad_inv : Inv w';
  ad_ext : ext (w_store w) (w_store w');
  ad_keys : rv_keys (w_resolved w) ⊆ rv_keys (w_resolved w');
  ad_complete : rv_complete (w_resolved w') = true → rv_complete (w_resolved w) = true;
  ad_lasting : lasting w w' }.
Lemma lasting_same w w' : (∀ item, item_status item (w_task w') = item_status item (w_task w)) → lasting w w'.
Proof. intros Hs item ing _. unfold settled. rewrite Hs. by left. Qed.
Lemma advance_refl w : Inv w → advance w w.
Proof. intros. split; try done. by apply lasting_same. Qed.
Lemma advance_trans w1 w2 w3 : advance w1 w2 → advance w2 w3 → advance w1 w3.
Proof.
  intros [? E1 K1 C1 L1] [? E2 K2 C2 L2]. split; [done|by etrans|by etrans|auto|].
  intros item ing Hp Hs. destruct (L1 item ing Hp Hs) as [Hs2|Hi]; [by apply (L2 item ing)|right].
  unfold incomplete in *. destruct (rv_complete (w_resolved w3)); [|done]. rewrite C2 in Hi by done. done.
Qed.
Definition sound (w w' : World) : Prop := Inv w → advance w w'.
#[local] Instance sound_preorder : PreOrder sound.
Proof.
  split; [intros w Hw; by apply advance_refl|]. intros w1 w2 w3 S1 S2 Hw. pose proof (S1 Hw) as A1.
  eapply advance_trans; [exact A1|]. apply S2, A1.
Qed.

Lemma record_stored_ext rec st st' : ext st st' → record_stored rec st → record_stored rec st'.
Proof. intros [] Hr i Hi. auto. Qed.
Lemma record_full_status t t' rec :
  (∀ item, item_status item t' = item_status item t) → record_full t rec → record_full t' rec.
Proof.
  intros Hs (recipe & ? & Hall). exists recipe. split; [done|]. intros ing Hin. unfold settled. rewrite Hs. by apply Hall.
Qed.
Lemma graph_ok_ext res t t' st st' :
  ext st st' → mt_recipes (st_meta st') = mt_recipes (st_meta st) → (∀ item, item_status item t' = item_status item t) →
  graph_ok res t st → graph_ok res t' st'.
Proof.
  intros He Hm Ht Hg key (rec & ? & ? & Hf)%Hg. exists rec. rewrite Hm. split; [done|].
  split; [by eapply record_stored_ext|]. intros Hc. by eapply record_full_status, Hf.
Qed.
Lemma honest_ext t t' st st' :
  ext st st' → (∀ item, item_status item t' = item_status item t) → honest t st → honest t' st'.
Proof.
  intros He Ht Hh item ing Hp. destruct (Hh item ing Hp) as [Hin Hsh]. unfold settled in *. rewrite Ht.
  split; [intros Hs; eapply in_store_ext; [done|by apply Hin]|intros Hs; eapply shipped_ext; [done|by apply Hsh]].
Qed.
Lemma moves_sound w w' : (fine w → moves w w') → sound w w'.
Proof.
  intros Hm Hi. destruct (Hm (inv_fine _ Hi)) as [? ? E R Hr ? S].
  split; [|done|by rewrite Hr|by rewrite Hr|by apply lasting_same].
  split; [done|eapply honest_ext; [done..|]; apply Hi|]. rewrite Hr. eapply graph_ok_ext; [done..|]. apply Hi.
Qed.
#[local] Instance tame_sound {A} (m : eng A) : Tame m → Keeps sound m | 20.
Proof. intros Ht w. apply moves_sound. intros [? ?]. by apply (keeps (R := evolves) w). Qed.
#[local] Instance keeps_barrier {A} (m : eng A) : Keeps sound m → Keeps sound (barrier m).
Proof. intros Hm w. specialize (Hm w). unfold barrier. by destruct (m w) as [[]]. Qed.

(** ** The steps that are not transfers *)

#[local] Instance sound_on_dest f : Keeps sound (on_dest f).
Proof. intros w [? ? ?]. split; [by split|done..|by apply lasting_same]. Qed.
Lemma graph_ok_failed res t t' st : graph_ok res t st → graph_ok (failed_recipe res) t' st.
Proof. intros Hg key (rec & ? & ? & _)%Hg. exists rec. by split. Qed.
#[local] Instance sound_failed : Keeps sound (on_resolved failed_recipe).
Proof. intros w [? ? ?]. split; [|done..|by apply lasting_same]. split; [done..|]. by eapply graph_ok_failed. Qed.
#[local] Instance sound_on_meta f :
  (∀ m m', f m = Ok m' → mt_recipes m' = mt_recipes m) → Keeps sound (on_meta f).
Proof.
  intros Hf w Hi. unfold on_meta, mbind, eng_bind, gets.
  destruct (f (st_meta (w_store w))) as [m|e] eqn:E; [|by apply advance_refl].
  apply Hf in E. destruct Hi as [[? [? ? ?]] Hh Hg]. split; [|done..|by apply lasting_same]. split; [by split|done|].
  cbn. eapply graph_ok_ext; [| | |done]; done.
Qed.
Lemma SetProvenance_recipes repo p now m m' : SetProvenance repo p now m = Ok m' → mt_recipes m' = mt_recipes m.
Proof. unfold SetProvenance, io. by destruct (io_fail _), (io_fail _); intros [= <-]. Qed.
#[local] Instance sound_set_provenance repo p : Keeps sound (set_provenance repo p).
Proof.
  unfold set_provenance. apply keeps_bind; [apply _|]. intros now. apply sound_on_meta.
  intros m m'. apply SetProvenance_recipes.
Qed.
#[local] Instance sound_recordProvenance repo rid : Keeps sound (recordProvenance repo rid).
Proof. unfold recordProvenance, runID. apply _. Qed.

(** An item may be settled when what it stands for is there, and is unsettled only when
    something failed. *)
Record may_set (name : string) (f : Item → Item) (w : World) : Prop := {
  ms_name : keeps_name f;
  ms_in ing : published ing name → (∃ it, settles (it_status (f it)) = true) → in_store (place ing) (w_store w);
  ms_shipped ing : published ing name → (∃ it, it_status (f it) = StatusDone) → shipped ing (w_store w);
  ms_lasting ing : published ing name → settled name (w_task w) = true →
    (∀ it, settles (it_status (f it)) = true) ∨ incomplete w }.
Lemma on_item_sound name f w : may_set name f w → sound w (on_item name f w).2.
Proof.
  intros [Hn Hin Hsh Hl] [? Hh Hg].
  assert (∀ item, item_status item (w_task (on_item name f w).2) =
    if String.eqb name item
    then it_status (f (default (new_item name) (List.find (λ it, String.eqb (it_name it) name) (t_items (w_task w)))))
    else item_status item (w_task w)) as Hst by (intros; by apply item_status_upd).
  assert (lasting w (on_item name f w).2) as Hlast.
  { intros item ing Hp. unfold settled at 2. rewrite Hst. destruct (String.eqb_spec name item) as [<-|]; [|by left].
    intros Hs. destruct (Hl ing Hp Hs); auto. }
  split; [|done..]. split; [done| |].
  - intros item ing Hp. unfold settled. rewrite Hst. destruct (String.eqb_spec name item) as [<-|]; [|by apply Hh].
    split; intros Hs; [apply (Hin ing Hp)|apply (Hsh ing Hp)]; eauto.
  - intros key (rec & Hrec & Hs & Hf)%Hg. exists rec. split; [done|]. split; [done|]. intros Hc.
    destruct (Hf Hc) as (recipe & Hlist & Hall). exists recipe. split; [done|]. intros ing Hing.
    destruct (Hlast _ ing (lists_published _ _ _ Hlist Hing) (Hall ing Hing)) as [|Hi]; [done|].
    unfold incomplete in Hi. change (w_resolved (on_item name f w).2) with (w_resolved w) in *. congruence.
Qed.
(** Items that stand for no ingredient. *)
Lemma item_own name f : keeps_name f → (∀ ing, ¬ published ing name) → Keeps sound (on_item name f).
Proof. intros Hf Hno w. apply on_item_sound. split; [done|intros ing Hp; by destruct (Hno ing)..]. Qed.
(** Items that lose their status because something failed. *)
Lemma on_item_failed name f w : keeps_name f → (∀ it, settles (it_status (f it)) = false) → incomplete w →
  sound w (on_item name f w).2.
Proof.
  intros Hn Hf Hi. apply on_item_sound. split; [done| | |by right].
  - intros ing _ [it Hit]. by rewrite Hf in Hit.
  - intros ing _ [it Hit]. specialize (Hf it). by rewrite Hit in Hf.
Qed.
#[local] Instance sound_settle_failed item te : Keeps sound (settle_failed item te).
Proof.
  intros w. unfold settle_failed, mbind, eng_bind. change (on_resolved failed_recipe w) with
    (Done tt, (on_resolved failed_recipe w).2). cbv beta iota.
  transitivity (on_resolved failed_recipe w).2; [by apply (keeps (R := sound) w)|]. by apply on_item_failed.
Qed.
Lemma item_push name f : keeps_name f → has_prefix name pushItemPrefix = true → Keeps sound (on_item name f).
Proof. intros ? Hp. apply item_own; [done|]. intros ing Hi. by rewrite (names_push names _ _ Hi) in Hp. Qed.
Lemma item_recipe rid f : keeps_name f → Keeps sound (on_item (rid +:+ "/recipe") f).
Proof.
  intros ?. apply item_own; [done|]. intros ing Hi. apply (names_recipe names) in Hi.
  assert (has_suffix (rid +:+ "/recipe") "/recipe" = true) by (apply has_suffix_spec; by exists rid). congruence.
Qed.

(** ** Triples over the invariant *)

Definition spec {A} (P : World → Prop) (m : eng A) (Q : A → World → Prop) : Prop :=
  ∀ w, Inv w → P w → advance w (m w).2 ∧ ∀ a w', m w = (Done a, w') → Q a w'.
Definition stable (F : World → Prop) : Prop := ∀ w w', advance w w' → F w → F w'.

Lemma spec_bind {A B} P (m : eng A) Q (f : A → eng B) S :
  spec P m Q → (∀ a, spec (Q a) (f a) S) → spec P (m ≫= f) S.
Proof.
  intros Hm Hf w Hi Hp. destruct (Hm w Hi Hp) as [A1 D1]. unfold mbind, eng_bind.
  destruct (m w) as [[a|e|] w1]; cbn in *; [|by split..].
  destruct (Hf a w1 (ad_inv _ _ A1) (D1 _ _ eq_refl)) as [A2 D2]. split; [by eapply advance_trans|done].
Qed.
Lemma spec_keeps {A} P (m : eng A) : stable P → Keeps sound m → spec P m (λ _, P).
Proof.
  intros Hs Hm w Hi Hp. assert (advance w (m w).2) as Ha by by apply (keeps (R := sound) w).
  split; [done|]. intros a w' E. rewrite E in Ha. by eapply Hs.
Qed.
Lemma spec_weaken {A} (P P' : World → Prop) (m : eng A) (Q Q' : A → World → Prop) :
  (∀ w, P w → P' w) → spec P' m Q' → (∀ a w, Q' a w → Q a w) → spec P m Q.
Proof. intros HP Hm HQ w Hi Hp. destruct (Hm w Hi (HP w Hp)). split; [done|]. eauto. Qed.
Lemma spec_frame {A} P F (m : eng A) Q :
  stable F → spec P m Q → spec (λ w, P w ∧ F w) m (λ a w, Q a w ∧ F w).
Proof.
  intros Hs Hm w Hi [Hp Hf]. destruct (Hm w Hi Hp) as [A1 D1]. split; [done|].
  intros a w' E. rewrite E in A1. split; [by eapply D1|]. by eapply Hs.
Qed.
Lemma spec_with {A} F (m : eng A) Q :
  stable F → spec (λ _, True) m Q → spec F m (λ a w, Q a w ∧ F w).
Proof. intros Hs Hm w Hi Hf. by apply (spec_frame (λ _, True) F m Q Hs Hm w Hi). Qed.
Lemma spec_pure {A} (Φ : Prop) (m : eng A) Q : (Φ → spec (λ _, True) m Q) → spec (λ _, Φ) m Q.
Proof. intros Hm w Hi HΦ. by apply Hm. Qed.
Lemma spec_ret {A} (P : World → Prop) (a : A) (Q : A → World → Prop) : (∀ w, P w → Q a w) → spec P (mret a) Q.
Proof. intros HQ w Hi Hp. split; [by apply advance_refl|]. intros ? ? [= <- <-]. by apply HQ. Qed.
Lemma spec_raise {A} P e (Q : A → World → Prop) : spec P (raise e) Q.
Proof. intros w Hi Hp. split; [by apply advance_refl|]. intros ? ? [=]. Qed.
Lemma spec_attempt {A} P (m : eng A) (Q : A → World → Prop) :
  spec P m Q → spec P (attempt m) (λ r w, match r with Ok a => Q a w | Err _ => True end).
Proof.
  intros Hm w Hi Hp. destruct (Hm w Hi Hp) as [A1 D1]. unfold attempt.
  destruct (m w) as [[a|e|] w1]; cbn in *; (split; [done|]); intros r w' [= <- <-]; eauto.
Qed.
(** A tame operation with its own postcondition. *)
Lemma spec_tame {A} (P : World → Prop) (m : eng A) (Q : A → World → Prop) :
  Tame m → (∀ w a w', fine w → P w → m w = (Done a, w') → Q a w') → spec P m Q.
Proof.
  intros Ht HQ w Hi Hp. split; [by apply (keeps (R := sound) w)|].
  intros a w' E. eapply HQ; eauto using inv_fine.
Qed.

Definition present (ing : Ingredient) (w : World) : Prop := in_store (place ing) (w_store w).
Lemma present_stable ing : stable (present ing).
Proof. intros w w' Ha. eapply in_store_ext, Ha. Qed.
Lemma true_stable : stable (λ _, True).
Proof. done. Qed.
Lemma const_stable (P : Prop) : stable (λ _, P).
Proof. by intros w w' _. Qed.
Definition fetched (ing : Ingredient) (w : World) : Prop := present ing w ∧ shipped ing (w_store w).
Lemma fetched_stable ing : stable (fetched ing).
Proof. intros w w' Ha [? ?]. split; [by eapply present_stable|]. eapply shipped_ext; [apply Ha|done]. Qed.
Lemma incomplete_stable : stable incomplete.
Proof.
  intros w w' Ha Hw. unfold incomplete in *. destruct (rv_complete (w_resolved w')) eqn:E; [|done].
  apply (ad_complete _ _ Ha) in E. congruence.
Qed.
Hint Resolve present_stable fetched_stable true_stable const_stable incomplete_stable : core.

(** The content is there, and its item is settled unless something failed. *)
Definition arrived_as (item : string) (ing : Ingredient) (w : World) : Prop :=
  present ing w ∧ (settled item (w_task w) = true ∨ incomplete w).
Lemma arrived_stable item ing : published ing item → stable (arrived_as item ing).
Proof.
  intros Hp w w' Ha [? Hs]. split; [by eapply present_stable|].
  destruct Hs as [Hs|Hs]; [by apply (ad_lasting _ _ Ha item ing)|right; by eapply incomplete_stable].
Qed.

(** The item of an ingredient settles once the ingredient is there. *)
Lemma spec_settle ing item f st : published ing item → keeps_name f → settles st = true → (∀ it, it_status (f it) = st) →
  spec (λ w, present ing w ∧ (st = StatusDone → shipped ing (w_store w))) (on_item item f) (λ _, arrived_as item ing).
Proof.
  intros Hp Hn Hst Hf w Hi [Hin Hsh]. split.
  - apply on_item_sound; [|done]. split; [done|intros ing' Hp' [it Hit]..|].
    + destruct (names_place names _ _ _ Hp' Hp) as [-> _]. done.
    + rewrite Hf in Hit. specialize (Hsh Hit). destruct (names_place names _ _ _ Hp' Hp) as [Hpl Hps].
      unfold shipped. by rewrite Hpl, Hps.
    + intros. left. intros it. by rewrite Hf.
  - intros [] w' [= <-]. split; [done|]. left. unfold settled. cbn. rewrite item_status_upd by done.
    by rewrite String.eqb_refl, Hf.
Qed.

Lemma Effective_place r ing eff : Effective r (ig_ref ing) = Ok eff →
  place ing = Some (ir_repo (ingredientRecord base ing), ig_digest ing).
Proof.
  unfold Effective, place, ingredientRecord, PathWithBase. cbn. intros (p & Hp & _)%res_bind_Ok.
  rewrite Hp. cbn. by destruct (String.eqb _ "").
Qed.

(** ** Ingredients *)

Lemma HasManifest_linked repo d w w' :
  HasManifest repo d w = (Done true, w') → linked_revision repo d (w_store w') = true.
Proof. intros Hh%HasManifest_true. unfold has_manifest in Hh. by apply andb_true_iff in Hh as [[_ ?]%andb_true_iff _]. Qed.
Lemma metered_done {A} (m : eng A) w r n w' :
  metered m w = (Done (r, n), w') → attempt m w = (Done r, w').
Proof.
  unfold metered. intros (b & w1 & [= <- <-] & E)%bind_Done. apply bind_Done in E as (r' & w2 & E & E').
  apply bind_Done in E' as (a & w3 & [= <- <-] & [= <- _ <-]). done.
Qed.
Lemma attempt_Ok {A} (m : eng A) w a w' : attempt m w = (Done (Ok a), w') → m w = (Done a, w').
Proof. unfold attempt. destruct (m w) as [[]]; naive_solver. Qed.
Lemma spec_barrier {A} P (m : eng A) (Q : A → World → Prop) :
  spec P m Q → spec P (barrier m) (λ r w, match r with Some (Ok a) => Q a w | _ => True end).
Proof.
  intros Hm w Hi Hp. destruct (Hm w Hi Hp) as [A1 D1]. unfold barrier.
  destruct (m w) as [[a|e|] w1]; cbn in *; (split; [done|]); intros r w' [= <- <-]; eauto.
Qed.

(** ** Promotion *)

#[local] Instance sound_probe repo : Keeps sound (probe repo).
Proof. unfold probe. apply _. Qed.
#[local] Instance sound_Accepts repo : Keeps sound (Accepts repo).
Proof.
  unfold Accepts. apply keeps_bind; [apply _|]. intros [[te|]|]; [apply _..|].
  apply keeps_bind; [apply _|]. intros [[]|err]; [apply _|]. destruct (ge_tax err); apply _.
Qed.
#[local] Instance sound_Head repo tag : Keeps sound (Head repo tag).
Proof. unfold Head. apply _. Qed.
#[local] Instance sound_DestStatus repo tag want : Keeps sound (DestStatus repo tag want).
Proof. unfold DestStatus. apply _. Qed.
#[local] Instance sound_push_blob local dst d : Keeps sound (push_blob local dst d).
Proof. unfold push_blob. apply _. Qed.
#[local] Instance sound_pushBlobs local dst bs : Keeps sound (pushBlobs local dst bs).
Proof. induction bs; cbn [pushBlobs]; apply _. Qed.
#[local] Instance sound_push_children push children :
  (∀ c, Keeps sound (push c)) → Keeps sound (push_children push children).
Proof. intros Hp. induction children; cbn [push_children]; apply _. Qed.
#[local] Instance sound_read_manifest local reference : Keeps sound (read_manifest local reference).
Proof. unfold read_manifest. apply _. Qed.
#[local] Instance sound_write_manifest dst tag d : Keeps sound (write_manifest dst tag d).
Proof. unfold write_manifest. apply _. Qed.
#[local] Instance sound_push_digest fuel local dst tag d : Keeps sound (push_digest fuel local dst tag d).
Proof.
  revert tag d. induction fuel as [|fuel IH]; intros tag d; cbn [push_digest]; [apply _|].
  apply keeps_bind; [|apply _]. destruct (doc_of d) as [[]|]; apply _.
Qed.
#[local] Instance sound_PushManifest local dst reference tag : Keeps sound (PushManifest local dst reference tag).
Proof. unfold PushManifest. apply _. Qed.
#[local] Instance sound_push_tags local dst tags : Keeps sound (push_tags local dst tags).
Proof. induction tags; cbn [push_tags]; apply _. Qed.
#[local] Instance sound_metered {A} (m : eng A) : Keeps sound m → Keeps sound (metered m).
Proof. intros. unfold metered. apply _. Qed.
#[local] Instance sound_push_ingredient e org ing local dst : Keeps sound (push_ingredient e org ing local dst).
Proof. unfold push_ingredient. apply _. Qed.
Lemma push_prefix rid suffix : has_prefix (pushItemPrefix +:+ rid +:+ "/" +:+ suffix) pushItemPrefix = true.
Proof. apply has_prefix_spec. eauto. Qed.
#[local] Instance sound_pushFailed rid suffix err subject : Keeps sound (pushFailed rid suffix err subject).
Proof. unfold pushFailed. apply keeps_bind; [|apply _]. by apply item_push, push_prefix. Qed.
#[local] Instance sound_or_fail {A} rid suffix subject (m : eng A) f :
  Keeps sound m → (∀ a, Keeps sound (f a)) → Keeps sound (or_fail rid suffix subject m f).
Proof. intros. unfold or_fail. apply _. Qed.
Ltac push_tac := repeat first
  [ progress intros | apply sound_or_fail | apply item_push; [done|apply push_prefix]
  | apply _ | apply keeps_bind | apply keeps_decide | apply keeps_if | apply keeps_res | apply keeps_pair].
#[local] Instance sound_promoteIngredient e d rid org ing : Keeps sound (promoteIngredient e d rid org ing).
Proof. unfold promoteIngredient. cbv zeta. push_tac. Qed.
#[local] Instance sound_promote_ingredients e d rid org ings : Keeps sound (promote_ingredients e d rid org ings).
Proof. induction ings; cbn [promote_ingredients]; apply _. Qed.
#[local] Instance sound_same_document dst tag existing dgst document : Keeps sound (same_document dst tag existing dgst document).
Proof. unfold same_document. push_tac. Qed.
#[local] Instance sound_propagateRecipe d f recipe local rid : Keeps sound (propagateRecipe d f recipe local rid).
Proof. unfold propagateRecipe. cbv zeta. push_tac. Qed.
#[local] Instance sound_promoteRecipe e f recipe rid org : Keeps sound (promoteRecipe e f recipe rid org).
Proof. unfold promoteRecipe. cbv zeta. destruct (en_dest e); push_tac. Qed.

#[local] Instance sound_storeRecipeArtifact e f recipe : Keeps sound (storeRecipeArtifact e f recipe).
Proof. unfold storeRecipeArtifact. push_tac. Qed.
#[local] Instance sound_sync_artifact e f recipe rid : Keeps sound (sync_artifact e f recipe rid).
Proof.
  unfold sync_artifact. cbv zeta. apply keeps_bind; [apply _|]. intros [|]; [apply _|].
  apply keeps_bind; [by apply item_recipe|]. intros _. apply keeps_bind; [apply _|]. intros [status|err]; [|apply _].
  apply keeps_bind; [by apply item_recipe|apply _].
Qed.

Section recipe.
Context (e : Engine) (He : en_base e = base).

Lemma syncIngredient_spec rid ing : published ing (rid +:+ "/" +:+ ig_name ing) →
  spec (λ _, True) (syncIngredient e rid ing)
    (λ p w, p.1 = ingredientRecord base ing ∧ arrived_as (rid +:+ "/" +:+ ig_name ing) ing w).
Proof.
  intros Hpub. unfold syncIngredient. rewrite He.
  set (repo := ir_repo (ingredientRecord base ing)).
  apply spec_bind with (Q := λ _ _, place ing = Some (repo, ig_digest ing)).
  { apply spec_tame; [apply _|]. intros w eff w' _ _ E. apply (Effective_place (en_remotes e) ing eff).
    unfold lift, relocated in E. destruct (Effective _ _); cbn in E; congruence. }
  intros eff. apply spec_bind with (Q := λ has w, place ing = Some (repo, ig_digest ing) ∧ (has = true → present ing w)).
  { apply spec_tame; [apply _|]. intros w has w' _ Hpl E. split; [done|]. intros ->.
    apply HasManifest_linked in E. unfold present. by rewrite Hpl. }
  intros has. apply spec_bind with (Q := λ tag w, place ing = Some (repo, ig_digest ing) ∧ (tag ≠ None → present ing w)).
  { destruct has.
    - set (P := λ w, place ing = Some (repo, ig_digest ing) ∧ present ing w).
      apply (spec_weaken _ P _ _ (λ _, P)); [unfold P; naive_solver| |unfold P; naive_solver].
      apply spec_keeps; [|apply _]. intros w w' Ha [? ?]. split; [done|]. by eapply present_stable.
    - apply spec_ret. by intros w [? _]. }
  intros tag. destruct (bool_decide (tag = Some (ig_digest ing))) eqn:Htag.
  - apply bool_decide_eq_true in Htag as ->.
    eapply (spec_weaken _ (λ w, present ing w ∧ (StatusSkipped = StatusDone → shipped ing (w_store w))));
      [intros w [? Hp]; split; [by apply Hp|done]| |intros ? ? Hx; exact Hx].
    eapply spec_bind; [by apply spec_settle|]. intros ?.
    eapply spec_bind; [by apply spec_keeps; [apply arrived_stable|apply _]|]. intros ?. by apply spec_ret.
  - eapply (spec_bind _ _ (λ r w, match r.1 with Ok _ => fetched ing w | Err _ => True end)).
    { apply spec_tame; [apply _|]. intros w [r n] w' Hw [Hpl _] E. apply metered_done in E. cbn.
      destruct r as [[]|]; [|done]. apply attempt_Ok in E.
      apply withRetries_done in E as (w1 & M1 & E); [|apply _|done].
      apply (transferIngredient_done _ _ _ _ _ _ (moves_fine _ _ M1)) in E as (? & _ & ?).
      unfold fetched, present, shipped. by rewrite Hpl. }
    intros [[[]|err] n]; cbn [fst]; [|apply spec_raise].
    eapply spec_bind; [by apply spec_keeps; [|apply _]|]. intros ?.
    eapply spec_bind; [by apply spec_keeps; [|apply _]|]. intros ?.
    eapply (spec_weaken _ (λ w, present ing w ∧ (StatusDone = StatusDone → shipped ing (w_store w))));
      [by intros w [? ?]| |intros ? ? Hx; exact Hx].
    eapply spec_bind; [by apply spec_settle|]. intros ?. by apply spec_ret.
Qed.

Lemma spec_settle_failed item te : spec (λ _, True) (settle_failed item te) (λ _, incomplete).
Proof. intros w Hi _. split; [by apply (keeps (R := sound) w)|]. intros [] w' [= <-]. done. Qed.

Lemma ingredient_task_spec rid ing : published ing (rid +:+ "/" +:+ ig_name ing) →
  spec (λ _, True) (ingredient_task e rid ing)
    (λ o w, match o with
       | Some rec => rec = ingredientRecord base ing ∧ arrived_as (rid +:+ "/" +:+ ig_name ing) ing w
       | None => incomplete w
       end).
Proof.
  intros Hpub. unfold ingredient_task.
  eapply spec_bind; [by apply spec_barrier, syncIngredient_spec|]. intros [[[rec row]|err]|]; cbn [fst].
  - eapply spec_bind; [apply (spec_keeps (λ w, rec = ingredientRecord base ing ∧ arrived_as (rid +:+ "/" +:+ ig_name ing) ing w));
      [|apply _]|].
    + intros w w' Ha [? ?]. split; [done|]. by eapply arrived_stable.
    + intros ?. by apply spec_ret.
  - eapply spec_bind; [apply spec_settle_failed|]. intros ?. by apply spec_ret.
  - eapply spec_bind; [apply spec_settle_failed|]. intros ?. by apply spec_ret.
Qed.

(** ** The records of a recipe *)

Context (rid : string) (all : list Ingredient).
Context (Hpub : ∀ ing, ing ∈ all → published ing (rid +:+ "/" +:+ ig_name ing)).

Definition item_of (ing : Ingredient) : string := rid +:+ "/" +:+ ig_name ing.
Definition records_ok (records : gmap nat IngredientRecord) (w : World) : Prop :=
  ∀ i rec, records !! i = Some rec →
    ∃ ing, all !! i = Some ing ∧ rec = ingredientRecord base ing ∧ arrived_as (item_of ing) ing w.
Definition covered (records : gmap nat IngredientRecord) (waiting : list (nat * Ingredient)) (n : nat) (w : World) : Prop :=
  ∀ j, j < n → is_Some (records !! j) ∨ (∃ ing, (j, ing) ∈ waiting) ∨ incomplete w.
Definition collected records waiting n (w : World) : Prop := records_ok records w ∧ covered records waiting n w.
Lemma collected_stable records waiting n : stable (collected records waiting n).
Proof.
  intros w w' Ha [Hr Hc]. split.
  - intros i rec (ing & Hi & ? & ?)%Hr. exists ing. split_and!; [done..|].
    eapply arrived_stable; [apply Hpub, (list_elem_of_lookup_2 _ _ _ Hi)|done..].
  - intros j [?|[?|?]]%Hc; [auto..|]. right; right. by eapply incomplete_stable.
Qed.
(** A finished goroutine takes its place out of the waiting ones. *)
Lemma note_collected records waiting waiting' n n' w i ing o :
  all !! i = Some ing → (∀ j, j < n' → j < n ∨ j = i) →
  (∀ j x, (j, x) ∈ waiting → j = i ∨ (j, x) ∈ waiting') →
  collected records waiting n w →
  match o with Some rec => rec = ingredientRecord base ing ∧ arrived_as (item_of ing) ing w | None => incomplete w end →
  collected (note_record i o records) waiting' n' w.
Proof.
  intros Hi Hn Hw [Hr Hc] Ho. split.
  - intros j rec. destruct o as [r|]; cbn; [|apply Hr].
    rewrite lookup_insert_Some. intros [[<- <-]|[_ ?]]; [|by apply Hr]. exists ing. naive_solver.
  - intros j Hj. destruct o as [r|]; cbn; [|by right; right].
    destruct (decide (j = i)) as [->|Hne]; [left; rewrite lookup_insert_eq; eauto|].
    rewrite lookup_insert_ne by done. destruct (Hn j Hj) as [Hj'|]; [|done]. destruct (Hc j Hj') as [?|[[x [?|?]%Hw]|?]]; [auto|done|eauto|auto].
Qed.

Lemma run_waiting_spec waiting records n : (∀ j x, (j, x) ∈ waiting → all !! j = Some x) →
  spec (collected records waiting n) (run_waiting e rid waiting records) (λ records', collected records' [] n).
Proof.
  revert records. induction waiting as [|[i ing] waiting IH]; intros records Hw; cbn [run_waiting].
  { by apply spec_ret. }
  assert (all !! i = Some ing) as Hi by (apply Hw; left).
  eapply spec_bind.
  { apply spec_with; [apply (collected_stable records ((i, ing) :: waiting) n)|].
    apply ingredient_task_spec, Hpub, (list_elem_of_lookup_2 _ _ _ Hi). }
  intros o. eapply spec_weaken; [|apply (IH (note_record i o records))|done].
  - intros w [Ho Hc]. apply (note_collected records ((i, ing) :: waiting) waiting n n w i ing o Hi); [by left| |done..].
    intros j x [[= -> ->]|?]%elem_of_cons; auto.
  - intros j x Hx. apply Hw. by right.
Qed.
Lemma launch_spec i ings waiting records :
  drop i all = ings → (∀ j x, (j, x) ∈ waiting → all !! j = Some x) →
  spec (collected records waiting i) (launch e rid i ings waiting records)
    (λ records', collected records' [] (length all)).
Proof.
  revert i waiting records. induction ings as [|ing ings IH]; intros i waiting records Hd Hw; cbn [launch].
  { eapply spec_weaken; [|apply (run_waiting_spec (wait_order waiting) records (length all))|done].
    - intros w [Hr Hc]. split; [done|]. intros j Hj. destruct (Hc j) as [?|[[x Hx]|?]]; [|auto| |auto].
      + apply (f_equal length) in Hd. rewrite length_drop in Hd. cbn in Hd. lia.
      + right; left. exists x. by rewrite wait_order_perm.
    - intros j x. rewrite wait_order_perm. apply Hw. }
  assert (all !! i = Some ing) as Hi by (rewrite <-(Nat.add_0_r i), <-lookup_drop, Hd; done).
  assert (drop (S i) all = ings) as Hd' by (rewrite <-Nat.add_1_r, <-drop_drop, Hd; done).
  assert (published ing (item_of ing)) as Hping by (apply Hpub, (list_elem_of_lookup_2 _ _ _ Hi)).
  eapply (spec_bind _ _ (λ done w, collected records waiting i w ∧ settled (item_of ing) (w_task w) = done ∧
    (done = true → arrived_as (item_of ing) ing w))).
  { intros w HI Hc. split; [by apply advance_refl|]. intros done w' [= <- <-]. split; [done|]. split; [done|]. intros Hs.
    split; [by apply (inv_honest _ HI _ _ Hping)|by left]. }
  intros [].
  { eapply spec_weaken; [|apply (IH (S i) waiting (note_record i (Some (ingredientRecord (en_base e) ing)) records))|done]; [|done..].
    intros w (Hc & _ & Hp). apply (note_collected records waiting waiting i (S i) w i ing _ Hi); [lia|auto|done|].
    rewrite He. auto. }
  eapply (spec_bind _ _ (λ _, collected records waiting i)).
  { intros w HI (Hc & Hs & _).
    assert (advance w (on_item (item_of ing) (λ it, set_digest (ig_digest ing) (set_status StatusRunning it)) w).2) as Ha.
    { apply on_item_sound; [|done]. split; [done|by intros ? _ [? ?]..|]. intros ? _ Hs'. congruence. }
    split; [exact Ha|]. intros [] w' E. eapply collected_stable; [|done]. change w' with (Done (A := unit) tt, w').2. by rewrite <-E. }
  intros ?.
  destruct (eager (ig_name ing)).
  - eapply spec_bind.
    { apply spec_with; [apply (collected_stable records waiting i)|].
      apply ingredient_task_spec, Hpub, (list_elem_of_lookup_2 _ _ _ Hi). }
    intros o. eapply spec_weaken; [|apply (IH (S i) waiting (note_record i o records))|done]; [|done..].
    intros w [Ho Hc]. apply (note_collected records waiting waiting i (S i) w i ing o Hi); [lia|auto|done..].
  - eapply spec_weaken; [|apply (IH (S i) (waiting ++ [(i, ing)]) records)|done]; [|done|].
    + intros w [Hr Hc]. split; [done|]. intros j Hj. destruct (decide (j = i)) as [->|].
      * right; left. exists ing. apply elem_of_app. right. by left.
      * destruct (Hc j ltac:(lia)) as [?|[[x ?]|?]]; [auto| |auto].
        right; left. exists x. apply elem_of_app. by left.
    + intros j x [?|[= -> ->]%list_elem_of_singleton]%elem_of_app; [by apply Hw|done].
Qed.

(** The list that goes into the graph. *)
Lemma place_repo ing repo d : place ing = Some (repo, d) → repo ≠ "" ∧ ir_repo (ingredientRecord base ing) = repo ∧ d = ig_digest ing.
Proof.
  unfold place, ingredientRecord. destruct (PathWithBase base (ig_ref ing)) as [p|] eqn:E; [|done].
  intros [= <- <-]. split; [|done]. revert E. unfold PathWithBase, Path.
  intros (q & ([h r] & _ & [= <-])%res_bind_Ok & E)%res_bind_Ok. intros ->.
  destruct (String.eqb _ ""); injection E as E; apply (f_equal String.length) in E;
    revert E; rewrite !slen_app; cbn; lia.
Qed.
Lemma kept_stored records n w : collected records [] n w →
  ∀ r, r ∈ kept_records (length all) records → linked_revision (ir_repo r) (ir_digest r) (w_store w) = true.
Proof.
  intros [Hr _] r [_ (i & Hi & Hrec)%list_elem_of_omap]%list_elem_of_filter.
  apply Hr in Hrec as (ing & _ & -> & [Hp _]). unfold present, in_store in Hp.
  destruct (place ing) as [[repo d]|] eqn:Hpl; [|done]. apply place_repo in Hpl as (_ & -> & ->). done.
Qed.
Lemma kept_full records w : collected records [] (length all) w → ¬ incomplete w →
  kept_records (length all) records = ingredientRecord base <$> all ∧
  ∀ ing, ing ∈ all → settled (item_of ing) (w_task w) = true.
Proof.
  intros [Hr Hc] Hn. unfold kept_records.
  assert (∀ i ing, all !! i = Some ing → records !! i = Some (ingredientRecord base ing) ∧ arrived_as (item_of ing) ing w) as Hall.
  { intros i ing Hi. destruct (Hc i (lookup_lt_Some _ _ _ Hi)) as [[rec Hrec]|[[x []%elem_of_nil]|?]]; [|done].
    destruct (Hr _ _ Hrec) as (ing' & Hi' & -> & Hp). assert (ing' = ing) as -> by congruence. done. }
  split; [|intros ing [i Hi]%list_elem_of_lookup; by destruct (Hall i ing Hi) as [_ [_ [?|?]]]].
  rewrite (omap_seq_fmap _ (ingredientRecord base)) by (intros i ing Hi; by apply Hall).
  apply filter_id. apply Forall_fmap, Forall_forall. intros ing [i Hi]%list_elem_of_lookup.
  apply Hall in Hi as [_ [Hp _]]. unfold present, in_store in Hp. cbn.
  destruct (place ing) as [[repo d]|] eqn:Hpl; [|done]. apply place_repo in Hpl as (? & Heq & _).
  cbn in Heq. by rewrite Heq.
Qed.

End recipe.

(** ** The graph entry *)

Definition entry_now (rec : RecipeRecord) (w : World) : Prop :=
  graph_entry (rv_complete (w_resolved w)) (w_task w) (w_store w) rec.
Definition recorded (rec : RecipeRecord) (w : World) : Prop :=
  entry_now rec w ∧ mt_recipes (st_meta (w_store w)) !! recipeKey (rr_name rec) (rr_version rec) = Some rec.
Lemma put_record_spec rec :
  spec (entry_now rec) (on_meta (PutRecipeRecord rec)) (λ _, recorded rec).
Proof.
  intros w Hi He'. unfold on_meta, mbind, eng_bind, gets, PutRecipeRecord, io.
  destruct (io_fail OpReadRecipes); [by split; [apply advance_refl|]|].
  destruct (io_fail OpWriteRecipes); [by split; [apply advance_refl|]|].
  cbn. destruct Hi as [[Hc [? ? ?]] Hh Hg]. split.
  - split; [|done..|by apply lasting_same]. split; [by split|done|]. intros key Hk. cbn.
    destruct (decide (key = recipeKey (rr_name rec) (rr_version rec))) as [->|Hne].
    + exists rec. rewrite lookup_insert_eq. split; [done|]. exact He'.
    + destruct (Hg key Hk) as (r & Hr & Hge). exists r. rewrite lookup_insert_ne by done. split; [done|]. exact Hge.
  - intros [] w' [= <-]. split; [exact He'|]. cbn. by rewrite lookup_insert_eq.
Qed.
Lemma keep_spec rec :
  spec (recorded rec) (on_resolved (keep_recipe (rr_name rec) (rr_version rec)))
    (λ _ w, recipeKey (rr_name rec) (rr_version rec) ∈ rv_keys (w_resolved w)).
Proof.
  intros w [? ? Hg] [He' Hr]. split.
  - split; [|done|cbn; set_solver|done|by apply lasting_same]. split; [done..|]. intros key. cbn.
    intros [->%elem_of_singleton|Hk]%elem_of_union; [eauto|]. by apply Hg.
  - intros [] w' [= <-]. cbn. set_solver.
Qed.

Lemma sync_artifact_spec e f recipe rid :
  spec (λ _, True) (sync_artifact e f recipe rid) (λ ok w, ok = false → incomplete w).
Proof.
  unfold sync_artifact. cbv zeta. eapply spec_bind; [by apply spec_keeps; [|apply _]|]. intros [|]; [by apply spec_ret|].
  eapply spec_bind; [apply spec_keeps; [done|by apply item_recipe]|]. intros ?.
  eapply spec_bind; [by apply spec_keeps; [|apply _]|]. intros [status|err].
  - eapply spec_bind; [apply spec_keeps; [done|by apply item_recipe]|]. intros ?. by apply spec_ret.
  - eapply spec_bind; [apply spec_settle_failed|]. intros ?. by apply spec_ret.
Qed.

Definition kept_or_incomplete (name version : string) (w : World) : Prop :=
  recipeKey name version ∈ rv_keys (w_resolved w) ∨ incomplete w.
Lemma kept_stable name version : stable (kept_or_incomplete name version).
Proof.
  intros w w' Ha [?|?]; [left; by apply (ad_keys _ _ Ha)|right; by eapply incomplete_stable].
Qed.

(** A recipe artifact and its document. *)
Definition document (f : FetchedRecipe) (recipe : Recipe) : Prop :=
  (∃ config, VerifyManifest (f_digest f) = Ok (config, f_layer f)) ∧ ParseRecipe (doc_bytes (f_layer f)) = Ok recipe.
Lemma document_published f recipe ing : document f recipe → ing ∈ rc_ingredients recipe →
  published ing (recipeKey (rc_name recipe) (rc_version recipe) +:+ "/" +:+ ig_name ing).
Proof. intros [[c Hv] Hd] Hi. exists (f_digest f), c, (f_layer f), recipe. done. Qed.

Lemma sync_verified_spec e entry zone f recipe verified scope : en_base e = base → document f recipe →
  spec (λ _, True)
    (sync_verified e entry zone (recipeKey (rc_name recipe) (rc_version recipe)) f recipe verified scope)
    (λ _, kept_or_incomplete (rc_name recipe) (rc_version recipe)).
Proof.
  intros He Hd. unfold sync_verified. eapply spec_bind; [by apply spec_keeps; [|apply _]|]. intros ?.
  set (rid := recipeKey _ _). set (n := length (rc_ingredients recipe)).
  assert (∀ ing, ing ∈ rc_ingredients recipe → published ing (rid +:+ "/" +:+ ig_name ing)) as Hpub
    by (intros ing; by eapply document_published).
  eapply spec_bind.
  { eapply (spec_weaken _ (collected rid (rc_ingredients recipe) ∅ [] 0)); [| |intros ? ? Hx; exact Hx].
    - intros w _. split; [by intros i rec Hx; rewrite lookup_empty in Hx|intros j Hj; lia].
    - by apply (launch_spec e He rid (rc_ingredients recipe)); [..|by intros ? ? []%elem_of_nil]. }
  intros records. cbn beta.
  eapply spec_bind; [apply spec_with; [by apply collected_stable|apply sync_artifact_spec]|].
  intros [|]; cbn [negb]; [|apply spec_ret; intros w [Hx _]; right; by apply Hx].
  eapply (spec_weaken _ (collected rid (rc_ingredients recipe) records [] n)); [by intros w [_ Hx]| |intros ? ? Hx; exact Hx].
  do 3 (eapply spec_bind; [apply spec_keeps; [by apply collected_stable|unfold runID; apply _]|]; intros ?).
  set (rec := recipe_record e f recipe _ zone _ verified scope _).
  eapply spec_bind.
  { apply spec_attempt. eapply (spec_weaken _ (entry_now rec)); [|apply put_record_spec|intros ? ? Hx; exact Hx].
    intros w Hc. split.
    - intros i. cbn. eapply kept_stored, Hc.
    - intros Hcomp. destruct (kept_full rid (rc_ingredients recipe) records w Hc) as [Hk Hset];
        [unfold incomplete; by rewrite Hcomp|].
      exists recipe. split; [|exact Hset]. destruct Hd as [[c Hv] Hp]. exists c, (f_layer f). by split_and!. }
  intros [[]|err].
  - eapply (spec_weaken _ (recorded rec)); [intros w Hx; exact Hx|apply keep_spec with (rec := rec)|].
    intros [] w Hx. left. exact Hx.
  - eapply (spec_weaken _ (λ _, True)); [done|apply spec_settle_failed|]. intros [] w Hx. by right.
Qed.

(** ** Entries *)

#[local] Instance tame_ListTags r nominal : Tame (ListTags r nominal).
Proof. unfold ListTags. apply _. Qed.
#[local] Instance tame_Versions r cookbook name : Tame (Versions r cookbook name).
Proof. unfold Versions. apply _. Qed.
#[local] Instance tame_FetchArtifact r cookbook name tag : Tame (FetchArtifact r cookbook name tag).
Proof. unfold FetchArtifact. apply _. Qed.
#[local] Instance tame_LoadDocument r f name : Tame (LoadDocument r f name).
Proof. unfold LoadDocument, fetch_blob. apply _. Qed.
Lemma FetchArtifact_done r cookbook name tag w f w' :
  FetchArtifact r cookbook name tag w = (Done f, w') →
  f_repo f = cookbook +:+ "/" +:+ name ∧ f_tag f = tag ∧ ∃ config, VerifyManifest (f_digest f) = Ok (config, f_layer f).
Proof.
  unfold FetchArtifact. intros (d & w1 & _ & E)%bind_Done. apply bind_Done in E as ([c l] & w2 & E & [= <- _]).
  apply lift_Done in E as [E _]. cbn. eauto.
Qed.
Lemma LoadDocument_done r f name w recipe w' :
  LoadDocument r f name w = (Done recipe, w') →
  ParseRecipe (doc_bytes (f_layer f)) = Ok recipe ∧ rc_name recipe = name ∧ rc_version recipe = f_tag f.
Proof.
  unfold LoadDocument, fetch_blob. intros (yaml & w1 & E1 & E)%bind_Done.
  apply bind_Done in E1 as (? & ? & _ & E1). apply bind_Done in E1 as (? & ? & _ & E1).
  apply lift_Done in E1 as [E1 _]. unfold readBounded in E1.
  destruct (MaxDocumentBytes <? _)%Z; [done|]. injection E1 as <-.
  apply bind_Done in E as (rc & ? & E2 & E). apply lift_Done in E2 as [E2 _].
  apply bind_Done in E as (? & ? & _ & E). apply bind_Done in E as ([] & ? & E3 & [= <- _]).
  apply lift_Done in E3 as [E3 _]. split; [done|]. by apply publish_location.
Qed.
Lemma spec_entry_fail {A} item subject (m : eng A) (f : A → eng unit) (Q : A → World → Prop) (R : World → Prop) :
  spec (λ _, True) m Q → (∀ a, spec (Q a) (f a) (λ _, R)) → (∀ w, incomplete w → R w) →
  spec (λ _, True) (entry_fail item subject m f) (λ _, R).
Proof.
  intros Hm Hf Hr. unfold entry_fail. eapply spec_bind; [by apply spec_attempt|]. intros [a|err]; [apply Hf|].
  eapply (spec_weaken _ (λ _, True)); [done|apply spec_settle_failed|]. intros ? w. apply Hr.
Qed.

Lemma syncRecipe_spec e cookbook zone entry : en_base e = base →
  spec (λ _, True) (syncRecipe e cookbook zone entry)
    (λ _ w, ∃ version, kept_or_incomplete (sl_name entry) version w).
Proof.
  intros He. unfold syncRecipe. cbv zeta.
  assert (∀ w, incomplete w → ∃ version, kept_or_incomplete (sl_name entry) version w) as Hinc by (exists ""; by right).
  apply spec_entry_fail with (Q := λ _ _, True); [apply spec_keeps; [done|apply _]| |done]. intros tag.
  apply spec_entry_fail with (Q := λ f _, f_tag f = tag ∧ ∃ config, VerifyManifest (f_digest f) = Ok (config, f_layer f));
    [| |done].
  { apply spec_tame; [apply _|]. by intros w f w' _ _ (_ & ? & ?)%FetchArtifact_done. }
  intros f. apply spec_pure. intros [Ht Hv].
  apply spec_entry_fail with (Q := λ _ _, True); [apply spec_keeps; [done|apply _]| |done]. intros trustRepo.
  apply spec_entry_fail with (Q := λ _ _, True); [apply spec_keeps; [done|apply _]| |done]. intros verified.
  apply spec_entry_fail with (Q := λ recipe _, ParseRecipe (doc_bytes (f_layer f)) = Ok recipe ∧
    rc_name recipe = sl_name entry ∧ rc_version recipe = f_tag f); [| |done].
  { apply spec_tame; [apply _|]. intros w recipe w' _ _ E. by apply LoadDocument_done in E. }
  intros recipe. apply spec_pure. intros (Hp & Hn & Hver).
  assert (sl_name entry +:+ "@" +:+ tag = recipeKey (rc_name recipe) (rc_version recipe)) as ->
    by (unfold recipeKey; congruence).
  eapply spec_weaken; [|apply sync_verified_spec; done|]; [done|]. intros [] w Hk. exists (rc_version recipe). by rewrite <-Hn.
Qed.
Lemma sync_entries_spec e retr entries : en_base e = base →
  spec (λ _, True) (sync_entries e retr entries)
    (λ _ w, ∀ entry, entry ∈ entries → ∃ version, kept_or_incomplete (sl_name entry) version w).
Proof.
  intros He. induction entries as [|entry entries IH]; cbn [sync_entries]; [apply spec_ret; set_solver|].
  eapply spec_bind; [by apply syncRecipe_spec|]. intros ?.
  eapply spec_weaken; [intros w Hw; exact Hw| |].
  - apply spec_with; [|apply IH]. intros w w' Ha [v Hv]. exists v. by eapply kept_stable.
  - intros [] w [H1' H2'] x [->|Hin]%elem_of_cons; [done|]. by apply H1'.
Qed.

(** ** The theorems *)


(** C19: a complete run delivered everything. Under the conditions of the previous
    property (a closed store, honest settled items, other writers that remove nothing, one
    content per item name), when the run ends and no failure was noted, every entry of the
    Retriever has a graph entry under its name, listing exactly the ingredients of the
    recipe document its digest stands for. Each of them is in the store with all the blobs
    it names, and its item is settled: skipped when the store already had the version at
    the pinned digest - nothing more is checked then, as in the code - or done; then, if
    the digest is an index, each child its platforms select (all of them without
    platforms) is in the same repository, with all the blobs that child names. *)
Theorem complete_run_delivers e retr w w'
    (He : en_base e = base) (Hc : calm w) (Hs : closed (w_store w)) (Hh : honest (w_task w) (w_store w))
    (Hr : w_resolved w = newResolvedRecipes)
    (Hrun : sync_entries e retr (rt_recipes retr) w = (Done tt, w'))
    (Hcomplete : rv_complete (w_resolved w') = true) entry (Hin : entry ∈ rt_recipes retr) :
  ∃ version rec recipe, mt_recipes (st_meta (w_store w')) !! recipeKey (sl_name entry) version = Some rec ∧
    record_lists rec recipe ∧
    ∀ ing, ing ∈ rc_ingredients recipe →
      let repo := ir_repo (ingredientRecord base ing) in
      let status := item_status (ingredient_item recipe ing) (w_task w') in
      linked_revision repo (ig_digest ing) (w_store w') = true ∧ blobs_in repo (ig_digest ing) (w_store w') ∧
      (status = StatusSkipped ∨
       status = StatusDone ∧
       ∀ children c, doc_of (ig_digest ing) = Some (Index children) → c ∈ children → selected_by (ig_platforms ing) c →
         linked_revision repo (ch_digest c) (w_store w') = true ∧ blobs_in repo (ch_digest c) (w_store w')).
Proof.
  assert (Inv w) as Hi by (split; [done..|]; rewrite Hr; intros ? []%elem_of_empty).
  destruct (sync_entries_spec e retr (rt_recipes retr) He w Hi Logic.I) as [[HI ? _ _ _] Hq].
  rewrite Hrun in HI. destruct (Hq _ _ Hrun _ Hin) as [version [Hk|Hk]]; [|unfold incomplete in Hk; congruence].
  pose proof (closed_blobs _ (proj2 (inv_fine _ HI))) as Hblobs.
  destruct (inv_graph _ HI _ Hk) as (rec & Hrec & Hst & Hfull). destruct (Hfull Hcomplete) as (recipe & Hlist & Hset).
  exists version, rec, recipe. split_and!; [done..|]. intros ing Hing. cbv zeta.
  assert (linked_revision (ir_repo (ingredientRecord base ing)) (ig_digest ing) (w_store w') = true) as Hl.
  { apply (Hst (ingredientRecord base ing)). destruct Hlist as (? & ? & _ & _ & _ & _ & ->). by apply list_elem_of_fmap_2. }
  split_and!; [done|by apply Hblobs|].
  destruct (inv_honest _ HI _ _ (lists_published _ _ _ Hlist Hing)) as [_ Hship].
  specialize (Hset ing Hing). unfold settled in Hset. destruct (item_status _ _) eqn:Hitem; try done; [right|by left].
  split; [done|]. intros children c Hd Hc' Hsel. specialize (Hship eq_refl). unfold shipped in Hship.
  destruct (place ing) as [[repo d]|] eqn:Hpl; [|done]. apply place_repo in Hpl as (_ & -> & ->).
  split; [by eapply Hship|]. apply Hblobs. by eapply Hship.
Qed.

(** ** A refused entry *)

(** The store as the other writers left it, the destination untouched. *)
Definition others (w w' : World) : Prop := ∃ n,
  w_store w' = fold_left (λ st ev, ev_other ev st) (take n (w_script w)) (w_store w) ∧
  w_script w' = drop n (w_script w) ∧ w_dest w' = w_dest w ∧ rv_keys (w_resolved w') = rv_keys (w_resolved w).
#[local] Instance others_preorder : PreOrder others.
Proof.
  split; [by exists 0|]. intros w1 w2 w3 (n & S1 & C1 & D1 & K1) (m & S2 & C2 & D2 & K2). exists (n + m).
  rewrite S2, C2, C1, D2, K2, D1, K1, drop_drop. split_and!; [|done..].
  rewrite S1, <-fold_left_app. by rewrite take_take_drop.
Qed.
#[local] Instance others_call : Keeps others call.
Proof.
  intros w. unfold call. destruct (w_script w) as [|ev evs] eqn:E; [reflexivity|].
  exists 1. cbn. rewrite E. cbn. by rewrite take_0, drop_0.
Qed.
#[local] Instance others_on_task f : Keeps others (on_task f).
Proof. intros w. by exists 0. Qed.
#[local] Instance others_failed : Keeps others (on_resolved failed_recipe).
Proof. intros w. by exists 0. Qed.
#[local] Instance others_Get r nominal reference : Keeps others (Get r nominal reference).
Proof. unfold Get. apply _. Qed.
Definition refused (w : World) (r : outcome unit * World) : Prop :=
  others w r.2 ∧ (r.1 = Done tt → incomplete r.2).
Lemma refused_entry_fail {A} item subject (m : eng A) (f : A → eng unit) w : Keeps others m →
  (∀ a w1, m w = (Done a, w1) → refused w1 (f a w1)) → refused w (entry_fail item subject m f w).
Proof.
  intros Hm Hf. unfold entry_fail, mbind, eng_bind, attempt. pose proof (Hm w : others w (m w).2) as Ho.
  destruct (m w) as [[a|err|] w1] eqn:E; cbn in Ho; [| |by split].
  - destruct (Hf a w1 eq_refl) as [? ?]. split; [by etrans|done].
  - split; [|done]. etrans; [exact Ho|]. cbn. by exists 0.
Qed.

(** An entry whose signature is refused moves nothing. When no artifact of the
    recipe's repository passes the verification its trust scope asks for, the entry
    leaves the store as the other writers made it, the destination and the graph keys
    as they were, and the run is marked incomplete, which disarms the prune. *)
Theorem refused_entry_moves_nothing e cookbook zone entry trustRepo w
    (Ht : nominalRepoOf cookbook (sl_name entry) = Ok trustRepo)
    (Hv : ∀ f, f_repo f = cookbook +:+ "/" +:+ sl_name entry →
       ∃ err, verifyRecipe (en_remotes e) f (Decide (en_trust e) trustRepo) = Err err) :
  let '(o, w') := syncRecipe e cookbook zone entry w in
  others w w' ∧ (o = Done tt → rv_complete (w_resolved w') = false).
Proof.
  enough (refused w (syncRecipe e cookbook zone entry w)) as [Ho Hi]
    by (destruct (syncRecipe e cookbook zone entry w) as [o w']; by split).
  unfold syncRecipe. cbv zeta. apply refused_entry_fail; [unfold Versions, ListTags; apply _|]. intros tag w1 _.
  apply refused_entry_fail; [unfold FetchArtifact; apply _|]. intros f w2 (Hf & _)%FetchArtifact_done.
  apply refused_entry_fail; [apply _|]. intros tr w3 E3. rewrite Ht in E3. injection E3 as <- <-.
  apply refused_entry_fail; [apply _|]. intros v w4 E4. exfalso.
  apply bind_Done in E4 as (? & ? & _ & E4). apply lift_Done in E4 as [E4 _]. destruct (Hv f Hf). congruence.
Qed.
End sync_safety.
