(* ===== verification/SyncTheorems.v ===== *)
(** Synchronizations on a concrete registry: witnesses of the theorems of a run, and
    runs that show where the engine departs from what it documents. *)

From S2P Require Import Prelude GoStrings Relocate Policy Taxonomy Tasks MediaVerify SigKeys SigVerify Trust SigSafety.
From S2P Require Import StoreMeta StoreGC StoreSafety Prune Preflight Transfer TransferSafety Remotes Promote PromoteSafety Sync SyncSafety.

(** * The registry *)

(** A cookbook with one recipe, whose two ingredients are the image M and an index I;
    the artifacts R and S hold the document Y. *)
Definition web : Ingredient := mkIngredient "web" KindImage "reg.io/app/web" "v1" "M" "" [].
Definition multi (platforms : list string) : Ingredient :=
  mkIngredient "multi" KindImage "reg.io/app/multi" "v1" "I" "" platforms.
Definition lost : Ingredient := mkIngredient "lost" KindImage "reg.io/app/lost" "v1" "Z" "" [].
Definition shop (ings : list Ingredient) : Recipe := mkRecipe "shop" "1.0.0" ings.

Definition sync_doc (d : string) : option oci_doc :=
  if String.eqb d "R" || String.eqb d "S" then Some (Image ("C", 1%Z) [("Y", 4%Z)])
  else if String.eqb d "X" then Some (Index []) else demo_doc d.
#[local] Program Instance sync_documents : Documents := {|
  doc_of := sync_doc; doc_bytes d := d; doc_artifact_type _ := ""; digest_ok d := (slen d =? 1)%nat;
  doc_rank d := if String.eqb d "I" then 1 else 0 |}.
Next Obligation.
  intros d children c. unfold sync_doc. destruct (String.eqb d "R" || String.eqb d "S"); [done|].
  destruct (String.eqb d "X"); [intros [= <-] []%elem_of_nil|]. apply (doc_rank_child (Documents := demo_documents)).
Qed.

Section registry.
Context (ings : list Ingredient).

Program Definition sync_sdk : RecipeSDK := {|
  constraint := unit; ParseConstraint _ := Ok tt; IsExact _ := true; Resolve _ _ := Err "unused";
  VerifyManifest d := if String.eqb d "R" || String.eqb d "S" then Ok ("C", "Y") else Err (plain "layout");
  ParseRecipe yaml := Ok (shop ings); ValidateCooked _ := Ok tt;
  ValidatePublishLocation r name tag :=
    if String.eqb (rc_name r) name && String.eqb (rc_version r) tag then Ok tt else Err (plain "location");
  ParseRetriever _ := Err (plain "unused"); error_list _ := None; MaxDocumentBytes := 1000 |}.
Next Obligation.
  intros r name tag. cbn beta. destruct (_ && _) eqn:E; [|discriminate]. intros _.
  by apply andb_true_iff in E as [->%String.eqb_eq ->%String.eqb_eq].
Qed.
End registry.
#[local] Instance sync_upstream : Upstream := {|
  NewRepository s := Ok (first_segment s);
  up_tags _ := Ok ["1.0.0"];
  up_get _ reference := if String.eqb reference "1.0.0" then Ok "R"
    else if String.eqb reference "Z" then Err head_absent
    else if (slen reference =? 1)%nat then Ok reference else Err head_absent;
  up_referrers _ _ := Ok []; fmt_q s := s |}.
#[local] Instance sync_volume : Volume := {| vol_inspect _ := Err "unmounted"; vol_root := "/store" |}.
#[local] Instance sync_zone : Zone := {| zone_list _ := Ok [] |}.
#[local] Program Instance sync_lib : SyncLib := {| VerifyChart _ := ([], None); index_digest _ := "X" |}.
Next Obligation. intros ds. by exists []. Qed.
#[local] Program Instance sync_scheduling : Scheduling := {| eager _ := true; wait_order l := l |}.
Next Obligation. done. Qed.
#[local] Existing Instance io_sound.
#[local] Existing Instance demo_keys.
#[local] Existing Instance demo_codec.

(** Unsigned recipes are allowed under the canonical name of the registry. *)
Definition unsigned_policy (pattern : string) : TrustPolicy :=
  mkPolicy ∅ None [mkScope "lab" [pattern] true []].
Definition sync_engine (dest : option Destination) (pattern : string) : Engine :=
  mkEngine (mkRemotes ∅ None) (unsigned_policy pattern) dest "" 0 (λ _, false).
Definition sync_retriever (cookbook : string) : Retriever :=
  mkRetriever "zone-a" cookbook [mkSelector "shop" "1.0.0" ""].
Definition sync_run (ings : list Ingredient) (e : Engine) (cookbook : string) (w : World) : outcome unit * World :=
  sync_entries (H2 := sync_sdk ings) e (sync_retriever cookbook) (rt_recipes (sync_retriever cookbook)) w.

Example sync_run_ok :
  let '(o, w') := sync_run [web; multi []] (sync_engine None "reg.io/**") "reg.io/cookbook" (demo_run_world empty_store []) in
  o = Done tt ∧ rv_complete (w_resolved w') = true ∧
  (it_name <$> t_items (w_task w')) = ["shop@1.0.0/web"; "shop@1.0.0/multi"; "shop@1.0.0/recipe"] ∧
  has_manifest "reg.io/app/multi" "N" (w_store w') = true.
Proof. vm_compute. auto. Qed.

(** * Witnesses *)

Definition shop_ings : list Ingredient := [web; multi []].
Lemma shop_published (ings : list Ingredient) ing item :
  published (H2 := sync_sdk ings) ing item → ing ∈ ings ∧ item = "shop@1.0.0/" +:+ ig_name ing.
Proof. intros (d & c & l & recipe & _ & [= <-] & Hin & ->). done. Qed.
Lemma shop_names : item_names (H2 := sync_sdk shop_ings) "".
Proof.
  assert (∀ P : Ingredient → Prop, P web → P (multi []) → ∀ i, i ∈ shop_ings → P i) as Hall.
  { intros P ?? i. unfold shop_ings. intros [->|[->|[]%not_elem_of_nil]%elem_of_cons]%elem_of_cons; done. }
  split; intros item i1.
  - intros i2 [Ha ->]%shop_published [Hb Heq]%shop_published. revert i1 Ha i2 Hb Heq.
    by refine (Hall _ _ _); refine (Hall _ _ _); intros.
  - intros [Ha ->]%shop_published. by revert i1 Ha; refine (Hall _ _ _).
  - intros [Ha ->]%shop_published. by revert i1 Ha; refine (Hall _ _ _).
Qed.
Definition start : World := demo_run_world empty_store [].
Lemma start_honest : honest (H2 := sync_sdk shop_ings) "" (w_task start) (w_store start).
Proof. intros item ing _. split; discriminate. Qed.

Lemma complete_run_delivers_witness :
  let w' := (sync_run shop_ings (sync_engine None "reg.io/**") "reg.io/cookbook" start).2 in
  item_status "shop@1.0.0/multi" (w_task w') = StatusDone ∧
  ∃ version rec recipe, mt_recipes (st_meta (w_store w')) !! recipeKey "shop" version = Some rec ∧
    record_lists (H2 := sync_sdk shop_ings) "" rec recipe ∧
    (multi [] ∈ rc_ingredients recipe → linked_revision "reg.io/app/multi" "N" (w_store w') = true).
Proof.
  intros w'.
  assert (sync_run shop_ings (sync_engine None "reg.io/**") "reg.io/cookbook" start = (Done tt, w')) as Hrun
    by (vm_compute; reflexivity).
  assert (item_status "shop@1.0.0/multi" (w_task w') = StatusDone) as Hdone by (vm_compute; reflexivity).
  split; [exact Hdone|].
  destruct (complete_run_delivers (H2 := sync_sdk shop_ings) "" shop_names (sync_engine None "reg.io/**")
    (sync_retriever "reg.io/cookbook") start w' eq_refl (Forall_nil_2 _) closed_empty start_honest eq_refl Hrun
    ltac:(vm_compute; reflexivity) (mkSelector "shop" "1.0.0" "") ltac:(by left)) as (v & rec & recipe & Hv & Hf & Hall).
  exists v, rec, recipe. split; [exact Hv|]. split; [exact Hf|]. intros Hin.
  assert (ingredient_item recipe (multi []) = "shop@1.0.0/multi") as Hitem.
  { destruct Hf as (config & layer & _ & Hp & _). injection Hp as <-. reflexivity. }
  destruct (Hall _ Hin) as (_ & _ & [Hsk|[_ Hch]]); [rewrite Hitem, Hdone in Hsk; discriminate Hsk|].
  assert (ir_repo (ingredientRecord "" (multi [])) = "reg.io/app/multi") as <- by (vm_compute; reflexivity).
  destruct (Hch demo_children (mkChild "N" false (Some (mkPlatform "linux" "arm64" "v8"))) eq_refl
    ltac:(right; left) ltac:(by left)) as [Hl _]. exact Hl.
Defined.
Lemma refused_entry_moves_nothing_witness :
  let '(o, w') := syncRecipe (H2 := sync_sdk shop_ings) (sync_engine None "other.io/**") "reg.io/cookbook" "zone-a"
    (mkSelector "shop" "1.0.0" "") start in
  o = Done tt ∧ others start w' ∧ rv_complete (w_resolved w') = false ∧
  (it_error <$> t_items (w_task w')) ≠ [None].
Proof.
  pose proof (refused_entry_moves_nothing (H2 := sync_sdk shop_ings) (sync_engine None "other.io/**") "reg.io/cookbook"
    "zone-a" (mkSelector "shop" "1.0.0" "") "reg.io/cookbook/shop" start eq_refl
    ltac:(intros f _; eexists; reflexivity)) as Hr.
  destruct (syncRecipe _ _ _ _ _) as [o w'] eqn:E. destruct Hr as [Ho Hi].
  assert (o = Done tt) as -> by (change o with (o, w').1; rewrite <-E; vm_compute; reflexivity).
  split_and!; [done|done|by apply Hi|]. change w' with (Done tt, w').2. rewrite <-E. vm_compute. discriminate.
Defined.

(** * Promotions of the registry's recipe *)

Definition zone : Destination := mkDestination "zone.io" "" "cookbook" None.
Definition promoting : Engine := sync_engine (Some zone) "reg.io/**".
Definition fetched (d : string) : FetchedRecipe := mkFetched "reg.io/cookbook/shop" "1.0.0" d "C" "Y".
Definition delivered (ings : list Ingredient) : World :=
  (sync_run ings (sync_engine None "reg.io/**") "reg.io/cookbook" start).2.
Definition promote (ings : list Ingredient) (d : string) (w : World) : outcome bool * World :=
  promoteRecipe (H2 := sync_sdk ings) promoting (fetched d) (shop ings) "shop@1.0.0" (ownContent "") w.
Definition at_dest (s : DestState) (w : World) : World :=
  mkWorld (w_store w) (w_task w) (w_resolved w) (w_moved w) s (w_now w) (w_script w).

Lemma closed_empty_dest : dest_closed empty_dest.
Proof. split; set_solver. Qed.
Lemma delivered_dest : w_dest (delivered shop_ings) = empty_dest.
Proof. vm_compute. reflexivity. Qed.
Lemma apart ing target : ing ∈ shop_ings → PathWithBase "" (ig_ref ing) = Ok target →
  DestRepository zone target ≠ Ok "zone.io/cookbook/shop".
Proof.
  unfold shop_ings. intros [->|[->|[]%not_elem_of_nil]%elem_of_cons]%elem_of_cons; vm_compute; intros [= <-]; discriminate.
Qed.

Lemma promotion_keeps_destination_closed_witness :
  dest_closed (w_dest (promote shop_ings "R" (delivered shop_ings)).2).
Proof.
  unfold promote. refine (dg_closed _ _ (promotion_keeps_destination_closed (H2 := sync_sdk shop_ings) promoting
    (fetched "R") (shop shop_ings) "shop@1.0.0" (ownContent "") (delivered shop_ings) _)).
  rewrite delivered_dest. exact closed_empty_dest.
Defined.
Lemma published_tag_immutable_witness :
  let held := mkDest {[("zone.io/cookbook/shop", "1.0.0") := "M"]} ∅ ∅ ∅ in
  let w' := (promote shop_ings "R" (at_dest held (delivered shop_ings))).2 in
  ds_tags (w_dest w') !! ("zone.io/cookbook/shop", "1.0.0") = Some "M".
Proof.
  unfold promote. apply (published_tag_immutable (H2 := sync_sdk shop_ings) promoting (fetched "R") (shop shop_ings) "shop@1.0.0"
    (ownContent "") zone "zone.io/cookbook/shop"); [reflexivity|vm_compute; reflexivity|vm_compute; reflexivity| |exact apart].
  vm_compute. constructor.
Defined.
Lemma published_after_ingredients_witness :
  let w' := (promote shop_ings "R" (delivered shop_ings)).2 in
  ∃ target dst, PathWithBase "" "reg.io/app/web" = Ok target ∧ DestRepository zone target = Ok dst ∧
    (dst, "M") ∈ ds_manifests (w_dest w').
Proof.
  destruct (promote shop_ings "R" (delivered shop_ings)) as [o w'] eqn:E. cbn [snd]. unfold promote in E.
  assert (o = Done true) as -> by (change o with (o, w').1; rewrite <-E; vm_compute; reflexivity).
  refine (proj1 (published_after_ingredients (H2 := sync_sdk shop_ings) promoting (fetched "R") (shop shop_ings)
    "shop@1.0.0" (ownContent "") zone "zone.io/cookbook/shop" (delivered shop_ings) (Done true) w' eq_refl _ _ apart E
    (or_introl eq_refl)) web _).
  - rewrite delivered_dest. exact closed_empty_dest.
  - unfold shop, shop_ings. cbn [rc_ingredients].
    intros ing [->|[->|[]%not_elem_of_nil]%elem_of_cons]%elem_of_cons; reflexivity.
  - left.
Defined.

(** * Where the engine departs from what it documents *)

(** When an ingredient fails, the others still cross: the recipe graph records the
    recipe with the ingredients that arrived only, and the promotion pushes them. *)
Theorem failed_ingredient_recorded_without :
  let '(o, w') := sync_run [web; lost] promoting "reg.io/cookbook" start in
  o = Done tt ∧ rv_complete (w_resolved w') = false ∧ bool_decide ("shop@1.0.0" ∈ rv_keys (w_resolved w')) = true ∧
  (λ r, ir_name <$> rr_ingredients r) <$> mt_recipes (st_meta (w_store w')) !! "shop@1.0.0" = Some ["web"] ∧
  bool_decide (("zone.io/reg.io/app/web", "M") ∈ ds_manifests (w_dest w')) = true.
Proof. vm_compute. auto 10. Qed.

(** A selection widened after the first run is never fetched: the index and its tag are
    there, so the ingredient is up to date whatever its platforms. *)
Theorem widened_platforms_ignored :
  let narrow := (sync_run [multi ["linux/amd64"]] (sync_engine None "reg.io/**") "reg.io/cookbook" start).2 in
  let again := demo_run_world (w_store narrow) [] in
  let '(o, w') := sync_run [multi ["linux/amd64"; "linux/arm64/v8"]] (sync_engine None "reg.io/**") "reg.io/cookbook" again in
  o = Done tt ∧ rv_complete (w_resolved w') = true ∧
  (it_status <$> t_items (w_task w')) = [StatusSkipped; StatusSkipped] ∧
  has_manifest "reg.io/app/multi" "M" (w_store w') = true ∧ has_manifest "reg.io/app/multi" "N" (w_store w') = false.
Proof. vm_compute. auto 10. Qed.

(** The synchronization decides trust on the canonical name of the cookbook, the
    promotion on the name as written: a recipe a scope admits is fetched, then refused. *)
Theorem promotion_reads_raw_name :
  let '(o, w') := sync_run [web] (sync_engine (Some zone) "lab.io_5000/**") "lab.io:5000/cookbook" start in
  o = Done tt ∧ rv_complete (w_resolved w') = true ∧
  (λ it, (it_name it, ie_code <$> it_error it)) <$> t_items (w_task w') =
    [("shop@1.0.0/web", None); ("shop@1.0.0/recipe", None); ("push/shop@1.0.0/recipe", Some CodeSignature)] ∧
  ds_manifests (w_dest w') = ∅.
Proof. vm_compute. auto 10. Qed.

(** The promotion verifies the digest the recipe was fetched at, and pushes what the
    local tag names by then: another artifact of the same document crosses unverified. *)
Definition retagged : World :=
  let w := delivered [web] in
  at_dest empty_dest (PutManifest "reg.io/cookbook/shop" "S" "1.0.0" w).2.
Theorem propagation_follows_tag :
  let '(o, w') := promote [web] "R" retagged in
  o = Done true ∧ ds_tags (w_dest w') !! ("zone.io/cookbook/shop", "1.0.0") = Some "S" ∧
  bool_decide (("zone.io/cookbook/shop", "R") ∈ ds_manifests (w_dest w')) = false.
Proof. vm_compute. auto. Qed.

(** A child of an index that the store holds without one of its blobs is taken for a
    child that was never selected: the index is published without it. *)
Definition holed : World :=
  let w := delivered shop_ings in
  mkWorld (let st := w_store w in mkStore (st_repos st) (delete "K" (st_blobs st)) (st_meta st))
    (w_task w) (w_resolved w) (w_moved w) (w_dest w) (w_now w) (w_script w).
Theorem holed_child_skipped :
  let '(o, w') := PushManifest "reg.io/app/multi" "zone.io/multi" "I" "v1" holed in
  has_manifest "reg.io/app/multi" "N" (w_store holed) = true ∧ o = Done tt ∧
  ds_tags (w_dest w') !! ("zone.io/multi", "v1") = Some "I" ∧
  bool_decide (("zone.io/multi", "M") ∈ ds_manifests (w_dest w')) = true ∧
  bool_decide (("zone.io/multi", "N") ∈ ds_manifests (w_dest w')) = false.
Proof. vm_compute. auto 10. Qed.
