(* ===== verification/Plan.v ===== *)
(** The plan of a synchronization (internal/engine/plan.go, plan_report.go): what a run
    would resolve, transfer, push and prune, computed without doing any of it.

    A plan runs in the same world as a run: its requests and its reads of the store take
    the next events of the script, during which others may write. The size cache is the
    planner's only state; the ledger of digests, the hosts and the resolved repositories
    are the maps one plan threads through its recipes. *)

From S2P Require Import Prelude GoStrings Relocate Policy Taxonomy Tasks MediaVerify SigKeys SigVerify Trust.
From S2P Require Import StoreMeta StoreGC Prune Preflight Transfer Browse Remotes Promote Sync.

(** * The report *)

(** [Outcome] with its [ExitCode]. *)
Inductive Outcome := OutcomeUpToDate | OutcomeChangesPlanned | OutcomePolicyRefused | OutcomeVerificationFailed | OutcomeFailed.
#[export] Instance Outcome_eq_dec : EqDecision Outcome.
Proof. solve_decision. Defined.
Definition outcome_exit (o : Outcome) : Z :=
  match o with
  | OutcomeUpToDate => ExitOK | OutcomeChangesPlanned => ExitChangesPlanned | OutcomePolicyRefused => ExitPolicy
  | OutcomeVerificationFailed => ExitVerification | OutcomeFailed => ExitFailure
  end.
(** [ItemStatus], [Signature] and [Problem]. *)
Inductive ItemStatus := PlanNew | PlanOutdated | PlanUpToDate | PlanUnknown | PlanNotProbed.
#[export] Instance ItemStatus_eq_dec : EqDecision ItemStatus.
Proof. solve_decision. Defined.
Inductive Signature := SignatureVerified | SignatureUnsignedAdmitted | SignatureRefused | SignatureNotEvaluated.
Record Problem := mkProblem { pm_code : Code; pm_class : string; pm_subject : string; pm_params : Params }.
Definition className (c : Taxonomy.Class) : string :=
  match c with ClassPolicy => "policy" | ClassVerification => "verification" | ClassOperational => "operational" end.
Definition newProblem (subject : string) (e : TaxError) : Problem :=
  mkProblem (te_code e) (className (class_of (te_code e))) subject (te_params e).

(** [PlanIngredient], [PlanRecipe], [PruneEntry], [PrunePlan], [PlanTotals],
    [HostVerdict], [PolicyReport] and [Plan]. *)
Record PlanIngredient := mkPlanIngredient {
  pi_name : string; pi_kind : IngredientKind; pi_ref : string; pi_effective : string; pi_repo : string;
  pi_version : string; pi_digest : string; pi_status : ItemStatus; pi_push_status : ItemStatus;
  pi_total : Z; pi_transfer : Z; pi_largest : Z; pi_problem : option Problem }.
Record PlanRecipe := mkPlanRecipe {
  pr_name : string; pr_requested : string; pr_resolved : string; pr_digest : string; pr_cookbook : string;
  pr_scope : string; pr_signature : Signature; pr_ingredients : list PlanIngredient;
  pr_total : Z; pr_transfer : Z; pr_largest : Z; pr_problem : option Problem }.
Record PruneEntry := mkPruneEntry { pe_repo : string; pe_recipe : string; pe_bytes : Z }.
Record PrunePlan := mkPrunePlan { pp_evaluated : bool; pp_reason : string; pp_repositories : list PruneEntry; pp_total : Z }.
Record PlanTotals := mkPlanTotals {
  pt_recipes : Z; pt_ingredients : Z; pt_new : Z; pt_outdated : Z; pt_up_to_date : Z;
  pt_total : Z; pt_transfer : Z; pt_largest : Z; pt_store : Z; pt_projected : Z; pt_push_bound : Z; pt_push_evaluated : bool }.
Record HostVerdict := mkHostVerdict { hv_host : string; hv_role : string; hv_allowed : bool }.
Record Plan := mkPlan {
  pn_mode : string; pn_source : string; pn_candidate : bool; pn_zone : string; pn_generated : time; pn_destination : string;
  pn_outcome : Outcome; pn_recipes : list PlanRecipe; pn_totals : PlanTotals; pn_declared : bool; pn_patterns : list string;
  pn_hosts : list HostVerdict; pn_prune : PrunePlan; pn_checks : list VolumeCheck; pn_problems : list Problem }.

(** [HasChanges] and [Refused]. *)
Definition HasChanges (p : Plan) : bool :=
  (0 <? pt_new (pn_totals p))%Z || (0 <? pt_outdated (pn_totals p))%Z || (0 <? pp_total (pn_prune p))%Z ||
  (0 <? length (pp_repositories (pn_prune p)))%nat || (0 <? pt_push_bound (pn_totals p))%Z.
Definition Refused (p : Plan) : bool := existsb (λ c, negb (check_ok c)) (pn_checks p).

(** [worstOutcome]: verification over policy over the rest. *)
Definition outcome_rank (o : Outcome) : Z :=
  match o with
  | OutcomeUpToDate | OutcomeChangesPlanned => 0 | OutcomeFailed => 1 | OutcomePolicyRefused => 2
  | OutcomeVerificationFailed => 3
  end.
Definition problem_outcome (p : Problem) : Outcome :=
  if String.eqb (pm_class p) "policy" then OutcomePolicyRefused
  else if String.eqb (pm_class p) "verification" then OutcomeVerificationFailed else OutcomeFailed.
Definition worstOutcome (problems : list Problem) : Outcome :=
  fold_left (λ out p, if (outcome_rank out <? outcome_rank (problem_outcome p))%Z then problem_outcome p else out)
    problems OutcomeUpToDate.

(** * Sizes *)

(** [contentSizes], and [dedup] with [add] and [totals]: the gross size, the size to
    transfer, the largest file to write. *)
Record contentSizes := mkSizes { cs_blobs : gmap string Z; cs_manifests : gmap string Z }.
Abbreviation dedup := (gmap string (Z * bool)).
Definition dedup_add (d : string) (size : Z) (needed : bool) (l : dedup) : dedup :=
  match l !! d with
  | None => <[d := (size, needed)]> l
  | Some (size0, needed0) => <[d := (size0, needed0 || needed)]> l
  end.
Definition grow (largest size : Z) : Z := if (largest <? size)%Z then size else largest.
Definition dedup_totals `{GoRuntime} (l : dedup) : Z * Z * Z :=
  fold_left (λ '(total, transfer, largest) '(size, needed),
      (add64 total size, if (needed : bool) then add64 transfer size else transfer,
       if needed then grow largest size else largest)) (map_values l) (0, 0, 0)%Z.

(** [PlanOptions], [Planner] with its configuration, and the maps of one plan. *)
Record PlanOptions := mkPlanOptions { po_retriever : string; po_document : string; po_skip : bool }.
Abbreviation SizeCache := (gmap string contentSizes).
Record PState := mkPState { ps_cache : SizeCache; ps_ledger : dedup; ps_hosts : gmap string HostVerdict; ps_resolved : gset string }.
Definition planCacheEntries : Z := 4096.
Definition maxIndexDepth : nat := 8.

Section plan.
Context `{GoRuntime, StoreIO, Documents, RecipeSDK, Upstream, Volume, KeyLib, SigCodec, Zone}.
Context `{!Browsing, !BlobTree, !RetrieverIO}.
Context (store_text : store_error → string).

Record Planner := mkPlanner {
  pl_remotes : Remotes; pl_trust : TrustPolicy; pl_dest : option Destination; pl_source : string;
  pl_mode : string; pl_base : string; pl_margin : Z; pl_disabled : bool }.

(** [collect]: nested indexes down to the eighth level, every manifest once. *)
Definition parse_error (what ref : string) : go_error := plain ("parsing " +:+ what +:+ " " +:+ ref +:+ ": unreadable").
Definition depth_error (ref : string) : go_error :=
  plain ("index nesting of " +:+ ref +:+ " exceeds " +:+ pretty (Z.of_nat maxIndexDepth) +:+ " levels").
Definition add_blob (b : string * Z) (c : contentSizes) : contentSizes :=
  if String.eqb b.1 "" then c else mkSizes (<[b.1 := b.2]> (cs_blobs c)) (cs_manifests c).
Fixpoint collect_children (go : string → contentSizes → eng contentSizes) (r : Remotes) (ref : string)
    (selected : option (gset string)) (children : list child) (c : contentSizes) : eng contentSizes :=
  match children with
  | [] => mret c
  | ch :: children =>
      if match selected with Some sel => bool_decide (ch_digest ch ∉ sel) | None => false end
      then collect_children go r ref selected children c
      else
        d ← Get r ref (ch_digest ch);
        c ← go d c;
        collect_children go r ref selected children c
  end.
Fixpoint collect (levels : nat) (r : Remotes) (ref : string) (selected : option (gset string)) (d : string) (c : contentSizes)
  : eng contentSizes :=
  match levels with
  | 0 => raise (depth_error ref)
  | S levels =>
      if bool_decide (is_Some (cs_manifests c !! d)) then mret c
      else
        let c := mkSizes (cs_blobs c) (<[d := payload_len d]> (cs_manifests c)) in
        match doc_of d with
        | None => raise (parse_error "manifest" ref)
        | Some (Index children) => collect_children (collect levels r ref None) r ref selected children c
        | Some (Image config layers) => mret (fold_left (λ c b, add_blob b c) (config :: layers) c)
        end
  end.
(** [walk]. *)
Definition is_index_doc (d : string) : bool := match doc_of d with Some (Index _) => true | _ => false end.
Definition walk (r : Remotes) (ing : Ingredient) : eng contentSizes :=
  d ← Get r (ig_ref ing) (ig_digest ing);
  if negb (String.eqb d (ig_digest ing)) then raise (tax_error (tax CodeDigestMismatch
    (strs [("reference", ig_ref ing); ("expected", ig_digest ing); ("actual", d)])))
  else
    selected ← (if is_index_doc d then lift (selectPlatforms (ig_ref ing) d (ig_platforms ing)) else mret None);
    collect (S maxIndexDepth) r (ig_ref ing) selected d (mkSizes ∅ ∅).
(** [contentOf]: a full cache is dropped whole. *)
Definition size_key (ing : Ingredient) : string := ig_digest ing +:+ "|" +:+ join "," (ig_platforms ing).
Definition contentOf (r : Remotes) (ing : Ingredient) (cache : SizeCache) : eng (contentSizes * SizeCache) :=
  match cache !! size_key ing with
  | Some c => mret (c, cache)
  | None =>
      c ← walk r ing;
      let cache := if (planCacheEntries <=? Z.of_nat (size cache))%Z then ∅ else cache in
      mret (c, <[size_key ing := c]> cache)
  end.

(** * One ingredient *)

(** [noteHost]. *)
Definition noteHost (p : Planner) (ref role : string) (hosts : gmap string HostVerdict) : gmap string HostVerdict :=
  match Effective (pl_remotes p) ref with
  | Err _ => hosts
  | Ok effective =>
      let host := first_segment effective in
      if String.eqb host "" then hosts
      else <[host := mkHostVerdict host role (Allows (rm_allow (pl_remotes p)) host)]> hosts
  end.
(** The two loops over the content: the ledgers, then [ingredientTotals], each asking
    the store again. *)
Fixpoint tally_content (has : string → eng bool) (items : list (string * Z)) (l : dedup * dedup) : eng (dedup * dedup) :=
  match items with
  | [] => mret l
  | (d, size) :: items =>
      present ← has d;
      tally_content has items (dedup_add d size (negb present) l.1, dedup_add d size (negb present) l.2)
  end.
Fixpoint sum_content (has : string → eng bool) (blobs : bool) (items : list (string * Z)) (t : Z * Z * Z) : eng (Z * Z * Z) :=
  match items with
  | [] => mret t
  | (d, size) :: items =>
      let '(total, transfer, largest) := t in
      present ← has d;
      sum_content has blobs items
        (if (present : bool) then (add64 total size, transfer, largest)
         else (add64 total size, add64 transfer size, if blobs then grow largest size else largest))
  end.
Definition ingredientTotals (repo : string) (c : contentSizes) : eng (Z * Z * Z) :=
  t ← sum_content (HasBlob repo) true (map_range (cs_blobs c)) (0, 0, 0)%Z;
  sum_content (HasManifest repo) false (map_range (cs_manifests c)) t.

Definition set_pi_problem (pb : option Problem) (pi : PlanIngredient) : PlanIngredient :=
  mkPlanIngredient (pi_name pi) (pi_kind pi) (pi_ref pi) (pi_effective pi) (pi_repo pi) (pi_version pi) (pi_digest pi)
    (pi_status pi) (pi_push_status pi) (pi_total pi) (pi_transfer pi) (pi_largest pi) pb.
Definition set_push_status (s : ItemStatus) (pi : PlanIngredient) : PlanIngredient :=
  mkPlanIngredient (pi_name pi) (pi_kind pi) (pi_ref pi) (pi_effective pi) (pi_repo pi) (pi_version pi) (pi_digest pi)
    (pi_status pi) s (pi_total pi) (pi_transfer pi) (pi_largest pi) (pi_problem pi).
(** [planIngredient]. *)
Definition store_status (repo : string) (ing : Ingredient) : eng ItemStatus :=
  has ← HasManifest repo (ig_digest ing);
  if negb has then mret PlanNew
  else
    tag ← ResolveTag repo (ig_version ing);
    mret (if bool_decide (tag = Some (ig_digest ing)) then PlanUpToDate else PlanOutdated).
Definition planIngredient (p : Planner) (ing : Ingredient) (st : PState) (local : dedup) : eng (PlanIngredient * PState * dedup) :=
  let row effective repo status total transfer largest pb :=
    mkPlanIngredient (ig_name ing) (ig_kind ing) (ig_ref ing) effective repo (ig_version ing) (ig_digest ing)
      status PlanNotProbed total transfer largest pb in
  let problem (e : go_error) := Some (newProblem (ig_ref ing) (mapEngineError e (ig_ref ing))) in
  match relocated (PathWithBase (pl_base p) (ig_ref ing)) with
  | Err e => mret (row "" "" PlanUnknown 0%Z 0%Z 0%Z (problem e), st, local)
  | Ok repo =>
      match relocated (Effective (pl_remotes p) (ig_ref ing)) with
      | Err e => mret (row "" repo PlanUnknown 0%Z 0%Z 0%Z (problem e), st, local)
      | Ok effective =>
          let effective := if String.eqb effective (ig_ref ing) then "" else effective in
          let st := mkPState (ps_cache st) (ps_ledger st) (noteHost p (ig_ref ing) "source" (ps_hosts st)) (ps_resolved st) in
          status ← store_status repo ing;
          r ← attempt (contentOf (pl_remotes p) ing (ps_cache st));
          match r with
          | Err e => mret (row effective repo status 0%Z 0%Z 0%Z (problem e), st, local)
          | Ok (c, cache) =>
              l ← tally_content (HasBlob repo) (map_range (cs_blobs c)) (ps_ledger st, local);
              '(ledger, local) ← tally_content (HasManifest repo) (map_range (cs_manifests c)) l;
              '(total, transfer, largest) ← ingredientTotals repo c;
              mret (row effective repo status total transfer largest None,
                    mkPState cache ledger (ps_hosts st) (ps_resolved st), local)
          end
      end
  end.

(** * One recipe *)

Fixpoint plan_ingredients (p : Planner) (ings : list Ingredient) (st : PState) (local : dedup) (rows : list PlanIngredient)
  : eng (list PlanIngredient * PState * dedup) :=
  match ings with
  | [] => mret (rows, st, local)
  | ing :: ings =>
      '(pi, st, local) ← planIngredient p ing st local;
      let st := if String.eqb (pi_repo pi) "" then st
                else mkPState (ps_cache st) (ps_ledger st) (ps_hosts st) ({[ pi_repo pi ]} ∪ ps_resolved st) in
      plan_ingredients p ings st local (rows ++ [pi])
  end.
(** A step of a recipe whose error stops it with a problem. *)
Definition or_problem {A} (pr : PlanRecipe) (st : PState) (m : eng A) (k : A → eng (PlanRecipe * PState)) : eng (PlanRecipe * PState) :=
  r ← attempt m;
  match r with
  | Ok a => k a
  | Err e =>
      mret (mkPlanRecipe (pr_name pr) (pr_requested pr) (pr_resolved pr) (pr_digest pr) (pr_cookbook pr) (pr_scope pr)
              (pr_signature pr) (pr_ingredients pr) (pr_total pr) (pr_transfer pr) (pr_largest pr)
              (Some (newProblem (pr_name pr) (mapEngineError e (pr_name pr)))), st)
  end.
(** [planRecipe]. *)
Definition planRecipe (p : Planner) (cookbook : string) (entry : Selector) (st : PState) : eng (PlanRecipe * PState) :=
  let name := sl_name entry in
  let r := pl_remotes p in
  let mk tag digest scope sig := mkPlanRecipe name (sl_version entry) tag digest cookbook scope sig [] 0 0 0 None in
  let st := mkPState (ps_cache st) (ps_ledger st) (noteHost p (cookbook +:+ "/" +:+ name) "cookbook" (ps_hosts st)) (ps_resolved st) in
  or_problem (mk "" "" "" SignatureNotEvaluated) st
    (versions ← Versions r cookbook name; lift (ResolveVersion (sl_version entry) versions)) (λ tag,
  or_problem (mk tag "" "" SignatureNotEvaluated) st (FetchArtifact r cookbook name tag) (λ f,
  or_problem (mk tag (f_digest f) "" SignatureNotEvaluated) st (lift (relocated (nominalRepoOf cookbook name))) (λ trustRepo,
  let d := Decide (pl_trust p) trustRepo in
  or_problem (mk tag (f_digest f) (dc_scope d) SignatureRefused) st (_ ← call; lift (verifyRecipe r f d)) (λ verified,
  let sig := if (verified : bool) then SignatureVerified else SignatureUnsignedAdmitted in
  or_problem (mk tag (f_digest f) (dc_scope d) sig) st (LoadDocument r f name) (λ recipe,
  let st := match PathWithBase (pl_base p) (f_repo f) with
            | Ok local => mkPState (ps_cache st) (ps_ledger st) (ps_hosts st) ({[ local ]} ∪ ps_resolved st)
            | Err _ => st
            end in
  '(rows, st, local) ← plan_ingredients p (rc_ingredients recipe) st ∅ [];
  let '(total, transfer, largest) := dedup_totals local in
  mret (mkPlanRecipe name (sl_version entry) tag (f_digest f) cookbook (dc_scope d) sig rows total transfer largest None, st)))))).
Fixpoint plan_recipes (p : Planner) (retr : Retriever) (entries : list Selector) (st : PState) (rows : list PlanRecipe)
  : eng (list PlanRecipe * PState) :=
  match entries with
  | [] => mret (rows, st)
  | entry :: entries =>
      let cookbook := if String.eqb (sl_cookbook entry) "" then rt_cookbook retr else sl_cookbook entry in
      '(pr, st) ← planRecipe p cookbook entry st;
      plan_recipes p retr entries st (rows ++ [pr])
  end.

(** * The whole plan *)

(** [summarize]. *)
Definition all_ingredients (recipes : list PlanRecipe) : list PlanIngredient := recipes ≫= pr_ingredients.
Definition count_status (s : ItemStatus) (items : list PlanIngredient) : Z :=
  Z.of_nat (length (filter (λ i, pi_status i = s) items)).
Definition read_problem (root text : string) : Problem := newProblem root (tax CodeStoreRead (strs [("detail", text)])).
Definition summarize_plan (recipes : list PlanRecipe) (ledger : dedup) (st : Store) : PlanTotals * list Problem :=
  let items := all_ingredients recipes in
  let '(total, transfer, largest) := dedup_totals ledger in
  let mk store projected := mkPlanTotals (Z.of_nat (length recipes)) (Z.of_nat (length items)) (count_status PlanNew items)
    (count_status PlanOutdated items) (count_status PlanUpToDate items) total transfer largest store projected 0 false in
  match PhysicalBytes st with
  | Err text => (mk 0%Z 0%Z, [read_problem vol_root text])
  | Ok current => (mk current (add64 current transfer), [])
  end.
(** [recordProblems]. *)
Definition recipe_problems (recipes : list PlanRecipe) : list Problem :=
  recipes ≫= λ r, option_list (pr_problem r) ++ (pr_ingredients r ≫= λ i, option_list (pi_problem i)).
(** [sortedVerdicts]. *)
Definition sortedVerdicts (hosts : gmap string HostVerdict) : list HostVerdict :=
  sort_slice (λ a b, str_ltb (hv_host a) (hv_host b)) (map_values hosts).

(** [statusOf] and [probeDestination]: the rows, the hosts, the bound and the problems. *)
Definition statusOf (s : PlatformStatus) : ItemStatus :=
  match s with StatusNew => PlanNew | StatusOutdated => PlanOutdated | StatusUpToDate => PlanUpToDate end.
Record Probe := mkProbed { pb_hosts : gmap string HostVerdict; pb_bound : Z; pb_problems : list Problem }.
Definition probe_ingredient (p : Planner) (d : Destination) (pi : PlanIngredient) (b : Probe) : eng (PlanIngredient * Probe) :=
  if String.eqb (pi_repo pi) "" || String.eqb (pi_digest pi) "" then mret (pi, b)
  else
    match DestRepository d (pi_repo pi) with
    | Err e =>
        let pb := newProblem (pi_ref pi) (mapEngineError e (pi_ref pi)) in
        let pi := set_push_status PlanUnknown pi in
        mret (match pi_problem pi with None => set_pi_problem (Some pb) pi | Some _ => pi end,
              mkProbed (pb_hosts b) (pb_bound b) (pb_problems b ++ [pb]))
    | Ok repo =>
        let host := first_segment repo in
        let hosts := <[host := mkHostVerdict host "destination" (Allows (rm_allow (pl_remotes p)) host)]> (pb_hosts b) in
        r ← attempt (DestStatus repo (pi_version pi) (pi_digest pi));
        match r with
        | Err e =>
            mret (set_push_status PlanUnknown pi,
                  mkProbed hosts (pb_bound b) (pb_problems b ++ [newProblem (pi_ref pi) (mapEngineError e (pi_ref pi))]))
        | Ok s =>
            mret (set_push_status (statusOf s) pi,
                  mkProbed hosts (if decide (s = StatusUpToDate) then pb_bound b else add64 (pb_bound b) (pi_total pi)) (pb_problems b))
        end
    end.
Fixpoint probe_ingredients (p : Planner) (d : Destination) (items : list PlanIngredient) (b : Probe) : eng (list PlanIngredient * Probe) :=
  match items with
  | [] => mret ([], b)
  | i :: items =>
      '(i, b) ← probe_ingredient p d i b;
      '(items, b) ← probe_ingredients p d items b;
      mret (i :: items, b)
  end.
Fixpoint probeDestination (p : Planner) (d : Destination) (recipes : list PlanRecipe) (b : Probe) : eng (list PlanRecipe * Probe) :=
  match recipes with
  | [] => mret ([], b)
  | r :: recipes =>
      '(items, b) ← probe_ingredients p d (pr_ingredients r) b;
      '(recipes, b) ← probeDestination p d recipes b;
      mret (mkPlanRecipe (pr_name r) (pr_requested r) (pr_resolved r) (pr_digest r) (pr_cookbook r) (pr_scope r)
              (pr_signature r) items (pr_total r) (pr_transfer r) (pr_largest r) (pr_problem r) :: recipes, b)
  end.

(** [planPrune]: what the graph holds for a recipe and the plan did not resolve. *)
Definition hold_record (base : string) (held : gmap string string) (rec : RecipeRecord) : gmap string string :=
  let held := match PathWithBase base (rr_cookbook rec) with Ok local => <[local := rr_name rec]> held | Err _ => held end in
  fold_left (λ held i, if String.eqb (ir_repo i) "" then held else <[ir_repo i := rr_name rec]> held) (rr_ingredients rec) held.
Definition protected (repo : string) (m : Meta) : bool :=
  match ProvenanceOf repo m with Some prov => negb (bool_decide (pv_class prov = ProvenanceRecipe)) | None => false end.
Fixpoint prune_entries (st : Store) (resolved : gset string) (held : list (string * string)) : list PruneEntry * list Problem :=
  match held with
  | [] => ([], [])
  | (repo, recipe) :: held =>
      let '(entries, problems) := prune_entries st resolved held in
      if bool_decide (repo ∈ resolved) || protected repo (st_meta st) then (entries, problems)
      else
        match RepoInfo_of st repo with
        | Ok info => (mkPruneEntry repo recipe (ri_size info) :: entries, problems)
        | Err ErrNotFound => (entries, problems)
        | Err e => (entries, read_problem repo (store_text e) :: problems)
        end
  end.
Definition partial_reason : string :=
  "at least one recipe of the Retriever did not resolve: projecting a prune from a partial resolution would propose deleting content that is still wanted".
Definition planPrune (p : Planner) (resolved : gset string) (allResolved : bool) (st : Store) : PrunePlan * list Problem :=
  if negb allResolved then (mkPrunePlan false partial_reason [] 0, [])
  else
    match RecipeRecords (st_meta st) with
    | Err e => (mkPrunePlan false ("the recipe graph could not be read: " +:+ store_text e) [] 0, [read_problem vol_root (store_text e)])
    | Ok records =>
        let held := fold_left (hold_record (pl_base p)) records ∅ in
        let '(entries, problems) := prune_entries st resolved (map_range held) in
        let entries := sort_slice (λ a b, str_ltb (pe_repo a) (pe_repo b)) entries in
        (mkPrunePlan true "" entries (fold_left (λ n e, add64 n (pe_bytes e)) entries 0%Z), problems)
    end.

(** [check]: a disabled gate still reports its verdict. *)
Definition plan_check (p : Planner) (t : PlanTotals) : VolumeCheck * list Problem :=
  let '(c, refusal) := Evaluate vol_inspect (mkRequest TargetStore vol_root (pt_transfer t) (pt_largest t) (pl_margin p)) in
  match refusal with
  | Some te => (c, if pl_disabled p then [] else [newProblem vol_root te])
  | None => (c, [])
  end.

(** [loadRetriever]. *)
Definition loadRetriever (p : Planner) (opts : PlanOptions) : eng Retriever :=
  if negb (String.eqb (po_document opts) "") then lift (ParseRetriever (po_document opts))
  else LoadRetriever (pl_remotes p) (if String.eqb (po_retriever opts) "" then pl_source p else po_retriever opts).
Definition plan_source (p : Planner) (opts : PlanOptions) : string :=
  if negb (String.eqb (po_document opts) "") then "(candidate document)"
  else if String.eqb (po_retriever opts) "" then pl_source p else po_retriever opts.

(** [Plan]. *)
Definition set_pushed (t : PlanTotals) (bound : Z) : PlanTotals :=
  mkPlanTotals (pt_recipes t) (pt_ingredients t) (pt_new t) (pt_outdated t) (pt_up_to_date t) (pt_total t) (pt_transfer t)
    (pt_largest t) (pt_store t) (pt_projected t) bound true.
Definition decideOutcome (p : Plan) : Plan :=
  let o := worstOutcome (pn_problems p) in
  let o := if decide (o = OutcomeUpToDate) then if HasChanges p then OutcomeChangesPlanned else o else o in
  mkPlan (pn_mode p) (pn_source p) (pn_candidate p) (pn_zone p) (pn_generated p) (pn_destination p) o (pn_recipes p)
    (pn_totals p) (pn_declared p) (pn_patterns p) (pn_hosts p) (pn_prune p) (pn_checks p) (pn_problems p).
Definition PlanOf (p : Planner) (opts : PlanOptions) (cache : SizeCache) : eng (Plan * SizeCache) :=
  now ← gets w_now;
  let allow := rm_allow (pl_remotes p) in
  let mk zone outcome recipes totals hosts prune checks problems :=
    mkPlan (pl_mode p) (plan_source p opts) (negb (String.eqb (po_retriever opts) "") || negb (String.eqb (po_document opts) ""))
      zone now (match pl_dest p with Some d => de_host d | None => "" end) outcome recipes totals (Declared allow) (Patterns allow)
      hosts prune checks problems in
  r ← attempt (loadRetriever p opts);
  match r with
  | Err e =>
      let problems := [newProblem (plan_source p opts) (mapEngineError e (plan_source p opts))] in
      mret (mk "" (worstOutcome problems) [] (mkPlanTotals 0 0 0 0 0 0 0 0 0 0 0 false) [] (mkPrunePlan false "" [] 0) [] problems, cache)
  | Ok retr =>
      '(recipes, st) ← plan_recipes p retr (rt_recipes retr) (mkPState cache ∅ ∅ ∅) [];
      let allResolved := forallb (λ r, match pr_problem r with None => true | Some _ => false end) recipes in
      '(totals, problems) ← gets (λ w, summarize_plan recipes (ps_ledger st) (w_store w));
      let problems := problems ++ recipe_problems recipes in
      '(recipes, totals, b) ← match pl_dest p with
        | Some d =>
            if po_skip opts || bool_decide (worstOutcome problems = OutcomePolicyRefused)
            then mret (recipes, totals, mkProbed (ps_hosts st) 0 problems)
            else
              '(recipes, b) ← probeDestination p d recipes (mkProbed (ps_hosts st) 0 problems);
              mret (recipes, set_pushed totals (pb_bound b), b)
        | None => mret (recipes, totals, mkProbed (ps_hosts st) 0 problems)
        end;
      '(prune, pruneProblems) ← gets (λ w, planPrune p (ps_resolved st) allResolved (w_store w));
      let '(c, checkProblems) := plan_check p totals in
      mret (decideOutcome (mk (rt_name retr) (worstOutcome (pb_problems b)) recipes totals (sortedVerdicts (pb_hosts b)) prune [c]
              (pb_problems b ++ pruneProblems ++ checkProblems)), ps_cache st)
  end.
End plan.
