(* ===== verification/PlanTheorems.v ===== *)
(** Results on the plan: it writes nothing, its totals count every digest once, its
    statuses are those of the run, a policy refusal stops it before the destination, and
    its prune projection stays within what recipes brought. *)

From S2P Require Import Prelude GoStrings Relocate Policy Taxonomy Tasks MediaVerify SigKeys SigVerify Trust.
From S2P Require Import StoreMeta StoreGC StoreSafety Prune Preflight Transfer TransferSafety Browse BrowseTheorems Remotes Promote Sync Plan.

(** * A plan only reads *)

(** The world moves by the events met on the way, which are what other writers did: no
    other part of it changes. *)
Record reads (w w' : World) : Prop := {
  rd_events : ∃ es, w_script w = es ++ w_script w' ∧ w_store w' = fold_left (λ st e, ev_other e st) es (w_store w) ∧
    w_now w' = fold_left (λ t e, (t + ev_wait e)%Z) es (w_now w);
  rd_task : w_task w' = w_task w;
  rd_resolved : w_resolved w' = w_resolved w;
  rd_moved : w_moved w' = w_moved w;
  rd_dest : w_dest w' = w_dest w }.
#[export] Instance reads_preorder : PreOrder reads.
Proof.
  split.
  - intros w. split; [|done..]. by exists [].
  - intros w1 w2 w3 [(es1 & Hs1 & Hst1 & Hn1) ? ? ? ?] [(es2 & Hs2 & Hst2 & Hn2) ? ? ? ?]. split; [|congruence..].
    exists (es1 ++ es2). rewrite Hs1, Hs2, <-app_assoc, !fold_left_app. split; [done|]. by rewrite <-Hst1, <-Hn1.
Qed.
Lemma reads_quiet w w' : reads w w' → w_script w = [] → w' = w.
Proof.
  intros [(es & Hs & Hst & Hn) ? ? ? ?] E. rewrite E in Hs. symmetry in Hs. apply app_nil in Hs as [-> E'].
  destruct w, w'; cbn in *; congruence.
Qed.
#[export] Instance reads_call : Keeps reads call.
Proof.
  intros w. unfold call. destruct (w_script w) as [|e es] eqn:E; [reflexivity|]. split; [|done..].
  exists [e]. by rewrite E.
Qed.

Section plan_reads.
Context `{GoRuntime, StoreIO, Documents, RecipeSDK, Upstream, Volume, KeyLib, SigCodec, Zone}.
Context `{!Browsing, !BlobTree, !RetrieverIO}.
Context (store_text : store_error → string).

#[export] Instance reads_HasManifest repo d : Keeps reads (HasManifest repo d).
Proof. unfold HasManifest, quiet. apply _. Qed.
#[export] Instance reads_HasBlob repo d : Keeps reads (HasBlob repo d).
Proof. unfold HasBlob, quiet. apply _. Qed.
#[export] Instance reads_ResolveTag repo tag : Keeps reads (ResolveTag repo tag).
Proof. unfold ResolveTag. apply _. Qed.
#[export] Instance reads_Get r nominal reference : Keeps reads (Get r nominal reference).
Proof. unfold Get. apply _. Qed.
#[export] Instance reads_collect levels r ref selected d c : Keeps reads (collect levels r ref selected d c).
Proof.
  revert selected d c. induction levels as [|levels IH]; intros selected d c; cbn [collect]; [apply _|].
  apply keeps_if; [apply _|]. destruct (doc_of d) as [[config layers|children]|]; [apply _| |apply _].
  generalize (mkSizes (cs_blobs c) (<[d:=payload_len d]> (cs_manifests c))). induction children as [|ch children IHc]; intros c'; cbn [collect_children]; [apply _|].
  apply keeps_if; [apply IHc|]. apply keeps_bind; [apply _|]. intros d'. apply keeps_bind; [apply IH|apply IHc].
Qed.
#[export] Instance reads_contentOf r ing cache : Keeps reads (contentOf r ing cache).
Proof. unfold contentOf, walk. apply _. Qed.
#[export] Instance reads_tally has items l : (∀ d, Keeps reads (has d)) → Keeps reads (tally_content has items l).
Proof. intros Hh. revert l. induction items as [|[d n] items IH]; intros l; cbn [tally_content]; apply _. Qed.
#[export] Instance reads_sum has b items t : (∀ d, Keeps reads (has d)) → Keeps reads (sum_content has b items t).
Proof.
  intros Hh. revert t. induction items as [|[d n] items IH]; intros [[total transfer] largest]; cbn [sum_content]; apply _.
Qed.
#[export] Instance reads_planIngredient p ing st local : Keeps reads (planIngredient p ing st local).
Proof. unfold planIngredient, store_status, ingredientTotals. apply _. Qed.
#[export] Instance reads_plan_ingredients p ings st local rows : Keeps reads (plan_ingredients p ings st local rows).
Proof. revert st local rows. induction ings as [|ing ings IH]; intros st local rows; cbn [plan_ingredients]; apply _. Qed.
#[export] Instance reads_or_problem {A} pr st (m : eng A) k :
  Keeps reads m → (∀ a, Keeps reads (k a)) → Keeps reads (or_problem pr st m k).
Proof. intros. unfold or_problem. apply _. Qed.
#[export] Instance reads_planRecipe p cookbook entry st : Keeps reads (planRecipe p cookbook entry st).
Proof. unfold planRecipe, Versions, ListTags, FetchArtifact, LoadDocument, fetch_blob. apply _. Qed.
#[export] Instance reads_plan_recipes p retr entries st rows : Keeps reads (plan_recipes p retr entries st rows).
Proof. revert st rows. induction entries as [|entry entries IH]; intros st rows; cbn [plan_recipes]; apply _. Qed.
#[export] Instance reads_probe_ingredients p d items b : Keeps reads (probe_ingredients p d items b).
Proof.
  revert b. induction items as [|i items IH]; intros b; cbn [probe_ingredients]; [apply _|].
  unfold probe_ingredient, DestStatus, Head. apply _.
Qed.
#[export] Instance reads_probeDestination p d recipes b : Keeps reads (probeDestination p d recipes b).
Proof. revert b. induction recipes as [|r recipes IH]; intros b; cbn [probeDestination]; apply _. Qed.
#[export] Instance reads_fetchRetrieverOCI r reference : Keeps reads (fetchRetrieverOCI r reference).
Proof.
  unfold fetchRetrieverOCI, fetch_blob. apply keeps_pair. intros repo tag. apply keeps_bind; [apply _|]. intros d.
  destruct (doc_of d) as [[config [|[layer n] [|]]|]|]; apply _.
Qed.
#[export] Instance reads_loadRetriever p opts : Keeps reads (loadRetriever p opts).
Proof. unfold loadRetriever, LoadRetriever, readRetrieverSource, fetchRetrieverURL. apply _. Qed.

(** A plan writes nothing. Whatever it answers, and whatever its requests and reads
    meet, the store it leaves is the one other writers made meanwhile, and the task, the
    destination and the bytes moved are untouched. *)
Theorem plan_writes_nothing p opts cache w : reads w (PlanOf store_text p opts cache w).2.
Proof. assert (Keeps reads (PlanOf store_text p opts cache)) as Hk by (unfold PlanOf; apply _). apply Hk. Qed.

(** * Totals *)

(** What an ingredient is made of, against the repository it lands in: digest, size, and
    whether the store lacks it. *)
Definition against (f : string → Store → bool) (st : Store) (x : string * Z) : string * Z * bool := (x.1, x.2, negb (f x.1 st)).
Definition content_items (st : Store) (m : string * contentSizes) : list (string * Z * bool) :=
  (against (has_blob m.1) st <$> map_range (cs_blobs m.2)) ++ (against (has_manifest m.1) st <$> map_range (cs_manifests m.2)).
Definition ledger_add (l : dedup) (x : string * Z * bool) : dedup := dedup_add x.1.1 x.1.2 x.2 l.
Definition items_total (xs : list (string * Z * bool)) : Z := fold_right (λ x n, (x.1.2 + n)%Z) 0%Z xs.
(** The sum of a ledger, and of the part of it the store lacks. *)
Definition entries_total (es : list (Z * bool)) : Z := fold_right (λ e n, (e.1 + n)%Z) 0%Z es.
Definition ledger_total (l : dedup) : Z := entries_total (map_to_list l).*2.
Definition ledger_needed (l : dedup) : Z := entries_total (filter (λ e, e.2 = true) (map_to_list l).*2).

Lemma has_quiet f w : w_script w = [] → quiet f w = (Done (f (w_store w)), w).
Proof. intros E. unfold quiet, mbind, eng_bind, attempt, call. by rewrite E. Qed.
Lemma tally_quiet (f : string → Store → bool) w items l : w_script w = [] →
  tally_content (λ d, quiet (f d)) items l w =
    (Done (fold_left ledger_add (against f (w_store w) <$> items) l.1,
           fold_left ledger_add (against f (w_store w) <$> items) l.2), w).
Proof.
  intros E. revert l. induction items as [|[d n] items IH]; intros [l1 l2]; [done|]. cbn [tally_content].
  unfold mbind at 1, eng_bind at 1. rewrite has_quiet, IH by done. done.
Qed.
Lemma wrap64_add_r a b : wrap64 (a + wrap64 b) = wrap64 (a + b).
Proof. rewrite Z.add_comm, wrap64_add_l. f_equal. lia. Qed.
Lemma sum_quiet (f : string → Store → bool) b w items total transfer largest : w_script w = [] →
  ∃ largest', sum_content (λ d, quiet (f d)) b items (wrap64 total, wrap64 transfer, largest) w =
    let xs := against f (w_store w) <$> items in
    (Done (wrap64 (total + items_total xs), wrap64 (transfer + items_total (filter (λ x, x.2 = true) xs)), largest'), w).
Proof.
  intros E. revert total transfer largest. induction items as [|[d n] items IH]; intros total transfer largest; cbn [sum_content].
  { exists largest. cbn. by rewrite !Z.add_0_r. }
  unfold mbind at 1, eng_bind at 1. rewrite has_quiet by done. rewrite fmap_cons, filter_cons. cbn [against fst snd].
  unfold add64. rewrite !wrap64_add_l. destruct (f d (w_store w)); cbn [negb]; case_decide; try done.
  - edestruct (IH (total + n)%Z transfer largest) as [l' E']. exists l'. rewrite E'. cbn [items_total fold_right fst snd].
    by rewrite Z.add_assoc.
  - edestruct (IH (total + n)%Z (transfer + n)%Z) as [l' E']. exists l'. rewrite E'. cbn [items_total fold_right fst snd].
    by rewrite !Z.add_assoc.
Qed.
Lemma items_total_app xs ys : items_total (xs ++ ys) = (items_total xs + items_total ys)%Z.
Proof. unfold items_total. induction xs as [|x xs IH]; [done|]. cbn. rewrite IH. lia. Qed.
Lemma ingredientTotals_quiet repo c w : w_script w = [] →
  ∃ largest, ingredientTotals repo c w =
    (Done (wrap64 (items_total (content_items (w_store w) (repo, c))),
           wrap64 (items_total (filter (λ x, x.2 = true) (content_items (w_store w) (repo, c)))), largest), w).
Proof.
  intros E. unfold ingredientTotals, mbind, eng_bind. change (0%Z, 0%Z, 0%Z) with (wrap64 0, wrap64 0, 0%Z).
  edestruct (sum_quiet (has_blob repo) true w (map_range (cs_blobs c)) 0 0 0 E) as [l1 E1]. unfold HasBlob. rewrite E1. cbv zeta iota beta.
  edestruct (sum_quiet (has_manifest repo) false w (map_range (cs_manifests c))) as [l2 E2]; [exact E|]. unfold HasManifest. rewrite E2.
  exists l2. unfold content_items. rewrite filter_app, !items_total_app. done.
Qed.

(** The rows of a plan without a problem, each with the content it was measured on, and
    the ledger these make. *)
Definition clean (pi : PlanIngredient) : bool := match pi_problem pi with None => true | Some _ => false end.
Definition measured (st : Store) (pi : PlanIngredient) (m : string * contentSizes) : Prop :=
  m.1 = pi_repo pi ∧ pi_total pi = wrap64 (items_total (content_items st m)) ∧
  pi_transfer pi = wrap64 (items_total (filter (λ x, x.2 = true) (content_items st m))).
Definition accounts (st : Store) (rows : list PlanIngredient) (l l' : dedup) : Prop :=
  ∃ ms, Forall2 (measured st) (filter (λ pi, clean pi = true) rows) ms ∧ l' = fold_left ledger_add (ms ≫= content_items st) l.
Lemma accounts_app st rows1 rows2 l l1 l2 : accounts st rows1 l l1 → accounts st rows2 l1 l2 → accounts st (rows1 ++ rows2) l l2.
Proof.
  intros (ms1 & H1' & ->) (ms2 & H2' & ->). exists (ms1 ++ ms2). rewrite filter_app, bind_app, fold_left_app. split; [by apply Forall2_app|done].
Qed.
Lemma accounts_nil st l : accounts st [] l l.
Proof. by exists []. Qed.
Lemma accounts_dirty st pi l : clean pi = false → accounts st [pi] l l.
Proof. intros Hc. exists []. cbn. unfold filter; cbn. case_decide; [congruence|done]. Qed.

Lemma eng_bind_Done {A B} (m : eng A) (f : A → eng B) w b w' :
  (m ≫= f) w = (Done b, w') → ∃ a w1, m w = (Done a, w1) ∧ f a w1 = (Done b, w').
Proof. unfold mbind, eng_bind. destruct (m w) as [[a|e|] w1]; [eauto|done..]. Qed.
Lemma quiet_Done {A} (m : eng A) `{!Keeps reads m} w a w' : w_script w = [] → m w = (Done a, w') → w' = w.
Proof. intros Hq E. apply reads_quiet; [|done]. pose proof (keeps w : reads w (m w).2) as Hr. by rewrite E in Hr. Qed.
(** A step of a plan in a quiet world. *)
Ltac qstep E a E1 :=
  apply eng_bind_Done in E as (a & ? & E1 & E);
  match type of E1 with ?m ?w = (Done _, ?w1) =>
    let Hw := fresh in assert (w1 = w) as Hw by (eapply (quiet_Done m); [done|exact E1]); subst w1 end.

Lemma planIngredient_accounts p ing st local w pi st' local' w' : w_script w = [] →
  planIngredient p ing st local w = (Done (pi, st', local'), w') →
  accounts (w_store w) [pi] (ps_ledger st) (ps_ledger st') ∧ accounts (w_store w) [pi] local local'.
Proof.
  intros Hq E. unfold planIngredient in E. destruct (relocated (PathWithBase (pl_base p) (ig_ref ing))) as [repo|e].
  2:{ injection E as <- <- <- <-. split; by apply accounts_dirty. }
  destruct (relocated (Effective (pl_remotes p) (ig_ref ing))) as [effective|e].
  2:{ injection E as <- <- <- <-. split; by apply accounts_dirty. }
  unfold store_status in E. qstep E status E1. qstep E r E2. destruct r as [[c cache]|e].
  2:{ injection E as <- <- <- <-. split; by apply accounts_dirty. }
  qstep E l E3. qstep E l2 E4. destruct l2 as [ledger local2]. qstep E t E5. destruct t as [[total transfer] largest].
  injection E as <- <- <- <-. cbn [ps_ledger].
  unfold HasBlob in E3. rewrite tally_quiet in E3 by done. injection E3 as <-.
  unfold HasManifest in E4. rewrite tally_quiet in E4 by done. injection E4 as <- <-. cbn [fst snd].
  destruct (ingredientTotals_quiet repo c w Hq) as [lg E5']. rewrite E5' in E5. injection E5 as <- <- _.
  split; (exists [(repo, c)]; split; [apply Forall2_cons; split; [done|constructor]|cbn [mbind list_bind]; rewrite app_nil_r];
    unfold content_items; by rewrite fold_left_app).
Qed.
Lemma plan_ingredients_accounts p ings st local rows w rows' st' local' w' : w_script w = [] →
  plan_ingredients p ings st local rows w = (Done (rows', st', local'), w') →
  ∃ new, rows' = rows ++ new ∧ accounts (w_store w) new (ps_ledger st) (ps_ledger st') ∧ accounts (w_store w) new local local'.
Proof.
  intros Hq. revert st local rows. induction ings as [|ing ings IH]; intros st local rows E; cbn [plan_ingredients] in E.
  { injection E as <- <- <- <-. exists []. rewrite app_nil_r. split_and!; [done|apply accounts_nil..]. }
  qstep E x E1. destruct x as [[pi st1] local1]. apply planIngredient_accounts in E1 as [Ha1 Hl1]; [|done].
  apply IH in E as (new & -> & Ha & Hl). exists (pi :: new). rewrite <-app_assoc. split_and!; [done| |].
  - apply (accounts_app _ [pi] new _ (ps_ledger st1)); [done|]. by destruct (String.eqb (pi_repo pi) "").
  - by apply (accounts_app _ [pi] new _ local1).
Qed.
Lemma or_problem_Done {A} pr st (m : eng A) k w x w' : or_problem pr st m k w = (Done x, w') →
  (∃ pr', x = (pr', st) ∧ pr_ingredients pr' = pr_ingredients pr ∧ is_Some (pr_problem pr')) ∨
  ∃ a w1, m w = (Done a, w1) ∧ k a w1 = (Done x, w').
Proof.
  intros (r & w1 & E1 & E)%eng_bind_Done. unfold attempt in E1. destruct (m w) as [[a|e|] w2] eqn:Em; simplify_eq.
  - right. by exists a, w1.
  - left. injection E as <- <-. eexists. split; [done|]. by split.
Qed.
(** Through the steps of a recipe that may stop it. *)
Ltac pstep E a E1 :=
  apply or_problem_Done in E as [(?pr' & ?Hx & ?Hpi & ?Hpb)|(a & ? & E1 & E)];
  [|match type of E1 with ?m ?w = (Done _, ?w1) =>
      let Hw := fresh in assert (w1 = w) as Hw by (eapply (quiet_Done m); [done|exact E1]); subst w1 end].
Lemma planRecipe_accounts p cookbook entry st w pr st' w' : w_script w = [] →
  planRecipe p cookbook entry st w = (Done (pr, st'), w') →
  accounts (w_store w) (pr_ingredients pr) (ps_ledger st) (ps_ledger st').
Proof.
  intros Hq E. unfold planRecipe in E.
  pstep E tag E1; [simplify_eq; rewrite Hpi; apply accounts_nil|].
  pstep E f E2; [simplify_eq; rewrite Hpi; apply accounts_nil|].
  pstep E trustRepo E3; [simplify_eq; rewrite Hpi; apply accounts_nil|].
  pstep E verified E4; [simplify_eq; rewrite Hpi; apply accounts_nil|].
  pstep E recipe E5; [simplify_eq; rewrite Hpi; apply accounts_nil|].
  qstep E x E6. destruct x as [[rows st1] local]. apply plan_ingredients_accounts in E6 as (new & -> & Ha & _); [|done].
  destruct (dedup_totals local) as [[total transfer] largest]. injection E as <- <- _. cbn [pr_ingredients app].
  by destruct (PathWithBase (pl_base p) (f_repo f)).
Qed.
Lemma plan_recipes_accounts p retr entries st rows w rows' st' w' : w_script w = [] →
  plan_recipes p retr entries st rows w = (Done (rows', st'), w') →
  ∃ new, rows' = rows ++ new ∧ accounts (w_store w) (all_ingredients new) (ps_ledger st) (ps_ledger st').
Proof.
  intros Hq. revert st rows. induction entries as [|entry entries IH]; intros st rows E; cbn [plan_recipes] in E.
  { injection E as <- <- <-. exists []. rewrite app_nil_r. split; [done|apply accounts_nil]. }
  qstep E x E1. destruct x as [pr st1]. apply planRecipe_accounts in E1 as Ha1; [|done].
  apply IH in E as (new & -> & Ha). exists (pr :: new). rewrite <-app_assoc. split; [done|].
  by apply (accounts_app _ (pr_ingredients pr) (all_ingredients new) _ (ps_ledger st1)).
Qed.

(** What a ledger says, digest by digest. *)
Lemma ledger_add_lookup xs d :
  (is_Some (fold_left ledger_add xs (∅ : dedup) !! d) ↔ ∃ n b, (d, n, b) ∈ xs) ∧
  (∀ n b, fold_left ledger_add xs (∅ : dedup) !! d = Some (n, b) →
    (∃ b', (d, n, b') ∈ xs) ∧ (b = true ↔ ∃ n', (d, n', true) ∈ xs)).
Proof.
  induction xs as [|[[d0 n0] b0] xs IH] using rev_ind.
  { cbn. split; [|by intros n b; rewrite lookup_empty]. rewrite lookup_empty. split; [by intros []|]. intros (? & ? & []%elem_of_nil). }
  rewrite fold_left_app. cbn. set (l := fold_left ledger_add xs ∅) in *. unfold ledger_add, dedup_add. cbn [fst snd].
  destruct (decide (d0 = d)) as [->|Hne].
  - destruct IH as [IHs IHv]. destruct (l !! d) as [[n1 b1]|] eqn:El; cbn in *; simplify_map_eq.
    + destruct (IHv n1 b1 eq_refl) as [[b' Hb'] Hb]. split; [split; [intros _; set_solver|eauto]|].
      intros n b [= <- <-]. split; [set_solver|]. rewrite orb_true_iff, Hb. set_solver.
    + assert (∀ n b, (d, n, b) ∉ xs) as Hno.
      { intros n b Hin. destruct (proj2 IHs) as [? ?]; [eauto|done]. }
      split; [split; [intros _; set_solver|eauto]|]. intros n b [= <- <-]. split; [set_solver|]. set_solver.
  - assert ((match l !! d0 with Some (size0, needed0) => <[d0:=(size0, needed0 || b0)]> l | None => <[d0:=(n0, b0)]> l end) !! d = l !! d) as ->.
    { destruct (l !! d0) as [[]|]; by rewrite lookup_insert_ne. }
    destruct IH as [IHs IHv]. split.
    + rewrite IHs. set_solver.
    + intros n b Hl. destruct (IHv n b Hl) as [[b' Hb'] Hb]. split; [set_solver|]. rewrite Hb. set_solver.
Qed.

Lemma entries_total_perm es es' : es ≡ₚ es' → entries_total es = entries_total es'.
Proof. unfold entries_total. induction 1; cbn in *; lia. Qed.
Lemma add64_wrap a b : add64 (wrap64 a) b = wrap64 (a + b).
Proof. apply wrap64_add_l. Qed.
Lemma totals_fold es a b c : ∃ largest,
  fold_left (λ '(total, transfer, largest) '(size, needed),
      (add64 total size, if (needed : bool) then add64 transfer size else transfer,
       if needed then grow largest size else largest)) es (wrap64 a, wrap64 b, c) =
    (wrap64 (a + entries_total es), wrap64 (b + entries_total (filter (λ e, e.2 = true) es)), largest) ∧
  (c ≤ largest)%Z ∧ (∀ e, e ∈ es → e.2 = true → (e.1 ≤ largest)%Z) ∧ (largest = c ∨ ∃ e, e ∈ es ∧ e.2 = true ∧ e.1 = largest).
Proof.
  revert a b c. induction es as [|[n nd] es IH]; intros a b c; cbn [fold_left].
  { exists c. cbn. rewrite !Z.add_0_r. split_and!; [done|lia|by intros ? ?%elem_of_nil|by left]. }
  rewrite filter_cons. cbn [snd]. destruct nd; case_decide; try done.
  - destruct (IH (a + n)%Z (b + n)%Z (grow c n)) as (lg & E & Hc & Hall & Hex). exists lg.
    assert (c ≤ grow c n ∧ n ≤ grow c n ∧ (grow c n = c ∨ grow c n = n))%Z as (? & ? & Hg) by (unfold grow; destruct (Z.ltb_spec c n); lia).
    split_and!; [|lia| |].
    + rewrite !add64_wrap, E. cbn [entries_total fold_right fst]. by rewrite !Z.add_assoc.
    + intros e [->|He]%elem_of_cons ?; [cbn; lia|by apply Hall].
    + destruct Hex as [->|(e & He & ? & ?)]; [destruct Hg as [->| ->]; [by left|right; exists (n, true)]|right; exists e];
        (split_and!; [|done..]); set_solver.
  - destruct (IH (a + n)%Z b c) as (lg & E & Hc & Hall & Hex). exists lg. split_and!; [|lia| |].
    + rewrite !add64_wrap, E. cbn [entries_total fold_right fst]. by rewrite !Z.add_assoc.
    + intros e [->|He]%elem_of_cons ?; [done|by apply Hall].
    + destruct Hex as [->|(e & He & ? & ?)]; [by left|right; exists e]. split_and!; [set_solver|done..].
Qed.
Lemma dedup_totals_spec l : ∃ largest,
  dedup_totals l = (wrap64 (ledger_total l), wrap64 (ledger_needed l), largest) ∧ (0 ≤ largest)%Z ∧
  (∀ d n, l !! d = Some (n, true) → (n ≤ largest)%Z) ∧ (largest = 0%Z ∨ ∃ d, l !! d = Some (largest, true)).
Proof.
  unfold dedup_totals. destruct (totals_fold (map_values l) 0 0 0) as (lg & E & H0' & Hall & Hex). exists lg.
  pose proof (map_values_perm l) as Hp. split_and!.
  - change (0, 0, 0)%Z with (wrap64 0, wrap64 0, 0)%Z. rewrite E. unfold ledger_total, ledger_needed. rewrite (entries_total_perm _ _ Hp).
    assert (filter (λ e : Z * bool, e.2 = true) (map_values l) ≡ₚ filter (λ e, e.2 = true) (map_to_list l).*2) as Hf by by rewrite Hp.
    by rewrite (entries_total_perm _ _ Hf).
  - done.
  - intros d n Hd. apply (Hall (n, true)); [|done]. apply elem_of_map_values. by exists d.
  - destruct Hex as [->|([n b] & He & Hb & Hn)]; [by left|right]. apply elem_of_map_values in He as [d Hd]. cbn in *. subst. by exists d.
Qed.

(** The totals of a plan. When the store is not written meanwhile and the destination
    is not asked, the rows without a problem were each measured on some content, and the
    totals are those of the set of digests these are made of: every digest counts once,
    modulo 2^64, towards the transfer exactly when one of the repositories it goes to
    lacks it, and the largest file is the largest of these. *)
Theorem plan_totals_exact p opts cache w plan cache' w' :
  w_script w = [] → po_skip opts = true → PlanOf store_text p opts cache w = (Done (plan, cache'), w') →
  ∃ ms l, Forall2 (measured (w_store w)) (filter (λ pi, clean pi = true) (all_ingredients (pn_recipes plan))) ms ∧
    let xs := ms ≫= content_items (w_store w) in
    (∀ d, is_Some (l !! d) ↔ ∃ n b, (d, n, b) ∈ xs) ∧
    (∀ d n b, l !! d = Some (n, b) → (∃ b', (d, n, b') ∈ xs) ∧ (b = true ↔ ∃ n', (d, n', true) ∈ xs)) ∧
    pt_total (pn_totals plan) = wrap64 (ledger_total l) ∧ pt_transfer (pn_totals plan) = wrap64 (ledger_needed l) ∧
    (∀ d n, l !! d = Some (n, true) → (n ≤ pt_largest (pn_totals plan))%Z) ∧
    (pt_largest (pn_totals plan) = 0%Z ∨ ∃ d, l !! d = Some (pt_largest (pn_totals plan), true)).
Proof.
  intros Hq Hskip E. unfold PlanOf in E. qstep E now E0. qstep E r E1. destruct r as [retr|e].
  2:{ injection E as <- _ _. exists [], ∅. cbn. split_and!; try done; intros; simplify_map_eq.
      - split; [intros []; by simplify_map_eq|]. by intros (? & ? & []%elem_of_nil).
      - by left. }
  qstep E x E2. destruct x as [recipes st]. apply plan_recipes_accounts in E2 as (new & -> & ms & Hms & Hl); [|done].
  cbn [app ps_ledger] in *. qstep E x E3. destruct x as [totals problems]. rewrite Hskip in E.
  assert (∀ d : option Destination, (match d with
    | Some d0 => if true || bool_decide (worstOutcome (problems ++ recipe_problems new) = OutcomePolicyRefused)
        then mret (new, totals, mkProbed (ps_hosts st) 0 (problems ++ recipe_problems new))
        else '(recipes, b) ← probeDestination p d0 new (mkProbed (ps_hosts st) 0 (problems ++ recipe_problems new));
             mret (recipes, set_pushed totals (pb_bound b), b)
    | None => mret (new, totals, mkProbed (ps_hosts st) 0 (problems ++ recipe_problems new))
    end : eng _) = mret (new, totals, mkProbed (ps_hosts st) 0 (problems ++ recipe_problems new))) as Hd by (by intros []).
  rewrite Hd in E. clear Hd. qstep E x E4. injection E4 as <-. qstep E x E5. destruct x as [prune pp].
  destruct (plan_check p totals) as [c cp]. injection E as <- _ _. cbn [decideOutcome pn_recipes pn_totals].
  exists ms, (ps_ledger st). split; [done|]. rewrite Hl. cbv zeta.
  split; [intros d; apply ledger_add_lookup|]. split; [intros d; apply ledger_add_lookup|]. rewrite <-Hl.
  destruct (dedup_totals_spec (ps_ledger st)) as (lg & Et & _ & Hall & Hex). injection E3 as E3. unfold summarize_plan in E3. rewrite Et in E3.
  destruct (PhysicalBytes (w_store w)); injection E3 as <- _; cbn; done.
Qed.

(** * The statuses of a run *)

Definition item_status_name (s : ItemStatus) : string :=
  match s with
  | PlanNew => "new" | PlanOutdated => "outdated" | PlanUpToDate => "up-to-date" | PlanUnknown => "unknown"
  | PlanNotProbed => "not-probed"
  end.
Context `{!SyncLib, Scheduling}.
Lemma store_status_quiet repo ing w : w_script w = [] → store_status repo ing w =
  (Done (if has_manifest repo (ig_digest ing) (w_store w) then
           if bool_decide ((if name_ok repo then rd_tags (repo_of repo (w_store w)) !! ig_version ing else None) = Some (ig_digest ing))
           then PlanUpToDate else PlanOutdated
         else PlanNew), w).
Proof.
  intros Hq. unfold store_status, mbind, eng_bind, HasManifest. rewrite has_quiet by done. destruct (has_manifest repo (ig_digest ing) (w_store w)); [|done].
  cbn [negb]. unfold ResolveTag, mbind, eng_bind, attempt, call. by rewrite Hq.
Qed.
Lemma syncIngredient_status e rid ing w rec row w' : w_script w = [] →
  syncIngredient e rid ing w = (Done (rec, row), w') →
  ∃ repo effective, PathWithBase (en_base e) (ig_ref ing) = Ok repo ∧ ir_repo rec = repo ∧ Effective (en_remotes e) (ig_ref ing) = Ok effective ∧
    rs_effective row = (if String.eqb effective (ig_ref ing) then "" else effective) ∧
    rs_status row = (if has_manifest repo (ig_digest ing) (w_store w) then
           if bool_decide ((if name_ok repo then rd_tags (repo_of repo (w_store w)) !! ig_version ing else None) = Some (ig_digest ing))
           then "up-to-date" else "outdated"
         else "new").
Proof.
  intros Hq E. unfold syncIngredient in E. apply eng_bind_Done in E as (effective & w1 & E1 & E).
  assert (Effective (en_remotes e) (ig_ref ing) = Ok effective ∧ w1 = w) as [Heff ->].
  { unfold lift, relocated in E1. by destruct (Effective _ _); simplify_eq/=. }
  assert (∃ repo, PathWithBase (en_base e) (ig_ref ing) = Ok repo) as [repo Hrepo].
  { unfold Effective in Heff. apply res_bind_Ok in Heff as (c & Hc & _). unfold PathWithBase. rewrite Hc. cbv beta zeta iota delta [mbind res_bind]. set (b := String.eqb (trim_byte "/" (en_base e)) ""). destruct b; eexists; reflexivity. }
  exists repo, effective. unfold ingredientRecord in E. rewrite Hrepo in E. cbn [ir_repo] in E.
  apply eng_bind_Done in E as (has & w1 & E2 & E). unfold HasManifest in E2. rewrite has_quiet in E2 by done. injection E2 as <- <-.
  apply eng_bind_Done in E as (tag & w1 & E2 & E).
  assert (w1 = w ∧ tag = if has_manifest repo (ig_digest ing) (w_store w) then if name_ok repo then rd_tags (repo_of repo (w_store w)) !! ig_version ing else None else None) as [-> Htag].
  { destruct (has_manifest repo (ig_digest ing) (w_store w)); [|by injection E2 as <- <-].
    unfold ResolveTag, mbind, eng_bind, attempt, call in E2. rewrite Hq in E2. by injection E2 as <- <-. }
  split; [done|]. destruct (bool_decide (tag = Some (ig_digest ing))) eqn:Ht.
  - do 2 (apply eng_bind_Done in E as (? & ? & _ & E)). injection E as <- <- _. cbn. split_and!; [done..|].
    apply bool_decide_eq_true in Ht. subst tag. destruct (has_manifest repo (ig_digest ing) (w_store w)); [|done].
    by rewrite bool_decide_eq_true_2.
  - apply eng_bind_Done in E as ([r tr] & ? & _ & E). destruct r; [|done].
    do 3 (apply eng_bind_Done in E as (? & ? & _ & E)). injection E as <- <- _. cbn. split_and!; [done..|].
    apply bool_decide_eq_false in Ht. subst tag. destruct (has_manifest repo (ig_digest ing) (w_store w)); [|done].
    by rewrite bool_decide_eq_false_2.
Qed.
(** C25: a plan's status is the one the run reaches, on an instance at rest: from one and the
    same state, with no call failing and nobody else writing (a script without events), for
    an engine over the planner's registries and prefix, when the plan of an ingredient and
    its synchronization both succeed, the run reports it with the repository, the status
    and the effective source the plan gave it. A call that fails on one side only, which
    the plan takes for an absent manifest, may part the two. *)
Theorem plan_predicts_run p e ing st local w pi st' local' w1 rid rec row w2 :
  w_script w = [] → en_remotes e = pl_remotes p → en_base e = pl_base p →
  planIngredient p ing st local w = (Done (pi, st', local'), w1) → syncIngredient e rid ing w = (Done (rec, row), w2) →
  pi_repo pi = ir_repo rec ∧ item_status_name (pi_status pi) = rs_status row ∧ pi_effective pi = rs_effective row.
Proof.
  intros Hq Hr Hb E Es. apply syncIngredient_status in Es as (repo & effective & Hp & -> & Heff & -> & ->); [|done].
  rewrite Hr in Heff. rewrite Hb in Hp. unfold planIngredient in E. rewrite Hp, Heff in E. cbn [relocated wrap_err] in E.
  apply eng_bind_Done in E as (status & w3 & E1 & E). rewrite store_status_quiet in E1 by done. injection E1 as <- <-.
  apply eng_bind_Done in E as (r & w3 & _ & E).
  assert (∀ b1 b2 : bool, item_status_name (if b1 then if b2 then PlanUpToDate else PlanOutdated else PlanNew) =
    if b1 then if b2 then "up-to-date" else "outdated" else "new") as Hn by (by intros [] []).
  destruct r as [[c cache]|err].
  - apply eng_bind_Done in E as (l & w4 & _ & E). apply eng_bind_Done in E as ([? ?] & ? & _ & E).
    apply eng_bind_Done in E as ([[? ?] ?] & ? & _ & E). injection E as <- _ _ _. cbn. by rewrite Hn.
  - injection E as <- _ _ _. cbn. by rewrite Hn.
Qed.

(** * Policy *)

Definition no_dest (p : Planner) : Planner :=
  mkPlanner (pl_remotes p) (pl_trust p) None (pl_source p) (pl_mode p) (pl_base p) (pl_margin p) (pl_disabled p).
Definition towards (d : option Destination) (plan : Plan) : Plan :=
  mkPlan (pn_mode plan) (pn_source plan) (pn_candidate plan) (pn_zone plan) (pn_generated plan)
    (match d with Some d => de_host d | None => "" end) (pn_outcome plan) (pn_recipes plan) (pn_totals plan) (pn_declared plan)
    (pn_patterns plan) (pn_hosts plan) (pn_prune plan) (pn_checks plan) (pn_problems plan).
Lemma eng_bind_ext {A B} (m m' : eng A) (f f' : A → eng B) w :
  m w = m' w → (∀ a w, f a w = f' a w) → (m ≫= f) w = (m' ≫= f') w.
Proof. intros Hm Hf. unfold mbind, eng_bind. rewrite Hm. destruct (m' w) as [[a|e|] w1]; [apply Hf|done..]. Qed.
Lemma plan_ingredients_no_dest p ings st local rows w :
  plan_ingredients (no_dest p) ings st local rows w = plan_ingredients p ings st local rows w.
Proof.
  revert st local rows w. induction ings as [|ing ings IH]; intros st local rows w; [done|]. cbn [plan_ingredients].
  apply eng_bind_ext; [done|]. intros [[pi st1] local1] w1. apply IH.
Qed.
Lemma planRecipe_no_dest p cookbook entry st w : planRecipe (no_dest p) cookbook entry st w = planRecipe p cookbook entry st w.
Proof.
  unfold planRecipe, or_problem.
  do 5 (apply eng_bind_ext; [done|]; intros [?|?] ?; [|done]; cbv zeta).
  apply eng_bind_ext; [apply plan_ingredients_no_dest|]. by intros [[? ?] ?] ?.
Qed.
Lemma plan_recipes_no_dest p retr entries st rows w : plan_recipes (no_dest p) retr entries st rows w = plan_recipes p retr entries st rows w.
Proof.
  revert st rows w. induction entries as [|entry entries IH]; intros st rows w; [done|]. cbn [plan_recipes].
  apply eng_bind_ext; [apply planRecipe_no_dest|]. intros [pr st1] w1. apply IH.
Qed.

Definition max_rank (ps : list Problem) : Z := fold_right (λ p n, Z.max (outcome_rank (problem_outcome p)) n) 0%Z ps.
Lemma worst_rank ps : outcome_rank (worstOutcome ps) = max_rank ps.
Proof.
  assert (∀ o, outcome_rank (fold_left (λ out p, if (outcome_rank out <? outcome_rank (problem_outcome p))%Z then problem_outcome p else out) ps o) =
    Z.max (outcome_rank o) (max_rank ps)) as Hgo.
  { induction ps as [|p ps IH]; intros o; cbn [fold_left max_rank fold_right]; [destruct o; cbn; lia|]. rewrite IH. fold (max_rank ps).
    destruct (Z.ltb_spec (outcome_rank o) (outcome_rank (problem_outcome p))); lia. }
  unfold worstOutcome. rewrite Hgo. cbn [outcome_rank]. assert (0 ≤ max_rank ps)%Z; [|lia]. clear.
  induction ps; cbn [max_rank fold_right]; [lia|]. fold (max_rank ps). lia.
Qed.
Lemma max_rank_app ps qs : max_rank (ps ++ qs) = Z.max (max_rank ps) (max_rank qs).
Proof.
  assert (∀ l, 0 ≤ max_rank l)%Z as Hp by (intros l; unfold max_rank; induction l; cbn [fold_right]; lia).
  unfold max_rank in *. induction ps as [|p ps IH]; cbn [fold_right app]; [specialize (Hp qs); lia|]. rewrite IH. lia.
Qed.
Lemma worst_not_changes ps : worstOutcome ps ≠ OutcomeChangesPlanned.
Proof.
  unfold worstOutcome. assert (∀ o, o ≠ OutcomeChangesPlanned → fold_left (λ out p, if (outcome_rank out <? outcome_rank (problem_outcome p))%Z then problem_outcome p else out) ps o ≠ OutcomeChangesPlanned) as Hgo.
  { induction ps as [|p ps IH]; intros o Ho; cbn; [done|]. apply IH. case_match; [|done]. unfold problem_outcome. by repeat case_match. }
  by apply Hgo.
Qed.
(** The worst outcome is decided by the rank. *)
Lemma worst_policy ps : worstOutcome ps = OutcomePolicyRefused ↔ max_rank ps = 2%Z.
Proof. rewrite <-worst_rank. pose proof (worst_not_changes ps). by destruct (worstOutcome ps). Qed.
Lemma worst_operational ps qs : Forall (λ p, pm_class p = "operational") qs →
  worstOutcome (ps ++ qs) = OutcomePolicyRefused → worstOutcome ps = OutcomePolicyRefused.
Proof.
  intros Hq. rewrite !worst_policy, max_rank_app. assert (max_rank qs ≤ 1)%Z; [|lia].
  unfold max_rank. induction Hq as [|q qs Hc _ IH]; cbn [fold_right]; [lia|]. unfold problem_outcome at 1. rewrite Hc.
  cbn [String.eqb Ascii.eqb Bool.eqb outcome_rank]. lia.
Qed.
Lemma prune_entries_operational st resolved held : Forall (λ p, pm_class p = "operational") (prune_entries store_text st resolved held).2.
Proof.
  induction held as [|[repo recipe] held IH]; cbn; [constructor|]. destruct (prune_entries store_text st resolved held) as [es ps]. cbn in IH.
  destruct (_ || _); [done|]. destruct (RepoInfo_of st repo) as [info|[]]; cbn; [done|by constructor|done|by constructor].
Qed.
Lemma planPrune_operational p resolved b st : Forall (λ p, pm_class p = "operational") (planPrune store_text p resolved b st).2.
Proof.
  unfold planPrune. destruct b; cbn; [|constructor]. destruct (RecipeRecords (st_meta st)) as [records|e]; [|by repeat constructor].
  pose proof (prune_entries_operational st resolved (map_range (fold_left (hold_record (pl_base p)) records ∅))) as Hp.
  by destruct (prune_entries _ _ _ _).
Qed.
Lemma plan_check_operational p t : Forall (λ p, pm_class p = "operational") (plan_check p t).2.
Proof.
  unfold plan_check, Evaluate. destruct (vol_inspect _) as [[fs space]|]; [|constructor].
  repeat (case_match; simplify_eq/=); try constructor; try done; try by constructor.
Qed.

Lemma decideOutcome_policy plan : pn_outcome (decideOutcome plan) = OutcomePolicyRefused → worstOutcome (pn_problems plan) = OutcomePolicyRefused.
Proof. unfold decideOutcome. cbn [pn_outcome]. case_decide as Hd; [|done]. rewrite Hd. by destruct (HasChanges plan). Qed.

(** C26: a policy refusal stops a plan before the destination. When the sources alone make
    the outcome a policy refusal, the plan is, world included, the one of an instance
    without a destination, apart from the destination's name: no request was sent to
    it, nothing was evaluated against it, and the exit code is the policy one. *)
Theorem policy_stops_before_destination p opts cache w plan cache' w' :
  PlanOf store_text (no_dest p) opts cache w = (Done (plan, cache'), w') → pn_outcome plan = OutcomePolicyRefused →
  PlanOf store_text p opts cache w = (Done (towards (pl_dest p) plan, cache'), w') ∧
  pt_push_evaluated (pn_totals plan) = false ∧ outcome_exit (pn_outcome plan) = ExitPolicy.
Proof.
  intros E Ho. split; [|split; [|by rewrite Ho]]; unfold PlanOf in E |- *;
    apply eng_bind_Done in E as (now & w1 & [= <- <-] & E); apply eng_bind_Done in E as (r & w2 & E1 & E).
  - unfold mbind at 1, eng_bind at 1, gets at 1. unfold mbind at 1, eng_bind at 1.
    change (loadRetriever p opts) with (loadRetriever (no_dest p) opts). rewrite E1. destruct r as [retr|e].
    2:{ injection E as <- <- <-. done. }
    apply eng_bind_Done in E as ([recipes st] & w3 & E2 & E). rewrite plan_recipes_no_dest in E2.
    unfold mbind at 1, eng_bind at 1. rewrite E2. apply eng_bind_Done in E as ([totals problems] & w4 & E3 & E).
    unfold mbind at 1, eng_bind at 1. rewrite E3. apply eng_bind_Done in E as (x & w5 & [= <- <-] & E).
    apply eng_bind_Done in E as ([prune pp] & w6 & E4 & E). destruct (plan_check (no_dest p) totals) as [c cp] eqn:Ec.
    injection E as <- <- <-. apply decideOutcome_policy in Ho. cbn [pb_problems pn_problems] in Ho.
    assert (worstOutcome (problems ++ recipe_problems recipes) = OutcomePolicyRefused) as Hw.
    { apply (worst_operational _ (pp ++ cp)); [|exact Ho]. apply Forall_app. split.
      - injection E4 as E4 _. pose proof (planPrune_operational (no_dest p) (ps_resolved st)
          (forallb (λ r, match pr_problem r with Some _ => false | None => true end) recipes) (w_store w4)) as Hp. by rewrite E4 in Hp.
      - pose proof (plan_check_operational (no_dest p) totals) as Hp. by rewrite Ec in Hp. }
    unfold mbind, eng_bind. destruct (pl_dest p) as [d|]; [rewrite (bool_decide_eq_true_2 _ Hw), orb_true_r|];
      (unfold mret, eng_ret; change (planPrune store_text p) with (planPrune store_text (no_dest p)); rewrite E4;
       change (plan_check p totals) with (plan_check (no_dest p) totals); rewrite Ec; reflexivity).
  - destruct r as [retr|e]; [|by injection E as <- _ _].
    apply eng_bind_Done in E as ([recipes st] & w3 & _ & E). apply eng_bind_Done in E as ([totals problems] & w4 & E3 & E).
    apply eng_bind_Done in E as (x & w5 & [= <- <-] & E). apply eng_bind_Done in E as ([prune pp] & w6 & _ & E).
    destruct (plan_check (no_dest p) totals) as [c cp]. injection E as <- _ _. cbn. injection E3 as E3 _. unfold summarize_plan in E3.
    destruct (dedup_totals _) as [[? ?] ?]. by destruct (PhysicalBytes _); injection E3 as <- _.
Qed.

(** * The prune projection *)

(** A repository a record of the graph holds: its artifact's, or an ingredient's. *)
Definition holds (base repo : string) (rec : RecipeRecord) : Prop :=
  PathWithBase base (rr_cookbook rec) = Ok repo ∨ ∃ i, i ∈ rr_ingredients rec ∧ ir_repo i = repo ∧ repo ≠ "".
Lemma hold_ingredients name items (held : gmap string string) repo :
  is_Some (fold_left (λ held i, if String.eqb (ir_repo i) "" then held else <[ir_repo i := name]> held) items held !! repo) ↔
  is_Some (held !! repo) ∨ ∃ i, i ∈ items ∧ ir_repo i = repo ∧ repo ≠ "".
Proof.
  revert held. induction items as [|i items IH]; intros held; cbn [fold_left].
  { split; [by left|]. by intros [|(? & []%elem_of_nil & _)]. }
  rewrite IH. destruct (String.eqb_spec (ir_repo i) "") as [He|He]; [|rewrite lookup_insert_is_Some']; setoid_rewrite elem_of_cons; naive_solver congruence.
Qed.
Lemma hold_records base records (held : gmap string string) repo :
  is_Some (fold_left (hold_record base) records held !! repo) ↔ is_Some (held !! repo) ∨ ∃ rec, rec ∈ records ∧ holds base repo rec.
Proof.
  revert held. induction records as [|rec records IH]; intros held; cbn [fold_left].
  { split; [by left|]. by intros [|(? & []%elem_of_nil & _)]. }
  rewrite IH. unfold hold_record at 1. rewrite hold_ingredients.
  assert (is_Some ((match PathWithBase base (rr_cookbook rec) with Ok local => <[local := rr_name rec]> held | Err _ => held end) !! repo) ↔
    is_Some (held !! repo) ∨ PathWithBase base (rr_cookbook rec) = Ok repo) as ->.
  { destruct (PathWithBase base (rr_cookbook rec)) as [local|]; [rewrite lookup_insert_is_Some'|]; split; try naive_solver. }
  split.
  - intros [[[?|?]|?]|(rec' & ? & ?)]; [by left|right; exists rec; split; [by left|by left]|right; exists rec; split; [by left|by right]|].
    right. exists rec'. split; [by right|done].
  - intros [?|(rec' & [->|?]%elem_of_cons & Hh)]; [by left; left; left| |right; by exists rec'].
    destruct Hh as [?|?]; left; [left; by right|by right].
Qed.
Lemma prune_entries_spec st resolved held repo :
  repo ∈ (pe_repo <$> (prune_entries store_text st resolved held).1) ↔
  repo ∈ held.*1 ∧ (repo ∉ resolved) ∧ protected repo (st_meta st) = false ∧ is_ok (RepoInfo_of st repo) = true.
Proof.
  assert (∀ (P : string → Prop) r l, ¬ P r → (repo ∈ r :: l ∧ P repo ↔ repo ∈ l ∧ P repo)) as Hskip.
  { intros P r l Hn. rewrite elem_of_cons. split; [intros [[->|?] ?]; by try split|]. intros [? ?]. split; [by right|done]. }
  set (P r := (r ∉ resolved) ∧ protected r (st_meta st) = false ∧ is_ok (RepoInfo_of st r) = true). fold (P repo).
  induction held as [|[r recipe] held IH]; cbn; [by rewrite !elem_of_nil; split; [|intros []]|].
  destruct (prune_entries store_text st resolved held) as [es ps]. cbn in IH.
  destruct (bool_decide_reflect (r ∈ resolved)) as [Hr|Hr]; cbn [orb]; [rewrite Hskip; [done|by intros [? _]]|].
  destruct (protected r (st_meta st)) eqn:Hpr; [rewrite Hskip; [done|intros (_ & ? & _); congruence]|].
  destruct (RepoInfo_of st r) as [info|e] eqn:Hi.
  - cbn. rewrite !elem_of_cons, IH. assert (P r) as HP by (unfold P; by rewrite Hpr, Hi). split.
    + intros [->|[? ?]]; [split; [by left|done]|split; [by right|done]].
    + intros [[->|?] ?]; [by left|by right].
  - rewrite Hskip; [by destruct e|]. unfold P. rewrite Hi. by intros (_ & _ & ?).
Qed.
(** The projected prune. It is evaluated when every recipe resolved and the graph can
    be read; it then lists, sorted, exactly the repositories the graph holds for a
    recipe, that the plan did not resolve, that no other provenance protects and that the
    store still has; when a recipe did not resolve it lists nothing. *)
Theorem projected_prune_exact p resolved allResolved st prune problems :
  planPrune store_text p resolved allResolved st = (prune, problems) →
  (pp_evaluated prune = true ↔ allResolved = true ∧ io_fail OpReadRecipes = false) ∧
  (pp_evaluated prune = false → pp_repositories prune = []) ∧
  (pp_evaluated prune = true →
    Sorted (not_less (λ a b, str_ltb (pe_repo a) (pe_repo b))) (pp_repositories prune) ∧
    ∀ repo, repo ∈ (pe_repo <$> pp_repositories prune) ↔
      (∃ key rec, mt_recipes (st_meta st) !! key = Some rec ∧ holds (pl_base p) repo rec) ∧
      (repo ∉ resolved) ∧ protected repo (st_meta st) = false ∧ is_ok (RepoInfo_of st repo) = true).
Proof.
  unfold planPrune, RecipeRecords, io. destruct allResolved; cbn [negb]; [|by intros [= <- <-]; naive_solver].
  destruct (io_fail OpReadRecipes); cbn [mbind res_bind]; [by intros [= <- <-]; naive_solver|].
  set (held := fold_left _ _ _). pose proof (prune_entries_spec st resolved (map_range held)) as Hspec.
  destruct (prune_entries store_text st resolved (map_range held)) as [es ps]. intros [= <- <-]. cbn [pp_evaluated pp_repositories].
  split; [done|]. split; [done|]. intros _. split; [apply sort_slice_sorted, strict_weak_str|]. intros repo.
  rewrite sort_slice_perm. rewrite (Hspec repo). cbn [fst]. f_equiv. change (map_range held).*1 with (map_keys held).
  rewrite elem_of_map_keys. unfold held. rewrite hold_records. rewrite lookup_empty. split.
  - intros [[]|(rec & [key Hk]%elem_of_map_values & Hh)]; [done|]. by exists key, rec.
  - intros (key & rec & Hk & Hh). right. exists rec. split; [|done]. apply elem_of_map_values. by exists key.
Qed.
End plan_reads.
