(* ===== verification/PlanRuns.v ===== *)
(** Plans on a concrete registry: witnesses of the theorems on plans, and plans that
    differ from the run they announce. *)

From S2P Require Import Prelude GoStrings Relocate Policy Taxonomy Tasks MediaVerify SigKeys SigVerify Trust SigSafety.
From S2P Require Import StoreMeta StoreGC StoreSafety Prune Preflight Transfer TransferSafety Browse BrowseTheorems Remotes Promote PromoteSafety.
From S2P Require Import Sync SyncSafety SyncTheorems Plan PlanTheorems.

#[local] Existing Instance sync_documents.
#[local] Existing Instance sync_volume.
#[local] Existing Instance sync_zone.
#[local] Existing Instance sync_lib.
#[local] Existing Instance sync_scheduling.
#[local] Existing Instance io_sound.
#[local] Existing Instance demo_keys.
#[local] Existing Instance demo_codec.
#[local] Existing Instance demo_browsing.

(** * The registry, with a Retriever *)

Section plan_registry.
Context (ings : list Ingredient).
Program Definition plan_sdk : RecipeSDK := {|
  constraint := unit; ParseConstraint _ := Ok tt; IsExact _ := true; Resolve _ _ := Err "unused";
  VerifyManifest d := if String.eqb d "R" || String.eqb d "S" then Ok ("C", "Y") else Err (plain "layout");
  ParseRecipe yaml := Ok (shop ings); ValidateCooked _ := Ok tt;
  ValidatePublishLocation r name tag :=
    if String.eqb (rc_name r) name && String.eqb (rc_version r) tag then Ok tt else Err (plain "location");
  ParseRetriever _ := Ok (sync_retriever "reg.io/cookbook"); error_list _ := None; MaxDocumentBytes := 1000 |}.
Next Obligation.
  intros r name tag. cbn beta. destruct (_ && _) eqn:E; [|discriminate]. intros _.
  by apply andb_true_iff in E as [->%String.eqb_eq ->%String.eqb_eq].
Qed.
End plan_registry.
(** The reference Q is answered with another digest. *)
#[local] Instance plan_upstream : Upstream := {|
  NewRepository s := Ok (first_segment s);
  up_tags _ := Ok ["1.0.0"];
  up_get _ reference := if String.eqb reference "1.0.0" then Ok "R" else if String.eqb reference "Q" then Ok "M"
    else if (slen reference =? 1)%nat then Ok reference else Err head_absent;
  up_referrers _ _ := Ok []; fmt_q s := s |}.
#[local] Instance plan_tree : BlobTree := {| tree_walk st := (λ d, WFile (Ok (payload_len d))) <$> (map_to_list (st_blobs st)).*1 |}.
#[local] Instance plan_io : RetrieverIO := {| http_get _ := Ok (200%Z, "doc"); file_exists _ := true; read_file _ := Ok "doc" |}.

Definition only_reg : option Allowlist := Some (mkAllowlist true ["reg.io"; "zone.io"]).
Definition planner (allow : option Allowlist) (dest : option Destination) : Planner :=
  mkPlanner (mkRemotes ∅ allow) (unsigned_policy "reg.io/**") dest "retriever.yaml" "mirror" "" 0 false.
Definition no_options : PlanOptions := mkPlanOptions "" "" false.
Definition plan_run (ings : list Ingredient) (p : Planner) (opts : PlanOptions) (w : World) : outcome (Plan * SizeCache) * World :=
  PlanOf (H2 := plan_sdk ings) (λ _, "store") p opts ∅ w.
Definition evil_web : Ingredient := mkIngredient "evil" KindImage "evil.io/app/web" "v1" "M" "" [].
Definition forged : Ingredient := mkIngredient "forged" KindImage "reg.io/app/forged" "v1" "Q" "" [].
Definition foreign : Ingredient := mkIngredient "foreign" KindImage "evil.io/app/foreign" "v1" "N" "" [].

(** The blobs C and L of M and I's children are counted once: M and N are 1 byte, I is 1,
    the blobs 1, 10 and 20. *)
Example plan_of_two :
  match plan_run [web; multi []] (planner None None) no_options start with
  | (Done (plan, _), w) =>
      pn_outcome plan = OutcomeChangesPlanned ∧ pt_transfer (pn_totals plan) = 34%Z ∧ pt_largest (pn_totals plan) = 20%Z ∧
      (pi_transfer <$> all_ingredients (pn_recipes plan)) = [12; 34]%Z ∧ w = start
  | _ => False
  end.
Proof. vm_compute. auto. Qed.

(** * Plans that differ from the run *)

(** Two problems: a source outside the allowlist and content that does not match its
    digest. The refusal by policy is outranked, and the destination is asked. *)
Theorem policy_refusal_outranked :
  match plan_run [forged; foreign] (planner only_reg (Some zone)) no_options start with
  | (Done (plan, _), _) =>
      "policy" ∈ (pm_class <$> pn_problems plan) ∧ pn_outcome plan = OutcomeVerificationFailed ∧
      pt_push_evaluated (pn_totals plan) = true ∧ ("zone.io", "destination") ∈ ((λ v, (hv_host v, hv_role v)) <$> pn_hosts plan)
  | _ => False
  end.
Proof. vm_compute. split; [right; left|]. split; [done|]. split; [done|]. set_solver. Qed.

(** The size cache ignores where content comes from. The same digest under an allowed
    and a refused registry: the plan finds no problem and the run fails. *)
Theorem cached_refusal_forgotten :
  match plan_run [web; evil_web] (planner only_reg None) no_options start with
  | (Done (plan, _), _) =>
      pn_problems plan = [] ∧ pn_outcome plan = OutcomeChangesPlanned ∧
      ("evil.io", false) ∈ ((λ v, (hv_host v, hv_allowed v)) <$> pn_hosts plan)
  | _ => False
  end ∧
  match sync_entries (H2 := plan_sdk [web; evil_web])
    (mkEngine (mkRemotes ∅ only_reg) (unsigned_policy "reg.io/**") None "" 0 (λ _, false))
    (sync_retriever "reg.io/cookbook") (rt_recipes (sync_retriever "reg.io/cookbook")) start with
  | (_, w) => rv_complete (w_resolved w) = false
  end.
Proof. vm_compute. split; [|done]. split; [done|]. split; [done|]. set_solver. Qed.

(** The recipe artifact is not in the volume. A recipe whose ingredients are all there
    plans no byte and no change, and the run stores the artifact. *)
Theorem artifact_not_planned :
  match plan_run [] (planner None None) no_options start with
  | (Done (plan, _), _) => pn_outcome plan = OutcomeUpToDate ∧ pt_transfer (pn_totals plan) = 0%Z
  | _ => False
  end ∧
  match sync_entries (H2 := plan_sdk []) (mkEngine (mkRemotes ∅ None) (unsigned_policy "reg.io/**") None "" 0 (λ _, false))
    (sync_retriever "reg.io/cookbook") (rt_recipes (sync_retriever "reg.io/cookbook")) start with
  | (_, w) => has_manifest "reg.io/cookbook/shop" "R" (w_store w) = true
  end.
Proof. vm_compute. auto. Qed.

(** The projection goes by repository, the prune by tag. Two versions of a recipe in the
    graph, whose ingredient moved from one tag to the next of one repository: with the
    second version resolved, the plan projects nothing and the run unlinks the first. *)
Definition version_record (version d : string) : RecipeRecord :=
  mkRecipeRecord "shop" version "reg.io/cookbook/shop" "reg.io/cookbook/shop" version "R" "" "" 0 true ""
    [mkIngredientRecord "web" "ContainerImage" "reg.io/app/web" version d].
Definition two_versions : Store := mkStore
  {["reg.io/app/web" := mkRepoDir {["1.0.0" := "M"; "2.0.0" := "N"]} {["M" := Some 0%Z; "N" := Some 0%Z]} ∅]}
  {["M" := Some 0%Z; "N" := Some 0%Z]}
  (mkMeta {["reg.io/app/web" := mkProvenance ProvenanceRecipe "" "shop" "2.0.0" "" 0]}
    {["shop@1.0.0" := version_record "1.0.0" "M"; "shop@2.0.0" := version_record "2.0.0" "N"]}).
Theorem projection_by_repository :
  pp_repositories (planPrune (λ _, "store") (planner None None) {["reg.io/cookbook/shop"; "reg.io/app/web"]} true two_versions).1 = [] ∧
  match pruneToRetriever "" (mkResolved {["shop@2.0.0"]} true) 100 two_versions with
  | (Some rows, st) => ("reg.io/app/web", "1.0.0") ∈ ((λ r, (Tasks.pr_repo r, Tasks.pr_tag r)) <$> rows) ∧
      rd_tags (repo_of "reg.io/app/web" st) !! "1.0.0" = None
  | _ => False
  end.
Proof. vm_compute. split; [done|]. split; [set_solver|done]. Qed.

(** * Witnesses *)

Definition skip_options : PlanOptions := mkPlanOptions "" "" true.
Lemma plan_totals_exact_witness :
  ∃ plan cache w', plan_run [web; multi []] (planner None None) skip_options start = (Done (plan, cache), w') ∧
    pt_transfer (pn_totals plan) = 34%Z ∧
    ∃ ms l, Forall2 (measured (w_store start)) (filter (λ pi, clean pi = true) (all_ingredients (pn_recipes plan))) ms ∧
      pt_transfer (pn_totals plan) = wrap64 (ledger_needed l).
Proof.
  assert (match plan_run [web; multi []] (planner None None) skip_options start with
    | (Done (plan, _), _) => pt_transfer (pn_totals plan) | _ => 0%Z end = 34%Z) as Hn by (vm_compute; reflexivity).
  destruct (plan_run [web; multi []] (planner None None) skip_options start) as [[[plan cache]|e|] w'] eqn:E;
    [|discriminate Hn..].
  destruct (plan_totals_exact (H2 := plan_sdk [web; multi []]) (λ _, "store") (planner None None) skip_options ∅ start plan cache w'
    eq_refl eq_refl E) as (ms & l & Hms & _ & _ & _ & Ht & _).
  exists plan, cache, w'. split; [reflexivity|]. split; [exact Hn|]. exists ms, l. split; [exact Hms|exact Ht].
Defined.
Definition plan_engine : Engine := mkEngine (mkRemotes ∅ None) (unsigned_policy "reg.io/**") None "" 0 (λ _, false).
Lemma plan_predicts_run_witness :
  ∃ pi rec row w2,
    syncIngredient (H2 := plan_sdk []) plan_engine "shop@1.0.0" web start = (Done (rec, row), w2) ∧
    pi_repo pi = ir_repo rec ∧ item_status_name (pi_status pi) = rs_status row ∧ rs_status row = "new".
Proof.
  assert (match planIngredient (planner None None) web (mkPState ∅ ∅ ∅ ∅) ∅ start with (Done _, _) => true | _ => false end = true) as Hp
    by (vm_compute; reflexivity).
  assert (match syncIngredient (H2 := plan_sdk []) plan_engine "shop@1.0.0" web start with
    | (Done (_, row), _) => rs_status row | _ => "" end = "new") as Hs by (vm_compute; reflexivity).
  destruct (planIngredient (planner None None) web (mkPState ∅ ∅ ∅ ∅) ∅ start) as [[[[pi st] local]|e|] w1] eqn:E;
    [|discriminate Hp..].
  destruct (syncIngredient (H2 := plan_sdk []) plan_engine "shop@1.0.0" web start) as [[[rec row]|e|] w2] eqn:Es;
    [|discriminate Hs..].
  destruct (plan_predicts_run (H2 := plan_sdk []) (planner None None) plan_engine web (mkPState ∅ ∅ ∅ ∅) ∅ start pi st local w1
    "shop@1.0.0" rec row w2 eq_refl eq_refl eq_refl E Es) as (Hr & Hn & _).
  exists pi, rec, row, w2. split; [reflexivity|]. split; [exact Hr|]. split; [exact Hn|exact Hs].
Defined.
Lemma policy_stops_before_destination_witness :
  ∃ plan cache w', plan_run [foreign] (no_dest (planner only_reg (Some zone))) no_options start = (Done (plan, cache), w') ∧
    plan_run [foreign] (planner only_reg (Some zone)) no_options start = (Done (towards (Some zone) plan, cache), w') ∧
    outcome_exit (pn_outcome plan) = 3%Z.
Proof.
  assert (match plan_run [foreign] (no_dest (planner only_reg (Some zone))) no_options start with
    | (Done (plan, _), _) => pn_outcome plan | _ => OutcomeUpToDate end = OutcomePolicyRefused) as Ho by (vm_compute; reflexivity).
  destruct (plan_run [foreign] (no_dest (planner only_reg (Some zone))) no_options start) as [[[plan cache]|e|] w'] eqn:E;
    [|discriminate Ho..].
  exists plan, cache, w'. split; [reflexivity|].
  destruct (policy_stops_before_destination (H2 := plan_sdk [foreign]) (λ _, "store") (planner only_reg (Some zone)) no_options ∅
    start plan cache w' E Ho) as (Hp & _ & He).
  split; [exact Hp|exact He].
Defined.
Lemma projected_prune_exact_witness :
  ∃ prune problems, planPrune (λ _, "store") (planner None None) {["reg.io/cookbook/shop"]} true two_versions = (prune, problems) ∧
    "reg.io/app/web" ∈ (pe_repo <$> pp_repositories prune).
Proof.
  destruct (planPrune (λ _, "store") (planner None None) {["reg.io/cookbook/shop"]} true two_versions) as [prune problems] eqn:E.
  destruct (projected_prune_exact (λ _, "store") (planner None None) {["reg.io/cookbook/shop"]} true two_versions prune problems E)
    as (He & _ & Hl).
  exists prune, problems. split; [reflexivity|]. apply (proj2 (Hl (proj2 He (conj eq_refl eq_refl)))). split.
  - exists "shop@1.0.0", (version_record "1.0.0" "M"). split; [vm_compute; reflexivity|]. right.
    exists (mkIngredientRecord "web" "ContainerImage" "reg.io/app/web" "1.0.0" "M"). split; [by left|]. split; [reflexivity|discriminate].
  - split; [rewrite elem_of_singleton; discriminate|]. split; [vm_compute; reflexivity|vm_compute; reflexivity].
Defined.
