(* ===== verification/BlobFetch.v ===== *)
(** Resumable blob downloads (internal/blobfetch): the spool of partial bytes with its
    sidecar (spool.go), the requests that extend it and the verification of the whole
    (blobfetch.go).

    One download of one digest: callers of the same digest exclude each other by a lock
    held until the reader is closed, so a spool has one user. The origin is a function
    of the attempt, of the offset requested and of the validator sent; the state
    directory fails by script. Seeking in a file does not fail. *)

From stdpp Require Import pretty.
From S2P Require Import Prelude GoStrings Taxonomy Preflight.

(** * Content-Range *)

(** [parseContentRange]: the start and the total, -1 when the origin declines to say. *)
Definition parseContentRange `{GoRuntime} (v : string) : option (Z * Z) :=
  spec ← cut_prefix "bytes " (trim_space v);
  '(rng, totalStr) ← cut_byte "/" spec;
  '(startStr, endStr) ← cut_byte "-" rng;
  start ← ParseInt startStr;
  if (start <? 0)%Z then None
  else
    fin ← ParseInt endStr;
    if (fin <? start)%Z then None
    else if String.eqb totalStr "*" then Some (start, (-1)%Z)
    else total ← ParseInt totalStr; if (total <=? fin)%Z then None else Some (start, total).

(** * Errors *)

(** A taxonomy error, with whether a context error is among its causes, or the caller's
    context error itself. *)
Inductive fetch_error := FTax (te : TaxError) (ctx : bool) | FCtx.
(** [retryable]. *)
Definition retryable (e : fetch_error) : bool :=
  match e with
  | FTax te ctx => negb ctx && bool_decide (class_of (te_code te) = ClassOperational)
  | FCtx => false
  end.

(** * The spool *)

(** The outcome of a call on the state directory; a write may be short. *)
Inductive dfault := DOk | DFail (text : string) | DShort (n : nat) (text : string).

(** [spoolMeta]: offset and validator; no sidecar, or one that does not decode. *)
Abbreviation sidecar := (option (Z * string)).
(** [spool]: the file, the sidecar on disk, the offset and validator in memory, the bytes
    the verifier consumed; the faults to come and the requests sent. *)
Record Spool := mkSpool {
  s_data : string; s_side : sidecar; s_off : nat; s_val : string; s_hashed : string; s_resumed : bool;
  s_faults : list dfault; s_asked : list (nat * string) }.

Definition spm (A : Type) : Type := Spool → res fetch_error A * Spool.
#[export] Instance spm_ret : MRet spm := λ A a s, (Ok a, s).
#[export] Instance spm_bind : MBind spm := λ A B f m s,
  match m s with (Ok a, s) => f a s | (Err e, s) => (Err e, s) end.
Definition spm_fail {A} (e : fetch_error) : spm A := λ s, (Err e, s).
Definition get {A} (f : Spool → A) : spm A := λ s, (Ok (f s), s).
Definition upd (f : Spool → Spool) : spm unit := λ s, (Ok tt, f s).
Definition ignore {A} (m : spm A) : spm unit := λ s, (Ok tt, (m s).2).

(** The next call on the state directory. *)
Definition next_disk : spm dfault := λ s,
  match s_faults s with
  | [] => (Ok DOk, s)
  | f :: fs => (Ok f, mkSpool (s_data s) (s_side s) (s_off s) (s_val s) (s_hashed s) (s_resumed s) fs (s_asked s))
  end.
(** [spoolErr]. *)
Definition spoolErr (path detail : string) : fetch_error :=
  FTax (WithCause detail (tax CodeResumeSpool (strs [("path", path); ("detail", detail)]))) false.
Definition disk (path : string) : spm unit :=
  f ← next_disk;
  match f with DOk => mret tt | DFail text | DShort _ text => spm_fail (spoolErr path text) end.

Definition set_data (d : string) (s : Spool) : Spool :=
  mkSpool d (s_side s) (s_off s) (s_val s) (s_hashed s) (s_resumed s) (s_faults s) (s_asked s).
Definition set_side (m : sidecar) (s : Spool) : Spool :=
  mkSpool (s_data s) m (s_off s) (s_val s) (s_hashed s) (s_resumed s) (s_faults s) (s_asked s).
Definition set_off (n : nat) (v : string) (h : string) (r : bool) (s : Spool) : Spool :=
  mkSpool (s_data s) (s_side s) n v h r (s_faults s) (s_asked s).

(** A spool as a process finds it on disk. *)
Definition spool_on_disk (data : string) (side : sidecar) (faults : list dfault) : Spool :=
  mkSpool data side 0 "" "" false faults [].

(** A write at an offset. *)
Definition zeros (n : nat) : string := String.concat "" (replicate n (String Ascii.zero "")).
Definition pwrite (data : string) (off : nat) (chunk : string) : string :=
  stake off data +:+ zeros (off - slen data) +:+ chunk +:+ sdrop (off + slen chunk) data.

Section fetch.
Context `{GoRuntime}.
Context (hash_ok : string → bool) (fmt_q : string → string) (dirPath partPath metaPath host reference subject dgst : string).

(** [checkpoint]: the data before the sidecar that claims it. *)
Definition checkpoint : spm unit :=
  _ ← disk partPath;
  _ ← disk (metaPath +:+ ".tmp");
  _ ← disk metaPath;
  upd (λ s, set_side (Some (Z.of_nat (s_off s), s_val s)) s).

(** [openSpool], over what is on disk. *)
Definition openSpool : spm unit :=
  _ ← disk dirPath;
  side ← (f ← next_disk; match f with DOk => get s_side | _ => mret None end);
  _ ← disk partPath;
  _ ← disk partPath;
  size ← get (λ s, slen (s_data s));
  let '(off, val) := match side with Some m => m | None => (0%Z, "") end in
  let off := if (Z.of_nat size <? off)%Z then Z.of_nat size else off in
  _ ← (if (off <? Z.of_nat size)%Z then
         _ ← disk partPath;
         if (off <? 0)%Z then spm_fail (spoolErr partPath ("truncate " +:+ partPath +:+ ": invalid argument"))
         else upd (λ s, set_data (stake (Z.to_nat off) (s_data s)) s)
       else mret tt);
  upd (set_off (Z.to_nat off) val "" (0 <? off)%Z).

(** [rehash]. *)
Definition rehash : spm unit :=
  off ← get s_off;
  if (off =? 0)%nat then upd (λ s, set_off (s_off s) (s_val s) "" (s_resumed s) s)
  else
    _ ← disk partPath;
    upd (λ s, set_off (s_off s) (s_val s) (stake (s_off s) (s_data s)) (s_resumed s) s).

(** [reset]. *)
Definition reset : spm unit :=
  _ ← disk partPath;
  _ ← upd (λ s, set_off 0 "" "" false (set_data "" s));
  checkpoint.

(** [append]: the chunks a body delivers and how it ends. *)
Definition checkpointBytes : Z := Z.shiftl 8 20.
Inductive ending := BodyEOF | BodyErr (ctx : bool) | BodyCanceled.
Definition unreachable (h : string) (ctx : bool) : fetch_error :=
  FTax (tax CodeRegistryUnreachable (strs [("host", h)])) ctx.
Definition write_chunk (c : string) : spm unit :=
  f ← next_disk;
  match f with
  | DOk =>
      upd (λ s, set_off (s_off s + slen c) (s_val s) (s_hashed s +:+ c) (s_resumed s)
                  (set_data (pwrite (s_data s) (s_off s) c) s))
  | DFail text => spm_fail (spoolErr partPath text)
  | DShort n text =>
      _ ← upd (λ s, set_data (pwrite (s_data s) (s_off s) (stake n c)) s);
      spm_fail (spoolErr partPath text)
  end.
Fixpoint append_body (chunks : list string) (fin : ending) (since : Z) : spm unit :=
  match chunks with
  | [] =>
      match fin with
      | BodyCanceled => _ ← ignore checkpoint; spm_fail FCtx
      | BodyEOF => checkpoint
      | BodyErr ctx => _ ← checkpoint; spm_fail (unreachable "the source registry" ctx)
      end
  | c :: chunks =>
      _ ← write_chunk c;
      let since := (since + Z.of_nat (slen c))%Z in
      if (checkpointBytes <=? since)%Z then _ ← checkpoint; append_body chunks fin 0
      else append_body chunks fin since
  end.
Definition append (chunks : list string) (fin : ending) : spm unit :=
  _ ← upd (λ s, set_off (s_off s) (s_val s) (s_hashed s) (s_resumed s || (0 <? s_off s)%nat) s);
  append_body chunks fin 0.

(** [verified], [discard] and [close]. *)
Definition verified (s : Spool) : bool := (slen (s_hashed s) =? s_off s)%nat && hash_ok (s_hashed s).
Definition discard : spm unit :=
  _ ← (f ← next_disk; match f with DOk => upd (set_data "") | _ => mret tt end);
  f ← next_disk; match f with DOk => upd (set_side None) | _ => mret tt end.

(** * Requests *)

(** What a request gives: no response (a timeout, a context error), or a status with its
    Content-Range, its validator, the body's chunks and its end, and whether the watchdog
    gave the body up while the caller still waited. *)
Inductive response := NoResponse (timeout ctx : bool) | Resp (status : Z) (range : string) (validator : string)
  (chunks : list string) (fin : ending) (stalled : bool).

Definition rangeErr (detail : string) : fetch_error :=
  FTax (tax CodeRangeUnusable (strs [("reference", reference); ("detail", detail)])) false.
Definition mapTransportErr (timeout ctx : bool) : fetch_error :=
  if timeout then FTax (tax CodeInspectTimeout (strs [("host", host); ("timeout", "the transfer deadline")])) ctx
  else unreachable host ctx.
Definition mapStatus (status : Z) : fetch_error :=
  if (status =? 401)%Z || (status =? 403)%Z then FTax (tax CodeRegistryAuth (strs [("host", host)])) false
  else if (status =? 404)%Z then FTax (tax CodeRefNotFound (strs [("reference", reference)])) false
  else if (status =? 416)%Z then rangeErr "the source refused the requested byte range"
  else unreachable host false.

(** The checks on a partial response. *)
Definition check_partial (size off : nat) (range now : string) : spm unit :=
  match parseContentRange range with
  | None => spm_fail (rangeErr ("unusable Content-Range " +:+ fmt_q range))
  | Some (start, total) =>
      if negb (start =? Z.of_nat off)%Z then
        spm_fail (rangeErr ("206 starts at byte " +:+ pretty start +:+ ", " +:+ pretty off +:+ " was requested"))
      else if (0 <=? total)%Z && (0 <? size)%nat && negb (total =? Z.of_nat size)%Z then
        spm_fail (rangeErr ("206 declares a " +:+ pretty total +:+ "-byte blob, the manifest declares " +:+ pretty size))
      else
        before ← get s_val;
        if negb (String.eqb before "") && negb (String.eqb now "") && negb (String.eqb before now) then
          _ ← reset; spm_fail (rangeErr ("the source content changed between two attempts (validator " +:+ before +:+
            " became " +:+ now +:+ ")"))
        else mret tt
  end.
(** [pull]: one request from the spool's offset. *)
Definition ask (server : nat → string → response) : spm response := λ s,
  let v := if (0 <? s_off s)%nat then s_val s else "" in
  (Ok (server (s_off s) v),
   mkSpool (s_data s) (s_side s) (s_off s) (s_val s) (s_hashed s) (s_resumed s) (s_faults s) (s_asked s ++ [(s_off s, v)])).
Definition pull (size : nat) (server : nat → string → response) : spm unit :=
  off ← get s_off;
  resp ← ask server;
  match resp with
  | NoResponse timeout ctx => spm_fail (mapTransportErr timeout ctx)
  | Resp status range now chunks fin stalled =>
      off ← (if (status =? 200)%Z then _ ← reset; mret 0
             else if (status =? 206)%Z then _ ← check_partial size off range now; mret off
             else spm_fail (mapStatus status));
      _ ← (if (off =? 0)%nat then upd (λ s, set_off (s_off s) now (s_hashed s) (s_resumed s) s) else mret tt);
      _ ← (λ s, match append chunks fin s with
                | (_, s) as r => if stalled then (Err (unreachable host false), s) else r
                end);
      off ← get s_off;
      if (0 <? size)%nat && negb (off =? size)%nat then spm_fail (rangeErr ("the source closed after " +:+ pretty off +:+ " of " +:+ pretty size +:+ " bytes"))
      else mret tt
  end.

(** The attempts of one [Open]; [canceled] tells whether the wait before an attempt is
    cut short by the context. *)
Definition attempts : nat := 3.
Fixpoint pull_loop (n attempt : nat) (size : nat) (canceled : nat → bool) (server : nat → nat → string → response)
    (last : option fetch_error) : spm unit :=
  match n with
  | 0 => match last with Some e => spm_fail e | None => mret tt end
  | S n =>
      off ← get s_off;
      if (0 <? size)%nat && (off =? size)%nat then mret tt
      else if (0 <? attempt)%nat && canceled attempt then spm_fail FCtx
      else λ s,
        match pull size (server attempt) s with
        | (Ok _, s) => (Ok tt, s)
        | (Err e, s) =>
            if retryable e then pull_loop n (S attempt) size canceled server (Some e) s else (Err e, s)
        end
  end.
Definition mismatch (s : Spool) : fetch_error :=
  FTax (tax CodeDigestMismatch (strs [("reference", subject +:+ "@" +:+ dgst); ("expected", dgst);
    ("actual", pretty (s_off s) +:+ " bytes that do not hash to it")])) false.
(** [Open]: the bytes the reader delivers; [client] is the failure to build the
    authenticated client, if any. *)
Definition Open (size : nat) (client : option fetch_error) (canceled : nat → bool)
    (server : nat → nat → string → response) : spm string :=
  _ ← openSpool;
  _ ← match client with Some e => spm_fail e | None => mret tt end;
  off ← get s_off;
  _ ← (if (size <? off)%nat then reset else mret tt);
  _ ← rehash;
  _ ← pull_loop attempts 0 size canceled server None;
  ok ← get verified;
  if negb ok then (e ← get mismatch; _ ← discard; spm_fail e)
  else get s_data.
(** [Close] of the reader. *)
Definition close_reader (drained : bool) : spm unit := if drained then discard else mret tt.

(** [Handles] and [OpenOr]. *)
Definition Handles (root : bool) (threshold size : Z) : bool := root && (0 <? threshold)%Z && (threshold <=? size)%Z.

(** * Integrity *)

Definition kept {A} (P : Spool → Prop) (m : spm A) : Prop := ∀ s, P s → P (m s).2.
Lemma kept_ret {A} P (a : A) : kept P (mret a).
Proof. by intros s. Qed.
Lemma kept_fail {A} P e : kept P (spm_fail e : spm A).
Proof. by intros s. Qed.
Lemma kept_get {A} P (f : Spool → A) : kept P (get f).
Proof. by intros s. Qed.
Lemma kept_bind {A B} P (m : spm A) (f : A → spm B) : kept P m → (∀ a, kept P (f a)) → kept P (m ≫= f).
Proof.
  intros Hm Hf s Hs. unfold mbind, spm_bind. specialize (Hm s Hs). destruct (m s) as [[a|e] s1]; [by apply Hf|done].
Qed.
Lemma kept_ignore {A} P (m : spm A) : kept P m → kept P (ignore m).
Proof. intros Hm s Hs. by apply Hm. Qed.

(** What the verifier consumed is the file up to the offset; and is the whole file as
    long as no write was short. *)
Definition short (f : dfault) : bool := match f with DShort _ _ => true | _ => false end.
Record good (b : bool) (s : Spool) : Prop := {
  g_len : slen (s_hashed s) = s_off s;
  g_pre : stake (s_off s) (s_data s) = s_hashed s;
  g_whole : b = true → Forall (λ f, short f = false) (s_faults s) ∧ s_data s = s_hashed s }.
Lemma good_off b s : good b s → s_off s ≤ slen (s_data s).
Proof. intros [Hl Hp _]. rewrite <-Hp in Hl. rewrite <-Hl. rewrite <-(stake_drop (s_off s) (s_data s)) at 2. rewrite slen_app. lia. Qed.

Lemma pwrite_le data off c : off ≤ slen data → pwrite data off c = stake off data +:+ c +:+ sdrop (off + slen c) data.
Proof. intros Hle. unfold pwrite. replace (off - slen data) with 0 by lia. done. Qed.
Lemma slen_stake_le' off data : off ≤ slen data → slen (stake off data) = off.
Proof. intros Hle. pose proof (f_equal slen (stake_drop off data)) as He. rewrite slen_app, slen_sdrop in He. lia. Qed.

Lemma kept_next_disk b : kept (good b) next_disk.
Proof.
  intros s Hs. unfold next_disk. destruct (s_faults s) as [|f fs] eqn:E; [done|].
  destruct Hs as [Hl Hp Hw]. split; [done..|]. intros Hb. destruct (Hw Hb) as [Hf ?]. rewrite E in Hf.
  by apply Forall_cons_1 in Hf as [_ ?].
Qed.
Lemma kept_disk b path : kept (good b) (disk path).
Proof. apply kept_bind; [apply kept_next_disk|]. intros []; [apply kept_ret|apply kept_fail..]. Qed.
Lemma kept_checkpoint b : kept (good b) checkpoint.
Proof.
  unfold checkpoint. do 3 (apply kept_bind; [apply kept_disk|intros _]). intros s [? ? ?]. by split.
Qed.
Lemma kept_reset b : kept (good b) reset.
Proof.
  apply kept_bind; [apply kept_disk|intros _]. apply kept_bind; [|intros _; apply kept_checkpoint].
  intros s [_ _ Hw]. split; [done..|]. intros Hb. by destruct (Hw Hb).
Qed.
Lemma sdrop_all n t : slen t ≤ n → sdrop n t = "".
Proof. intros Hle. destruct (sdrop n t) eqn:E; [done|]. apply (f_equal slen) in E. rewrite slen_sdrop in E. cbn in E. lia. Qed.
Lemma good_write b c s : good b s →
  good b (set_off (s_off s + slen c) (s_val s) (s_hashed s +:+ c) (s_resumed s) (set_data (pwrite (s_data s) (s_off s) c) s)).
Proof.
  intros Hs. pose proof (good_off _ _ Hs) as Hle. destruct Hs as [Hl Hp Hw]. split; cbn.
  - by rewrite slen_app, Hl.
  - rewrite pwrite_le, Hp by done. rewrite <-sapp_assoc, <-Hl, <-slen_app. by rewrite stake_app_length.
  - intros Hb. destruct (Hw Hb) as [? Hd]. split; [done|]. rewrite pwrite_le, Hp by done.
    rewrite sdrop_all, sapp_nil_r; [done|]. rewrite Hd, Hl. lia.
Qed.
Lemma good_short b c s n text s1 : good b s → next_disk s = (Ok (DShort n text), s1) →
  good b (set_data (pwrite (s_data s1) (s_off s1) c) s1).
Proof.
  intros Hs E. pose proof (kept_next_disk b s Hs) as Hs1. rewrite E in Hs1. cbn in Hs1.
  pose proof (good_off _ _ Hs1) as Hle. destruct Hs1 as [Hl Hp _]. split; cbn; [done| |].
  - rewrite pwrite_le by done. rewrite Hp, <-Hl. by rewrite stake_app_length.
  - intros Hb. destruct (g_whole _ _ Hs Hb) as [Hf _]. unfold next_disk in E.
    destruct (s_faults s) as [|f fs]; [done|]. injection E as -> _. by apply Forall_cons_1 in Hf as [? _].
Qed.
Lemma kept_write_chunk b c : kept (good b) (write_chunk c).
Proof.
  intros s Hs. unfold write_chunk, mbind, spm_bind. pose proof (kept_next_disk b s Hs) as Hs1.
  destruct (next_disk s) as [[[|text|n text]|e] s1] eqn:E; cbn in Hs1 |- *; [by apply good_write|exact Hs1| |exact Hs1].
  by apply (good_short _ _ s n text).
Qed.
Lemma kept_append b chunks fin : kept (good b) (append chunks fin).
Proof.
  apply kept_bind; [intros s [? ? ?]; by split|]. intros _.
  generalize 0%Z. induction chunks as [|c chunks IH]; intros since; cbn [append_body].
  - destruct fin; [apply kept_checkpoint| |];
      (apply kept_bind; [|intros; apply kept_fail]); [apply kept_checkpoint|apply kept_ignore, kept_checkpoint].
  - apply kept_bind; [apply kept_write_chunk|]. intros _. destruct (_ <=? _)%Z; [|apply IH].
    apply kept_bind; [apply kept_checkpoint|]. intros _. apply IH.
Qed.
Lemma kept_pull b size server : kept (good b) (pull size server).
Proof.
  apply kept_bind; [apply kept_get|]. intros off. apply kept_bind; [intros s [? ? ?]; by split|].
  intros [timeout ctx|status range now chunks fin st]; [apply kept_fail|]. apply kept_bind.
  { destruct (status =? 200)%Z; [apply kept_bind; [apply kept_reset|intros; apply kept_ret]|].
    destruct (status =? 206)%Z; [|apply kept_fail]. apply kept_bind; [|intros; apply kept_ret].
    unfold check_partial. destruct (parseContentRange range) as [[start total]|]; [|apply kept_fail].
    destruct (negb _); [apply kept_fail|]. destruct (_ && _ && _); [apply kept_fail|].
    apply kept_bind; [apply kept_get|]. intros before. destruct (_ && _ && _); [|apply kept_ret].
    apply kept_bind; [apply kept_reset|intros; apply kept_fail]. }
  intros off'. apply kept_bind; [destruct (off' =? 0)%nat; [intros s [? ? ?]; by split|apply kept_ret]|]. intros _.
  apply kept_bind.
  { intros s Hs. pose proof (kept_append b chunks fin s Hs) as Hs1. destruct (append chunks fin s) as [r s1]. by destruct st. }
  intros _. apply kept_bind; [apply kept_get|]. intros. destruct (_ && _); [apply kept_fail|apply kept_ret].
Qed.
Lemma kept_pull_loop b n attempt size canceled server last : kept (good b) (pull_loop n attempt size canceled server last).
Proof.
  revert attempt last. induction n as [|n IH]; intros attempt last; cbn [pull_loop].
  { destruct last; [apply kept_fail|apply kept_ret]. }
  apply kept_bind; [apply kept_get|]. intros off. destruct (_ && _); [apply kept_ret|].
  destruct (_ && _); [apply kept_fail|]. intros s Hs. pose proof (kept_pull b size (server attempt) s Hs) as Hs1.
  destruct (pull size (server attempt) s) as [[[]|e] s1]; [done|]. destruct (retryable e); [by apply IH|done].
Qed.
Lemma spm_bind_Ok {A B} (m : spm A) (f : A → spm B) s b s' :
  (m ≫= f) s = (Ok b, s') → ∃ a s1, m s = (Ok a, s1) ∧ f a s1 = (Ok b, s').
Proof. unfold mbind, spm_bind. destruct (m s) as [[a|e] s1]; [eauto|done]. Qed.
Lemma pull_done size server s s' : 0 < size → pull size server s = (Ok tt, s') → s_off s' = size.
Proof.
  intros Hsz (off & s1 & _ & E)%spm_bind_Ok. apply spm_bind_Ok in E as ([|status range now chunks fin st] & s2 & _ & E); [done|].
  do 3 (apply spm_bind_Ok in E as (? & ? & _ & E)). apply spm_bind_Ok in E as (o & s5 & [= <- <-] & E).
  destruct (Nat.ltb_spec 0 size); [|lia]. cbn [andb] in E.
  match type of E with context [(?a =? size)%nat] => destruct (Nat.eqb_spec a size) end; [|done]. by injection E as <-.
Qed.
Lemma pull_loop_done n attempt size canceled server last s s' : 0 < size → (n = 0 → last ≠ None) →
  pull_loop n attempt size canceled server last s = (Ok tt, s') → s_off s' = size.
Proof.
  intros Hsz. revert attempt last s. induction n as [|n IH]; intros attempt last s Hl; cbn [pull_loop].
  { destruct last; [done|]. by destruct Hl. }
  intros (off & s1 & [= <- <-] & E)%spm_bind_Ok.
  destruct (Nat.ltb_spec 0 size); [|lia]. cbn [andb] in E. destruct (Nat.eqb_spec (s_off s) size); [by injection E as <-|].
  destruct (_ && _); [done|]. destruct (pull size (server attempt) s) as [[[]|e] s2] eqn:Ep.
  - injection E as <-. by eapply pull_done.
  - destruct (retryable e); [|done]. eapply IH; [|exact E]. done.
Qed.
Definition whole_writes (s : Spool) : Prop := Forall (λ f, short f = false) (s_faults s).
Lemma whole_next_disk : kept whole_writes next_disk.
Proof.
  intros s Hs. unfold next_disk, whole_writes in *. destruct (s_faults s) as [|f fs] eqn:E; cbn; [by rewrite E|].
  by apply Forall_cons_1 in Hs as [_ ?].
Qed.
Lemma whole_disk path : kept whole_writes (disk path).
Proof. apply kept_bind; [apply whole_next_disk|]. intros []; [apply kept_ret|apply kept_fail..]. Qed.
Lemma openSpool_whole : kept whole_writes openSpool.
Proof.
  apply kept_bind; [apply whole_disk|intros _]. apply kept_bind.
  { apply kept_bind; [apply whole_next_disk|]. intros []; [apply kept_get|apply kept_ret..]. }
  intros side. do 2 (apply kept_bind; [apply whole_disk|intros _]). apply kept_bind; [apply kept_get|].
  intros size. destruct (match side with Some m => m | None => (0%Z, "") end) as [off val].
  apply kept_bind; [|by intros _ s]. destruct (_ <? Z.of_nat size)%Z; [|apply kept_ret].
  apply kept_bind; [apply whole_disk|intros _]. destruct (_ <? 0)%Z; [apply kept_fail|by intros s].
Qed.
Lemma disk_done path s u s' : disk path s = (Ok u, s') → s_data s' = s_data s ∧ s_off s' = s_off s.
Proof.
  intros (f & s1 & E1 & E)%spm_bind_Ok. assert (s' = s1) as -> by (destruct f; by injection E).
  unfold next_disk in E1. by destruct (s_faults s); simplify_eq/=.
Qed.
Lemma openSpool_done s s' : openSpool s = (Ok tt, s') → slen (s_data s') = s_off s'.
Proof.
  intros (? & ? & _ & E)%spm_bind_Ok. apply spm_bind_Ok in E as (side & ? & _ & E).
  apply spm_bind_Ok in E as (? & ? & _ & E). apply spm_bind_Ok in E as (? & s1 & _ & E).
  apply spm_bind_Ok in E as (size & ? & [= <- <-] & E).
  destruct (match side with Some m => m | None => (0%Z, "") end) as [off val].
  apply spm_bind_Ok in E as (? & s2 & E1 & [= <-]). cbn [set_off s_data s_off].
  set (o := if (Z.of_nat (slen (s_data _)) <? off)%Z then _ else off) in *.
  assert (o ≤ Z.of_nat (slen (s_data s1)))%Z as Ho.
  { subst o. destruct (Z.ltb_spec (Z.of_nat (slen (s_data s1))) off); lia. }
  clearbody o. destruct (Z.ltb_spec o (Z.of_nat (slen (s_data s1)))); [|unfold mret, spm_ret in E1; simplify_eq; cbn; lia].
  apply spm_bind_Ok in E1 as (? & s3 & E3 & E1). destruct (Z.ltb_spec o 0); [done|]. unfold upd in E1; simplify_eq/=.
  apply disk_done in E3 as [-> _].
  apply slen_stake_le'. lia.
Qed.
Lemma rehash_done b s s' : slen (s_data s) = s_off s → (b = true → whole_writes s) → rehash s = (Ok tt, s') → good b s'.
Proof.
  intros Hl Hw (off & s1 & [= <- <-] & E)%spm_bind_Ok. destruct (Nat.eqb_spec (s_off s) 0) as [Hz|Hz].
  - injection E as <-. destruct (s_data s) eqn:Ed; [|cbn in Hl; lia]. split; cbn; rewrite ?Hz, ?Ed; [done..|]. by intros ?%Hw.
  - pose proof (whole_disk partPath s) as Hk. apply spm_bind_Ok in E as (? & s1 & E1 & [= <-]). rewrite E1 in Hk. cbn in Hk.
    apply disk_done in E1 as [Hd Ho].
    rewrite (stake_all (s_off s1) (s_data s1)) by (rewrite Hd, Ho, Hl; done). split; cbn; [congruence| |].
    + rewrite stake_all; [done|]. rewrite Hd, Ho, Hl. done.
    + intros ?%Hw. split; [by apply Hk|done].
Qed.
Lemma reset_done s s' : reset s = (Ok tt, s') → slen (s_data s') = s_off s'.
Proof.
  intros (? & s1 & _ & E)%spm_bind_Ok. apply spm_bind_Ok in E as (? & s2 & [= <-] & E).
  do 3 (apply spm_bind_Ok in E as (? & ? & [? ?]%disk_done & E)).
  unfold upd in E. simplify_eq/=.
  repeat match goal with Hx : _ _ = _ |- _ => rewrite Hx; clear Hx end. done.
Qed.
Lemma whole_reset : kept whole_writes reset.
Proof.
  apply kept_bind; [apply whole_disk|intros _]. apply kept_bind; [by intros s|intros _].
  unfold checkpoint. do 3 (apply kept_bind; [apply whole_disk|intros _]). by intros s.
Qed.

(** C37: what the caller reads. When [Open] returns, the file it hands over starts with as
    many bytes as the manifest declares, and those hash to the requested digest, whatever
    the spool held, the origin answered on each attempt and the state directory did;
    unless a write was cut short, they are the whole file. *)
Theorem Open_integrity size client canceled server s data s' :
  0 < size → Open size client canceled server s = (Ok data, s') →
  ∃ blob rest, data = blob +:+ rest ∧ slen blob = size ∧ hash_ok blob = true ∧ (whole_writes s → rest = "").
Proof.
  intros Hsz E. apply spm_bind_Ok in E as ([] & s1 & E1 & E).
  pose proof (openSpool_whole s) as Hw1. rewrite E1 in Hw1. apply openSpool_done in E1 as Hl1.
  apply spm_bind_Ok in E as ([] & s2 & E2 & E). assert (s2 = s1) as -> by (destruct client; [done|by injection E2]).
  apply spm_bind_Ok in E as (off & ? & [= <- <-] & E). apply spm_bind_Ok in E as ([] & s3 & E3 & E).
  assert (slen (s_data s3) = s_off s3 ∧ (whole_writes s1 → whole_writes s3)) as [Hl3 Hw3].
  { destruct (_ <? _)%nat; [|by injection E3 as <-]. split; [by apply reset_done in E3|].
    pose proof (whole_reset s1) as Hw. by rewrite E3 in Hw. }
  apply spm_bind_Ok in E as ([] & s4 & E4 & E). apply spm_bind_Ok in E as ([] & s5 & E5 & E).
  assert (∀ b, (b = true → whole_writes s3) → good b s5) as Hg.
  { intros b Hb. eapply rehash_done in E4; [|done|exact Hb]. pose proof (kept_pull_loop b attempts 0 size canceled server None s4 E4) as Hk.
    by rewrite E5 in Hk. }
  apply pull_loop_done in E5 as Ho; [|done|done].
  apply spm_bind_Ok in E as (ok & ? & [= <- <-] & E). destruct (verified s5) eqn:Ev; [|by apply spm_bind_Ok in E as (? & ? & ? & (? & ? & ? & ?)%spm_bind_Ok)].
  injection E as <- <-. apply andb_true_iff in Ev as [_ Ev]. destruct (Hg false) as [Hl Hp _]; [done|].
  exists (s_hashed s5), (sdrop (s_off s5) (s_data s5)). split_and!; [by rewrite <-Hp, stake_drop|congruence|done|].
  intros Hw. destruct (g_whole _ _ (Hg true (λ _, Hw3 (Hw1 Hw))) eq_refl) as [_ Hd]. rewrite Hd, <-Hl. by apply sdrop_all.
Qed.

(** * Resumption *)

(** The spool of an undisturbed state directory holds a prefix of the blob. *)
Record prefixed (blob v : string) (s : Spool) : Prop := {
  p_faults : s_faults s = [];
  p_hashed : s_hashed s = stake (s_off s) blob;
  p_data : s_data s = s_hashed s;
  p_off : s_off s ≤ slen blob;
  p_val : s_val s = "" ∨ s_val s = v }.
(** An answer of an origin that serves the blob: none, a status worth another attempt, a
    part of what is missing, or, from an origin that ignores the range, a part of the whole. *)
Definition ranged (blob : string) (off : nat) (range : string) : Prop :=
  parseContentRange range = Some (Z.of_nat off, (-1)%Z) ∨ parseContentRange range = Some (Z.of_nat off, Z.of_nat (slen blob)).
Definition honest (blob v : string) (off : nat) (r : response) : Prop :=
  match r with
  | NoResponse _ ctx => ctx = false
  | Resp status range now chunks fin stalled =>
      status ≠ 200%Z ∧ status ≠ 206%Z ∧ retryable (mapStatus status) = true ∨
      (status = 200%Z ∨ status = 206%Z ∧ ranged blob off range) ∧ now = v ∧ (fin = BodyEOF ∨ fin = BodyErr false) ∧
      ∃ rest, sdrop (if (status =? 200)%Z then 0 else off) blob = String.concat "" chunks +:+ rest
  end.
(** An answer that delivers all that it was asked for, or all of the blob. *)
Definition complete (blob : string) (off : nat) (r : response) : Prop :=
  ∃ status range now chunks, r = Resp status range now chunks BodyEOF false ∧
    (status = 200%Z ∧ String.concat "" chunks = blob ∨ status = 206%Z ∧ String.concat "" chunks = sdrop off blob).
(** An answer that starts the blob over. *)
Definition restarts (r : response) : bool :=
  match r with Resp status _ _ _ _ _ => (status =? 200)%Z | NoResponse _ _ => false end.

Lemma disk_fine path s : s_faults s = [] → disk path s = (Ok tt, s).
Proof. intros Hf. unfold disk, mbind, spm_bind, next_disk. by rewrite Hf. Qed.
Lemma checkpoint_fine s : s_faults s = [] → checkpoint s = (Ok tt, set_side (Some (Z.of_nat (s_off s), s_val s)) s).
Proof. intros Hf. unfold checkpoint, mbind, spm_bind. by rewrite !disk_fine. Qed.
Lemma reset_fine s : s_faults s = [] → ∃ side, reset s = (Ok tt, set_side side (set_off 0 "" "" false (set_data "" s))).
Proof. intros Hf. unfold reset, mbind, spm_bind. rewrite disk_fine by done. cbn [upd]. by rewrite checkpoint_fine; eauto. Qed.
Lemma concat_cons c cs : String.concat "" (c :: cs) = c +:+ String.concat "" cs.
Proof. destruct cs; [by rewrite sapp_nil_r|done]. Qed.
Lemma stake_extend n blob c rest : n ≤ slen blob → sdrop n blob = c +:+ rest →
  stake (n + slen c) blob = stake n blob +:+ c ∧ sdrop (n + slen c) blob = rest.
Proof.
  intros Hn E. assert (blob = (stake n blob +:+ c) +:+ rest) as Hb by (rewrite sapp_assoc, <-E; by rewrite stake_drop).
  assert (slen (stake n blob +:+ c) = n + slen c) as Hl by (by rewrite slen_app, slen_stake_le').
  rewrite Hb at 1 3. rewrite <-Hl. by rewrite stake_app_length, sdrop_app_length.
Qed.
Lemma prefixed_write blob v c rest s : prefixed blob v s → sdrop (s_off s) blob = c +:+ rest →
  let s1 := set_off (s_off s + slen c) (s_val s) (s_hashed s +:+ c) (s_resumed s) (set_data (pwrite (s_data s) (s_off s) c) s) in
  prefixed blob v s1 ∧ sdrop (s_off s1) blob = rest.
Proof.
  intros Hs Er. destruct (stake_extend _ _ _ _ (p_off _ _ _ Hs) Er) as [Ht Hd]. split; [|done].
  destruct Hs as [Hf Hh Hdt Ho Hv]. apply (f_equal slen) in Er. rewrite slen_sdrop, slen_app in Er. split; cbn; [done|congruence| |lia|done].
  assert (slen (s_hashed s) = s_off s) as Hl by (by rewrite Hh, slen_stake_le').
  rewrite Hdt, pwrite_le by lia. rewrite sdrop_all by lia. rewrite stake_all by lia. by rewrite sapp_nil_r.
Qed.
Lemma prefixed_side blob v m s : prefixed blob v s → prefixed blob v (set_side m s).
Proof. by intros [? ? ? ? ?]. Qed.
Lemma append_body_fine blob v chunks fin since rest s : prefixed blob v s → fin ≠ BodyCanceled →
  sdrop (s_off s) blob = String.concat "" chunks +:+ rest →
  ∃ s', append_body chunks fin since s =
      (match fin with BodyErr ctx => Err (unreachable "the source registry" ctx) | _ => Ok tt end, s') ∧
    prefixed blob v s' ∧ s_off s' = s_off s + slen (String.concat "" chunks) ∧ s_asked s' = s_asked s.
Proof.
  revert since s. induction chunks as [|c chunks IH]; intros since s Hs Hfin Er.
  { exists (set_side (Some (Z.of_nat (s_off s), s_val s)) s). pose proof (checkpoint_fine s (p_faults _ _ _ Hs)) as Hc.
    split; [|split; [by apply prefixed_side|by cbn; split; [lia|]]].
    destruct fin; cbn [append_body]; [done| |done]. unfold mbind, spm_bind. by rewrite Hc. }
  rewrite concat_cons, sapp_assoc in Er. destruct (prefixed_write _ _ _ _ _ Hs Er) as [Hs1 Hd1].
  cbn [append_body]. unfold write_chunk, next_disk, mbind, spm_bind. rewrite (p_faults _ _ _ Hs). cbn [upd].
  set (s1 := set_off _ _ _ _ _) in *. set (since1 := (since + _)%Z).
  assert (s_off s1 + slen (String.concat "" chunks) = s_off s + slen (String.concat "" (c :: chunks))) as Ho
    by (rewrite concat_cons, slen_app; cbn; lia).
  assert (s_asked s1 = s_asked s) as Ha by done.
  destruct (_ <=? since1)%Z.
  - rewrite (checkpoint_fine s1 (p_faults _ _ _ Hs1)).
    destruct (IH 0%Z _ (prefixed_side _ _ (Some (Z.of_nat (s_off s1), s_val s1)) _ Hs1) Hfin Hd1) as (s' & -> & ? & Ho' & ?).
    exists s'. split_and!; [done|done|by rewrite Ho', <-Ho|done].
  - destruct (IH since1 _ Hs1 Hfin Hd1) as (s' & -> & ? & Ho' & ?).
    exists s'. split_and!; [done|done|by rewrite Ho', <-Ho|done].
Qed.
Lemma append_fine blob v chunks fin rest s : prefixed blob v s → fin ≠ BodyCanceled →
  sdrop (s_off s) blob = String.concat "" chunks +:+ rest →
  ∃ s', append chunks fin s =
      (match fin with BodyErr ctx => Err (unreachable "the source registry" ctx) | _ => Ok tt end, s') ∧
    prefixed blob v s' ∧ s_off s' = s_off s + slen (String.concat "" chunks) ∧ s_asked s' = s_asked s.
Proof.
  intros Hs Hfin Er. unfold append. unfold mbind, spm_bind. cbn [upd].
  apply (append_body_fine blob v chunks fin 0 rest (set_off (s_off s) (s_val s) (s_hashed s) _ s)); [|done..].
  by destruct Hs as [? ? ? ? ?].
Qed.
Definition asked_at (s : Spool) : Spool :=
  mkSpool (s_data s) (s_side s) (s_off s) (s_val s) (s_hashed s) (s_resumed s) (s_faults s)
    (s_asked s ++ [(s_off s, if (0 <? s_off s)%nat then s_val s else "")]).
Lemma prefixed_asked blob v s : prefixed blob v s → prefixed blob v (asked_at s).
Proof. by intros [? ? ? ? ?]. Qed.
Lemma prefixed_empty blob v w side s : s_faults s = [] → w = "" ∨ w = v → prefixed blob v (set_side side (set_off 0 w "" false (set_data "" s))).
Proof. intros ? ?. split; cbn; [done|by destruct blob|done|lia|done]. Qed.
(** The response is accepted, at the spool's offset or from the start. *)
Lemma accept_fine blob v s status range : prefixed blob v s →
  status = 200%Z ∨ status = 206%Z ∧ ranged blob (s_off s) range →
  let off := if (status =? 200)%Z then 0 else s_off s in
  ∃ s', (if (status =? 200)%Z then _ ← reset; mret 0
         else if (status =? 206)%Z then _ ← check_partial (slen blob) (s_off s) range v; mret (s_off s)
         else spm_fail (mapStatus status)) s = (Ok off, s') ∧
    prefixed blob v s' ∧ s_off s' = off ∧ s_asked s' = s_asked s.
Proof.
  intros Hs [->|[-> Hr]]; cbn [Z.eqb Pos.eqb].
  - destruct (reset_fine s (p_faults _ _ _ Hs)) as [side E]. unfold mbind, spm_bind. rewrite E. eexists. split; [done|].
    split; [|done]. apply prefixed_empty; [apply (p_faults _ _ _ Hs)|by left].
  - exists s. split; [|done]. unfold mbind at 1, spm_bind at 1. replace (check_partial (slen blob) (s_off s) range v s) with (Ok (A:=unit) (E:=fetch_error) tt, s); [done|].
    unfold check_partial. assert ((negb (String.eqb (s_val s) "") && negb (String.eqb v "") && negb (String.eqb (s_val s) v)) = false) as Hv.
    { destruct (p_val _ _ _ Hs) as [->| ->]; [done|]. rewrite (String.eqb_refl v). by rewrite andb_false_r. }
    destruct Hr as [-> | ->]; rewrite Z.eqb_refl; cbn [negb].
    + cbn. unfold mbind, spm_bind, get. by rewrite Hv.
    + rewrite Z.eqb_refl, andb_false_r. unfold mbind, spm_bind, get. by rewrite Hv.
Qed.
(** The request a spool makes. *)
Definition requested (server : nat → string → response) (s : Spool) : response :=
  server (s_off s) (if (0 <? s_off s)%nat then s_val s else "").
Lemma pull_fine blob v server s : 0 < slen blob → prefixed blob v s → honest blob v (s_off s) (requested server s) →
  ∃ res s', pull (slen blob) server s = (res, s') ∧ prefixed blob v s' ∧
    (restarts (requested server s) = false ∨ s_off s = 0 → s_off s ≤ s_off s') ∧
    (∃ w, s_asked s' = s_asked s ++ [(s_off s, w)]) ∧
    (res = Ok tt ∨ ∃ e, res = Err e ∧ retryable e = true) ∧
    (complete blob (s_off s) (requested server s) → res = Ok tt).
Proof.
  intros Hsz Hs Hh. unfold pull, ask, get. unfold mbind at 1 2, spm_bind at 1 2. fold (asked_at s). fold (requested server s).
  destruct (requested server s) as [timeout ctx|status range now chunks fin st].
  { cbn in Hh. subst ctx. eexists _, _. split; [done|]. split; [by apply prefixed_asked|]. split; [done|]. split; [by eexists|].
    split; [|by intros (? & ? & ? & ? & ? & _)]. right. eexists. split; [done|]. by destruct timeout. }
  destruct Hh as [(Hn1 & Hn2 & Hret)|(Hst & -> & Hfin & rest & Hrest)].
  { unfold mbind at 1, spm_bind at 1. rewrite (proj2 (Z.eqb_neq _ _) Hn1), (proj2 (Z.eqb_neq _ _) Hn2).
    eexists _, _. split; [done|]. split; [by apply prefixed_asked|]. split; [done|]. split; [by eexists|].
    split; [right; by eexists|]. by intros (? & ? & ? & ? & [= <-] & [[? _]|[? _]]). }
  destruct (accept_fine blob v (asked_at s) status range (prefixed_asked _ _ _ Hs) Hst) as (s1 & E1 & Hs1 & Ho1 & Ha1).
  unfold mbind at 1, spm_bind at 1. cbn [asked_at s_off] in E1. rewrite E1. clear E1. cbn [asked_at s_off s_asked] in Ho1, Ha1.
  set (off := if (status =? 200)%Z then 0 else s_off s) in *.
  set (s2 := if (off =? 0)%nat then set_off (s_off s1) v (s_hashed s1) (s_resumed s1) s1 else s1).
  assert (prefixed blob v s2 ∧ s_off s2 = off ∧ s_asked s2 = s_asked s1) as (Hs2 & Ho2 & Ha2).
  { subst s2. destruct (_ =? _)%nat; [|done]. destruct Hs1 as [? ? ? ? ?]. split_and!; [split|..]; cbn; auto. }
  unfold mbind at 1, spm_bind at 1. replace ((if (off =? 0)%nat then _ else _) s1) with (Ok (A:=unit) (E:=fetch_error) tt, s2)
    by (subst s2; by destruct (off =? _)%nat).
  destruct (append_fine blob v chunks fin rest s2 Hs2) as (s3 & E3 & Hs3 & Ho3 & Ha3); [by destruct Hfin as [-> | ->]|by rewrite Ho2|].
  unfold mbind at 1, spm_bind at 1. rewrite E3. clearbody s2.
  assert ((restarts (Resp status range v chunks fin st) = false ∨ s_off s = 0 → s_off s ≤ s_off s3) ∧
    ∃ w, s_asked s3 = s_asked s ++ [(s_off s, w)]) as [Hle Hw].
  { split; [|eexists; by rewrite Ha3, Ha2, Ha1]. cbn. intros [Hr|Hz]; [|lia]. subst off. rewrite Hr in Ho2. lia. }
  destruct st.
  { eexists _, _. do 4 (split; [done|]). split; [right; by eexists|]. by intros (? & ? & ? & ? & [=] & _). }
  destruct Hfin as [-> | ->].
  2:{ eexists _, _. do 4 (split; [done|]). split; [right; by eexists|]. by intros (? & ? & ? & ? & [=] & _). }
  unfold mbind, spm_bind. destruct (Nat.ltb_spec 0 (slen blob)); [|lia]. cbn [andb].
  destruct (Nat.eqb_spec (s_off s3) (slen blob)) as [He|He].
  - eexists _, _. do 4 (split; [done|]). split; [by left|done].
  - eexists _, _. do 4 (split; [done|]). split; [right; by eexists|].
    intros (? & ? & ? & ? & [= <- _ _ <-] & Hc). destruct He. rewrite Ho3, Ho2. subst off.
    destruct Hc as [[-> ->]|[-> ->]]; cbn [Z.eqb Pos.eqb]; [done|]. rewrite slen_sdrop. pose proof (p_off _ _ _ Hs). lia.
Qed.

(** An origin that serves the blob on every attempt, in full on one of the first [n]; and
    one that never starts the blob over when it is asked for a part. *)
Definition serves (blob v : string) (n : nat) (server : nat → nat → string → response) : Prop :=
  (∀ a off w, off < slen blob → honest blob v off (server a off w)) ∧
  ∃ a, a < n ∧ ∀ off w, off < slen blob → complete blob off (server a off w).
Definition honours_range (server : nat → nat → string → response) : Prop :=
  ∀ a off w, 0 < off → restarts (server a off w) = false.
Lemma pull_loop_fine blob v n attempt canceled server last s : 0 < slen blob → prefixed blob v s →
  (∀ a, canceled a = false) → serves blob v n (λ a, server (attempt + a)) →
  ∃ s' l, pull_loop n attempt (slen blob) canceled server last s = (Ok tt, s') ∧ prefixed blob v s' ∧
    s_off s' = slen blob ∧ s_asked s' = s_asked s ++ l ∧
    (honours_range server → Forall (λ a, s_off s ≤ a.1) l).
Proof.
  intros Hsz Hs Hc. revert attempt last s Hs. induction n as [|n IH]; intros attempt last s Hs [Hh (a & Ha & Hcm)]; [lia|].
  cbn [pull_loop]. unfold mbind at 1, spm_bind at 1, get at 1. destruct (Nat.ltb_spec 0 (slen blob)); [|lia]. cbn [andb].
  destruct (Nat.eqb_spec (s_off s) (slen blob)) as [He|He].
  { exists s, []. by rewrite app_nil_r. }
  rewrite Hc, andb_false_r. pose proof (p_off _ _ _ Hs) as Hle. specialize (Hh 0) as Hh0.  rewrite Nat.add_0_r in Hh0.
  destruct (pull_fine blob v (server attempt) s Hsz Hs) as (res & s1 & E & Hs1 & Ho & [w Hw] & Hres & Hok); [apply Hh0; lia|].
  rewrite E. destruct res as [[]|e].
  { exists s1, [(s_off s, w)]. split_and!; [done..|by eapply pull_done|done|by repeat constructor]. }
  destruct Hres as [[=]|(? & [= <-] & ->)].
  destruct a as [|a]; [rewrite Nat.add_0_r in Hcm; discriminate Hok; apply Hcm; lia|].
  destruct (IH (S attempt) (Some e) s1 Hs1) as (s' & l & E' & Hs' & Ho' & Hl & Hf).
  { split; [intros a' off w' ?; specialize (Hh (S a') off w'); rewrite Nat.add_succ_r in Hh; by apply Hh|].
    exists a. split; [lia|]. intros off w' ?. specialize (Hcm off w'). rewrite Nat.add_succ_r in Hcm. by apply Hcm. }
  exists s', ((s_off s, w) :: l). split_and!; [done..|by rewrite Hl, Hw, <-app_assoc|]. intros Hr. constructor; [done|].
  assert (s_off s ≤ s_off s1) as Hmono.
  { apply Ho. destruct (decide (s_off s = 0)); [by right|left]. apply Hr. lia. }
  eapply Forall_impl; [exact (Hf Hr)|]. cbn; intros ? ?; lia.
Qed.

Lemma openSpool_fine data off v : off ≤ slen data →
  openSpool (spool_on_disk data (Some (Z.of_nat off, v)) []) =
    (Ok tt, mkSpool (stake off data) (Some (Z.of_nat off, v)) off v "" (0 <? Z.of_nat off)%Z [] []).
Proof.
  intros Hle. cbv [openSpool mbind spm_bind mret spm_ret disk next_disk get spool_on_disk s_faults s_data s_side].
  destruct (Z.ltb_spec (Z.of_nat (slen data)) (Z.of_nat off)); [lia|].
  destruct (Z.ltb_spec (Z.of_nat off) (Z.of_nat (slen data))).
  - destruct (Z.ltb_spec (Z.of_nat off) 0); [lia|]. unfold upd, set_off, set_data. by rewrite !Nat2Z.id.
  - unfold upd, set_off. rewrite Nat2Z.id, stake_all by lia. done.
Qed.
Lemma openSpool_none data : openSpool (spool_on_disk data None []) = (Ok tt, mkSpool (stake 0 data) None 0 "" "" false [] []).
Proof.
  cbv [openSpool mbind spm_bind mret spm_ret disk next_disk get spool_on_disk s_faults s_data s_side].
  destruct (Z.ltb_spec (Z.of_nat (slen data)) 0); [lia|]. destruct (Z.ltb_spec 0 (Z.of_nat (slen data))); [done|].
  assert (slen data = 0) by lia. by destruct data.
Qed.
(** Up to the first request, and from the last answer. *)
Lemma Open_fine blob v off side w r canceled server s : off ≤ slen blob → w = "" ∨ w = v → hash_ok blob = true →
  openSpool s = (Ok tt, mkSpool (stake off blob) side off w "" r [] []) →
  ∃ s1, prefixed blob v s1 ∧ s_off s1 = off ∧ s_asked s1 = [] ∧ s_side s1 = side ∧
    ∀ s2, pull_loop attempts 0 (slen blob) canceled server None s1 = (Ok tt, s2) → prefixed blob v s2 →
      s_off s2 = slen blob → Open (slen blob) None canceled server s = (Ok blob, s2).
Proof.
  intros Hle Hw Hh E0. assert (slen (stake off blob) = off) as Hl by by apply slen_stake_le'.
  set (s0 := mkSpool _ _ _ _ _ _ _ _) in E0.
  assert (∃ s1, rehash s0 = (Ok tt, s1) ∧ prefixed blob v s1 ∧ s_off s1 = off ∧ s_asked s1 = [] ∧ s_side s1 = side)
    as (s1 & E & Hs1 & Ho & Ha & Hsd).
  { unfold rehash, mbind, spm_bind, get. destruct (Nat.eqb_spec (s_off s0) 0) as [Hz|Hz].
    - eexists. split; [done|]. cbn in Hz. subst off. split; [|done]. split; cbn; [done|by destruct blob|by destruct blob|lia|done].
    - rewrite disk_fine by done. eexists. split; [done|]. split; [|done].
      split; cbn; [done| | |done|done]; by rewrite (stake_all off (stake off blob)) by lia. }
  exists s1. split_and!; [done..|]. intros s2 El Hs2 Ho2. unfold Open. unfold mbind at 1, spm_bind at 1. rewrite E0.
  unfold mbind at 1 2 3, spm_bind at 1 2 3. cbn [mret spm_ret get s_off s0]. destruct (Nat.ltb_spec (slen blob) off); [lia|].
  unfold mbind at 1 2, spm_bind at 1 2. unfold mret, spm_ret. rewrite E, El.
  unfold mbind, spm_bind, get. destruct Hs2 as [_ Hh2 Hd2 _ _]. rewrite Ho2, stake_all in Hh2 by done.
  unfold verified. rewrite Ho2, Hh2, Hh, Nat.eqb_refl. cbn. by rewrite Hd2, Hh2.
Qed.
Lemma openSpool_prefix blob off junk w : off ≤ slen blob →
  openSpool (spool_on_disk (stake off blob +:+ junk) (Some (Z.of_nat off, w)) []) =
    (Ok tt, mkSpool (stake off blob) (Some (Z.of_nat off, w)) off w "" (0 <? Z.of_nat off)%Z [] []).
Proof.
  intros Hle. assert (slen (stake off blob) = off) as Hl by by apply slen_stake_le'.
  rewrite openSpool_fine by (rewrite slen_app; lia). rewrite <-Hl at 1. by rewrite stake_app_length.
Qed.

(** C38: a download that resumes. Take a blob that is not empty and hashes to the digest
    asked for; a spool whose recorded bytes are a prefix of it, whatever tail a crash left
    behind them, recorded under the origin's validator or none, on a state directory whose
    calls do not fail; a request that is not cancelled and a client that could be built;
    and an origin whose every answer is no response, a status worth another attempt, a
    part of what was asked for (206), or a part of the whole blob (200, when it ignores
    the range), under one validator, and which on one of the three attempts delivers all.
    Then [Open] hands over exactly the blob. If moreover the origin never answers a
    request for a later offset with the whole blob, [Open] never asks again for a byte
    before the recorded offset; an origin that ignores the range makes it start over. *)
Theorem Open_resumes blob v off junk w canceled server : 0 < slen blob → off ≤ slen blob → w = "" ∨ w = v →
  hash_ok blob = true → (∀ a, canceled a = false) → serves blob v attempts server →
  ∃ s', Open (slen blob) None canceled server (spool_on_disk (stake off blob +:+ junk) (Some (Z.of_nat off, w)) []) = (Ok blob, s') ∧
    (honours_range server → Forall (λ a, off ≤ a.1) (s_asked s')).
Proof.
  intros Hsz Hle Hw Hh Hc Hsv.
  destruct (Open_fine blob v off _ w _ canceled server _ Hle Hw Hh (openSpool_prefix blob off junk w Hle)) as (s1 & Hs1 & Ho & Ha & _ & Hend).
  destruct (pull_loop_fine blob v attempts 0 canceled server None s1 Hsz Hs1 Hc Hsv) as (s2 & l & El & Hs2 & Ho2 & Hl2 & Hf2).
  exists s2. split; [by apply Hend|]. intros Hr. rewrite Hl2, Ha. specialize (Hf2 Hr). by rewrite Ho in Hf2.
Qed.
Lemma Open_offline blob junk w canceled server : 0 < slen blob → hash_ok blob = true →
  ∃ s', Open (slen blob) None canceled server (spool_on_disk (blob +:+ junk) (Some (Z.of_nat (slen blob), w)) []) = (Ok blob, s') ∧
    s_data s' = blob ∧ s_side s' = Some (Z.of_nat (slen blob), w) ∧ s_asked s' = [].
Proof.
  intros Hsz Hh. pose proof (openSpool_prefix blob (slen blob) junk w (le_n _)) as E.
  rewrite (stake_all (slen blob) blob) in E at 1 by done.
  destruct (Open_fine blob w (slen blob) _ w _ canceled server _ (le_n _) (or_intror eq_refl) Hh E) as (s1 & Hs1 & Ho & Ha & Hs & Hend).
  exists s1. split; [|split_and!; [|done..]].
  - apply Hend; [|done..]. unfold attempts. cbn [pull_loop]. unfold mbind, spm_bind, get. rewrite Ho, Nat.eqb_refl.
    by destruct (Nat.ltb_spec 0 (slen blob)); [|lia].
  - by rewrite (p_data _ _ _ Hs1), (p_hashed _ _ _ Hs1), Ho, stake_all.
Qed.
(** A verified download offered again. The reader of a complete spool abandoned before
    its end keeps the spool, and the next [Open] hands the blob over without one request,
    whatever the origin would answer. *)
Theorem Open_again blob junk w canceled canceled' server server' :
  0 < slen blob → hash_ok blob = true →
  ∃ s1 s2 s3, Open (slen blob) None canceled server (spool_on_disk (blob +:+ junk) (Some (Z.of_nat (slen blob), w)) []) = (Ok blob, s1) ∧
    close_reader false s1 = (Ok tt, s2) ∧
    Open (slen blob) None canceled' server' (spool_on_disk (s_data s2) (s_side s2) []) = (Ok blob, s3) ∧
    s_asked s1 = [] ∧ s_asked s3 = [].
Proof.
  intros Hsz Hh.
  destruct (Open_offline blob junk w canceled server Hsz Hh) as (s1 & E1 & Hd & Hs & Ha).
  destruct (Open_offline blob "" w canceled' server' Hsz Hh) as (s3 & E3 & _ & _ & Ha3). rewrite sapp_nil_r in E3.
  exists s1, s1, s3. by rewrite Hd, Hs.
Qed.

(** * Starting over *)

(** A failure of the code [c]. *)
Definition code_is (c : Code) (e : fetch_error) : bool :=
  match e with FTax te _ => bool_decide (te_code te = c) | FCtx => false end.
(** On an undisturbed state directory, which stays so, a routine fails with another code. *)
Definition tame {A} (m : spm A) : Prop := ∀ s, s_faults s = [] →
  s_faults (m s).2 = [] ∧ match (m s).1 with Err e => code_is CodeDigestMismatch e = false | Ok _ => True end.
Lemma tame_bind {A B} (m : spm A) (f : A → spm B) : tame m → (∀ a, tame (f a)) → tame (m ≫= f).
Proof.
  intros Hm Hf s Hs. unfold mbind, spm_bind. destruct (Hm s Hs) as [Hs1 He]. destruct (m s) as [[a|e] s1]; [by apply Hf|done].
Qed.
Lemma tame_ret {A} (a : A) : tame (mret a).
Proof. by intros s. Qed.
Lemma tame_fail {A} e : code_is CodeDigestMismatch e = false → tame (spm_fail e : spm A).
Proof. by intros ? s. Qed.
Lemma tame_get {A} (f : Spool → A) : tame (get f).
Proof. by intros s. Qed.
Lemma tame_next_disk : tame next_disk.
Proof. intros s Hs. unfold next_disk. by rewrite Hs. Qed.
Lemma tame_disk path : tame (disk path).
Proof. intros s Hs. by rewrite disk_fine. Qed.
Ltac tame_step :=
  match goal with
  | |- tame (mbind _ _) => apply tame_bind; [|intros]
  | |- tame (mret _) => apply tame_ret
  | |- tame (get _) => apply tame_get
  | |- tame (spm_fail _) => apply tame_fail; done
  | |- tame (disk _) => apply tame_disk
  | |- tame next_disk => apply tame_next_disk
  | |- tame (upd _) => by intros ?
  | |- tame (if ?b then _ else _) => destruct b
  | |- tame (match ?x with _ => _ end) => destruct x
  end.
Lemma tame_checkpoint : tame checkpoint.
Proof. unfold checkpoint. repeat tame_step. Qed.
Lemma tame_reset : tame reset.
Proof. unfold reset. repeat tame_step. apply tame_checkpoint. Qed.
Lemma tame_openSpool : tame openSpool.
Proof. unfold openSpool. repeat tame_step. Qed.
Lemma tame_rehash : tame rehash.
Proof. unfold rehash. repeat tame_step. Qed.
Lemma tame_append chunks fin : tame (append chunks fin).
Proof.
  unfold append. tame_step; [by intros ?|]. generalize 0%Z. induction chunks as [|c chunks IH]; intros since; cbn [append_body].
  - repeat tame_step; [apply tame_checkpoint..|]. intros s Hs. split; [|done]. by apply tame_checkpoint.
  - unfold write_chunk. repeat tame_step; [apply tame_checkpoint|apply IH..].
Qed.
Lemma tame_pull size server : tame (pull size server).
Proof.
  unfold pull, check_partial. tame_step; [tame_step|]. tame_step; [by intros ?|]. tame_step; [by apply tame_fail; unfold mapTransportErr; case_match|].
  tame_step; [repeat tame_step; try apply tame_reset; apply tame_fail; unfold mapStatus; by repeat case_match|].
  tame_step; [repeat tame_step|]. tame_step; [|repeat tame_step].
  intros s Hs. pose proof (tame_append chunks fin s Hs) as [Hs1 He]. destruct (append chunks fin s) as [r s1]. by destruct stalled.
Qed.
Lemma tame_pull_loop n attempt size canceled server last :
  (∀ e, last = Some e → code_is CodeDigestMismatch e = false) → tame (pull_loop n attempt size canceled server last).
Proof.
  revert attempt last. induction n as [|n IH]; intros attempt last Hl; cbn [pull_loop].
  { destruct last; [by apply tame_fail, Hl|apply tame_ret]. }
  tame_step; [tame_step|]. tame_step; [tame_step|]. tame_step; [by apply tame_fail|].
  intros s Hs. pose proof (tame_pull size (server attempt) s Hs) as [Hs1 He].
  destruct (pull size (server attempt) s) as [[[]|e] s1]; [done|]. destruct (retryable e); [|done]. apply IH; [|done]. by intros ? [= <-].
Qed.

(** Content that does not hash to the digest is not resumed into the same mismatch. After
    [Open] answered a digest mismatch nothing is left of the spool, and against an origin
    that serves the blob the next [Open] hands it over. *)
Theorem mismatch_heals blob v data side size canceled canceled' server server' e s :
  Open size None canceled server (spool_on_disk data side []) = (Err e, s) → code_is CodeDigestMismatch e = true →
  0 < slen blob → hash_ok blob = true → (∀ a, canceled' a = false) → serves blob v attempts server' →
  s_data s = "" ∧ s_side s = None ∧
  ∃ s', Open (slen blob) None canceled' server' (spool_on_disk (s_data s) (s_side s) []) = (Ok blob, s').
Proof.
  intros E He Hsz Hh Hc Hsv. assert (s_data s = "" ∧ s_side s = None) as [-> ->].
  { assert (∀ A B (m : spm A) (f : A → spm B) s0, tame m → s_faults s0 = [] → (m ≫= f) s0 = (Err e, s) →
      ∃ a s1, m s0 = (Ok a, s1) ∧ s_faults s1 = [] ∧ f a s1 = (Err e, s)) as step.
    { intros A B m f s0 Hm Hs0. unfold mbind, spm_bind. destruct (Hm s0 Hs0) as [Hs1 He1].
      destruct (m s0) as [[a|e1] s1]; [eauto|]. cbn in He1. intros [= -> ->]. congruence. }
    apply step in E as (? & s1 & _ & Hs1 & E); [|apply tame_openSpool|done].
    apply step in E as (? & s2 & _ & Hs2 & E); [|apply tame_ret|done].
    apply step in E as (? & s3 & _ & Hs3 & E); [|apply tame_get|done].
    apply step in E as (? & s4 & _ & Hs4 & E); [|destruct (_ <? _)%nat; [apply tame_reset|apply tame_ret]|done].
    apply step in E as (? & s5 & _ & Hs5 & E); [|apply tame_rehash|done].
    apply step in E as (? & s6 & _ & Hs6 & E); [|by apply tame_pull_loop|done].
    unfold mbind, spm_bind, get in E. destruct (negb _); [|done]. unfold discard, mbind, spm_bind, next_disk in E. rewrite Hs6 in E.
    cbn in E. rewrite Hs6 in E. by injection E as _ <-. }
  split_and!; [done..|].
  destruct (Open_fine blob v 0 None "" false canceled' server' (spool_on_disk "" None [])) as (s1 & Hs1 & Ho & Ha & _ & Hend);
    [lia|by left|done|rewrite openSpool_none; by destruct blob|].
  destruct (pull_loop_fine blob v attempts 0 canceled' server' None s1 Hsz Hs1 Hc Hsv) as (s2 & l & El & Hs2 & Ho2 & _).
  exists s2. by apply Hend.
Qed.
(** A sidecar that records a negative offset is not one to start over from: every [Open]
    fails on the truncation and leaves the state directory as it found it. *)
Theorem negative_offset_stuck data n v size client canceled server : (n < 0)%Z →
  ∃ s', Open size client canceled server (spool_on_disk data (Some (n, v)) []) =
      (Err (spoolErr partPath ("truncate " +:+ partPath +:+ ": invalid argument")), s') ∧
    spool_on_disk (s_data s') (s_side s') [] = spool_on_disk data (Some (n, v)) [].
Proof.
  intros Hn. eexists. split; [|shelve]. unfold Open. unfold mbind at 1, spm_bind at 1.
  cbv [openSpool mbind spm_bind mret spm_ret disk next_disk get spool_on_disk s_faults s_data s_side].
  destruct (Z.ltb_spec (Z.of_nat (slen data)) n); [lia|]. destruct (Z.ltb_spec n (Z.of_nat (slen data))); [|lia].
  destruct (Z.ltb_spec n 0); [|lia]. reflexivity. Unshelve. done.
Qed.
End fetch.

(** * Witnesses *)

Definition demo_blob : string := "hello world".
Definition demo_hash (s : string) : bool := String.eqb s demo_blob.
(** An origin whose first answer is cut after five bytes. *)
Definition demo_answer (a off : nat) : response :=
  let missing := sdrop off demo_blob in
  let range := "bytes " +:+ pretty off +:+ "-10/11" in
  let status := if (off =? 0)%nat then 200%Z else 206%Z in
  if (a =? 0)%nat then Resp status range "v1" [stake 5 missing] (BodyErr false) false
  else Resp status range "v1" [missing] BodyEOF false.
Definition demo_server (a off : nat) (w : string) : response := demo_answer a off.
Abbreviation demo_open size := (Open demo_hash id "/p/sha256" "/p/sha256/h.part" "/p/sha256/h.json" "reg.io"
  "https://reg.io/v2/app/blobs/sha256:h" "reg.io/app" "sha256:h" size None (λ _, false)).
Lemma demo_serves : serves "reg.io" "https://reg.io/v2/app/blobs/sha256:h" demo_blob "v1" attempts demo_server.
Proof.
  split.
  - intros a off w Hoff. unfold demo_server, demo_answer. destruct (a =? 0)%nat; cbn in Hoff.
    + do 11 (destruct off as [|off]; [vm_compute; right; split; [auto|split; [done|split; [by right|by eexists]]]|]). lia.
    + do 11 (destruct off as [|off]; [vm_compute; right; split; [auto|split; [done|split; [by left|by eexists]]]|]). lia.
  - exists 1. split; [unfold attempts; lia|]. intros off w _. unfold demo_server, demo_answer. eexists _, _, _, _. split; [done|].
    destruct off as [|off]; [left|right]; by split.
Qed.
Lemma demo_honours : honours_range demo_server.
Proof. intros a [|off] w Hoff; [lia|]. unfold demo_server, demo_answer. by destruct (a =? 0)%nat. Qed.
Lemma Open_integrity_witness : ∃ s', demo_open 11 demo_server (spool_on_disk "heJUNK" (Some (2%Z, "v1")) []) = (Ok demo_blob, s') ∧
  ∃ blob rest, demo_blob = blob +:+ rest ∧ slen blob = 11 ∧ demo_hash blob = true ∧ rest = "".
Proof.
  eexists. split; [vm_compute; reflexivity|].
  destruct (Open_integrity demo_hash id "/p/sha256" "/p/sha256/h.part" "/p/sha256/h.json" "reg.io"
    "https://reg.io/v2/app/blobs/sha256:h" "reg.io/app" "sha256:h" 11 None (λ _, false) demo_server
    (spool_on_disk "heJUNK" (Some (2%Z, "v1")) []) demo_blob
    (demo_open 11 demo_server (spool_on_disk "heJUNK" (Some (2%Z, "v1")) [])).2) as (b & r & Hb & Hl & Hh & Hr).
  - lia.
  - vm_compute. reflexivity.
  - exists b, r. split_and!; [exact Hb|exact Hl|exact Hh|]. apply Hr. constructor.
Defined.
Lemma Open_resumes_witness : ∃ s', demo_open 11 demo_server (spool_on_disk "heJUNK" (Some (2%Z, "v1")) []) = (Ok demo_blob, s') ∧
  Forall (λ a, 2 ≤ a.1) (s_asked s').
Proof.
  destruct (Open_resumes demo_hash id "/p/sha256" "/p/sha256/h.part" "/p/sha256/h.json" "reg.io"
    "https://reg.io/v2/app/blobs/sha256:h" "reg.io/app" "sha256:h" demo_blob "v1" 2 "JUNK" "v1" (λ _, false) demo_server)
    as (s' & Ho & Hr).
  - cbn. lia.
  - cbn. lia.
  - right. reflexivity.
  - reflexivity.
  - intros a. reflexivity.
  - exact demo_serves.
  - exists s'. split; [exact Ho|exact (Hr demo_honours)].
Defined.
(** An origin that ignores the range, cut once: the blob arrives, asked for from the
    recorded byte and then from an earlier one. *)
Example range_ignored_starts_over :
  let server a off (w : string) := Resp 200 "" "v1" [if (a =? 0)%nat then "h" else demo_blob] (if (a =? 0)%nat then BodyErr false else BodyEOF) false in
  let '(r, s) := demo_open 11 server (spool_on_disk "hello" (Some (5%Z, "v1")) []) in
  r = Ok demo_blob ∧ (s_asked s).*1 = [5; 1].
Proof. vm_compute. split; reflexivity. Qed.
Lemma Open_again_witness :
  ∃ s1 s2 s3, demo_open 11 (λ _ _ _, NoResponse true false) (spool_on_disk "hello world..." (Some (11%Z, "v1")) []) = (Ok demo_blob, s1) ∧
    close_reader false s1 = (Ok tt, s2) ∧
    demo_open 11 (λ _ _ _, NoResponse true false) (spool_on_disk (s_data s2) (s_side s2) []) = (Ok demo_blob, s3) ∧
    s_asked s1 = [] ∧ s_asked s3 = [].
Proof.
  apply (Open_again demo_hash id "/p/sha256" "/p/sha256/h.part" "/p/sha256/h.json" "reg.io"
    "https://reg.io/v2/app/blobs/sha256:h" "reg.io/app" "sha256:h" demo_blob "..." "v1" (λ _, false) (λ _, false)).
  - cbn. lia.
  - reflexivity.
Defined.
(** A spool of other bytes, complete and wrong. *)
Definition bad_run := demo_open 11 demo_server (spool_on_disk "hEllo world" (Some (11%Z, "v0")) []).
Lemma mismatch_heals_witness :
  s_data bad_run.2 = "" ∧ s_side bad_run.2 = None ∧
  ∃ s', demo_open 11 demo_server (spool_on_disk (s_data bad_run.2) (s_side bad_run.2) []) = (Ok demo_blob, s').
Proof.
  destruct bad_run as [[x|e] s] eqn:E; [vm_compute in E; discriminate E|].
  apply (mismatch_heals demo_hash id "/p/sha256" "/p/sha256/h.part" "/p/sha256/h.json" "reg.io"
    "https://reg.io/v2/app/blobs/sha256:h" "reg.io/app" "sha256:h" demo_blob "v1" "hEllo world" (Some (11%Z, "v0")) 11
    (λ _, false) (λ _, false) demo_server demo_server e s).
  - exact E.
  - vm_compute in E. injection E as <- _. vm_compute. reflexivity.
  - cbn. lia.
  - reflexivity.
  - intros a. reflexivity.
  - exact demo_serves.
Defined.
