(* ===== verification/FilePaths.v ===== *)
(** The names of the file service (internal/fileserve): what a tar entry, a
    link target, a FileSet name and a packed version may look like.  The
    validators of extract.go and pack.go sit side by side here, because the
    package promises that the two directions apply one rule; the lemmas at the
    end read every accepted path as a list of ordinary path elements. *)

From S2P Require Import Prelude GoStrings Relocate MediaPaths.

(** * [path.Dir] and [path.Join] *)

Definition path_dir (p : string) : string :=
  path_clean (match last_index_byte "/" p with Some i => stake (S i) p | None => "" end).

(** [path.Join] of two elements: empty elements are dropped, the rest cleaned. *)
Definition path_join (a b : string) : string :=
  if String.eqb a "" then (if String.eqb b "" then "" else path_clean b)
  else path_clean (a +:+ "/" +:+ b).

(** [strings.Count(s, c)] of one byte. *)
Fixpoint count_byte (c : byte) (s : string) : Z :=
  match s with
  | "" => 0
  | String a s => ((if Ascii.eqb a c then 1 else 0) + count_byte c s)%Z
  end.

Definition backslash : byte := "\".
Definition NUL : byte := "000".

(** * Limits (fileserve.go) *)

Record Limits := mkLimits { MaxBytes : Z; MaxFiles : Z; MaxDepth : Z }.

Definition DefaultMaxBytes : Z := Z.shiftl 8 30.
Definition DefaultMaxFiles : Z := 1000000.
Definition DefaultMaxDepth : Z := 64.

(** [Limits.effective]: a field that is zero or negative takes its default. *)
Definition effective (l : Limits) : Limits :=
  mkLimits (if (MaxBytes l <=? 0)%Z then DefaultMaxBytes else MaxBytes l)
           (if (MaxFiles l <=? 0)%Z then DefaultMaxFiles else MaxFiles l)
           (if (MaxDepth l <=? 0)%Z then DefaultMaxDepth else MaxDepth l).

(** * Entry names at extraction (extract.go) *)

Definition whiteoutPrefix : string := ".wh.".
Definition opaqueMarker : string := ".wh..wh..opq".

(** [hasDriveLetter]. *)
Definition hasDriveLetter (name : string) : bool :=
  match name with
  | String c (String d _) => Ascii.eqb d ":" && is_letter c
  | _ => false
  end.

(** One constructor per refusal of [cleanEntryPath]. *)
Inductive entry_error :=
  | EntryEmpty | EntryNUL | EntryBackslash | EntryAbsolute | EntryVolume | EntryDotDot.

#[export] Instance entry_error_eq_dec : EqDecision entry_error.
Proof. solve_decision. Defined.

Definition cleanEntryPath (name : string) : res entry_error string :=
  if String.eqb name "" then Err EntryEmpty
  else if contains_byte name NUL then Err EntryNUL
  else if contains_byte name backslash then Err EntryBackslash
  else if has_prefix name "/" then Err EntryAbsolute
  else if hasDriveLetter name then Err EntryVolume
  else if existsb (String.eqb "..") (split_byte "/" name) then Err EntryDotDot
  else Ok (path_clean name).

(** The whiteout test of [applyEntry] and of [checkEntryName]. *)
Definition is_whiteout (base : string) : bool :=
  String.eqb base opaqueMarker || has_prefix base whiteoutPrefix.

(** The depth both directions count. *)
Definition entry_depth (clean : string) : Z := (count_byte "/" clean + 1)%Z.

(** The lexical test on a link target: [resolved == ".."] or under ["../"]. *)
Definition escapes_root (resolved : string) : bool :=
  String.eqb resolved ".." || has_prefix resolved "../".

(** The two guards of [writeSymlink]. *)
Inductive link_error := LinkAbsolute | LinkEscapes.

#[export] Instance link_error_eq_dec : EqDecision link_error.
Proof. solve_decision. Defined.

Definition checkSymlink (clean linkname : string) : res link_error unit :=
  if String.eqb linkname "" || has_prefix linkname "/" || hasDriveLetter linkname
     || contains_byte linkname backslash
  then Err LinkAbsolute
  else if escapes_root (path_join (path_dir clean) linkname) then Err LinkEscapes
  else Ok tt.

(** * Entry names at packing (pack.go) *)

Record PackRejection := mkRejection { rj_path : string; rj_reason : string; rj_safety : bool }.

#[export] Instance PackRejection_eq_dec : EqDecision PackRejection.
Proof. solve_decision. Defined.

(** A refusal of the §14.5 rules, and one about the shape of the request. *)
Definition unsafe (path reason : string) : PackRejection := mkRejection path reason true.
Definition malformed (reason : string) : PackRejection := mkRejection "" reason false.

(** [PackRejection.Error]. *)
Definition rejection_text (e : PackRejection) : string :=
  if String.eqb (rj_path e) "" then rj_reason e else rj_path e +:+ ": " +:+ rj_reason e.

Definition checkEntryName (name : string) (lim : Limits) : res PackRejection unit :=
  if contains_byte name NUL then Err (unsafe name "contains a NUL byte")
  else if contains_byte name backslash then
    Err (unsafe name "contains a backslash, a path separator on other platforms")
  else if hasDriveLetter name then
    Err (unsafe name "names a volume, which is an absolute path on other platforms")
  else if is_whiteout (path_base name) then
    Err (unsafe name ("uses the " +:+ whiteoutPrefix +:+
      " whiteout prefix reserved by the image layer format"))
  else if (MaxDepth lim <? entry_depth name)%Z then
    Err (unsafe name ("path depth " +:+ pretty (entry_depth name) +:+
      " exceeds the limit of " +:+ pretty (MaxDepth lim)))
  else Ok tt.

(** [checkLinkTarget]; on the platforms where a path is absolute exactly when it
    starts with a slash, [filepath.IsAbs] adds nothing to the first test. *)
Definition checkLinkTarget (name target : string) : res PackRejection unit :=
  if String.eqb target "" then Err (unsafe name "is a symbolic link with an empty target")
  else if contains_byte target NUL then
    Err (unsafe name "is a symbolic link whose target contains a NUL byte")
  else
    let probe := replace_byte backslash "/" target in
    if has_prefix probe "/" || hasDriveLetter probe then
      Err (unsafe name ("is a symbolic link to the absolute path " +:+ target +:+
        ", which points outside the FileSet"))
    else if escapes_root (path_join (path_dir name) probe) then
      Err (unsafe name ("is a symbolic link to " +:+ target +:+ ", which escapes the FileSet root"))
    else if contains_byte target backslash then
      Err (unsafe name ("is a symbolic link whose target contains a backslash, " +:+
        "which is a path separator where this FileSet will be extracted"))
    else Ok tt.

(** * FileSet names and versions *)

Definition PackedHost : string := "localhost".
Definition PackedNamespace : string := "filesets".
Definition AnnotationPacked : string := "dev.tobby.fileset/packed".

Definition PackReference (name : string) : string :=
  PackedHost +:+ "/" +:+ PackedNamespace +:+ "/" +:+ name.

Definition component_alnum (c : byte) : bool := is_lower c || is_digit c.
Definition component_inner (c : byte) : bool :=
  component_alnum c || Ascii.eqb c "." || Ascii.eqb c "_" || Ascii.eqb c "-".

(** The loop of [validPathComponent] over [s[1 .. len(s)-2]], then its last byte. *)
Fixpoint component_rest (s : string) : bool :=
  match s with
  | "" => true
  | String c "" => component_alnum c
  | String c s => component_inner c && component_rest s
  end.

Definition validPathComponent (s : string) : bool :=
  match s with
  | "" => false
  | String c rest => component_alnum c && component_rest rest
  end.

Definition validatePackName (name : string) : res PackRejection unit :=
  if String.eqb name "" then Err (malformed "a FileSet name is required")
  else if (100 <? slen name)%nat then
    Err (malformed "the FileSet name is longer than 100 characters")
  else if negb (validPathComponent name) then
    Err (malformed ("the FileSet name must be lowercase alphanumerics, " +:+
      "optionally separated by a dot, a dash or an underscore"))
  else Ok tt.

Definition version_reason : string :=
  "the version must be alphanumerics, dots, dashes or underscores, " +:+
  "starting with an alphanumeric or an underscore".

(** [validatePackVersion]; the first byte may be neither a dot nor a dash. *)
Definition validatePackVersion (version : string) : res PackRejection unit :=
  if String.eqb version "" then Err (malformed "a version is required")
  else if (128 <? slen version)%nat then
    Err (malformed "the version is longer than 128 characters")
  else match version with
       | "" => Ok tt
       | String c rest =>
           if is_tag_first c && all_bytes is_tag_byte rest then Ok tt
           else Err (malformed version_reason)
       end.

(** * Cache directory names (fileserve.go) *)

Definition dos_devices : list string :=
  ["con"; "prn"; "aux"; "nul";
   "com1"; "com2"; "com3"; "com4"; "com5"; "com6"; "com7"; "com8"; "com9";
   "lpt1"; "lpt2"; "lpt3"; "lpt4"; "lpt5"; "lpt6"; "lpt7"; "lpt8"; "lpt9"].

Definition safe_name_byte (c : byte) : bool :=
  is_lower c || is_digit c || Ascii.eqb c "." || Ascii.eqb c "-".

(** What [strings.Cut(name, ".")] returns first. *)
Definition before_dot (name : string) : string :=
  match cut_byte "." name with Some (b, _) => b | None => name end.

Definition safeNamePattern (name : string) : bool :=
  match first_byte name, last_byte name with
  | Some c, Some d =>
      if Ascii.eqb c "." || Ascii.eqb c "-" || Ascii.eqb d "." then false
      else if negb (all_bytes safe_name_byte name) then false
      else negb (existsb (String.eqb (before_dot name)) dos_devices)
  | _, _ => false
  end.

(** [sanitizeName], over the digest function of the store: the hexadecimal
    encoding of the SHA-256 of the name. *)
Definition sanitizeName (sha256_hex : string → string) (name : string) : string :=
  if (slen name <=? 100)%nat && safeNamePattern name then name
  else "_" +:+ stake 16 (sha256_hex name).

(** [packedPrefix] and [filterVersionTags] (inventory.go). *)
Definition packedPrefix (basePrefix : string) : string :=
  let base := trim_byte "/" basePrefix in
  let prefix := PackedHost +:+ "/" +:+ PackedNamespace +:+ "/" in
  if String.eqb base "" then prefix else base +:+ "/" +:+ prefix.

Definition filterVersionTags (tags : list string) : list string :=
  List.filter (λ t, negb (has_prefix t "sha256-")) tags.

Example clean_1 : cleanEntryPath "./a//b/" = Ok "a/b". Proof. reflexivity. Qed.
Example clean_2 : cleanEntryPath "./" = Ok ".". Proof. reflexivity. Qed.
Example clean_3 : cleanEntryPath "a/../b" = Err EntryDotDot. Proof. reflexivity. Qed.
Example dir_1 : path_dir "a/b/c" = "a/b". Proof. reflexivity. Qed.
Example dir_2 : path_dir "a" = ".". Proof. reflexivity. Qed.
Example join_1 : path_join "." "x" = "x". Proof. reflexivity. Qed.
Example join_2 : path_join "a" "../../x" = "../x". Proof. reflexivity. Qed.
Example link_1 : checkSymlink "d/e/l" "../../x" = Ok tt. Proof. reflexivity. Qed.
Example link_2 : checkSymlink "d/l" "../../x" = Err LinkEscapes. Proof. reflexivity. Qed.
Example safe_1 : safeNamePattern "com1.log" = false. Proof. reflexivity. Qed.
Example safe_2 : safeNamePattern "docs-v1.2" = true. Proof. reflexivity. Qed.

(** * Paths as lists of elements *)

(** An ordinary element: not empty, no special name, no separator. *)
Definition proper_seg (s : string) : Prop := plain_segment s ∧ ¬ in_str "/" s.

#[export] Instance in_str_dec c s : Decision (in_str c s).
Proof.
  destruct (contains_byte s c) eqn:E; [left|right].
  - by apply contains_byte_spec.
  - by apply contains_byte_false.
Defined.
#[export] Instance proper_seg_dec s : Decision (proper_seg s).
Proof. unfold proper_seg. apply _. Defined.

(** The path of a list of elements below a root, ["."] for the root itself. *)
Definition rel_path (l : list string) : string :=
  match l with [] => "." | _ => join "/" l end.

Lemma proper_no_slash l : Forall proper_seg l → Forall (λ w, ¬ in_str "/" w) l.
Proof. intros Hl. eapply Forall_impl; [exact Hl|]. by intros s [_ ?]. Qed.

Lemma split_rel l : Forall proper_seg l → l ≠ [] → split_byte "/" (rel_path l) = l.
Proof. intros Hl Hne. destruct l as [|s l]; [done|]. apply split_join; [done|]. by apply proper_no_slash. Qed.

(** The elements [path.Clean] keeps when there is no [".."]. *)
Definition keeps (s : string) : bool := negb (String.eqb s "" || String.eqb s ".").

Lemma clean_no_dotdot rooted segs stack :
  ".." ∉ segs →
  fold_left (clean_step rooted) segs stack = reverse (List.filter keeps segs) ++ stack.
Proof.
  revert stack. induction segs as [|s segs IH]; intros stack Hd; [done|].
  rewrite not_elem_of_cons in Hd. destruct Hd as [Hs Hd].
  cbn [fold_left List.filter]. rewrite IH by done. unfold clean_step.
  destruct (keeps s) eqn:Hk; unfold keeps in Hk; [apply negb_true_iff in Hk|apply negb_false_iff in Hk];
    rewrite Hk; [|done].
  rewrite (proj2 (String.eqb_neq _ _)) by done. by rewrite reverse_cons, <-app_assoc.
Qed.

Lemma has_prefix_slash p : has_prefix p "/" = true ↔ ∃ segs, split_byte "/" p = "" :: segs ∧ segs ≠ [].
Proof.
  rewrite has_prefix_spec. split.
  - intros [r ->]. cbn. exists (split_byte "/" r). split; [done|]. apply split_byte_nonempty.
  - intros (segs & Hs & Hne). destruct p as [|a p]; cbn in Hs; [injection Hs; congruence|].
    destruct (Ascii.eqb_spec a "/") as [->|]; [by exists p|].
    destruct (split_byte "/" p); discriminate Hs.
Qed.

Lemma keeps_true s : keeps s = true ↔ s ≠ "" ∧ s ≠ ".".
Proof.
  unfold keeps. rewrite negb_true_iff, orb_false_iff, !String.eqb_neq. done.
Qed.

Lemma filter_keeps_proper name :
  ".." ∉ split_byte "/" name → Forall proper_seg (List.filter keeps (split_byte "/" name)).
Proof.
  intros Hd. apply Forall_forall. intros s [Hin Hk%keeps_true]%list_elem_of_In%filter_In.
  apply list_elem_of_In in Hin. repeat split; try tauto.
  - intros ->. done.
  - pose proof (split_byte_no_sep "/" name) as Hns. rewrite Forall_forall in Hns. by apply Hns.
Qed.

Lemma rel_path_join l : Forall proper_seg l →
  (if String.eqb (join "/" l) "" then "." else join "/" l) = rel_path l.
Proof.
  destruct l as [|s l]; [done|]. intros [[[Hs _] _] _]%Forall_cons.
  rewrite (proj2 (String.eqb_neq _ _)); [done|].
  destruct l; cbn; [done|]. destruct s; [done|]. discriminate.
Qed.

(** [path.Clean] on a relative name without [".."]. *)
Lemma path_clean_rel name :
  has_prefix name "/" = false → ".." ∉ split_byte "/" name →
  path_clean name = rel_path (List.filter keeps (split_byte "/" name)).
Proof.
  intros Habs Hd. unfold path_clean. destruct (String.eqb_spec name "") as [->|Hne]; [done|].
  rewrite Habs, clean_no_dotdot, app_nil_r, reverse_involutive by done.
  apply rel_path_join. by apply filter_keeps_proper.
Qed.

Lemma filter_keeps_id l : Forall proper_seg l → List.filter keeps l = l.
Proof.
  induction 1 as [|s l [[H1 [H2 _]] _] _ IH]; [done|]. cbn.
  rewrite (proj2 (keeps_true s)) by done. by f_equal.
Qed.

Lemma proper_no_dotdot l : Forall proper_seg l → ".." ∉ l.
Proof. rewrite Forall_forall. intros Hl Hin. destruct (Hl _ Hin) as [(_ & _ & ?) _]. done. Qed.

Lemma rel_path_relative l : Forall proper_seg l → has_prefix (rel_path l) "/" = false.
Proof.
  intros Hl. destruct l as [|s l]; [done|].
  apply not_true_iff_false. intros (segs & Hs & _)%has_prefix_slash.
  rewrite split_rel in Hs by done. injection Hs as -> _.
  apply Forall_cons in Hl as [[[Hl _] _] _]. done.
Qed.

Lemma path_clean_segs l : Forall proper_seg l → path_clean (rel_path l) = rel_path l.
Proof.
  intros Hl. destruct l as [|s l]; [done|].
  rewrite path_clean_rel; [|by apply rel_path_relative|].
  - rewrite split_rel by done. by rewrite filter_keeps_id.
  - rewrite split_rel by done. by apply proper_no_dotdot.
Qed.

(** A directory entry carries a trailing slash; cleaning drops it. *)
Lemma path_clean_slash l : Forall proper_seg l → l ≠ [] →
  path_clean (rel_path l +:+ "/") = rel_path l.
Proof.
  intros Hl Hne.
  assert (split_byte "/" (rel_path l +:+ "/") = l ++ [""]) as Hsp.
  { rewrite (split_byte_sep "/" (rel_path l) ""), split_rel by done. done. }
  rewrite path_clean_rel.
  - rewrite Hsp, List.filter_app, filter_keeps_id by done. cbn. by rewrite app_nil_r.
  - apply not_true_iff_false. intros (segs & Hs & _)%has_prefix_slash.
    rewrite Hsp in Hs. destruct l as [|s l]; [done|]. injection Hs as -> _.
    apply Forall_cons in Hl as [[[Hl _] _] _]. done.
  - rewrite Hsp, not_elem_of_app. split; [by apply proper_no_dotdot|]. set_solver.
Qed.

(** What [cleanEntryPath] accepts: a list of ordinary elements. *)
Lemma cleanEntryPath_Ok name clean : cleanEntryPath name = Ok clean →
  ∃ l, Forall proper_seg l ∧ clean = rel_path l ∧ l = List.filter keeps (split_byte "/" name) ∧
  ¬ in_str NUL name ∧ ¬ in_str backslash name ∧ has_prefix name "/" = false ∧
  hasDriveLetter name = false ∧ ".." ∉ split_byte "/" name.
Proof.
  unfold cleanEntryPath. intros Hc.
  destruct (String.eqb name "") eqn:?; [done|].
  destruct (contains_byte name NUL) eqn:H1; [done|].
  destruct (contains_byte name backslash) eqn:H2; [done|].
  destruct (has_prefix name "/") eqn:H3; [done|].
  destruct (hasDriveLetter name) eqn:H4; [done|].
  destruct (existsb _ _) eqn:H5; [done|]. injection Hc as <-.
  assert (".." ∉ split_byte "/" name) as Hd.
  { intros Hin. apply not_true_iff_false in H5. apply H5, existsb_exists. exists "..".
    split; [by apply list_elem_of_In|]. done. }
  exists (List.filter keeps (split_byte "/" name)).
  rewrite <-path_clean_rel by done. rewrite <-!contains_byte_false.
  split; [by apply filter_keeps_proper|done].
Qed.

Lemma rel_path_inj l1 l2 : Forall proper_seg l1 → Forall proper_seg l2 →
  rel_path l1 = rel_path l2 → l1 = l2.
Proof.
  assert (∀ l, Forall proper_seg l → l ≠ [] → rel_path l ≠ ".") as Hdot.
  { intros l Hl Hne Heq. pose proof (split_rel l Hl Hne) as Hs. rewrite Heq in Hs. cbn in Hs.
    subst l. apply Forall_cons in Hl as [[(_ & Hl & _) _] _]. done. }
  intros H1 H2 Heq. destruct l1 as [|s1 l1], l2 as [|s2 l2]; [done| | |].
  - exfalso. by apply (Hdot (s2 :: l2)).
  - exfalso. by apply (Hdot (s1 :: l1)).
  - rewrite <-(split_rel (s1 :: l1)), <-(split_rel (s2 :: l2)) by done. by rewrite Heq.
Qed.

Lemma proper_snoc l s : Forall proper_seg (l ++ [s]) ↔ Forall proper_seg l ∧ proper_seg s.
Proof. by rewrite Forall_app, Forall_singleton. Qed.

Lemma join_snoc l s : l ≠ [] → join "/" (l ++ [s]) = join "/" l +:+ "/" +:+ s.
Proof.
  intros Hne. induction l as [|a l IH]; [done|]. destruct l as [|b l]; [done|].
  change (join "/" ((a :: b :: l) ++ [s])) with (a +:+ "/" +:+ join "/" ((b :: l) ++ [s])).
  rewrite IH by done. change (join "/" (a :: b :: l)) with (a +:+ "/" +:+ join "/" (b :: l)).
  by rewrite !sapp_assoc.
Qed.

Lemma last_index_app c a b : ¬ in_str c b → last_index_byte c (a +:+ String c b) = Some (slen a).
Proof.
  intros Hb. assert (last_index_byte c b = None) as Hn.
  { clear a. induction b as [|x b IH]; [done|]. cbn in *. rewrite IH by tauto.
    destruct (Ascii.eqb_spec x c); [|done]. subst. tauto. }
  induction a as [|x a IH]; rewrite ?sapp_nil_l, ?sapp_cons; cbn.
  - by rewrite Hn, Ascii.eqb_refl.
  - by rewrite IH.
Qed.

Lemma last_index_none c s : ¬ in_str c s → last_index_byte c s = None.
Proof.
  induction s as [|x s IH]; [done|]. cbn. intros Hn. rewrite IH by tauto.
  destruct (Ascii.eqb_spec x c); [|done]. subst. tauto.
Qed.

(** [path.Dir] of an ordinary path drops its last element. *)
Lemma path_dir_snoc l s : Forall proper_seg l → proper_seg s →
  path_dir (rel_path (l ++ [s])) = rel_path l.
Proof.
  intros Hl [Hs Hsl]. unfold path_dir. destruct l as [|a l].
  - cbn [app rel_path join]. by rewrite last_index_none.
  - change (rel_path ((a :: l) ++ [s])) with (join "/" ((a :: l) ++ [s])).
    rewrite join_snoc by done. change ("/" +:+ s) with (String "/" s).
    rewrite last_index_app by done.
    change (String "/" s) with (String "/" "" +:+ s). rewrite <-sapp_assoc.
    replace (S (slen (join "/" (a :: l)))) with (slen (join "/" (a :: l) +:+ String "/" ""))
      by (rewrite slen_app; cbn; lia).
    rewrite stake_app_length. by apply (path_clean_slash (a :: l)).
Qed.

Lemma trim_right_keep f s : (∀ c, last_byte s = Some c → f c = false) → trim_right f s = s.
Proof.
  induction s as [|x s IH]; [done|]. intros Hl. cbn. destruct s as [|y s].
  - cbn. by rewrite (Hl x).
  - rewrite IH by (intros c Hc; apply Hl; done). done.
Qed.

Lemma last_byte_app a b : b ≠ "" → last_byte (a +:+ b) = last_byte b.
Proof.
  intros Hb. induction a as [|x a IH]; [done|]. rewrite sapp_cons. cbn.
  destruct (a +:+ b) eqn:E; [|by rewrite IH].
  destruct a; [by destruct b|discriminate].
Qed.

Lemma last_byte_in s c : last_byte s = Some c → in_str c s.
Proof.
  induction s as [|x s IH]; [done|]. cbn. destruct s; [|naive_solver].
  intros [= ->]. by left.
Qed.

(** [path.Base] of an ordinary path is its last element. *)
Lemma path_base_snoc l s : Forall proper_seg l → proper_seg s →
  path_base (rel_path (l ++ [s])) = s.
Proof.
  intros Hl [[Hs Hs'] Hsl].
  assert (rel_path (l ++ [s]) = join "/" (l ++ [s])) as Hrel by (by destruct l).
  assert (last_byte (rel_path (l ++ [s])) = last_byte s) as Hlast.
  { destruct l as [|a l]; [done|]. rewrite Hrel, join_snoc by done.
    rewrite <-sapp_assoc. by apply last_byte_app. }
  assert (trim_right (Ascii.eqb "/") (rel_path (l ++ [s])) = rel_path (l ++ [s])) as Htrim.
  { apply trim_right_keep. intros c Hc. rewrite Hlast in Hc. apply last_byte_in in Hc.
    apply Ascii.eqb_neq. intros <-. done. }
  assert (rel_path (l ++ [s]) ≠ "") as Hne.
  { intros He. rewrite He in Hlast. destruct s as [|c s]; [done|]. cbn in Hlast.
    clear -Hlast. revert c Hlast. induction s as [|d s IH]; intros c H; [done|].
    apply (IH d). exact H. }
  unfold path_base. rewrite (proj2 (String.eqb_neq _ _)) by done.
  rewrite Htrim, (proj2 (String.eqb_neq _ _)) by done.
  rewrite split_rel by (rewrite ?proper_snoc; by destruct l).
  by rewrite last_snoc.
Qed.

Lemma count_byte_app c a b : count_byte c (a +:+ b) = (count_byte c a + count_byte c b)%Z.
Proof. induction a as [|x a IH]; rewrite ?sapp_nil_l, ?sapp_cons; cbn; [done|]. rewrite IH. lia. Qed.

Lemma count_byte_none c s : ¬ in_str c s → count_byte c s = 0%Z.
Proof.
  induction s as [|x s IH]; [done|]. cbn. intros Hn. rewrite IH by tauto.
  destruct (Ascii.eqb_spec x c); [|done]. subst. tauto.
Qed.

(** The depth both directions count is the number of elements. *)
Lemma entry_depth_segs l : Forall proper_seg l → l ≠ [] →
  entry_depth (rel_path l) = Z.of_nat (length l).
Proof.
  intros Hl Hne. unfold entry_depth. induction l as [|s l IH] using rev_ind; [done|].
  apply proper_snoc in Hl as [Hl [_ Hs]]. destruct l as [|a l].
  - cbn [app rel_path join]. rewrite count_byte_none by done. done.
  - change (rel_path ((a :: l) ++ [s])) with (join "/" ((a :: l) ++ [s])).
    rewrite join_snoc, !count_byte_app, (count_byte_none "/" s) by done.
    change (count_byte "/" "/") with 1%Z. rewrite length_app. cbn [length].
    specialize (IH Hl ltac:(done)). cbn [rel_path length] in IH. lia.
Qed.

Lemma path_join_segs l s : Forall proper_seg l → proper_seg s →
  path_join (rel_path l) s = rel_path (l ++ [s]).
Proof.
  intros Hl Hs. unfold path_join.
  assert (path_clean (rel_path l +:+ "/" +:+ s) = rel_path (l ++ [s])) as Hc.
  { destruct l as [|a l].
    - change (rel_path [] +:+ "/" +:+ s) with ("." +:+ String "/" s).
      rewrite path_clean_rel; rewrite ?split_byte_app by (cbn; intuition discriminate).
      + rewrite split_byte_single by apply Hs.
        change (List.filter keeps ["."; s]) with (List.filter keeps [s]).
        by rewrite (filter_keeps_id [s]) by (by apply Forall_singleton).
      + done.
      + rewrite split_byte_single by apply Hs. destruct Hs as [(?&?&?) ?]. set_solver.
    - rewrite <-(join_snoc (a :: l)) by done. apply (path_clean_segs ((a :: l) ++ [s])).
      by apply proper_snoc. }
  destruct (String.eqb_spec (rel_path l) "") as [He|He]; [|done].
  destruct l as [|a l]; [done|]. exfalso.
  pose proof (split_rel (a :: l) Hl ltac:(done)) as Hsp. rewrite He in Hsp. cbn in Hsp.
  injection Hsp as <- <-. apply Forall_cons in Hl as [[[? _] _] _]. done.
Qed.
