(* ===== verification/OsRoot.v ===== *)
(** The directory tree behind one [os.Root] of Go's standard library, as the
    file service uses it: directories, regular files with hard links, symbolic
    links, and the operations of [os.Root] with the resolution rule the package
    relies on — every element is looked up in turn, a symbolic link is expanded
    in place, and a path that would step above the root is an error.

    A location is the list of its elements, innermost first, so that the parent
    of [c :: k] is [k] and the root is [[]].  Resolution gives up after
    [rootMaxSymlinks] links, as [os.Root] does; the further limit the library
    puts on paths with many [".."] (both 255 steps and 8 restarts exceeded) only
    turns more paths into errors and is left out. *)

From S2P Require Import Prelude GoStrings MediaPaths FilePaths.

Inductive node := NDir (perm : Z) | NFile (ino : nat) | NLink (target : string).
Record inode := mkInode { i_perm : Z; i_data : string }.

#[export] Instance node_eq_dec : EqDecision node.
Proof. solve_decision. Defined.
#[export] Instance inode_eq_dec : EqDecision inode.
Proof. solve_decision. Defined.

Record RootFS := mkRoot {
  r_tree : gmap (list string) node;
  r_inodes : gmap nat inode;
  r_next : nat;
}.

#[export] Instance RootFS_eq_dec : EqDecision RootFS.
Proof. solve_decision. Defined.

Inductive os_error :=
  | ENOENT | ENOTDIR | EISDIR | EEXIST | ENOTEMPTY | ELOOP | EACCES | EINVAL | EESCAPE.

#[export] Instance os_error_eq_dec : EqDecision os_error.
Proof. solve_decision. Defined.

(** Whether the process overrides permission bits. *)
Class Privilege := superuser : bool.

Definition rootMaxSymlinks : nat := 8.

Section root.
Context `{Privilege}.

(** The owner's search and read bits. *)
Definition searchable (perm : Z) : bool := superuser || Z.testbit perm 6.
Definition readable (perm : Z) : bool := superuser || Z.testbit perm 8.

Definition can_search (fs : RootFS) (k : list string) : bool :=
  match r_tree fs !! k with Some (NDir m) => searchable m | _ => false end.

(** Resolution from the directory [cur]: the location of the last element.  The
    last element itself is followed when it is a link only if [follow]. *)
Fixpoint walk (fs : RootFS) (follow : bool) (links : nat) :
    list string → list string → res os_error (list string) :=
  fix go (cur todo : list string) {struct todo} :=
    match todo with
    | [] => Ok cur
    | c :: rest =>
        if String.eqb c "" || String.eqb c "." then go cur rest
        else if String.eqb c ".." then
          match cur with [] => Err EESCAPE | _ :: up => go up rest end
        else if negb (can_search fs cur) then Err EACCES
        else
          let expand (t : string) :=
            if has_prefix t "/" then Err EESCAPE
            else match links with
                 | 0 => Err ELOOP
                 | S n => walk fs follow n cur (split_byte "/" t ++ rest)
                 end in
          match r_tree fs !! (c :: cur), rest with
          | Some (NLink t), [] => if follow then expand t else Ok (c :: cur)
          | Some (NLink t), _ => expand t
          | Some (NDir _), _ => go (c :: cur) rest
          | Some (NFile _), [] => Ok (c :: cur)
          | Some (NFile _), _ => Err ENOTDIR
          | None, [] => Ok (c :: cur)
          | None, _ => Err ENOENT
          end
    end.

Definition resolve (fs : RootFS) (follow : bool) (name : string) : res os_error (list string) :=
  walk fs follow rootMaxSymlinks [] (split_byte "/" name).

(** The node a path names. *)
Definition node_at (fs : RootFS) (k : list string) : res os_error node :=
  match r_tree fs !! k with Some n => Ok n | None => Err ENOENT end.

Definition root_Lstat (fs : RootFS) (name : string) : res os_error node :=
  resolve fs false name ≫= node_at fs.
Definition root_Stat (fs : RootFS) (name : string) : res os_error node :=
  resolve fs true name ≫= node_at fs.

Definition with_tree (f : gmap (list string) node → gmap (list string) node) (fs : RootFS) : RootFS :=
  mkRoot (f (r_tree fs)) (r_inodes fs) (r_next fs).

Definition put (k : list string) (n : node) : RootFS → RootFS := with_tree (<[k := n]>).

(** [Root.MkdirAll]: missing directories are created on the way; a link in last
    position is accepted when it leads to a directory. *)
Fixpoint mkdirs (full : list string) (perm : Z) (links : nat) :
    RootFS → list string → list string → res os_error RootFS :=
  fix go (fs : RootFS) (cur todo : list string) {struct todo} :=
    match todo with
    | [] => Ok fs
    | c :: rest =>
        if String.eqb c "" || String.eqb c "." then go fs cur rest
        else if String.eqb c ".." then
          match cur with [] => Err EESCAPE | _ :: up => go fs up rest end
        else if negb (can_search fs cur) then Err EACCES
        else
          match r_tree fs !! (c :: cur) with
          | Some (NDir _) => go fs (c :: cur) rest
          | Some (NFile _) => Err ENOTDIR
          | Some (NLink t) =>
              match rest with
              | [] =>
                  match walk fs true rootMaxSymlinks [] full ≫= node_at fs with
                  | Ok (NDir _) => Ok fs
                  | _ => Err ENOTDIR
                  end
              | _ =>
                  if has_prefix t "/" then Err EESCAPE
                  else match links with
                       | 0 => Err ELOOP
                       | S n => mkdirs full perm n fs cur (split_byte "/" t ++ rest)
                       end
              end
          | None => go (put (c :: cur) (NDir perm) fs) (c :: cur) rest
          end
    end.

Definition root_MkdirAll (name : string) (perm : Z) (fs : RootFS) : res os_error RootFS :=
  mkdirs (split_byte "/" name) perm rootMaxSymlinks fs [] (split_byte "/" name).

(** Everything at or below a location. *)
Definition under (k k' : list string) : Prop := k `suffix_of` k'.
#[export] Instance under_dec k k' : Decision (under k k').
Proof. unfold under. apply _. Defined.

Definition prune (k : list string) : RootFS → RootFS :=
  with_tree (filter (λ kn, ¬ under k kn.1)).

(** [Root.RemoveAll]: a missing path is no error; a link is removed, never
    followed. *)
Definition root_RemoveAll (name : string) (fs : RootFS) : res os_error RootFS :=
  match resolve fs false name with
  | Ok [] => Err EINVAL
  | Ok k => Ok (prune k fs)
  | Err ENOENT => Ok fs
  | Err e => Err e
  end.

(** The names in a directory, in no particular order. *)
Definition children `{GoRuntime} (fs : RootFS) (k : list string) : list string :=
  omap (λ k', match k' with
              | c :: up => if bool_decide (up = k) then Some c else None
              | [] => None
              end) (map_keys (r_tree fs)).

(** [Root.Remove] of one entry. *)
Definition has_children (fs : RootFS) (k : list string) : bool :=
  existsb (λ k', match k' with _ :: up => bool_decide (up = k) | [] => false end)
    (map_to_list (r_tree fs)).*1.

Definition root_Remove (name : string) (fs : RootFS) : res os_error RootFS :=
  k ← resolve fs false name;
  n ← node_at fs k;
  match k with
  | [] => Err EINVAL
  | _ => if has_children fs k then Err ENOTEMPTY else Ok (with_tree (delete k) fs)
  end.

(** [Root.OpenFile] with [O_WRONLY|O_CREATE|O_TRUNC], then the write of [data]:
    a new file, or the truncation of the one the path leads to. *)
Definition root_Create (name : string) (perm : Z) (data : string) (fs : RootFS) : res os_error RootFS :=
  k ← resolve fs true name;
  match r_tree fs !! k with
  | Some (NDir _) => Err EISDIR
  | Some (NLink _) => Err ELOOP
  | Some (NFile i) =>
      Ok (mkRoot (r_tree fs)
        (alter (λ f, mkInode (i_perm f) data) i (r_inodes fs)) (r_next fs))
  | None =>
      Ok (mkRoot (<[k := NFile (r_next fs)]> (r_tree fs))
        (<[r_next fs := mkInode perm data]> (r_inodes fs)) (S (r_next fs)))
  end.

(** [Root.Symlink]: the target is not validated. *)
Definition root_Symlink (target name : string) (fs : RootFS) : res os_error RootFS :=
  if contains_byte target NUL || String.eqb target "" then Err EINVAL else
  k ← resolve fs false name;
  match r_tree fs !! k with
  | Some _ => Err EEXIST
  | None => Ok (put k (NLink target) fs)
  end.

(** [Root.Link]: another name for a regular file. *)
Definition root_Link (old new : string) (fs : RootFS) : res os_error RootFS :=
  ko ← resolve fs false old;
  n ← node_at fs ko;
  k ← resolve fs false new;
  match r_tree fs !! k with
  | Some _ => Err EEXIST
  | None => match n with NDir _ => Err EISDIR | _ => Ok (put k n fs) end
  end.

(** [Root.Chmod] follows a link in last position. *)
Definition root_Chmod (name : string) (perm : Z) (fs : RootFS) : res os_error RootFS :=
  k ← resolve fs true name;
  n ← node_at fs k;
  match n with
  | NDir _ => Ok (put k (NDir perm) fs)
  | NFile i =>
      Ok (mkRoot (r_tree fs)
        (alter (λ f, mkInode perm (i_data f)) i (r_inodes fs)) (r_next fs))
  | NLink _ => Err ELOOP
  end.

(** [Root.Open] for reading: the file's bytes, or a directory. *)
Inductive opened := OpenedDir (k : list string) | OpenedFile (data : string).

Definition root_Open (fs : RootFS) (name : string) : res os_error opened :=
  k ← resolve fs true name;
  n ← node_at fs k;
  match n with
  | NDir m => if readable m then Ok (OpenedDir k) else Err EACCES
  | NFile i =>
      match r_inodes fs !! i with
      | Some f => if readable (i_perm f) then Ok (OpenedFile (i_data f)) else Err EACCES
      | None => Err ENOENT
      end
  | NLink _ => Err ELOOP
  end.

End root.

(** An empty root directory of mode 0o700. *)
Definition empty_root : RootFS := mkRoot {[ [] := NDir 448 ]} ∅ 0.
