(* ===== verification/OsRootFacts.v ===== *)
(** Facts about the [os.Root] tree: its well-formedness, kept by every
    operation, and what the operations do on a straight path, one whose parents
    are all directories the process may search. *)

From S2P Require Import Prelude GoStrings MediaPaths FilePaths OsRoot.

(** * Well-formed trees *)

Record wf_root (fs : RootFS) : Prop := {
  wr_root : ∃ m, r_tree fs !! [] = Some (NDir m);
  wr_parent : ∀ c k, is_Some (r_tree fs !! (c :: k)) → ∃ m, r_tree fs !! k = Some (NDir m);
  wr_name : ∀ c k, is_Some (r_tree fs !! (c :: k)) → proper_seg c;
  wr_inode : ∀ k i, r_tree fs !! k = Some (NFile i) → is_Some (r_inodes fs !! i);
  wr_next : ∀ i, is_Some (r_inodes fs !! i) → i < r_next fs;
}.

Lemma wf_empty_root : wf_root empty_root.
Proof.
  split; cbn.
  - eexists. by rewrite lookup_singleton_eq.
  - intros c k [n Hn]. by rewrite lookup_singleton_ne in Hn.
  - intros c k [n Hn]. by rewrite lookup_singleton_ne in Hn.
  - intros k i Hk. destruct (decide (k = [])) as [->|].
    + by rewrite lookup_singleton_eq in Hk.
    + by rewrite lookup_singleton_ne in Hk.
  - intros i [f Hf]. done.
Qed.

Section facts.
Context `{Privilege}.

Lemma walk_eq fs f n cur todo :
  walk fs f n cur todo =
    match todo with
    | [] => Ok cur
    | c :: rest =>
        if String.eqb c "" || String.eqb c "." then walk fs f n cur rest
        else if String.eqb c ".." then
          match cur with [] => Err EESCAPE | _ :: up => walk fs f n up rest end
        else if negb (can_search fs cur) then Err EACCES
        else
          let expand (t : string) :=
            if has_prefix t "/" then Err EESCAPE
            else match n with
                 | 0 => Err ELOOP
                 | S n => walk fs f n cur (split_byte "/" t ++ rest)
                 end in
          match r_tree fs !! (c :: cur), rest with
          | Some (NLink t), [] => if f then expand t else Ok (c :: cur)
          | Some (NLink t), _ => expand t
          | Some (NDir _), _ => walk fs f n (c :: cur) rest
          | Some (NFile _), [] => Ok (c :: cur)
          | Some (NFile _), _ => Err ENOTDIR
          | None, [] => Ok (c :: cur)
          | None, _ => Err ENOENT
          end
    end.
Proof. destruct n, todo; reflexivity. Qed.

Lemma mkdirs_eq full perm n fs cur todo :
  mkdirs full perm n fs cur todo =
    match todo with
    | [] => Ok fs
    | c :: rest =>
        if String.eqb c "" || String.eqb c "." then mkdirs full perm n fs cur rest
        else if String.eqb c ".." then
          match cur with [] => Err EESCAPE | _ :: up => mkdirs full perm n fs up rest end
        else if negb (can_search fs cur) then Err EACCES
        else
          match r_tree fs !! (c :: cur) with
          | Some (NDir _) => mkdirs full perm n fs (c :: cur) rest
          | Some (NFile _) => Err ENOTDIR
          | Some (NLink t) =>
              match rest with
              | [] =>
                  match walk fs true rootMaxSymlinks [] full ≫= node_at fs with
                  | Ok (NDir _) => Ok fs
                  | _ => Err ENOTDIR
                  end
              | _ =>
                  if has_prefix t "/" then Err EESCAPE
                  else match n with
                       | 0 => Err ELOOP
                       | S n => mkdirs full perm n fs cur (split_byte "/" t ++ rest)
                       end
              end
          | None => mkdirs full perm n (put (c :: cur) (NDir perm) fs) (c :: cur) rest
          end
    end.
Proof. destruct n, todo; reflexivity. Qed.

Definition is_dir (fs : RootFS) (k : list string) : Prop := ∃ m, r_tree fs !! k = Some (NDir m).

Lemma can_search_dir fs k : can_search fs k = true → is_dir fs k.
Proof. unfold can_search. destruct (r_tree fs !! k) as [[]|] eqn:E; try done. eexists; eauto. Qed.

(** A segment that passes the special-name tests of the walk. *)
Lemma special_false c : String.eqb c "" || String.eqb c "." = false → String.eqb c ".." = false →
  plain_segment c.
Proof. rewrite orb_false_iff, !String.eqb_neq. intros [??] ?. done. Qed.

Lemma no_slash_split t rest :
  Forall (λ s, ¬ in_str "/" s) rest → Forall (λ s, ¬ in_str "/" s) (split_byte "/" t ++ rest).
Proof. intros. apply Forall_app. split; [apply split_byte_no_sep|done]. Qed.

(** A location a resolution ends at: a directory, or a proper name in one. *)
Definition dir_at (fs : RootFS) (k : list string) : Prop :=
  is_dir fs k ∨ ∃ c up, k = c :: up ∧ proper_seg c ∧ is_dir fs up.

Lemma walk_located fs f n cur todo k :
  wf_root fs → is_dir fs cur → Forall (λ s, ¬ in_str "/" s) todo →
  walk fs f n cur todo = Ok k →
  dir_at fs k ∧ (f = true → ∀ t, r_tree fs !! k ≠ Some (NLink t)).
Proof.
  intros Hwf. revert cur todo. induction n as [n IHn] using (well_founded_induction lt_wf).
  intros cur todo Hcur Htodo. revert cur Hcur.
  induction Htodo as [|c rest Hc Hrest IH]; intros cur Hcur; rewrite walk_eq.
  { intros [= <-]. split; [by left|]. intros _ t Ht. destruct Hcur as [m Hm]. congruence. }
  destruct (String.eqb c "" || String.eqb c ".") eqn:E1; [by apply IH|].
  destruct (String.eqb c "..") eqn:E2.
  { destruct cur as [|d up]; [done|]. apply IH.
    destruct Hcur as [m Hm]. apply (wr_parent _ Hwf d up). eauto. }
  pose proof (special_false c E1 E2) as Hp.
  destruct (negb (can_search fs cur)); [done|]. cbv zeta.
  assert (∀ t, (if has_prefix t "/" then Err EESCAPE
            else match n with
                 | 0 => Err ELOOP
                 | S n => walk fs f n cur (split_byte "/" t ++ rest)
                 end) = Ok k →
    dir_at fs k ∧ (f = true → ∀ t, r_tree fs !! k ≠ Some (NLink t))) as Hexp.
  { intros t. destruct (has_prefix t "/"); [done|]. destruct n as [|n']; [done|].
    apply IHn; [lia|done|by apply no_slash_split]. }
  assert (dir_at fs (c :: cur)) as Hloc by (right; exists c, cur; done).
  destruct (r_tree fs !! (c :: cur)) as [[m|i|t]|] eqn:Hn.
  - apply IH. by exists m.
  - destruct rest; [|done]. intros [= <-]. split; [done|]. congruence.
  - destruct rest; [destruct f|]; [by apply Hexp| |by apply Hexp].
    intros [= <-]. split; [done|]. done.
  - destruct rest; [|done]. intros [= <-]. split; [done|]. congruence.
Qed.

Lemma resolve_located fs f name k : wf_root fs → resolve fs f name = Ok k →
  dir_at fs k ∧ (f = true → ∀ t, r_tree fs !! k ≠ Some (NLink t)).
Proof. intros Hwf. apply walk_located; [done|apply Hwf|apply split_byte_no_sep]. Qed.

(** * Well-formedness is kept *)

(** A new or replaced node at a dir_at place that is not a directory with
    something in it. *)
Lemma wf_put fs k n :
  wf_root fs → dir_at fs k →
  (∀ i, n = NFile i → is_Some (r_inodes fs !! i)) →
  (is_dir fs k → ∃ m, n = NDir m) →
  wf_root (put k n fs).
Proof.
  intros Hwf Hloc Hin Hdir.
  assert (∀ k', is_dir fs k' → is_dir (put k n fs) k') as Hkeep.
  { intros k' Hk'. unfold is_dir, put; cbn. destruct (decide (k' = k)) as [->|].
    - destruct (Hdir Hk') as [m ->]. exists m. by rewrite lookup_insert_eq.
    - destruct Hk' as [m Hm]. exists m. by rewrite lookup_insert_ne. }
  split; cbn.
  - apply (Hkeep []). apply Hwf.
  - intros c k' Hs. apply Hkeep. destruct (decide (c :: k' = k)) as [<-|Hne].
    + destruct Hloc as [[m Hm]|(c' & up & [= <- <-] & _ & Hup)]; [|done].
      apply (wr_parent _ Hwf c k'). eauto.
    + rewrite lookup_insert_ne in Hs by done. by apply (wr_parent _ Hwf c k').
  - intros c k' Hs. destruct (decide (c :: k' = k)) as [<-|Hne].
    + destruct Hloc as [[m Hm]|(c' & up & [= <- <-] & Hp & _)]; [|done].
      apply (wr_name _ Hwf c k'). eauto.
    + rewrite lookup_insert_ne in Hs by done. by apply (wr_name _ Hwf c k').
  - intros k' i Hk'. destruct (decide (k' = k)) as [->|Hne].
    + rewrite lookup_insert_eq in Hk'. injection Hk' as ->. by apply Hin.
    + rewrite lookup_insert_ne in Hk' by done. by apply (wr_inode _ Hwf k' i).
  - apply Hwf.
Qed.

Lemma wf_prune fs c up : wf_root fs → wf_root (prune (c :: up) fs).
Proof.
  intros Hwf. unfold prune, with_tree. split; cbn.
  - destruct (wr_root _ Hwf) as [m Hm]. exists m. apply map_lookup_filter_Some. split; [done|].
    cbn. intros Hs%suffix_length. cbn in Hs. lia.
  - intros d k [n [Hn Hu]%map_lookup_filter_Some]. cbn in Hu.
    destruct (wr_parent _ Hwf d k ltac:(eauto)) as [m Hm]. exists m.
    apply map_lookup_filter_Some. split; [done|]. cbn. intros Hs. apply Hu. by apply suffix_cons_r.
  - intros d k [n [Hn _]%map_lookup_filter_Some]. apply (wr_name _ Hwf d k). eauto.
  - intros k i [Hk _]%map_lookup_filter_Some. by apply (wr_inode _ Hwf k i).
  - apply Hwf.
Qed.

Lemma has_children_false fs k c : has_children fs k = false → r_tree fs !! (c :: k) = None.
Proof.
  intros Hf. apply eq_None_not_Some. intros [n Hn]. apply not_true_iff_false in Hf. apply Hf.
  unfold has_children. apply existsb_exists. exists (c :: k). split.
  - apply list_elem_of_In, list_elem_of_fmap. exists (c :: k, n). split; [done|].
    by apply elem_of_map_to_list.
  - by apply bool_decide_eq_true.
Qed.

Lemma wf_delete fs c up : wf_root fs → has_children fs (c :: up) = false →
  wf_root (with_tree (delete (c :: up)) fs).
Proof.
  intros Hwf Hch. split; cbn.
  - destruct (wr_root _ Hwf) as [m Hm]. exists m. by rewrite lookup_delete_ne.
  - intros d k [n [Hne Hn]%lookup_delete_Some].
    destruct (wr_parent _ Hwf d k ltac:(eauto)) as [m Hm]. exists m.
    rewrite lookup_delete_ne; [done|]. intros <-. by rewrite (has_children_false _ _ d Hch) in Hn.
  - intros d k [n [_ Hn]%lookup_delete_Some]. apply (wr_name _ Hwf d k). eauto.
  - intros k i [_ Hk]%lookup_delete_Some. by apply (wr_inode _ Hwf k i).
  - apply Hwf.
Qed.

Lemma wf_inodes fs f i : wf_root fs →
  wf_root (mkRoot (r_tree fs) (alter f i (r_inodes fs)) (r_next fs)).
Proof.
  intros [H1 H2 H3 H4 H5]. split; cbn; try done.
  - intros k j Hk. rewrite lookup_alter_is_Some. by apply (H4 k j).
  - intros j Hj%lookup_alter_is_Some. by apply H5.
Qed.

Lemma mkdirs_wf full perm n fs cur todo fs' :
  wf_root fs → is_dir fs cur → Forall (λ s, ¬ in_str "/" s) todo →
  mkdirs full perm n fs cur todo = Ok fs' → wf_root fs'.
Proof.
  revert fs cur todo. induction n as [n IHn] using (well_founded_induction lt_wf).
  intros fs cur todo Hwf Hcur Htodo. revert fs cur Hwf Hcur.
  induction Htodo as [|c rest Hc Hrest IH]; intros fs cur Hwf Hcur; rewrite mkdirs_eq.
  { by intros [= <-]. }
  destruct (String.eqb c "" || String.eqb c ".") eqn:E1; [by apply IH|].
  destruct (String.eqb c "..") eqn:E2.
  { destruct cur as [|d up]; [done|]. apply IH; [done|].
    destruct Hcur as [m Hm]. apply (wr_parent _ Hwf d up). eauto. }
  pose proof (special_false c E1 E2) as Hp.
  destruct (negb (can_search fs cur)); [done|].
  destruct (r_tree fs !! (c :: cur)) as [[m|i|t]|] eqn:Hn.
  - apply IH; [done|]. by exists m.
  - done.
  - destruct rest as [|c' rest'].
    + destruct (_ ≫= node_at fs) as [[]|]; [|done..]. by intros [= <-].
    + destruct (has_prefix t "/"); [done|]. destruct n as [|n']; [done|].
      apply IHn; [lia|done|done|by apply no_slash_split].
  - apply IH.
    + apply wf_put; [done|right; exists c, cur; done|done|]. intros [m Hm]. congruence.
    + exists perm. cbn. by rewrite lookup_insert_eq.
Qed.

Lemma root_MkdirAll_wf name perm fs fs' : wf_root fs → root_MkdirAll name perm fs = Ok fs' → wf_root fs'.
Proof.
  unfold root_MkdirAll. generalize rootMaxSymlinks as n. intros n Hwf Hm.
  refine (mkdirs_wf _ _ _ _ _ _ _ Hwf _ _ Hm); [apply Hwf|apply split_byte_no_sep].
Qed.

Lemma root_RemoveAll_wf name fs fs' : wf_root fs → root_RemoveAll name fs = Ok fs' → wf_root fs'.
Proof.
  intros Hwf. unfold root_RemoveAll. destruct (resolve fs false name) as [[|c up]|[]]; try done.
  - intros [= <-]. by apply wf_prune.
  - by intros [= <-].
Qed.

Lemma root_Remove_wf name fs fs' : wf_root fs → root_Remove name fs = Ok fs' → wf_root fs'.
Proof.
  intros Hwf. unfold root_Remove. intros Hr. inv_ok. destruct x as [|c up]; [done|].
  destruct (has_children fs (c :: up)) eqn:Hch; [done|]. inv_ok. by apply wf_delete.
Qed.

Lemma root_Create_wf name perm data fs fs' :
  wf_root fs → root_Create name perm data fs = Ok fs' → wf_root fs'.
Proof.
  intros Hwf. unfold root_Create. intros Hr. inv_ok.
  destruct (resolve_located _ _ _ _ Hwf ltac:(eassumption)) as [Hloc _].
  destruct (r_tree fs !! x) as [[]|] eqn:Hx; try done; inv_ok; [by apply wf_inodes|].
  assert (wf_root (mkRoot (r_tree fs) (<[r_next fs := mkInode perm data]> (r_inodes fs)) (S (r_next fs)))) as Hwf'.
  { destruct Hwf as [H1 H2 H3 H4 H5]. split; cbn; try done.
    - intros k j Hk. destruct (decide (j = r_next fs)) as [->|].
      + rewrite lookup_insert_eq. eauto.
      + rewrite lookup_insert_ne by done. by apply (H4 k j).
    - intros j Hj. destruct (decide (j = r_next fs)) as [->|]; [lia|].
      rewrite lookup_insert_ne in Hj by done. apply H5 in Hj. lia. }
  apply (wf_put _ x (NFile (r_next fs)) Hwf'); [done| |].
  - intros i [= <-]. cbn. rewrite lookup_insert_eq. eauto.
  - intros [m Hm]. cbn in Hm. congruence.
Qed.

Lemma root_Symlink_wf target name fs fs' :
  wf_root fs → root_Symlink target name fs = Ok fs' → wf_root fs'.
Proof.
  intros Hwf. unfold root_Symlink. destruct (_ || _); [done|]. intros Hr. inv_ok.
  destruct (r_tree fs !! x) eqn:Hx; [done|]. inv_ok.
  apply wf_put; [done|by eapply resolve_located|done|]. intros [m Hm]. congruence.
Qed.

Lemma node_at_Ok fs k n : node_at fs k = Ok n ↔ r_tree fs !! k = Some n.
Proof. unfold node_at. destruct (r_tree fs !! k); naive_solver. Qed.

Lemma root_Link_wf old new fs fs' : wf_root fs → root_Link old new fs = Ok fs' → wf_root fs'.
Proof.
  intros Hwf. unfold root_Link. intros Hr. inv_ok.
  destruct (r_tree fs !! x1) eqn:Hx; [done|].
  assert (fs' = put x1 x0 fs ∧ ∀ m, x0 ≠ NDir m) as [-> Hnd] by (destruct x0; naive_solver).
  apply wf_put; [done|by eapply resolve_located| |].
  - intros i ->. rewrite node_at_Ok in *. by eapply wr_inode.
  - intros [m Hm]. congruence.
Qed.

Lemma root_Chmod_wf name perm fs fs' : wf_root fs → root_Chmod name perm fs = Ok fs' → wf_root fs'.
Proof.
  intros Hwf. unfold root_Chmod. intros Hr. inv_ok. destruct x0; inv_ok.
  - apply wf_put; [done|by eapply resolve_located|done|]. eauto.
  - by apply wf_inodes.
Qed.

(** * Straight paths *)

(** Every directory on the way from [cur] along [l], the last one included, can
    be searched. *)
Definition straight (fs : RootFS) (cur l : list string) : Prop :=
  ∀ p, p `prefix_of` l → can_search fs (reverse p ++ cur) = true.

Lemma straight_cons fs cur c l : straight fs cur (c :: l) ↔
  can_search fs cur = true ∧ straight fs (c :: cur) l.
Proof.
  unfold straight. split.
  - intros Hs. split; [apply (Hs []), prefix_nil|]. intros p Hp.
    specialize (Hs (c :: p) (prefix_cons _ _ _ Hp)). by rewrite reverse_cons, <-app_assoc in Hs.
  - intros [H0 Hs] p Hp. destruct p as [|d p]; [done|].
    apply prefix_cons_inv_1 in Hp as Hd. subst d. apply prefix_cons_inv_2 in Hp.
    rewrite reverse_cons, <-app_assoc. by apply Hs.
Qed.

Lemma straight_nil fs cur : straight fs cur [] ↔ can_search fs cur = true.
Proof.
  unfold straight. split; [intros Hs; apply (Hs [] (prefix_nil _))|].
  by intros Hc p ->%prefix_nil_inv.
Qed.

Lemma proper_tests c : proper_seg c →
  String.eqb c "" || String.eqb c "." = false ∧ String.eqb c ".." = false.
Proof. intros [(?&?&?) _]. rewrite orb_false_iff, !String.eqb_neq. done. Qed.

Lemma walk_skip fs f n cur l todo : Forall proper_seg l → todo ≠ [] → straight fs cur l →
  walk fs f n cur (l ++ todo) = walk fs f n (reverse l ++ cur) todo.
Proof.
  intros Hl Hne. revert cur. induction Hl as [|c l Hc Hl IH]; intros cur Hs; [done|].
  apply straight_cons in Hs as [Hc1 Hs]. destruct (proper_tests c Hc) as [T1 T2].
  cbn [app]. rewrite walk_eq, T1, T2, Hc1. cbn [negb].
  destruct (can_search_dir fs (c :: cur)) as [m Hm].
  { apply (Hs [] (prefix_nil _)). }
  rewrite Hm, IH by done. by rewrite reverse_cons, <-app_assoc.
Qed.

Lemma walk_last fs f n cur c : proper_seg c → can_search fs cur = true →
  (f = true → ∀ t, r_tree fs !! (c :: cur) ≠ Some (NLink t)) →
  walk fs f n cur [c] = Ok (c :: cur).
Proof.
  intros Hc Hs Hl. destruct (proper_tests c Hc) as [T1 T2].
  rewrite walk_eq, T1, T2, Hs. cbn [negb]. destruct (r_tree fs !! (c :: cur)) as [[| |t]|] eqn:E; try done.
  - by rewrite walk_eq.
  - destruct f; [|done]. by destruct (Hl eq_refl t).
Qed.

Lemma resolve_straight fs f l c : Forall proper_seg l → proper_seg c → straight fs [] l →
  (f = true → ∀ t, r_tree fs !! (c :: reverse l) ≠ Some (NLink t)) →
  resolve fs f (rel_path (l ++ [c])) = Ok (c :: reverse l).
Proof.
  intros Hl Hc Hs Hf. unfold resolve.
  rewrite split_rel by (rewrite ?proper_snoc; by destruct l).
  assert (can_search fs (reverse l) = true) as Hlast.
  { specialize (Hs l (reflexivity l)). by rewrite app_nil_r in Hs. }
  rewrite walk_skip, app_nil_r by done. by apply walk_last.
Qed.

Lemma mkdirs_skip full perm n fs cur l todo : Forall proper_seg l → straight fs cur l →
  mkdirs full perm n fs cur (l ++ todo) = mkdirs full perm n fs (reverse l ++ cur) todo.
Proof.
  intros Hl. revert cur. induction Hl as [|c l Hc Hl IH]; intros cur Hs; [done|].
  apply straight_cons in Hs as [Hc1 Hs]. destruct (proper_tests c Hc) as [T1 T2].
  cbn [app]. rewrite mkdirs_eq, T1, T2, Hc1. cbn [negb].
  destruct (can_search_dir fs (c :: cur)) as [m Hm].
  { apply (Hs [] (prefix_nil _)). }
  rewrite Hm, IH by done. by rewrite reverse_cons, <-app_assoc.
Qed.

Lemma root_MkdirAll_exists fs l perm : Forall proper_seg l → l ≠ [] → straight fs [] l →
  root_MkdirAll (rel_path l) perm fs = Ok fs.
Proof.
  intros Hl Hne Hs. unfold root_MkdirAll. rewrite split_rel by done.
  pose proof (mkdirs_skip l perm rootMaxSymlinks fs [] l [] Hl Hs) as Hm.
  rewrite app_nil_r in Hm. rewrite Hm. by rewrite mkdirs_eq.
Qed.

Lemma root_MkdirAll_new fs l c perm : Forall proper_seg l → proper_seg c → straight fs [] l →
  r_tree fs !! (c :: reverse l) = None →
  root_MkdirAll (rel_path (l ++ [c])) perm fs = Ok (put (c :: reverse l) (NDir perm) fs).
Proof.
  intros Hl Hc Hs Hn. unfold root_MkdirAll.
  rewrite split_rel by (rewrite ?proper_snoc; by destruct l).
  rewrite mkdirs_skip, app_nil_r by done. destruct (proper_tests c Hc) as [T1 T2].
  assert (can_search fs (reverse l) = true) as Hlast.
  { specialize (Hs l (reflexivity l)). by rewrite app_nil_r in Hs. }
  rewrite mkdirs_eq, T1, T2, Hlast, Hn. cbn [negb]. by rewrite mkdirs_eq.
Qed.

End facts.

#[export] Hint Resolve root_MkdirAll_wf root_RemoveAll_wf root_Remove_wf root_Create_wf
  root_Symlink_wf root_Link_wf root_Chmod_wf : go.
