(* ===== verification/Extract.v ===== *)
(** Extraction of a FileSet (internal/fileserve/extract.go): the layers of an
    image applied in order to one directory tree, with whiteouts, limits and the
    safety refusals.  The tree is the [os.Root] of OsRoot.v; a tar stream is the
    list of entries [archive/tar] yields, with the way it ends. *)

From S2P Require Import Prelude GoStrings MediaPaths FilePaths OsRoot.

(** * Tar entries *)

Inductive tar_type := TypeReg | TypeDir | TypeSymlink | TypeLink | TypeOther.

(** One entry: its header fields, and its content as the reader yields it.  When
    [te_broken], the stream fails (or the write does) once [te_data] is read. *)
Record tar_entry := mkTar {
  te_type : tar_type;
  te_name : string;
  te_link : string;
  te_mode : Z;
  te_data : string;
  te_broken : bool;
}.

#[export] Instance tar_type_eq_dec : EqDecision tar_type.
Proof. solve_decision. Defined.
#[export] Instance tar_entry_eq_dec : EqDecision tar_entry.
Proof. solve_decision. Defined.

(** [hdr.FileInfo().Mode().Perm()]. *)
Definition te_perm (e : tar_entry) : Z := Z.land (te_mode e) 511.

(** * Errors *)

Inductive unsafe_reason :=
  | BadName (e : entry_error)
  | RootNotDirectory
  | TooDeep
  | TooManyFiles
  | TooManyBytes
  | BadWhiteout
  | BadSymlink (e : link_error)
  | BadHardlinkName (e : entry_error)
  | BadHardlinkTarget.

Inductive ext_error :=
  | Unsafe (reason : unsafe_reason) (path : string)
  | OsFailed (path : string) (e : os_error)
  | CopyFailed (path : string)
  | TarCorrupt
  | ContextDone.

#[export] Instance unsafe_reason_eq_dec : EqDecision unsafe_reason.
Proof. solve_decision. Defined.
#[export] Instance ext_error_eq_dec : EqDecision ext_error.
Proof. solve_decision. Defined.

(** * The extraction state *)

Record extraction := mkExt {
  x_root : RootFS;
  x_limits : Limits;
  x_files : Z;
  x_bytes : Z;
  x_ignored : Z;
  x_dirModes : gmap string Z;
}.

Definition set_root (fs : RootFS) (x : extraction) : extraction :=
  mkExt fs (x_limits x) (x_files x) (x_bytes x) (x_ignored x) (x_dirModes x).
Definition set_counts (files bytes ignored : Z) (x : extraction) : extraction :=
  mkExt (x_root x) (x_limits x) files bytes ignored (x_dirModes x).
Definition set_modes (m : gmap string Z) (x : extraction) : extraction :=
  mkExt (x_root x) (x_limits x) (x_files x) (x_bytes x) (x_ignored x) m.

Section extract.
Context `{GoRuntime, Privilege}.

(** An [os.Root] call on the tree, its error wrapped. *)
Definition on_root (path : string) (f : RootFS → res os_error RootFS) (x : extraction) :
    res ext_error extraction :=
  match f (x_root x) with
  | Ok fs => Ok (set_root fs x)
  | Err e => Err (OsFailed path e)
  end.

(** [dropModesUnder]. *)
Definition mode_under (victim dir : string) : bool :=
  String.eqb dir victim || has_prefix dir (victim +:+ "/").
Definition dropModesUnder (victim : string) (x : extraction) : extraction :=
  set_modes (filter (λ kv, mode_under victim kv.1 = false) (x_dirModes x)) x.

(** [ensureDir]: the directory and its parents, with the default mode recorded
    for every prefix no layer described. *)
Definition mode_0755 : Z := 493.
Definition mode_0700 : Z := 448.
Definition mode_0600 : Z := 384.

Fixpoint record_prefixes (prefix : string) (segs : list string) (m : gmap string Z) : gmap string Z :=
  match segs with
  | [] => m
  | seg :: segs =>
      let prefix := path_join prefix seg in
      record_prefixes prefix segs
        (match m !! prefix with Some _ => m | None => <[prefix := mode_0755]> m end)
  end.

Definition ensureDir (dir : string) (x : extraction) : res ext_error extraction :=
  if String.eqb dir "." then Ok x else
  x ← on_root dir (root_MkdirAll dir mode_0700) x;
  Ok (set_modes (record_prefixes "" (split_byte "/" dir) (x_dirModes x)) x).

Definition ensureParents (clean : string) : extraction → res ext_error extraction :=
  ensureDir (path_dir clean).

(** [replaceExisting]. *)
Definition replaceExisting (clean : string) (isDir : bool) (x : extraction) : res ext_error extraction :=
  match root_Lstat (x_root x) clean with
  | Err ENOENT => Ok x
  | Err e => Err (OsFailed clean e)
  | Ok (NDir _) =>
      if isDir then Ok x else
      x ← on_root clean (root_RemoveAll clean) x;
      Ok (dropModesUnder clean x)
  | Ok _ => on_root clean (root_Remove clean) x
  end.

(** [writeFile]: at most one byte more than the budget is read, so that going
    over the limit is seen. *)
Definition byte_budget (x : extraction) : Z :=
  Z.min (sub64 (MaxBytes (x_limits x)) (x_bytes x)) (int64_max - 1).

Definition writeFile (clean : string) (perm : Z) (e : tar_entry) (x : extraction) :
    res ext_error extraction :=
  x ← replaceExisting clean false x;
  x ← ensureParents clean x;
  let budget := byte_budget x in
  let size := Z.of_nat (slen (te_data e)) in
  let n := Z.min size (budget + 1) in
  x ← on_root clean (root_Create clean mode_0600 (stake (Z.to_nat n) (te_data e))) x;
  let x := set_counts (x_files x) (add64 (x_bytes x) n) (x_ignored x) x in
  if te_broken e && (size <? budget + 1)%Z then Err (CopyFailed clean)
  else if (budget <? n)%Z then Err (Unsafe TooManyBytes clean)
  else on_root clean (root_Chmod clean perm) x.

(** [writeSymlink]. *)
Definition writeSymlink (clean linkname : string) (x : extraction) : res ext_error extraction :=
  match checkSymlink clean linkname with
  | Err e => Err (Unsafe (BadSymlink e) clean)
  | Ok _ =>
      x ← replaceExisting clean false x;
      x ← ensureParents clean x;
      on_root clean (root_Symlink linkname clean) x
  end.

(** [writeHardlink]. *)
Definition writeHardlink (clean linkname : string) (x : extraction) : res ext_error extraction :=
  match cleanEntryPath linkname with
  | Err e => Err (Unsafe (BadHardlinkName e) clean)
  | Ok target =>
      match root_Lstat (x_root x) target with
      | Ok (NFile _) =>
          x ← replaceExisting clean false x;
          x ← ensureParents clean x;
          on_root clean (root_Link target clean) x
      | _ => Err (Unsafe BadHardlinkTarget clean)
      end
  end.

(** [applyWhiteout]. *)
Fixpoint remove_victims (dir : string) (names : list string) (x : extraction) :
    res ext_error extraction :=
  match names with
  | [] => Ok x
  | name :: names =>
      let victim := path_join dir name in
      x ← on_root dir (root_RemoveAll victim) x;
      remove_victims dir names (dropModesUnder victim x)
  end.

Definition applyWhiteout (clean base : string) (x : extraction) : res ext_error extraction :=
  let dir := path_dir clean in
  if String.eqb base opaqueMarker then
    x ← ensureDir dir x;
    match root_Open (x_root x) dir with
    | Err e => Err (OsFailed dir e)
    | Ok (OpenedFile _) => Err (OsFailed dir ENOTDIR)
    | Ok (OpenedDir k) => remove_victims dir (children (x_root x) k) x
    end
  else
    let victim := default base (cut_prefix whiteoutPrefix base) in
    if String.eqb victim "" || String.eqb victim "." || String.eqb victim ".." then
      Err (Unsafe BadWhiteout clean)
    else
      let victimPath := path_join dir victim in
      x ← on_root victimPath (root_RemoveAll victimPath) x;
      Ok (dropModesUnder victimPath x).

(** [applyEntry]. *)
Definition applyEntry (e : tar_entry) (x : extraction) : res ext_error extraction :=
  match cleanEntryPath (te_name e) with
  | Err err => Err (Unsafe (BadName err) (te_name e))
  | Ok clean =>
      let base := path_base clean in
      if is_whiteout base then applyWhiteout clean base x
      else if String.eqb clean "." then
        match te_type e with
        | TypeDir => Ok (set_modes (<["." := te_perm e]> (x_dirModes x)) x)
        | _ => Err (Unsafe RootNotDirectory (te_name e))
        end
      else if (MaxDepth (x_limits x) <? entry_depth clean)%Z then Err (Unsafe TooDeep (te_name e))
      else
        let x := set_counts (x_files x + 1) (x_bytes x) (x_ignored x) x in
        if (MaxFiles (x_limits x) <? x_files x)%Z then Err (Unsafe TooManyFiles (te_name e))
        else match te_type e with
        | TypeDir =>
            x ← replaceExisting clean true x;
            x ← ensureDir clean x;
            Ok (set_modes (<[clean := te_perm e]> (x_dirModes x)) x)
        | TypeReg => writeFile clean (te_perm e) e x
        | TypeSymlink => writeSymlink clean (te_link e) x
        | TypeLink => writeHardlink clean (te_link e) x
        | TypeOther => Ok (set_counts (x_files x - 1) (x_bytes x) (x_ignored x + 1) x)
        end
  end.

(** The loop of [applyLayer] over the entries of one stream; [ctx] answers the
    successive [ctx.Err()] calls, [true] once the context is done. *)
Fixpoint applyEntries (ctx : list bool) (es : list tar_entry) (whole : bool) (x : extraction) :
    res ext_error (extraction * list bool) :=
  match es with
  | [] => if whole then Ok (x, ctx) else Err TarCorrupt
  | e :: es =>
      if default false (head ctx) then Err ContextDone
      else
        x ← applyEntry e x;
        applyEntries (tail ctx) es whole x
  end.

(** The last loop of [extractLayers]: directory modes, in map order. *)
Fixpoint apply_modes (dirs : list (string * Z)) (x : extraction) : res ext_error extraction :=
  match dirs with
  | [] => Ok x
  | (dir, mode) :: dirs =>
      x ← on_root dir (root_Chmod dir mode) x;
      apply_modes dirs x
  end.

Definition restore_modes (x : extraction) : res ext_error extraction :=
  apply_modes (map_range (x_dirModes x)) x.

Definition new_extraction (lim : Limits) : extraction :=
  mkExt empty_root lim 0 0 0 ∅.

(** The layers of an image, already opened as tar streams. *)
Fixpoint apply_streams (ctx : list bool) (layers : list (list tar_entry * bool)) (x : extraction) :
    res ext_error (extraction * list bool) :=
  match layers with
  | [] => Ok (x, ctx)
  | (es, whole) :: layers =>
      '(x, ctx) ← applyEntries ctx es whole x;
      apply_streams ctx layers x
  end.

End extract.

Section examples.
Local Instance ordinary_user : Privilege := false.

Definition dir_entry (name : string) (mode : Z) : tar_entry := mkTar TypeDir name "" mode "" false.
Definition reg_entry (name : string) (mode : Z) (data : string) : tar_entry :=
  mkTar TypeReg name "" mode data false.
Definition link_entry (name target : string) : tar_entry := mkTar TypeSymlink name target 511 "" false.

Definition small : Limits := mkLimits 100 10 5.

Example ex_tree :
  (λ p, r_tree (x_root p.1)) <$>
    apply_streams [] [([dir_entry "a/" 493; reg_entry "a/f" 420 "hi"; link_entry "a/l" "f"], true)]
      (new_extraction small)
  = Ok {[ [] := NDir 448; ["a"] := NDir 448; ["f"; "a"] := NFile 0; ["l"; "a"] := NLink "f" ]}.
Proof. vm_compute. reflexivity. Qed.
End examples.
