(* ===== verification/ExtractSafety.v ===== *)
(** What an extraction can leave behind: the limits of §14.5 hold whatever the
    layers contain, the tree stays well-formed, and the cases where the code
    lets more through than its comments say. *)

From S2P Require Import Prelude GoStrings MediaPaths FilePaths OsRoot OsRootFacts Extract.

(** * What counts against the limits *)

Definition nondir (n : node) : bool := match n with NDir _ => false | _ => true end.

(** Names of files, links and hard links; bytes held by the files. *)
Definition nondirs (fs : RootFS) : nat := size (filter (λ kn, nondir kn.2 = true) (r_tree fs)).
Definition inode_bytes (m : gmap nat inode) : nat := map_fold (λ _ f n, slen (i_data f) + n) 0 m.
Definition stored (fs : RootFS) : nat := inode_bytes (r_inodes fs).

Lemma inode_bytes_insert m i f : m !! i = None →
  inode_bytes (<[i := f]> m) = slen (i_data f) + inode_bytes m.
Proof. intros Hi. unfold inode_bytes. rewrite map_fold_insert_L; [done|lia|done]. Qed.

Lemma inode_bytes_alter m i g :
  inode_bytes (alter g i m) + match m !! i with Some f => slen (i_data f) | None => 0 end =
  inode_bytes m + match m !! i with Some f => slen (i_data (g f)) | None => 0 end.
Proof.
  destruct (m !! i) as [f|] eqn:Hi.
  - assert (alter g i m = <[i := g f]> (delete i m)) as ->.
    { apply map_eq. intros j. destruct (decide (j = i)) as [->|].
      - by rewrite lookup_alter_eq, lookup_insert_eq, Hi.
      - by rewrite lookup_alter_ne, lookup_insert_ne, lookup_delete_ne. }
    rewrite inode_bytes_insert by apply lookup_delete_eq.
    rewrite <-(insert_delete_id m i f Hi) at 2.
    rewrite inode_bytes_insert by apply lookup_delete_eq. lia.
  - assert (alter g i m = m) as ->; [|lia].
    apply map_eq. intros j. destruct (decide (j = i)) as [->|].
    + by rewrite lookup_alter_eq, Hi.
    + by rewrite lookup_alter_ne.
Qed.

Lemma nondirs_put fs k n : nondirs (put k n fs) ≤ nondirs fs + (if nondir n then 1 else 0).
Proof.
  unfold nondirs, put; cbn. rewrite map_filter_insert. cbn. case_decide as Hd.
  - rewrite Hd, map_size_insert. destruct (_ !! k); unfold id; lia.
  - destruct (nondir n); [done|]. rewrite map_filter_delete, map_size_delete.
    destruct (_ !! k); unfold id; lia.
Qed.

Lemma nondirs_le (t t' : gmap (list string) node) :
  t' ⊆ t →
  size (filter (λ kn, nondir kn.2 = true) t') ≤ size (filter (λ kn, nondir kn.2 = true) t).
Proof. intros Hs. apply map_subseteq_size. by apply map_filter_subseteq_mono. Qed.

Section safety.
Context `{GoRuntime, Privilege}.

(** An operation adds at most [a] names and [b] bytes. *)
Definition grows (a b : nat) (fs fs' : RootFS) : Prop :=
  (wf_root fs → wf_root fs') ∧ nondirs fs' ≤ nondirs fs + a ∧ stored fs' ≤ stored fs + b.

Lemma grows_refl fs : grows 0 0 fs fs.
Proof. split; [done|]. split; lia. Qed.

Lemma grows_trans a b a' b' fs1 fs2 fs3 :
  grows a b fs1 fs2 → grows a' b' fs2 fs3 → grows (a + a') (b + b') fs1 fs3.
Proof. intros (W1 & N1 & S1) (W2 & N2 & S2). split; [auto|]. split; lia. Qed.

Lemma mkdirs_nondirs full perm n fs cur todo fs' :
  mkdirs full perm n fs cur todo = Ok fs' → nondirs fs' ≤ nondirs fs ∧ stored fs' = stored fs.
Proof.
  revert fs cur todo. induction n as [n IHn] using (well_founded_induction lt_wf).
  intros fs cur todo. revert fs cur.
  induction todo as [|c rest IH]; intros fs cur; rewrite mkdirs_eq.
  { by intros [= <-]. }
  destruct (String.eqb c "" || String.eqb c "."); [by apply IH|].
  destruct (String.eqb c ".."); [destruct cur; [done|by apply IH]|].
  destruct (negb (can_search fs cur)); [done|].
  destruct (r_tree fs !! (c :: cur)) as [[m|i|t]|]; [by apply IH|done| |].
  - destruct rest as [|c' rest'].
    + destruct (_ ≫= node_at fs) as [[]|]; [|done..]. by intros [= <-].
    + destruct (has_prefix t "/"); [done|]. destruct n as [|n']; [done|]. apply IHn. lia.
  - intros [Hn Hs]%IH. split; [|done]. etrans; [exact Hn|].
    pose proof (nondirs_put fs (c :: cur) (NDir perm)). cbn in *. lia.
Qed.

Lemma root_MkdirAll_grows name perm fs fs' : root_MkdirAll name perm fs = Ok fs' → grows 0 0 fs fs'.
Proof.
  intros Hm. split; [intros; by eapply root_MkdirAll_wf|].
  unfold root_MkdirAll in Hm. apply mkdirs_nondirs in Hm as [??]. lia.
Qed.

Lemma grows_sub fs f : (∀ t, f t ⊆ t) → (wf_root fs → wf_root (with_tree f fs)) →
  grows 0 0 fs (with_tree f fs).
Proof.
  intros Hf Hwf. split; [done|]. unfold nondirs, stored; cbn.
  split; [|lia]. etrans; [by apply nondirs_le, Hf|]. lia.
Qed.

Lemma root_RemoveAll_grows name fs fs' : root_RemoveAll name fs = Ok fs' → grows 0 0 fs fs'.
Proof.
  unfold root_RemoveAll. destruct (resolve fs false name) as [[|c up]|[]]; try done.
  - intros [= <-]. apply grows_sub; [intros; apply map_filter_subseteq|apply wf_prune].
  - intros [= <-]. apply grows_refl.
Qed.

Lemma root_Remove_grows name fs fs' : root_Remove name fs = Ok fs' → grows 0 0 fs fs'.
Proof.
  unfold root_Remove. intros Hr. inv_ok. destruct x as [|c up]; [done|].
  destruct (has_children fs (c :: up)) eqn:Hch; [done|]. inv_ok.
  apply grows_sub; [intros; apply delete_subseteq|by intros; apply wf_delete].
Qed.

Lemma root_Create_grows name perm data fs fs' : wf_root fs →
  root_Create name perm data fs = Ok fs' → grows 1 (slen data) fs fs'.
Proof.
  intros Hwf0 Hc. split; [intros; by eapply root_Create_wf|].
  unfold root_Create in Hc. inv_ok.
  destruct (r_tree fs !! x) as [[]|] eqn:Hx; try done; inv_ok; unfold nondirs, stored; cbn.
  - split; [lia|]. pose proof (inode_bytes_alter (r_inodes fs) ino (λ f, mkInode (i_perm f) data)) as Ha.
    destruct (r_inodes fs !! ino); cbn in Ha; lia.
  - split; [pose proof (nondirs_put fs x (NFile (r_next fs))) as Hp; cbn in Hp; exact Hp|].
    rewrite inode_bytes_insert; [cbn; lia|]. apply eq_None_not_Some. intros Hs%(wr_next _ Hwf0). lia.
Qed.

Lemma grows_put_nondir k n fs : nondir n = true → (wf_root fs → wf_root (put k n fs)) →
  grows 1 0 fs (put k n fs).
Proof.
  intros Hn Hwf. split; [done|]. unfold stored; cbn. split; [|lia].
  pose proof (nondirs_put fs k n) as Hp. rewrite Hn in Hp. done.
Qed.

Lemma root_Symlink_grows target name fs fs' : root_Symlink target name fs = Ok fs' → grows 1 0 fs fs'.
Proof.
  intros Hs. pose proof (λ W, root_Symlink_wf target name fs fs' W Hs) as Hwf.
  unfold root_Symlink in Hs. destruct (_ || _); [done|]. inv_ok.
  destruct (r_tree fs !! x); [done|]. inv_ok. by apply grows_put_nondir.
Qed.

Lemma root_Link_grows old new fs fs' : root_Link old new fs = Ok fs' → grows 1 0 fs fs'.
Proof.
  intros Hs. pose proof (λ W, root_Link_wf old new fs fs' W Hs) as Hwf.
  unfold root_Link in Hs. inv_ok. destruct (r_tree fs !! x1); [done|].
  destruct x0; [done|..]; inv_ok; by apply grows_put_nondir.
Qed.

Lemma root_Chmod_grows name perm fs fs' : root_Chmod name perm fs = Ok fs' → grows 0 0 fs fs'.
Proof.
  intros Hs. split; [intros; by eapply root_Chmod_wf|].
  unfold root_Chmod in Hs. inv_ok. destruct x0 as [m|i|]; inv_ok; unfold stored, nondirs; cbn.
  - split; [|lia]. pose proof (nondirs_put fs x (NDir perm)) as Hp. cbn in Hp. exact Hp.
  - split; [lia|]. pose proof (inode_bytes_alter (r_inodes fs) i (λ f, mkInode perm (i_data f))) as Ha.
    destruct (r_inodes fs !! i); cbn in Ha; lia.
Qed.

(** * Steps of an extraction *)

(** A step that leaves the counters alone. *)
Definition same_counts (x x' : extraction) : Prop :=
  x_limits x' = x_limits x ∧ x_files x' = x_files x ∧ x_bytes x' = x_bytes x.

Definition ext_grows (a b : nat) (x x' : extraction) : Prop :=
  same_counts x x' ∧ grows a b (x_root x) (x_root x').

Lemma ext_grows_trans a b a' b' x1 x2 x3 :
  ext_grows a b x1 x2 → ext_grows a' b' x2 x3 → ext_grows (a + a') (b + b') x1 x3.
Proof.
  intros [(?&?&?) G1] [(?&?&?) G2]. split; [unfold same_counts in *; split_and!; congruence|].
  by eapply grows_trans.
Qed.

Lemma ext_grows_refl x : ext_grows 0 0 x x.
Proof. split; [done|apply grows_refl]. Qed.

Lemma on_root_Ok path f x x' : on_root path f x = Ok x' → ∃ fs, f (x_root x) = Ok fs ∧ x' = set_root fs x.
Proof. unfold on_root. destruct (f (x_root x)); [|done]. intros [= <-]. eauto. Qed.

Lemma on_root_grows a b path f x x' :
  (∀ fs, f (x_root x) = Ok fs → grows a b (x_root x) fs) →
  on_root path f x = Ok x' → ext_grows a b x x'.
Proof. intros Hf (fs & Hfs & ->)%on_root_Ok. split; [done|]. by apply Hf. Qed.

Lemma set_modes_grows m x : ext_grows 0 0 x (set_modes m x).
Proof. split; [done|apply grows_refl]. Qed.

Lemma ensureDir_grows dir x x' : ensureDir dir x = Ok x' → ext_grows 0 0 x x'.
Proof.
  unfold ensureDir. destruct (String.eqb dir "."); [intros [= <-]; apply ext_grows_refl|].
  intros Hd. inv_ok. eapply (ext_grows_trans 0 0 0 0); [|apply set_modes_grows].
  eapply on_root_grows; [|eassumption]. intros. by eapply root_MkdirAll_grows.
Qed.

Lemma replaceExisting_grows clean isDir x x' : replaceExisting clean isDir x = Ok x' → ext_grows 0 0 x x'.
Proof.
  unfold replaceExisting. destruct (root_Lstat _ _) as [[m|i|t]|[]]; try done.
  - destruct isDir; [intros [= <-]; apply ext_grows_refl|].
    intros Hd. inv_ok. eapply (ext_grows_trans 0 0 0 0); [|apply set_modes_grows].
    eapply on_root_grows; [|eassumption]. intros. by eapply root_RemoveAll_grows.
  - apply on_root_grows. intros. by eapply root_Remove_grows.
  - apply on_root_grows. intros. by eapply root_Remove_grows.
  - intros [= <-]. apply ext_grows_refl.
Qed.

Lemma remove_victims_grows dir names x x' : remove_victims dir names x = Ok x' → ext_grows 0 0 x x'.
Proof.
  revert x. induction names as [|name names IH]; intros x; cbn; [intros [= <-]; apply ext_grows_refl|].
  intros Hd. inv_ok. apply IH in Hd.
  eapply (ext_grows_trans 0 0 0 0); [|exact Hd].
  eapply (ext_grows_trans 0 0 0 0); [|apply set_modes_grows].
  eapply on_root_grows; [|eassumption]. intros. by eapply root_RemoveAll_grows.
Qed.

Lemma applyWhiteout_grows clean base x x' : applyWhiteout clean base x = Ok x' → ext_grows 0 0 x x'.
Proof.
  unfold applyWhiteout. destruct (String.eqb base opaqueMarker).
  - intros Hd. inv_ok. destruct (root_Open _ _) as [[k|]|]; try done.
    eapply (ext_grows_trans 0 0 0 0); [by eapply ensureDir_grows|by eapply remove_victims_grows].
  - destruct (_ || _); [done|]. intros Hd. inv_ok.
    eapply (ext_grows_trans 0 0 0 0); [|apply set_modes_grows].
    eapply on_root_grows; [|eassumption]. intros. by eapply root_RemoveAll_grows.
Qed.

(** Clearing the path and making its parents. *)
Lemma prepare_grows clean x x1 x2 :
  replaceExisting clean false x = Ok x1 → ensureParents clean x1 = Ok x2 → ext_grows 0 0 x x2.
Proof.
  intros H1 H2. eapply (ext_grows_trans 0 0 0 0); [by eapply replaceExisting_grows|].
  by eapply ensureDir_grows.
Qed.

Lemma writeSymlink_grows clean l x x' : writeSymlink clean l x = Ok x' → ext_grows 1 0 x x'.
Proof.
  unfold writeSymlink. destruct (checkSymlink clean l); [|done]. intros Hd. inv_ok.
  eapply (ext_grows_trans 0 0 1 0); [by eapply prepare_grows|].
  eapply on_root_grows; [|eassumption]. intros. by eapply root_Symlink_grows.
Qed.

Lemma writeHardlink_grows clean l x x' : writeHardlink clean l x = Ok x' → ext_grows 1 0 x x'.
Proof.
  unfold writeHardlink. destruct (cleanEntryPath l); [|done].
  destruct (root_Lstat _ _) as [[]|]; try done. intros Hd. inv_ok.
  eapply (ext_grows_trans 0 0 1 0); [by eapply prepare_grows|].
  eapply on_root_grows; [|eassumption]. intros. by eapply root_Link_grows.
Qed.

(** * The limits *)

(** The limits an extraction runs under, after [Limits.effective]. *)
Definition limits_ok (lim : Limits) : Prop := (0 < MaxBytes lim ≤ int64_max)%Z ∧ (0 < MaxFiles lim)%Z.

Record ext_inv (lim : Limits) (x : extraction) : Prop := {
  xi_limits : x_limits x = lim;
  xi_wf : wf_root (x_root x);
  xi_names : (Z.of_nat (nondirs (x_root x)) ≤ x_files x ≤ MaxFiles lim)%Z;
  xi_bytes : (Z.of_nat (stored (x_root x)) ≤ x_bytes x ≤ MaxBytes lim)%Z;
}.

Lemma ext_inv_new lim : limits_ok lim → ext_inv lim (new_extraction lim).
Proof.
  intros [? ?]. split; [done|apply wf_empty_root|..]; cbn.
  - change (nondirs empty_root) with 0. lia.
  - change (stored empty_root) with 0. lia.
Qed.

Lemma ext_inv_grows lim x x' : ext_inv lim x → ext_grows 0 0 x x' → ext_inv lim x'.
Proof.
  intros [H1 H2 H3 H4] [(E1 & E2 & E3) (G1 & G2 & G3)].
  split; [congruence|auto|rewrite E2; lia|rewrite E3; lia].
Qed.

(** The counted entries: one more name allowed, then [files] incremented. *)
Lemma ext_inv_counted lim x x' :
  ext_inv lim x → (x_files x + 1 ≤ MaxFiles lim)%Z →
  ext_grows 1 0 (set_counts (x_files x + 1) (x_bytes x) (x_ignored x) x) x' → ext_inv lim x'.
Proof.
  intros [H1 H2 H3 H4] Hm [(E1 & E2 & E3) (G1 & G2 & G3)]. cbn in *.
  split; [congruence|auto|rewrite E2; lia|rewrite E3; lia].
Qed.

Lemma ext_grows_mono a b a' b' x x' : a ≤ a' → b ≤ b' → ext_grows a b x x' → ext_grows a' b' x x'.
Proof. intros ?? [? (?&?&?)]. split; [done|]. split_and!; [done|lia..]. Qed.

Lemma budget_eq lim x : limits_ok lim → ext_inv lim x →
  byte_budget x = Z.min (MaxBytes lim - x_bytes x) (int64_max - 1).
Proof.
  intros [Hb _] [H1 _ _ H4]. unfold byte_budget, sub64. rewrite H1.
  rewrite wrap64_id; [done|]. unfold is_int64, int64_min, int64_max in *. lia.
Qed.

Lemma writeFile_inv lim clean perm e x x' :
  limits_ok lim → ext_inv lim x → (x_files x + 1 ≤ MaxFiles lim)%Z →
  writeFile clean perm e (set_counts (x_files x + 1) (x_bytes x) (x_ignored x) x) = Ok x' →
  ext_inv lim x'.
Proof.
  intros Hlim Hx Hf Hw. unfold writeFile in Hw. inv_ok.
  match goal with
  | H1 : replaceExisting _ _ _ = Ok _, H2 : ensureParents _ _ = Ok _ |- _ =>
      pose proof (prepare_grows _ _ _ _ H1 H2) as G
  end.
  rename x2 into x3, x1 into x2.
  match goal with H : on_root _ _ x2 = Ok x3 |- _ => rename H into Hcreate end.
  assert (ext_inv lim x2 ∧ (Z.of_nat (nondirs (x_root x2)) + 1 ≤ x_files x2)%Z) as [Hx2 Hn2].
  { pose proof (ext_grows_mono 0 0 1 0 _ _ ltac:(lia) ltac:(lia) G) as G1.
    split; [by eapply ext_inv_counted|].
    destruct G as [(E1 & E2 & E3) (G1' & G2 & G3)]. cbn in *. destruct Hx. lia. }
  set (n := Z.min _ _) in *.
  destruct (te_broken e && _); [done|].
  destruct (Z.ltb_spec (byte_budget x2) n) as [|Hn]; [done|].
  apply on_root_Ok in Hcreate as (fs & Hcr & ->).
  pose proof (root_Create_grows _ _ _ _ _ (xi_wf _ _ Hx2) Hcr) as (G1 & G2 & G3).
  pose proof (budget_eq lim x2 Hlim Hx2) as Hbud.
  destruct Hlim as [Hb Hl]. destruct Hx2 as [L2 W2 N2 B2].
  assert (0 ≤ byte_budget x2)%Z by (rewrite Hbud; unfold int64_max in *; lia).
  assert (0 ≤ n)%Z as Hn0 by (unfold n; lia).
  assert (slen (stake (Z.to_nat n) (te_data e)) ≤ Z.to_nat n) as Hst by apply slen_stake_le.
  assert (add64 (x_bytes x2) n = x_bytes x2 + n)%Z as Hadd.
  { unfold add64. rewrite wrap64_id; [done|]. unfold is_int64, int64_min, int64_max in *. lia. }
  eapply (ext_inv_grows lim (set_counts (x_files x2) (add64 (x_bytes x2) n) (x_ignored x2) (set_root fs x2))).
  - split; cbn; [done|auto|lia|]. rewrite Hadd. lia.
  - eapply on_root_grows; [|exact Hw]. intros. by eapply root_Chmod_grows.
Qed.

Lemma applyEntry_inv lim e x x' :
  limits_ok lim → ext_inv lim x → applyEntry e x = Ok x' → ext_inv lim x'.
Proof.
  intros Hlim Hx. unfold applyEntry. destruct (cleanEntryPath (te_name e)) as [clean|]; [|done].
  destruct (is_whiteout (path_base clean)).
  { intros Hw. eapply ext_inv_grows; [done|by eapply applyWhiteout_grows]. }
  destruct (String.eqb clean ".").
  { destruct (te_type e); try done. intros [= <-]. eapply ext_inv_grows; [done|apply set_modes_grows]. }
  destruct (_ <? _)%Z; [done|]. cbv zeta. cbn [x_files x_limits set_counts].
  destruct (Z.ltb_spec (MaxFiles (x_limits x)) (x_files x + 1)) as [|Hf]; [done|].
  rewrite (xi_limits _ _ Hx) in Hf. destruct (te_type e).
  - by apply writeFile_inv.
  - intros Hd. inv_ok. eapply ext_inv_counted; [done|done|].
    eapply (ext_grows_mono 0 0); [lia|lia|].
    eapply (ext_grows_trans 0 0 0 0); [by eapply replaceExisting_grows|].
    eapply (ext_grows_trans 0 0 0 0); [by eapply ensureDir_grows|apply set_modes_grows].
  - intros Hd. eapply ext_inv_counted; [done|done|]. by eapply writeSymlink_grows.
  - intros Hd. eapply ext_inv_counted; [done|done|]. by eapply writeHardlink_grows.
  - intros [= <-]. destruct Hx as [L W N B]. split; cbn; [done|done|lia|done].
Qed.

Lemma applyEntries_inv lim ctx es whole x x' ctx' :
  limits_ok lim → ext_inv lim x → applyEntries ctx es whole x = Ok (x', ctx') → ext_inv lim x'.
Proof.
  intros Hlim. revert ctx x. induction es as [|e es IH]; intros ctx x Hx; cbn.
  - destruct whole; [|done]. by intros [= <- <-].
  - destruct (default false (head ctx)); [done|]. intros Ha. inv_ok.
    eapply IH; [|eassumption]. by eapply applyEntry_inv.
Qed.

Lemma apply_streams_inv lim ctx layers x x' ctx' :
  limits_ok lim → ext_inv lim x → apply_streams ctx layers x = Ok (x', ctx') → ext_inv lim x'.
Proof.
  intros Hlim. revert ctx x. induction layers as [|[es whole] layers IH]; intros ctx x Hx; cbn.
  - by intros [= <- <-].
  - intros Ha. inv_ok. destruct x0 as [x1 ctx1]. eapply IH; [|eassumption].
    by eapply applyEntries_inv.
Qed.

Lemma apply_modes_grows dirs x x' : apply_modes dirs x = Ok x' → ext_grows 0 0 x x'.
Proof.
  revert x. induction dirs as [|[dir mode] dirs IH]; intros x; cbn; [intros [= <-]; apply ext_grows_refl|].
  intros Hd. inv_ok. eapply (ext_grows_trans 0 0 0 0); [|by eapply IH].
  eapply on_root_grows; [|eassumption]. intros. by eapply root_Chmod_grows.
Qed.

(** C33: Whatever the layers contain, an extraction that succeeds leaves a
    well-formed tree in which files, symbolic links and hard links number at most
    [MaxFiles] and the files hold at most [MaxBytes] bytes together. *)
Theorem extraction_bounded lim ctx layers x ctx' x'
    (Hlim : limits_ok lim)
    (Happly : apply_streams ctx layers (new_extraction lim) = Ok (x, ctx'))
    (Hmodes : restore_modes x = Ok x') :
  wf_root (x_root x') ∧
  (Z.of_nat (nondirs (x_root x')) ≤ MaxFiles lim)%Z ∧
  (Z.of_nat (stored (x_root x')) ≤ MaxBytes lim)%Z.
Proof.
  assert (ext_inv lim x') as [H1 H2 H3 H4]; [|split_and!; [done|lia..]].
  eapply ext_inv_grows; [|by eapply apply_modes_grows].
  eapply apply_streams_inv; [done|by apply ext_inv_new|done].
Qed.

End safety.

(** * Evaluated cases *)

Section cases.
#[local] Existing Instance ordinary_user.

(** One layer per list, then the directory modes. *)
Definition whole_layers (layers : list (list tar_entry)) : list (list tar_entry * bool) :=
  List.map (λ es, (es, true)) layers.
Definition run_layers (lim : Limits) (layers : list (list tar_entry)) : res ext_error extraction :=
  '(x, _) ← apply_streams [] (whole_layers layers) (new_extraction lim);
  restore_modes x.

Definition opaque_entry (dir : string) : tar_entry := reg_entry (dir +:+ "/" +:+ opaqueMarker) 420 "".

Lemma extraction_bounded_witness :
  ∃ x, run_layers small [[reg_entry "a/f" 420 "hello"; link_entry "a/l" "f"]; [opaque_entry "a"]] = Ok x ∧
    wf_root (x_root x) ∧ (Z.of_nat (nondirs (x_root x)) ≤ 10)%Z ∧ (Z.of_nat (stored (x_root x)) ≤ 100)%Z.
Proof.
  set (layers := whole_layers [[reg_entry "a/f" 420 "hello"; link_entry "a/l" "f"]; [opaque_entry "a"]]).
  destruct (apply_streams [] layers (new_extraction small)) as [[x ctx]|] eqn:Ha;
    [|vm_compute in Ha; discriminate].
  destruct (restore_modes x) as [x'|] eqn:Hm.
  2:{ vm_compute in Ha. injection Ha as <- <-. vm_compute in Hm. discriminate. }
  exists x'. split.
  - unfold run_layers. fold layers. rewrite Ha. exact Hm.
  - apply (extraction_bounded small [] layers x ctx x'); [|exact Ha|exact Hm].
    vm_compute. repeat split; congruence.
Defined.

(** An opaque marker is handled before the depth and the count are looked at: it
    materializes directories below [MaxDepth] and beyond [MaxFiles]. *)
Theorem opaque_marker_ignores_limits :
  ∃ x, run_layers (mkLimits 100 1 2) [[opaque_entry "a/b/c/d/e"]] = Ok x ∧
    x_files x = 0%Z ∧ is_dir (x_root x) (reverse ["a"; "b"; "c"; "d"; "e"]).
Proof. eexists. split; [vm_compute; reflexivity|]. split; [reflexivity|]. eexists. vm_compute. reflexivity. Qed.

(** A parent that is itself a link defeats the lexical test: the link left on
    disk at the top of the tree points three levels above it. *)
Theorem link_beyond_root_on_disk :
  ∃ x, run_layers small [[link_entry "d/e/a" "../.."; link_entry "d/e/a/l" "../../../x"]] = Ok x ∧
    r_tree (x_root x) !! ["l"] = Some (NLink "../../../x") ∧
    checkSymlink "l" "../../../x" = Err LinkEscapes.
Proof. eexists. split; [vm_compute; reflexivity|]. split; reflexivity. Qed.

(** A link through a missing directory hides the entry [replaceExisting] looks
    for; once the parents are made, the file is written through the lower layer's
    link, into the file that link points at. *)
Theorem file_written_through_link :
  ∃ x, run_layers small
      [[reg_entry "d/target" 420 "old"; link_entry "d/x" "target"; link_entry "l" "n/.."];
       [reg_entry "l/d/x" 384 "new"]] = Ok x ∧
    r_tree (x_root x) !! ["x"; "d"] = Some (NLink "target") ∧
    root_Open (x_root x) "d/target" = Ok (OpenedFile "new").
Proof. eexists. split; [vm_compute; reflexivity|]. split; vm_compute; reflexivity. Qed.

(** An opaque marker also removes what its own layer put in the directory before
    it, not only what lower layers did. *)
Theorem opaque_removes_same_layer :
  ∃ x, run_layers small [[reg_entry "d/f" 420 "kept"; opaque_entry "d"]] = Ok x ∧
    r_tree (x_root x) !! ["f"; "d"] = None.
Proof. eexists. split; [vm_compute; reflexivity|]. reflexivity. Qed.

(** Replacing a link does not forget the directory mode recorded under its name:
    the private file that takes its place ends up with mode 0o755. *)
Theorem stale_mode_widens_file :
  ∃ x i, run_layers small
      [[dir_entry "b" 448; link_entry "a" "b"; reg_entry "a/f" 384 ""]; [reg_entry "a" 384 "key"]] = Ok x ∧
    r_tree (x_root x) !! ["a"] = Some (NFile i) ∧
    i_perm <$> r_inodes (x_root x) !! i = Some mode_0755.
Proof. eexists _, _. split; [vm_compute; reflexivity|]. split; vm_compute; reflexivity. Qed.

(** The directory modes are applied in map order, and the order shows: through a
    link recorded as a directory the same directory has two modes, and a parent
    closed first makes the mode of its child an error. *)
Theorem mode_order_matters :
  (∃ x x1 x2 m1 m2, apply_streams [] [([dir_entry "b" 448; link_entry "a" "b"; reg_entry "a/f" 384 ""], true)]
      (new_extraction small) = Ok (x, []) ∧
    map_to_list (x_dirModes x) ≡ₚ [("a", 493); ("b", 448)]%Z ∧
    apply_modes [("a", 493); ("b", 448)]%Z x = Ok x1 ∧ r_tree (x_root x1) !! ["b"] = Some (NDir m1) ∧
    apply_modes [("b", 448); ("a", 493)]%Z x = Ok x2 ∧ r_tree (x_root x2) !! ["b"] = Some (NDir m2) ∧
    m1 ≠ m2) ∧
  (∃ x, apply_streams [] [([dir_entry "a" 384; dir_entry "a/b" 493], true)] (new_extraction small) = Ok (x, []) ∧
    map_to_list (x_dirModes x) ≡ₚ [("a", 384); ("a/b", 493)]%Z ∧
    is_ok (apply_modes [("a/b", 493); ("a", 384)]%Z x) = true ∧
    apply_modes [("a", 384); ("a/b", 493)]%Z x = Err (OsFailed "a/b" EACCES)).
Proof.
  split.
  - eexists _, _, _, _, _. split; [vm_compute; reflexivity|].
    split; [vm_compute; first [apply Permutation_refl|apply perm_swap]|].
    split; [vm_compute; reflexivity|]. split; [vm_compute; reflexivity|].
    split; [vm_compute; reflexivity|]. split; [vm_compute; reflexivity|]. done.
  - eexists. split; [vm_compute; reflexivity|].
    split; [vm_compute; first [apply Permutation_refl|apply perm_swap]|].
    split; vm_compute; reflexivity.
Qed.

End cases.
