(* ===== verification/Pack.v ===== *)
(** Operator FileSet packing (internal/fileserve/pack.go): a local file tree
    becomes the single layer of a FileSet image, written to the store.

    The operator's tree is a rose tree that carries what [lstat] shows beyond the
    name and content (modification time, owner) and what may go wrong while it is
    read; the walk, its refusals and its counters are those of [writeTree].  The
    tar encoding, the SHA-256 and the JSON encodings are the library interface
    [FileSetLib]. *)

From S2P Require Import Prelude GoStrings Relocate MediaPaths Taxonomy FilePaths Extract.

(** * The operator's tree *)

Record fmeta := mkFMeta { fm_perm : Z; fm_setid : bool; fm_mtime : Z; fm_uid : Z }.

#[local] Unset Elimination Schemes.
(** [size] is what [lstat] says and [data] what reading yields, [None] when it
    fails; [FGone] is an entry whose [lstat] fails. *)
Inductive ftree :=
  | FFile (m : fmeta) (size : Z) (data : option string)
  | FDir (m : fmeta) (listable : bool) (entries : list (string * ftree))
  | FLink (m : fmeta) (target : option string)
  | FSpecial (m : fmeta)
  | FGone.
#[local] Set Elimination Schemes.

(** Induction over the tree with the children's hypotheses as a [Forall]. *)
Section ftree_ind.
Variable P : ftree → Prop.
Hypothesis HFile : ∀ m size data, P (FFile m size data).
Hypothesis HDir : ∀ m ok es, Forall (λ c, P c.2) es → P (FDir m ok es).
Hypothesis HLink : ∀ m t, P (FLink m t).
Hypothesis HSpecial : ∀ m, P (FSpecial m).
Hypothesis HGone : P FGone.

Fixpoint ftree_ind (t : ftree) : P t :=
  let fix all (es : list (string * ftree)) : Forall (λ c, P c.2) es :=
    match es with
    | [] => Forall_nil_2 _
    | (n, c) :: es => Forall_cons_2 (λ c, P c.2) (n, c) es (ftree_ind c) (all es)
    end in
  match t with
  | FFile m size data => HFile m size data
  | FDir m ok es => HDir m ok es (all es)
  | FLink m target => HLink m target
  | FSpecial m => HSpecial m
  | FGone => HGone
  end.
End ftree_ind.

Definition setid_of (t : ftree) : bool :=
  match t with
  | FFile m _ _ | FDir m _ _ | FLink m _ | FSpecial m => fm_setid m
  | FGone => false
  end.

(** * One walk *)

Record packStats := mkPackStats { st_files : Z; st_dirs : Z; st_symlinks : Z; st_bytes : Z }.

#[export] Instance packStats_eq_dec : EqDecision packStats.
Proof. solve_decision. Defined.

Definition total (s : packStats) : Z := (st_files s + st_dirs s + st_symlinks s)%Z.

(** [packHeader]: only the permission bits survive; the content follows it. *)
Definition packHeader (name : string) (typeflag : tar_type) (m : fmeta) (linkname data : string) : tar_entry :=
  mkTar typeflag name linkname (Z.land (fm_perm m) 511) data false.

(** The tar written so far, and the counters. *)
Record packState := mkPackState { ps_out : list tar_entry; ps_stats : packStats }.
Definition pack_start : packState := mkPackState [] (mkPackStats 0 0 0 0).

Definition cannot_be_read (name : string) : PackRejection := mkRejection name "cannot be read" false.

(** [copyRegular]: at most [size] bytes are read, and fewer is a refusal. *)
Definition copyRegular (name : string) (size : Z) (data : option string) : res PackRejection string :=
  match data with
  | None => Err (cannot_be_read name)
  | Some data =>
      let read := stake (Z.to_nat size) data in
      if (Z.of_nat (slen read) =? size)%Z then Ok read
      else Err (mkRejection name "changed size while it was being packed" false)
  end.

(** The [switch] of the walk function of [writeTree]. *)
Definition pack_switch (lim : Limits) (name : string) (t : ftree) (s : packState) :
    res PackRejection packState :=
  let st := ps_stats s in
  match t with
  | FDir m _ _ =>
      Ok (mkPackState (ps_out s ++ [packHeader (name +:+ "/") TypeDir m "" ""])
            (mkPackStats (st_files st) (st_dirs st + 1) (st_symlinks st) (st_bytes st)))
  | FFile m size data =>
      let st := mkPackStats (st_files st + 1) (st_dirs st) (st_symlinks st) (add64 (st_bytes st) size) in
      if (MaxBytes lim <? st_bytes st)%Z then
        Err (unsafe name ("total size exceeds the limit of " +:+ pretty (MaxBytes lim) +:+ " bytes"))
      else
        read ← copyRegular name size data;
        Ok (mkPackState (ps_out s ++ [packHeader name TypeReg m "" read]) st)
  | FLink m target =>
      match target with
      | None => Err (cannot_be_read name)
      | Some target =>
          _ ← checkLinkTarget name target;
          Ok (mkPackState (ps_out s ++ [packHeader name TypeSymlink m target ""])
                (mkPackStats (st_files st) (st_dirs st) (st_symlinks st + 1) (st_bytes st)))
      end
  | FSpecial _ =>
      Err (unsafe name "is neither a regular file, a directory nor a symbolic link")
  | FGone => Err (cannot_be_read name)
  end.

(** The walk function of [writeTree] on one entry. *)
Definition pack_node (lim : Limits) (name : string) (t : ftree) (s : packState) :
    res PackRejection packState :=
  _ ← checkEntryName name lim;
  match t with
  | FGone => Err (cannot_be_read name)
  | _ =>
      if setid_of t then Err (unsafe name "carries a setuid or setgid bit")
      else
        s ← pack_switch lim name t s;
        if (MaxFiles lim <? total (ps_stats s))%Z then
          Err (unsafe name ("entry count exceeds the limit of " +:+ pretty (MaxFiles lim)))
        else Ok s
  end.

Section walk.
Context `{GoRuntime}.

(** The name of a child, relative to the source. *)
Definition child_name (parent name : string) : string :=
  if String.eqb parent "." then name else parent +:+ "/" +:+ name.

Definition by_name {A} (x y : string * A) : bool := str_ltb x.1 y.1.

(** [filepath.WalkDir]: the function on the entry, then on its children in
    lexical order; a directory that cannot be listed is reported to the function,
    which refuses. *)
Fixpoint run_all {A} (l : list (string * (A → res PackRejection A))) (s : A) : res PackRejection A :=
  match l with
  | [] => Ok s
  | (_, f) :: l => s ← f s; run_all l s
  end.

Fixpoint visit (lim : Limits) (name : string) (t : ftree) (s : packState) {struct t} :
    res PackRejection packState :=
  s ← pack_node lim name t s;
  match t with
  | FDir _ listable es =>
      if listable then
        run_all (sort_slice by_name
          (List.map (λ c, (c.1, visit lim (child_name name c.1) c.2)) es)) s
      else Err (cannot_be_read name)
  | _ => Ok s
  end.

(** [writeTree]: the source directory itself gets no entry. *)
Definition writeTree (lim : Limits) (src : ftree) : res PackRejection packState :=
  match src with
  | FDir _ true es =>
      run_all (sort_slice by_name (List.map (λ c, (c.1, visit lim c.1 c.2)) es)) pack_start
  | _ => Err (cannot_be_read ".")
  end.

End walk.

(** * Images *)

(** The fields of [ocispec.Descriptor] and [ocispec.Manifest] in use. *)
Record image_descriptor := mkImageDescriptor { id_mediaType : string; id_digest : string; id_size : Z }.
Record image_manifest := mkImageManifest {
  im_mediaType : string;
  im_config : image_descriptor;
  im_layers : list image_descriptor;
  im_annotations : list (string * string);
}.

#[export] Instance image_descriptor_eq_dec : EqDecision image_descriptor.
Proof. solve_decision. Defined.
#[export] Instance image_manifest_eq_dec : EqDecision image_manifest.
Proof. solve_decision. Defined.

Definition MediaTypeImageLayer : string := "application/vnd.oci.image.layer.v1.tar".
Definition MediaTypeImageConfig : string := "application/vnd.oci.image.config.v1+json".
Definition MediaTypeImageManifest : string := "application/vnd.oci.image.manifest.v1+json".
Definition packedLayerMediaType : string := MediaTypeImageLayer.

(** The image configuration: platform, and one diff id. *)
Record image_config := mkImageConfig { ic_os : string; ic_arch : string; ic_diffs : list string }.
Definition packedPlatform : string * string := ("linux", "amd64").

(** The libraries the package calls: the digest of a byte string and whether a
    string is a digest (go-digest), [archive/tar] in both directions, the two
    decompressors, and the JSON encodings.  A computed digest is a digest, no
    digest holds an underscore (the algorithms are sha256, sha384 and sha512, the
    rest is hexadecimal), a tar reader gives back the entries of a tar writer, and
    decoding a manifest its fields. *)
Class FileSetLib : Type := {
  sha256 : string → string;
  digest_ok : string → bool;
  tar_write : list tar_entry → string;
  tar_read : string → bool → list tar_entry * bool;
  gunzip : string → option (string * bool);
  unzstd : string → option (string * bool);
  encode_config : image_config → string;
  encode_manifest : image_manifest → string;
  decode_manifest : string → option image_manifest;
  sha256_ok : ∀ s, digest_ok (sha256 s) = true;
  digest_plain : ∀ d, digest_ok d = true → ¬ in_str "_" d;
  tar_roundtrip : ∀ es, Forall (λ e, te_broken e = false) es → tar_read (tar_write es) true = (es, true);
  manifest_roundtrip : ∀ m, decode_manifest (encode_manifest m) = Some m;
}.

Section pack.
Context `{GoRuntime, FileSetLib}.

(** [packConfig]. *)
Definition packConfig (layerDigest : string) : string * image_descriptor :=
  let raw := encode_config (mkImageConfig packedPlatform.1 packedPlatform.2 [layerDigest]) in
  (raw, mkImageDescriptor MediaTypeImageConfig (sha256 raw) (Z.of_nat (slen raw))).

(** [packManifest]. *)
Definition packManifest (config layer : image_descriptor) : image_manifest :=
  mkImageManifest MediaTypeImageManifest config [layer] [(AnnotationPacked, "true")].

(** * The store write surface ([Writer]) *)

(** A call succeeds, fails before its stream is read, or at its commit. *)
Inductive wfault := WOk | WEarly | WLate.

Record PackStore := mkPackStore {
  k_blobs : gmap (string * string) string;
  k_manifests : gmap (string * string) string;
  k_tags : gmap (string * string) string;
  k_manual : gset string;
  k_faults : list wfault;
}.

Definition next_wfault (k : PackStore) : wfault * PackStore :=
  match k_faults k with
  | [] => (WOk, k)
  | f :: fs => (f, mkPackStore (k_blobs k) (k_manifests k) (k_tags k) (k_manual k) fs)
  end.

(** [HasBlob]: an unreadable answer is no. *)
Definition w_HasBlob (repo dgst : string) (k : PackStore) : bool * PackStore :=
  match next_wfault k with
  | (WOk, k) => (bool_decide (is_Some (k_blobs k !! (repo, dgst))), k)
  | (_, k) => (false, k)
  end.

(** [WriteBlob]: a blob already there is not read again; the digest is verified
    at commit. *)
Definition w_WriteBlob (repo dgst data : string) (k : PackStore) : wfault * PackStore :=
  match next_wfault k with
  | (WOk, k) =>
      match k_blobs k !! (repo, dgst) with
      | Some _ => (WOk, k)
      | None =>
          if String.eqb (sha256 data) dgst then
            (WOk, mkPackStore (<[(repo, dgst) := data]> (k_blobs k)) (k_manifests k) (k_tags k)
                    (k_manual k) (k_faults k))
          else (WLate, k)
      end
  | r => r
  end.

(** [PutManifest]: the payload bit-exactly, and the tag. *)
Definition w_PutManifest (repo payload tag : string) (k : PackStore) : option string * PackStore :=
  match next_wfault k with
  | (WOk, k) =>
      let dgst := sha256 payload in
      (Some dgst, mkPackStore (k_blobs k) (<[(repo, dgst) := payload]> (k_manifests k))
        (<[(repo, tag) := dgst]> (k_tags k)) (k_manual k) (k_faults k))
  | (_, k) => (None, k)
  end.

(** [MarkManualImport]. *)
Definition w_MarkManualImport (repo : string) (k : PackStore) : bool * PackStore :=
  match next_wfault k with
  | (WOk, k) => (true, mkPackStore (k_blobs k) (k_manifests k) (k_tags k) ({[repo]} ∪ k_manual k) (k_faults k))
  | (_, k) => (false, k)
  end.

(** * The packer *)

Record Packer := mkPacker {
  pk_base : string;
  pk_limits : Limits;
  pk_roots : list string;
  pk_restricted : bool;
}.

(** [NewPacker] and its options. *)
Definition NewPacker (basePrefix : string) : Packer := mkPacker basePrefix (effective (mkLimits 0 0 0)) [] false.
Definition WithPackRoots (roots : list string) (p : Packer) : Packer :=
  mkPacker (pk_base p) (pk_limits p) roots true.
Definition WithPackLimits (l : Limits) (p : Packer) : Packer :=
  mkPacker (pk_base p) (effective l) (pk_roots p) (pk_restricted p).

(** The host: [filepath.Abs] (an error text or a path), [filepath.EvalSymlinks],
    [os.Stat]'s [IsDir], and the tree at a path during the first and the second
    walk. *)
Record PackHost := mkPackHost {
  h_abs : string → res string string;
  h_eval : string → option string;
  h_isdir : string → option bool;
  h_tree1 : string → ftree;
  h_tree2 : string → ftree;
}.

Inductive pack_error :=
  | Rejected (r : PackRejection)
  | Unrelocatable (e : relocate_error)
  | PackRootDenied (source : string)
  | LayerFailed | ConfigFailed | ManifestFailed | RecordFailed.

(** [Packer.allowed]. *)
Definition under_root (resolved root : string) : bool :=
  String.eqb resolved root || has_prefix resolved (root +:+ "/").

Definition root_allows (h : PackHost) (resolved root : string) : bool :=
  match h_abs h root with
  | Err _ => false
  | Ok abs => match h_eval h abs with None => false | Some r => under_root resolved r end
  end.

Definition allowed (p : Packer) (h : PackHost) (resolved : string) : bool :=
  if negb (pk_restricted p) then true
  else existsb (root_allows h resolved) (pk_roots p).

(** [Packer.resolveSource]. *)
Definition resolveSource (p : Packer) (h : PackHost) (source : string) : res pack_error string :=
  if String.eqb (trim_space source) "" then Err (Rejected (malformed "a source directory is required"))
  else match h_abs h source with
  | Err text => Err (Rejected (mkRejection source text false))
  | Ok abs =>
      match h_eval h abs with
      | None => Err (Rejected (mkRejection source "the source directory cannot be read" false))
      | Some resolved =>
          match h_isdir h resolved with
          | None => Err (Rejected (mkRejection source "the source directory cannot be read" false))
          | Some false => Err (Rejected (mkRejection source "the source is not a directory" false))
          | Some true =>
              if negb (allowed p h resolved) then Err (PackRootDenied resolved)
              else Ok resolved
          end
      end
  end.

Definition changed_while_packed : PackRejection :=
  malformed "the source directory changed while it was being packed".

(** [writeLayer]: the second walk streamed into the store; the walk's own error
    wins, then a difference in the counters, then the store's error. *)
Definition writeLayer (p : Packer) (h : PackHost) (repo src layerDigest : string) (want : packStats)
    (k : PackStore) : res pack_error unit * PackStore :=
  let '(has, k) := w_HasBlob repo layerDigest k in
  if has then (Ok tt, k)
  else match writeTree (pk_limits p) (h_tree2 h src) with
  | Err rej => (Err (Rejected rej), (next_wfault k).2)
  | Ok s =>
      let '(w, k) := w_WriteBlob repo layerDigest (tar_write (ps_out s)) k in
      match w with
      | WEarly => (Err LayerFailed, k)
      | _ =>
          if negb (bool_decide (ps_stats s = want)) then (Err (Rejected changed_while_packed), k)
          else match w with WOk => (Ok tt, k) | _ => (Err LayerFailed, k) end
      end
  end.

Record PackRequest := mkPackRequest { pr_source : string; pr_name : string; pr_version : string }.

Record PackResult := mkPackResult {
  rs_name : string; rs_reference : string; rs_repository : string; rs_version : string;
  rs_digest : string; rs_layerDigest : string; rs_stats : packStats; rs_signed : bool;
}.

(** The write of the configuration blob in [Pack]. *)
Definition writeConfig (repo cfgRaw cfgDigest : string) (k : PackStore) : res pack_error unit * PackStore :=
  let '(has, k) := w_HasBlob repo cfgDigest k in
  if has then (Ok tt, k)
  else match w_WriteBlob repo cfgDigest cfgRaw k with
       | (WOk, k) => (Ok tt, k)
       | (_, k) => (Err ConfigFailed, k)
       end.

(** The part of [Pack] that can only refuse: names, source, first walk, and the
    repository. *)
Definition pack_check (p : Packer) (h : PackHost) (req : PackRequest) :
    res pack_error (string * packState * string) :=
  _ ← wrap_err Rejected (validatePackName (pr_name req));
  _ ← wrap_err Rejected (validatePackVersion (pr_version req));
  src ← resolveSource p h (pr_source req);
  s ← wrap_err Rejected (writeTree (pk_limits p) (h_tree1 h src));
  _ ← (if (total (ps_stats s) =? 0)%Z
       then Err (Rejected (malformed "the source directory holds no file to pack")) else Ok tt);
  repo ← wrap_err Unrelocatable (PathWithBase (pk_base p) (PackReference (pr_name req)));
  Ok (src, s, repo).

(** [Packer.Pack]. *)
Definition Pack (p : Packer) (h : PackHost) (req : PackRequest) (k : PackStore) :
    res pack_error PackResult * PackStore :=
  match pack_check p h req with
  | Err e => (Err e, k)
  | Ok (src, s, repo) =>
      let layer := tar_write (ps_out s) in
      let layerDigest := sha256 layer in
      match writeLayer p h repo src layerDigest (ps_stats s) k with
      | (Err e, k) => (Err e, k)
      | (Ok _, k) =>
          let '(cfgRaw, cfgDesc) := packConfig layerDigest in
          match writeConfig repo cfgRaw (id_digest cfgDesc) k with
          | (Err e, k) => (Err e, k)
          | (Ok _, k) =>
              let manifest := packManifest cfgDesc
                (mkImageDescriptor packedLayerMediaType layerDigest (Z.of_nat (slen layer))) in
              match w_PutManifest repo (encode_manifest manifest) (pr_version req) k with
              | (None, k) => (Err ManifestFailed, k)
              | (Some dgst, k) =>
                  match w_MarkManualImport repo k with
                  | (false, k) => (Err RecordFailed, k)
                  | (true, k) =>
                      (Ok (mkPackResult (pr_name req) (PackReference (pr_name req)) repo (pr_version req)
                             dgst layerDigest (ps_stats s) false), k)
                  end
              end
          end
      end
  end.

(** [PackProblem], over the text of the errors that come from below. *)
Definition PackProblem (text : pack_error → string) (err : pack_error) : option TaxError :=
  match err with
  | PackRootDenied source =>
      WithCause (text err) <$> New CodePackNotAllowed {[ "path" := PStr source ]}
  | Rejected rej =>
      WithCause (text err) <$>
        New (if rj_safety rej then CodePackUnsafe else CodePackInput) {[ "detail" := PStr (rejection_text rej) ]}
  | Unrelocatable _ => WithCause (text err) <$> New CodePackInput {[ "detail" := PStr (text err) ]}
  | _ => WithCause (text err) <$> New CodeStoreWrite {[ "detail" := PStr (text err) ]}
  end.

End pack.
