(* ===== verification/PackRoundtrip.v ===== *)
(** What packing accepts, extraction accepts and reproduces: the tar that
    [writeTree] produces, applied as the only layer of a FileSet under the same
    limits, succeeds and leaves exactly the packed tree, with its content, its
    permission bits and its links.

    A directory tree is compared through the function from paths to what a
    reader sees there; the proof keeps such a view of the extraction in step with
    the walk. *)

From S2P Require Import Prelude GoStrings MediaPaths FilePaths OsRoot OsRootFacts Extract ExtractSafety Pack.

(** The order of the walk first: [filepath.WalkDir] visits the children of a directory
    in lexical order whatever order the file system lists them in. *)

(** * Lexical order *)

Section order.
Context `{GoRuntime}.

Lemma by_name_weak {A} : strict_weak (@by_name A).
Proof. apply (strict_weak_str (λ x : string * A, x.1)). Qed.

Lemma str_total a b : str_ltb a b = false → str_ltb b a = false → a = b.
Proof. rewrite !str_ltb_le. intros H1 H2. by apply (anti_symm String.le). Qed.

(** With distinct names the sorted order is determined. *)
Lemma sorted_unique {A} (l1 l2 : list (string * A)) :
  NoDup l1.*1 → l1 ≡ₚ l2 →
  Sorted (not_less by_name) l1 → Sorted (not_less by_name) l2 → l1 = l2.
Proof.
  intros Hnd Hp S1 S2.
  assert (Transitive (not_less (@by_name A))) as Htr.
  { intros x y z. unfold not_less. intros H1 H2. destruct (@by_name_weak A) as (_ & _ & Hn).
    by apply (Hn z y x). }
  apply (StronglySorted_unique_strong (not_less by_name)); [|by apply Sorted_StronglySorted..|done].
  intros [n1 a1] [n2 a2] H1 H2 L1 L2. unfold not_less, by_name in *. cbn in *.
  assert (n1 = n2) as -> by (by apply str_total). f_equal.
  rewrite <-Hp in H2. clear -Hnd H1 H2.
  induction l1 as [|[n a] l IH]; [by apply elem_of_nil in H1|].
  cbn in Hnd. apply NoDup_cons in Hnd as [Hn Hnd].
  apply elem_of_cons in H1, H2. destruct H1 as [[= -> ->]|H1], H2 as [H2|H2].
  - injection H2. congruence.
  - destruct Hn. apply list_elem_of_fmap. by exists (n, a2).
  - injection H2 as -> ->. destruct Hn. apply list_elem_of_fmap. by exists (n, a1).
  - by apply IH.
Qed.

Lemma sort_by_name {A} (l : list (string * A)) : Sorted (not_less by_name) (sort_slice by_name l).
Proof. apply sort_slice_sorted, by_name_weak. Qed.

(** Sorting by name commutes with a map that keeps the names. *)
Lemma sort_map {A B} (g : string * A → B) (l : list (string * A)) :
  NoDup l.*1 →
  sort_slice by_name (List.map (λ c, (c.1, g c)) l) = List.map (λ c, (c.1, g c)) (sort_slice by_name l).
Proof.
  intros Hnd.
  assert (∀ l' : list (string * A), (List.map (λ c, (c.1, g c)) l').*1 = l'.*1) as Hfst.
  { induction l' as [|[n a] l' IH]; [done|]. cbn. by f_equal. }
  apply sorted_unique.
  - assert (Permutation (sort_slice by_name (List.map (λ c, (c.1, g c)) l)).*1 l.*1) as ->; [|done].
    rewrite sort_slice_perm. by rewrite Hfst.
  - rewrite sort_slice_perm. symmetry. apply Permutation_map. apply sort_slice_perm.
  - apply sort_by_name.
  - pose proof (sort_by_name l) as Hs. induction Hs as [|x l' Hs IH Hd]; cbn; constructor; [done|].
    destruct Hd; cbn; constructor. done.
Qed.

(** The walk over a list of children that is already in order. *)
Fixpoint visit_list (lim : Limits) (parent : string) (l : list (string * ftree)) (s : packState) :
    res PackRejection packState :=
  match l with
  | [] => Ok s
  | (n, t) :: l =>
      s ← visit lim (child_name parent n) t s;
      visit_list lim parent l s
  end.

Lemma run_all_visit lim parent l s :
  run_all (List.map (λ c, (c.1, visit lim (child_name parent c.1) c.2)) l) s = visit_list lim parent l s.
Proof.
  revert s. induction l as [|[n t] l IH]; intros s; [done|]. cbn [List.map run_all visit_list fst snd].
  destruct (visit lim (child_name parent n) t s); cbn; [|done]. by rewrite IH.
Qed.

Lemma visit_dir lim name m es s : NoDup es.*1 →
  visit lim name (FDir m true es) s =
    (s ← pack_node lim name (FDir m true es) s; visit_list lim name (sort_slice by_name es) s).
Proof.
  intros Hnd. cbn [visit]. destruct (pack_node lim name (FDir m true es) s); cbn; [|done].
  rewrite (sort_map (λ c, visit lim (child_name name c.1) c.2)) by done. apply run_all_visit.
Qed.

Lemma writeTree_dir lim m es : NoDup es.*1 →
  writeTree lim (FDir m true es) = visit_list lim "." (sort_slice by_name es) pack_start.
Proof.
  intros Hnd. cbn [writeTree].
  rewrite (sort_map (λ c, visit lim c.1 c.2)) by done. apply (run_all_visit lim ".").
Qed.

(** * Reproducible packing *)

(** Two trees that differ in nothing the archive records: the order a directory
    is listed in, modification times and owners. *)
#[local] Unset Elimination Schemes.
Inductive same_tree : ftree → ftree → Prop :=
  | same_file m1 m2 size data : same_meta m1 m2 → same_tree (FFile m1 size data) (FFile m2 size data)
  | same_dir m1 m2 ok es1 es es2 : same_meta m1 m2 → es1 ≡ₚ es →
      Forall2 (λ c1 c2, c1.1 = c2.1 ∧ same_tree c1.2 c2.2) es es2 →
      same_tree (FDir m1 ok es1) (FDir m2 ok es2)
  | same_link m1 m2 target : same_meta m1 m2 → same_tree (FLink m1 target) (FLink m2 target)
  | same_special m1 m2 : same_meta m1 m2 → same_tree (FSpecial m1) (FSpecial m2)
  | same_gone : same_tree FGone FGone
with same_meta : fmeta → fmeta → Prop :=
  | same_perm perm setid t1 u1 t2 u2 :
      same_meta (mkFMeta perm setid t1 u1) (mkFMeta perm setid t2 u2).
#[local] Set Elimination Schemes.

(** The names of a tree that a file system can hold: ordinary elements, distinct
    in each directory, and sizes below 4 EiB. *)
Fixpoint wf_tree (t : ftree) : Prop :=
  match t with
  | FDir _ _ es =>
      NoDup es.*1 ∧ Forall proper_seg es.*1 ∧
      (fix all (es : list (string * ftree)) : Prop :=
         match es with [] => True | (_, t) :: es => wf_tree t ∧ all es end) es
  | FFile _ size _ => (0 ≤ size < 2 ^ 62)%Z
  | _ => True
  end.

Lemma wf_tree_dir m ok es :
  wf_tree (FDir m ok es) ↔ NoDup es.*1 ∧ Forall proper_seg es.*1 ∧ Forall (λ c, wf_tree c.2) es.
Proof.
  cbn [wf_tree].
  assert ((fix all (es : list (string * ftree)) : Prop :=
     match es with [] => True | (_, t) :: es => wf_tree t ∧ all es end) es ↔ Forall (λ c, wf_tree c.2) es)
    as ->; [|done].
  induction es as [|[n t] es IH]; [by split; constructor|]. rewrite Forall_cons. cbn. by rewrite IH.
Qed.

Lemma pack_node_same lim name t1 t2 s : same_tree t1 t2 →
  pack_node lim name t1 s = pack_node lim name t2 s.
Proof.
  intros Hs. unfold pack_node. destruct (checkEntryName name lim); cbn; [|done].
  destruct Hs as [? ? ? ? []|? ? ? ? ? ? []|? ? ? []|? ? []|]; reflexivity.
Qed.

Lemma assoc_perm_names (es : list (string * ftree)) es2 :
  Forall2 (λ c1 c2, c1.1 = c2.1 ∧ same_tree c1.2 c2.2) es es2 → es.*1 = es2.*1.
Proof. induction 1 as [|c1 c2 ? ? [? ?] ? IH]; cbn; [done|]. by f_equal. Qed.

(** Sorting two listings of the same directory pairs up their entries. *)
Lemma sort_same (es1 es es2 : list (string * ftree)) :
  NoDup es2.*1 → es1 ≡ₚ es →
  Forall2 (λ c1 c2, c1.1 = c2.1 ∧ same_tree c1.2 c2.2) es es2 →
  Forall2 (λ c1 c2, c1.1 = c2.1 ∧ same_tree c1.2 c2.2) (sort_slice by_name es1) (sort_slice by_name es2).
Proof.
  intros Hnd Hp Hall.
  assert (NoDup es.*1) as Hnd' by (by rewrite (assoc_perm_names es es2)).
  set (z := zip es es2).
  assert (es = z.*1 ∧ es2 = z.*2) as [Hz1 Hz2].
  { apply Forall2_length in Hall. unfold z. rewrite fst_zip, snd_zip by lia. done. }
  assert (Forall (λ p : (string * ftree) * (string * ftree), p.1.1 = p.2.1 ∧ same_tree p.1.2 p.2.2) z) as Hz.
  { clear -Hall. unfold z. induction Hall; cbn; constructor; done. }
  (* one list of pairs, keyed by the common name *)
  set (keyed := List.map (λ p : (string * ftree) * (string * ftree), (p.1.1, (p.1.2, p.2.2))) z).
  assert (∀ z', Forall (λ p : (string * ftree) * (string * ftree), p.1.1 = p.2.1 ∧ same_tree p.1.2 p.2.2) z' →
    z'.*1 = List.map (λ c : string * (ftree * ftree), (c.1, c.2.1))
      (List.map (λ p : (string * ftree) * (string * ftree), (p.1.1, (p.1.2, p.2.2))) z') ∧
    z'.*2 = List.map (λ c : string * (ftree * ftree), (c.1, c.2.2))
      (List.map (λ p : (string * ftree) * (string * ftree), (p.1.1, (p.1.2, p.2.2))) z')) as Hkey.
  { intros z'. induction 1 as [|[[n1 a1] [n2 a2]] z' [Hn Hs] Hz' [IH1 IH2]]; [done|]. cbn in *. subst n2.
    by rewrite <-IH1, <-IH2. }
  destruct (Hkey z Hz) as [Hk1 Hk2].
  assert (NoDup keyed.*1) as Hndk.
  { replace (keyed.*1) with (es.*1); [done|]. rewrite Hz1, Hk1. unfold keyed.
    clear. induction z as [|[[n1 a1] [n2 a2]] z IH]; cbn; [done|]. by f_equal. }
  assert (sort_slice by_name es1 = sort_slice by_name es) as ->.
  { apply sorted_unique; [| |apply sort_by_name..].
    - rewrite sort_slice_perm. by rewrite Hp.
    - rewrite !sort_slice_perm. done. }
  rewrite Hz1, Hz2, Hk1, Hk2. fold keyed.
  rewrite (sort_map (λ c : string * (ftree * ftree), c.2.1) keyed) by done.
  rewrite (sort_map (λ c : string * (ftree * ftree), c.2.2) keyed) by done.
  assert (Forall (λ c : string * (ftree * ftree), same_tree c.2.1 c.2.2) (sort_slice by_name keyed)) as Hs.
  { rewrite sort_slice_perm. unfold keyed. clear -Hz.
    induction Hz as [|[[n1 a1] [n2 a2]] z [Hn Hs] Hz IH]; cbn; constructor; done. }
  induction Hs; cbn; constructor; done.
Qed.

Lemma visit_list_same lim parent l1 l2 s :
  Forall2 (λ c1 c2, c1.1 = c2.1 ∧ same_tree c1.2 c2.2) l1 l2 →
  (∀ c, c ∈ l2 → ∀ t1 name s, same_tree t1 c.2 → visit lim name t1 s = visit lim name c.2 s) →
  visit_list lim parent l1 s = visit_list lim parent l2 s.
Proof.
  intros Hall. revert s. induction Hall as [|[n1 t1] [n2 t2] l1 l2 [Hn Ht] Hall IH]; intros s Hv; [done|].
  cbn in *. subst n2. rewrite (Hv (n1, t2)) by (done || apply elem_of_cons; by left). cbn.
  destruct (visit lim _ t2 s); cbn; [|done]. apply IH. intros c Hc. apply Hv. apply elem_of_cons. by right.
Qed.

Lemma same_names (es1 es es2 : list (string * ftree)) :
  es1 ≡ₚ es → Forall2 (λ c1 c2, c1.1 = c2.1 ∧ same_tree c1.2 c2.2) es es2 → NoDup es2.*1 → NoDup es1.*1.
Proof. intros Hp Hall Hnd. rewrite Hp. by rewrite (assoc_perm_names es es2). Qed.

Lemma visit_same lim t2 : wf_tree t2 → ∀ t1 name s, same_tree t1 t2 →
  visit lim name t1 s = visit lim name t2 s.
Proof.
  induction t2 as [m size data|m ok es2 IH|m target|m|] using ftree_ind; intros Hwf t1 name s Hs;
    pose proof (pack_node_same lim name _ _ s Hs) as Hpn;
    [inversion Hs; subst; cbn [visit]; first [by rewrite Hpn|done]| |inversion Hs; subst; cbn [visit]; first [by rewrite Hpn|done]..].
  inversion Hs as [|m1 m2 ok' es1 es es2' Hm Hp Hall| | |]; subst.
  apply wf_tree_dir in Hwf as (Hnd & Hprop & Hkids).
  destruct ok; [|cbn [visit]; rewrite Hpn; done].
  rewrite !visit_dir by (done || by eapply same_names). rewrite Hpn.
  destruct (pack_node lim name (FDir m true es2) s) as [s'|]; cbn; [|done].
  apply visit_list_same; [by eapply sort_same|].
  intros c Hc t1 name' s'' Ht. rewrite sort_slice_perm in Hc.
  rewrite Forall_forall in IH, Hkids. apply IH; [done|by apply Hkids|done].
Qed.

Lemma writeTree_same lim t1 t2 : wf_tree t2 → same_tree t1 t2 → writeTree lim t1 = writeTree lim t2.
Proof.
  intros Hwf Hs. inversion Hs as [| m1 m2 ok es1 es es2 Hm Hp Hall| | |]; subst; try done.
  destruct ok; [|done]. apply wf_tree_dir in Hwf as (Hnd & Hprop & Hkids).
  rewrite !writeTree_dir by (done || by eapply same_names).
  apply visit_list_same; [by eapply sort_same|].
  intros c Hc t1 name' s' Ht. rewrite sort_slice_perm in Hc.
  rewrite Forall_forall in Hkids. apply visit_same; [by apply Hkids|done].
Qed.

End order.

(** * Views *)

Inductive vnode := VDir (perm : Z) | VFile (perm : Z) (data : string) | VLink (target : string).

#[export] Instance vnode_eq_dec : EqDecision vnode.
Proof. solve_decision. Defined.

Definition view := list string → option vnode.

(** What the extracted tree shows at a path. *)
Definition fs_view (fs : RootFS) : view := λ p,
  match r_tree fs !! reverse p with
  | Some (NDir m) => Some (VDir m)
  | Some (NFile i) => (λ f, VFile (i_perm f) (i_data f)) <$> r_inodes fs !! i
  | Some (NLink t) => Some (VLink t)
  | None => None
  end.

Fixpoint assoc {A} (n : string) (es : list (string * A)) : option A :=
  match es with
  | [] => None
  | (n', a) :: es => if String.eqb n' n then Some a else assoc n es
  end.

Definition bits (m : fmeta) : Z := Z.land (fm_perm m) 511.

(** What the operator's tree shows at a path. *)
Definition tree_node (t : ftree) : option vnode :=
  match t with
  | FFile m size (Some data) => Some (VFile (bits m) (stake (Z.to_nat size) data))
  | FDir m _ _ => Some (VDir (bits m))
  | FLink m (Some target) => Some (VLink target)
  | _ => None
  end.

Fixpoint tree_at (t : ftree) (p : list string) : option vnode :=
  match p with
  | [] => tree_node t
  | c :: p =>
      match t with
      | FDir _ _ es => match assoc c es with Some t => tree_at t p | None => None end
      | _ => None
      end
  end.

Lemma assoc_None {A} n (es : list (string * A)) : assoc n es = None ↔ n ∉ es.*1.
Proof.
  induction es as [|[n' a] es IH]; cbn; [split; [intros; apply not_elem_of_nil|done]|].
  rewrite not_elem_of_cons. destruct (String.eqb_spec n' n) as [->|Hne].
  - split; [done|]. by intros [? _].
  - rewrite IH. naive_solver.
Qed.

Lemma assoc_perm {A} n (es es' : list (string * A)) : NoDup es.*1 → es ≡ₚ es' → assoc n es = assoc n es'.
Proof.
  intros Hnd Hp. revert Hnd. induction Hp as [|[n1 a1] l l' Hp IH|[n1 a1] [n2 a2] l|l l' l'' H1 IH1 H2 IH2];
    intros Hnd; cbn in *; [done|..].
  - apply NoDup_cons in Hnd as [_ Hnd]. by rewrite IH.
  - apply NoDup_cons in Hnd as [Hn _]. apply not_elem_of_cons in Hn as [Hn _].
    destruct (String.eqb_spec n1 n), (String.eqb_spec n2 n); congruence.
  - rewrite IH1 by done. apply IH2. by rewrite <-H1.
Qed.

(** * The extraction follows a view *)

Section roundtrip.
Context `{GoRuntime, Privilege}.

(** The part of [p] below [l]. *)
Fixpoint strip (l p : list string) : option (list string) :=
  match l, p with
  | [], p => Some p
  | a :: l, b :: p => if String.eqb a b then strip l p else None
  | _ :: _, [] => None
  end.

Lemma strip_Some l p r : strip l p = Some r ↔ p = l ++ r.
Proof.
  revert p. induction l as [|a l IH]; intros p; cbn; [naive_solver|].
  destruct p as [|b p]; [naive_solver|]. destruct (String.eqb_spec a b) as [->|Hne].
  - rewrite IH. naive_solver.
  - split; [done|]. intros [= -> ->]. done.
Qed.

Lemma strip_None l p : strip l p = None ↔ ¬ l `prefix_of` p.
Proof.
  destruct (strip l p) as [r|] eqn:Hs.
  - apply strip_Some in Hs as ->. split; [done|]. intros Hn. destruct Hn. by exists r.
  - split; [|done]. intros _ [r ->]. assert (strip l (l ++ r) = Some r) by (by apply strip_Some). congruence.
Qed.

(** A tree placed at a path of a view. *)
Definition graft (V : view) (l : list string) (t : ftree) : view := λ p,
  match strip l p with Some r => tree_at t r | None => V p end.

Definition vput (V : view) (l : list string) (v : vnode) : view := λ p,
  if decide (p = l) then Some v else V p.

(** The children of a directory, placed below it. *)
Definition graft_kids (V : view) (l : list string) (es : list (string * ftree)) : view := λ p,
  match strip l p with
  | Some (c :: r) => match assoc c es with Some t => tree_at t r | None => V p end
  | _ => V p
  end.

(** The state of the extraction shows the view: directories are still open to
    the owner and their modes wait in [dirModes]. *)
Record shows (x : extraction) (V : view) : Prop := {
  sh_wf : wf_root (x_root x);
  sh_root : ∃ m, V [] = Some (VDir m);
  sh_node : ∀ p,
    match V p with
    | Some (VDir m) => r_tree (x_root x) !! reverse p = Some (NDir mode_0700) ∧
        (p ≠ [] → x_dirModes x !! rel_path p = Some m)
    | Some (VFile perm data) => ∃ i, r_tree (x_root x) !! reverse p = Some (NFile i) ∧
        r_inodes (x_root x) !! i = Some (mkInode perm data)
    | Some (VLink t) => r_tree (x_root x) !! reverse p = Some (NLink t)
    | None => r_tree (x_root x) !! reverse p = None
    end;
  sh_modes : ∀ key m, x_dirModes x !! key = Some m →
    ∃ p, p ≠ [] ∧ Forall proper_seg p ∧ key = rel_path p ∧ V p = Some (VDir m);
}.

(** The counters of the two directions agree. *)
Record counts (lim : Limits) (st : packStats) (x : extraction) : Prop := {
  ct_limits : x_limits x = lim;
  ct_files : x_files x = total st;
  ct_bytes : x_bytes x = st_bytes st;
  ct_range : (0 ≤ st_bytes st ≤ MaxBytes lim)%Z;
}.

(** The place is free, and its parents are directories. *)
Record free_at (V : view) (l : list string) : Prop := {
  fr_free : ∀ p, l `prefix_of` p → V p = None;
  fr_parents : ∀ q c r, l = q ++ c :: r → ∃ m, V q = Some (VDir m);
}.

Lemma search_0700 : searchable mode_0700 = true.
Proof. unfold searchable. by rewrite orb_true_r. Qed.

Lemma shows_straight x V l c : shows x V → free_at V (l ++ [c]) → straight (x_root x) [] l.
Proof.
  intros Hs Hf p [r Hp]. rewrite app_nil_r. unfold can_search.
  destruct (fr_parents _ _ Hf p (default c (head (r ++ [c]))) (tail (r ++ [c]))) as [m Hm].
  { rewrite Hp, <-app_assoc. f_equal. by destruct r. }
  pose proof (sh_node _ _ Hs p) as Hn. rewrite Hm in Hn. destruct Hn as [-> _]. apply search_0700.
Qed.

Lemma shows_absent x V p : shows x V → V p = None → r_tree (x_root x) !! reverse p = None.
Proof. intros Hs Hp. pose proof (sh_node _ _ Hs p) as Hn. by rewrite Hp in Hn. Qed.

Lemma free_self V l : free_at V l → V l = None.
Proof. intros Hf. by apply (fr_free _ _ Hf). Qed.

Lemma free_absent x V l c : shows x V → free_at V (l ++ [c]) → r_tree (x_root x) !! (c :: reverse l) = None.
Proof.
  intros Hs Hf. rewrite <-reverse_snoc. eapply shows_absent; [done|]. by apply free_self.
Qed.

(** Clearing a free place does nothing. *)
Lemma replace_free x V l c isDir : shows x V → free_at V (l ++ [c]) →
  Forall proper_seg l → proper_seg c →
  replaceExisting (rel_path (l ++ [c])) isDir x = Ok x.
Proof.
  intros Hs Hf Hl Hc. unfold replaceExisting, root_Lstat.
  rewrite resolve_straight by (done || by eapply shows_straight). cbn.
  unfold node_at. by rewrite (free_absent x V).
Qed.

Lemma rel_path_ne_dot l : Forall proper_seg l → l ≠ [] → String.eqb (rel_path l) "." = false.
Proof.
  intros Hl Hne. apply String.eqb_neq. intros Hd. destruct l as [|s l]; [done|].
  apply (rel_path_inj (s :: l) []) in Hd; [done|done|constructor].
Qed.

(** Every prefix is recorded already: nothing changes. *)
Lemma record_known m l r : Forall proper_seg (l ++ r) →
  (∀ q c r', r = q ++ c :: r' → is_Some (m !! rel_path (l ++ q ++ [c]))) →
  record_prefixes (if decide (l = []) then "" else rel_path l) r m = m.
Proof.
  revert l. induction r as [|c r IH]; intros l Hp Hm; [done|]. cbn [record_prefixes].
  assert (path_join (if decide (l = []) then "" else rel_path l) c = rel_path (l ++ [c])) as ->.
  { apply Forall_app in Hp as [Hl [Hc _]%Forall_cons]. case_decide; [subst l|by apply path_join_segs].
    unfold path_join. cbn [String.eqb]. rewrite (proj2 (String.eqb_neq c "")) by apply Hc.
    cbn [app]. apply (path_clean_segs [c]). by apply Forall_singleton. }
  destruct (Hm [] c r eq_refl) as [v Hv]. cbn [app] in Hv. rewrite Hv.
  rewrite <-(IH (l ++ [c])) at 2.
  - destruct (decide (l ++ [c] = [])) as [He|]; [by destruct l|done].
  - by rewrite <-app_assoc.
  - intros q c' r' ->. destruct (Hm (c :: q) c' r' eq_refl) as [w Hw].
    rewrite <-app_assoc. cbn [app] in *. eauto.
Qed.

Lemma set_same x : set_modes (x_dirModes x) (set_root (x_root x) x) = x.
Proof. by destruct x. Qed.

(** Making the parents of a free place does nothing. *)
Lemma parents_free x V l c : shows x V → free_at V (l ++ [c]) →
  Forall proper_seg l → proper_seg c →
  ensureParents (rel_path (l ++ [c])) x = Ok x.
Proof.
  intros Hs Hf Hl Hc. unfold ensureParents. rewrite path_dir_snoc by done. unfold ensureDir.
  destruct l as [|a l]; [done|]. rewrite rel_path_ne_dot by done.
  unfold on_root. rewrite root_MkdirAll_exists by (done || by eapply shows_straight).
  cbn [mbind res_bind x_dirModes set_root]. rewrite split_rel by done.
  pose proof (record_known (x_dirModes x) [] (a :: l)) as Hr. cbn [decide app] in Hr.
  destruct (decide ([] = [])); [|done]. rewrite Hr; [by rewrite set_same|done|].
  intros q d r' Hq. destruct (fr_parents _ _ Hf (q ++ [d]) (default c (head (r' ++ [c]))) (tail (r' ++ [c]))) as [m Hm].
  { rewrite Hq, <-!app_assoc. cbn. do 2 f_equal. by destruct r'. }
  pose proof (sh_node _ _ Hs (q ++ [d])) as Hn. rewrite Hm in Hn. destruct Hn as [_ Hn].
  rewrite Hn by (by destruct q). eauto.
Qed.

(** ** One entry *)

Lemma tree_proper fs k : wf_root fs → is_Some (r_tree fs !! k) → Forall proper_seg k.
Proof.
  intros Hwf. induction k as [|c k IH]; intros Hk; constructor.
  - by apply (wr_name _ Hwf c k).
  - apply IH. destruct (wr_parent _ Hwf c k Hk) as [m Hm]. eauto.
Qed.

Lemma shows_proper x V p : shows x V → is_Some (V p) → Forall proper_seg p.
Proof.
  intros Hs [v Hv]. rewrite <-(reverse_involutive p), Forall_reverse.
  apply (tree_proper (x_root x)); [apply Hs|]. pose proof (sh_node _ _ Hs p) as Hn. rewrite Hv in Hn.
  destruct v as [m|perm d|t]; [destruct Hn as [-> _]|destruct Hn as (i & -> & _)|rewrite Hn]; eauto.
Qed.

Lemma shows_ext x x' V : x_root x' = x_root x → x_dirModes x' = x_dirModes x → shows x V → shows x' V.
Proof. intros E1 E2 [H1 H2 H3 H4]. split; rewrite ?E1, ?E2; try done. Qed.

(** Adding one node at a free place. *)
Lemma shows_vput x x' V p v n :
  shows x V → free_at V p → Forall proper_seg p → p ≠ [] → wf_root (x_root x') →
  r_tree (x_root x') = <[reverse p := n]> (r_tree (x_root x)) →
  (∀ i f, r_inodes (x_root x) !! i = Some f → r_inodes (x_root x') !! i = Some f) →
  match v with
  | VDir m => n = NDir mode_0700 ∧ x_dirModes x' = <[rel_path p := m]> (x_dirModes x)
  | VFile perm data => x_dirModes x' = x_dirModes x ∧
      ∃ i, n = NFile i ∧ r_inodes (x_root x') !! i = Some (mkInode perm data)
  | VLink t => x_dirModes x' = x_dirModes x ∧ n = NLink t
  end →
  shows x' (vput V p v).
Proof.
  intros Hs Hf Hp Hne Hwf Htree Hin Hv.
  assert (∀ q m, q ≠ [] → V q = Some (VDir m) → x_dirModes x' !! rel_path q = Some m) as Hmodes.
  { intros q m Hq HVq. pose proof (sh_node _ _ Hs q) as Hn. rewrite HVq in Hn. destruct Hn as [_ Hn].
    specialize (Hn Hq). destruct v; destruct Hv as [Hv1 Hv2]; [|congruence..].
    rewrite Hv2, lookup_insert_ne; [done|]. intros Heq.
    apply rel_path_inj in Heq; [|done|by eapply shows_proper; eauto].
    subst q. rewrite (free_self V p Hf) in HVq. done. }
  split; [done|..].
  - destruct (sh_root _ _ Hs) as [m Hm]. exists m. unfold vput. by rewrite decide_False.
  - intros q. unfold vput. rewrite Htree. destruct (decide (q = p)) as [->|Hqp].
    + rewrite lookup_insert_eq. destruct v as [m|perm data|t].
      * destruct Hv as [-> ->]. split; [done|]. intros _. by rewrite lookup_insert_eq.
      * destruct Hv as (_ & i & -> & Hi). eauto.
      * by destruct Hv as [_ ->].
    + assert (reverse p ≠ reverse q) as Hr by (intros Heq%(inj reverse); congruence).
      rewrite lookup_insert_ne by done. pose proof (sh_node _ _ Hs q) as Hn.
      destruct (V q) as [[m|perm data|t]|] eqn:HVq; [|naive_solver..].
      destruct Hn as [Hn1 Hn2]. split; [done|]. intros Hq. by apply Hmodes.
  - intros key m Hk.
    assert (key = rel_path p ∧ v = VDir m ∨ x_dirModes x !! key = Some m) as [[-> ->]|Hk'].
    { destruct v as [m'|perm data|t]; destruct Hv as [Hv1 Hv2]; [|right; congruence..].
      rewrite Hv2 in Hk. apply lookup_insert_Some in Hk as [[<- <-]|[_ ?]]; auto. }
    + exists p. unfold vput. by rewrite decide_True.
    + destruct (sh_modes _ _ Hs key m Hk') as (q & Hq1 & Hq2 & -> & Hq4). exists q.
      split_and!; [done..|]. unfold vput. rewrite decide_False; [done|]. intros ->.
      rewrite (free_self V p Hf) in Hq4. done.
Qed.

(** A name packing accepts is one extraction accepts, with or without the
    trailing slash of a directory. *)
Lemma hasDriveLetter_slash s : hasDriveLetter (s +:+ "/") = hasDriveLetter s.
Proof. destruct s as [|a [|b s]]; cbn; [done|by destruct (is_letter a)|done]. Qed.

Lemma contains_byte_app a b c : contains_byte (a +:+ b) c = contains_byte a c || contains_byte b c.
Proof.
  apply eq_true_iff_eq. rewrite orb_true_iff, !contains_byte_spec. apply in_str_app.
Qed.

Lemma no_dotdot_existsb l : ".." ∉ l → existsb (String.eqb "..") l = false.
Proof.
  intros Hn. apply not_true_iff_false. intros (s & Hin & Heq%String.eqb_eq)%existsb_exists. subst s.
  apply Hn. by apply list_elem_of_In.
Qed.

Lemma accepted_clean l c lim : Forall proper_seg l → proper_seg c →
  checkEntryName (rel_path (l ++ [c])) lim = Ok tt →
  cleanEntryPath (rel_path (l ++ [c])) = Ok (rel_path (l ++ [c])) ∧
  cleanEntryPath (rel_path (l ++ [c]) +:+ "/") = Ok (rel_path (l ++ [c])) ∧
  is_whiteout (path_base (rel_path (l ++ [c]))) = false ∧
  (MaxDepth lim <? entry_depth (rel_path (l ++ [c])))%Z = false.
Proof.
  intros Hl Hc. set (p := l ++ [c]).
  assert (Forall proper_seg p ∧ p ≠ []) as [Hp Hne] by (split; [by apply proper_snoc|by destruct l]).
  unfold checkEntryName.
  destruct (contains_byte (rel_path p) NUL) eqn:E1; [done|].
  destruct (contains_byte (rel_path p) backslash) eqn:E2; [done|].
  destruct (hasDriveLetter (rel_path p)) eqn:E3; [done|].
  destruct (is_whiteout (path_base (rel_path p))) eqn:E4; [done|].
  destruct (_ <? _)%Z; [done|]. intros _. split_and!; [..|done|done].
  - unfold cleanEntryPath. rewrite E1, E2, E3, rel_path_relative by done.
    rewrite split_rel, no_dotdot_existsb by (done || by apply proper_no_dotdot).
    rewrite path_clean_segs by done. rewrite (proj2 (String.eqb_neq _ "")); [done|].
    intros He. pose proof (split_rel p Hp Hne) as Hsp. rewrite He in Hsp. cbn in Hsp.
    rewrite <-Hsp in Hp. apply Forall_cons in Hp as [[[? _] _] _]. done.
  - unfold cleanEntryPath. rewrite !contains_byte_app, E1, E2, hasDriveLetter_slash, E3.
    change (contains_byte "/" NUL) with false. change (contains_byte "/" backslash) with false.
    cbn [orb].
    assert (split_byte "/" (rel_path p +:+ "/") = p ++ [""]) as Hsp.
    { rewrite (split_byte_sep "/" (rel_path p) ""), split_rel by done. done. }
    rewrite Hsp, no_dotdot_existsb.
    2:{ rewrite not_elem_of_app. split; [by apply proper_no_dotdot|]. set_solver. }
    rewrite path_clean_slash by done.
    assert (has_prefix (rel_path p +:+ "/") "/" = false) as ->.
    { apply not_true_iff_false. intros (segs & Hs & _)%has_prefix_slash. rewrite Hsp in Hs.
      destruct p as [|a p']; [done|]. injection Hs as -> _.
      apply Forall_cons in Hp as [[[? _] _] _]. done. }
    rewrite (proj2 (String.eqb_neq _ "")); [done|]. destruct (rel_path p); done.
Qed.

(** A link target packing accepts is one extraction accepts. *)
Lemma replace_byte_none a b s : contains_byte s a = false → replace_byte a b s = s.
Proof. rewrite contains_byte_false. apply replace_byte_id. Qed.

Lemma accepted_link name target : checkLinkTarget name target = Ok tt →
  checkSymlink name target = Ok tt ∧ contains_byte target NUL || String.eqb target "" = false.
Proof.
  unfold checkLinkTarget, checkSymlink. intros Hc.
  destruct (String.eqb target "") eqn:E1; [done|].
  destruct (contains_byte target NUL) eqn:E2; [done|].
  destruct (contains_byte target backslash) eqn:E5.
  { destruct (_ || _); [done|]. destruct (escapes_root _); done. }
  rewrite replace_byte_none in Hc by done.
  destruct (has_prefix target "/") eqn:E3; [done|].
  destruct (hasDriveLetter target) eqn:E4; [done|]. cbn [orb] in *.
  destruct (escapes_root _); done.
Qed.

(** ** The directory modes *)

Lemma tree_parent fs k' k : wf_root fs → k' ≠ [] → is_Some (r_tree fs !! (k' ++ k)) → is_dir fs k.
Proof.
  intros Hwf. induction k' as [|c k' IH]; intros Hne Hs; [done|].
  pose proof (wr_parent _ Hwf c (k' ++ k) Hs) as Hpar. destruct k' as [|d k']; [done|].
  apply IH; [done|]. destruct Hpar as [m Hm]. eauto.
Qed.

Lemma shows_some x V p : shows x V → is_Some (V p) → is_Some (r_tree (x_root x) !! reverse p).
Proof.
  intros Hs [v Hv]. pose proof (sh_node _ _ Hs p) as Hn. rewrite Hv in Hn.
  destruct v as [m|perm d|t]; [destruct Hn as [-> _]|destruct Hn as (i & -> & _)|rewrite Hn]; eauto.
Qed.

Lemma shows_parents x V q c r : shows x V → is_Some (V (q ++ c :: r)) → ∃ m, V q = Some (VDir m).
Proof.
  intros Hs Hp. apply (shows_some x) in Hp; [|done]. rewrite reverse_app in Hp.
  apply tree_parent in Hp as [m Hm]; [|apply Hs|rewrite reverse_cons; by destruct (reverse r)].
  pose proof (sh_node _ _ Hs q) as Hn. destruct (V q) as [[m'|perm d|t]|]; [by exists m'|..].
  - destruct Hn as (i & Hi & _). congruence.
  - congruence.
  - congruence.
Qed.

(** The tree after some of the recorded modes were applied. *)
Definition moded (x : extraction) (V : view) (done : list string) (fs : RootFS) : Prop :=
  r_inodes fs = r_inodes (x_root x) ∧
  ∀ p, match V p with
       | Some (VDir m) => r_tree fs !! reverse p =
           Some (NDir (if bool_decide (rel_path p ∈ done) then m else mode_0700))
       | _ => r_tree fs !! reverse p = r_tree (x_root x) !! reverse p
       end.

Lemma moded_step x V done fs p m :
  shows x V → (∀ q m, V q = Some (VDir m) → searchable m = true) →
  moded x V done fs → p ≠ [] → V p = Some (VDir m) →
  ∃ fs', root_Chmod (rel_path p) m fs = Ok fs' ∧ moded x V (rel_path p :: done) fs'.
Proof.
  intros Hs Hsearch [Hin Hm] Hne Hp.
  assert (Forall proper_seg p) as Hpp by (eapply shows_proper; eauto).
  destruct (exists_last Hne) as (l & c & ->). apply proper_snoc in Hpp as Hlc. destruct Hlc as [Hl Hc].
  exists (put (c :: reverse l) (NDir m) fs). pose proof (Hm (l ++ [c])) as Hmp. rewrite Hp, reverse_snoc in Hmp.
  split.
  - unfold root_Chmod. rewrite resolve_straight; [|done..| |].
    + cbn [mbind res_bind]. unfold node_at. rewrite Hmp. done.
    + intros q [r ->]. rewrite app_nil_r. unfold can_search.
      destruct (shows_parents x V q (default c (head (r ++ [c]))) (tail (r ++ [c]))) as [mq Hq]; [done| |].
      { exists (VDir m). rewrite <-Hp, <-app_assoc. f_equal. f_equal. by destruct r. }
      specialize (Hm q). rewrite Hq in Hm. rewrite Hm.
      destruct (bool_decide (rel_path q ∈ done)); [by apply (Hsearch q)|apply search_0700].
    + intros _ t. by rewrite Hmp.
  - split; [done|]. intros q. specialize (Hm q). destruct (decide (q = l ++ [c])) as [->|Hqp].
    + rewrite Hp, reverse_snoc. cbn. rewrite lookup_insert_eq, bool_decide_true; [done|].
      apply elem_of_cons. by left.
    + assert (c :: reverse l ≠ reverse q) as Hr.
      { rewrite <-reverse_snoc. intros Heq%(inj reverse). congruence. }
      cbn. rewrite lookup_insert_ne by done.
      destruct (V q) as [[mq| |]|] eqn:HVq; [|done..]. rewrite Hm. do 2 f_equal.
      rewrite (bool_decide_ext (rel_path q ∈ rel_path (l ++ [c]) :: done) (rel_path q ∈ done)); [done|].
      rewrite elem_of_cons. split; [|by right]. intros [Heq|]; [|done]. destruct Hqp.
      apply rel_path_inj in Heq; [done|eapply shows_proper; eauto|done].
Qed.

Lemma apply_modes_shows x V :
  shows x V → (∀ q m, V q = Some (VDir m) → searchable m = true) →
  ∀ dirs done y, moded x V done (x_root y) →
  Forall (λ km, ∃ p, p ≠ [] ∧ km.1 = rel_path p ∧ V p = Some (VDir km.2)) dirs →
  ∃ y', apply_modes dirs y = Ok y' ∧ moded x V (reverse dirs.*1 ++ done) (x_root y').
Proof.
  intros Hs Hsearch dirs. induction dirs as [|[key m] dirs IH]; intros done y Hy Hd; [by exists y|].
  apply Forall_cons in Hd as [(p & Hne & Hk & Hp) Hd]. cbn in Hk, Hp. subst key.
  destruct (moded_step x V done (x_root y) p m) as (fs' & Hch & Hm'); [done..|].
  cbn [apply_modes]. unfold on_root. rewrite Hch. cbn [mbind res_bind].
  destruct (IH (rel_path p :: done) (set_root fs' y) Hm' Hd) as (y' & Ha & Hy'). exists y'.
  split; [done|]. cbn [fmap list_fmap fst]. by rewrite reverse_cons, <-app_assoc.
Qed.

(** What the finished extraction shows. *)
Lemma restore_shows x V :
  shows x V → (∀ q m, V q = Some (VDir m) → searchable m = true) → V [] = Some (VDir mode_0700) →
  ∃ x', restore_modes x = Ok x' ∧ ∀ p, fs_view (x_root x') p = V p.
Proof.
  intros Hs Hsearch Hroot. unfold restore_modes.
  destruct (apply_modes_shows x V Hs Hsearch (map_range (x_dirModes x)) [] x) as (x' & Ha & Hin & Hm).
  - split; [done|]. intros p. pose proof (sh_node _ _ Hs p) as Hn.
    destruct (V p) as [[m| |]|]; [|done..]. destruct Hn as [-> _]. by rewrite bool_decide_false by set_solver.
  - apply Forall_forall. intros [key m] Hk. rewrite map_range_perm, elem_of_map_to_list in Hk.
    destruct (sh_modes _ _ Hs key m Hk) as (p & ? & _ & ? & ?). by exists p.
  - exists x'. split; [done|]. intros p. unfold fs_view. rewrite Hin. specialize (Hm p).
    pose proof (sh_node _ _ Hs p) as Hn.
    destruct (V p) as [[m|perm data|t]|] eqn:HVp; rewrite Hm.
    + destruct p as [|c p]; [rewrite HVp in Hroot; injection Hroot as ->; by case_bool_decide|].
      destruct Hn as [_ Hn]. specialize (Hn ltac:(done)). rewrite bool_decide_true; [done|].
      rewrite app_nil_r, elem_of_reverse. apply list_elem_of_fmap. exists (rel_path (c :: p), m).
      split; [done|]. rewrite map_range_perm. by apply elem_of_map_to_list.
    + destruct Hn as (i & -> & Hi). by rewrite Hi.
    + by rewrite Hn.
    + by rewrite Hn.
Qed.

(** ** The three kinds of entries *)

Context (lim : Limits) (Hlim : limits_ok lim) (Hsmall : (MaxBytes lim < 2 ^ 62)%Z).

Definition one_more (x : extraction) : extraction :=
  set_counts (x_files x + 1) (x_bytes x) (x_ignored x) x.

Lemma shows_one_more x V : shows x V → shows (one_more x) V.
Proof. by apply shows_ext. Qed.

(** An accepted name reaches the [switch] of [applyEntry]. *)
Lemma applyEntry_switch e x p :
  cleanEntryPath (te_name e) = Ok (rel_path p) → Forall proper_seg p → p ≠ [] →
  is_whiteout (path_base (rel_path p)) = false →
  (MaxDepth lim <? entry_depth (rel_path p))%Z = false →
  x_limits x = lim → (x_files x + 1 ≤ MaxFiles lim)%Z →
  applyEntry e x =
    match te_type e with
    | TypeDir =>
        x ← replaceExisting (rel_path p) true (one_more x);
        x ← ensureDir (rel_path p) x;
        Ok (set_modes (<[rel_path p := te_perm e]> (x_dirModes x)) x)
    | TypeReg => writeFile (rel_path p) (te_perm e) e (one_more x)
    | TypeSymlink => writeSymlink (rel_path p) (te_link e) (one_more x)
    | TypeLink => writeHardlink (rel_path p) (te_link e) (one_more x)
    | TypeOther => Ok (set_counts (x_files (one_more x) - 1) (x_bytes x) (x_ignored x + 1) (one_more x))
    end.
Proof.
  intros Hc Hp Hne Hw Hd Hl Hf. unfold applyEntry. rewrite Hc, Hw, Hl, Hd, rel_path_ne_dot by done.
  cbv zeta. cbn [x_files x_limits set_counts]. rewrite Hl.
  destruct (Z.ltb_spec (MaxFiles lim) (x_files x + 1)); [lia|]. reflexivity.
Qed.

Lemma record_last m l c : Forall proper_seg (l ++ [c]) →
  (∀ q d r', l = q ++ d :: r' → is_Some (m !! rel_path (q ++ [d]))) → m !! rel_path (l ++ [c]) = None →
  record_prefixes "" (l ++ [c]) m = <[rel_path (l ++ [c]) := mode_0755]> m.
Proof.
  intros Hp Hm Hn.
  assert (∀ q r, q ++ r = l ++ [c] → r ≠ [] →
    record_prefixes (if decide (q = []) then "" else rel_path q) r m =
      <[rel_path (l ++ [c]) := mode_0755]> m) as Hgen; [|by apply (Hgen [] (l ++ [c])); [|destruct l]].
  intros q r. revert q. induction r as [|a r IH]; intros q Hq Hr; [done|]. cbn [record_prefixes].
  assert (Forall proper_seg q ∧ proper_seg a) as [Hpq Hpa].
  { rewrite <-Hq in Hp. apply Forall_app in Hp as [? Hp]. apply Forall_cons in Hp as [? _]. done. }
  assert (path_join (if decide (q = []) then "" else rel_path q) a = rel_path (q ++ [a])) as ->.
  { case_decide; [subst q|by apply path_join_segs].
    unfold path_join. cbn [String.eqb]. rewrite (proj2 (String.eqb_neq a "")) by apply Hpa.
    cbn [app]. apply (path_clean_segs [a]). by apply Forall_singleton. }
  destruct r as [|b r].
  - rewrite Hq, Hn. done.
  - assert (∃ r', l = q ++ a :: r') as [r' Hl'].
    { destruct (@exists_last _ (b :: r)) as (r1 & z & Hz); [done|]. rewrite Hz in Hq.
      exists r1. rewrite app_comm_cons, app_assoc in Hq. by apply app_inj_tail in Hq as [<- _]. }
    destruct (Hm q a r' Hl') as [v ->].
    rewrite <-(IH (q ++ [a])); [|by rewrite <-app_assoc|done].
    destruct (decide (q ++ [a] = [])) as [He|]; [by destruct q|done].
Qed.

Lemma parent_modes x V l c : shows x V → free_at V (l ++ [c]) →
  ∀ q d r', l = q ++ d :: r' → is_Some (x_dirModes x !! rel_path (q ++ [d])).
Proof.
  intros Hs Hf q d r' Hq.
  destruct (fr_parents _ _ Hf (q ++ [d]) (default c (head (r' ++ [c]))) (tail (r' ++ [c]))) as [m Hm].
  { rewrite Hq, <-!app_assoc. cbn. do 2 f_equal. by destruct r'. }
  pose proof (sh_node _ _ Hs (q ++ [d])) as Hn. rewrite Hm in Hn. destruct Hn as [_ Hn].
  rewrite Hn by (by destruct q). eauto.
Qed.

Lemma free_mode x V p : shows x V → V p = None → Forall proper_seg p → x_dirModes x !! rel_path p = None.
Proof.
  intros Hs Hv Hp. apply eq_None_not_Some. intros [m Hm].
  destruct (sh_modes _ _ Hs _ _ Hm) as (q & Hq1 & Hq2 & Hq3 & Hq4).
  apply rel_path_inj in Hq3; [|done..]. congruence.
Qed.

Lemma step_dir x V l c m : shows x V → free_at V (l ++ [c]) → Forall proper_seg l → proper_seg c →
  ∃ x', (x ← replaceExisting (rel_path (l ++ [c])) true x;
         x ← ensureDir (rel_path (l ++ [c])) x;
         Ok (set_modes (<[rel_path (l ++ [c]) := m]> (x_dirModes x)) x)) = Ok x' ∧
    shows x' (vput V (l ++ [c]) (VDir m)) ∧ same_counts x x'.
Proof.
  intros Hs Hf Hl Hc. assert (Forall proper_seg (l ++ [c])) as Hp by (by apply proper_snoc).
  rewrite (replace_free x V) by done. cbn [mbind res_bind]. unfold ensureDir.
  rewrite rel_path_ne_dot by (done || by destruct l). unfold on_root.
  pose proof (free_absent x V l c Hs Hf) as Habs.
  rewrite root_MkdirAll_new by (done || by eapply shows_straight). cbn [mbind res_bind].
  eexists. split; [reflexivity|]. split; [|done].
  eapply (shows_vput x _ V (l ++ [c]) (VDir m) (NDir mode_0700)); cbn; [done..|by destruct l| | |done|].
  - eapply (root_MkdirAll_wf (rel_path (l ++ [c])) mode_0700 (x_root x)); [apply Hs|].
    apply root_MkdirAll_new; try done. by eapply shows_straight.
  - by rewrite reverse_snoc.
  - split; [done|]. rewrite split_rel by (done || by destruct l).
    rewrite record_last; [by rewrite insert_insert_eq|done|by eapply parent_modes|].
    eapply free_mode; [done|by apply free_self|done].
Qed.

(** The second half of [writeFile] at a free place: the file, then its mode. *)
Lemma create_then_chmod fs l c perm data :
  wf_root fs → Forall proper_seg l → proper_seg c → straight fs [] l →
  r_tree fs !! (c :: reverse l) = None →
  ∃ fs1 fs2, root_Create (rel_path (l ++ [c])) mode_0600 data fs = Ok fs1 ∧
    root_Chmod (rel_path (l ++ [c])) perm fs1 = Ok fs2 ∧
    r_tree fs2 = <[c :: reverse l := NFile (r_next fs)]> (r_tree fs) ∧
    r_inodes fs2 = <[r_next fs := mkInode perm data]> (r_inodes fs).
Proof.
  intros Hwf Hl Hc Hst Habs. unfold root_Create.
  rewrite resolve_straight by (done || intros _ t; congruence). cbn [mbind res_bind]. rewrite Habs.
  eexists _, _. split; [reflexivity|]. unfold root_Chmod.
  rewrite resolve_straight; [|done..| |].
  - cbn [mbind res_bind]. unfold node_at. cbn [r_tree]. rewrite lookup_insert_eq. cbn [mbind res_bind].
    split; [reflexivity|]. cbn. split; [done|].
    apply map_eq. intros i. destruct (decide (i = r_next fs)) as [->|].
    + by rewrite lookup_alter_eq, !lookup_insert_eq.
    + by rewrite lookup_alter_ne, !lookup_insert_ne.
  - intros p Hp. specialize (Hst p Hp). unfold can_search in *. cbn [r_tree].
    rewrite lookup_insert_ne; [done|]. intros Heq. rewrite <-Heq in Hst. rewrite Habs in Hst. done.
  - intros _ t. cbn [r_tree]. by rewrite lookup_insert_eq.
Qed.

Lemma step_file x V l c e perm : shows x V → free_at V (l ++ [c]) → Forall proper_seg l → proper_seg c →
  te_broken e = false → x_limits x = lim → (0 ≤ x_bytes x)%Z →
  (x_bytes x + Z.of_nat (slen (te_data e)) ≤ MaxBytes lim)%Z →
  ∃ x', writeFile (rel_path (l ++ [c])) perm e x = Ok x' ∧
    shows x' (vput V (l ++ [c]) (VFile perm (te_data e))) ∧
    x_limits x' = lim ∧ x_files x' = x_files x ∧
    x_bytes x' = (x_bytes x + Z.of_nat (slen (te_data e)))%Z.
Proof.
  intros Hs Hf Hl Hc Hbr Hxl Hb0 Hb1. unfold writeFile.
  rewrite (replace_free x V) by done. cbn [mbind res_bind].
  rewrite (parents_free x V) by done. cbn [mbind res_bind].
  assert (byte_budget x = Z.min (MaxBytes lim - x_bytes x) (int64_max - 1)) as Hbud.
  { unfold byte_budget, sub64. rewrite Hxl, wrap64_id; [done|].
    destruct Hlim as [? _]. unfold is_int64, int64_min, int64_max in *. lia. }
  set (size := Z.of_nat (slen (te_data e))) in *.
  assert (size ≤ byte_budget x)%Z as Hsz by (rewrite Hbud; unfold int64_max; lia).
  assert (Z.min size (byte_budget x + 1) = size) as -> by lia.
  rewrite stake_all by lia.
  destruct (create_then_chmod (x_root x) l c perm (te_data e)) as (fs1 & fs2 & Hcr & Hch & Ht & Hi);
    [apply Hs|done|done|by eapply shows_straight|by eapply free_absent|].
  unfold on_root. rewrite Hcr. cbn [mbind res_bind x_files x_bytes x_ignored set_root].
  rewrite Hbr. cbn [andb]. destruct (Z.ltb_spec (byte_budget x) size); [lia|].
  cbn [x_root set_counts set_root]. rewrite Hch. eexists. split; [reflexivity|]. split.
  - eapply (shows_vput x _ V (l ++ [c]) (VFile perm (te_data e)) (NFile (r_next (x_root x))));
      cbn; [done|done|by apply proper_snoc|by destruct l| | | |].
    + eapply root_Chmod_wf; [|exact Hch]. eapply root_Create_wf; [|exact Hcr]. apply Hs.
    + by rewrite Ht, reverse_snoc.
    + intros i f Hif. rewrite Hi, lookup_insert_ne; [done|]. intros <-.
      pose proof (wr_next _ (sh_wf _ _ Hs) (r_next (x_root x)) ltac:(eauto)). lia.
    + split; [done|]. eexists. split; [done|]. by rewrite Hi, lookup_insert_eq.
  - cbn. split; [done|]. split; [done|]. unfold add64. apply wrap64_id.
    unfold is_int64, int64_min, int64_max in *. lia.
Qed.

Lemma step_link x V l c target : shows x V → free_at V (l ++ [c]) → Forall proper_seg l → proper_seg c →
  checkLinkTarget (rel_path (l ++ [c])) target = Ok tt →
  ∃ x', writeSymlink (rel_path (l ++ [c])) target x = Ok x' ∧
    shows x' (vput V (l ++ [c]) (VLink target)) ∧ same_counts x x'.
Proof.
  intros Hs Hf Hl Hc Ht. destruct (accepted_link _ _ Ht) as [Hchk Hnul]. unfold writeSymlink.
  rewrite Hchk, (replace_free x V) by done. cbn [mbind res_bind].
  rewrite (parents_free x V) by done. cbn [mbind res_bind].
  pose proof (free_absent x V l c Hs Hf) as Habs.
  assert (root_Symlink target (rel_path (l ++ [c])) (x_root x) =
    Ok (put (c :: reverse l) (NLink target) (x_root x))) as Hsy.
  { unfold root_Symlink. rewrite Hnul, resolve_straight by (done || by eapply shows_straight).
    cbn [mbind res_bind]. by rewrite Habs. }
  unfold on_root. rewrite Hsy. eexists. split; [reflexivity|]. split; [|done].
  eapply (shows_vput x _ V (l ++ [c]) (VLink target) (NLink target)); cbn;
    [done|done|by apply proper_snoc|by destruct l| | |done|done].
  - eapply root_Symlink_wf; [|exact Hsy]. apply Hs.
  - by rewrite reverse_snoc.
Qed.

(** ** The walk and the extraction in step *)

(** Extraction of [es] goes from [x] to a state that shows [V']. *)
Definition extracts (es : list tar_entry) (x : extraction) (st : packStats) (V' : view) : Prop :=
  ∃ x', applyEntries [] es true x = Ok (x', []) ∧ shows x' V' ∧ counts lim st x'.

Lemma applyEntries_app es1 es2 x :
  applyEntries [] (es1 ++ es2) true x =
    ('(x, _) ← applyEntries [] es1 true x; applyEntries [] es2 true x).
Proof.
  revert x. induction es1 as [|e es1 IH]; intros x; [done|]. cbn [app applyEntries head default tail].
  destruct (applyEntry e x) as [x1|]; cbn [mbind res_bind]; [|done]. apply IH.
Qed.

Lemma extracts_app es1 es2 x st1 V1 st2 V2 :
  extracts es1 x st1 V1 →
  (∀ x1, shows x1 V1 → counts lim st1 x1 → extracts es2 x1 st2 V2) →
  extracts (es1 ++ es2) x st2 V2.
Proof.
  intros (x1 & Ha & Hs & Hc) H2. destruct (H2 x1 Hs Hc) as (x2 & Ha2 & Hs2 & Hc2).
  exists x2. rewrite applyEntries_app, Ha. done.
Qed.

Lemma shows_pointwise x V V' : (∀ p, V p = V' p) → shows x V → shows x V'.
Proof.
  intros HV [H1 H2 H3 H4]. split; [done|..].
  - by rewrite <-HV.
  - intros p. rewrite <-HV. apply H3.
  - intros key m Hk. destruct (H4 key m Hk) as (p & ? & ? & ? & ?). exists p. by rewrite <-HV.
Qed.

Lemma extracts_pointwise es x st V V' : (∀ p, V p = V' p) → extracts es x st V → extracts es x st V'.
Proof. intros HV (x' & ? & ? & ?). exists x'. split_and!; [done|by eapply shows_pointwise|done]. Qed.

Lemma te_perm_header name ty m link data : te_perm (packHeader name ty m link data) = bits m.
Proof.
  unfold te_perm, packHeader, bits. cbn. by rewrite <-Z.land_assoc, Z.land_diag.
Qed.

Lemma te_type_header name ty m link data : te_type (packHeader name ty m link data) = ty.
Proof. done. Qed.

(** What one entry of the walk does to the archive, to the counters, and to an
    extraction that has followed so far. *)
Definition node_step (p : list string) (t : ftree) (s s' : packState) : Prop :=
  ∃ e v, ps_out s' = ps_out s ++ [e] ∧ tree_node t = Some v ∧ te_broken e = false ∧
    (0 ≤ st_bytes (ps_stats s') ≤ MaxBytes lim)%Z ∧
    ∀ x V, shows x V → counts lim (ps_stats s) x → free_at V p →
      extracts [e] x (ps_stats s') (vput V p v).

Lemma extracts_one e x x' st V : applyEntry e x = Ok x' → shows x' V → counts lim st x' → extracts [e] x st V.
Proof. intros Ha ??. exists x'. cbn [applyEntries head default tail]. by rewrite Ha. Qed.

(** The counters after one more entry that is not a file. *)
Lemma counts_one_more st st' x x' :
  counts lim st x → same_counts (one_more x) x' → total st' = (total st + 1)%Z → st_bytes st' = st_bytes st →
  counts lim st' x'.
Proof.
  intros [K1 K2 K3 K4] (E1 & E2 & E3) Ht Hb. cbn in *.
  split; [congruence|rewrite E2; lia|rewrite E3; lia|lia].
Qed.

Lemma file_step l c m size data s s' :
  Forall proper_seg l → proper_seg c → (0 ≤ size < 2 ^ 62)%Z →
  (0 ≤ st_bytes (ps_stats s) ≤ MaxBytes lim)%Z →
  checkEntryName (rel_path (l ++ [c])) lim = Ok tt →
  pack_switch lim (rel_path (l ++ [c])) (FFile m size data) s = Ok s' →
  (total (ps_stats s') ≤ MaxFiles lim)%Z →
  node_step (l ++ [c]) (FFile m size data) s s'.
Proof.
  intros Hl Hc Hsize Hb0 Hname Hsw Htot. destruct (accepted_clean l c lim Hl Hc Hname) as (Hc1 & _ & Hw & Hd).
  cbn in Hsw.
  destruct (Z.ltb_spec (MaxBytes lim) (add64 (st_bytes (ps_stats s)) size)) as [|Hle]; [done|].
  inv_ok. unfold copyRegular in *. destruct data as [data|]; [|done].
  destruct (Z.eqb_spec (Z.of_nat (slen (stake (Z.to_nat size) data))) size) as [Hsz|]; [|done]. inv_ok.
  assert (add64 (st_bytes (ps_stats s)) size = st_bytes (ps_stats s) + size)%Z as Hadd.
  { unfold add64. apply wrap64_id. unfold is_int64, int64_min, int64_max. lia. }
  eexists _, _. split; [reflexivity|]. split; [reflexivity|]. split; [done|].
  split; [cbn; lia|]. intros x V Hs [K1 K2 K3 K4] Hf.
  assert (x_files x + 1 ≤ MaxFiles lim)%Z as Hfiles by (rewrite K2; unfold total in *; cbn in *; lia).
  set (e := packHeader _ _ _ _ _).
  destruct (step_file (one_more x) V l c e (bits m)) as (x' & Hx & Hx' & L1 & L2 & L3);
    [by apply shows_one_more|done..| | |].
  { cbn. rewrite K3. lia. }
  { cbn. rewrite K3, Hsz. lia. }
  eapply extracts_one; [|exact Hx'|].
  - rewrite (applyEntry_switch _ x (l ++ [c])) by (done || by apply proper_snoc || by destruct l).
    subst e. by rewrite te_type_header, te_perm_header.
  - split; [done|rewrite L2; unfold total in *; cbn in *; lia|rewrite L3; cbn; lia|cbn; lia].
Qed.

Lemma dir_step l c m ok es s s' :
  Forall proper_seg l → proper_seg c → (0 ≤ st_bytes (ps_stats s) ≤ MaxBytes lim)%Z →
  checkEntryName (rel_path (l ++ [c])) lim = Ok tt →
  pack_switch lim (rel_path (l ++ [c])) (FDir m ok es) s = Ok s' →
  (total (ps_stats s') ≤ MaxFiles lim)%Z →
  node_step (l ++ [c]) (FDir m ok es) s s'.
Proof.
  intros Hl Hc Hb0 Hname Hsw Htot. destruct (accepted_clean l c lim Hl Hc Hname) as (_ & Hc2 & Hw & Hd).
  injection Hsw as <-. eexists _, _. split; [reflexivity|]. split; [reflexivity|]. split; [done|].
  split; [done|]. intros x V Hs Hk Hf.
  assert (x_files x + 1 ≤ MaxFiles lim)%Z as Hfiles
    by (rewrite (ct_files _ _ _ Hk); unfold total in *; cbn in *; lia).
  destruct (step_dir (one_more x) V l c (bits m)) as (x' & Hx & Hx' & E); [by apply shows_one_more|done..|].
  eapply extracts_one; [|exact Hx'|].
  - rewrite (applyEntry_switch _ x (l ++ [c])) by (done || apply Hk || by apply proper_snoc || by destruct l).
    by rewrite te_type_header, te_perm_header.
  - eapply counts_one_more; [done|done| |done]. unfold total; cbn; lia.
Qed.

Lemma link_step l c m target s s' :
  Forall proper_seg l → proper_seg c → (0 ≤ st_bytes (ps_stats s) ≤ MaxBytes lim)%Z →
  checkEntryName (rel_path (l ++ [c])) lim = Ok tt →
  pack_switch lim (rel_path (l ++ [c])) (FLink m target) s = Ok s' →
  (total (ps_stats s') ≤ MaxFiles lim)%Z →
  node_step (l ++ [c]) (FLink m target) s s'.
Proof.
  intros Hl Hc Hb0 Hname Hsw Htot. destruct (accepted_clean l c lim Hl Hc Hname) as (Hc1 & _ & Hw & Hd).
  cbn in Hsw. destruct target as [target|]; [|done]. inv_ok. destruct x as [].
  eexists _, _. split; [reflexivity|]. split; [reflexivity|]. split; [done|]. split; [done|].
  intros x V Hs Hk Hf.
  assert (x_files x + 1 ≤ MaxFiles lim)%Z as Hfiles
    by (rewrite (ct_files _ _ _ Hk); unfold total in *; cbn in *; lia).
  destruct (step_link (one_more x) V l c target) as (x' & Hx & Hx' & E); [by apply shows_one_more|done..|].
  eapply extracts_one; [|exact Hx'|].
  - rewrite (applyEntry_switch _ x (l ++ [c])) by (done || apply Hk || by apply proper_snoc || by destruct l).
    rewrite te_type_header. exact Hx.
  - eapply counts_one_more; [done|done| |done]. unfold total; cbn; lia.
Qed.

(** One entry of the walk. *)
Lemma pack_node_step l c t s s' :
  Forall proper_seg l → proper_seg c → wf_tree t → (0 ≤ st_bytes (ps_stats s) ≤ MaxBytes lim)%Z →
  pack_node lim (rel_path (l ++ [c])) t s = Ok s' →
  node_step (l ++ [c]) t s s'.
Proof.
  intros Hl Hc Hwf Hb0 Hp. unfold pack_node in Hp.
  destruct (checkEntryName (rel_path (l ++ [c])) lim) as [[]|] eqn:Hname; [|done]. cbn [mbind res_bind] in Hp.
  assert (t ≠ FGone) as Hgone by (by intros ->).
  assert (pack_switch lim (rel_path (l ++ [c])) t s = Ok s' ∧ (total (ps_stats s') ≤ MaxFiles lim)%Z)
    as [Hsw Htot].
  { destruct t; try done; destruct (setid_of _); try done; inv_ok;
      destruct (Z.ltb_spec (MaxFiles lim) (total (ps_stats x))); inv_ok; done. }
  destruct t as [m size data|m ok es|m target|m|]; [| | |done|done].
  - by apply file_step.
  - by apply dir_step.
  - by apply link_step.
Qed.

(** ** Whole trees *)

Lemma child_name_rel d n : Forall proper_seg d → child_name (rel_path d) n = rel_path (d ++ [n]).
Proof.
  intros Hd. unfold child_name. destruct d as [|a d]; [done|].
  rewrite rel_path_ne_dot by done. symmetry. by apply (join_snoc (a :: d)).
Qed.

Lemma strip_snoc d n p :
  strip (d ++ [n]) p =
    match strip d p with Some (c :: r) => if String.eqb n c then Some r else None | _ => None end.
Proof.
  revert p. induction d as [|a d IH]; intros p; cbn; [by destruct p|].
  destruct p as [|b p]; [done|]. destruct (String.eqb a b); [apply IH|done].
Qed.

Lemma strip_self d : strip d d = Some [].
Proof. apply strip_Some. by rewrite app_nil_r. Qed.

Lemma graft_leaf V p t v : free_at V p → tree_node t = Some v →
  (∀ c r, tree_at t (c :: r) = None) → ∀ q, vput V p v q = graft V p t q.
Proof.
  intros Hf Hv Hleaf q. unfold vput, graft. destruct (strip p q) as [r|] eqn:Hs.
  - apply strip_Some in Hs as ->. destruct r as [|c r].
    + rewrite app_nil_r, decide_True by done. by rewrite <-Hv.
    + rewrite Hleaf, decide_False; [apply (fr_free _ _ Hf); by exists (c :: r)|].
      intros Heq. apply (f_equal length) in Heq. rewrite length_app in Heq. cbn in Heq. lia.
  - rewrite decide_False; [done|]. intros ->. by rewrite strip_self in Hs.
Qed.

Lemma graft_kids_cons V d n t es : assoc n es = None →
  ∀ q, graft_kids (graft V (d ++ [n]) t) d es q = graft_kids V d ((n, t) :: es) q.
Proof.
  intros Hn q. unfold graft_kids, graft. rewrite strip_snoc. cbn [assoc].
  destruct (strip d q) as [[|c r]|]; [done| |done].
  destruct (String.eqb_spec n c) as [->|]; [by rewrite Hn|done].
Qed.

Lemma graft_dir V d m ok es es' : free_at V d → NoDup es.*1 → es ≡ₚ es' →
  ∀ q, graft_kids (vput V d (VDir (bits m))) d es' q = graft V d (FDir m ok es) q.
Proof.
  intros Hf Hnd Hp q. unfold graft_kids, graft, vput. destruct (strip d q) as [[|c r]|] eqn:Hs.
  - apply strip_Some in Hs as ->. by rewrite app_nil_r, decide_True.
  - cbn [tree_at]. rewrite (assoc_perm c es es') by done.
    destruct (assoc c es'); [done|]. apply strip_Some in Hs as ->.
    rewrite decide_False; [apply (fr_free _ _ Hf); by exists (c :: r)|].
    intros Heq. apply (f_equal length) in Heq. rewrite length_app in Heq. cbn in Heq. lia.
  - rewrite decide_False; [done|]. intros ->. by rewrite strip_self in Hs.
Qed.

Lemma free_sibling V d n1 n2 t : free_at V (d ++ [n2]) → n1 ≠ n2 →
  free_at (graft V (d ++ [n1]) t) (d ++ [n2]).
Proof.
  intros [Hf Hp] Hne. split.
  - intros q Hq. unfold graft. rewrite strip_snoc. destruct Hq as [r ->].
    rewrite <-app_assoc. cbn [app]. assert (strip d (d ++ n2 :: r) = Some (n2 :: r)) as -> by (by apply strip_Some).
    destruct (String.eqb_spec n1 n2); [done|]. apply Hf. exists r. by rewrite <-app_assoc.
  - intros q a r Heq. destruct (Hp q a r Heq) as [m Hm]. exists m. unfold graft.
    destruct (strip (d ++ [n1]) q) as [r'|] eqn:Hs; [|done]. apply strip_Some in Hs as ->. exfalso.
    apply (f_equal length) in Heq. rewrite !length_app in Heq. cbn in Heq. lia.
Qed.

Lemma free_child V d m n : free_at V d → free_at (vput V d (VDir m)) (d ++ [n]).
Proof.
  intros [Hf Hp]. split.
  - intros q [r ->]. unfold vput. rewrite <-app_assoc. rewrite decide_False.
    + apply Hf. by eexists.
    + intros Heq. apply (f_equal length) in Heq. rewrite !length_app in Heq. cbn in Heq. lia.
  - intros q a r Heq. unfold vput. destruct (decide (q = d)) as [->|Hne]; [eauto|].
    destruct (@exists_last _ (a :: r)) as (r1 & z & Hz); [done|]. rewrite Hz, app_assoc in Heq.
    apply app_inj_tail in Heq as [-> _]. destruct r1 as [|b r1]; [by rewrite app_nil_r in Hne|].
    by apply (Hp q b r1).
Qed.

(** What a visit of [t] at [p] does, as for one entry. *)
Definition visit_step (p : list string) (t : ftree) : Prop :=
  ∀ s s', (0 ≤ st_bytes (ps_stats s) ≤ MaxBytes lim)%Z → visit lim (rel_path p) t s = Ok s' →
  ∃ es, ps_out s' = ps_out s ++ es ∧ Forall (λ e, te_broken e = false) es ∧
    (0 ≤ st_bytes (ps_stats s') ≤ MaxBytes lim)%Z ∧
    ∀ x V, shows x V → counts lim (ps_stats s) x → free_at V p →
      extracts es x (ps_stats s') (graft V p t).

Lemma extracts_nil x st V : shows x V → counts lim st x → extracts [] x st V.
Proof. intros. by exists x. Qed.

Lemma visit_kids d kids :
  Forall proper_seg d → NoDup kids.*1 → Forall (λ k, visit_step (d ++ [k.1]) k.2) kids →
  ∀ s s', (0 ≤ st_bytes (ps_stats s) ≤ MaxBytes lim)%Z → visit_list lim (rel_path d) kids s = Ok s' →
  ∃ es, ps_out s' = ps_out s ++ es ∧ Forall (λ e, te_broken e = false) es ∧
    (0 ≤ st_bytes (ps_stats s') ≤ MaxBytes lim)%Z ∧
    ∀ x V, shows x V → counts lim (ps_stats s) x → (∀ n, n ∈ kids.*1 → free_at V (d ++ [n])) →
      extracts es x (ps_stats s') (graft_kids V d kids).
Proof.
  intros Hd Hnd Hkids. induction Hkids as [|[n t] kids Ht Hkids IH]; intros s s' Hb Hv.
  { injection Hv as <-. exists []. rewrite app_nil_r. split_and!; [done|done|lia|lia|].
    intros x V Hs Hc _. apply extracts_nil; [|done].
    eapply shows_pointwise; [|done]. intros q. unfold graft_kids. by destruct (strip d q) as [[]|]. }
  cbn in Hnd. apply NoDup_cons in Hnd as [Hn Hnd].
  cbn [visit_list] in Hv. rewrite child_name_rel in Hv by done. inv_ok. rename x into s1.
  destruct (Ht s s1 Hb ltac:(done)) as (es1 & Ho1 & Hu1 & Hb1 & Hx1).
  destruct (IH Hnd s1 s' Hb1 Hv) as (es2 & Ho2 & Hu2 & Hb2 & Hx2).
  exists (es1 ++ es2). split; [by rewrite Ho2, Ho1, app_assoc|]. split; [by apply Forall_app|].
  split; [done|]. intros x V Hs Hc Hfree.
  eapply extracts_pointwise; [by apply (graft_kids_cons V d n t kids), assoc_None|].
  eapply extracts_app; [apply Hx1; [done|done|]|].
  - apply Hfree. apply elem_of_cons. by left.
  - intros x1 Hs1 Hc1. apply Hx2; [done|done|]. intros n' Hn'. apply free_sibling; [|by intros ->].
    apply Hfree. apply elem_of_cons. by right.
Qed.

Lemma visit_extracts t : wf_tree t → ∀ l c, Forall proper_seg l → proper_seg c → visit_step (l ++ [c]) t.
Proof.
  induction t as [m size data|m ok es IH|m target|m|] using ftree_ind; intros Hwf l c Hl Hc s s' Hb Hv.
  2:{ apply wf_tree_dir in Hwf as Hd. destruct Hd as (Hnd & Hprop & Hkids).
      destruct ok; [|cbn in Hv; inv_ok]. rewrite visit_dir in Hv by done. inv_ok. rename x into s1.
      destruct (pack_node_step l c _ s s1 Hl Hc Hwf Hb ltac:(done)) as (e & v & Ho & Hnode & Hun & Hb1 & Hx).
      injection Hnode as <-. set (d := l ++ [c]) in *.
      assert (Forall proper_seg d) as Hpd by (by apply proper_snoc).
      destruct (visit_kids d (sort_slice by_name es)) with (s := s1) (s' := s') as (es' & Ho' & Hu' & Hb' & Hx');
        [done|by rewrite sort_slice_perm| |done|done|].
      { rewrite sort_slice_perm. apply Forall_forall. intros [n t] Hin. rewrite Forall_forall in IH, Hkids.
        rewrite Forall_forall in Hprop.
        apply (IH _ Hin); [by apply (Hkids _ Hin)|done|]. apply Hprop. apply list_elem_of_fmap. by exists (n, t). }
      exists (e :: es'). split; [by rewrite Ho', Ho, <-app_assoc|]. split; [by constructor|]. split; [done|].
      intros x V Hs Hcn Hf. eapply extracts_pointwise; [by apply (graft_dir V d m true es (sort_slice by_name es));
        [..|by rewrite sort_slice_perm]|].
      eapply (extracts_app [e]); [by apply Hx|]. intros x1 Hs1 Hc1. apply Hx'; [done|done|].
      intros n _. by apply free_child. }
  all: cbn [visit] in Hv; inv_ok;
    destruct (pack_node_step l c _ s s' Hl Hc Hwf Hb ltac:(done)) as (e & v & Ho & Hnode & Hun & Hb1 & Hx);
    exists [e]; split; [done|]; split; [by constructor|]; split; [done|];
    intros x V Hs Hcn Hf; (eapply extracts_pointwise; [by eapply graft_leaf|by apply Hx]).
Qed.

(** The source as it is extracted: its own mode is not part of the FileSet. *)
Definition packed_view (src : ftree) : view := λ p,
  match p with [] => Some (VDir mode_0700) | _ => tree_at src p end.

Definition blank : view := λ p, if decide (p = []) then Some (VDir mode_0700) else None.

Lemma shows_new : shows (new_extraction lim) blank.
Proof.
  split; cbn.
  - apply wf_empty_root.
  - by exists mode_0700.
  - intros p. unfold blank. destruct (decide (p = [])) as [->|Hp].
    + cbn. rewrite lookup_singleton_eq. done.
    + rewrite lookup_singleton_ne; [done|]. intros Heq. destruct Hp.
      rewrite <-(reverse_involutive p), <-Heq. done.
  - intros key m Hk. by rewrite lookup_empty in Hk.
Qed.

Lemma counts_new : counts lim (ps_stats pack_start) (new_extraction lim).
Proof. destruct Hlim. split; cbn; [done..|lia]. Qed.

(** The archive of a walk, extracted. *)
Lemma writeTree_extracts src s : wf_tree src → writeTree lim src = Ok s →
  Forall (λ e, te_broken e = false) (ps_out s) ∧
  extracts (ps_out s) (new_extraction lim) (ps_stats s) (packed_view src).
Proof.
  intros Hwf Hw. destruct src as [|m ok es| | |]; try done. destruct ok; [|done].
  apply wf_tree_dir in Hwf as (Hnd & Hprop & Hkids). rewrite writeTree_dir in Hw by done.
  destruct (visit_kids [] (sort_slice by_name es)) with (s := pack_start) (s' := s)
    as (out & Ho & Hu & Hb & Hx); [constructor|by rewrite sort_slice_perm| |destruct Hlim; cbn; lia|done|].
  { rewrite sort_slice_perm. apply Forall_forall. intros [n t] Hin. rewrite Forall_forall in Hkids.
    rewrite Forall_forall in Hprop. apply (visit_extracts t (Hkids _ Hin) []); [constructor|].
    apply Hprop. apply list_elem_of_fmap. by exists (n, t). }
  cbn in Ho. subst out. split; [done|].
  eapply extracts_pointwise; [|apply Hx; [apply shows_new|apply counts_new|]].
  - intros p. unfold graft_kids, packed_view, blank. destruct p as [|c r]; [done|]. cbn [strip tree_at].
    rewrite (assoc_perm c (sort_slice by_name es) es) by (by rewrite sort_slice_perm). done.
  - intros n _. split.
    + intros q [r ->]. done.
    + intros q a r Heq. destruct q as [|b q]; [by exists mode_0700|]. injection Heq as _ Heq. by destruct q.
Qed.

End roundtrip.

(** Every directory of the tree can be searched by the process. *)
Definition searchable_tree `{Privilege} (src : ftree) : Prop :=
  ∀ p m, tree_at src p = Some (VDir m) → searchable m = true.

(** C31: Packing and extraction are inverse on trees whose directories are all searchable by
    their owner (or for the superuser), under positive limits with a byte limit below 2^62.
    The archive of such a tree, with distinct ordinary names and sizes below 2^62, that the
    packer accepts, extracts under the same limits without a refusal, and the extracted
    directory shows at every path what the operator's tree shows there, contents,
    permission bits and link targets included. A directory its owner cannot search may be
    packed and then refused: see [mode_order_matters]. *)
Theorem pack_extract_roundtrip `{GoRuntime, Privilege} lim src s
    (Hlim : limits_ok lim) (Hsmall : (MaxBytes lim < 2 ^ 62)%Z)
    (Hwf : wf_tree src) (Hsearch : searchable_tree src)
    (Hpack : writeTree lim src = Ok s) :
  ∃ x x', apply_streams [] [(ps_out s, true)] (new_extraction lim) = Ok (x, []) ∧
    restore_modes x = Ok x' ∧ ∀ p, fs_view (x_root x') p = packed_view src p.
Proof.
  destruct (writeTree_extracts lim Hlim Hsmall src s Hwf Hpack) as [_ (x & Ha & Hs & Hc)].
  destruct (restore_shows x (packed_view src) Hs) as (x' & Hr & Hv); [|done|].
  - intros [|c q] m Hq; [injection Hq as <-; apply search_0700|]. by apply (Hsearch (c :: q)).
  - exists x, x'. cbn [apply_streams]. rewrite Ha. done.
Qed.

(** A small tree to evaluate on. *)
Definition demo_meta (perm : Z) : fmeta := mkFMeta perm false 1700000000 1000.
Definition demo_tree : ftree :=
  FDir (demo_meta 493) true
    [("f", FFile (demo_meta 420) 5 (Some "hello"));
     ("d", FDir (demo_meta 493) true [("l", FLink (demo_meta 511) (Some "../f"))])].

Lemma demo_tree_wf : wf_tree demo_tree.
Proof.
  apply wf_tree_dir. split; [apply (bool_decide_unpack _); vm_compute; exact I|].
  split; [apply (bool_decide_unpack _); vm_compute; exact I|].
  constructor; [cbn; lia|constructor; [|constructor]]. apply wf_tree_dir.
  split; [apply (bool_decide_unpack _); vm_compute; exact I|].
  split; [apply (bool_decide_unpack _); vm_compute; exact I|]. by constructor.
Qed.

Section demo.
#[local] Existing Instance ordinary_user.

Lemma demo_tree_searchable : searchable_tree demo_tree.
Proof.
  intros [|c p] m; [intros [= <-]; reflexivity|]. cbn [tree_at demo_tree assoc].
  destruct (String.eqb "f" c); [by destruct p|]. destruct (String.eqb "d" c); [|done].
  destruct p as [|e p]; [intros [= <-]; reflexivity|]. cbn [tree_at assoc].
  destruct (String.eqb "l" e); [by destruct p|done].
Qed.

Lemma pack_extract_roundtrip_witness :
  ∃ s x x', writeTree small demo_tree = Ok s ∧
    apply_streams [] [(ps_out s, true)] (new_extraction small) = Ok (x, []) ∧ restore_modes x = Ok x' ∧
    fs_view (x_root x') ["d"; "l"] = Some (VLink "../f") ∧ fs_view (x_root x') ["f"] = Some (VFile 420 "hello").
Proof.
  destruct (writeTree small demo_tree) as [s|] eqn:Hw; [|vm_compute in Hw; discriminate].
  destruct (pack_extract_roundtrip small demo_tree s) as (x & x' & Ha & Hr & Hv).
  - vm_compute. repeat split; congruence.
  - vm_compute. congruence.
  - apply demo_tree_wf.
  - apply demo_tree_searchable.
  - exact Hw.
  - exists s, x, x'. split; [reflexivity|]. split; [exact Ha|]. split; [exact Hr|].
    split; rewrite Hv; reflexivity.
Defined.
End demo.
