(* ===== verification/FileServer.v ===== *)
(** The file server (internal/fileserve/fileserve.go, handler.go and the outer
    half of extract.go): the extraction cache on disk, [Sync] and its purge, the
    served map, and the read-only handler.

    The cache is the map from (name directory, digest directory) to what is on
    disk there.  Every call to the operating system takes the next outcome of a
    script: it succeeds, fails, fails half-way (a removal that leaves something
    behind), or the process is killed there; so the theorems quantify over
    failures and crashes.  Open roots are the directories they are anchored on. *)

From S2P Require Import Prelude GoStrings MediaPaths FilePaths OsRoot Extract Pack.

(** * The cache *)

(** What one digest directory holds: the completion marker and the tree. *)
Record cached := mkCached { cd_marker : bool; cd_rootfs : option RootFS }.

#[export] Instance cached_eq_dec : EqDecision cached.
Proof. solve_decision. Defined.

(** A removal that stops half-way keeps, of each digest directory, what the
    function says. *)
Inductive cfault := FOk | FFail | FCrash | FPart (kept : string → cached → option cached).

Record Cache := mkCache {
  c_dirs : gmap string (gmap string cached);
  c_tmp : list string;
  c_faults : list cfault;
}.

Definition set_dirs (f : gmap string (gmap string cached) → gmap string (gmap string cached)) (c : Cache) : Cache :=
  mkCache (f (c_dirs c)) (c_tmp c) (c_faults c).
Definition set_tmp (f : list string → list string) (c : Cache) : Cache :=
  mkCache (c_dirs c) (f (c_tmp c)) (c_faults c).

Definition at_dir (c : Cache) (name dgst : string) : option cached :=
  m ← c_dirs c !! name; m !! dgst.

Definition put_dir (name dgst : string) (d : cached) (c : Cache) : Cache :=
  set_dirs (λ m, <[name := <[dgst := d]> (default ∅ (m !! name))]> m) c.

(** * Calls that may fail *)

Inductive layer_error := BlobMissing (dgst : string) | GzipFailed | ZstdFailed | UnsupportedLayer (mediaType : string).

Inductive srv_error :=
  | SrvInvalidName (name : string)
  | SrvNoRepo (name : string)
  | SrvBadDigest (name : string)
  | SrvDuplicate (name : string)
  | SrvIO
  | SrvNoManifest
  | SrvBadManifest
  | SrvNotAnImage (mediaType : string)
  | SrvLayer (e : layer_error)
  | SrvExtract (e : ext_error).

Inductive outcome (A : Type) := Done (a : A) | Failed (e : srv_error) | Crashed.
Arguments Done {A} a.
Arguments Failed {A} e.
Arguments Crashed {A}.

Definition cm (A : Type) : Type := Cache → outcome A * Cache.

#[export] Instance cm_ret : MRet cm := λ A a c, (Done a, c).
#[export] Instance cm_bind : MBind cm := λ A B f m c,
  match m c with
  | (Done a, c) => f a c
  | (Failed e, c) => (Failed e, c)
  | (Crashed, c) => (Crashed, c)
  end.

Definition lift {A} (r : res srv_error A) : cm A := λ c,
  match r with Ok a => (Done a, c) | Err e => (Failed e, c) end.

Definition next_cfault (c : Cache) : cfault * Cache :=
  match c_faults c with
  | [] => (FOk, c)
  | f :: fs => (f, mkCache (c_dirs c) (c_tmp c) fs)
  end.

(** A call whose effect is all or nothing. *)
Definition call (effect : Cache → Cache) : cm unit := λ c,
  match next_cfault c with
  | (FOk, c) => (Done tt, effect c)
  | (FCrash, c) => (Crashed, c)
  | (_, c) => (Failed SrvIO, c)
  end.

(** [defer func() { _ = os.RemoveAll(tmp) }()]: runs unless the process dies. *)
Definition with_cleanup {A} (cleanup : cm unit) (m : cm A) : cm A := λ c,
  match m c with
  | (Crashed, c) => (Crashed, c)
  | (r, c) => match cleanup c with (Crashed, c) => (Crashed, c) | (_, c) => (r, c) end
  end.

(** [os.RemoveAll] of one digest directory, and of a whole name directory. *)
Definition remove_digest (name dgst : string) : cm unit := λ c,
  match next_cfault c with
  | (FOk, c) => (Done tt, set_dirs (alter (delete dgst) name) c)
  | (FCrash, c) => (Crashed, c)
  | (FFail, c) => (Failed SrvIO, c)
  | (FPart kept, c) => (Failed SrvIO, set_dirs (alter (partial_alter (λ d, d ≫= kept dgst) dgst) name) c)
  end.

Definition remove_name (name : string) : cm unit := λ c,
  match next_cfault c with
  | (FOk, c) => (Done tt, set_dirs (delete name) c)
  | (FCrash, c) => (Crashed, c)
  | (FFail, c) => (Failed SrvIO, c)
  | (FPart kept, c) => (Failed SrvIO, set_dirs (alter (map_imap kept) name) c)
  end.

(** * Layers *)

Record FileSet := mkFileSet {
  fs_Name : string; fs_Repo : string; fs_ManifestDigest : string; fs_Anonymous : bool }.

#[export] Instance FileSet_eq_dec : EqDecision FileSet.
Proof. solve_decision. Defined.

(** The store read surface ([Blobs]). *)
Record Blobs := mkBlobs {
  b_manifest : string → string → option string;
  b_blob : string → string → option string;
}.

Definition dockerManifestMediaType : string := "application/vnd.docker.distribution.manifest.v2+json".
Definition markerFile : string := ".complete".

Section server.
Context `{GoRuntime, Privilege, FileSetLib}.

(** [newDecompressor]: the decoded stream and whether it is whole. *)
Definition newDecompressor (raw mediaType : string) : res layer_error (string * bool) :=
  if has_suffix mediaType "+gzip" || has_suffix mediaType ".tar.gzip" then
    match gunzip raw with Some s => Ok s | None => Err GzipFailed end
  else if has_suffix mediaType "+zstd" then
    match unzstd raw with Some s => Ok s | None => Err ZstdFailed end
  else if has_suffix mediaType ".tar" || has_suffix mediaType "+tar" then Ok (raw, true)
  else Err (UnsupportedLayer mediaType).

(** [applyLayer]. *)
Definition applyLayer (b : Blobs) (repo : string) (ctx : list bool) (layer : image_descriptor)
    (x : extraction) : res srv_error (extraction * list bool) :=
  match b_blob b repo (id_digest layer) with
  | None => Err (SrvLayer (BlobMissing (id_digest layer)))
  | Some raw =>
      '(content, whole) ← wrap_err SrvLayer (newDecompressor raw (id_mediaType layer));
      let '(es, whole) := tar_read content whole in
      wrap_err SrvExtract (applyEntries ctx es whole x)
  end.

Fixpoint applyLayers (b : Blobs) (repo : string) (ctx : list bool) (layers : list image_descriptor)
    (x : extraction) : res srv_error extraction :=
  match layers with
  | [] => Ok x
  | layer :: layers =>
      '(x, ctx) ← applyLayer b repo ctx layer x;
      applyLayers b repo ctx layers x
  end.

(** [extractLayers], from an empty root to the restored directory modes. *)
Definition extractLayers (b : Blobs) (lim : Limits) (repo : string) (ctx : list bool)
    (layers : list image_descriptor) : res srv_error extraction :=
  x ← applyLayers b repo ctx layers (new_extraction lim);
  wrap_err SrvExtract (restore_modes x).

(** The manifest part of [extract]. *)
Definition extract_manifest (b : Blobs) (repo dgst : string) : res srv_error image_manifest :=
  match b_manifest b repo dgst with
  | None => Err SrvNoManifest
  | Some raw =>
      match decode_manifest raw with
      | None => Err SrvBadManifest
      | Some m =>
          if String.eqb (im_mediaType m) "" || String.eqb (im_mediaType m) MediaTypeImageManifest
             || String.eqb (im_mediaType m) dockerManifestMediaType
          then Ok m else Err (SrvNotAnImage (im_mediaType m))
      end
  end.

(** [extract]: a temporary directory, the layers, the marker, then the rename. *)
Definition extract (b : Blobs) (lim : Limits) (ctx : list bool) (set : FileSet) (tmp nameDir digestDir : string) :
    cm unit :=
  m ← lift (extract_manifest b (fs_Repo set) (fs_ManifestDigest set));
  _ ← call (set_tmp (cons tmp));
  with_cleanup (call (set_tmp (filter (λ t, t ≠ tmp)))) (
    _ ← call id;
    x ← lift (extractLayers b lim (fs_Repo set) ctx (im_layers m));
    _ ← call id;
    _ ← call (set_dirs (λ dirs, <[nameDir := default ∅ (dirs !! nameDir)]> dirs));
    _ ← remove_digest nameDir digestDir;
    call (λ c, set_tmp (filter (λ t, t ≠ tmp)) (put_dir nameDir digestDir (mkCached true (Some (x_root x))) c))).

(** [isComplete]. *)
Definition is_complete (d : cached) : bool := cd_marker d && bool_decide (is_Some (cd_rootfs d)).
Definition isComplete (c : Cache) (nameDir digestDir : string) : bool :=
  match at_dir c nameDir digestDir with Some d => is_complete d | None => false end.

(** * The server *)

Record servedSet := mkServed { ss_set : FileSet; ss_name : string; ss_dir : string }.

Record Server := mkServer {
  sv_limits : Limits;
  sv_served : gmap string servedSet;
  sv_order : list string;
}.

Definition NewServer (limits : Limits) : Server := mkServer (effective limits) ∅ [].

(** [releaseServedDigest]: only the served map changes. *)
Definition releaseServedDigest (name dgst : string) (s : Server) : Server :=
  match sv_served s !! name with
  | Some ss =>
      if String.eqb (fs_ManifestDigest (ss_set ss)) dgst
      then mkServer (sv_limits s) (delete name (sv_served s)) (sv_order s)
      else s
  | None => s
  end.

(** [validateSet]. *)
Definition validateSet (set : FileSet) : res srv_error unit :=
  let n := fs_Name set in
  if String.eqb n "" || String.eqb n "." || String.eqb n ".." then Err (SrvInvalidName n)
  else if contains_byte n "/" || contains_byte n NUL then Err (SrvInvalidName n)
  else if String.eqb (fs_Repo set) "" then Err (SrvNoRepo n)
  else if negb (digest_ok (fs_ManifestDigest set)) then Err (SrvBadDigest n)
  else Ok tt.

(** [digest.FromString(name).Encoded()]. *)
Definition encoded (name : string) : string :=
  match cut_byte ":" (sha256 name) with Some (_, h) => h | None => "" end.

Definition name_dir (set : FileSet) : string := sanitizeName encoded (fs_Name set).
Definition digest_dir (set : FileSet) : string := replace_byte ":" "_" (fs_ManifestDigest set).

(** The variables of the loop of [Sync]. *)
Record syncState := mkSyncState {
  y_server : Server;
  y_next : gmap string servedSet;
  y_order : list string;
  y_wanted : gmap string (gset string);
  y_errs : list (FileSet * srv_error);
}.

Definition reportSet (set : FileSet) (e : srv_error) (y : syncState) : syncState :=
  mkSyncState (y_server y) (y_next y) (y_order y) (y_wanted y) (y_errs y ++ [(set, e)]).

Definition installSet (set : FileSet) (y : syncState) : syncState :=
  let n := name_dir set in
  mkSyncState (y_server y)
    (<[fs_Name set := mkServed set n (digest_dir set)]> (y_next y))
    (y_order y ++ [fs_Name set])
    (<[n := {[digest_dir set]} ∪ default ∅ (y_wanted y !! n)]> (y_wanted y))
    (y_errs y).

(** [os.OpenRoot] of the extracted tree. *)
Definition open_root (nameDir digestDir : string) : cm unit := λ c,
  match next_cfault c with
  | (FOk, c) =>
      match at_dir c nameDir digestDir with
      | Some d => if bool_decide (is_Some (cd_rootfs d)) then (Done tt, c) else (Failed SrvIO, c)
      | None => (Failed SrvIO, c)
      end
  | (FCrash, c) => (Crashed, c)
  | (_, c) => (Failed SrvIO, c)
  end.

(** One turn of the loop.  [tmp] is the name [os.MkdirTemp] picks. *)
Definition prepareSet (b : Blobs) (lim : Limits) (ctx : list bool) (tmp : string) (set : FileSet) : cm unit := λ c,
  if isComplete c (name_dir set) (digest_dir set) then open_root (name_dir set) (digest_dir set) c
  else (_ ← extract b lim ctx set tmp (name_dir set) (digest_dir set);
        open_root (name_dir set) (digest_dir set)) c.

Definition syncSet (b : Blobs) (ctx : list bool) (tmp : string) (set : FileSet) (y : syncState) (c : Cache) :
    outcome syncState * Cache :=
  match validateSet set with
  | Err e => (Done (reportSet set e y), c)
  | Ok _ =>
      match y_next y !! fs_Name set with
      | Some _ => (Done (reportSet set (SrvDuplicate (fs_Name set)) y), c)
      | None =>
          let server :=
            if isComplete c (name_dir set) (digest_dir set) then y_server y
            else releaseServedDigest (fs_Name set) (fs_ManifestDigest set) (y_server y) in
          let y := mkSyncState server (y_next y) (y_order y) (y_wanted y) (y_errs y) in
          match prepareSet b (sv_limits (y_server y)) ctx tmp set c with
          | (Done _, c) => (Done (installSet set y), c)
          | (Failed e, c) => (Done (reportSet set e y), c)
          | (Crashed, c) => (Crashed, c)
          end
      end
  end.

Fixpoint syncSets (b : Blobs) (ctx : list bool) (tmp : string) (sets : list FileSet) (y : syncState) (c : Cache) :
    outcome syncState * Cache :=
  match sets with
  | [] => (Done y, c)
  | set :: sets =>
      match syncSet b ctx tmp set y c with
      | (Done y, c) => syncSets b ctx tmp sets y c
      | r => r
      end
  end.

(** [purge]: every entry that is not wanted; a removal that fails is reported
    and left for the next [Sync]. *)
Fixpoint purge_digests (name : string) (keep : gset string) (dgsts : list string) (c : Cache) :
    outcome unit * Cache :=
  match dgsts with
  | [] => (Done tt, c)
  | d :: dgsts =>
      if bool_decide (d ∈ keep) then purge_digests name keep dgsts c
      else match remove_digest name d c with
           | (Crashed, c) => (Crashed, c)
           | (_, c) => purge_digests name keep dgsts c
           end
  end.

(** One entry of the cache directory. *)
Definition purge_name (wanted : gmap string (gset string)) (name : string) (c : Cache) :
    outcome unit * Cache :=
  match wanted !! name with
  | None => remove_name name c
  | Some keep =>
      if has_prefix name ".tmp-" then remove_name name c
      else match next_cfault c with
           | (FOk, c) => purge_digests name keep (map_keys (default ∅ (c_dirs c !! name))) c
           | (FCrash, c) => (Crashed, c)
           | (_, c) => (Failed SrvIO, c)
           end
  end.

Fixpoint purge_names (wanted : gmap string (gset string)) (names : list string) (c : Cache) :
    outcome unit * Cache :=
  match names with
  | [] => (Done tt, c)
  | name :: names =>
      match purge_name wanted name c with
      | (Crashed, c) => (Crashed, c)
      | (_, c) => purge_names wanted names c
      end
  end.

Fixpoint purge_tmp (tmps : list string) (c : Cache) : outcome unit * Cache :=
  match tmps with
  | [] => (Done tt, c)
  | t :: tmps =>
      match call (set_tmp (filter (λ t', t' ≠ t))) c with
      | (Crashed, c) => (Crashed, c)
      | (_, c) => purge_tmp tmps c
      end
  end.

Definition purge (wanted : gmap string (gset string)) (c : Cache) : outcome unit * Cache :=
  match next_cfault c with
  | (FOk, c) =>
      match purge_tmp (c_tmp c) c with
      | (Crashed, c) => (Crashed, c)
      | (_, c) => purge_names wanted (map_keys (c_dirs c)) c
      end
  | (FCrash, c) => (Crashed, c)
  | (_, c) => (Failed SrvIO, c)
  end.

(** [Sync]: the errors it joins, or [Failed] when the cache directory cannot be
    made. *)
Definition Sync (b : Blobs) (ctx : list bool) (tmp : string) (sets : list FileSet) (s : Server) (c : Cache) :
    outcome (list (FileSet * srv_error)) * Server * Cache :=
  match call id c with
  | (Failed e, c) => (Failed e, s, c)
  | (Crashed, c) => (Crashed, s, c)
  | (Done _, c) =>
      match syncSets b ctx tmp sets (mkSyncState s ∅ [] ∅ []) c with
      | (Done y, c) =>
          let s' := mkServer (sv_limits s) (y_next y) (y_order y) in
          match purge (y_wanted y) c with
          | (Crashed, c) => (Crashed, s', c)
          | (_, c) => (Done (y_errs y), s', c)
          end
      | (Failed e, c) => (Failed e, s, c)
      | (Crashed, c) => (Crashed, s, c)
      end
  end.

(** [Close]. *)
Definition Close (s : Server) : Server := mkServer (sv_limits s) ∅ [].

(** [Enabled]: [s.served[name].set] of a name that is not served is a nil
    dereference, [None] here. *)
Fixpoint enabled_sets (served : gmap string servedSet) (order : list string) : option (list FileSet) :=
  match order with
  | [] => Some []
  | name :: order =>
      ss ← served !! name;
      rest ← enabled_sets served order;
      Some (ss_set ss :: rest)
  end.
Definition Enabled (s : Server) : option (list FileSet) := enabled_sets (sv_served s) (sv_order s).

(** * The handler *)

Definition RoutePrefix : string := "/files/".

Inductive http_response :=
  | MethodNotAllowed | BadRequest | NotFound
  | Content (data : string) (name : string).

Definition bad_segment (seg : string) : bool :=
  String.eqb seg "" || String.eqb seg "." || String.eqb seg "..".

(** The tree a served set reads: its directory in the cache. *)
Definition served_root (c : Cache) (ss : servedSet) : option RootFS :=
  d ← at_dir c (ss_name ss) (ss_dir ss); cd_rootfs d.

Definition serveHTTP (s : Server) (c : Cache) (method urlPath : string) : http_response :=
  if negb (String.eqb method "GET" || String.eqb method "HEAD") then MethodNotAllowed
  else if contains_byte urlPath NUL then BadRequest
  else match cut_prefix RoutePrefix urlPath with
  | None => NotFound
  | Some rest =>
      match cut_byte "/" rest with
      | None => NotFound
      | Some (name, filePath) =>
          if String.eqb filePath "" then NotFound
          else if has_suffix filePath "/" then NotFound
          else if existsb bad_segment (split_byte "/" filePath) then BadRequest
          else match sv_served s !! name with
          | None => NotFound
          | Some ss =>
              match served_root c ss with
              | None => NotFound
              | Some fs =>
                  match root_Open fs filePath with
                  | Ok (OpenedFile data) => Content data (path_base filePath)
                  | _ => NotFound
                  end
              end
          end
      end
  end.

End server.
