(* ===== verification/FileSetToy.v ===== *)
(** A concrete instance of the libraries the file service calls, to evaluate the
    definitions: a small polynomial hash in place of SHA-256, and encodings by
    the enumeration of the encoded type in place of tar and JSON.  Every law of
    the interface is proved of it. *)

From S2P Require Import Prelude GoStrings MediaPaths FilePaths Extract Pack.

(** * Encodings *)

(** A positive as its bits, least significant first, without the leading one. *)
Fixpoint pos_bits (p : positive) : string :=
  match p with
  | xH => ""
  | xO p => String "0" (pos_bits p)
  | xI p => String "1" (pos_bits p)
  end.
Fixpoint bits_pos (s : string) : positive :=
  match s with
  | "" => xH
  | String c s => if Ascii.eqb c "0" then xO (bits_pos s) else xI (bits_pos s)
  end.

Lemma bits_pos_bits p : bits_pos (pos_bits p) = p.
Proof. induction p as [p IH|p IH|]; cbn; by rewrite ?IH. Qed.

Definition toy_encode `{Countable A} (a : A) : string := pos_bits (encode a).
Definition toy_decode `{Countable A} (s : string) : option A := decode (bits_pos s).

Lemma toy_decode_encode `{Countable A} (a : A) : toy_decode (toy_encode a) = Some a.
Proof. unfold toy_decode, toy_encode. rewrite bits_pos_bits. apply decode_encode. Qed.

Definition type_code (t : tar_type) : nat :=
  match t with TypeReg => 0 | TypeDir => 1 | TypeSymlink => 2 | TypeLink => 3 | TypeOther => 4 end.
Definition code_type (n : nat) : tar_type :=
  match n with 0 => TypeReg | 1 => TypeDir | 2 => TypeSymlink | 3 => TypeLink | _ => TypeOther end.

#[local] Instance tar_entry_countable : Countable tar_entry.
Proof.
  refine (inj_countable'
    (λ e, (type_code (te_type e), te_name e, te_link e, te_mode e, te_data e, te_broken e))
    (λ '(ty, n, l, m, d, b), mkTar (code_type ty) n l m d b) _).
  by intros [[] ? ? ? ? ?].
Defined.

#[local] Instance image_descriptor_countable : Countable image_descriptor.
Proof.
  refine (inj_countable' (λ d, (id_mediaType d, id_digest d, id_size d))
    (λ '(t, d, s), mkImageDescriptor t d s) _).
  by intros [? ? ?].
Defined.

#[local] Instance image_manifest_countable : Countable image_manifest.
Proof.
  refine (inj_countable' (λ m, (im_mediaType m, im_config m, im_layers m, im_annotations m))
    (λ '(t, c, l, a), mkImageManifest t c l a) _).
  by intros [? ? ? ?].
Defined.

(** * The hash *)

Fixpoint toy_fold (h : Z) (s : string) : Z :=
  match s with
  | "" => h
  | String c s => toy_fold ((h * 31 + code c) mod 2 ^ 32)%Z s
  end.

Definition toy_sha256 (s : string) : string := "sha256:" +:+ pretty (Z.to_N (toy_fold 7 s)).

Definition toy_digest_ok (d : string) : bool :=
  match cut_prefix "sha256:" d with Some h => all_bytes is_digit h | None => false end.

Lemma pretty_digits (n : N) : all_bytes is_digit (pretty n : string) = true.
Proof.
  unfold pretty, pretty_N. case_decide; [done|].
  assert (∀ x s, all_bytes is_digit s = true → all_bytes is_digit (pretty_N_go x s) = true) as Hgo.
  { intros x. induction (N.lt_wf_0 x) as [x _ IH]. intros s Hs.
    destruct (decide (0 < x)%N) as [Hx|Hx].
    - rewrite pretty_N_go_step by done. apply IH; [by apply N.div_lt|]. cbn. rewrite Hs, andb_true_r.
      pose proof (N.mod_lt x 10 ltac:(done)). unfold pretty_N_char.
      destruct (x mod 10)%N as [|p]; [done|]. repeat (destruct p as [p|p|]; try done; try lia).
    - assert (x = 0%N) as -> by lia. by rewrite pretty_N_go_0. }
  by apply Hgo.
Qed.

Lemma toy_sha256_ok s : toy_digest_ok (toy_sha256 s) = true.
Proof.
  unfold toy_digest_ok, toy_sha256. assert (∀ r, cut_prefix "sha256:" ("sha256:" +:+ r) = Some r) as Hc.
  { intros r. by apply cut_prefix_Some. }
  rewrite Hc. apply pretty_digits.
Qed.

Lemma toy_digest_plain d : toy_digest_ok d = true → ¬ in_str "_" d.
Proof.
  unfold toy_digest_ok. destruct (cut_prefix "sha256:" d) as [h|] eqn:Hc; [|done].
  apply cut_prefix_Some in Hc as ->. rewrite in_str_app, all_bytes_spec. intros Hd [Hin|Hin].
  - cbn in Hin. intuition discriminate.
  - by apply Hd in Hin.
Qed.

Definition toy_tar_read (s : string) (whole : bool) : list tar_entry * bool :=
  match toy_decode s with Some es => (es, whole) | None => ([], false) end.

#[export] Program Instance toy_files : FileSetLib := {|
  sha256 := toy_sha256;
  digest_ok := toy_digest_ok;
  tar_write es := toy_encode es;
  tar_read := toy_tar_read;
  gunzip s := None;
  unzstd s := None;
  encode_config c := toy_encode (ic_os c, ic_arch c, ic_diffs c);
  encode_manifest m := toy_encode m;
  decode_manifest s := toy_decode s;
|}.
Next Obligation. apply toy_sha256_ok. Qed.
Next Obligation. apply toy_digest_plain. Qed.
Next Obligation. intros es _. unfold toy_tar_read. by rewrite toy_decode_encode. Qed.
Next Obligation. intros m. apply toy_decode_encode. Qed.
