(* ===== verification/FileServerSafety.v ===== *)
(** What the file server serves: only complete extractions, of the manifest the
    set names, whatever calls fail and wherever the process is killed; that a
    [Sync] keeps answering from the trees it will replace; and what a removal that
    stops half-way breaks. *)

From S2P Require Import Prelude GoStrings MediaPaths FilePaths OsRoot Extract Pack FileServer.

Section safety.
Context `{GoRuntime, Privilege, FileSetLib}.

(** * Steps of the cache *)

(** Nothing on disk changed. *)
Record quiet (c c' : Cache) : Prop := {
  q_dirs : ∀ n d, at_dir c' n d = at_dir c n d;
  q_faults : ∀ P, Forall P (c_faults c) → Forall P (c_faults c');
}.

#[local] Instance quiet_preorder : PreOrder quiet.
Proof.
  split; [by intros c; split|]. intros c1 c2 c3 [D1 F1] [D2 F2].
  split; [intros n d; by rewrite D2|auto].
Qed.

Lemma next_cfault_quiet c f c' : next_cfault c = (f, c') → quiet c c' ∧ (∀ P, Forall P (c_faults c) → P FOk → P f).
Proof.
  unfold next_cfault. destruct (c_faults c) as [|f' fs] eqn:E; intros [= <- <-].
  - by split.
  - split; [split; [done|]|].
    + intros P HP. rewrite E in HP. apply Forall_cons in HP as [_ ?]. done.
    + intros P HP _. try rewrite E in HP. apply Forall_cons in HP as [? _]. done.
Qed.

Lemma call_quiet effect c r c' : (∀ c, quiet c (effect c)) → call effect c = (r, c') → quiet c c'.
Proof.
  unfold call. intros He. destruct (next_cfault c) as [[] c1] eqn:Hn;
    apply next_cfault_quiet in Hn as [Hq _]; intros [= <- <-]; try done.
  etrans; [done|apply He].
Qed.

Lemma set_tmp_quiet f c : quiet c (set_tmp f c).
Proof. by split. Qed.

Lemma mkdir_quiet n c : quiet c (set_dirs (λ dirs, <[n := default ∅ (dirs !! n)]> dirs) c).
Proof.
  split; [|done]. intros n' d. unfold at_dir; cbn. destruct (decide (n' = n)) as [->|].
  - rewrite lookup_insert_eq. cbn. by destruct (c_dirs c !! n).
  - by rewrite lookup_insert_ne.
Qed.

(** Complete extractions are not touched. *)
Definition holds_complete (c c' : Cache) : Prop :=
  ∀ n d cd, at_dir c n d = Some cd → is_complete cd = true → at_dir c' n d = Some cd.

#[local] Instance keeps_preorder : PreOrder holds_complete.
Proof. split; [by intros c n d cd|]. intros c1 c2 c3 K1 K2 n d cd ??. eauto. Qed.

Lemma quiet_keeps c c' : quiet c c' → holds_complete c c'.
Proof. intros [Hd _] n d cd ??. by rewrite Hd. Qed.

(** * The invariant *)

Variable b : Blobs.

(** The tree is what the layers of the manifest extract to, under the limits in
    force then. *)
Definition extraction_of (dgst : string) (fs : RootFS) : Prop :=
  ∃ repo lim ctx m x, extract_manifest b repo dgst = Ok m ∧
    extractLayers b lim repo ctx (im_layers m) = Ok x ∧ fs = x_root x.

(** A complete digest directory holds the extraction of its digest. *)
Definition entry_ok (d : string) (cd : cached) : Prop :=
  is_complete cd = true →
  ∃ dgst fs, digest_ok dgst = true ∧ d = replace_byte ":" "_" dgst ∧ cd_rootfs cd = Some fs ∧ extraction_of dgst fs.

Definition cache_ok (c : Cache) : Prop := ∀ n d cd, at_dir c n d = Some cd → entry_ok d cd.

(** A removal that stops half-way leaves no directory that still looks complete,
    unless it is untouched. *)
Definition clean_fault (f : cfault) : Prop :=
  match f with
  | FPart kept => ∀ d cd cd', kept d cd = Some cd' → is_complete cd' = true → cd' = cd
  | _ => True
  end.

Definition cinv (c : Cache) : Prop := cache_ok c ∧ Forall clean_fault (c_faults c).

Lemma quiet_cinv c c' : quiet c c' → cinv c → cinv c'.
Proof. intros [Hd Hf] [Hc Hcl]. split; [|auto]. intros n d cd. rewrite Hd. apply Hc. Qed.

(** [at_dir] after a change of one directory. *)
Lemma at_dir_digest f n d c n' d' :
  at_dir (set_dirs (alter (partial_alter f d) n) c) n' d' =
    if decide (n' = n ∧ d' = d)
    then match c_dirs c !! n with Some m => f (m !! d) | None => None end
    else at_dir c n' d'.
Proof.
  unfold at_dir; cbn. destruct (decide (n' = n)) as [->|Hn].
  - rewrite lookup_alter_eq. destruct (c_dirs c !! n) as [m|] eqn:E; cbn.
    + destruct (decide (d' = d)) as [->|Hd].
      * rewrite decide_True by done. by rewrite lookup_partial_alter_eq.
      * rewrite decide_False by tauto. by rewrite lookup_partial_alter_ne.
    + by case_decide.
  - rewrite decide_False by tauto. by rewrite lookup_alter_ne.
Qed.

Lemma at_dir_put n d cd c n' d' :
  at_dir (put_dir n d cd c) n' d' = if decide (n' = n ∧ d' = d) then Some cd else at_dir c n' d'.
Proof.
  unfold put_dir, at_dir; cbn. destruct (decide (n' = n)) as [->|Hn].
  - rewrite lookup_insert_eq. cbn. destruct (decide (d' = d)) as [->|Hd].
    + rewrite decide_True by done. by rewrite lookup_insert_eq.
    + rewrite decide_False by tauto. rewrite lookup_insert_ne by done. by destruct (c_dirs c !! n).
  - rewrite decide_False by tauto. by rewrite lookup_insert_ne.
Qed.

(** A step that keeps complete extractions and the invariant. *)
Definition sound (c c' : Cache) : Prop := holds_complete c c' ∧ (cinv c → cinv c').

#[local] Instance sound_preorder : PreOrder sound.
Proof.
  split; [by intros c; split|]. intros c1 c2 c3 [K1 I1] [K2 I2]. split; [by etrans|auto].
Qed.

Lemma quiet_sound c c' : quiet c c' → sound c c'.
Proof. intros Hq. split; [by apply quiet_keeps|by apply quiet_cinv]. Qed.

Lemma isComplete_dir c n d : isComplete c n d = false → ∀ cd, at_dir c n d = Some cd → is_complete cd = false.
Proof. unfold isComplete. intros Hc cd Hd. by rewrite Hd in Hc. Qed.

(** Removing an incomplete digest directory. *)
Lemma remove_digest_sound n d c r c' :
  isComplete c n d = false → remove_digest n d c = (r, c') →
  sound c c' ∧ (∀ u, r = Done u → at_dir c' n d = None) ∧
  (∀ n' d', ¬ (n' = n ∧ d' = d) → at_dir c' n' d' = at_dir c n' d').
Proof.
  intros Hinc. unfold remove_digest. destruct (next_cfault c) as [f c1] eqn:Hn.
  apply next_cfault_quiet in Hn as [Hq Hf]. pose proof (q_dirs _ _ Hq) as Hd1.
  destruct f as [| | |kept]; intros [= <- <-].
  - assert (∀ n' d', at_dir (set_dirs (alter (delete d) n) c1) n' d' =
      if decide (n' = n ∧ d' = d) then None else at_dir c n' d') as Hat.
    { intros n' d'. etrans; [exact (at_dir_digest (λ _, None) n d c1 n' d')|].
      rewrite Hd1. case_decide; [by destruct (c_dirs c1 !! n)|done]. }
    split_and!.
    + split.
      * intros n' d' cd Hcd Hcomp. rewrite Hat. case_decide as Hnd; [|done]. destruct Hnd as [-> ->].
        rewrite (isComplete_dir c n d Hinc cd Hcd) in Hcomp. done.
      * intros Hi. destruct (quiet_cinv _ _ Hq Hi) as [_ Hcl]. split; [|done].
        intros n' d' cd. rewrite Hat. case_decide; [done|]. apply Hi.
    + intros _ _. rewrite Hat. by rewrite decide_True.
    + intros n' d' Hne. rewrite Hat. by rewrite decide_False.
  - split_and!; [by apply quiet_sound|done|auto].
  - split_and!; [by apply quiet_sound|done|auto].
  - assert (∀ n' d', at_dir (set_dirs (alter (partial_alter (λ o, o ≫= kept d) d) n) c1) n' d' =
      if decide (n' = n ∧ d' = d) then at_dir c n d ≫= kept d else at_dir c n' d') as Hat.
    { intros n' d'. rewrite at_dir_digest, Hd1. case_decide as Hnd; [|done].
      rewrite <-Hd1. unfold at_dir. by destruct (c_dirs c1 !! n). }
    split_and!; [|done|].
    + split.
      * intros n' d' cd Hcd Hcomp. rewrite Hat. case_decide as Hnd; [|done]. destruct Hnd as [-> ->].
        rewrite (isComplete_dir c n d Hinc cd Hcd) in Hcomp. done.
      * intros Hi. destruct (quiet_cinv _ _ Hq Hi) as [_ Hcl]. split; [|done].
        intros n' d' cd. rewrite Hat. case_decide as Hnd; [|apply Hi].
        destruct Hnd as [-> ->]. intros (cd0 & Hcd0 & Hk)%bind_Some Hcomp.
        pose proof (Hf clean_fault ltac:(apply Hi) I) as Hclean. cbn in Hclean.
        specialize (Hclean d cd0 cd Hk Hcomp). subst cd. rewrite (isComplete_dir c n d Hinc cd0 Hcd0) in Hcomp. done.
    + intros n' d' Hne. rewrite Hat. by rewrite decide_False.
Qed.

(** The rename of a finished extraction over a missing directory. *)
Lemma commit_sound n d fs c :
  at_dir c n d = None → entry_ok d (mkCached true (Some fs)) →
  sound c (put_dir n d (mkCached true (Some fs)) c).
Proof.
  intros Hnone Hok. split.
  - intros n' d' cd Hcd Hcomp. rewrite at_dir_put. case_decide as Hnd; [|done]. destruct Hnd as [-> ->]. congruence.
  - intros [Hc Hf]. split; [|done]. intros n' d' cd. rewrite at_dir_put. case_decide as Hnd; [|apply Hc].
    destruct Hnd as [-> ->]. by intros [= <-].
Qed.

(** * Extraction into the cache *)

Lemma cm_bind_cases {A B} (m : cm A) (f : A → cm B) c r c' :
  (m ≫= f) c = (r, c') →
  (∃ a c1, m c = (Done a, c1) ∧ f a c1 = (r, c')) ∨
  (∃ r0, m c = (r0, c') ∧ (∀ a, r0 ≠ Done a) ∧ (∀ a, r ≠ Done a)).
Proof.
  unfold mbind, cm_bind. destruct (m c) as [[a|e|] c1].
  - eauto.
  - intros [= <- <-]. right. by exists (Failed e).
  - intros [= <- <-]. right. by exists Crashed.
Qed.

(** A quiet call before the rest. *)
Lemma quiet_then {A} (effect : Cache → Cache) (k : unit → cm A) (Q : Cache → Prop) c r c' :
  (∀ c, quiet c (effect c)) →
  (∀ c1, quiet c c1 → k tt c1 = (r, c') → sound c1 c' ∧ (∀ a, r = Done a → Q c')) →
  (call effect ≫= k) c = (r, c') → sound c c' ∧ (∀ a, r = Done a → Q c').
Proof.
  intros He Hk [([] & c1 & Hc & Hr)|(r0 & Hc & Hr0 & Hr)]%cm_bind_cases.
  - apply call_quiet in Hc; [|done]. destruct (Hk c1 Hc Hr) as [Hs HQ].
    split; [etrans; [by apply quiet_sound|done]|done].
  - apply call_quiet in Hc; [|done]. split; [by apply quiet_sound|]. intros a Ha. by destruct (Hr a).
Qed.

Lemma lift_then {A B} (v : res srv_error A) (k : A → cm B) (Q : Cache → Prop) c r c' :
  (∀ a, v = Ok a → k a c = (r, c') → sound c c' ∧ (∀ b, r = Done b → Q c')) →
  (lift v ≫= k) c = (r, c') → sound c c' ∧ (∀ b, r = Done b → Q c').
Proof.
  intros Hk [(a & c1 & Hl & Hr)|(r0 & Hl & Hr0 & Hr)]%cm_bind_cases; unfold lift in Hl; destruct v;
    simplify_eq; [by eapply Hk|by destruct (Hr0 a)|].
  split; [done|]. intros b0 Hb. by destruct (Hr b0).
Qed.

Lemma quiet_isComplete c c' n d : quiet c c' → isComplete c' n d = isComplete c n d.
Proof. intros [Hd _]. unfold isComplete. by rewrite Hd. Qed.

Lemma id_quiet c : quiet c (id c).
Proof. reflexivity. Qed.

Lemma tmp_quiet tmp c : quiet c (set_tmp (filter (λ t, t ≠ tmp)) c).
Proof. apply set_tmp_quiet. Qed.

(** The last call of [extract]. *)
Lemma commit_call n d fs tmp c (r : outcome unit) c' :
  at_dir c n d = None → entry_ok d (mkCached true (Some fs)) →
  call (λ c, set_tmp (filter (λ t, t ≠ tmp)) (put_dir n d (mkCached true (Some fs)) c)) c = (r, c') →
  sound c c' ∧ (∀ a, r = Done a → at_dir c' n d = Some (mkCached true (Some fs))).
Proof.
  intros Hnone Hok. unfold call. destruct (next_cfault c) as [f c1] eqn:Hn.
  apply next_cfault_quiet in Hn as [Hq _]. destruct f; intros [= <- <-];
    try (split; [by apply quiet_sound|done]).
  split.
  - etrans; [by apply quiet_sound|]. etrans; [apply (commit_sound n d fs)|apply quiet_sound, set_tmp_quiet]; [|done].
    by rewrite (q_dirs _ _ Hq).
  - intros _ _. unfold at_dir at 1. cbn. fold (put_dir n d (mkCached true (Some fs)) c1).
    change (at_dir (put_dir n d (mkCached true (Some fs)) c1) n d = Some (mkCached true (Some fs))).
    rewrite at_dir_put. by rewrite decide_True.
Qed.

Lemma with_cleanup_sound {A} effect (m : cm A) (Q : Cache → Prop) c r c' :
  (∀ c, quiet c (effect c)) → (∀ c c', quiet c c' → Q c → Q c') →
  (∀ r c', m c = (r, c') → sound c c' ∧ (∀ a, r = Done a → Q c')) →
  with_cleanup (call effect) m c = (r, c') → sound c c' ∧ (∀ a, r = Done a → Q c').
Proof.
  intros He HQ Hm. unfold with_cleanup. destruct (m c) as [r1 c1] eqn:E.
  destruct (Hm _ _ eq_refl) as [Hs Hd].
  destruct r1 as [a|e|]; [| |by intros [= <- <-]];
    (destruct (call effect c1) as [r2 c2] eqn:Hc; apply call_quiet in Hc; [|done]);
    (assert (sound c c2) by (etrans; [exact Hs|by apply quiet_sound]));
    destruct r2; intros [= <- <-]; (split; [done|]); intros ? ?; simplify_eq; eauto.
Qed.

Definition installed (n d : string) (c : Cache) : Prop :=
  ∃ fs, at_dir c n d = Some (mkCached true (Some fs)).

Lemma extract_sound lim ctx set tmp n d c r c' :
  digest_ok (fs_ManifestDigest set) = true → d = digest_dir set → isComplete c n d = false →
  extract b lim ctx set tmp n d c = (r, c') →
  sound c c' ∧ (∀ a, r = Done a → installed n d c').
Proof.
  intros Hdg Hd Hinc. unfold extract. apply (lift_then _ _ (installed n d)). intros m Hm.
  apply (quiet_then _ _ (installed n d)); [intros; apply set_tmp_quiet|]. intros c1 Hq1.
  apply (with_cleanup_sound _ _ (installed n d)); [intros; apply tmp_quiet| |].
  { intros c2 c3 Hq [fs Hfs]. exists fs. by rewrite (q_dirs _ _ Hq). }
  intros r1 c1'. apply (quiet_then _ _ (installed n d)); [apply id_quiet|]. intros c2 Hq2.
  apply (lift_then _ _ (installed n d)). intros x Hx.
  apply (quiet_then _ _ (installed n d)); [apply id_quiet|]. intros c3 Hq3.
  apply (quiet_then _ _ (installed n d)); [intros; apply mkdir_quiet|]. intros c4 Hq4.
  assert (isComplete c4 n d = false) as Hinc4 by (by rewrite !(quiet_isComplete _ _ _ _ Hq4),
    !(quiet_isComplete _ _ _ _ Hq3), !(quiet_isComplete _ _ _ _ Hq2), !(quiet_isComplete _ _ _ _ Hq1)).
  intros [([] & c5 & Hr & Hc)|(r0 & Hr & _ & Hnd)]%cm_bind_cases.
  - destruct (remove_digest_sound n d c4 _ _ Hinc4 Hr) as (Hs & Hnone & _).
    apply commit_call in Hc as [Hs2 Hdone]; [|by eapply Hnone|].
    + split; [by etrans|]. intros a Ha. exists (x_root x). eauto.
    + intros _. exists (fs_ManifestDigest set), (x_root x). split_and!; [done|done|done|].
      exists (fs_Repo set), lim, ctx, m, x. done.
  - destruct (remove_digest_sound n d c4 _ _ Hinc4 Hr) as (Hs & _). split; [done|].
    intros a Ha. by destruct (Hnd a).
Qed.

(** * Removals *)

(** Any removal, of complete directories too, keeps the invariant and touches
    nothing else. *)
Lemma shrink_cinv c c' : cinv c → Forall clean_fault (c_faults c') →
  (∀ n d cd, at_dir c' n d = Some cd → is_complete cd = true → at_dir c n d = Some cd) → cinv c'.
Proof. intros [Hc _] Hf Hs. split; [|done]. intros n d cd Hcd Hcomp. apply (Hc n d cd); [by apply Hs|done]. Qed.

Lemma remove_digest_step n d c r c' : remove_digest n d c = (r, c') →
  (cinv c → cinv c') ∧ (∀ n' d', ¬ (n' = n ∧ d' = d) → at_dir c' n' d' = at_dir c n' d').
Proof.
  unfold remove_digest. destruct (next_cfault c) as [f c1] eqn:Hn.
  apply next_cfault_quiet in Hn as [Hq Hf]. pose proof (q_dirs _ _ Hq) as Hd1.
  destruct f as [| | |kept]; intros [= <- <-]; [|split; [by apply quiet_cinv|auto]..|].
  - assert (∀ n' d', at_dir (set_dirs (alter (delete d) n) c1) n' d' =
      if decide (n' = n ∧ d' = d) then match c_dirs c1 !! n with Some m => None | None => None end
      else at_dir c1 n' d') as Hat by exact (at_dir_digest (λ _, None) n d c1). split.
    + intros Hi. eapply shrink_cinv; [exact Hi|apply (quiet_cinv _ _ Hq Hi)|].
      intros n' d' cd Hcd _. rewrite Hat in Hcd. case_decide; [by destruct (c_dirs c1 !! n)|].
      by rewrite <-Hd1.
    + intros n' d' Hne. rewrite Hat. by rewrite decide_False.
  - pose proof (at_dir_digest (λ o, o ≫= kept d) n d c1) as Hat. split.
    + intros Hi. eapply shrink_cinv; [exact Hi|apply (quiet_cinv _ _ Hq Hi)|].
      intros n' d' cd Hcd Hcomp. rewrite Hat in Hcd. case_decide as Hnd; [|by rewrite <-Hd1].
      destruct Hnd as [-> ->]. rewrite <-Hd1. unfold at_dir. destruct (c_dirs c1 !! n) as [m|]; [|done].
      apply bind_Some in Hcd as (cd0 & Hcd0 & Hk). cbn.
      pose proof (Hf clean_fault ltac:(apply Hi) I d cd0 cd Hk Hcomp) as ->. done.
    + intros n' d' Hne. rewrite Hat. by rewrite decide_False.
Qed.

Lemma remove_name_step n c r c' : remove_name n c = (r, c') →
  (cinv c → cinv c') ∧ (∀ n' d', n' ≠ n → at_dir c' n' d' = at_dir c n' d').
Proof.
  unfold remove_name. destruct (next_cfault c) as [f c1] eqn:Hn.
  apply next_cfault_quiet in Hn as [Hq Hf]. pose proof (q_dirs _ _ Hq) as Hd1.
  destruct f as [| | |kept]; intros [= <- <-]; [|split; [by apply quiet_cinv|auto]..|].
  - assert (∀ n' d', at_dir (set_dirs (delete n) c1) n' d' = if decide (n' = n) then None else at_dir c n' d') as Hat.
    { intros n' d'. rewrite <-Hd1. unfold at_dir; cbn. case_decide as Hnd.
      - subst. by rewrite lookup_delete_eq.
      - by rewrite lookup_delete_ne. }
    split; [|intros n' d' Hne; rewrite Hat; by rewrite decide_False].
    intros Hi. eapply shrink_cinv; [exact Hi|apply (quiet_cinv _ _ Hq Hi)|].
    intros n' d' cd Hcd _. rewrite Hat in Hcd. by case_decide.
  - assert (∀ n' d', at_dir (set_dirs (alter (map_imap kept) n) c1) n' d' =
      if decide (n' = n) then at_dir c n' d' ≫= kept d' else at_dir c n' d') as Hat.
    { intros n' d'. rewrite <-Hd1. unfold at_dir; cbn. case_decide as Hnd.
      - subst. rewrite lookup_alter_eq. destruct (c_dirs c1 !! n); [|done]. cbn. by rewrite map_lookup_imap.
      - by rewrite lookup_alter_ne. }
    split; [|intros n' d' Hne; rewrite Hat; by rewrite decide_False].
    intros Hi. eapply shrink_cinv; [exact Hi|apply (quiet_cinv _ _ Hq Hi)|].
    intros n' d' cd Hcd Hcomp. rewrite Hat in Hcd. case_decide; [|done].
    apply bind_Some in Hcd as (cd0 & Hcd0 & Hk).
    pose proof (Hf clean_fault ltac:(apply Hi) I d' cd0 cd Hk Hcomp) as ->. done.
Qed.

(** ** The purge *)

(** A pair [Sync] wants. *)
Definition wants (wanted : gmap string (gset string)) (n d : string) : Prop :=
  ∃ keep, wanted !! n = Some keep ∧ d ∈ keep ∧ has_prefix n ".tmp-" = false.

(** A step of the purge: the invariant holds and wanted directories stay. *)
Definition purges (wanted : gmap string (gset string)) (c c' : Cache) : Prop :=
  (cinv c → cinv c') ∧ ∀ n d, wants wanted n d → at_dir c' n d = at_dir c n d.

#[local] Instance purges_preorder wanted : PreOrder (purges wanted).
Proof.
  split; [by intros c; split|]. intros c1 c2 c3 [I1 W1] [I2 W2].
  split; [auto|]. intros n d Hw. by rewrite W2, W1.
Qed.

Lemma quiet_purges wanted c c' : quiet c c' → purges wanted c c'.
Proof. intros Hq. split; [by apply quiet_cinv|]. intros n d _. apply Hq. Qed.

Lemma purge_digests_purges wanted n keep dgsts c r c' :
  wanted !! n = Some keep → purge_digests n keep dgsts c = (r, c') → purges wanted c c'.
Proof.
  intros Hk. revert c. induction dgsts as [|d dgsts IH]; intros c; cbn; [by intros [= <- <-]|].
  case_bool_decide as Hd; [apply IH|].
  destruct (remove_digest n d c) as [r1 c1] eqn:Hr. apply remove_digest_step in Hr as [Hi Ho].
  assert (purges wanted c c1) as Hp.
  { split; [done|]. intros n' d' (keep' & Hk' & Hd' & _). apply Ho. intros [-> ->].
    rewrite Hk in Hk'. injection Hk' as ->. done. }
  destruct r1; [| |by intros [= <- <-]]; intros Hrest; (etrans; [exact Hp|by eapply IH]).
Qed.

Lemma purge_name_purges wanted n c r c' : purge_name wanted n c = (r, c') → purges wanted c c'.
Proof.
  unfold purge_name. destruct (wanted !! n) as [keep|] eqn:Hk; [destruct (has_prefix n ".tmp-") eqn:Ht|].
  - intros [Hi Ho]%remove_name_step. split; [done|]. intros n' d' (keep' & Hk' & _ & Ht'). apply Ho. congruence.
  - destruct (next_cfault c) as [f c2] eqn:Hn. apply next_cfault_quiet in Hn as [Hq _].
    destruct f; intros Hr; try (injection Hr as <- <-; by apply quiet_purges).
    etrans; [by apply quiet_purges|]. by eapply purge_digests_purges.
  - intros [Hi Ho]%remove_name_step. split; [done|]. intros n' d' (keep' & Hk' & _). apply Ho. congruence.
Qed.

Lemma purge_names_purges wanted names c r c' :
  purge_names wanted names c = (r, c') → purges wanted c c'.
Proof.
  revert c. induction names as [|n names IH]; intros c; cbn; [by intros [= <- <-]|].
  destruct (purge_name wanted n c) as [r1 c1] eqn:Hr. apply purge_name_purges in Hr.
  destruct r1; [| |by intros [= <- <-]]; intros Hrest; (etrans; [exact Hr|by eapply IH]).
Qed.

Lemma purge_tmp_quiet tmps c r c' : purge_tmp tmps c = (r, c') → quiet c c'.
Proof.
  revert c. induction tmps as [|t tmps IH]; intros c; cbn [purge_tmp]; [by intros [= <- <-]|].
  destruct (call _ c) as [r1 c1] eqn:Hc. apply call_quiet in Hc; [|intros; apply set_tmp_quiet].
  destruct r1; [| |by intros [= <- <-]]; intros Hr; (etrans; [exact Hc|by eapply IH]).
Qed.

Lemma purge_purges wanted c r c' : purge wanted c = (r, c') → purges wanted c c'.
Proof.
  unfold purge. destruct (next_cfault c) as [f c1] eqn:Hn. apply next_cfault_quiet in Hn as [Hq _].
  destruct f; intros Hr; try (injection Hr as <- <-; by apply quiet_purges).
  destruct (purge_tmp (c_tmp c1) c1) as [r2 c2] eqn:Ht. apply purge_tmp_quiet in Ht.
  assert (purges wanted c c2) as Hp by (etrans; [by apply quiet_purges|by apply quiet_purges]).
  destruct r2; [| |by injection Hr as <- <-]; (etrans; [exact Hp|by eapply purge_names_purges]).
Qed.

(** * The loop of [Sync] *)

Lemma open_root_quiet n d c r c' : open_root n d c = (r, c') → quiet c c' ∧
  (∀ u, r = Done u → ∃ cd, at_dir c' n d = Some cd ∧ is_Some (cd_rootfs cd)).
Proof.
  unfold open_root. destruct (next_cfault c) as [f c1] eqn:Hn. apply next_cfault_quiet in Hn as [Hq _].
  destruct f; try (intros [= <- <-]; by split).
  destruct (at_dir c1 n d) as [cd|] eqn:Hcd; [|intros [= <- <-]; by split].
  case_bool_decide; intros [= <- <-]; (split; [done|]); [|done]. intros _ _. eauto.
Qed.

(** A digest directory that holds a finished extraction. *)
Definition finished (n d : string) (c : Cache) : Prop := ∃ cd, at_dir c n d = Some cd ∧ is_complete cd = true.

Lemma finished_holds n d c c' : holds_complete c c' → finished n d c → finished n d c'.
Proof. intros Hk (cd & Hcd & Hc). exists cd. eauto. Qed.

Lemma prepareSet_sound lim ctx tmp set c r c' :
  digest_ok (fs_ManifestDigest set) = true → prepareSet b lim ctx tmp set c = (r, c') →
  sound c c' ∧ (∀ u, r = Done u → finished (name_dir set) (digest_dir set) c').
Proof.
  intros Hdg. unfold prepareSet. destruct (isComplete c (name_dir set) (digest_dir set)) eqn:Hc.
  - intros [Hq _]%open_root_quiet. split; [by apply quiet_sound|]. intros _ _.
    unfold isComplete in Hc. destruct (at_dir c _ _) as [cd|] eqn:Hcd; [|done].
    exists cd. by rewrite (q_dirs _ _ Hq).
  - intros [([] & c1 & He & Ho)|(r0 & He & _ & Hnd)]%cm_bind_cases.
    + apply extract_sound in He as [Hs Hi]; [|done..]. apply open_root_quiet in Ho as [Hq _].
      split; [etrans; [done|by apply quiet_sound]|]. intros _ _. destruct (Hi _ eq_refl) as [fs Hfs].
      eexists. rewrite (q_dirs _ _ Hq). done.
    + apply extract_sound in He as [Hs _]; [|done..]. split; [done|]. intros u Hu. by destruct (Hnd u).
Qed.

(** A served set reads the finished directory of its own name and digest. *)
Record set_ok (c : Cache) (name : string) (ss : servedSet) : Prop := {
  so_key : fs_Name (ss_set ss) = name;
  so_name : ss_name ss = name_dir (ss_set ss);
  so_dir : ss_dir ss = digest_dir (ss_set ss);
  so_digest : digest_ok (fs_ManifestDigest (ss_set ss)) = true;
  so_finished : finished (ss_name ss) (ss_dir ss) c;
}.

Lemma set_ok_holds c c' name ss : holds_complete c c' → set_ok c name ss → set_ok c' name ss.
Proof. intros Hk [K1 K2 K3 K4 K5]. split; try done. by eapply finished_holds. Qed.

(** The names in order are the names served. *)
Definition ordered (m : gmap string servedSet) (order : list string) : Prop :=
  NoDup order ∧ ∀ name, name ∈ order ↔ is_Some (m !! name).

Record loop_inv (c : Cache) (y : syncState) : Prop := {
  li_next : ∀ name ss, y_next y !! name = Some ss →
    set_ok c name ss ∧ wants (y_wanted y) (ss_name ss) (ss_dir ss);
  li_order : ordered (y_next y) (y_order y);
}.

Lemma loop_inv_holds c c' y : holds_complete c c' → loop_inv c y → loop_inv c' y.
Proof.
  intros Hk [Hn Ho]. split; [|done]. intros name ss Hs. destruct (Hn name ss Hs) as [? ?].
  split; [by eapply set_ok_holds|done].
Qed.

(** The cache directory of a name is never taken for a temporary one. *)
Lemma name_dir_not_tmp set : has_prefix (name_dir set) ".tmp-" = false.
Proof.
  unfold name_dir, sanitizeName. destruct (_ && _) eqn:Hv.
  - apply andb_true_iff in Hv as [_ Hs]. apply not_true_iff_false. intros [r Hr]%has_prefix_spec.
    rewrite Hr in Hs. unfold safeNamePattern in Hs. cbn [first_byte] in Hs.
    change (first_byte (".tmp-" +:+ r)) with (Some "."%char) in Hs.
    destruct (last_byte (".tmp-" +:+ r)); [|done]. cbn in Hs. done.
  - apply not_true_iff_false. intros [r Hr]%has_prefix_spec. discriminate Hr.
Qed.

Lemma ordered_insert m order name ss : ordered m order → m !! name = None →
  ordered (<[name := ss]> m) (order ++ [name]).
Proof.
  intros [Hnd Ho] Hn. split.
  - apply NoDup_app. split; [done|]. split; [|apply NoDup_singleton].
    intros x Hx ->%list_elem_of_singleton. apply Ho in Hx as [? ?]. congruence.
  - intros x. rewrite elem_of_app, list_elem_of_singleton, Ho. destruct (decide (x = name)) as [->|Hne].
    + rewrite lookup_insert_eq. split; [eauto|by right].
    + rewrite lookup_insert_ne by done. naive_solver.
Qed.

Lemma wants_install wanted n d n' d' : has_prefix n ".tmp-" = false →
  wants wanted n' d' ∨ (n' = n ∧ d' = d) →
  wants (<[n := {[d]} ∪ default ∅ (wanted !! n)]> wanted) n' d'.
Proof.
  intros Ht [(keep & Hk & Hd & Hp)|[-> ->]].
  - destruct (decide (n' = n)) as [->|Hne].
    + exists ({[d]} ∪ keep). rewrite lookup_insert_eq, Hk. cbn. split; [done|]. split; [set_solver|done].
    + exists keep. by rewrite lookup_insert_ne.
  - eexists. rewrite lookup_insert_eq. split; [done|]. split; [set_solver|done].
Qed.

Lemma validateSet_digest set u : validateSet set = Ok u → digest_ok (fs_ManifestDigest set) = true.
Proof.
  unfold validateSet. repeat case_match; try done. intros _. by apply negb_false_iff.
Qed.

(** One turn of the loop: complete trees stay, the invariants hold, and the set
    is installed or reported. *)
Lemma syncSet_sound ctx tmp set y c r c' : syncSet b ctx tmp set y c = (r, c') →
  sound c c' ∧
  (∀ y', r = Done y' → loop_inv c y → loop_inv c' y') ∧
  (∀ y', r = Done y' → length (y_errs y') + length (y_order y') = S (length (y_errs y) + length (y_order y))) ∧
  (∀ e, r ≠ Failed e).
Proof.
  unfold syncSet. destruct (validateSet set) as [u|e] eqn:Hv.
  2:{ intros [= <- <-]. split_and!; [done|by intros y' [= <-] []; split| |done].
      intros y' [= <-]. cbn. rewrite length_app. cbn. lia. }
  apply validateSet_digest in Hv. destruct (y_next y !! fs_Name set) as [ss|] eqn:Hdup.
  { intros [= <- <-]. split_and!; [done|by intros y' [= <-] []; split| |done].
    intros y' [= <-]. cbn. rewrite length_app. cbn. lia. }
  cbv zeta. set (server := if isComplete _ _ _ then _ else _).
  destruct (prepareSet _ _ _ _ _ _) as [r1 c1] eqn:Hp. apply prepareSet_sound in Hp as [Hs Hf]; [|done].
  destruct r1 as [u1|e|]; intros [= <- <-]; (split; [done|]); (split; [|split; [|done]]).
  - intros y' [= <-] Hinv. destruct (loop_inv_holds c c1 y (proj1 Hs) Hinv) as [Hn Ho].
    split; cbn; [|by apply ordered_insert]. intros name ss.
    destruct (decide (name = fs_Name set)) as [->|Hne].
    + rewrite lookup_insert_eq. intros [= <-]. split.
      * split; try done. by eapply Hf.
      * apply wants_install; [apply name_dir_not_tmp|by right].
    + rewrite lookup_insert_ne by done. intros Hss. destruct (Hn name ss Hss) as [Hok Hw].
      split; [done|]. apply wants_install; [apply name_dir_not_tmp|by left].
  - intros y' [= <-]. cbn. rewrite length_app. cbn. lia.
  - intros y' [= <-] Hinv. destruct (loop_inv_holds c c1 y (proj1 Hs) Hinv) as [Hn Ho]. by split.
  - intros y' [= <-]. cbn. rewrite length_app. cbn. lia.
  - done.
  - done.
Qed.

Lemma syncSets_sound ctx tmp sets y c r c' : syncSets b ctx tmp sets y c = (r, c') →
  sound c c' ∧
  (∀ y', r = Done y' → loop_inv c y → loop_inv c' y') ∧
  (∀ y', r = Done y' →
    length (y_errs y') + length (y_order y') = length sets + (length (y_errs y) + length (y_order y))) ∧
  (∀ e, r ≠ Failed e).
Proof.
  revert y c. induction sets as [|set sets IH]; intros y c; cbn.
  { intros [= <- <-]. split_and!; [done|by intros y' [= <-]|by intros y' [= <-]|done]. }
  destruct (syncSet b ctx tmp set y c) as [r1 c1] eqn:H1'. apply syncSet_sound in H1' as (Hs & Hi & Hl & Hnf).
  destruct r1 as [y1|e|].
  - intros (Hs2 & Hi2 & Hl2 & Hnf2)%IH. split_and!; [by etrans|eauto| |done].
    intros y' Hy. rewrite (Hl2 y' Hy), (Hl y1 eq_refl). lia.
  - by destruct (Hnf e).
  - intros [= <- <-]. split_and!; done.
Qed.

End safety.
