(* ===== verification/PackTheorems.v ===== *)
(** What packing promises: a FileSet lands whole or not at all, under the name an
    operator can declare; the same content gives the same digests; a confined
    packer stays inside its roots; and where the name rules differ from their
    comments. *)

From S2P Require Import Prelude GoStrings Relocate MediaPaths Taxonomy FilePaths Extract Pack PackRoundtrip FileSetToy.

(** * The reference of a packed FileSet *)

Lemma component_rest_all s : component_rest s = true → all_bytes component_inner s = true.
Proof.
  induction s as [|c s IH]; [done|]. cbn [component_rest all_bytes]. destruct s as [|d s].
  - intros Hc. cbn. unfold component_inner. by rewrite Hc.
  - intros [Hc Hs]%andb_true_iff. rewrite Hc. by apply IH.
Qed.

Lemma valid_name_bytes name : validatePackName name = Ok tt →
  name ≠ "" ∧ all_bytes component_inner name = true ∧ name ≠ "." ∧ name ≠ "..".
Proof.
  unfold validatePackName. destruct (String.eqb_spec name "") as [|Hne]; [done|].
  destruct (100 <? slen name)%nat; [done|].
  destruct (validPathComponent name) eqn:Hv; [|done]. intros _.
  unfold validPathComponent in Hv. destruct name as [|c rest]; [done|].
  apply andb_true_iff in Hv as [Hc Hr]. split; [done|]. split; [|by split; intros [= -> ->]].
  cbn. unfold component_inner at 1. rewrite Hc. by apply component_rest_all.
Qed.

Lemma component_no c name : component_inner c = false → all_bytes component_inner name = true → ¬ in_str c name.
Proof. rewrite all_bytes_spec. intros Hc Hall Hin. apply Hall in Hin. congruence. Qed.

(** The repository half of the reference: one separator, none at the ends. *)
Definition packed_repo (name : string) : string := "filesets" +:+ "/" +:+ name.

Lemma packed_repo_split name : ¬ in_str "/" name → split_byte "/" (packed_repo name) = ["filesets"; name].
Proof.
  intros Hn. change (packed_repo name) with ("filesets" +:+ String "/" name).
  rewrite split_byte_sep, (split_byte_single "/" name) by done. reflexivity.
Qed.

Lemma packed_repo_guards name : name ≠ "" → ¬ in_str "/" name →
  String.eqb (packed_repo name) "" || has_prefix (packed_repo name) "/" || has_suffix (packed_repo name) "/"
    || contains_str (packed_repo name) "//" = false.
Proof.
  intros Hne Hn.
  assert (has_prefix (packed_repo name) "/" = false) as ->.
  { apply not_true_iff_false. intros [r Hr]%has_prefix_spec. discriminate Hr. }
  assert (has_suffix (packed_repo name) "/" = false) as ->.
  { apply not_true_iff_false. intros [r Hr]%has_suffix_spec.
    assert (last_byte (packed_repo name) = Some "/"%char) as Hl by (rewrite Hr; by apply last_byte_app).
    unfold packed_repo in Hl. rewrite <-sapp_assoc, last_byte_app in Hl by done.
    by apply last_byte_in in Hl. }
  assert (contains_str (packed_repo name) "//" = false) as ->; [|done].
  apply contains_str_false. intros a z Heq. pose proof (packed_repo_split name Hn) as Hs.
  rewrite Heq in Hs. change (a +:+ "//" +:+ z) with (a +:+ String "/" ("" +:+ String "/" z)) in Hs.
  rewrite !split_byte_sep in Hs. apply (f_equal length) in Hs. rewrite !length_app in Hs. cbn in Hs.
  pose proof (split_byte_nonempty "/" a). pose proof (split_byte_nonempty "/" z).
  destruct (split_byte "/" a), (split_byte "/" z); cbn in Hs; [done..|]. lia.
Qed.

(** A byte no name may hold is not in the reference either. *)
Lemma packed_ref_no name c : all_bytes component_inner name = true → c ≠ "/"%char → component_inner c = false →
  contains_byte (PackReference name) c = false ∧ contains_byte (packed_repo name) c = false.
Proof.
  intros Hb Hc1 Hc2. pose proof (component_no c name Hc2 Hb) as Hno.
  assert (∀ s, all_bytes component_inner s = true → ¬ in_str c s) as Hlit by (intros s; by apply component_no).
  assert (¬ in_str c "/") as Hsl by (cbn; naive_solver).
  rewrite !contains_byte_false. unfold PackReference, packed_repo. rewrite !in_str_app.
  pose proof (Hlit PackedHost eq_refl). pose proof (Hlit PackedNamespace eq_refl). pose proof (Hlit "filesets" eq_refl).
  tauto.
Qed.

Section pack.
Context `{GoRuntime, FileSetLib}.

Lemma pack_reference_split name : name ≠ "" → all_bytes component_inner name = true →
  splitRef (PackReference name) = Ok ("localhost", packed_repo name).
Proof.
  intros Hne Hb. unfold splitRef. change (String.eqb (PackReference name) "") with false.
  assert (contains_str (PackReference name) "://" = false) as ->.
  { apply contains_str_false. intros a z Heq.
    destruct (packed_ref_no name ":"%char Hb) as [Hc _]; [done|done|]. apply contains_byte_false in Hc.
    apply Hc. rewrite Heq, !in_str_app. right; left; cbn; by left. }
  assert (has_prefix (PackReference name) "[" = false) as ->.
  { apply not_true_iff_false. intros [r Hr]%has_prefix_spec. discriminate Hr. }
  destruct (packed_ref_no name "@"%char Hb) as [-> _]; [done|done|].
  change (cut_byte "/" (PackReference name)) with (Some ("localhost", packed_repo name)).
  destruct (packed_ref_no name ":"%char Hb) as [_ Hcol]; [done|done|].
  cbv beta iota zeta. rewrite Hcol, packed_repo_guards by (done || by apply component_no).
  unfold canonicalHost, to_lower. reflexivity.
Qed.

(** The repository of a valid name is the one the inventory looks under. *)
Lemma pack_reference_path base name : validatePackName name = Ok tt →
  PathWithBase base (PackReference name) = Ok (packedPrefix base +:+ name).
Proof.
  intros (Hne & Hb & _)%valid_name_bytes. unfold PathWithBase, Path.
  rewrite pack_reference_split by done. cbn [mbind res_bind]. unfold packedPrefix, packed_repo.
  destruct (String.eqb (trim_byte "/" base) ""); f_equal; by rewrite !sapp_assoc.
Qed.

(** * What lands in the store *)

(** Every blob is stored under its digest. *)
Definition store_ok (k : PackStore) : Prop :=
  ∀ repo d data, k_blobs k !! (repo, d) = Some data → sha256 data = d.

(** Writing blobs leaves the index alone: manifests, tags and import records. *)
Record blob_step (k k' : PackStore) : Prop := {
  bs_blobs : k_blobs k ⊆ k_blobs k';
  bs_manifests : k_manifests k' = k_manifests k;
  bs_tags : k_tags k' = k_tags k;
  bs_manual : k_manual k' = k_manual k;
  bs_ok : store_ok k → store_ok k';
}.

#[local] Instance blob_step_preorder : PreOrder blob_step.
Proof.
  split; [by intros k; split|]. intros k1 k2 k3 [A1 A2 A3 A4 A5] [B1 B2 B3 B4 B5].
  split; [by etrans|congruence..|auto].
Qed.

Lemma next_wfault_step k f k' : next_wfault k = (f, k') → blob_step k k' ∧ k_blobs k' = k_blobs k.
Proof. unfold next_wfault. destruct (k_faults k); intros [= <- <-]; done. Qed.

Lemma w_HasBlob_step repo d k has k' : w_HasBlob repo d k = (has, k') →
  blob_step k k' ∧ (has = true → is_Some (k_blobs k' !! (repo, d))).
Proof.
  unfold w_HasBlob. destruct (next_wfault k) as [f k1] eqn:Hn. apply next_wfault_step in Hn as [Hs _].
  destruct f; intros [= <- <-]; split; try done. by intros ?%bool_decide_eq_true.
Qed.

Lemma w_WriteBlob_step repo d data k w k' : w_WriteBlob repo d data k = (w, k') →
  blob_step k k' ∧ (w = WOk → is_Some (k_blobs k' !! (repo, d))).
Proof.
  unfold w_WriteBlob. destruct (next_wfault k) as [f k1] eqn:Hn. apply next_wfault_step in Hn as [Hs _].
  destruct f; [|intros [= <- <-]; by split..].
  destruct (k_blobs k1 !! (repo, d)) as [data'|] eqn:Hb.
  { intros [= <- <-]. split; [done|]. eauto. }
  destruct (String.eqb_spec (sha256 data) d) as [<-|]; intros [= <- <-]; [|by split]. split.
  - etrans; [exact Hs|]. split; cbn; [by apply insert_subseteq|done..|].
    intros Hok repo' d' data'. cbn. rewrite lookup_insert_Some. intros [[[= <- <-] <-]|[_ ?]]; [done|].
    by apply (Hok repo' d' data').
  - intros _. cbn. rewrite lookup_insert_eq. eauto.
Qed.

Lemma writeLayer_step p h repo src d want k r k' : writeLayer p h repo src d want k = (r, k') →
  blob_step k k' ∧ (∀ u, r = Ok u → is_Some (k_blobs k' !! (repo, d))).
Proof.
  unfold writeLayer. destruct (w_HasBlob repo d k) as [has k1] eqn:Hh. apply w_HasBlob_step in Hh as [Hs1 Hh].
  destruct has; [intros [= <- <-]; by split; [|intros; apply Hh]|].
  destruct (writeTree _ _) as [s|rej].
  2:{ destruct (next_wfault k1) as [f k2] eqn:Hn. apply next_wfault_step in Hn as [Hs2 _].
      intros [= <- <-]. cbn. split; [by etrans|done]. }
  destruct (w_WriteBlob _ _ _ k1) as [w k2] eqn:Hw. apply w_WriteBlob_step in Hw as [Hs2 Hw].
  assert (blob_step k k2) by (by etrans).
  destruct w; [| |]; [|intros [= <- <-]; by split|]; destruct (negb _); intros [= <- <-]; (split; [done|]); try done.
  intros u _. by apply Hw.
Qed.

Lemma writeConfig_step repo raw d k r k' : writeConfig repo raw d k = (r, k') →
  blob_step k k' ∧ (∀ u, r = Ok u → is_Some (k_blobs k' !! (repo, d))).
Proof.
  unfold writeConfig. destruct (w_HasBlob repo d k) as [has k1] eqn:Hh. apply w_HasBlob_step in Hh as [Hs1 Hh].
  destruct has; [intros [= <- <-]; by split; [|intros; apply Hh]|].
  destruct (w_WriteBlob _ _ _ k1) as [w k2] eqn:Hw. apply w_WriteBlob_step in Hw as [Hs2 Hw].
  destruct w; intros [= <- <-]; (split; [by etrans|]); try done. intros u _. by apply Hw.
Qed.

(** A version of a FileSet in the store: its tag, its manifest, and the two blobs
    the manifest refers to. *)
Record landed (k : PackStore) (repo version dgst : string) : Prop := {
  ld_tag : k_tags k !! (repo, version) = Some dgst;
  ld_manifest : ∃ m layer, k_manifests k !! (repo, dgst) = Some (encode_manifest m) ∧
    dgst = sha256 (encode_manifest m) ∧ im_layers m = [layer] ∧
    is_Some (k_blobs k !! (repo, id_digest layer)) ∧
    is_Some (k_blobs k !! (repo, id_digest (im_config m))) ∧
    (AnnotationPacked, "true") ∈ im_annotations m;
}.

(** The stages of [Pack] after its checks: blobs first, then the manifest and its
    tag, then the record. *)
Lemma Pack_stages p h req src s repo k r k' :
  pack_check p h req = Ok (src, s, repo) → Pack p h req k = (r, k') →
  let layer := tar_write (ps_out s) in
  let m := packManifest (packConfig (sha256 layer)).2
    (mkImageDescriptor packedLayerMediaType (sha256 layer) (Z.of_nat (slen layer))) in
  (∃ e, r = Err e ∧ blob_step k k') ∨
  (∃ k2, blob_step k k2 ∧ is_Some (k_blobs k2 !! (repo, sha256 layer)) ∧
    is_Some (k_blobs k2 !! (repo, id_digest (im_config m))) ∧
    k_blobs k' = k_blobs k2 ∧
    k_manifests k' = <[(repo, sha256 (encode_manifest m)) := encode_manifest m]> (k_manifests k2) ∧
    k_tags k' = <[(repo, pr_version req) := sha256 (encode_manifest m)]> (k_tags k2) ∧
    (r = Err RecordFailed ∨
     repo ∈ k_manual k' ∧
     r = Ok (mkPackResult (pr_name req) (PackReference (pr_name req)) repo (pr_version req)
          (sha256 (encode_manifest m)) (sha256 layer) (ps_stats s) false))).
Proof.
  intros Hck. unfold Pack. rewrite Hck.
  destruct (writeLayer _ _ _ _ _ _ k) as [r1 k1] eqn:Hl. apply writeLayer_step in Hl as [Hs1 Hl].
  destruct r1 as [[]|e]; [|intros [= <- <-]; left; eauto]. specialize (Hl tt eq_refl).
  destruct (packConfig _) as [raw cfg] eqn:Hcfg. cbn [fst snd].
  destruct (writeConfig _ _ _ k1) as [r2 k2] eqn:Hc. apply writeConfig_step in Hc as [Hs2 Hc].
  assert (blob_step k k2) as Hs by (by etrans).
  destruct r2 as [[]|e]; [|intros [= <- <-]; left; eauto]. specialize (Hc tt eq_refl).
  unfold w_PutManifest. destruct (next_wfault k2) as [f k3] eqn:Hn. apply next_wfault_step in Hn as [Hs3 Hb3].
  assert (blob_step k k3) as Hs' by (by etrans).
  destruct f; [|intros [= <- <-]; left; eauto..].
  unfold w_MarkManualImport, next_wfault at 1. cbn. intros Hr. right. exists k3.
  rewrite Hb3. assert (is_Some (k_blobs k2 !! (repo, sha256 (tar_write (ps_out s))))) as Hl2.
  { destruct Hl as [x Hx]. exists x. by apply (lookup_weaken _ _ _ _ Hx), Hs2. }
  destruct (k_faults k3) as [|[] fs]; injection Hr as <- <-; cbn; split_and!; try done; eauto.
  all: right; split; [set_solver|done].
Qed.

(** A packed FileSet lands whole or leaves the index as it was: the tag only ever
    points at a stored manifest whose layer and configuration are stored, under
    their digests, and that carries the packed annotation; the only failure after
    that point is the provenance record, and success has it too. *)
Theorem pack_lands_whole p h req k r k'
    (Hok : store_ok k) (Hpack : Pack p h req k = (r, k')) :
  store_ok k' ∧
  match r with
  | Ok res => landed k' (rs_repository res) (rs_version res) (rs_digest res) ∧
      rs_repository res ∈ k_manual k' ∧ rs_version res = pr_version req ∧ rs_signed res = false
  | Err e =>
      (k_manifests k' = k_manifests k ∧ k_tags k' = k_tags k ∧ k_manual k' = k_manual k) ∨
      (e = RecordFailed ∧ ∃ repo dgst, landed k' repo (pr_version req) dgst)
  end.
Proof.
  destruct (pack_check p h req) as [[[src s] repo]|e] eqn:Hck.
  2:{ unfold Pack in Hpack. rewrite Hck in Hpack. injection Hpack as <- <-. auto. }
  destruct (Pack_stages _ _ _ _ _ _ _ _ _ Hck Hpack) as [(e & -> & [_ B2 B3 B4 B5])|(k2 & Hs & Hl & Hc & E1 & E2 & E3 & Hr)];
    [split; [auto|by left]|].
  set (m := packManifest _ _) in *.
  assert (store_ok k') as Hok' by (intros repo' d data; rewrite E1; by apply (bs_ok _ _ Hs)).
  assert (landed k' repo (pr_version req) (sha256 (encode_manifest m))) as Hland.
  { split; [by rewrite E3, lookup_insert_eq|]. eexists m, _. rewrite E1, E2, lookup_insert_eq.
    split_and!; try done. apply elem_of_cons. by left. }
  split; [done|]. destruct Hr as [->|[Hman ->]]; cbn; eauto 6.
Qed.

(** * Reproducibility and confinement *)

Lemma pack_check_Ok p h req src s repo : pack_check p h req = Ok (src, s, repo) →
  validatePackName (pr_name req) = Ok tt ∧ resolveSource p h (pr_source req) = Ok src ∧
  writeTree (pk_limits p) (h_tree1 h src) = Ok s ∧
  PathWithBase (pk_base p) (PackReference (pr_name req)) = Ok repo.
Proof.
  unfold pack_check. intros Hck. inv_ok. destruct x as [], x0 as [].
  destruct (_ =? _)%Z; [done|]. inv_ok. done.
Qed.

Lemma Pack_Ok_digests p h req k res k' : Pack p h req k = (Ok res, k') →
  ∃ src s, resolveSource p h (pr_source req) = Ok src ∧
    writeTree (pk_limits p) (h_tree1 h src) = Ok s ∧
    rs_layerDigest res = sha256 (tar_write (ps_out s)) ∧
    rs_digest res = sha256 (encode_manifest (packManifest (packConfig (rs_layerDigest res)).2
      (mkImageDescriptor packedLayerMediaType (rs_layerDigest res) (Z.of_nat (slen (tar_write (ps_out s))))))).
Proof.
  intros Hp. destruct (pack_check p h req) as [[[src s] repo]|e] eqn:Hck.
  2:{ unfold Pack in Hp. by rewrite Hck in Hp. }
  destruct (pack_check_Ok _ _ _ _ _ _ Hck) as (_ & Hs & Hw & _). exists src, s.
  destruct (Pack_stages _ _ _ _ _ _ _ _ _ Hck Hp) as [(e & He & _)|(k2 & _ & _ & _ & _ & _ & _ & [He|[_ He]])];
    [done..|]. injection He as ->. done.
Qed.

(** Packing is reproducible: two trees that differ only in listing order,
    modification times and owners get the same layer and manifest digests, on any
    two hosts, under any two names, into any two stores. *)
Theorem packing_reproducible p1 p2 h1 h2 req1 req2 k1 k2 r1 r2 k1' k2' src1 src2
    (Hlim : pk_limits p1 = pk_limits p2)
    (Hs1 : resolveSource p1 h1 (pr_source req1) = Ok src1)
    (Hs2 : resolveSource p2 h2 (pr_source req2) = Ok src2)
    (Hwf : wf_tree (h_tree1 h2 src2)) (Hsame : same_tree (h_tree1 h1 src1) (h_tree1 h2 src2))
    (H1 : Pack p1 h1 req1 k1 = (Ok r1, k1')) (H2 : Pack p2 h2 req2 k2 = (Ok r2, k2')) :
  rs_layerDigest r1 = rs_layerDigest r2 ∧ rs_digest r1 = rs_digest r2.
Proof.
  apply Pack_Ok_digests in H1 as (? & s1 & R1 & W1 & L1 & D1), H2 as (? & s2 & R2 & W2 & L2 & D2).
  rewrite Hs1 in R1. injection R1 as <-. rewrite Hs2 in R2. injection R2 as <-.
  rewrite (writeTree_same _ _ _ Hwf Hsame), Hlim, W2 in W1. injection W1 as <-.
  rewrite D1, D2, L1, L2. done.
Qed.

(** A packer confined to roots reads nothing but a root or what lies below one,
    after links are resolved on both sides. *)
Theorem packing_confined p h req src s repo
    (Hr : pk_restricted p = true) (Hck : pack_check p h req = Ok (src, s, repo)) :
  ∃ root abs r, root ∈ pk_roots p ∧ h_abs h root = Ok abs ∧ h_eval h abs = Some r ∧
    (src = r ∨ ∃ rest, src = r +:+ "/" +:+ rest).
Proof.
  apply pack_check_Ok in Hck as (_ & Hs & _). unfold resolveSource in Hs.
  destruct (String.eqb _ ""); [done|]. destruct (h_abs h (pr_source req)) as [a|]; [|done].
  destruct (h_eval h a) as [resolved|]; [|done]. destruct (h_isdir h resolved) as [[]|]; [|done..].
  unfold allowed in Hs. rewrite Hr in Hs. cbn [negb] in Hs.
  destruct (existsb _ _) eqn:He; [|done]. cbn in Hs. injection Hs as <-.
  apply existsb_exists in He as (root & Hin & Hroot). unfold root_allows in Hroot.
  destruct (h_abs h root) as [abs|] eqn:Ha; [|done]. destruct (h_eval h abs) as [r|] eqn:Hev; [|done].
  exists root, abs, r. split; [by apply list_elem_of_In|]. split; [done|]. split; [done|].
  unfold under_root in Hroot. apply orb_true_iff in Hroot as [Hx%String.eqb_eq|[rest Hx]%has_prefix_spec].
  - by left.
  - right. exists rest. by rewrite Hx, sapp_assoc.
Qed.

(** Every packing failure has an entry of the catalog: a refusal of the safety
    rules and a path out of bounds are policy refusals, a malformed request is an
    operational error, and what is left is the store's. *)
Theorem pack_problem_classified text err :
  ∃ e entry, PackProblem text err = Some e ∧ Lookup (te_code e) = Some entry ∧
    te_cause e = Some (text err) ∧
    (entry_class entry = ClassPolicy ↔
      (∃ src, err = PackRootDenied src) ∨ (∃ rej, err = Rejected rej ∧ rj_safety rej = true)).
Proof.
  destruct err as [[path reason []]|re|src| | | |]; cbn; eexists _, _;
    (split; [reflexivity|]; split; [reflexivity|]; split; [reflexivity|]); cbn;
    split; intros Hx; try done; eauto; destruct Hx as [[? ?]|(? & [= <-] & ?)]; done.
Qed.

End pack.

(** * Names *)

(** The OCI repository grammar of one component:
    [[a-z0-9]+((\.|_|__|-+)[a-z0-9]+)*]. *)
Inductive oci_state := OciStart | OciWord | OciDot | OciUnder | OciUnders | OciDash.

Definition oci_next (st : oci_state) (c : byte) : option oci_state :=
  if component_alnum c then Some OciWord
  else match st with
       | OciWord =>
           if Ascii.eqb c "." then Some OciDot
           else if Ascii.eqb c "_" then Some OciUnder
           else if Ascii.eqb c "-" then Some OciDash else None
       | OciUnder => if Ascii.eqb c "_" then Some OciUnders else None
       | OciDash => if Ascii.eqb c "-" then Some OciDash else None
       | _ => None
       end.

Fixpoint oci_run (st : oci_state) (s : string) : bool :=
  match s with
  | "" => match st with OciWord => true | _ => false end
  | String c s => match oci_next st c with Some st => oci_run st s | None => false end
  end.

Definition oci_component (s : string) : bool := oci_run OciStart s.

(** What the grammar accepts, packing accepts. *)
Lemma oci_run_rest s st : oci_run st s = true → st ≠ OciStart → (st ≠ OciWord → s ≠ "") → component_rest s = true.
Proof.
  revert st. induction s as [|c s IH]; intros st Hr Hst Hne; [done|]. cbn [oci_run] in Hr.
  destruct (oci_next st c) as [st'|] eqn:Hn; [|done].
  assert (component_inner c = true ∧ st' ≠ OciStart ∧ (st' = OciWord → component_alnum c = true)) as (Hc & Hst' & Hw).
  { unfold oci_next in Hn. unfold component_inner. destruct (component_alnum c) eqn:Ha.
    - injection Hn as <-. done.
    - destruct st; try done; cbn; repeat (case_match; simplify_eq); rewrite ?orb_true_r; done. }
  assert (s = "" → st' = OciWord) as Hend by (intros ->; cbn in Hr; by destruct st').
  cbn [component_rest]. destruct s as [|d s]; [by apply Hw, Hend|]. rewrite Hc. by apply (IH st').
Qed.

Lemma oci_component_valid s : oci_component s = true → validPathComponent s = true.
Proof.
  unfold oci_component, validPathComponent. destruct s as [|c s]; [done|]. cbn [oci_run].
  unfold oci_next. destruct (component_alnum c); [|done]. intros Hr. cbn [andb].
  by apply (oci_run_rest s OciWord).
Qed.

(** The converse fails: names a registry client cannot pull are accepted. *)
Theorem pack_name_beyond_grammar :
  (∀ s, oci_component s = true → validPathComponent s = true) ∧
  validatePackName "a..b" = Ok tt ∧ oci_component "a..b" = false ∧
  validatePackName "a-.b" = Ok tt ∧ oci_component "a-.b" = false.
Proof. split; [apply oci_component_valid|]. repeat split. Qed.

(** A pack root that resolves to the file system root allows nothing below it. *)
Theorem slash_root_allows_nothing :
  under_root "/" "/" = true ∧ ∀ rest, ¬ in_str "/" rest → under_root ("/" +:+ rest) "/" = true → rest = "".
Proof.
  split; [done|]. intros rest Hn. unfold under_root. rewrite orb_true_iff, String.eqb_eq, has_prefix_spec.
  intros [Hx|[r Hx]].
  - destruct rest; [done|discriminate].
  - destruct rest as [|c rest]; [discriminate|]. change (("/" +:+ "/") +:+ r) with (String "/" (String "/" r)) in Hx.
    injection Hx as -> _. destruct Hn. by left.
Qed.
