(* ===== verification/FileServerTheorems.v ===== *)
(** The promises of the file server over its whole life — synchronizations,
    failures, crashes and restarts: only finished extractions are served, a
    synchronization accounts for every set, keeps answering while it runs and
    serves all it can; a packed tree is served back; and the two places where a
    failure at the wrong moment shows. *)

From S2P Require Import Prelude GoStrings Relocate MediaPaths FilePaths OsRoot OsRootFacts Extract ExtractSafety.
From S2P Require Import Pack PackRoundtrip PackTheorems FileSetToy FileServer FileServerSafety.

Section life.
Context `{GoRuntime, Privilege, FileSetLib}.
Variable b : Blobs.

(** What the server and the cache may be after any history: a fresh start, a
    [Sync] that returns, one that dies half-way, a restart, a [Close].  No removal
    leaves a half-emptied directory that still looks complete. *)
Inductive reachable : Server → Cache → Prop :=
  | reach_start lim faults : Forall clean_fault faults → reachable (NewServer lim) (mkCache ∅ [] faults)
  | reach_sync s c ctx tmp sets errs s' c' : reachable s c →
      Sync b ctx tmp sets s c = (Done errs, s', c') → reachable s' c'
  | reach_refused s c ctx tmp sets e s' c' : reachable s c →
      Sync b ctx tmp sets s c = (Failed e, s', c') → reachable s' c'
  | reach_crash s c ctx tmp sets s' c' lim faults : reachable s c →
      Sync b ctx tmp sets s c = (Crashed, s', c') → Forall clean_fault faults →
      reachable (NewServer lim) (mkCache (c_dirs c') (c_tmp c') faults)
  | reach_restart s c lim faults : reachable s c → Forall clean_fault faults →
      reachable (NewServer lim) (mkCache (c_dirs c) (c_tmp c) faults)
  | reach_close s c : reachable s c → reachable (Close s) c.

Record served_inv (s : Server) (c : Cache) : Prop := {
  si_cache : cinv b c;
  si_served : ∀ name ss, sv_served s !! name = Some ss → set_ok c name ss;
  si_order : ordered (sv_served s) (sv_order s);
}.

Lemma ordered_empty : ordered ∅ [].
Proof.
  split; [constructor|]. intros name. rewrite lookup_empty. split.
  - by intros ?%elem_of_nil.
  - intros [? ?]. done.
Qed.

Lemma loop_inv_start s c : loop_inv c (mkSyncState s ∅ [] ∅ []).
Proof. split; cbn; [intros name ss Hs; by rewrite lookup_empty in Hs|apply ordered_empty]. Qed.

(** The effect of a [Sync] on cache, served map and order. *)
Lemma Sync_cases ctx tmp sets s c r s' c' : Sync b ctx tmp sets s c = (r, s', c') → cinv b c →
  cinv b c' ∧
  ((∃ e, r = Failed e ∧ s' = s ∧ quiet c c') ∨
   (r = Crashed) ∨
   (∃ y c1, syncSets b ctx tmp sets (mkSyncState s ∅ [] ∅ []) (mkCache (c_dirs c) (c_tmp c) (tail (c_faults c))) = (Done y, c1) ∧
      r = Done (y_errs y) ∧ s' = mkServer (sv_limits s) (y_next y) (y_order y) ∧
      loop_inv c1 y ∧ purges b (y_wanted y) c1 c')).
Proof.
  unfold Sync. intros HS Hi. destruct (call id c) as [r0 c0] eqn:Hc.
  assert (quiet c c0) as Hq by (by eapply call_quiet; [apply id_quiet|]).
  pose proof (quiet_cinv _ _ _ Hq Hi) as Hi0. destruct r0 as [[]|e|].
  - assert (c0 = mkCache (c_dirs c) (c_tmp c) (tail (c_faults c))) as Hc0.
    { unfold call, next_cfault, id in Hc. destruct c as [dirs tmps [|[] fs]]; cbn in Hc |- *; congruence. }
    rewrite <-Hc0. destruct (syncSets _ _ _ _ _ c0) as [r1 c1] eqn:Hss.
    destruct (syncSets_sound b _ _ _ _ _ _ _ Hss) as ([_ Hinv1] & Hloop & _ & Hnf).
    destruct r1 as [y|e|]; [|by destruct (Hnf e)|injection HS as <- <- <-; auto].
    destruct (purge (y_wanted y) c1) as [r2 c2] eqn:Hp. apply (purge_purges b) in Hp.
    pose proof Hp as [Hpi Hpw].
    destruct r2; injection HS as <- <- <-; (split; [auto|]); [| |by right; left]; right; right; exists y, c1;
      (split_and!; [done|done|done|by apply Hloop, loop_inv_start|done]).
  - injection HS as <- <- <-. split; [done|]. left. eauto.
  - injection HS as <- <- <-. split; [done|]. right. by left.
Qed.
Lemma finished_purges wanted c c' ss :
  purges b wanted c c' → wants wanted (ss_name ss) (ss_dir ss) →
  finished (ss_name ss) (ss_dir ss) c → finished (ss_name ss) (ss_dir ss) c'.
Proof. intros [_ Hw] Hwant (cd & Hcd & Hc). exists cd. by rewrite Hw. Qed.

Lemma Sync_served_inv ctx tmp sets s c r s' c' :
  Sync b ctx tmp sets s c = (r, s', c') → r ≠ Crashed → served_inv s c → served_inv s' c'.
Proof.
  intros HS Hnc [Hi Hs Ho].
  destruct (Sync_cases _ _ _ _ _ _ _ _ HS Hi) as [Hi' [(e & -> & -> & Hq)|[->|(y & c1 & _ & -> & -> & [Hn Hord] & Hp)]]].
  - split; [done| |done]. intros name ss Hss. eapply set_ok_holds; [by apply quiet_keeps|by apply Hs].
  - done.
  - split; [done| |done]. cbn. intros name ss Hss. destruct (Hn name ss Hss) as [[K1 K2 K3 K4 K5] Hw].
    split; try done. by eapply finished_purges.
Qed.

Lemma served_inv_start lim c : cinv b c → served_inv (NewServer lim) c.
Proof. intros Hi. split; [done| |apply ordered_empty]. cbn. intros name ss Hs. by rewrite lookup_empty in Hs. Qed.

Lemma cinv_restart c faults : cinv b c → Forall clean_fault faults →
  cinv b (mkCache (c_dirs c) (c_tmp c) faults).
Proof. intros [Hc _] Hf. split; [|done]. intros n d cd Hcd. by apply (Hc n d cd). Qed.

Lemma files_reachable_inv s c : reachable s c → served_inv s c.
Proof.
  induction 1 as [lim faults Hf|s c ctx tmp sets errs s' c' _ IH HS|s c ctx tmp sets e s' c' _ IH HS
    |s c ctx tmp sets s' c' lim faults _ IH HS Hf|s c lim faults _ IH Hf|s c _ IH].
  - apply served_inv_start. split; [|done]. intros n d cd Hcd. unfold at_dir in Hcd. cbn in Hcd.
    by rewrite lookup_empty in Hcd.
  - by eapply Sync_served_inv.
  - by eapply Sync_served_inv.
  - apply served_inv_start, cinv_restart; [|done]. eapply Sync_cases; [done|apply IH].
  - apply served_inv_start, cinv_restart; [apply IH|done].
  - destruct IH as [Hi _ _]. split; [done| |apply ordered_empty]. cbn. intros name ss Hs. by rewrite lookup_empty in Hs.
Qed.

(** A digest directory names one digest. *)
Lemma replace_byte_inj d1 d2 : ¬ in_str "_" d1 → ¬ in_str "_" d2 →
  replace_byte ":" "_" d1 = replace_byte ":" "_" d2 → d1 = d2.
Proof.
  revert d2. induction d1 as [|x d1 IH]; intros [|y d2] N1 N2 Heq; cbn in *; try done.
  injection Heq as Hc Hr. rewrite (IH d2) by tauto. f_equal.
  destruct (Ascii.eqb_spec x ":"), (Ascii.eqb_spec y ":"); subst; try done.
  - exfalso. apply N2. by left.
  - exfalso. apply N1. by left.
Qed.

(** A served set reads the extraction of its own manifest. *)
Lemma served_extraction s c name ss fs : served_inv s c → sv_served s !! name = Some ss →
  served_root c ss = Some fs → extraction_of b (fs_ManifestDigest (ss_set ss)) fs.
Proof.
  intros [[Hc _] Hs _] Hss Hr. destruct (Hs name ss Hss) as [K1 K2 K3 K4 (cd & Hcd & Hcomp)].
  unfold served_root in Hr. rewrite Hcd in Hr. cbn in Hr.
  destruct (Hc _ _ _ Hcd Hcomp) as (dg & fs' & Hok & Hdir & Hfs & Hex).
  rewrite Hr in Hfs. injection Hfs as <-.
  rewrite K3 in Hdir. apply replace_byte_inj in Hdir; [by rewrite Hdir|by apply digest_plain..].
Qed.

(** C32: Only finished extractions are served. Take any history of synchronizations that
    end, fail or crash, of restarts and closings, from an empty cache, in which any call
    may fail; but a removal that stops half-way, wherever it does, leaves a digest's
    directory untouched or without its completion marker (it is not so when a directory's
    mode forbids the removal: see [half_purged_tree_served]). Then a response with content
    is a GET or HEAD of [/files/<name>/<path>] for a set that is served, its path has no
    empty, ["."] or [".."] element, and the bytes are those of that path in the complete
    extraction of the set's own manifest. *)
Theorem served_only_complete s c method url data base
    (Hr : reachable s c) (Hserve : serveHTTP s c method url = Content data base) :
  (method = "GET" ∨ method = "HEAD") ∧
  ∃ name path ss fs, url = RoutePrefix +:+ name +:+ "/" +:+ path ∧ base = path_base path ∧
    Forall plain_segment (split_byte "/" path) ∧
    sv_served s !! name = Some ss ∧ fs_Name (ss_set ss) = name ∧
    extraction_of b (fs_ManifestDigest (ss_set ss)) fs ∧ root_Open fs path = Ok (OpenedFile data).
Proof.
  apply files_reachable_inv in Hr. unfold serveHTTP in Hserve.
  destruct (negb (_ || _)) eqn:Hm; [done|]. apply negb_false_iff, orb_true_iff in Hm.
  rewrite !String.eqb_eq in Hm. split; [done|].
  destruct (contains_byte url NUL); [done|].
  destruct (cut_prefix RoutePrefix url) as [rest|] eqn:Hcut; [|done]. apply cut_prefix_Some in Hcut as ->.
  destruct (cut_byte "/" rest) as [[name path]|] eqn:Hcb; [|done]. apply cut_byte_Some in Hcb as [-> _].
  destruct (String.eqb path ""); [done|]. destruct (has_suffix path "/"); [done|].
  destruct (existsb bad_segment _) eqn:Hseg; [done|].
  destruct (sv_served s !! name) as [ss|] eqn:Hss; [|done].
  destruct (served_root c ss) as [fs|] eqn:Hroot; [|done].
  destruct (root_Open fs path) as [[k|data']|] eqn:Hopen; [done| |done]. injection Hserve as <- <-.
  exists name, path, ss, fs. split_and!; try done.
  - apply Forall_forall. intros seg Hin. apply not_true_iff_false in Hseg.
    destruct (bad_segment seg) eqn:Hb.
    + destruct Hseg. apply existsb_exists. exists seg. split; [by apply list_elem_of_In|done].
    + unfold bad_segment in Hb. apply orb_false_iff_2 in Hb as [[? ?]%orb_false_iff_2 ?].
      by repeat split; apply String.eqb_neq.
  - by apply (si_served _ _ Hr) in Hss as [].
  - by eapply served_extraction.
Qed.

(** A [Sync] that returns accounts for every set: each is served or reported,
    and what is served is listed in order without panic. *)
Theorem sync_accounts_for_every_set s c ctx tmp sets errs s' c'
    (Hr : reachable s c) (HS : Sync b ctx tmp sets s c = (Done errs, s', c')) :
  length errs + length (sv_order s') = length sets ∧
  ∃ enabled, Enabled s' = Some enabled ∧ fs_Name <$> enabled = sv_order s'.
Proof.
  apply files_reachable_inv in Hr as Hi.
  assert (served_inv s' c') as [_ Hs' [_ Ho']] by (by eapply Sync_served_inv).
  destruct (Sync_cases _ _ _ _ _ _ _ _ HS (si_cache _ _ Hi)) as [_ [(e & ? & _)|[?|(y & c1 & Hss & [= ->] & -> & _)]]]; [done..|].
  destruct (syncSets_sound b _ _ _ _ _ _ _ Hss) as (_ & _ & Hl & _). cbn [sv_order]. split; [rewrite (Hl y eq_refl); cbn; lia|].
  unfold Enabled. cbn in *. clear -Hs' Ho'.
  assert (∀ name, name ∈ y_order y → is_Some (y_next y !! name)) as Hall by (intros; by apply Ho'). clear Ho'.
  induction (y_order y) as [|name order IH]; [by exists []|].
  destruct (Hall name) as [ss Hss]; [apply elem_of_cons; by left|].
  destruct IH as (l & Hl & Hn); [intros n Hn; apply Hall, elem_of_cons; by right|].
  exists (ss_set ss :: l). cbn. rewrite Hss. cbn. rewrite Hl. cbn. split; [done|].
  rewrite Hn. f_equal. by apply (Hs' name ss).
Qed.

(** Synchronizing keeps answering: at every point of the loop of [Sync] (wherever
    it is cut), a set the server still holds reads the very tree it read before. *)
Theorem sync_keeps_answering s c ctx tmp sets r c'
    (Hr : reachable s c)
    (Hloop : syncSets b ctx tmp sets (mkSyncState s ∅ [] ∅ []) c = (r, c')) :
  ∀ name ss, sv_served s !! name = Some ss →
    served_root c' ss = served_root c ss ∧ is_Some (served_root c' ss).
Proof.
  intros name ss Hss. apply files_reachable_inv in Hr. destruct (syncSets_sound b _ _ _ _ _ _ _ Hloop) as ([Hk _] & _).
  destruct (si_served _ _ Hr name ss Hss) as [_ _ _ _ (cd & Hcd & Hcomp)].
  unfold served_root. rewrite Hcd, (Hk _ _ _ Hcd Hcomp). split; [done|]. cbn.
  unfold is_complete in Hcomp. apply andb_true_iff in Hcomp as [_ Hx]. by apply bool_decide_eq_true in Hx.
Qed.

(** * Progress *)

Definition calm (c : Cache) : Prop := c_faults c = [].

Lemma next_calm c : calm c → next_cfault c = (FOk, c).
Proof. unfold calm, next_cfault. by intros ->. Qed.

Lemma call_calm effect c : calm c → call effect c = (Done tt, effect c).
Proof. intros Hc. unfold call. by rewrite next_calm. Qed.

Lemma remove_digest_calm n d c : calm c →
  remove_digest n d c = (Done tt, set_dirs (alter (delete d) n) c).
Proof. intros Hc. unfold remove_digest. by rewrite next_calm. Qed.

Lemma purge_calm wanted c : calm c → ∃ r c', purge wanted c = (r, c') ∧ r ≠ Crashed.
Proof.
  assert (∀ n keep dgsts c, calm c → ∃ c', purge_digests n keep dgsts c = (Done tt, c') ∧ calm c') as Hd.
  { intros n keep dgsts. induction dgsts as [|d dgsts IH]; intros c0 Hc; cbn; [eauto|].
    case_bool_decide; [by apply IH|]. rewrite remove_digest_calm by done. by apply IH. }
  assert (∀ n c, calm c → ∃ c', purge_name wanted n c = (Done tt, c') ∧ calm c') as Hn.
  { intros n c0 Hc. unfold purge_name, remove_name. rewrite next_calm by done.
    destruct (wanted !! n); [destruct (has_prefix n ".tmp-")|]; eauto. }
  assert (∀ names c, calm c → ∃ c', purge_names wanted names c = (Done tt, c')) as Hns.
  { intros names. induction names as [|n names IH]; intros c0 Hc; cbn; [eauto|].
    destruct (Hn n c0 Hc) as (c1 & -> & Hc1). by apply IH. }
  assert (∀ tmps c, calm c → ∃ c', purge_tmp tmps c = (Done tt, c') ∧ calm c') as Ht.
  { intros tmps. induction tmps as [|t tmps IH]; intros c0 Hc; cbn [purge_tmp]; [eauto|].
    rewrite call_calm by done. by apply IH. }
  intros Hc. unfold purge. rewrite next_calm by done. destruct (Ht (c_tmp c) c Hc) as (c1 & -> & Hc1).
  destruct (Hns (map_keys (c_dirs c1)) c1 Hc1) as (c2 & ->). by eexists _, _.
Qed.

(** What a set needs to be served: a valid declaration, and an image that
    extracts under the server's limits. *)
Definition extractable (lim : Limits) (set : FileSet) : Prop :=
  validateSet set = Ok tt ∧
  ∃ m x, extract_manifest b (fs_Repo set) (fs_ManifestDigest set) = Ok m ∧
    extractLayers b lim (fs_Repo set) [] (im_layers m) = Ok x.

Lemma extract_calm lim set tmp n d c m x :
  calm c → extract_manifest b (fs_Repo set) (fs_ManifestDigest set) = Ok m →
  extractLayers b lim (fs_Repo set) [] (im_layers m) = Ok x →
  ∃ c', extract b lim [] set tmp n d c = (Done tt, c') ∧ calm c' ∧
    at_dir c' n d = Some (mkCached true (Some (x_root x))).
Proof.
  intros Hc Hm Hx. unfold extract. rewrite Hm. unfold lift, mbind, cm_bind. rewrite call_calm by done.
  unfold with_cleanup. rewrite call_calm, Hx, !call_calm, remove_digest_calm, !call_calm by done.
  eexists. split; [reflexivity|]. split; [done|].
  match goal with |- at_dir ?c' n d = _ => change (at_dir c' n d) with
    (at_dir (put_dir n d (mkCached true (Some (x_root x)))
      (set_dirs (alter (delete d) n) (id (set_dirs (λ dirs, <[n := default ∅ (dirs !! n)]> dirs)
        (id (id (set_tmp (cons tmp) c))))))) n d) end.
  rewrite at_dir_put. by rewrite decide_True.
Qed.

Lemma prepareSet_calm lim tmp set c : calm c → extractable lim set →
  ∃ c', prepareSet b lim [] tmp set c = (Done tt, c') ∧ calm c'.
Proof.
  intros Hc (_ & m & x & Hm & Hx). unfold prepareSet.
  destruct (isComplete c (name_dir set) (digest_dir set)) eqn:Hcomp.
  - unfold open_root. rewrite next_calm by done. unfold isComplete in Hcomp.
    destruct (at_dir c _ _) as [cd|]; [|done]. unfold is_complete in Hcomp.
    apply andb_true_iff in Hcomp as [_ ->]. eauto.
  - destruct (extract_calm lim set tmp (name_dir set) (digest_dir set) c m x Hc Hm Hx) as (c1 & He & Hc1 & Hat).
    unfold mbind, cm_bind. rewrite He. unfold open_root. rewrite next_calm, Hat by done. cbn. eauto.
Qed.

Lemma release_limits name dgst s : sv_limits (releaseServedDigest name dgst s) = sv_limits s.
Proof. unfold releaseServedDigest. destruct (sv_served s !! name); [|done]. by destruct (String.eqb _ _). Qed.

Lemma syncSets_calm tmp sets lim : Forall (extractable lim) sets → NoDup (fs_Name <$> sets) →
  ∀ y c, calm c → sv_limits (y_server y) = lim → (∀ set, set ∈ sets → y_next y !! fs_Name set = None) →
  ∃ y' c', syncSets b [] tmp sets y c = (Done y', c') ∧ calm c' ∧ y_errs y' = y_errs y ∧
    y_order y' = y_order y ++ (fs_Name <$> sets) ∧
    (∀ name ss, y_next y !! name = Some ss → y_next y' !! name = Some ss) ∧
    (∀ set, set ∈ sets → ∃ ss, y_next y' !! fs_Name set = Some ss ∧ ss_set ss = set).
Proof.
  intros Hex. induction Hex as [|set sets Hset Hex IH]; intros Hnd y c Hc Hl Hfresh.
  { exists y, c. rewrite app_nil_r. split_and!; try done. intros set Hin. by apply elem_of_nil in Hin. }
  cbn in Hnd. apply NoDup_cons in Hnd as [Hnot Hnd]. cbn [syncSets]. unfold syncSet.
  destruct Hset as [Hv Hext] eqn:Hs. rewrite Hv, (Hfresh set) by (apply elem_of_cons; by left). cbv zeta.
  cbn [y_server]. set (server := if isComplete _ _ _ then _ else _).
  assert (sv_limits server = lim) as Hls by (unfold server; destruct (isComplete _ _ _); [done|by rewrite release_limits]).
  rewrite Hls. destruct (prepareSet_calm lim tmp set c Hc Hset) as (c1 & -> & Hc1).
  destruct (IH Hnd (installSet set (mkSyncState server (y_next y) (y_order y) (y_wanted y) (y_errs y))) c1)
    as (y' & c' & Hrun & Hc' & Herr & Hord & Hkeep & Hall); [done|done| |].
  { intros set' Hin. cbn. rewrite lookup_insert_ne; [apply Hfresh, elem_of_cons; by right|].
    intros Heq. apply Hnot. rewrite Heq. by apply list_elem_of_fmap_2. }
  exists y', c'. cbn in Herr, Hord, Hkeep. split_and!; try done.
  - by rewrite Hord, <-app_assoc.
  - intros name ss Hss. apply Hkeep. rewrite lookup_insert_ne; [done|]. intros <-.
    by rewrite Hfresh in Hss by (apply elem_of_cons; by left).
  - intros set' [->|Hin]%elem_of_cons; [|by apply Hall].
    eexists. split; [apply Hkeep, lookup_insert_eq|done].
Qed.

(** When nothing fails, [Sync] serves every set it is given: sets with distinct
    names whose images extract are all served, in order, and no error is
    reported. *)
Theorem sync_serves_all s c tmp sets
    (Hc : calm c) (Hnd : NoDup (fs_Name <$> sets)) (Hex : Forall (extractable (sv_limits s)) sets) :
  ∃ s' c', Sync b [] tmp sets s c = (Done [], s', c') ∧ sv_order s' = fs_Name <$> sets ∧
    ∀ set, set ∈ sets → ∃ ss, sv_served s' !! fs_Name set = Some ss ∧ ss_set ss = set.
Proof.
  unfold Sync. rewrite call_calm by done.
  destruct (syncSets_calm tmp sets (sv_limits s) Hex Hnd (mkSyncState s ∅ [] ∅ []) (id c))
    as (y & c1 & -> & Hc1 & Herr & Hord & _ & Hall); [done|done|intros; apply lookup_empty|].
  destruct (purge_calm (y_wanted y) c1 Hc1) as (r & c2 & -> & Hr).
  destruct r; [| |done]; rewrite Herr; eexists _, _; (split; [reflexivity|done]).
Qed.

(** A fresh server with one set. *)
Lemma sync_fresh lim set tmp m x :
  validateSet set = Ok tt → extract_manifest b (fs_Repo set) (fs_ManifestDigest set) = Ok m →
  extractLayers b (effective lim) (fs_Repo set) [] (im_layers m) = Ok x →
  ∃ s' c' ss, Sync b [] tmp [set] (NewServer lim) (mkCache ∅ [] []) = (Done [], s', c') ∧
    sv_served s' !! fs_Name set = Some ss ∧ served_root c' ss = Some (x_root x).
Proof.
  intros Hv Hm Hx. set (c0 := mkCache ∅ [] []). unfold Sync. rewrite call_calm by done.
  cbn [syncSets]. unfold syncSet. rewrite Hv. cbn [y_next]. rewrite lookup_empty. cbv zeta.
  assert (∀ n d, isComplete (id c0) n d = false) as Hinc.
  { intros n d. unfold isComplete, at_dir. cbn. by rewrite lookup_empty. }
  rewrite Hinc. cbn [y_server sv_limits]. rewrite release_limits. cbn [sv_limits NewServer].
  unfold prepareSet. rewrite Hinc. unfold mbind, cm_bind.
  destruct (extract_calm (effective lim) set tmp (name_dir set) (digest_dir set) (id c0) m x)
    as (c1 & -> & Hc1 & Hat); [done..|].
  unfold open_root. rewrite next_calm, Hat by done. cbn [cd_rootfs]. rewrite bool_decide_true by eauto.
  match goal with |- context [purge ?w c1] => destruct (purge_calm w c1 Hc1) as (r & c2 & Hp & Hr) end.
  rewrite Hp. apply (purge_purges b) in Hp as [_ Hw].
  assert (at_dir c2 (name_dir set) (digest_dir set) = Some (mkCached true (Some (x_root x)))) as Hat2.
  { rewrite Hw; [done|]. cbn. apply wants_install; [apply name_dir_not_tmp|by right]. }
  destruct r; [| |done]; eexists _, _, (mkServed set (name_dir set) (digest_dir set));
    (split; [reflexivity|]; split; [apply lookup_insert_eq|]); unfold served_root; cbn; by rewrite Hat2.
Qed.

End life.

(** * A packed tree is served back *)

Section served_back.
Context `{GoRuntime, Privilege, FileSetLib}.

(** The read side of the store. *)
Definition blobs_of (k : PackStore) : Blobs :=
  mkBlobs (λ repo d, k_manifests k !! (repo, d)) (λ repo d, k_blobs k !! (repo, d)).

Lemma tree_at_parent t p c r v : tree_at t (p ++ c :: r) = Some v → ∃ m, tree_at t p = Some (VDir m).
Proof.
  revert t. induction p as [|a p IH]; intros t; cbn.
  - destruct t; try done. intros _. eexists. reflexivity.
  - destruct t; try done. destruct (assoc a entries) as [t'|]; [apply IH|done].
Qed.

Lemma assoc_in {A} n (es : list (string * A)) a : assoc n es = Some a → (n, a) ∈ es.
Proof.
  induction es as [|[n' a'] es IH]; [done|]. cbn. destruct (String.eqb_spec n' n) as [->|].
  - intros [= ->]. apply elem_of_cons. by left.
  - intros Ha. apply elem_of_cons. right. by apply IH.
Qed.

Lemma tree_at_proper t p v : wf_tree t → tree_at t p = Some v → Forall proper_seg p.
Proof.
  revert t. induction p as [|c p IH]; intros t Hwf; [constructor|]. destruct t as [|m ok es| | |]; try done. cbn.
  destruct (assoc c es) as [t'|] eqn:Ha; [|done]. apply assoc_in in Ha.
  apply wf_tree_dir in Hwf as (_ & Hprop & Hkids). rewrite Forall_forall in Hprop. rewrite Forall_forall in Hkids.
  intros Ht. constructor.
  - apply Hprop, list_elem_of_fmap. by exists (c, t').
  - apply (IH t'); [by apply (Hkids (c, t'))|done].
Qed.

(** Reading a file of the packed tree through the extracted root. *)
Lemma open_packed fs src l perm data :
  wf_tree src → searchable_tree src → (∀ p, fs_view fs p = packed_view src p) →
  tree_at src l = Some (VFile perm data) → l ≠ [] → readable perm = true →
  root_Open fs (rel_path l) = Ok (OpenedFile data).
Proof.
  intros Hwf Hsearch Hview Hl Hne Hread. pose proof (tree_at_proper src l _ Hwf Hl) as Hp.
  destruct (exists_last Hne) as (l0 & c & ->). apply proper_snoc in Hp as [Hp Hc].
  assert (∃ i, r_tree fs !! (c :: reverse l0) = Some (NFile i) ∧ r_inodes fs !! i = Some (mkInode perm data))
    as (i & Hnode & Hi).
  { specialize (Hview (l0 ++ [c])). unfold fs_view in Hview. rewrite reverse_snoc in Hview.
    assert (packed_view src (l0 ++ [c]) = Some (VFile perm data)) as Hv by (by destruct l0). rewrite Hv in Hview.
    destruct (r_tree fs !! (c :: reverse l0)) as [[]|]; try done.
    destruct (r_inodes fs !! ino) as [[]|] eqn:Hi; [|done]. injection Hview as -> ->. eauto. }
  assert (straight fs [] l0) as Hst.
  { intros q [r ->]. rewrite app_nil_r. unfold can_search. specialize (Hview q). unfold fs_view in Hview.
    assert (∃ m, packed_view src q = Some (VDir m) ∧ searchable m = true) as (m & Hm & Hsm).
    { destruct q as [|a q]; [exists mode_0700; split; [done|apply search_0700]|].
      rewrite <-app_assoc in Hl. destruct r as [|d r]; cbn in Hl.
      - destruct (tree_at_parent src (a :: q) c [] _ Hl) as [m Hm]. exists m. split; [done|by apply (Hsearch (a :: q))].
      - destruct (tree_at_parent src (a :: q) d (r ++ [c]) _ Hl) as [m Hm]. exists m.
        split; [done|by apply (Hsearch (a :: q))]. }
    rewrite Hm in Hview. destruct (r_tree fs !! reverse q) as [[m'|i'|]|]; try done.
    - injection Hview as ->. done.
    - by destruct (r_inodes fs !! i'). }
  unfold root_Open. rewrite resolve_straight by (done || intros _ t; congruence).
  cbn [mbind res_bind]. unfold node_at. rewrite Hnode. cbn [mbind res_bind].
  rewrite Hi. cbn [i_perm i_data]. by rewrite Hread.
Qed.

(** The handler on an ordinary path of a served set. *)
Lemma serve_path s c ss fs name l data :
  sv_served s !! name = Some ss → served_root c ss = Some fs → ¬ in_str "/" name →
  Forall proper_seg l → l ≠ [] → contains_byte (RoutePrefix +:+ name +:+ "/" +:+ rel_path l) NUL = false →
  root_Open fs (rel_path l) = Ok (OpenedFile data) →
  serveHTTP s c "GET" (RoutePrefix +:+ name +:+ "/" +:+ rel_path l) = Content data (path_base (rel_path l)).
Proof.
  intros Hs Hr Hn Hl Hne Hnul Hopen. unfold serveHTTP. rewrite Hnul. cbn [String.eqb orb negb].
  change (String.eqb "GET" "GET") with true. cbn [orb negb].
  rewrite (proj2 (cut_prefix_Some RoutePrefix _ (name +:+ "/" +:+ rel_path l)) eq_refl).
  assert (cut_byte "/" (name +:+ "/" +:+ rel_path l) = Some (name, rel_path l)) as ->.
  { apply cut_byte_Some. split; [done|]. done. }
  assert (rel_path l ≠ "") as Hrel.
  { intros He. pose proof (split_rel l Hl Hne) as Hsp. rewrite He in Hsp. cbn in Hsp. rewrite <-Hsp in Hl.
    apply Forall_cons in Hl as [[[? _] _] _]. done. }
  rewrite (proj2 (String.eqb_neq _ _) Hrel).
  assert (has_suffix (rel_path l) "/" = false) as ->.
  { apply not_true_iff_false. intros [r Hx]%has_suffix_spec.
    pose proof (split_rel l Hl Hne) as Hsp. rewrite Hx in Hsp.
    rewrite (split_byte_sep "/" r "") in Hsp. cbn in Hsp. rewrite <-Hsp in Hl.
    apply Forall_app in Hl as [_ [[[? _] _] _]%Forall_cons]. done. }
  rewrite split_rel by done.
  assert (existsb bad_segment l = false) as ->.
  { apply not_true_iff_false. intros (seg & Hin & Hb)%existsb_exists. apply list_elem_of_In in Hin.
    rewrite Forall_forall in Hl. destruct (Hl seg Hin) as [(?&?&?) _]. unfold bad_segment in Hb.
    rewrite !orb_true_iff, !String.eqb_eq in Hb. naive_solver. }
  by rewrite Hs, Hr, Hopen.
Qed.

(** The image [Pack] stored extracts to the tree that was packed. *)
Lemma packed_image_extracts p h req k res k' src :
  store_ok k → Pack p h req k = (Ok res, k') → resolveSource p h (pr_source req) = Ok src →
  limits_ok (pk_limits p) → (MaxBytes (pk_limits p) < 2 ^ 62)%Z →
  wf_tree (h_tree1 h src) → searchable_tree (h_tree1 h src) →
  (∀ s data, writeTree (pk_limits p) (h_tree1 h src) = Ok s →
    k_blobs k' !! (rs_repository res, rs_layerDigest res) = Some data →
    sha256 data = sha256 (tar_write (ps_out s)) → data = tar_write (ps_out s)) →
  ∃ m x, extract_manifest (blobs_of k') (rs_repository res) (rs_digest res) = Ok m ∧
    extractLayers (blobs_of k') (pk_limits p) (rs_repository res) [] (im_layers m) = Ok x ∧
    ∀ q, fs_view (x_root x) q = packed_view (h_tree1 h src) q.
Proof.
  intros Hok Hp Hsrc Hlim Hsmall Hwf Hsearch Hcol.
  destruct (pack_check p h req) as [[[src' s] repo]|e] eqn:Hck.
  2:{ unfold Pack in Hp. by rewrite Hck in Hp. }
  destruct (pack_check_Ok _ _ _ _ _ _ Hck) as (_ & Hs & Hw & _). rewrite Hsrc in Hs. injection Hs as <-.
  destruct (Pack_stages _ _ _ _ _ _ _ _ _ Hck Hp)
    as [(e & He & _)|(k2 & Hb & [data Hl] & _ & E1 & E2 & _ & [He|[_ He]])]; [done..|].
  injection He as ->. cbn [rs_repository rs_layerDigest rs_digest] in *. set (m := packManifest _ _) in *.
  assert (data = tar_write (ps_out s)) as ->.
  { apply (Hcol s data Hw); [by rewrite E1|]. by apply (bs_ok _ _ Hb Hok repo _ data). }
  destruct (writeTree_extracts (pk_limits p) Hlim Hsmall _ s Hwf Hw) as [Hun (x & Ha & Hsh & _)].
  destruct (restore_shows x _ Hsh) as (x' & Hr & Hv); [|done|].
  { intros [|c q] mq Hq; [injection Hq as <-; apply search_0700|]. by apply (Hsearch (c :: q)). }
  exists m, x'. split; [|split; [|done]].
  - unfold extract_manifest. cbn. rewrite E2, lookup_insert_eq, manifest_roundtrip. reflexivity.
  - unfold extractLayers. cbn [im_layers m packManifest applyLayers]. unfold applyLayer. cbn [blobs_of b_blob id_digest].
    rewrite E1, Hl. cbn [id_mediaType].
    change (newDecompressor (tar_write (ps_out s)) packedLayerMediaType) with (@Ok layer_error _ (tar_write (ps_out s), true)).
    cbn [wrap_err mbind res_bind]. rewrite tar_roundtrip by done. rewrite Ha. cbn. by rewrite Hr.
Qed.

(** C30: A packed tree is served back. Take a directory that packs, with the repository and
    digest [Pack] reports, and a new server with the same limits, an empty cache and no
    failing call, synchronized on that set. The synchronization succeeds without an error,
    and each file of the directory that its owner may read (or any, for the superuser), at
    a path without a NUL byte, is served under its path, byte for byte. Conditions: the
    tree has distinct ordinary names and sizes below 2^62, all its directories are
    searchable by their owner, the limits are positive with a byte limit below 2^62, the
    store's blobs have the digests they are stored under, and no other bytes with the
    layer's SHA-256 are stored in its place. *)
Theorem packed_tree_served_back p h req k res k' src lim tmp anon
    (Hok : store_ok k) (Hpack : Pack p h req k = (Ok res, k'))
    (Hsrc : resolveSource p h (pr_source req) = Ok src)
    (Hlim : pk_limits p = effective lim) (Hlok : limits_ok (pk_limits p))
    (Hsmall : (MaxBytes (pk_limits p) < 2 ^ 62)%Z)
    (Hwf : wf_tree (h_tree1 h src)) (Hsearch : searchable_tree (h_tree1 h src))
    (Hcol : ∀ s data, writeTree (pk_limits p) (h_tree1 h src) = Ok s →
      k_blobs k' !! (rs_repository res, rs_layerDigest res) = Some data →
      sha256 data = sha256 (tar_write (ps_out s)) → data = tar_write (ps_out s)) :
  let set := mkFileSet (pr_name req) (rs_repository res) (rs_digest res) anon in
  ∃ s' c', Sync (blobs_of k') [] tmp [set] (NewServer lim) (mkCache ∅ [] []) = (Done [], s', c') ∧
    ∀ l perm data, tree_at (h_tree1 h src) l = Some (VFile perm data) → l ≠ [] → readable perm = true →
      contains_byte (rel_path l) NUL = false →
      serveHTTP s' c' "GET" (RoutePrefix +:+ pr_name req +:+ "/" +:+ rel_path l) =
        Content data (path_base (rel_path l)).
Proof.
  intros set.
  destruct (packed_image_extracts p h req k res k' src) as (m & x & Hm & Hx & Hv); [done..|].
  assert (validatePackName (pr_name req) = Ok tt ∧ rs_repository res = packedPrefix (pk_base p) +:+ pr_name req
    ∧ digest_ok (rs_digest res) = true) as (Hname & Hrepo & Hdg).
  { destruct (Pack_Ok_digests _ _ _ _ _ _ Hpack) as (? & ? & _ & _ & _ & ->).
    destruct (pack_check p h req) as [[[src' s] repo]|e] eqn:Hck; [|unfold Pack in Hpack; by rewrite Hck in Hpack].
    destruct (pack_check_Ok _ _ _ _ _ _ Hck) as (Hn & _ & _ & Hr). rewrite pack_reference_path in Hr by done.
    injection Hr as <-. split; [done|]. split; [|apply sha256_ok].
    destruct (Pack_stages _ _ _ _ _ _ _ _ _ Hck Hpack)
      as [(e & He & _)|(k2 & _ & _ & _ & _ & _ & _ & [He|[_ He]])]; [done..|]. by injection He as ->. }
  destruct (valid_name_bytes _ Hname) as (Hne & Hbytes & Hd1 & Hd2).
  assert (∀ c, component_inner c = false → contains_byte (pr_name req) c = false) as Hno
    by (intros c Hc; apply contains_byte_false; by apply component_no).
  rewrite Hlim in Hx.
  destruct (sync_fresh (blobs_of k') lim set tmp m x) as (s' & c' & ss & HS & Hserved & Hroot); [|done..|].
  { unfold validateSet. cbn [fs_Name fs_Repo fs_ManifestDigest set].
    rewrite (proj2 (String.eqb_neq _ _) Hne), (proj2 (String.eqb_neq _ _) Hd1), (proj2 (String.eqb_neq _ _) Hd2).
    rewrite !Hno by done. rewrite Hdg. cbn. rewrite (proj2 (String.eqb_neq _ _)); [done|].
    intros He. rewrite Hrepo in He. apply (f_equal slen) in He. rewrite slen_app in He. destruct (pr_name req); cbn in He; [done|lia]. }
  exists s', c'. split; [done|]. intros l perm data Hl Hlne Hread Hnul.
  eapply serve_path; [exact Hserved|exact Hroot|by apply contains_byte_false, Hno|by eapply tree_at_proper|done| |].
  - rewrite !contains_byte_app, Hnul, (Hno NUL) by done. reflexivity.
  - by eapply open_packed.
Qed.

End served_back.

(** * Evaluated cases *)

(** [releaseServedDigest] forgets a set but leaves its name in the order: until
    the [Sync] under way ends, [Enabled] dereferences a set that is not there. *)
Theorem enabled_panics_after_release s name ss
    (Hs : sv_served s !! name = Some ss) (Hin : name ∈ sv_order s) :
  Enabled (releaseServedDigest name (fs_ManifestDigest (ss_set ss)) s) = None.
Proof.
  unfold releaseServedDigest. rewrite Hs, String.eqb_refl. unfold Enabled. cbn.
  induction (sv_order s) as [|n order IH]; [by apply elem_of_nil in Hin|]. cbn.
  apply elem_of_cons in Hin as [<-|Hin]; [by rewrite lookup_delete_eq|].
  rewrite IH by done. by destruct (delete name (sv_served s) !! n).
Qed.

Section demo.
#[local] Existing Instance ordinary_user.

Definition demo_host (t : ftree) : PackHost := mkPackHost Ok Some (λ _, Some true) (λ _, t) (λ _, t).
Definition demo_req : PackRequest := mkPackRequest "/srv/docs" "docs" "v1".
Definition demo_packer : Packer := NewPacker "".
Definition demo_store : PackStore := mkPackStore ∅ ∅ ∅ ∅ [].

Lemma demo_store_ok : store_ok demo_store.
Proof. intros repo d data Hd. cbn in Hd. by rewrite lookup_empty in Hd. Qed.

Definition demo_run := Pack demo_packer (demo_host demo_tree) demo_req demo_store.

Lemma ok_run {E A S} (r : res E A * S) : is_ok r.1 = true → ∃ a s, r = (Ok a, s).
Proof. destruct r as [[a|e] s]; [eauto|done]. Qed.

Lemma demo_packed : ∃ res k', demo_run = (Ok res, k').
Proof. apply ok_run. vm_compute. reflexivity. Qed.

Lemma pack_lands_whole_witness :
  ∃ res k', demo_run = (Ok res, k') ∧ landed k' (rs_repository res) (rs_version res) (rs_digest res).
Proof.
  destruct demo_packed as (res & k' & Hd). exists res, k'. split; [done|].
  apply (pack_lands_whole demo_packer (demo_host demo_tree) demo_req demo_store (Ok res) k' demo_store_ok Hd).
Defined.

Lemma demo_no_collision s data k' res : demo_run = (Ok res, k') →
  writeTree (pk_limits demo_packer) demo_tree = Ok s →
  k_blobs k' !! (rs_repository res, rs_layerDigest res) = Some data → data = tar_write (ps_out s).
Proof.
  intros Hd Hw Hb.
  assert (k_blobs demo_run.2 !! (match demo_run.1 with Ok res => (rs_repository res, rs_layerDigest res) | _ => ("", "") end)
    = Some data) as Hx by (by rewrite Hd).
  assert (tar_write (match writeTree (pk_limits demo_packer) demo_tree with Ok s => ps_out s | _ => [] end) =
    tar_write (ps_out s)) as Hy by (by rewrite Hw).
  rewrite <-Hy. clear -Hx. apply (inj Some). rewrite <-Hx. vm_compute. reflexivity.
Qed.

Lemma packed_tree_served_back_witness :
  ∃ res k' s' c', demo_run = (Ok res, k') ∧
    Sync (blobs_of k') [] ".tmp-1" [mkFileSet "docs" (rs_repository res) (rs_digest res) false]
      (NewServer (mkLimits 0 0 0)) (mkCache ∅ [] []) = (Done [], s', c') ∧
    serveHTTP s' c' "GET" "/files/docs/f" = Content "hello" "f".
Proof.
  destruct demo_packed as (res & k' & Hd).
  destruct (packed_tree_served_back demo_packer (demo_host demo_tree) demo_req demo_store res k' "/srv/docs"
    (mkLimits 0 0 0) ".tmp-1" false demo_store_ok Hd) as (s' & c' & HS & Hserve).
  - reflexivity.
  - reflexivity.
  - vm_compute. repeat split; congruence.
  - vm_compute. congruence.
  - apply demo_tree_wf.
  - apply demo_tree_searchable.
  - intros s data Hw Hb _. eapply demo_no_collision; eauto.
  - exists res, k', s', c'. split; [done|]. split; [exact HS|].
    apply (Hserve ["f"] 420%Z "hello"); reflexivity || discriminate.
Defined.

(** A tree listed in another order, copied at another time by another user. *)
Definition copied_tree : ftree :=
  FDir (mkFMeta 493 false 1 0) true
    [("d", FDir (mkFMeta 493 false 2 0) true [("l", FLink (mkFMeta 511 false 3 0) (Some "../f"))]);
     ("f", FFile (mkFMeta 420 false 4 0) 5 (Some "hello"))].

Lemma copied_same : same_tree copied_tree demo_tree.
Proof.
  eapply same_dir; [constructor|apply perm_swap|]. repeat constructor.
  eapply same_dir; [constructor|reflexivity|]. repeat constructor.
Qed.

Definition copied_run := Pack demo_packer (demo_host copied_tree) demo_req demo_store.

Lemma copied_packed : ∃ res k', copied_run = (Ok res, k').
Proof. apply ok_run. vm_compute. reflexivity. Qed.

Lemma packing_reproducible_witness :
  ∃ r1 r2, copied_run.1 = Ok r1 ∧ demo_run.1 = Ok r2 ∧ rs_digest r1 = rs_digest r2.
Proof.
  destruct demo_packed as (r2 & k2 & Hd), copied_packed as (r1 & k1 & Hc).
  exists r1, r2. rewrite Hd, Hc. split; [reflexivity|]. split; [reflexivity|].
  apply (packing_reproducible demo_packer demo_packer (demo_host copied_tree) (demo_host demo_tree) demo_req demo_req
    demo_store demo_store r1 r2 k1 k2 "/srv/docs" "/srv/docs" eq_refl eq_refl eq_refl demo_tree_wf copied_same Hc Hd).
Defined.

(** The store after the demonstration, and the set it serves. *)
Definition demo_blobs : Blobs := blobs_of demo_run.2.
Definition set_of (r : res pack_error PackResult) : FileSet :=
  match r with
  | Ok res => mkFileSet "docs" (rs_repository res) (rs_digest res) false
  | Err _ => mkFileSet "" "" "" false
  end.
Definition demo_set : FileSet := set_of demo_run.1.
Definition demo_sync (sets : list FileSet) (s : Server) (c : Cache) :=
  Sync demo_blobs [] ".tmp-1" sets s c.
Definition fresh_server : Server := NewServer (mkLimits 0 0 0).
Definition fresh_cache (faults : list cfault) : Cache := mkCache ∅ [] faults.

Lemma extractable_by_run b lim set :
  validateSet set = Ok tt →
  is_ok (m ← extract_manifest b (fs_Repo set) (fs_ManifestDigest set);
         extractLayers b lim (fs_Repo set) [] (im_layers m)) = true →
  extractable b lim set.
Proof.
  intros Hv Hr. split; [done|]. destruct (extract_manifest _ _ _) as [m|]; [|done]. cbn in Hr.
  destruct (extractLayers _ _ _ _ _) as [x|] eqn:Hx; [|done]. by exists m, x.
Qed.

Lemma demo_extractable : extractable demo_blobs (sv_limits fresh_server) demo_set.
Proof. apply extractable_by_run; vm_compute; reflexivity. Qed.

Lemma sync_serves_all_witness :
  ∃ s' c', demo_sync [demo_set] fresh_server (fresh_cache []) = (Done [], s', c') ∧
    sv_order s' = [fs_Name demo_set].
Proof.
  destruct (sync_serves_all demo_blobs fresh_server (fresh_cache []) ".tmp-1" [demo_set]) as (s' & c' & HS & Ho & _).
  - reflexivity.
  - apply NoDup_singleton.
  - apply Forall_singleton, demo_extractable.
  - exists s', c'. split; [exact HS|exact Ho].
Defined.

Definition demo_served := demo_sync [demo_set] fresh_server (fresh_cache []).

Lemma files_demo_reachable : reachable demo_blobs demo_served.1.2 demo_served.2.
Proof.
  destruct demo_served as [[r s'] c'] eqn:Hd. unfold demo_served, demo_sync in Hd. cbn.
  destruct r as [errs|e|].
  - eapply (reach_sync _ fresh_server (fresh_cache [])); [|exact Hd]. by apply reach_start.
  - eapply (reach_refused _ fresh_server (fresh_cache [])); [|exact Hd]. by apply reach_start.
  - exfalso. apply (f_equal (λ r, match r.1.1 with Crashed => true | _ => false end)) in Hd.
    vm_compute in Hd. discriminate.
Qed.

Lemma served_only_complete_witness :
  serveHTTP demo_served.1.2 demo_served.2 "GET" "/files/docs/d/l" = Content "hello" "l" ∧
  ∃ name path ss fs, "/files/docs/d/l" = RoutePrefix +:+ name +:+ "/" +:+ path ∧
    extraction_of demo_blobs (fs_ManifestDigest (ss_set ss)) fs ∧ root_Open fs path = Ok (OpenedFile "hello").
Proof.
  assert (serveHTTP demo_served.1.2 demo_served.2 "GET" "/files/docs/d/l" = Content "hello" "l") as Hs
    by (vm_compute; reflexivity).
  split; [exact Hs|].
  destruct (served_only_complete demo_blobs _ _ _ _ _ _ files_demo_reachable Hs)
    as (_ & name & path & ss & fs & E1 & _ & _ & _ & _ & E6 & E7).
  exists name, path, ss, fs. split; [exact E1|]. split; [exact E6|exact E7].
Defined.

(** A removal stopped half-way (here by a directory whose mode forbids it) can
    leave the completion marker over a tree that has lost its files; the next
    synchronization of the same digest takes it for complete and serves it. *)
Definition half_removed : cfault :=
  FPart (λ _ cd, Some (mkCached (cd_marker cd) (Some empty_root))).

Theorem half_purged_tree_served :
  let first := demo_sync [demo_set] fresh_server (fresh_cache [FOk]) in
  let second := demo_sync [] first.1.2 (mkCache (c_dirs first.2) [] [FOk; FOk; half_removed]) in
  let third := demo_sync [demo_set] second.1.2 second.2 in
  serveHTTP first.1.2 first.2 "GET" "/files/docs/f" = Content "hello" "f" ∧
  second.1.1 = Done [] ∧ third.1.1 = Done [] ∧
  Enabled third.1.2 = Some [demo_set] ∧
  serveHTTP third.1.2 third.2 "GET" "/files/docs/f" = NotFound.
Proof. vm_compute. repeat split. Qed.

End demo.
