(* ===== verification/FileSets.v ===== *)
(** The FileSets of an instance: how the configured declarations become concrete
    manifests (internal/cli/serve.go: [resolveFileSets], [selectFileSetManifest]
    and the store adapters), and the inventory both surfaces list
    (internal/fileserve/inventory.go). *)

From S2P Require Import Prelude GoStrings Relocate FilePaths StoreMeta Transfer Remotes Pack PackTheorems.
From S2P Require Import OsRoot FileServer.

(** * Declarations *)

(** [config.FileSetServe]. *)
Record FileSetServe := mkFileSetServe {
  fd_Name : string; fd_Ref : string; fd_Version : string; fd_Platform : string; fd_Anonymous : bool }.

(** The store as these functions read it: repositories, tags, a manifest by
    reference (its index children when it is an index, its media type, its
    digest), and whether a manifest is held. *)
Record raw_manifest := mkRawManifest {
  rm_children : option (list (string * option platform)); rm_mediaType : string; rm_digest : string }.
Record FileStore := mkFileStore {
  st_repositories : res string (list string);
  st_tags : string → res string (list string);
  st_raw : string → string → res string raw_manifest;
  st_has : string → string → bool;
}.

Inductive resolve_error :=
  | ResolveRef (e : relocate_error)
  | ResolveStore (text : string)
  | ResolveTag (e : go_error)
  | IndexParse
  | PlatformAbsent | PlatformUnknown | SingleAbsent | PlatformAmbiguous.

Section filesets.
Context `{GoRuntime, RecipeSDK, Upstream}.

(** The loop of [selectFileSetManifest] over the children of the index. *)
Fixpoint select_child (st : FileStore) (repo platform : string) (children : list (string * option Transfer.platform))
    (candidates : list string) : res resolve_error (option string * list string) :=
  match children with
  | [] => Ok (None, candidates)
  | (dgst, p) :: children =>
      match p with
      | None => select_child st repo platform children candidates
      | Some p =>
          if String.eqb (pf_os p) "unknown" then select_child st repo platform children candidates
          else if String.eqb platform "" then select_child st repo platform children (candidates ++ [dgst])
          else if MatchesPlatform platform p then
            if st_has st repo dgst then Ok (Some dgst, candidates) else Err PlatformAbsent
          else select_child st repo platform children candidates
      end
  end.

Definition selectFileSetManifest (st : FileStore) (repo : string) (m : raw_manifest) (platform : string) :
    res resolve_error string :=
  if negb (contains_str (rm_mediaType m) "index") && negb (contains_str (rm_mediaType m) "manifest.list")
  then Ok (rm_digest m)
  else match rm_children m with
  | None => Err IndexParse
  | Some children =>
      '(found, candidates) ← select_child st repo platform children [];
      match found with
      | Some dgst => Ok dgst
      | None =>
          if negb (String.eqb platform "") then Err PlatformUnknown
          else match candidates with
               | [dgst] => if st_has st repo dgst then Ok dgst else Err SingleAbsent
               | _ => Err PlatformAmbiguous
               end
      end
  end.

(** [resolveFileSet]. *)
Definition resolveTag (st : FileStore) (repo version : string) : res resolve_error string :=
  if negb (String.eqb version "") then Ok version
  else
    tags ← wrap_err ResolveStore (st_tags st repo);
    wrap_err ResolveTag (ResolveVersion "*" (filterVersionTags tags)).

Definition resolveFileSet (st : FileStore) (f : FileSetServe) (repo : string) : res resolve_error FileSet :=
  tag ← resolveTag st repo (fd_Version f);
  m ← wrap_err ResolveStore (st_raw st repo tag);
  dgst ← selectFileSetManifest st repo m (fd_Platform f);
  Ok (mkFileSet (fd_Name f) repo dgst (fd_Anonymous f)).

(** [resolveFileSets]: what resolves is kept, the rest is reported. *)
Fixpoint resolveFileSets (st : FileStore) (basePrefix : string) (fs : list FileSetServe) :
    list FileSet * list (string * resolve_error) :=
  match fs with
  | [] => ([], [])
  | f :: fs =>
      let '(sets, errs) := resolveFileSets st basePrefix fs in
      match repo ← wrap_err ResolveRef (PathWithBase basePrefix (fd_Ref f)); resolveFileSet st f repo with
      | Ok set => (set :: sets, errs)
      | Err e => (sets, (fd_Name f, e) :: errs)
      end
  end.

(** [syncFileSets]: the sets that resolved go to the server whatever the others
    did. *)
Definition syncFileSets `{Privilege, FileSetLib} (st : FileStore) (basePrefix : string) (fs : list FileSetServe)
    (b : Blobs) (tmp : string) (s : Server) (c : Cache) :
    outcome (list (FileSet * srv_error)) * Server * Cache :=
  Sync b [] tmp (resolveFileSets st basePrefix fs).1 s c.

(** * Provenance *)

Definition FromRecipe : string := "recipe".
Definition FromManualImport : string := "manual-import".
Definition FromUnitImport : string := "unit-import".
Definition FromSeed : string := "seed".

(** [storeCatalog.Provenance]: the live recipe graph, then the ledger. *)
Definition catalogProvenance `{StoreIO} (m : Meta) (repo : string) : string :=
  match ManagingRecipes repo m with
  | _ :: _ => FromRecipe
  | [] =>
      match ProvenanceOf repo m with
      | None => FromSeed
      | Some p =>
          if bool_decide (pv_class p = ProvenanceRecipe) then FromRecipe
          else if String.eqb (pv_origin p) OriginLocalPack then FromManualImport
          else if bool_decide (pv_class p = ProvenanceUnitImport) then FromUnitImport
          else FromSeed
      end
  end.

(** * The inventory *)

Record Declared := mkDeclared {
  dl_Name : string; dl_Ref : string; dl_Version : string; dl_Anonymous : bool }.

(** [declaredFileSets]. *)
Definition declaredFileSets (fs : list FileSetServe) : list Declared :=
  List.map (λ f, mkDeclared (fd_Name f) (fd_Ref f) (fd_Version f) (fd_Anonymous f)) fs.

Record Entry := mkEntry {
  en_Name : string; en_Reference : string; en_Repository : string; en_Versions : list string;
  en_Version : string; en_Digest : string; en_Provenance : string; en_Declared : bool;
  en_Served : bool; en_Anonymous : bool; en_Signed : bool; en_URL : string }.

Record Catalog := mkCatalog {
  ct_repositories : res string (list string);
  ct_tags : string → res string (list string);
  ct_provenance : string → string;
}.

(** The entry of a declaration, and of a FileSet packed here. *)
Definition declared_entry (repo : string) (d : Declared) : Entry :=
  mkEntry (dl_Name d) (dl_Ref d) repo [] (dl_Version d) "" "" true false (dl_Anonymous d) false "".
Definition packed_entry (prefix repo : string) : Entry :=
  let name := default repo (cut_prefix prefix repo) in
  mkEntry name (PackReference name) repo [] "" "" "" false false false false "".

(** [add]: the first entry of a repository stays. *)
Definition add_entry (e : Entry) (acc : gmap string Entry * list string) : gmap string Entry * list string :=
  match acc.1 !! en_Repository e with
  | Some _ => acc
  | None => (<[en_Repository e := e]> acc.1, acc.2 ++ [en_Repository e])
  end.

Definition add_all (es : list Entry) (acc : gmap string Entry * list string) : gmap string Entry * list string :=
  fold_left (λ acc e, add_entry e acc) es acc.

(** The declarations whose reference relocates, then the packed repositories. *)
Definition declared_entries (basePrefix : string) (declared : list Declared) : list Entry :=
  omap (λ d, match PathWithBase basePrefix (dl_Ref d) with
             | Ok repo => Some (declared_entry repo d)
             | Err _ => None
             end) declared.
Definition packed_entries (basePrefix : string) (repos : list string) : list Entry :=
  List.map (packed_entry (packedPrefix basePrefix))
    (List.filter (λ repo, has_prefix repo (packedPrefix basePrefix)) repos).

(** [servedByRepo]: the last served set of a repository. *)
Definition servedByRepo (served : list FileSet) : gmap string FileSet :=
  fold_left (λ m s, <[fs_Repo s := s]> m) served ∅.

(** The last loop: what is served, where it came from, which versions are held. *)
Definition finish_entry (cat : Catalog) (served : gmap string FileSet) (e : Entry) : Entry :=
  let repo := en_Repository e in
  let prov := ct_provenance cat repo in
  let versions := match ct_tags cat repo with Ok tags => filterVersionTags tags | Err _ => [] end in
  match served !! repo with
  | Some s =>
      mkEntry (en_Name e) (en_Reference e) repo versions (en_Version e) (fs_ManifestDigest s) prov
        (en_Declared e) true (fs_Anonymous s) (negb (String.eqb prov FromManualImport))
        (RoutePrefix +:+ en_Name e +:+ "/")
  | None =>
      mkEntry (en_Name e) (en_Reference e) repo versions (en_Version e) (en_Digest e) prov
        (en_Declared e) false (en_Anonymous e) (negb (String.eqb prov FromManualImport)) ""
  end.

Definition inventory (cat : Catalog) (declared : list Declared) (served : list FileSet) (basePrefix : string) :
    res string (list Entry) :=
  repos ← ct_repositories cat;
  let '(byRepo, order) :=
    add_all (packed_entries basePrefix repos) (add_all (declared_entries basePrefix declared) (∅, [])) in
  let out := omap (λ repo, finish_entry cat (servedByRepo served) <$> byRepo !! repo) order in
  Ok (sort_slice (λ x y, str_ltb (en_Reference x) (en_Reference y)) out).

(** [Surface.Inventory]: what the server reports, or nothing without one. *)
Definition surfaceInventory (cat : Catalog) (declared : list Declared) (served : option (list FileSet))
    (basePrefix : string) : res string (list Entry) :=
  inventory cat declared (default [] served) basePrefix.

(** * What the inventory lists *)

Lemma add_all_spec es acc repo :
  (∀ r, r ∈ acc.2 ↔ is_Some (acc.1 !! r)) → NoDup acc.2 →
  let acc' := add_all es acc in
  (∀ r, r ∈ acc'.2 ↔ is_Some (acc'.1 !! r)) ∧ NoDup acc'.2 ∧
  (is_Some (acc'.1 !! repo) ↔ is_Some (acc.1 !! repo) ∨ ∃ e, e ∈ es ∧ en_Repository e = repo) ∧
  (∀ r e, acc'.1 !! r = Some e → acc.1 !! r = Some e ∨ (e ∈ es ∧ en_Repository e = r)).
Proof.
  revert acc. induction es as [|e es IH]; intros [m order] Ho Hnd; cbn in *.
  { split_and!; try done; [|by left]. split; [by left|]. intros [?|(? & ?%elem_of_nil & _)]; done. }
  unfold add_all. cbn [fold_left]. fold (add_all es (add_entry e (m, order))).
  unfold add_entry. cbn. destruct (m !! en_Repository e) as [e'|] eqn:Hm; cbn.
  - destruct (IH (m, order) Ho Hnd) as (A & B & C & D). split_and!; [done|done| |].
    + rewrite C. cbn. split; [intros [?|(x & ? & ?)]; [by left|right; exists x; split; [by right|done]]|].
      intros [?|(x & [->|?]%elem_of_cons & <-)]; [by left|left; eauto|right; eauto].
    + intros r x Hx. destruct (D r x Hx) as [?|[? ?]]; [by left|]. right. split; [by right|done].
  - destruct (IH (<[en_Repository e := e]> m, order ++ [en_Repository e])) as (A & B & C & D); cbn.
    { intros r. rewrite elem_of_app, list_elem_of_singleton, Ho. destruct (decide (r = en_Repository e)) as [->|].
      - rewrite lookup_insert_eq. split; [eauto|by right].
      - rewrite lookup_insert_ne by done. naive_solver. }
    { apply NoDup_app. split; [done|]. split; [|apply NoDup_singleton].
      intros r Hr ->%list_elem_of_singleton. apply Ho in Hr as [? ?]. congruence. }
    split_and!; [done|done| |].
    + rewrite C. cbn. destruct (decide (repo = en_Repository e)) as [->|Hne].
      * rewrite lookup_insert_eq. split; [|eauto]. intros _. right. exists e. split; [by left|done].
      * rewrite lookup_insert_ne by done. split.
        -- intros [?|(x & ? & ?)]; [by left|right; exists x; split; [by right|done]].
        -- intros [?|(x & [->|?]%elem_of_cons & <-)]; [by left|done|right; eauto].
    + intros r x Hx. destruct (D r x Hx) as [Hl|[? ?]]; cbn in *.
      * apply lookup_insert_Some in Hl as [[<- <-]|[_ ?]]; [right; split; [by left|done]|by left].
      * right. split; [by right|done].
Qed.

Lemma finish_repository cat served e : en_Repository (finish_entry cat served e) = en_Repository e.
Proof. unfold finish_entry. by destruct (served !! en_Repository e). Qed.

Lemma servedByRepo_spec served repo :
  is_Some (servedByRepo served !! repo) ↔ ∃ s, s ∈ served ∧ fs_Repo s = repo.
Proof.
  unfold servedByRepo.
  assert (∀ m : gmap string FileSet, is_Some (fold_left (λ m s, <[fs_Repo s := s]> m) served m !! repo) ↔
    is_Some (m !! repo) ∨ ∃ s, s ∈ served ∧ fs_Repo s = repo) as Hg.
  { induction served as [|s served IH]; intros m; cbn.
    - split; [by left|]. intros [?|(? & ?%elem_of_nil & _)]; done.
    - rewrite IH. destruct (decide (repo = fs_Repo s)) as [->|Hne].
      + rewrite lookup_insert_eq. split; [|by left; eauto]. intros _. right. exists s. split; [by left|done].
      + rewrite lookup_insert_ne by done. split.
        * intros [?|(x & ? & ?)]; [by left|right; exists x; split; [by right|done]].
        * intros [?|(x & [->|?]%elem_of_cons & <-)]; [by left|done|right; eauto]. }
  rewrite Hg, lookup_empty. split; [intros [[? ?]|?]; done|by right].
Qed.

Lemma listed_entries base declared repos r :
  (∃ e, e ∈ declared_entries base declared ++ packed_entries base repos ∧ en_Repository e = r) ↔
  (∃ d, d ∈ declared ∧ PathWithBase base (dl_Ref d) = Ok r) ∨
  (r ∈ repos ∧ has_prefix r (packedPrefix base) = true).
Proof.
  unfold declared_entries, packed_entries. setoid_rewrite elem_of_app. setoid_rewrite list_elem_of_omap. split.
  - intros (e & [(d & Hd & He)|He] & <-).
    + destruct (PathWithBase base (dl_Ref d)) as [r|?] eqn:Hp; [|done]. injection He as <-. left. by exists d.
    + apply list_elem_of_In, in_map_iff in He as (x & <- & [Hx Hf]%filter_In). right. cbn.
      by rewrite list_elem_of_In.
  - intros [(d & Hd & Hp)|[Hr Hf]].
    + exists (declared_entry r d). split; [|done]. left. exists d. by rewrite Hp.
    + exists (packed_entry (packedPrefix base) r). split; [|done]. right.
      apply list_elem_of_In, in_map, filter_In. by rewrite <-list_elem_of_In.
Qed.

(** The inventory lists exactly one entry per repository that a declaration
    relocates to or that was packed here, in the order of their references, and
    says it is served exactly when a served set reads that repository. *)
Theorem inventory_lists cat declared served base repos out
    (Hrepos : ct_repositories cat = Ok repos) (Hout : inventory cat declared served base = Ok out) :
  NoDup (en_Repository <$> out) ∧
  Sorted (not_less (λ x y, str_ltb (en_Reference x) (en_Reference y))) out ∧
  (∀ repo, repo ∈ en_Repository <$> out ↔
    (∃ d, d ∈ declared ∧ PathWithBase base (dl_Ref d) = Ok repo) ∨
    (repo ∈ repos ∧ has_prefix repo (packedPrefix base) = true)) ∧
  (∀ e, e ∈ out → (en_Served e = true ↔ ∃ s, s ∈ served ∧ fs_Repo s = en_Repository e)).
Proof.
  unfold inventory in Hout. rewrite Hrepos in Hout. cbn [mbind res_bind] in Hout.
  destruct (add_all (packed_entries base repos) _) as [byRepo order] eqn:Hacc. injection Hout as <-.
  set (D := declared_entries base declared) in *. set (P := packed_entries base repos) in *.
  pose proof (λ repo, add_all_spec D (∅, []) repo) as HD. pose proof (λ repo, add_all_spec P (add_all D (∅, [])) repo) as HP.
  rewrite Hacc in HP. cbn [fst snd] in HP, HD.
  assert (∀ r, r ∈ (@nil string) ↔ is_Some ((∅ : gmap string Entry) !! r)) as H0'.
  { intros r. rewrite lookup_empty. split; [by intros ?%elem_of_nil|by intros [? ?]]. }
  assert (∀ r, r ∈ order ↔ is_Some (byRepo !! r)) as Hord by (apply (HP ""); apply (HD "" H0'); constructor).
  assert (NoDup order) as Hnd by (apply (HP ""); apply (HD "" H0'); constructor).
  assert (∀ r e, byRepo !! r = Some e → (e ∈ D ∨ e ∈ P) ∧ en_Repository e = r) as Hent.
  { intros r e He. destruct (HP "") as (_ & _ & _ & HPe); [apply (HD "" H0'); constructor..|].
    destruct (HPe r e He) as [HDl|[? ?]]; [|auto]. destruct (HD "" H0') as (_ & _ & _ & HDe); [constructor|].
    destruct (HDe r e HDl) as [Hx|[? ?]]; [by rewrite lookup_empty in Hx|auto]. }
  set (raw := omap (λ repo, finish_entry cat (servedByRepo served) <$> byRepo !! repo) order).
  assert (en_Repository <$> raw = order) as Hraw.
  { unfold raw. assert (∀ r, r ∈ order → is_Some (byRepo !! r)) as Hall by (intros; by apply Hord).
    clear -Hall Hent. induction order as [|r order IH]; [done|]. cbn.
    destruct (Hall r) as [e He]; [by left|]. rewrite He. cbn. rewrite finish_repository.
    destruct (Hent r e He) as [_ ->]. f_equal. apply IH. intros; apply Hall; by right. }
  assert (∀ r, r ∈ order ↔ ∃ e, e ∈ D ++ P ∧ en_Repository e = r) as Hmem.
  { intros r. rewrite Hord. destruct (HP r) as (_ & _ & HPm & _); [apply (HD "" H0'); constructor..|].
    destruct (HD r H0') as (_ & _ & HDm & _); [constructor|]. rewrite HPm, HDm, lookup_empty.
    setoid_rewrite elem_of_app. split; [intros [[[? ?]|(e & ? & ?)]|(e & ? & ?)]|intros (e & [?|?] & ?)]; eauto 7. done. }
  split_and!.
  - rewrite sort_slice_perm. by rewrite Hraw.
  - apply sort_slice_sorted, strict_weak_str.
  - intros r. rewrite (sort_slice_perm _ _ raw), Hraw, Hmem. apply listed_entries.
  - intros e. rewrite elem_of_sort_slice. unfold raw. rewrite list_elem_of_omap.
    intros (r & _ & (e' & He' & ->)%fmap_Some). rewrite finish_repository, <-servedByRepo_spec.
    unfold finish_entry. destruct (servedByRepo served !! en_Repository e'); cbn; split; eauto; [done|by intros [? ?]].
Qed.

(** Two declarations of one reference under two names (two platforms of one
    FileSet, say) are both served, but the inventory keeps one entry per
    repository: the first one's name and URL, with the last one's digest. *)
Theorem declaration_shadowed base ref repo n1 n2 v1 v2 d1 d2 a1 a2 tags prov
    (Hp : PathWithBase base ref = Ok repo) :
  ∃ e, inventory (mkCatalog (Ok []) (λ _, tags) prov)
         [mkDeclared n1 ref v1 a1; mkDeclared n2 ref v2 a2]
         [mkFileSet n1 repo d1 a1; mkFileSet n2 repo d2 a2] base = Ok [e] ∧
    en_Name e = n1 ∧ en_URL e = RoutePrefix +:+ n1 +:+ "/" ∧ en_Digest e = d2 ∧ en_Anonymous e = a2.
Proof.
  unfold inventory, declared_entries, packed_entries. cbn. rewrite Hp. cbn.
  unfold add_entry. cbn [fst snd declared_entry en_Repository].
  rewrite lookup_empty. cbn [fst snd]. rewrite lookup_insert_eq. cbn. rewrite lookup_insert_eq. cbn.
  eexists. split; [f_equal; apply Permutation_singleton_r; symmetry; by rewrite sort_slice_perm|].
  unfold finish_entry, servedByRepo. cbn. by rewrite lookup_insert_eq.
Qed.

(** * What resolution promises *)

Lemma select_child_spec st repo platform children candidates found cs
    (Hs : select_child st repo platform children candidates = Ok (found, cs)) :
  match found with
  | Some dgst => st_has st repo dgst = true ∧ platform ≠ "" ∧
      ∃ p, (dgst, Some p) ∈ children ∧ pf_os p ≠ "unknown" ∧ MatchesPlatform platform p = true
  | None => platform = "" →
      cs = candidates ++ omap (λ c, match c.2 with
                                    | Some p => if String.eqb (pf_os p) "unknown" then None else Some c.1
                                    | None => None
                                    end) children
  end.
Proof.
  revert candidates Hs. induction children as [|[dgst p] children IH]; cbn; intros candidates Hs.
  { simplify_eq. intros _. by rewrite app_nil_r. }
  destruct p as [p|]; cbn.
  2:{ specialize (IH _ Hs). destruct found; [|done]. destruct IH as (? & ? & q & ? & ?). split_and!; [done..|]. exists q.
      split; [by right|done]. }
  destruct (String.eqb_spec (pf_os p) "unknown") as [|Hu].
  { specialize (IH _ Hs). destruct found; [|done]. destruct IH as (? & ? & q & ? & ?). split_and!; [done..|]. exists q.
    split; [by right|done]. }
  destruct (String.eqb_spec platform "") as [->|Hne].
  { specialize (IH _ Hs). destruct found.
    - destruct IH as (? & ? & q & ? & ?). done.
    - intros _. rewrite IH by done. by rewrite <-app_assoc. }
  destruct (MatchesPlatform platform p) eqn:Hm.
  - destruct (st_has st repo dgst) eqn:Hh; [|done]. simplify_eq. split_and!; [done..|]. exists p. split_and!; [by left|done..].
  - specialize (IH _ Hs). destruct found; [|done]. destruct IH as (? & ? & q & ? & ?). split_and!; [done..|]. exists q.
    split; [by right|done].
Qed.

(** The manifest selected for a FileSet is the reference's own when that is no
    index; from an index it is a held child of a known platform, matching the
    configured platform, or the index's only child of a known platform when none
    is configured: an ambiguous index is never resolved by picking one. *)
Theorem selected_manifest st repo m platform dgst (Hs : selectFileSetManifest st repo m platform = Ok dgst) :
  (dgst = rm_digest m ∧ contains_str (rm_mediaType m) "index" = false ∧
     contains_str (rm_mediaType m) "manifest.list" = false) ∨
  (∃ children, rm_children m = Some children ∧ st_has st repo dgst = true ∧
     ((platform ≠ "" ∧ ∃ p, (dgst, Some p) ∈ children ∧ pf_os p ≠ "unknown" ∧ MatchesPlatform platform p = true) ∨
      (platform = "" ∧ omap (λ c, match c.2 with
                                  | Some p => if String.eqb (pf_os p) "unknown" then None else Some c.1
                                  | None => None
                                  end) children = [dgst]))).
Proof.
  unfold selectFileSetManifest in Hs.
  destruct (contains_str (rm_mediaType m) "index"), (contains_str (rm_mediaType m) "manifest.list"); cbn in Hs;
    try (left; by simplify_eq); right.
  all: destruct (rm_children m) as [children|]; [|done]; exists children; split; [done|].
  all: destruct (select_child st repo platform children []) as [[found cs]|] eqn:Hc; [|done]; cbn in Hs.
  all: pose proof (select_child_spec _ _ _ _ _ _ _ Hc) as Hspec.
  all: destruct (String.eqb_spec platform "") as [->|Hne]; cbn in Hs.
  all: destruct found as [d|]; simplify_eq; try done.
  all: try (rewrite Hspec in Hs by done; cbn in Hs).
  all: try (destruct Hspec as (? & ? & ?); split; [done|]; left; by split).
  all: try (destruct (omap _ children) as [|x [|]]; try done; destruct (st_has st repo x) eqn:?; simplify_eq;
    split; [done|]; by right).
Qed.

End filesets.
