(* ===== verification/OciPlan.v ===== *)
(** Leaving with the bytes: the selection and the plan of an OCI image layout
    (internal/ocilayout/ocilayout.go and plan.go).  A selection is a list of
    repository and tag pairs; the plan reads each of them from the store, walks
    indexes into their children and lists every file the layout will hold.  The
    projection of its size, in both formats, is here with the tar arithmetic of
    export.go. *)

From S2P Require Import Prelude GoStrings.

(** * Digests and documents *)

(** The fields of [ocispec.Descriptor] in use; [ld_name] is the
    [org.opencontainers.image.ref.name] annotation, empty when there is none. *)
Record ldesc := mkDesc { ld_mediaType : string; ld_digest : string; ld_size : Z; ld_name : string }.

(** [manifestDoc], less the subject, which nothing reads. *)
Record manifestDoc := mkDoc {
  md_mediaType : string; md_config : ldesc; md_layers : list ldesc; md_manifests : list ldesc }.

#[export] Instance ldesc_eq_dec : EqDecision ldesc.
Proof. solve_decision. Defined.

(** The libraries behind the package.

    go-digest: an algorithm that is available computes an encoded hash of a byte
    string, and a digest that [Validate] accepts is such an algorithm, a colon,
    and a non-empty encoding over an alphabet without separators.  [FromBytes] is
    the sha256 digest.  encoding/json: the documents decode, and an index decodes
    to what was encoded.  distribution/reference: the grammars of repository
    names and tags, with the separators neither may hold. *)
Class LayoutLib : Type := {
  alg_hash : string → option (string → string);
  dg_ok : string → bool;
  hex256 : string → string;
  decode_doc : string → option manifestDoc;
  encode_index : list ldesc → string;
  decode_index : string → option (list ldesc);
  decode_marker : string → option string;
  ref_name_ok : string → bool;
  ref_tag_ok : string → bool;
  hex256_available : alg_hash "sha256" = Some hex256;
  hex256_ok : ∀ s, dg_ok ("sha256:" +:+ hex256 s) = true;
  dg_ok_shape : ∀ d, dg_ok d = true → ∃ alg enc, d = alg +:+ ":" +:+ enc ∧ is_Some (alg_hash alg) ∧
    alg ≠ "" ∧ enc ≠ "" ∧ all_bytes (λ c, is_lower c || is_digit c) alg = true ∧
    all_bytes (λ c, is_letter c || is_digit c) enc = true;
  index_roundtrip : ∀ ds, decode_index (encode_index ds +:+ String "010" "") = Some ds;
  marker_roundtrip :
    decode_marker ("{" +:+ quoted "imageLayoutVersion" +:+ ":" +:+ quoted "1.0.0" +:+ "}" +:+ String "010" "")
    = Some "1.0.0";
  ref_tag_plain : ∀ t, ref_tag_ok t = true → ¬ in_str ":" t ∧ ¬ in_str "/" t ∧ ¬ in_str "#" t;
  ref_name_plain : ∀ r, ref_name_ok r = true → ¬ in_str "@" r;
}.

Section digests.
Context `{LayoutLib}.

(** [digest.FromBytes]. *)
Definition FromBytes (s : string) : string := "sha256:" +:+ hex256 s.

(** [Digest.Algorithm] and [Digest.Encoded], which panic without a colon. *)
Definition digest_parts (d : string) : option (string * string) := cut_byte ":" d.

(** What a [Verifier] of the digest says of some bytes; it panics when the
    algorithm is not available. *)
Definition verifies (d s : string) : option bool :=
  '(alg, enc) ← digest_parts d;
  h ← alg_hash alg;
  Some (String.eqb d (alg +:+ ":" +:+ h s)).

(** [blobPath], with the panic of the digest. *)
Definition blobPath (d : string) : option string :=
  '(alg, enc) ← digest_parts d; Some ("blobs/" +:+ alg +:+ "/" +:+ enc).
End digests.

(** * The store as the export reads it *)

Inductive src_error := SrcNotFound | SrcFailed (text : string).

(** [Source].  A manifest comes with its media type and its digest; a blob is a
    stream, the bytes it gives and whether it ends without an error. *)
Record Source := mkSource {
  s_Repositories : res src_error (list string);
  s_Tags : string → res src_error (list string);
  s_RawManifest : string → string → res src_error (string * string * string);
  s_BlobReader : string → string → res src_error (string * bool);
}.

(** * Selections *)

Record LayoutRef := mkRef { lr_Repo : string; lr_Tag : string }.

#[export] Instance LayoutRef_eq_dec : EqDecision LayoutRef.
Proof. solve_decision. Defined.

(** [Ref.String]. *)
Definition ref_string (r : LayoutRef) : string := lr_Repo r +:+ ":" +:+ lr_Tag r.

Definition selection_has (sel : list LayoutRef) (r : LayoutRef) : bool :=
  existsb (λ r', bool_decide (r' = r)) sel.

(** [Selection.Add]. *)
Fixpoint selection_add (sel refs : list LayoutRef) : list LayoutRef :=
  match refs with
  | [] => sel
  | r :: refs =>
      if String.eqb (lr_Repo r) "" || String.eqb (lr_Tag r) "" then selection_add sel refs
      else if selection_has sel r then selection_add sel refs
      else selection_add (sel ++ [r]) refs
  end.

(** The loop of [SelectRepositories], and of [SelectAll]. *)
Fixpoint select_from (src : Source) (repos : list string) (sel : list LayoutRef) :
    res src_error (list LayoutRef) :=
  match repos with
  | [] => Ok sel
  | repo :: repos =>
      match s_Tags src repo with
      | Ok tags => select_from src repos (selection_add sel (mkRef repo <$> tags))
      | Err SrcNotFound => select_from src repos sel
      | Err e => Err e
      end
  end.

Definition SelectRepositories (src : Source) (repos : list string) : res src_error (list LayoutRef) :=
  select_from src repos [].

Definition SelectAll (src : Source) : res src_error (list LayoutRef) :=
  repos ← s_Repositories src; select_from src repos [].

(** [SignatureRefs]: both tags, whichever exists. *)
Definition SignatureRefs `{LayoutLib} (repo subjectDigest : string) : list LayoutRef :=
  if dg_ok subjectDigest then
    match digest_parts subjectDigest with
    | Some (_, hex) => [mkRef repo ("sha256-" +:+ hex +:+ ".sig"); mkRef repo ("sha256-" +:+ hex)]
    | None => []
    end
  else [].

(** * The plan *)

Inductive missing_reason := MissingTag | MissingPlatform | MissingBlob.
Record Missing := mkMissing { mi_Ref : LayoutRef; mi_Digest : string; mi_Reason : missing_reason }.

(** A file of [blobs/]; manifests carry their bytes. *)
Record plannedBlob := mkPlanned {
  pb_digest : string; pb_size : Z; pb_repo : string; pb_payload : string }.

Record LayoutPlan := mkLayoutPlan {
  lp_Index : list ldesc;
  lp_Refs : list LayoutRef;
  lp_Missing : list Missing;
  lp_manifests : list plannedBlob;
  lp_blobs : list plannedBlob;
}.

Inductive plan_error :=
  | ReadFailed (text : string)
  | OverLimit (size : Z)
  | BadDigest (d : string)
  | BadManifest (d : string).

(** A call returns, fails, or (in the model only) has spent its fuel. *)
Inductive walked (A : Type) := Walked (a : A) | WalkFailed (e : plan_error) | Spent.
Arguments Walked {A} a.
Arguments WalkFailed {A} e.
Arguments Spent {A}.

#[export] Instance walked_ret : MRet walked := λ A a, Walked a.
#[export] Instance walked_bind : MBind walked := λ A B f m,
  match m with Walked a => f a | WalkFailed e => WalkFailed e | Spent => Spent end.

Definition maxManifestBytes : Z := Z.shiftl 32 20.

Definition MediaTypeImageIndex : string := "application/vnd.oci.image.index.v1+json".
Definition isIndexMediaType (mediaType : string) : bool :=
  String.eqb mediaType MediaTypeImageIndex ||
  String.eqb mediaType "application/vnd.docker.distribution.manifest.list.v2+json".

Definition add_missing (m : Missing) (p : LayoutPlan) : LayoutPlan :=
  mkLayoutPlan (lp_Index p) (lp_Refs p) (lp_Missing p ++ [m]) (lp_manifests p) (lp_blobs p).
Definition add_manifest (b : plannedBlob) (p : LayoutPlan) : LayoutPlan :=
  mkLayoutPlan (lp_Index p) (lp_Refs p) (lp_Missing p) (lp_manifests p ++ [b]) (lp_blobs p).
Definition add_blob (b : plannedBlob) (p : LayoutPlan) : LayoutPlan :=
  mkLayoutPlan (lp_Index p) (lp_Refs p) (lp_Missing p) (lp_manifests p) (lp_blobs p ++ [b]).
Definition add_entry_ref (d : ldesc) (r : LayoutRef) (p : LayoutPlan) : LayoutPlan :=
  mkLayoutPlan (lp_Index p ++ [d]) (lp_Refs p ++ [r]) (lp_Missing p) (lp_manifests p) (lp_blobs p).

(** The plan and the [seen] map of the walk. *)
Definition walk_state : Type := LayoutPlan * gset string.

Section plan.
Context `{LayoutLib}.

(** The blobs of a plain manifest. *)
Fixpoint list_blobs (repo : string) (descs : list ldesc) (st : walk_state) : walk_state :=
  match descs with
  | [] => st
  | d :: descs =>
      if String.eqb (ld_digest d) "" then list_blobs repo descs st
      else if bool_decide (ld_digest d ∈ st.2) then list_blobs repo descs st
      else list_blobs repo descs
             (add_blob (mkPlanned (ld_digest d) (ld_size d) repo "") st.1, {[ld_digest d]} ∪ st.2)
  end.

(** The children of an index; [rec] is the walk of one of them. *)
Fixpoint walk_index (rec : string → string → string → walk_state → walked walk_state)
    (src : Source) (repo : string) (children : list ldesc) (st : walk_state) : walked walk_state :=
  match children with
  | [] => Walked st
  | c :: children =>
      match s_RawManifest src repo (ld_digest c) with
      | Err SrcNotFound =>
          walk_index rec src repo children
            (add_missing (mkMissing (mkRef repo "") (ld_digest c) MissingPlatform) st.1, st.2)
      | Err (SrcFailed text) => WalkFailed (ReadFailed text)
      | Ok (payload, mediaType, d) =>
          if (maxManifestBytes <? Z.of_nat (slen payload))%Z then WalkFailed (OverLimit (Z.of_nat (slen payload)))
          else if negb (dg_ok d) then WalkFailed (BadDigest d)
          else st ← rec d mediaType payload st; walk_index rec src repo children st
      end
  end.

(** [Plan.walk]. *)
Fixpoint plan_walk (fuel : nat) (src : Source) (repo dgst mediaType payload : string) (st : walk_state) :
    walked walk_state :=
  match fuel with
  | 0 => Spent
  | S fuel =>
      if bool_decide (dgst ∈ st.2) then Walked st
      else
        let st := (add_manifest (mkPlanned dgst (Z.of_nat (slen payload)) repo payload) st.1, {[dgst]} ∪ st.2) in
        match decode_doc payload with
        | None => WalkFailed (BadManifest dgst)
        | Some doc =>
            if isIndexMediaType mediaType
            then walk_index (plan_walk fuel src repo) src repo (md_manifests doc) st
            else Walked (list_blobs repo (md_config doc :: md_layers doc) st)
        end
  end.

(** The loop of [NewPlan]. *)
Fixpoint plan_refs (fuel : nat) (src : Source) (refs : list LayoutRef) (st : walk_state) : walked walk_state :=
  match refs with
  | [] => Walked st
  | r :: refs =>
      match s_RawManifest src (lr_Repo r) (lr_Tag r) with
      | Err SrcNotFound => plan_refs fuel src refs (add_missing (mkMissing r "" MissingTag) st.1, st.2)
      | Err (SrcFailed text) => WalkFailed (ReadFailed text)
      | Ok (payload, mediaType, d) =>
          if (maxManifestBytes <? Z.of_nat (slen payload))%Z then WalkFailed (OverLimit (Z.of_nat (slen payload)))
          else if negb (dg_ok d) then WalkFailed (BadDigest d)
          else
            let entry := mkDesc mediaType d (Z.of_nat (slen payload)) (ref_string r) in
            st ← plan_walk fuel src (lr_Repo r) d mediaType payload (add_entry_ref entry r st.1, st.2);
            plan_refs fuel src refs st
      end
  end.

Definition empty_plan : LayoutPlan := mkLayoutPlan [] [] [] [] [].

(** [NewPlan]. *)
Definition NewPlan (fuel : nat) (src : Source) (sel : list LayoutRef) : walked LayoutPlan :=
  st ← plan_refs fuel src sel (empty_plan, ∅); Walked st.1.
End plan.

(** * The projection *)

Definition newline : string := String "010" "".

(** [layoutMarkerBytes] and [marshalIndex]. *)
Definition layoutMarkerBytes : string :=
  "{" +:+ quoted "imageLayoutVersion" +:+ ":" +:+ quoted "1.0.0" +:+ "}" +:+ newline.
Definition marshalIndex `{LayoutLib} (ds : list ldesc) : string := encode_index ds +:+ newline.

Inductive Format := FormatDirectory | FormatTar.

#[export] Instance Format_eq_dec : EqDecision Format.
Proof. solve_decision. Defined.

(** [ParseFormat]. *)
Definition ParseFormat (s : string) : option Format :=
  if String.eqb s "" then Some FormatTar
  else if String.eqb s "tar" then Some FormatTar
  else if String.eqb s "directory" then Some FormatDirectory
  else None.

Definition tarHeaderSize : Z := 512.
Definition tarBlockSize : Z := 512.
Definition tarTrailerSize : Z := 1024.
Definition ustarMaxSize : Z := (Z.shiftl 1 33 - 1)%Z.

(** [roundUpBlock] and [tarEntrySize], on [int64]. *)
Definition roundUpBlock (size : Z) : Z :=
  let r := Z.rem size tarBlockSize in
  if (r =? 0)%Z then size else add64 (sub64 size r) tarBlockSize.

Definition tarEntrySize (size : Z) : Z :=
  let n := add64 tarHeaderSize (roundUpBlock size) in
  if (ustarMaxSize <? size)%Z then add64 n (tarHeaderSize + tarBlockSize) else n.

Record Projection := mkProjection {
  pj_Format : Format; pj_Manifests : Z; pj_Blobs : Z; pj_Files : Z;
  pj_ContentBytes : Z; pj_TotalBytes : Z; pj_LargestFileBytes : Z }.

Definition sum64 (l : list Z) (acc : Z) : Z := fold_left add64 l acc.
Definition planned_sizes (p : LayoutPlan) : list Z := pb_size <$> (lp_manifests p ++ lp_blobs p).

(** [Plan.Project]. *)
Definition Project `{LayoutLib} (p : LayoutPlan) (format : Format) : Projection :=
  let index := Z.of_nat (slen (marshalIndex (lp_Index p))) in
  let layout := Z.of_nat (slen layoutMarkerBytes) in
  let nm := Z.of_nat (length (lp_manifests p)) in
  let nb := Z.of_nat (length (lp_blobs p)) in
  let content := sum64 (planned_sizes p) 0 in
  let largest := fold_left Z.max (planned_sizes p) 0%Z in
  match format with
  | FormatTar =>
      let start := add64 (add64 (tarEntrySize layout) (tarEntrySize index)) (2 * tarHeaderSize) in
      let total := add64 (sum64 (tarEntrySize <$> planned_sizes p) start) tarTrailerSize in
      mkProjection format nm nb (2 + nm + nb) content total total
  | FormatDirectory =>
      mkProjection format nm nb (2 + nm + nb) content (add64 (add64 content index) layout) (Z.max largest index)
  end.
