(* ===== verification/OciLayout.v ===== *)
(** Writing an OCI image layout and reading one back (internal/ocilayout/
    export.go, read.go and import.go).  An export is written beside its
    destination and renamed into place, as a directory or as a tar; an import
    reads a layout anyone may have produced and restores it into the store. *)

From S2P Require Import Prelude GoStrings MediaPaths FilePaths OciPlan.

(** * Media *)

(** One node of a layout directory; a link gives the bytes it leads to, when it
    leads to a file. *)
Inductive dnode := DFile (data : string) | DSealed (size : Z) | DLink (target : option string) | DDir.

Inductive lt_type := LtReg | LtDir | LtSymlink | LtLink | LtXGlobal | LtOther.

(** One tar entry: its header, the bytes at its place, and whether reading them
    ends in an error. *)
Record lt_entry := mkLt { lt_flag : lt_type; lt_name : string; lt_size : Z; lt_data : string; lt_broken : bool }.

Record archive := mkArchive { ar_gzip : bool; ar_entries : list lt_entry; ar_whole : bool }.

(** A layout on a medium.  The files of a directory are indexed by their cleaned
    path relative to its root: [filepath.Join(root, p)] is the cleaned [p] below
    the root, or outside of it when the cleaned path starts with [..]. *)
Inductive medium := MDir (files : gmap string dnode) | MTar (a : archive).

(** * Reading *)

Inductive unsafe_reason :=
  | reasonAbsolutePath | reasonTraversal | reasonLink | reasonSpecial | reasonTooManyItems | reasonCompressed.

Inductive lay_error :=
  | NoInput | CannotOpen
  | NotLayout (why : string)
  | UnsafeEntry (entry : string) (reason : unsafe_reason)
  | LayNotFound (path : string)
  | LayIO
  | HashMismatch (path got : string)
  | Unparsable (d : string)
  | BlobNotCarried (d : string)
  | BlobTooLong (d : string)
  | StoreRefused
  | LandedAs (want got : string)
  | Canceled.

Record layoutReader := mkReader {
  l_marker : string → Z → res lay_error string;
  l_has : string → option bool;
  l_blob : string → option (res lay_error (string * Z));
  l_ignored : list string;
}.

Definition maxLayoutMarkerBytes : Z := Z.shiftl 4 10.
Definition maxLayoutEntries : Z := Z.shiftl 1 20.

(** [readBounded]: a longer stream is refused, not cut. *)
Definition readBounded (data : string) (broken : bool) (name : string) (limit : Z) : res lay_error string :=
  if (limit <? Z.of_nat (slen data))%Z then Err (NotLayout (name +:+ " is over the limit"))
  else if broken then Err LayIO
  else Ok data.

(** [dirReader]. *)
Definition dir_marker (files : gmap string dnode) (name : string) (limit : Z) : res lay_error string :=
  match files !! path_clean name with
  | None => Err (NotLayout (name +:+ " is missing"))
  | Some (DFile data) => readBounded data false name limit
  | Some (DLink (Some data)) => readBounded data false name limit
  | Some (DLink None) => Err (NotLayout (name +:+ " is missing"))
  | Some (DSealed _) | Some DDir => Err LayIO
  end.

Section reading.
Context `{LayoutLib}.

Definition dir_has (files : gmap string dnode) (d : string) : option bool :=
  p ← blobPath d;
  Some (match files !! path_clean p with Some (DFile _) | Some (DSealed _) => true | _ => false end).

Definition dir_blob (files : gmap string dnode) (d : string) : option (res lay_error (string * Z)) :=
  p ← blobPath d;
  Some (match files !! path_clean p with
        | None => Err (LayNotFound p)
        | Some (DFile data) => Ok (data, Z.of_nat (slen data))
        | Some (DSealed _) => Err LayIO
        | Some (DLink _) | Some DDir => Err (UnsafeEntry p reasonLink)
        end).

Definition dirReader (files : gmap string dnode) : layoutReader :=
  mkReader (dir_marker files) (dir_has files) (dir_blob files) [].

Inductive entryKind := entryIgnored | entryDirectory | entryMarker | entryBlob.

(** [blobDigestOf]. *)
Definition blobDigestOf (clean : string) : option string :=
  match split_byte "/" clean with
  | [b; alg; enc] =>
      if String.eqb b "blobs" && dg_ok (alg +:+ ":" +:+ enc) then Some (alg +:+ ":" +:+ enc) else None
  | _ => None
  end.

(** [classifyEntry]: refusals by type, then by name, then the shapes of a
    layout. *)
Definition classifyEntry (e : lt_entry) : res lay_error (string * entryKind) :=
  match lt_flag e with
  | LtSymlink | LtLink => Err (UnsafeEntry (lt_name e) reasonLink)
  | LtXGlobal => Ok ("", entryIgnored)
  | LtOther => Err (UnsafeEntry (lt_name e) reasonSpecial)
  | LtReg | LtDir =>
      let raw := lt_name e in
      if contains_byte raw backslash || has_prefix raw "/" then Err (UnsafeEntry raw reasonAbsolutePath)
      else
        let clean := path_clean (default raw (cut_prefix "./" raw)) in
        if String.eqb clean ".." || has_prefix clean "../" then Err (UnsafeEntry raw reasonTraversal)
        else match lt_flag e with
        | LtDir => Ok (clean, entryDirectory)
        | _ =>
            if String.eqb clean "oci-layout" || String.eqb clean "index.json" then Ok (clean, entryMarker)
            else match blobDigestOf clean with
                 | Some d => Ok (d, entryBlob)
                 | None => Ok (clean, entryIgnored)
                 end
        end
  end.

(** [tarReader]: what one scan of the archive records. *)
Record tarReader := mkTarReader {
  tr_blobs : gmap string (string * Z); tr_markers : gmap string string; tr_skipped : list string }.

Fixpoint scan_entries (es : list lt_entry) (whole : bool) (entries : Z) (t : tarReader) : res lay_error tarReader :=
  match es with
  | [] => if whole then Ok t else Err (NotLayout "the archive ends early")
  | e :: es =>
      if (maxLayoutEntries <? entries + 1)%Z then Err (UnsafeEntry (lt_name e) reasonTooManyItems)
      else
        '(name, kind) ← classifyEntry e;
        match kind with
        | entryIgnored =>
            scan_entries es whole (entries + 1) (mkTarReader (tr_blobs t) (tr_markers t) (tr_skipped t ++ [lt_name e]))
        | entryDirectory => scan_entries es whole (entries + 1) t
        | entryMarker =>
            raw ← readBounded (lt_data e) (lt_broken e) name maxManifestBytes;
            scan_entries es whole (entries + 1) (mkTarReader (tr_blobs t) (<[name := raw]> (tr_markers t)) (tr_skipped t))
        | entryBlob =>
            scan_entries es whole (entries + 1)
              (mkTarReader (<[name := (lt_data e, lt_size e)]> (tr_blobs t)) (tr_markers t) (tr_skipped t))
        end
  end.

Definition tar_scan (a : archive) : res lay_error tarReader :=
  if ar_gzip a then Err (UnsafeEntry "" reasonCompressed)
  else scan_entries (ar_entries a) (ar_whole a) 0 (mkTarReader ∅ ∅ []).

Definition tar_marker (t : tarReader) (name : string) (limit : Z) : res lay_error string :=
  match tr_markers t !! name with
  | None => Err (NotLayout (name +:+ " is missing"))
  | Some raw => if (limit <? Z.of_nat (slen raw))%Z then Err (NotLayout (name +:+ " is over the limit")) else Ok raw
  end.

Definition tar_blob (t : tarReader) (d : string) : option (res lay_error (string * Z)) :=
  match tr_blobs t !! d with
  | Some b => Some (Ok b)
  | None => p ← blobPath d; Some (Err (LayNotFound p))
  end.

Definition of_tarReader (t : tarReader) : layoutReader :=
  mkReader (tar_marker t) (λ d, Some (bool_decide (is_Some (tr_blobs t !! d)))) (tar_blob t) (tr_skipped t).

(** [openLayout], on what sits at the input path. *)
Definition openLayout (m : option medium) : res lay_error layoutReader :=
  match m with
  | None => Err CannotOpen
  | Some (MDir files) => Ok (dirReader files)
  | Some (MTar a) => t ← tar_scan a; Ok (of_tarReader t)
  end.
End reading.

(** * Importing *)

(** [Sink]: blobs and manifests by repository and digest, tags, and which of the
    next calls fail. *)
Record Sink := mkSink {
  k_blobs : gmap (string * string) string;
  k_manifests : gmap (string * string) (string * string);
  k_tags : gmap (string * string) string;
  k_faults : list bool;
}.

Record ImportEntry := mkImportEntry { ie_Ref : LayoutRef; ie_Digest : string; ie_Err : option lay_error }.

Record ImportReport := mkImportReport {
  ir_Entries : list ImportEntry; ir_Manifests : Z; ir_Blobs : Z; ir_Bytes : Z;
  ir_Missing : list Missing; ir_Ignored : list string }.

(** [ImportReport.Failed]. *)
Definition import_failed (r : ImportReport) : nat :=
  length (List.filter (λ e, bool_decide (is_Some (ie_Err e))) (ir_Entries r)).

(** A call returns, fails with an error, panics, or has spent its fuel. *)
Inductive imported (A : Type) := Ret (a : A) | Fail (e : lay_error) | Panics | OutOfFuel.
Arguments Ret {A} a.
Arguments Fail {A} e.
Arguments Panics {A}.
Arguments OutOfFuel {A}.

Record layoutImporter := mkImporter { im_seen : gset string; im_report : ImportReport; im_dst : Sink }.

Definition im (A : Type) : Type := layoutImporter → imported A * layoutImporter.

#[export] Instance im_ret : MRet im := λ A a s, (Ret a, s).
#[export] Instance im_bind : MBind im := λ A B f m s,
  match m s with
  | (Ret a, s) => f a s
  | (Fail e, s) => (Fail e, s)
  | (Panics, s) => (Panics, s)
  | (OutOfFuel, s) => (OutOfFuel, s)
  end.

Definition im_lift {A} (r : res lay_error A) : im A := λ s,
  (match r with Ok a => Ret a | Err e => Fail e end, s).
Definition im_unless_panic {A} (r : option A) : im A := λ s,
  (match r with Some a => Ret a | None => Panics end, s).
Definition im_modify (f : layoutImporter → layoutImporter) : im unit := λ s, (Ret tt, f s).

Definition on_report (f : ImportReport → ImportReport) (s : layoutImporter) : layoutImporter :=
  mkImporter (im_seen s) (f (im_report s)) (im_dst s).
Definition report_missing (m : Missing) (r : ImportReport) : ImportReport :=
  mkImportReport (ir_Entries r) (ir_Manifests r) (ir_Blobs r) (ir_Bytes r) (ir_Missing r ++ [m]) (ir_Ignored r).
Definition count_manifest (n : Z) (r : ImportReport) : ImportReport :=
  mkImportReport (ir_Entries r) (ir_Manifests r + 1) (ir_Blobs r) (add64 (ir_Bytes r) n) (ir_Missing r) (ir_Ignored r).
Definition count_blob (n : Z) (r : ImportReport) : ImportReport :=
  mkImportReport (ir_Entries r) (ir_Manifests r) (ir_Blobs r + 1) (add64 (ir_Bytes r) n) (ir_Missing r) (ir_Ignored r).
Definition report_entry (e : ImportEntry) (r : ImportReport) : ImportReport :=
  mkImportReport (ir_Entries r ++ [e]) (ir_Manifests r) (ir_Blobs r) (ir_Bytes r) (ir_Missing r) (ir_Ignored r).

Definition next_fault (k : Sink) : bool * Sink :=
  match k_faults k with
  | [] => (false, k)
  | f :: fs => (f, mkSink (k_blobs k) (k_manifests k) (k_tags k) fs)
  end.

Section importing.
Context `{LayoutLib}.

(** The store's [WriteBlob]: a blob already held is not read again, and the
    commit verifies the digest. *)
Definition sink_WriteBlob (repo d data : string) : im unit := λ s,
  match next_fault (im_dst s) with
  | (true, k) => (Fail StoreRefused, mkImporter (im_seen s) (im_report s) k)
  | (false, k) =>
      match k_blobs k !! (repo, d) with
      | Some _ => (Ret tt, mkImporter (im_seen s) (im_report s) k)
      | None =>
          match verifies d data with
          | Some true =>
              (Ret tt, mkImporter (im_seen s) (im_report s)
                (mkSink (<[(repo, d) := data]> (k_blobs k)) (k_manifests k) (k_tags k) (k_faults k)))
          | _ => (Fail StoreRefused, mkImporter (im_seen s) (im_report s) k)
          end
      end
  end.

(** The store's [PutManifest]: under its digest, and under the tag if any. *)
Definition sink_PutManifest (repo mediaType payload tag : string) : im string := λ s,
  match next_fault (im_dst s) with
  | (true, k) => (Fail StoreRefused, mkImporter (im_seen s) (im_report s) k)
  | (false, k) =>
      let d := FromBytes payload in
      (Ret d, mkImporter (im_seen s) (im_report s)
        (mkSink (k_blobs k) (<[(repo, d) := (mediaType, payload)]> (k_manifests k))
           (if String.eqb tag "" then k_tags k else <[(repo, tag) := d]> (k_tags k)) (k_faults k)))
  end.

(** [importer.readManifest]. *)
Definition im_readManifest (lay : layoutReader) (d : string) : im string :=
  r ← im_unless_panic (l_blob lay d);
  '(data, size) ← im_lift r;
  if (maxManifestBytes <? size)%Z then im_lift (Err (NotLayout "a manifest is over the limit"))
  else
    payload ← im_lift (readBounded data false (default "" (blobPath d)) maxManifestBytes);
    if String.eqb (FromBytes payload) d then mret payload
    else im_lift (Err (HashMismatch (default "" (blobPath d)) (FromBytes payload))).

(** [importer.blob]. *)
Definition im_blob (lay : layoutReader) (repo d : string) (size : Z) : im unit :=
  r ← im_unless_panic (l_blob lay d);
  match r with
  | Err (LayNotFound _) =>
      _ ← im_modify (on_report (report_missing (mkMissing (mkRef repo "") d MissingBlob)));
      im_lift (Err (BlobNotCarried d))
  | Err e => im_lift (Err e)
  | Ok (data, stored) =>
      if (size <? stored)%Z then im_lift (Err (BlobTooLong d))
      else
        _ ← sink_WriteBlob repo d (stake (Z.to_nat size) data);
        im_modify (on_report (count_blob size))
  end.

(** The config and the layers of a plain manifest. *)
Fixpoint im_blobs (lay : layoutReader) (repo : string) (descs : list ldesc) : im unit :=
  match descs with
  | [] => mret tt
  | d :: descs =>
      if String.eqb (ld_digest d) "" then im_blobs lay repo descs
      else _ ← im_blob lay repo (ld_digest d) (ld_size d); im_blobs lay repo descs
  end.

(** The children of an index that the layout carries. *)
Fixpoint im_children (rec : string → string → im unit) (lay : layoutReader) (repo : string)
    (children : list ldesc) : im unit :=
  match children with
  | [] => mret tt
  | c :: children =>
      has ← im_unless_panic (l_has lay (ld_digest c));
      if has : bool then
        _ ← rec (ld_digest c) (ld_mediaType c); im_children rec lay repo children
      else
        _ ← im_modify (on_report (report_missing (mkMissing (mkRef repo "") (ld_digest c) MissingPlatform)));
        im_children rec lay repo children
  end.

Definition import_key (repo d tag : string) : string := repo +:+ "@" +:+ d +:+ "#" +:+ tag.

(** The media type an entry is restored with. *)
Definition entry_media (mediaType : string) (doc : manifestDoc) : string :=
  if String.eqb mediaType "" then md_mediaType doc else mediaType.

(** [importer.manifest]: children first, then the manifest and its tag. *)
Fixpoint im_manifest (fuel : nat) (lay : layoutReader) (repo d mediaType tag : string) : im unit := λ s,
  match fuel with
  | 0 => (OutOfFuel, s)
  | S fuel =>
      if bool_decide (import_key repo d tag ∈ im_seen s) then (Ret tt, s)
      else
        (payload ← im_readManifest lay d;
         match decode_doc payload with
         | None => im_lift (Err (Unparsable d))
         | Some doc =>
             if String.eqb (entry_media mediaType doc) ""
             then im_lift (Err (NotLayout "a manifest declares no media type"))
             else
               _ ← (if isIndexMediaType (entry_media mediaType doc)
                    then im_children (λ d' mt, im_manifest fuel lay repo d' mt "") lay repo (md_manifests doc)
                    else im_blobs lay repo (md_config doc :: md_layers doc));
               landed ← sink_PutManifest repo (entry_media mediaType doc) payload tag;
               if negb (String.eqb landed d) then im_lift (Err (LandedAs d landed))
               else im_modify (on_report (count_manifest (Z.of_nat (slen payload))))
         end)
          (mkImporter ({[import_key repo d tag]} ∪ im_seen s) (im_report s) (im_dst s))
  end.

(** [validRef] and [refOf]. *)
Definition validRef (repo tag : string) : res lay_error LayoutRef :=
  if negb (ref_name_ok repo) then Err (NotLayout "not a valid repository name")
  else if negb (String.eqb tag "") && negb (ref_tag_ok tag) then Err (NotLayout "not a valid tag")
  else Ok (mkRef repo tag).

Definition split_ref (name : string) : string * string :=
  match last_index_byte ":" name, last_index_byte "/" name with
  | Some i, Some j => if (j <? i)%nat then (stake i name, sdrop (S i) name) else (name, "")
  | Some i, None => (stake i name, sdrop (S i) name)
  | None, _ => (name, "")
  end.

Definition refOf (desc : ldesc) (fallbackRepo : string) : res lay_error LayoutRef :=
  let name := ld_name desc in
  if String.eqb name "" then
    if String.eqb fallbackRepo "" then Err (NotLayout "no annotation and no repository") else validRef fallbackRepo ""
  else if negb (contains_byte name "/") then
    if String.eqb fallbackRepo "" then Err (NotLayout "a tag and not a repository") else validRef fallbackRepo name
  else let '(repo, tag) := split_ref name in validRef repo tag.

(** One turn of the loop of [Import]: an error is the entry's own. *)
Definition import_entry (fuel : nat) (lay : layoutReader) (fallback : string) (desc : ldesc) : im unit := λ s,
  match refOf desc fallback with
  | Err e => (Ret tt, on_report (report_entry (mkImportEntry (mkRef "" "") (ld_digest desc) (Some e))) s)
  | Ok ref =>
      match im_manifest fuel lay (lr_Repo ref) (ld_digest desc) (ld_mediaType desc) (lr_Tag ref) s with
      | (Ret _, s) => (Ret tt, on_report (report_entry (mkImportEntry ref (ld_digest desc) None)) s)
      | (Fail e, s) => (Ret tt, on_report (report_entry (mkImportEntry ref (ld_digest desc) (Some e))) s)
      | (Panics, s) => (Panics, s)
      | (OutOfFuel, s) => (OutOfFuel, s)
      end
  end.

(** [ctx] says, at each check, whether the context is done. *)
Fixpoint import_entries (fuel : nat) (lay : layoutReader) (fallback : string) (ctx : list bool)
    (descs : list ldesc) : im unit :=
  match descs with
  | [] => mret tt
  | desc :: descs =>
      if default false (head ctx) then im_lift (Err Canceled)
      else _ ← import_entry fuel lay fallback desc; import_entries fuel lay fallback (tail ctx) descs
  end.

(** [checkLayoutMarker]. *)
Definition checkLayoutMarker (lay : layoutReader) : res lay_error unit :=
  raw ← l_marker lay "oci-layout" maxLayoutMarkerBytes;
  match decode_marker raw with
  | None => Err (NotLayout "oci-layout is not valid JSON")
  | Some version =>
      let major := match cut_byte "." version with Some (a, _) => a | None => version end in
      if negb (String.eqb major "1") then Err (NotLayout "another layout version") else Ok tt
  end.

(** The index of an opened layout. *)
Definition layout_index (lay : layoutReader) : res lay_error (list ldesc) :=
  _ ← checkLayoutMarker lay;
  indexJSON ← l_marker lay "index.json" maxManifestBytes;
  match decode_index indexJSON with
  | None => Err (NotLayout "index.json is not valid JSON")
  | Some descs => Ok descs
  end.

Definition new_importer (lay : layoutReader) (k : Sink) : layoutImporter :=
  mkImporter ∅ (mkImportReport [] 0 0 0 [] (l_ignored lay)) k.

(** The number of files a layout can serve a manifest from. *)
Definition medium_size (m : medium) : nat :=
  match m with MDir files => size files | MTar a => length (ar_entries a) end.

(** [Import] of what sits at the input path; the recursion into indexes gets two more steps than the medium has
    files. *)
Definition Import (input : string) (m : option medium) (repository : string) (ctx : list bool) (k : Sink) :
    imported ImportReport * Sink :=
  if String.eqb input "" then (Fail NoInput, k)
  else match lay ← openLayout m; descs ← layout_index lay; Ok (lay, descs) with
  | Err e => (Fail e, k)
  | Ok (lay, descs) =>
      match import_entries (S (S (from_option medium_size 0 m))) lay repository ctx descs (new_importer lay k) with
      | (Ret _, s) => (Ret (im_report s), im_dst s)
      | (Fail e, s) => (Fail e, im_dst s)
      | (Panics, s) => (Panics, im_dst s)
      | (OutOfFuel, s) => (OutOfFuel, im_dst s)
      end
  end.
End importing.
