(* ===== verification/OciExport.v ===== *)
(** Writing an OCI image layout (internal/ocilayout/export.go): the planned files
    are streamed into a sibling of the destination, verified against their
    digests on the way, and renamed into place once complete. *)

From S2P Require Import Prelude GoStrings MediaPaths FilePaths OciPlan OciLayout.

(** A call of the file system goes through, fails, or is where the process dies; a
    removal may fail, or the process die, when only a part is gone ([keep] says of
    which names something is left). *)
Inductive xfault := XOk | XFail | XPart (keep : string → bool) | XCrash | XCrashPart (keep : string → bool).

(** The destination and its sibling [<output>.part], the faults of the next
    calls, and what the context says at its next checks. *)
Record Outlet := mkOutlet {
  ot_final : option medium; ot_staging : option medium; ot_faults : list xfault; ot_ctx : list bool }.

Inductive exp_error :=
  | NoOutput | UnknownFormat | TargetExists | ExportIO | ExportCanceled
  | SourceFailed (text : string)
  | ShortBlob (d : string) | WrongHash (d : string).

Inductive exported (A : Type) := Wrote (a : A) | Refused (e : exp_error) | ExportPanics | Died.
Arguments Wrote {A} a.
Arguments Refused {A} e.
Arguments ExportPanics {A}.
Arguments Died {A}.

Definition ex (A : Type) : Type := Outlet → exported A * Outlet.

#[export] Instance ex_ret : MRet ex := λ A a o, (Wrote a, o).
#[export] Instance ex_bind : MBind ex := λ A B f m o,
  match m o with
  | (Wrote a, o) => f a o
  | (Refused e, o) => (Refused e, o)
  | (ExportPanics, o) => (ExportPanics, o)
  | (Died, o) => (Died, o)
  end.

Definition ex_lift {A} (r : res exp_error A) : ex A := λ o,
  (match r with Ok a => Wrote a | Err e => Refused e end, o).

Definition next_xfault (o : Outlet) : xfault * Outlet :=
  match ot_faults o with
  | [] => (XOk, o)
  | f :: fs => (f, mkOutlet (ot_final o) (ot_staging o) fs (ot_ctx o))
  end.

(** A call whose effect is all or nothing. *)
Definition xcall (effect : Outlet → Outlet) : ex unit := λ o,
  match next_xfault o with
  | (XOk, o) => (Wrote tt, effect o)
  | (XCrash, o) | (XCrashPart _, o) => (Died, o)
  | (XFail, o) | (XPart _, o) => (Refused ExportIO, o)
  end.

Definition set_staging (m : option medium) (o : Outlet) : Outlet :=
  mkOutlet (ot_final o) m (ot_faults o) (ot_ctx o).
Definition set_final (m : option medium) (o : Outlet) : Outlet :=
  mkOutlet m (ot_staging o) (ot_faults o) (ot_ctx o).

(** What a removal that stops half-way leaves: some of the files of a directory; an
    archive is one file. *)
Definition left_over (keep : string → bool) (m : medium) : option medium :=
  match m with
  | MDir files => Some (MDir (filter (λ f, keep f.1 = true) files))
  | MTar a => if keep "" then Some (MTar a) else None
  end.

(** [os.RemoveAll] of the sibling, and of the destination. *)
Definition remove_all (get : Outlet → option medium) (set : option medium → Outlet → Outlet) : ex unit := λ o,
  match next_xfault o with
  | (XOk, o) => (Wrote tt, set None o)
  | (XFail, o) => (Refused ExportIO, o)
  | (XPart keep, o) => (Refused ExportIO, set (get o ≫= left_over keep) o)
  | (XCrash, o) => (Died, o)
  | (XCrashPart keep, o) => (Died, set (get o ≫= left_over keep) o)
  end.

(** [ctx.Err()]. *)
Definition check_ctx : ex unit := λ o,
  let o' := mkOutlet (ot_final o) (ot_staging o) (ot_faults o) (tail (ot_ctx o)) in
  if default false (head (ot_ctx o)) then (Refused ExportCanceled, o') else (Wrote tt, o').

Section writing.
Context `{LayoutLib}.

(** The bytes [copyVerified] lets through, and its verdict. *)
Definition copyVerified (stream : string * bool) (d : string) (size : Z) : option (string * res exp_error unit) :=
  ok ← verifies d (stake (Z.to_nat size) stream.1);
  let read := stake (Z.to_nat size) stream.1 in
  Some (read,
    if negb stream.2 && (Z.of_nat (slen stream.1) <? size)%Z then Err ExportIO
    else if negb (Z.of_nat (slen read) =? size)%Z then Err (ShortBlob d)
    else if negb ok then Err (WrongHash d)
    else Ok tt).

(** [newDirWriter] and [newTarWriter]; the tar starts with its two directories. *)
Definition dir_header (name : string) : lt_entry := mkLt LtDir name 0 "" false.
Definition newLayoutWriter (format : Format) : ex unit :=
  xcall (set_staging (Some (match format with
    | FormatDirectory => MDir ∅
    | FormatTar => MTar (mkArchive false [dir_header "blobs/"; dir_header "blobs/sha256/"] false)
    end))).

(** One file more in the layout being written. *)
Definition put_file (name : string) (size : Z) (data : string) (m : medium) : medium :=
  match m with
  | MDir files => MDir (<[path_clean name := DFile data]> files)
  | MTar a => MTar (mkArchive (ar_gzip a) (ar_entries a ++ [mkLt LtReg name size data false]) (ar_whole a))
  end.

Definition on_staging (f : medium → medium) (o : Outlet) : Outlet := set_staging (f <$> ot_staging o) o.

(** [layoutWriter.file]. *)
Definition writer_file (name data : string) : ex unit :=
  xcall (on_staging (put_file name (Z.of_nat (slen data)) data)).

(** [layoutWriter.blob]: what was copied is in the file, whatever the verdict. *)
Definition writer_blob (d : string) (size : Z) (stream : string * bool) : ex unit := λ o,
  match blobPath d with
  | None => (ExportPanics, o)
  | Some rel =>
      match copyVerified stream d size with
      | None => (ExportPanics, o)
      | Some (read, verdict) =>
          (_ ← xcall (on_staging (put_file rel size read)); ex_lift verdict) o
      end
  end.

(** [layoutWriter.close]: the end of the archive. *)
Definition close_medium (m : medium) : medium :=
  match m with
  | MDir files => MDir files
  | MTar a => MTar (mkArchive (ar_gzip a) (ar_entries a) true)
  end.
Definition writer_close (format : Format) : ex unit :=
  match format with FormatDirectory => mret tt | FormatTar => xcall (on_staging close_medium) end.

Record ExportReport := mkExportReport {
  er_Refs : Z; er_Manifests : Z; er_Blobs : Z; er_Bytes : Z; er_LargestFileBytes : Z; er_Missing : list Missing }.

Definition count_file (n : Z) (r : ExportReport) : ExportReport :=
  mkExportReport (er_Refs r) (er_Manifests r) (er_Blobs r) (add64 (er_Bytes r) n)
    (Z.max (er_LargestFileBytes r) n) (er_Missing r).
Definition one_manifest (r : ExportReport) : ExportReport :=
  mkExportReport (er_Refs r) (er_Manifests r + 1) (er_Blobs r) (er_Bytes r) (er_LargestFileBytes r) (er_Missing r).
Definition one_blob (r : ExportReport) : ExportReport :=
  mkExportReport (er_Refs r) (er_Manifests r) (er_Blobs r + 1) (er_Bytes r) (er_LargestFileBytes r) (er_Missing r).
Definition one_missing (m : Missing) (r : ExportReport) : ExportReport :=
  mkExportReport (er_Refs r) (er_Manifests r) (er_Blobs r) (er_Bytes r) (er_LargestFileBytes r) (er_Missing r ++ [m]).

(** The loops of [writeInto] over the manifests and over the blobs. *)
Fixpoint write_manifests (bs : list plannedBlob) (r : ExportReport) : ex ExportReport :=
  match bs with
  | [] => mret r
  | b :: bs =>
      _ ← check_ctx;
      _ ← writer_blob (pb_digest b) (pb_size b) (pb_payload b, true);
      write_manifests bs (count_file (pb_size b) (one_manifest r))
  end.

Fixpoint write_blobs (src : Source) (bs : list plannedBlob) (r : ExportReport) : ex ExportReport :=
  match bs with
  | [] => mret r
  | b :: bs =>
      _ ← check_ctx;
      match s_BlobReader src (pb_repo b) (pb_digest b) with
      | Err SrcNotFound =>
          write_blobs src bs (one_missing (mkMissing (mkRef (pb_repo b) "") (pb_digest b) MissingBlob) r)
      | Err (SrcFailed text) => ex_lift (Err (SourceFailed text))
      | Ok stream =>
          _ ← writer_blob (pb_digest b) (pb_size b) stream;
          write_blobs src bs (count_file (pb_size b) (one_blob r))
      end
  end.

(** [writeInto]. *)
Definition writeInto (src : Source) (p : LayoutPlan) : ex ExportReport :=
  let r := mkExportReport (Z.of_nat (length (lp_Refs p))) 0 0 0 0 (lp_Missing p) in
  let index := marshalIndex (lp_Index p) in
  _ ← writer_file "oci-layout" layoutMarkerBytes;
  _ ← writer_file "index.json" index;
  r ← write_manifests (lp_manifests p)
        (count_file (Z.of_nat (slen index)) (count_file (Z.of_nat (slen layoutMarkerBytes)) r));
  write_blobs src (lp_blobs p) r.

(** [writeInto], then [close] whatever happened; the first error stands. *)
Definition write_layout (format : Format) (src : Source) (p : LayoutPlan) : ex ExportReport := λ o,
  match writeInto src p o with
  | (Wrote r, o) => (_ ← writer_close format; mret r) o
  | (Refused e, o) =>
      match writer_close format o with (Died, o) => (Died, o) | (_, o) => (Refused e, o) end
  | r => r
  end.

(** An error after which the sibling is removed, if it can be. *)
Definition or_discard {A} (m : ex A) : ex A := λ o,
  match m o with
  | (Refused e, o) =>
      match remove_all ot_staging set_staging o with (Died, o) => (Died, o) | (_, o) => (Refused e, o) end
  | r => r
  end.

(** [os.Lstat] of the destination. *)
Definition inspect_target (overwrite : bool) : ex unit := λ o,
  match next_xfault o with
  | (XOk, o) =>
      match ot_final o with
      | Some _ => if overwrite then (Wrote tt, o) else (Refused TargetExists, o)
      | None => (Wrote tt, o)
      end
  | (XCrash, o) | (XCrashPart _, o) => (Died, o)
  | (XFail, o) | (XPart _, o) => (Refused ExportIO, o)
  end.

Definition rename_into_place (o : Outlet) : Outlet :=
  mkOutlet (ot_staging o) None (ot_faults o) (ot_ctx o).

(** [Write]. *)
Definition LayoutWrite (src : Source) (p : LayoutPlan) (output format : string) (overwrite : bool) : ex ExportReport :=
  if String.eqb output "" then ex_lift (Err NoOutput)
  else match ParseFormat format with
  | None => ex_lift (Err UnknownFormat)
  | Some format =>
      _ ← inspect_target overwrite;
      _ ← remove_all ot_staging set_staging;
      _ ← xcall id;
      _ ← newLayoutWriter format;
      r ← or_discard (write_layout format src p);
      _ ← or_discard (if overwrite then remove_all ot_final set_final else mret tt);
      _ ← or_discard (xcall rename_into_place);
      mret r
  end.
End writing.
