(* ===== verification/OciImport.v ===== *)
(** What an import restores: content that hashes to its digest whatever the
    medium held, a layout whole when no entry failed, and always an answer. *)

From S2P Require Import Prelude GoStrings MediaPaths FilePaths OciPlan OciLayout.

(** The bind of [im], by what its first part does. *)
Lemma bind_Ret {A B} (m : im A) (f : A → im B) s a s' : m s = (Ret a, s') → (m ≫= f) s = f a s'.
Proof. unfold mbind, im_bind. by intros ->. Qed.
Lemma bind_Fail {A B} (m : im A) (f : A → im B) s e s' : m s = (Fail e, s') → (m ≫= f) s = (Fail e, s').
Proof. unfold mbind, im_bind. by intros ->. Qed.
Lemma bind_Panics {A B} (m : im A) (f : A → im B) s s' : m s = (Panics, s') → (m ≫= f) s = (Panics, s').
Proof. unfold mbind, im_bind. by intros ->. Qed.
Lemma bind_inv {A B} (m : im A) (f : A → im B) s b s' : (m ≫= f) s = (Ret b, s') →
  ∃ a s1, m s = (Ret a, s1) ∧ f a s1 = (Ret b, s').
Proof. unfold mbind, im_bind. destruct (m s) as [[a|e| |] s1]; [eauto|done..]. Qed.

Section safety.
Context `{LayoutLib}.

(** * How an import moves

    Every step of an import stays in a preorder that the writes to the store, the
    report and the marks of the [seen] map stay in. *)

(** What a manifest reports leaves the entries of the report alone. *)
Definition quiet (f : ImportReport → ImportReport) : Prop := ∀ r, ir_Entries (f r) = ir_Entries r.
Lemma quiet_missing m : quiet (report_missing m).
Proof. done. Qed.
Lemma quiet_manifest n : quiet (count_manifest n).
Proof. done. Qed.
Lemma quiet_blob n : quiet (count_blob n).
Proof. done. Qed.
#[local] Hint Resolve quiet_missing quiet_manifest quiet_blob : go.

Section moving.
Context (R : layoutImporter → layoutImporter → Prop) `{!PreOrder R}.
Hypothesis R_report : ∀ f s, quiet f → R s (on_report f s).

Definition moves {A} (m : im A) : Prop := ∀ s, R s (m s).2.

Lemma moves_im_bind {A B} (m : im A) (f : A → im B) : moves m → (∀ a, moves (f a)) → moves (m ≫= f).
Proof.
  intros Hm Hf s. specialize (Hm s). unfold mbind, im_bind.
  destruct (m s) as [[a|e| |] s']; cbn in *; [|done..]. etrans; [done|]. apply Hf.
Qed.
Lemma moves_ret {A} (a : A) : moves (mret a).
Proof. by intros s. Qed.
Lemma moves_lift {A} (r : res lay_error A) : moves (im_lift r).
Proof. by intros s. Qed.
Lemma moves_panic {A} (r : option A) : moves (im_unless_panic r).
Proof. by intros s. Qed.
Lemma moves_report f : quiet f → moves (im_modify (on_report f)).
Proof. intros Hf s. by apply R_report. Qed.

#[local] Hint Resolve moves_ret moves_lift moves_panic moves_report : go.

(** The two calls that write, and a mark. *)
Definition writes_move (repo : string) : Prop :=
  (∀ d data, moves (sink_WriteBlob repo d data)) ∧
  (∀ mt payload tag, moves (sink_PutManifest repo mt payload tag)).
Definition mark_moves (repo d tag : string) : Prop :=
  ∀ s, R s (mkImporter ({[import_key repo d tag]} ∪ im_seen s) (im_report s) (im_dst s)).

Lemma moves_readManifest lay d : moves (im_readManifest lay d).
Proof.
  unfold im_readManifest. apply moves_im_bind; [auto with go|]. intros r.
  apply moves_im_bind; [auto with go|]. intros [data size]. case_match; [auto with go|].
  apply moves_im_bind; [auto with go|]. intros payload. case_match; auto with go.
Qed.

Lemma moves_blobs lay repo descs : writes_move repo → moves (im_blobs lay repo descs).
Proof.
  intros [Hb _]. induction descs as [|d descs IH]; cbn; [auto with go|]. case_match; [done|].
  apply moves_im_bind; [|done]. unfold im_blob. apply moves_im_bind; [auto with go|]. intros [[data stored]|e].
  - case_match; [auto with go|]. apply moves_im_bind; auto with go.
  - destruct e; auto with go. apply moves_im_bind; auto with go.
Qed.

Lemma moves_children rec lay repo children : (∀ d mt, moves (rec d mt)) → moves (im_children rec lay repo children).
Proof.
  intros Hrec. induction children as [|c children IH]; cbn; [auto with go|].
  apply moves_im_bind; [auto with go|]. intros []; apply moves_im_bind; auto with go.
Qed.

Lemma moves_manifest fuel lay repo d mt tag : writes_move repo → (∀ d, mark_moves repo d "") → mark_moves repo d tag →
  moves (im_manifest fuel lay repo d mt tag).
Proof.
  intros HR Hnest. revert d mt tag. induction fuel as [|fuel IH]; intros d mt tag Htop s; cbn [im_manifest]; [done|].
  case_match; [done|]. etrans; [apply Htop|].
  match goal with |- R ?s (?m ?s).2 => enough (moves m) as Hm by apply Hm end.
  apply moves_im_bind; [apply moves_readManifest|]. intros payload.
  destruct (decode_doc payload) as [doc|]; [|auto with go]. case_match; [auto with go|].
  apply moves_im_bind; [case_match; [apply moves_children; auto|by apply moves_blobs]|]. intros _.
  apply moves_im_bind; [apply HR|]. intros landed. case_match; auto with go.
Qed.
End moving.

Lemma validRef_Ok repo tag r : validRef repo tag = Ok r →
  r = mkRef repo tag ∧ ref_name_ok repo = true ∧ (tag = "" ∨ ref_tag_ok tag = true).
Proof.
  unfold validRef. destruct (ref_name_ok repo); [|done]. cbn.
  destruct (String.eqb_spec tag ""), (ref_tag_ok tag); cbn; intros [= <-]; auto.
Qed.

Definition good_ref (r : LayoutRef) : Prop :=
  ref_name_ok (lr_Repo r) = true ∧ (lr_Tag r = "" ∨ ref_tag_ok (lr_Tag r) = true).

Lemma refOf_good desc fallback r : refOf desc fallback = Ok r → good_ref r.
Proof.
  unfold refOf. intros Hr. repeat case_match; simplify_eq; apply validRef_Ok in Hr as (-> & ? & ?); by split.
Qed.

Lemma moves_entries R `{!PreOrder R} fuel lay fallback ctx descs :
  (∀ f s, R s (on_report f s)) →
  (∀ desc r, desc ∈ descs → refOf desc fallback = Ok r → writes_move R (lr_Repo r) ∧
     (∀ d, mark_moves R (lr_Repo r) d "") ∧ mark_moves R (lr_Repo r) (ld_digest desc) (lr_Tag r)) →
  moves R (import_entries fuel lay fallback ctx descs).
Proof.
  intros Hrep. assert (∀ f s, quiet f → R s (on_report f s)) as Hq by auto.
  revert ctx. induction descs as [|desc descs IH]; intros ctx HR; cbn; [apply (moves_ret R)|].
  case_match; [apply (moves_lift R)|]. apply (moves_im_bind R); [|intros _; apply IH; intros; eapply HR; [by right|done]].
  intros s. unfold import_entry. destruct (refOf desc fallback) as [r|] eqn:Hr; [|apply Hrep].
  destruct (HR desc r) as (H1 & H2 & H3); [by left|done|].
  pose proof (moves_manifest R Hq fuel lay (lr_Repo r) (ld_digest desc) (ld_mediaType desc) (lr_Tag r) H1 H2 H3 s) as Hm.
  destruct (im_manifest _ _ _ _ _ _ s) as [[] s']; cbn in *; (etrans; [exact Hm|]); try apply Hrep; done.
Qed.

(** * What lands *)

(** Every blob and every manifest hashes to the digest it is kept under. *)
Definition sink_ok (k : Sink) : Prop :=
  (∀ repo d data, k_blobs k !! (repo, d) = Some data → verifies d data = Some true) ∧
  (∀ repo d mt payload, k_manifests k !! (repo, d) = Some (mt, payload) → FromBytes payload = d).

(** Nothing held before is lost, and what is new sits in repositories with valid
    names. *)
Definition only_adds (k k' : Sink) : Prop :=
  k_blobs k ⊆ k_blobs k' ∧
  (∀ repo d, is_Some (k_manifests k !! (repo, d)) → is_Some (k_manifests k' !! (repo, d))) ∧
  (∀ repo d, is_Some (k_blobs k' !! (repo, d)) → is_Some (k_blobs k !! (repo, d)) ∨ ref_name_ok repo = true) ∧
  (∀ repo d, is_Some (k_manifests k' !! (repo, d)) → is_Some (k_manifests k !! (repo, d)) ∨ ref_name_ok repo = true) ∧
  (∀ repo tag, k_tags k' !! (repo, tag) = k_tags k !! (repo, tag) ∨ ref_name_ok repo = true).

Lemma next_fault_same k f k' : next_fault k = (f, k') →
  k_blobs k' = k_blobs k ∧ k_manifests k' = k_manifests k ∧ k_tags k' = k_tags k.
Proof. unfold next_fault. destruct (k_faults k); intros [= <- <-]; done. Qed.

Definition kept_ok (k0 : Sink) (s s' : layoutImporter) : Prop :=
  sink_ok (im_dst s) ∧ only_adds k0 (im_dst s) → sink_ok (im_dst s') ∧ only_adds k0 (im_dst s').
#[local] Instance kept_ok_preorder k0 : PreOrder (kept_ok k0).
Proof. split; [intros s; exact id|]. intros s1 s2 s3 H12 H23 ?. by apply H23, H12. Qed.

Lemma writes_verified k0 repo : ref_name_ok repo = true → writes_move (kept_ok k0) repo.
Proof.
  intros Hn. split.
  - intros d data s [[Hb Hm] (A1 & A2 & A3 & A4 & A5)]. unfold sink_WriteBlob.
    destruct (next_fault (im_dst s)) as [f k] eqn:Hf. apply next_fault_same in Hf as (E1 & E2 & E3).
    destruct f; cbn; [unfold sink_ok, only_adds; rewrite E1, E2, E3; done|].
    destruct (k_blobs k !! (repo, d)) eqn:Hl; cbn; [unfold sink_ok, only_adds; rewrite E1, E2, E3; done|].
    destruct (verifies d data) as [[]|] eqn:Hv; cbn; try (unfold sink_ok, only_adds; rewrite E1, E2, E3; done).
    unfold sink_ok, only_adds; cbn. rewrite E1, E2, E3 in *. split_and!; try done.
    + intros r d' data' [[[= <- <-] <-]|[_ ?]]%lookup_insert_Some; [done|by eapply Hb].
    + etrans; [done|]. by apply insert_subseteq.
    + intros r d' [x [[[= <- <-] <-]|[_ Hx]]%lookup_insert_Some]; [by right|]. apply A3. by exists x.
  - intros mt payload tag s [[Hb Hm] (A1 & A2 & A3 & A4 & A5)]. unfold sink_PutManifest.
    destruct (next_fault (im_dst s)) as [f k] eqn:Hf. apply next_fault_same in Hf as (E1 & E2 & E3).
    destruct f; cbn; [unfold sink_ok, only_adds; rewrite E1, E2, E3; done|].
    unfold sink_ok, only_adds; cbn. rewrite E1, E2, E3 in *. split_and!; try done.
    + intros r d mt' p [[[= <- <-] [= <- <-]]|[_ ?]]%lookup_insert_Some; [done|by eapply Hm].
    + intros r d Hd. apply lookup_insert_is_Some'. right. by apply A2.
    + intros r d [x [[[= <- <-] <-]|[_ Hx]]%lookup_insert_Some]; [by right|]. apply A4. by exists x.
    + intros r t. case_match; [done|]. destruct (decide ((repo, tag) = (r, t))) as [[= <- <-]|Hne]; [by right|].
      rewrite lookup_insert_ne by done. apply A5.
Qed.

Lemma only_adds_refl k : only_adds k k.
Proof. split_and!; eauto. Qed.

(** An imported layout is data, not authority.  Whatever a medium holds and
    whatever fails, the store keeps everything it held, every blob and manifest in
    it still hashes to its own digest, and content was only added to repositories
    with valid names. *)
Theorem import_verified input m repository ctx k r k'
    (Hok : sink_ok k) (Himport : Import input m repository ctx k = (r, k')) :
  sink_ok k' ∧ only_adds k k'.
Proof.
  unfold Import in Himport. case_match; [simplify_eq; auto using only_adds_refl|].
  destruct (_ ≫= _) as [[lay descs]|]; [|simplify_eq; auto using only_adds_refl].
  assert (moves (kept_ok k) (import_entries (S (S (from_option medium_size 0 m))) lay repository ctx descs)) as Hk.
  { apply (moves_entries (kept_ok k)); [intros f s; exact id|]. intros desc r' _ Hr%refOf_good.
    split; [apply writes_verified, Hr|]. split; [intros d s|intros s]; exact id. }
  specialize (Hk (new_importer lay k)).
  destruct (import_entries _ _ _ _ _ _) as [[] s]; simplify_eq; apply Hk; cbn; auto using only_adds_refl.
Qed.
End safety.

(** * Termination *)

Section termination.
Context `{LayoutLib}.

(** From any state that has seen [B], the computation does not run out of fuel
    and has still seen what it had. *)
Definition calm {A} (B : gset string) (m : im A) : Prop :=
  ∀ s, B ⊆ im_seen s → (m s).1 ≠ OutOfFuel ∧ im_seen s ⊆ im_seen (m s).2.

Lemma calm_bind {A C} B (m : im A) (f : A → im C) : calm B m → (∀ a, calm B (f a)) → calm B (m ≫= f).
Proof.
  intros Hm Hf s Hs. destruct (Hm s Hs) as [Hr Hseen]. unfold mbind, im_bind.
  destruct (m s) as [[a|e| |] s'] eqn:E; cbn in *; [|done..].
  destruct (Hf a s') as [Hr' Hseen']; [set_solver|]. split; [done|set_solver].
Qed.

Lemma calm_ret {A} B (a : A) : calm B (mret a).
Proof. by intros s. Qed.
Lemma calm_lift {A} B (r : res lay_error A) : calm B (im_lift r).
Proof. intros s _. by destruct r. Qed.
Lemma calm_panic {A} B (r : option A) : calm B (im_unless_panic r).
Proof. intros s _. by destruct r. Qed.
Lemma calm_report B f : calm B (im_modify (on_report f)).
Proof. by intros s. Qed.
Lemma calm_WriteBlob B repo d data : calm B (sink_WriteBlob repo d data).
Proof.
  intros s _. unfold sink_WriteBlob. destruct (next_fault _) as [[] k]; [done|].
  destruct (k_blobs k !! _); [done|]. by destruct (verifies d data) as [[]|].
Qed.
Lemma calm_PutManifest B repo mt payload tag : calm B (sink_PutManifest repo mt payload tag).
Proof. intros s _. unfold sink_PutManifest. by destruct (next_fault _) as [[] k]. Qed.

Create HintDb calm.
#[local] Hint Resolve calm_ret calm_lift calm_panic calm_report calm_WriteBlob calm_PutManifest : calm.

Lemma calm_blobs B lay repo descs : calm B (im_blobs lay repo descs).
Proof.
  induction descs as [|d descs IH]; cbn; [auto with calm|]. case_match; [done|]. apply calm_bind; [|done].
  unfold im_blob. apply calm_bind; [auto with calm|]. intros [[data stored]|e].
  - case_match; [auto with calm|]. apply calm_bind; auto with calm.
  - destruct e; auto with calm. apply calm_bind; auto with calm.
Qed.

Lemma calm_children B rec lay repo children :
  (∀ d mt, calm B (rec d mt)) → calm B (im_children rec lay repo children).
Proof.
  intros Hrec. induction children as [|c children IH]; cbn; [auto with calm|].
  apply calm_bind; [auto with calm|]. intros []; apply calm_bind; auto with calm.
Qed.

(** What reading a manifest gives. *)
Lemma readManifest_cases lay d s :
  (∃ payload size, im_readManifest lay d s = (Ret payload, s) ∧ l_blob lay d = Some (Ok (payload, size)) ∧
     FromBytes payload = d ∧ (Z.of_nat (slen payload) ≤ maxManifestBytes)%Z) ∨
  (∃ e, im_readManifest lay d s = (Fail e, s)) ∨ im_readManifest lay d s = (Panics, s).
Proof.
  unfold im_readManifest, mbind, im_bind, im_unless_panic, im_lift. cbn.
  destruct (l_blob lay d) as [[[data size]|e]|]; cbn; [|eauto..].
  destruct (maxManifestBytes <? size)%Z; [eauto|]. unfold readBounded.
  destruct (Z.ltb_spec maxManifestBytes (Z.of_nat (slen data))); cbn; [eauto|].
  destruct (String.eqb_spec (FromBytes data) d); cbn; [|eauto]. left. by exists data, size.
Qed.

Variables (lay : layoutReader) (L : list string).
Hypothesis Hlay : ∀ d data size, l_blob lay d = Some (Ok (data, size)) → data ∈ L.

(** The digests a manifest of the layout can have and that were not met yet in a
    repository. *)
Definition unmet (repo : string) (seen : gset string) : gset string :=
  filter (λ d, import_key repo d "" ∉ seen) (list_to_set (FromBytes <$> L)).

Lemma unmet_mono repo B B' : B ⊆ B' → size (unmet repo B') ≤ size (unmet repo B).
Proof.
  intros Hs. apply subseteq_size. intros d [Hn Hd]%elem_of_filter. apply elem_of_filter. split; [|done].
  intros Hin. apply Hn. by apply Hs.
Qed.

Lemma unmet_key repo B d : d ∈ (list_to_set (FromBytes <$> L) : gset string) → import_key repo d "" ∉ B →
  size (unmet repo ({[import_key repo d ""]} ∪ B)) < size (unmet repo B).
Proof.
  intros Hd Hk. apply subset_size. split.
  { intros x [Hn Hx]%elem_of_filter. apply elem_of_filter. split; [|done]. set_solver. }
  intros Hsub. assert (d ∈ unmet repo B) as Hin by (apply elem_of_filter; done).
  apply Hsub, elem_of_filter in Hin as [Hn _]. set_solver.
Qed.

Lemma unmet_bound repo B : size (unmet repo B) ≤ length L.
Proof.
  etrans; [apply subseteq_size; unfold unmet; intros x [_ Hx]%elem_of_filter; exact Hx|].
  rewrite <-(length_fmap FromBytes L). generalize (FromBytes <$> L). intros l.
  induction l as [|x l IH]; cbn; [by rewrite size_empty|].
  rewrite size_union_alt, size_singleton. apply le_n_S. etrans; [|exact IH]. apply subseteq_size. set_solver.
Qed.

(** The body of [im_manifest], given what its recursive calls do. *)
Lemma calm_body fuel repo d mt tag s :
  (d ∈ (list_to_set (FromBytes <$> L) : gset string) → import_key repo d tag ∉ im_seen s →
   ∀ d' mt', calm ({[import_key repo d tag]} ∪ im_seen s) (im_manifest fuel lay repo d' mt' "")) →
  (im_manifest (S fuel) lay repo d mt tag s).1 ≠ OutOfFuel ∧
  im_seen s ⊆ im_seen (im_manifest (S fuel) lay repo d mt tag s).2.
Proof.
  intros Hrec. cbn [im_manifest]. case_bool_decide as Hk; [done|].
  set (s1 := mkImporter _ _ _).
  destruct (readManifest_cases lay d s1) as [(payload & size & E & Hb & Hd & _)|[[e E]|E]];
    [|rewrite (bind_Fail _ _ _ _ _ E); split; [done|apply union_subseteq_r]
     |rewrite (bind_Panics _ _ _ _ E); split; [done|apply union_subseteq_r]].
  rewrite (bind_Ret _ _ _ _ _ E).
  assert (d ∈ (list_to_set (FromBytes <$> L) : gset string)) as HD.
  { rewrite elem_of_list_to_set, <-Hd. apply list_elem_of_fmap_2. by eapply Hlay. }
  specialize (Hrec HD Hk).
  match goal with |- (?m s1).1 ≠ _ ∧ _ => enough (calm (im_seen s1) m) as Hm end.
  { destruct (Hm s1) as [? Hs]; [done|]. split; [done|]. etrans; [apply union_subseteq_r|exact Hs]. }
  destruct (decode_doc payload) as [doc|]; [|auto with calm]. case_match; [auto with calm|].
  apply calm_bind; [case_match; [by apply calm_children|apply calm_blobs]|]. intros _.
  apply calm_bind; [auto with calm|]. intros landed. case_match; auto with calm.
Qed.

Lemma calm_manifest fuel repo B : size (unmet repo B) < fuel →
  ∀ d mt, calm B (im_manifest fuel lay repo d mt "").
Proof.
  revert B. induction fuel as [|fuel IH]; intros B Hf d mt s Hs; [lia|].
  apply calm_body. intros Hd Hk. apply IH.
  pose proof (unmet_key repo (im_seen s) d Hd Hk). pose proof (unmet_mono repo _ _ Hs). lia.
Qed.

Lemma calm_top fuel repo d mt tag : length L < fuel → calm ∅ (im_manifest (S fuel) lay repo d mt tag).
Proof.
  intros Hf s _. apply calm_body. intros _ _. apply calm_manifest.
  pose proof (unmet_bound repo ({[import_key repo d tag]} ∪ im_seen s)). lia.
Qed.

Lemma calm_entries fuel fallback ctx descs : length L < fuel →
  calm ∅ (import_entries (S fuel) lay fallback ctx descs).
Proof.
  intros Hf. revert ctx. induction descs as [|desc descs IH]; intros ctx; cbn [import_entries]; [auto with calm|].
  case_match; [auto with calm|]. apply calm_bind; [|done]. intros s Hs. unfold import_entry.
  destruct (refOf desc fallback) as [r|]; [|done].
  destruct (calm_top fuel (lr_Repo r) (ld_digest desc) (ld_mediaType desc) (lr_Tag r) Hf s Hs) as [Hr Hseen].
  destruct (im_manifest _ _ _ _ _ _ s) as [[] s']; done.
Qed.
End termination.

(** What an opened layout can give is on its medium. *)
Lemma scan_blobs `{LayoutLib} es whole n t t' d b : scan_entries es whole n t = Ok t' → tr_blobs t' !! d = Some b →
  tr_blobs t !! d = Some b ∨ b.1 ∈ lt_data <$> es.
Proof.
  revert n t. induction es as [|e es IH]; intros n t Hs Hb; cbn in Hs.
  { destruct whole; [|done]. simplify_eq. by left. }
  case_match; [done|]. destruct (classifyEntry e) as [[name kind]|]; [|done]. cbn in Hs.
  destruct kind; cbn in Hs; inv_ok; (destruct (IH _ _ Hs Hb) as [Hl|?]; [|right; by right]); cbn in Hl; [by left..|].
  apply lookup_insert_Some in Hl as [[_ <-]|[_ ?]]; [right; by left|by left].
Qed.

Lemma opened_contents `{LayoutLib} m lay : openLayout (Some m) = Ok lay →
  ∃ L, length L ≤ medium_size m ∧ ∀ d data size, l_blob lay d = Some (Ok (data, size)) → data ∈ L.
Proof.
  destruct m as [files|a]; cbn.
  - intros [= <-]. exists (omap (λ n, match n with DFile data => Some data | _ => None end) (map_to_list files).*2).
    split.
    + rewrite <-(length_map_to_list files), <-(length_fmap snd (map_to_list files)).
      generalize ((map_to_list files).*2). intros l. induction l as [|[] l IH]; cbn; lia.
    + intros d data size. unfold l_blob, dirReader, dir_blob. destruct (blobPath d) as [p|]; [|done]. cbn.
      destruct (files !! path_clean p) as [[]|] eqn:E; intros [= <- <-].
      apply list_elem_of_omap. exists (DFile data0). split; [|done]. apply list_elem_of_fmap.
      exists (path_clean p, DFile data0). by rewrite elem_of_map_to_list.
  - intros (t & Ht & [= <-])%res_bind_Ok. exists (lt_data <$> ar_entries a). rewrite length_fmap. split; [done|].
    intros d data size. unfold l_blob, of_tarReader, tar_blob, tar_scan in *. case_match; [done|].
    destruct (tr_blobs t !! d) as [b|] eqn:E.
    + intros [= ->]. by destruct (scan_blobs _ _ _ _ _ _ _ Ht E) as [?|?].
    + by destruct (blobPath d).
Qed.

(** C40: An import always comes to an end, cycles between the indexes of a hostile
    layout included: the recursion never needs more steps than the medium has
    files, and two. *)
Theorem import_total `{LayoutLib} input m repository ctx k : (Import input m repository ctx k).1 ≠ OutOfFuel.
Proof.
  unfold Import. case_match; [done|]. destruct (_ ≫= _) as [[lay descs]|] eqn:Hopen; [|done].
  apply res_bind_Ok in Hopen as (lay' & Hopen & (descs' & _ & [= -> ->])%res_bind_Ok).
  destruct m as [m|]; [|done]. destruct (opened_contents m lay) as (L & HL & Hb); [done|].
  assert (calm ∅ (import_entries (S (S (medium_size m))) lay repository ctx descs)) as Hc
    by (eapply calm_entries; [exact Hb|lia]).
  destruct (Hc (new_importer lay k)) as [Hr _]; [set_solver|]. cbn [from_option].
  by destruct (import_entries _ _ _ _ _ _) as [[] s].
Qed.

(** * Whole layouts *)

Lemma last_cut_unique c a1 b1 a2 b2 : ¬ in_str c b1 → ¬ in_str c b2 →
  a1 +:+ String c b1 = a2 +:+ String c b2 → a1 = a2 ∧ b1 = b2.
Proof.
  intros Hb1 Hb2. revert a2. induction a1 as [|x a1 IH]; intros [|y a2] E; cbn in E.
  - by injection E.
  - injection E as -> ->. destruct Hb1. apply in_str_app. right. by left.
  - injection E as -> <-. destruct Hb2. apply in_str_app. right. by left.
  - injection E as -> E. destruct (IH _ E) as [-> ->]. done.
Qed.

Section whole.
Context `{LayoutLib} (lay : layoutReader).

Lemma good_plain repo tag : good_ref (mkRef repo tag) → ¬ in_str "@" repo ∧ ¬ in_str "#" tag.
Proof.
  intros [Hn Ht]. cbn in *. split; [by apply ref_name_plain|]. destruct Ht as [->|Ht]; [cbn; tauto|].
  by apply ref_tag_plain in Ht as (_ & _ & ?).
Qed.

Lemma import_key_inj repo d tag repo' d' tag' :
  good_ref (mkRef repo tag) → good_ref (mkRef repo' tag') →
  import_key repo d tag = import_key repo' d' tag' → repo = repo' ∧ d = d' ∧ tag = tag'.
Proof.
  intros [H1 H2]%good_plain [H3 H4]%good_plain E. unfold import_key in E.
  change ("@" +:+ d +:+ "#" +:+ tag) with (String "@" (d +:+ "#" +:+ tag)) in E.
  change ("@" +:+ d' +:+ "#" +:+ tag') with (String "@" (d' +:+ "#" +:+ tag')) in E.
  apply cut_unique in E as [-> E]; [|done..].
  apply (last_cut_unique "#" d tag d' tag') in E as [-> ->]; done.
Qed.

(** A manifest is held with what it names: the blobs of a plain manifest, and of
    an index every child the layout carries is in [P]. *)
Definition node_ok (k : Sink) (repo : string) (P : string → Prop) (d : string) : Prop :=
  ∃ mt payload doc, k_manifests k !! (repo, d) = Some (mt, payload) ∧ FromBytes payload = d ∧
    decode_doc payload = Some doc ∧
    if isIndexMediaType mt
    then ∀ c, c ∈ md_manifests doc → l_has lay (ld_digest c) = Some true → P (ld_digest c)
    else ∀ b, b ∈ md_config doc :: md_layers doc → ld_digest b ≠ "" → is_Some (k_blobs k !! (repo, ld_digest b)).

(** Restored whole: the manifest and, below it, everything the layout carries. *)
Definition restored (k : Sink) (repo d : string) : Prop :=
  ∃ P : string → Prop, P d ∧ ∀ x, P x → node_ok k repo P x.

(** Whatever was met and is not under way is held. *)
Definition met_held (pend : list (string * string * string)) (s : layoutImporter) : Prop :=
  ∀ repo d tag, good_ref (mkRef repo tag) → import_key repo d tag ∈ im_seen s →
    (repo, d, tag) ∈ pend ∨ node_ok (im_dst s) repo (λ c, import_key repo c "" ∈ im_seen s) d.

Lemma met_held_report pend f s : met_held pend s → met_held pend (on_report f s).
Proof. done. Qed.

Lemma node_ok_mono k k' repo (P P' : string → Prop) d : k_manifests k' !! (repo, d) = k_manifests k !! (repo, d) →
  k_blobs k ⊆ k_blobs k' → (∀ x, P x → P' x) → node_ok k repo P d → node_ok k' repo P' d.
Proof.
  intros Hm Hb HP (mt & payload & doc & E & Hd & Hdoc & Hc). exists mt, payload, doc. rewrite Hm. split_and!; try done.
  destruct (isIndexMediaType mt); [eauto|]. intros b Hin Hne. destruct (Hc b Hin Hne) as [x Hx].
  exists x. by eapply lookup_weaken.
Qed.

(** Writing the blobs of a manifest. *)
Lemma blob_lands repo d size s s' : im_blob lay repo d size s = (Ret tt, s') →
  im_seen s' = im_seen s ∧ k_manifests (im_dst s') = k_manifests (im_dst s) ∧ k_tags (im_dst s') = k_tags (im_dst s) ∧
  k_blobs (im_dst s) ⊆ k_blobs (im_dst s') ∧ is_Some (k_blobs (im_dst s') !! (repo, d)).
Proof.
  unfold im_blob. intros (r & s1 & Hr & Hk)%bind_inv. destruct (l_blob lay d) as [r'|]; [|done].
  injection Hr as -> <-. destruct r as [[data stored]|e]; [|by destruct e]. case_match; [done|].
  apply bind_inv in Hk as (u & s2 & Hw & [= <-]). unfold sink_WriteBlob in Hw.
  destruct (next_fault (im_dst s)) as [f k] eqn:Hf. apply next_fault_same in Hf as (E1 & E2 & E3).
  destruct f; [done|]. destruct (k_blobs k !! (repo, d)) eqn:Hl.
  - simplify_eq/=. rewrite E1, E2, E3 in *. eauto.
  - destruct (verifies _ _) as [[]|]; simplify_eq/=. rewrite E1, E2, E3 in *. split_and!; try done.
    + by apply insert_subseteq.
    + rewrite lookup_insert_eq. eauto.
Qed.

Lemma blobs_land repo descs s s' : im_blobs lay repo descs s = (Ret tt, s') →
  im_seen s' = im_seen s ∧ k_manifests (im_dst s') = k_manifests (im_dst s) ∧ k_tags (im_dst s') = k_tags (im_dst s) ∧
  k_blobs (im_dst s) ⊆ k_blobs (im_dst s') ∧
  ∀ b, b ∈ descs → ld_digest b ≠ "" → is_Some (k_blobs (im_dst s') !! (repo, ld_digest b)).
Proof.
  revert s. induction descs as [|b descs IH]; intros s Hs; cbn in Hs.
  { injection Hs as <-. split_and!; try done. by intros b ?%elem_of_nil. }
  destruct (String.eqb_spec (ld_digest b) "") as [He|He].
  { destruct (IH _ Hs) as (A & B & C & D & E). split_and!; try done.
    intros b' [->|Hb]%elem_of_cons Hne; [done|by apply E]. }
  apply bind_inv in Hs as ([] & s1 & H1 & H2).
  destruct (blob_lands _ _ _ _ _ H1) as (A1 & B1 & C1 & D1 & E1).
  destruct (IH _ H2) as (A & B & C & D & E). split_and!; [congruence..|by etrans|].
  intros b' [->|Hb]%elem_of_cons Hne; [|by apply E]. destruct E1 as [x Hx]. exists x. by eapply lookup_weaken.
Qed.

Lemma met_held_blobs pend s s' : met_held pend s → im_seen s' = im_seen s →
  k_manifests (im_dst s') = k_manifests (im_dst s) → k_blobs (im_dst s) ⊆ k_blobs (im_dst s') → met_held pend s'.
Proof.
  intros Hm Hseen Hman Hb repo d tag Hg Hk. rewrite Hseen in Hk. destruct (Hm repo d tag Hg Hk) as [?|Hn]; [by left|].
  right. eapply node_ok_mono; [by rewrite Hman|done| |done]. intros x. by rewrite Hseen.
Qed.

(** The children of an index, given what restoring one of them does. *)
Definition lands (repo : string) (m : im unit) (pend : list (string * string * string)) (done_key : string) : Prop :=
  ∀ s s', met_held pend s → m s = (Ret tt, s') →
    met_held pend s' ∧ done_key ∈ im_seen s' ∧ im_seen s ⊆ im_seen s' ∧ k_tags (im_dst s') = k_tags (im_dst s).

Lemma children_land rec repo children pend s s' :
  (∀ d mt, lands repo (rec d mt) pend (import_key repo d "")) →
  met_held pend s → im_children rec lay repo children s = (Ret tt, s') →
  met_held pend s' ∧ im_seen s ⊆ im_seen s' ∧ k_tags (im_dst s') = k_tags (im_dst s) ∧
  ∀ c, c ∈ children → l_has lay (ld_digest c) = Some true → import_key repo (ld_digest c) "" ∈ im_seen s'.
Proof.
  intros Hrec. revert s. induction children as [|c children IH]; intros s Hm Hs; cbn in Hs.
  { injection Hs as <-. split_and!; try done. by intros c ?%elem_of_nil. }
  apply bind_inv in Hs as (has & s1 & H1 & H2). destruct (l_has lay (ld_digest c)) as [h|] eqn:Hh; [|done].
  injection H1 as -> <-. destruct has.
  - apply bind_inv in H2 as ([] & s2 & H2 & H3). destruct (Hrec _ _ _ _ Hm H2) as (A & B & C & D).
    destruct (IH _ A H3) as (A' & B' & C' & D'). split_and!; [done|by etrans|congruence|].
    intros c' [->|Hc]%elem_of_cons Hx; [by apply B'|by apply D'].
  - apply bind_inv in H2 as ([] & s2 & [= <-] & H3).
    destruct (IH _ (met_held_report _ _ _ Hm) H3) as (A' & B' & C' & D'). split_and!; try done.
    intros c' [->|Hc]%elem_of_cons Hx; [congruence|by apply D'].
Qed.

(** The manifest itself, once what it names is there. *)
Lemma put_lands repo d mt payload tag pend doc s s' :
  good_ref (mkRef repo tag) → FromBytes payload = d → decode_doc payload = Some doc →
  met_held ((repo, d, tag) :: pend) s →
  (if isIndexMediaType mt
   then ∀ c, c ∈ md_manifests doc → l_has lay (ld_digest c) = Some true → import_key repo (ld_digest c) "" ∈ im_seen s
   else ∀ b, b ∈ md_config doc :: md_layers doc → ld_digest b ≠ "" → is_Some (k_blobs (im_dst s) !! (repo, ld_digest b))) →
  sink_PutManifest repo mt payload tag s = (Ret d, s') →
  met_held pend s' ∧ im_seen s' = im_seen s ∧
  k_tags (im_dst s') = if String.eqb tag "" then k_tags (im_dst s) else <[(repo, tag) := d]> (k_tags (im_dst s)).
Proof.
  intros Hg Hd Hdoc Hm Hc. unfold sink_PutManifest. destruct (next_fault (im_dst s)) as [f k] eqn:Hf.
  apply next_fault_same in Hf as (E1 & E2 & E3). destruct f; [done|]. rewrite Hd. intros [= <-]. cbn.
  rewrite E3. split_and!; [|done..]. set (k' := mkSink _ _ _ _).
  assert (node_ok k' repo (λ c, import_key repo c "" ∈ im_seen s) d) as Hnode.
  { exists mt, payload, doc. cbn. rewrite lookup_insert_eq, E1. done. }
  intros repo' d' tag' Hg' Hk'. cbn in Hk'. destruct (Hm _ _ _ Hg' Hk') as [[[= -> -> ->]|?]%elem_of_cons|Hn];
    [by right|by left|]. right. cbn.
  destruct (decide ((repo, d) = (repo', d'))) as [[= -> ->]|Hne]; [done|].
  eapply node_ok_mono; [| | |exact Hn]; cbn; [by rewrite lookup_insert_ne, E2 by done|by rewrite E1|done].
Qed.

Lemma manifest_lands fuel repo d mt tag pend s s' :
  good_ref (mkRef repo tag) → met_held pend s → im_manifest fuel lay repo d mt tag s = (Ret tt, s') →
  met_held pend s' ∧ import_key repo d tag ∈ im_seen s' ∧ im_seen s ⊆ im_seen s' ∧
  k_tags (im_dst s') =
    (if bool_decide (import_key repo d tag ∈ im_seen s) then k_tags (im_dst s)
     else if String.eqb tag "" then k_tags (im_dst s) else <[(repo, tag) := d]> (k_tags (im_dst s))).
Proof.
  revert d mt tag pend s s'. induction fuel as [|fuel IH]; intros d mt tag pend s s' Hg Hm Hs; [done|].
  cbn [im_manifest] in Hs. case_bool_decide as Hk; [injection Hs as <-; done|].
  apply bind_inv in Hs as (payload & s0 & Hread & Hs). set (s1 := mkImporter _ _ _) in Hread.
  destruct (readManifest_cases lay d s1) as [(p & size & E & Hb & Hd & _)|[[e E]|E]]; rewrite E in Hread; [|done..].
  injection Hread as <- <-. destruct (decode_doc p) as [doc|] eqn:Hdoc; [|done].
  case_match; [done|]. apply bind_inv in Hs as ([] & s2 & H2 & Hs). apply bind_inv in Hs as (landed & s3 & H3 & Hs).
  destruct (String.eqb_spec landed d) as [->|]; [|done]. cbn in Hs. injection Hs as <-.
  assert (met_held ((repo, d, tag) :: pend) s1) as Hm1.
  { intros repo' d' tag' Hg' [Hin|Hin]%elem_of_union.
    - apply elem_of_singleton in Hin. apply import_key_inj in Hin as (-> & -> & ->); [|done..]. left. by left.
    - destruct (Hm _ _ _ Hg' Hin) as [?|Hn]; [left; by right|]. right.
      eapply node_ok_mono; [done|done| |done]. intros x Hx. cbn. set_solver. }
  assert (met_held ((repo, d, tag) :: pend) s2 ∧ im_seen s1 ⊆ im_seen s2 ∧ k_tags (im_dst s2) = k_tags (im_dst s1) ∧
    if isIndexMediaType (entry_media mt doc)
    then ∀ c, c ∈ md_manifests doc → l_has lay (ld_digest c) = Some true → import_key repo (ld_digest c) "" ∈ im_seen s2
    else ∀ b, b ∈ md_config doc :: md_layers doc → ld_digest b ≠ "" → is_Some (k_blobs (im_dst s2) !! (repo, ld_digest b)))
    as (Hm2 & Hseen2 & Htags2 & Hc2).
  { destruct (isIndexMediaType (entry_media mt doc)).
    - eapply children_land; [|exact Hm1|exact H2]. intros d' mt' s4 s5 Hm4 H4.
      destruct (IH d' mt' "" _ _ _ (conj (proj1 Hg) (or_introl eq_refl)) Hm4 H4) as (A & B & C & D).
      split_and!; try done. rewrite D. by case_bool_decide.
    - destruct (blobs_land _ _ _ _ H2) as (A & B & C & D & E'). split_and!; [|by rewrite A|done|done].
      by eapply met_held_blobs. }
  destruct (put_lands _ _ _ _ _ _ doc _ _ Hg Hd Hdoc Hm2 Hc2 H3) as (Hm3 & Hseen3 & Htags3).
  cbn. rewrite Hseen3, Htags3, Htags2. split_and!; [done| | |done].
  - apply Hseen2. cbn. set_solver.
  - etrans; [|exact Hseen2]. apply union_subseteq_r.
Qed.
End whole.

Section landing.
Context `{LayoutLib} (lay : layoutReader) (fallback : string).

(** Restoring a manifest marks it, and its descendants without a tag. *)
Lemma manifest_marks fuel repo d mt tag s x : x ∈ im_seen (im_manifest fuel lay repo d mt tag s).2 →
  x ∈ im_seen s ∨ x = import_key repo d tag ∨ ∃ d', x = import_key repo d' "".
Proof.
  set (Q := λ x, x = import_key repo d tag ∨ ∃ d', x = import_key repo d' "").
  set (R := λ s s', ∀ x, x ∈ im_seen s' → x ∈ im_seen s ∨ Q x).
  assert (PreOrder R) as HR by (split; [by left|intros s1 s2 s3 H12 H23 y Hy; destruct (H23 _ Hy); auto]).
  intros Hx. revert x Hx. change (R s (im_manifest fuel lay repo d mt tag s).2). apply (moves_manifest R); try by left.
  - split.
    + intros d' data s'. unfold sink_WriteBlob. destruct (next_fault _) as [[] k]; [by left|].
      destruct (k_blobs k !! _); [by left|]. destruct (verifies d' data) as [[]|]; by left.
    + intros mt' p t s'. unfold sink_PutManifest. destruct (next_fault _) as [[] k]; by left.
  - intros d' s' y [->%elem_of_singleton|?]%elem_of_union; [right; right; eauto|by left].
  - intros s' y [->%elem_of_singleton|?]%elem_of_union; [right; by left|by left].
Qed.

Lemma manifest_entries fuel repo d mt tag s :
  ir_Entries (im_report (im_manifest fuel lay repo d mt tag s).2) = ir_Entries (im_report s).
Proof.
  set (R := λ s s', ir_Entries (im_report s') = ir_Entries (im_report s)).
  assert (PreOrder R) as HR by (split; [done|intros s1 s2 s3 H12 H23; unfold R in *; congruence]).
  apply (moves_manifest R); try done.
  - intros f s' Hf. apply Hf.
  - split.
    + intros d' data s'. unfold sink_WriteBlob. destruct (next_fault _) as [[] k]; [done|].
      destruct (k_blobs k !! _); [done|]. by destruct (verifies d' data) as [[]|].
    + intros mt' p t s'. unfold sink_PutManifest. by destruct (next_fault _) as [[] k].
Qed.

Variable index : list ldesc.

(** The digests an entry of the index gives a name. *)
Definition named (ref : LayoutRef) (d : string) : Prop :=
  ∃ desc, desc ∈ index ∧ refOf desc fallback = Ok ref ∧ ld_digest desc = d.

Hypothesis names_once : ∀ ref d d', lr_Tag ref ≠ "" → named ref d → named ref d' → d = d'.

(** Every tag met comes from the index and points where it says. *)
Definition tags_held (s : layoutImporter) : Prop :=
  ∀ repo d tag, good_ref (mkRef repo tag) → tag ≠ "" → import_key repo d tag ∈ im_seen s →
    named (mkRef repo tag) d ∧ k_tags (im_dst s) !! (repo, tag) = Some d.

Lemma tags_held_step fuel desc ref s s' : desc ∈ index → refOf desc fallback = Ok ref →
  met_held lay [] s → tags_held s →
  im_manifest fuel lay (lr_Repo ref) (ld_digest desc) (ld_mediaType desc) (lr_Tag ref) s = (Ret tt, s') →
  tags_held s'.
Proof.
  intros Hin Hr Hm Ht Hs. pose proof (refOf_good _ _ _ Hr) as Hg. destruct ref as [repo0 tag0]. cbn in *.
  set (d0 := ld_digest desc) in *. assert (named (mkRef repo0 tag0) d0) as Hn0 by (by exists desc).
  destruct (manifest_lands lay _ _ _ _ _ _ _ _ Hg Hm Hs) as (_ & _ & _ & Htags).
  intros repo d tag Hgr Hne Hk.
  assert (import_key repo d tag ∈ im_seen s ∨ (repo, d, tag) = (repo0, d0, tag0)) as Hcase.
  { pose proof (manifest_marks fuel repo0 d0 (ld_mediaType desc) tag0 s (import_key repo d tag)) as Hx.
    rewrite Hs in Hx. destruct (Hx Hk) as [?|[E|[d' E]]]; [by left| |].
    - apply import_key_inj in E as (-> & -> & ->); [by right|done..].
    - apply import_key_inj in E as (_ & _ & ->); [done|done|]. split; [apply Hg|by left]. }
  assert (named (mkRef repo tag) d) as Hn.
  { destruct Hcase as [Hc|[= -> -> ->]]; [by apply (Ht _ _ _ Hgr Hne Hc)|done]. }
  split; [done|]. rewrite Htags. destruct (decide ((repo, tag) = (repo0, tag0))) as [[= -> ->]|Hneq].
  - assert (d = d0) as -> by (by apply (names_once (mkRef repo0 tag0))). case_bool_decide as Hseen; [by apply (Ht _ _ _ Hgr Hne Hseen)|].
    rewrite (proj2 (String.eqb_neq _ _)) by done. by rewrite lookup_insert_eq.
  - destruct Hcase as [Hc|[= -> -> ->]]; [|done]. destruct (Ht _ _ _ Hgr Hne Hc) as [_ E].
    case_bool_decide; [done|]. case_match; [done|]. by rewrite lookup_insert_ne by congruence.
Qed.

Lemma entries_land fuel ctx descs s s' :
  (∀ desc, desc ∈ descs → desc ∈ index) →
  import_entries fuel lay fallback ctx descs s = (Ret tt, s') →
  ∃ es, ir_Entries (im_report s') = ir_Entries (im_report s) ++ es ∧
    (met_held lay [] s → tags_held s → Forall (λ e, ie_Err e = None) es →
     met_held lay [] s' ∧ tags_held s' ∧ im_seen s ⊆ im_seen s' ∧
     Forall2 (λ desc e, ∃ ref, refOf desc fallback = Ok ref ∧ e = mkImportEntry ref (ld_digest desc) None ∧
       import_key (lr_Repo ref) (ld_digest desc) (lr_Tag ref) ∈ im_seen s') descs es).
Proof.
  revert ctx s. induction descs as [|desc descs IH]; intros ctx s Hsub Hs; cbn in Hs.
  { injection Hs as <-. exists []. rewrite app_nil_r. by split. }
  destruct (default false (head ctx)); [done|]. apply bind_inv in Hs as ([] & s1 & H1 & H2).
  destruct (IH (tail ctx) s1 (λ x Hx, Hsub x (list_elem_of_further _ _ _ Hx)) H2) as (es & He & Hall).
  unfold import_entry in H1. destruct (refOf desc fallback) as [ref|e] eqn:Hr.
  2:{ injection H1 as <-. cbn in He. rewrite <-app_assoc in He. eexists (_ :: es). split; [exact He|].
      intros _ _ [Hx _]%Forall_cons. done. }
  pose proof (manifest_entries fuel (lr_Repo ref) (ld_digest desc) (ld_mediaType desc) (lr_Tag ref) s) as Hent.
  destruct (im_manifest _ _ _ _ _ _ s) as [[[]|e| |] s2] eqn:Hman; try discriminate H1;
    injection H1 as <-; cbn in He, Hent; rewrite <-app_assoc, Hent in He; eexists (_ :: es); (split; [exact He|]);
    intros Hm Ht [Herr Hes]%Forall_cons; [|done].
  assert (good_ref (mkRef (lr_Repo ref) (lr_Tag ref))) as Hg by apply (refOf_good _ _ _ Hr).
  destruct (manifest_lands lay _ _ _ _ _ _ _ _ Hg Hm Hman) as (Hm2 & Hkey & Hsub2 & _).
  assert (tags_held s2) as Ht2 by (eapply tags_held_step; [|exact Hr|exact Hm|exact Ht|exact Hman]; apply Hsub; by left).
  destruct (Hall Hm2 Ht2 Hes) as (A & B & C & D). split_and!; [done|done|by etrans|].
  constructor; [|done]. exists ref. split_and!; [done|done|]. by apply C.
Qed.
End landing.

Lemma failed_none r : import_failed r = 0 → Forall (λ e, ie_Err e = None) (ir_Entries r).
Proof.
  unfold import_failed. intros Hf. apply Forall_forall. intros e He. destruct (ie_Err e) eqn:Ee; [|done].
  apply length_zero_iff_nil in Hf. assert (e ∈ List.filter (λ e, bool_decide (is_Some (ie_Err e))) (ir_Entries r)) as Hin.
  { apply list_elem_of_In, filter_In. rewrite <-list_elem_of_In. split; [done|]. rewrite Ee. by apply bool_decide_eq_true. }
  rewrite Hf in Hin. by apply elem_of_nil in Hin.
Qed.

(** An import in which no entry failed restored the layout whole: each entry of
    the index is reported with its reference and its digest, its manifest is held
    with every blob it names and, for an index, with every child the layout
    carries, and its tag, when no other entry claims the same tag for another
    digest, points at it. *)
Lemma import_lands_whole `{LayoutLib} input m repository ctx k r k' lay index
    (Hopen : openLayout m = Ok lay) (Hindex : layout_index lay = Ok index)
    (Hnames : ∀ ref d d', lr_Tag ref ≠ "" → named repository index ref d → named repository index ref d' → d = d')
    (Himport : Import input m repository ctx k = (Ret r, k')) (Hfailed : import_failed r = 0) :
  Forall2 (λ desc e, ∃ ref, refOf desc repository = Ok ref ∧ e = mkImportEntry ref (ld_digest desc) None ∧
    restored lay k' (lr_Repo ref) (ld_digest desc) ∧
    (lr_Tag ref ≠ "" → k_tags k' !! (lr_Repo ref, lr_Tag ref) = Some (ld_digest desc))) index (ir_Entries r).
Proof.
  unfold Import in Himport. case_match; [done|]. rewrite Hopen in Himport. cbn in Himport. rewrite Hindex in Himport.
  cbn in Himport. destruct (import_entries _ _ _ _ _ _) as [[[]|e| |] s] eqn:Hs; [|done..]. injection Himport as <- <-.
  destruct (entries_land lay repository index Hnames _ _ _ _ _ (λ _ H, H) Hs) as (es & He & Hall). cbn in He. subst es.
  destruct Hall as (Hm & Ht & _ & Hall); [intros ? ? ? _ ?; set_solver|intros ? ? ? _ _ ?; set_solver|by apply failed_none|].
  eapply Forall2_impl; [exact Hall|]. cbn. intros desc e (ref & Hr & -> & Hk). exists ref.
  pose proof (refOf_good _ _ _ Hr) as Hg. assert (good_ref (mkRef (lr_Repo ref) (lr_Tag ref))) as Hg' by done.
  split_and!; [done|done| |].
  - exists (λ d, ∃ tag, good_ref (mkRef (lr_Repo ref) tag) ∧ import_key (lr_Repo ref) d tag ∈ im_seen s).
    split; [by exists (lr_Tag ref)|]. intros x (tag & Hgx & Hx). destruct (Hm _ _ _ Hgx Hx) as [?%elem_of_nil|Hn]; [done|].
    eapply node_ok_mono; [done|done| |exact Hn]. intros c Hc. exists "". split; [|done]. split; [apply Hg|by left].
  - intros Hne. by apply (Ht _ _ _ Hg' Hne).
Qed.

(** C35: An import that reports no failed entry restored each of them under its own digest.
    Take a store whose content hashes to its digests and a medium that opens as a layout
    with an index in which no tag is claimed for two digests. When the import returns and
    no entry failed, each entry of the index is reported with its reference and its digest,
    and the store holds under exactly that digest a document that hashes to it, with every
    blob it names and, for an index, every child the layout carries, restored likewise;
    the entry's tag points at it. So a document on the medium that does not hash to its
    descriptor's digest cannot pass for restored. Nothing the store held is lost, all its
    content still hashes to its digests, and only repositories with valid names changed. *)
Theorem import_restores `{LayoutLib} input m repository ctx k r k' lay index
    (Hok : sink_ok k) (Hopen : openLayout m = Ok lay) (Hindex : layout_index lay = Ok index)
    (Hnames : ∀ ref d d', lr_Tag ref ≠ "" → named repository index ref d → named repository index ref d' → d = d')
    (Himport : Import input m repository ctx k = (Ret r, k')) (Hfailed : import_failed r = 0) :
  sink_ok k' ∧ only_adds k k' ∧
  Forall2 (λ desc e, ∃ ref, refOf desc repository = Ok ref ∧ e = mkImportEntry ref (ld_digest desc) None ∧
    restored lay k' (lr_Repo ref) (ld_digest desc) ∧
    (lr_Tag ref ≠ "" → k_tags k' !! (lr_Repo ref, lr_Tag ref) = Some (ld_digest desc))) index (ir_Entries r).
Proof.
  destruct (import_verified _ _ _ _ _ _ _ Hok Himport) as [? ?]. split_and!; [done..|]. by eapply import_lands_whole.
Qed.
