(* ===== verification/OciRoundtrip.v ===== *)
(** Out and back: what a plan lists, what an export of it writes, and that
    importing the result restores every selected reference, at identical digests
    and byte for byte. *)

From S2P Require Import Prelude GoStrings MediaPaths FilePaths OciPlan OciLayout OciExport OciImport.

(** * What a plan lists *)

Section planned.
Context `{LayoutLib} (src : Source).

Definition digests (l : list plannedBlob) : list string := pb_digest <$> l.

(** A manifest of the source, closed under the walk: what it names was met, or
    something is reported missing. *)
Definition listed_manifest (seen : gset string) (missing : list Missing) (b : plannedBlob) : Prop :=
  ∃ ref mt doc, s_RawManifest src (pb_repo b) ref = Ok (pb_payload b, mt, pb_digest b) ∧
    pb_size b = Z.of_nat (slen (pb_payload b)) ∧ (pb_size b ≤ maxManifestBytes)%Z ∧ dg_ok (pb_digest b) = true ∧
    decode_doc (pb_payload b) = Some doc ∧
    if isIndexMediaType mt
    then ∀ c, c ∈ md_manifests doc → missing ≠ [] ∨
      ∃ p' mt' d', s_RawManifest src (pb_repo b) (ld_digest c) = Ok (p', mt', d') ∧ d' ∈ seen
    else ∀ c, c ∈ md_config doc :: md_layers doc → ld_digest c ≠ "" → ld_digest c ∈ seen.

(** A blob some plain manifest of the source names. *)
Definition listed_blob (b : plannedBlob) : Prop :=
  ∃ repo ref p mt d doc c, s_RawManifest src repo ref = Ok (p, mt, d) ∧ decode_doc p = Some doc ∧
    isIndexMediaType mt = false ∧ c ∈ md_config doc :: md_layers doc ∧ ld_digest c ≠ "" ∧
    pb_digest b = ld_digest c ∧ pb_size b = ld_size c.

Lemma listed_manifest_mono seen seen' missing more b :
  seen ⊆ seen' → listed_manifest seen missing b → listed_manifest seen' (missing ++ more) b.
Proof.
  intros Hs (ref & mt & doc & H1 & H2 & H3 & H4 & H5 & Hc). exists ref, mt, doc. split_and!; try done.
  destruct (isIndexMediaType mt).
  - intros c Hin. destruct (Hc c Hin) as [Hm|(p' & mt' & d' & Hr & Hd)]; [left; by destruct missing|].
    right. exists p', mt', d'. split; [done|by apply Hs].
  - intros c Hin Hne. by apply Hs, Hc.
Qed.

(** The plan of [st'] extends the one of [st] by index entries [es] and by new
    manifests and blobs, each listed once and met. *)
Definition plan_ext (es : list ldesc) (st st' : walk_state) : Prop := ∃ ms bs more,
  lp_manifests st'.1 = lp_manifests st.1 ++ ms ∧ lp_blobs st'.1 = lp_blobs st.1 ++ bs ∧
  lp_Missing st'.1 = lp_Missing st.1 ++ more ∧
  lp_Index st'.1 = lp_Index st.1 ++ es ∧
  (∀ d, d ∈ st'.2 ↔ d ∈ st.2 ∨ d ∈ digests ms ++ digests bs) ∧
  NoDup (digests ms ++ digests bs) ∧ (∀ d, d ∈ digests ms ++ digests bs → d ∉ st.2) ∧
  Forall (listed_manifest st'.2 (lp_Missing st'.1)) ms ∧ Forall listed_blob bs.

Lemma plan_ext_refl st : plan_ext [] st st.
Proof.
  exists [], [], []. rewrite !app_nil_r. split_and!; try done; [set_solver|constructor|set_solver].
Qed.

Lemma plan_ext_trans es es' st1 st2 st3 : plan_ext es st1 st2 → plan_ext es' st2 st3 → plan_ext (es ++ es') st1 st3.
Proof.
  intros (ms & bs & mo & A1 & A2 & A3 & A4 & A6 & A7 & A8 & A9 & A10)
    (ms' & bs' & mo' & B1 & B2 & B3 & B4 & B6 & B7 & B8 & B9 & B10).
  assert (st2.2 ⊆ st3.2) as Hsub by (intros d Hd; apply B6; by left).
  exists (ms ++ ms'), (bs ++ bs'), (mo ++ mo').
  assert (digests (ms ++ ms') ++ digests (bs ++ bs') ≡ₚ (digests ms ++ digests bs) ++ digests ms' ++ digests bs') as Hp.
  { unfold digests. rewrite !fmap_app. rewrite <-!app_assoc. apply Permutation_app_head.
    rewrite !app_assoc. apply Permutation_app_tail. apply Permutation_app_comm. }
  split_and!; [rewrite B1, A1, <-app_assoc; done|rewrite B2, A2, <-app_assoc; done
    |rewrite B3, A3, <-app_assoc; done|rewrite B4, A4, <-app_assoc; done| | | | |].
  - intros d. rewrite Hp, B6, A6, !elem_of_app. tauto.
  - rewrite Hp. apply NoDup_app. split_and!; [done| |done]. intros d Hd Hd'. apply (B8 d Hd'), A6. by right.
  - intros d. rewrite Hp, elem_of_app. intros [Hd|Hd]; [by apply A8|]. intros Hin. apply (B8 d Hd), A6. by left.
  - apply Forall_app. split; [|done]. rewrite B3. eapply Forall_impl; [exact A9|]. intros b.
    by apply listed_manifest_mono.
  - apply Forall_app. by split.
Qed.

Lemma missing_ext m st : plan_ext [] st (add_missing m st.1, st.2).
Proof.
  exists [], [], [m]. rewrite !app_nil_r. split_and!; try done; [set_solver|constructor|set_solver].
Qed.

Lemma list_blobs_ext repo descs p mt d doc ref st :
  s_RawManifest src repo ref = Ok (p, mt, d) → decode_doc p = Some doc → isIndexMediaType mt = false →
  (∀ c, c ∈ descs → c ∈ md_config doc :: md_layers doc) →
  plan_ext [] st (list_blobs repo descs st) ∧
  ∀ c, c ∈ descs → ld_digest c ≠ "" → ld_digest c ∈ (list_blobs repo descs st).2.
Proof.
  intros Hraw Hdoc Hmt. revert st. induction descs as [|c descs IH]; intros st Hsub; cbn.
  { split; [apply plan_ext_refl|]. by intros c ?%elem_of_nil. }
  assert (∀ c', c' ∈ descs → c' ∈ md_config doc :: md_layers doc) as Hsub' by (intros; apply Hsub; by right).
  destruct (String.eqb_spec (ld_digest c) "") as [He|He].
  { destruct (IH st Hsub') as [Hx Hy]. split; [done|]. intros c' [->|Hc]%elem_of_cons Hne; [done|by apply Hy]. }
  case_bool_decide as Hseen.
  { destruct (IH st Hsub') as [Hx Hy]. split; [done|]. intros c' [->|Hc]%elem_of_cons Hne; [|by apply Hy].
    destruct Hx as (? & ? & ? & _ & _ & _ & _ & Hx & _). apply Hx. by left. }
  set (st1 := (add_blob _ st.1, _)). destruct (IH st1 Hsub') as [Hx Hy]. split.
  - eapply (plan_ext_trans [] []); [|exact Hx]. exists [], [mkPlanned (ld_digest c) (ld_size c) repo ""], [].
    cbn. rewrite !app_nil_r. split_and!; try done; [set_solver|apply NoDup_singleton|set_solver|].
    apply Forall_singleton. exists repo, ref, p, mt, d, doc, c. split_and!; try done. apply Hsub. by left.
  - intros c' [->|Hc]%elem_of_cons Hne; [|by apply Hy].
    destruct Hx as (? & ? & ? & _ & _ & _ & _ & Hx & _). apply Hx. left. cbn. set_solver.
Qed.

(** What a walk does, given the source's answer it starts from. *)
Definition walk_spec (repo : string) (walk : string → string → string → walk_state → walked walk_state) : Prop :=
  ∀ ref d mt payload st st', s_RawManifest src repo ref = Ok (payload, mt, d) →
    (Z.of_nat (slen payload) ≤ maxManifestBytes)%Z → dg_ok d = true →
    walk d mt payload st = Walked st' → plan_ext [] st st' ∧ d ∈ st'.2.

Lemma walk_bind_Walked {A B} (m : walked A) (f : A → walked B) b :
  m ≫= f = Walked b → ∃ a, m = Walked a ∧ f a = Walked b.
Proof. destruct m; [eauto|done..]. Qed.

Lemma walk_index_ext rec repo children st st' : walk_spec repo rec →
  walk_index rec src repo children st = Walked st' →
  plan_ext [] st st' ∧ ∀ c, c ∈ children → lp_Missing st'.1 ≠ [] ∨
    ∃ p' mt' d', s_RawManifest src repo (ld_digest c) = Ok (p', mt', d') ∧ d' ∈ st'.2.
Proof.
  intros Hrec. revert st. induction children as [|c children IH]; intros st Hw; cbn in Hw.
  { injection Hw as <-. split; [apply plan_ext_refl|]. by intros c ?%elem_of_nil. }
  destruct (s_RawManifest src repo (ld_digest c)) as [[[p mt] d]|e] eqn:Hraw.
  - destruct (Z.ltb_spec maxManifestBytes (Z.of_nat (slen p))) as [|Hle]; [done|].
    destruct (dg_ok d) eqn:Hd; [|done]. cbn in Hw. apply walk_bind_Walked in Hw as (st1 & H1 & H2).
    destruct (Hrec _ _ _ _ _ _ Hraw Hle Hd H1) as [Hx Hin]. destruct (IH _ H2) as [Hy Hc].
    split; [by eapply (plan_ext_trans [] [])|]. intros c' [->|Hc']%elem_of_cons; [|by apply Hc]. right. exists p, mt, d.
    split; [done|]. destruct Hy as (? & ? & ? & _ & _ & _ & _ & Hy & _). apply Hy. by left.
  - destruct e; [|done]. destruct (IH _ Hw) as [Hy Hc].
    split; [eapply (plan_ext_trans [] []); [|exact Hy]; apply missing_ext|].
    intros c' [->|Hc']%elem_of_cons; [|by apply Hc]. left.
    destruct Hy as (? & ? & mo & _ & _ & Hm & _). rewrite Hm. cbn. intros E. apply app_nil in E as [E _].
    by apply app_nil in E as [_ E].
Qed.

Lemma plan_walk_ext fuel repo : walk_spec repo (plan_walk fuel src repo).
Proof.
  induction fuel as [|fuel IH]; intros ref d mt payload st st' Hraw Hlen Hd Hw; [done|]. cbn [plan_walk] in Hw.
  case_bool_decide as Hseen; [injection Hw as <-; split; [apply plan_ext_refl|done]|].
  destruct (decode_doc payload) as [doc|] eqn:Hdoc; [|done].
  set (m := mkPlanned d (Z.of_nat (slen payload)) repo payload) in *. set (st1 := (add_manifest m st.1, _)) in *.
  assert (plan_ext [] st1 st' ∧ if isIndexMediaType mt
    then ∀ c, c ∈ md_manifests doc → lp_Missing st'.1 ≠ [] ∨
      ∃ p' mt' d', s_RawManifest src repo (ld_digest c) = Ok (p', mt', d') ∧ d' ∈ st'.2
    else ∀ c, c ∈ md_config doc :: md_layers doc → ld_digest c ≠ "" → ld_digest c ∈ st'.2) as [Hx Hc].
  { destruct (isIndexMediaType mt) eqn:Hmt; [by eapply walk_index_ext|].
    assert (list_blobs repo (md_config doc :: md_layers doc) st1 = st') as <- by congruence. by eapply list_blobs_ext. }
  destruct Hx as (ms & bs & mo & A1 & A2 & A3 & A4 & A6 & A7 & A8 & A9 & A10). split.
  - exists (m :: ms), bs, mo. cbn in A1, A2, A3, A4. split_and!; try done.
    + by rewrite A1, <-app_assoc.
    + intros x. rewrite A6. cbn. set_solver.
    + cbn. constructor; [|done]. intros Hin. apply (A8 d Hin). cbn. set_solver.
    + intros x [->|Hin]%elem_of_cons; [done|]. intros Hx. apply (A8 x Hin). cbn. set_solver.
    + constructor; [|done]. exists ref, mt, doc. done.
  - apply A6. left. cbn. set_solver.
Qed.

(** The entries of the index, one per reference that resolved. *)
Definition planned_entry (r : LayoutRef) (e : ldesc) (seen : gset string) : Prop :=
  ∃ payload, s_RawManifest src (lr_Repo r) (lr_Tag r) = Ok (payload, ld_mediaType e, ld_digest e) ∧
    ld_name e = ref_string r ∧ ld_digest e ∈ seen.

Lemma entry_ext e r st : plan_ext [e] st (add_entry_ref e r st.1, st.2).
Proof. exists [], [], []. rewrite !app_nil_r. split_and!; try done; [set_solver|constructor|set_solver]. Qed.

Lemma ext_seen es st st' : plan_ext es st st' → st.2 ⊆ st'.2.
Proof. intros (? & ? & ? & _ & _ & _ & _ & Hx & _) d Hd. apply Hx. by left. Qed.

Lemma plan_refs_ext fuel refs st st' : plan_refs fuel src refs st = Walked st' →
  ∃ es, plan_ext es st st' ∧ (lp_Missing st'.1 = [] → Forall2 (λ r e, planned_entry r e st'.2) refs es).
Proof.
  revert st. induction refs as [|r refs IH]; intros st Hw; cbn in Hw.
  { injection Hw as <-. exists []. split; [apply plan_ext_refl|done]. }
  destruct (s_RawManifest src (lr_Repo r) (lr_Tag r)) as [[[p mt] d]|e] eqn:Hraw.
  - destruct (Z.ltb_spec maxManifestBytes (Z.of_nat (slen p))) as [|Hle]; [done|].
    destruct (dg_ok d) eqn:Hd; [|done]. cbn in Hw. apply walk_bind_Walked in Hw as (st1 & H1 & H2).
    destruct (plan_walk_ext fuel (lr_Repo r) _ _ _ _ _ _ Hraw Hle Hd H1) as [Hx Hin].
    destruct (IH _ H2) as (es & Hy & Hes). eexists (_ :: es). split.
    + eapply (plan_ext_trans [_] es); [apply entry_ext|]. by eapply (plan_ext_trans []).
    + intros Hm. constructor; [|by apply Hes]. exists p. cbn. split_and!; try done. by apply (ext_seen _ _ _ Hy).
  - destruct e; [|done]. destruct (IH _ Hw) as (es & Hy & Hes). exists es. split.
    + eapply (plan_ext_trans [] es); [apply missing_ext|done].
    + intros Hm. exfalso. destruct Hy as (? & ? & mo & _ & _ & Hy & _). rewrite Hm in Hy. cbn in Hy.
      symmetry in Hy. apply app_nil in Hy as [Hy _]. by apply app_nil in Hy as [_ Hy].
Qed.

(** A plan without anything missing: entries for all references, every manifest
    and blob once, all listed, in one set of digests. *)
Definition complete_plan (sel : list LayoutRef) (p : LayoutPlan) : Prop := ∃ seen,
  NoDup (digests (lp_manifests p) ++ digests (lp_blobs p)) ∧
  (∀ d, d ∈ seen ↔ d ∈ digests (lp_manifests p) ++ digests (lp_blobs p)) ∧
  Forall (listed_manifest seen []) (lp_manifests p) ∧ Forall listed_blob (lp_blobs p) ∧
  Forall2 (λ r e, planned_entry r e seen) sel (lp_Index p).

Lemma NewPlan_complete fuel sel p : NewPlan fuel src sel = Walked p → lp_Missing p = [] → complete_plan sel p.
Proof.
  intros (st & Hw & [= <-])%walk_bind_Walked Hm. destruct (plan_refs_ext _ _ _ _ Hw) as (es & Hx & Hes).
  destruct Hx as (ms & bs & mo & A1 & A2 & A3 & A4 & A6 & A7 & A8 & A9 & A10). cbn in A1, A2, A3, A4.
  exists st.2. rewrite A1, A2, A4. rewrite Hm in A9. split_and!; try done; [|by apply Hes].
  intros d. rewrite A6. set_solver.
Qed.
End planned.

(** * The paths of digests *)

Section paths.
Context `{LayoutLib}.

Lemma all_bytes_not f c s : all_bytes f s = true → f c = false → ¬ in_str c s.
Proof. rewrite all_bytes_spec. intros Hs Hc Hin. specialize (Hs c Hin). congruence. Qed.

Lemma plain_proper f s : s ≠ "" → all_bytes f s = true → f "."%char = false → f "/"%char = false → proper_seg s.
Proof.
  intros Hne Hs Hdot Hslash. split; [|by apply (all_bytes_not f)]. pose proof (all_bytes_not f "." s Hs Hdot) as Hn.
  split_and!; [done| |]; intros ->; apply Hn; by left.
Qed.

(** A valid digest is an algorithm and an encoding, both plain path elements. *)
Lemma digest_path d : dg_ok d = true → ∃ alg enc,
  d = alg +:+ ":" +:+ enc ∧ digest_parts d = Some (alg, enc) ∧
  blobPath d = Some (rel_path ["blobs"; alg; enc]) ∧ Forall proper_seg ["blobs"; alg; enc] ∧
  ¬ in_str backslash (rel_path ["blobs"; alg; enc]).
Proof.
  intros Hd. destruct (dg_ok_shape d Hd) as (alg & enc & -> & _ & Ha & He & HA & HE). exists alg, enc.
  assert (digest_parts (alg +:+ ":" +:+ enc) = Some (alg, enc)) as Hp.
  { apply cut_byte_Some. split; [done|]. by apply (all_bytes_not _ ":" _ HA). }
  split_and!; [done|done| | |].
  - unfold blobPath. by rewrite Hp.
  - apply Forall_cons_2; [apply (bool_decide_unpack _); reflexivity|].
    apply Forall_cons_2; [by apply (plain_proper _ _ Ha HA)|]. by apply Forall_singleton, (plain_proper _ _ He HE).
  - cbn [rel_path join]. rewrite !in_str_app. cbn.
    pose proof (all_bytes_not _ backslash _ HA eq_refl). pose proof (all_bytes_not _ backslash _ HE eq_refl).
    intros Hx. repeat destruct Hx as [Hx|Hx]; try done; discriminate Hx.
Qed.

Lemma blobPath_clean d p : dg_ok d = true → blobPath d = Some p → path_clean p = p.
Proof. intros (alg & enc & _ & _ & -> & Hs & _)%digest_path E%(inj Some). subst p. by apply path_clean_segs. Qed.

Lemma blobPath_inj d d' p : dg_ok d = true → dg_ok d' = true → blobPath d = Some p → blobPath d' = Some p → d = d'.
Proof.
  intros (alg & enc & -> & _ & -> & Hs & _)%digest_path (alg' & enc' & -> & _ & -> & Hs' & _)%digest_path
    E1%(inj Some) E%(inj Some). subst p. apply (f_equal (split_byte "/")) in E.
  rewrite !split_rel in E by done. by injection E as -> ->.
Qed.

Lemma blobDigestOf_path d p : dg_ok d = true → blobPath d = Some p → blobDigestOf p = Some d.
Proof.
  intros Hd Hp. destruct (digest_path d Hd) as (alg & enc & E & _ & E' & Hs & _). rewrite Hp in E'. apply (inj Some) in E'. subst p.
  unfold blobDigestOf. rewrite split_rel by done. cbn. by rewrite <-E, Hd.
Qed.

Lemma blobPath_not_marker d p : dg_ok d = true → blobPath d = Some p → p ≠ "oci-layout" ∧ p ≠ "index.json".
Proof.
  intros (alg & enc & _ & _ & -> & _ & _)%digest_path [= <-]. split; discriminate.
Qed.

Lemma classify_blob d p size data : dg_ok d = true → blobPath d = Some p →
  classifyEntry (mkLt LtReg p size data false) = Ok (d, entryBlob).
Proof.
  intros Hd Hp. destruct (digest_path d Hd) as (alg & enc & _ & _ & E & Hs & Hb). rewrite Hp in E. apply (inj Some) in E. subst p.
  unfold classifyEntry. cbn [lt_flag lt_name]. set (p := rel_path ["blobs"; alg; enc]) in *.
  rewrite (proj2 (contains_byte_false p backslash) Hb). replace (has_prefix p "/") with false by reflexivity.
  cbn [orb]. replace (default p (cut_prefix "./" p)) with p by reflexivity. rewrite (blobPath_clean d p) by done.
  replace (String.eqb p ".." || has_prefix p "../") with false by reflexivity.
  destruct (blobPath_not_marker d p Hd Hp) as [H1 H2]. rewrite (proj2 (String.eqb_neq _ _) H1), (proj2 (String.eqb_neq _ _) H2).
  cbn [orb]. by rewrite (blobDigestOf_path d).
Qed.
End paths.

(** * What an export writes *)

Section written.
Context `{LayoutLib}.

Lemma ex_bind_inv {A B} (m : ex A) (f : A → ex B) o b o' : (m ≫= f) o = (Wrote b, o') →
  ∃ a o1, m o = (Wrote a, o1) ∧ f a o1 = (Wrote b, o').
Proof. unfold mbind, ex_bind. destruct (m o) as [[a|e| |] o1]; [eauto|done..]. Qed.

(** Only the sibling changes, by [f]. *)
Definition staged (f : medium → medium) (o o' : Outlet) : Prop :=
  ot_staging o' = f <$> ot_staging o ∧ ot_final o' = ot_final o.

Lemma staged_id o : staged id o o.
Proof. split; [by destruct (ot_staging o)|done]. Qed.
Lemma staged_trans f g o1 o2 o3 : staged f o1 o2 → staged g o2 o3 → staged (g ∘ f) o1 o3.
Proof.
  intros [A1 A2] [B1 B2]. split; [|congruence]. rewrite B1, A1. by destruct (ot_staging o1).
Qed.

Lemma next_xfault_same o f o' : next_xfault o = (f, o') → ot_staging o' = ot_staging o ∧ ot_final o' = ot_final o.
Proof. unfold next_xfault. destruct (ot_faults o); by intros [= <- <-]. Qed.

Lemma xcall_staged f o o' : xcall (on_staging f) o = (Wrote tt, o') → staged f o o'.
Proof.
  unfold xcall. destruct (next_xfault o) as [[] o1] eqn:E; intros [= <-].
  apply next_xfault_same in E as [E1 E2]. split; cbn; by rewrite ?E1, ?E2.
Qed.

Lemma check_ctx_staged o o' : check_ctx o = (Wrote tt, o') → staged id o o'.
Proof. unfold check_ctx. case_match; [done|]. intros [= <-]. split; cbn; [by destruct (ot_staging o)|done]. Qed.

(** A file of the layout: its name, its declared size and its bytes. *)
Definition plant (f : string * Z * string) (m : medium) : medium := put_file f.1.1 f.1.2 f.2 m.
Definition planted (fs : list (string * Z * string)) (m : medium) : medium := fold_left (λ m f, plant f m) fs m.

(** The file of a planned blob, verified. *)
Definition written_as (b : plannedBlob) (data : string) (f : string * Z * string) : Prop :=
  ∃ rel, blobPath (pb_digest b) = Some rel ∧ f = (rel, pb_size b, data) ∧
    Z.of_nat (slen data) = pb_size b ∧ verifies (pb_digest b) data = Some true.

Lemma writer_blob_wrote b stream o o' : writer_blob (pb_digest b) (pb_size b) stream o = (Wrote tt, o') →
  ∃ f, written_as b (stake (Z.to_nat (pb_size b)) stream.1) f ∧ staged (plant f) o o'.
Proof.
  unfold writer_blob. destruct (blobPath (pb_digest b)) as [rel|] eqn:Hp; [|done].
  unfold copyVerified. destruct (verifies _ _) as [ok|] eqn:Hv; [|done]. cbn.
  intros (u & o1 & Hx & Hl)%ex_bind_inv. destruct u. apply xcall_staged in Hx.
  exists (rel, pb_size b, stake (Z.to_nat (pb_size b)) stream.1).
  destruct (_ && _); [done|]. destruct (Z.eqb_spec (Z.of_nat (slen (stake (Z.to_nat (pb_size b)) stream.1))) (pb_size b)); [|done].
  destruct ok; [|done]. injection Hl as <-. split; [|done]. by exists rel.
Qed.

Lemma write_manifests_wrote bs r o r' o' : write_manifests bs r o = (Wrote r', o') →
  ∃ fs, Forall2 (λ b f, written_as b (stake (Z.to_nat (pb_size b)) (pb_payload b)) f) bs fs ∧
    staged (planted fs) o o' ∧ er_Missing r' = er_Missing r.
Proof.
  revert r o. induction bs as [|b bs IH]; intros r o Hw; cbn in Hw.
  { injection Hw as <- <-. exists []. split_and!; [done|apply staged_id|done]. }
  apply ex_bind_inv in Hw as ([] & o1 & H1 & Hw). apply ex_bind_inv in Hw as ([] & o2 & H2 & Hw).
  apply check_ctx_staged in H1. apply writer_blob_wrote in H2 as (f & Hf & H2).
  destruct (IH _ _ Hw) as (fs & Hfs & H3 & Hm). exists (f :: fs). split_and!; [by constructor| |done].
  by apply (staged_trans id (planted fs ∘ plant f) _ _ _ H1), (staged_trans _ _ _ _ _ H2).
Qed.

Lemma write_blobs_wrote src bs r o r' o' : write_blobs src bs r o = (Wrote r', o') →
  ∃ more, er_Missing r' = er_Missing r ++ more ∧
    (more = [] → ∃ fs, staged (planted fs) o o' ∧ Forall2 (λ b f, ∃ stream,
        s_BlobReader src (pb_repo b) (pb_digest b) = Ok stream ∧
        written_as b (stake (Z.to_nat (pb_size b)) stream.1) f) bs fs).
Proof.
  revert r o. induction bs as [|b bs IH]; intros r o Hw; cbn in Hw.
  { injection Hw as <- <-. exists []. rewrite app_nil_r. split; [done|]. intros _. exists []. split; [apply staged_id|done]. }
  apply ex_bind_inv in Hw as ([] & o1 & H1 & Hw). apply check_ctx_staged in H1.
  destruct (s_BlobReader src (pb_repo b) (pb_digest b)) as [stream|e] eqn:Hr.
  - apply ex_bind_inv in Hw as ([] & o2 & H2 & Hw). apply writer_blob_wrote in H2 as (f & Hf & H2).
    destruct (IH _ _ Hw) as (more & Hm & Hall). exists more. split; [done|]. intros Hn.
    destruct (Hall Hn) as (fs & Hst & Hfs). exists (f :: fs). split; [|constructor; eauto].
    by apply (staged_trans id (planted fs ∘ plant f) _ _ _ H1), (staged_trans _ _ _ _ _ H2).
  - destruct e; [|done]. destruct (IH _ _ Hw) as (more & Hm & Hall). eexists (_ :: more).
    cbn in Hm. rewrite <-app_assoc in Hm. split; [exact Hm|]. done.
Qed.

(** The files of a whole layout: the marker, the index, the manifests, the
    blobs. *)
Definition layout_files (p : LayoutPlan) (fm fb : list (string * Z * string)) : list (string * Z * string) :=
  ("oci-layout", Z.of_nat (slen layoutMarkerBytes), layoutMarkerBytes) ::
  ("index.json", Z.of_nat (slen (marshalIndex (lp_Index p))), marshalIndex (lp_Index p)) :: fm ++ fb.

(** A new layout of each format. *)
Definition blank (format : Format) : medium :=
  match format with
  | FormatDirectory => MDir ∅
  | FormatTar => MTar (mkArchive false [dir_header "blobs/"; dir_header "blobs/sha256/"] false)
  end.

Lemma planted_app fs fs' m : planted (fs ++ fs') m = planted fs' (planted fs m).
Proof. unfold planted. apply fold_left_app. Qed.

Lemma writeInto_wrote src p o r o' : writeInto src p o = (Wrote r, o') → er_Missing r = [] →
  ∃ fm fb, staged (planted (layout_files p fm fb)) o o' ∧
    Forall2 (λ b f, written_as b (stake (Z.to_nat (pb_size b)) (pb_payload b)) f) (lp_manifests p) fm ∧
    Forall2 (λ b f, ∃ stream, s_BlobReader src (pb_repo b) (pb_digest b) = Ok stream ∧
      written_as b (stake (Z.to_nat (pb_size b)) stream.1) f) (lp_blobs p) fb.
Proof.
  unfold writeInto. intros Hw Hmiss. apply ex_bind_inv in Hw as ([] & o1 & H1 & Hw).
  apply ex_bind_inv in Hw as ([] & o2 & H2 & Hw). apply ex_bind_inv in Hw as (r1 & o3 & H3 & Hw).
  apply xcall_staged in H1, H2. apply write_manifests_wrote in H3 as (fm & Hfm & H3 & Hm3).
  apply write_blobs_wrote in Hw as (more & Hm & Hall). rewrite Hmiss in Hm. symmetry in Hm. apply app_nil in Hm as [_ ->].
  destruct (Hall eq_refl) as (fb & H4 & Hfb). exists fm, fb. split_and!; [|done..].
  pose proof (staged_trans _ _ _ _ _ (staged_trans _ _ _ _ _ (staged_trans _ _ _ _ _ H1 H2) H3) H4) as [E1 E2].
  split; [|done]. rewrite E1. destruct (ot_staging o); cbn; [|done]. f_equal. by rewrite planted_app.
Qed.

(** The planned blobs the source has; the others are reported. *)
Definition available (src : Source) (b : plannedBlob) : bool := is_ok (s_BlobReader src (pb_repo b) (pb_digest b)).
Definition missing_row (b : plannedBlob) : Missing := mkMissing (mkRef (pb_repo b) "") (pb_digest b) MissingBlob.
(** The file of a planned blob, from the source's bytes. *)
Definition blob_file (src : Source) (b : plannedBlob) (f : string * Z * string) : Prop :=
  ∃ stream, s_BlobReader src (pb_repo b) (pb_digest b) = Ok stream ∧ written_as b (stake (Z.to_nat (pb_size b)) stream.1) f.
Definition manifest_file (b : plannedBlob) (f : string * Z * string) : Prop :=
  written_as b (stake (Z.to_nat (pb_size b)) (pb_payload b)) f.

Lemma write_blobs_exact src bs r o r' o' : write_blobs src bs r o = (Wrote r', o') →
  ∃ fs, staged (planted fs) o o' ∧ Forall2 (blob_file src) (filter (λ b, available src b = true) bs) fs ∧
    er_Missing r' = er_Missing r ++ (missing_row <$> filter (λ b, available src b = false) bs).
Proof.
  revert r o. induction bs as [|b bs IH]; intros r o Hw; cbn in Hw.
  { injection Hw as <- <-. exists []. rewrite app_nil_r. split_and!; [apply staged_id|constructor|done]. }
  apply ex_bind_inv in Hw as ([] & o1 & H1 & Hw). apply check_ctx_staged in H1.
  destruct (s_BlobReader src (pb_repo b) (pb_digest b)) as [stream|[]] eqn:Hr; [| |done].
  - apply ex_bind_inv in Hw as ([] & o2 & H2 & Hw). apply writer_blob_wrote in H2 as (f & Hf & H2).
    destruct (IH _ _ Hw) as (fs & Hst & Hfs & Hm). exists (f :: fs).
    assert (available src b = true) as Ha by (unfold available; by rewrite Hr).
    rewrite filter_cons_True, filter_cons_False by congruence. split_and!; [|constructor; [by exists stream|done]|done].
    by apply (staged_trans id (planted fs ∘ plant f) _ _ _ H1), (staged_trans _ _ _ _ _ H2).
  - destruct (IH _ _ Hw) as (fs & Hst & Hfs & Hm). exists fs.
    assert (available src b = false) as Ha by (unfold available; by rewrite Hr).
    rewrite filter_cons_False, filter_cons_True by congruence. split_and!; [|done|].
    + by apply (staged_trans id (planted fs) _ _ _ H1).
    + rewrite Hm. cbn. by rewrite <-app_assoc.
Qed.

(** What a successful write leaves in the sibling, and what it reports missing. *)
Definition layout_written (src : Source) (p : LayoutPlan) (report : ExportReport) (fs : list (string * Z * string)) : Prop :=
  ∃ fm fb, fs = layout_files p fm fb ∧ Forall2 manifest_file (lp_manifests p) fm ∧
    Forall2 (blob_file src) (filter (λ b, available src b = true) (lp_blobs p)) fb ∧
    er_Missing report = lp_Missing p ++ (missing_row <$> filter (λ b, available src b = false) (lp_blobs p)).

Lemma writeInto_exact src p o r o' : writeInto src p o = (Wrote r, o') →
  ∃ fs, staged (planted fs) o o' ∧ layout_written src p r fs.
Proof.
  unfold writeInto. intros Hw. apply ex_bind_inv in Hw as ([] & o1 & H1 & Hw).
  apply ex_bind_inv in Hw as ([] & o2 & H2 & Hw). apply ex_bind_inv in Hw as (r1 & o3 & H3 & Hw).
  apply xcall_staged in H1, H2. apply write_manifests_wrote in H3 as (fm & Hfm & H3 & Hm3).
  apply write_blobs_exact in Hw as (fb & H4 & Hfb & Hm).
  pose proof (staged_trans _ _ _ _ _ (staged_trans _ _ _ _ _ (staged_trans _ _ _ _ _ H1 H2) H3) H4) as [E1 E2].
  exists (layout_files p fm fb). split.
  - split; [|done]. rewrite E1. destruct (ot_staging o); cbn; [|done]. f_equal. by rewrite planted_app.
  - exists fm, fb. split_and!; [done..|]. by rewrite Hm, Hm3.
Qed.

(** Closing a layout that was being written. *)
Lemma close_staged fmt fs o o' : ot_staging o = Some (planted fs (blank fmt)) → writer_close fmt o = (Wrote tt, o') →
  ot_staging o' = Some (close_medium (planted fs (blank fmt))).
Proof.
  unfold writer_close. destruct fmt; intros Hst Hcl.
  - injection Hcl as <-. rewrite Hst. f_equal. cbn [blank]. clear.
    assert (∀ g, ∃ g', planted fs (MDir g) = MDir g') as Hg.
    { induction fs as [|f fs IH]; intros g; [by exists g|]. cbn. apply IH. }
    by destruct (Hg ∅) as [g' ->].
  - apply xcall_staged in Hcl as [Hcl _]. by rewrite Hcl, Hst.
Qed.

Lemma write_layout_whole fmt src p o r o' : ot_staging o = Some (blank fmt) →
  write_layout fmt src p o = (Wrote r, o') →
  ∃ fs, ot_staging o' = Some (close_medium (planted fs (blank fmt))) ∧ layout_written src p r fs.
Proof.
  intros Ho Hw. unfold write_layout in Hw. destruct (writeInto src p o) as [[r1|e| |] o1] eqn:Hwi; try done.
  2:{ by destruct (writer_close fmt o1) as [[] ?]. }
  apply ex_bind_inv in Hw as ([] & o2 & Hcl & Hw). injection Hw as -> ->.
  apply writeInto_exact in Hwi as (fs & [Hst _] & Hw). rewrite Ho in Hst. exists fs. split; [by eapply close_staged|done].
Qed.

Lemma newLayoutWriter_blank fmt o u o' : newLayoutWriter fmt o = (Wrote u, o') → ot_staging o' = Some (blank fmt).
Proof.
  unfold newLayoutWriter, xcall. destruct (next_xfault o) as [[] ?]; intros Hn; try discriminate Hn.
  injection Hn as _ <-. by destruct fmt.
Qed.

Lemma or_discard_wrote {A} (m : ex A) o a o' : or_discard m o = (Wrote a, o') → m o = (Wrote a, o').
Proof.
  unfold or_discard. destruct (m o) as [[a'|e| |] o1]; try done. by destruct (remove_all _ _ o1) as [[] ?].
Qed.

(** A finished export is at the destination, whole and closed, and nothing is
    left beside it. *)
Lemma LayoutWrite_wrote src p output format overwrite o r o' :
  LayoutWrite src p output format overwrite o = (Wrote r, o') → er_Missing r = [] →
  ∃ fmt fm fb, ParseFormat format = Some fmt ∧ ot_staging o' = None ∧
    ot_final o' = Some (close_medium (planted (layout_files p fm fb) (blank fmt))) ∧
    Forall2 (λ b f, written_as b (stake (Z.to_nat (pb_size b)) (pb_payload b)) f) (lp_manifests p) fm ∧
    Forall2 (λ b f, ∃ stream, s_BlobReader src (pb_repo b) (pb_digest b) = Ok stream ∧
      written_as b (stake (Z.to_nat (pb_size b)) stream.1) f) (lp_blobs p) fb.
Proof.
  unfold LayoutWrite. case_match; [done|]. destruct (ParseFormat format) as [fmt|] eqn:Hfmt; [|done]. intros Hw Hmiss.
  apply ex_bind_inv in Hw as (u1 & o1 & _ & Hw). apply ex_bind_inv in Hw as (u2 & o2 & _ & Hw).
  apply ex_bind_inv in Hw as (u3 & o3 & _ & Hw). apply ex_bind_inv in Hw as (u4 & o4 & H4 & Hw).
  apply ex_bind_inv in Hw as (r5 & o5 & H5 & Hw). apply ex_bind_inv in Hw as (u6 & o6 & H6 & Hw).
  apply ex_bind_inv in Hw as (u7 & o7 & H7 & Hw). injection Hw as -> ->.
  apply newLayoutWriter_blank in H4. apply or_discard_wrote in H5, H6, H7.
  unfold write_layout in H5. destruct (writeInto src p o4) as [[r5b|e| |] o5b] eqn:Hwi; try done.
  2:{ by destruct (writer_close fmt o5b) as [[] ?]. }
  apply ex_bind_inv in H5 as ([] & o5c & Hcl & H5). injection H5 as -> ->.
  destruct (writeInto_wrote _ _ _ _ _ Hwi Hmiss) as (fm & fb & [Hst _] & Hfm & Hfb). rewrite H4 in Hst.
  apply (close_staged fmt _ _ _ Hst) in Hcl.
  assert (ot_staging o6 = ot_staging o5) as Hs6.
  { destruct overwrite; [|by injection H6 as _ <-]. unfold remove_all in H6.
    destruct (next_xfault o5) as [[] o5d] eqn:E5; apply next_xfault_same in E5 as [E5 _]; try discriminate H6.
    by injection H6 as _ <-. }
  unfold xcall in H7. destruct (next_xfault o6) as [[] o6b] eqn:E6; try discriminate H7. injection H7 as _ <-.
  apply next_xfault_same in E6 as [E6 _]. exists fmt, fm, fb. cbn [ot_final ot_staging rename_into_place].
  split_and!; try done. by rewrite E6, Hs6.
Qed.
End written.

(** * Reading it back *)

Section read_back.
Context `{LayoutLib}.

(** A digest with its bytes, and its file. *)
Definition item_file (it : string * string) (f : string * Z * string) : Prop :=
  ∃ rel, blobPath it.1 = Some rel ∧ dg_ok it.1 = true ∧ f = (rel, Z.of_nat (slen it.2), it.2).

Lemma planted_dir items fs g : Forall2 item_file items fs → NoDup items.*1 →
  ∃ g', planted fs (MDir g) = MDir g' ∧
    (∀ d data rel, (d, data) ∈ items → blobPath d = Some rel → g' !! path_clean rel = Some (DFile data)) ∧
    (∀ name, (∀ d, d ∈ items.*1 → blobPath d ≠ Some name) → g' !! name = g !! name).
Proof.
  intros Hf. revert g. induction Hf as [|[d data] f items fs (rel & Hp & Hd & ->) Hf IH]; intros g Hnd.
  { exists g. split_and!; [done| |done]. by intros d data rel ?%elem_of_nil. }
  cbn in Hnd. apply NoDup_cons in Hnd as [Hnew Hnd]. cbn [fst snd] in Hp, Hd.
  pose proof (blobPath_clean _ _ Hd Hp) as Hclean.
  destruct (IH (<[path_clean rel := DFile data]> g) Hnd) as (g' & E & Hin & Hout). exists g'. split_and!; [done| |].
  - intros d' data' rel' [[= -> ->]|Hx]%elem_of_cons Hp'; [|by eapply Hin].
    assert (rel' = rel) as -> by congruence. rewrite Hout; [by rewrite lookup_insert_eq|].
    intros d' Hd' Hp''. rewrite Hclean in Hp''.
    assert (dg_ok d' = true) as Hok'.
    { apply list_elem_of_fmap in Hd' as ([d2 data2] & -> & Hi). apply list_elem_of_lookup in Hi as [i Hi].
      destruct (Forall2_lookup_l _ _ _ _ _ Hf Hi) as (f & _ & (? & _ & ? & _)). done. }
    rewrite (blobPath_inj _ _ _ Hok' Hd Hp'' Hp) in Hd'. done.
  - intros name Hname. rewrite Hout; [|intros d' Hd'; apply Hname; by right].
    rewrite lookup_insert_ne; [done|]. rewrite Hclean. intros ->. apply (Hname d); [by left|done].
Qed.

Definition reg_of (f : string * Z * string) : lt_entry := mkLt LtReg f.1.1 f.1.2 f.2 false.

Lemma planted_tar fs a : planted fs (MTar a) =
  MTar (mkArchive (ar_gzip a) (ar_entries a ++ (reg_of <$> fs)) (ar_whole a)).
Proof.
  revert a. induction fs as [|f fs IH]; intros a; cbn; [by destruct a; rewrite app_nil_r|].
  unfold planted in IH. cbn in IH. rewrite IH. cbn. by rewrite <-app_assoc.
Qed.

Lemma scan_items items fs n t : Forall2 item_file items fs → NoDup items.*1 →
  (n + Z.of_nat (length fs) ≤ maxLayoutEntries)%Z →
  ∃ t', scan_entries (reg_of <$> fs) true n t = Ok t' ∧ tr_markers t' = tr_markers t ∧ tr_skipped t' = tr_skipped t ∧
    (∀ d data, (d, data) ∈ items → tr_blobs t' !! d = Some (data, Z.of_nat (slen data))) ∧
    (∀ d, d ∉ items.*1 → tr_blobs t' !! d = tr_blobs t !! d).
Proof.
  intros Hf. revert n t. induction Hf as [|[d data] f items fs (rel & Hp & Hd & ->) Hf IH]; intros n t Hnd Hn.
  { exists t. split_and!; try done. by intros d data ?%elem_of_nil. }
  cbn in Hnd. apply NoDup_cons in Hnd as [Hnew Hnd]. cbn [fst snd] in Hp, Hd. cbn [length] in Hn. cbn [fmap list_fmap scan_entries].
  destruct (Z.ltb_spec maxLayoutEntries (n + 1)); [lia|]. 
  change (reg_of (rel, Z.of_nat (slen (d, data).2), (d, data).2)) with (mkLt LtReg rel (Z.of_nat (slen data)) data false).
  rewrite (classify_blob d) by done. cbn [mbind res_bind lt_data lt_size].
  set (t1 := mkTarReader _ _ _). destruct (IH (n + 1)%Z t1 Hnd ltac:(lia)) as (t' & E & M & S & Hin & Hout).
  exists t'. split_and!; try done.
  - intros d' data' [[= -> ->]|Hx]%elem_of_cons; [|by apply Hin]. rewrite Hout by done. cbn. by rewrite lookup_insert_eq.
  - intros d' [Hne Hd']%not_elem_of_cons. rewrite Hout by done. cbn. by rewrite lookup_insert_ne.
Qed.

Lemma scan_step_dir e es whole n t x : classifyEntry e = Ok (x, entryDirectory) → (n + 1 ≤ maxLayoutEntries)%Z →
  scan_entries (e :: es) whole n t = scan_entries es whole (n + 1) t.
Proof. intros He Hn. cbn [scan_entries]. by rewrite (proj2 (Z.ltb_ge _ _)), He. Qed.

Lemma scan_step_marker e es whole n t x : classifyEntry e = Ok (x, entryMarker) → lt_broken e = false →
  (Z.of_nat (slen (lt_data e)) ≤ maxManifestBytes)%Z → (n + 1 ≤ maxLayoutEntries)%Z →
  scan_entries (e :: es) whole n t =
  scan_entries es whole (n + 1) (mkTarReader (tr_blobs t) (<[x := lt_data e]> (tr_markers t)) (tr_skipped t)).
Proof.
  intros He Hb Hl Hn. cbn [scan_entries]. rewrite (proj2 (Z.ltb_ge _ _)), He by done. cbn [mbind res_bind].
  unfold readBounded. by rewrite (proj2 (Z.ltb_ge _ _)), Hb.
Qed.

(** What the reader of an exported layout gives. *)
Definition reads_back (lay : layoutReader) (index : list ldesc) (items : list (string * string)) : Prop :=
  layout_index lay = Ok index ∧ l_ignored lay = [] ∧
  ∀ d data, (d, data) ∈ items → l_has lay d = Some true ∧ l_blob lay d = Some (Ok (data, Z.of_nat (slen data))).

Lemma marker_index lay ds : l_marker lay "oci-layout" maxLayoutMarkerBytes = Ok layoutMarkerBytes →
  l_marker lay "index.json" maxManifestBytes = Ok (marshalIndex ds) → layout_index lay = Ok ds.
Proof.
  intros H1 H2. unfold layout_index, checkLayoutMarker. rewrite H1. cbn [mbind res_bind].
  unfold layoutMarkerBytes, newline. rewrite marker_roundtrip. cbn. rewrite H2. cbn. unfold marshalIndex, newline.
  by rewrite index_roundtrip.
Qed.

Lemma export_read_back fmt p fm fb items :
  Forall2 item_file items (fm ++ fb) → NoDup items.*1 →
  (Z.of_nat (slen (marshalIndex (lp_Index p))) ≤ maxManifestBytes)%Z →
  (4 + Z.of_nat (length items) ≤ maxLayoutEntries)%Z →
  ∃ lay, openLayout (Some (close_medium (planted (layout_files p fm fb) (blank fmt)))) = Ok lay ∧
    reads_back lay (lp_Index p) items.
Proof.
  intros Hf Hnd Hidx Hlen. set (index := marshalIndex (lp_Index p)) in *.
  assert (Hmark : (Z.of_nat (slen layoutMarkerBytes) ≤ maxLayoutMarkerBytes)%Z) by (vm_compute; congruence).
  destruct fmt.
  - assert (∃ g0, planted (layout_files p fm fb) (MDir ∅) = planted (fm ++ fb) (MDir g0) ∧
      g0 !! "oci-layout" = Some (DFile layoutMarkerBytes) ∧ g0 !! "index.json" = Some (DFile index)) as (g0 & E0 & M1 & M2).
    { exists (<["index.json" := DFile index]> (<["oci-layout" := DFile layoutMarkerBytes]> ∅)).
      split_and!; [done|by rewrite lookup_insert_ne, lookup_insert_eq|by rewrite lookup_insert_eq]. }
    destruct (planted_dir items (fm ++ fb) g0 Hf Hnd) as (g & E & Hin & Hout).
    assert (∀ name, name = "oci-layout" ∨ name = "index.json" → ∀ d, d ∈ items.*1 → blobPath d ≠ Some name) as Hother.
    { intros name Hn d Hd Hp. apply list_elem_of_fmap in Hd as ([d2 data2] & -> & Hi).
      apply list_elem_of_lookup in Hi as [i Hi]. destruct (Forall2_lookup_l _ _ _ _ _ Hf Hi) as (f & _ & (? & _ & Hok & _)).
      destruct (blobPath_not_marker _ _ Hok Hp). destruct Hn; done. }
    exists (dirReader g). cbn [blank]. rewrite E0, E. split; [done|]. split_and!; [|done|].
    + apply marker_index; cbn [l_marker dirReader]; unfold dir_marker, readBounded.
      * replace (path_clean "oci-layout") with "oci-layout" by reflexivity. rewrite Hout, M1 by auto.
        by rewrite (proj2 (Z.ltb_ge _ _)).
      * replace (path_clean "index.json") with "index.json" by reflexivity. rewrite Hout, M2 by auto.
        by rewrite (proj2 (Z.ltb_ge _ _)).
    + intros d data Hd. assert (∃ rel, blobPath d = Some rel) as [rel Hp].
      { apply list_elem_of_lookup in Hd as [i Hi]. destruct (Forall2_lookup_l _ _ _ _ _ Hf Hi) as (f & _ & (rel & ? & _)).
        by exists rel. }
      cbn. unfold dir_has, dir_blob. rewrite Hp. cbn. by rewrite (Hin d data rel Hd Hp).
  - cbn [blank]. rewrite planted_tar. cbn [ar_gzip ar_entries ar_whole close_medium].
    assert (length (fm ++ fb) = length items) as Hl by (symmetry; by eapply Forall2_length).
    set (t0 := mkTarReader ∅ (<["index.json" := index]> (<["oci-layout" := layoutMarkerBytes]> ∅)) []).
    destruct (scan_items items (fm ++ fb) 4 t0 Hf Hnd ltac:(lia)) as (t & E & M & S & Hin & Hout).
    exists (of_tarReader t). split.
    { unfold openLayout, tar_scan. cbn [ar_gzip ar_entries ar_whole].
      assert (scan_entries ([dir_header "blobs/"; dir_header "blobs/sha256/"] ++ (reg_of <$> layout_files p fm fb)) true 0
        (mkTarReader ∅ ∅ []) = scan_entries (reg_of <$> fm ++ fb) true 4 t0) as ->; [|by rewrite E].
      change ([dir_header "blobs/"; dir_header "blobs/sha256/"] ++ (reg_of <$> layout_files p fm fb)) with
        (dir_header "blobs/" :: dir_header "blobs/sha256/" ::
         mkLt LtReg "oci-layout" (Z.of_nat (slen layoutMarkerBytes)) layoutMarkerBytes false ::
         mkLt LtReg "index.json" (Z.of_nat (slen index)) index false :: (reg_of <$> fm ++ fb)).
      assert (4 ≤ maxLayoutEntries)%Z by (vm_compute; congruence).
      rewrite (scan_step_dir _ _ _ _ _ "blobs"), (scan_step_dir _ _ _ _ _ "blobs/sha256"),
        (scan_step_marker _ _ _ _ _ "oci-layout"), (scan_step_marker _ _ _ _ _ "index.json"); done || cbn; lia || done. }
    split_and!; [|done|].
    + apply marker_index; cbn [l_marker of_tarReader]; unfold tar_marker; rewrite M; unfold t0; cbn [tr_markers].
      * rewrite lookup_insert_ne, lookup_insert_eq by done. by rewrite (proj2 (Z.ltb_ge _ _)).
      * rewrite lookup_insert_eq. by rewrite (proj2 (Z.ltb_ge _ _)).
    + intros d data Hd. cbn. unfold tar_blob. rewrite (Hin d data Hd). done.
Qed.
End read_back.
