(* ===== verification/OciTheorems.v ===== *)
(** The results on OCI image layouts: export and import are inverse, an export is
    at its destination whole or not at all, its size is what was projected; and
    what the package's comments say and its code does not do. *)

From S2P Require Import Prelude GoStrings MediaPaths FilePaths OciPlan OciLayout OciExport OciImport OciRoundtrip.

(** * Round trip *)

(** A source that is a content-addressed store: manifests hash to their digests
    and no other bytes do, a digest has one media type and is an address, the
    descriptors of a document tell the type and the size of what they name, and no
    digest is both a manifest and a blob. *)
Record coherent `{LayoutLib} (src : Source) : Prop := {
  co_hash : ∀ repo ref p mt d, s_RawManifest src repo ref = Ok (p, mt, d) → FromBytes p = d ∧ mt ≠ "";
  co_unique : ∀ repo ref p mt d p', s_RawManifest src repo ref = Ok (p, mt, d) → FromBytes p' = d → p' = p;
  co_type : ∀ repo ref p mt d repo' ref' p' mt', s_RawManifest src repo ref = Ok (p, mt, d) →
    s_RawManifest src repo' ref' = Ok (p', mt', d) → mt' = mt;
  co_address : ∀ repo x p mt d, dg_ok x = true → s_RawManifest src repo x = Ok (p, mt, d) → d = x;
  co_child : ∀ repo ref p mt d doc c, s_RawManifest src repo ref = Ok (p, mt, d) → isIndexMediaType mt = true →
    decode_doc p = Some doc → c ∈ md_manifests doc →
    dg_ok (ld_digest c) = true ∧
    ∀ repo' p' mt' d' doc', s_RawManifest src repo' (ld_digest c) = Ok (p', mt', d') → decode_doc p' = Some doc' →
      entry_media (ld_mediaType c) doc' = mt';
  co_blob : ∀ repo ref p mt d doc c, s_RawManifest src repo ref = Ok (p, mt, d) → isIndexMediaType mt = false →
    decode_doc p = Some doc → c ∈ md_config doc :: md_layers doc → ld_digest c ≠ "" →
    dg_ok (ld_digest c) = true ∧
    (∀ repo' data ok, s_BlobReader src repo' (ld_digest c) = Ok (data, ok) → Z.of_nat (slen data) = ld_size c) ∧
    ∀ repo' ref' p' mt' d', s_RawManifest src repo' ref' = Ok (p', mt', d') → d' ≠ ld_digest c;
}.

(** The documents below a digest in the source. *)
Inductive below `{LayoutLib} (src : Source) (d : string) : string → Prop :=
  | below_refl : below src d d
  | below_child x repo ref p mt doc c : below src d x → s_RawManifest src repo ref = Ok (p, mt, x) →
      isIndexMediaType mt = true → decode_doc p = Some doc → c ∈ md_manifests doc → below src d (ld_digest c).

Section importing_export.
Context `{LayoutLib} (src : Source) (Hco : coherent src).
Context (p : LayoutPlan) (seen : gset string) (items : list (string * string)) (lay : layoutReader).
Hypothesis Hseen : ∀ d, d ∈ seen ↔ d ∈ digests (lp_manifests p) ++ digests (lp_blobs p).
Hypothesis Hms : Forall (listed_manifest src seen []) (lp_manifests p).
Hypothesis Hbs : Forall (listed_blob src) (lp_blobs p).
Hypothesis Hitems_m : ∀ b, b ∈ lp_manifests p → (pb_digest b, pb_payload b) ∈ items.
Hypothesis Hitems_b : ∀ b, b ∈ lp_blobs p → ∃ data repo ok, (pb_digest b, data) ∈ items ∧
  s_BlobReader src repo (pb_digest b) = Ok (data, ok) ∧ Z.of_nat (slen data) = pb_size b ∧
  verifies (pb_digest b) data = Some true.
Hypothesis Hread : ∀ d data, (d, data) ∈ items →
  l_has lay d = Some true ∧ l_blob lay d = Some (Ok (data, Z.of_nat (slen data))).

(** What the store holds is the source's. *)
Definition ready (s : layoutImporter) : Prop :=
  k_faults (im_dst s) = [] ∧
  (∀ repo d mt pl, k_manifests (im_dst s) !! (repo, d) = Some (mt, pl) →
     ∃ repo' ref, s_RawManifest src repo' ref = Ok (pl, mt, d)) ∧
  (∀ repo d data, k_blobs (im_dst s) !! (repo, d) = Some data → ∃ repo' ok, s_BlobReader src repo' d = Ok (data, ok)).

Definition safe {A} (m : im A) : Prop := ∀ s, ready s →
  ((m s).1 = OutOfFuel ∨ ∃ a, (m s).1 = Ret a) ∧ ready (m s).2.

Lemma safe_bind_ret {A B} (Q : A → Prop) (m : im A) (f : A → im B) :
  safe m → (∀ s a s', m s = (Ret a, s') → Q a) → (∀ a, Q a → safe (f a)) → safe (m ≫= f).
Proof.
  intros Hm HQ Hf s Hs. destruct (Hm s Hs) as [Hr Hs']. unfold mbind, im_bind.
  destruct (m s) as [[a|e| |] s'] eqn:E; cbn in *; [apply Hf; [by eapply HQ|done]|..]; (split; [|done]); try tauto;
    destruct Hr as [?|[? ?]]; done.
Qed.
Lemma safe_bind {A B} (m : im A) (f : A → im B) : safe m → (∀ a, safe (f a)) → safe (m ≫= f).
Proof. intros Hm Hf. by apply (safe_bind_ret (λ _, True)). Qed.
Lemma safe_ret {A} (a : A) : safe (mret a).
Proof. intros s Hs. split; [right; by exists a|done]. Qed.
Lemma safe_report f : safe (im_modify (on_report f)).
Proof. intros s Hs. split; [right; by exists tt|done]. Qed.

(** A digest met is a manifest of the plan or a blob of the plan, not both. *)
Lemma met_manifest repo ref pl mt d : s_RawManifest src repo ref = Ok (pl, mt, d) → d ∈ seen →
  ∃ b, b ∈ lp_manifests p ∧ pb_digest b = d ∧ pb_payload b = pl.
Proof.
  intros Hraw Hd. apply Hseen, elem_of_app in Hd as [Hd|Hd].
  - apply list_elem_of_fmap in Hd as (b & -> & Hb). exists b. split_and!; try done.
    rewrite Forall_forall in Hms. destruct (Hms b Hb) as (ref' & mt' & doc & Hr & _).
    eapply (co_unique src Hco); [exact Hraw|]. by apply (co_hash src Hco _ _ _ _ _ Hr).
  - exfalso. apply list_elem_of_fmap in Hd as (b & -> & Hb). rewrite Forall_forall in Hbs.
    destruct (Hbs b Hb) as (repo' & ref' & pl' & mt' & d' & doc & c & Hr & Hdoc & Hmt & Hc & Hne & E & _).
    destruct (co_blob src Hco _ _ _ _ _ _ _ Hr Hmt Hdoc Hc Hne) as (_ & _ & Hap). by apply (Hap _ _ _ _ _ Hraw).
Qed.

Lemma met_blob repo ref pl mt d doc c : s_RawManifest src repo ref = Ok (pl, mt, d) → isIndexMediaType mt = false →
  decode_doc pl = Some doc → c ∈ md_config doc :: md_layers doc → ld_digest c ≠ "" → ld_digest c ∈ seen →
  ∃ data repo' ok, l_blob lay (ld_digest c) = Some (Ok (data, ld_size c)) ∧ Z.of_nat (slen data) = ld_size c ∧
    s_BlobReader src repo' (ld_digest c) = Ok (data, ok) ∧ verifies (ld_digest c) data = Some true.
Proof.
  intros Hraw Hmt Hdoc Hc Hne Hd. destruct (co_blob src Hco _ _ _ _ _ _ _ Hraw Hmt Hdoc Hc Hne) as (_ & Hsize & Hap).
  apply Hseen, elem_of_app in Hd as [Hd|Hd].
  - exfalso. apply list_elem_of_fmap in Hd as (b & E & Hb). rewrite Forall_forall in Hms.
    destruct (Hms b Hb) as (ref' & mt' & doc' & Hr & _). by apply (Hap _ _ _ _ _ Hr).
  - apply list_elem_of_fmap in Hd as (b & E & Hb). destruct (Hitems_b b Hb) as (data & repo' & ok & Hin & Hr & Hlen & Hv).
    rewrite <-E in *. destruct (Hread _ _ Hin) as [_ Hl]. specialize (Hsize _ _ _ Hr).
    exists data, repo', ok. rewrite <-Hsize. done.
Qed.

Lemma safe_blob repo c data repo' ok : l_blob lay (ld_digest c) = Some (Ok (data, ld_size c)) →
  Z.of_nat (slen data) = ld_size c → s_BlobReader src repo' (ld_digest c) = Ok (data, ok) →
  verifies (ld_digest c) data = Some true → safe (im_blob lay repo (ld_digest c) (ld_size c)).
Proof.
  intros Hl Hlen Hr Hv s (F & M & B). unfold im_blob.
  rewrite (bind_Ret _ _ s (Ok (data, ld_size c)) s) by (unfold im_unless_panic; by rewrite Hl).
  rewrite Z.ltb_irrefl. rewrite stake_all by lia.
  assert (safe (sink_WriteBlob repo (ld_digest c) data)) as Hw.
  { intros s1 (F1 & M1 & B1). unfold sink_WriteBlob, next_fault. rewrite F1.
    destruct (k_blobs (im_dst s1) !! (repo, ld_digest c)) eqn:E.
    - split; [right; by exists tt|done].
    - rewrite Hv. split; [right; by exists tt|]. split_and!; [done|done|]. cbn.
      intros r d data' [[[= <- <-] <-]|[_ ?]]%lookup_insert_Some; [by exists repo', ok|by eapply B1]. }
  apply (safe_bind _ _ Hw); [|done]. intros _. apply safe_report.
Qed.

Lemma safe_blobs repo descs : (∀ c, c ∈ descs → ld_digest c ≠ "" →
    ∃ data repo' ok, l_blob lay (ld_digest c) = Some (Ok (data, ld_size c)) ∧ Z.of_nat (slen data) = ld_size c ∧
      s_BlobReader src repo' (ld_digest c) = Ok (data, ok) ∧ verifies (ld_digest c) data = Some true) →
  safe (im_blobs lay repo descs).
Proof.
  induction descs as [|c descs IH]; intros Hc; cbn; [apply safe_ret|].
  assert (safe (im_blobs lay repo descs)) by (apply IH; intros; apply Hc; [by right|done]).
  destruct (String.eqb_spec (ld_digest c) "") as [|Hne]; [done|]. apply safe_bind; [|done].
  destruct (Hc c ltac:(by left) Hne) as (data & repo' & ok & ? & ? & ? & ?). by eapply safe_blob.
Qed.

Lemma safe_children rec repo children : (∀ c, c ∈ children → l_has lay (ld_digest c) = Some true ∧
    safe (rec (ld_digest c) (ld_mediaType c))) → safe (im_children rec lay repo children).
Proof.
  induction children as [|c children IH]; intros Hc; cbn; [apply safe_ret|].
  destruct (Hc c ltac:(by left)) as [Hh Hrec]. intros s Hs.
  rewrite (bind_Ret _ _ s true s) by (unfold im_unless_panic; by rewrite Hh).
  apply (safe_bind _ _ Hrec); [|done]. intros _. apply IH. intros; apply Hc; by right.
Qed.

Lemma safe_manifest fuel repo b mt tag : b ∈ lp_manifests p →
  (∀ ref mt' doc, s_RawManifest src (pb_repo b) ref = Ok (pb_payload b, mt', pb_digest b) →
     decode_doc (pb_payload b) = Some doc → entry_media mt doc = mt') →
  safe (im_manifest fuel lay repo (pb_digest b) mt tag).
Proof.
  revert b mt tag. induction fuel as [|fuel IH]; intros b mt tag Hb Hmt s Hs; cbn [im_manifest]; [split; [by left|done]|].
  case_match; [split; [right; by exists tt|done]|]. set (s1 := mkImporter _ _ _).
  pose proof Hms as Hms'. rewrite Forall_forall in Hms'.
  destruct (Hms' b Hb) as (ref & mt' & doc & Hraw & Hsize & Hmax & Hd & Hdoc & Hc).
  destruct (co_hash src Hco _ _ _ _ _ Hraw) as [Hhash Hne]. specialize (Hmt _ _ _ Hraw Hdoc).
  destruct (Hread _ _ (Hitems_m b Hb)) as [_ Hl].
  assert (im_readManifest lay (pb_digest b) s1 = (Ret (pb_payload b), s1)) as Hrd.
  { unfold im_readManifest. rewrite (bind_Ret _ _ s1 (Ok (pb_payload b, Z.of_nat (slen (pb_payload b)))) s1)
      by (unfold im_unless_panic; by rewrite Hl).
    rewrite (bind_Ret _ _ s1 (pb_payload b, Z.of_nat (slen (pb_payload b))) s1) by done.
    rewrite <-Hsize, (proj2 (Z.ltb_ge _ _)) by done.
    rewrite (bind_Ret _ _ s1 (pb_payload b) s1).
    - rewrite Hhash, String.eqb_refl. done.
    - unfold im_lift, readBounded. by rewrite <-Hsize, (proj2 (Z.ltb_ge _ _)). }
  rewrite (bind_Ret _ _ _ _ _ Hrd), Hdoc, Hmt, (proj2 (String.eqb_neq _ _)) by done.
  match goal with |- _ ∧ ready (?m s1).2 => enough (safe m) as Hm by by apply Hm end.
  apply safe_bind.
  - destruct (isIndexMediaType mt') eqn:Hidx.
    + apply safe_children. intros c Hin. destruct (Hc c Hin) as [?|(p' & mt'' & d' & Hraw' & Hd')]; [done|].
      destruct (co_child src Hco _ _ _ _ _ _ _ Hraw Hidx Hdoc Hin) as [Hok Hty].
      assert (d' = ld_digest c) as -> by (by eapply (co_address src Hco)).
      destruct (met_manifest _ _ _ _ _ Hraw' Hd') as (b' & Hb' & Eb' & Ep').
      split; [rewrite <-Eb'; apply (Hread _ _ (Hitems_m b' Hb'))|]. rewrite <-Eb'. apply IH; [done|].
      intros ref2 mt2 doc2 Hraw2 Hdoc2. rewrite Ep' in Hdoc2. rewrite (Hty _ _ _ _ _ Hraw' Hdoc2). symmetry.
      rewrite Eb' in Hraw2. by eapply (co_type src Hco).
    + apply safe_blobs. intros c Hin Hne'. eapply met_blob; [exact Hraw|done|done|done|done|]. by apply Hc.
  - intros _. apply (safe_bind_ret (λ landed, landed = pb_digest b)).
    + intros s2 (F2 & M2 & B2). unfold sink_PutManifest, next_fault. rewrite F2. split; [right; eauto|].
      split_and!; [done| |done]. cbn. intros r d mt2 pl [[[= <- <-] [= <- <-]]|[_ ?]]%lookup_insert_Some; [|by eapply M2].
      exists (pb_repo b), ref. by rewrite Hhash.
    + intros s2 a s2'. unfold sink_PutManifest. destruct (next_fault _) as [[] ?]; [done|]. intros [= <- _]. done.
    + intros landed ->. rewrite String.eqb_refl. apply safe_report.
Qed.

(** What is below a planned digest is planned, and held wherever the manifests a
    repository holds are closed. *)
Lemma below_held k repo (P : string → Prop) :
  (∀ x, P x → node_ok lay k repo P x) →
  (∀ x mt pl, k_manifests k !! (repo, x) = Some (mt, pl) → ∃ repo' ref, s_RawManifest src repo' ref = Ok (pl, mt, x)) →
  ∀ d x, P d → d ∈ digests (lp_manifests p) → below src d x → P x ∧ x ∈ digests (lp_manifests p).
Proof.
  intros HP Hman d x HPd Hd. induction 1 as [|x repo' ref pl mt doc c Hx IH Hraw Hmt Hdoc Hc]; [done|].
  destruct IH as [HPx Hdx]. apply list_elem_of_fmap in Hdx as (b & -> & Hb).
  pose proof Hms as Hms'. rewrite Forall_forall in Hms'.
  destruct (Hms' b Hb) as (ref2 & mt2 & doc2 & Hraw2 & _ & _ & _ & Hdoc2 & Hch).
  assert (mt2 = mt) as -> by (by eapply (co_type src Hco)).
  assert (pb_payload b = pl) as Epl.
  { eapply (co_unique src Hco); [exact Hraw|]. by apply (co_hash src Hco _ _ _ _ _ Hraw2). }
  rewrite Epl in Hdoc2. assert (doc2 = doc) as -> by congruence. rewrite Hmt in Hch.
  destruct (Hch c Hc) as [?|(p' & mt' & d' & Hraw' & Hd')]; [done|].
  destruct (co_child src Hco _ _ _ _ _ _ _ Hraw Hmt Hdoc Hc) as [Hok _].
  assert (d' = ld_digest c) as -> by (by eapply (co_address src Hco)).
  destruct (met_manifest _ _ _ _ _ Hraw' Hd') as (b' & Hb' & Eb' & _).
  split; [|rewrite <-Eb'; by apply list_elem_of_fmap_2].
  destruct (HP _ HPx) as (mt3 & pl3 & doc3 & Hk & Hh3 & Hdoc3 & Hc3).
  destruct (Hman _ _ _ Hk) as (repo3 & ref3 & Hraw3).
  assert (pl3 = pl) as -> by (eapply (co_unique src Hco); [exact Hraw|done]).
  assert (mt3 = mt) as -> by (by eapply (co_type src Hco)). rewrite Hmt in Hc3.
  assert (doc3 = doc) as -> by congruence. apply (Hc3 c Hc). rewrite <-Eb'.
  apply (Hread _ _ (Hitems_m b' Hb')).
Qed.

(** Every entry of the index is restored. *)
Lemma entries_restored fuel ctx sel es s s' r : Forall2 (λ ref e, planned_entry src ref e seen) sel es →
  Forall (λ ref, refOf (mkDesc "" "" 0 (ref_string ref)) "" = Ok ref) sel → Forall (λ c, c = false) ctx → ready s →
  import_entries fuel lay "" ctx es s = (r, s') → r ≠ OutOfFuel →
  r = Ret tt ∧ ready s' ∧
  ir_Entries (im_report s') = ir_Entries (im_report s) ++ zip_with (λ ref e, mkImportEntry ref (ld_digest e) None) sel es.
Proof.
  intros Hes Hrefs. revert ctx s. induction Hes as [|ref e sel es (pl & Hraw & Hname & Hd) Hes IH]; intros ctx s Hctx Hs Hi Hr;
    cbn [import_entries] in Hi.
  { injection Hi as <- <-. split_and!; [done..|]. by rewrite app_nil_r. }
  apply Forall_cons in Hrefs as [Href Hrefs].
  assert (default false (head ctx) = false) as Hc by (destruct Hctx; [done|]; by subst).
  assert (Forall (λ c, c = false) (tail ctx)) as Hctx' by (by destruct Hctx). rewrite Hc in Hi.
  assert (refOf e "" = Ok ref) as Href' by (unfold refOf in *; cbn in Href; by rewrite Hname).
  destruct (met_manifest _ _ _ _ _ Hraw Hd) as (b & Hb & Eb & Ep).
  assert (safe (im_manifest fuel lay (lr_Repo ref) (pb_digest b) (ld_mediaType e) (lr_Tag ref))) as Hsafe.
  { apply safe_manifest; [done|]. intros ref2 mt2 doc2 Hraw2 _. rewrite Eb in Hraw2.
    destruct (co_hash src Hco _ _ _ _ _ Hraw) as [_ Hne]. unfold entry_media. rewrite (proj2 (String.eqb_neq _ _)) by done.
    by eapply (co_type src Hco). }
  destruct (Hsafe s Hs) as [Hres Hs1]. rewrite Eb in Hres, Hs1.
  pose proof (manifest_entries lay fuel (lr_Repo ref) (ld_digest e) (ld_mediaType e) (lr_Tag ref) s) as Hent.
  unfold mbind, im_bind, import_entry in Hi. rewrite Href' in Hi.
  destruct (im_manifest _ _ _ _ _ _ s) as [[[]|err| |] s1]; cbn in Hres, Hs1, Hent; [| | |].
  - destruct (IH Hrefs (tail ctx) _ Hctx' (Hs1 : ready (on_report _ s1)) Hi Hr) as (-> & Hs' & He).
    split_and!; [done..|]. rewrite He. cbn. by rewrite Hent, <-app_assoc.
  - destruct Hres as [?|[? ?]]; done.
  - destruct Hres as [?|[? ?]]; done.
  - by injection Hi as <- _.
Qed.
End importing_export.

(** * References *)

Lemma last_index_before c a b : ¬ in_str c b → last_index_byte c (a +:+ b) = last_index_byte c a.
Proof.
  intros Hb. induction a as [|x a IH]; [by apply last_index_none|].
  rewrite sapp_cons. cbn [last_index_byte]. by rewrite IH.
Qed.

Lemma last_index_lt c s i : last_index_byte c s = Some i → i < slen s.
Proof.
  revert i. induction s as [|a s IH]; intros i; cbn; [done|].
  destruct (last_index_byte c s) as [j|]; [intros [= <-]; specialize (IH j eq_refl); lia|].
  destruct (Ascii.eqb a c); intros [= <-]; lia.
Qed.

(** A reference as an export names it: a valid repository of at least two
    components, and a valid tag. *)
Definition exportable `{LayoutLib} (ref : LayoutRef) : Prop :=
  ref_name_ok (lr_Repo ref) = true ∧ in_str "/" (lr_Repo ref) ∧ lr_Tag ref ≠ "" ∧ ref_tag_ok (lr_Tag ref) = true.

Lemma exportable_ref `{LayoutLib} ref : exportable ref → refOf (mkDesc "" "" 0 (ref_string ref)) "" = Ok ref.
Proof.
  destruct ref as [repo tag]. intros (Hn & Hs & Hne & Ht). cbn in *. destruct (ref_tag_plain _ Ht) as (Hc & Hsl & _).
  unfold refOf, ref_string. cbn [ld_name lr_Repo lr_Tag].
  rewrite (proj2 (String.eqb_neq _ _)) by (destruct repo; cbn; done).
  replace (contains_byte (repo +:+ ":" +:+ tag) "/") with true
    by (symmetry; apply contains_byte_spec, in_str_app; by left). cbn [negb].
  unfold split_ref. change (":" +:+ tag) with (String ":" tag). rewrite (last_index_app ":" repo tag) by done.
  rewrite last_index_before by (cbn; intros [?|?]; done).
  assert (∃ j, last_index_byte "/" repo = Some j) as [j Hj].
  { clear -Hs. induction repo as [|a repo IH]; [done|]. cbn in *.
    destruct (last_index_byte "/" repo) eqn:E; [eauto|]. destruct Hs as [->|Hs]; [rewrite Ascii.eqb_refl; eauto|].
    destruct (IH Hs) as [? ?]. congruence. }
  rewrite Hj. apply last_index_lt in Hj. rewrite (proj2 (Nat.ltb_lt _ _)) by done.
  change (String ":" tag) with (":" +:+ tag). rewrite stake_app_length.
  replace (sdrop (S (slen repo)) (repo +:+ ":" +:+ tag)) with tag.
  - unfold validRef. rewrite Hn, Ht. cbn. by rewrite andb_false_r.
  - clear. induction repo as [|a repo IH]; [done|]. cbn in *. exact IH.
Qed.

Section roundtrip.
Context `{LayoutLib} (src : Source) (Hco : coherent src).

(** The items of an exported plan, with their files. *)
Lemma exported_items p fm fb seen :
  Forall (listed_manifest src seen []) (lp_manifests p) → Forall (listed_blob src) (lp_blobs p) →
  Forall2 (λ b f, written_as b (stake (Z.to_nat (pb_size b)) (pb_payload b)) f) (lp_manifests p) fm →
  Forall2 (λ b f, ∃ stream, s_BlobReader src (pb_repo b) (pb_digest b) = Ok stream ∧
    written_as b (stake (Z.to_nat (pb_size b)) stream.1) f) (lp_blobs p) fb →
  ∃ items, Forall2 item_file items (fm ++ fb) ∧ items.*1 = digests (lp_manifests p) ++ digests (lp_blobs p) ∧
    (∀ b, b ∈ lp_manifests p → (pb_digest b, pb_payload b) ∈ items) ∧
    (∀ b, b ∈ lp_blobs p → ∃ data repo ok, (pb_digest b, data) ∈ items ∧
       s_BlobReader src repo (pb_digest b) = Ok (data, ok) ∧ Z.of_nat (slen data) = pb_size b ∧
       verifies (pb_digest b) data = Some true).
Proof.
  intros Hms Hbs Hfm Hfb.
  set (im := (λ b, (pb_digest b, pb_payload b)) <$> lp_manifests p).
  set (ib := zip_with (λ b (f : string * Z * string), (pb_digest b, f.2)) (lp_blobs p) fb). exists (im ++ ib).
  assert (Forall2 item_file im fm) as Him.
  { subst im. clear -Hms Hfm. induction Hfm as [|b f bs fs (rel & Hp & -> & _ & _) Hfm IH]; [constructor|].
    apply Forall_cons in Hms as [(ref & mt & doc & _ & Hsize & _ & Hd & _) Hms]. constructor; [|by apply IH].
    exists rel. cbn. split_and!; [done..|]. by rewrite Hsize, Nat2Z.id, stake_all. }
  assert (Forall2 (λ b f, dg_ok (pb_digest b) = true ∧ ∃ rel repo ok, blobPath (pb_digest b) = Some rel ∧
    f = (rel, Z.of_nat (slen f.2), f.2) ∧ Z.of_nat (slen f.2) = pb_size b ∧
    s_BlobReader src repo (pb_digest b) = Ok (f.2, ok) ∧ verifies (pb_digest b) f.2 = Some true) (lp_blobs p) fb) as Hgood.
  { clear -Hco Hbs Hfb. induction Hfb as [|b f bs fs ([data ok] & Hr & rel & Hp & -> & Hlen & Hv) Hfb IH]; [constructor|].
    apply Forall_cons in Hbs as [(repo & ref & pl & mt & d & doc & c & Hraw & Hdoc & Hmt & Hc & Hne & E1 & E2) Hbs].
    constructor; [|by apply IH]. destruct (co_blob src Hco _ _ _ _ _ _ _ Hraw Hmt Hdoc Hc Hne) as (Hok & Hsize & _).
    rewrite E1 in *. specialize (Hsize _ _ _ Hr). cbn [fst snd] in *. split; [done|].
    assert (stake (Z.to_nat (pb_size b)) data = data) as Hst by (apply stake_all; lia). rewrite Hst in *.
    exists rel, (pb_repo b), ok. split_and!; try done. by rewrite <-Hlen. }
  split_and!.
  - apply Forall2_app; [done|]. subst ib. clear -Hgood.
    induction Hgood as [|b f bs fs (Hok & rel & repo & ok & Hp & Hf & _) Hg IH]; [constructor|].
    constructor; [|done]. exists rel. cbn. done.
  - subst im ib. rewrite fmap_app, <-list_fmap_compose. f_equal. clear -Hgood.
    induction Hgood as [|b f bs fs _ _ IH]; [done|]. cbn. by f_equal.
  - intros b Hb. apply elem_of_app. left. subst im. apply list_elem_of_fmap. by exists b.
  - intros b Hb. apply list_elem_of_lookup in Hb as [i Hi].
    destruct (Forall2_lookup_l _ _ _ _ _ Hgood Hi) as (f & Hf & Hok & rel & repo & ok & Hp & _ & Hlen & Hr & Hv).
    exists f.2, repo, ok. split_and!; try done. apply elem_of_app. right. apply list_elem_of_lookup. exists i.
    subst ib. by rewrite lookup_zip_with, Hi, Hf.
Qed.

Definition empty_sink : Sink := mkSink ∅ ∅ ∅ [].

(** C36: Export and import are inverse on a coherent source: documents hash to their digest
    and no others do, descriptors tell the type and size of what they name, a digest has
    one media type and is not both a manifest and a blob. A selection of references with a
    repository of at least two components and a valid tag, planned with nothing missing,
    written to the end with nothing found missing, as a directory or a tar, with an index
    document and a number of files within the reader's bounds, imports into an empty store
    without a failed entry; there every selected tag points at the digest it had, with all
    the documents below it byte for byte, and all their blobs. *)
Theorem export_import_roundtrip fuel sel p output format overwrite o report o' input
    (Hsel : Forall exportable sel) (Hplan : NewPlan fuel src sel = Walked p) (Hmissing : lp_Missing p = [])
    (Hwrite : LayoutWrite src p output format overwrite o = (Wrote report, o')) (Hwhole : er_Missing report = [])
    (Hindex : (Z.of_nat (slen (marshalIndex (lp_Index p))) ≤ maxManifestBytes)%Z)
    (Hcount : (4 + Z.of_nat (length (lp_manifests p) + length (lp_blobs p)) ≤ maxLayoutEntries)%Z)
    (Hinput : input ≠ "") :
  ∃ r k, Import input (ot_final o') "" [] empty_sink = (Ret r, k) ∧ import_failed r = 0 ∧
    ∀ ref, ref ∈ sel → ∃ payload mt d, s_RawManifest src (lr_Repo ref) (lr_Tag ref) = Ok (payload, mt, d) ∧
      k_tags k !! (lr_Repo ref, lr_Tag ref) = Some d ∧
      ∀ x, below src d x → ∃ mt' p', k_manifests k !! (lr_Repo ref, x) = Some (mt', p') ∧
        (∃ repo' ref', s_RawManifest src repo' ref' = Ok (p', mt', x)) ∧
        (isIndexMediaType mt' = false → ∀ doc c, decode_doc p' = Some doc → c ∈ md_config doc :: md_layers doc →
           ld_digest c ≠ "" → ∃ data repo' ok, k_blobs k !! (lr_Repo ref, ld_digest c) = Some data ∧
             s_BlobReader src repo' (ld_digest c) = Ok (data, ok)).
Proof.
  destruct (NewPlan_complete src fuel sel p Hplan Hmissing) as (seen & Hnd & Hseen & Hms & Hbs & Hes).
  destruct (LayoutWrite_wrote src p _ _ _ _ _ _ Hwrite Hwhole) as (fmt & fm & fb & _ & _ & Hfinal & Hfm & Hfb).
  destruct (exported_items p fm fb seen Hms Hbs Hfm Hfb) as (items & Hit & Hkeys & Him & Hib).
  destruct (export_read_back fmt p fm fb items Hit) as (lay & Hopen & Hidx & Hign & Hread); [by rewrite Hkeys|done| |].
  { apply (f_equal length) in Hkeys. rewrite length_fmap, length_app in Hkeys. unfold digests in Hkeys.
    rewrite !length_fmap in Hkeys. lia. }
  rewrite <-Hfinal in Hopen.
  pose proof (import_total input (ot_final o') "" [] empty_sink) as Htot.
  destruct (Import input (ot_final o') "" [] empty_sink) as [r k] eqn:Himp. pose proof Himp as Himp'.
  unfold Import in Himp'. rewrite (proj2 (String.eqb_neq _ _)) in Himp' by done. rewrite Hopen in Himp'. cbn [mbind res_bind] in Himp'.
  rewrite Hidx in Himp'. cbn [mbind res_bind] in Himp'.
  destruct (import_entries _ lay "" [] (lp_Index p) (new_importer lay empty_sink)) as [re s'] eqn:Hent.
  assert (ready src (new_importer lay empty_sink)) as Hready.
  { split_and!; [done| |]; intros *; cbn; by rewrite lookup_empty. }
  assert (Forall (λ ref, refOf (mkDesc "" "" 0 (ref_string ref)) "" = Ok ref) sel) as Hrefs.
  { eapply Forall_impl; [exact Hsel|]. apply exportable_ref. }
  assert (re ≠ OutOfFuel) as Hne. { intros ->. cbn in Himp', Htot. injection Himp' as <- _. done. }
  destruct (entries_restored src Hco p seen items lay Hseen Hms Hbs Him Hib Hread _ [] sel (lp_Index p) _ _ _
    Hes Hrefs (Forall_nil_2 _) Hready Hent Hne) as (-> & Hready' & Hentries).
  injection Himp' as <- <-. exists (im_report s'), (im_dst s'). split; [done|].
  assert (import_failed (im_report s') = 0) as Hfail.
  { unfold import_failed. rewrite Hentries. cbn. clear -Hes. induction Hes as [|? ? ? ? _ _ IH]; [done|]. cbn. exact IH. }
  split; [done|].
  assert (∀ ref d d', lr_Tag ref ≠ "" → named "" (lp_Index p) ref d → named "" (lp_Index p) ref d' → d = d') as Hnames.
  { assert (∀ e ref, e ∈ lp_Index p → refOf e "" = Ok ref → planned_entry src ref e seen) as Hpe.
    { intros e ref [i Hi]%list_elem_of_lookup Hr. destruct (Forall2_lookup_r _ _ _ _ _ Hes Hi) as (ref' & Hi' & He).
      rewrite Forall_lookup in Hrefs. specialize (Hrefs _ _ Hi'). destruct He as (pl & H1 & H2 & H3).
      assert (refOf e "" = Ok ref') as Hr' by (unfold refOf in *; cbn in Hrefs; by rewrite H2).
      assert (ref = ref') as -> by congruence. by exists pl. }
    intros ref d d' _ (e & He & Hr & <-) (e' & He' & Hr' & <-).
    destruct (Hpe _ _ He Hr) as (pl & H1 & _), (Hpe _ _ He' Hr') as (pl' & H1' & _). congruence. }
  pose proof (import_lands_whole input (ot_final o') "" [] empty_sink _ _ lay (lp_Index p) Hopen Hidx Hnames Himp Hfail) as Hrest.
  intros ref [i Hi]%list_elem_of_lookup. destruct (Forall2_lookup_l _ _ _ _ _ Hes Hi) as (e & Hie & pl & Hraw & Hname & Hd).
  destruct (Forall2_lookup_l _ _ _ _ _ Hrest Hie) as (ent & _ & ref' & Hr' & -> & (P & HPd & HP) & Htag).
  rewrite Forall_lookup in Hrefs, Hsel. specialize (Hrefs _ _ Hi). specialize (Hsel _ _ Hi).
  assert (refOf e "" = Ok ref) as Hr2 by (unfold refOf in *; cbn in Hrefs; by rewrite Hname).
  assert (ref' = ref) as -> by congruence.
  exists pl, (ld_mediaType e), (ld_digest e). split; [done|]. split; [apply Htag, Hsel|].
  destruct Hready' as (_ & Hman & Hblob). intros x Hx.
  destruct (met_manifest src Hco p seen Hseen Hms Hbs _ _ _ _ _ Hraw Hd) as (b & Hb & Eb & _).
  destruct (below_held src Hco p seen items lay Hseen Hms Hbs Him Hread (im_dst s') (lr_Repo ref) P HP
    (λ x mt pl, Hman (lr_Repo ref) x mt pl) (ld_digest e) x HPd) as [HPx _];
    [rewrite <-Eb; by apply list_elem_of_fmap_2|done|].
  destruct (HP x HPx) as (mt' & p' & doc & Hk & _ & Hdoc & Hc). exists mt', p'. split; [done|].
  split; [by eapply Hman|]. intros Hmt doc' c Hdoc' Hin Hne'. rewrite Hmt in Hc. simplify_eq.
  destruct (Hc c Hin Hne') as [data Hdata]. destruct (Hblob _ _ _ Hdata) as (repo' & ok & Hr). by exists data, repo', ok.
Qed.
End roundtrip.

(** * The destination *)

Section in_place.
Context `{LayoutLib}.

(** The destination is left alone. *)
Definition leaves_final {A} (m : ex A) : Prop := ∀ o, ot_final (m o).2 = ot_final o.

Lemma leaves_bind {A B} (m : ex A) (f : A → ex B) : leaves_final m → (∀ a, leaves_final (f a)) → leaves_final (m ≫= f).
Proof.
  intros Hm Hf o. specialize (Hm o). unfold mbind, ex_bind. destruct (m o) as [[a|e| |] o1]; cbn in *; [|done..].
  by rewrite Hf.
Qed.
Lemma leaves_ret {A} (a : A) : leaves_final (mret a).
Proof. done. Qed.
Lemma leaves_lift {A} (r : res exp_error A) : leaves_final (ex_lift r).
Proof. done. Qed.
Lemma leaves_call f : (∀ o, ot_final (f o) = ot_final o) → leaves_final (xcall f).
Proof.
  intros Hf o. unfold xcall. destruct (next_xfault o) as [[] o1] eqn:E; apply next_xfault_same in E as [_ E]; cbn; [|done..].
  by rewrite Hf.
Qed.
Lemma leaves_remove : leaves_final (remove_all ot_staging set_staging).
Proof.
  intros o. unfold remove_all. destruct (next_xfault o) as [[] o1] eqn:E; apply next_xfault_same in E as [_ E]; done.
Qed.
Lemma leaves_ctx : leaves_final check_ctx.
Proof. intros o. unfold check_ctx. by case_match. Qed.
#[local] Hint Resolve leaves_ret leaves_lift leaves_remove leaves_ctx : go.

Lemma leaves_discard {A} (m : ex A) : leaves_final m → leaves_final (or_discard m).
Proof.
  intros Hm o. unfold or_discard. specialize (Hm o). destruct (m o) as [[a|e| |] o1]; try done. cbn in Hm.
  pose proof (leaves_remove o1) as Hr. destruct (remove_all _ set_staging o1) as [[] o2]; cbn in *; congruence.
Qed.

Lemma leaves_blob d size stream : leaves_final (writer_blob d size stream).
Proof.
  intros o. unfold writer_blob. destruct (blobPath d); [|done]. destruct (copyVerified _ _ _) as [[read verdict]|]; [|done].
  apply (leaves_bind (xcall _)); [by apply leaves_call|auto with go].
Qed.

Lemma leaves_layout fmt src p : leaves_final (write_layout fmt src p).
Proof.
  assert (leaves_final (writer_close fmt)) as Hc by (destruct fmt; [apply leaves_ret|by apply leaves_call]).
  assert (leaves_final (writeInto src p)) as Hw.
  { unfold writeInto. apply leaves_bind; [by apply leaves_call|intros _]. apply leaves_bind; [by apply leaves_call|intros _].
    apply leaves_bind.
    - generalize (lp_manifests p) at 1. intros bs. generalize (count_file (Z.of_nat (slen (marshalIndex (lp_Index p))))
        (count_file (Z.of_nat (slen layoutMarkerBytes)) (mkExportReport (Z.of_nat (length (lp_Refs p))) 0 0 0 0 (lp_Missing p)))).
      induction bs as [|b bs IH]; intros r; cbn; [auto with go|]. apply leaves_bind; [auto with go|intros _].
      apply leaves_bind; [apply leaves_blob|intros _]. apply IH.
    - generalize (lp_blobs p). intros bs. induction bs as [|b bs IH]; intros r; cbn; [auto with go|].
      apply leaves_bind; [auto with go|intros _]. destruct (s_BlobReader src _ _) as [stream|[]]; [|apply IH|auto with go].
      apply leaves_bind; [apply leaves_blob|intros _]. apply IH. }
  intros o. specialize (Hw o). unfold write_layout. destruct (writeInto src p o) as [[r|e| |] o1]; cbn in Hw; try done.
  - rewrite <-Hw. by apply (leaves_bind (writer_close fmt)).
  - specialize (Hc o1). destruct (writer_close fmt o1) as [[] o2]; cbn in *; congruence.
Qed.

Lemma leaves_inspect overwrite : leaves_final (inspect_target overwrite).
Proof.
  intros o. unfold inspect_target. destruct (next_xfault o) as [[] o1] eqn:E; apply next_xfault_same in E as [_ E]; try done.
  destruct (ot_final o1) eqn:E1; [|cbn; congruence]. destruct overwrite; cbn; congruence.
Qed.

(** What may be left of an old export: nothing, or some of its own files, unchanged. *)
Definition remnant (old new : option medium) : Prop :=
  match old, new with
  | _, None => True
  | Some (MDir files), Some (MDir files') => files' ⊆ files
  | Some (MTar a), Some (MTar a') => a' = a
  | _, Some _ => False
  end.
Lemma remnant_refl m : remnant m m.
Proof. destruct m as [[]|]; cbn; done. Qed.
Lemma remnant_left keep m : remnant m (m ≫= left_over keep).
Proof.
  destruct m as [[files|a]|]; cbn; [|by destruct (keep "")|done]. apply map_filter_subseteq.
Qed.
(** Where an export that does not succeed can leave the destination: as it was, or,
    when it may replace it, with no more than remains of the old export. *)
Definition spared (overwrite : bool) (o o' : Outlet) : Prop :=
  ot_final o' = ot_final o ∨ (overwrite = true ∧ remnant (ot_final o) (ot_final o')).

Lemma bind_cases {A B} (m : ex A) (f : A → ex B) o r o' : (m ≫= f) o = (r, o') →
  (∃ a o1, m o = (Wrote a, o1) ∧ f a o1 = (r, o')) ∨
  ((∀ b, r ≠ Wrote b) ∧ ∃ r1, m o = (r1, o') ∧ ∀ a, r1 ≠ Wrote a).
Proof.
  unfold mbind, ex_bind. destruct (m o) as [[a|e| |] o1]; intros Hb; [left; eauto|..]; injection Hb as <- <-; right;
    (split; [done|eexists; split; done]).
Qed.

Lemma discard_final {A} (m : ex A) o r o' : or_discard m o = (r, o') →
  ∃ r1 o1, m o = (r1, o1) ∧ ot_final o' = ot_final o1 ∧ ((∀ a, r ≠ Wrote a) → ∀ a, r1 ≠ Wrote a).
Proof.
  unfold or_discard. destruct (m o) as [r1 o1]. intros Hd. exists r1, o1. split; [done|].
  destruct r1 as [a|e| |]; [injection Hd as <- <-; naive_solver| |injection Hd as <- <-; done..].
  pose proof (leaves_remove o1) as Hl. destruct (remove_all _ set_staging o1) as [[] o2]; injection Hd as <- <-; done.
Qed.

(** A step that leaves the destination alone, first. *)
Lemma first_leaves {A B} overwrite (m : ex A) (f : A → ex B) o0 o r o' : leaves_final m → ot_final o = ot_final o0 →
  (m ≫= f) o = (r, o') →
  (∃ a o1, ot_final o1 = ot_final o0 ∧ m o = (Wrote a, o1) ∧ f a o1 = (r, o')) ∨ ((∀ b, r ≠ Wrote b) ∧ spared overwrite o0 o').
Proof.
  intros Hm Ho Hb. specialize (Hm o). apply bind_cases in Hb as [(a & o1 & E & Hf)|[Hr (r1 & E & _)]]; rewrite E in Hm; cbn in Hm.
  - left. exists a, o1. split_and!; [congruence|done..].
  - right. split; [done|]. left. congruence.
Qed.

(** C27: An export is at its destination whole, or the destination was spared.  A
    write that succeeds leaves nothing beside the destination, and there exactly the
    layout of the plan in the format asked for, closed: the marker, the index document,
    every planned manifest, and every planned blob that the source has, each of the
    planned size and with bytes that verify against its digest; the blobs the source no
    longer has are exactly those the report adds as missing.  One that fails, panics or
    dies, wherever that happens and with a removal stopped half-way too, leaves the
    destination as it was or, only when it was told to replace it, with nothing more than
    what remains of the old export: some of its files unchanged, or none.  Without that
    permission an existing destination is never touched and the write does not succeed. *)
Theorem export_in_place src p output format overwrite o r o'
    (Hwrite : LayoutWrite src p output format overwrite o = (r, o')) :
  ((∃ report fmt fs, r = Wrote report ∧ ParseFormat format = Some fmt ∧ ot_staging o' = None ∧
      ot_final o' = Some (close_medium (planted fs (blank fmt))) ∧ layout_written src p report fs) ∨
   ((∀ report, r ≠ Wrote report) ∧ spared overwrite o o')) ∧
  (overwrite = false → is_Some (ot_final o) → ot_final o' = ot_final o ∧ ∀ report, r ≠ Wrote report).
Proof.
  unfold LayoutWrite in Hwrite.
  destruct (String.eqb output ""); [injection Hwrite as <- <-; split; [right; split; [done|by left]|done]|].
  destruct (ParseFormat format) as [fmt|] eqn:Hfmt; [|injection Hwrite as <- <-; split; [right; split; [done|by left]|done]].
  assert (overwrite = false → is_Some (ot_final o) → ∀ u o1, inspect_target overwrite o ≠ (Wrote u, o1)) as Hexists.
  { intros -> [m Hm] u o1. unfold inspect_target. destruct (next_xfault o) as [[] o2] eqn:E;
      apply next_xfault_same in E as [_ E]; try done. by rewrite E, Hm. }
  apply (first_leaves overwrite _ _ o) in Hwrite as [(u1 & o1 & F1 & E1 & Hwrite)|[Hr Hs]]; [| |apply leaves_inspect|done].
  2:{ split; [by right|]. intros Ho _. split; [|done]. destruct Hs as [?|[? _]]; [done|congruence]. }
  split; [|intros Ho Hx; by destruct (Hexists Ho Hx u1 o1)]. clear Hexists E1.
  apply (first_leaves overwrite _ _ o) in Hwrite as [(u2 & o2 & F2 & _ & Hwrite)|?]; [|by right|apply leaves_remove|done].
  apply (first_leaves overwrite _ _ o) in Hwrite as [(u3 & o3 & F3 & _ & Hwrite)|?]; [|by right|by apply leaves_call|done].
  apply (first_leaves overwrite _ _ o) in Hwrite as [(u4 & o4 & F4 & E4 & Hwrite)|?]; [|by right|by apply leaves_call|done].
  apply newLayoutWriter_blank in E4.
  apply (first_leaves overwrite _ _ o) in Hwrite as [(report & o5 & F5 & E5 & Hwrite)|?];
    [|by right|by apply leaves_discard, leaves_layout|done].
  apply or_discard_wrote, write_layout_whole in E5 as (fs & E5 & Hfs); [|done].
  assert (∀ r1 o6, (if overwrite then remove_all ot_final set_final else mret tt) o5 = (r1, o6) →
    ot_staging o6 = ot_staging o5 ∧ spared overwrite o o6) as Hremove.
  { intros r1 o6 E6. destruct overwrite; [|injection E6 as <- <-; split; [done|by left]].
    unfold remove_all in E6. destruct (next_xfault o5) as [f o5b] eqn:E; apply next_xfault_same in E as [E Ef].
    destruct f; injection E6 as <- <-; (split; [done|]); right; (split; [done|]); cbn; rewrite ?Ef, <-?F5;
      first [apply remnant_left|apply remnant_refl|by destruct (ot_final o5) as [[]|]]. }
  apply bind_cases in Hwrite as [(u6 & o6 & E6 & Hwrite)|[Hr (r6 & E6 & _)]].
  2:{ right. split; [done|]. destruct (discard_final _ _ _ _ E6) as (r1 & o6 & Em & Hf & _).
      destruct (Hremove _ _ Em) as [_ Hsp]. unfold spared in *. by rewrite Hf. }
  apply or_discard_wrote in E6. destruct (Hremove _ _ E6) as [Hst Hsp].
  apply bind_cases in Hwrite as [(u7 & o7 & E7 & Hwrite)|[Hr (r7 & E7 & Hn7)]].
  - left. injection Hwrite as <- <-. apply or_discard_wrote in E7. unfold xcall in E7.
    destruct (next_xfault o6) as [[] o6b] eqn:E; try discriminate E7. injection E7 as _ <-.
    apply next_xfault_same in E as [E _]. exists report, fmt, fs. cbn. split_and!; try done. congruence.
  - right. split; [done|]. destruct (discard_final _ _ _ _ E7) as (r1 & o6b & Em & Hf & Hn). unfold spared in *. rewrite Hf.
    unfold xcall in Em. destruct (next_xfault o6) as [f o6c] eqn:E. apply next_xfault_same in E as [_ E].
    destruct f; injection Em as <- <-; try by rewrite E.
    by destruct (Hn Hn7 tt).
Qed.
End in_place.

(** * The projection *)

(** What [archive/tar] spends on an entry: a header block, the content padded to
    a block, and two blocks more when the size needs an extended header; and on the
    end of the archive. *)
Definition tar_cost (size : Z) : Z :=
  (512 + 512 * ((size + 511) `div` 512) + if 2 ^ 33 <=? size then 1024 else 0)%Z.
Definition sumZ (l : list Z) : Z := fold_right Z.add 0%Z l.
Definition archive_bytes (es : list lt_entry) : Z := (sumZ (tar_cost ∘ lt_size <$> es) + 1024)%Z.

Lemma add64_exact a b : is_int64 (a + b)%Z → add64 a b = (a + b)%Z.
Proof. apply wrap64_id. Qed.

Lemma sumZ_nonneg l : Forall (λ z, 0 ≤ z)%Z l → (0 ≤ sumZ l)%Z.
Proof. induction 1 as [|z l Hz _ IH]; [done|]. change (sumZ (z :: l)) with (z + sumZ l)%Z. cbn beta in Hz. lia. Qed.

Lemma sum64_exact l acc : Forall (λ z, 0 ≤ z)%Z l → (0 ≤ acc)%Z → (acc + sumZ l ≤ int64_max)%Z →
  sum64 l acc = (acc + sumZ l)%Z.
Proof.
  intros Hl. revert acc. induction Hl as [|z l Hz Hl IH]; intros acc Ha Hs; [cbn; lia|].
  change (sumZ (z :: l)) with (z + sumZ l)%Z in *. change (sum64 (z :: l) acc) with (sum64 l (add64 acc z)).
  pose proof (sumZ_nonneg l Hl). rewrite add64_exact by (unfold is_int64, int64_min; lia). rewrite IH; lia.
Qed.

Lemma roundUpBlock_exact z : (0 ≤ z)%Z → (z + 512 ≤ int64_max)%Z → roundUpBlock z = (512 * ((z + 511) `div` 512))%Z.
Proof.
  intros Hz Hc. unfold roundUpBlock, tarBlockSize, sub64. rewrite Z.rem_mod_nonneg by lia.
  pose proof (Z.mod_pos_bound z 512 ltac:(lia)). pose proof (Z.div_mod z 512 ltac:(lia)) as Hdm.
  assert (int64_min ≤ 0)%Z by done.
  destruct (Z.eqb_spec (z `mod` 512) 0) as [E|E].
  - rewrite <-(Z.div_unique (z + 511) 512 (z `div` 512) 511); lia.
  - rewrite (wrap64_id (z - _)) by (unfold is_int64; lia). rewrite add64_exact by (unfold is_int64; lia).
    rewrite <-(Z.div_unique (z + 511) 512 (z `div` 512 + 1) (z `mod` 512 - 1)); lia.
Qed.

Lemma tarEntrySize_exact z : (0 ≤ z)%Z → (tar_cost z ≤ int64_max)%Z → tarEntrySize z = tar_cost z.
Proof.
  intros Hz Hc. unfold tarEntrySize, tar_cost, tarHeaderSize, tarBlockSize in *.
  change ustarMaxSize with (2 ^ 33 - 1)%Z. generalize dependent (2 ^ 33)%Z. intros big Hc.
  assert (int64_min ≤ 0)%Z by done.
  pose proof (Z.mod_pos_bound (z + 511) 512 ltac:(lia)). pose proof (Z.div_mod (z + 511) 512 ltac:(lia)) as Hdm.
  rewrite roundUpBlock_exact by (destruct (_ <=? _)%Z; lia).
  rewrite (add64_exact 512) by (unfold is_int64; destruct (_ <=? _)%Z; lia).
  destruct (Z.ltb_spec (big - 1) z), (Z.leb_spec big z); try lia.
  rewrite add64_exact; [lia|]. unfold is_int64. lia.
Qed.

Lemma tar_cost_nonneg z : (0 ≤ z → 0 ≤ tar_cost z)%Z.
Proof. intros Hz. unfold tar_cost. pose proof (Z.div_pos (z + 511) 512). destruct (_ <=? _)%Z; lia. Qed.

Lemma tar_costs_exact l : Forall (λ z, 0 ≤ z)%Z l → (sumZ (tar_cost <$> l) ≤ int64_max)%Z →
  tarEntrySize <$> l = tar_cost <$> l.
Proof.
  induction 1 as [|z l Hz Hl IH]; intros Hs; [done|]. rewrite !fmap_cons in *.
  change (sumZ (tar_cost z :: (tar_cost <$> l))) with (tar_cost z + sumZ (tar_cost <$> l))%Z in Hs.
  pose proof (tar_cost_nonneg z Hz). assert (0 ≤ sumZ (tar_cost <$> l))%Z.
  { apply sumZ_nonneg, Forall_fmap. eapply Forall_impl; [done|]. apply tar_cost_nonneg. }
  rewrite tarEntrySize_exact, IH by (done || lia). done.
Qed.

Lemma sumZ_app l l' : sumZ (l ++ l') = (sumZ l + sumZ l')%Z.
Proof. unfold sumZ. induction l as [|z l IH]; cbn; [done|]. rewrite IH. lia. Qed.

Lemma written_size `{LayoutLib} b data f : written_as b data f → f.1.2 = pb_size b ∧ (0 ≤ pb_size b)%Z.
Proof. intros (rel & _ & -> & <- & _). cbn. split; [done|lia]. Qed.

Lemma written_sizes `{LayoutLib} (data : plannedBlob → string → Prop) bs fs :
  Forall2 (λ b f, ∃ d, data b d ∧ written_as b d f) bs fs →
  (λ f, f.1.2) <$> fs = pb_size <$> bs ∧ Forall (λ z, 0 ≤ z)%Z (pb_size <$> bs).
Proof.
  induction 1 as [|b f bs fs (d & _ & Hw) _ [IH1 IH2]]; [by split|]. apply written_size in Hw as [Hs H0]. cbn.
  rewrite Hs, IH1. split; [done|by constructor].
Qed.

(** The projection of a tar is the size of the archive that is written: header
    blocks, padding, extended headers and trailer included, as long as that size is
    one an [int64] can hold. *)
Theorem projection_exact `{LayoutLib} src p output format overwrite o report o' a
    (Hformat : ParseFormat format = Some FormatTar)
    (Hwrite : LayoutWrite src p output format overwrite o = (Wrote report, o'))
    (Hwhole : er_Missing report = [])
    (Hfinal : ot_final o' = Some (MTar a))
    (Hbound : (archive_bytes (ar_entries a) ≤ int64_max)%Z) :
  pj_TotalBytes (Project p FormatTar) = archive_bytes (ar_entries a) ∧
  pj_LargestFileBytes (Project p FormatTar) = archive_bytes (ar_entries a).
Proof.
  destruct (LayoutWrite_wrote _ _ _ _ _ _ _ _ Hwrite Hwhole) as (fmt & fm & fb & Hf & _ & Hfin & Hm & Hb).
  rewrite Hformat in Hf. injection Hf as <-. rewrite Hfinal in Hfin. unfold blank in Hfin.
  rewrite planted_tar in Hfin. injection Hfin as Ha.
  destruct (written_sizes (λ _ _, True) (lp_manifests p) fm) as [Sm Nm].
  { eapply Forall2_impl; [done|]. naive_solver. }
  destruct (written_sizes (λ _ _, True) (lp_blobs p) fb) as [Sb Nb].
  { eapply Forall2_impl; [done|]. naive_solver. }
  assert (tar_cost ∘ lt_size <$> (reg_of <$> fm ++ fb) = tar_cost <$> planned_sizes p) as Hcosts.
  { unfold planned_sizes. rewrite !fmap_app. rewrite <-Sm, <-Sb, <-!list_fmap_compose. done. }
  assert (Forall (λ z, 0 ≤ z)%Z (planned_sizes p)) as Hn by (unfold planned_sizes; rewrite fmap_app; by apply Forall_app).
  set (index := Z.of_nat (slen (marshalIndex (lp_Index p)))). set (marker := Z.of_nat (slen layoutMarkerBytes)).
  assert (archive_bytes (ar_entries a) =
    512 + 512 + tar_cost marker + tar_cost index + sumZ (tar_cost <$> planned_sizes p) + 1024)%Z as Hbytes.
  { rewrite Ha, <-Hcosts. change 512%Z with (tar_cost 0) at 1 2.
    change (archive_bytes _) with (tar_cost 0 + (tar_cost 0 + (tar_cost marker + (tar_cost index +
      sumZ (tar_cost ∘ lt_size <$> (reg_of <$> fm ++ fb))))) + 1024)%Z. lia. }
  rewrite Hbytes in Hbound |- *. clear Hbytes Ha.
  pose proof (tar_cost_nonneg marker ltac:(lia)). pose proof (tar_cost_nonneg index ltac:(lia)).
  assert (Forall (λ z, 0 ≤ z)%Z (tar_cost <$> planned_sizes p)) as Hn' by
    (apply Forall_fmap; eapply Forall_impl; [done|]; apply tar_cost_nonneg).
  pose proof (sumZ_nonneg _ Hn'). assert (int64_min ≤ 0)%Z by done.
  cbn [Project pj_TotalBytes pj_LargestFileBytes]. fold marker index.
  rewrite (tarEntrySize_exact marker), (tarEntrySize_exact index), tar_costs_exact by (done || lia).
  unfold tarHeaderSize, tarTrailerSize.
  rewrite (add64_exact (tar_cost marker)) by (unfold is_int64; lia).
  rewrite (add64_exact (_ + _)) by (unfold is_int64; lia). rewrite sum64_exact by (done || lia).
  rewrite add64_exact by (unfold is_int64; lia). split; lia.
Qed.

(** * The walk of a plan ends *)

Section plan_total.
Context `{LayoutLib} (src : Source) (D : gset string).
Hypothesis Hheld : ∀ repo ref p mt d, s_RawManifest src repo ref = Ok (p, mt, d) → d ∈ D.

(** What is held and not met yet. *)
Definition unmet (st : walk_state) : nat := size (D ∖ st.2).

Lemma unmet_ext es st st' : plan_ext src es st st' → unmet st' ≤ unmet st.
Proof. intros Hs%ext_seen. unfold unmet. apply subseteq_size. set_solver. Qed.

Lemma walk_index_ends fuel repo children st : unmet st < fuel →
  (∀ ref d mt payload st, s_RawManifest src repo ref = Ok (payload, mt, d) → unmet st < fuel →
     plan_walk fuel src repo d mt payload st ≠ Spent) →
  walk_index (plan_walk fuel src repo) src repo children st ≠ Spent.
Proof.
  intros Hst Hrec. revert st Hst. induction children as [|c children IH]; intros st Hst; [done|]. cbn.
  destruct (s_RawManifest src repo (ld_digest c)) as [[[p mt] d]|[]] eqn:Hraw; [|by apply IH|done].
  destruct (Z.ltb_spec maxManifestBytes (Z.of_nat (slen p))) as [|Hle]; [done|].
  destruct (dg_ok d) eqn:Hd; [|done]. cbn.
  destruct (plan_walk fuel src repo d mt p st) as [st1| |] eqn:E; [|done|by eapply Hrec in E].
  apply IH. apply (plan_walk_ext src fuel repo _ _ _ _ _ _ Hraw Hle Hd) in E as [E%unmet_ext _]. lia.
Qed.

Lemma plan_walk_ends fuel repo ref d mt payload st : s_RawManifest src repo ref = Ok (payload, mt, d) →
  unmet st < fuel → plan_walk fuel src repo d mt payload st ≠ Spent.
Proof.
  revert ref d mt payload st. induction fuel as [|fuel IH]; intros ref d mt payload st Hraw Hst; [lia|]. cbn.
  case_bool_decide as Hseen; [done|]. destruct (decode_doc payload); [|done]. destruct (isIndexMediaType mt); [|done].
  apply walk_index_ends; [|exact IH]. unfold unmet in *. cbn.
  enough (size (D ∖ ({[d]} ∪ st.2)) < size (D ∖ st.2)) by lia. apply subset_size. apply Hheld in Hraw. set_solver.
Qed.

(** The plan of any selection comes to an end, however indexes refer to each
    other: the walk goes no deeper than the store has manifests. *)
Theorem plan_total fuel sel (Hfuel : size D < fuel) : NewPlan fuel src sel ≠ Spent.
Proof.
  unfold NewPlan. enough (∀ st, plan_refs fuel src sel st ≠ Spent) as Hs.
  { specialize (Hs (empty_plan, ∅)). by destruct (plan_refs _ _ _ _). }
  assert (∀ st, unmet st < fuel) as Hu. { intros st. enough (unmet st ≤ size D) by lia. unfold unmet. apply subseteq_size. set_solver. }
  induction sel as [|r sel IH]; intros st; [done|]. cbn.
  destruct (s_RawManifest src (lr_Repo r) (lr_Tag r)) as [[[p mt] d]|[]] eqn:Hraw; [|by apply IH|done].
  destruct (_ <? _)%Z; [done|]. destruct (negb _); [done|].
  destruct (plan_walk _ _ _ _ _ _ _) as [st1| |] eqn:E; [by apply IH|done|].
  by eapply plan_walk_ends in E.
Qed.
End plan_total.
