(* ===== verification/OciCases.v ===== *)
(** Image layouts at concrete inputs: a store exported and imported again, the
    witnesses of the results, and the layouts and stores on which the package does
    not do what its comments say. *)

From S2P Require Import Prelude GoStrings MediaPaths FilePaths OciPlan OciLayout OciExport OciImport OciRoundtrip OciTheorems.

(** * A small library and a small store: a hash that spells its input, an index format
    of length-prefixed fields, and a handful of documents *)

(** * A hash *)

Definition bit_letter (b : bool) : byte := if b then "b" else "a".
Definition spell_byte (c : byte) : string :=
  let 'Ascii b0 b1 b2 b3 b4 b5 b6 b7 := c in
  String (bit_letter b0) (String (bit_letter b1) (String (bit_letter b2) (String (bit_letter b3)
  (String (bit_letter b4) (String (bit_letter b5) (String (bit_letter b6) (String (bit_letter b7) ""))))))).
Fixpoint spell (s : string) : string :=
  match s with "" => "x" | String c s => spell_byte c +:+ spell s end.

Lemma bit_letter_inj b b' : bit_letter b = bit_letter b' → b = b'.
Proof. by destruct b, b'. Qed.

Lemma spell_inj s s' : spell s = spell s' → s = s'.
Proof.
  revert s'. induction s as [|c s IH]; intros [|c' s'] E; [done| | |].
  - destruct c' as [[] ? ? ? ? ? ? ?]; discriminate E.
  - destruct c as [[] ? ? ? ? ? ? ?]; discriminate E.
  - destruct c, c'. cbn in E. injection E as E0 E1 E2 E3 E4 E5 E6 E7 E.
    apply bit_letter_inj in E0, E1, E2, E3, E4, E5, E6, E7. subst. f_equal. by apply IH.
Qed.

Lemma spell_plain s : all_bytes (λ c, is_letter c || is_digit c) (spell s) = true.
Proof.
  induction s as [|[[] [] [] [] [] [] [] []] s IH]; [done|..]; exact IH.
Qed.

(** * An index format *)

Fixpoint ones (n : nat) : string := match n with 0 => "0" | S n => String "1" (ones n) end.
Fixpoint count_ones (s : string) : option (nat * string) :=
  match s with
  | String "1" s => '(n, r) ← count_ones s; Some (S n, r)
  | String "0" s => Some (0, s)
  | _ => None
  end.
Definition enc_str (s : string) : string := ones (slen s) +:+ s.
Definition dec_str (s : string) : option (string * string) :=
  '(n, r) ← count_ones s; Some (stake n r, sdrop n r).

Lemma count_ones_app n s : count_ones (ones n +:+ s) = Some (n, s).
Proof. induction n as [|n IH]; [done|]. cbn [ones]. rewrite sapp_cons. cbn [count_ones]. by rewrite IH. Qed.
Lemma dec_enc_str s r : dec_str (enc_str s +:+ r) = Some (s, r).
Proof.
  unfold dec_str, enc_str. rewrite sapp_assoc, count_ones_app. cbn. by rewrite stake_app_length, sdrop_app_length.
Qed.

Fixpoint pos_bits (p : positive) : string :=
  match p with xI p => String "1" (pos_bits p) | xO p => String "0" (pos_bits p) | xH => "" end.
Fixpoint bits_pos (s : string) : positive :=
  match s with String "1" s => xI (bits_pos s) | String _ s => xO (bits_pos s) | "" => xH end.
Definition enc_Z (z : Z) : string :=
  match z with Z0 => "z" | Zpos p => String "p" (pos_bits p) | Zneg p => String "n" (pos_bits p) end.
Definition dec_Z (s : string) : Z :=
  match s with String "p" s => Zpos (bits_pos s) | String "n" s => Zneg (bits_pos s) | _ => Z0 end.

Lemma bits_of_pos_bits p : bits_pos (pos_bits p) = p.
Proof. induction p as [p IH|p IH|]; cbn; [by rewrite IH..|done]. Qed.
Lemma dec_enc_Z z : dec_Z (enc_Z z) = z.
Proof. destruct z; cbn; [done|by rewrite bits_of_pos_bits..]. Qed.

Definition enc_desc (d : ldesc) : string :=
  enc_str (ld_mediaType d) +:+ enc_str (ld_digest d) +:+ enc_str (enc_Z (ld_size d)) +:+ enc_str (ld_name d).
Definition dec_desc (s : string) : option (ldesc * string) :=
  '(mt, s) ← dec_str s; '(dg, s) ← dec_str s; '(sz, s) ← dec_str s; '(nm, s) ← dec_str s;
  Some (mkDesc mt dg (dec_Z sz) nm, s).

Lemma dec_enc_desc d r : dec_desc (enc_desc d +:+ r) = Some (d, r).
Proof.
  unfold dec_desc, enc_desc. rewrite !sapp_assoc.
  do 4 (rewrite dec_enc_str; cbn [mbind option_bind]). rewrite dec_enc_Z. by destruct d.
Qed.

Fixpoint enc_descs (ds : list ldesc) : string :=
  match ds with [] => "." | d :: ds => "+" +:+ enc_desc d +:+ enc_descs ds end.
Fixpoint dec_descs (fuel : nat) (s : string) : option (list ldesc) :=
  match fuel, s with
  | S fuel, String "+" s => '(d, s) ← dec_desc s; ds ← dec_descs fuel s; Some (d :: ds)
  | _, String "." _ => Some []
  | _, _ => None
  end.

Lemma dec_enc_descs ds r fuel : length ds ≤ fuel → dec_descs fuel (enc_descs ds +:+ r) = Some ds.
Proof.
  revert fuel. induction ds as [|d ds IH]; intros fuel Hf; [by destruct fuel|]. destruct fuel as [|fuel]; [cbn in Hf; lia|].
  cbn [enc_descs]. rewrite !sapp_assoc.
  change ("+" +:+ enc_desc d +:+ enc_descs ds +:+ r) with (String "+" (enc_desc d +:+ enc_descs ds +:+ r)).
  cbn [dec_descs]. rewrite dec_enc_desc. cbn [mbind option_bind]. rewrite IH by (cbn in Hf; lia). done.
Qed.

Lemma enc_descs_length ds : length ds ≤ slen (enc_descs ds).
Proof. induction ds as [|d ds IH]; cbn [enc_descs length]; [lia|]. rewrite !slen_app. cbn. lia. Qed.

(** * Documents *)

Definition hash (s : string) : string := "sha256:" +:+ spell s.
Definition image_type : string := "application/vnd.oci.image.manifest.v1+json".
Definition a_desc (mt d : string) (n : Z) : ldesc := mkDesc mt d n "".
Definition no_desc : ldesc := a_desc "" "" 0.
Definition image_doc (config layer : string) : manifestDoc :=
  mkDoc image_type (a_desc "" (hash config) (Z.of_nat (slen config)))
    [a_desc "" (hash layer) (Z.of_nat (slen layer))] [].
Definition index_doc (children : list (string * string)) : manifestDoc :=
  mkDoc MediaTypeImageIndex no_desc [] (List.map (λ c, a_desc c.1 c.2 1) children).

(** A full image, an index over it, an image whose layer is lost, two indexes over
    that one, an image whose layer is itself a manifest, and an index that names
    no digest. *)
Definition toy_doc (payload : string) : option manifestDoc :=
  if String.eqb payload "M" then Some (image_doc "cfg" "layer")
  else if String.eqb payload "X" then Some (index_doc [(image_type, hash "M")])
  else if String.eqb payload "N" then Some (image_doc "cfg" "lost")
  else if String.eqb payload "Y" then Some (index_doc [(image_type, hash "N")])
  else if String.eqb payload "Z" then Some (index_doc [(image_type, hash "N"); (image_type, hash "M")])
  else if String.eqb payload "B" then Some (image_doc "cfg" "X")
  else if String.eqb payload "P" then Some (index_doc [(image_type, "nothing")])
  else None.

Definition name_byte (c : byte) : bool :=
  is_letter c || is_digit c || Ascii.eqb c "." || Ascii.eqb c "-" || Ascii.eqb c "_".

#[export] Program Instance toy_layouts : LayoutLib := {|
  alg_hash alg := if String.eqb alg "sha256" then Some spell else None;
  dg_ok d := match cut_byte ":" d with
             | Some (alg, enc) => String.eqb alg "sha256" && negb (String.eqb enc "") &&
                                  all_bytes (λ c, is_letter c || is_digit c) enc
             | None => false
             end;
  hex256 := spell;
  decode_doc := toy_doc;
  encode_index := enc_descs;
  decode_index s := dec_descs (slen s) s;
  decode_marker s := if String.eqb s layoutMarkerBytes then Some "1.0.0" else None;
  ref_name_ok r := all_bytes (λ c, name_byte c || Ascii.eqb c "/") r;
  ref_tag_ok t := all_bytes name_byte t;
|}.
Next Obligation. done. Qed.
Next Obligation.
  intros s. cbn beta. assert (cut_byte ":" ("sha256:" +:+ spell s) = Some ("sha256", spell s)) as ->.
  { apply cut_byte_Some. split; [done|]. cbn. intros Hx. repeat destruct Hx as [Hx|Hx]; done. }
  apply andb_true_iff. split; [|apply spell_plain]. by destruct s as [|[] s].
Qed.
Next Obligation.
  intros d Hd. cbn in Hd. destruct (cut_byte ":" d) as [[alg enc]|] eqn:E; [|done].
  apply cut_byte_Some in E as [-> _]. bools_to_props. subst. exists "sha256", enc. split_and!; try done.
Qed.
Next Obligation.
  intros ds. cbn. apply dec_enc_descs. rewrite slen_app. pose proof (enc_descs_length ds). lia.
Qed.
Next Obligation. done. Qed.
Next Obligation.
  intros t Ht. cbn in Ht. rewrite all_bytes_spec in Ht. split_and!; intros Hin; discriminate (Ht _ Hin).
Qed.
Next Obligation.
  intros r Hr Hin. cbn in Hr. rewrite all_bytes_spec in Hr. discriminate (Hr _ Hin).
Qed.

(** * A store *)

(** A manifest of a repository under a tag, or untagged. *)
Record stocked := mkStocked { st_repo : string; st_tag : string; st_payload : string; st_type : string }.

Definition answers (repo ref : string) (e : stocked) : bool :=
  String.eqb (st_repo e) repo && (String.eqb (st_tag e) ref || String.eqb (hash (st_payload e)) ref).

(** A source over a list of manifests and a list of blobs, per repository. *)
Definition stock (ms : list stocked) (bs : list (string * string)) : Source :=
  mkSource (Ok (st_repo <$> ms)) (λ repo, Ok (st_tag <$> List.filter (λ e, String.eqb (st_repo e) repo) ms))
    (λ repo ref, match List.find (answers repo ref) ms with
       | Some e => Ok (st_payload e, st_type e, hash (st_payload e))
       | None => Err SrcNotFound
       end)
    (λ repo d, match List.find (λ b, String.eqb b.1 repo && String.eqb (hash b.2) d) bs with
       | Some b => Ok (b.2, true)
       | None => Err SrcNotFound
       end).

Lemma stock_manifest ms bs repo ref p mt d : s_RawManifest (stock ms bs) repo ref = Ok (p, mt, d) →
  ∃ e, e ∈ ms ∧ p = st_payload e ∧ mt = st_type e ∧ d = hash (st_payload e) ∧ (ref = st_tag e ∨ ref = d).
Proof.
  cbn. destruct (List.find _ ms) as [e|] eqn:E; [|done]. intros [= <- <- <-]. exists e.
  apply List.find_some in E as [Hin Hf]. apply list_elem_of_In in Hin. unfold answers in Hf.
  apply andb_true_iff in Hf as [_ Hf]. rewrite orb_true_iff, !String.eqb_eq in Hf. split_and!; try done.
  destruct Hf as [<-|<-]; auto.
Qed.

Lemma stock_blob ms bs repo d data ok : s_BlobReader (stock ms bs) repo d = Ok (data, ok) → d = hash data ∧ data ∈ bs.*2.
Proof.
  cbn. destruct (List.find _ bs) as [b|] eqn:E; [|done]. intros [= <- <-].
  apply List.find_some in E as [Hin Hf]. apply list_elem_of_In in Hin. rewrite andb_true_iff, !String.eqb_eq in Hf.
  split; [by destruct Hf|]. by apply list_elem_of_fmap_2.
Qed.

(** An index over one image, tagged. *)
Definition demo : Source :=
  stock [mkStocked "acme/app" "v1" "X" MediaTypeImageIndex; mkStocked "acme/app" "" "M" image_type]
        [("acme/app", "cfg"); ("acme/app", "layer")].

Lemma hash_inj a b : hash a = hash b → a = b.
Proof. intros Hh. by apply spell_inj, (sapp_inj_l "sha256:"). Qed.

Lemma demo_manifests repo ref p mt d : s_RawManifest demo repo ref = Ok (p, mt, d) →
  d = hash p ∧ ((p = "X" ∧ mt = MediaTypeImageIndex ∧ (ref = "v1" ∨ ref = d)) ∨ (p = "M" ∧ mt = image_type ∧ (ref = "" ∨ ref = d))).
Proof.
  intros (e & Hin & -> & -> & -> & Hr)%stock_manifest. split; [done|].
  repeat (apply elem_of_cons in Hin as [->|Hin]; [naive_solver|]). by apply elem_of_nil in Hin.
Qed.

Lemma demo_coherent : coherent demo.
Proof.
  split.
  - intros repo ref p mt d [-> Hp]%demo_manifests. split; [done|]. naive_solver.
  - intros repo ref p mt d p' [-> _]%demo_manifests Hh. by apply hash_inj.
  - intros repo ref p mt d repo' ref' p' mt' [-> Hp]%demo_manifests [Hd Hp']%demo_manifests. apply hash_inj in Hd. naive_solver.
  - intros repo x p mt d Hx [-> Hp]%demo_manifests. destruct Hp as [(-> & _ & [->|?])|(-> & _ & [->|?])]; done.
  - intros repo ref p mt d doc c [-> Hp]%demo_manifests Hi Hdoc Hc. destruct Hp as [(-> & -> & _)|(-> & -> & _)]; [|done].
    injection Hdoc as <-. apply list_elem_of_singleton in Hc as ->. split; [done|].
    intros repo' p' mt' d' doc' [-> Hp']%demo_manifests Hdoc'. destruct Hp' as [(-> & -> & Hr)|(-> & -> & Hr)]; [|done].
    by destruct Hr.
  - intros repo ref p mt d doc c [-> Hp]%demo_manifests Hi Hdoc Hc _. destruct Hp as [(-> & -> & _)|(-> & -> & _)]; [done|].
    injection Hdoc as <-. cbn in Hc. repeat (apply elem_of_cons in Hc as [->|Hc]; [|]); [..|by apply elem_of_nil in Hc];
      (split_and!; [done|intros repo' data ok [Hd _]%stock_blob; apply hash_inj in Hd; by subst|]);
      intros repo' ref' p' mt' d' [-> Hp']%demo_manifests Hd; apply hash_inj in Hd; subst; naive_solver.
Qed.

Definition blank_outlet : Outlet := mkOutlet None None [] [].
Definition demo_refs : list LayoutRef := [mkRef "acme/app" "v1"].
Definition planned (src : Source) (sel : list LayoutRef) : LayoutPlan :=
  match NewPlan 5 src sel with Walked p => p | _ => empty_plan end.
Definition outlet_of (src : Source) (sel : list LayoutRef) (format : string) : Outlet :=
  (LayoutWrite src (planned src sel) "out" format false blank_outlet).2.

(** * The results at work *)

(** The demo store, through a tar and into an empty store. *)
Lemma export_import_roundtrip_witness : ∃ k r,
  Import "in" (ot_final (outlet_of demo demo_refs "tar")) "" [] empty_sink = (Ret r, k) ∧
  k_tags k !! ("acme/app", "v1") = Some (hash "X").
Proof.
  destruct (export_import_roundtrip demo demo_coherent 5 demo_refs (planned demo demo_refs) "out" "tar" false blank_outlet
      (mkExportReport 1 2 2 182 141 []) (outlet_of demo demo_refs "tar") "in") as (r & k & Hi & _ & Hall);
    [|vm_compute; (reflexivity || discriminate)..|].
  - apply Forall_singleton. split_and!; [by vm_compute| |done|by vm_compute]. cbn. tauto.
  - exists k, r. split; [exact Hi|]. destruct (Hall (mkRef "acme/app" "v1")) as (p & mt & d & Hs & Ht & _);
      [by apply list_elem_of_here|]. vm_compute in Hs. injection Hs as _ _ <-. exact Ht.
Defined.

Lemma projection_exact_witness :
  pj_TotalBytes (Project (planned demo demo_refs) FormatTar) = 8192%Z.
Proof.
  destruct (outlet_of demo demo_refs "tar") as [[[files|a]|] st fs ctx] eqn:E; try discriminate E.
  destruct (projection_exact demo (planned demo demo_refs) "out" "tar" false blank_outlet
      (mkExportReport 1 2 2 182 141 []) (outlet_of demo demo_refs "tar") a) as [Ht _];
    [vm_compute; reflexivity..|by rewrite E| |]; vm_compute in E; injection E as <- _ _ _.
  - vm_compute. discriminate.
  - rewrite Ht. vm_compute. reflexivity.
Defined.

(** A layout directory: its index, and documents under the paths of their own
    digests. *)
Definition directory (index : list ldesc) (contents : list string) : medium :=
  MDir (<["oci-layout" := DFile layoutMarkerBytes]> (<["index.json" := DFile (marshalIndex index)]>
    (list_to_map ((λ c, ("blobs/sha256/" +:+ spell c, DFile c)) <$> contents)))).
Definition index_entry (mt d name : string) : ldesc := mkDesc mt d 1 name.

Definition whole_layout : medium :=
  directory [index_entry MediaTypeImageIndex (hash "X") "acme/app:v1"] ["X"; "M"; "cfg"; "layer"].

Lemma import_verified_witness : sink_ok (Import "in" (Some whole_layout) "" [] empty_sink).2.
Proof.
  apply (import_verified "in" (Some whole_layout) "" [] empty_sink (Import "in" (Some whole_layout) "" [] empty_sink).1).
  - split; intros *; cbn; by rewrite lookup_empty.
  - by rewrite <-surjective_pairing.
Defined.

Lemma empty_sink_ok : sink_ok empty_sink.
Proof. split; intros *; cbn; by rewrite lookup_empty. Qed.
Lemma import_restores_witness :
  k_tags (Import "in" (Some whole_layout) "" [] empty_sink).2 !! ("acme/app", "v1") = Some (hash "X") ∧
  sink_ok (Import "in" (Some whole_layout) "" [] empty_sink).2.
Proof.
  destruct (Import "in" (Some whole_layout) "" [] empty_sink) as [r k] eqn:E.
  pose proof (f_equal fst E) as Er. vm_compute in Er. subst r.
  refine (match import_restores "in" (Some whole_layout) "" [] empty_sink _ k _
      [index_entry MediaTypeImageIndex (hash "X") "acme/app:v1"] empty_sink_ok eq_refl _ _ E _ with
    | conj Hk (conj _ Hall) => _
    end); [vm_compute; reflexivity| |by vm_compute|].
  - intros ref d d' _ (x & Hx & _ & <-) (y & Hy & _ & <-). apply list_elem_of_singleton in Hx, Hy. congruence.
  - split; [|exact Hk].
    destruct (Forall2_cons_inv_l _ (index_entry MediaTypeImageIndex (hash "X") "acme/app:v1") [] _ Hall)
      as (e & es & (ref & Hr & _ & _ & Ht) & _).
    vm_compute in Hr. injection Hr as <-. by apply Ht.
Defined.

Definition old_export : Outlet := mkOutlet (Some whole_layout) None [] [].
Lemma export_in_place_witness :
  ot_final (LayoutWrite demo (planned demo demo_refs) "out" "tar" false old_export).2 = Some whole_layout ∧
  ∃ report fs, (LayoutWrite demo (planned demo demo_refs) "out" "tar" true old_export).1 = Wrote report ∧
    ot_final (LayoutWrite demo (planned demo demo_refs) "out" "tar" true old_export).2 =
      Some (close_medium (planted fs (blank FormatTar))) ∧
    layout_written demo (planned demo demo_refs) report fs.
Proof.
  split.
  - destruct (LayoutWrite demo (planned demo demo_refs) "out" "tar" false old_export) as [r o'] eqn:E.
    destruct (export_in_place demo (planned demo demo_refs) "out" "tar" false _ r o' E) as [_ Hkeep].
    destruct Hkeep as [Hf _]; [done|by eexists|]. exact Hf.
  - destruct (LayoutWrite demo (planned demo demo_refs) "out" "tar" true old_export) as [r o'] eqn:E.
    assert (match (LayoutWrite demo (planned demo demo_refs) "out" "tar" true old_export).1 with Wrote _ => true | _ => false end = true)
      as Hok by (vm_compute; reflexivity). rewrite E in Hok.
    destruct (export_in_place demo (planned demo demo_refs) "out" "tar" true old_export r o' E)
      as [[(report & fmt & fs & -> & Hfmt & _ & Hf & Hw)|[Hn _]] _].
    + injection Hfmt as <-. exists report, fs. split; [reflexivity|]. split; [exact Hf|exact Hw].
    + cbn [fst] in Hok. destruct r as [report| | |]; [by destruct (Hn report)|discriminate Hok..].
Defined.

(** * Where the code and its comments part *)

(** The layout holds the marker, an index of one entry and nothing else. *)
Definition bare_layout (d : string) : medium := directory [index_entry image_type d "acme/app:v1"] [].
Definition bare_archive (d : string) : medium :=
  MTar (mkArchive false
    [mkLt LtReg "oci-layout" (Z.of_nat (slen layoutMarkerBytes)) layoutMarkerBytes false;
     mkLt LtReg "index.json" (Z.of_nat (slen (marshalIndex [index_entry image_type d "acme/app:v1"])))
       (marshalIndex [index_entry image_type d "acme/app:v1"]) false] true).

(** A digest without an algorithm in the index of a medium does not fail its
    entry: it panics the import, in both formats. *)
Theorem untrusted_digest_panics :
  (Import "in" (Some (bare_layout "nothing")) "" [] empty_sink).1 = Panics ∧
  (Import "in" (Some (bare_archive "nothing")) "" [] empty_sink).1 = Panics.
Proof. split; vm_compute; reflexivity. Qed.

(** A directory with one more file, at a path outside of it. *)
Definition with_outside (path data : string) (m : medium) : medium :=
  match m with MDir files => MDir (<[path := DFile data]> files) | MTar a => MTar a end.

Definition entry_errors (r : imported ImportReport) : list (option lay_error) :=
  match r with Ret r => ie_Err <$> ir_Entries r | _ => [] end.

(** A digest may walk out of a layout directory: a file beside it is opened and
    read, and its hash is in the report. *)
Theorem directory_import_escapes :
  entry_errors (Import "in" (Some (with_outside "../secret" "s" (bare_layout "sha256:../../../secret"))) "" [] empty_sink).1
    = [Some (HashMismatch "blobs/sha256/../../../secret" (hash "s"))] ∧
  entry_errors (Import "in" (Some (with_outside "../secret" "t" (bare_layout "sha256:../../../secret"))) "" [] empty_sink).1
    = [Some (HashMismatch "blobs/sha256/../../../secret" (hash "t"))].
Proof. split; vm_compute; reflexivity. Qed.

(** Two indexes over an image whose layer is not on the medium. *)
Definition shared_loss : medium :=
  directory [index_entry MediaTypeImageIndex (hash "Y") "acme/app:v1"; index_entry MediaTypeImageIndex (hash "Z") "acme/app:v2"]
            ["Y"; "Z"; "N"; "M"; "cfg"; "layer"].

(** The second entry that shares a child with one that failed is reported
    restored, and tagged, without the child, which the layout carries. *)
Theorem failed_child_hidden :
  let '(r, k) := Import "in" (Some shared_loss) "" [] empty_sink in
  entry_errors r = [Some (BlobNotCarried (hash "lost")); None] ∧
  k_tags k !! ("acme/app", "v2") = Some (hash "Z") ∧ k_manifests k !! ("acme/app", hash "N") = None.
Proof. vm_compute. by split_and!. Qed.

(** A repository of one component is exported whole and refused on the way
    back. *)
Definition short_name : Source :=
  stock [mkStocked "alpine" "3" "M" image_type] [("alpine", "cfg"); ("alpine", "layer")].

Theorem short_name_not_importable :
  (LayoutWrite short_name (planned short_name [mkRef "alpine" "3"]) "out" "tar" false blank_outlet).1
    = Wrote (mkExportReport 1 1 2 181 141 []) ∧
  entry_errors (Import "in" (ot_final (outlet_of short_name [mkRef "alpine" "3"] "tar")) "" [] empty_sink).1
    = [Some (NotLayout "a tag and not a repository")].
Proof. split; vm_compute; reflexivity. Qed.

(** One index in two repositories, the first of which does not hold its image. *)
Definition sparse_first : Source :=
  stock [mkStocked "one/app" "v1" "X" MediaTypeImageIndex;
         mkStocked "two/app" "v1" "X" MediaTypeImageIndex; mkStocked "two/app" "" "M" image_type]
        [("two/app", "cfg"); ("two/app", "layer")].

(** What a repository holds whole is left out when another one holding less of
    the same index comes first. *)
Theorem sparse_repository_shadows :
  pb_digest <$> lp_manifests (planned sparse_first [mkRef "two/app" "v1"]) = [hash "X"; hash "M"] ∧
  pb_digest <$> lp_manifests (planned sparse_first [mkRef "one/app" "v1"; mkRef "two/app" "v1"]) = [hash "X"] ∧
  lp_Missing (planned sparse_first [mkRef "one/app" "v1"; mkRef "two/app" "v1"]) =
    [mkMissing (mkRef "one/app" "") (hash "M") MissingPlatform].
Proof. split_and!; vm_compute; reflexivity. Qed.

(** An artifact whose layer is the index of another tag. *)
Definition layered_index : Source :=
  stock [mkStocked "acme/app" "bundle" "B" image_type; mkStocked "acme/app" "v1" "X" MediaTypeImageIndex;
         mkStocked "acme/app" "" "M" image_type]
        [("acme/app", "cfg"); ("acme/app", "layer"); ("acme/app", "X")].

(** A manifest first met as a layer is never walked: its children are left out
    and nothing is reported missing. *)
Theorem manifest_met_as_layer :
  lp_Missing (planned layered_index [mkRef "acme/app" "bundle"; mkRef "acme/app" "v1"]) = [] ∧
  pb_digest <$> lp_manifests (planned layered_index [mkRef "acme/app" "bundle"; mkRef "acme/app" "v1"]) = [hash "B"] ∧
  pb_digest <$> lp_manifests (planned layered_index [mkRef "acme/app" "v1"]) = [hash "X"; hash "M"].
Proof. split_and!; vm_compute; reflexivity. Qed.

(** The report of a tar counts the files in it: neither the bytes nor the largest
    file are those of the archive that was written. *)
Theorem report_counts_contents :
  (LayoutWrite demo (planned demo demo_refs) "out" "tar" false blank_outlet).1 = Wrote (mkExportReport 1 2 2 182 141 []) ∧
  (archive_bytes <$> (match ot_final (outlet_of demo demo_refs "tar") with Some (MTar a) => Some (ar_entries a) | _ => None end))
    = Some 8192%Z.
Proof. split; vm_compute; reflexivity. Qed.
