(* ===== verification/ConfigValues.v ===== *)
(** The value types of the configuration (internal/config): byte quantities
    (size.go), durations (duration.go) and secrets (secret.go), with the spellings
    they are read from and written in. *)

From S2P Require Import Prelude GoStrings FilePaths.

(** * Sizes *)

Definition KiB : Z := Z.shiftl 1 10.
Definition MiB : Z := Z.shiftl 1 20.
Definition GiB : Z := Z.shiftl 1 30.
Definition TiB : Z := Z.shiftl 1 40.

Definition binary_units : list (string * Z) := [("TiB", TiB); ("GiB", GiB); ("MiB", MiB); ("KiB", KiB)].
Definition sizeUnits : list (string * Z) :=
  binary_units ++ [("TB", 10 ^ 12); ("GB", 10 ^ 9); ("MB", 10 ^ 6); ("kB", 10 ^ 3); ("B", 1)]%Z.

(** [strings.EqualFold] of a byte string with an ASCII one of the same length:
    a rune that is not ASCII takes more than one byte and none of its foldings is
    as long. *)
Definition fold_eqb (s t : string) : bool := String.eqb (map_bytes lower_byte s) (map_bytes lower_byte t).

Definition cutSuffixFold (s suffix : string) : option string :=
  if (slen s <? slen suffix)%nat then None
  else if negb (fold_eqb (sdrop (slen s - slen suffix) s) suffix) then None
  else Some (stake (slen s - slen suffix) s).

Inductive size_error := SizeEmpty | SizeInvalid | SizeOverflows.

(** [strconv.ParseInt], where a negative value is refused like a malformed one. *)
Definition parse_count (s : string) : res size_error Z :=
  match ParseInt s with
  | Some n => if (n <? 0)%Z then Err SizeInvalid else Ok n
  | None => Err SizeInvalid
  end.

(** The loop over the units: the first suffix that fits decides. *)
Fixpoint parse_unit `{GoRuntime} (raw : string) (units : list (string * Z)) : option (res size_error Z) :=
  match units with
  | [] => None
  | (suffix, mult) :: units =>
      match cutSuffixFold raw suffix with
      | None => parse_unit raw units
      | Some digits => Some (
          n ← parse_count (trim_space digits);
          if (Z.quot (Z.shiftl 1 62) mult <? n)%Z then Err SizeOverflows else Ok (mul64 n mult))
      end
  end.

(** [ParseSize]. *)
Definition ParseSize `{GoRuntime} (s : string) : res size_error Z :=
  let raw := trim_space s in
  if String.eqb raw "" then Err SizeEmpty
  else default (parse_count raw) (parse_unit raw sizeUnits).

(** [Size.String]; [strconv.FormatInt] is [pretty]. *)
Fixpoint size_unit (n : Z) (units : list (string * Z)) : string :=
  match units with
  | [] => pretty n +:+ "B"
  | (suffix, mult) :: units =>
      if (Z.rem n mult =? 0)%Z then pretty (quot64 n mult) +:+ suffix else size_unit n units
  end.
Definition size_String (n : Z) : string := if (n =? 0)%Z then "0B" else size_unit n binary_units.

(** [Size.UnmarshalYAML], on what the node decodes to as a string and as an
    integer. *)
Definition size_UnmarshalYAML `{GoRuntime} (as_string : option string) (as_int : option Z) : res size_error Z :=
  match as_string with
  | None =>
      match as_int with
      | None => Err SizeInvalid
      | Some n => if (n <? 0)%Z then Err SizeInvalid else Ok n
      end
  | Some s => ParseSize s
  end.

(** * Durations *)

(** [time.ParseDuration] and [Duration.String], in nanoseconds. *)
Class DurationLib : Type := {
  parse_duration : string → option Z;
  duration_string : Z → string;
  duration_roundtrip : ∀ d, is_int64 d → parse_duration (duration_string d) = Some d;
  parse_duration_int64 : ∀ s d, parse_duration s = Some d → is_int64 d;
}.

Inductive duration_error := NotDurationString | InvalidDuration (s : string).

Section durations.
Context `{DurationLib}.

(** [ParseDuration]. *)
Definition config_ParseDuration (s : string) : res duration_error Z :=
  match parse_duration s with Some d => Ok d | None => Err (InvalidDuration s) end.

(** [Duration.UnmarshalYAML], on what the node decodes to as a string. *)
Definition duration_UnmarshalYAML (as_string : option string) : res duration_error Z :=
  match as_string with Some s => config_ParseDuration s | None => Err NotDurationString end.
End durations.

(** * Secrets *)

Definition Redacted : string := "REDACTED".

Record Secret := mkSecret { secret_value : string }.

Definition NewSecret (value : string) : Secret := mkSecret value.
Definition Reveal (s : Secret) : string := secret_value s.
Definition secret_IsZero (s : Secret) : bool := String.eqb (secret_value s) "".

(** What each serialization shows: [String], which YAML and text marshalling
    return too, [GoString], JSON, and [Redact]. *)
Definition secret_String (s : Secret) : string := if String.eqb (secret_value s) "" then "" else Redacted.
Definition secret_GoString (s : Secret) : string := "config.Secret{" +:+ secret_String s +:+ "}".
Definition secret_MarshalJSON (s : Secret) : string := quoted (if String.eqb (secret_value s) "" then "" else Redacted).
Definition secret_Redact (s : Secret) : string := if String.eqb (secret_value s) "" then "(unset)" else Redacted.

(** * Facts *)

Lemma slen_map_bytes f s : slen (map_bytes f s) = slen s.
Proof. induction s as [|c s IH]; cbn; [done|by rewrite IH]. Qed.

Lemma cut_fold_app a t u : slen t = slen u →
  cutSuffixFold (a +:+ t) u = if fold_eqb t u then Some a else None.
Proof.
  intros Hl. unfold cutSuffixFold. rewrite slen_app, <-Hl. replace (slen a + slen t - slen t) with (slen a) by lia.
  rewrite sdrop_app_length, stake_app_length. destruct (Nat.ltb_spec (slen a + slen t) (slen t)); [lia|].
  by destruct (fold_eqb t u).
Qed.

Lemma digits_all s acc n : digits_value s acc = Some n → all_bytes is_digit s = true.
Proof.
  revert acc. induction s as [|c s IH]; intros acc Hd; [done|]. cbn in *. destruct (is_digit c); [|done]. by eapply IH.
Qed.

Lemma all_bytes_first f s c : all_bytes f s = true → first_byte s = Some c → f c = true.
Proof. destruct s as [|a s]; [done|]. cbn. intros [? _]%andb_true_iff [= <-]. done. Qed.

Lemma all_bytes_last f s c : all_bytes f s = true → last_byte s = Some c → f c = true.
Proof. rewrite all_bytes_spec. intros Ha Hl%last_byte_in. auto. Qed.

(** A text that starts and ends with visible ASCII is its own trim. *)
Lemma trim_space_plain `{GoRuntime} s : (∀ c, first_byte s = Some c → is_space_byte c = false) →
  (∀ c, last_byte s = Some c → is_space_byte c = false) → all_bytes is_ascii_byte s = true → trim_space s = s.
Proof.
  intros Hf Hl Ha. unfold trim_space.
  assert (trim_left is_space_byte s = s) as ->. { destruct s as [|c s]; [done|]. cbn. by rewrite (Hf c eq_refl). }
  destruct (first_byte s) as [c|] eqn:Ec; [|done]. rewrite (all_bytes_first _ _ _ Ha Ec).
  rewrite trim_right_keep by done. destruct (last_byte s) as [d|] eqn:Ed; [|done]. by rewrite (all_bytes_last _ _ _ Ha Ed).
Qed.

Lemma digit_visible c : is_digit c = true → is_space_byte c = false ∧ is_ascii_byte c = true.
Proof. destruct c as [[] [] [] [] [] [] [] []]; by intros. Qed.

Lemma all_bytes_impl f g s : (∀ c, f c = true → g c = true) → all_bytes f s = true → all_bytes g s = true.
Proof. rewrite !all_bytes_spec. auto. Qed.

(** Digits with a unit after them, and digits alone, are trimmed already. *)
Lemma trim_digits `{GoRuntime} ds u : all_bytes is_digit ds = true → ds ≠ "" → u ∈ "" :: sizeUnits.*1 →
  trim_space (ds +:+ u) = ds +:+ u.
Proof.
  intros Hd Hn Hu. assert (u = "" ∨ ∃ c, last_byte u = Some c ∧ is_space_byte c = false) as Hlast.
  { cbn in Hu. repeat (apply elem_of_cons in Hu as [->|Hu]; [eauto|]). by apply elem_of_nil in Hu. }
  assert (all_bytes is_ascii_byte u = true) as Hasc.
  { cbn in Hu. repeat (apply elem_of_cons in Hu as [->|Hu]; [done|]). by apply elem_of_nil in Hu. }
  apply trim_space_plain.
  - intros c Hc. destruct ds as [|a ds]; [done|]. injection Hc as <-. cbn in Hd. apply andb_true_iff in Hd as [Ha _].
    by apply digit_visible.
  - intros c Hc. destruct Hlast as [->|(d & Ed & Hsp)].
    + rewrite sapp_nil_r in Hc. by apply digit_visible, (all_bytes_last _ _ _ Hd).
    + rewrite last_byte_app in Hc by (by intros ->). congruence.
  - rewrite all_bytes_app, Hasc, (all_bytes_impl is_digit) by (done || apply digit_visible). done.
Qed.

Lemma string_snoc s : s ≠ "" → ∃ e c, s = e +:+ String c "".
Proof.
  induction s as [|a s IH]; intros Hs; [done|]. destruct s as [|b s].
  - by exists "", a.
  - destruct IH as (e & c & ->); [done|]. by exists (String a e), c.
Qed.

(** Digits followed by a bare [B] carry no other unit. *)
Lemma digits_no_unit ds u : all_bytes is_digit ds = true → u ∈ ["TiB"; "GiB"; "MiB"; "KiB"; "TB"; "GB"; "MB"; "kB"] →
  cutSuffixFold (ds +:+ "B") u = None.
Proof.
  intros Hd Hu. destruct (decide (ds = "")) as [->|Hn].
  { repeat (apply elem_of_cons in Hu as [->|Hu]; [done|]). by apply elem_of_nil in Hu. }
  destruct (string_snoc ds Hn) as (e & c & ->). rewrite all_bytes_app in Hd. apply andb_true_iff in Hd as [He Hc].
  cbn in Hc. rewrite andb_true_r in Hc. rewrite sapp_assoc. change (String c "" +:+ "B") with (String c "B").
  assert (∀ a b, In a ["T"; "G"; "M"; "k"]%char → fold_eqb (String c b) (String a "B") = false) as Hpair.
  { intros a b Ha. cbn in Ha. by repeat destruct Ha as [<-|Ha]; [..|done]; destruct c as [[] [] [] [] [] [] [] []]. }
  assert (∀ a b, In a ["T"; "G"; "M"; "K"]%char → slen b = 1 → cutSuffixFold (e +:+ String c b) (String a "iB") = None) as Htriple.
  { intros a b Ha Hb. destruct b as [|x [|]]; try done. destruct (decide (e = "")) as [->|Hne]; [done|].
    destruct (string_snoc e Hne) as (e' & c' & ->). rewrite all_bytes_app in He. apply andb_true_iff in He as [_ Hc'].
    cbn in Hc'. rewrite andb_true_r in Hc'. rewrite sapp_assoc. rewrite sapp_cons, sapp_nil_l, cut_fold_app by done.
    cbn in Ha. by repeat destruct Ha as [<-|Ha]; [..|done]; destruct c' as [[] [] [] [] [] [] [] []]. }
  repeat (apply elem_of_cons in Hu as [->|Hu];
    [first [apply Htriple; [cbn; tauto|done]|rewrite cut_fold_app by done; rewrite Hpair by (cbn; tauto); done]|]).
  by apply elem_of_nil in Hu.
Qed.

(** Reading digits and one of the units. *)
Lemma parse_digits_unit `{GoRuntime} ds n u m before after : sizeUnits = before ++ (u, m) :: after →
  Forall (λ x, cutSuffixFold (ds +:+ u) x.1 = None) before →
  digits_value ds 0 = Some n → ds ≠ "" → (0 ≤ n)%Z → (0 < m)%Z → (n * m ≤ 2 ^ 62)%Z →
  ParseSize (ds +:+ u) = Ok (n * m)%Z.
Proof.
  intros Hu Hb Hd Hne Hn Hm Hle. pose proof (digits_all _ _ _ Hd) as Hdig. unfold ParseSize.
  assert (u ∈ sizeUnits.*1) as Hin by (rewrite Hu, fmap_app; set_solver).
  rewrite trim_digits by (done || by right). destruct (String.eqb_spec (ds +:+ u) "") as [E|_]; [by destruct ds|].
  assert (n ≤ 2 ^ 62)%Z by nia.
  assert (parse_unit (ds +:+ u) sizeUnits = Some (Ok (n * m)%Z)) as ->; [|done].
  rewrite Hu. clear Hu. induction Hb as [|[v k] before Hv _ IH]; cbn.
  - rewrite cut_fold_app by done. unfold fold_eqb. rewrite String.eqb_refl. f_equal.
    pose proof (trim_digits ds "" Hdig Hne ltac:(by left)) as Ht. rewrite sapp_nil_r in Ht. rewrite Ht.
    unfold parse_count. rewrite (ParseInt_digits ds n) by (try done; unfold is_int64, int64_min, int64_max; lia).
    destruct (Z.ltb_spec n 0); [lia|]. cbn. rewrite Z.shiftl_1_l.
    assert (n ≤ Z.quot (2 ^ 62) m)%Z by (apply Z.quot_le_lower_bound; lia).
    destruct (Z.ltb_spec (Z.quot (2 ^ 62) m) n); [lia|]. unfold mul64. rewrite wrap64_id; [done|].
    unfold is_int64, int64_min, int64_max. nia.
  - cbn in Hv. by rewrite Hv.
Qed.

Lemma pretty_count n : (0 < n)%Z → digits_value (pretty n) 0 = Some n ∧ pretty n ≠ "".
Proof.
  intros Hn. destruct n as [|p|p]; [lia| |lia]. cbn [pretty pretty_Z]. split; [apply digits_value_pos|].
  intros E. pose proof (digits_value_pos p) as Hd. by rewrite E in Hd.
Qed.

(** A dumped size is read back as it was: for every quantity up to 2^62 bytes,
    parsing what [String] renders gives the quantity. *)
Theorem size_roundtrip `{GoRuntime} n (Hn : (0 ≤ n ≤ 2 ^ 62)%Z) : ParseSize (size_String n) = Ok n.
Proof.
  unfold size_String. destruct (Z.eqb_spec n 0) as [->|Hnz].
  { change "0B" with ("0" +:+ "B"). erewrite (parse_digits_unit "0" 0 "B" 1 (take 8 sizeUnits) []); try done.
    repeat constructor. }
  assert (∀ u m before after, sizeUnits = before ++ (u, m) :: after → Forall (λ x, slen x.1 = slen u ∧ fold_eqb u x.1 = false) before →
    (0 < m)%Z → Z.rem n m = 0%Z → ParseSize (pretty (quot64 n m) +:+ u) = Ok n) as Hunit.
  { intros u m before after Hs Hb Hm Hr. unfold quot64. pose proof (Z.quot_rem n m ltac:(lia)) as Hq.
    rewrite Hr, Z.add_0_r in Hq. assert (0 < Z.quot n m)%Z by nia.
    rewrite wrap64_id by (unfold is_int64, int64_min, int64_max; nia).
    destruct (pretty_count (Z.quot n m)) as [Hd Hne]; [done|].
    rewrite (parse_digits_unit _ (Z.quot n m) u m before after); try done; try lia; [by rewrite Z.mul_comm, <-Hq|].
    eapply Forall_impl; [exact Hb|]. intros x [Hl Hf]. rewrite cut_fold_app by done. by rewrite Hf. }
  cbn [size_unit binary_units].
  destruct (Z.eqb_spec (Z.rem n TiB) 0); [by eapply (Hunit "TiB" TiB []); [reflexivity| |..]|].
  destruct (Z.eqb_spec (Z.rem n GiB) 0); [by eapply (Hunit "GiB" GiB (take 1 sizeUnits)); [reflexivity|repeat constructor|..]|].
  destruct (Z.eqb_spec (Z.rem n MiB) 0); [by eapply (Hunit "MiB" MiB (take 2 sizeUnits)); [reflexivity|repeat constructor|..]|].
  destruct (Z.eqb_spec (Z.rem n KiB) 0); [by eapply (Hunit "KiB" KiB (take 3 sizeUnits)); [reflexivity|repeat constructor|..]|].
  destruct (pretty_count n) as [Hd Hne]; [lia|].
  rewrite (parse_digits_unit _ n "B" 1 (take 8 sizeUnits) []); try done; try lia; [by rewrite Z.mul_1_r|].
  pose proof (digits_all _ _ _ Hd). repeat (apply Forall_cons; split; [apply digits_no_unit; [done|set_solver]|]). done.
Qed.

Lemma size_roundtrip_witness : ParseSize (size_String (3 * MiB)) = Ok (3 * MiB)%Z.
Proof. apply size_roundtrip. vm_compute. split; discriminate. Defined.

(** A larger byte count is accepted as a bare integer and refused in the spelling
    the dump gives it. *)
Theorem large_size_not_read_back :
  ParseSize "4611686018427387905" = Ok 4611686018427387905%Z ∧ size_String 4611686018427387905 = "4611686018427387905B" ∧
  ParseSize "4611686018427387905B" = Err SizeOverflows.
Proof. split_and!; vm_compute; reflexivity. Qed.
