(* ===== verification/ConfigPaths.v ===== *)
(** Where configured paths lead (internal/config: [disjointRoots] of config.go, and
    secretpaths.go): absolute and relative paths as package [path/filepath] computes
    them on Unix, the file system under them with its symbolic links, and the
    refusal of secrets inside the transportable store. *)

From S2P Require Import Prelude GoStrings MediaPaths FilePaths.

(** * Package path/filepath *)

(** The elements of a path, and the absolute path of a list of elements. *)
Definition elements (p : string) : list string := List.filter keeps (split_byte "/" p).
Definition root_path (l : list string) : string := "/" +:+ join "/" l.

(** [filepath.Abs] in a working directory that is known. *)
Definition path_abs (cwd p : string) : string :=
  if has_prefix p "/" then path_clean p else path_clean (cwd +:+ "/" +:+ p).

Fixpoint strip_common (b t : list string) : list string * list string :=
  match b, t with
  | x :: b', y :: t' => if String.eqb x y then strip_common b' t' else (b, t)
  | _, _ => (b, t)
  end.

(** [filepath.Rel]. *)
Definition path_rel (basepath targpath : string) : option string :=
  let base := path_clean basepath in
  let targ := path_clean targpath in
  if String.eqb targ base then Some "."
  else
    let base := if String.eqb base "." then "" else base in
    if xorb (has_prefix base "/") (has_prefix targ "/") then None
    else
      let '(b, t) := strip_common (elements base) (elements targ) in
      match b with
      | [] => Some (join "/" t)
      | x :: _ => if String.eqb x ".." then None else Some (join "/" (((λ _, "..") <$> b) ++ t))
      end.

(** * Separate roots *)

(** What the platform adds: Windows compares without case and has several
    spellings of one volume. *)
Record Platform := mkPlatform { volumeSyntax : bool; caseFoldPaths : bool }.

(** [ordinaryVolume]. *)
Definition ordinaryVolume (pl : Platform) (p : string) : string :=
  if negb (volumeSyntax pl) then p
  else match cut_prefix "\\?\UNC\" p, cut_prefix "\\.\UNC\" p with
  | Some rest, _ => "\\" +:+ rest
  | None, Some rest => "\\" +:+ rest
  | None, None =>
      match cut_prefix "\\?\" p, cut_prefix "\\.\" p with
      | Some rest, _ => rest
      | None, Some rest => rest
      | None, None => p
      end
  end.

Inductive roots_error := RootsEqual | StateInStorage | StorageInState.

(** [disjointRoots]; on Unix both paths have an absolute form. *)
Definition disjointRoots (pl : Platform) (cwd state storage : string) : option roots_error :=
  if String.eqb state "" || String.eqb storage "" then None
  else
    let s := path_abs cwd (ordinaryVolume pl state) in
    let g := path_abs cwd (ordinaryVolume pl storage) in
    let inside := match path_rel g s with Some rel => negb (has_prefix rel "..") | None => false end in
    match path_rel g s with
    | Some "." => Some RootsEqual
    | _ =>
        if inside then Some StateInStorage
        else match path_rel s g with
             | Some rel => if negb (has_prefix rel "..") then Some StorageInState else None
             | None => None
             end
    end.

(** * The file system *)

Inductive fnode := FDir | FFile | FLink (target : string).
Abbreviation files := (gmap (list string) fnode).

Definition unix : Platform := mkPlatform false false.

(** [filepath.EvalSymlinks], on elements below the root: at most 255 links, a
    missing element or a file in the middle fails.  [links] is the number of links
    that may still be followed, and what is left is returned. *)
Fixpoint walkSymlinks (fs : files) (links : nat) : list string → list string → option (list string * nat) :=
  fix walk (dest todo : list string) : option (list string * nat) :=
    match todo with
    | [] => Some (dest, links)
    | s :: todo =>
        if negb (keeps s) then walk dest todo
        else if String.eqb s ".." then walk (removelast dest) todo
        else match fs !! (dest ++ [s]) with
        | None => None
        | Some FDir => walk (dest ++ [s]) todo
        | Some FFile => match todo with [] => Some (dest ++ [s], links) | _ => None end
        | Some (FLink target) =>
            match links with
            | 0 => None
            | S links =>
                walkSymlinks fs links (if has_prefix target "/" then [] else dest) (split_byte "/" target ++ todo)
            end
        end
    end.

Definition maxLinks : nat := 255.
Definition EvalSymlinks (fs : files) (l : list string) : option (list string) := fst <$> walkSymlinks fs maxLinks [] l.

(** The loop of [resolvePath], from the whole path up to its root: the longest
    prefix that exists is resolved, and the rest follows it. *)
Fixpoint resolve_up (fs : files) (cur : list string) (rest : list string) : option (list string) :=
  match EvalSymlinks fs (reverse cur) with
  | Some resolved => Some (resolved ++ rest)
  | None => match cur with [] => None | base :: parent => resolve_up fs parent (base :: rest) end
  end.

(** [resolvePath]; [canonicalVolume] is the identity on Unix, and so is
    [ordinaryVolume] on a path that starts with a slash. *)
Definition resolvePath (fs : files) (pl : Platform) (cwd p : string) : string :=
  if String.eqb p "" then ""
  else
    let abs := path_abs cwd (ordinaryVolume pl p) in
    match resolve_up fs (reverse (elements abs)) [] with
    | Some l => root_path l
    | None => abs
    end.

(** [pathUnder]. *)
Definition pathUnder `{GoRuntime} (pl : Platform) (root path : string) : bool :=
  if String.eqb root "" || String.eqb path "" then false
  else
    let root := if caseFoldPaths pl then to_lower root else root in
    let path := if caseFoldPaths pl then to_lower path else path in
    match path_rel root path with
    | None => false
    | Some rel => String.eqb rel "." || (negb (String.eqb rel "..") && negb (has_prefix rel "../"))
    end.

(** * Secrets in the store *)

Record SecretPath := mkSecretPath { sp_Key : string; sp_Path : string; sp_Resolved : string }.

(** The configured places of secrets, as [SecretPaths] lists them. *)
Definition SecretPaths (stateRoot credentialsFile keyFile : string) : list SecretPath :=
  List.filter (λ sp, negb (String.eqb (sp_Path sp) ""))
    [mkSecretPath "state.root" stateRoot ""; mkSecretPath "registries.credentialsFile" credentialsFile "";
     mkSecretPath "server.tls.keyFile" keyFile ""].

(** [SecretsInStore]. *)
Definition SecretsInStore `{GoRuntime} (fs : files) (pl : Platform) (cwd storageRoot : string)
    (secrets : list SecretPath) : list SecretPath :=
  if String.eqb storageRoot "" then []
  else
    let root := resolvePath fs pl cwd storageRoot in
    omap (λ sp,
      let resolved := resolvePath fs pl cwd (sp_Path sp) in
      if negb (pathUnder pl root resolved) then None
      else Some (mkSecretPath (sp_Key sp) (sp_Path sp) resolved)) secrets.

(** [FormatSecretPaths]. *)
Definition format_secret (sp : SecretPath) : string :=
  sp_Key sp +:+ " = " +:+ sp_Path sp +:+
  (if negb (String.eqb (sp_Resolved sp) "") && negb (String.eqb (sp_Resolved sp) (sp_Path sp))
   then " (resolves to " +:+ sp_Resolved sp +:+ ")" else "").
Definition FormatSecretPaths (paths : list SecretPath) : string := join "; " (format_secret <$> paths).

(** * Absolute paths *)

Lemma root_path_prefix l : has_prefix (root_path l) "/" = true.
Proof. apply has_prefix_spec. by exists (join "/" l). Qed.

Lemma split_root l : Forall proper_seg l → split_byte "/" (root_path l) = "" :: (match l with [] => [""] | _ => l end).
Proof.
  intros Hl. unfold root_path. change ("/" +:+ join "/" l) with (String "/" (join "/" l)). cbn [split_byte Ascii.eqb].
  destruct l as [|s l]; [done|]. f_equal. apply (split_rel (s :: l)); done.
Qed.

Lemma elements_root l : Forall proper_seg l → elements (root_path l) = l.
Proof.
  intros Hl. unfold elements. rewrite split_root by done. destruct l as [|s l]; [done|].
  change (List.filter keeps ("" :: s :: l)) with (List.filter keeps (s :: l)). by apply filter_keeps_id.
Qed.

(** The cleaned form of an absolute path. *)
Lemma clean_rooted_stack segs stack : Forall proper_seg stack → Forall (λ w, ¬ in_str "/" w) segs →
  Forall proper_seg (fold_left (clean_step true) segs stack).
Proof.
  revert stack. induction segs as [|s segs IH]; intros stack Hst Hs; [done|]. apply Forall_cons in Hs as [Hs Hss]. cbn.
  apply IH; [|done]. unfold clean_step. destruct (String.eqb_spec s "") as [|H1]; [done|]. cbn.
  destruct (String.eqb_spec s ".") as [|H2]; [done|]. cbn. destruct (String.eqb_spec s "..") as [->|H3].
  - destruct stack as [|top rest]; [done|]. apply Forall_cons in Hst as [[(_ & _ & Ht) _] Hst].
    by rewrite (proj2 (String.eqb_neq _ _)).
  - by constructor.
Qed.

Lemma clean_absolute p : has_prefix p "/" = true → ∃ l, Forall proper_seg l ∧ path_clean p = root_path l.
Proof.
  intros Hp. unfold path_clean. rewrite Hp. destruct (String.eqb_spec p "") as [->|_]; [done|].
  eexists. split; [|done]. apply Forall_reverse, clean_rooted_stack; [done|apply split_byte_no_sep].
Qed.

(** Without [".."] cleaning only drops what it ignores. *)
Lemma clean_plain p : has_prefix p "/" = true → ".." ∉ elements p →
  path_clean p = root_path (elements p) ∧ Forall proper_seg (elements p).
Proof.
  intros Hp Hd. assert (".." ∉ split_byte "/" p) as Hd'.
  { intros Hin. apply Hd. apply list_elem_of_In, filter_In. split; [by apply list_elem_of_In|done]. }
  split; [|by apply filter_keeps_proper]. unfold path_clean. rewrite Hp. destruct (String.eqb_spec p "") as [->|_]; [done|].
  by rewrite clean_no_dotdot, app_nil_r, reverse_involutive.
Qed.

Lemma clean_root l : Forall proper_seg l → path_clean (root_path l) = root_path l.
Proof.
  intros Hl. destruct (clean_plain (root_path l)) as [-> _]; [apply root_path_prefix| |by rewrite elements_root].
  rewrite elements_root by done. by apply proper_no_dotdot.
Qed.

Lemma root_path_inj l l' : Forall proper_seg l → Forall proper_seg l' → root_path l = root_path l' → l = l'.
Proof. intros Hl Hl' E. rewrite <-(elements_root l), <-(elements_root l') by done. by rewrite E. Qed.

Lemma strip_common_spec b t : ∃ c, b = c ++ (strip_common b t).1 ∧ t = c ++ (strip_common b t).2 ∧
  (∀ x b' y t', (strip_common b t).1 = x :: b' → (strip_common b t).2 = y :: t' → x ≠ y).
Proof.
  revert t. induction b as [|x b IH]; intros t; [by exists []; destruct t|].
  destruct t as [|y t]; [by exists []|]. cbn. destruct (String.eqb_spec x y) as [->|Hne].
  - destruct (IH t) as (c & Hb & Ht & Hd). exists (y :: c). cbn. split_and!; [by f_equal|by f_equal|done].
  - exists []. split_and!; try done. cbn. by intros ? ? ? ? [= <- <-] [= <- <-].
Qed.

Lemma strip_common_app b t : strip_common b (b ++ t) = ([], t).
Proof. induction b as [|x b IH]; cbn; [by destruct t|]. by rewrite String.eqb_refl. Qed.

Lemma strip_common_nil b t : (strip_common b t).1 = [] → ∃ t', t = b ++ t'.
Proof. destruct (strip_common_spec b t) as (c & Hb & Ht & _). intros E. rewrite E, app_nil_r in Hb. subst c. eauto. Qed.

(** [filepath.Rel] of two absolute paths. *)
Lemma path_rel_root b t : Forall proper_seg b → Forall proper_seg t →
  path_rel (root_path b) (root_path t) = Some (if decide (t = b) then "." else
    join "/" (((λ _, "..") <$> (strip_common b t).1) ++ (strip_common b t).2)).
Proof.
  intros Hb Ht. unfold path_rel. rewrite !clean_root by done. destruct (String.eqb_spec (root_path t) (root_path b)) as [E|Hne].
  { apply root_path_inj in E; [|done..]. by rewrite decide_True. }
  rewrite decide_False by congruence. destruct (String.eqb_spec (root_path b) ".") as [E|_]; [done|].
  rewrite !root_path_prefix, !elements_root by done. cbn. destruct (strip_common b t) as [b' t'] eqn:E. cbn.
  destruct b' as [|x b']; [done|]. destruct (String.eqb_spec x "..") as [->|_]; [|done]. exfalso.
  destruct (strip_common_spec b t) as (c & Hc & _). rewrite E in Hc. subst b. apply Forall_app in Hb as [_ Hb].
  by apply Forall_cons in Hb as [[(_ & _ & ?) _] _].
Qed.

(** What a relative path that starts with an element looks like. *)
Lemma join_first x l : ∃ r, join "/" (x :: l) = x +:+ r ∧ (r = "" ∨ ∃ r', r = "/" +:+ r').
Proof. destruct l as [|y l]; [exists ""; rewrite sapp_nil_r; auto|]. exists ("/" +:+ join "/" (y :: l)). split; eauto. Qed.

Lemma rel_upwards b t : (strip_common b t).1 ≠ [] →
  ∃ r, join "/" (((λ _, "..") <$> (strip_common b t).1) ++ (strip_common b t).2) = ".." +:+ r ∧ (r = "" ∨ ∃ r', r = "/" +:+ r').
Proof. intros Hn. destruct (strip_common b t).1 as [|x b']; [done|]. apply join_first. Qed.

(** Below: the root itself, or more elements. *)
Definition within (root path : list string) : Prop := ∃ t, path = root ++ t.

Lemma within_strip root path : within root path ↔ (strip_common root path).1 = [].
Proof. split; [intros [t ->]; by rewrite strip_common_app|]. intros [t ->]%strip_common_nil. by exists t. Qed.

(** [pathUnder] on absolute paths says whether one is below the other. *)
Lemma pathUnder_exact `{GoRuntime} root path : Forall proper_seg root → Forall proper_seg path →
  pathUnder unix (root_path root) (root_path path) = true ↔ within root path.
Proof.
  intros Hr Hp. unfold pathUnder. cbn [orb caseFoldPaths unix String.eqb]. rewrite path_rel_root by done.
  rewrite (proj2 (String.eqb_neq (root_path root) "")), (proj2 (String.eqb_neq (root_path path) "")) by done. cbn.
  destruct (decide (path = root)) as [->|Hne]; [split; [by exists []; rewrite app_nil_r|done]|].
  rewrite within_strip. destruct (strip_common root path).1 as [|x b'] eqn:E.
  - apply strip_common_nil in E as [t ->]. rewrite strip_common_app. split; [done|intros _]. cbn.
    apply Forall_app in Hp as [_ Ht]. destruct t as [|y t]; [by rewrite app_nil_r in Hne|].
    assert (split_byte "/" (join "/" (y :: t)) = y :: t) as Hs by (apply (split_rel (y :: t)); done).
    apply Forall_cons in Ht as [[(_ & _ & Hy) _] _]. apply orb_true_iff. right. apply andb_true_iff. split; apply negb_true_iff.
    + apply String.eqb_neq. intros Hj. rewrite Hj in Hs. by injection Hs as <- _.
    + apply not_true_iff_false. intros [r Hj]%has_prefix_spec. rewrite Hj in Hs. by injection Hs as <- _.
  - split; [|done]. destruct (rel_upwards root path) as (r & Hj & Hd); [by rewrite E|]. rewrite E in Hj. rewrite Hj.
    destruct Hd as [->|[r' ->]]; [done|]. intros Hb. exfalso. revert Hb. rewrite orb_true_iff, andb_true_iff, !negb_true_iff.
    intros [Hb|[_ Hb]]; [done|]. apply not_true_iff_false in Hb. apply Hb. apply has_prefix_spec. by exists r'.
Qed.

Lemma prefix_dots y t : proper_seg y → has_prefix (join "/" (y :: t)) ".." = has_prefix y "..".
Proof.
  intros [(Hy & Hd & _) _]. destruct (join_first y t) as (r & -> & Hr). apply Bool.eq_iff_eq_true. rewrite !has_prefix_spec.
  destruct y as [|a [|b y]]; [done| |].
  - split; intros [r' E]; destruct Hr as [->|[r2 ->]]; try discriminate E.
  - split; intros [r' E]; injection E as -> -> E; eauto.
Qed.

(** The elements of a configured directory, made absolute. *)
Definition abs_elements (cwd p : string) : list string := elements (path_abs cwd p).

Lemma path_abs_root cwd p : has_prefix cwd "/" = true →
  path_abs cwd p = root_path (abs_elements cwd p) ∧ Forall proper_seg (abs_elements cwd p).
Proof.
  intros Hc. unfold abs_elements, path_abs. destruct (has_prefix p "/") eqn:Hp.
  - destruct (clean_absolute p Hp) as (l & Hl & ->). by rewrite elements_root.
  - destruct (clean_absolute (cwd +:+ "/" +:+ p)) as (l & Hl & ->).
    { apply has_prefix_spec in Hc as [r ->]. apply has_prefix_spec. exists (r +:+ "/" +:+ p). by rewrite sapp_assoc. }
    by rewrite elements_root.
Qed.

(** A directory that starts, below another, with an element that itself starts
    with two dots. *)
Definition hides (root path : list string) : Prop := ∃ y t, path = root ++ y :: t ∧ has_prefix y ".." = true.

Lemma rel_inside b t : Forall proper_seg b → Forall proper_seg t → t ≠ b →
  has_prefix (join "/" (((λ _, "..") <$> (strip_common b t).1) ++ (strip_common b t).2)) ".." = true ↔ (within b t → hides b t).
Proof.
  intros Hb Ht Hne. destruct (strip_common b t).1 as [|x b'] eqn:E.
  - pose proof E as [t' ->]%strip_common_nil. rewrite strip_common_app. cbn. destruct t' as [|y t']; [by rewrite app_nil_r in Hne|].
    apply Forall_app in Ht as [_ Ht]. apply Forall_cons in Ht as [Hy _]. rewrite prefix_dots by done. split.
    + intros Hp _. by exists y, t'.
    + intros Hw. destruct Hw as (z & t2 & Hz & Hp); [by exists (y :: t')|]. apply app_inv_head in Hz. by injection Hz as <- _.
  - split.
    + intros _ Hw%within_strip. congruence.
    + intros _. destruct (rel_upwards b t) as (r & Hj & _); [by rewrite E|]. rewrite E in Hj. rewrite Hj.
      apply has_prefix_spec. by exists r.
Qed.

Lemma rel_not_dot b t : Forall proper_seg t → t ≠ b →
  join "/" (((λ _, "..") <$> (strip_common b t).1) ++ (strip_common b t).2) ≠ ".".
Proof.
  intros Ht Hne E. destruct (decide ((strip_common b t).1 = [])) as [En|En].
  - pose proof En as [t' ->]%strip_common_nil. rewrite strip_common_app in E. cbn in E.
    destruct t' as [|y t']; [by rewrite app_nil_r in Hne|]. apply Forall_app in Ht as [_ Ht].
    pose proof (split_rel (y :: t') Ht ltac:(done)) as Hsp. cbn [rel_path] in Hsp. rewrite E in Hsp. cbn in Hsp.
    injection Hsp as <- _. by apply Forall_cons in Ht as [[(_ & ? & _) _] _].
  - destruct (rel_upwards b t En) as (r & Hj & _). by rewrite Hj in E.
Qed.

(** Accepted roots are apart: neither directory is the other or below it, but for
    a first element that starts with two dots. *)
Lemma disjoint_roots_iff cwd state storage : has_prefix cwd "/" = true → state ≠ "" → storage ≠ "" →
  disjointRoots unix cwd state storage = None ↔
  abs_elements cwd state ≠ abs_elements cwd storage ∧
  (within (abs_elements cwd storage) (abs_elements cwd state) → hides (abs_elements cwd storage) (abs_elements cwd state)) ∧
  (within (abs_elements cwd state) (abs_elements cwd storage) → hides (abs_elements cwd state) (abs_elements cwd storage)).
Proof.
  intros Hcwd Hstate Hstorage. unfold disjointRoots. rewrite !(proj2 (String.eqb_neq _ _)) by done. cbn [orb ordinaryVolume unix volumeSyntax negb].
  destruct (path_abs_root cwd state Hcwd) as [-> Hs]. destruct (path_abs_root cwd storage Hcwd) as [-> Hg].
  set (s := abs_elements cwd state) in *. set (g := abs_elements cwd storage) in *. rewrite !path_rel_root by done.
  destruct (decide (s = g)) as [->|Hne]; [split; [done|naive_solver]|]. rewrite (decide_False (P := g = s)) by congruence.
  pose proof (rel_inside g s Hg Hs Hne) as H1. pose proof (rel_inside s g Hs Hg ltac:(congruence)) as H2.
  pose proof (rel_not_dot g s Hs Hne) as Hr1.
  generalize dependent (join "/" (((λ _, "..") <$> (strip_common g s).1) ++ (strip_common g s).2)).
  generalize dependent (join "/" (((λ _, "..") <$> (strip_common s g).1) ++ (strip_common s g).2)). intros r2 H2 r1 H1 Hr1.
  assert (∀ (A : Type) (a b : A), match Some r1 with Some "." => a | _ => b end = b) as Hmatch.
  { intros A a b. destruct r1 as [|c r]; [done|]. destruct c as [[] [] [] [] [] [] [] []]; try done. by destruct r. }
  rewrite Hmatch. destruct (has_prefix r1 "..") eqn:E1, (has_prefix r2 "..") eqn:E2; cbn; naive_solver.
Qed.

(** * Where a path leads *)

(** Where the kernel opens or creates a path, directories on the way made as
    [os.MkdirAll] makes them: links are followed, at the end too, and what is
    missing is made where the walk stopped. *)
Fixpoint locate (fs : files) (links : nat) : list string → list string → option (list string) :=
  fix walk (dest todo : list string) : option (list string) :=
    match todo with
    | [] => Some dest
    | s :: todo =>
        if negb (keeps s) then walk dest todo
        else if String.eqb s ".." then walk (removelast dest) todo
        else match fs !! (dest ++ [s]) with
        | None => if decide (Forall proper_seg todo) then Some (dest ++ s :: todo) else None
        | Some FDir => walk (dest ++ [s]) todo
        | Some FFile => match todo with [] => Some (dest ++ [s]) | _ => None end
        | Some (FLink target) =>
            match links with
            | 0 => None
            | S links => locate fs links (if has_prefix target "/" then [] else dest) (split_byte "/" target ++ todo)
            end
        end
    end.

(** What is in a directory; and every link that leads anywhere leads to something
    that exists. *)
Definition files_ok (fs : files) : Prop := ∀ d s, is_Some (fs !! (d ++ [s])) → d = [] ∨ fs !! d = Some FDir.
Definition no_dangling (fs : files) : Prop := ∀ n d s target,
  fs !! (d ++ [s]) = Some (FLink target) →
  is_Some (locate fs n (if has_prefix target "/" then [] else d) (split_byte "/" target)) →
  is_Some (walkSymlinks fs n (if has_prefix target "/" then [] else d) (split_byte "/" target)).

Section resolution.
Context (fs : files).

Lemma walk_cons n dest s todo : walkSymlinks fs n dest (s :: todo) =
  if negb (keeps s) then walkSymlinks fs n dest todo
  else if String.eqb s ".." then walkSymlinks fs n (removelast dest) todo
  else match fs !! (dest ++ [s]) with
  | None => None
  | Some FDir => walkSymlinks fs n (dest ++ [s]) todo
  | Some FFile => match todo with [] => Some (dest ++ [s], n) | _ => None end
  | Some (FLink target) =>
      match n with
      | 0 => None
      | S n => walkSymlinks fs n (if has_prefix target "/" then [] else dest) (split_byte "/" target ++ todo)
      end
  end.
Proof. by destruct n. Qed.

Lemma walk_nil n dest : walkSymlinks fs n dest [] = Some (dest, n).
Proof. by destruct n. Qed.

Lemma locate_cons n dest s todo : locate fs n dest (s :: todo) =
  if negb (keeps s) then locate fs n dest todo
  else if String.eqb s ".." then locate fs n (removelast dest) todo
  else match fs !! (dest ++ [s]) with
  | None => if decide (Forall proper_seg todo) then Some (dest ++ s :: todo) else None
  | Some FDir => locate fs n (dest ++ [s]) todo
  | Some FFile => match todo with [] => Some (dest ++ [s]) | _ => None end
  | Some (FLink target) =>
      match n with
      | 0 => None
      | S n => locate fs n (if has_prefix target "/" then [] else dest) (split_byte "/" target ++ todo)
      end
  end.
Proof. by destruct n. Qed.

Lemma locate_nil n dest : locate fs n dest [] = Some dest.
Proof. by destruct n. Qed.

Lemma proper_keeps s : proper_seg s → keeps s = true ∧ String.eqb s ".." = false.
Proof. intros [(H1 & H2 & H3) _]. split; [by apply keeps_true|by apply String.eqb_neq]. Qed.

Hypothesis Hok : files_ok fs.

(** Nothing is below a file. *)
Lemma below_file d s b : fs !! (d ++ [s]) = Some FFile → fs !! ((d ++ [s]) ++ [b]) = None.
Proof.
  intros Hf. apply eq_None_not_Some. intros [E|E]%Hok; [by destruct d|congruence].
Qed.

Lemma walk_app n dest a b : Forall proper_seg b →
  walkSymlinks fs n dest (a ++ b) = walkSymlinks fs n dest a ≫= λ '(d, n'), walkSymlinks fs n' d b.
Proof.
  intros Hb. revert dest a. induction n as [n IHn] using (well_founded_induction lt_wf). intros dest a. revert dest.
  induction a as [|s a IH]; intros dest; [by rewrite walk_nil|].
  change ((s :: a) ++ b) with (s :: (a ++ b)). rewrite !walk_cons.
  destruct (keeps s); [|apply IH]. destruct (String.eqb s ".."); [apply IH|].
  destruct (fs !! (dest ++ [s])) as [[| |target]|] eqn:E; [apply IH| | |done].
  - destruct a as [|x a]; [|done]. cbn. destruct b as [|y b]; [by rewrite walk_nil|].
    apply Forall_cons in Hb as [[Hk Hd]%proper_keeps _]. rewrite walk_cons, Hk, Hd. cbn. by rewrite below_file.
  - destruct n as [|n]; [done|]. rewrite app_assoc. apply IHn. lia.
Qed.

Lemma locate_prefix n dest a b q : locate fs n dest (a ++ b) = Some q → is_Some (locate fs n dest a).
Proof.
  revert dest a. induction n as [n IHn] using (well_founded_induction lt_wf). intros dest a. revert dest.
  induction a as [|s a IH]; intros dest Hl; [by rewrite locate_nil|].
  change ((s :: a) ++ b) with (s :: (a ++ b)) in Hl. rewrite locate_cons in Hl |- *.
  destruct (keeps s); [|by apply IH]. destruct (String.eqb s ".."); [by eapply IH|].
  destruct (fs !! (dest ++ [s])) as [[| |target]|]; [by eapply IH| | |].
  - by destruct a.
  - destruct n as [|n]; [done|]. rewrite app_assoc in Hl. eapply IHn; [lia|exact Hl].
  - case_decide as Hp; [|done]. apply Forall_app in Hp as [Hp _]. rewrite decide_True by done. eauto.
Qed.

(** Locating after what exists. *)
Lemma locate_app n dest a b d n' q : walkSymlinks fs n dest a = Some (d, n') →
  locate fs n dest (a ++ b) = Some q → locate fs n' d b = Some q.
Proof.
  revert dest a. induction n as [n IHn] using (well_founded_induction lt_wf). intros dest a. revert dest.
  induction a as [|s a IH]; intros dest Hw Hl; [rewrite walk_nil in Hw; by injection Hw as <- <-|].
  change ((s :: a) ++ b) with (s :: (a ++ b)) in Hl. rewrite locate_cons in Hl. rewrite walk_cons in Hw.
  destruct (keeps s); cbn [negb] in *; [|by eapply IH]. destruct (String.eqb s ".."); [by eapply IH|].
  destruct (fs !! (dest ++ [s])) as [[| |target]|]; [by eapply IH| | |done].
  - destruct a as [|x a]; [|done]. injection Hw as <- <-. cbn in Hl. destruct b; [|done]. by rewrite locate_nil.
  - destruct n as [|n]; [done|]. rewrite app_assoc in Hl. exact (IHn n (Nat.lt_succ_diag_r n) _ _ Hw Hl).
Qed.

Hypothesis Hlinks : no_dangling fs.

(** The place of a path is the real path of its longest prefix that exists,
    with the rest after it. *)
Lemma locate_split l n dest q : Forall proper_seg l → locate fs n dest l = Some q →
  ∃ pre rest d n', l = pre ++ rest ∧ walkSymlinks fs n dest pre = Some (d, n') ∧ q = d ++ rest ∧
    ∀ more after, rest = more ++ after → more ≠ [] → walkSymlinks fs n dest (pre ++ more) = None.
Proof.
  intros Hl. revert n dest. induction Hl as [|s l Hs Hl IH]; intros n dest Hq.
  { rewrite locate_nil in Hq. injection Hq as <-. exists [], [], dest, n. split_and!; [done|apply walk_nil|by rewrite app_nil_r|].
    intros more after E Hm. symmetry in E. by apply app_nil in E as [-> _]. }
  destruct (proper_keeps s Hs) as [Hk Hd]. rewrite locate_cons, Hk, Hd in Hq. cbn in Hq.
  destruct (fs !! (dest ++ [s])) as [[| |target]|] eqn:E.
  - destruct (IH _ _ Hq) as (pre & rest & d & n' & -> & Hw & -> & Hno). exists (s :: pre), rest, d, n'.
    split_and!; [done|by rewrite walk_cons, Hk, Hd, E|done|]. intros more after Hr Hm.
    change ((s :: pre) ++ more) with (s :: (pre ++ more)). rewrite walk_cons, Hk, Hd, E. cbn. by eapply Hno.
  - destruct l as [|x l]; [|done]. injection Hq as <-. exists [s], [], (dest ++ [s]), n.
    split_and!; [done|by rewrite walk_cons, Hk, Hd, E|by rewrite app_nil_r|]. intros more after Hr Hm.
    symmetry in Hr. by apply app_nil in Hr as [-> _].
  - destruct n as [|n]; [done|].
    destruct (Hlinks n dest s target E) as [[d1 n1] Hw1]; [by eapply locate_prefix|].
    pose proof (locate_app _ _ _ _ _ _ _ Hw1 Hq) as Hq1.
    destruct (IH _ _ Hq1) as (pre & rest & d & n' & -> & Hw & -> & Hno). apply Forall_app in Hl as [Hpre Hrest].
    exists (s :: pre), rest, d, n'. split_and!; [done| |done|].
    + rewrite walk_cons, Hk, Hd, E. cbn. rewrite walk_app by done. by rewrite Hw1.
    + intros more after -> Hm. apply Forall_app in Hrest as [Hmore _].
      change ((s :: pre) ++ more) with (s :: (pre ++ more)). rewrite walk_cons, Hk, Hd, E. cbn.
      rewrite walk_app by (by apply Forall_app). rewrite Hw1. cbn. by eapply Hno.
  - rewrite decide_True in Hq by done. injection Hq as <-. exists [], (s :: l), dest, n. split_and!; [done|apply walk_nil|done|].
    intros more after Hr Hm. destruct more as [|x more]; [done|]. injection Hr as <- _. cbn [app].
    by rewrite walk_cons, Hk, Hd, E.
Qed.

Lemma resolve_up_step cur rest : resolve_up fs cur rest =
  match EvalSymlinks fs (reverse cur) with
  | Some resolved => Some (resolved ++ rest)
  | None => match cur with [] => None | base :: parent => resolve_up fs parent (base :: rest) end
  end.
Proof. by destruct cur. Qed.

Lemma resolve_up_spec pre rest d n acc : walkSymlinks fs maxLinks [] pre = Some (d, n) →
  (∀ more after, rest = more ++ after → more ≠ [] → walkSymlinks fs maxLinks [] (pre ++ more) = None) →
  resolve_up fs (reverse (pre ++ rest)) acc = Some (d ++ rest ++ acc).
Proof.
  intros Hw. revert acc. induction rest as [|x rest IH] using rev_ind; intros acc Hno.
  - rewrite app_nil_r, resolve_up_step. unfold EvalSymlinks. by rewrite reverse_involutive, Hw.
  - rewrite app_assoc, reverse_snoc, resolve_up_step. unfold EvalSymlinks.
    rewrite reverse_cons, reverse_involutive, <-app_assoc, (Hno (rest ++ [x]) []); [|by rewrite app_nil_r|by destruct rest].
    cbn. rewrite IH.
    + by rewrite <-!app_assoc.
    + intros more after -> Hm. apply (Hno more (after ++ [x])); [by rewrite <-app_assoc|done].
Qed.

(** Following links as the check does leads where the kernel goes. *)
Lemma resolve_locate l q : Forall proper_seg l → locate fs maxLinks [] l = Some q → resolve_up fs (reverse l) [] = Some q.
Proof.
  intros Hl Hq. destruct (locate_split l maxLinks [] q Hl Hq) as (pre & rest & d & n' & -> & Hw & -> & Hno).
  rewrite (resolve_up_spec pre rest d n' []) by done. by rewrite app_nil_r.
Qed.
End resolution.

(** Where a configured path leads, as the process will use it. *)
Definition written_path (cwd p : string) : string := if has_prefix p "/" then p else cwd +:+ "/" +:+ p.
Definition location (fs : files) (cwd p : string) : option (list string) :=
  locate fs maxLinks [] (elements (written_path cwd p)).

Lemma removelast_Forall {A} (P : A → Prop) l : Forall P l → Forall P (removelast l).
Proof. induction 1 as [|x l Hx Hl IH]; [done|]. destruct l; [done|]. by constructor. Qed.

Lemma locate_proper fs n dest todo q : Forall proper_seg dest → Forall (λ w, ¬ in_str "/" w) todo →
  locate fs n dest todo = Some q → Forall proper_seg q.
Proof.
  revert dest todo. induction n as [n IHn] using (well_founded_induction lt_wf). intros dest todo. revert dest.
  induction todo as [|s todo IH]; intros dest Hd Ht Hl; [rewrite locate_nil in Hl; by injection Hl as <-|].
  apply Forall_cons in Ht as [Hs Ht]. rewrite locate_cons in Hl.
  destruct (keeps s) eqn:Hk; cbn [negb] in *; [|by eapply IH]. apply keeps_true in Hk as [Hk1 Hk2].
  destruct (String.eqb_spec s "..") as [|Hk3]; [eapply IH; [by apply removelast_Forall|done|exact Hl]|].
  assert (proper_seg s) as Hp by (by repeat split).
  destruct (fs !! (dest ++ [s])) as [[| |target]|].
  - eapply IH; [by apply proper_snoc|done|exact Hl].
  - destruct todo; [|done]. injection Hl as <-. by apply proper_snoc.
  - destruct n as [|n]; [done|]. refine (IHn n (Nat.lt_succ_diag_r n) _ _ _ _ Hl); [by destruct (has_prefix _ _)|].
    apply Forall_app. split; [apply split_byte_no_sep|done].
  - case_decide; [|done]. injection Hl as <-. apply Forall_app. split; [done|by constructor].
Qed.

Lemma written_absolute cwd p : has_prefix cwd "/" = true → has_prefix (written_path cwd p) "/" = true.
Proof.
  intros Hc. unfold written_path. destruct (has_prefix p "/") eqn:Hp; [done|].
  apply has_prefix_spec in Hc as [r ->]. apply has_prefix_spec. exists (r +:+ "/" +:+ p). by rewrite sapp_assoc.
Qed.

Lemma elements_no_slash p : Forall (λ w, ¬ in_str "/" w) (elements p).
Proof.
  apply Forall_forall. intros s [Hin _]%list_elem_of_In%filter_In. apply list_elem_of_In in Hin.
  pose proof (split_byte_no_sep "/" p) as Hn. rewrite Forall_forall in Hn. by apply Hn.
Qed.

Section secrets.
Context `{GoRuntime} (fs : files) (cwd : string).
Hypothesis Hok : files_ok fs.
Hypothesis Hlinks : no_dangling fs.
Hypothesis Hcwd : has_prefix cwd "/" = true.

(** A path without [".."] resolves to where it leads. *)
Lemma resolvePath_location p q : p ≠ "" → ".." ∉ elements (written_path cwd p) → location fs cwd p = Some q →
  resolvePath fs unix cwd p = root_path q ∧ Forall proper_seg q.
Proof.
  intros Hp Hd Hq. split; [|eapply locate_proper; [constructor|apply elements_no_slash|exact Hq]].
  destruct (clean_plain (written_path cwd p)) as [Hc Hpr]; [by apply written_absolute|done|].
  unfold resolvePath. rewrite (proj2 (String.eqb_neq _ _)) by done. cbn [ordinaryVolume unix volumeSyntax negb].
  assert (path_abs cwd p = path_clean (written_path cwd p)) as -> by (unfold path_abs, written_path; by destruct (has_prefix p "/")).
  rewrite Hc, elements_root by done. by rewrite (resolve_locate fs Hok Hlinks _ q).
Qed.

(** C23: The refusal of secrets in the store is exact.  As long as no link of the file
    system dangles and the paths hold no [".."], a configured secret is reported
    exactly when the place it leads to, links followed and missing directories
    made, is the place of the store or below it. *)
Theorem secrets_in_store_exact storage secrets sp g q
    (Hstorage : storage ≠ "" ∧ ".." ∉ elements (written_path cwd storage)) (Hg : location fs cwd storage = Some g)
    (Hin : sp ∈ secrets) (Hpath : sp_Path sp ≠ "" ∧ ".." ∉ elements (written_path cwd (sp_Path sp)))
    (Hq : location fs cwd (sp_Path sp) = Some q) :
  within g q ↔ mkSecretPath (sp_Key sp) (sp_Path sp) (root_path q) ∈ SecretsInStore fs unix cwd storage secrets.
Proof.
  destruct Hstorage as [Hs Hsd]. destruct Hpath as [Hp Hpd].
  destruct (resolvePath_location storage g Hs Hsd Hg) as [Hrg Hgp]. destruct (resolvePath_location _ q Hp Hpd Hq) as [Hrq Hqp].
  unfold SecretsInStore. rewrite (proj2 (String.eqb_neq _ _)) by done. rewrite Hrg, list_elem_of_omap.
  rewrite <-(pathUnder_exact g q) by done. split.
  - intros Hu. exists sp. split; [done|]. by rewrite Hrq, Hu.
  - intros (sp' & _ & E). destruct (pathUnder unix (root_path g) (resolvePath fs unix cwd (sp_Path sp'))) eqn:Hu; [|done].
    cbn in E. injection E as _ _ E. by rewrite E in Hu.
Qed.
End secrets.

(** * Cases *)

(** A store, and a credentials file reached through a link into it. *)
Definition linked_files : files :=
  <[["store"] := FDir]> (<[["etc"] := FDir]> (<[["etc"; "safe"] := FLink "/store"]> ∅)).

Lemma linked_ok : files_ok linked_files.
Proof.
  intros d s. unfold linked_files. rewrite !lookup_insert_is_Some, lookup_empty.
  intros [E|[_ [E|[_ [E|[_ []%is_Some_None]]]]]].
  - left. destruct d as [|? [|]]; [done|discriminate E..].
  - left. destruct d as [|? [|]]; [done|discriminate E..].
  - right. destruct d as [|x [|y [|]]]; try discriminate E. by injection E as <- _.
Qed.

Lemma linked_no_dangling : no_dangling linked_files.
Proof.
  intros n d s target. unfold linked_files at 1. rewrite !lookup_insert_Some, lookup_empty.
  intros [[_ E]|[_ [[_ E]|[_ [[_ E]|[_ E]]]]]]; try discriminate E. injection E as <-. intros _. cbn.
  assert (walkSymlinks linked_files n [] ["store"] = Some (["store"], n)) as Hw by (by destruct n).
  assert (walkSymlinks linked_files n [] [""; "store"] = Some (["store"], n)) as -> by (by destruct n). eauto.
Qed.

Lemma secrets_in_store_exact_witness :
  SecretsInStore linked_files unix "/" "/store" (SecretPaths "/state" "etc/safe/creds.json" "") =
    [mkSecretPath "registries.credentialsFile" "etc/safe/creds.json" "/store/creds.json"] ∧
  mkSecretPath "registries.credentialsFile" "etc/safe/creds.json" "/store/creds.json" ∈
    SecretsInStore linked_files unix "/" "/store" (SecretPaths "/state" "etc/safe/creds.json" "").
Proof.
  split; [vm_compute; reflexivity|].
  apply (secrets_in_store_exact linked_files "/" linked_ok linked_no_dangling eq_refl "/store"
    (SecretPaths "/state" "etc/safe/creds.json" "") (mkSecretPath "registries.credentialsFile" "etc/safe/creds.json" "")
    ["store"] ["store"; "creds.json"]).
  - split; [done|]. vm_compute. set_solver.
  - vm_compute. reflexivity.
  - vm_compute. set_solver.
  - split; [done|]. vm_compute. set_solver.
  - vm_compute. reflexivity.
  - by exists ["creds.json"].
Defined.

(** A link that leads into the store to a file not there yet: the key is made in
    the store, and the check does not see it. *)
Definition dangling_files : files :=
  <[["store"] := FDir]> (<[["etc"] := FDir]> (<[["etc"; "key.pem"] := FLink "/store/key.pem"]> ∅)).

Theorem dangling_link_unseen :
  location dangling_files "/" "/etc/key.pem" = Some ["store"; "key.pem"] ∧
  SecretsInStore dangling_files unix "/" "/store" (SecretPaths "" "" "/etc/key.pem") = [].
Proof. split; vm_compute; reflexivity. Qed.

(** A [".."] behind a link is removed with the link before it is followed: the
    check looks beside the link, the process goes into the store. *)
Definition detour_files : files :=
  <[["store"] := FDir]> (<[["store"; "x"] := FDir]> (<[["store"; "creds"] := FFile]>
    (<[["etc"] := FDir]> (<[["etc"; "link"] := FLink "/store/x"]> ∅)))).

Theorem dotdot_behind_link_unseen :
  location detour_files "/" "/etc/link/../creds" = Some ["store"; "creds"] ∧
  SecretsInStore detour_files unix "/" "/store" (SecretPaths "" "/etc/link/../creds" "") = [].
Proof. split; vm_compute; reflexivity. Qed.

(** A state directory inside the store whose name starts with two dots is
    accepted. *)
Theorem dotted_state_accepted : disjointRoots unix "/" "/store/..state" "/store" = None ∧
  within (abs_elements "/" "/store") (abs_elements "/" "/store/..state").
Proof. split; [vm_compute; reflexivity|]. by exists ["..state"]. Qed.
