(* ===== verification/Config.v ===== *)
(** The configuration of an instance (internal/config: config.go and env.go): the
    sections with their defaults, the layers that make the effective value of a
    setting, and the validation of the result against the scope of a command. *)

From S2P Require Import Prelude GoStrings MediaPaths FilePaths Trust Preflight FileSets ConfigValues ConfigPaths.

(** * Sections *)

Definition ModePassthrough : string := "passthrough".
Definition ModeMirror : string := "mirror".

Record cfgStorage := mkStorage { cs_Root : string; cs_BasePrefix : string; cs_OccupancyThreshold : Z }.
Record cfgServerTLS := mkServerTLS {
  tl_Enabled : bool; tl_CertFile : string; tl_KeyFile : string; tl_Hosts : list string }.
Record cfgServer := mkCfgServer { sv_Addr : string; sv_TLS : cfgServerTLS; sv_SecureCookies : bool }.
Record cfgAuth := mkCfgAuth { ca_Disabled : bool; ca_SessionTTL : Z }.
Record cfgProxy := mkProxy {
  px_URL : string; px_HTTPSURL : string; px_NoProxy : list string; px_Username : string; px_Password : Secret }.
Record cfgClientTLS := mkClientTLS { ct_CAFiles : list string; ct_CA : string; ct_ExclusiveTrust : bool }.
Record cfgNetwork := mkNetwork { nw_Proxy : cfgProxy; nw_TLS : cfgClientTLS }.

(** An allowlist that is absent and one that is empty are different statements. *)
Record cfgRegistries := mkRegistries {
  rg_Insecure : list string; rg_Substitutions : gmap string string; rg_Allowlist : option (list string);
  rg_CredentialsFile : string }.
Record cfgUI := mkUI { ui_ThemeOverride : string; ui_ShowUpcoming : bool }.
Record cfgDestination := mkDestination { dt_Registry : string; dt_BasePath : string; dt_Cookbook : string }.
Record cfgSync := mkSync { sy_Parallelism : Z; sy_Retries : Z; sy_Interval : Z; sy_Prune : bool }.
Record cfgPreflight := mkPreflight { pf_SafetyMarginPercent : Z; pf_Disabled : bool }.
Record cfgTrust := mkTrust { tc_Roots : list TrustRoot; tc_Scopes : list TrustScope }.
Record cfgFiles := mkFiles { fl_FileSets : list FileSetServe; fl_PackRoots : list string }.
Record cfgMediaLog := mkMediaLog { ml_File : string; ml_MaxSize : Z; ml_Keep : Z; ml_Disabled : bool }.
Record cfgLogging := mkLogging { lg_Level : string; lg_Media : cfgMediaLog }.

(** [Config]; the sections with one setting are that setting. *)
Record Config := mkConfig {
  cf_Mode : string; cf_Zone : string; cf_Storage : cfgStorage; cf_StateRoot : string; cf_Server : cfgServer;
  cf_Auth : cfgAuth; cf_Network : cfgNetwork; cf_Registries : cfgRegistries; cf_UI : cfgUI; cf_InspectTimeout : Z;
  cf_ResumeThreshold : Z; cf_RetrieverSource : string; cf_Destination : cfgDestination; cf_Sync : cfgSync;
  cf_Preflight : cfgPreflight; cf_KeepFinished : Z; cf_Trust : cfgTrust; cf_Files : cfgFiles; cf_Logging : cfgLogging;
  cf_GracePeriod : Z }.

Definition destination_Configured (d : cfgDestination) : bool := negb (String.eqb (dt_Registry d) "").
Definition proxy_Configured (p : cfgProxy) : bool := negb (String.eqb (px_URL p) "") || negb (String.eqb (px_HTTPSURL p) "").
Definition tls_Serves (t : cfgServerTLS) : bool :=
  tl_Enabled t || negb (String.eqb (tl_CertFile t) "") || negb (String.eqb (tl_KeyFile t) "").
Definition clientTLS_Configured (t : cfgClientTLS) : bool :=
  (0 <? length (ct_CAFiles t))%nat || negb (String.eqb (ct_CA t) "").

Definition DefaultCookbook : string := "cookbook".
Definition second : Z := 1000000000.

(** [Default]. *)
Definition Default : Config :=
  mkConfig "" "" (mkStorage "" "" 0) "" (mkCfgServer ":8080" (mkServerTLS false "" "" []) false)
    (mkCfgAuth false (12 * 3600 * second)) (mkNetwork (mkProxy "" "" [] "" (NewSecret "")) (mkClientTLS [] "" false))
    (mkRegistries [] ∅ None "") (mkUI "" false) (20 * second) (64 * MiB) "" (mkDestination "" "" DefaultCookbook)
    (mkSync 3 3 (15 * 60 * second) false) (mkPreflight DefaultMarginPercent false) 500 (mkTrust [] []) (mkFiles [] [])
    (mkLogging "info" (mkMediaLog "" 0 0 false)) (30 * second).

(** * Changing one section *)

Definition set_mode (v : string) (c : Config) : Config :=
  mkConfig v (cf_Zone c) (cf_Storage c) (cf_StateRoot c) (cf_Server c) (cf_Auth c) (cf_Network c) (cf_Registries c) (cf_UI c)
    (cf_InspectTimeout c) (cf_ResumeThreshold c) (cf_RetrieverSource c) (cf_Destination c) (cf_Sync c) (cf_Preflight c)
    (cf_KeepFinished c) (cf_Trust c) (cf_Files c) (cf_Logging c) (cf_GracePeriod c).
Definition set_zone (v : string) (c : Config) : Config :=
  mkConfig (cf_Mode c) v (cf_Storage c) (cf_StateRoot c) (cf_Server c) (cf_Auth c) (cf_Network c) (cf_Registries c) (cf_UI c)
    (cf_InspectTimeout c) (cf_ResumeThreshold c) (cf_RetrieverSource c) (cf_Destination c) (cf_Sync c) (cf_Preflight c)
    (cf_KeepFinished c) (cf_Trust c) (cf_Files c) (cf_Logging c) (cf_GracePeriod c).
Definition on_storage (f : cfgStorage → cfgStorage) (c : Config) : Config :=
  mkConfig (cf_Mode c) (cf_Zone c) (f (cf_Storage c)) (cf_StateRoot c) (cf_Server c) (cf_Auth c) (cf_Network c) (cf_Registries c)
    (cf_UI c) (cf_InspectTimeout c) (cf_ResumeThreshold c) (cf_RetrieverSource c) (cf_Destination c) (cf_Sync c) (cf_Preflight c)
    (cf_KeepFinished c) (cf_Trust c) (cf_Files c) (cf_Logging c) (cf_GracePeriod c).
Definition set_stateRoot (v : string) (c : Config) : Config :=
  mkConfig (cf_Mode c) (cf_Zone c) (cf_Storage c) v (cf_Server c) (cf_Auth c) (cf_Network c) (cf_Registries c) (cf_UI c)
    (cf_InspectTimeout c) (cf_ResumeThreshold c) (cf_RetrieverSource c) (cf_Destination c) (cf_Sync c) (cf_Preflight c)
    (cf_KeepFinished c) (cf_Trust c) (cf_Files c) (cf_Logging c) (cf_GracePeriod c).
Definition on_server (f : cfgServer → cfgServer) (c : Config) : Config :=
  mkConfig (cf_Mode c) (cf_Zone c) (cf_Storage c) (cf_StateRoot c) (f (cf_Server c)) (cf_Auth c) (cf_Network c) (cf_Registries c)
    (cf_UI c) (cf_InspectTimeout c) (cf_ResumeThreshold c) (cf_RetrieverSource c) (cf_Destination c) (cf_Sync c) (cf_Preflight c)
    (cf_KeepFinished c) (cf_Trust c) (cf_Files c) (cf_Logging c) (cf_GracePeriod c).
Definition on_auth (f : cfgAuth → cfgAuth) (c : Config) : Config :=
  mkConfig (cf_Mode c) (cf_Zone c) (cf_Storage c) (cf_StateRoot c) (cf_Server c) (f (cf_Auth c)) (cf_Network c) (cf_Registries c)
    (cf_UI c) (cf_InspectTimeout c) (cf_ResumeThreshold c) (cf_RetrieverSource c) (cf_Destination c) (cf_Sync c) (cf_Preflight c)
    (cf_KeepFinished c) (cf_Trust c) (cf_Files c) (cf_Logging c) (cf_GracePeriod c).
Definition on_network (f : cfgNetwork → cfgNetwork) (c : Config) : Config :=
  mkConfig (cf_Mode c) (cf_Zone c) (cf_Storage c) (cf_StateRoot c) (cf_Server c) (cf_Auth c) (f (cf_Network c)) (cf_Registries c)
    (cf_UI c) (cf_InspectTimeout c) (cf_ResumeThreshold c) (cf_RetrieverSource c) (cf_Destination c) (cf_Sync c) (cf_Preflight c)
    (cf_KeepFinished c) (cf_Trust c) (cf_Files c) (cf_Logging c) (cf_GracePeriod c).
Definition on_registries (f : cfgRegistries → cfgRegistries) (c : Config) : Config :=
  mkConfig (cf_Mode c) (cf_Zone c) (cf_Storage c) (cf_StateRoot c) (cf_Server c) (cf_Auth c) (cf_Network c) (f (cf_Registries c))
    (cf_UI c) (cf_InspectTimeout c) (cf_ResumeThreshold c) (cf_RetrieverSource c) (cf_Destination c) (cf_Sync c) (cf_Preflight c)
    (cf_KeepFinished c) (cf_Trust c) (cf_Files c) (cf_Logging c) (cf_GracePeriod c).
Definition on_ui (f : cfgUI → cfgUI) (c : Config) : Config :=
  mkConfig (cf_Mode c) (cf_Zone c) (cf_Storage c) (cf_StateRoot c) (cf_Server c) (cf_Auth c) (cf_Network c) (cf_Registries c)
    (f (cf_UI c)) (cf_InspectTimeout c) (cf_ResumeThreshold c) (cf_RetrieverSource c) (cf_Destination c) (cf_Sync c) (cf_Preflight c)
    (cf_KeepFinished c) (cf_Trust c) (cf_Files c) (cf_Logging c) (cf_GracePeriod c).
Definition set_inspectTimeout (v : Z) (c : Config) : Config :=
  mkConfig (cf_Mode c) (cf_Zone c) (cf_Storage c) (cf_StateRoot c) (cf_Server c) (cf_Auth c) (cf_Network c) (cf_Registries c)
    (cf_UI c) v (cf_ResumeThreshold c) (cf_RetrieverSource c) (cf_Destination c) (cf_Sync c) (cf_Preflight c)
    (cf_KeepFinished c) (cf_Trust c) (cf_Files c) (cf_Logging c) (cf_GracePeriod c).
Definition set_resumeThreshold (v : Z) (c : Config) : Config :=
  mkConfig (cf_Mode c) (cf_Zone c) (cf_Storage c) (cf_StateRoot c) (cf_Server c) (cf_Auth c) (cf_Network c) (cf_Registries c)
    (cf_UI c) (cf_InspectTimeout c) v (cf_RetrieverSource c) (cf_Destination c) (cf_Sync c) (cf_Preflight c)
    (cf_KeepFinished c) (cf_Trust c) (cf_Files c) (cf_Logging c) (cf_GracePeriod c).
Definition set_retrieverSource (v : string) (c : Config) : Config :=
  mkConfig (cf_Mode c) (cf_Zone c) (cf_Storage c) (cf_StateRoot c) (cf_Server c) (cf_Auth c) (cf_Network c) (cf_Registries c)
    (cf_UI c) (cf_InspectTimeout c) (cf_ResumeThreshold c) v (cf_Destination c) (cf_Sync c) (cf_Preflight c)
    (cf_KeepFinished c) (cf_Trust c) (cf_Files c) (cf_Logging c) (cf_GracePeriod c).
Definition on_destination (f : cfgDestination → cfgDestination) (c : Config) : Config :=
  mkConfig (cf_Mode c) (cf_Zone c) (cf_Storage c) (cf_StateRoot c) (cf_Server c) (cf_Auth c) (cf_Network c) (cf_Registries c)
    (cf_UI c) (cf_InspectTimeout c) (cf_ResumeThreshold c) (cf_RetrieverSource c) (f (cf_Destination c)) (cf_Sync c) (cf_Preflight c)
    (cf_KeepFinished c) (cf_Trust c) (cf_Files c) (cf_Logging c) (cf_GracePeriod c).
Definition on_sync (f : cfgSync → cfgSync) (c : Config) : Config :=
  mkConfig (cf_Mode c) (cf_Zone c) (cf_Storage c) (cf_StateRoot c) (cf_Server c) (cf_Auth c) (cf_Network c) (cf_Registries c)
    (cf_UI c) (cf_InspectTimeout c) (cf_ResumeThreshold c) (cf_RetrieverSource c) (cf_Destination c) (f (cf_Sync c)) (cf_Preflight c)
    (cf_KeepFinished c) (cf_Trust c) (cf_Files c) (cf_Logging c) (cf_GracePeriod c).
Definition on_preflight (f : cfgPreflight → cfgPreflight) (c : Config) : Config :=
  mkConfig (cf_Mode c) (cf_Zone c) (cf_Storage c) (cf_StateRoot c) (cf_Server c) (cf_Auth c) (cf_Network c) (cf_Registries c)
    (cf_UI c) (cf_InspectTimeout c) (cf_ResumeThreshold c) (cf_RetrieverSource c) (cf_Destination c) (cf_Sync c) (f (cf_Preflight c))
    (cf_KeepFinished c) (cf_Trust c) (cf_Files c) (cf_Logging c) (cf_GracePeriod c).
Definition set_keepFinished (v : Z) (c : Config) : Config :=
  mkConfig (cf_Mode c) (cf_Zone c) (cf_Storage c) (cf_StateRoot c) (cf_Server c) (cf_Auth c) (cf_Network c) (cf_Registries c)
    (cf_UI c) (cf_InspectTimeout c) (cf_ResumeThreshold c) (cf_RetrieverSource c) (cf_Destination c) (cf_Sync c) (cf_Preflight c)
    v (cf_Trust c) (cf_Files c) (cf_Logging c) (cf_GracePeriod c).
Definition on_logging (f : cfgLogging → cfgLogging) (c : Config) : Config :=
  mkConfig (cf_Mode c) (cf_Zone c) (cf_Storage c) (cf_StateRoot c) (cf_Server c) (cf_Auth c) (cf_Network c) (cf_Registries c)
    (cf_UI c) (cf_InspectTimeout c) (cf_ResumeThreshold c) (cf_RetrieverSource c) (cf_Destination c) (cf_Sync c) (cf_Preflight c)
    (cf_KeepFinished c) (cf_Trust c) (cf_Files c) (f (cf_Logging c)) (cf_GracePeriod c).
Definition set_gracePeriod (v : Z) (c : Config) : Config :=
  mkConfig (cf_Mode c) (cf_Zone c) (cf_Storage c) (cf_StateRoot c) (cf_Server c) (cf_Auth c) (cf_Network c) (cf_Registries c)
    (cf_UI c) (cf_InspectTimeout c) (cf_ResumeThreshold c) (cf_RetrieverSource c) (cf_Destination c) (cf_Sync c) (cf_Preflight c)
    (cf_KeepFinished c) (cf_Trust c) (cf_Files c) (cf_Logging c) v.

(** * Environment variables *)

Inductive env_error :=
  | EnvInvalidBool (name v : string)
  | EnvInvalidDuration (name v : string)
  | EnvInvalidSize (name : string) (e : size_error)
  | EnvInvalidInteger (name v : string).

(** [splitList]. *)
Definition splitList `{GoRuntime} (v : string) : list string :=
  List.filter (λ item, negb (String.eqb item "")) (trim_space <$> split_byte "," v).

(** [parseBool]. *)
Definition parseBool (name v : string) : res env_error bool :=
  if String.eqb v "true" || String.eqb v "1" then Ok true
  else if String.eqb v "false" || String.eqb v "0" || String.eqb v "" then Ok false
  else Err (EnvInvalidBool name v).

(** A setting the environment may give: its variable, how its text is read, and
    the field it stands for. *)
Record setting := mkSetting {
  se_name : string; se_type : Set; se_parse : string → res env_error se_type;
  se_get : Config → se_type; se_set : se_type → Config → Config }.

Definition text_setting (name : string) (get : Config → string) (set : string → Config → Config) : setting :=
  mkSetting name string (λ v, Ok v) get set.
Definition bool_setting (name : string) (get : Config → bool) (set : bool → Config → Config) : setting :=
  mkSetting name bool (parseBool name) get set.
Definition int_setting (name : string) (get : Config → Z) (set : Z → Config → Config) : setting :=
  mkSetting name Z (λ v, match ParseInt v with Some n => Ok n | None => Err (EnvInvalidInteger name v) end) get set.

Section environment.
Context `{GoRuntime, DurationLib}.

Definition list_setting (name : string) (get : Config → list string) (set : list string → Config → Config) : setting :=
  mkSetting name (list string) (λ v, Ok (splitList v)) get set.
Definition duration_setting (name : string) (get : Config → Z) (set : Z → Config → Config) : setting :=
  mkSetting name Z (λ v, match parse_duration v with Some d => Ok d | None => Err (EnvInvalidDuration name v) end) get set.
Definition size_setting (name : string) (get : Config → Z) (set : Z → Config → Config) : setting :=
  mkSetting name Z (λ v, wrap_err (EnvInvalidSize name) (ParseSize v)) get set.

(** The blocks of [applyEnv], in order. *)
Definition env_settings : list setting := [
  text_setting "TOBBY_MODE" cf_Mode set_mode;
  text_setting "TOBBY_ZONE" cf_Zone set_zone;
  text_setting "TOBBY_STORAGE_ROOT" (λ c, cs_Root (cf_Storage c))
    (λ v, on_storage (λ s, mkStorage v (cs_BasePrefix s) (cs_OccupancyThreshold s)));
  text_setting "TOBBY_STATE_ROOT" cf_StateRoot set_stateRoot;
  text_setting "TOBBY_SERVER_ADDR" (λ c, sv_Addr (cf_Server c))
    (λ v, on_server (λ s, mkCfgServer v (sv_TLS s) (sv_SecureCookies s)));
  bool_setting "TOBBY_AUTH_DISABLED" (λ c, ca_Disabled (cf_Auth c)) (λ v, on_auth (λ a, mkCfgAuth v (ca_SessionTTL a)));
  duration_setting "TOBBY_AUTH_SESSION_TTL" (λ c, ca_SessionTTL (cf_Auth c)) (λ v, on_auth (λ a, mkCfgAuth (ca_Disabled a) v));
  list_setting "TOBBY_REGISTRIES_INSECURE" (λ c, rg_Insecure (cf_Registries c))
    (λ v, on_registries (λ r, mkRegistries v (rg_Substitutions r) (rg_Allowlist r) (rg_CredentialsFile r)));
  text_setting "TOBBY_NETWORK_PROXY_URL" (λ c, px_URL (nw_Proxy (cf_Network c)))
    (λ v, on_network (λ n, mkNetwork (let p := nw_Proxy n in mkProxy v (px_HTTPSURL p) (px_NoProxy p) (px_Username p) (px_Password p)) (nw_TLS n)));
  text_setting "TOBBY_NETWORK_PROXY_HTTPS_URL" (λ c, px_HTTPSURL (nw_Proxy (cf_Network c)))
    (λ v, on_network (λ n, mkNetwork (let p := nw_Proxy n in mkProxy (px_URL p) v (px_NoProxy p) (px_Username p) (px_Password p)) (nw_TLS n)));
  list_setting "TOBBY_NETWORK_PROXY_NO_PROXY" (λ c, px_NoProxy (nw_Proxy (cf_Network c)))
    (λ v, on_network (λ n, mkNetwork (let p := nw_Proxy n in mkProxy (px_URL p) (px_HTTPSURL p) v (px_Username p) (px_Password p)) (nw_TLS n)));
  text_setting "TOBBY_NETWORK_PROXY_USERNAME" (λ c, px_Username (nw_Proxy (cf_Network c)))
    (λ v, on_network (λ n, mkNetwork (let p := nw_Proxy n in mkProxy (px_URL p) (px_HTTPSURL p) (px_NoProxy p) v (px_Password p)) (nw_TLS n)));
  mkSetting "TOBBY_NETWORK_PROXY_PASSWORD" Secret (λ v, Ok (NewSecret v)) (λ c, px_Password (nw_Proxy (cf_Network c)))
    (λ v, on_network (λ n, mkNetwork (let p := nw_Proxy n in mkProxy (px_URL p) (px_HTTPSURL p) (px_NoProxy p) (px_Username p) v) (nw_TLS n)));
  list_setting "TOBBY_NETWORK_TLS_CA_FILES" (λ c, ct_CAFiles (nw_TLS (cf_Network c)))
    (λ v, on_network (λ n, mkNetwork (nw_Proxy n) (let t := nw_TLS n in mkClientTLS v (ct_CA t) (ct_ExclusiveTrust t))));
  bool_setting "TOBBY_SERVER_TLS_ENABLED" (λ c, tl_Enabled (sv_TLS (cf_Server c)))
    (λ v, on_server (λ s, mkCfgServer (sv_Addr s) (let t := sv_TLS s in mkServerTLS v (tl_CertFile t) (tl_KeyFile t) (tl_Hosts t)) (sv_SecureCookies s)));
  text_setting "TOBBY_SERVER_TLS_CERT_FILE" (λ c, tl_CertFile (sv_TLS (cf_Server c)))
    (λ v, on_server (λ s, mkCfgServer (sv_Addr s) (let t := sv_TLS s in mkServerTLS (tl_Enabled t) v (tl_KeyFile t) (tl_Hosts t)) (sv_SecureCookies s)));
  text_setting "TOBBY_SERVER_TLS_KEY_FILE" (λ c, tl_KeyFile (sv_TLS (cf_Server c)))
    (λ v, on_server (λ s, mkCfgServer (sv_Addr s) (let t := sv_TLS s in mkServerTLS (tl_Enabled t) (tl_CertFile t) v (tl_Hosts t)) (sv_SecureCookies s)));
  bool_setting "TOBBY_SERVER_SECURE_COOKIES" (λ c, sv_SecureCookies (cf_Server c))
    (λ v, on_server (λ s, mkCfgServer (sv_Addr s) (sv_TLS s) v));
  text_setting "TOBBY_UI_THEME_OVERRIDE" (λ c, ui_ThemeOverride (cf_UI c)) (λ v, on_ui (λ u, mkUI v (ui_ShowUpcoming u)));
  bool_setting "TOBBY_UI_SHOW_UPCOMING" (λ c, ui_ShowUpcoming (cf_UI c)) (λ v, on_ui (λ u, mkUI (ui_ThemeOverride u) v));
  duration_setting "TOBBY_IMPORT_INSPECT_TIMEOUT" cf_InspectTimeout set_inspectTimeout;
  size_setting "TOBBY_TRANSFER_RESUME_THRESHOLD" cf_ResumeThreshold set_resumeThreshold;
  text_setting "TOBBY_RETRIEVER_SOURCE" cf_RetrieverSource set_retrieverSource;
  text_setting "TOBBY_STORAGE_BASE_PREFIX" (λ c, cs_BasePrefix (cf_Storage c))
    (λ v, on_storage (λ s, mkStorage (cs_Root s) v (cs_OccupancyThreshold s)));
  size_setting "TOBBY_STORAGE_OCCUPANCY_THRESHOLD" (λ c, cs_OccupancyThreshold (cf_Storage c))
    (λ v, on_storage (λ s, mkStorage (cs_Root s) (cs_BasePrefix s) v));
  int_setting "TOBBY_SYNC_PARALLELISM" (λ c, sy_Parallelism (cf_Sync c))
    (λ v, on_sync (λ s, mkSync v (sy_Retries s) (sy_Interval s) (sy_Prune s)));
  int_setting "TOBBY_SYNC_RETRIES" (λ c, sy_Retries (cf_Sync c))
    (λ v, on_sync (λ s, mkSync (sy_Parallelism s) v (sy_Interval s) (sy_Prune s)));
  duration_setting "TOBBY_SYNC_INTERVAL" (λ c, sy_Interval (cf_Sync c))
    (λ v, on_sync (λ s, mkSync (sy_Parallelism s) (sy_Retries s) v (sy_Prune s)));
  int_setting "TOBBY_PREFLIGHT_SAFETY_MARGIN_PERCENT" (λ c, pf_SafetyMarginPercent (cf_Preflight c))
    (λ v, on_preflight (λ p, mkPreflight v (pf_Disabled p)));
  bool_setting "TOBBY_PREFLIGHT_DISABLED" (λ c, pf_Disabled (cf_Preflight c))
    (λ v, on_preflight (λ p, mkPreflight (pf_SafetyMarginPercent p) v));
  bool_setting "TOBBY_SYNC_PRUNE" (λ c, sy_Prune (cf_Sync c))
    (λ v, on_sync (λ s, mkSync (sy_Parallelism s) (sy_Retries s) (sy_Interval s) v));
  int_setting "TOBBY_TASKS_KEEP_FINISHED" cf_KeepFinished set_keepFinished;
  text_setting "TOBBY_DESTINATION_REGISTRY" (λ c, dt_Registry (cf_Destination c))
    (λ v, on_destination (λ d, mkDestination v (dt_BasePath d) (dt_Cookbook d)));
  text_setting "TOBBY_DESTINATION_BASE_PATH" (λ c, dt_BasePath (cf_Destination c))
    (λ v, on_destination (λ d, mkDestination (dt_Registry d) v (dt_Cookbook d)));
  text_setting "TOBBY_DESTINATION_COOKBOOK" (λ c, dt_Cookbook (cf_Destination c))
    (λ v, on_destination (λ d, mkDestination (dt_Registry d) (dt_BasePath d) v));
  text_setting "TOBBY_LOGGING_LEVEL" (λ c, lg_Level (cf_Logging c)) (λ v, on_logging (λ l, mkLogging v (lg_Media l)));
  duration_setting "TOBBY_SHUTDOWN_GRACE_PERIOD" cf_GracePeriod set_gracePeriod ].

(** One block: the variable, when it is set, replaces the field. *)
Definition apply_setting (lookup : string → option string) (s : setting) (c : Config) : res env_error Config :=
  match lookup (se_name s) with
  | None => Ok c
  | Some v => x ← se_parse s v; Ok (se_set s x c)
  end.

Fixpoint apply_settings (lookup : string → option string) (ss : list setting) (c : Config) : res env_error Config :=
  match ss with
  | [] => Ok c
  | s :: ss => c ← apply_setting lookup s c; apply_settings lookup ss c
  end.

(** [applyEnv]. *)
Definition applyEnv (lookup : string → option string) (c : Config) : res env_error Config :=
  apply_settings lookup env_settings c.
End environment.

(** * Validation *)

Inductive Scope := ScopeInstance | ScopeState | ScopeStorage | ScopeRegistries | ScopeMedia | ScopeNetwork.

#[export] Instance Scope_eq_dec : EqDecision Scope.
Proof. solve_decision. Defined.

Inductive path_fault := PathSlashes | PathTraversal | PathCharacter.

Inductive config_error :=
  | ModeRequired | UnknownMode (m : string) | UnknownLevel (l : string)
  | NegativeLogSize | NegativeLogKeep | NoAddr | BadGracePeriod | BadSessionTTL | BadInspectTimeout
  | StorageRootRequired | RootsOverlap (e : roots_error) | NegativeResume | BadParallelism | NegativeRetries
  | NegativeInterval | BadMargin | PruneInMirror | NegativeOccupancy | NegativeKeepFinished
  | RegistryIsURL | RegistryHasPath | RegistryIsReference
  | BadRepositoryPath (key : string) (e : path_fault) | BasePathUnused | CookbookUnused
  | ProxyNotURL (key : string) | ProxyScheme (key : string) | ProxyNoHost (key : string) | ProxyCredentials (key : string)
  | CredentialsUnused | NoProxyUnused | TrustsNothing
  | CertWithoutKey | KeyWithoutCert | HostsUnused
  | TrustInvalid (e : trust_config_error)
  | FileSetName (i : nat) | FileSetDuplicate (i : nat) | FileSetNoRef (i : nat) | PackRootRelative (i : nat).

(** An error under a condition. *)
Definition when {A} (b : bool) (e : A) : list A := if b then [e] else [].

Definition is_name_byte (c : byte) : bool :=
  is_lower c || is_digit c || Ascii.eqb c "." || Ascii.eqb c "_" || Ascii.eqb c "-".

(** [validRepositoryPath]. *)
Fixpoint check_parts (parts : list string) : option path_fault :=
  match parts with
  | [] => None
  | part :: parts =>
      if String.eqb part "." || String.eqb part ".." then Some PathTraversal
      else if negb (all_bytes is_name_byte part) then Some PathCharacter
      else check_parts parts
  end.
Definition validRepositoryPath (value : string) : option path_fault :=
  if String.eqb value "" then None
  else if has_prefix value "/" || has_suffix value "/" || contains_str value "//" then Some PathSlashes
  else check_parts (split_byte "/" value).

Definition repository_path (key value : string) : list config_error :=
  match validRepositoryPath value with Some e => [BadRepositoryPath key e] | None => [] end.

(** [validateDestination]. *)
Definition validateDestination (c : Config) : list config_error :=
  let d := cf_Destination c in
  let registry := dt_Registry d in
  (if negb (String.eqb registry "") then
     if contains_str registry "://" then [RegistryIsURL]
     else if contains_str registry "/" then [RegistryHasPath]
     else if contains_str registry "@" then [RegistryIsReference] else []
   else []) ++
  repository_path "destination.basePath" (dt_BasePath d) ++
  repository_path "destination.cookbook" (dt_Cookbook d) ++
  (if negb (destination_Configured d) then
     when (negb (String.eqb (dt_BasePath d) "")) BasePathUnused ++
     when (negb (String.eqb (dt_Cookbook d) "") && negb (String.eqb (dt_Cookbook d) DefaultCookbook)) CookbookUnused
   else []).

(** What [url.Parse] finds in a URL: its scheme, its host, and whether it carries
    user information. *)
Record parsed_url := mkParsedUrl { pu_Scheme : string; pu_Host : string; pu_User : bool }.
Class UrlLib : Type := { url_parse : string → option parsed_url }.

(** One proxy URL of [validateNetwork]. *)
Definition validate_proxy `{UrlLib} (key value : string) : list config_error :=
  if String.eqb value "" then []
  else match url_parse value with
  | None => [ProxyNotURL key]
  | Some u =>
      (if negb (String.eqb (pu_Scheme u) "http") && negb (String.eqb (pu_Scheme u) "https") then [ProxyScheme key]
       else when (String.eqb (pu_Host u) "") (ProxyNoHost key)) ++
      when (pu_User u) (ProxyCredentials key)
  end.

(** [validateNetwork]. *)
Definition validateNetwork `{UrlLib} (c : Config) : list config_error :=
  let p := nw_Proxy (cf_Network c) in
  let t := nw_TLS (cf_Network c) in
  validate_proxy "network.proxy.url" (px_URL p) ++
  validate_proxy "network.proxy.httpsURL" (px_HTTPSURL p) ++
  (if negb (proxy_Configured p) then
     when (negb (String.eqb (px_Username p) "") || negb (secret_IsZero (px_Password p))) CredentialsUnused ++
     when (0 <? length (px_NoProxy p))%nat NoProxyUnused
   else []) ++
  when (ct_ExclusiveTrust t && negb (clientTLS_Configured t)) TrustsNothing.

(** [validateServerTLS]. *)
Definition validateServerTLS (c : Config) : list config_error :=
  let t := sv_TLS (cf_Server c) in
  if negb (String.eqb (tl_CertFile t) "") && String.eqb (tl_KeyFile t) "" then [CertWithoutKey]
  else if negb (String.eqb (tl_KeyFile t) "") && String.eqb (tl_CertFile t) "" then [KeyWithoutCert]
  else when ((0 <? length (tl_Hosts t))%nat && negb (String.eqb (tl_CertFile t) "")) HostsUnused.

(** [validFileSetName]. *)
Definition validFileSetName (s : string) : bool :=
  if String.eqb s "" || String.eqb s "." || String.eqb s ".." then false else all_bytes is_name_byte s.

(** The loops of [validateFiles]. *)
Fixpoint validate_filesets (i : nat) (fs : list FileSetServe) (names : gset string) : list config_error :=
  match fs with
  | [] => []
  | f :: fs =>
      (if negb (validFileSetName (fd_Name f)) then [FileSetName i]
       else when (bool_decide (fd_Name f ∈ names)) (FileSetDuplicate i)) ++
      when (String.eqb (fd_Ref f) "") (FileSetNoRef i) ++
      validate_filesets (S i) fs ({[fd_Name f]} ∪ names)
  end.
Fixpoint validate_packRoots (i : nat) (roots : list string) : list config_error :=
  match roots with
  | [] => []
  | root :: roots =>
      when (String.eqb root "" || negb (has_prefix root "/")) (PackRootRelative i) ++ validate_packRoots (S i) roots
  end.

(** [validateFiles]; [filepath.IsAbs] is a leading slash on Unix. *)
Definition validateFiles (c : Config) : list config_error :=
  validate_filesets 0 (fl_FileSets (cf_Files c)) ∅ ++ validate_packRoots 0 (fl_PackRoots (cf_Files c)).

(** [parseLevel]. *)
Definition parseLevel (s : string) : bool :=
  existsb (String.eqb s) ["debug"; "info"; "warn"; "warning"; "error"; ""].

(** [Config.validate], in the working directory [cwd]. *)
Definition config_validate `{UrlLib} (cwd : string) (scope : Scope) (c : Config) : list config_error :=
  (if String.eqb (cf_Mode c) ModePassthrough || String.eqb (cf_Mode c) ModeMirror then []
   else if String.eqb (cf_Mode c) "" then when (bool_decide (scope = ScopeInstance)) ModeRequired
   else [UnknownMode (cf_Mode c)]) ++
  when (negb (parseLevel (lg_Level (cf_Logging c)))) (UnknownLevel (lg_Level (cf_Logging c))) ++
  when (ml_MaxSize (lg_Media (cf_Logging c)) <? 0)%Z NegativeLogSize ++
  when (ml_Keep (lg_Media (cf_Logging c)) <? 0)%Z NegativeLogKeep ++
  when (String.eqb (sv_Addr (cf_Server c)) "") NoAddr ++
  when (cf_GracePeriod c <=? 0)%Z BadGracePeriod ++
  when (ca_SessionTTL (cf_Auth c) <=? 0)%Z BadSessionTTL ++
  when (cf_InspectTimeout c <=? 0)%Z BadInspectTimeout ++
  when (String.eqb (cs_Root (cf_Storage c)) "" && bool_decide (scope = ScopeStorage)) StorageRootRequired ++
  match disjointRoots unix cwd (cf_StateRoot c) (cs_Root (cf_Storage c)) with Some e => [RootsOverlap e] | None => [] end ++
  when (cf_ResumeThreshold c <? 0)%Z NegativeResume ++
  when (sy_Parallelism (cf_Sync c) <=? 0)%Z BadParallelism ++
  when (sy_Retries (cf_Sync c) <? 0)%Z NegativeRetries ++
  when (sy_Interval (cf_Sync c) <? 0)%Z NegativeInterval ++
  when ((pf_SafetyMarginPercent (cf_Preflight c) <? 0) || (100 <=? pf_SafetyMarginPercent (cf_Preflight c)))%Z BadMargin ++
  when (sy_Prune (cf_Sync c) && String.eqb (cf_Mode c) ModeMirror) PruneInMirror ++
  when (cs_OccupancyThreshold (cf_Storage c) <? 0)%Z NegativeOccupancy ++
  when (cf_KeepFinished c <? 0)%Z NegativeKeepFinished ++
  validateDestination c ++ validateNetwork c ++ validateServerTLS c ++
  (TrustInvalid <$> validateTrust (tc_Roots (cf_Trust c)) (tc_Scopes (cf_Trust c))) ++
  validateFiles c.

(** * Loading *)

(** What reading the file gives, and what decoding it over a configuration does;
    an empty document changes nothing. *)
Inductive file_read := ReadData (data : string) | ReadMissing | ReadFailed.
Inductive decoded := DecodedOver (c : Config) | DecodedEmpty | DecodeFailed.

Inductive load_error := FileUnreadable | FileInvalid | EnvInvalid (e : env_error) | ConfigInvalid (es : list config_error).

Section loading.
Context `{GoRuntime, DurationLib, UrlLib}.
Context (decode : string → Config → decoded).

(** The file layer of [LoadFor]. *)
Definition file_layer (path : string) (pathExplicit : bool) (r : file_read) (c : Config) : res load_error Config :=
  if String.eqb path "" then Ok c
  else match r with
  | ReadData data =>
      match decode data c with
      | DecodedOver c => Ok c
      | DecodedEmpty => Ok c
      | DecodeFailed => Err FileInvalid
      end
  | ReadMissing => if negb pathExplicit then Ok c else Err FileUnreadable
  | ReadFailed => Err FileUnreadable
  end.

(** [LoadFor]. *)
Definition LoadFor (cwd : string) (scope : Scope) (path : string) (pathExplicit : bool) (r : file_read)
    (lookup : string → option string) (overrides : list (Config → Config)) : res load_error Config :=
  c ← file_layer path pathExplicit r Default;
  c ← wrap_err EnvInvalid (applyEnv lookup c);
  let c := fold_left (λ c o, o c) overrides c in
  match config_validate cwd scope c with
  | [] => Ok c
  | es => Err (ConfigInvalid es)
  end.

(** [Load]. *)
Definition Load (cwd path : string) (pathExplicit : bool) (r : file_read) (lookup : string → option string)
    (overrides : list (Config → Config)) : res load_error Config :=
  LoadFor cwd ScopeInstance path pathExplicit r lookup overrides.
End loading.

(** The secrets of a configuration. *)
Definition config_SecretPaths (c : Config) : list SecretPath :=
  SecretPaths (cf_StateRoot c) (rg_CredentialsFile (cf_Registries c)) (tl_KeyFile (sv_TLS (cf_Server c))).
Definition config_SecretsInStore `{GoRuntime} (fs : gmap (list string) fnode) (cwd : string) (c : Config) : list SecretPath :=
  SecretsInStore fs unix cwd (cs_Root (cf_Storage c)) (config_SecretPaths c).

(** [Dump]: YAML of the configuration, in which the secret marshals as its
    [String]. *)
Definition set_password (s : Secret) : Config → Config :=
  on_network (λ n, mkNetwork (let p := nw_Proxy n in mkProxy (px_URL p) (px_HTTPSURL p) (px_NoProxy p) (px_Username p) s) (nw_TLS n)).
Definition Dump (marshal : Config → string) (c : Config) : string :=
  marshal (set_password (mkSecret (secret_String (px_Password (nw_Proxy (cf_Network c))))) c).
