(* ===== verification/ConfigTheorems.v ===== *)
(** The results on the configuration: which layer decides a setting, what an
    accepted configuration guarantees, and what each command scope demands. *)

From S2P Require Import Prelude GoStrings MediaPaths FilePaths Trust Preflight FileSets ConfigValues ConfigPaths Config.

(** * Layers *)

Section layers.
Context `{GoRuntime, DurationLib}.

Lemma settings_count : length env_settings = 37.
Proof. reflexivity. Qed.

Lemma settings_names : NoDup (se_name <$> env_settings).
Proof. apply (bool_decide_unpack _). vm_compute. exact I. Qed.

Ltac each_setting tac := repeat (apply Forall_cons; split; [tac|]); apply Forall_nil; exact I.

(** A setting reads back what was set, and no other setting changes. *)
Lemma settings_same : Forall (λ s, ∀ x c, se_get s (se_set s x c) = x) env_settings.
Proof. each_setting ltac:(by intros). Qed.

Lemma settings_apart : Forall (λ s, Forall (λ s', se_name s' ≠ se_name s → ∀ x c, se_get s' (se_set s x c) = se_get s' c)
  env_settings) env_settings.
Proof. each_setting ltac:(each_setting ltac:(intros Hne x c; first [reflexivity|by destruct Hne])). Qed.

Lemma apply_settings_get lookup ss c c' s : ss ⊆ env_settings → NoDup (se_name <$> ss) → s ∈ env_settings →
  apply_settings lookup ss c = Ok c' →
  (se_name s ∉ se_name <$> ss → se_get s c' = se_get s c) ∧
  (s ∈ ss → (∀ v, lookup (se_name s) = Some v → se_parse s v = Ok (se_get s c')) ∧
            (lookup (se_name s) = None → se_get s c' = se_get s c)).
Proof.
  intros Hsub Hnd Hs. revert c. induction ss as [|t ss IH]; intros c Ha.
  { injection Ha as <-. split; [done|]. by intros ?%elem_of_nil. }
  cbn in Ha. apply res_bind_Ok in Ha as (c1 & H1 & Ha). apply NoDup_cons in Hnd as [Ht Hnd].
  assert (t ∈ env_settings) as Hte by (apply Hsub, list_elem_of_here).
  destruct (IH (λ x Hx, Hsub x (list_elem_of_further _ _ _ Hx)) Hnd c1 Ha) as [IH1 IH2].
  assert (se_name s ≠ se_name t → se_get s c1 = se_get s c) as Hother.
  { intros Hne. unfold apply_setting in H1. destruct (lookup (se_name t)); [|by injection H1 as <-].
    apply res_bind_Ok in H1 as (x & _ & [= <-]). pose proof settings_apart as Hap. rewrite Forall_forall in Hap.
    specialize (Hap t Hte). rewrite Forall_forall in Hap. by apply Hap. }
  split.
  - cbn. intros Hn. apply not_elem_of_cons in Hn as [Hne Hn]. rewrite IH1 by done. by apply Hother.
  - intros [->|Hin]%elem_of_cons.
    + rewrite IH1 by done. unfold apply_setting in H1. split.
      * intros v Hv. rewrite Hv in H1. apply res_bind_Ok in H1 as (x & Hp & [= <-]).
        pose proof settings_same as Hsame. rewrite Forall_forall in Hsame. by rewrite Hsame.
      * intros Hv. rewrite Hv in H1. by injection H1 as <-.
    + assert (se_name s ≠ se_name t). { intros E. apply Ht. rewrite <-E. by apply list_elem_of_fmap_2. }
      rewrite <-Hother by done. by apply IH2.
Qed.

(** The fields no variable stands for. *)
Definition beyond_env (c : Config) :=
  (tl_Hosts (sv_TLS (cf_Server c)), (ct_CA (nw_TLS (cf_Network c)), ct_ExclusiveTrust (nw_TLS (cf_Network c))),
   (rg_Substitutions (cf_Registries c), rg_Allowlist (cf_Registries c), rg_CredentialsFile (cf_Registries c)),
   cf_Trust c, cf_Files c, lg_Media (cf_Logging c)).

Lemma settings_beyond : Forall (λ s, ∀ x c, beyond_env (se_set s x c) = beyond_env c) env_settings.
Proof. each_setting ltac:(by intros). Qed.

Lemma apply_settings_beyond lookup ss c c' : ss ⊆ env_settings → apply_settings lookup ss c = Ok c' →
  beyond_env c' = beyond_env c.
Proof.
  intros Hsub. revert c. induction ss as [|t ss IH]; intros c Ha; [by injection Ha as <-|].
  cbn in Ha. apply res_bind_Ok in Ha as (c1 & H1 & Ha).
  rewrite (IH (λ x Hx, Hsub x (list_elem_of_further _ _ _ Hx)) c1 Ha).
  unfold apply_setting in H1. destruct (lookup (se_name t)); [|by injection H1 as <-].
  apply res_bind_Ok in H1 as (x & _ & [= <-]). pose proof settings_beyond as Hb. rewrite Forall_forall in Hb.
  apply Hb, Hsub, list_elem_of_here.
Qed.

Context `{UrlLib} (decode : string → Config → decoded).

(** Overrides that leave a reading of the configuration alone. *)
Lemma overrides_keep {A} (g : Config → A) (os : list (Config → Config)) c :
  (∀ o, o ∈ os → ∀ c, g (o c) = g c) → g (fold_left (λ c o, o c) os c) = g c.
Proof.
  revert c. induction os as [|o os IH]; intros c Hg; [done|]. cbn.
  rewrite IH by (intros o' Ho'; apply Hg; by right). apply Hg. by left.
Qed.

(** C12: The four layers of a setting, lowest to highest: defaults, file, environment,
    flags.  A configuration that loads is valid for the scope.  In it a flag's value stands
    over every lower layer and over earlier flags: whatever the file, the environment and
    the flags before it say, any part of the configuration that a flag sets to a value, and
    that no later flag touches, has that value.  A setting no flag touches has the value of
    its environment variable when that is set, and otherwise the value the file gave it
    over the defaults; the fields without a variable, when no flag touches them, have the
    file's value. *)
Theorem effective_setting cwd scope path explicit r lookup overrides c
    (Hload : LoadFor decode cwd scope path explicit r lookup overrides = Ok c) :
  config_validate cwd scope c = [] ∧
  (∀ A (g : Config → A) x before flag after, overrides = before ++ flag :: after → (∀ c0, g (flag c0) = x) →
     (∀ o, o ∈ after → ∀ c0, g (o c0) = g c0) → g c = x) ∧
  ∃ base, file_layer decode path explicit r Default = Ok base ∧
  (∀ s, s ∈ env_settings → (∀ o, o ∈ overrides → ∀ c, se_get s (o c) = se_get s c) →
     (∀ v, lookup (se_name s) = Some v → se_parse s v = Ok (se_get s c)) ∧
     (lookup (se_name s) = None → se_get s c = se_get s base)) ∧
  ((∀ o, o ∈ overrides → ∀ c, beyond_env (o c) = beyond_env c) → beyond_env c = beyond_env base).
Proof.
  unfold LoadFor in Hload. apply res_bind_Ok in Hload as (base & Hbase & Hload).
  apply res_bind_Ok in Hload as (c1 & Henv & Hload). set (c2 := fold_left _ overrides c1) in Hload.
  destruct (config_validate cwd scope c2) eqn:Hv; [|done]. injection Hload as <-. split; [done|]. split.
  { intros A g x before flag after -> Hset Hlater. unfold c2. rewrite fold_left_app. cbn.
    by rewrite (overrides_keep g) by done. }
  exists base. split; [done|].
  assert (applyEnv lookup base = Ok c1) as Happ by (by destruct (applyEnv lookup base); [injection Henv as <-|]).
  split.
  - intros s Hs Ho. unfold c2. rewrite (overrides_keep (se_get s)) by done.
    by apply (apply_settings_get lookup env_settings base c1 s (λ x Hx, Hx) settings_names Hs Happ).
  - intros Ho. unfold c2. rewrite (overrides_keep beyond_env) by done.
    by apply (apply_settings_beyond lookup env_settings base c1).
Qed.
End layers.

(** * What is accepted *)

Lemma when_nil {A} b (e : A) : when b e = [] ↔ b = false.
Proof. by destruct b. Qed.

Lemma join_app a b : a ≠ [] → b ≠ [] → join "/" (a ++ b) = join "/" a +:+ "/" +:+ join "/" b.
Proof.
  intros Ha Hb. induction a as [|x a IH]; [done|]. destruct a as [|y a].
  - destruct b as [|z b]; [done|]. done.
  - change (join "/" ((x :: y :: a) ++ b)) with (x +:+ "/" +:+ join "/" ((y :: a) ++ b)). rewrite IH by done.
    change (join "/" (x :: y :: a)) with (x +:+ "/" +:+ join "/" (y :: a)). by rewrite !sapp_assoc.
Qed.

(** No separator at an end or doubled: no element is empty. *)
Lemma slashes_parts v : v ≠ "" →
  (has_prefix v "/" || has_suffix v "/" || contains_str v "//") = false ↔ Forall (λ p, p ≠ "") (split_byte "/" v).
Proof.
  intros Hv. rewrite !orb_false_iff. split.
  - intros [[Hp Hs] Hc]. apply Forall_forall. intros x Hx ->. apply list_elem_of_split in Hx as (a & b & E).
    pose proof (join_split "/" v) as Hj. rewrite E in Hj. change (String "/" "") with "/" in Hj.
    apply not_true_iff_false in Hp, Hs, Hc. destruct a as [|x a], b as [|y b].
    + by rewrite <-Hj in Hv.
    + apply Hp, has_prefix_spec. by exists (join "/" (y :: b)).
    + apply Hs, has_suffix_spec. exists (join "/" (x :: a)). by rewrite <-Hj, join_app.
    + apply Hc, contains_str_spec. exists (join "/" (x :: a)), (join "/" (y :: b)).
      rewrite <-Hj, (join_app (x :: a) ("" :: y :: b)) by done. done.
  - intros Hall. rewrite Forall_forall in Hall. split_and!; apply not_true_iff_false; intros Hx.
    + apply has_prefix_slash in Hx as (segs & E & _). apply (Hall ""); [rewrite E; by left|done].
    + apply has_suffix_spec in Hx as [r ->]. apply (Hall ""); [|done].
      change "/" with (String "/" ""). rewrite split_byte_sep. apply elem_of_app. right. by left.
    + apply contains_str_spec in Hx as (a & b & ->). apply (Hall ""); [|done].
      change ("//" +:+ b) with (String "/" (String "/" b)). rewrite split_byte_sep. apply elem_of_app. right. by left.
Qed.

(** A repository path: elements of name bytes, none of them special. *)
Definition repository_prefix (v : string) : Prop :=
  v = "" ∨ Forall (λ p, proper_seg p ∧ all_bytes is_name_byte p = true) (split_byte "/" v).

Lemma check_parts_None parts :
  check_parts parts = None ↔ Forall (λ p, p ≠ "." ∧ p ≠ ".." ∧ all_bytes is_name_byte p = true) parts.
Proof.
  induction parts as [|p parts IH]; cbn; [done|]. rewrite Forall_cons, <-IH.
  destruct (String.eqb_spec p "."), (String.eqb_spec p ".."); cbn; try (split; [done|tauto]).
  destruct (all_bytes is_name_byte p); cbn; [tauto|]. split; [done|]. by intros [(_ & _ & ?) _].
Qed.

Lemma validRepositoryPath_None v : validRepositoryPath v = None ↔ repository_prefix v.
Proof.
  unfold validRepositoryPath, repository_prefix. destruct (String.eqb_spec v "") as [|Hv]; [naive_solver|].
  pose proof (slashes_parts v Hv) as Hs. destruct (_ || _).
  - split; [done|]. intros [?|Hall]; [done|]. destruct Hs as [_ Hs]. enough (true = false) by done. apply Hs.
    eapply Forall_impl; [exact Hall|]. by intros p [[[? _] _] _].
  - destruct Hs as [Hs _]. specialize (Hs eq_refl). rewrite check_parts_None.
    pose proof (split_byte_no_sep "/" v) as Hns. rewrite !Forall_forall in *. split.
    + intros Hall. right. intros p Hp. specialize (Hall p Hp). specialize (Hs p Hp). specialize (Hns p Hp).
      unfold proper_seg, plain_segment. tauto.
    + intros [?|Hall] p Hp; [done|]. destruct (Hall p Hp) as [[(_ & ? & ?) _] ?]. done.
Qed.

(** The registry of a destination: a bare host. *)
Definition bare_host (h : string) : Prop := ¬ in_str "/" h ∧ ¬ in_str "@" h.

Lemma contains_one s c : contains_str s (String c "") = contains_byte s c.
Proof.
  apply Bool.eq_iff_eq_true. rewrite contains_str_spec, contains_byte_spec. split.
  - intros (a & b & ->). apply in_str_app. right. by left.
  - induction s as [|x s IH]; [done|]. intros [->|Hin]; [by exists "", s|].
    destruct (IH Hin) as (a & b & ->). by exists (String x a), b.
Qed.

Definition destination_ok (d : cfgDestination) : Prop :=
  bare_host (dt_Registry d) ∧ repository_prefix (dt_BasePath d) ∧ repository_prefix (dt_Cookbook d) ∧
  (dt_Registry d = "" → dt_BasePath d = "" ∧ (dt_Cookbook d = "" ∨ dt_Cookbook d = DefaultCookbook)).

Lemma validateDestination_nil c : validateDestination c = [] ↔ destination_ok (cf_Destination c).
Proof.
  unfold validateDestination, destination_ok, destination_Configured, repository_path. destruct (cf_Destination c) as [r b k]. cbn.
  rewrite !app_nil, <-!validRepositoryPath_None.
  assert ((if negb (String.eqb r "") then
     if contains_str r "://" then [RegistryIsURL] else if contains_str r "/" then [RegistryHasPath]
     else if contains_str r "@" then [RegistryIsReference] else [] else []) = [] ↔ bare_host r) as ->.
  { destruct (String.eqb_spec r "") as [->|_]; [cbn; unfold bare_host; cbn; tauto|]. cbn [negb]. unfold bare_host.
    rewrite !(contains_one r), <-!contains_byte_false. destruct (contains_str r "://") eqn:Hu.
    - split; [done|]. intros [Hc _]. apply contains_str_spec in Hu as (x & y & ->). apply contains_byte_false in Hc.
      destruct Hc. apply in_str_app. right. apply in_str_app. left. cbn. auto.
    - destruct (contains_byte r "/"), (contains_byte r "@"); naive_solver. }
  destruct (validRepositoryPath b), (validRepositoryPath k); try naive_solver.
  destruct (String.eqb_spec r "") as [->|Hr]; cbn; [|naive_solver]. rewrite app_nil, !when_nil, andb_false_iff, !negb_false_iff, !String.eqb_eq.
  naive_solver.
Qed.

(** A proxy URL: http or https, a host, no credentials in it. *)
Definition proxy_ok `{UrlLib} (u : string) : Prop :=
  u = "" ∨ ∃ p, url_parse u = Some p ∧ (pu_Scheme p = "http" ∨ pu_Scheme p = "https") ∧ pu_Host p ≠ "" ∧ pu_User p = false.

Lemma validate_proxy_nil `{UrlLib} key u : validate_proxy key u = [] ↔ proxy_ok u.
Proof.
  unfold validate_proxy, proxy_ok. destruct (String.eqb_spec u "") as [|Hu]; [naive_solver|].
  destruct (url_parse u) as [p|]; [|naive_solver]. rewrite app_nil, when_nil. split.
  - intros [Hs Hus]. right. exists p. split; [done|].
    destruct (String.eqb_spec (pu_Scheme p) "http"), (String.eqb_spec (pu_Scheme p) "https"), (String.eqb_spec (pu_Host p) "");
      cbn in Hs; try done; auto.
  - intros [?|(p' & [= <-] & Hs & Hh & Hus)]; [done|]. split; [|done].
    rewrite (proj2 (String.eqb_neq (pu_Host p) "")) by done. by destruct Hs as [->| ->].
Qed.

Definition network_ok `{UrlLib} (n : cfgNetwork) : Prop :=
  let p := nw_Proxy n in
  proxy_ok (px_URL p) ∧ proxy_ok (px_HTTPSURL p) ∧
  (px_URL p = "" → px_HTTPSURL p = "" → px_Username p = "" ∧ Reveal (px_Password p) = "" ∧ px_NoProxy p = []) ∧
  (ct_ExclusiveTrust (nw_TLS n) = true → ct_CAFiles (nw_TLS n) ≠ [] ∨ ct_CA (nw_TLS n) ≠ "").

Lemma length_ltb {A} (l : list A) : (0 <? length l)%nat = false ↔ l = [].
Proof. by destruct l. Qed.

Lemma validateNetwork_nil `{UrlLib} c : validateNetwork c = [] ↔ network_ok (cf_Network c).
Proof.
  unfold validateNetwork, network_ok, proxy_Configured, clientTLS_Configured, secret_IsZero, Reveal.
  destruct (cf_Network c) as [[u h np us [pw]] [ca pem ex]]. cbn.
  rewrite !app_nil, !validate_proxy_nil, when_nil, andb_false_iff, negb_false_iff, orb_true_iff.
  assert ((0 <? length ca)%nat = true ↔ ca ≠ []) as -> by (rewrite <-not_false_iff_true, length_ltb; done).
  rewrite negb_true_iff, String.eqb_neq.
  destruct (String.eqb_spec u "") as [->|Hu], (String.eqb_spec h "") as [->|Hh]; cbn;
    rewrite ?app_nil, ?when_nil, ?orb_false_iff, ?negb_false_iff, ?String.eqb_eq; destruct ex, np; naive_solver.
Qed.

Definition server_tls_ok (t : cfgServerTLS) : Prop :=
  (tl_CertFile t = "" ↔ tl_KeyFile t = "") ∧ (tl_Hosts t ≠ [] → tl_CertFile t = "").

Lemma validateServerTLS_nil c : validateServerTLS c = [] ↔ server_tls_ok (sv_TLS (cf_Server c)).
Proof.
  unfold validateServerTLS, server_tls_ok. destruct (sv_TLS (cf_Server c)) as [e crt key hosts]. cbn.
  destruct (String.eqb_spec crt ""), (String.eqb_spec key ""), hosts; cbn; naive_solver.
Qed.

(** A name that is one plain element of a URL. *)
Definition url_segment (s : string) : Prop := proper_seg s ∧ all_bytes is_name_byte s = true.

Lemma name_bytes_no_slash s : all_bytes is_name_byte s = true → ¬ in_str "/" s.
Proof. rewrite all_bytes_spec. intros Hs Hin. discriminate (Hs _ Hin). Qed.

Lemma validFileSetName_true s : validFileSetName s = true ↔ url_segment s.
Proof.
  unfold validFileSetName, url_segment, proper_seg, plain_segment. pose proof (name_bytes_no_slash s).
  destruct (String.eqb_spec s ""), (String.eqb_spec s "."), (String.eqb_spec s ".."); cbn; naive_solver.
Qed.

Definition files_ok (f : cfgFiles) : Prop :=
  Forall (λ s, url_segment (fd_Name s) ∧ fd_Ref s ≠ "") (fl_FileSets f) ∧ NoDup (fd_Name <$> fl_FileSets f) ∧
  Forall (λ r, has_prefix r "/" = true) (fl_PackRoots f).

Lemma validate_filesets_nil i fs names : validate_filesets i fs names = [] ↔
  Forall (λ s, url_segment (fd_Name s) ∧ fd_Ref s ≠ "") fs ∧ NoDup (fd_Name <$> fs) ∧ (∀ n, n ∈ fd_Name <$> fs → n ∉ names).
Proof.
  revert i names. induction fs as [|f fs IH]; intros i names; cbn.
  { split; [|done]. intros _. split_and!; [done|constructor|set_solver]. }
  rewrite !app_nil, when_nil, String.eqb_neq, IH, Forall_cons, NoDup_cons, <-validFileSetName_true.
  destruct (validFileSetName (fd_Name f)); cbn [negb]; [|naive_solver]. rewrite when_nil, bool_decide_eq_false. set_solver.
Qed.

Lemma validate_packRoots_nil i roots : validate_packRoots i roots = [] ↔ Forall (λ r, has_prefix r "/" = true) roots.
Proof.
  revert i. induction roots as [|r roots IH]; intros i; cbn; [done|]. rewrite app_nil, when_nil, IH, Forall_cons.
  rewrite orb_false_iff, negb_false_iff, String.eqb_neq. split; [naive_solver|]. intros [Hr ?]. split_and!; try done. by intros ->.
Qed.

Lemma validateFiles_nil c : validateFiles c = [] ↔ files_ok (cf_Files c).
Proof.
  unfold validateFiles, files_ok. rewrite app_nil, validate_filesets_nil, validate_packRoots_nil.
  split; [naive_solver|]. intros (? & ? & ?). by split_and!.
Qed.

(** Two directories apart, as [disjointRoots] decides it. *)
Definition roots_apart (cwd state storage : string) : Prop :=
  abs_elements cwd state ≠ abs_elements cwd storage ∧
  (within (abs_elements cwd storage) (abs_elements cwd state) → hides (abs_elements cwd storage) (abs_elements cwd state)) ∧
  (within (abs_elements cwd state) (abs_elements cwd storage) → hides (abs_elements cwd state) (abs_elements cwd storage)).

(** What a configuration must be for a command of a scope. *)
Record acceptable `{UrlLib} (cwd : string) (scope : Scope) (c : Config) : Prop := {
  ac_mode : cf_Mode c = ModePassthrough ∨ cf_Mode c = ModeMirror ∨ (cf_Mode c = "" ∧ scope ≠ ScopeInstance);
  ac_level : lg_Level (cf_Logging c) ∈ ["debug"; "info"; "warn"; "warning"; "error"; ""];
  ac_log : (0 ≤ ml_MaxSize (lg_Media (cf_Logging c)) ∧ 0 ≤ ml_Keep (lg_Media (cf_Logging c)))%Z;
  ac_addr : sv_Addr (cf_Server c) ≠ "";
  ac_times : (0 < cf_GracePeriod c ∧ 0 < ca_SessionTTL (cf_Auth c) ∧ 0 < cf_InspectTimeout c ∧ 0 ≤ sy_Interval (cf_Sync c))%Z;
  ac_storage : scope = ScopeStorage → cs_Root (cf_Storage c) ≠ "";
  ac_roots : cf_StateRoot c ≠ "" → cs_Root (cf_Storage c) ≠ "" → roots_apart cwd (cf_StateRoot c) (cs_Root (cf_Storage c));
  ac_bounds : (0 ≤ cf_ResumeThreshold c ∧ 0 < sy_Parallelism (cf_Sync c) ∧ 0 ≤ sy_Retries (cf_Sync c) ∧
    0 ≤ pf_SafetyMarginPercent (cf_Preflight c) < 100 ∧ 0 ≤ cs_OccupancyThreshold (cf_Storage c) ∧ 0 ≤ cf_KeepFinished c)%Z;
  ac_prune : sy_Prune (cf_Sync c) = true → cf_Mode c ≠ ModeMirror;
  ac_destination : destination_ok (cf_Destination c);
  ac_network : network_ok (cf_Network c);
  ac_tls : server_tls_ok (sv_TLS (cf_Server c));
  ac_trust : validateTrust (tc_Roots (cf_Trust c)) (tc_Scopes (cf_Trust c)) = [];
  ac_files : files_ok (cf_Files c);
}.

Lemma parseLevel_true l : parseLevel l = true ↔ l ∈ ["debug"; "info"; "warn"; "warning"; "error"; ""].
Proof.
  unfold parseLevel. rewrite existsb_exists. split.
  - intros (x & Hin & E%String.eqb_eq). subst x. by apply list_elem_of_In.
  - intros Hin. exists l. split; [by apply list_elem_of_In|apply String.eqb_refl].
Qed.

Lemma mode_nil scope m :
  (if String.eqb m ModePassthrough || String.eqb m ModeMirror then []
   else if String.eqb m "" then when (bool_decide (scope = ScopeInstance)) ModeRequired else [UnknownMode m]) = [] ↔
  m = ModePassthrough ∨ m = ModeMirror ∨ (m = "" ∧ scope ≠ ScopeInstance).
Proof.
  destruct (String.eqb_spec m ModePassthrough), (String.eqb_spec m ModeMirror); cbn; try tauto.
  destruct (String.eqb_spec m ""); [|naive_solver]. rewrite when_nil, bool_decide_eq_false. naive_solver.
Qed.

Lemma roots_nil cwd state storage : has_prefix cwd "/" = true →
  match disjointRoots unix cwd state storage with Some e => [RootsOverlap e] | None => [] end = [] ↔
  (state ≠ "" → storage ≠ "" → roots_apart cwd state storage).
Proof.
  intros Hc. transitivity (disjointRoots unix cwd state storage = None); [by destruct (disjointRoots _ _ _ _)|].
  destruct (decide (state = "")) as [->|Hs]; [naive_solver|]. destruct (decide (storage = "")) as [->|Hg].
  { unfold disjointRoots. rewrite orb_true_r. naive_solver. }
  unfold roots_apart. rewrite disjoint_roots_iff by done. naive_solver.
Qed.

Lemma trust_nil es : TrustInvalid <$> es = [] ↔ es = [].
Proof. by destruct es. Qed.

(** Validation accepts exactly the acceptable configurations, for every scope. *)
Theorem validate_exact `{UrlLib} cwd scope c (Hcwd : has_prefix cwd "/" = true) :
  config_validate cwd scope c = [] ↔ acceptable cwd scope c.
Proof.
  unfold config_validate. rewrite !app_nil, mode_nil, roots_nil, !when_nil, validateDestination_nil, validateNetwork_nil, validateServerTLS_nil,
    validateFiles_nil, trust_nil, negb_false_iff, parseLevel_true, !andb_false_iff, orb_false_iff,
    bool_decide_eq_false, !String.eqb_neq, !Z.ltb_ge, !Z.leb_gt by done.
  split.
  - intros (? & ? & ? & ? & ? & ? & ? & ? & Hst & ? & ? & ? & ? & ? & [? ?] & Hp & ? & ? & ? & ? & ? & ? & ?).
    split; try assumption; try (split_and!; lia).
    + intros Hs. by destruct Hst.
    + intros Hp' Hm. rewrite Hp' in Hp. by destruct Hp as [?|?].
  - intros [? ? [? ?] ? (? & ? & ? & ?) Hst ? (? & ? & ? & [? ?] & ? & ?) Hp ? ? ? ? ?]. split_and!; try done.
    + destruct (decide (scope = ScopeStorage)); auto.
    + destruct (sy_Prune (cf_Sync c)); auto.
Qed.

(** * Scopes *)

(** A command demands only what it uses.  Whatever is set must be coherent for
    every command alike; serving asks for a mode on top of that, and a command on
    the store for its directory. *)
Theorem scopes_demand `{UrlLib} cwd c (Hcwd : has_prefix cwd "/" = true) :
  (∀ scope, scope ≠ ScopeInstance → scope ≠ ScopeStorage → config_validate cwd scope c = config_validate cwd ScopeState c) ∧
  (config_validate cwd ScopeInstance c = [] ↔ config_validate cwd ScopeState c = [] ∧ cf_Mode c ≠ "") ∧
  (config_validate cwd ScopeStorage c = [] ↔ config_validate cwd ScopeState c = [] ∧ cs_Root (cf_Storage c) ≠ "").
Proof.
  split_and!.
  - intros scope Hi Hs. unfold config_validate. by destruct scope.
  - rewrite !validate_exact by done. split.
    + intros [Hm ? ? ? ? ? ? ? ? ? ? ? ? ?]. split.
      * split; try assumption; [|done]. destruct Hm as [?|[?|[_ ?]]]; [auto..|done].
      * destruct Hm as [->|[->|[_ ?]]]; done.
    + intros [[Hm ? ? ? ? ? ? ? ? ? ? ? ? ?] Hne]. split; try assumption; [|done]. tauto.
  - rewrite !validate_exact by done. split.
    + intros [Hm ? ? ? ? Hst ? ? ? ? ? ? ? ?]. split; [|by apply Hst].
      split; try assumption; [|done]. destruct Hm as [?|[?|[? _]]]; auto.
    + intros [[Hm ? ? ? ? ? ? ? ? ? ? ? ? ?] Hne]. split; try assumption; [|done]. destruct Hm as [?|[?|[? _]]]; auto.
Qed.

(** * Secrets *)

(** A dump tells two non-empty passwords apart from none, and never from each
    other. *)
Theorem dump_redacts marshal c p p' : p ≠ "" → p' ≠ "" →
  Dump marshal (set_password (NewSecret p) c) = Dump marshal (set_password (NewSecret p') c).
Proof.
  intros Hp Hp'. unfold Dump. cbn. unfold secret_String. cbn. by rewrite !(proj2 (String.eqb_neq _ _)).
Qed.

(** * At work *)

(** Durations spelled as counts, and URLs cut at their scheme. *)
#[export] Program Instance count_durations : DurationLib := {| parse_duration := ParseInt; duration_string := pretty |}.
Next Obligation. intros d. apply ParseInt_pretty. Qed.
Next Obligation.
  intros s d. unfold ParseInt. destruct (match s with String _ _ => _ | _ => _ end) as [neg body].
  destruct (String.eqb body ""); [done|]. destruct (digits_value body 0) as [n|]; [|done]. cbn.
  set (n' := if neg then _ else _). destruct (Z.leb_spec int64_min n'), (Z.leb_spec n' int64_max); try done.
  intros [= <-]. done.
Qed.

#[export] Instance cut_urls : UrlLib :=
  {| url_parse := λ u, match index_str "://" u with
       | Some i => Some (mkParsedUrl (stake i u) (sdrop (i + 3) u) (contains_byte (sdrop (i + 3) u) "@"))
       | None => None
       end |}.

(** A file, a variable over it, a flag over both. *)
Definition demo_decode (data : string) (c : Config) : decoded :=
  if String.eqb data "" then DecodedEmpty else DecodedOver (set_zone "file" (set_stateRoot "/file/state" c)).
Definition demo_env (name : string) : option string :=
  if String.eqb name "TOBBY_ZONE" then Some "env" else if String.eqb name "TOBBY_SYNC_RETRIES" then Some "7" else None.

Lemma effective_setting_witness :
  ∃ c, LoadFor demo_decode "/" ScopeInstance "tobby.yaml" true (ReadData "x") demo_env [set_mode ModeMirror; set_zone "flag"] = Ok c ∧
    sy_Retries (cf_Sync c) = 7%Z ∧ cf_Zone c = "flag" ∧ cf_Mode c = ModeMirror.
Proof.
  destruct (LoadFor demo_decode "/" ScopeInstance "tobby.yaml" true (ReadData "x") demo_env [set_mode ModeMirror; set_zone "flag"])
    as [c|e] eqn:E; [|vm_compute in E; discriminate E].
  exists c. split; [done|].
  destruct (effective_setting demo_decode "/" ScopeInstance "tobby.yaml" true (ReadData "x") demo_env
    [set_mode ModeMirror; set_zone "flag"] c E) as (_ & Hflag & base & _ & Hs & _).
  split_and!.
  - destruct (env_settings !! 26) as [s|] eqn:Es; [|discriminate Es].
    destruct (Hs s) as [Hv _]; [by eapply list_elem_of_lookup_2| |].
    { intros o [->| ->%list_elem_of_singleton]%elem_of_cons c'; injection Es as <-; done. }
    injection Es as <-. specialize (Hv "7" eq_refl). cbn in Hv. by injection Hv as <-.
  - apply (Hflag _ cf_Zone "flag" [set_mode ModeMirror] (set_zone "flag") []); [done..|]. by intros ? ?%elem_of_nil.
  - apply (Hflag _ cf_Mode ModeMirror [] (set_mode ModeMirror) [set_zone "flag"]); [done..|].
    by intros o ->%list_elem_of_singleton c'.
Defined.

Lemma validate_exact_witness : acceptable "/" ScopeState Default.
Proof. apply validate_exact; [reflexivity|]. vm_compute. reflexivity. Defined.

Lemma scopes_demand_witness : config_validate "/" ScopeInstance Default ≠ [].
Proof. intros Hv. by apply (scopes_demand "/" Default eq_refl) in Hv as [_ ?]. Defined.

(** Paths the grammar of repository names refuses pass the check that is meant to
    find them before the first push. *)
Theorem repository_path_beyond_grammar :
  validRepositoryPath "-a" = None ∧ validRepositoryPath "a..b" = None ∧ validRepositoryPath "a/_" = None.
Proof. split_and!; vm_compute; reflexivity. Qed.
