(* ===== verification/MediaLog.v ===== *)
(** The operation log on a transport medium (internal/medialog/medialog.go): an
    append-only file that rotates by size, on a file system whose every call may
    fail. *)

From S2P Require Import Prelude GoStrings MediaPaths FilePaths.

(** * Where it may live *)

Definition DefaultPath : string := TobbyDir +:+ "/logs/operations.log".
Definition DefaultLogBytes : Z := Z.shiftl 10 20.
Definition DefaultKeep : Z := 3.

Inductive log_error :=
  | LogBackslash | LogColon | LogAbsolute | LogNotClean | LogOutside | LogCovered | LogClosed | LogIO.

(** [checkPath]. *)
Definition checkLogPath (rel : string) : res log_error unit :=
  if contains_byte rel backslash then Err LogBackslash
  else if contains_byte rel ":" then Err LogColon
  else if has_prefix rel "/" then Err LogAbsolute
  else if negb (String.eqb (path_clean rel) rel) then Err LogNotClean
  else if has_prefix rel "../" then Err LogOutside
  else if covered rel then Err LogCovered
  else Ok tt.

Record LogOptions := mkLogOptions { lo_Path : string; lo_MaxBytes : Z; lo_Keep : Z }.

(** * The file and its generations *)

(** A file: its bytes, and how many of them are on stable storage.  The log is slot
    0 and generation [n] slot [n]: ["<path>.<n>"]. *)
Record logfile := mkLogfile { lf_data : string; lf_synced : nat }.

(** [w.f]: an open file, or one whose close failed; and what the calls of the
    file system will do. *)
Inductive handle := Attached | Shut.
Inductive lfault := LogOk | LogFail | LogShort (n : nat).

Record logWriter := mkLogWriter {
  lw_file : option handle; lw_size : Z; lw_slots : gmap nat logfile; lw_faults : list lfault }.

Definition lg (A : Type) : Type := logWriter → res log_error A * logWriter.

#[export] Instance lg_ret : MRet lg := λ A a w, (Ok a, w).
#[export] Instance lg_bind : MBind lg := λ A B f m w,
  match m w with (Ok a, w) => f a w | (Err e, w) => (Err e, w) end.

Definition next_lfault (w : logWriter) : lfault * logWriter :=
  match lw_faults w with
  | [] => (LogOk, w)
  | f :: fs => (f, mkLogWriter (lw_file w) (lw_size w) (lw_slots w) fs)
  end.

(** A call that fails without effect, or has it. *)
Definition lg_call (effect : logWriter → logWriter) : lg unit := λ w,
  match next_lfault w with (LogOk, w) => (Ok tt, effect w) | (_, w) => (Err LogIO, w) end.

Definition set_handle (f : option handle) (w : logWriter) : logWriter :=
  mkLogWriter f (lw_size w) (lw_slots w) (lw_faults w).
Definition set_size (n : Z) (w : logWriter) : logWriter :=
  mkLogWriter (lw_file w) n (lw_slots w) (lw_faults w).
Definition on_slots (f : gmap nat logfile → gmap nat logfile) (w : logWriter) : logWriter :=
  mkLogWriter (lw_file w) (lw_size w) (f (lw_slots w)) (lw_faults w).

Definition synced_file (f : logfile) : logfile := mkLogfile (lf_data f) (slen (lf_data f)).
Definition append_file (data : string) (f : logfile) : logfile := mkLogfile (lf_data f +:+ data) (lf_synced f).
Definition empty_file : logfile := mkLogfile "" 0.

(** [Writer.open]: the size is not known until [Stat] answers. *)
Definition writer_open : lg unit :=
  _ ← lg_call (on_slots (λ s, <[0 := default empty_file (s !! 0)]> s));
  lg_call (λ w, mkLogWriter (Some Attached)
    (Z.of_nat (slen (from_option lf_data "" (lw_slots w !! 0)))) (lw_slots w) (lw_faults w)).

(** [File.Sync] and [File.Close] of [w.f]; a file is closed even if closing it
    fails. *)
Definition file_sync (h : handle) : lg unit :=
  match h with
  | Attached => lg_call (on_slots (alter synced_file 0))
  | Shut => λ w, (Err LogIO, w)
  end.
Definition file_close (h : handle) : lg unit :=
  match h with
  | Attached => λ w, match next_lfault w with
      | (LogOk, w) => (Ok tt, set_handle (Some Shut) w)
      | (_, w) => (Err LogIO, set_handle (Some Shut) w)
      end
  | Shut => λ w, (Err LogIO, w)
  end.

(** [os.Remove] and [os.Rename], where a missing file is not an error. *)
Definition remove_slot (i : nat) : lg unit := λ w,
  match lw_slots w !! i with None => (Ok tt, w) | Some _ => lg_call (on_slots (delete i)) w end.
Definition rename_slot (i j : nat) : lg unit := λ w,
  match lw_slots w !! i with
  | None => (Ok tt, w)
  | Some f => lg_call (on_slots (λ s, <[j := f]> (delete i s))) w
  end.

(** The loop over the generations, from [i] down to the first. *)
Fixpoint shift_down (i : nat) : lg unit :=
  match i with
  | 0 => mret tt
  | S i' => _ ← rename_slot i (S i); shift_down i'
  end.

Section writer.
Context (maxBytes : Z) (keep : nat).

(** [Writer.rotate]. *)
Definition rotate (h : handle) : lg unit :=
  _ ← file_sync h;
  _ ← file_close h;
  _ ← (λ w, (Ok tt, set_handle None w));
  _ ← remove_slot keep;
  _ ← shift_down (keep - 1);
  _ ← rename_slot 0 1;
  _ ← (λ w, (Ok tt, set_size 0 w));
  writer_open.

(** [File.Write]: what was written before an error stays. *)
Definition file_write (h : handle) (p : string) : logWriter → nat * bool * logWriter := λ w,
  match h with
  | Shut => (0, false, w)
  | Attached =>
      match next_lfault w with
      | (LogOk, w) => (slen p, true, on_slots (alter (append_file p) 0) w)
      | (LogFail, w) => (0, false, w)
      | (LogShort n, w) =>
          (Nat.min n (slen p), false, on_slots (alter (append_file (stake (Nat.min n (slen p)) p)) 0) w)
      end
  end.

(** [Writer.Write]: how many bytes, and whether without an error. *)
Definition LogWrite (p : string) (w : logWriter) : res log_error nat * logWriter :=
  match lw_file w with
  | None => (Err LogClosed, w)
  | Some h =>
      let '(r, w) :=
        if ((0 <? maxBytes) && (0 <? lw_size w) && (maxBytes <? add64 (lw_size w) (Z.of_nat (slen p))))%Z
        then rotate h w else (Ok tt, w) in
      match r with
      | Err e => (Err e, w)
      | Ok _ =>
          let '(n, ok, w) := file_write (default Shut (lw_file w)) p w in
          (if ok : bool then Ok n else Err LogIO, set_size (add64 (lw_size w) (Z.of_nat n)) w)
      end
  end.
End writer.

(** [Writer.Sync] and [Writer.Close]. *)
Definition LogSync : lg unit := λ w,
  match lw_file w with None => (Ok tt, w) | Some h => file_sync h w end.
Definition LogClose : lg unit := λ w,
  match lw_file w with
  | None => (Ok tt, w)
  | Some h =>
      let '(s, w) := file_sync h w in
      match file_close h w with
      | (Err e, w) => (Err e, set_handle None w)
      | (Ok _, w) => (s, set_handle None w)
      end
  end.

(** [Open], over the files already there. *)
Definition effective_max (o : LogOptions) : Z := if (lo_MaxBytes o =? 0)%Z then DefaultLogBytes else lo_MaxBytes o.
Definition effective_keep (o : LogOptions) : nat :=
  Z.to_nat (if (lo_Keep o <=? 0)%Z then DefaultKeep else lo_Keep o).
Definition LogOpen (o : LogOptions) (slots : gmap nat logfile) (faults : list lfault) : res log_error logWriter :=
  let rel := if String.eqb (lo_Path o) "" then DefaultPath else lo_Path o in
  _ ← checkLogPath rel;
  match (_ ← lg_call id; writer_open) (mkLogWriter None 0 slots faults) with
  | (Ok _, w) => Ok w
  | (Err e, _) => Err e
  end.

(** * Runs *)

Inductive log_op := OpWrite (p : string) | OpSync | OpClose.

(** A run of the log, and for each write whether it succeeded. *)
Fixpoint log_run (maxBytes : Z) (keep : nat) (ops : list log_op) (w : logWriter) : list (string * bool) * logWriter :=
  match ops with
  | [] => ([], w)
  | OpWrite p :: ops =>
      let '(r, w) := LogWrite maxBytes keep p w in
      let '(rs, w) := log_run maxBytes keep ops w in
      ((p, is_ok r) :: rs, w)
  | OpSync :: ops => log_run maxBytes keep ops (LogSync w).2
  | OpClose :: ops => log_run maxBytes keep ops (LogClose w).2
  end.

(** The entries of each file, and all of them from the oldest file to the log. *)
Definition sconcat (l : list string) : string := fold_right (λ a b, a +:+ b) "" l.
Definition entries_of (slots : gmap nat logfile) (E : gmap nat (list string)) : Prop :=
  ∀ i, match slots !! i, E !! i with
       | Some f, Some l => lf_data f = sconcat l
       | None, None => True
       | _, _ => False
       end.
Fixpoint journal (E : gmap nat (list string)) (k : nat) : list string :=
  match k with
  | 0 => default [] (E !! 0)
  | S k' => default [] (E !! k) ++ journal E k'
  end.

Lemma sconcat_app l l' : sconcat (l ++ l') = sconcat l +:+ sconcat l'.
Proof. unfold sconcat. induction l as [|a l IH]; cbn [fold_right app]; [done|]. by rewrite IH, sapp_assoc. Qed.

Lemma journal_local E E' k : (∀ i, i ≤ k → default [] (E !! i) = default [] (E' !! i)) → journal E k = journal E' k.
Proof.
  induction k as [|k IH]; intros Hi; [by apply Hi|]. cbn [journal]. rewrite (Hi (S k)), IH; [done|auto with lia|lia].
Qed.

Lemma journal_insert_last E k l x : E !! 0 = Some l → journal (<[0 := l ++ x]> E) k = journal E k ++ x.
Proof.
  intros H0. induction k as [|k IH]; cbn [journal].
  - by rewrite lookup_insert_eq, H0.
  - rewrite IH, lookup_insert_ne by done. by rewrite app_assoc.
Qed.

Lemma journal_insert_empty E k : E !! 0 = None → journal (<[0 := []]> E) k = journal E k.
Proof.
  intros H0. apply journal_local. intros [|i] _; [by rewrite lookup_insert_eq, H0|by rewrite lookup_insert_ne].
Qed.

Lemma journal_delete_top E k : journal E k = default [] (E !! k) ++ journal (delete k E) k.
Proof.
  destruct k as [|k]; cbn [journal]; rewrite lookup_delete_eq; cbn; [by rewrite app_nil_r|]. f_equal.
  apply journal_local. intros i Hi. rewrite lookup_delete_ne by lia. done.
Qed.

Lemma journal_move E k i l : E !! S i = None → E !! i = Some l → S i ≤ k →
  journal (<[S i := l]> (delete i E)) k = journal E k.
Proof.
  intros Hs Hi. induction k as [|k IH]; intros Hk; [lia|]. cbn [journal]. destruct (decide (k = i)) as [->|Hne].
  - rewrite lookup_insert_eq, Hs. cbn. destruct i as [|i]; cbn [journal].
    + rewrite lookup_insert_ne, lookup_delete_eq, Hi by done. cbn. by rewrite app_nil_r.
    + rewrite lookup_insert_ne, lookup_delete_eq, Hi by done. cbn. f_equal. apply journal_local. intros j Hj.
      by rewrite lookup_insert_ne, lookup_delete_ne by lia.
  - rewrite lookup_insert_ne, lookup_delete_ne, IH by lia. done.
Qed.

Lemma entries_insert slots E i f l : entries_of slots E → lf_data f = sconcat l → entries_of (<[i := f]> slots) (<[i := l]> E).
Proof.
  intros He Hf j. destruct (decide (i = j)) as [->|Hne]; [by rewrite !lookup_insert_eq|].
  rewrite !lookup_insert_ne by done. apply He.
Qed.

Lemma entries_delete slots E i : entries_of slots E → entries_of (delete i slots) (delete i E).
Proof.
  intros He j. destruct (decide (i = j)) as [->|Hne]; [by rewrite !lookup_delete_eq|].
  rewrite !lookup_delete_ne by done. apply He.
Qed.

Lemma entries_Some slots E i f : entries_of slots E → slots !! i = Some f → ∃ l, E !! i = Some l ∧ lf_data f = sconcat l.
Proof. intros He Hi. specialize (He i). rewrite Hi in He. destruct (E !! i) as [l|]; [eauto|done]. Qed.

Lemma entries_None slots E i : entries_of slots E → slots !! i = None → E !! i = None.
Proof. intros He Hi. specialize (He i). rewrite Hi in He. by destruct (E !! i). Qed.

(** * The invariant *)

Section invariant.
Context (keep : nat) (bounded : Prop) (B : Z) (HB : (0 ≤ B)%Z).

Definition room (J : list string) : Prop := is_int64 (Z.of_nat (slen (sconcat J))).

(** The files hold the last entries of [J], in order and whole; the generations
    are on stable storage; an open log knows its size; and no file is over its
    bound. *)
Record log_inv (J : list string) (w : logWriter) : Prop := {
  li_entries : ∃ E dropped, entries_of (lw_slots w) E ∧ J = dropped ++ journal E keep;
  li_synced : ∀ i f, lw_slots w !! i = Some f → i ≠ 0 → lf_synced f = slen (lf_data f);
  li_size : lw_file w = Some Attached → ∃ f, lw_slots w !! 0 = Some f ∧ lw_size w = Z.of_nat (slen (lf_data f));
  li_bound : bounded → ∀ i f, lw_slots w !! i = Some f → (Z.of_nat (slen (lf_data f)) ≤ B)%Z;
}.

(** What a computation of the writer does to the log. *)
Definition leaves {A} (P : logWriter → Prop) (m : lg A) (Q : logWriter → Prop) : Prop :=
  ∀ J w, log_inv J w → P w → log_inv J (m w).2 ∧ (is_ok (m w).1 = true → Q (m w).2).

Lemma logs_bind {A A'} P Q R (m : lg A) (f : A → lg A') :
  leaves P m Q → (∀ a, leaves Q (f a) R) → leaves P (m ≫= f) R.
Proof.
  intros Hm Hf J w HJ HP. destruct (Hm J w HJ HP) as [H1 H2]. unfold mbind, lg_bind.
  destruct (m w) as [[a|e] w']; cbn in *; [|by split]. by apply Hf; [|apply H2].
Qed.

Lemma logs_weaken {A} (P P' Q Q' : logWriter → Prop) (m : lg A) :
  (∀ w, P' w → P w) → (∀ w, Q w → Q' w) → leaves P m Q → leaves P' m Q'.
Proof. intros HP HQ Hm J w HJ HP'. destruct (Hm J w HJ (HP w HP')) as [H1 H2]. split; [done|]. intros Ho. by apply HQ, H2. Qed.

Lemma next_lfault_inv w f w' : next_lfault w = (f, w') →
  lw_slots w' = lw_slots w ∧ lw_file w' = lw_file w ∧ lw_size w' = lw_size w ∧ ∀ J, log_inv J w → log_inv J w'.
Proof.
  unfold next_lfault. destruct (lw_faults w); intros [= <- <-]; repeat split; try done;
    by match goal with H : log_inv _ _ |- _ => destruct H end.
Qed.

Lemma logs_call (P : option handle → gmap nat logfile → Prop) Q effect :
  (∀ J w, log_inv J w → P (lw_file w) (lw_slots w) → log_inv J (effect w) ∧ Q (effect w)) →
  leaves (λ w, P (lw_file w) (lw_slots w)) (lg_call effect) Q.
Proof.
  intros He J w HJ HP. unfold lg_call. destruct (next_lfault w) as [f w'] eqn:E.
  apply next_lfault_inv in E as (Hs & Hf & _ & Hi). rewrite <- Hs, <- Hf in HP. specialize (Hi J HJ).
  destruct (He J w' Hi HP) as [H1 H2]. by destruct f.
Qed.

Lemma inv_detach J w h : log_inv J w → h ≠ Some Attached → log_inv J (set_handle h w).
Proof. intros [? ? ? ?] Hh. by split. Qed.

Lemma inv_synced J w : log_inv J w → log_inv J (on_slots (alter synced_file 0) w).
Proof.
  intros [(E & dr & He & HJ) Hs Hz Hr]. split; cbn.
  - exists E, dr. split; [|done]. intros i. specialize (He i). destruct (decide (i = 0)) as [->|Hne].
    + rewrite lookup_alter_eq. destruct (lw_slots w !! 0); [|done]. by destruct (E !! 0).
    + by rewrite lookup_alter_ne.
  - intros i f Hi Hn. rewrite lookup_alter_ne in Hi by done. by eapply Hs.
  - intros Hf. destruct (Hz Hf) as (f & Hf0 & Hsz). exists (synced_file f). by rewrite lookup_alter_eq, Hf0.
  - intros Hb i f. destruct (decide (i = 0)) as [->|Hne]; [|rewrite lookup_alter_ne by done; by apply Hr].
    rewrite lookup_alter_eq. destruct (lw_slots w !! 0) as [f0|] eqn:E0; [|done]. intros [= <-]. exact (Hr Hb 0 f0 E0).
Qed.

(** The log itself is on stable storage. *)
Definition log_synced (s : gmap nat logfile) : Prop := ∀ f, s !! 0 = Some f → lf_synced f = slen (lf_data f).

Lemma logs_sync h : leaves (λ _, True) (file_sync h) (λ w, log_synced (lw_slots w)).
Proof.
  destruct h; cbn [file_sync]; [|by intros J w HJ _].
  refine (logs_call (λ _ _, True) _ _ _). intros J w HJ _. split; [by apply inv_synced|]. intros f. cbn.
  rewrite lookup_alter_eq. destruct (lw_slots w !! 0); [|done]. by intros [= <-].
Qed.

Lemma logs_close (P : gmap nat logfile → Prop) h : leaves (λ w, P (lw_slots w)) (file_close h) (λ w, P (lw_slots w)).
Proof.
  intros J w HJ HP. destruct h; cbn [file_close]; [|done]. destruct (next_lfault w) as [f w'] eqn:E.
  apply next_lfault_inv in E as (Hs & _ & _ & Hi). assert (log_inv J (set_handle (Some Shut) w')) by (by apply inv_detach; [apply Hi|]).
  destruct f; cbn; split; rewrite ?Hs; done.
Qed.

(** Deleting the last generation drops the oldest entries; moving a file up into
    a free slot drops none. *)
Lemma inv_delete_keep J w : 0 < keep → lw_file w = None → log_inv J w → log_inv J (on_slots (delete keep) w).
Proof.
  intros Hk Hf [(E & dr & He & HJ) Hs Hz Hr]. split; cbn.
  - exists (delete keep E), (dr ++ default [] (E !! keep)). split; [by apply entries_delete|].
    by rewrite <- app_assoc, <- journal_delete_top.
  - intros i f. rewrite lookup_delete_Some. intros [_ Hi]. by apply Hs.
  - by rewrite Hf.
  - intros Hb i f. rewrite lookup_delete_Some. intros [_ Hi]. by eapply Hr.
Qed.

Lemma inv_move J w i f : S i ≤ keep → lw_file w = None → log_synced (lw_slots w) → lw_slots w !! i = Some f →
  lw_slots w !! S i = None → log_inv J w → log_inv J (on_slots (λ s, <[S i := f]> (delete i s)) w).
Proof.
  intros Hk Hf Hl Hi Hn [(E & dr & He & HJ) Hs Hz Hr]. split; cbn.
  - destruct (entries_Some _ _ _ _ He Hi) as (l & Hl' & Hd). exists (<[S i := l]> (delete i E)), dr. split.
    + apply entries_insert; [by apply entries_delete|done].
    + rewrite journal_move; [done| |done|done]. by eapply entries_None.
  - intros j g. rewrite lookup_insert_Some, lookup_delete_Some. intros [[<- <-]|(_ & _ & Hj)] Hj0; [|by eapply Hs].
    destruct i as [|i]; [by apply Hl|by eapply Hs].
  - by rewrite Hf.
  - intros Hb j g. rewrite lookup_insert_Some, lookup_delete_Some. intros [[_ <-]|(_ & _ & Hj)]; by eapply Hr.
Qed.

(** The state of the files while a rotation moves them up: the log synced, the
    handle let go, and slot [i] free. *)
Definition moving (i : nat) (f : option handle) (s : gmap nat logfile) : Prop :=
  f = None ∧ log_synced s ∧ s !! i = None.

Lemma logs_remove : 0 < keep →
  leaves (λ w, lw_file w = None ∧ log_synced (lw_slots w)) (remove_slot keep) (λ w, moving keep (lw_file w) (lw_slots w)).
Proof.
  intros Hk J w HJ [Hf Hl]. unfold remove_slot. destruct (lw_slots w !! keep) as [g|] eqn:Hg; [|by unfold moving].
  refine (logs_call (λ f s, f = None ∧ log_synced s) (λ w, moving keep (lw_file w) (lw_slots w)) _ _ J w HJ (conj Hf Hl)).
  clear -Hk. intros J w HJ [Hf Hl].
  split; [by apply inv_delete_keep|]. unfold moving; split_and!; cbn; [done| |by rewrite lookup_delete_eq].
  intros f. rewrite lookup_delete_Some. intros [_ ?]. by apply Hl.
Qed.

Lemma logs_rename i : S i ≤ keep →
  leaves (λ w, moving (S i) (lw_file w) (lw_slots w)) (rename_slot i (S i)) (λ w, moving i (lw_file w) (lw_slots w)).
Proof.
  intros Hk J w HJ (Hf & Hl & Hn). unfold rename_slot. destruct (lw_slots w !! i) as [g|] eqn:Hg; [|by unfold moving].
  refine (logs_call (λ f s, moving (S i) f s ∧ s !! i = Some g) (λ w, moving i (lw_file w) (lw_slots w)) _ _ J w HJ _);
    [|done]. clear -Hk. intros J w HJ [(Hf & Hl & Hn) Hg]. split; [by apply inv_move|]. unfold moving; split_and!; cbn; [done| |].
  - intros f. rewrite lookup_insert_ne, lookup_delete_Some by done. intros [_ ?]. by apply Hl.
  - rewrite lookup_insert_ne, lookup_delete_eq by lia. done.
Qed.

Lemma logs_shift i : S i ≤ keep →
  leaves (λ w, moving (S i) (lw_file w) (lw_slots w)) (shift_down i) (λ w, moving 1 (lw_file w) (lw_slots w)).
Proof.
  induction i as [|i IH]; intros Hk; cbn [shift_down]; [by intros J w HJ HP|].
  eapply logs_bind; [by apply logs_rename|]. intros _. apply IH. lia.
Qed.

(** An opened log is there, and what it holds is what it held. *)
Lemma logs_open n : leaves (λ w, from_option lf_data "" (lw_slots w !! 0) = n) writer_open
  (λ w, lw_file w = Some Attached ∧ ∃ f, lw_slots w !! 0 = Some f ∧ lf_data f = n).
Proof.
  unfold writer_open. apply logs_bind with (λ w, ∃ f, lw_slots w !! 0 = Some f ∧ lf_data f = n).
  - refine (logs_call (λ _ s, from_option lf_data "" (s !! 0) = n) _ _ _). clear -HB.
    intros J w [(E & dr & He & HJ) Hs Hz Hr] Hn. destruct (lw_slots w !! 0) as [g|] eqn:Hg; cbn in Hn.
    + unfold on_slots. rewrite Hg. cbn. rewrite insert_id by done. split; [split; [eauto|done|cbn; by rewrite Hg|done]|cbn; eauto].
    + unfold on_slots. rewrite Hg. cbn. split; [split; cbn|exists empty_file; by rewrite lookup_insert_eq].
      * exists (<[0 := []]> E), dr. split; [by apply entries_insert|]. rewrite journal_insert_empty; [done|]. by eapply entries_None.
      * intros i f. rewrite lookup_insert_Some. intros [[<- _]|[_ Hi]] Hi0; [done|by eapply Hs].
      * intros Ha. destruct (Hz Ha) as (? & ? & _). congruence.
      * intros Hb i f. rewrite lookup_insert_Some. intros [[_ <-]|[_ Hi]]; [done|by eapply Hr].
  - intros _. refine (logs_call (λ _ s, ∃ f, s !! 0 = Some f ∧ lf_data f = n) _ _ _). clear.
    intros J w [(E & dr & He & HJ) Hs Hz Hr] (f & Hf & Hn). rewrite Hf. split; [split; eauto|]. split; eauto.
Qed.

Lemma logs_detach P : leaves (λ w, P (lw_slots w)) (λ w, (Ok tt, set_handle None w)) (λ w, lw_file w = None ∧ P (lw_slots w)).
Proof. intros J w HJ HP. by split; [apply inv_detach|]. Qed.

Lemma logs_set_size (P : option handle → gmap nat logfile → Prop) : (∀ f s, P f s → f = None) →
  leaves (λ w, P (lw_file w) (lw_slots w)) (λ w, (Ok tt, set_size 0 w)) (λ w, P (lw_file w) (lw_slots w)).
Proof. intros HP J w [? ? ? ?] Hf. split; [|done]. split; try done. cbn. by rewrite (HP _ _ Hf). Qed.

(** A rotation keeps the entries whatever fails in it; one that ends well has
    opened an empty log. *)
Lemma logs_rotate h : 0 < keep → leaves (λ _, True) (rotate keep h)
  (λ w, lw_file w = Some Attached ∧ ∃ f, lw_slots w !! 0 = Some f ∧ lf_data f = "").
Proof.
  intros Hk. unfold rotate. eapply logs_bind; [apply logs_sync|intros _].
  eapply logs_bind; [apply (logs_close log_synced)|intros _]. eapply logs_bind; [apply logs_detach|intros _].
  eapply logs_bind; [by apply logs_remove|intros _]. eapply logs_bind.
  { refine (logs_weaken _ _ _ _ _ _ (λ _ Hq, Hq) (logs_shift (keep - 1) _)); [|lia].
    intros w. by replace (S (keep - 1)) with keep by lia. }
  intros _. eapply logs_bind; [by apply logs_rename|intros _].
  eapply logs_bind; [apply (logs_set_size (moving 0)); by intros ? ? [? _]|intros _].
  refine (logs_weaken _ _ _ _ _ _ (λ _ Hq, Hq) (logs_open "")). by intros w (_ & _ & ->).
Qed.

Lemma journal_suffix E k : default [] (E !! 0) `suffix_of` journal E k.
Proof. induction k as [|k IH]; cbn [journal]; [done|]. by apply suffix_app_r. Qed.

Lemma slen_sconcat_suffix l l' : l `suffix_of` l' → slen (sconcat l) ≤ slen (sconcat l').
Proof. intros [m ->]. rewrite sconcat_app, slen_app. lia. Qed.

Lemma inv_log_size J w f : log_inv J w → lw_slots w !! 0 = Some f → slen (lf_data f) ≤ slen (sconcat J).
Proof.
  intros [(E & dr & He & ->) _ _ _] Hf. destruct (entries_Some _ _ _ _ He Hf) as (l & Hl & ->).
  apply slen_sconcat_suffix. etrans; [|by apply suffix_app_r]. pose proof (journal_suffix E keep). by rewrite Hl in *.
Qed.

(** Appending to an open log. *)
Lemma inv_append J w q : log_inv J w → lw_file w = Some Attached → room (J ++ [q]) →
  (bounded → (lw_size w + Z.of_nat (slen q) ≤ B)%Z) →
  log_inv (J ++ [q]) (set_size (add64 (lw_size w) (Z.of_nat (slen q))) (on_slots (alter (append_file q) 0) w)).
Proof.
  intros HJ Hf Hroom Hb. destruct (li_size _ _ HJ Hf) as (f & H0 & Hz). pose proof (inv_log_size _ _ _ HJ H0) as Hlen.
  destruct HJ as [(E & dr & He & ->) Hs _ Hr]. destruct (entries_Some _ _ _ _ He H0) as (l & Hl & Hd).
  assert (alter (append_file q) 0 (lw_slots w) = <[0 := append_file q f]> (lw_slots w)) as Ha.
  { rewrite <- (insert_id _ _ _ H0) at 1. by rewrite alter_insert_eq. }
  unfold room in Hroom. rewrite sconcat_app, slen_app in Hroom. cbn [sconcat fold_right] in Hroom. rewrite sapp_nil_r in Hroom.
  split; cbn; rewrite Ha.
  - exists (<[0 := l ++ [q]]> E), dr. split; [|by rewrite (journal_insert_last _ _ _ _ Hl), app_assoc].
    apply entries_insert; [done|]. rewrite sconcat_app. cbn. by rewrite Hd, sapp_nil_r.
  - intros i g. rewrite lookup_insert_Some. intros [[<- _]|[_ Hi]] Hi0; [done|by eapply Hs].
  - intros _. exists (append_file q f). rewrite lookup_insert_eq. split; [done|]. cbn. rewrite slen_app, Nat2Z.inj_add, <- Hz.
    apply wrap64_id. unfold is_int64, int64_min, int64_max in *. lia.
  - intros Hb' i g. rewrite lookup_insert_Some. intros [[_ <-]|[_ Hi]]; [|by eapply Hr]. cbn.
    rewrite slen_app, Nat2Z.inj_add, <- Hz. auto.
Qed.

(** What a write left behind: all of the record, or for one that failed nothing
    or a part of it. *)
Definition landed (r : string * bool) (q : list string) : Prop :=
  if r.2 then q = [r.1] else q = [] ∨ ∃ n, q = [stake n r.1].

Lemma room_piece J p n : room (J ++ [p]) → room (J ++ [stake n p]).
Proof.
  unfold room. rewrite !sconcat_app, !slen_app. cbn. rewrite !sapp_nil_r. intros Hr.
  assert (slen (stake n p) ≤ slen p). { rewrite <- (stake_drop n p) at 2. rewrite slen_app. lia. }
  unfold is_int64, int64_min, int64_max in *. lia.
Qed.

Lemma file_write_inv J w p n ok w' : log_inv J w → room (J ++ [p]) →
  (bounded → lw_file w = Some Attached → (lw_size w + Z.of_nat (slen p) ≤ B)%Z) →
  file_write (default Shut (lw_file w)) p w = (n, ok, w') →
  ∃ q, log_inv (J ++ q) (set_size (add64 (lw_size w') (Z.of_nat n)) w') ∧ landed (p, ok) q.
Proof.
  intros HJ Hr Hb. assert (0 ≤ slen p) by lia. destruct (lw_file w) as [[|]|] eqn:Hf; cbn [default from_option id file_write]; unfold id; cbn [file_write].
  2,3: intros Hw; injection Hw as <- <- <-; exists []; rewrite app_nil_r; split; [|by left]; destruct HJ; split; cbn; by rewrite ?Hf.
  destruct (next_lfault w) as [[| |m] w1] eqn:E; apply next_lfault_inv in E as (Hs1 & Hf1 & Hz1 & Hi1); specialize (Hi1 J HJ);
    intros Hw; injection Hw as <- <- <-.
  - exists [p]. split; [|done]. cbn. rewrite <- Hz1 in Hb. apply inv_append; auto; congruence.
  - exists []. rewrite app_nil_r. split; [|by left]. destruct (li_size _ _ Hi1) as (f & H0 & Hz); [congruence|].
    pose proof (inv_log_size _ _ _ Hi1 H0) as Hl. destruct Hi1 as [? ? Hz' ?]. split; try done. cbn. intros _. exists f. split; [done|]. unfold add64. rewrite Hz, Z.add_0_r.
    apply wrap64_id. unfold room in Hr. rewrite sconcat_app, slen_app in Hr. unfold is_int64, int64_min, int64_max in *. lia.
  - set (k := Nat.min m (slen p)). exists [stake k p]. split; [|by right; exists k].
    replace (Z.of_nat k) with (Z.of_nat (slen (stake k p))) by (rewrite slen_stake by (subst k; lia); done).
    cbn. apply inv_append; [done|congruence|by apply room_piece|]. intros Hb'. rewrite Hz1. specialize (Hb Hb' eq_refl).
    rewrite slen_stake by (subst k; lia). subst k. lia.
Qed.

Lemma LogWrite_inv maxBytes J w p : 0 < keep → log_inv J w → room (J ++ [p]) →
  (bounded → (0 < maxBytes ≤ B)%Z ∧ (Z.of_nat (slen p) ≤ B)%Z) →
  ∃ q, log_inv (J ++ q) (LogWrite maxBytes keep p w).2 ∧ landed (p, is_ok (LogWrite maxBytes keep p w).1) q.
Proof.
  intros Hk HJ Hr Hb. unfold LogWrite. destruct (lw_file w) as [h|] eqn:Hf; [|exists []; rewrite app_nil_r; split; [done|by left]].
  destruct ((0 <? maxBytes) && (0 <? lw_size w) && (maxBytes <? add64 (lw_size w) (Z.of_nat (slen p))))%Z eqn:Hc.
  - destruct (logs_rotate h Hk J w HJ I) as [H1 H2]. destruct (rotate keep h w) as [[[]|e] w1]; cbn [fst snd] in *;
      [|exists []; rewrite app_nil_r; split; [done|by left]]. destruct (H2 eq_refl) as (Hf1 & f & H0 & Hd).
    destruct (file_write _ p w1) as [[n ok] w2] eqn:Hw. eapply file_write_inv in Hw as (q & Hq & Hl); [|done|done|].
    + exists q. split; [done|]. by destruct ok.
    + intros Hb' _. destruct (li_size _ _ H1 Hf1) as (f' & H0' & ->). rewrite H0' in H0. injection H0 as ->. rewrite Hd. cbn.
      by apply Hb.
  - cbn beta iota zeta. destruct (file_write _ p w) as [[n ok] w2] eqn:Hw. eapply file_write_inv in Hw as (q & Hq & Hl); [|done|done|].
    + exists q. split; [done|]. by destruct ok.
    + intros Hb' Ha. destruct (Hb Hb') as [[Hm Hm'] Hp]. destruct (li_size _ _ HJ Ha) as (f & H0 & Hz).
      pose proof (inv_log_size _ _ _ HJ H0) as Hlen. unfold room in Hr. rewrite sconcat_app, slen_app in Hr. cbn in Hr.
      rewrite sapp_nil_r in Hr. unfold add64 in Hc. rewrite wrap64_id in Hc;
        [|unfold is_int64, int64_min, int64_max in *; lia]. lia.
Qed.

Lemma LogSync_inv J w : log_inv J w → log_inv J (LogSync w).2 ∧
  (lw_file w ≠ None → is_ok (LogSync w).1 = true → log_synced (lw_slots (LogSync w).2)).
Proof.
  intros HJ. unfold LogSync. destruct (lw_file w) as [h|]; [|done]. destruct (logs_sync h J w HJ I). by split.
Qed.

Lemma LogClose_inv J w : log_inv J w → log_inv J (LogClose w).2.
Proof.
  intros HJ. unfold LogClose. destruct (lw_file w) as [h|]; [|done]. destruct (logs_sync h J w HJ I) as [H1 _].
  destruct (file_sync h w) as [s w1]. destruct (logs_close (λ _, True) h J w1 H1 I) as [H2 _].
  destruct (file_close h w1) as [[[]|e] w2]; by apply inv_detach.
Qed.

(** The records of the run's writes, in order. *)
Definition records (ops : list log_op) : list string := omap (λ o, match o with OpWrite p => Some p | _ => None end) ops.

Lemma room_app J p ps q ok : room (J ++ p :: ps) → landed (p, ok) q → room ((J ++ q) ++ ps).
Proof.
  unfold room, landed. intros Hr Hq. assert (slen (sconcat q) ≤ slen p).
  { assert (∀ n, slen (stake n p) ≤ slen p) as Hn. { intros n. rewrite <- (stake_drop n p) at 2. rewrite slen_app. lia. }
    destruct ok; cbn in Hq; [subst q|destruct Hq as [->|[n ->]]]; cbn; rewrite ?sapp_nil_r; auto; lia. }
  rewrite (app_assoc J [p] ps : J ++ p :: ps = _) in Hr. rewrite !sconcat_app, !slen_app in *. cbn in Hr. rewrite sapp_nil_r in Hr.
  unfold is_int64, int64_min, int64_max in *. lia.
Qed.

Lemma log_run_inv maxBytes ops : 0 < keep → ∀ J w, log_inv J w → room (J ++ records ops) →
  (bounded → (0 < maxBytes ≤ B)%Z ∧ Forall (λ p, Z.of_nat (slen p) ≤ B)%Z (records ops)) →
  ∃ qs, log_inv (J ++ concat qs) (log_run maxBytes keep ops w).2 ∧ Forall2 landed (log_run maxBytes keep ops w).1 qs.
Proof.
  intros Hk. induction ops as [|[p| |] ops IH]; intros J w HJ Hr Hb; cbn [log_run].
  - exists []. rewrite app_nil_r. by split; [|constructor].
  - change (records (OpWrite p :: ops)) with (p :: records ops) in *.
    destruct (LogWrite_inv maxBytes J w p Hk HJ) as (q & Hq & Hl).
    { rewrite (app_assoc J [p] (records ops) : J ++ p :: records ops = _) in Hr. unfold room in *. rewrite sconcat_app, slen_app in Hr.
      unfold is_int64, int64_min, int64_max in *. lia. }
    { intros Hb'. destruct (Hb Hb') as [? Hp%Forall_cons]. by destruct Hp. }
    destruct (LogWrite maxBytes keep p w) as [r w1]. cbn [fst snd] in *.
    destruct (IH _ _ Hq (room_app _ _ _ _ _ Hr Hl)) as (qs & Hqs & Hls).
    { intros Hb'. destruct (Hb Hb') as [? Hp%Forall_cons]. by destruct Hp. }
    exists (q :: qs). destruct (log_run maxBytes keep ops w1). cbn [concat]. rewrite app_assoc. split; [done|by constructor].
  - apply IH; [by apply LogSync_inv|done|done].
  - apply IH; [by apply LogClose_inv|done|done].
Qed.

(** What [Open] finds. *)
Lemma LogOpen_inv o slots faults w E : entries_of slots E →
  (∀ i f, slots !! i = Some f → i ≠ 0 → lf_synced f = slen (lf_data f)) →
  (bounded → ∀ i f, slots !! i = Some f → (Z.of_nat (slen (lf_data f)) ≤ B)%Z) →
  LogOpen o slots faults = Ok w → log_inv (journal E keep) w ∧ lw_file w = Some Attached.
Proof.
  intros He Hs Hb. unfold LogOpen. destruct (checkLogPath _); [|done]. cbn -[lg_call writer_open].
  set (P := λ s : gmap nat logfile, from_option lf_data "" (s !! 0) = from_option lf_data "" (slots !! 0)).
  assert (leaves (λ w, P (lw_slots w)) (_ ← lg_call id; writer_open) (λ w, lw_file w = Some Attached)) as Hl.
  { apply logs_bind with (λ w, P (lw_slots w)); [by apply (logs_call (λ _ s, P s))|]. intros _.
    refine (logs_weaken _ _ _ _ _ (λ _ Hp, Hp) _ (logs_open _)). by intros w' [? _]. }
  destruct (Hl (journal E keep) (mkLogWriter None 0 slots faults)) as [H1 H2]; [|done|].
  { split; cbn; [exists E, []; by rewrite ?app_nil_l|done|done|done]. }
  destruct ((_ ← lg_call id; writer_open) _) as [[u|e] w']; [|done]. intros Hw. injection Hw as <-. by split; [|apply H2].
Qed.
End invariant.

(** * What the log keeps *)

(** The medium as [Open] finds it: generations that are on stable storage. *)
Definition generations_synced (slots : gmap nat logfile) : Prop :=
  ∀ i f, slots !! i = Some f → i ≠ 0 → lf_synced f = slen (lf_data f).

Fixpoint medium_bytes (slots : gmap nat logfile) (k : nat) : Z :=
  (Z.of_nat (slen (from_option lf_data "" (slots !! k))) + match k with O => 0 | S k' => medium_bytes slots k' end)%Z.

Lemma effective_keep_pos o : 0 < effective_keep o.
Proof. unfold effective_keep, DefaultKeep. destruct (lo_Keep o <=? 0)%Z eqn:E; lia. Qed.

Lemma entries_whole slots : entries_of slots (fmap (λ f, [lf_data f]) slots).
Proof. intros i. rewrite lookup_fmap. destruct (slots !! i); [|done]. cbn. by rewrite sapp_nil_r. Qed.

Lemma medium_bytes_le slots k B : (0 ≤ B)%Z → (∀ i f, slots !! i = Some f → (Z.of_nat (slen (lf_data f)) ≤ B)%Z) →
  (medium_bytes slots k ≤ (Z.of_nat k + 1) * B)%Z.
Proof.
  intros H0 HB. assert (∀ i, Z.of_nat (slen (from_option lf_data "" (slots !! i))) ≤ B)%Z as Hi.
  { intros i. destruct (slots !! i) as [f|] eqn:E; cbn; [by eapply HB|lia]. }
  induction k as [|k IH]; cbn [medium_bytes]; [specialize (Hi 0)|specialize (Hi (S k))]; nia.
Qed.

(** Every record of a run is in one piece or, when its write failed, cut short in
    one; the files hold the last of what was there and of what was written, in
    order, wherever a call of the file system failed. *)
Theorem log_journal o slots faults E ops w rs w' : entries_of slots E → generations_synced slots →
  room (journal E (effective_keep o) ++ records ops) → LogOpen o slots faults = Ok w →
  log_run (effective_max o) (effective_keep o) ops w = (rs, w') →
  ∃ E' dropped pieces, entries_of (lw_slots w') E' ∧ Forall2 landed rs pieces ∧
    journal E (effective_keep o) ++ concat pieces = dropped ++ journal E' (effective_keep o).
Proof.
  intros He Hs Hr Hw Hrun. pose proof (effective_keep_pos o) as Hk.
  destruct (LogOpen_inv (effective_keep o) False 0 ltac:(done) o slots faults w E) as [HJ _]; try done.
  destruct (log_run_inv (effective_keep o) False 0 ltac:(done) (effective_max o) ops Hk _ _ HJ Hr) as (qs & HJ' & Hq); [done|].
  rewrite Hrun in HJ', Hq. destruct (li_entries _ _ _ _ _ HJ') as (E' & dr & He' & HE). by exists E', dr, qs.
Qed.

(** With rotation on, and records no longer than the budget, no file of the log
    is ever over its budget: the log and its generations together take at most
    [keep + 1] times it. *)
Theorem log_bounded o slots faults ops w rs w' : (0 < effective_max o)%Z → generations_synced slots →
  (∀ i f, slots !! i = Some f → (Z.of_nat (slen (lf_data f)) ≤ effective_max o)%Z) →
  Forall (λ p, Z.of_nat (slen p) ≤ effective_max o)%Z (records ops) →
  room (journal (fmap (λ f, [lf_data f]) slots) (effective_keep o) ++ records ops) →
  LogOpen o slots faults = Ok w → log_run (effective_max o) (effective_keep o) ops w = (rs, w') →
  (medium_bytes (lw_slots w') (effective_keep o) ≤ (Z.of_nat (effective_keep o) + 1) * effective_max o)%Z.
Proof.
  intros Hm Hs Hb Hp Hr Hw Hrun. pose proof (effective_keep_pos o) as Hk. assert (0 ≤ effective_max o)%Z as H0 by lia.
  destruct (LogOpen_inv (effective_keep o) True _ H0 o slots faults w _ (entries_whole slots)) as [HJ _]; try done.
  destruct (log_run_inv (effective_keep o) True _ H0 (effective_max o) ops Hk _ _ HJ Hr) as (qs & HJ' & _); [by split; [lia|]|].
  rewrite Hrun in HJ'. apply medium_bytes_le; [done|]. by apply (li_bound _ _ _ _ _ HJ').
Qed.

(** After a [Sync] that succeeds on an open log, every byte of it and of its
    generations is on stable storage; a rotation leaves none behind. *)
Theorem log_durable o slots faults E ops w rs w1 w2 : entries_of slots E → generations_synced slots →
  room (journal E (effective_keep o) ++ records ops) → LogOpen o slots faults = Ok w →
  log_run (effective_max o) (effective_keep o) ops w = (rs, w1) → lw_file w1 ≠ None → LogSync w1 = (Ok tt, w2) →
  generations_synced (lw_slots w1) ∧ ∀ i f, lw_slots w2 !! i = Some f → lf_synced f = slen (lf_data f).
Proof.
  intros He Hs Hr Hw Hrun Hf Hsync. pose proof (effective_keep_pos o) as Hk.
  destruct (LogOpen_inv (effective_keep o) False 0 ltac:(done) o slots faults w E) as [HJ _]; try done.
  destruct (log_run_inv (effective_keep o) False 0 ltac:(done) (effective_max o) ops Hk _ _ HJ Hr) as (qs & HJ' & _); [done|].
  rewrite Hrun in HJ'. cbn [snd] in HJ'. split; [exact (li_synced _ _ _ _ _ HJ')|].
  destruct (LogSync_inv _ _ _ _ _ HJ') as [HJ2 H0]. rewrite Hsync in HJ2, H0.
  intros [|i] f Hi; [by apply H0|]. by apply (li_synced _ _ _ _ _ HJ2 _ _ Hi).
Qed.

(** The toy medium of the witnesses. *)
Definition toy_options : LogOptions := mkLogOptions "" 10 2.
Definition toy_slots : gmap nat logfile := {[0 := mkLogfile "first." 0]}.
Definition toy_entries : gmap nat (list string) := {[0 := ["first."]]}.
Definition toy_ops : list log_op := [OpWrite "second"; OpSync; OpWrite "third."].

Lemma toy_facts : entries_of toy_slots toy_entries ∧ generations_synced toy_slots.
Proof.
  split.
  - intros i. unfold toy_slots, toy_entries. destruct (decide (i = 0)) as [->|Hi]; [by vm_compute|].
    by rewrite !lookup_singleton_ne.
  - intros i f. unfold toy_slots. by intros [<- _]%lookup_singleton_Some.
Qed.

Lemma log_journal_witness : ∃ w rs w', LogOpen toy_options toy_slots [LogOk; LogOk; LogOk; LogFail] = Ok w ∧
  log_run 10 2 toy_ops w = (rs, w') ∧ snd <$> rs = [false; true] ∧
  ∃ E' dropped pieces, entries_of (lw_slots w') E' ∧ Forall2 landed rs pieces ∧
    journal toy_entries 2 ++ concat pieces = dropped ++ journal E' 2.
Proof.
  destruct (LogOpen toy_options toy_slots [LogOk; LogOk; LogOk; LogFail]) as [w|] eqn:Ew; [|by vm_compute in Ew].
  destruct (log_run 10 2 toy_ops w) as [rs w'] eqn:Er. exists w, rs, w'. split; [done|]. split; [done|]. split.
  { vm_compute in Ew. injection Ew as <-. vm_compute in Er. by injection Er as <- <-. }
  destruct toy_facts. eapply (log_journal toy_options toy_slots [LogOk; LogOk; LogOk; LogFail] toy_entries toy_ops w rs w');
    [done|done|by vm_compute|done|done].
Defined.

Lemma log_bounded_witness : ∃ w rs w', LogOpen toy_options toy_slots [] = Ok w ∧ log_run 10 2 toy_ops w = (rs, w') ∧
  (medium_bytes (lw_slots w') 2 ≤ 30)%Z.
Proof.
  destruct (LogOpen toy_options toy_slots []) as [w|] eqn:Ew; [|by vm_compute in Ew].
  destruct (log_run 10 2 toy_ops w) as [rs w'] eqn:Er. exists w, rs, w'. split; [done|]. split; [done|].
  destruct toy_facts. eapply (log_bounded toy_options toy_slots [] toy_ops w rs w'); [done|done| |by repeat constructor|by vm_compute|done|done].
  intros i f. unfold toy_slots. by intros [_ <-]%lookup_singleton_Some.
Defined.

Lemma log_durable_witness : ∃ w rs w1 w2, LogOpen toy_options toy_slots [] = Ok w ∧ log_run 10 2 toy_ops w = (rs, w1) ∧
  LogSync w1 = (Ok tt, w2) ∧
  generations_synced (lw_slots w1) ∧ ∀ i f, lw_slots w2 !! i = Some f → lf_synced f = slen (lf_data f).
Proof.
  destruct (LogOpen toy_options toy_slots []) as [w|] eqn:Ew; [|by vm_compute in Ew].
  destruct (log_run 10 2 toy_ops w) as [rs w1] eqn:Er. destruct (LogSync w1) as [r w2] eqn:Es.
  assert (lw_file w1 ≠ None ∧ r = Ok tt) as [Hf ->].
  { vm_compute in Ew. injection Ew as <-. vm_compute in Er. injection Er as <- <-. vm_compute in Es. by injection Es as <- <-. }
  exists w, rs, w1, w2. split; [done|]. split; [done|]. split; [done|]. destruct toy_facts.
  eapply (log_durable toy_options toy_slots [] toy_entries toy_ops w rs w1 w2); [done|done|by vm_compute|done|done|done|done].
Defined.

(** * Cases *)

(** The manifest itself lies outside its own coverage, so the log may be opened
    on it. *)
Example manifest_accepted_as_log : checkLogPath ManifestPath = Ok tt ∧ checkLogPath "../log" = Err LogOutside ∧
  checkLogPath "C:/log" = Err LogColon ∧ checkLogPath "docker/registry/v2/log" = Err LogCovered ∧ checkLogPath DefaultPath = Ok tt.
Proof. by vm_compute. Qed.

Definition toy_log (faults : list lfault) : logWriter := mkLogWriter (Some Attached) 6 {[0 := mkLogfile "first." 0]} faults.

(** A rename that fails during a rotation closes the log for good: the records
    that follow are refused, while every [Sync] reports success. *)
Example failed_rotation_silent :
  let ops := [OpWrite "second"; OpWrite "third."; OpSync; OpWrite "fourth"] in
  let '(rs, w) := log_run 10 3 ops (toy_log [LogOk; LogOk; LogFail]) in
  snd <$> rs = [false; false; false] ∧ fst (LogSync w) = Ok tt ∧ lf_data <$> lw_slots w !! 0 = Some "first.".
Proof. by vm_compute. Qed.

(** Three generations and the log: four times the budget. *)
Example keep_three_holds_four :
  let '(_, w) := log_run 10 3 (OpWrite <$> ["bbbbbbbbbb"; "cccccccccc"; "dddddddddd"; "eeeeeeeeee"; "ffffffffff"]) (toy_log []) in
  medium_bytes (lw_slots w) 3 = 40%Z.
Proof. by vm_compute. Qed.
