(* ===== verification/ServerTls.v ===== *)
(** The certificate of the listener: what is served and reloaded
    (internal/netx/servertls.go), its replacement by an administrator
    (internal/tlsadmin/tlsadmin.go), and the two surfaces that offer it
    (internal/api/network.go, internal/ui/network_screen.go).

    Other programs write to the same file system: every call takes an event that
    says how much time passed, what others changed meanwhile and whether the call
    fails. *)

From S2P Require Import Prelude GoStrings FilePaths ConfigValues Config.
Open Scope Z_scope.

(** * Certificates, and the cryptography behind them *)

(** [tls.Certificate]: the chain, leaf first, and the private key. *)
Record tlsCertificate := mkTlsCertificate { tc_Certificate : list string; tc_PrivateKey : string }.
(** The public fields of [x509.Certificate]. *)
Record leafCert := mkLeaf {
  lc_Subject : string; lc_Issuer : string; lc_DNSNames : list string; lc_IPAddresses : list string;
  lc_NotBefore : Z; lc_NotAfter : Z }.

Class TlsLibrary : Type := {
  X509KeyPair : string → string → option tlsCertificate;
  ParseCertificate : string → option leafCert;
  sha256_hex : string → string;
  (** The certificate issued for these names and addresses, valid from and until. *)
  issue : list string → list string → Z → Z → option (string * string);
  ParseIP : string → option string;
  Hostname : option string;
  (** A pair that holds together has a leaf that parses. *)
  pair_leaf : ∀ c k tc, X509KeyPair c k = Some tc →
    ∃ der rest leaf, tc_Certificate tc = der :: rest ∧ ParseCertificate der = Some leaf;
  (** What is issued is such a pair, valid as long as asked. *)
  issue_pair : ∀ names ips from until c k, issue names ips from until = Some (c, k) →
    ∃ tc der rest leaf, X509KeyPair c k = Some tc ∧ tc_Certificate tc = der :: rest ∧
      ParseCertificate der = Some leaf ∧ lc_NotAfter leaf = until;
}.

(** * The file system *)

Record pfile := mkPfile { pf_data : string; pf_mod : Z; pf_mode : Z }.

(** What others do to a path. *)
Inductive fs_change := FsPut (path data : string) (mode : Z) | FsUnlink (path : string).
(** [fe_short]: how much of a failed write got through. *)
Record fs_event := mkFsEvent { fe_elapsed : Z; fe_changes : list fs_change; fe_fails : bool; fe_short : nat }.

(** [fileStamp]. *)
Record fileStamp := mkStamp { st_certMod : Z; st_keyMod : Z; st_certSize : Z; st_keySize : Z }.
#[export] Instance fileStamp_eq_dec : EqDecision fileStamp.
Proof. solve_decision. Defined.
Definition zeroStamp : fileStamp := mkStamp 0 0 0 0.

Record ServerCert := mkServerCert {
  sc_current : option tlsCertificate; sc_stamp : fileStamp; sc_digest : string;
  sc_certFile : string; sc_keyFile : string; sc_stateRoot : string; sc_selfSigned : bool }.

(** An audit record: its target, and whether it was a success. *)
Record certEvent := mkCertEvent { ce_actor : string; ce_target : string; ce_success : bool }.

(** The instance: the files, the clock, the temporary file being written (only the
    program that made it does), the ones that were left behind, the events to come,
    the listener (none over plain HTTP), the audit trail. *)
Record CertInstance := mkInstance {
  in_files : gmap string pfile; in_clock : Z; in_temp : option pfile; in_left : list pfile; in_script : list fs_event;
  in_cert : option ServerCert; in_trail : list certEvent }.

Inductive tls_error :=
  | TlsIO | ServerTLSError (source : string) | ReplaceNoPath | ReplaceEmpty | ReplaceTooLong | ReplacePair
  | ReplaceNoCertificate | ReplaceUnparsed | ReplaceExpired | ReplaceWrite (path : string) | NoDestination
  | NoCertificate | TlsPanic.

Definition tw (A : Type) : Type := CertInstance → res tls_error A * CertInstance.
#[export] Instance tw_ret : MRet tw := λ A a s, (Ok a, s).
#[export] Instance tw_bind : MBind tw := λ A B f m s,
  match m s with (Ok a, s) => f a s | (Err e, s) => (Err e, s) end.
Definition tw_fail {A} (e : tls_error) : tw A := λ s, (Err e, s).
Definition tw_try {A} (m : tw A) : tw (res tls_error A) := λ s, let '(r, s) := m s in (Ok r, s).
Definition tw_map_err {A} (f : tls_error → tls_error) (m : tw A) : tw A := λ s,
  match m s with (Ok a, s) => (Ok a, s) | (Err e, s) => (Err (f e), s) end.
Definition tw_get {A} (f : CertInstance → A) : tw A := λ s, (Ok (f s), s).
Definition tw_put (f : CertInstance → CertInstance) : tw unit := λ s, (Ok tt, f s).

Definition apply_change (now : Z) (c : fs_change) (m : gmap string pfile) : gmap string pfile :=
  match c with
  | FsPut p data mode => <[p := mkPfile data now mode]> m
  | FsUnlink p => delete p m
  end.
(** What happens before the next call, and how the call fares. *)
Definition next_event (s : CertInstance) : fs_event * CertInstance :=
  match in_script s with
  | [] => (mkFsEvent 1 [] false 0,
           mkInstance (in_files s) (in_clock s + 1) (in_temp s) (in_left s) [] (in_cert s) (in_trail s))
  | e :: script =>
      let now := in_clock s + fe_elapsed e in
      (e, mkInstance (fold_left (λ m c, apply_change now c m) (fe_changes e) (in_files s)) now (in_temp s) (in_left s) script
            (in_cert s) (in_trail s))
  end.
Definition fs_call {A} (k : CertInstance → res tls_error A * CertInstance) : tw A := λ s,
  let '(e, s) := next_event s in if fe_fails e then (Err TlsIO, s) else k s.

Definition with_pfiles (f : gmap string pfile → gmap string pfile) (s : CertInstance) : CertInstance :=
  mkInstance (f (in_files s)) (in_clock s) (in_temp s) (in_left s) (in_script s) (in_cert s) (in_trail s).
Definition with_temp (t : option pfile) (left : list pfile) (s : CertInstance) : CertInstance :=
  mkInstance (in_files s) (in_clock s) t (left ++ in_left s) (in_script s) (in_cert s) (in_trail s).
Definition with_cert (c : option ServerCert) (s : CertInstance) : CertInstance :=
  mkInstance (in_files s) (in_clock s) (in_temp s) (in_left s) (in_script s) c (in_trail s).
Definition with_trail (e : certEvent) (s : CertInstance) : CertInstance :=
  mkInstance (in_files s) (in_clock s) (in_temp s) (in_left s) (in_script s) (in_cert s) (in_trail s ++ [e]).

(** [os.Stat], [os.ReadFile] and [os.Chmod]. *)
Definition os_Stat (p : string) : tw pfile := fs_call (λ s,
  match in_files s !! p with Some f => (Ok f, s) | None => (Err TlsIO, s) end).
Definition os_ReadFile (p : string) : tw string := f ← os_Stat p; mret (pf_data f).
Definition os_Chmod (p : string) (mode : Z) : tw unit := fs_call (λ s,
  match in_files s !! p with
  | Some f => (Ok tt, with_pfiles (<[p := mkPfile (pf_data f) (pf_mod f) mode]>) s)
  | None => (Err TlsIO, s)
  end).
Definition fs_probe : tw unit := fs_call (λ s, (Ok tt, s)).

(** The temporary file a write goes through: created readable by its owner only,
    restricted, written, flushed, closed, renamed. *)
Definition on_temp (f : pfile → pfile) (s : CertInstance) : CertInstance := with_temp (f <$> in_temp s) [] s.
Definition CreateTemp : tw unit := fs_call (λ s, (Ok tt, with_temp (Some (mkPfile "" (in_clock s) 384)) [] s)).
Definition temp_Chmod (mode : Z) : tw unit := fs_call (λ s,
  (Ok tt, on_temp (λ t, mkPfile (pf_data t) (pf_mod t) mode) s)).
Definition temp_Write (data : string) : tw unit := λ s,
  let '(e, s) := next_event s in
  if fe_fails e
  then (Err TlsIO, on_temp (λ t, mkPfile (stake (fe_short e) data) (in_clock s) (pf_mode t)) s)
  else (Ok tt, on_temp (λ t, mkPfile data (in_clock s) (pf_mode t)) s).
Definition temp_Rename (p : string) : tw unit := fs_call (λ s,
  match in_temp s with
  | Some t => (Ok tt, with_temp None [] (with_pfiles (<[p := t]>) s))
  | None => (Err TlsIO, s)
  end).
Definition temp_Remove : tw unit := λ s,
  let '(e, s) := next_event s in
  if fe_fails e then (Err TlsIO, with_temp None (option_list (in_temp s)) s) else (Ok tt, with_temp None [] s).
(** A failure on the way removes the temporary file, as far as that works. *)
Definition or_remove {A} (m : tw A) : tw A := λ s,
  match m s with
  | (Ok a, s) => (Ok a, s)
  | (Err e, s) => (Err e, (temp_Remove s).2)
  end.

(** [secretfile.Write]. *)
Definition secret_Mode : Z := 384.
Definition secretfile_Write (p data : string) : tw unit :=
  _ ← fs_probe;
  _ ← CreateTemp;
  _ ← or_remove (
    _ ← temp_Chmod secret_Mode;
    _ ← temp_Write data;
    _ ← fs_probe;
    _ ← fs_probe;
    temp_Rename p);
  os_Chmod p secret_Mode.
(** [secretfile.MkdirAll]. *)
Definition secretfile_MkdirAll : tw unit := _ ← fs_probe; fs_probe.
(** [os.WriteFile], in place. *)
Definition os_WriteFile (p data : string) (mode : Z) : tw unit := λ s,
  let '(e, s) := next_event s in
  let mode := from_option pf_mode mode (in_files s !! p) in
  if fe_fails e
  then (Err TlsIO, with_pfiles (<[p := mkPfile (stake (fe_short e) data) (in_clock s) mode]>) s)
  else (Ok tt, with_pfiles (<[p := mkPfile data (in_clock s) mode]>) s).

(** * The listener (netx/servertls.go) *)

Definition selfSignedValidity : Z := 365 * 24 * 3600 * 1000000000.
Definition selfSignedDir : string := "tls".
Definition selfSignedCert : string := "self-signed.crt".
Definition selfSignedKey : string := "self-signed.key".
Definition adoptedCert : string := "server.crt".
Definition adoptedKey : string := "server.key".

(** [Fingerprint]: the digest in upper case, a colon between bytes. *)
Definition upper_byte (c : byte) : byte :=
  if is_lower c then ascii_of_nat (nat_of_ascii c - 32) else c.
Fixpoint colon_pairs (s : string) : string :=
  match s with
  | String a (String b "") => String a (String b "")
  | String a (String b s) => String a (String b (String ":" (colon_pairs s)))
  | s => s
  end.
Definition Fingerprint `{TlsLibrary} (der : string) : string := colon_pairs (map_bytes upper_byte (sha256_hex der)).

(** [stampOf]. *)
Definition stampOf (certFile keyFile : string) : tw fileStamp :=
  ci ← os_Stat certFile;
  ki ← os_Stat keyFile;
  mret (mkStamp (pf_mod ci) (pf_mod ki) (Z.of_nat (slen (pf_data ci))) (Z.of_nat (slen (pf_data ki)))).

(** [tls.LoadX509KeyPair]. *)
Definition LoadX509KeyPair `{TlsLibrary} (certFile keyFile : string) : tw tlsCertificate :=
  c ← os_ReadFile certFile;
  k ← os_ReadFile keyFile;
  match X509KeyPair c k with Some tc => mret tc | None => tw_fail TlsIO end.

(** [ServerCert.reload]: nothing of the listener changes on an error. *)
Definition load_pair `{TlsLibrary} (certFile keyFile : string) : tw (fileStamp * tlsCertificate * string) :=
  tw_map_err (λ _, ServerTLSError certFile) (
    stamp ← stampOf certFile keyFile;
    tc ← LoadX509KeyPair certFile keyFile;
    match tc_Certificate tc with
    | [] => tw_fail TlsIO
    | der :: _ => mret (stamp, tc, Fingerprint der)
    end).
Definition cert_reload `{TlsLibrary} (sc : ServerCert) : tw ServerCert :=
  '(stamp, tc, digest) ← load_pair (sc_certFile sc) (sc_keyFile sc);
  mret (mkServerCert (Some tc) stamp digest (sc_certFile sc) (sc_keyFile sc) (sc_stateRoot sc) (sc_selfSigned sc)).

(** [ServerCert.changed]. *)
Definition cert_changed (sc : ServerCert) : tw bool :=
  r ← tw_try (stampOf (sc_certFile sc) (sc_keyFile sc));
  mret (match r with Ok now => negb (bool_decide (now = sc_stamp sc)) | Err _ => false end).

(** [ServerCert.getCertificate]: what a handshake gets, and the listener after it. *)
Definition refresh `{TlsLibrary} (sc : ServerCert) : tw ServerCert :=
  if String.eqb (sc_certFile sc) "" then mret sc
  else
    changed ← cert_changed sc;
    if (changed : bool) then
      r ← tw_try (cert_reload sc);
      mret (match r with Ok sc' => sc' | Err _ => sc end)
    else mret sc.
Definition getCertificate `{TlsLibrary} : tw tlsCertificate := λ s,
  match in_cert s with
  | None => (Err NoCertificate, s)
  | Some sc =>
      match refresh sc s with
      | (Ok sc, s) =>
          let s := with_cert (Some sc) s in
          match sc_current sc with None => (Err NoCertificate, s) | Some tc => (Ok tc, s) end
      | (Err e, s) => (Err e, s)
      end
  end.

(** [ServerCert.Source]. *)
Definition cert_Source (sc : ServerCert) : string :=
  if sc_selfSigned sc then "self-signed (generated)" else sc_certFile sc.

(** [subjectNames]: the names and the addresses, each once. *)
Definition add_subject `{TlsLibrary} (acc : list string * list string) (h : string) : list string * list string :=
  if String.eqb h "" then acc
  else match ParseIP h with
       | Some ip => if bool_decide (ip ∈ acc.2) then acc else (acc.1, acc.2 ++ [ip])
       | None => if bool_decide (h ∈ acc.1) then acc else (acc.1 ++ [h], acc.2)
       end.
Definition subjectNames `{GoRuntime, TlsLibrary} (hosts : list string) : list string * list string :=
  fold_left add_subject ((trim_space <$> hosts) ++ option_list Hostname ++ ["localhost"; "127.0.0.1"; "::1"]) ([], []).

(** [generateSelfSigned]: [names[0]] panics when there is no name. *)
Definition generated : string := "the generated self-signed certificate".
Definition generateSelfSigned `{GoRuntime, TlsLibrary} (hosts : list string) : tw (string * string) := λ s,
  let '(names, ips) := subjectNames hosts in
  match names with
  | [] => (Err TlsPanic, s)
  | _ :: _ =>
      match issue names ips (in_clock s - 60 * 1000000000) (in_clock s + selfSignedValidity) with
      | Some p => (Ok p, s)
      | None => (Err (ServerTLSError generated), s)
      end
  end.

(** [loadPersistedSelfSigned]. *)
Definition loadPersistedSelfSigned `{TlsLibrary} (dir : string) : tw tlsCertificate :=
  tc ← LoadX509KeyPair (path_join dir selfSignedCert) (path_join dir selfSignedKey);
  match tc_Certificate tc with
  | [] => tw_fail TlsIO
  | der :: _ =>
      match ParseCertificate der with
      | None => tw_fail TlsIO
      | Some leaf =>
          now ← tw_get in_clock;
          if lc_NotAfter leaf <? now then tw_fail TlsIO else mret tc
      end
  end.

(** [persistSelfSigned]. *)
Definition persistSelfSigned (dir certPEM keyPEM : string) : tw unit :=
  tw_map_err (λ _, ServerTLSError dir) (
    _ ← secretfile_MkdirAll;
    _ ← os_WriteFile (path_join dir selfSignedCert) certPEM 420;
    secretfile_Write (path_join dir selfSignedKey) keyPEM).

(** [newSelfSignedFrom]. *)
Definition newSelfSignedFrom `{TlsLibrary} (tc : tlsCertificate) (stateRoot : string) : tw ServerCert :=
  match tc_Certificate tc with
  | [] => tw_fail TlsPanic
  | der :: _ => mret (mkServerCert (Some tc) zeroStamp (Fingerprint der) "" "" stateRoot true)
  end.

(** [newSelfSigned]. *)
Definition newSelfSigned `{GoRuntime, TlsLibrary} (hosts : list string) (stateRoot : string) : tw ServerCert :=
  let dir := if String.eqb stateRoot "" then "" else path_join stateRoot selfSignedDir in
  r ← tw_try (if String.eqb dir "" then tw_fail TlsIO else loadPersistedSelfSigned dir);
  match r with
  | Ok tc => newSelfSignedFrom tc stateRoot
  | Err _ =>
      '(certPEM, keyPEM) ← generateSelfSigned hosts;
      tc ← (match X509KeyPair certPEM keyPEM with
              | Some tc => mret tc
              | None => tw_fail (ServerTLSError generated)
              end : tw tlsCertificate);
      _ ← (if String.eqb dir "" then mret tt else persistSelfSigned dir certPEM keyPEM);
      newSelfSignedFrom tc stateRoot
  end.

(** [NewServerCert], and the start of an instance that serves TLS
    (cli/serve.go). *)
Definition NewServerCert `{GoRuntime, TlsLibrary} (cfg : cfgServerTLS) (stateRoot : string) : tw ServerCert :=
  if String.eqb (tl_CertFile cfg) "" then newSelfSigned (tl_Hosts cfg) stateRoot
  else cert_reload (mkServerCert None zeroStamp "" (tl_CertFile cfg) (tl_KeyFile cfg) stateRoot false).
Definition start_listener `{GoRuntime, TlsLibrary} (cfg : cfgServerTLS) (stateRoot : string) : tw unit :=
  if tls_Serves cfg then
    cert ← NewServerCert cfg stateRoot;
    tw_put (with_cert (Some cert))
  else tw_put (with_cert None).

(** [ServerCert.Destination]. *)
Definition cert_Destination (sc : ServerCert) : option (string * string) :=
  if negb (String.eqb (sc_certFile sc) "") then Some (sc_certFile sc, sc_keyFile sc)
  else if String.eqb (sc_stateRoot sc) "" then None
  else let dir := path_join (sc_stateRoot sc) selfSignedDir in
       Some (path_join dir adoptedCert, path_join dir adoptedKey).

(** [ServerCert.Adopt]: the paths move before the pair is read. *)
Definition Adopt `{TlsLibrary} : tw unit := λ s,
  match in_cert s with
  | None => (Err NoCertificate, s)
  | Some sc =>
      match cert_Destination sc with
      | None => (Err (ServerTLSError "the state directory"), s)
      | Some (c, k) =>
          let sc := mkServerCert (sc_current sc) (sc_stamp sc) (sc_digest sc) c k (sc_stateRoot sc) (sc_selfSigned sc) in
          match cert_reload sc (with_cert (Some sc) s) with
          | (Ok sc, s) =>
              (Ok tt, with_cert (Some (mkServerCert (sc_current sc) (sc_stamp sc) (sc_digest sc) (sc_certFile sc) (sc_keyFile sc)
                                         (sc_stateRoot sc) false)) s)
          | (Err e, s) => (Err e, s)
          end
      end
  end.

(** * Administration (tlsadmin/tlsadmin.go) *)

Definition MaxPEMBytes : Z := Z.shiftl 1 20.

Record Certificate := mkCertificate {
  cr_SelfSigned : bool; cr_Source : string; cr_Fingerprint : string; cr_Subject : string; cr_Issuer : string;
  cr_DNSNames : list string; cr_IPAddresses : list string; cr_NotBefore : Z; cr_NotAfter : Z }.
Definition ExpiredAt (now : Z) (c : Certificate) : bool := cr_NotAfter c <? now.

(** [describeLeaf], with the fields its callers set. *)
Definition describeLeaf (leaf : leafCert) (selfSigned : bool) (source fingerprint : string) : Certificate :=
  mkCertificate selfSigned source fingerprint (lc_Subject leaf) (lc_Issuer leaf) (lc_DNSNames leaf) (lc_IPAddresses leaf)
    (lc_NotBefore leaf) (lc_NotAfter leaf).

(** [Describe]: nothing over plain HTTP. *)
Definition Describe `{TlsLibrary} : tw (option Certificate) := λ s,
  match in_cert s with
  | None => (Ok None, s)
  | Some _ =>
      match getCertificate s with
      | (r, s) =>
          match in_cert s with
          | None => (Err NoCertificate, s)
          | Some sc =>
              let failed := Err (ServerTLSError (cert_Source sc)) in
              match r with
              | Err _ => (failed, s)
              | Ok tc =>
                  match tc_Certificate tc with
                  | [] => (failed, s)
                  | der :: _ =>
                      match ParseCertificate der with
                      | None => (failed, s)
                      | Some leaf => (Ok (Some (describeLeaf leaf (sc_selfSigned sc) (cert_Source sc) (sc_digest sc))), s)
                      end
                  end
              end
          end
      end
  end.

(** [writePEM]: the mode of a file that is there stays. *)
Definition writePEM (p data : string) (fallback : Z) : tw unit :=
  r ← tw_try (os_Stat p);
  let mode := match r with Ok f => pf_mode f | Err _ => fallback end in
  tw_map_err (λ _, ReplaceWrite p) (
    _ ← CreateTemp;
    _ ← or_remove (
      _ ← temp_Chmod mode;
      _ ← temp_Write data;
      _ ← fs_probe;
      _ ← fs_probe;
      temp_Rename p);
    _ ← tw_try fs_probe;
    mret tt).

(** [writeKeyPEM]. *)
Definition writeKeyPEM (p data : string) : tw unit := tw_map_err (λ _, ReplaceWrite p) (secretfile_Write p data).

(** [Replace]: what is checked before anything is written, and the writes. *)
Definition check_pair `{TlsLibrary} (certFile keyFile certPEM keyPEM : string) (now : Z) : res tls_error (string * leafCert) :=
  if String.eqb certFile "" || String.eqb keyFile "" then Err ReplaceNoPath
  else if String.eqb certPEM "" || String.eqb keyPEM "" then Err ReplaceEmpty
  else if (MaxPEMBytes <? Z.of_nat (slen certPEM)) || (MaxPEMBytes <? Z.of_nat (slen keyPEM)) then Err ReplaceTooLong
  else match X509KeyPair certPEM keyPEM with
       | None => Err ReplacePair
       | Some tc =>
           match tc_Certificate tc with
           | [] => Err ReplaceNoCertificate
           | der :: _ =>
               match ParseCertificate der with
               | None => Err ReplaceUnparsed
               | Some leaf => if lc_NotAfter leaf <? now then Err ReplaceExpired else Ok (der, leaf)
               end
           end
       end.
Definition Replace `{TlsLibrary} (certFile keyFile certPEM keyPEM : string) (now : Z) : tw Certificate :=
  match check_pair certFile keyFile certPEM keyPEM now with
  | Err e => tw_fail e
  | Ok (der, leaf) =>
      _ ← writePEM certFile certPEM 420;
      _ ← writeKeyPEM keyFile keyPEM;
      mret (describeLeaf leaf false certFile (Fingerprint der))
  end.

(** * The surfaces *)

(** The API (api/network.go) is given the configured paths at startup.  The outbound
    posture both surfaces also show is [Egress.DescribeEgress]. *)
Record networkResponse := mkNetworkResponse {
  nr_TLS : bool; nr_Certificate : option Certificate; nr_CertFile : string; nr_KeyFile : string; nr_Replaceable : bool }.

Definition api_network_get `{TlsLibrary} (cfg : cfgServerTLS) : tw networkResponse :=
  tls ← tw_get (λ s, bool_decide (is_Some (in_cert s)));
  cert ← Describe;
  mret (mkNetworkResponse tls cert (tl_CertFile cfg) (tl_KeyFile cfg)
    (tls && negb (String.eqb (tl_CertFile cfg) "") && negb (String.eqb (tl_KeyFile cfg) ""))).

(** [networkAPI.replace], of a body that decodes or not. *)
Definition api_network_replace `{TlsLibrary} (cfg : cfgServerTLS) (actor : string) (body : option (string * string)) :
    tw Certificate := λ s,
  match body with
  | None => (Err ReplaceEmpty, with_trail (mkCertEvent actor "" false) s)
  | Some (certPEM, keyPEM) =>
      match Replace (tl_CertFile cfg) (tl_KeyFile cfg) certPEM keyPEM (in_clock s) s with
      | (Err e, s) => (Err e, with_trail (mkCertEvent actor "" false) s)
      | (Ok cert, s) => (Ok cert, with_trail (mkCertEvent actor (cr_Fingerprint cert) true) s)
      end
  end.

(** The screen (ui/network_screen.go). *)
Definition certDestination (s : CertInstance) : option (string * string) := in_cert s ≫= cert_Destination.

Record certView := mkCertView { vw_cert : Certificate; vw_Expired : bool; vw_ExpiringSoon : bool; vw_DaysLeft : Z }.
Definition expiryWarning : Z := 30 * 24 * 3600 * 1000000000.
(** [decorateCert]: integer division truncates. *)
Definition decorateCert (now : Z) (c : Certificate) : certView :=
  let left := cr_NotAfter c - now in
  mkCertView c (ExpiredAt now c) ((0 <? left) && (left <=? expiryWarning)) (Z.quot left (24 * 3600 * 1000000000)).

Record networkData := mkNetworkData {
  nd_Serving : bool; nd_Cert : option certView; nd_Replaceable : bool; nd_CertFile : string; nd_KeyFile : string;
  nd_error : option tls_error }.
Definition networkScreenData `{TlsLibrary} : tw networkData := λ s,
  let dest := certDestination s in
  let serving := bool_decide (is_Some (in_cert s)) in
  let data cert err := mkNetworkData serving cert (bool_decide (is_Some dest)) (from_option fst "" dest) (from_option snd "" dest) err in
  match Describe s with
  | (Err e, s) => (Ok (data None (Some e)), s)
  | (Ok None, s) => (Ok (data None None), s)
  | (Ok (Some c), s) => (Ok (data (Some (decorateCert (in_clock s) c)) None), s)
  end.

(** [networkRefusal]: the refusal is audited against the certificate served, and
    the screen shown with its error or that of reading the certificate. *)
Definition networkRefusal `{TlsLibrary} (actor : string) (e : tls_error) : tw networkData := λ s,
  let s := with_trail (mkCertEvent actor (from_option sc_digest "" (in_cert s)) false) s in
  match networkScreenData s with
  | (Ok d, s) => (Err (default e (nd_error d)), s)
  | (Err e, s) => (Err e, s)
  end.

(** [readUpload] and [readCertPair]: each document is cut one byte past its bound. *)
Definition readUpload (doc : option string) : option string := stake (S (Z.to_nat MaxPEMBytes)) <$> doc.
Definition readCertPair (form : option (option string * option string)) : option (string * string) :=
  '(c, k) ← form; c ← readUpload c; k ← readUpload k; Some (c, k).

(** [adminNetworkCertificate]: the toast names the fingerprint. *)
Definition adminNetworkCertificate `{TlsLibrary} (actor : string) (form : option (option string * option string)) :
    tw (networkData * string) := λ s,
  let refuse e s := match networkRefusal actor e s with (Ok _, s) => (Err e, s) | (Err e, s) => (Err e, s) end in
  match readCertPair form with
  | None => refuse ReplaceEmpty s
  | Some (certPEM, keyPEM) =>
      match certDestination s with
      | None => refuse NoDestination s
      | Some (certPath, keyPath) =>
          match Replace certPath keyPath certPEM keyPEM (in_clock s) s with
          | (Err e, s) => refuse e s
          | (Ok cert, s) =>
              match Adopt s with
              | (Err e, s) => refuse e s
              | (Ok _, s) =>
                  let s := with_trail (mkCertEvent actor (cr_Fingerprint cert) true) s in
                  match networkScreenData s with
                  | (Ok d, s) => (Ok (d, cr_Fingerprint cert), s)
                  | (Err e, s) => (Err e, s)
                  end
              end
          end
      end
  end.
