(* ===== verification/ServerTlsFacts.v ===== *)
(** Facts on the listener's certificate: how the files evolve under the program and
    under others, what a write leaves, and the invariant of the listener. *)

From S2P Require Import Prelude GoStrings MediaPaths FilePaths ConfigValues Config ServerTls.
Open Scope Z_scope.

(** * How the files evolve *)

(** Time passes between any two calls. *)
Definition ticking (s : CertInstance) : Prop := Forall (λ e, 1 ≤ fe_elapsed e) (in_script s).

Definition change_path (c : fs_change) : string := match c with FsPut p _ _ => p | FsUnlink p => p end.
(** Others leave these paths alone. *)
Definition undisturbed (P : gset string) (s : CertInstance) : Prop :=
  Forall (λ e, Forall (λ c, change_path c ∉ P) (fe_changes e)) (in_script s).

Definition same_content (f g : pfile) : Prop := pf_data f = pf_data g ∧ pf_mod f = pf_mod g.

(** From [s0] to [s]: a file has the content it had, or a stamp from later. *)
Record evolves (U P : gset string) (s0 s : CertInstance) : Prop := {
  ev_ticking : ticking s;
  ev_protects : P ⊆ U;
  ev_undisturbed : undisturbed U s;
  ev_clock : in_clock s0 ≤ in_clock s;
  ev_files : ∀ p f, in_files s !! p = Some f →
    (∃ f0, in_files s0 !! p = Some f0 ∧ same_content f f0) ∨ in_clock s0 < pf_mod f ≤ in_clock s;
  ev_temp : ∀ t, in_temp s = Some t → in_clock s0 < pf_mod t ≤ in_clock s;
  ev_protected : ∀ p, p ∈ P → in_files s !! p = in_files s0 !! p;
  ev_cert : in_cert s = in_cert s0;
  ev_trail : in_trail s = in_trail s0;
}.

(** A computation that only lets the files evolve. *)
Definition keeps {A} (U P : gset string) (m : tw A) : Prop := ∀ s0 s, evolves U P s0 s → evolves U P s0 (m s).2.

Lemma changes_lookup now cs p f : ∀ m, fold_left (λ m c, apply_change now c m) cs m !! p = Some f →
  m !! p = Some f ∨ pf_mod f = now.
Proof.
  induction cs as [|c cs IH]; intros m; cbn; [by left|]. intros [Hm| ->]%IH; [|by right].
  destruct c as [q data mode|q]; cbn in Hm.
  - apply lookup_insert_Some in Hm as [[_ <-]|[_ Hm]]; [by right|by left].
  - apply lookup_delete_Some in Hm as [_ Hm]. by left.
Qed.

Lemma changes_protected now cs p : Forall (λ c, change_path c ≠ p) cs →
  ∀ m, fold_left (λ m c, apply_change now c m) cs m !! p = m !! p.
Proof.
  induction 1 as [|c cs Hc _ IH]; intros m; cbn; [done|]. rewrite IH.
  destruct c; cbn in *; [by rewrite lookup_insert_ne|by rewrite lookup_delete_ne].
Qed.

Lemma next_event_evolves U P s0 s e s' : evolves U P s0 s → next_event s = (e, s') →
  evolves U P s0 s' ∧ in_clock s < in_clock s' ∧ in_temp s' = in_temp s ∧ in_script s' = tail (in_script s) ∧
  (in_script s = [] → in_files s' = in_files s ∧ fe_fails e = false).
Proof.
  intros [Ht Hsub Hu Hc Hf Hm Hp Hce Htr]. unfold next_event. destruct (in_script s) as [|ev l] eqn:Es; intros Hn; injection Hn as <- <-.
  - split; [split|]; cbn; try done; try (by constructor); [lia| | |split_and!; (lia || done)].
    + intros p f H. destruct (Hf p f H) as [?|?]; [by left|right; lia].
    + intros t H. specialize (Hm t H). lia.
  - unfold ticking, undisturbed in Ht, Hu. rewrite Es in Ht, Hu. apply Forall_cons in Ht as [Ht1 Ht2]. apply Forall_cons in Hu as [Hu1 Hu2].
    split; [split|]; cbn; try done; [lia| | | |split_and!; (lia || done)].
    + intros p f H. apply changes_lookup in H as [H| ->]; [|right; lia]. destruct (Hf p f H) as [?|?]; [by left|right; lia].
    + intros t H. specialize (Hm t H). lia.
    + intros p H. rewrite changes_protected; [by apply Hp|]. eapply Forall_impl; [exact Hu1|]. cbn. set_solver.
Qed.

Create HintDb tls discriminated.

Lemma evo_call {A} U P (k : CertInstance → res tls_error A * CertInstance) :
  (∀ s0 s, evolves U P s0 s → in_clock s0 < in_clock s → evolves U P s0 (k s).2) → keeps U P (fs_call k).
Proof.
  intros Hk s0 s Hs. unfold fs_call. destruct (next_event s) as [e s'] eqn:E.
  destruct (next_event_evolves _ _ _ _ _ _ Hs E) as (Hs' & Hc & _). destruct (fe_fails e); [done|]. apply Hk; [done|].
  pose proof (ev_clock _ _ _ _ Hs). lia.
Qed.

Lemma evo_bind {A B} U P (m : tw A) (f : A → tw B) : keeps U P m → (∀ a, keeps U P (f a)) → keeps U P (m ≫= f).
Proof.
  intros Hm Hf s0 s Hs. unfold mbind, tw_bind. specialize (Hm s0 s Hs). destruct (m s) as [[a|e] s']; [by apply Hf|done].
Qed.
Lemma evo_ret {A} U P (a : A) : keeps U P (mret a).
Proof. by intros s0 s Hs. Qed.
Lemma evo_fail {A} U P e : keeps U P (@tw_fail A e).
Proof. by intros s0 s Hs. Qed.
Lemma evo_get {A} U P (f : CertInstance → A) : keeps U P (tw_get f).
Proof. by intros s0 s Hs. Qed.
Lemma evo_try {A} U P (m : tw A) : keeps U P m → keeps U P (tw_try m).
Proof. intros Hm s0 s Hs. unfold tw_try. specialize (Hm s0 s Hs). by destruct (m s). Qed.
Lemma evo_map_err {A} U P f (m : tw A) : keeps U P m → keeps U P (tw_map_err f m).
Proof. intros Hm s0 s Hs. unfold tw_map_err. specialize (Hm s0 s Hs). by destruct (m s) as [[]]. Qed.
#[export] Hint Resolve evo_bind evo_ret evo_fail evo_get evo_try evo_map_err : tls.

Lemma evo_Stat U P p : keeps U P (os_Stat p).
Proof. apply evo_call. intros s0 s Hs _. by destruct (in_files s !! p). Qed.
Lemma evo_probe U P : keeps U P fs_probe.
Proof. by apply evo_call. Qed.
#[export] Hint Resolve evo_Stat evo_probe : tls.

(** Writing a file whose stamp is from later than [s0], or only its mode. *)
Lemma evolves_put U P s0 s p f : evolves U P s0 s → p ∉ P →
  (in_clock s0 < pf_mod f ≤ in_clock s ∨ ∃ g, in_files s !! p = Some g ∧ same_content f g) →
  evolves U P s0 (with_pfiles (<[p := f]>) s).
Proof.
  intros [Ht Hsub Hu Hc Hf Hm Hp Hce Htr] HP Hnew. split; cbn; try done.
  - intros q g. rewrite lookup_insert_Some. intros [[<- <-]|[_ H]]; [|by apply Hf].
    destruct Hnew as [?|(g & Hg & Hd & Hmod)]; [by right|]. destruct (Hf p g Hg) as [(f0 & Hf0 & Hd0 & Hm0)|?].
    + left. exists f0. split; [done|]. split; congruence.
    + right. by rewrite Hmod.
  - intros q Hq. rewrite lookup_insert_ne by (by intros ->). by apply Hp.
Qed.

Lemma evolves_temp U P s0 s t l : evolves U P s0 s → (∀ t', t = Some t' → in_clock s0 < pf_mod t' ≤ in_clock s) →
  evolves U P s0 (with_temp t l s).
Proof. intros [Ht Hsub Hu Hc Hf Hm Hp Hce Htr] Hnew. by split. Qed.

Lemma evo_Chmod U P p mode : p ∉ P → keeps U P (os_Chmod p mode).
Proof.
  intros HP. apply evo_call. intros s0 s Hs _. destruct (in_files s !! p) as [f|] eqn:E; [|done]. cbn.
  apply evolves_put; [done|done|]. right. by exists f.
Qed.
Lemma evo_CreateTemp U P : keeps U P CreateTemp.
Proof. apply evo_call. intros s0 s Hs Hc. apply evolves_temp; [done|]. intros t' [= <-]. cbn. lia. Qed.
Lemma evo_on_temp U P s0 s f : evolves U P s0 s → in_clock s0 < in_clock s →
  (∀ t, pf_mod (f t) = pf_mod t ∨ pf_mod (f t) = in_clock s) → evolves U P s0 (on_temp f s).
Proof.
  intros Hs Hc Hf. apply evolves_temp; [done|]. intros t' H. apply fmap_Some in H as (t & Ht & ->).
  pose proof (ev_temp _ _ _ _ Hs t Ht). destruct (Hf t) as [->| ->]; lia.
Qed.
Lemma evo_temp_Chmod U P mode : keeps U P (temp_Chmod mode).
Proof. apply evo_call. intros s0 s Hs Hc. apply evo_on_temp; [done|done|]. by left. Qed.
Lemma evo_temp_Write U P data : keeps U P (temp_Write data).
Proof.
  intros s0 s Hs. unfold temp_Write. destruct (next_event s) as [e s'] eqn:E.
  destruct (next_event_evolves _ _ _ _ _ _ Hs E) as (Hs' & Hc & _). pose proof (ev_clock _ _ _ _ Hs).
  destruct (fe_fails e); apply evo_on_temp; auto; lia.
Qed.
Lemma evo_temp_Rename U P p : p ∉ P → keeps U P (temp_Rename p).
Proof.
  intros HP. apply evo_call. intros s0 s Hs Hc. destruct (in_temp s) as [t|] eqn:E; [|done]. cbn.
  apply evolves_temp; [|done]. apply evolves_put; [done|done|]. left. by apply (ev_temp _ _ _ _ Hs).
Qed.
Lemma evo_temp_Remove U P : keeps U P temp_Remove.
Proof.
  intros s0 s Hs. unfold temp_Remove. destruct (next_event s) as [e s'] eqn:E.
  destruct (next_event_evolves _ _ _ _ _ _ Hs E) as (Hs' & Hc & _). destruct (fe_fails e); by apply evolves_temp.
Qed.
Lemma evo_or_remove {A} U P (m : tw A) : keeps U P m → keeps U P (or_remove m).
Proof.
  intros Hm s0 s Hs. unfold or_remove. specialize (Hm s0 s Hs). destruct (m s) as [[]]; [done|]. by apply evo_temp_Remove.
Qed.
Lemma evo_WriteFile U P p data mode : p ∉ P → keeps U P (os_WriteFile p data mode).
Proof.
  intros HP s0 s Hs. unfold os_WriteFile. destruct (next_event s) as [e s'] eqn:E.
  destruct (next_event_evolves _ _ _ _ _ _ Hs E) as (Hs' & Hc & _). pose proof (ev_clock _ _ _ _ Hs).
  destruct (fe_fails e); apply evolves_put; auto; left; cbn; lia.
Qed.
#[export] Hint Resolve evo_Chmod evo_CreateTemp evo_temp_Chmod evo_temp_Write evo_temp_Rename evo_temp_Remove
  evo_or_remove evo_WriteFile : tls.

(** No temporary file stays in hand. *)
Definition tidy {A} (m : tw A) : Prop := ∀ s, in_temp s = None → in_temp (m s).2 = None.

Lemma next_event_temp s : in_temp (next_event s).2 = in_temp s.
Proof. unfold next_event. by destruct (in_script s). Qed.

Lemma tidy_call {A} (k : CertInstance → res tls_error A * CertInstance) : tidy k → tidy (fs_call k).
Proof.
  intros Hk s Hs. unfold fs_call. pose proof (next_event_temp s) as Hn. destruct (next_event s) as [e s']. cbn in Hn.
  destruct (fe_fails e); [cbn; congruence|]. apply Hk. by rewrite Hn.
Qed.
Lemma tidy_bind {A B} (m : tw A) (f : A → tw B) : tidy m → (∀ a, tidy (f a)) → tidy (m ≫= f).
Proof. intros Hm Hf s Hs. unfold mbind, tw_bind. specialize (Hm s Hs). destruct (m s) as [[a|e] s']; [by apply Hf|done]. Qed.
Lemma tidy_ret {A} (a : A) : tidy (mret a).
Proof. by intros s. Qed.
Lemma tidy_fail {A} e : tidy (@tw_fail A e).
Proof. by intros s. Qed.
Lemma tidy_get {A} (f : CertInstance → A) : tidy (tw_get f).
Proof. by intros s. Qed.
Lemma tidy_try {A} (m : tw A) : tidy m → tidy (tw_try m).
Proof. intros Hm s Hs. unfold tw_try. specialize (Hm s Hs). by destruct (m s). Qed.
Lemma tidy_map_err {A} f (m : tw A) : tidy m → tidy (tw_map_err f m).
Proof. intros Hm s Hs. unfold tw_map_err. specialize (Hm s Hs). by destruct (m s) as [[]]. Qed.
Lemma tidy_Stat p : tidy (os_Stat p).
Proof. apply tidy_call. intros s Hs. by destruct (in_files s !! p). Qed.
Lemma tidy_probe : tidy fs_probe.
Proof. apply tidy_call. by intros s Hs. Qed.
Lemma tidy_Chmod p mode : tidy (os_Chmod p mode).
Proof. apply tidy_call. intros s Hs. by destruct (in_files s !! p). Qed.
Lemma tidy_WriteFile p data mode : tidy (os_WriteFile p data mode).
Proof.
  intros s Hs. unfold os_WriteFile. pose proof (next_event_temp s) as Hn. destruct (next_event s) as [e s']. cbn in Hn.
  destruct (fe_fails e); cbn; congruence.
Qed.
(** A file that is renamed or removed at the end is not in hand. *)
Lemma tidy_temp {A} (m : tw A) : (∀ s, is_ok (m s).1 = true → in_temp (m s).2 = None) → tidy (_ ← CreateTemp; or_remove m).
Proof.
  intros Hm s Hs. unfold mbind, tw_bind, CreateTemp, fs_call. pose proof (next_event_temp s) as Hn.
  destruct (next_event s) as [e s1]. cbn in Hn. destruct (fe_fails e); [cbn; congruence|]. unfold or_remove.
  match goal with |- context [m ?x] => specialize (Hm x); destruct (m x) as [[a|err] s2] end; [by apply Hm|].
  unfold temp_Remove. destruct (next_event s2) as [e2 s3]. by destruct (fe_fails e2).
Qed.
Lemma bind_ends {A B} (m : tw A) (f : A → tw B) (Q : CertInstance → Prop) :
  (∀ a s, is_ok (f a s).1 = true → Q (f a s).2) → ∀ s, is_ok ((m ≫= f) s).1 = true → Q ((m ≫= f) s).2.
Proof. intros Hf s. unfold mbind, tw_bind. destruct (m s) as [[a|e] s']; [apply Hf|done]. Qed.
Lemma Rename_ends p s : is_ok (temp_Rename p s).1 = true → in_temp (temp_Rename p s).2 = None.
Proof.
  unfold temp_Rename, fs_call. destruct (next_event s) as [e s']. destruct (fe_fails e); [done|].
  by destruct (in_temp s') as [t|].
Qed.
#[export] Hint Resolve tidy_bind tidy_ret tidy_fail tidy_get tidy_try tidy_map_err tidy_Stat tidy_probe tidy_Chmod tidy_WriteFile : tls.

(** The temporary file of both writers. *)
Abbreviation temp_body mode data p :=
  (_ ← temp_Chmod mode; _ ← temp_Write data; _ ← fs_probe; _ ← fs_probe; temp_Rename p) (only parsing).
Lemma tidy_body mode data p : tidy (_ ← CreateTemp; or_remove (temp_body mode data p)).
Proof. apply tidy_temp. repeat (apply (bind_ends _ _ (λ s, in_temp s = None)); intros _). apply Rename_ends. Qed.

Lemma bind_assoc {A B C} (m : tw A) (f : A → tw B) (g : B → tw C) s : ((m ≫= f) ≫= g) s = (m ≫= (λ a, f a ≫= g)) s.
Proof. unfold mbind, tw_bind. by destruct (m s) as [[]]. Qed.

Ltac tls := eauto 30 with tls.

Lemma evo_writePEM U P p data mode : p ∉ P → keeps U P (writePEM p data mode).
Proof. intros HP. unfold writePEM. apply evo_bind; [tls|]. intros r. cbn beta zeta. tls. Qed.
Lemma tidy_writePEM p data mode : tidy (writePEM p data mode).
Proof.
  unfold writePEM. apply tidy_bind; [tls|]. intros r. apply tidy_map_err. intros s Hs. rewrite <- bind_assoc.
  revert s Hs. apply tidy_bind; [apply tidy_body|]. tls.
Qed.
Lemma evo_secret_Write U P p data : p ∉ P → keeps U P (secretfile_Write p data).
Proof. intros HP. unfold secretfile_Write. tls. Qed.
Lemma tidy_secret_Write p data : tidy (secretfile_Write p data).
Proof.
  unfold secretfile_Write. apply tidy_bind; [tls|]. intros _ s Hs. rewrite <- bind_assoc. revert s Hs.
  apply tidy_bind; [apply tidy_body|]. tls.
Qed.
#[export] Hint Resolve evo_writePEM tidy_writePEM evo_secret_Write tidy_secret_Write : tls.

(** * What a write leaves *)

Lemma undisturbed_mono P Q s : Q ⊆ P → undisturbed P s → undisturbed Q s.
Proof.
  intros HPQ. unfold undisturbed. intros Hu. eapply Forall_impl; [exact Hu|]. intros e He. eapply Forall_impl; [exact He|]. set_solver.
Qed.

(** Nothing is done to these paths when the computation fails. *)
Definition spares {A} (U P : gset string) (m : tw A) : Prop := ∀ s0 s e s', evolves U P s0 s → m s = (Err e, s') → evolves U P s0 s'.

Lemma evo_spares {A} U P (m : tw A) : keeps U P m → spares U P m.
Proof. intros Hm s0 s e s' Hs E. specialize (Hm s0 s Hs). by rewrite E in Hm. Qed.
Lemma spares_bind {A B} U P (m : tw A) (f : A → tw B) : keeps U P m → (∀ a, spares U P (f a)) → spares U P (m ≫= f).
Proof.
  intros Hm Hf s0 s e s' Hs. unfold mbind, tw_bind. specialize (Hm s0 s Hs). destruct (m s) as [[a|e'] s1]; [by apply Hf|].
  by intros [= _ <-].
Qed.
Lemma spares_Rename U P p : spares U P (temp_Rename p).
Proof.
  intros s0 s e s' Hs. unfold temp_Rename, fs_call. destruct (next_event s) as [ev s1] eqn:E.
  destruct (next_event_evolves _ _ _ _ _ _ Hs E) as [He _]. destruct (fe_fails ev); [by intros [= _ <-]|].
  destruct (in_temp s1); [done|by intros [= _ <-]].
Qed.

Lemma bind_Ok {A B} (m : tw A) (f : A → tw B) s b s' : (m ≫= f) s = (Ok b, s') → ∃ a s1, m s = (Ok a, s1) ∧ f a s1 = (Ok b, s').
Proof. unfold mbind, tw_bind. destruct (m s) as [[a|e] s1]; [eauto|done]. Qed.

Lemma temp_Write_Ok data s u s' : temp_Write data s = (Ok u, s') → ∀ t, in_temp s = Some t →
  ∃ t', in_temp s' = Some t' ∧ pf_data t' = data ∧ pf_mode t' = pf_mode t.
Proof.
  unfold temp_Write. pose proof (next_event_temp s) as Hn. destruct (next_event s) as [e s1]. cbn in Hn.
  destruct (fe_fails e); [done|]. intros [= _ <-] t Ht. cbn. rewrite Hn, Ht. eexists. by split.
Qed.
Lemma temp_Chmod_Ok mode s u s' : temp_Chmod mode s = (Ok u, s') → ∀ t, in_temp s = Some t →
  ∃ t', in_temp s' = Some t' ∧ pf_mode t' = mode.
Proof.
  unfold temp_Chmod, fs_call. pose proof (next_event_temp s) as Hn. destruct (next_event s) as [e s1]. cbn in Hn.
  destruct (fe_fails e); [done|]. intros [= _ <-] t Ht. cbn. rewrite Hn, Ht. eexists. by split.
Qed.
Lemma probe_temp s u s' : fs_probe s = (Ok u, s') → in_temp s' = in_temp s.
Proof.
  unfold fs_probe, fs_call. pose proof (next_event_temp s) as Hn. destruct (next_event s) as [e s1]. cbn in Hn.
  destruct (fe_fails e); [done|]. by intros [= _ <-].
Qed.
Lemma CreateTemp_Ok s u s' : CreateTemp s = (Ok u, s') → is_Some (in_temp s').
Proof.
  unfold CreateTemp, fs_call. destruct (next_event s) as [e s1]. destruct (fe_fails e); [done|]. intros [= _ <-]. by eexists.
Qed.
Lemma Rename_Ok p s u s' : temp_Rename p s = (Ok u, s') → in_files s' !! p = in_temp s.
Proof.
  unfold temp_Rename, fs_call. pose proof (next_event_temp s) as Hn. destruct (next_event s) as [e s1]. cbn in Hn.
  destruct (fe_fails e); [done|]. rewrite <- Hn. destruct (in_temp s1); [|done]. intros [= _ <-]. cbn. by rewrite lookup_insert_eq.
Qed.

(** All of the data under the name, or the name as it was. *)
Lemma body_Ok mode data p s u s' : (_ ← CreateTemp; or_remove (temp_body mode data p)) s = (Ok u, s') →
  ∃ f, in_files s' !! p = Some f ∧ pf_data f = data ∧ pf_mode f = mode.
Proof.
  intros Hb. apply bind_Ok in Hb as ([] & s1 & [t1 H1]%CreateTemp_Ok & Hb).
  unfold or_remove in Hb. match type of Hb with context [match ?x with _ => _ end] => destruct x as [[a|e] s2] eqn:E end; [|done].
  injection Hb as _ <-. apply bind_Ok in E as (u2 & s3 & E2 & E). destruct (temp_Chmod_Ok _ _ _ _ E2 _ H1) as (t2 & H2 & M2).
  apply bind_Ok in E as (u3 & s4 & E3 & E). destruct (temp_Write_Ok _ _ _ _ E3 _ H2) as (t3 & H3 & D3 & M3).
  apply bind_Ok in E as (u4 & s5 & E4%probe_temp & E). apply bind_Ok in E as (u5 & s6 & E5%probe_temp & E).
  apply Rename_Ok in E. exists t3. split_and!; [congruence|done|congruence].
Qed.
Lemma spares_body U P mode data p : spares U P (_ ← CreateTemp; or_remove (temp_body mode data p)).
Proof.
  apply spares_bind; [tls|]. intros _. assert (spares U P (temp_body mode data p)) as Hb.
  { repeat (apply spares_bind; [tls|intros _]). apply spares_Rename. }
  intros s0 s e s' Hs. unfold or_remove. destruct (temp_body mode data p s) as [[a|err] s1] eqn:E; [done|].
  intros [= _ <-]. eapply evo_temp_Remove, Hb; done.
Qed.

Definition reads (s : CertInstance) (p data : string) : Prop := ∃ f, in_files s !! p = Some f ∧ pf_data f = data.

(** * The listener *)

(** Between two operations: no temporary file in hand, every stamp in the past. *)
Record at_rest (s : CertInstance) : Prop := {
  se_ticking : ticking s;
  se_temp : in_temp s = None;
  se_clock : 0 < in_clock s;
  se_files : ∀ p f, in_files s !! p = Some f → 0 < pf_mod f ≤ in_clock s;
}.

Lemma evolves_refl U P s : at_rest s → P ⊆ U → undisturbed U s → evolves U P s s.
Proof. intros [? Ht ? ?] ? ?. split; try done; [intros p f ?; left; by exists f|]. by rewrite Ht. Qed.
Lemma undisturbed_empty s : undisturbed ∅ s.
Proof. unfold undisturbed. apply Forall_forall. intros e _. apply Forall_forall. set_solver. Qed.

Lemma settled_evolves U P s0 s : at_rest s0 → evolves U P s0 s → in_temp s = None → at_rest s.
Proof.
  intros [? Ht ? Hf] [? ? ? ? Hf' ? ? ? ?] ?. split; [done|done|lia|]. intros p f H'.
  destruct (Hf' p f H') as [(f0 & H0 & _ & ->)|?]; [|lia]. specialize (Hf p f0 H0). lia.
Qed.

Lemma try_Ok {A} (m : tw A) s : (tw_try m s) = (Ok (m s).1, (m s).2).
Proof. unfold tw_try. by destruct (m s). Qed.

Lemma calm_run {A} (m : tw A) U s : keeps U ∅ m → tidy m → at_rest s → undisturbed U s →
  at_rest (m s).2 ∧ undisturbed U (m s).2.
Proof.
  intros Hk Ht Hs Hu. assert (evolves U ∅ s (m s).2) as He by (apply Hk, evolves_refl; [done|set_solver|done]). split.
  - eapply settled_evolves; [done|done|]. apply Ht, se_temp, Hs.
  - apply (ev_undisturbed _ _ _ _ He).
Qed.
Lemma calm_protected {A} (m : tw A) U p s : keeps U {[p]} m → p ∈ U → at_rest s → undisturbed U s →
  in_files (m s).2 !! p = in_files s !! p.
Proof.
  intros Hk HU Hs Hu. assert (evolves U {[p]} s (m s).2) as He by (apply Hk, evolves_refl; [done|set_solver|done]).
  apply (ev_protected _ _ _ _ He). set_solver.
Qed.

Lemma body_whole U mode data p s : p ∈ U → at_rest s → undisturbed U s →
  match (_ ← CreateTemp; or_remove (temp_body mode data p)) s with
  | (Ok _, s') => ∃ f, in_files s' !! p = Some f ∧ pf_data f = data ∧ pf_mode f = mode ∧ at_rest s' ∧ undisturbed U s'
  | (Err _, s') => in_files s' !! p = in_files s !! p
  end.
Proof.
  intros HU Hs Hu. assert (p ∉ (∅ : gset string)) as Hp by set_solver.
  destruct (calm_run (_ ← CreateTemp; or_remove (temp_body mode data p)) U s) as [Hs1 Hu1]; [tls|apply tidy_body|done|done|].
  destruct ((_ ← CreateTemp; or_remove (temp_body mode data p)) s) as [[u|e] s1] eqn:E.
  - destruct (body_Ok _ _ _ _ _ _ E) as (f & ? & ? & ?). by exists f.
  - eapply (ev_protected U {[p]} s); [|set_solver]. eapply spares_body; [|exact E]. apply evolves_refl; [done|set_solver|done].
Qed.

(** [writePEM] on a path others leave alone: all of it, or nothing. *)
Lemma writePEM_whole U p data mode s : p ∈ U → at_rest s → undisturbed U s →
  match writePEM p data mode s with
  | (Ok _, s') => reads s' p data
  | (Err _, s') => in_files s' !! p = in_files s !! p
  end.
Proof.
  intros HU Hs Hu. unfold writePEM, mbind at 1, tw_bind at 1. rewrite try_Ok.
  destruct (calm_run (os_Stat p) U s) as [Hs1 Hu1]; [tls|tls|done|done|].
  assert (in_files (os_Stat p s).2 !! p = in_files s !! p) as Hf1.
  { apply (calm_protected _ U); [tls|done|done|done]. }
  destruct (os_Stat p s) as [r s1]. cbn [fst snd] in Hs1, Hu1, Hf1 |- *. cbv zeta. unfold tw_map_err. rewrite <- bind_assoc.
  unfold mbind at 1, tw_bind at 1. set (mode' := match r with Ok f => pf_mode f | Err _ => mode end).
  pose proof (body_whole U mode' data p s1 HU Hs1 Hu1) as Hb.
  destruct ((_ ← CreateTemp; or_remove (temp_body mode' data p)) s1) as [[u|e] s2]; [|congruence].
  destruct Hb as (f & Hf & Hd & _ & Hs2 & Hu2). unfold mbind, tw_bind. rewrite try_Ok. cbn. exists f. split; [|done].
  rewrite (calm_protected _ U); [done|tls|done|done|done].
Qed.

(** [secretfile.Write] on such a path: all of it and only for its owner, or nothing;
    or, when only the last restriction failed, all of it all the same. *)
Lemma secret_Write_whole U p data s : p ∈ U → at_rest s → undisturbed U s →
  match secretfile_Write p data s with
  | (Ok _, s') => ∃ f, in_files s' !! p = Some f ∧ pf_data f = data ∧ pf_mode f = secret_Mode
  | (Err _, s') => in_files s' !! p = in_files s !! p ∨ reads s' p data
  end.
Proof.
  intros HU Hs Hu. unfold secretfile_Write, mbind at 1, tw_bind at 1.
  destruct (calm_run fs_probe U s) as [Hs1 Hu1]; [tls|tls|done|done|].
  assert (in_files (fs_probe s).2 !! p = in_files s !! p) as Hf1 by (apply (calm_protected _ U); [tls|done|done|done]).
  destruct (fs_probe s) as [[u|e] s1]; [|by left]. cbn [fst snd] in Hs1, Hu1, Hf1. rewrite <- bind_assoc.
  unfold mbind at 1, tw_bind at 1. pose proof (body_whole U secret_Mode data p s1 HU Hs1 Hu1) as Hb.
  destruct ((_ ← CreateTemp; or_remove (temp_body secret_Mode data p)) s1) as [[u'|e] s2]; [|left; congruence].
  destruct Hb as (f & Hf & Hd & Hm & Hs2 & Hu2). unfold os_Chmod, fs_call.
  assert (evolves U {[p]} s2 s2) as He2 by (apply evolves_refl; [done|set_solver|done]).
  destruct (next_event s2) as [ev s3] eqn:En. destruct (next_event_evolves _ _ _ _ _ _ He2 En) as [He3 _].
  assert (in_files s3 !! p = Some f) as Hf3 by (rewrite <- Hf; apply (ev_protected _ _ _ _ He3); set_solver).
  destruct (fe_fails ev); [right; by exists f|]. rewrite Hf3. cbn. eexists. by rewrite lookup_insert_eq.
Qed.

(** A computation between two such states. *)
Definition quiet {A} (m : tw A) : Prop := keeps ∅ ∅ m ∧ tidy m.
Lemma quiet_run {A} (m : tw A) s : quiet m → at_rest s → evolves ∅ ∅ s (m s).2 ∧ at_rest (m s).2.
Proof.
  intros [Hk Ht] Hs. assert (evolves ∅ ∅ s (m s).2) as He by (apply Hk, evolves_refl; [done|done|apply undisturbed_empty]).
  split; [done|]. eapply settled_evolves; [done|done|]. apply Ht, se_temp, Hs.
Qed.

Lemma map_err_Ok {A} g (m : tw A) s a s' : tw_map_err g m s = (Ok a, s') → m s = (Ok a, s').
Proof. unfold tw_map_err. by destruct (m s) as [[]]. Qed.
Lemma Stat_Ok p s f s' : os_Stat p s = (Ok f, s') → in_files s' !! p = Some f.
Proof.
  unfold os_Stat, fs_call. destruct (next_event s) as [e s1]. destruct (fe_fails e); [done|].
  destruct (in_files s1 !! p) eqn:E; [|done]. by intros [= <- <-].
Qed.

(** What was read at [p] while its stamp was [m]: it is still there if the stamp is. *)
Definition tracks (s : CertInstance) (p : string) (m : Z) (c : string) : Prop :=
  m ≤ in_clock s ∧ ∀ f, in_files s !! p = Some f → pf_mod f = m → pf_data f = c.

Lemma tracks_evolves U P s0 s p m c : evolves U P s0 s → tracks s0 p m c → tracks s p m c.
Proof.
  intros He [Hm Ht]. pose proof (ev_clock _ _ _ _ He). split; [lia|]. intros f Hf Hmod.
  destruct (ev_files _ _ _ _ He p f Hf) as [(f0 & Hf0 & -> & Hm0)|?]; [|lia]. apply Ht; [done|congruence].
Qed.

Lemma quiet_Stat p : quiet (os_Stat p).
Proof. split; tls. Qed.

(** Read after its stamp was taken, a file is tracked. *)
Lemma stat_then_read p s1 f1 f2 s2 m : at_rest s1 → in_files s1 !! p = Some f1 → evolves ∅ ∅ s1 s2 →
  in_files s2 !! p = Some f2 → m = pf_mod f1 → tracks s2 p m (pf_data f2).
Proof.
  intros Hs Hf1 He Hf2 ->. pose proof (se_files _ Hs p f1 Hf1). pose proof (ev_clock _ _ _ _ He). split; [lia|].
  intros f Hf Hm. congruence.
Qed.

Lemma evolves_trans U P s0 s1 s2 : evolves U P s0 s1 → evolves U P s1 s2 → at_rest s1 → evolves U P s0 s2.
Proof.
  intros H1 H2 Hs. pose proof (ev_clock _ _ _ _ H1). pose proof (ev_clock _ _ _ _ H2). split; try apply H2; [lia| | | | |].
  - intros p f Hf. destruct (ev_files _ _ _ _ H2 p f Hf) as [(f1 & Hf1 & Hd & Hm)|?]; [|right; lia].
    destruct (ev_files _ _ _ _ H1 p f1 Hf1) as [(f0 & Hf0 & Hd0 & Hm0)|?]; [|right; rewrite Hm; lia].
    left. exists f0. split; [done|]. split; congruence.
  - intros t Ht. pose proof (ev_temp _ _ _ _ H2 t Ht). lia.
  - intros p Hp. rewrite (ev_protected _ _ _ _ H2), (ev_protected _ _ _ _ H1); done.
  - rewrite (ev_cert _ _ _ _ H2). apply H1.
  - rewrite (ev_trail _ _ _ _ H2). apply H1.
Qed.

(** A joined path ends with the element joined to it. *)
Lemma path_join_last a seg : proper_seg seg → ∃ pre, path_join a seg = pre +:+ seg.
Proof.
  intros [(Hne & Hd & Hdd) Hs]. assert (∀ b l, fold_left (clean_step b) (l ++ [seg]) [] = seg :: fold_left (clean_step b) l []) as Hf.
  { intros b l. rewrite fold_left_app. cbn. unfold clean_step at 1.
    by rewrite (proj2 (String.eqb_neq seg "")), (proj2 (String.eqb_neq seg ".")), (proj2 (String.eqb_neq seg "..")). }
  assert (∀ l, ∃ pre, join "/" (reverse (seg :: l)) = pre +:+ seg) as Hj.
  { intros l. rewrite reverse_cons. destruct (decide (reverse l = [])) as [->|Hl]; [by exists ""|].
    rewrite join_snoc by done. eexists. by rewrite <- sapp_assoc. }
  assert (∀ q l, q ≠ "" → split_byte "/" q = l ++ [seg] → ∃ pre, path_clean q = pre +:+ seg) as Hc.
  { intros q l Hq Hsp. unfold path_clean. rewrite (proj2 (String.eqb_neq q "") Hq). cbv zeta. rewrite Hsp, Hf.
    destruct (Hj (fold_left (clean_step (has_prefix q "/")) l [])) as [pre ->].
    destruct (has_prefix q "/"); [exists ("/" +:+ pre); by rewrite sapp_assoc|]. exists pre.
    destruct (String.eqb_spec (pre +:+ seg) "") as [He|]; [|done]. destruct pre; [by rewrite sapp_nil_l in He|done]. }
  unfold path_join. rewrite (proj2 (String.eqb_neq seg "") Hne). destruct (String.eqb_spec a "") as [->|Ha].
  - apply (Hc seg []); [done|by apply split_byte_single].
  - apply (Hc _ (split_byte "/" a)); [by destruct a|]. change ("/" +:+ seg) with (String "/" seg).
    by rewrite split_byte_sep, (split_byte_single _ seg).
Qed.
Lemma path_join_distinct a x y : proper_seg x → proper_seg y → slen x = slen y → x ≠ y → path_join a x ≠ path_join a y.
Proof.
  intros Hx Hy Hl Hne He. destruct (path_join_last a x Hx) as [p Hp], (path_join_last a y Hy) as [q Hq].
  rewrite Hp, Hq in He. by apply sapp_inj_len in He as [_ ?].
Qed.

(** Where the fallback lives. *)
Abbreviation fallbackCert root := (path_join (path_join root selfSignedDir) selfSignedCert).
Abbreviation fallbackKey root := (path_join (path_join root selfSignedDir) selfSignedKey).

Section listener.
Context `{GoRuntime, TlsLibrary}.

Lemma evo_load U P c k : keeps U P (load_pair c k).
Proof.
  unfold load_pair, stampOf, LoadX509KeyPair, os_ReadFile. apply evo_map_err. apply evo_bind; [tls|]. intros stamp.
  apply evo_bind; [|intros tc; destruct (tc_Certificate tc); tls]. apply evo_bind; [tls|]. intros cd.
  apply evo_bind; [tls|]. intros kd. destruct (X509KeyPair cd kd); tls.
Qed.
Lemma tidy_load c k : tidy (load_pair c k).
Proof.
  unfold load_pair, stampOf, LoadX509KeyPair, os_ReadFile. apply tidy_map_err. apply tidy_bind; [tls|]. intros stamp.
  apply tidy_bind; [|intros tc; destruct (tc_Certificate tc); tls]. apply tidy_bind; [tls|]. intros cd.
  apply tidy_bind; [tls|]. intros kd. destruct (X509KeyPair cd kd); tls.
Qed.

(** The pair a reload installs, with the stamp it was read under. *)
Lemma load_pair_Ok c k s stamp tc dg s' : at_rest s → load_pair c k s = (Ok (stamp, tc, dg), s') →
  ∃ cd kd der rest, X509KeyPair cd kd = Some tc ∧ tc_Certificate tc = der :: rest ∧ dg = Fingerprint der ∧
    tracks s' c (st_certMod stamp) cd ∧ tracks s' k (st_keyMod stamp) kd.
Proof.
  intros Hs Hl. apply map_err_Ok, bind_Ok in Hl as (st & s2 & Hst & Hl). apply bind_Ok in Hl as (tc' & s4 & Hp & Hl).
  destruct (tc_Certificate tc') as [|der rest] eqn:Hder; [done|]. injection Hl as -> -> <- <-.
  apply bind_Ok in Hst as (ci & s1 & H1 & Hst). apply bind_Ok in Hst as (ki & s2' & H2 & Hst). injection Hst as <- <-.
  apply bind_Ok in Hp as (cd & s3 & H3 & Hp). apply bind_Ok in Hp as (kd & s4' & H4 & Hp).
  apply bind_Ok in H3 as (fc & s3' & H3 & Hr). injection Hr as <- <-. apply bind_Ok in H4 as (fk & s4'' & H4 & Hr). injection Hr as <- <-.
  destruct (X509KeyPair (pf_data fc) (pf_data fk)) as [tc''|] eqn:Hx; [|done]. injection Hp as -> ->.
  destruct (quiet_run _ s (quiet_Stat c) Hs) as [_ S1]. rewrite H1 in S1; cbn [snd] in S1.
  destruct (quiet_run _ _ (quiet_Stat k) S1) as [E2 S2]. rewrite H2 in E2, S2; cbn [snd] in E2, S2.
  destruct (quiet_run _ _ (quiet_Stat c) S2) as [E3 S3]. rewrite H3 in E3, S3; cbn [snd] in E3, S3.
  destruct (quiet_run _ _ (quiet_Stat k) S3) as [E4 S4]. rewrite H4 in E4, S4; cbn [snd] in E4, S4.
  exists (pf_data fc), (pf_data fk), der, rest. split_and!; try done.
  - eapply tracks_evolves; [exact E4|]. eapply stat_then_read; [exact S1|by eapply Stat_Ok| |by eapply Stat_Ok|done].
    by eapply evolves_trans.
  - eapply stat_then_read; [exact S2|by eapply Stat_Ok| |by eapply Stat_Ok|done]. by eapply evolves_trans.
Qed.

(** The listener holds a pair that holds together, names it by its digest, and
    knows under which stamps it was read. *)
Definition follows (s : CertInstance) (sc : ServerCert) : Prop :=
  ∃ c k tc der rest, X509KeyPair c k = Some tc ∧ sc_current sc = Some tc ∧ tc_Certificate tc = der :: rest ∧
    sc_digest sc = Fingerprint der ∧ tracks s (sc_certFile sc) (st_certMod (sc_stamp sc)) c ∧
    tracks s (sc_keyFile sc) (st_keyMod (sc_stamp sc)) k ∧ (sc_certFile sc = "" → sc_stamp sc = zeroStamp).

Record serving (b : bool) (s : CertInstance) : Prop := {
  sv_listening : b = true → is_Some (in_cert s);
  sv_settled : at_rest s;
  sv_follows : ∀ sc, in_cert s = Some sc → follows s sc;
}.

Lemma follows_evolves U P s0 s sc : evolves U P s0 s → follows s0 sc → follows s sc.
Proof.
  intros He (c & k & tc & der & rest & ? & ? & ? & ? & Hc & Hk & ?). exists c, k, tc, der, rest. split_and!; try done;
    by eapply tracks_evolves.
Qed.

(** Nothing on disk has the stamp of no file. *)
Lemma tracks_zero s p c : at_rest s → tracks s p 0 c.
Proof. intros Hs. split; [pose proof (se_clock _ Hs); lia|]. intros f Hf Hm. pose proof (se_files _ Hs p f Hf). lia. Qed.

Lemma quiet_serving {A b} (m : tw A) s : quiet m → serving b s → serving b (m s).2 ∧ in_cert (m s).2 = in_cert s.
Proof.
  intros Hm [Hb Hs Hf]. destruct (quiet_run m s Hm Hs) as [He Hs']. split; [|apply (ev_cert _ _ _ _ He)]. split; [by rewrite (ev_cert _ _ _ _ He)|done|].
  intros sc. rewrite (ev_cert _ _ _ _ He). intros Hsc. by eapply follows_evolves, Hf.
Qed.

Lemma serving_with_cert {b} s sc : at_rest s → follows s sc → serving b (with_cert (Some sc) s).
Proof. intros [? ? ? ?] Hf. split; [by eexists|by split|]. by intros sc' [= <-]. Qed.

Lemma quiet_load c k : quiet (load_pair c k).
Proof. split; [apply evo_load|apply tidy_load]. Qed.
Lemma quiet_bind {A B} (m : tw A) (f : A → tw B) : quiet m → (∀ a, quiet (f a)) → quiet (m ≫= f).
Proof. intros [? ?] Hf. split; [apply evo_bind; [done|]|apply tidy_bind; [done|]]; intros a; apply Hf. Qed.
Lemma quiet_try {A} (m : tw A) : quiet m → quiet (tw_try m).
Proof. intros [? ?]. split; tls. Qed.
Lemma quiet_ret {A} (a : A) : quiet (mret a).
Proof. split; tls. Qed.
Lemma quiet_fail {A} e : quiet (@tw_fail A e).
Proof. split; tls. Qed.
Lemma quiet_map_err {A} g (m : tw A) : quiet m → quiet (tw_map_err g m).
Proof. intros [? ?]. split; tls. Qed.

Lemma quiet_reload sc : quiet (cert_reload sc).
Proof. apply quiet_bind; [apply quiet_load|]. intros [[st tc] dg]. apply quiet_ret. Qed.
Lemma quiet_stampOf c k : quiet (stampOf c k).
Proof. unfold stampOf. split; tls. Qed.
Lemma quiet_refresh sc : quiet (refresh sc).
Proof.
  unfold refresh, cert_changed. destruct (String.eqb (sc_certFile sc) ""); [apply quiet_ret|]. apply quiet_bind.
  - apply quiet_bind; [apply quiet_try, quiet_stampOf|intros r; apply quiet_ret].
  - intros [|]; [|apply quiet_ret]. apply quiet_bind; [apply quiet_try, quiet_reload|intros r; apply quiet_ret].
Qed.

Lemma reload_Ok s sc sc' s' : at_rest s → sc_certFile sc ≠ "" → cert_reload sc s = (Ok sc', s') →
  follows s' sc' ∧ sc_certFile sc' = sc_certFile sc ∧ sc_keyFile sc' = sc_keyFile sc ∧ sc_stateRoot sc' = sc_stateRoot sc ∧
  sc_selfSigned sc' = sc_selfSigned sc.
Proof.
  intros Hs Hc Hr. apply bind_Ok in Hr as ([[st tc] dg] & s1 & Hl & Hr). injection Hr as <- <-.
  apply load_pair_Ok in Hl as (cd & kd & der & rest & ? & ? & ? & ? & ?); [|done]. split; [|done].
  by exists cd, kd, tc, der, rest.
Qed.

Lemma refresh_Ok s sc : at_rest s → follows s sc → ∃ sc', (refresh sc s).1 = Ok sc' ∧ follows (refresh sc s).2 sc' ∧
  sc_certFile sc' = sc_certFile sc ∧ sc_keyFile sc' = sc_keyFile sc ∧ sc_stateRoot sc' = sc_stateRoot sc ∧
  sc_selfSigned sc' = sc_selfSigned sc.
Proof.
  intros Hs Hf. destruct (quiet_run _ s (quiet_refresh sc) Hs) as [He _]. revert He. unfold refresh.
  destruct (String.eqb_spec (sc_certFile sc) "") as [Hc|Hc]; [intros _; exists sc; by split_and!|].
  unfold cert_changed, mbind, tw_bind, tw_try.
  pose proof (quiet_run _ s (quiet_stampOf (sc_certFile sc) (sc_keyFile sc)) Hs) as [He1 Hs1].
  destruct (stampOf (sc_certFile sc) (sc_keyFile sc) s) as [r s1]. cbn in He1, Hs1 |- *.
  destruct (match r with Ok _ => _ | Err _ => _ end).
  - destruct (cert_reload sc s1) as [[sc'|e] s2] eqn:Hr; cbn; intros He.
    + exists sc'. apply reload_Ok in Hr as (? & ? & ? & ? & ?); [|done|done]. by split_and!.
    + exists sc. split_and!; try done. by eapply follows_evolves.
  - cbn. intros He. exists sc. split_and!; try done. by eapply follows_evolves.
Qed.

Lemma path_join_nonempty a b : b ≠ "" → path_join a b ≠ "".
Proof.
  intros Hb. assert (∀ q, path_clean q ≠ "") as Hc.
  { intros q. unfold path_clean. destruct (String.eqb q ""); [done|]. destruct (has_prefix q "/"); [done|].
    cbv zeta. by destruct (String.eqb_spec (join "/" (reverse (fold_left (clean_step false) (split_byte "/" q) []))) ""). }
  unfold path_join. destruct (String.eqb a ""); [|apply Hc]. destruct (String.eqb_spec b ""); [done|apply Hc].
Qed.

Lemma Destination_paths sc c k : cert_Destination sc = Some (c, k) →
  c ≠ "" ∧ (sc_certFile sc = c ∧ sc_keyFile sc = k ∨ sc_certFile sc = "").
Proof.
  unfold cert_Destination. destruct (String.eqb_spec (sc_certFile sc) "") as [He|He]; cbn.
  - destruct (String.eqb (sc_stateRoot sc) ""); [done|]. intros [= <- <-]. split; [by apply path_join_nonempty|by right].
  - intros [= <- <-]. split; [done|by left].
Qed.

(** A handshake gets a certificate. *)
Lemma getCertificate_serving {b} s sc : serving b s → in_cert s = Some sc → ∃ tc sc', (getCertificate s).1 = Ok tc ∧
  serving b (getCertificate s).2 ∧ in_cert (getCertificate s).2 = Some sc' ∧ sc_current sc' = Some tc ∧
  sc_certFile sc' = sc_certFile sc ∧ sc_keyFile sc' = sc_keyFile sc ∧ sc_selfSigned sc' = sc_selfSigned sc ∧
  evolves ∅ ∅ s (refresh sc s).2 ∧ (refresh sc s).1 = Ok sc' ∧ in_files (getCertificate s).2 = in_files (refresh sc s).2.
Proof.
  intros [_ Hs Hf] Hsc. unfold getCertificate. rewrite Hsc. destruct (refresh_Ok s sc Hs (Hf _ Hsc)) as (sc' & Hr & Hf' & ? & ? & ? & ?).
  destruct (quiet_run _ s (quiet_refresh sc) Hs) as [He Hs']. destruct (refresh sc s) as [r s1]. cbn in Hr, Hf', He, Hs'. subst r.
  pose proof Hf' as (c & k & tc & der & rest & ? & Hcur & ?). cbn. rewrite Hcur. exists tc, sc'. cbn. split_and!; try done.
  by apply serving_with_cert.
Qed.

Lemma Adopt_serving {b} s : serving b s → serving b (Adopt s).2.
Proof.
  intros Hsv. pose proof Hsv as [_ Hs Hf]. unfold Adopt. destruct (in_cert s) as [sc|] eqn:Hsc; [|done].
  destruct (cert_Destination sc) as [[c k]|] eqn:Hd; [|done].
  apply Destination_paths in Hd as [Hc Hd].
  set (sc1 := mkServerCert _ _ _ c k _ _). assert (follows s sc1) as Hf1.
  { destruct (Hf sc eq_refl) as (cd & kd & tc & der & rest & ? & ? & ? & ? & ? & ? & Hz). exists cd, kd, tc, der, rest. cbn.
    split_and!; try done; destruct Hd as [[<- <-]|He]; try done; rewrite (Hz He); by apply tracks_zero. }
  pose proof (@serving_with_cert b _ _ Hs Hf1) as Hs1.
  destruct (quiet_serving _ _ (quiet_reload sc1) Hs1) as [Hs2 Hcert]. destruct (cert_reload sc1 (with_cert (Some sc1) s)) as [[sc2|e] s2] eqn:Hr.
  - apply reload_Ok in Hr as ((cd & kd & tc & der & rest & ? & ? & ? & ? & ? & ? & Hz) & Hrc & Hrk & _); [|apply Hs1|done].
    apply serving_with_cert; [apply Hs2|]. by exists cd, kd, tc, der, rest.
  - done.
Qed.

Lemma quiet_Replace certFile keyFile certPEM keyPEM now : quiet (Replace certFile keyFile certPEM keyPEM now).
Proof.
  unfold Replace. destruct (check_pair _ _ _ _ _) as [[der leaf]|e]; [|apply quiet_fail]. apply quiet_bind; [split; [apply evo_writePEM; set_solver|tls]|].
  intros _. apply quiet_bind; [|intros _; apply quiet_ret]. apply quiet_map_err. split; [apply evo_secret_Write; set_solver|tls].
Qed.

Lemma serving_trail {b} s e : serving b s → serving b (with_trail e s).
Proof. intros [? [? ? ? ?] Hf]. by split. Qed.

Lemma Describe_serving {b} s : serving b s → serving b (Describe s).2.
Proof.
  intros Hs. unfold Describe. destruct (in_cert s) as [sc|] eqn:Hsc; [|done].
  destruct (getCertificate_serving s sc Hs Hsc) as (tc & sc' & Hr & Hs' & Hc' & _). destruct (getCertificate s) as [r s1].
  cbn in Hr, Hs', Hc'. subst r. rewrite Hc'. destruct (tc_Certificate tc); [done|]. by destruct (ParseCertificate s0).
Qed.

Lemma screen_serving {b} s : serving b s → serving b (networkScreenData s).2.
Proof.
  intros Hs. unfold networkScreenData. apply Describe_serving in Hs. by destruct (Describe s) as [[[c|]|e] s1].
Qed.

Lemma refusal_serving {b} actor e s : serving b s → serving b (networkRefusal actor e s).2.
Proof.
  intros Hs. unfold networkRefusal.
  pose proof (screen_serving _ (serving_trail s (mkCertEvent actor (from_option sc_digest "" (in_cert s)) false) Hs)) as Hd.
  by destruct (networkScreenData _) as [[d|e'] s1].
Qed.

Lemma ui_serving {b} actor form s : serving b s → serving b (adminNetworkCertificate actor form s).2.
Proof.
  intros Hs. unfold adminNetworkCertificate.
  assert (∀ e s, serving b s → serving b ((match networkRefusal actor e s with (Ok _, s) => (Err e, s) | (Err e, s) => (Err e, s) end
    : res tls_error (networkData * string) * CertInstance).2)) as Href.
  { intros e s' Hs'. apply (refusal_serving actor e) in Hs'. by destruct (networkRefusal actor e s') as [[]]. }
  destruct (readCertPair form) as [[c k]|]; [|by apply Href]. destruct (certDestination s) as [[cp kp]|]; [|by apply Href].
  destruct (quiet_serving _ s (quiet_Replace cp kp c k (in_clock s)) Hs) as [Hs1 _].
  destruct (Replace cp kp c k (in_clock s) s) as [[cert|e] s1]; [|by apply Href]. cbn [snd] in Hs1. apply Adopt_serving in Hs1.
  destruct (Adopt s1) as [[u|e] s2]; [|by apply Href].
  pose proof (screen_serving _ (serving_trail _ (mkCertEvent actor (cr_Fingerprint cert) true) Hs1)) as Hd. cbn [snd] in Hd. cbv zeta.
  by destruct (networkScreenData _) as [[d|e'] s3].
Qed.

Lemma api_replace_serving {b} cfg actor body s : serving b s → serving b (api_network_replace cfg actor body s).2.
Proof.
  intros Hs. unfold api_network_replace. destruct body as [[c k]|]; [|by apply serving_trail].
  destruct (quiet_serving _ s (quiet_Replace (tl_CertFile cfg) (tl_KeyFile cfg) c k (in_clock s)) Hs) as [Hs1 _].
  destruct (Replace _ _ c k (in_clock s) s) as [[cert|e] s1]; by apply serving_trail.
Qed.

(** * A replacement *)

Lemma reads_calm {A} (m : tw A) U p data s : keeps U {[p]} m → p ∈ U → at_rest s → undisturbed U s → reads s p data → reads (m s).2 p data.
Proof. intros Hk HU Hs Hu (f & Hf & Hd). exists f. split; [|done]. by rewrite (calm_protected m U). Qed.

Lemma check_pair_Ok c k certPEM keyPEM now der leaf : check_pair c k certPEM keyPEM now = Ok (der, leaf) →
  c ≠ "" ∧ k ≠ "" ∧ Z.of_nat (slen certPEM) ≤ MaxPEMBytes ∧ Z.of_nat (slen keyPEM) ≤ MaxPEMBytes ∧ now ≤ lc_NotAfter leaf ∧
  ParseCertificate der = Some leaf ∧ ∃ tc rest, X509KeyPair certPEM keyPEM = Some tc ∧ tc_Certificate tc = der :: rest.
Proof.
  unfold check_pair. destruct (String.eqb_spec c ""), (String.eqb_spec k ""); try done. cbn [orb].
  destruct (String.eqb certPEM "" || String.eqb keyPEM ""); [done|].
  destruct (MaxPEMBytes <? Z.of_nat (slen certPEM)) eqn:H1; [done|]. destruct (MaxPEMBytes <? Z.of_nat (slen keyPEM)) eqn:H2; [done|].
  cbn [orb]. destruct (X509KeyPair certPEM keyPEM) as [tc|]; [|done]. destruct (tc_Certificate tc) as [|d rest] eqn:Ed; [done|].
  destruct (ParseCertificate d) as [lf|] eqn:Ep; [|done]. destruct (lc_NotAfter lf <? now) eqn:Ex; [done|]. intros [= <- <-].
  split_and!; try done; try lia. by exists tc, rest.
Qed.

(** Nothing is written unless the pair is accepted, and no file is ever torn. *)
Lemma Replace_whole U c k certPEM keyPEM now s : c ≠ k → c ∈ U → k ∈ U → at_rest s → undisturbed U s →
  match Replace c k certPEM keyPEM now s with
  | (Ok cert, s') => reads s' c certPEM ∧ (∃ f, in_files s' !! k = Some f ∧ pf_data f = keyPEM ∧ pf_mode f = secret_Mode) ∧
      ∃ der leaf, check_pair c k certPEM keyPEM now = Ok (der, leaf) ∧ cert = describeLeaf leaf false c (Fingerprint der)
  | (Err _, s') =>
      (is_ok (check_pair c k certPEM keyPEM now) = false ∧ s' = s) ∨
      in_files s' !! c = in_files s !! c ∧ in_files s' !! k = in_files s !! k ∨
      reads s' c certPEM ∧ (in_files s' !! k = in_files s !! k ∨ reads s' k keyPEM)
  end.
Proof.
  intros Hck HcU HkU Hs Hu. unfold Replace. destruct (check_pair c k certPEM keyPEM now) as [[der leaf]|e] eqn:Ec; [|by left].
  assert (k ∉ ({[c]} : gset string)) as N1 by set_solver. assert (c ∉ ({[k]} : gset string)) as N2 by set_solver.
  assert (∀ q, q ∉ (∅ : gset string)) as N3 by set_solver.
  unfold mbind at 1, tw_bind at 1. pose proof (writePEM_whole U c certPEM 420 s HcU Hs Hu) as Hw.
  destruct (calm_run (writePEM c certPEM 420) U s) as [Hs1 Hu1]; [tls|tls|done|done|].
  assert (in_files (writePEM c certPEM 420 s).2 !! k = in_files s !! k) as Hk1 by (apply (calm_protected _ U); tls).
  destruct (writePEM c certPEM 420 s) as [[u|e] s1]; cbn [snd] in Hs1, Hu1, Hk1; [|by right; left].
  unfold mbind, tw_bind, writeKeyPEM, tw_map_err. pose proof (secret_Write_whole U k keyPEM s1 HkU Hs1 Hu1) as Hw2.
  assert (reads (secretfile_Write k keyPEM s1).2 c certPEM) as Hc2 by (eapply (reads_calm _ U); tls).
  destruct (secretfile_Write k keyPEM s1) as [[u2|e] s2]; cbn [snd] in Hc2.
  - split; [done|]. split; [done|]. by exists der, leaf.
  - right; right. split; [done|]. destruct Hw2 as [Hw2|?]; [left; congruence|by right].
Qed.

(** The pair read from files others leave alone. *)
Lemma load_pair_reads U c k cd kd s stamp tc dg s' : c ∈ U → k ∈ U → at_rest s → undisturbed U s → reads s c cd → reads s k kd →
  load_pair c k s = (Ok (stamp, tc, dg), s') → X509KeyPair cd kd = Some tc.
Proof.
  intros HcU HkU Hs Hu Hc Hk Hl. apply map_err_Ok, bind_Ok in Hl as (st & s2 & Hst & Hl). apply bind_Ok in Hl as (tc' & s4 & Hp & Hl).
  destruct (tc_Certificate tc') as [|der rest]; [done|]. injection Hl as -> -> <- <-.
  assert (∀ q, keeps U {[q]} (stampOf c k) ∧ keeps U ∅ (stampOf c k)) as Hks by (intros q; unfold stampOf; split; tls).
  destruct (calm_run (stampOf c k) U s) as [S2 U2]; [apply (Hks c)|apply quiet_stampOf|done|done|].
  assert (reads (stampOf c k s).2 c cd) as C2 by (eapply (reads_calm _ U); [apply Hks|..]; done).
  assert (reads (stampOf c k s).2 k kd) as K2 by (eapply (reads_calm _ U); [apply Hks|..]; done).
  rewrite Hst in S2, U2, C2, K2. cbn [snd] in S2, U2, C2, K2.
  apply bind_Ok in Hp as (cd' & s3 & H3 & Hp). apply bind_Ok in Hp as (kd' & s4' & H4 & Hp).
  apply bind_Ok in H3 as (fc & s3' & H3 & Hr). injection Hr as <- <-. apply bind_Ok in H4 as (fk & s4'' & H4 & Hr). injection Hr as <- <-.
  destruct (X509KeyPair (pf_data fc) (pf_data fk)) as [tc''|] eqn:Hx; [|done]. injection Hp as -> _.
  destruct (calm_run (os_Stat c) U s2) as [S3 U3]; [tls|tls|done|done|].
  assert (reads (os_Stat c s2).2 c cd) as C3 by (eapply (reads_calm _ U); tls).
  assert (reads (os_Stat c s2).2 k kd) as K3 by (eapply (reads_calm _ U); tls). rewrite H3 in S3, U3, C3, K3. cbn [snd] in S3, U3, C3, K3.
  assert (reads (os_Stat k s3').2 k kd) as K4 by (eapply (reads_calm _ U); tls). rewrite H4 in K4. cbn [snd] in K4.
  apply Stat_Ok in H3, H4. destruct C3 as (f & Hf & <-), K4 as (g & Hg & <-). congruence.
Qed.

Lemma evo_reload U P sc : keeps U P (cert_reload sc).
Proof. apply evo_bind; [apply evo_load|]. intros [[st tc] dg]. tls. Qed.
Lemma evo_stampOf U P c k : keeps U P (stampOf c k).
Proof. unfold stampOf. tls. Qed.
Lemma evo_refresh U P sc : keeps U P (refresh sc).
Proof.
  unfold refresh, cert_changed. destruct (String.eqb (sc_certFile sc) ""); [tls|]. apply evo_bind.
  - apply evo_bind; [apply evo_try, evo_stampOf|tls].
  - intros [|]; [|tls]. apply evo_bind; [apply evo_try, evo_reload|tls].
Qed.

(** On files others leave alone, a listener that serves what they hold keeps
    serving it. *)
Lemma refresh_reads U sc cd kd tc s sc' s' : sc_certFile sc ∈ U → sc_keyFile sc ∈ U → at_rest s → undisturbed U s →
  reads s (sc_certFile sc) cd → reads s (sc_keyFile sc) kd → X509KeyPair cd kd = Some tc → sc_current sc = Some tc →
  refresh sc s = (Ok sc', s') → sc_current sc' = Some tc.
Proof.
  intros HcU HkU Hs Hu Hc Hk Hx Hcur. unfold refresh. destruct (String.eqb (sc_certFile sc) ""); [by intros [= <- <-]|].
  unfold cert_changed, mbind, tw_bind. rewrite try_Ok.
  destruct (calm_run (stampOf (sc_certFile sc) (sc_keyFile sc)) U s) as [S1 U1]; [apply evo_stampOf|apply quiet_stampOf|done|done|].
  pose proof (reads_calm _ U _ cd s (evo_stampOf U {[sc_certFile sc]} (sc_certFile sc) (sc_keyFile sc)) HcU Hs Hu Hc) as C1.
  pose proof (reads_calm _ U _ kd s (evo_stampOf U {[sc_keyFile sc]} (sc_certFile sc) (sc_keyFile sc)) HkU Hs Hu Hk) as K1.
  destruct (stampOf (sc_certFile sc) (sc_keyFile sc) s) as [r s1]. cbn [fst snd mret tw_ret] in *. unfold mret, tw_ret.
  destruct (match r with Ok _ => _ | Err _ => _ end); [|by intros [= <- <-]]. rewrite try_Ok.
  destruct (cert_reload sc s1) as [[sc2|e] s2] eqn:Hr; cbn; intros Hq; injection Hq as <- <-; [|done].
  apply bind_Ok in Hr as ([[st tc'] dg] & s3 & Hl & Hr). injection Hr as <- <-. cbn.
  by rewrite (load_pair_reads U _ _ cd kd _ _ _ _ _ HcU HkU S1 U1 C1 K1 Hl) in Hx.
Qed.

(** The operations of a running instance. *)
Inductive cert_op :=
  | OpIdle | OpHandshake | OpApiGet | OpApiReplace (actor : string) (body : option (string * string))
  | OpScreen | OpReplace (actor : string) (form : option (option string * option string)).
Definition cert_exec (cfg : cfgServerTLS) (op : cert_op) (s : CertInstance) : CertInstance :=
  match op with
  | OpIdle => (fs_probe s).2
  | OpHandshake => (getCertificate s).2
  | OpApiGet => (api_network_get cfg s).2
  | OpApiReplace actor body => (api_network_replace cfg actor body s).2
  | OpScreen => (networkScreenData s).2
  | OpReplace actor form => (adminNetworkCertificate actor form s).2
  end.
Definition cert_run (cfg : cfgServerTLS) (ops : list cert_op) (s : CertInstance) : CertInstance :=
  fold_left (λ s op, cert_exec cfg op s) ops s.

Lemma exec_serving {b} cfg op s : serving b s → serving b (cert_exec cfg op s).
Proof.
  intros Hs. destruct op; cbn [cert_exec]; auto using ui_serving, api_replace_serving, screen_serving.
  - apply (quiet_serving fs_probe); [split; tls|done].
  - destruct (in_cert s) as [sc|] eqn:Hc; [by destruct (getCertificate_serving s sc Hs Hc) as (? & ? & _ & ? & _)|].
    unfold getCertificate. by rewrite Hc.
  - unfold api_network_get, mbind, tw_bind, tw_get. apply Describe_serving in Hs. by destruct (Describe s) as [[]].
Qed.
Lemma run_serving {b} cfg ops : ∀ s, serving b s → serving b (cert_run cfg ops s).
Proof. induction ops as [|op ops IH]; intros s Hs; [done|]. by apply IH, exec_serving. Qed.

(** * The start *)

Lemma quiet_LoadX c k : quiet (LoadX509KeyPair c k).
Proof.
  unfold LoadX509KeyPair, os_ReadFile. apply quiet_bind; [split; tls|]. intros cd. apply quiet_bind; [split; tls|]. intros kd.
  destruct (X509KeyPair cd kd); [apply quiet_ret|apply quiet_fail].
Qed.
Lemma quiet_persisted dir : quiet (loadPersistedSelfSigned dir).
Proof.
  apply quiet_bind; [apply quiet_LoadX|]. intros tc. destruct (tc_Certificate tc); [apply quiet_fail|].
  destruct (ParseCertificate _); [|apply quiet_fail]. apply quiet_bind; [split; tls|]. intros now.
  destruct (_ <? now); [apply quiet_fail|apply quiet_ret].
Qed.
Lemma evo_persisted U P dir : keeps U P (loadPersistedSelfSigned dir).
Proof.
  unfold loadPersistedSelfSigned, LoadX509KeyPair, os_ReadFile. apply evo_bind.
  { apply evo_bind; [tls|]. intros cd. apply evo_bind; [tls|]. intros kd. destruct (X509KeyPair cd kd); tls. }
  intros tc. destruct (tc_Certificate tc); [tls|]. destruct (ParseCertificate _); [|tls]. apply evo_bind; [tls|]. intros now.
  destruct (_ <? now); tls.
Qed.
Lemma quiet_generate hosts : quiet (generateSelfSigned hosts).
Proof.
  split; [intros s0 s Hs|intros s Hs]; unfold generateSelfSigned; destruct (subjectNames hosts) as [[|n names] ips]; try done;
    by destruct (issue _ _ _ _).
Qed.
Lemma quiet_persist dir c k : quiet (persistSelfSigned dir c k).
Proof.
  unfold persistSelfSigned, secretfile_MkdirAll. apply quiet_map_err. assert (∀ q, q ∉ (∅ : gset string)) by set_solver. split; tls.
Qed.
Lemma quiet_from tc root : quiet (newSelfSignedFrom tc root).
Proof. unfold newSelfSignedFrom. destruct (tc_Certificate tc); [apply quiet_fail|apply quiet_ret]. Qed.
Lemma quiet_newSelfSigned hosts root : quiet (newSelfSigned hosts root).
Proof.
  unfold newSelfSigned. apply quiet_bind.
  { apply quiet_try. destruct (String.eqb _ ""); [apply quiet_fail|apply quiet_persisted]. }
  intros [tc|e]; [apply quiet_from|]. apply quiet_bind; [apply quiet_generate|]. intros [c k]. apply quiet_bind.
  { destruct (X509KeyPair c k); [apply quiet_ret|apply quiet_fail]. }
  intros tc. apply quiet_bind; [|intros _; apply quiet_from]. destruct (String.eqb _ ""); [apply quiet_ret|apply quiet_persist].
Qed.

Lemma LoadX_Ok c k s tc s' : LoadX509KeyPair c k s = (Ok tc, s') → ∃ cd kd, X509KeyPair cd kd = Some tc.
Proof.
  intros Hl. apply bind_Ok in Hl as (cd & s1 & _ & Hl). apply bind_Ok in Hl as (kd & s2 & _ & Hl).
  destruct (X509KeyPair cd kd) as [tc'|] eqn:Hx; [|done]. injection Hl as -> _. eauto.
Qed.

Lemma from_Ok tc root s sc s' : newSelfSignedFrom tc root s = (Ok sc, s') →
  ∃ der rest, tc_Certificate tc = der :: rest ∧ sc = mkServerCert (Some tc) zeroStamp (Fingerprint der) "" "" root true.
Proof. unfold newSelfSignedFrom. destruct (tc_Certificate tc) as [|der rest]; [done|]. intros [= <- _]. eauto. Qed.

(** The fallback is a pair that was read back or issued. *)
Lemma newSelfSigned_Ok hosts root s sc s' : newSelfSigned hosts root s = (Ok sc, s') →
  ∃ c k tc der rest, X509KeyPair c k = Some tc ∧ tc_Certificate tc = der :: rest ∧
    sc = mkServerCert (Some tc) zeroStamp (Fingerprint der) "" "" root true.
Proof.
  intros Hn. apply bind_Ok in Hn as (r & s1 & Hr & Hn). rewrite try_Ok in Hr. injection Hr as Hr _.
  destruct r as [tc|e].
  - apply from_Ok in Hn as (der & rest & Hd & ->). destruct (String.eqb _ ""); [done|].
    match type of Hr with (?m s).1 = _ => destruct (m s) as [r' s1'] eqn:Hl end. cbn in Hr. subst r'.
    apply bind_Ok in Hl as (tc' & s2 & Hl & Hq). destruct (tc_Certificate tc') as [|der' rest'] eqn:Hd'; [done|].
    destruct (ParseCertificate der') as [lf|]; [|done]. apply bind_Ok in Hq as (now & s3 & _ & Hq).
    destruct (_ <? now); [done|]. injection Hq as -> _. apply LoadX_Ok in Hl as (c & k & Hx). exists c, k, tc, der, rest. by split_and!.
  - apply bind_Ok in Hn as ([c k] & s2 & _ & Hn). destruct (X509KeyPair c k) as [tc|] eqn:Hx; [|done].
    apply bind_Ok in Hn as (tc' & s3 & Hq & Hn). injection Hq as <- <-. apply bind_Ok in Hn as (u & s4 & _ & Hn).
    apply from_Ok in Hn as (der & rest & Hd & ->). by exists c, k, tc, der, rest.
Qed.

Lemma start_serving cfg root s u s' : at_rest s → start_listener cfg root s = (Ok u, s') → serving (tls_Serves cfg) s'.
Proof.
  intros Hs. unfold start_listener. destruct (tls_Serves cfg).
  - intros Hst. apply bind_Ok in Hst as (sc & s1 & Hn & Hst). injection Hst as _ <-. revert Hn. unfold NewServerCert.
    destruct (String.eqb_spec (tl_CertFile cfg) "") as [He|He]; intros Hn.
    + destruct (quiet_run _ s (quiet_newSelfSigned (tl_Hosts cfg) root) Hs) as [_ Hs1]. rewrite Hn in Hs1. cbn [snd] in Hs1.
      apply newSelfSigned_Ok in Hn as (c & k & tc & der & rest & Hx & Hd & ->). apply serving_with_cert; [done|].
      exists c, k, tc, der, rest. cbn. split_and!; try done; by apply tracks_zero.
    + destruct (quiet_run _ s (quiet_reload (mkServerCert None zeroStamp "" (tl_CertFile cfg) (tl_KeyFile cfg) root false)) Hs) as [_ Hs1].
      rewrite Hn in Hs1. cbn [snd] in Hs1. apply reload_Ok in Hn as (? & _); [|done|done]. by apply serving_with_cert.
  - intros [= _ <-]. destruct Hs. split; [done|by split|done].
Qed.


(** * When others are quiet *)

Definition ticked (s : CertInstance) : CertInstance :=
  mkInstance (in_files s) (in_clock s + 1) (in_temp s) (in_left s) [] (in_cert s) (in_trail s).

Lemma calm_Stat s p f : in_script s = [] → in_files s !! p = Some f → os_Stat p s = (Ok f, ticked s).
Proof. intros Hq Hf. unfold os_Stat, fs_call, next_event. rewrite Hq. cbn. by rewrite Hf. Qed.

Lemma calm_stampOf s c k fc fk : in_script s = [] → in_files s !! c = Some fc → in_files s !! k = Some fk →
  stampOf c k s = (Ok (mkStamp (pf_mod fc) (pf_mod fk) (Z.of_nat (slen (pf_data fc))) (Z.of_nat (slen (pf_data fk)))), ticked (ticked s)).
Proof.
  intros Hq Hc Hk. unfold stampOf, mbind, tw_bind. rewrite (calm_Stat s c fc) by done. by rewrite (calm_Stat (ticked s) k fk).
Qed.

Lemma calm_LoadX s c k fc fk tc : in_script s = [] → in_files s !! c = Some fc → in_files s !! k = Some fk →
  X509KeyPair (pf_data fc) (pf_data fk) = Some tc → LoadX509KeyPair c k s = (Ok tc, ticked (ticked s)).
Proof.
  intros Hq Hc Hk Hx. unfold LoadX509KeyPair, os_ReadFile, mbind, tw_bind. rewrite (calm_Stat s c fc) by done. cbn [mret tw_ret].
  unfold mret, tw_ret. rewrite (calm_Stat (ticked s) k fk) by done. by rewrite Hx.
Qed.

Lemma calm_reload s sc fc fk tc : in_script s = [] → in_files s !! sc_certFile sc = Some fc → in_files s !! sc_keyFile sc = Some fk →
  X509KeyPair (pf_data fc) (pf_data fk) = Some tc → ∃ sc' s', cert_reload sc s = (Ok sc', s') ∧ sc_current sc' = Some tc.
Proof.
  intros Hq Hc Hk Hx. unfold cert_reload, load_pair, tw_map_err, mbind, tw_bind. rewrite (calm_stampOf s _ _ fc fk) by done.
  rewrite (calm_LoadX (ticked (ticked s)) _ _ fc fk tc) by done. destruct (pair_leaf _ _ _ Hx) as (der & rest & leaf & Hd & _).
  rewrite Hd. eexists _, _. by split.
Qed.

Lemma calm_refresh s sc fc fk tc : follows s sc → sc_certFile sc ≠ "" → in_script s = [] →
  in_files s !! sc_certFile sc = Some fc → in_files s !! sc_keyFile sc = Some fk →
  X509KeyPair (pf_data fc) (pf_data fk) = Some tc → ∃ sc', (refresh sc s).1 = Ok sc' ∧ sc_current sc' = Some tc.
Proof.
  intros (c & k & tc' & der & rest & Hx' & Hcur & _ & _ & [_ Htc] & [_ Htk] & _) Hne Hq Hc Hk Hx.
  unfold refresh. destruct (String.eqb_spec (sc_certFile sc) "") as [|_]; [done|].
  unfold cert_changed, mbind, tw_bind. rewrite try_Ok, (calm_stampOf s _ _ fc fk) by done. cbn [fst snd]. unfold mret, tw_ret.
  case_bool_decide as Hb; cbn [negb].
  - exists sc. split; [done|]. rewrite <- Hb in Htc, Htk. cbn in Htc, Htk.
    rewrite (Htc fc), (Htk fk) in Hx by done. congruence.
  - rewrite try_Ok. destruct (calm_reload (ticked (ticked s)) sc fc fk tc) as (sc' & s' & Hr & ?); try done. rewrite Hr. by exists sc'.
Qed.

(** * A replacement, step by step *)

Lemma undisturbed_with_cert U c s : undisturbed U (with_cert c s) ↔ undisturbed U s.
Proof. done. Qed.

Lemma evo_Replace U certFile keyFile certPEM keyPEM now : keeps U ∅ (Replace certFile keyFile certPEM keyPEM now).
Proof.
  unfold Replace, writeKeyPEM. destruct (check_pair _ _ _ _ _) as [[der leaf]|e]; [|tls].
  assert (∀ q, q ∉ (∅ : gset string)) by set_solver. tls.
Qed.

(** The pair at these paths, on a listener that others leave alone. *)
Record holds (U : gset string) (c k cd kd : string) (s : CertInstance) : Prop := {
  hd_undisturbed : undisturbed U s;
  hd_paths : c ∈ U ∧ k ∈ U;
  hd_cert : reads s c cd;
  hd_key : reads s k kd;
}.

Lemma holds_keeps {A} (m : tw A) U c k cd kd s : (∀ P, keeps U P m) → at_rest s → holds U c k cd kd s →
  holds U c k cd kd (m s).2 ∧ in_files (m s).2 !! k = in_files s !! k ∧ in_trail (m s).2 = in_trail s ∧ in_cert (m s).2 = in_cert s.
Proof.
  intros Hm Hs [Hu [HcU HkU] Hc Hk]. assert (evolves U U s (m s).2) as He by (apply Hm, evolves_refl; done).
  split_and!; [split| | |]; try apply He; try done; by apply (reads_calm _ U).
Qed.

Lemma Adopt_holds {b} U c k cd kd sc s u s' : serving b s → in_cert s = Some sc → cert_Destination sc = Some (c, k) → holds U c k cd kd s →
  Adopt s = (Ok u, s') → ∃ sc' tc, in_cert s' = Some sc' ∧ X509KeyPair cd kd = Some tc ∧ sc_current sc' = Some tc ∧
    sc_selfSigned sc' = false ∧ sc_certFile sc' = c ∧ sc_keyFile sc' = k ∧ holds U c k cd kd s' ∧
    in_files s' !! k = in_files s !! k ∧ in_trail s' = in_trail s.
Proof.
  intros Hsv Hsc Hd Hh. unfold Adopt. rewrite Hsc, Hd. set (sc1 := mkServerCert _ _ _ c k _ _).
  assert (at_rest (with_cert (Some sc1) s)) as Hs1 by (by destruct (sv_settled _ _ Hsv)).
  assert (holds U c k cd kd (with_cert (Some sc1) s)) as Hh1 by (by destruct Hh).
  destruct (holds_keeps (cert_reload sc1) U c k cd kd _ (λ P, evo_reload U P sc1) Hs1 Hh1) as (Hh2 & Hk2 & Ht2 & _).
  destruct (cert_reload sc1 (with_cert (Some sc1) s)) as [[sc2|e] s2] eqn:Hr; [|done]. intros [= _ <-]. cbn [snd] in Hh2, Hk2, Ht2.
  apply bind_Ok in Hr as ([[st tc] dg] & s3 & Hl & Hr). injection Hr as <- <-.
  exists (mkServerCert (Some tc) st dg c k (sc_stateRoot sc) false), tc. cbn. split_and!; try done; [|by destruct Hh2].
  eapply (load_pair_reads U c k cd kd); [apply Hh1|apply Hh1|exact Hs1|apply Hh1|apply Hh1|apply Hh1|exact Hl].
Qed.

Lemma Describe_holds {b} U cd kd sc tc s : serving b s → in_cert s = Some sc → X509KeyPair cd kd = Some tc → sc_current sc = Some tc →
  holds U (sc_certFile sc) (sc_keyFile sc) cd kd s →
  ∃ cert sc' s', Describe s = (Ok (Some cert), s') ∧ in_cert s' = Some sc' ∧ sc_current sc' = Some tc ∧
    sc_selfSigned sc' = sc_selfSigned sc ∧ cr_Fingerprint cert = sc_digest sc' ∧ follows s' sc' ∧
    in_files s' !! sc_keyFile sc = in_files s !! sc_keyFile sc ∧ in_trail s' = in_trail s ∧
    holds U (sc_certFile sc) (sc_keyFile sc) cd kd s'.
Proof.
  intros Hsv Hsc Hx Hcur Hh. unfold Describe. rewrite Hsc.
  destruct (getCertificate_serving s sc Hsv Hsc) as (tc' & sc' & Hg & Hsv' & Hc' & Hcur' & _ & _ & Hself & _ & Hr & _).
  pose proof (holds_keeps (refresh sc) U _ _ cd kd s (λ P, evo_refresh U P sc) (sv_settled _ _ Hsv) Hh) as (Hh2 & Hk2 & Ht2 & _).
  revert Hg Hsv' Hc'. unfold getCertificate at 1 2 3 4. rewrite Hsc.
  destruct (refresh sc s) as [r s2] eqn:Er. cbn [fst snd] in Hr, Hh2, Hk2, Ht2 |- *. subst r. rewrite Hcur'. cbn [fst snd with_cert in_cert].
  intros _ Hsv' Hc'.
  assert (sc_current sc' = Some tc) as Hct by (eapply (refresh_reads U sc); [apply Hh|apply Hh|apply Hsv|apply Hh|apply Hh|apply Hh|done|done|exact Er]).
  rewrite Hct in Hcur'. injection Hcur' as <-. destruct (pair_leaf _ _ _ Hx) as (der & rest & leaf & Hd & Hp). rewrite Hd, Hp.
  eexists _, sc', _. split; [done|]. split_and!; try done; [by apply (sv_follows _ _ Hsv')|by destruct Hh2].
Qed.

(** * The fallback on disk *)

Lemma LoadX_reads U c k s tc s' : c ∈ U → k ∈ U → at_rest s → undisturbed U s → LoadX509KeyPair c k s = (Ok tc, s') →
  ∃ cd kd, reads s' c cd ∧ reads s' k kd ∧ X509KeyPair cd kd = Some tc.
Proof.
  intros HcU HkU Hs Hu Hp. apply bind_Ok in Hp as (cd & s3 & H3 & Hp). apply bind_Ok in Hp as (kd & s4 & H4 & Hp).
  apply bind_Ok in H3 as (fc & s3' & H3 & Hr). injection Hr as <- <-. apply bind_Ok in H4 as (fk & s4' & H4 & Hr). injection Hr as <- <-.
  destruct (X509KeyPair (pf_data fc) (pf_data fk)) as [tc'|] eqn:Hx; [|done]. injection Hp as -> <-.
  destruct (calm_run (os_Stat c) U s) as [S3 U3]; [tls|tls|done|done|]. rewrite H3 in S3, U3. cbn [snd] in S3, U3.
  assert (reads s3' c (pf_data fc)) as C3 by (apply Stat_Ok in H3; by exists fc).
  apply (reads_calm (os_Stat k) U) in C3; [|tls|done|done|done]. rewrite H4 in C3.
  exists (pf_data fc), (pf_data fk). split_and!; [done|apply Stat_Ok in H4; by exists fk|done].
Qed.

Lemma WriteFile_Ok p data mode s u s' : os_WriteFile p data mode s = (Ok u, s') → reads s' p data.
Proof.
  unfold os_WriteFile. destruct (next_event s) as [e s1]. destruct (fe_fails e); [done|]. intros [= _ <-].
  eexists. split; [cbn; apply lookup_insert_eq|done].
Qed.

Lemma persist_Ok U dir certPEM keyPEM s u s' :
  let c := path_join dir selfSignedCert in let k := path_join dir selfSignedKey in
  c ∈ U → k ∈ U → at_rest s → undisturbed U s → persistSelfSigned dir certPEM keyPEM s = (Ok u, s') →
  reads s' c certPEM ∧ reads s' k keyPEM.
Proof.
  intros c k HcU HkU Hs Hu Hp. assert (proper_seg selfSignedCert ∧ proper_seg selfSignedKey) as [P1 P2].
  { split; split; apply (bool_decide_unpack _); by vm_compute. }
  assert (c ≠ k) as Hck by (by apply path_join_distinct).
  assert (∀ q, q ∉ (∅ : gset string)) as N3 by set_solver.
  apply map_err_Ok, bind_Ok in Hp as (u1 & s1 & H1 & Hp). apply bind_Ok in Hp as (u2 & s2 & H2 & Hp). fold c in H2. fold k in Hp.
  destruct (calm_run secretfile_MkdirAll U s) as [S1 U1]; [unfold secretfile_MkdirAll; tls|unfold secretfile_MkdirAll; tls|done|done|].
  rewrite H1 in S1, U1. cbn [snd] in S1, U1.
  destruct (calm_run (os_WriteFile c certPEM 420) U s1) as [S2 U2]; [tls|tls|done|done|]. rewrite H2 in S2, U2. cbn [snd] in S2, U2.
  pose proof (secret_Write_whole U k keyPEM s2 HkU S2 U2) as Hw. rewrite Hp in Hw. destruct Hw as (f & Hf & Hd & _).
  split; [|by exists f]. apply WriteFile_Ok in H2. apply (reads_calm (secretfile_Write k keyPEM) U) in H2; [by rewrite Hp in H2| |done|done|done].
  apply evo_secret_Write. set_solver.
Qed.

Lemma fallback_dir root : root ≠ "" →
  String.eqb root "" = false ∧ String.eqb (path_join root selfSignedDir) "" = false.
Proof. intros Hr. split; apply String.eqb_neq; [done|by apply path_join_nonempty]. Qed.

(** After a start on the fallback, the pair it presents is on disk. *)
Lemma newSelfSigned_reads U hosts root s sc s' : root ≠ "" → fallbackCert root ∈ U → fallbackKey root ∈ U → at_rest s → undisturbed U s →
  newSelfSigned hosts root s = (Ok sc, s') → ∃ cd kd tc, reads s' (fallbackCert root) cd ∧ reads s' (fallbackKey root) kd ∧
    X509KeyPair cd kd = Some tc ∧ sc_current sc = Some tc.
Proof.
  intros Hr HcU HkU Hs Hu. destruct (fallback_dir root Hr) as [R1 R2]. unfold newSelfSigned. rewrite R1, R2. intros Hn.
  apply bind_Ok in Hn as (r & s1 & Hl & Hn). rewrite try_Ok in Hl. injection Hl as Hl1 Hl2.
  destruct (loadPersistedSelfSigned (path_join root selfSignedDir) s) as [r' s1'] eqn:Hp. cbn in Hl1, Hl2. subst r' s1'.
  destruct r as [tc|e].
  - apply bind_Ok in Hp as (tc' & s2 & Hx & Hq). destruct (LoadX_reads U _ _ _ _ _ HcU HkU Hs Hu Hx) as (cd & kd & Hc & Hk & Hxy).
    destruct (tc_Certificate tc') as [|der rest]; [done|]. destruct (ParseCertificate der) as [lf|]; [|done].
    apply bind_Ok in Hq as (now & s3 & Hg & Hq). injection Hg as _ <-. destruct (_ <? now); [done|]. injection Hq as -> <-.
    assert (s' = s2) as -> by (revert Hn; unfold newSelfSignedFrom; destruct (tc_Certificate tc); [done|by intros [= _ <-]]).
    apply from_Ok in Hn as (der' & rest' & _ & ->). by exists cd, kd, tc.
  - destruct (quiet_run _ s (quiet_persisted (path_join root selfSignedDir)) Hs) as [_ Hs1].
    assert (undisturbed U s1) as Hu1.
    { destruct (calm_run (loadPersistedSelfSigned (path_join root selfSignedDir)) U s) as [_ Hu1]; [|apply quiet_persisted|done|done|by rewrite Hp in Hu1].
      apply evo_persisted. }
    rewrite Hp in Hs1. cbn [snd] in Hs1. apply bind_Ok in Hn as ([c k] & s2 & Hg & Hn).
    assert (s2 = s1) as ->.
    { revert Hg. unfold generateSelfSigned. destruct (subjectNames hosts) as [[|n ns] ips]; [done|]. by destruct (issue _ _ _ _) as [[]|]; [intros [= _ _ <-]|]. }
    destruct (X509KeyPair c k) as [tc|] eqn:Hx; [|done]. apply bind_Ok in Hn as (tc' & s3 & Hq & Hn). injection Hq as <- <-.
    apply bind_Ok in Hn as (u & s4 & Hps & Hn). destruct (persist_Ok U _ c k _ _ _ HcU HkU Hs1 Hu1 Hps) as [Hrc Hrk].
    assert (s' = s4) as -> by (revert Hn; unfold newSelfSignedFrom; destruct (tc_Certificate tc); [done|by intros [= _ <-]]).
    apply from_Ok in Hn as (der' & rest' & _ & ->). by exists c, k, tc.
Qed.

(** A later start finds it, as long as it is valid. *)
Lemma calm_newSelfSigned hosts root s fc fk tc der rest leaf : root ≠ "" → in_script s = [] →
  in_files s !! fallbackCert root = Some fc → in_files s !! fallbackKey root = Some fk →
  X509KeyPair (pf_data fc) (pf_data fk) = Some tc → tc_Certificate tc = der :: rest → ParseCertificate der = Some leaf →
  in_clock s + 2 ≤ lc_NotAfter leaf →
  newSelfSigned hosts root s = (Ok (mkServerCert (Some tc) zeroStamp (Fingerprint der) "" "" root true), ticked (ticked s)).
Proof.
  intros Hr Hq Hc Hk Hx Hd Hp Hv. destruct (fallback_dir root Hr) as [R1 R2]. unfold newSelfSigned. rewrite R1, R2.
  unfold mbind at 1, tw_bind at 1. rewrite try_Ok.
  assert (loadPersistedSelfSigned (path_join root selfSignedDir) s = (Ok tc, ticked (ticked s))) as Hl.
  { unfold loadPersistedSelfSigned, mbind, tw_bind. rewrite (calm_LoadX s _ _ fc fk tc) by done. rewrite Hd, Hp. unfold tw_get. cbn [in_clock ticked].
    destruct (lc_NotAfter leaf <? in_clock s + 1 + 1) eqn:E; [lia|done]. }
  rewrite Hl. cbn [fst snd]. unfold newSelfSignedFrom. by rewrite Hd.
Qed.
End listener.
