(* ===== verification/ServerTlsTheorems.v ===== *)
(** The listener's certificate over time: it is never lost, it follows the pair on
    disk, a replacement that is reported is served, and the fallback outlives a
    restart; then a small cryptographic library for evaluation, and evaluated cases
    where the code departs from what it says. *)

From S2P Require Import Prelude GoStrings MediaPaths FilePaths ConfigValues Config ServerTls ServerTlsFacts.
Open Scope Z_scope.

Section listener.
Context `{GoRuntime, TlsLibrary}.

(** C39: a listener that started with TLS always has a certificate to present. From an
    instance at rest (no temporary file in hand, stamps in the past, a clock that moves at
    each call), after a start that succeeded and then any sequence of handshakes, readings
    of the screen and of the interface, and replacements by administrators, however
    malformed, while other programs write or remove any file in between and whichever
    calls of the file system fail, a handshake gets a certificate: one of a certificate and
    key that hold together as a pair, and the fingerprint the instance reports is the one
    of its leaf. *)
Theorem listener_always_serves cfg root s u s1 ops : at_rest s → tls_Serves cfg = true → start_listener cfg root s = (Ok u, s1) →
  let s2 := cert_run cfg ops s1 in
  ∃ tc c k der rest sc, (getCertificate s2).1 = Ok tc ∧ X509KeyPair c k = Some tc ∧ tc_Certificate tc = der :: rest ∧
    in_cert (getCertificate s2).2 = Some sc ∧ sc_current sc = Some tc ∧ sc_digest sc = Fingerprint der.
Proof.
  intros Hs Ht Hst s2. pose proof (run_serving cfg ops _ (start_serving cfg root s u s1 Hs Hst)) as Hsv. fold s2 in Hsv.
  destruct (sv_listening _ _ Hsv Ht) as [sc Hsc].
  destruct (getCertificate_serving s2 sc Hsv Hsc) as (tc & sc' & Hr & Hsv' & Hc' & Hcur & _).
  destruct (sv_follows _ _ Hsv' sc' Hc') as (c & k & tc' & der & rest & Hx & Hcur' & Hd & Hdg & _).
  rewrite Hcur in Hcur'. injection Hcur' as <-. by exists tc, c, k, der, rest, sc'.
Qed.

(** Once other programs are quiet, a handshake gets the pair the configured files
    hold, however it came there. *)
Theorem listener_follows_disk cfg root s u s1 ops sc c k tc : at_rest s → start_listener cfg root s = (Ok u, s1) →
  let s2 := cert_run cfg ops s1 in in_script s2 = [] → in_cert s2 = Some sc → sc_certFile sc ≠ "" →
  reads s2 (sc_certFile sc) c → reads s2 (sc_keyFile sc) k → X509KeyPair c k = Some tc →
  (getCertificate s2).1 = Ok tc.
Proof.
  intros Hs Hst s2 Hq Hsc Hne (fc & Hc & <-) (fk & Hk & <-) Hx.
  pose proof (run_serving cfg ops _ (start_serving cfg root s u s1 Hs Hst)) as Hsv. fold s2 in Hsv.
  destruct (getCertificate_serving s2 sc Hsv Hsc) as (tc' & sc' & -> & _ & _ & Hcur & _ & _ & _ & _ & Hr & _).
  destruct (calm_refresh s2 sc fc fk tc (sv_follows _ _ Hsv sc Hsc)) as (sc2 & Hr' & ?); try done. congruence.
Qed.

Lemma upload_exact doc : Z.of_nat (slen (stake (S (Z.to_nat MaxPEMBytes)) doc)) ≤ MaxPEMBytes →
  stake (S (Z.to_nat MaxPEMBytes)) doc = doc.
Proof.
  generalize MaxPEMBytes. intros n Hn. destruct (decide (slen doc ≤ S (Z.to_nat n))%nat) as [Hle|Hgt]; [by apply stake_all|].
  rewrite slen_stake in Hn by lia. lia.
Qed.

(** C34: A replacement the screen reports is the one served, when nobody else writes the two
    files meanwhile. Take a listener started on an instance at rest (stamps in the past, a
    clock that moves at each call), after any operations and whichever calls failed; its
    certificate and key destinations are two files, and during this upload no other
    program or administrator changes either (the handler takes no lock over the write and
    the adoption). If the upload reports success, the pair submitted is on disk, its key
    readable by its owner only, the listener presents it, and the fingerprint shown,
    audited and served are one. *)
Theorem replacement_served cfg root s0 u s1 ops sc c k actor certPEM keyPEM d fp s' :
  at_rest s0 → start_listener cfg root s0 = (Ok u, s1) →
  let s := cert_run cfg ops s1 in in_cert s = Some sc → cert_Destination sc = Some (c, k) → c ≠ k → undisturbed {[c; k]} s →
  adminNetworkCertificate actor (Some (Some certPEM, Some keyPEM)) s = (Ok (d, fp), s') →
  ∃ sc' tc der rest f, in_cert s' = Some sc' ∧ X509KeyPair certPEM keyPEM = Some tc ∧ sc_current sc' = Some tc ∧
    tc_Certificate tc = der :: rest ∧ fp = Fingerprint der ∧ sc_digest sc' = fp ∧ sc_selfSigned sc' = false ∧
    cr_Fingerprint ∘ vw_cert <$> nd_Cert d = Some fp ∧
    reads s' c certPEM ∧ in_files s' !! k = Some f ∧ pf_data f = keyPEM ∧ pf_mode f = secret_Mode ∧
    in_trail s' = in_trail s ++ [mkCertEvent actor fp true].
Proof.
  intros Hs0 Hst s Hsc Hd Hck Hu Hadm. pose proof (run_serving cfg ops _ (start_serving cfg root s0 u s1 Hs0 Hst)) as Hsv. fold s in Hsv.
  assert (c ∈ ({[c; k]} : gset string)) as HcU by set_solver. assert (k ∈ ({[c; k]} : gset string)) as HkU by set_solver.
  revert Hadm. unfold adminNetworkCertificate, readCertPair, readUpload. cbn [fmap option_fmap option_map mbind option_bind].
  set (c' := stake _ certPEM). set (k' := stake _ keyPEM). unfold certDestination. rewrite Hsc. cbn [mbind option_bind]. rewrite Hd.
  pose proof (Replace_whole {[c; k]} c k c' k' (in_clock s) s Hck HcU HkU (sv_settled _ _ Hsv) Hu) as Hw.
  destruct (quiet_serving _ s (quiet_Replace c k c' k' (in_clock s)) Hsv) as [Hsv2 Hsc2].
  destruct (calm_run _ {[c; k]} s (evo_Replace _ c k c' k' (in_clock s)) (proj2 (quiet_Replace c k c' k' (in_clock s))) (sv_settled _ _ Hsv) Hu)
    as [Hs2 Hu2].
  pose proof (ev_trail _ _ _ _ (proj1 (quiet_run _ s (quiet_Replace c k c' k' (in_clock s)) (sv_settled _ _ Hsv)))) as Ht2.
  destruct (Replace c k c' k' (in_clock s) s) as [[cert|e] s2]; [|by destruct (networkRefusal _ _ _) as [[]]].
  cbn [snd] in Hsv2, Hsc2, Hs2, Hu2, Ht2.
  destruct Hw as (Hc2 & (f & Hf & Hfd & Hfm) & der & leaf & Hck2 & ->). rewrite Hsc in Hsc2.
  apply check_pair_Ok in Hck2 as (_ & _ & Lc & Lk & _ & _ & tc & rest & Hx & Hder). apply upload_exact in Lc, Lk. fold c' in Lc. fold k' in Lk.
  rewrite Lc in *. rewrite Lk in *. clear c' k' Lc Lk.
  assert (holds {[c; k]} c k certPEM keyPEM s2) as Hh by (split; [done|done|done|by exists f]).
  pose proof (Adopt_serving s2 Hsv2) as Hsv3. destruct (Adopt s2) as [[u3|e] s3] eqn:Ha; [|by destruct (networkRefusal _ _ _) as [[]]].
  destruct (Adopt_holds _ c k certPEM keyPEM sc s2 u3 s3 Hsv2 Hsc2 Hd Hh Ha) as (sc3 & tc' & Hsc3 & Hx' & Hcur3 & Hself3 & <- & <- & Hh3 & Hk3 & Ht3).
  rewrite Hx in Hx'. injection Hx' as <-. cbv zeta. set (s4 := with_trail _ s3).
  assert (serving (tls_Serves cfg) s4) as Hsv4 by (by apply serving_trail).
  assert (holds {[sc_certFile sc3; sc_keyFile sc3]} (sc_certFile sc3) (sc_keyFile sc3) certPEM keyPEM s4) as Hh4 by (by destruct Hh3).
  destruct (Describe_holds _ certPEM keyPEM sc3 tc s4 Hsv4 Hsc3 Hx Hcur3 Hh4)
    as (cert & sc' & s5 & Hde & Hsc5 & Hcur5 & Hself5 & Hfp & (? & ? & tc5 & der5 & rest5 & _ & Hcur5' & Hder5 & Hdg5 & _) & Hk5 & Ht5 & Hh5).
  unfold networkScreenData. rewrite Hde. intros [= <- <- <-].
  rewrite Hcur5 in Hcur5'. injection Hcur5' as <-. rewrite Hder in Hder5. injection Hder5 as <- <-.
  exists sc', tc, der, rest, f. cbn. split_and!; try done; try congruence; [apply Hh5| |].
  - rewrite Hk5. change (in_files s4) with (in_files s3). congruence.
  - rewrite Ht5. cbn. by rewrite Ht3, Ht2.
Qed.

(** The fingerprint of the fallback survives a restart: while the persisted pair is
    left alone and valid, a later start presents the same certificate. *)
Theorem fallback_survives cfg root s u s1 sc s2 leaf : at_rest s → tls_Serves cfg = true → tl_CertFile cfg = "" → root ≠ "" →
  undisturbed {[fallbackCert root; fallbackKey root]} s → start_listener cfg root s = (Ok u, s1) → in_cert s1 = Some sc →
  (tc ← sc_current sc; der ← head (tc_Certificate tc); ParseCertificate der) = Some leaf → in_script s2 = [] →
  (∀ p, p ∈ ({[fallbackCert root; fallbackKey root]} : gset string) → in_files s2 !! p = in_files s1 !! p) →
  in_clock s2 + 2 ≤ lc_NotAfter leaf →
  ∃ s3, start_listener cfg root s2 = (Ok tt, s3) ∧ in_cert s3 = Some sc.
Proof.
  intros Hs Ht He Hr Hu. unfold start_listener, NewServerCert. rewrite Ht, He. cbn [String.eqb]. intros Hst Hsc Hl Hq Hf Hv.
  apply bind_Ok in Hst as (sc' & s1' & Hn & Hst). injection Hst as _ <-. cbn in Hsc. injection Hsc as ->.
  destruct (newSelfSigned_reads {[fallbackCert root; fallbackKey root]} _ _ _ _ _ Hr ltac:(set_solver) ltac:(set_solver) Hs Hu Hn)
    as (cd & kd & tc & (fc & Hc & <-) & (fk & Hk & <-) & Hx & Hcur).
  apply newSelfSigned_Ok in Hn as (_ & _ & tc' & der & rest & _ & Hd & ->). cbn in Hcur, Hl. injection Hcur as ->.
  rewrite Hd in Hl. cbn in Hl, Hf. unfold mbind, tw_bind.
  rewrite (calm_newSelfSigned _ _ s2 fc fk tc der rest leaf); [by eexists|done|done| | |done|done|done|done].
  - rewrite Hf; [done|set_solver].
  - rewrite Hf; [done|set_solver].
Qed.

(** The fallback covers every host it is given, the machine's name and the loopback
    names, each once, and as a name or as an address but not both. *)
Lemma add_subject_spec acc h : NoDup acc.1 ∧ NoDup acc.2 →
  (NoDup (add_subject acc h).1 ∧ NoDup (add_subject acc h).2) ∧ acc.1 ⊆ (add_subject acc h).1 ∧ acc.2 ⊆ (add_subject acc h).2 ∧
  (h ≠ "" → match ParseIP h with Some ip => ip ∈ (add_subject acc h).2 | None => h ∈ (add_subject acc h).1 end).
Proof.
  intros [H1 H2]. unfold add_subject. destruct (String.eqb_spec h "") as [->|Hh]; [by split_and!|].
  destruct (ParseIP h) as [ip|]; case_bool_decide as Hb; cbn; split_and!; try done; try (apply NoDup_app; split_and!; try done;
    [set_solver|apply NoDup_singleton]); set_solver.
Qed.

Theorem subject_names_cover hosts h : h ∈ (trim_space <$> hosts) ++ option_list Hostname ++ ["localhost"; "127.0.0.1"; "::1"] → h ≠ "" →
  let '(dns, ips) := subjectNames hosts in
  NoDup dns ∧ NoDup ips ∧ match ParseIP h with Some ip => ip ∈ ips | None => h ∈ dns end.
Proof.
  unfold subjectNames. generalize ((trim_space <$> hosts) ++ option_list Hostname ++ ["localhost"; "127.0.0.1"; "::1"]). intros l Hin Hne.
  assert (∀ acc, NoDup acc.1 ∧ NoDup acc.2 → let r := fold_left add_subject l acc in (NoDup r.1 ∧ NoDup r.2) ∧ acc.1 ⊆ r.1 ∧ acc.2 ⊆ r.2 ∧
    ∀ x, x ∈ l → x ≠ "" → match ParseIP x with Some ip => ip ∈ r.2 | None => x ∈ r.1 end) as Hf.
  { clear. induction l as [|y l IH]; intros acc Hacc; cbn; [split_and!; try done; set_solver|].
    destruct (add_subject_spec acc y Hacc) as (Hn & S1 & S2 & Hy). destruct (IH _ Hn) as (Hn' & S1' & S2' & Hx).
    split_and!; [apply Hn'|apply Hn'|set_solver|set_solver|]. intros x [->|Hxl]%elem_of_cons Hne; [|by apply Hx].
    specialize (Hy Hne). destruct (ParseIP y); set_solver. }
  destruct (Hf ([], []) ltac:(split; constructor)) as ([H1 H2] & _ & _ & Hx). destruct (fold_left add_subject l ([], [])) as [dns ips].
  split; [done|]. split; [done|]. by apply Hx.
Qed.

(** The separators of a fingerprint lose nothing of the digest. *)
Lemma colon_pairs_inj n : ∀ s t, (slen s ≤ n)%nat → colon_pairs s = colon_pairs t → s = t.
Proof.
  induction n as [n IH] using lt_wf_ind. intros [|a [|b [|x s]]] [|a' [|b' [|x' t]]] Hn He; cbn in He; try congruence; try done.
  injection He as -> -> He. f_equal. f_equal. apply (IH (slen (String x s))); [cbn in Hn |- *; lia|done|]. exact He.
Qed.
Theorem fingerprint_tells der der' : Fingerprint der = Fingerprint der' →
  map_bytes upper_byte (sha256_hex der) = map_bytes upper_byte (sha256_hex der').
Proof. unfold Fingerprint. by apply (colon_pairs_inj (slen (map_bytes upper_byte (sha256_hex der)))). Qed.
End listener.

(** * The toy library *)

(** A certificate is ["C"] and the instant it expires, its key ["K"] and the same. *)
Definition toy_pair (c k : string) : option tlsCertificate :=
  match c, k with
  | String "C" x, String "K" y => if String.eqb x y then Some (mkTlsCertificate [c] k) else None
  | _, _ => None
  end.
Definition toy_parse (der : string) : option leafCert :=
  match der with
  | String "C" x => Some (mkLeaf x "toy" [] [] 0 (default 0 (ParseInt x)))
  | _ => None
  end.
Definition toy_issue (names ips : list string) (from until : Z) : option (string * string) :=
  if (int64_min <=? until) && (until <=? int64_max)
  then Some (String "C" (pretty until), String "K" (pretty until)) else None.
Definition toy_ip (s : string) : option string :=
  if bool_decide (s ∈ ["127.0.0.1"; "::1"]) then Some s else None.

#[local] Instance toy_tls : TlsLibrary.
Proof.
  refine (Build_TlsLibrary toy_pair toy_parse id toy_issue toy_ip (Some "mirror") _ _).
  - intros c k tc. unfold toy_pair. destruct c as [|x c]; [done|]. destruct x as [[] [] [] [] [] [] [] []]; try done.
    destruct k as [|y k]; [done|]. destruct y as [[] [] [] [] [] [] [] []]; try done.
    destruct (String.eqb c k); [|done]. intros [= <-]. cbn. by eexists _, _, _.
  - intros names ips from until c k. unfold toy_issue.
    destruct ((int64_min <=? until) && (until <=? int64_max)) eqn:E; [|done]. apply andb_prop in E as [E1%Z.leb_le E2%Z.leb_le].
    intros [= <- <-]. eexists _, _, _, _. split_and!; [cbn; by rewrite String.eqb_refl|done|done|]. cbn. by rewrite ParseInt_pretty.
Defined.

(** An instance with no file, and one with a pair that expires at 900. *)
Definition bare (files : gmap string pfile) (script : list fs_event) : CertInstance := mkInstance files 10 None [] script None [].
Definition pair_files (n : string) : gmap string pfile :=
  {["/etc/tls.crt" := mkPfile (String "C" n) 10 420; "/etc/tls.key" := mkPfile (String "K" n) 10 384]}.
Definition plain_cfg : cfgServerTLS := mkServerTLS true "" "" ["mirror.local"].
Definition pair_cfg : cfgServerTLS := mkServerTLS false "/etc/tls.crt" "/etc/tls.key" [].
Definition quiet_event : fs_event := mkFsEvent 1 [] false 0.
Definition failing_event : fs_event := mkFsEvent 1 [] true 0.
Definition ran (m : tw unit) (s : CertInstance) : CertInstance := (m s).2.

Lemma bare_settled files script : Forall (λ e, 1 ≤ fe_elapsed e) script → (∀ p f, files !! p = Some f → 0 < pf_mod f ≤ 10) →
  at_rest (bare files script).
Proof. by split. Qed.
Lemma pair_files_old n p f : pair_files n !! p = Some f → 0 < pf_mod f ≤ 10.
Proof.
  unfold pair_files. rewrite lookup_insert_Some, lookup_singleton_Some. by intros [[_ <-]|(_ & _ & <-)].
Qed.

(** * Cases *)

(** An adopted pair is served until the instance stops: a restart presents the
    fallback again. *)
Definition adopting : CertInstance := ran (start_listener plain_cfg "/state") (bare ∅ []).
Definition adopted : CertInstance := (adminNetworkCertificate "admin" (Some (Some "C900", Some "K900")) adopting).2.
Example adoption_lost_at_restart :
  sc_digest <$> in_cert adopted = Some "C9:00" ∧ sc_selfSigned <$> in_cert adopted = Some false ∧
  let restarted := ran (start_listener plain_cfg "/state") adopted in
  sc_digest <$> in_cert restarted = sc_digest <$> in_cert adopting ∧ sc_selfSigned <$> in_cert restarted = Some true.
Proof. by vm_compute. Qed.

(** The endpoint refuses on the fallback what the screen accepts, and says so. *)
Example endpoint_refuses_fallback :
  (api_network_replace plain_cfg "admin" (Some ("C900", "K900")) adopting).1 = Err ReplaceNoPath ∧
  is_ok (adminNetworkCertificate "admin" (Some (Some "C900", Some "K900")) adopting).1 = true ∧
  match (api_network_get plain_cfg adopted).1 with Ok r => nr_Replaceable r = false | Err _ => False end.
Proof. by vm_compute. Qed.

(** When the key cannot be written, the certificate already is: the listener keeps
    the pair it has, and the next start fails. *)
Definition torn_pair : CertInstance :=
  (api_network_replace pair_cfg "admin" (Some ("C950", "K950"))
    (ran (start_listener pair_cfg "") (bare (pair_files "900") (replicate 12 quiet_event ++ [failing_event])))).2.
Example refused_pair_blocks_restart :
  in_trail torn_pair = [mkCertEvent "admin" "" false] ∧ pf_data <$> in_files torn_pair !! "/etc/tls.crt" = Some "C950" ∧
  tc_Certificate <$> (match (getCertificate torn_pair).1 with Ok tc => Some tc | Err _ => None end) = Some ["C900"] ∧
  (start_listener pair_cfg "" torn_pair).1 = Err (ServerTLSError "/etc/tls.crt").
Proof. by vm_compute. Qed.

(** When only the last restriction of the key fails, the replacement is refused and
    audited as a failure, and served all the same. *)
Definition refused_pair : CertInstance :=
  (api_network_replace pair_cfg "admin" (Some ("C950", "K950"))
    (ran (start_listener pair_cfg "") (bare (pair_files "900") (replicate 19 quiet_event ++ [failing_event])))).2.
Example refused_pair_served :
  in_trail refused_pair = [mkCertEvent "admin" "" false] ∧
  tc_Certificate <$> (match (getCertificate refused_pair).1 with Ok tc => Some tc | Err _ => None end) = Some ["C950"].
Proof. by vm_compute. Qed.

(** A replacement of the same size within the granularity of the file system's clock
    is reported and not served. *)
Definition same_tick : CertInstance :=
  ran (start_listener pair_cfg "") (bare (pair_files "900") (replicate 30 (mkFsEvent 0 [] false 0))).
Example same_stamp_unseen :
  let '(r, s) := api_network_replace pair_cfg "admin" (Some ("C950", "K950")) same_tick in
  cr_Fingerprint <$> (match r with Ok c => Some c | Err _ => None end) = Some "C9:50" ∧
  sc_digest <$> in_cert (getCertificate s).2 = Some "C9:00".
Proof. by vm_compute. Qed.

(** Nothing holds the write and the adoption of an upload together: another writer's pair
    that lands between them is served, while the screen and the trail name the upload. *)
Definition overtaken : CertInstance :=
  ran (start_listener pair_cfg "") (bare (pair_files "800") (replicate 21 quiet_event ++
    [mkFsEvent 1 [FsPut "/etc/tls.crt" "C950" 420; FsPut "/etc/tls.key" "K950" 384] false 0])).
Example overtaken_upload_misreported :
  let '(r, s) := adminNetworkCertificate "admin" (Some (Some "C900", Some "K900")) overtaken in
  snd <$> (match r with Ok x => Some x | Err _ => None end) = Some "C9:00" ∧
  in_trail s = [mkCertEvent "admin" "C9:00" true] ∧ sc_digest <$> in_cert s = Some "C9:50".
Proof. by vm_compute. Qed.

(** * Witnesses *)

Lemma bare_ok : at_rest (bare ∅ []).
Proof. apply bare_settled; [constructor|done]. Qed.

Lemma replacement_served_witness : ∃ d fp s' sc' tc,
  adminNetworkCertificate "admin" (Some (Some "C900", Some "K900")) adopting = (Ok (d, fp), s') ∧
  in_cert s' = Some sc' ∧ toy_pair "C900" "K900" = Some tc ∧ sc_current sc' = Some tc ∧ sc_digest sc' = fp ∧ fp = "C9:00".
Proof.
  destruct (start_listener plain_cfg "/state" (bare ∅ [])) as [[[]|e] s1] eqn:Es; [|by vm_compute in Es].
  assert (adopting = s1) as Ha by (unfold adopting, ran; by rewrite Es).
  destruct (in_cert adopting) as [sc|] eqn:Hsc; [|by vm_compute in Hsc].
  destruct (cert_Destination sc) as [[c k]|] eqn:Hd; [|vm_compute in Hsc; injection Hsc as <-; by vm_compute in Hd].
  destruct (adminNetworkCertificate "admin" (Some (Some "C900", Some "K900")) adopting) as [[[d fp]|e] s'] eqn:Hr; [|by vm_compute in Hr].
  assert (c ≠ k) as Hck by (vm_compute in Hsc; injection Hsc as <-; vm_compute in Hd; by injection Hd as <- <-).
  assert (undisturbed {[c; k]} s1) as Hu by (rewrite <- Ha; unfold undisturbed; by vm_compute).
  rewrite Ha in Hsc, Hr.
  destruct (replacement_served plain_cfg "/state" (bare ∅ []) tt s1 [] sc c k "admin" "C900" "K900" d fp s' bare_ok Es Hsc Hd Hck Hu Hr)
    as (sc' & tc & der & rest & f & H1 & H2 & H3 & H4 & H5 & H6 & _).
  exists d, fp, s', sc', tc. split; [done|]. split; [done|]. split; [done|]. split; [done|]. split; [done|].
  injection H2 as <-. injection H4 as <- <-. by rewrite H5.
Defined.

Lemma listener_always_serves_witness : ∃ tc, (getCertificate (cert_run pair_cfg [OpHandshake] torn_pair)).1 = Ok tc.
Proof.
  destruct (start_listener pair_cfg "" (bare (pair_files "900") (replicate 12 quiet_event ++ [failing_event]))) as [[[]|e] s1] eqn:Es;
    [|by vm_compute in Es].
  assert (at_rest (bare (pair_files "900") (replicate 12 quiet_event ++ [failing_event]))) as Hs
    by (apply bare_settled; [by repeat constructor|apply pair_files_old]).
  destruct (listener_always_serves pair_cfg "" _ tt s1 [OpApiReplace "admin" (Some ("C950", "K950")); OpHandshake] Hs eq_refl Es)
    as (tc & _ & _ & _ & _ & _ & Ht & _).
  exists tc. rewrite <- Ht. unfold torn_pair, ran. rewrite Es. reflexivity.
Defined.
