(* ===== verification/Egress.v ===== *)
(** The outbound transport (internal/netx/egress.go): the proxy a request goes through
    with its credentials, the authorities that are trusted, and what is said of both
    (internal/tlsadmin/tlsadmin.go). *)

From S2P Require Import Prelude GoStrings ConfigValues Config.

(** * The libraries *)

(** [url.URL]: user information apart. *)
Record purl := mkPurl { pr_User : option (string * string); pr_rest : string }.

Class NetLibrary : Type := {
  (** [httpproxy.Config.ProxyFunc]: the proxies for each scheme, the exceptions, the
      destination; no proxy, a proxy, or an error. *)
  ProxyFunc : string → string → string → string → res unit (option purl);
  (** The certificates [AppendCertsFromPEM] finds in a bundle. *)
  pem_certs : string → list string;
  (** [x509.SystemCertPool]. *)
  SystemCertPool : option (list string);
}.

Inductive net_error := ProxyInvalid (setting raw : string) | TrustStore (source : string).

Record EgressT := mkEgress {
  eg_selector : option (string → res unit (option purl)); eg_username : string; eg_password : Secret;
  eg_proxyURL : string; eg_extraRoots : Z; eg_exclusive : bool; eg_RootCAs : option (list string) }.

(** * The proxy *)

(** [proxySelector]: the settings are checked in the order the map gives them. *)
Definition proxy_settings (cfg : cfgProxy) : gmap string string :=
  {["network.proxy.url" := px_URL cfg; "network.proxy.httpsURL" := px_HTTPSURL cfg]}.
Fixpoint check_settings `{UrlLib} (l : list (string * string)) : res net_error unit :=
  match l with
  | [] => Ok tt
  | (key, raw) :: l =>
      if String.eqb raw "" then check_settings l
      else match url_parse raw with
           | None => Err (ProxyInvalid key raw)
           | Some _ => check_settings l
           end
  end.
Definition proxySelector `{GoRuntime, UrlLib, NetLibrary} (cfg : cfgProxy) : res net_error (string → res unit (option purl)) :=
  let httpsProxy := if String.eqb (px_HTTPSURL cfg) "" then px_URL cfg else px_HTTPSURL cfg in
  let httpProxy := if String.eqb (px_URL cfg) "" then httpsProxy else px_URL cfg in
  _ ← check_settings (map_range (proxy_settings cfg));
  Ok (ProxyFunc httpProxy httpsProxy (join "," (px_NoProxy cfg))).

(** [Egress.proxyFor]: the credentials go to the proxy's URL and nowhere else. *)
Definition proxyFor (e : EgressT) (dest : string) : res unit (option purl) :=
  match eg_selector e with
  | None => Ok None
  | Some select =>
      u ← select dest;
      Ok (match u with
          | None => None
          | Some u =>
              if String.eqb (eg_username e) "" && secret_IsZero (eg_password e) then Some u
              else Some (mkPurl (Some (eg_username e, Reveal (eg_password e))) (pr_rest u))
          end)
  end.

(** * The authorities *)

(** A pool holds a certificate once. *)
Definition add_cert (pool : list string) (c : string) : list string := if bool_decide (c ∈ pool) then pool else pool ++ [c].

(** [appendPEM]. *)
Definition appendPEM `{NetLibrary} (pool : list string) (pem source : string) : res net_error (list string * Z) :=
  match pem_certs pem with
  | [] => Err (TrustStore source)
  | certs =>
      let after := fold_left add_cert certs pool in
      if Nat.eqb (length after) (length pool) then Err (TrustStore source)
      else Ok (after, Z.of_nat (length after) - Z.of_nat (length pool))%Z
  end.

(** [rootPool], over the files as they read. *)
Definition add_bundle `{NetLibrary} (acc : list string * Z) (pem source : string) : res net_error (list string * Z) :=
  '(pool, n) ← appendPEM acc.1 pem source; Ok (pool, acc.2 + n)%Z.
Fixpoint add_files `{NetLibrary} (read : string → option string) (paths : list string) (acc : list string * Z) :
    res net_error (list string * Z) :=
  match paths with
  | [] => Ok acc
  | p :: paths =>
      match read p with
      | None => Err (TrustStore p)
      | Some pem => acc ← add_bundle acc pem p; add_files read paths acc
      end
  end.
Definition rootPool `{NetLibrary} (read : string → option string) (cfg : cfgClientTLS) : res net_error (option (list string) * Z) :=
  if negb (clientTLS_Configured cfg) && negb (ct_ExclusiveTrust cfg) then Ok (None, 0%Z)
  else
    base ← (if ct_ExclusiveTrust cfg then Ok []
            else match SystemCertPool with Some pool => Ok pool | None => Err (TrustStore "the host certificate store") end);
    acc ← add_files read (ct_CAFiles cfg) (base, 0%Z);
    acc ← (if String.eqb (ct_CA cfg) "" then Ok acc else add_bundle acc (ct_CA cfg) "network.tls.ca");
    Ok (Some acc.1, acc.2).

(** [New] and [Or]. *)
Definition NewEgress `{GoRuntime, UrlLib, NetLibrary} (read : string → option string) (cfg : cfgNetwork) : res net_error EgressT :=
  let px := nw_Proxy cfg in
  sel ← (if proxy_Configured px then s ← proxySelector px; Ok (Some s) else Ok None);
  '(pool, added) ← rootPool read (nw_TLS cfg);
  Ok (mkEgress sel (px_Username px) (px_Password px)
        (if proxy_Configured px then (if String.eqb (px_URL px) "" then px_HTTPSURL px else px_URL px) else "")
        added (ct_ExclusiveTrust (nw_TLS cfg)) pool).
Definition direct_egress : EgressT := mkEgress None "" (NewSecret "") "" 0 false None.
Definition egress_Or (e : option EgressT) : EgressT := default direct_egress e.

(** * What is said of it *)

Definition ProxyAuthenticated (e : EgressT) : bool := negb (String.eqb (eg_username e) "") || negb (secret_IsZero (eg_password e)).
(** [Egress.Describe]. *)
Definition describe_egress (e : EgressT) : string :=
  (if String.eqb (eg_proxyURL e) "" then "direct egress"
   else "proxy " +:+ eg_proxyURL e +:+
     (if ProxyAuthenticated e
      then " (authenticated as " +:+ eg_username e +:+ ", password " +:+ secret_Redact (eg_password e) +:+ ")" else "")) +:+
  (if eg_exclusive e then ", trusting " +:+ pretty (eg_extraRoots e) +:+ " configured authorities only"
   else if (0 <? eg_extraRoots e)%Z then ", trusting " +:+ pretty (eg_extraRoots e) +:+ " configured authorities plus the host store"
   else ", trusting the host certificate store").

(** [DescribeEgress]. *)
Record Outbound := mkOutbound {
  ob_Proxy : string; ob_ProxyAuthenticated : bool; ob_ExtraRoots : Z; ob_ExclusiveTrust : bool; ob_Summary : string }.
Definition DescribeEgress (e : option EgressT) : option Outbound :=
  e ← e; Some (mkOutbound (eg_proxyURL e) (ProxyAuthenticated e) (eg_extraRoots e) (eg_exclusive e) (describe_egress e)).

(** * Results *)

Section egress.
Context `{GoRuntime, UrlLib, NetLibrary}.

Lemma check_settings_spec l : is_ok (check_settings l) = true ↔ Forall (λ s, s.2 = "" ∨ is_Some (url_parse s.2)) l.
Proof.
  induction l as [|[key raw] l IH]; cbn; [by split|]. rewrite Forall_cons. cbn. destruct (String.eqb_spec raw "") as [->|Hr]; [naive_solver|].
  destruct (url_parse raw) as [u|]; cbn; [rewrite IH; naive_solver|]. split; [done|]. intros [[?|[? ?]] _]; done.
Qed.

(** A proxy setting that does not parse stops the start, whichever order the
    settings are visited in, and nothing else of the proxy does. *)
Lemma proxy_settings_checked cfg : is_ok (proxySelector cfg) = true ↔
  (px_URL cfg = "" ∨ is_Some (url_parse (px_URL cfg))) ∧ (px_HTTPSURL cfg = "" ∨ is_Some (url_parse (px_HTTPSURL cfg))).
Proof.
  assert (is_ok (proxySelector cfg) = is_ok (check_settings (map_range (proxy_settings cfg)))) as ->.
  { unfold proxySelector. by destruct (check_settings (map_range (proxy_settings cfg))). }
  rewrite check_settings_spec, map_range_perm. unfold proxy_settings.
  rewrite map_to_list_insert by by rewrite lookup_singleton_ne. rewrite map_to_list_singleton, !Forall_cons. cbn. naive_solver.
Qed.

(** A configuration that was validated builds its proxy. *)
Theorem validated_proxy_builds c : validateNetwork c = [] → is_ok (proxySelector (nw_Proxy (cf_Network c))) = true.
Proof.
  intros Hv. apply proxy_settings_checked. unfold validateNetwork in Hv.
  assert (∀ key raw, validate_proxy key raw = [] → raw = "" ∨ is_Some (url_parse raw)) as Hp.
  { intros key raw. unfold validate_proxy. destruct (String.eqb_spec raw ""); [by left|]. destruct (url_parse raw); [by right|done]. }
  apply app_eq_nil in Hv as [Hu1 Hv]. apply app_eq_nil in Hv as [Hu2 _]. split; by eapply Hp.
Qed.

Definition with_password (p : Secret) (cfg : cfgNetwork) : cfgNetwork :=
  let x := nw_Proxy cfg in mkNetwork (mkProxy (px_URL x) (px_HTTPSURL x) (px_NoProxy x) (px_Username x) p) (nw_TLS cfg).

Lemma NewEgress_password read cfg p : NewEgress read (with_password p cfg) =
  (e ← NewEgress read cfg;
   Ok (mkEgress (eg_selector e) (eg_username e) p (eg_proxyURL e) (eg_extraRoots e) (eg_exclusive e) (eg_RootCAs e))).
Proof.
  unfold NewEgress. cbn [with_password nw_Proxy nw_TLS px_URL px_HTTPSURL px_NoProxy px_Username px_Password].
  set (px := mkProxy _ _ _ _ _). change (proxy_Configured px) with (proxy_Configured (nw_Proxy cfg)).
  change (proxySelector px) with (proxySelector (nw_Proxy cfg)).
  destruct (proxy_Configured (nw_Proxy cfg)); [destruct (proxySelector (nw_Proxy cfg)); [|done]|]; cbn;
    by destruct (rootPool read (nw_TLS cfg)) as [[pool added]|].
Qed.

(** The password of the proxy is in nothing that is printed: whatever it is, the
    reports are the same. *)
Theorem password_unprinted read cfg p q e e' : secret_IsZero p = secret_IsZero q →
  NewEgress read (with_password p cfg) = Ok e → NewEgress read (with_password q cfg) = Ok e' →
  DescribeEgress (Some e) = DescribeEgress (Some e').
Proof.
  intros Hz. rewrite !NewEgress_password. destruct (NewEgress read cfg) as [e0|]; [|done]. cbn. intros [= <-] [= <-].
  unfold describe_egress, ProxyAuthenticated, secret_Redact. cbn. unfold secret_IsZero in *. by rewrite Hz.
Qed.

(** ** The pool *)

Lemma add_certs_spec certs : ∀ pool, ∃ new, fold_left add_cert certs pool = pool ++ new ∧ (∀ c, c ∈ new → c ∈ certs) ∧
  ∀ c, c ∈ certs → c ∈ pool ++ new.
Proof.
  induction certs as [|c certs IH]; intros pool; cbn; [exists []; rewrite app_nil_r; set_solver|].
  destruct (IH (add_cert pool c)) as (new & -> & Hn & Hc). unfold add_cert in *. case_bool_decide.
  - exists new. set_solver.
  - exists (c :: new). rewrite <- app_assoc in Hc |- *. set_solver.
Qed.

(** A pool grown by the certificates of some bundles. *)
Definition grown (pool : list string) (n : Z) (bundles : list string) (base : list string) : Prop :=
  ∃ new, pool = base ++ new ∧ n = Z.of_nat (length new) ∧ (∀ c, c ∈ new → ∃ pem, pem ∈ bundles ∧ c ∈ pem_certs pem) ∧
    ∀ pem c, pem ∈ bundles → c ∈ pem_certs pem → c ∈ pool.

Lemma add_bundle_grown acc pem source acc' bundles base : grown acc.1 acc.2 bundles base → add_bundle acc pem source = Ok acc' →
  grown acc'.1 acc'.2 (bundles ++ [pem]) base ∧ (acc.2 < acc'.2)%Z.
Proof.
  intros (new & Hp & Hn & Hfrom & Hin). unfold add_bundle, appendPEM. destruct (pem_certs pem) as [|c0 certs] eqn:Ec; [done|].
  destruct (add_certs_spec (c0 :: certs) acc.1) as (more & Hm & Hmin & Hcov). rewrite Hm.
  destruct (Nat.eqb_spec (length (acc.1 ++ more)) (length acc.1)) as [|Hne]; [done|]. intros [= <-]. cbn. rewrite length_app in Hne |- *.
  split; [|lia]. exists (new ++ more). rewrite Hp, app_assoc. split_and!; [done|rewrite ?length_app; lia| |].
  - intros c [Hc|Hc]%elem_of_app; [destruct (Hfrom c Hc) as (pem' & ? & ?); exists pem'; set_solver|].
    exists pem. split; [set_solver|]. rewrite Ec. by apply Hmin.
  - intros pem' c [Hb|Hb]%elem_of_app Hc; [apply elem_of_app; left; rewrite <- Hp; by eapply Hin|].
    apply list_elem_of_singleton in Hb as ->. rewrite Ec in Hc. rewrite <- Hp. by apply Hcov.
Qed.

Lemma add_files_grown read paths : ∀ acc acc' bundles base, grown acc.1 acc.2 bundles base → add_files read paths acc = Ok acc' →
  ∃ pems, Forall2 (λ p pem, read p = Some pem) paths pems ∧ grown acc'.1 acc'.2 (bundles ++ pems) base.
Proof.
  induction paths as [|p paths IH]; intros acc acc' bundles base Hg; cbn.
  - intros [= <-]. exists []. rewrite app_nil_r. by split.
  - destruct (read p) as [pem|] eqn:Er; [|done]. destruct (add_bundle acc pem p) as [acc1|] eqn:Eb; [|done]. cbn. intros Ha.
    apply (add_bundle_grown _ _ _ _ _ _ Hg) in Eb as [Hg1 _]. destruct (IH _ _ _ _ Hg1 Ha) as (pems & Hr & Hg2).
    exists (pem :: pems). rewrite <- app_assoc in Hg2. split; [by constructor|done].
Qed.

(** What an instance trusts: the authorities it was given, every one of them, counted
    once, and besides them the host's, unless it is told to trust nothing else. *)
Theorem trust_exact read cfg pool n : rootPool read cfg = Ok (Some pool, n) →
  ∃ base pems, (if ct_ExclusiveTrust cfg then base = [] else SystemCertPool = Some base) ∧
    Forall2 (λ p pem, read p = Some pem) (ct_CAFiles cfg) pems ∧
    grown pool n (pems ++ if String.eqb (ct_CA cfg) "" then [] else [ct_CA cfg]) base.
Proof.
  unfold rootPool. destruct (negb (clientTLS_Configured cfg) && negb (ct_ExclusiveTrust cfg)); [done|].
  assert (∀ base, grown base 0 [] base) as Hb0 by (intros base; exists []; rewrite app_nil_r; set_solver).
  destruct (if ct_ExclusiveTrust cfg then Ok [] else _) as [base|e] eqn:Eb; [|done]. cbn.
  destruct (add_files read (ct_CAFiles cfg) (base, 0%Z)) as [acc|] eqn:Ef; [|done]. cbn.
  destruct (add_files_grown read _ (base, 0%Z) _ [] base (Hb0 base) Ef) as (pems & Hr & Hg). cbn [app] in Hg. intros Hq. exists base, pems.
  split; [destruct (ct_ExclusiveTrust cfg); [by injection Eb as <-|]; by destruct SystemCertPool as [b|]; [injection Eb as <-|]|].
  split; [done|]. destruct (String.eqb (ct_CA cfg) "").
  - injection Hq as <- <-. by rewrite app_nil_r.
  - destruct (add_bundle acc (ct_CA cfg) "network.tls.ca") as [acc'|] eqn:Ea; [|done]. injection Hq as <- <-.
    by apply (add_bundle_grown _ _ _ _ _ _ Hg) in Ea as [? _].
Qed.
End egress.

(** The user name of the proxy is printed with its posture. *)
Example username_in_summary : describe_egress (mkEgress None "svc-mirror" (NewSecret "x") "http://proxy:3128" 0 false None) =
  "proxy http://proxy:3128 (authenticated as svc-mirror, password REDACTED), trusting the host certificate store".
Proof. by vm_compute. Qed.
